(* ===== verification/_CoqProject ===== *)
-Q . S2P
Prelude.v
Base.v
Buffer.v
Overflow.v
Platform.v
CheckSum.v
PeImage.v
PeSample.v
PeCoffInit.v
PeCoffLoad.v
PeCoffRelocate.v
PeCoffRuntime.v
PeCoffHash.v
PeCoffDebug.v
PeCoffHii.v
UeImage.v
UeSample.v
UeInit.v
UeLoad.v
UeRelocate.v
UeRelocateSpec.v
UeRuntime.v
UeDebug.v
OrderedCollection.v
OrderedTree.v
OrderedWalk.v
OrderedRotate.v
OrderedInsert.v
OrderedDelete.v
OrderedLib.v
Ext4Disk.v
Ext4Checksum.v
Ext4BlockMap.v
Ext4Extents.v
Ext4Cache.v
Ext4Tree.v
Ext4TreeExact.v
Ext4Read.v
Ext4Super.v
Ext4SuperSpec.v
Ext4Inode.v
Ext4Info.v
Strings.v
Utf8.v
Utf8Exact.v
LinkedList.v
Ext4Dir.v
Ext4Dentry.v
ImageRecord.v
ImageRecordPe.v
ImageRecordUe.v
MemoryMap.v
SplitTable.v
SplitCoverage.v
MemoryMerge.v
GetMemoryMap.v
MemoryAttributes.v
PageAlloc.v
PageMapSpec.v
PageFind.v
PageConvert.v
PageStack.v
PageServices.v
PageSample.v
PageAllocate.v
PageFree.v
PageBins.v
PageAdd.v
PageRun.v
PoolAlloc.v
PoolSpec.v
PoolLists.v
PoolInv.v
PoolTake.v
PoolAllocate.v
PoolFree.v
PoolPage.v
PoolRun.v
PoolServices.v
