(* ===== verification/Prelude.v ===== *)
(** Verification of the image loaders, the page and pool allocators, the memory
    map and the ext4 driver of AUDK, and of the libraries they share

    AUDK is an EDK II firmware tree whose image loaders were rewritten around
    explicit well-formedness conditions.  This library models the two places
    where the firmware interprets data it cannot trust, image files and ext4
    file systems: the loader for PE/COFF images, the loader for UE images, and
    the ext4 driver from the superblock to the bytes of a file and the lookup of
    names; the pages and the pool memory the firmware core gives out, and what it makes of
    loaded images, the memory map with their permissions; and the libraries under them: overflow-checked arithmetic, checksums,
    strings and UTF-8, linked lists, and ordered collections (red-black trees).
    It proves what the rest of the firmware relies on: no byte sequence makes a
    loader or the driver misbehave, what is loaded, hashed, relocated and read is
    what the file or the disk specifies, no memory is given to two callers, the memory
    map says of each address what it has to, and lists and collections are lists.

    * The program

    MdePkg/Library/BaseOverflowLib: addition, subtraction, multiplication and
    alignment on 16, 32, 64-bit and native integers that report overflow, with a
    compiler builtin or in software, depending on the build.

    MdePkg/Library/BasePeCoffLib2: the PE/COFF loader.  PeCoffInitializeContext
    (Init) verifies a file and fills the image context; PeCoffLoadImage and the
    in-place variants (Load) build the image in memory; PeCoffRelocateImage
    (Relocate) moves it to its base address and, for runtime drivers, records
    what it patched so that PeCoffRuntimeRelocateImage can move it again;
    PeCoffHashImageAuthenticode and the certificate iterators (Hash) serve image
    authentication; PeCoffGetPdbPath (Debug) and PeCoffGetHiiDataRva (Hii)
    retrieve debug and resource data; PeCoffInfo holds the getters.

    MdePkg/Library/BaseUeImageLib: the UE loader, one file.  The header, the
    segments and the load tables are verified in two steps around the hash
    (UeInitializeContextPreHash, UeHashImageDefault, UeInitializeContextPostHash);
    UeLoadImage builds the image; UeRelocateImage walks the relocation table,
    whose fixups form chains through the image itself, and records an unchained
    table from which UeRelocateImageForRuntime moves the image again; the debug
    table holds names and the symbols path.

    In both loaders every function reads the file or the image through offsets
    that only the verification makes valid: that contract is the interface
    between the parts.

    MdePkg/Library/BaseUefiImageLib: one interface to both loaders; it builds the
    record of the memory permissions of a loaded image.
    MdeModulePkg/Library/ImagePropertiesRecordLib splits a memory map at the
    segments of such records.  MdeModulePkg/Core/Dxe: Mem/Page.c allocates
    and frees pages in the list of memory of the firmware core, whose entries it
    keeps in pages of the same memory, prefers the bin of each memory type, and
    promotes untested memory when no other is left; it gives out the memory map,
    built from that list and from the map of the memory space; Mem/Pool.c cuts
    pages into blocks with a head and a tail, keeps free blocks on lists by size
    and returns a page all of whose blocks are free; Misc/MemoryAttributesTable.c keeps the records of
    the runtime images, adds their permissions to that map, and makes the memory
    attributes table of it.

    MdePkg/Library/BaseOrderedCollectionRedBlackTreeLib: a red-black tree of
    caller's structures with parent pointers: lookup, iteration, insertion,
    deletion, and a validation function the library can run on itself.

    Ext4Pkg/Ext4Dxe: a read-only ext4 driver.  Superblock.c and BlockGroup.c open a
    file system and find inodes; Inode.c reads from a file, whose blocks are
    found through a tree of extents (Extents.c), with the extents seen so far in
    an ordered collection, or through the block maps of ext2 (BlockMap.c), all
    over DiskUtil.c and the disk I/O protocol; Directory.c looks names up and
    keeps a tree of reference-counted dentries for open files.

    MdePkg/Library/BaseLib: sums and CRCs (CheckSum.c), strings (String.c,
    SafeString.c), doubly-linked lists (LinkedList.c).
    RedfishPkg/Library/BaseUcs2Utf8Lib: conversion between UTF-8 and UCS-2.

    * The files

    Prelude: machine integers, the state and error monad, its total-correctness
    calculus [wp] (a fault has no postcondition: proving [wp] proves safety).
    Base: alignment and power-of-two macros of MdePkg/Include/Base.h.
    Buffer: memory objects as byte lists, checked little-endian accesses.
    Overflow: BaseOverflowLib for every build configuration, and the class
    [OverflowLib], what the loaders need of it; [BaseOverflowLib] is its
    instance, and the loaders are verified against the class.
    Platform: the PCDs and architecture constants (with [PlatformOk], what all
    architectures satisfy), ASSERT, and the symbolic execution tactic.
    PeImage: structure layouts and constants of IndustryStandard/PeImage2.h, the
    context of Library/PeCoffLib2.h.
    PeSample, UeSample: concrete image files the theorems are instantiated at.
    PeCoffInit, PeCoffLoad, PeCoffRelocate, PeCoffRuntime, PeCoffHash,
    PeCoffDebug, PeCoffHii: one file per source file of BasePeCoffLib2, under the
    same name; PeCoffLoad also holds PeCoffInfo.c, and PeCoffRuntime the proofs on
    the runtime relocation defined in PeCoffRelocate.
    UeImage: IndustryStandard/UeImage.h and the context of Library/UeImageLib.h.
    UeInit, UeLoad, UeRelocate, UeDebug: the parts of UeImageLib.c in its order.
    UeRelocateSpec: the list of fixups of an image, and that relocation realises
    it; UeRuntime: where fixups are, and the runtime pass.
    OrderedCollection, OrderedInsert, OrderedDelete: the red-black tree library,
    read-only operations with rotations and validation, insertion, deletion.
    OrderedTree: trees, one-hole contexts, what it means that memory holds a
    tree, the red-black properties.  OrderedWalk: collections, the read-only
    operations.  OrderedRotate: the writing operations on a tree in focus.
    OrderedLib: the class [OrderedCollectionLib], the contract of
    Library/OrderedCollectionLib.h in terms of sorted lists, and its instance.
    CheckSum: CheckSum.c with its tables, and the bitwise CRCs they implement.
    Ext4Disk: the structures of Ext4Disk.h, partition and file (Ext4Dxe.h),
    DiskUtil.c, the class [Firmware].  Ext4Checksum: the metadata checksums of
    Superblock.c, BlockGroup.c and Inode.c.  Ext4BlockMap: BlockMap.c.
    Ext4Extents: Extents.c; Ext4Cache: proofs on its cache of extents, against
    [OrderedCollectionLib]; Ext4Tree: the search for any disk; Ext4TreeExact: for
    well-formed trees.  Ext4Read: Ext4Read of Inode.c.  Ext4Super: opening a
    superblock, descriptors, allocating and reading inodes; Ext4SuperSpec and
    Ext4Inode: the proofs, and the path from the superblock to a file's bytes.
    Ext4Info: types, space and times of files (the rest of Inode.c).
    Strings: the functions of String.c and SafeString.c that are used.  Utf8:
    BaseUcs2Utf8Lib and the class [MemoryAllocationLib]; Utf8Exact: the decoded
    string as a function of the bytes.  LinkedList: LinkedList.c.
    Ext4Dir: directory entries and lookup.  Ext4Dentry: the tree of dentries, in
    the lists of LinkedList.
    ImageRecord: image records (Library/UefiImageLib.h) and what they promise;
    ImageRecordPe, ImageRecordUe: PeSupport.c and UeSupport.c of BaseUefiImageLib.
    MemoryMap: memory descriptors and sorting.  SplitTable:
    ImagePropertiesRecordLib.c and the descriptors it writes; SplitCoverage: what
    that does to each address.  MemoryMerge: the merging of descriptors;
    GetMemoryMap: CoreGetMemoryMap; MemoryAttributes: MemoryAttributesTable.c,
    verified against the class [MemoryMapSource], of which CoreGetMemoryMap is
    the instance.
    PageAlloc: the allocator of Page.c.  PageMapSpec: the invariant of the list of
    memory, adding and pulling out ranges; PageFind: the search for free pages;
    PageConvert: the invariant of the allocator, converting a range; PageStack:
    the temporary entries and the refuelling of the list of free ones;
    PageServices: promotion of untested memory.  PageAllocate, PageFree:
    CoreInternalAllocatePages and CoreInternalFreePages; PageBins: the bins of the
    memory types; PageAdd: CoreAddMemoryDescriptor; PageRun: sequences of calls.
    PageSample: small memory maps for the examples.
    PoolAlloc: Pool.c, over the class [PoolPages] of what it uses of the page
    allocator.  PoolSpec: the laws of that class, [PoolPagesLaws], and the blocks
    of a page; PoolLists: the lists of free blocks, carving; PoolInv: the invariant;
    PoolTake, PoolAllocate: allocation; PoolFree: freeing; PoolPage: the page
    allocator is an instance of the laws; PoolRun: where buffers are, and writes
    to them; PoolServices: the calls, and sequences of calls.

    * The model

    A w-bit unsigned integer is a Z in [0, 2^w) and every expression that can
    wrap in C says so with [wrap].  Pointers into the file or the image are
    offsets into a byte list; an access outside the list is the outcome [Fault
    OutOfBounds], a failing ASSERT is [Fault AssertFailed] (when ASSERTs are
    enabled), C's undefined behaviour and the use of a variable that was never
    assigned are [Fault UndefinedBehaviour].  A RETURN_STATUS other than success
    is [Err], and keeps the state reached.  The state of PeCoffInitializeContext
    is the context; that of the loading functions is [loader]: context, raw file,
    destination and runtime context.  ImageBuffer names the buffer the image is
    in, so a PE image loaded in place shares its bytes with the file and a write
    to it changes the section table too.  The UE functions have the state
    [ue_loader], in which file and image are two buffers: UE images that execute
    in place out of their file are not modelled beyond their verification.
    The state of the red-black tree is [pool]: finite maps from addresses to
    nodes and to trees; NULL is None, and an access through NULL or to memory
    that is not allocated is a fault.
    The state [ext4] of the driver has the collections, the pool of extents, the
    sizes of the allocated buffers, the cache of the open file and a clock that
    counts the calls of the firmware: [Firmware] gives the disk's answer at each
    time, so a disk may fail or change its contents between two reads, and the
    allocator may fail at any call.  Structures on disk are byte lists read
    through the layouts of their headers.  Strings are lists of characters with
    a terminator; reading behind the list is a fault.  A linked list is a finite
    map from the addresses of its nodes to their two links; in Ext4Dentry an
    address is one of the two list entries of a dentry; the lists of image
    records, of memory and of memory space are the sequences such lists
    represent.  The state of the operations on a memory map is the buffer, a
    list of descriptors; the distance of two descriptors is a number beside it.
    The state of the page allocator is [PAGES], the variables of Page.c; an
    entry of the list of memory is in a slot of mMapStack or at an address in a
    page, so that the theorems can say that entries do not lie in pages that are
    given out.  The state of the pool is [POOLS]: the pools, the state of the page
    allocator and the memory, in which the fields of heads, tails and free blocks
    are cells at their addresses; a cell whose contents are not known is missing,
    and reading it is a fault; a free list is the sequence of its blocks.  Lock functions, events and, in CoreGetMemoryMap, the map key have
    no counterpart.  The collation protocol
    is a function on strings.

    The names of the source are kept.  Long C functions are cut at their
    comments into definitions named Function_Part and composed in source order;
    a for loop over an index is [for_loop], any other loop is a Fixpoint.  Fuel:
    the loops over PE relocation blocks take RelocDirSize, since each iteration
    consumes at least the eight bytes of a block header; the UE loops over roots
    and heads take S RelocTableSize, the loop along a chain S ImageSize, since
    they advance in the table and in the image; the loops of the red-black tree
    take one more than the number of nodes in memory, and so do those of linked
    lists and dentries; reading a file takes one more than the bytes to read, a
    directory one more than its blocks and one more than the bytes of a block, a
    string one more than its length; the descent in an extent tree is bounded by
    the depth limit of the format; splitting a descriptor takes one more than
    the number of images, merging one more than the number of descriptors;
    converting pages takes one more than the pages, a search for pages one more
    than the entries of the memory space, each of which is promoted once, and
    CoreFreeMemoryMapStack calls itself once, when it returns at once; the loops
    over the blocks of a page take one more than a page has smallest blocks, and
    the pool calls itself once, for the pool of another memory type.
    The theorems prove that the fuel never runs
    out, or, for the two loops that do not end, that it always does.  DEBUG_RAISE, a debugger hook, is not modelled, nor
    are the NULL checks of pointers that the model passes by value.
    Fields of packed integers are the masks and shifts the compilers of the
    firmware use.  What AllocatePool answers, the hash algorithm and the
    comparison functions of a collection are parameters; a node is allocated at
    an address that is not in use.

    * The theorems

    Arithmetic (Overflow): in every build each routine sets its flag exactly when
    the mathematical result does not fit; three-operand routines, alignment and
    the 64x64/32 multiply-divide are exact.

    Verification (PeCoffInit, UeInit): PeCoffInitializeContext never faults on any
    byte list; what it accepts is [WellFormed], the constraints of the library's
    Documentation.md; in strict mode the section checks accept every table that
    satisfies them.  The verification of UE files not for execution in place
    never faults and accepts exactly the well-formed ones.

    Loading (PeCoffLoad, UeLoad): the loaded image is, byte for byte, a
    specification that does not mention the loading loop ([loaded_byte],
    [UeLoaded]); in-place loading agrees with it on all sections; discarding
    zeroes the discardable sections only.

    Relocation (PeCoffRelocate, PeCoffRuntime, UeRelocateSpec, UeRuntime):
    relocation is safe and terminates for every directory contents; a successful
    one equals the fold of the relocations of the unmodified image, although the
    code reads the directory, or the chain, from the image it is patching;
    relocating to the preferred base is the identity; runtime relocation is safe
    whatever happened to the image and applies exactly the relocations whose
    targets are as recorded.  For a chained UE image below 2 GiB, recording at
    boot and moving at runtime is the same as relocating to the new address at
    once.

    Hashing (PeCoffHash): the section sort is a stable sort, the bytes hashed are
    the Authenticode ranges, and the certificate iteration stays in the directory
    and ends.  Debug and resource data (PeCoffDebug, PeCoffHii, UeDebug): what is
    returned lies in the file or the image.

    Collections (OrderedInsert, OrderedDelete, OrderedWalk, OrderedLib): insertion
    and deletion never fault, keep the red-black properties and refine insertion
    into and removal from a sorted list, with every other entry at its address;
    lookup is exact and visits at most 2 log2 (n + 1) nodes; iteration follows
    the order; validation never fails on a collection.

    Checksums and strings (CheckSum, Utf8): the table-driven CRCs are polynomial
    division; decoding UTF-8 is safe for any bytes and leaks nothing, and
    encoding followed by decoding is the identity.
    Linked lists (LinkedList): operations on nodes refine operations on
    sequences, queries answer for the sequence.

    The file system: for any disk, opening, finding an inode, looking up an
    extent, reading and looking up a name never fault, end, leak nothing and keep
    the cache consistent (Ext4Cache, Ext4Tree, Ext4Read, Ext4SuperSpec,
    Ext4Inode, Ext4Dir), within the bounds on block size and number of groups
    the theorems name; on well-formed structures the results are exactly those
    the format gives: the checksums (Ext4Checksum), the block (Ext4BlockMap for
    all but trebly indirect blocks, Ext4TreeExact), the bytes (Ext4Read), the times (Ext4Info), the first
    matching entry (Ext4Dir); opening a volume is refused only for the reasons
    listed (Ext4SuperSpec).  Dentries (Ext4Dentry): in every reachable state
    held dentries and their ancestors are allocated, no operation fails, and
    nothing is left when all references have been released.

    Image records (ImageRecordPe, ImageRecordUe): the record of a verified and
    loaded image has contiguous, aligned segments that cover the image and give
    each byte the permissions of its section, and no PE segment is writable and
    executable.

    The memory map (SplitCoverage, GetMemoryMap, MemoryAttributes): what a map says
    is a [view], the types and attributes of each address.  CoreGetMemoryMap's
    view is that of the firmware's lists; splitting changes it at the addresses
    of the images only; merging does not change it.  Together: the map a
    caller gets has each address of an image in one descriptor, with the
    permissions of its segment, and is otherwise that of the firmware's lists;
    a caller that retries with the sizes it is told succeeds in the end.  The records stay
    sorted, disjoint and counted along every history of loading and unloading.

    The page allocator (PageAllocate, PageFree, PageAdd, PageBins, PageRun): the
    [view] of the list of memory gives each address at most one entry, and the
    entries lie in pages of boot services data.  Allocation returns pages that were
    free, of the size, alignment and bounds asked for, freeing makes exactly the
    pages of the range free, adding memory adds it; all other memory is what it
    was, except free pages that are taken for entries.  (For sizes that do not
    wrap, and as long as entries or a page for them and no free memory below a
    large alignment are left.)  mMapStack does not
    overflow, although allocating an entry may itself split memory.  The bins are
    disjoint and have the sizes asked for.  In every state that calls of these
    functions reach, the blocks that are held are disjoint from each other and
    from the entries, can be freed, and are in the map CoreGetMemoryMap reports.

    The pool (PoolServices), against the laws of the page allocator, for the types
    that have a pool from the start and sizes that do not wrap: allocation
    returns a new buffer, or fails without effect on the buffers; freeing takes
    back any buffer that is held; neither fails an ASSERT nor reads memory that it
    has not written.  Whatever the callers do with their buffers, and others with
    their pages, the buffers are disjoint from each other and from the memory of
    others, aligned, in pages of their type, and can be freed.

    Negative results are stated as such and name what the code does: the software
    branch of BaseOverflowMulU16 misses overflows, the first ASSERT of
    PeCoffGetFirstCertificate is inverted, the bound on resource sub-directories
    lets PeCoffGetHiiDataRva read sixteen bytes too far, in-place relocation with
    relaxed section policy can leave the file, the last alignment fallback of
    InternalVerifySections rejects every image; the offsets of a UE file for
    execution in place can wrap, recording the fixups of a UE image without
    chains uses an unassigned variable, and a skipped mismatch at runtime makes
    the following fixups be looked up at wrong addresses.  In the ext4 driver, a
    read from the middle of an unwritten extent hides data, reads with blocks of
    128 KiB and opening a volume of 2^32 groups do not end, volumes of less than
    a block group are rejected, the tests of file types overlap, names with
    characters that are not ASCII are not found, and the trebly indirect blocks of
    a block map are looked up in the doubly indirect tree or not at all.  The record of a PE image whose
    headers end unaligned is short of the image, and ASSERTs fail on some verified
    images when records are built.  CoreGetMemoryMap writes behind the caller's
    buffer when memory is to be accepted, MergeMemoryMap reads behind a full
    one, and on 32-bit platforms SplitTable drops memory above 4 GiB.  A request for
    2^52 + 1 pages is granted with one page, free memory below 64 KB can make
    requests for runtime memory fail, promoting many untested regions at once
    overflows mMapStack, and the size of a bin of 4 GB wraps.  The largest request
    that the pool accepts wraps and is granted with 128 bytes.

    * Not modelled

    Of BaseUefiImageLib the functions that only forward to one of the loaders,
    print or search memory while debugging; of the DXE core heap
    guard in the allocators, the profile, locks, the protection of
    memory, images at fixed addresses, events and the dispatcher, and
    the guard pages of freed memory in the theorems on the memory map (the theorem
    on adding memory is for the time after the bins are set up; the calls before
    that are modelled, and evaluated on examples, and so are the pools of memory
    types of the OEM or the OS); of the
    ext4 driver the protocol interfaces (opening files by path, symbolic links,
    file information, driver binding); the PEI core, image verification and the
    rest of EDK II. *)
From Stdlib Require Export ZArith Lia.
From stdpp Require Export base tactics list numbers option.

#[global] Open Scope Z_scope.

(** ** Machine integers *)

(** A C unsigned integer of [w] bits is a [Z] in [0, 2^w). *)
Definition is_uint (w x : Z) : Prop := 0 <= x < 2 ^ w.

(** A C signed (two's complement) integer of [w] bits. *)
Definition is_sint (w x : Z) : Prop := - 2 ^ (w - 1) <= x < 2 ^ (w - 1).

(** Conversion to an unsigned type: reduction modulo [2^w]. *)
Definition wrap (w x : Z) : Z := x mod 2 ^ w.

(** Conversion to a signed type: the representative in [-2^(w-1), 2^(w-1)). *)
Definition swrap (w x : Z) : Z := (x + 2 ^ (w - 1)) mod 2 ^ w - 2 ^ (w - 1).

Declare Scope machine_scope.
Delimit Scope machine_scope with machine.
Notation "'u8' x" := (is_uint 8 x) (at level 9, x at level 9) : machine_scope.
Notation "'u16' x" := (is_uint 16 x) (at level 9, x at level 9) : machine_scope.
Notation "'u32' x" := (is_uint 32 x) (at level 9, x at level 9) : machine_scope.
Notation "'u64' x" := (is_uint 64 x) (at level 9, x at level 9) : machine_scope.
#[global] Open Scope machine_scope.

#[global] Instance is_uint_dec w x : Decision (is_uint w x).
Proof. unfold is_uint. apply _. Defined.

(** ** Status codes and faults *)

(** The [RETURN_STATUS] codes the modelled functions return.  Success is the
    [Ok] outcome below, so only the error codes carry a constructor. *)
Inductive RETURN_STATUS :=
| RETURN_UNSUPPORTED
| RETURN_VOLUME_CORRUPTED
| RETURN_NOT_FOUND
| RETURN_NOT_STARTED
| RETURN_OUT_OF_RESOURCES
| RETURN_ALREADY_STARTED
| RETURN_NO_MAPPING
| RETURN_INVALID_PARAMETER
| RETURN_DEVICE_ERROR
| RETURN_SECURITY_VIOLATION
| RETURN_BUFFER_TOO_SMALL
| RETURN_ACCESS_DENIED
| RETURN_WRITE_PROTECTED.

#[global] Instance RETURN_STATUS_eq_dec : EqDecision RETURN_STATUS.
Proof. solve_decision. Defined.

(** What the program must never do: fail an ASSERT, access memory out of the
    bounds of its object, evaluate an expression C leaves undefined or use a
    variable that was never assigned.  [OutOfFuel]
    marks a loop that did not finish within the bound given to it. *)
Inductive fault :=
| AssertFailed
| OutOfBounds
| UndefinedBehaviour
| OutOfFuel.

#[global] Instance fault_eq_dec : EqDecision fault.
Proof. solve_decision. Defined.

(** ** A state and error monad

    A C function that updates the objects it has pointers to and returns a
    status is a function from the state to one of three outcomes.  An error
    keeps the state, because the C code has already performed its updates. *)
Inductive outcome (S A : Type) :=
| Ok (a : A) (s : S)
| Err (e : RETURN_STATUS) (s : S)
| Fault (f : fault).
Arguments Ok {S A} a s.
Arguments Err {S A} e s.
Arguments Fault {S A} f.

#[global] Instance outcome_eq_dec {S A} `{!EqDecision S, !EqDecision A} :
  EqDecision (outcome S A).
Proof. solve_decision. Defined.

Definition M (S A : Type) : Type := S → outcome S A.

#[global] Instance M_ret {S} : MRet (M S) := λ A a s, Ok a s.
#[global] Instance M_bind {S} : MBind (M S) := λ A B f m s,
  match m s with
  | Ok a s' => f a s'
  | Err e s' => Err e s'
  | Fault x => Fault x
  end.

Definition raise {S A} (e : RETURN_STATUS) : M S A := λ s, Err e s.
Definition crash {S A} (f : fault) : M S A := λ s, Fault f.
Definition getS {S} : M S S := λ s, Ok s s.
Definition modify {S} (f : S → S) : M S unit := λ s, Ok tt (f s).

(** [if (b) { return e; }] *)
Definition fail_if {S} (b : bool) (e : RETURN_STATUS) : M S unit :=
  if b then raise e else mret tt.

(** An access that is only defined when [b] holds. *)
Definition require {S} (b : bool) (f : fault) : M S unit :=
  if b then mret tt else crash f.

(** [Status = f (...);] when the caller looks at the status instead of returning it. *)
Definition attempt {S A} (m : M S A) : M S (RETURN_STATUS + A) := λ s,
  match m s with
  | Ok a s' => Ok (inr a) s'
  | Err e s' => Ok (inl e) s'
  | Fault f => Fault f
  end.

(** [for (i = first; i < first + n; ++i)], threading [acc]. *)
Fixpoint for_loop {S A} (n : nat) (i : Z) (body : Z → A → M S A) (acc : A) : M S A :=
  match n with
  | O => mret acc
  | S k => acc' ← body i acc; for_loop k (i + 1) body acc'
  end.

(** ** Total-correctness specifications

    [wp m Q E s]: run from [s], [m] does not fault, satisfies [Q] when it
    succeeds and [E] when it returns an error. *)
Definition wp {S A} (m : M S A) (Q : A → S → Prop) (E : RETURN_STATUS → S → Prop)
    (s : S) : Prop :=
  match m s with
  | Ok a s' => Q a s'
  | Err e s' => E e s'
  | Fault _ => False
  end.

Definition never_faults {S A} (m : M S A) (s : S) : Prop := ∀ f, m s ≠ Fault f.

Section wp_rules.
Context {S : Type}.
Implicit Types (s : S) (E : RETURN_STATUS → S → Prop).

Lemma wp_ret {A} (a : A) Q E s : Q a s → wp (mret a) Q E s.
Proof. done. Qed.

Lemma wp_bind {A B} (m : M S A) (k : A → M S B) Q E s :
  wp m (λ a s', wp (k a) Q E s') E s → wp (m ≫= k) Q E s.
Proof. unfold wp, mbind, M_bind. destruct (m s); done. Qed.

Lemma wp_bind_inv {A B} (m : M S A) (k : A → M S B) Q E s :
  wp (m ≫= k) Q E s → wp m (λ a s', wp (k a) Q E s') E s.
Proof. unfold wp, mbind, M_bind. destruct (m s); done. Qed.

Lemma wp_raise {A} e (Q : A → S → Prop) E s : E e s → wp (raise e) Q E s.
Proof. done. Qed.

Lemma wp_getS (Q : S → S → Prop) E s : Q s s → wp getS Q E s.
Proof. done. Qed.

Lemma wp_modify f (Q : unit → S → Prop) E s : Q tt (f s) → wp (modify f) Q E s.
Proof. done. Qed.

Lemma wp_fail_if b e (Q : unit → S → Prop) E s :
  (b = true → E e s) → (b = false → Q tt s) → wp (fail_if b e) Q E s.
Proof. destruct b; cbn; auto. Qed.

Lemma wp_require b f (Q : unit → S → Prop) E s :
  b = true → Q tt s → wp (require b f) Q E s.
Proof. intros ->; done. Qed.

Lemma wp_if {A} (b : bool) (m1 m2 : M S A) Q E s :
  (b = true → wp m1 Q E s) → (b = false → wp m2 Q E s) →
  wp (if b then m1 else m2) Q E s.
Proof. destruct b; auto. Qed.

Lemma wp_mono {A} (m : M S A) (Q Q' : A → S → Prop) E E' s :
  wp m Q E s → (∀ a s', Q a s' → Q' a s') → (∀ e s', E e s' → E' e s') →
  wp m Q' E' s.
Proof. unfold wp. destruct (m s); eauto. Qed.

Lemma wp_attempt {A} (m : M S A) (Q : RETURN_STATUS + A → S → Prop) E s :
  wp m (λ a, Q (inr a)) (λ e, Q (inl e)) s → wp (attempt m) Q E s.
Proof. unfold wp, attempt. destruct (m s); done. Qed.

Lemma wp_for_loop {A} (I : Z → A → S → Prop) E body :
  ∀ n i acc s,
    I i acc s →
    (∀ j a s', i <= j < i + Z.of_nat n → I j a s' → wp (body j a) (I (j + 1)) E s') →
    wp (for_loop n i body acc) (I (i + Z.of_nat n)) E s.
Proof.
  induction n as [|n IH]; intros i acc s HI Hbody.
  - cbn [for_loop]. apply wp_ret. by rewrite Z.add_0_r.
  - cbn [for_loop]. apply wp_bind. eapply wp_mono; [apply Hbody; [lia|exact HI]| |done].
    intros a s' HI'. cbn beta in HI'.
    replace (i + Z.of_nat (Datatypes.S n)) with (i + 1 + Z.of_nat n) by lia.
    apply IH; [done|]. intros j b s'' Hj. apply Hbody. lia.
Qed.

(** From a specification to statements about the outcome. *)
Lemma wp_never_faults {A} (m : M S A) Q E s : wp m Q E s → never_faults m s.
Proof. unfold wp, never_faults. intros H f Hf. by rewrite Hf in H. Qed.

Lemma wp_ok {A} (m : M S A) Q E s a s' : wp m Q E s → m s = Ok a s' → Q a s'.
Proof. unfold wp. intros H Hm. by rewrite Hm in H. Qed.

Lemma wp_err {A} (m : M S A) Q E s e s' : wp m Q E s → m s = Err e s' → E e s'.
Proof. unfold wp. intros H Hm. by rewrite Hm in H. Qed.

(** The other way round: a known outcome. *)
Lemma wp_intro_ok {A} (m : M S A) (Q : A → S → Prop) E s a s' : m s = Ok a s' → Q a s' → wp m Q E s.
Proof. unfold wp. by intros ->. Qed.

(** A specification read as a case distinction on the outcome. *)
Lemma wp_cases {A} (m : M S A) Q E s :
  wp m Q E s → match m s with Ok a s' => Q a s' | Err e s' => E e s' | Fault _ => False end.
Proof. done. Qed.

Lemma wp_of_cases {A} (m : M S A) (Q : A → S → Prop) E s :
  match m s with Ok a s' => Q a s' | Err e s' => E e s' | Fault _ => False end → wp m Q E s.
Proof. done. Qed.

(** A specification that excludes errors is a proof of success. *)
Lemma wp_total {A} (m : M S A) Q s :
  wp m Q (λ _ _, False) s → ∃ a s', m s = Ok a s' ∧ Q a s'.
Proof. unfold wp. destruct (m s); [|done..]. eauto. Qed.

(** A specification that excludes errors and fixes the result is an equation. *)
Lemma wp_exact {A} (m : M S A) s a s' :
  wp m (λ b t, b = a ∧ t = s') (λ _ _, False) s → m s = Ok a s'.
Proof. unfold wp. destruct (m s); [|done..]. by intros [-> ->]. Qed.
End wp_rules.

#[global] Opaque wp.
