(* ===== verification/Base.v ===== *)
(** Arithmetic macros of MdePkg/Include/Base.h: alignment and powers of two,
    on machine integers, with the facts on divisibility the loader relies on. *)
From S2P Require Import Prelude.

(** Bitwise complement of a [w]-bit value. *)
Definition lnot_w (w x : Z) : Z := wrap w (Z.lnot x).

Definition IS_POW2 (Value : Z) : bool :=
  negb (Value =? 0) && (Z.land Value (Value - 1) =? 0).

Definition ALIGN_VALUE_SUBTRAHEND (Value Alignment : Z) : Z :=
  Z.land Value (Alignment - 1).

Definition IS_ALIGNED (Value Alignment : Z) : bool :=
  ALIGN_VALUE_SUBTRAHEND Value Alignment =? 0.

(** The operands have [w] bits, so the subtraction and the addition wrap. *)
Definition ALIGN_VALUE_ADDEND (w Value Alignment : Z) : Z :=
  Z.land (wrap w (Alignment - Value)) (Alignment - 1).

Definition ALIGN_VALUE (w Value Alignment : Z) : Z :=
  wrap w (Value + ALIGN_VALUE_ADDEND w Value Alignment).

(** ** Wrap-around *)

Lemma wrap_small w x : is_uint w x → wrap w x = x.
Proof. intros. by apply Z.mod_small. Qed.

Lemma wrap_range w x : 0 <= w → is_uint w (wrap w x).
Proof. intros. apply Z.mod_pos_bound. by apply Z.pow_pos_nonneg. Qed.

Lemma is_uint_mono w w' x : w <= w' → is_uint w x → is_uint w' x.
Proof.
  intros Hw [Hl Hu]. split; [done|].
  destruct (decide (w < 0)). { rewrite Z.pow_neg_r in Hu; lia. }
  eapply Z.lt_le_trans; [exact Hu|]. apply Z.pow_le_mono_r; lia.
Qed.

Lemma uint_testbit_high w x i : is_uint w x → 0 <= w <= i → Z.testbit x i = false.
Proof.
  intros Hx Hi. rewrite <- (wrap_small w x) by done. unfold wrap.
  by apply Z.mod_pow2_bits_high.
Qed.

(** Fields that do not overlap are packed by addition. *)
Lemma lor_shiftl_add x y k : 0 <= k → is_uint k y → Z.lor (Z.shiftl x k) y = x * 2 ^ k + y.
Proof.
  intros Hk Hy. assert (Z.land (Z.shiftl x k) y = 0) as Hdisj.
  { apply Z.bits_inj'. intros n Hn. rewrite Z.land_spec, Z.bits_0.
    destruct (decide (n < k)); [by rewrite Z.shiftl_spec_low|].
    rewrite (uint_testbit_high k y) by (done || lia). apply andb_false_r. }
  rewrite <- Z.lxor_lor, <- Z.add_nocarry_lxor by done. by rewrite Z.shiftl_mul_pow2.
Qed.

(** ** Powers of two *)

Lemma mask_ones k : 2 ^ k - 1 = Z.ones k.
Proof. by rewrite Z.ones_equiv, Z.sub_1_r. Qed.

Lemma land_mask x k : 0 <= k → Z.land x (2 ^ k - 1) = x mod 2 ^ k.
Proof. intros. rewrite mask_ones. by apply Z.land_ones. Qed.

Lemma land_lnot_mask w x k :
  is_uint w x → 0 <= k → 0 <= w →
  Z.land x (lnot_w w (2 ^ k - 1)) = x - x mod 2 ^ k.
Proof.
  intros Hx Hk Hw. rewrite mask_ones. unfold lnot_w, wrap.
  rewrite <- (Z.land_ones _ w) by done.
  rewrite (Z.land_comm (Z.lnot _)), Z.land_assoc, Z.land_ones by done.
  rewrite Z.mod_small by done.
  rewrite <- Z.ldiff_land, Z.ldiff_ones_r by done.
  rewrite Z.shiftl_mul_pow2, Z.shiftr_div_pow2 by done.
  pose proof (Z.div_mod x (2 ^ k)). lia.
Qed.

Lemma IS_POW2_spec v : 0 <= v → IS_POW2 v = true ↔ ∃ k, 0 <= k ∧ v = 2 ^ k.
Proof.
  intros Hv. unfold IS_POW2. rewrite andb_true_iff, negb_true_iff, Z.eqb_neq, Z.eqb_eq.
  split.
  - intros [Hnz Hland]. exists (Z.log2 v). split; [apply Z.log2_nonneg|].
    assert (0 < v) as Hpos by lia.
    destruct (Z.log2_spec v Hpos) as [Hlo Hhi].
    destruct (decide (v = 2 ^ Z.log2 v)) as [|Hne]; [done|exfalso].
    pose proof (Z.pow_pos_nonneg 2 (Z.log2 v) ltac:(lia) (Z.log2_nonneg v)).
    assert (Z.testbit (Z.land v (v - 1)) (Z.log2 v) = true) as Hbit.
    { rewrite Z.land_spec, Z.bit_log2 by done. cbn.
      replace (Z.log2 v) with (Z.log2 (v - 1)); [apply Z.bit_log2; lia|].
      apply Z.log2_unique; [apply Z.log2_nonneg|lia]. }
    by rewrite Hland, Z.bits_0 in Hbit.
  - intros (k & Hk & ->). pose proof (Z.pow_pos_nonneg 2 k).
    split; [lia|]. rewrite land_mask by done. apply Z.mod_same. lia.
Qed.

Lemma IS_ALIGNED_pow2 x k : 0 <= k → IS_ALIGNED x (2 ^ k) = (x mod 2 ^ k =? 0).
Proof. intros. unfold IS_ALIGNED, ALIGN_VALUE_SUBTRAHEND. by rewrite land_mask. Qed.

Lemma IS_ALIGNED_spec x a :
  0 <= a → IS_POW2 a = true → IS_ALIGNED x a = true ↔ (a | x).
Proof.
  intros Ha Hp. apply IS_POW2_spec in Hp as (k & Hk & ->); [|done].
  rewrite IS_ALIGNED_pow2, Z.eqb_eq by done.
  pose proof (Z.pow_pos_nonneg 2 k). apply Z.mod_divide. lia.
Qed.

(** Two powers of two divide one another in order. *)
Lemma pow2_divide a b :
  0 <= a → IS_POW2 a = true → IS_POW2 b = true → a <= b → (a | b).
Proof.
  intros Ha Hpa Hpb Hab.
  apply IS_POW2_spec in Hpa as (i & Hi & ->); [|lia].
  apply IS_POW2_spec in Hpb as (j & Hj & ->); [|lia].
  assert (i <= j) as Hij by (apply (Z.pow_le_mono_r_iff 2); lia).
  exists (2 ^ (j - i)). rewrite <- Z.pow_add_r by lia. f_equal. lia.
Qed.

Lemma IS_POW2_pos a : 0 <= a → IS_POW2 a = true → 0 < a.
Proof.
  intros Ha H. apply IS_POW2_spec in H as (k & Hk & ->); [|done].
  apply Z.pow_pos_nonneg; lia.
Qed.

(** Rounding up to a multiple: the mathematical reference for the C macros. *)
Definition align_up (x a : Z) : Z := (x + a - 1) / a * a.

Lemma align_up_ge x a : 0 < a → x <= align_up x a < x + a.
Proof.
  intros Ha. unfold align_up. pose proof (Z.div_mod (x + a - 1) a).
  pose proof (Z.mod_pos_bound (x + a - 1) a Ha). lia.
Qed.

Lemma align_up_divide x a : (a | align_up x a).
Proof. unfold align_up. apply Z.divide_factor_r. Qed.

Lemma align_up_least x a y : 0 < a → (a | y) → x <= y → align_up x a <= y.
Proof.
  intros Ha [q ->] Hle. unfold align_up.
  enough ((x + a - 1) / a <= q) by nia.
  apply Z.lt_succ_r, Z.div_lt_upper_bound; lia.
Qed.

Lemma align_up_id x a : 0 < a → (a | x) → align_up x a = x.
Proof.
  intros Ha Hd. pose proof (align_up_ge x a Ha).
  pose proof (align_up_least x a x Ha Hd). lia.
Qed.

(** [(x + (a - 1)) & ~(a - 1)] rounds up when the sum does not wrap. *)
Lemma align_up_mask w x a :
  0 <= w → 0 <= a → IS_POW2 a = true → is_uint w x → is_uint w (x + (a - 1)) →
  Z.land (x + (a - 1)) (lnot_w w (a - 1)) = align_up x a.
Proof.
  intros Hw Ha Hp Hx Hs. apply IS_POW2_spec in Hp as (k & Hk & ->); [|done].
  rewrite land_lnot_mask by done. unfold align_up.
  pose proof (Z.pow_pos_nonneg 2 k).
  replace (x + 2 ^ k - 1) with (x + (2 ^ k - 1)) by lia.
  pose proof (Z.div_mod (x + (2 ^ k - 1)) (2 ^ k)). lia.
Qed.

Lemma ALIGN_VALUE_spec w x a :
  0 <= w → is_uint w a → IS_POW2 a = true → is_uint w x → is_uint w (align_up x a) →
  ALIGN_VALUE w x a = align_up x a.
Proof.
  intros Hw Ha Hp Hx Hs.
  assert (is_uint w a) as [Ha0 Ha1] by done.
  apply IS_POW2_spec in Hp as (k & Hk & ->); [|done].
  assert (k < w) as Hkw by (apply (Z.pow_lt_mono_r_iff 2); lia).
  unfold ALIGN_VALUE, ALIGN_VALUE_ADDEND. rewrite land_mask by done.
  enough (x + wrap w (2 ^ k - x) mod 2 ^ k = align_up x (2 ^ k)) as ->
    by by apply wrap_small.
  assert (0 < 2 ^ k) as Hpos by (apply Z.pow_pos_nonneg; lia).
  unfold wrap. replace (2 ^ w) with (2 ^ (w - k) * 2 ^ k)
    by (rewrite <- Z.pow_add_r by lia; f_equal; lia).
  rewrite (Z.mul_comm (2 ^ (w - k))), Z.rem_mul_r, Z.add_mod, (Z.mul_comm (2 ^ k)),
    Z.mod_mul, Z.add_0_r, Z.mod_mod, Z.mod_mod by (try apply Z.pow_pos_nonneg; lia).
  destruct (align_up_ge x (2 ^ k) Hpos). destruct (align_up_divide x (2 ^ k)) as [q Hq].
  rewrite Hq in *. replace (2 ^ k - x) with (q * 2 ^ k - x + (1 - q) * 2 ^ k) by lia.
  rewrite Z.mod_add, Z.mod_small by lia. lia.
Qed.
