(* ===== verification/Buffer.v ===== *)
(** Byte buffers: the memory objects the image loader reads and writes.

    A buffer is the list of its bytes, each a [Z] in [0, 256).  An access at an
    offset that is not inside the buffer is a fault of the program, never a
    default value.  [load] and [write_bytes] are the total functions the
    specifications use; [rd] is the checked access of the program.  The
    operations model the memory primitives the loader calls (CopyMem, ZeroMem,
    ReadUnaligned32, WriteUnaligned32, ...) on a little-endian machine, which
    every architecture of the repository is. *)
From S2P Require Import Prelude Base.

Definition size (b : list Z) : Z := Z.of_nat (length b).

(** A buffer of bytes. *)
Definition bytes (b : list Z) : Prop := Forall (is_uint 8) b.

Definition byte_at (b : list Z) (i : Z) : Z :=
  if i <? 0 then 0 else nth (Z.to_nat i) b 0.

(** Little-endian load of [n] bytes at [off]. *)
Fixpoint load (n : nat) (b : list Z) (off : Z) : Z :=
  match n with
  | O => 0
  | S k => byte_at b off + 256 * load k b (off + 1)
  end.

(** The [n] low bytes of [v], least significant first. *)
Fixpoint le_bytes (n : nat) (v : Z) : list Z :=
  match n with
  | O => []
  | S k => v mod 256 :: le_bytes k (v / 256)
  end.

(** Overwrite the bytes from [off] on with [l]. *)
Definition write_bytes (b : list Z) (off : Z) (l : list Z) : list Z :=
  take (Z.to_nat off) b ++ l ++ drop (Z.to_nat off + length l) b.

Definition slice (b : list Z) (off n : Z) : list Z :=
  take (Z.to_nat n) (drop (Z.to_nat off) b).

Definition zeros (n : Z) : list Z := replicate (Z.to_nat n) 0.

(** [off, off + n) lies inside the buffer. *)
Definition in_bounds (b : list Z) (off n : Z) : bool :=
  (0 <=? off) && (0 <=? n) && (off + n <=? size b).

(** *Ptr with the pointer [off] bytes into [b], reading [n] bytes. *)
Definition rd {S} (n : nat) (b : list Z) (off : Z) : M S Z :=
  require (in_bounds b off (Z.of_nat n)) OutOfBounds;; mret (load n b off).

(** ** Facts on bytes *)

Lemma size_nonneg b : 0 <= size b.
Proof. unfold size. lia. Qed.

Lemma byte_at_range b i : bytes b → u8 (byte_at b i).
Proof.
  intros Hb. unfold byte_at. destruct (Z.ltb_spec i 0); [by compute|].
  destruct (nth_in_or_default (Z.to_nat i) b 0) as [Hin| ->]; [|by compute].
  by eapply List.Forall_forall in Hb.
Qed.

Lemma byte_at_oob b i : i < 0 ∨ size b <= i → byte_at b i = 0.
Proof.
  unfold byte_at, size. intros H. destruct (Z.ltb_spec i 0); [done|].
  apply nth_overflow. lia.
Qed.

Lemma byte_at_app l1 l2 i :
  byte_at (l1 ++ l2) i = if i <? size l1 then byte_at l1 i else byte_at l2 (i - size l1).
Proof.
  unfold byte_at, size. destruct (Z.ltb_spec i 0).
  - destruct (Z.ltb_spec i (Z.of_nat (length l1))); [done|lia].
  - destruct (Z.ltb_spec i (Z.of_nat (length l1))).
    + rewrite app_nth1 by lia. done.
    + rewrite app_nth2 by lia. destruct (Z.ltb_spec (i - Z.of_nat (length l1)) 0); [lia|].
      f_equal. lia.
Qed.

Lemma byte_at_take n b i : 0 <= i < Z.of_nat n → byte_at (take n b) i = byte_at b i.
Proof.
  intros Hi. unfold byte_at. destruct (Z.ltb_spec i 0); [lia|].
  rewrite <- (take_drop n b) at 2. destruct (decide (Z.to_nat i < length (take n b))%nat).
  - by rewrite app_nth1.
  - rewrite length_take in n0. rewrite !nth_overflow; [done| |].
    + rewrite length_app, length_take, length_drop. lia.
    + rewrite length_take. lia.
Qed.

Lemma byte_at_drop n b i : 0 <= i → byte_at (drop n b) i = byte_at b (Z.of_nat n + i).
Proof.
  intros Hi. unfold byte_at. destruct (Z.ltb_spec i 0), (Z.ltb_spec (Z.of_nat n + i) 0);
    try lia. replace (Z.to_nat (Z.of_nat n + i)) with (n + Z.to_nat i)%nat by lia.
  clear. generalize (Z.to_nat i) as j. intros j. revert b.
  induction n as [|n IH]; intros b; [done|]. destruct b as [|x b]; [by destruct j|]. apply IH.
Qed.

Lemma byte_at_replicate n x i : byte_at (replicate n x) i =
  if (0 <=? i) && (i <? Z.of_nat n) then x else 0.
Proof.
  unfold byte_at. destruct (Z.ltb_spec i 0), (Z.leb_spec 0 i); cbn; try lia; try done.
  destruct (Z.ltb_spec i (Z.of_nat n)).
  - assert (Z.to_nat i < n)%nat as Hlt by lia. revert Hlt.
    generalize (Z.to_nat i) as j. clear. induction n as [|n IH]; intros [|j] Hlt; cbn;
      try lia. apply IH. lia.
  - apply nth_overflow. rewrite length_replicate. lia.
Qed.

(** Two buffers with the same bytes are equal. *)
Lemma buffer_ext b b' :
  size b = size b' → (∀ i, 0 <= i < size b → byte_at b i = byte_at b' i) → b = b'.
Proof.
  unfold size, byte_at. intros Hlen Hb. apply (nth_ext _ _ 0 0); [lia|].
  intros n Hn. specialize (Hb (Z.of_nat n)). destruct (Z.ltb_spec (Z.of_nat n) 0); [lia|].
  rewrite Nat2Z.id in Hb. apply Hb. lia.
Qed.

(** ** Sub-buffers *)

Lemma bytes_byte_at b : (∀ i, 0 <= i < size b → u8 (byte_at b i)) → bytes b.
Proof.
  intros H. apply Forall_lookup. intros i x Hi. specialize (H (Z.of_nat i)).
  apply lookup_lt_Some in Hi as Hlt. unfold byte_at, size in H.
  destruct (Z.ltb_spec (Z.of_nat i) 0); [lia|]. rewrite Nat2Z.id in H.
  rewrite nth_lookup, Hi in H. apply H. lia.
Qed.

Lemma in_bounds_spec b off n :
  in_bounds b off n = true ↔ 0 <= off ∧ 0 <= n ∧ off + n <= size b.
Proof. unfold in_bounds. rewrite !andb_true_iff, !Z.leb_le. tauto. Qed.

Lemma size_slice b off n :
  0 <= off → 0 <= n → off + n <= size b → size (slice b off n) = n.
Proof. unfold size, slice. rewrite length_take, length_drop. lia. Qed.

Lemma byte_at_slice b off n i :
  0 <= off → 0 <= i < n → byte_at (slice b off n) i = byte_at b (off + i).
Proof.
  intros Hoff Hi. unfold slice. rewrite byte_at_take, byte_at_drop by lia.
  f_equal. lia.
Qed.

Lemma bytes_slice b off n : bytes b → bytes (slice b off n).
Proof. intros H. by apply Forall_take, Forall_drop. Qed.

Lemma slice_all b : slice b 0 (size b) = b.
Proof. unfold slice, size. rewrite Nat2Z.id, drop_0. by apply take_ge. Qed.

Lemma slice_app b off n m :
  0 <= off → 0 <= n → 0 <= m → off + n <= size b →
  slice b off n ++ slice b (off + n) m = slice b off (n + m).
Proof.
  intros. unfold slice, size in *.
  replace (Z.to_nat (off + n)) with (Z.to_nat off + Z.to_nat n)%nat by lia.
  replace (Z.to_nat (n + m)) with (Z.to_nat n + Z.to_nat m)%nat by lia.
  rewrite <- drop_drop, take_take_drop. done.
Qed.

(** ** Zeroes *)

Lemma size_zeros n : 0 <= n → size (zeros n) = n.
Proof. intros. unfold size, zeros. rewrite length_replicate. lia. Qed.

Lemma byte_at_zeros n i : byte_at (zeros n) i = 0.
Proof. unfold zeros. rewrite byte_at_replicate. by case_match. Qed.

Lemma bytes_zeros n : bytes (zeros n).
Proof. apply Forall_replicate. by compute. Qed.

(** ** Writes *)

Lemma write_bytes_nil b off : write_bytes b off [] = b.
Proof. unfold write_bytes. cbn. rewrite Nat.add_0_r. apply take_drop. Qed.

Lemma size_write_bytes b off l :
  0 <= off → off + size l <= size b → size (write_bytes b off l) = size b.
Proof. unfold size, write_bytes. rewrite !length_app, length_take, length_drop. lia. Qed.

Lemma byte_at_write_bytes b off l i :
  0 <= off → off + size l <= size b →
  byte_at (write_bytes b off l) i =
    if (off <=? i) && (i <? off + size l) then byte_at l (i - off) else byte_at b i.
Proof.
  intros Hoff Hsz. unfold write_bytes.
  assert (size (take (Z.to_nat off) b) = off) as Ht.
  { unfold size in *. rewrite length_take. lia. }
  rewrite byte_at_app, Ht, byte_at_app.
  destruct (Z.ltb_spec i off).
  - destruct (Z.leb_spec off i); [lia|cbn].
    destruct (decide (i < 0)); [by rewrite !byte_at_oob by lia|].
    apply byte_at_take. lia.
  - destruct (Z.leb_spec off i); [cbn|lia].
    destruct (Z.ltb_spec (i - off) (size l)), (Z.ltb_spec i (off + size l)); try lia.
    rewrite byte_at_drop by lia. f_equal. unfold size in *. lia.
Qed.

Lemma bytes_write_bytes b off l : bytes b → bytes l → bytes (write_bytes b off l).
Proof.
  intros Hb Hl. unfold write_bytes, bytes. rewrite !Forall_app.
  split_and!; [by apply Forall_take|done|by apply Forall_drop].
Qed.

(** ** Little-endian values *)

Lemma length_le_bytes n v : length (le_bytes n v) = n.
Proof. revert v. induction n; cbn; auto. Qed.

Lemma size_le_bytes n v : size (le_bytes n v) = Z.of_nat n.
Proof. unfold size. by rewrite length_le_bytes. Qed.

Lemma bytes_le_bytes n v : bytes (le_bytes n v).
Proof.
  revert v. induction n as [|n IH]; intros v; [by constructor|].
  constructor; [|apply IH]. split; [apply Z.mod_pos_bound; lia|].
  change (2 ^ 8) with 256. apply Z.mod_pos_bound. lia.
Qed.

Lemma load_ext n b b' off off' :
  (∀ i, 0 <= i < Z.of_nat n → byte_at b (off + i) = byte_at b' (off' + i)) →
  load n b off = load n b' off'.
Proof.
  revert off off'. induction n as [|n IH]; intros off off' H; [done|]. cbn [load].
  rewrite (IH (off + 1) (off' + 1)).
  - f_equal. specialize (H 0). rewrite !Z.add_0_r in H. apply H. lia.
  - intros i Hi. rewrite <- !Z.add_assoc. apply H. lia.
Qed.

Lemma load_range n b off : bytes b → is_uint (8 * Z.of_nat n) (load n b off).
Proof.
  intros Hb. revert off. induction n as [|n IH]; intros off.
  - by compute.
  - cbn [load]. pose proof (byte_at_range b off Hb) as Hx. specialize (IH (off + 1)).
    unfold is_uint in *. replace (8 * Z.of_nat (S n)) with (8 + 8 * Z.of_nat n) by lia.
    rewrite Z.pow_add_r by lia. change (2 ^ 8) with 256 in *. lia.
Qed.

Lemma load_le_bytes n v : load n (le_bytes n v) 0 = v mod 2 ^ (8 * Z.of_nat n).
Proof.
  revert v. induction n as [|n IH]; intros v; [cbn; by rewrite Z.mod_1_r|].
  cbn [load le_bytes].
  rewrite (load_ext n _ (le_bytes n (v / 256)) 1 0).
  - rewrite IH. change (byte_at (v mod 256 :: le_bytes n (v / 256)) 0) with (v mod 256).
    replace (8 * Z.of_nat (S n)) with (8 + 8 * Z.of_nat n) by lia.
    rewrite Z.pow_add_r by lia. change (2 ^ 8) with 256.
    rewrite Z.rem_mul_r; [lia|lia|]. apply Z.pow_pos_nonneg; lia.
  - intros i Hi. change (v mod 256 :: le_bytes n (v / 256))
      with ([v mod 256] ++ le_bytes n (v / 256)).
    rewrite byte_at_app. change (size [v mod 256]) with 1.
    destruct (Z.ltb_spec (1 + i) 1); [lia|]. f_equal. lia.
Qed.

(** A buffer is determined by its little-endian loads. *)
Lemma le_bytes_load n b off i :
  bytes b → 0 <= i < Z.of_nat n → byte_at (le_bytes n (load n b off)) i = byte_at b (off + i).
Proof.
  intros Hb. revert off i. induction n as [|n IH]; intros off i Hi; [lia|].
  cbn [load le_bytes].
  pose proof (byte_at_range b off Hb) as Hx. unfold is_uint in Hx. change (2 ^ 8) with 256 in Hx.
  rewrite (Z.mul_comm 256), Z.mod_add, Z.mod_small, Z.div_add, Z.div_small by lia.
  rewrite Z.add_0_l. destruct (decide (i = 0)) as [->|].
  - rewrite Z.add_0_r. done.
  - change (byte_at b off :: ?l) with ([byte_at b off] ++ l).
    rewrite byte_at_app. change (size [byte_at b off]) with 1.
    destruct (Z.ltb_spec i 1); [lia|]. rewrite IH by lia. f_equal. lia.
Qed.

(** Reading back what was written, and reading past it. *)
Lemma load_write_same n b off v :
  0 <= off → off + Z.of_nat n <= size b →
  load n (write_bytes b off (le_bytes n v)) off = v mod 2 ^ (8 * Z.of_nat n).
Proof.
  intros. rewrite <- load_le_bytes. apply load_ext. intros i Hi.
  rewrite byte_at_write_bytes by (rewrite ?size_le_bytes; lia).
  rewrite size_le_bytes. destruct (Z.leb_spec off (off + i)); [|lia].
  destruct (Z.ltb_spec (off + i) (off + Z.of_nat n)); [cbn|lia]. f_equal. lia.
Qed.

Lemma load_write_disjoint n b off l o :
  0 <= off → off + size l <= size b → o + Z.of_nat n <= off ∨ off + size l <= o →
  load n (write_bytes b off l) o = load n b o.
Proof.
  intros. apply load_ext. intros i Hi. rewrite byte_at_write_bytes by lia.
  destruct (Z.leb_spec off (o + i)), (Z.ltb_spec (o + i) (off + size l)); cbn; lia || done.
Qed.

(** Writing back what was read changes nothing. *)
Lemma write_load_same n b off :
  bytes b → 0 <= off → off + Z.of_nat n <= size b →
  write_bytes b off (le_bytes n (load n b off)) = b.
Proof.
  intros. apply buffer_ext.
  - apply size_write_bytes; [done|]. by rewrite size_le_bytes.
  - intros i Hi. rewrite byte_at_write_bytes by (rewrite ?size_le_bytes; lia).
    rewrite size_le_bytes.
    destruct (Z.leb_spec off i), (Z.ltb_spec i (off + Z.of_nat n)); cbn; try done.
    rewrite le_bytes_load by (done || lia). f_equal. lia.
Qed.

(** Appended buffers. *)
Lemma size_app l1 l2 : size (l1 ++ l2) = size l1 + size l2.
Proof. unfold size. rewrite length_app. lia. Qed.

Lemma load_app_r n l1 l2 off : 0 <= off → load n (l1 ++ l2) (size l1 + off) = load n l2 off.
Proof.
  intros. apply load_ext. intros i Hi. rewrite byte_at_app.
  destruct (Z.ltb_spec (size l1 + off + i) (size l1)); [lia|]. f_equal. lia.
Qed.

Lemma load_app_l n l1 l2 off :
  0 <= off → off + Z.of_nat n <= size l1 → load n (l1 ++ l2) off = load n l1 off.
Proof.
  intros. apply load_ext. intros i Hi. rewrite byte_at_app.
  destruct (Z.ltb_spec (off + i) (size l1)); [done|lia].
Qed.

(** A value between other bytes. *)
Lemma load_middle n l1 v l2 :
  load n (l1 ++ le_bytes n v ++ l2) (size l1) = v mod 2 ^ (8 * Z.of_nat n).
Proof.
  rewrite <- (Z.add_0_r (size l1)), load_app_r, load_app_l by (rewrite ?size_le_bytes; lia).
  apply load_le_bytes.
Qed.

Lemma write_app_r l1 l2 m : size m = size l2 → write_bytes (l1 ++ l2) (size l1) m = l1 ++ m.
Proof.
  intros Hm. unfold write_bytes, size in *. rewrite Nat2Z.id, take_app_length.
  rewrite (drop_ge (l1 ++ _)); [by rewrite app_nil_r|]. rewrite length_app. lia.
Qed.

(** ** Checked accesses *)

Lemma wp_rd {S} n b off (Q : Z → S → Prop) E s :
  0 <= off → off + Z.of_nat n <= size b → Q (load n b off) s → wp (rd n b off) Q E s.
Proof.
  intros. unfold rd. apply wp_bind, wp_require; [|by apply wp_ret].
  apply in_bounds_spec. lia.
Qed.

Lemma load_byte b off : load 1 b off = byte_at b off.
Proof. unfold load. lia. Qed.

Lemma load_u16 b off : bytes b → u16 (load 2 b off).
Proof. intros. by apply (load_range 2). Qed.
Lemma load_u32 b off : bytes b → u32 (load 4 b off).
Proof. intros. by apply (load_range 4). Qed.
Lemma load_u64 b off : bytes b → u64 (load 8 b off).
Proof. intros. by apply (load_range 8). Qed.

Create HintDb buffers.
#[export] Hint Resolve load_u16 load_u32 load_u64 size_nonneg : buffers.

#[global] Arguments load : simpl never.
#[global] Arguments le_bytes : simpl never.
#[global] Arguments write_bytes : simpl never.
