(* ===== verification/Overflow.v ===== *)
(** BaseOverflowLib (MdePkg/Library/BaseOverflowLib): overflow-checked integer
    arithmetic.  Every function returns the overflow flag and the value stored
    through its Result pointer.

    The C sources select, at compile time, compiler builtins or a portable
    software implementation; [build] is that selection and every definition has
    both branches.  The theorems show that the software routines compute what
    the builtins compute; [OverflowLib] is the contract the image loaders use. *)
From S2P Require Import Prelude Base.

Definition MAX_UINT16 : Z := 2 ^ 16 - 1.
Definition MAX_UINT32 : Z := 2 ^ 32 - 1.
Definition MAX_UINT64 : Z := 2 ^ 64 - 1.
Definition MAX_INT32 : Z := 2 ^ 31 - 1.
Definition MIN_INT32 : Z := - 2 ^ 31.
Definition MAX_INT64 : Z := 2 ^ 63 - 1.
Definition MIN_INT64 : Z := - 2 ^ 63.

(** The preprocessor configuration of BaseOverflowInternals.h. *)
Record build := {
  BASE_HAS_TYPE_GENERIC_BUILTINS : bool;
  BASE_HAS_TYPE_SPECIFIC_BUILTINS : bool;
  BASE_HAS_TYPE_SPECIFIC_BUILTINS_64 : bool;
  BASE_HAS_TYPE_SPECIFIC_BUILTINS_32 : bool;
  MDE_CPU_IA32 : bool;
  UINTN_BITS : Z;
}.

(** What its static assertions enforce. *)
Definition build_ok (c : build) : Prop :=
  (UINTN_BITS c = 32 ∨ UINTN_BITS c = 64) ∧
  (BASE_HAS_TYPE_SPECIFIC_BUILTINS_64 c = true → UINTN_BITS c = 64) ∧
  (BASE_HAS_TYPE_SPECIFIC_BUILTINS_32 c = true → UINTN_BITS c = 32).

(** ** The compiler builtins (__builtin_add_overflow and its kin) *)

(** The exact result [x] stored in an unsigned (signed) [w]-bit integer, and
    whether it does not fit. *)
Definition builtin_u (w x : Z) : bool * Z := (negb (wrap w x =? x), wrap w x).
Definition builtin_s (w x : Z) : bool * Z := (negb (swrap w x =? x), swrap w x).

(** ** BaseLib's 64-bit helpers *)

Definition LShiftU64 (Operand Count : Z) : Z := wrap 64 (Z.shiftl Operand Count).
Definition RShiftU64 (Operand Count : Z) : Z := Z.shiftr Operand Count.
Definition MultU64x64 (Multiplicand Multiplier : Z) : Z := wrap 64 (Multiplicand * Multiplier).
Definition MultS64x64 (Multiplicand Multiplier : Z) : Z := swrap 64 (Multiplicand * Multiplier).

(** ** BaseBitOverflow.c *)

Definition BaseOverflowAddU16 (c : build) (A B : Z) : bool * Z :=
  if BASE_HAS_TYPE_GENERIC_BUILTINS c then builtin_u 16 (A + B)
  else
    let Temp := wrap 32 (A + B) in
    let Result := wrap 16 Temp in
    if Temp <=? MAX_UINT16 then (false, Result) else (true, Result).

Definition BaseOverflowSubU16 (c : build) (A B : Z) : bool * Z :=
  if BASE_HAS_TYPE_GENERIC_BUILTINS c then builtin_u 16 (A - B)
  else
    let Result := wrap 16 (A - B) in
    if B <=? A then (false, Result) else (true, Result).

Definition BaseOverflowMulU16 (c : build) (A B : Z) : bool * Z :=
  if BASE_HAS_TYPE_GENERIC_BUILTINS c then builtin_u 16 (A * B)
  else
    let Temp := wrap 32 (A * B) in
    let Result := wrap 16 Temp in
    if Temp <=? MAX_UINT32 then (false, Result) else (true, Result).

Definition BaseOverflowAddU32 (c : build) (A B : Z) : bool * Z :=
  if BASE_HAS_TYPE_GENERIC_BUILTINS c then builtin_u 32 (A + B)
  else if BASE_HAS_TYPE_SPECIFIC_BUILTINS_64 c then builtin_u 32 (A + B)
  else
    let Temp := wrap 32 (A + B) in
    if A <=? Temp then (false, Temp) else (true, Temp).

Definition BaseOverflowSubU32 (c : build) (A B : Z) : bool * Z :=
  if BASE_HAS_TYPE_GENERIC_BUILTINS c then builtin_u 32 (A - B)
  else if BASE_HAS_TYPE_SPECIFIC_BUILTINS c then builtin_u 32 (A - B)
  else
    let Result := wrap 32 (A - B) in
    if B <=? A then (false, Result) else (true, Result).

Definition BaseOverflowMulU32 (c : build) (A B : Z) : bool * Z :=
  if BASE_HAS_TYPE_GENERIC_BUILTINS c then builtin_u 32 (A * B)
  else if BASE_HAS_TYPE_SPECIFIC_BUILTINS c then builtin_u 32 (A * B)
  else
    let Temp := wrap 64 (A * B) in
    let Result := wrap 32 Temp in
    if Temp <=? MAX_UINT32 then (false, Result) else (true, Result).

Definition BaseOverflowAddS32 (c : build) (A B : Z) : bool * Z :=
  if BASE_HAS_TYPE_GENERIC_BUILTINS c then builtin_s 32 (A + B)
  else if BASE_HAS_TYPE_SPECIFIC_BUILTINS c then builtin_s 32 (A + B)
  else
    let Temp := A + B in
    let Result := swrap 32 Temp in
    if (MIN_INT32 <=? Temp) && (Temp <=? MAX_INT32) then (false, Result) else (true, Result).

Definition BaseOverflowSubS32 (c : build) (A B : Z) : bool * Z :=
  if BASE_HAS_TYPE_GENERIC_BUILTINS c then builtin_s 32 (A - B)
  else if BASE_HAS_TYPE_SPECIFIC_BUILTINS c then builtin_s 32 (A - B)
  else
    let Temp := A - B in
    let Result := swrap 32 Temp in
    if (MIN_INT32 <=? Temp) && (Temp <=? MAX_INT32) then (false, Result) else (true, Result).

Definition BaseOverflowMulS32 (c : build) (A B : Z) : bool * Z :=
  if BASE_HAS_TYPE_GENERIC_BUILTINS c then builtin_s 32 (A * B)
  else if BASE_HAS_TYPE_SPECIFIC_BUILTINS c then builtin_s 32 (A * B)
  else
    let Temp := MultS64x64 A B in
    let Result := swrap 32 Temp in
    if (MIN_INT32 <=? Temp) && (Temp <=? MAX_INT32) then (false, Result) else (true, Result).

Definition BaseOverflowAddU64 (c : build) (A B : Z) : bool * Z :=
  if BASE_HAS_TYPE_GENERIC_BUILTINS c then builtin_u 64 (A + B)
  else if BASE_HAS_TYPE_SPECIFIC_BUILTINS c then builtin_u 64 (A + B)
  else
    let Temp := wrap 64 (A + B) in
    if A <=? Temp then (false, Temp) else (true, Temp).

Definition BaseOverflowSubU64 (c : build) (A B : Z) : bool * Z :=
  if BASE_HAS_TYPE_GENERIC_BUILTINS c then builtin_u 64 (A - B)
  else if BASE_HAS_TYPE_SPECIFIC_BUILTINS c then builtin_u 64 (A - B)
  else
    let Result := wrap 64 (A - B) in
    if B <=? A then (false, Result) else (true, Result).

Definition BaseOverflowMulU64 (c : build) (A B : Z) : bool * Z :=
  if BASE_HAS_TYPE_GENERIC_BUILTINS c then builtin_u 64 (A * B)
  else if BASE_HAS_TYPE_SPECIFIC_BUILTINS c then builtin_u 64 (A * B)
  else
    let AHi := RShiftU64 A 32 in
    let ALo := Z.land A MAX_UINT32 in
    let BHi := RShiftU64 B 32 in
    let BLo := Z.land B MAX_UINT32 in
    let LoBits := MultU64x64 ALo BLo in
    if (AHi =? 0) && (BHi =? 0) then (false, LoBits)
    else
      let Overflow := (0 <? AHi) && (0 <? BHi) in
      let HiBits1 := MultU64x64 ALo BHi in
      let HiBits2 := MultU64x64 AHi BLo in
      let Result := wrap 64 (LoBits + LShiftU64 (wrap 64 (HiBits1 + HiBits2)) 32) in
      (Overflow || (Result <? LoBits)
         || negb (RShiftU64 HiBits1 32 =? 0) || negb (RShiftU64 HiBits2 32 =? 0), Result).

Definition BaseOverflowAddS64 (c : build) (A B : Z) : bool * Z :=
  if BASE_HAS_TYPE_GENERIC_BUILTINS c then builtin_s 64 (A + B)
  else if BASE_HAS_TYPE_SPECIFIC_BUILTINS c then builtin_s 64 (A + B)
  else if ((B <=? 0) || (A <=? MAX_INT64 - B)) && ((0 <=? B) || (MIN_INT64 - B <=? A))
  then (false, A + B)
  else (true, 0).

Definition BaseOverflowSubS64 (c : build) (A B : Z) : bool * Z :=
  if BASE_HAS_TYPE_GENERIC_BUILTINS c then builtin_s 64 (A - B)
  else if BASE_HAS_TYPE_SPECIFIC_BUILTINS c then builtin_s 64 (A - B)
  else if ((0 <=? B) || (A <=? MAX_INT64 + B)) && ((B <=? 0) || (MIN_INT64 + B <=? A))
  then (false, A - B)
  else (true, 0).

(** The OC_ABS_64 macro of BaseOverflowMulS64. *)
Definition OC_ABS_64 (X : Z) : Z :=
  if X <? 0 then wrap 64 (wrap 64 (- (X + 1)) + 1) else wrap 64 X.

Definition BaseOverflowMulS64 (c : build) (A B : Z) : bool * Z :=
  if BASE_HAS_TYPE_GENERIC_BUILTINS c && negb (MDE_CPU_IA32 c) then builtin_s 64 (A * B)
  else if BASE_HAS_TYPE_SPECIFIC_BUILTINS c && negb (MDE_CPU_IA32 c) then builtin_s 64 (A * B)
  else
    let AU := OC_ABS_64 A in
    let BU := OC_ABS_64 B in
    let '(Overflow, ResultU) := BaseOverflowMulU64 c AU BU in
    if Overflow then (true, 0)
    else if Bool.eqb (A <? 0) (B <? 0) then
      if ResultU <=? MAX_INT64 then (false, swrap 64 ResultU) else (true, 0)
    else
      if ResultU <? OC_ABS_64 MIN_INT64 then (false, - swrap 64 ResultU)
      else if ResultU =? OC_ABS_64 MIN_INT64 then (false, MIN_INT64)
      else (true, 0).

(** ** BaseNativeOverflow.c: UINTN and INTN *)

Section Native.
Context (c : build).

Definition unsigned_native (op : Z → Z → Z) (op64 op32 : Z → Z → bool * Z) (A B : Z) : bool * Z :=
  if BASE_HAS_TYPE_GENERIC_BUILTINS c then builtin_u (UINTN_BITS c) (op A B)
  else if BASE_HAS_TYPE_SPECIFIC_BUILTINS_64 c then builtin_u 64 (op A B)
  else if BASE_HAS_TYPE_SPECIFIC_BUILTINS_32 c then builtin_u 32 (op A B)
  else if UINTN_BITS c =? 64 then op64 A B
  else op32 (wrap 32 A) (wrap 32 B).

Definition signed_native (op : Z → Z → Z) (op64 op32 : Z → Z → bool * Z) (A B : Z) : bool * Z :=
  if BASE_HAS_TYPE_GENERIC_BUILTINS c then builtin_s (UINTN_BITS c) (op A B)
  else if BASE_HAS_TYPE_SPECIFIC_BUILTINS_64 c then builtin_s 64 (op A B)
  else if BASE_HAS_TYPE_SPECIFIC_BUILTINS_32 c then builtin_s 32 (op A B)
  else if UINTN_BITS c =? 64 then op64 A B
  else op32 (swrap 32 A) (swrap 32 B).

Definition BaseOverflowAddUN := unsigned_native Z.add (BaseOverflowAddU64 c) (BaseOverflowAddU32 c).
Definition BaseOverflowSubUN := unsigned_native Z.sub (BaseOverflowSubU64 c) (BaseOverflowSubU32 c).
Definition BaseOverflowMulUN := unsigned_native Z.mul (BaseOverflowMulU64 c) (BaseOverflowMulU32 c).
Definition BaseOverflowAddSN := signed_native Z.add (BaseOverflowAddS64 c) (BaseOverflowAddS32 c).
Definition BaseOverflowSubSN := signed_native Z.sub (BaseOverflowSubS64 c) (BaseOverflowSubS32 c).
Definition BaseOverflowMulSN := signed_native Z.mul (BaseOverflowMulS64 c) (BaseOverflowMulS32 c).
End Native.

(** ** BaseTripleOverflow.c

    Each function feeds the first result to a second operation and returns the
    disjunction of the two flags. *)
Definition chain (op1 op2 : Z → Z → bool * Z) (A B C : Z) : bool * Z :=
  let '(BaseFirst, BaseTmp) := op1 A B in
  let '(BaseSecond, Result) := op2 BaseTmp C in
  (BaseFirst || BaseSecond, Result).

Section Triple.
Context (c : build).

Definition BaseOverflowTriAddU32 := chain (BaseOverflowAddU32 c) (BaseOverflowAddU32 c).
Definition BaseOverflowTriMulU32 := chain (BaseOverflowMulU32 c) (BaseOverflowMulU32 c).
Definition BaseOverflowAddMulU32 := chain (BaseOverflowAddU32 c) (BaseOverflowMulU32 c).
Definition BaseOverflowMulAddU32 := chain (BaseOverflowMulU32 c) (BaseOverflowAddU32 c).
Definition BaseOverflowTriAddS32 := chain (BaseOverflowAddS32 c) (BaseOverflowAddS32 c).
Definition BaseOverflowTriMulS32 := chain (BaseOverflowMulS32 c) (BaseOverflowMulS32 c).
Definition BaseOverflowAddMulS32 := chain (BaseOverflowAddS32 c) (BaseOverflowMulS32 c).
Definition BaseOverflowMulAddS32 := chain (BaseOverflowMulS32 c) (BaseOverflowAddS32 c).
Definition BaseOverflowTriAddU64 := chain (BaseOverflowAddU64 c) (BaseOverflowAddU64 c).
Definition BaseOverflowTriMulU64 := chain (BaseOverflowMulU64 c) (BaseOverflowMulU64 c).
Definition BaseOverflowAddMulU64 := chain (BaseOverflowAddU64 c) (BaseOverflowMulU64 c).
Definition BaseOverflowMulAddU64 := chain (BaseOverflowMulU64 c) (BaseOverflowAddU64 c).
Definition BaseOverflowTriAddS64 := chain (BaseOverflowAddS64 c) (BaseOverflowAddS64 c).
Definition BaseOverflowTriMulS64 := chain (BaseOverflowMulS64 c) (BaseOverflowMulS64 c).
Definition BaseOverflowAddMulS64 := chain (BaseOverflowAddS64 c) (BaseOverflowMulS64 c).
Definition BaseOverflowMulAddS64 := chain (BaseOverflowMulS64 c) (BaseOverflowAddS64 c).
Definition BaseOverflowTriAddUN := chain (BaseOverflowAddUN c) (BaseOverflowAddUN c).
Definition BaseOverflowTriMulUN := chain (BaseOverflowMulUN c) (BaseOverflowMulUN c).
Definition BaseOverflowAddMulUN := chain (BaseOverflowAddUN c) (BaseOverflowMulUN c).
Definition BaseOverflowMulAddUN := chain (BaseOverflowMulUN c) (BaseOverflowAddUN c).
Definition BaseOverflowTriAddSN := chain (BaseOverflowAddSN c) (BaseOverflowAddSN c).
Definition BaseOverflowTriMulSN := chain (BaseOverflowMulSN c) (BaseOverflowMulSN c).
Definition BaseOverflowAddMulSN := chain (BaseOverflowAddSN c) (BaseOverflowMulSN c).
Definition BaseOverflowMulAddSN := chain (BaseOverflowMulSN c) (BaseOverflowAddSN c).
End Triple.

(** ** BaseAlignment.c *)

Definition BaseOverflowAlignUpU32 (c : build) (Value Alignment : Z) : bool * Z :=
  let '(Status, Result) := BaseOverflowAddU32 c Value (wrap 32 (Alignment - 1)) in
  (Status, Z.land Result (lnot_w 32 (wrap 32 (Alignment - 1)))).

(** ** BaseMath.c *)

(** BaseLib's division helpers assert a non-zero divisor. *)
Definition DivU64x64Remainder {S} (Dividend Divisor : Z) : M S (Z * Z) :=
  require (negb (Divisor =? 0)) AssertFailed;;
  mret (Dividend / Divisor, Dividend mod Divisor).

Definition DivU64x32Remainder {S} (Dividend Divisor : Z) : M S (Z * Z) :=
  require (negb (Divisor =? 0)) AssertFailed;;
  mret (Dividend / Divisor, Dividend mod Divisor).

(** The recursive function, with the depth of its recursion bounded by [fuel]. *)
Fixpoint mult_then_div {S} (fuel : nat) (Multiplicand Multiplier Divisor : Z) : M S (Z * Z) :=
  match fuel with
  | O => crash OutOfFuel
  | S k =>
    '(Bound, _) ← DivU64x64Remainder MAX_UINT64 Multiplier;
    if Bound <? Multiplicand then
      let '(Multiplicand, Multiplier) :=
        if Multiplicand <? Multiplier then (Multiplier, Multiplicand)
        else (Multiplicand, Multiplier) in
      '(Uint64, LocalRemainder) ← mult_then_div k (RShiftU64 Multiplicand 1) Multiplier Divisor;
      let Uint64 := LShiftU64 Uint64 1 in
      '(Uint64, Uint32) ←
        (if Z.land Multiplicand 1 =? 1 then
           '(Q, R) ← DivU64x32Remainder Multiplier Divisor;
           mret (wrap 64 (Uint64 + Q), R)
         else mret (Uint64, 0));
      '(Q, Remainder) ← DivU64x32Remainder (wrap 64 (Uint32 + LShiftU64 LocalRemainder 1)) Divisor;
      mret (wrap 64 (Uint64 + Q), Remainder)
    else DivU64x32Remainder (MultU64x64 Multiplicand Multiplier) Divisor
  end.

(** A product of two 64-bit values is halved at most 64 times before it fits. *)
Definition BaseMultThenDivU64x64x32 {S} (Multiplicand Multiplier Divisor : Z) : M S (Z * Z) :=
  mult_then_div 65 Multiplicand Multiplier Divisor.

(** ** The contract of the library *)

Definition fits_u (w x : Z) : bool := (0 <=? x) && (x <? 2 ^ w).
Definition fits_s (w x : Z) : bool := (- 2 ^ (w - 1) <=? x) && (x <? 2 ^ (w - 1)).

Lemma fits_u_spec w x : fits_u w x = true ↔ is_uint w x.
Proof. unfold fits_u, is_uint. rewrite andb_true_iff, Z.leb_le, Z.ltb_lt. tauto. Qed.

Lemma fits_s_spec w x : fits_s w x = true ↔ is_sint w x.
Proof. unfold fits_s, is_sint. rewrite andb_true_iff, Z.leb_le, Z.ltb_lt. tauto. Qed.

Lemma wrap_eq_fits w x : 0 <= w → (wrap w x =? x) = fits_u w x.
Proof.
  intros Hw. apply eq_bool_prop_intro. rewrite !Is_true_true, Z.eqb_eq, fits_u_spec.
  split; [intros <-; by apply wrap_range|by apply wrap_small].
Qed.

Lemma builtin_u_eq w x : 0 <= w → builtin_u w x = (negb (fits_u w x), wrap w x).
Proof. intros. unfold builtin_u. by rewrite wrap_eq_fits. Qed.

Lemma swrap_small w x : is_sint w x → 0 < w → swrap w x = x.
Proof.
  unfold is_sint, swrap. intros Hx Hw.
  assert (2 ^ w = 2 * 2 ^ (w - 1)) as E by (rewrite <- Z.pow_succ_r by lia; f_equal; lia).
  rewrite Z.mod_small by lia. lia.
Qed.

Lemma swrap_range w x : 0 < w → is_sint w (swrap w x).
Proof.
  unfold is_sint, swrap. intros Hw.
  assert (2 ^ w = 2 * 2 ^ (w - 1)) as E by (rewrite <- Z.pow_succ_r by lia; f_equal; lia).
  pose proof (Z.mod_pos_bound (x + 2 ^ (w - 1)) (2 ^ w)).
  pose proof (Z.pow_pos_nonneg 2 (w - 1)). lia.
Qed.

Lemma swrap_eq_fits w x : 0 < w → (swrap w x =? x) = fits_s w x.
Proof.
  intros Hw. apply eq_bool_prop_intro. rewrite !Is_true_true, Z.eqb_eq, fits_s_spec.
  split; [intros <-; by apply swrap_range|intros; by apply swrap_small].
Qed.

Lemma builtin_s_eq w x : 0 < w → builtin_s w x = (negb (fits_s w x), swrap w x).
Proof. intros. unfold builtin_s. by rewrite swrap_eq_fits. Qed.

(** The software tests of unsigned addition and subtraction. *)
Lemma software_add w A B :
  0 <= w → is_uint w A → is_uint w B →
  (if A <=? wrap w (A + B) then (false, wrap w (A + B)) else (true, wrap w (A + B)))
  = builtin_u w (A + B).
Proof.
  intros Hw HA HB. rewrite builtin_u_eq by done. unfold fits_u, is_uint in *.
  destruct (Z.leb_spec 0 (A + B)); [cbn|lia]. destruct (Z.ltb_spec (A + B) (2 ^ w)).
  - rewrite wrap_small by done. destruct (Z.leb_spec A (A + B)); [done|lia].
  - assert (wrap w (A + B) = A + B - 2 ^ w) as ->.
    { unfold wrap. rewrite <- (Z.mod_small (A + B - 2 ^ w) (2 ^ w)) by lia.
      replace (A + B) with (A + B - 2 ^ w + 1 * 2 ^ w) at 1 by lia.
      apply Z.mod_add. lia. }
    destruct (Z.leb_spec A (A + B - 2 ^ w)); [lia|done].
Qed.

Lemma software_sub w A B :
  0 <= w → is_uint w A → is_uint w B →
  (if B <=? A then (false, wrap w (A - B)) else (true, wrap w (A - B)))
  = builtin_u w (A - B).
Proof.
  intros Hw HA HB. rewrite builtin_u_eq by done. unfold fits_u, is_uint in *.
  destruct (Z.leb_spec B A), (Z.leb_spec 0 (A - B)); try lia; cbn; [|done].
  destruct (Z.ltb_spec (A - B) (2 ^ w)); [done|lia].
Qed.

Lemma software_mul32 A B :
  u32 A → u32 B →
  (let Temp := wrap 64 (A * B) in
   if Temp <=? MAX_UINT32 then (false, wrap 32 Temp) else (true, wrap 32 Temp))
  = builtin_u 32 (A * B).
Proof.
  intros HA HB. cbv zeta. rewrite (wrap_small 64) by (unfold is_uint in *; nia).
  rewrite builtin_u_eq by done. unfold fits_u, MAX_UINT32, is_uint in *.
  destruct (Z.leb_spec 0 (A * B)); [cbn [andb]|nia].
  destruct (Z.leb_spec (A * B) (2 ^ 32 - 1)), (Z.ltb_spec (A * B) (2 ^ 32)); try lia; done.
Qed.

(** Splitting a 64-bit value into 32-bit halves. *)
Lemma halves A : u64 A →
  ∃ H L, A = H * 2 ^ 32 + L ∧ u32 H ∧ u32 L ∧ RShiftU64 A 32 = H ∧ Z.land A MAX_UINT32 = L.
Proof.
  intros HA. exists (A / 2 ^ 32), (A mod 2 ^ 32). unfold is_uint in *.
  assert (0 <= A / 2 ^ 32 < 2 ^ 32) by (split; [apply Z.div_pos|apply Z.div_lt_upper_bound]; lia).
  split_and!; try lia.
  - pose proof (Z.div_mod A (2 ^ 32)). lia.
  - apply Z.mod_pos_bound. lia.
  - apply Z.mod_pos_bound. lia.
  - unfold RShiftU64. by rewrite Z.shiftr_div_pow2.
  - unfold MAX_UINT32. by rewrite land_mask.
Qed.

Lemma MultU64x64_small A B : u32 A → u32 B → MultU64x64 A B = A * B.
Proof. unfold MultU64x64, is_uint. intros. apply wrap_small. split; nia. Qed.

Lemma RShiftU64_zero A : 0 <= A → (RShiftU64 A 32 =? 0) = (A <? 2 ^ 32).
Proof.
  intros HA. unfold RShiftU64. rewrite Z.shiftr_div_pow2 by lia.
  destruct (Z.ltb_spec A (2 ^ 32)) as [Hlt|Hge].
  - by rewrite Z.div_small.
  - apply Z.eqb_neq. intros H0. apply Z.div_small_iff in H0; lia.
Qed.

Lemma LShiftU64_eq x n : 0 <= n → LShiftU64 x n = wrap 64 (x * 2 ^ n).
Proof. intros. unfold LShiftU64. by rewrite Z.shiftl_mul_pow2. Qed.

Lemma wrap_add_r w x y : 0 <= w → wrap w (x + wrap w y) = wrap w (x + y).
Proof. intros. unfold wrap. apply Zplus_mod_idemp_r. Qed.

Lemma wrap_add_l w x y : 0 <= w → wrap w (wrap w x + y) = wrap w (x + y).
Proof. intros. unfold wrap. apply Zplus_mod_idemp_l. Qed.

Lemma wrap_mul_l w x y : 0 <= w → wrap w (wrap w x * y) = wrap w (x * y).
Proof. intros. unfold wrap. apply Zmult_mod_idemp_l. Qed.

Lemma wrap_add_mul w x k : 0 <= w → wrap w (x + k * 2 ^ w) = wrap w x.
Proof. intros. unfold wrap. apply Z_mod_plus_full. Qed.

(** One half is zero and the other product fits: only the final sum can wrap. *)
Lemma mul64_sum_wraps Lo H :
  u64 Lo → u32 H → let R := wrap 64 (Lo + H * 2 ^ 32) in
  (R <? Lo) = negb (fits_u 64 (Lo + H * 2 ^ 32)).
Proof.
  intros HLo HH R. unfold R, fits_u, is_uint in *.
  destruct (Z.leb_spec 0 (Lo + H * 2 ^ 32)); [cbn [andb]|lia].
  destruct (Z.ltb_spec (Lo + H * 2 ^ 32) (2 ^ 64)).
  - rewrite wrap_small by (unfold is_uint; lia). cbn. apply Z.ltb_ge. lia.
  - assert (wrap 64 (Lo + H * 2 ^ 32) = Lo + H * 2 ^ 32 - 2 ^ 64) as ->.
    { rewrite <- (wrap_small 64 (Lo + H * 2 ^ 32 - 2 ^ 64)) by (unfold is_uint; lia).
      rewrite <- (wrap_add_mul 64 (_ - _) 1) by lia. f_equal. lia. }
    cbn. apply Z.ltb_lt. lia.
Qed.

Lemma software_mul64 c A B :
  BASE_HAS_TYPE_GENERIC_BUILTINS c = false → BASE_HAS_TYPE_SPECIFIC_BUILTINS c = false →
  u64 A → u64 B → BaseOverflowMulU64 c A B = builtin_u 64 (A * B).
Proof.
  intros Hg Hs HA HB. unfold BaseOverflowMulU64. rewrite Hg, Hs.
  destruct (halves A HA) as (AH & AL & EA & HAH & HAL & -> & ->).
  destruct (halves B HB) as (BH & BL & EB & HBH & HBL & -> & ->).
  rewrite !MultU64x64_small by done. cbv zeta.
  assert (u64 (AL * BL)) as HLo by (unfold is_uint in *; nia).
  rewrite builtin_u_eq by done.
  assert (A * B = AL * BL + (AL * BH + AH * BL) * 2 ^ 32 + AH * BH * 2 ^ 64) as EP by nia.
  destruct (Z.eqb_spec AH 0) as [HA0|HA0], (Z.eqb_spec BH 0) as [HB0|HB0]; cbn [andb].
  { assert (A * B = AL * BL) as -> by nia.
    apply fits_u_spec in HLo as HF. by rewrite HF, wrap_small. }
  all: rewrite LShiftU64_eq, wrap_mul_l, wrap_add_r, EP, wrap_add_mul by lia;
    f_equal; rewrite <- EP, !RShiftU64_zero by (unfold is_uint in *; nia);
    unfold is_uint in *; destruct (Z.ltb_spec 0 AH), (Z.ltb_spec 0 BH); try lia; cbn [andb orb].
  - assert (AH * BL = 0) as E0 by nia. rewrite EP, HA0, !Z.mul_0_l, !Z.add_0_r.
    destruct (Z.ltb_spec (AL * BH) (2 ^ 32)).
    + rewrite mul64_sum_wraps by (unfold is_uint; nia). cbn. by rewrite !orb_false_r.
    + cbn [negb]. rewrite orb_true_r. unfold fits_u. symmetry.
      destruct (Z.ltb_spec (AL * BL + AL * BH * 2 ^ 32) (2 ^ 64)); [lia|by rewrite andb_false_r].
  - assert (AL * BH = 0) as E0 by nia. rewrite EP, HB0, !Z.mul_0_r, !Z.add_0_l, !Z.add_0_r.
    destruct (Z.ltb_spec (AH * BL) (2 ^ 32)).
    + rewrite mul64_sum_wraps by (unfold is_uint; nia). cbn. by rewrite !orb_false_r.
    + cbn [negb]. rewrite orb_true_r. unfold fits_u. symmetry.
      destruct (Z.ltb_spec (AL * BL + AH * BL * 2 ^ 32) (2 ^ 64)); [nia|by rewrite andb_false_r].
  - unfold fits_u. symmetry. destruct (Z.ltb_spec (A * B) (2 ^ 64)); [nia|by rewrite andb_false_r].
Qed.

(** ** Each routine against the builtin, in every build *)

Section Routines.
Context (c : build).

Lemma BaseOverflowAddU16_eq A B :
  u16 A → u16 B → BaseOverflowAddU16 c A B = builtin_u 16 (A + B).
Proof.
  intros HA HB. unfold BaseOverflowAddU16. case_match; [done|].
  unfold is_uint in *. rewrite (wrap_small 32) by (unfold is_uint; lia).
  rewrite builtin_u_eq by lia. unfold fits_u, MAX_UINT16.
  destruct (Z.leb_spec (A + B) (2 ^ 16 - 1)), (Z.leb_spec 0 (A + B)),
    (Z.ltb_spec (A + B) (2 ^ 16)); try lia; done.
Qed.

Lemma BaseOverflowSubU16_eq A B :
  u16 A → u16 B → BaseOverflowSubU16 c A B = builtin_u 16 (A - B).
Proof. intros. unfold BaseOverflowSubU16. case_match; [done|]. by apply software_sub. Qed.

Lemma BaseOverflowAddU32_eq A B :
  u32 A → u32 B → BaseOverflowAddU32 c A B = builtin_u 32 (A + B).
Proof. intros. unfold BaseOverflowAddU32. do 2 (case_match; [done|]). by apply software_add. Qed.

Lemma BaseOverflowSubU32_eq A B :
  u32 A → u32 B → BaseOverflowSubU32 c A B = builtin_u 32 (A - B).
Proof. intros. unfold BaseOverflowSubU32. do 2 (case_match; [done|]). by apply software_sub. Qed.

Lemma BaseOverflowMulU32_eq A B :
  u32 A → u32 B → BaseOverflowMulU32 c A B = builtin_u 32 (A * B).
Proof. intros. unfold BaseOverflowMulU32. do 2 (case_match; [done|]). by apply software_mul32. Qed.

Lemma BaseOverflowAddU64_eq A B :
  u64 A → u64 B → BaseOverflowAddU64 c A B = builtin_u 64 (A + B).
Proof. intros. unfold BaseOverflowAddU64. do 2 (case_match; [done|]). by apply software_add. Qed.

Lemma BaseOverflowSubU64_eq A B :
  u64 A → u64 B → BaseOverflowSubU64 c A B = builtin_u 64 (A - B).
Proof. intros. unfold BaseOverflowSubU64. do 2 (case_match; [done|]). by apply software_sub. Qed.

Lemma BaseOverflowMulU64_eq A B :
  u64 A → u64 B → BaseOverflowMulU64 c A B = builtin_u 64 (A * B).
Proof.
  intros. destruct (BASE_HAS_TYPE_GENERIC_BUILTINS c) eqn:E1;
    [by unfold BaseOverflowMulU64; rewrite E1|].
  destruct (BASE_HAS_TYPE_SPECIFIC_BUILTINS c) eqn:E2;
    [by unfold BaseOverflowMulU64; rewrite E1, E2|].
  by apply software_mul64.
Qed.

(** A signed routine may store any value when it reports an overflow, but its
    flag is exact and so is its value when there is no overflow. *)
Definition signed_ok (w x : Z) (r : bool * Z) : Prop :=
  r.1 = negb (fits_s w x) ∧ (r.1 = false → r.2 = x).

Lemma builtin_s_ok w x : 0 < w → signed_ok w x (builtin_s w x).
Proof.
  intros Hw. rewrite builtin_s_eq by done. split; [done|]. cbn. intros H.
  apply swrap_small; [|done]. apply fits_s_spec. by destruct (fits_s w x).
Qed.

Lemma software_s32_ok x :
  signed_ok 32 x
    (if (MIN_INT32 <=? x) && (x <=? MAX_INT32) then (false, swrap 32 x) else (true, swrap 32 x)).
Proof.
  assert (fits_s 32 x = (MIN_INT32 <=? x) && (x <=? MAX_INT32)) as E.
  { unfold fits_s, MIN_INT32, MAX_INT32. f_equal. change (32 - 1) with 31.
    destruct (Z.ltb_spec x (2 ^ 31)), (Z.leb_spec x (2 ^ 31 - 1)); lia. }
  rewrite <- E. unfold signed_ok. destruct (fits_s 32 x) eqn:F; cbn; [|done].
  split; [done|]. intros _. apply swrap_small; [by apply fits_s_spec|lia].
Qed.

Lemma BaseOverflowAddS32_ok A B : signed_ok 32 (A + B) (BaseOverflowAddS32 c A B).
Proof.
  unfold BaseOverflowAddS32. do 2 (case_match; [by apply builtin_s_ok|]). apply software_s32_ok.
Qed.

Lemma BaseOverflowSubS32_ok A B : signed_ok 32 (A - B) (BaseOverflowSubS32 c A B).
Proof.
  unfold BaseOverflowSubS32. do 2 (case_match; [by apply builtin_s_ok|]). apply software_s32_ok.
Qed.

Lemma BaseOverflowMulS32_ok A B :
  is_sint 32 A → is_sint 32 B → signed_ok 32 (A * B) (BaseOverflowMulS32 c A B).
Proof.
  intros HA HB. unfold BaseOverflowMulS32. do 2 (case_match; [by apply builtin_s_ok|]).
  unfold MultS64x64. cbv zeta. rewrite (swrap_small 64); [apply software_s32_ok| |done].
  unfold is_sint in *. change (2 ^ (32 - 1)) with (2 ^ 31) in *.
  change (2 ^ (64 - 1)) with (2 ^ 63). nia.
Qed.

Ltac case_Zcmp :=
  repeat match goal with
  | |- context [Z.leb ?x ?y] => destruct (Z.leb_spec x y)
  | |- context [Z.ltb ?x ?y] => destruct (Z.ltb_spec x y)
  | |- context [Z.eqb ?x ?y] => destruct (Z.eqb_spec x y)
  end.

Lemma BaseOverflowAddS64_ok A B :
  is_sint 64 A → is_sint 64 B → signed_ok 64 (A + B) (BaseOverflowAddS64 c A B).
Proof.
  intros HA HB. unfold BaseOverflowAddS64. do 2 (case_match; [by apply builtin_s_ok|]).
  unfold is_sint, signed_ok, fits_s, MAX_INT64, MIN_INT64 in *.
  change (2 ^ (64 - 1)) with (2 ^ 63) in *. case_Zcmp; cbn; try done; lia.
Qed.

Lemma BaseOverflowSubS64_ok A B :
  is_sint 64 A → is_sint 64 B → signed_ok 64 (A - B) (BaseOverflowSubS64 c A B).
Proof.
  intros HA HB. unfold BaseOverflowSubS64. do 2 (case_match; [by apply builtin_s_ok|]).
  unfold is_sint, signed_ok, fits_s, MAX_INT64, MIN_INT64 in *.
  change (2 ^ (64 - 1)) with (2 ^ 63) in *. case_Zcmp; cbn; try done; lia.
Qed.

Lemma OC_ABS_64_eq X : is_sint 64 X → OC_ABS_64 X = Z.abs X.
Proof.
  unfold is_sint, OC_ABS_64. change (2 ^ (64 - 1)) with (2 ^ 63). intros HX.
  destruct (Z.ltb_spec X 0).
  - rewrite (wrap_small 64 (- (X + 1))), wrap_small by (unfold is_uint; lia). lia.
  - rewrite wrap_small by (unfold is_uint; lia). lia.
Qed.

Lemma BaseOverflowMulS64_ok A B :
  is_sint 64 A → is_sint 64 B → signed_ok 64 (A * B) (BaseOverflowMulS64 c A B).
Proof.
  intros HA HB. unfold BaseOverflowMulS64. do 2 (case_match; [by apply builtin_s_ok|]).
  assert (is_sint 64 MIN_INT64) as HM by (by compute).
  rewrite !OC_ABS_64_eq by done. cbv zeta. change (Z.abs MIN_INT64) with (2 ^ 63).
  unfold is_sint in *. change (2 ^ (64 - 1)) with (2 ^ 63) in *.
  rewrite BaseOverflowMulU64_eq, builtin_u_eq by (unfold is_uint; lia).
  rewrite <- Z.abs_mul. unfold signed_ok, fits_s, fits_u.
  change (2 ^ (64 - 1)) with (2 ^ 63).
  destruct (Z.leb_spec 0 (Z.abs (A * B))); [cbn [andb]|lia].
  destruct (Z.ltb_spec (Z.abs (A * B)) (2 ^ 64)); cbn [negb].
  2:{ case_Zcmp; cbn; try done; lia. }
  rewrite wrap_small by (unfold is_uint; lia). unfold MAX_INT64, MIN_INT64.
  destruct (Z.ltb_spec A 0), (Z.ltb_spec B 0); cbn [Bool.eqb];
    first [assert (0 <= A * B) by nia | assert (A * B <= 0) by nia];
    case_Zcmp; cbn; try done; try (split; [done|intros _]); try lia;
    rewrite swrap_small by (unfold is_sint; lia); lia.
Qed.

Context (Hok : build_ok c).

Lemma unsigned_native_eq op op64 op32 A B :
  (u64 A → u64 B → op64 A B = builtin_u 64 (op A B)) →
  (u32 A → u32 B → op32 A B = builtin_u 32 (op A B)) →
  is_uint (UINTN_BITS c) A → is_uint (UINTN_BITS c) B →
  unsigned_native c op op64 op32 A B = builtin_u (UINTN_BITS c) (op A B).
Proof.
  intros H64 H32 HA HB. destruct Hok as (Hw & H64w & H32w). unfold unsigned_native.
  case_match; [done|]. case_match; [by rewrite H64w|]. case_match; [by rewrite H32w|].
  destruct Hw as [Hw|Hw]; rewrite Hw in *; cbn; [|by apply H64].
  rewrite !wrap_small by done. by apply H32.
Qed.

Lemma signed_native_ok op op64 op32 A B :
  (is_sint 64 A → is_sint 64 B → signed_ok 64 (op A B) (op64 A B)) →
  (is_sint 32 A → is_sint 32 B → signed_ok 32 (op A B) (op32 A B)) →
  is_sint (UINTN_BITS c) A → is_sint (UINTN_BITS c) B →
  signed_ok (UINTN_BITS c) (op A B) (signed_native c op op64 op32 A B).
Proof.
  intros H64 H32 HA HB. destruct Hok as (Hw & H64w & H32w). unfold signed_native.
  case_match; [apply builtin_s_ok; lia|].
  case_match; [rewrite H64w by done; by apply builtin_s_ok|].
  case_match; [rewrite H32w by done; by apply builtin_s_ok|].
  destruct Hw as [Hw|Hw]; rewrite Hw in *; cbn [Z.eqb Pos.eqb]; [|by apply H64].
  rewrite !swrap_small by done. by apply H32.
Qed.
End Routines.

(** ** Alignment *)

Lemma BaseOverflowAlignUpU32_eq c Value Alignment :
  u32 Value → u32 Alignment → IS_POW2 Alignment = true →
  BaseOverflowAlignUpU32 c Value Alignment =
    (negb (fits_u 32 (align_up Value Alignment)), wrap 32 (align_up Value Alignment)).
Proof.
  intros HV HA HP. pose proof (IS_POW2_pos _ (proj1 HA) HP) as Hpos.
  unfold BaseOverflowAlignUpU32. rewrite (wrap_small 32 (Alignment - 1)) by (unfold is_uint in *; lia).
  rewrite BaseOverflowAddU32_eq, builtin_u_eq by (unfold is_uint in *; lia).
  destruct (fits_u 32 (Value + (Alignment - 1))) eqn:F.
  - apply fits_u_spec in F. rewrite wrap_small, align_up_mask by (unfold is_uint in *; lia || done).
    assert (u32 (align_up Value Alignment)) as HU.
    { pose proof (align_up_ge Value Alignment Hpos). unfold is_uint in *. lia. }
    rewrite (wrap_small 32 (align_up _ _)) by done. by apply fits_u_spec in HU as ->.
  - assert (2 ^ 32 <= Value + (Alignment - 1)) as Hge.
    { unfold fits_u, is_uint in *.
      destruct (Z.leb_spec 0 (Value + (Alignment - 1))), (Z.ltb_spec (Value + (Alignment - 1)) (2 ^ 32));
        cbn in F; lia || done. }
    assert (IS_POW2 (2 ^ 32) = true) as H32 by done.
    assert (Alignment | 2 ^ 32) as [q Hq] by (apply pow2_divide; unfold is_uint in *; lia || done).
    assert (align_up Value Alignment = 2 ^ 32) as ->.
    { pose proof (align_up_ge Value Alignment Hpos).
      assert (align_up Value Alignment <= 2 ^ 32)
        by (apply align_up_least; [done|by exists q|unfold is_uint in *; lia]).
      destruct (align_up_divide Value Alignment) as [r Hr].
      assert (q - 1 < r) by (unfold is_uint in *; nia). unfold is_uint in *. nia. }
    apply IS_POW2_spec in HP as (k & Hk & ->); [|unfold is_uint in *; lia].
    rewrite land_lnot_mask by (try apply wrap_range; lia).
    assert (wrap 32 (Value + (2 ^ k - 1)) = Value + (2 ^ k - 1) - 2 ^ 32) as ->.
    { rewrite <- (wrap_small 32 (_ - 2 ^ 32)) by (unfold is_uint in *; lia).
      rewrite <- (wrap_add_mul 32 (_ - _) 1) by lia. f_equal. lia. }
    rewrite Z.mod_small by (unfold is_uint in *; lia). by rewrite Z.sub_diag.
Qed.

(** ** The interface to the image loaders

    What the loaders rely on: the flag says whether the exact 32-bit result
    does not fit, the value is the exact result modulo 2^32. *)
Class OverflowLib := {
  ovf_add_u32 : Z → Z → bool * Z;
  ovf_sub_u32 : Z → Z → bool * Z;
  ovf_mul_u32 : Z → Z → bool * Z;
  ovf_align_up_u32 : Z → Z → bool * Z;
  ovf_add_u32_spec A B :
    u32 A → u32 B → ovf_add_u32 A B = (negb (fits_u 32 (A + B)), wrap 32 (A + B));
  ovf_sub_u32_spec A B :
    u32 A → u32 B → ovf_sub_u32 A B = (negb (fits_u 32 (A - B)), wrap 32 (A - B));
  ovf_mul_u32_spec A B :
    u32 A → u32 B → ovf_mul_u32 A B = (negb (fits_u 32 (A * B)), wrap 32 (A * B));
  ovf_align_up_u32_spec V A :
    u32 V → u32 A → IS_POW2 A = true →
    ovf_align_up_u32 V A = (negb (fits_u 32 (align_up V A)), wrap 32 (align_up V A));
}.

(** BaseOverflowLib discharges it in every build. *)
#[export] Instance BaseOverflowLib (c : build) : OverflowLib.
Proof.
  refine {| ovf_add_u32 := BaseOverflowAddU32 c; ovf_sub_u32 := BaseOverflowSubU32 c;
            ovf_mul_u32 := BaseOverflowMulU32 c;
            ovf_align_up_u32 := BaseOverflowAlignUpU32 c |}.
  - intros. by rewrite BaseOverflowAddU32_eq, builtin_u_eq.
  - intros. by rewrite BaseOverflowSubU32_eq, builtin_u_eq.
  - intros. by rewrite BaseOverflowMulU32_eq, builtin_u_eq.
  - intros. by apply BaseOverflowAlignUpU32_eq.
Defined.

(** The builds the theorems are instantiated at: a compiler with the generic
    builtins, and a 32-bit one with none. *)
Definition build_gcc_x64 : build :=
  {| BASE_HAS_TYPE_GENERIC_BUILTINS := true; BASE_HAS_TYPE_SPECIFIC_BUILTINS := true;
     BASE_HAS_TYPE_SPECIFIC_BUILTINS_64 := true; BASE_HAS_TYPE_SPECIFIC_BUILTINS_32 := false;
     MDE_CPU_IA32 := false; UINTN_BITS := 64 |}.
Definition build_software_32 : build :=
  {| BASE_HAS_TYPE_GENERIC_BUILTINS := false; BASE_HAS_TYPE_SPECIFIC_BUILTINS := false;
     BASE_HAS_TYPE_SPECIFIC_BUILTINS_64 := false; BASE_HAS_TYPE_SPECIFIC_BUILTINS_32 := false;
     MDE_CPU_IA32 := true; UINTN_BITS := 32 |}.

Lemma build_software_32_ok : build_ok build_software_32.
Proof. split; [by left|done]. Qed.

(** ** Composition *)

(** [f] computes [g] exactly on the type whenever its flag is clear. *)
Definition clear_exact2 (ty : Z → Prop) (f : Z → Z → bool * Z) (g : Z → Z → Z) : Prop :=
  ∀ A B R, ty A → ty B → f A B = (false, R) → R = g A B ∧ ty R.
Definition clear_exact3 (ty : Z → Prop) (f : Z → Z → Z → bool * Z) (g : Z → Z → Z → Z) : Prop :=
  ∀ A B C R, ty A → ty B → ty C → f A B C = (false, R) → R = g A B C ∧ ty R.

Lemma chain_exact ty op1 op2 g1 g2 :
  clear_exact2 ty op1 g1 → clear_exact2 ty op2 g2 →
  clear_exact3 ty (chain op1 op2) (λ A B C, g2 (g1 A B) C).
Proof.
  intros H1 H2 A B C R HA HB HC. unfold chain.
  destruct (op1 A B) as [[] T] eqn:E1; destruct (op2 T C) as [[] U] eqn:E2; cbn; try done.
  intros [= ->]. destruct (H1 A B T HA HB E1) as [<- HT]. by apply H2.
Qed.

Lemma unsigned_clear_exact w f g :
  0 <= w → (∀ A B, is_uint w A → is_uint w B → f A B = builtin_u w (g A B)) →
  clear_exact2 (is_uint w) f g.
Proof.
  intros Hw H A B R HA HB. rewrite H by done. rewrite builtin_u_eq by done.
  destruct (fits_u w (g A B)) eqn:F; intros [= <-]. apply fits_u_spec in F.
  by rewrite wrap_small.
Qed.

Lemma signed_clear_exact w f g :
  (∀ A B, is_sint w A → is_sint w B → signed_ok w (g A B) (f A B)) →
  clear_exact2 (is_sint w) f g.
Proof.
  intros H A B R HA HB E. specialize (H A B HA HB). rewrite E in H.
  destruct H as [H1 H2]. cbn in *. rewrite H2 by done. split; [done|].
  apply fits_s_spec. by destruct (fits_s w (g A B)).
Qed.

(** ** Multiply, then divide *)

Lemma land_1_mod x : (Z.land x 1 =? 1) = (x mod 2 =? 1).
Proof. change 1 with (2 ^ 1 - 1) at 1. rewrite land_mask by lia. done. Qed.

Lemma exceeds_quotient a b m : 0 < b → (m / b <? a) = (m <? a * b).
Proof.
  intros Hb. pose proof (Z.div_mod m b). pose proof (Z.mod_pos_bound m b Hb).
  destruct (Z.ltb_spec (m / b) a), (Z.ltb_spec m (a * b)); try done; exfalso; nia.
Qed.

(** One halving step on exact integers. *)
Lemma halve_then_div b d h r :
  0 < d → 0 <= b → 0 <= h →
  let p := (2 * h + r) * b in
  p / d = 2 * (h * b / d) + r * (b / d) + (r * (b mod d) + 2 * (h * b mod d)) / d ∧
  p mod d = (r * (b mod d) + 2 * (h * b mod d)) mod d.
Proof.
  intros Hd Hb Hh p. unfold p.
  pose proof (Z.div_mod (h * b) d) as E1. pose proof (Z.div_mod b d) as E2.
  set (q1 := h * b / d) in *. set (r1 := (h * b) mod d) in *.
  set (q2 := b / d) in *. set (r2 := b mod d) in *.
  assert ((2 * h + r) * b = (r * r2 + 2 * r1) + (2 * q1 + r * q2) * d) as -> by nia.
  rewrite Z.div_add, Z.mod_add by lia. split; [lia|done].
Qed.

Lemma wp_DivU64x32Remainder {S} a d (Q : Z * Z → S → Prop) E s :
  d ≠ 0 → Q (a / d, a mod d) s → wp (DivU64x32Remainder a d) Q E s.
Proof.
  intros. apply wp_bind, wp_require; [|by apply wp_ret].
  by apply negb_true_iff, Z.eqb_neq.
Qed.

(** The product fits: the direct branch. *)
Lemma mult_then_div_direct {S} a b d (s : S) :
  0 <= a → 0 <= b → 0 < d → a * b < 2 ^ 64 →
  wp (DivU64x32Remainder (MultU64x64 a b) d)
    (λ r s', r = (wrap 64 (a * b / d), a * b mod d) ∧ s' = s) (λ _ _, False) s.
Proof.
  intros. apply wp_DivU64x32Remainder; [lia|]. unfold MultU64x64.
  rewrite (wrap_small 64 (a * b)) by (unfold is_uint; nia). split; [|done].
  rewrite wrap_small; [done|]. unfold is_uint. split; [apply Z.div_pos; nia|].
  apply Z.div_lt_upper_bound; nia.
Qed.

Lemma mult_then_div_spec {S} k : ∀ a b d (s : S),
  u64 a → u64 b → 0 < b → u32 d → 0 < d → a * b < 2 ^ (64 + Z.of_nat k) →
  wp (mult_then_div (Datatypes.S k) a b d)
    (λ r s', r = (wrap 64 (a * b / d), a * b mod d) ∧ s' = s) (λ _ _, False) s.
Proof.
  induction k as [|k IH]; intros a b d s Ha Hb Hb0 Hd Hd0 Hp;
    unfold is_uint in *; cbn [mult_then_div].
  all: apply wp_bind, wp_bind, wp_require; [by apply negb_true_iff, Z.eqb_neq; lia|].
  all: apply wp_ret; cbn beta iota; rewrite exceeds_quotient by done; unfold MAX_UINT64.
  - destruct (Z.ltb_spec (2 ^ 64 - 1) (a * b)); [lia|]. by apply mult_then_div_direct; lia.
  - destruct (Z.ltb_spec (2 ^ 64 - 1) (a * b)) as [Hbig|Hsmall];
      [|by apply mult_then_div_direct; lia].
    set (p := if a <? b then (b, a) else (a, b)).
    assert (∃ x y, p = (x, y) ∧ 0 <= x < 2 ^ 64 ∧ 0 < y < 2 ^ 64 ∧ x * y = a * b)
      as (x & y & -> & Hx & Hy & Exy).
    { unfold p. destruct (Z.ltb_spec a b); eexists _, _; (split; [done|]); split_and!; nia. }
    cbn beta iota. unfold RShiftU64. rewrite Z.shiftr_div_pow2 by lia. change (2 ^ 1) with 2.
    pose proof (Z.div_mod x 2 ltac:(lia)) as Ex. pose proof (Z.mod_pos_bound x 2 ltac:(lia)) as Hm.
    set (h := x / 2) in *.
    replace (64 + Z.of_nat (Datatypes.S k)) with (Z.succ (64 + Z.of_nat k)) in Hp by lia.
    rewrite Z.pow_succ_r in Hp by lia.
    apply wp_bind. eapply wp_mono; [apply IH; unfold is_uint; nia|intros r s' [-> ->]|done].
    pose proof (halve_then_div y d h (x mod 2) Hd0 ltac:(lia) ltac:(lia)) as [Eq Er].
    cbv zeta in Eq, Er. rewrite <- Ex, Exy in Eq, Er.
    pose proof (Z.mod_pos_bound (h * y) d Hd0). pose proof (Z.mod_pos_bound y d Hd0).
    assert (LShiftU64 ((h * y) mod d) 1 = 2 * ((h * y) mod d)) as EL.
    { rewrite LShiftU64_eq, wrap_small by (unfold is_uint; lia). lia. }
    cbn beta iota. rewrite land_1_mod, EL.
    assert (x mod 2 = 0 ∨ x mod 2 = 1) as [E|E] by lia; rewrite E in *; cbn [Z.eqb Pos.eqb].
    + apply wp_bind, wp_ret, wp_bind, wp_DivU64x32Remainder; [lia|]. apply wp_ret.
      rewrite (wrap_small 64 (0 + _)) by (unfold is_uint; lia). split; [|done].
      rewrite LShiftU64_eq, wrap_mul_l, wrap_add_l, Eq, Er, !Z.mul_0_l by lia.
      do 2 f_equal. lia.
    + apply wp_bind, wp_bind, wp_DivU64x32Remainder; [lia|].
      apply wp_ret, wp_bind, wp_DivU64x32Remainder; [lia|]. apply wp_ret.
      rewrite (wrap_small 64 (y mod d + _)) by (unfold is_uint; lia). split; [|done].
      rewrite LShiftU64_eq, wrap_mul_l, wrap_add_l, <- Z.add_assoc, wrap_add_l, Eq, Er,
        !Z.mul_1_l by lia.
      do 2 f_equal. lia.
Qed.

(** ** Theorems *)

(** The 16-bit multiplication, which reports overflows with compiler builtins only. *)
Lemma BaseOverflowMulU16_eq (c : build) (A B : Z) : u16 A → u16 B →
  BaseOverflowMulU16 c A B = (BASE_HAS_TYPE_GENERIC_BUILTINS c && negb (fits_u 16 (A * B)), wrap 16 (A * B)).
Proof.
  intros HA HB. unfold BaseOverflowMulU16. destruct (BASE_HAS_TYPE_GENERIC_BUILTINS c); [by rewrite builtin_u_eq|].
  rewrite (wrap_small 32) by (unfold is_uint in *; nia).
  destruct (Z.leb_spec (A * B) MAX_UINT32) as [|H]; [done|]. exfalso. unfold MAX_UINT32, is_uint in *. nia.
Qed.

(** C9. In every build, the unsigned routines on UINT32, UINT64 and UINTN, and
    addition and subtraction on UINT16,
    return exactly what the compiler builtin returns: the flag is set if and
    only if the mathematical result does not fit, and the stored value is the
    result modulo 2^w.  For 64-bit multiplication this is the correctness of the
    three-multiplication software routine.  Multiplication on UINT16 stores the
    result modulo 2^16, but sets the flag in builds with type-generic builtins only: in
    the others it never does. *)
Theorem unsigned_overflow_exact (c : build) (A B : Z) (Hc : build_ok c) :
  (u16 A → u16 B →
     BaseOverflowAddU16 c A B = (negb (fits_u 16 (A + B)), wrap 16 (A + B)) ∧
     BaseOverflowSubU16 c A B = (negb (fits_u 16 (A - B)), wrap 16 (A - B)) ∧
     BaseOverflowMulU16 c A B = (BASE_HAS_TYPE_GENERIC_BUILTINS c && negb (fits_u 16 (A * B)), wrap 16 (A * B))) ∧
  (u32 A → u32 B →
     BaseOverflowAddU32 c A B = (negb (fits_u 32 (A + B)), wrap 32 (A + B)) ∧
     BaseOverflowSubU32 c A B = (negb (fits_u 32 (A - B)), wrap 32 (A - B)) ∧
     BaseOverflowMulU32 c A B = (negb (fits_u 32 (A * B)), wrap 32 (A * B))) ∧
  (u64 A → u64 B →
     BaseOverflowAddU64 c A B = (negb (fits_u 64 (A + B)), wrap 64 (A + B)) ∧
     BaseOverflowSubU64 c A B = (negb (fits_u 64 (A - B)), wrap 64 (A - B)) ∧
     BaseOverflowMulU64 c A B = (negb (fits_u 64 (A * B)), wrap 64 (A * B))) ∧
  let n := UINTN_BITS c in
  (is_uint n A → is_uint n B →
     BaseOverflowAddUN c A B = (negb (fits_u n (A + B)), wrap n (A + B)) ∧
     BaseOverflowSubUN c A B = (negb (fits_u n (A - B)), wrap n (A - B)) ∧
     BaseOverflowMulUN c A B = (negb (fits_u n (A * B)), wrap n (A * B))).
Proof.
  assert (0 <= UINTN_BITS c) as Hn by (destruct Hc as [[->| ->] _]; lia).
  split; [intros; split_and!; [rewrite <- builtin_u_eq by lia; by apply BaseOverflowAddU16_eq|
    rewrite <- builtin_u_eq by lia; by apply BaseOverflowSubU16_eq|by apply BaseOverflowMulU16_eq]|].
  cbv zeta. rewrite <- !builtin_u_eq by lia. split_and!; intros HA HB; split_and!;
    auto using BaseOverflowAddU32_eq, BaseOverflowSubU32_eq, BaseOverflowMulU32_eq,
      BaseOverflowAddU64_eq, BaseOverflowSubU64_eq, BaseOverflowMulU64_eq;
    apply (unsigned_native_eq c Hc); auto using BaseOverflowAddU32_eq, BaseOverflowSubU32_eq,
      BaseOverflowMulU32_eq, BaseOverflowAddU64_eq, BaseOverflowSubU64_eq, BaseOverflowMulU64_eq.
Qed.

Lemma unsigned_overflow_exact_witness :
  BaseOverflowMulU64 build_software_32 (2 ^ 33 + 5) (2 ^ 31) = (true, 5 * 2 ^ 31).
Proof.
  destruct (unsigned_overflow_exact build_software_32 (2 ^ 33 + 5) (2 ^ 31) build_software_32_ok)
    as (_ & _ & H & _). apply H; by compute.
Defined.

(** C10. In every build, the signed routines on INT32, INT64 and INTN set their
    flag if and only if the mathematical result does not fit, and store the
    exact result when it does. *)
Theorem signed_overflow_exact (c : build) (A B : Z) (Hc : build_ok c) :
  (is_sint 32 A → is_sint 32 B →
     signed_ok 32 (A + B) (BaseOverflowAddS32 c A B) ∧
     signed_ok 32 (A - B) (BaseOverflowSubS32 c A B) ∧
     signed_ok 32 (A * B) (BaseOverflowMulS32 c A B)) ∧
  (is_sint 64 A → is_sint 64 B →
     signed_ok 64 (A + B) (BaseOverflowAddS64 c A B) ∧
     signed_ok 64 (A - B) (BaseOverflowSubS64 c A B) ∧
     signed_ok 64 (A * B) (BaseOverflowMulS64 c A B)) ∧
  let n := UINTN_BITS c in
  (is_sint n A → is_sint n B →
     signed_ok n (A + B) (BaseOverflowAddSN c A B) ∧
     signed_ok n (A - B) (BaseOverflowSubSN c A B) ∧
     signed_ok n (A * B) (BaseOverflowMulSN c A B)).
Proof.
  cbv zeta. split_and!; intros HA HB; split_and!;
    auto using BaseOverflowAddS32_ok, BaseOverflowSubS32_ok, BaseOverflowMulS32_ok,
      BaseOverflowAddS64_ok, BaseOverflowSubS64_ok, BaseOverflowMulS64_ok;
    apply (signed_native_ok c Hc); auto using BaseOverflowAddS32_ok, BaseOverflowSubS32_ok,
      BaseOverflowMulS32_ok, BaseOverflowAddS64_ok, BaseOverflowSubS64_ok, BaseOverflowMulS64_ok.
Qed.

Lemma signed_overflow_exact_witness :
  signed_ok 64 (- 2 ^ 63 * 1) (BaseOverflowMulS64 build_software_32 (- 2 ^ 63) 1) ∧
  BaseOverflowMulS64 build_software_32 (- 2 ^ 63) 1 = (false, - 2 ^ 63).
Proof.
  split; [|by vm_compute].
  destruct (signed_overflow_exact build_software_32 (- 2 ^ 63) 1 build_software_32_ok)
    as (_ & H & _). apply H; by compute.
Defined.

(** The three-operand routines are sound: when the combined flag is clear,
    the stored value is the exact value of the two-step expression and fits the
    type, for all four combinations on all six types. *)
Theorem triple_overflow_sound (c : build) (Hc : build_ok c) :
  let add3 A B C := A + B + C in
  let mul3 A B C := A * B * C in
  let addmul A B C := (A + B) * C in
  let muladd A B C := A * B + C in
  clear_exact3 (is_uint 32) (BaseOverflowTriAddU32 c) add3 ∧
  clear_exact3 (is_uint 32) (BaseOverflowTriMulU32 c) mul3 ∧
  clear_exact3 (is_uint 32) (BaseOverflowAddMulU32 c) addmul ∧
  clear_exact3 (is_uint 32) (BaseOverflowMulAddU32 c) muladd ∧
  clear_exact3 (is_sint 32) (BaseOverflowTriAddS32 c) add3 ∧
  clear_exact3 (is_sint 32) (BaseOverflowTriMulS32 c) mul3 ∧
  clear_exact3 (is_sint 32) (BaseOverflowAddMulS32 c) addmul ∧
  clear_exact3 (is_sint 32) (BaseOverflowMulAddS32 c) muladd ∧
  clear_exact3 (is_uint 64) (BaseOverflowTriAddU64 c) add3 ∧
  clear_exact3 (is_uint 64) (BaseOverflowTriMulU64 c) mul3 ∧
  clear_exact3 (is_uint 64) (BaseOverflowAddMulU64 c) addmul ∧
  clear_exact3 (is_uint 64) (BaseOverflowMulAddU64 c) muladd ∧
  clear_exact3 (is_sint 64) (BaseOverflowTriAddS64 c) add3 ∧
  clear_exact3 (is_sint 64) (BaseOverflowTriMulS64 c) mul3 ∧
  clear_exact3 (is_sint 64) (BaseOverflowAddMulS64 c) addmul ∧
  clear_exact3 (is_sint 64) (BaseOverflowMulAddS64 c) muladd ∧
  clear_exact3 (is_uint (UINTN_BITS c)) (BaseOverflowTriAddUN c) add3 ∧
  clear_exact3 (is_uint (UINTN_BITS c)) (BaseOverflowTriMulUN c) mul3 ∧
  clear_exact3 (is_uint (UINTN_BITS c)) (BaseOverflowAddMulUN c) addmul ∧
  clear_exact3 (is_uint (UINTN_BITS c)) (BaseOverflowMulAddUN c) muladd ∧
  clear_exact3 (is_sint (UINTN_BITS c)) (BaseOverflowTriAddSN c) add3 ∧
  clear_exact3 (is_sint (UINTN_BITS c)) (BaseOverflowTriMulSN c) mul3 ∧
  clear_exact3 (is_sint (UINTN_BITS c)) (BaseOverflowAddMulSN c) addmul ∧
  clear_exact3 (is_sint (UINTN_BITS c)) (BaseOverflowMulAddSN c) muladd.
Proof.
  assert (0 <= UINTN_BITS c) as Hn by (destruct Hc as [[->| ->] _]; lia).
  intros add3 mul3 addmul muladd. split_and!.
  all: unfold add3, mul3, addmul, muladd.
  all: first
    [ apply (chain_exact _ _ _ Z.add Z.add) | apply (chain_exact _ _ _ Z.mul Z.mul)
    | apply (chain_exact _ _ _ Z.add Z.mul) | apply (chain_exact _ _ _ Z.mul Z.add) ].
  all: first [apply unsigned_clear_exact; [lia|]|apply signed_clear_exact]; intros A B HA HB.
  all: first [apply (unsigned_native_eq c Hc)|apply (signed_native_ok c Hc)|idtac];
    auto using BaseOverflowAddU32_eq, BaseOverflowMulU32_eq, BaseOverflowAddU64_eq,
      BaseOverflowMulU64_eq, BaseOverflowAddS32_ok, BaseOverflowMulS32_ok,
      BaseOverflowAddS64_ok, BaseOverflowMulS64_ok.
Qed.

Lemma triple_overflow_sound_witness :
  BaseOverflowMulAddU32 build_software_32 65535 65537 0 = (false, 2 ^ 32 - 1) ∧
  2 ^ 32 - 1 = 65535 * 65537 + 0.
Proof.
  assert (BaseOverflowMulAddU32 build_software_32 65535 65537 0 = (false, 2 ^ 32 - 1)) as E
    by (by vm_compute).
  split; [done|].
  destruct (triple_overflow_sound build_software_32 build_software_32_ok) as (_ & _ & _ & H & _).
  refine (proj1 (H 65535 65537 0 (2 ^ 32 - 1) _ _ _ E)); by compute.
Defined.

(** For a power-of-two alignment, BaseOverflowAlignUpU32 stores the least
    multiple of the alignment that is not below the value, modulo 2^32, and its
    flag is set exactly when that multiple does not fit 32 bits (the stored
    value is then 0). *)
Theorem align_up_exact (c : build) (Value Alignment : Z)
    (HV : u32 Value) (HA : u32 Alignment) (HP : IS_POW2 Alignment = true) :
  ∃ m, Value <= m < Value + Alignment ∧ (Alignment | m) ∧
    BaseOverflowAlignUpU32 c Value Alignment = (2 ^ 32 <=? m, wrap 32 m) ∧
    (2 ^ 32 <= m → wrap 32 m = 0).
Proof.
  pose proof (IS_POW2_pos _ (proj1 HA) HP) as Hpos.
  pose proof (align_up_ge Value Alignment Hpos) as Hge.
  exists (align_up Value Alignment). rewrite BaseOverflowAlignUpU32_eq by done.
  split_and!; [lia..|apply align_up_divide| |].
  - f_equal. unfold fits_u, is_uint in *.
    destruct (Z.leb_spec 0 (align_up Value Alignment)),
      (Z.ltb_spec (align_up Value Alignment) (2 ^ 32)),
      (Z.leb_spec (2 ^ 32) (align_up Value Alignment)); cbn; lia || done.
  - intros Hbig. assert (align_up Value Alignment = 2 ^ 32) as ->; [|done].
    apply Z.le_antisymm; [|done]. apply align_up_least; [done| |unfold is_uint in *; lia].
    apply pow2_divide; unfold is_uint in *; lia || done.
Qed.

Lemma align_up_exact_witness :
  ∃ m, 4097 <= m < 4097 + 4096 ∧ (4096 | m) ∧
    BaseOverflowAlignUpU32 build_gcc_x64 4097 4096 = (2 ^ 32 <=? m, wrap 32 m) ∧
    (2 ^ 32 <= m → wrap 32 m = 0).
Proof. apply (align_up_exact build_gcc_x64 4097 4096); by compute. Defined.

(** BaseMultThenDivU64x64x32 terminates and returns the quotient (modulo
    2^64) and the remainder of the full 128-bit product by the divisor, for
    every non-zero multiplier and divisor. *)
Theorem mult_then_div_exact (a b d : Z)
    (Ha : u64 a) (Hb : u64 b) (Hd : u32 d) (Hb0 : 0 < b) (Hd0 : 0 < d) :
  BaseMultThenDivU64x64x32 a b d tt = Ok (wrap 64 (a * b / d), a * b mod d) tt.
Proof.
  pose proof (mult_then_div_spec 64 a b d tt Ha Hb Hb0 Hd Hd0) as H.
  assert (a * b < 2 ^ (64 + Z.of_nat 64)) as Hp by (unfold is_uint in *; nia).
  specialize (H Hp). unfold BaseMultThenDivU64x64x32. revert H.
  with_strategy transparent [wp] unfold wp.
  destruct (mult_then_div 65 a b d tt) as [r []| |]; [|done..]. by intros [-> _].
Qed.

Lemma mult_then_div_exact_witness :
  BaseMultThenDivU64x64x32 (2 ^ 63 + 3) (2 ^ 40 + 1) 1000000007 tt
  = Ok (wrap 64 ((2 ^ 63 + 3) * (2 ^ 40 + 1) / 1000000007),
        (2 ^ 63 + 3) * (2 ^ 40 + 1) mod 1000000007) tt.
Proof. apply mult_then_div_exact; by compute. Defined.

(** The software branch of BaseOverflowMulU16 compares the 32-bit product
    with MAX_UINT32 instead of MAX_UINT16, so without the compiler builtins it
    reports no overflow for any operands, although products above 65535 are
    truncated. *)
Theorem BaseOverflowMulU16_software_misses (c : build)
    (Hc : BASE_HAS_TYPE_GENERIC_BUILTINS c = false) (A B : Z) (HA : u16 A) (HB : u16 B) :
  BaseOverflowMulU16 c A B = (false, wrap 16 (A * B)).
Proof.
  by rewrite BaseOverflowMulU16_eq, Hc.
Qed.

Lemma BaseOverflowMulU16_software_misses_witness :
  BaseOverflowMulU16 build_software_32 65535 65535 = (false, wrap 16 (65535 * 65535)) ∧
  BaseOverflowMulU16 build_gcc_x64 65535 65535 = (true, wrap 16 (65535 * 65535)).
Proof. split; [by apply BaseOverflowMulU16_software_misses; compute|by vm_compute]. Defined.
