(* ===== verification/Platform.v ===== *)
(** The platform the image loaders are built for: the PCDs (platform configuration
    database values) they read, the DebugLib switch, the architecture's constants;
    ASSERT, and the symbolic execution of the loaders' functions. *)
From S2P Require Import Prelude Base Buffer.

Class Platform := {
  DebugAssertEnabled : bool;
  PcdImageLoaderAlignmentPolicy : Z;
  PcdImageLoaderWXorX : bool;
  PcdImageLoaderRemoveXForWX : bool;
  PcdImageLoaderAllowMisalignedOffset : bool;
  PcdImageProtectionPolicy : Z;
  PcdImageLoaderLoadHeader : bool;
  PcdImageLoaderHashProhibitOverlap : bool;
  PcdImageLoaderRelocTypePolicy : Z;
  PcdImageLoaderRtRelocAllowTargetMismatch : bool;
  PcdImageLoaderDebugSupport : bool;
  DEFAULT_PAGE_ALLOCATION_GRANULARITY : Z;
  RUNTIME_PAGE_ALLOCATION_GRANULARITY : Z;
  ALIGNOF_UINT64 : Z;
  UINTN_WIDTH : Z;
}.

(** What holds on every architecture of the ProcessorBind.h files of MdePkg/Include. *)
Class PlatformOk `{!Platform} : Prop := {
  platform_default_pow2 : IS_POW2 DEFAULT_PAGE_ALLOCATION_GRANULARITY = true;
  platform_runtime_pow2 : IS_POW2 RUNTIME_PAGE_ALLOCATION_GRANULARITY = true;
  platform_default_u32 : u32 DEFAULT_PAGE_ALLOCATION_GRANULARITY;
  platform_runtime_u32 : u32 RUNTIME_PAGE_ALLOCATION_GRANULARITY;
  platform_granularities :
    DEFAULT_PAGE_ALLOCATION_GRANULARITY <= RUNTIME_PAGE_ALLOCATION_GRANULARITY;
  platform_uintn : UINTN_WIDTH = 32 ∨ UINTN_WIDTH = 64;
}.

(** The default values of MdePkg.dec, on X64 and on AARCH64, with ASSERTs. *)
Definition platform_x64 : Platform := {|
  DebugAssertEnabled := true;
  PcdImageLoaderAlignmentPolicy := 0xFFFFFFFF;
  PcdImageLoaderWXorX := true;
  PcdImageLoaderRemoveXForWX := false;
  PcdImageLoaderAllowMisalignedOffset := false;
  PcdImageProtectionPolicy := 0x7;
  PcdImageLoaderLoadHeader := true;
  PcdImageLoaderHashProhibitOverlap := true;
  PcdImageLoaderRelocTypePolicy := 0xFFFFFFFF;
  PcdImageLoaderRtRelocAllowTargetMismatch := false;
  PcdImageLoaderDebugSupport := true;
  DEFAULT_PAGE_ALLOCATION_GRANULARITY := 0x1000;
  RUNTIME_PAGE_ALLOCATION_GRANULARITY := 0x1000;
  ALIGNOF_UINT64 := 8;
  UINTN_WIDTH := 64;
|}.

(** A strict platform: no unaligned sections or relocation blocks, and small
    section alignments are accepted, so that the examples can be small. *)
Definition platform_strict : Platform := {|
  DebugAssertEnabled := true;
  PcdImageLoaderAlignmentPolicy := 0;
  PcdImageLoaderWXorX := true;
  PcdImageLoaderRemoveXForWX := false;
  PcdImageLoaderAllowMisalignedOffset := false;
  PcdImageProtectionPolicy := 0;
  PcdImageLoaderLoadHeader := true;
  PcdImageLoaderHashProhibitOverlap := true;
  PcdImageLoaderRelocTypePolicy := 0xFFFFFFFF;
  PcdImageLoaderRtRelocAllowTargetMismatch := false;
  PcdImageLoaderDebugSupport := true;
  DEFAULT_PAGE_ALLOCATION_GRANULARITY := 0x1000;
  RUNTIME_PAGE_ALLOCATION_GRANULARITY := 0x10000;
  ALIGNOF_UINT64 := 8;
  UINTN_WIDTH := 64;
|}.

(** The same platform with unaligned sections and blocks permitted. *)
Definition platform_relaxed : Platform := {|
  DebugAssertEnabled := true;
  PcdImageLoaderAlignmentPolicy := 0xFFFFFFFF;
  PcdImageLoaderWXorX := true;
  PcdImageLoaderRemoveXForWX := false;
  PcdImageLoaderAllowMisalignedOffset := false;
  PcdImageProtectionPolicy := 0;
  PcdImageLoaderLoadHeader := true;
  PcdImageLoaderHashProhibitOverlap := true;
  PcdImageLoaderRelocTypePolicy := 0xFFFFFFFF;
  PcdImageLoaderRtRelocAllowTargetMismatch := false;
  PcdImageLoaderDebugSupport := true;
  DEFAULT_PAGE_ALLOCATION_GRANULARITY := 0x1000;
  RUNTIME_PAGE_ALLOCATION_GRANULARITY := 0x10000;
  ALIGNOF_UINT64 := 8;
  UINTN_WIDTH := 64;
|}.

(** The strict platform in a release build, without ASSERTs. *)
Definition platform_release : Platform := {|
  DebugAssertEnabled := false;
  PcdImageLoaderAlignmentPolicy := 0;
  PcdImageLoaderWXorX := true;
  PcdImageLoaderRemoveXForWX := false;
  PcdImageLoaderAllowMisalignedOffset := false;
  PcdImageProtectionPolicy := 0;
  PcdImageLoaderLoadHeader := true;
  PcdImageLoaderHashProhibitOverlap := true;
  PcdImageLoaderRelocTypePolicy := 0xFFFFFFFF;
  PcdImageLoaderRtRelocAllowTargetMismatch := false;
  PcdImageLoaderDebugSupport := true;
  DEFAULT_PAGE_ALLOCATION_GRANULARITY := 0x1000;
  RUNTIME_PAGE_ALLOCATION_GRANULARITY := 0x10000;
  ALIGNOF_UINT64 := 8;
  UINTN_WIDTH := 64;
|}.

Lemma platform_x64_ok : @PlatformOk platform_x64.
Proof. constructor; try by vm_compute. by right. Qed.

Lemma platform_strict_ok : @PlatformOk platform_strict.
Proof. constructor; try by vm_compute. by right. Qed.

Lemma platform_release_ok : @PlatformOk platform_release.
Proof. constructor; try by vm_compute. by right. Qed.

Lemma platform_relaxed_ok : @PlatformOk platform_relaxed.
Proof. constructor; try by vm_compute. by right. Qed.

(** A policy bit is clear. *)
Definition bit_clear (Policy Bit : Z) : bool := Z.land Policy Bit =? 0.

Section Assertions.
Context `{!Platform}.

(** ASSERT is compiled in, or not, as a whole. *)
Definition ASSERT {S} (b : bool) : M S unit :=
  require (negb DebugAssertEnabled || b) AssertFailed.

Lemma wp_ASSERT {S} b (Q : unit → S → Prop) E s : b = true → Q tt s → wp (ASSERT b) Q E s.
Proof. intros -> HQ. apply wp_require; [|done]. by rewrite orb_true_r. Qed.

(** Arithmetic on UINTN, the type of sizeof. *)
Definition wrapn (x : Z) : Z := wrap UINTN_WIDTH x.

Lemma wrapn_small `{!PlatformOk} x : u32 x → wrapn x = x.
Proof.
  intros. apply wrap_small. eapply is_uint_mono; [|done].
  destruct platform_uintn as [->| ->]; lia.
Qed.
End Assertions.

(** ** Symbolic execution *)

Ltac wp_step :=
  lazymatch goal with
  | |- wp (_ ≫= _) _ _ _ => apply wp_bind
  | |- wp (mret _) _ _ _ => apply wp_ret
  | |- wp getS _ _ _ => apply wp_getS
  | |- wp (modify _) _ _ _ => apply wp_modify
  | |- wp (raise _) _ _ _ => apply wp_raise
  | |- wp (fail_if _ _) _ _ _ => apply wp_fail_if; [try done; auto|intros ?]
  | |- wp (rd _ _ _) _ _ _ => apply wp_rd
  | |- wp (ASSERT _) _ _ _ => apply wp_ASSERT
  | |- wp (require _ _) _ _ _ => apply wp_require
  | |- wp (if _ then _ else _) _ _ _ => apply wp_if; intros ?
  end.
