(* ===== verification/CheckSum.v ===== *)
(** Checksums of MdePkg/Library/BaseLib/CheckSum.c: sums with the carry dropped and
    their two's complement, and the three table-driven CRCs. *)
From S2P Require Import Prelude Base Buffer Platform.

(** ** Sums *)

Section Sums.
Context `{!Platform} {S : Type}.

(** [for (Sum = 0, Count = 0; Count < Total; Count++) Sum = Sum + *(Buffer + Count);] over
    elements of [n] bytes. *)
Definition SumLoop (n : nat) (Buffer : list Z) (Total : Z) : M S Z :=
  for_loop (Z.to_nat Total) 0
    (λ Count Sum, x ← rd n Buffer (Z.of_nat n * Count); mret (wrap (8 * Z.of_nat n) (Sum + x))) 0.

Definition CalculateSum8 (Buffer : list Z) (Length : Z) : M S Z := SumLoop 1 Buffer Length.

Definition CalculateCheckSum8 (Buffer : list Z) (Length : Z) : M S Z :=
  CheckSum ← CalculateSum8 Buffer Length;
  mret (wrap 8 (0x100 - CheckSum)).

(** The buffers of the wider sums are aligned: ASSERTs on the address have no counterpart. *)
Definition CalculateSum16 (Buffer : list Z) (Length : Z) : M S Z :=
  ASSERT (Z.land Length 0x1 =? 0);;
  SumLoop 2 Buffer (Length / 2).

Definition CalculateCheckSum16 (Buffer : list Z) (Length : Z) : M S Z :=
  CheckSum ← CalculateSum16 Buffer Length;
  mret (wrap 16 (0x10000 - CheckSum)).

Definition CalculateSum32 (Buffer : list Z) (Length : Z) : M S Z :=
  ASSERT (Z.land Length 0x3 =? 0);;
  SumLoop 4 Buffer (Length / 4).

Definition CalculateCheckSum32 (Buffer : list Z) (Length : Z) : M S Z :=
  CheckSum ← CalculateSum32 Buffer Length;
  mret (wrap 32 (wrap 32 (0xFFFFFFFF - CheckSum) + 1)).

Definition CalculateSum64 (Buffer : list Z) (Length : Z) : M S Z :=
  ASSERT (Z.land Length 0x7 =? 0);;
  SumLoop 8 Buffer (Length / 8).

Definition CalculateCheckSum64 (Buffer : list Z) (Length : Z) : M S Z :=
  CheckSum ← CalculateSum64 Buffer Length;
  mret (wrap 64 (wrap 64 (0xFFFFFFFFFFFFFFFF - CheckSum) + 1)).
End Sums.

(** ** Cyclic redundancy checks *)

Definition mCrcTable : list Z :=
  [
   0x00000000; 0x77073096; 0xEE0E612C; 0x990951BA; 0x076DC419; 0x706AF48F; 0xE963A535; 0x9E6495A3;
   0x0EDB8832; 0x79DCB8A4; 0xE0D5E91E; 0x97D2D988; 0x09B64C2B; 0x7EB17CBD; 0xE7B82D07; 0x90BF1D91;
   0x1DB71064; 0x6AB020F2; 0xF3B97148; 0x84BE41DE; 0x1ADAD47D; 0x6DDDE4EB; 0xF4D4B551; 0x83D385C7;
   0x136C9856; 0x646BA8C0; 0xFD62F97A; 0x8A65C9EC; 0x14015C4F; 0x63066CD9; 0xFA0F3D63; 0x8D080DF5;
   0x3B6E20C8; 0x4C69105E; 0xD56041E4; 0xA2677172; 0x3C03E4D1; 0x4B04D447; 0xD20D85FD; 0xA50AB56B;
   0x35B5A8FA; 0x42B2986C; 0xDBBBC9D6; 0xACBCF940; 0x32D86CE3; 0x45DF5C75; 0xDCD60DCF; 0xABD13D59;
   0x26D930AC; 0x51DE003A; 0xC8D75180; 0xBFD06116; 0x21B4F4B5; 0x56B3C423; 0xCFBA9599; 0xB8BDA50F;
   0x2802B89E; 0x5F058808; 0xC60CD9B2; 0xB10BE924; 0x2F6F7C87; 0x58684C11; 0xC1611DAB; 0xB6662D3D;
   0x76DC4190; 0x01DB7106; 0x98D220BC; 0xEFD5102A; 0x71B18589; 0x06B6B51F; 0x9FBFE4A5; 0xE8B8D433;
   0x7807C9A2; 0x0F00F934; 0x9609A88E; 0xE10E9818; 0x7F6A0DBB; 0x086D3D2D; 0x91646C97; 0xE6635C01;
   0x6B6B51F4; 0x1C6C6162; 0x856530D8; 0xF262004E; 0x6C0695ED; 0x1B01A57B; 0x8208F4C1; 0xF50FC457;
   0x65B0D9C6; 0x12B7E950; 0x8BBEB8EA; 0xFCB9887C; 0x62DD1DDF; 0x15DA2D49; 0x8CD37CF3; 0xFBD44C65;
   0x4DB26158; 0x3AB551CE; 0xA3BC0074; 0xD4BB30E2; 0x4ADFA541; 0x3DD895D7; 0xA4D1C46D; 0xD3D6F4FB;
   0x4369E96A; 0x346ED9FC; 0xAD678846; 0xDA60B8D0; 0x44042D73; 0x33031DE5; 0xAA0A4C5F; 0xDD0D7CC9;
   0x5005713C; 0x270241AA; 0xBE0B1010; 0xC90C2086; 0x5768B525; 0x206F85B3; 0xB966D409; 0xCE61E49F;
   0x5EDEF90E; 0x29D9C998; 0xB0D09822; 0xC7D7A8B4; 0x59B33D17; 0x2EB40D81; 0xB7BD5C3B; 0xC0BA6CAD;
   0xEDB88320; 0x9ABFB3B6; 0x03B6E20C; 0x74B1D29A; 0xEAD54739; 0x9DD277AF; 0x04DB2615; 0x73DC1683;
   0xE3630B12; 0x94643B84; 0x0D6D6A3E; 0x7A6A5AA8; 0xE40ECF0B; 0x9309FF9D; 0x0A00AE27; 0x7D079EB1;
   0xF00F9344; 0x8708A3D2; 0x1E01F268; 0x6906C2FE; 0xF762575D; 0x806567CB; 0x196C3671; 0x6E6B06E7;
   0xFED41B76; 0x89D32BE0; 0x10DA7A5A; 0x67DD4ACC; 0xF9B9DF6F; 0x8EBEEFF9; 0x17B7BE43; 0x60B08ED5;
   0xD6D6A3E8; 0xA1D1937E; 0x38D8C2C4; 0x4FDFF252; 0xD1BB67F1; 0xA6BC5767; 0x3FB506DD; 0x48B2364B;
   0xD80D2BDA; 0xAF0A1B4C; 0x36034AF6; 0x41047A60; 0xDF60EFC3; 0xA867DF55; 0x316E8EEF; 0x4669BE79;
   0xCB61B38C; 0xBC66831A; 0x256FD2A0; 0x5268E236; 0xCC0C7795; 0xBB0B4703; 0x220216B9; 0x5505262F;
   0xC5BA3BBE; 0xB2BD0B28; 0x2BB45A92; 0x5CB36A04; 0xC2D7FFA7; 0xB5D0CF31; 0x2CD99E8B; 0x5BDEAE1D;
   0x9B64C2B0; 0xEC63F226; 0x756AA39C; 0x026D930A; 0x9C0906A9; 0xEB0E363F; 0x72076785; 0x05005713;
   0x95BF4A82; 0xE2B87A14; 0x7BB12BAE; 0x0CB61B38; 0x92D28E9B; 0xE5D5BE0D; 0x7CDCEFB7; 0x0BDBDF21;
   0x86D3D2D4; 0xF1D4E242; 0x68DDB3F8; 0x1FDA836E; 0x81BE16CD; 0xF6B9265B; 0x6FB077E1; 0x18B74777;
   0x88085AE6; 0xFF0F6A70; 0x66063BCA; 0x11010B5C; 0x8F659EFF; 0xF862AE69; 0x616BFFD3; 0x166CCF45;
   0xA00AE278; 0xD70DD2EE; 0x4E048354; 0x3903B3C2; 0xA7672661; 0xD06016F7; 0x4969474D; 0x3E6E77DB;
   0xAED16A4A; 0xD9D65ADC; 0x40DF0B66; 0x37D83BF0; 0xA9BCAE53; 0xDEBB9EC5; 0x47B2CF7F; 0x30B5FFE9;
   0xBDBDF21C; 0xCABAC28A; 0x53B39330; 0x24B4A3A6; 0xBAD03605; 0xCDD70693; 0x54DE5729; 0x23D967BF;
   0xB3667A2E; 0xC4614AB8; 0x5D681B02; 0x2A6F2B94; 0xB40BBE37; 0xC30C8EA1; 0x5A05DF1B; 0x2D02EF8D
  ].

Definition mCrc16LookupTable : list Z :=
  [
   0x0000; 0xC0C1; 0xC181; 0x0140; 0xC301; 0x03C0; 0x0280; 0xC241;
   0xC601; 0x06C0; 0x0780; 0xC741; 0x0500; 0xC5C1; 0xC481; 0x0440;
   0xCC01; 0x0CC0; 0x0D80; 0xCD41; 0x0F00; 0xCFC1; 0xCE81; 0x0E40;
   0x0A00; 0xCAC1; 0xCB81; 0x0B40; 0xC901; 0x09C0; 0x0880; 0xC841;
   0xD801; 0x18C0; 0x1980; 0xD941; 0x1B00; 0xDBC1; 0xDA81; 0x1A40;
   0x1E00; 0xDEC1; 0xDF81; 0x1F40; 0xDD01; 0x1DC0; 0x1C80; 0xDC41;
   0x1400; 0xD4C1; 0xD581; 0x1540; 0xD701; 0x17C0; 0x1680; 0xD641;
   0xD201; 0x12C0; 0x1380; 0xD341; 0x1100; 0xD1C1; 0xD081; 0x1040;
   0xF001; 0x30C0; 0x3180; 0xF141; 0x3300; 0xF3C1; 0xF281; 0x3240;
   0x3600; 0xF6C1; 0xF781; 0x3740; 0xF501; 0x35C0; 0x3480; 0xF441;
   0x3C00; 0xFCC1; 0xFD81; 0x3D40; 0xFF01; 0x3FC0; 0x3E80; 0xFE41;
   0xFA01; 0x3AC0; 0x3B80; 0xFB41; 0x3900; 0xF9C1; 0xF881; 0x3840;
   0x2800; 0xE8C1; 0xE981; 0x2940; 0xEB01; 0x2BC0; 0x2A80; 0xEA41;
   0xEE01; 0x2EC0; 0x2F80; 0xEF41; 0x2D00; 0xEDC1; 0xEC81; 0x2C40;
   0xE401; 0x24C0; 0x2580; 0xE541; 0x2700; 0xE7C1; 0xE681; 0x2640;
   0x2200; 0xE2C1; 0xE381; 0x2340; 0xE101; 0x21C0; 0x2080; 0xE041;
   0xA001; 0x60C0; 0x6180; 0xA141; 0x6300; 0xA3C1; 0xA281; 0x6240;
   0x6600; 0xA6C1; 0xA781; 0x6740; 0xA501; 0x65C0; 0x6480; 0xA441;
   0x6C00; 0xACC1; 0xAD81; 0x6D40; 0xAF01; 0x6FC0; 0x6E80; 0xAE41;
   0xAA01; 0x6AC0; 0x6B80; 0xAB41; 0x6900; 0xA9C1; 0xA881; 0x6840;
   0x7800; 0xB8C1; 0xB981; 0x7940; 0xBB01; 0x7BC0; 0x7A80; 0xBA41;
   0xBE01; 0x7EC0; 0x7F80; 0xBF41; 0x7D00; 0xBDC1; 0xBC81; 0x7C40;
   0xB401; 0x74C0; 0x7580; 0xB541; 0x7700; 0xB7C1; 0xB681; 0x7640;
   0x7200; 0xB2C1; 0xB381; 0x7340; 0xB101; 0x71C0; 0x7080; 0xB041;
   0x5000; 0x90C1; 0x9181; 0x5140; 0x9301; 0x53C0; 0x5280; 0x9241;
   0x9601; 0x56C0; 0x5780; 0x9741; 0x5500; 0x95C1; 0x9481; 0x5440;
   0x9C01; 0x5CC0; 0x5D80; 0x9D41; 0x5F00; 0x9FC1; 0x9E81; 0x5E40;
   0x5A00; 0x9AC1; 0x9B81; 0x5B40; 0x9901; 0x59C0; 0x5880; 0x9841;
   0x8801; 0x48C0; 0x4980; 0x8941; 0x4B00; 0x8BC1; 0x8A81; 0x4A40;
   0x4E00; 0x8EC1; 0x8F81; 0x4F40; 0x8D01; 0x4DC0; 0x4C80; 0x8C41;
   0x4400; 0x84C1; 0x8581; 0x4540; 0x8701; 0x47C0; 0x4680; 0x8641;
   0x8201; 0x42C0; 0x4380; 0x8341; 0x4100; 0x81C1; 0x8081; 0x4040
  ].

Definition mCrc32cLookupTable : list Z :=
  [
   0x00000000; 0xf26b8303; 0xe13b70f7; 0x1350f3f4; 0xc79a971f; 0x35f1141c; 0x26a1e7e8; 0xd4ca64eb;
   0x8ad958cf; 0x78b2dbcc; 0x6be22838; 0x9989ab3b; 0x4d43cfd0; 0xbf284cd3; 0xac78bf27; 0x5e133c24;
   0x105ec76f; 0xe235446c; 0xf165b798; 0x030e349b; 0xd7c45070; 0x25afd373; 0x36ff2087; 0xc494a384;
   0x9a879fa0; 0x68ec1ca3; 0x7bbcef57; 0x89d76c54; 0x5d1d08bf; 0xaf768bbc; 0xbc267848; 0x4e4dfb4b;
   0x20bd8ede; 0xd2d60ddd; 0xc186fe29; 0x33ed7d2a; 0xe72719c1; 0x154c9ac2; 0x061c6936; 0xf477ea35;
   0xaa64d611; 0x580f5512; 0x4b5fa6e6; 0xb93425e5; 0x6dfe410e; 0x9f95c20d; 0x8cc531f9; 0x7eaeb2fa;
   0x30e349b1; 0xc288cab2; 0xd1d83946; 0x23b3ba45; 0xf779deae; 0x05125dad; 0x1642ae59; 0xe4292d5a;
   0xba3a117e; 0x4851927d; 0x5b016189; 0xa96ae28a; 0x7da08661; 0x8fcb0562; 0x9c9bf696; 0x6ef07595;
   0x417b1dbc; 0xb3109ebf; 0xa0406d4b; 0x522bee48; 0x86e18aa3; 0x748a09a0; 0x67dafa54; 0x95b17957;
   0xcba24573; 0x39c9c670; 0x2a993584; 0xd8f2b687; 0x0c38d26c; 0xfe53516f; 0xed03a29b; 0x1f682198;
   0x5125dad3; 0xa34e59d0; 0xb01eaa24; 0x42752927; 0x96bf4dcc; 0x64d4cecf; 0x77843d3b; 0x85efbe38;
   0xdbfc821c; 0x2997011f; 0x3ac7f2eb; 0xc8ac71e8; 0x1c661503; 0xee0d9600; 0xfd5d65f4; 0x0f36e6f7;
   0x61c69362; 0x93ad1061; 0x80fde395; 0x72966096; 0xa65c047d; 0x5437877e; 0x4767748a; 0xb50cf789;
   0xeb1fcbad; 0x197448ae; 0x0a24bb5a; 0xf84f3859; 0x2c855cb2; 0xdeeedfb1; 0xcdbe2c45; 0x3fd5af46;
   0x7198540d; 0x83f3d70e; 0x90a324fa; 0x62c8a7f9; 0xb602c312; 0x44694011; 0x5739b3e5; 0xa55230e6;
   0xfb410cc2; 0x092a8fc1; 0x1a7a7c35; 0xe811ff36; 0x3cdb9bdd; 0xceb018de; 0xdde0eb2a; 0x2f8b6829;
   0x82f63b78; 0x709db87b; 0x63cd4b8f; 0x91a6c88c; 0x456cac67; 0xb7072f64; 0xa457dc90; 0x563c5f93;
   0x082f63b7; 0xfa44e0b4; 0xe9141340; 0x1b7f9043; 0xcfb5f4a8; 0x3dde77ab; 0x2e8e845f; 0xdce5075c;
   0x92a8fc17; 0x60c37f14; 0x73938ce0; 0x81f80fe3; 0x55326b08; 0xa759e80b; 0xb4091bff; 0x466298fc;
   0x1871a4d8; 0xea1a27db; 0xf94ad42f; 0x0b21572c; 0xdfeb33c7; 0x2d80b0c4; 0x3ed04330; 0xccbbc033;
   0xa24bb5a6; 0x502036a5; 0x4370c551; 0xb11b4652; 0x65d122b9; 0x97baa1ba; 0x84ea524e; 0x7681d14d;
   0x2892ed69; 0xdaf96e6a; 0xc9a99d9e; 0x3bc21e9d; 0xef087a76; 0x1d63f975; 0x0e330a81; 0xfc588982;
   0xb21572c9; 0x407ef1ca; 0x532e023e; 0xa145813d; 0x758fe5d6; 0x87e466d5; 0x94b49521; 0x66df1622;
   0x38cc2a06; 0xcaa7a905; 0xd9f75af1; 0x2b9cd9f2; 0xff56bd19; 0x0d3d3e1a; 0x1e6dcdee; 0xec064eed;
   0xc38d26c4; 0x31e6a5c7; 0x22b65633; 0xd0ddd530; 0x0417b1db; 0xf67c32d8; 0xe52cc12c; 0x1747422f;
   0x49547e0b; 0xbb3ffd08; 0xa86f0efc; 0x5a048dff; 0x8ecee914; 0x7ca56a17; 0x6ff599e3; 0x9d9e1ae0;
   0xd3d3e1ab; 0x21b862a8; 0x32e8915c; 0xc083125f; 0x144976b4; 0xe622f5b7; 0xf5720643; 0x07198540;
   0x590ab964; 0xab613a67; 0xb831c993; 0x4a5a4a90; 0x9e902e7b; 0x6cfbad78; 0x7fab5e8c; 0x8dc0dd8f;
   0xe330a81a; 0x115b2b19; 0x020bd8ed; 0xf0605bee; 0x24aa3f05; 0xd6c1bc06; 0xc5914ff2; 0x37faccf1;
   0x69e9f0d5; 0x9b8273d6; 0x88d28022; 0x7ab90321; 0xae7367ca; 0x5c18e4c9; 0x4f48173d; 0xbd23943e;
   0xf36e6f75; 0x0105ec76; 0x12551f82; 0xe03e9c81; 0x34f4f86a; 0xc69f7b69; 0xd5cf889d; 0x27a40b9e;
   0x79b737ba; 0x8bdcb4b9; 0x988c474d; 0x6ae7c44e; 0xbe2da0a5; 0x4c4623a6; 0x5f16d052; 0xad7d5351
  ].

(** [Table[i]] *)
Definition entry {S} (Table : list Z) (i : Z) : M S Z :=
  match Table !! Z.to_nat i with
  | Some x => mret x
  | None => crash OutOfBounds
  end.

Section Crcs.
Context {S : Type}.

Definition CalculateCrc32 (Buffer : list Z) (Length : Z) : M S Z :=
  Crc ← for_loop (Z.to_nat Length) 0
    (λ Index Crc,
       b ← rd 1 Buffer Index;
       e ← entry mCrcTable (Z.lxor (wrap 8 Crc) b);
       mret (Z.lxor (Z.shiftr Crc 8) e)) 0xffffffff;
  mret (Z.lxor Crc 0xffffffff).

Definition CalculateCrc16Ansi (Buffer : list Z) (Length InitialValue : Z) : M S Z :=
  for_loop (Z.to_nat Length) 0
    (λ Index Crc,
       b ← rd 1 Buffer Index;
       e ← entry mCrc16LookupTable (Z.lxor (Z.land Crc 0xFF) b);
       mret (Z.lxor e (Z.shiftr Crc 8))) InitialValue.

(** [~x] on UINT32 *)
Definition not32 (x : Z) : Z := wrap 32 (Z.lnot x).

Definition CalculateCrc32c (Buffer : list Z) (Length InitialValue : Z) : M S Z :=
  Crc ← for_loop (Z.to_nat Length) 0
    (λ Index Crc,
       b ← rd 1 Buffer Index;
       e ← entry mCrc32cLookupTable (Z.lxor (Z.land Crc 0xFF) b);
       mret (Z.lxor e (Z.shiftr Crc 8))) (not32 InitialValue);
  mret (not32 Crc).
End Crcs.

(** ** The reference: division of polynomials over two elements, bit by bit *)

(** One bit, least significant first. *)
Definition crc_bit (poly crc : Z) : Z :=
  if Z.odd crc then Z.lxor (Z.shiftr crc 1) poly else Z.shiftr crc 1.

Definition crc_byte (poly crc b : Z) : Z := Nat.iter 8 (crc_bit poly) (Z.lxor crc b).

Definition crc (poly init : Z) (l : list Z) : Z := foldl (crc_byte poly) init l.

(** The generators of CRC-32, CRC-16 and CRC-32C, reflected. *)
Definition CRC32_POLY : Z := 0xEDB88320.
Definition CRC16_POLY : Z := 0xA001.
Definition CRC32C_POLY : Z := 0x82F63B78.

Definition table_of (poly : Z) : list Z := map (λ i, Nat.iter 8 (crc_bit poly) (Z.of_nat i)) (seq 0 256).

Lemma mCrcTable_exact : mCrcTable = table_of CRC32_POLY.
Proof. by vm_compute. Qed.

Lemma mCrc16LookupTable_exact : mCrc16LookupTable = table_of CRC16_POLY.
Proof. by vm_compute. Qed.

Lemma mCrc32cLookupTable_exact : mCrc32cLookupTable = table_of CRC32C_POLY.
Proof. by vm_compute. Qed.

(** Linearity. *)
Lemma crc_bit_lxor p a b : crc_bit p (Z.lxor a b) = Z.lxor (crc_bit p a) (crc_bit p b).
Proof.
  unfold crc_bit. rewrite <- !Z.bit0_odd, Z.lxor_spec, Z.shiftr_lxor.
  apply Z.bits_inj'. intros n _.
  destruct (Z.testbit a 0), (Z.testbit b 0); cbn [xorb]; rewrite ?Z.lxor_spec;
    destruct (Z.testbit (Z.shiftr a 1) n), (Z.testbit (Z.shiftr b 1) n), (Z.testbit p n); reflexivity.
Qed.

Lemma crc_bits_lxor p k a b :
  Nat.iter k (crc_bit p) (Z.lxor a b) = Z.lxor (Nat.iter k (crc_bit p) a) (Nat.iter k (crc_bit p) b).
Proof. induction k as [|k IH]; [done|]. by rewrite !Nat.iter_succ, IH, crc_bit_lxor. Qed.

Lemma crc_bits_shift p k h : Nat.iter k (crc_bit p) (Z.shiftl h (Z.of_nat k)) = h.
Proof.
  revert h. induction k as [|k IH]; intros h; [apply Z.shiftl_0_r|].
  rewrite Nat.iter_succ_r. rewrite <- (IH h) at 2. f_equal. unfold crc_bit.
  assert (Z.shiftl h (Z.of_nat (S k)) = 2 * Z.shiftl h (Z.of_nat k)) as ->.
  { rewrite !Z.shiftl_mul_pow2, Nat2Z.inj_succ, Z.pow_succ_r by lia. lia. }
  rewrite Z.odd_mul, Z.shiftr_div_pow2 by lia. cbn [Z.odd andb].
  rewrite Z.mul_comm. by apply Z.div_mul.
Qed.

(** The table-driven step. *)
Lemma crc_byte_table p c b :
  u8 b → crc_byte p c b = Z.lxor (Nat.iter 8 (crc_bit p) (Z.lxor (Z.land c 0xFF) b)) (Z.shiftr c 8).
Proof.
  intros Hb. unfold crc_byte. rewrite <- (crc_bits_shift p 8 (Z.shiftr c 8)) at 1.
  rewrite <- crc_bits_lxor. f_equal. apply Z.bits_inj'. intros n Hn.
  rewrite !Z.lxor_spec. change 0xFF with (Z.ones 8). rewrite Z.land_spec, Z.testbit_ones_nonneg by lia.
  rewrite Z.shiftl_spec by lia. destruct (Z.ltb_spec n 8) as [Hlt|Hge].
  - rewrite (Z.testbit_neg_r _ (n - Z.of_nat 8)) by lia.
    by rewrite andb_true_r, xorb_false_r.
  - rewrite Z.shiftr_spec by lia. rewrite (uint_testbit_high 8 b) by (done || lia).
    rewrite andb_false_r, !xorb_false_r, xorb_false_l. f_equal. lia.
Qed.

Lemma table_of_lookup p i : u8 i → table_of p !! Z.to_nat i = Some (Nat.iter 8 (crc_bit p) i).
Proof.
  intros Hi. unfold is_uint in Hi. unfold table_of. rewrite list_lookup_fmap, lookup_seq_lt by lia.
  cbn [fmap option_fmap option_map]. do 2 f_equal. lia.
Qed.

Lemma lxor_uint w a b : 0 <= w → is_uint w a → is_uint w b → is_uint w (Z.lxor a b).
Proof.
  intros Hw Ha Hb. assert (0 <= Z.lxor a b) as H0 by (unfold is_uint in *; apply Z.lxor_nonneg; lia).
  replace (Z.lxor a b) with (wrap w (Z.lxor a b)); [by apply wrap_range|].
  apply Z.bits_inj'. intros n Hn. unfold wrap. destruct (Z.ltb_spec n w) as [Hlt|Hge].
  - by rewrite Z.mod_pow2_bits_low.
  - rewrite Z.mod_pow2_bits_high, Z.lxor_spec, !(uint_testbit_high w) by (done || lia). done.
Qed.

(** ** The loops *)

(** A loop that reads one byte per iteration folds over the first bytes. *)
Lemma byte_loop_spec {S} (body : Z → Z → M S Z) (f : Z → Z → Z) (Buffer : list Z) n init s :
  (n <= length Buffer)%nat → bytes Buffer →
  (∀ i c b, Buffer !! Z.to_nat i = Some b → 0 <= i < Z.of_nat n → body i c s = Ok (f c b) s) →
  for_loop n 0 body init s = Ok (foldl f init (take n Buffer)) s.
Proof.
  intros Hn Hb Hbody. apply wp_exact.
  eapply wp_mono; [apply (wp_for_loop (λ i c t, c = foldl f init (take (Z.to_nat i) Buffer) ∧ t = s) (λ _ _, False))| |done].
  - done.
  - intros i c t Hi [-> ->]. destruct (lookup_lt_is_Some_2 Buffer (Z.to_nat i)) as [b Hlk]; [lia|].
    eapply wp_intro_ok; [by apply (Hbody i _ b); [|lia]|]. split; [|done].
    replace (Z.to_nat (i + 1)) with (Datatypes.S (Z.to_nat i)) by lia.
    by rewrite (take_S_r _ _ _ Hlk), foldl_app.
  - intros c t [-> ->]. by rewrite Z.add_0_l, Nat2Z.id.
Qed.

Lemma rd_byte {S} (Buffer : list Z) i b (s : S) :
  0 <= i → Buffer !! Z.to_nat i = Some b → rd 1 Buffer i s = Ok b s.
Proof.
  intros Hi Hb. pose proof (lookup_lt_Some _ _ _ Hb). apply wp_exact, wp_rd; [done|unfold size; lia|].
  split; [|done]. rewrite load_byte. unfold byte_at. rewrite (proj2 (Z.ltb_ge _ _)) by lia.
  by apply nth_lookup_Some.
Qed.

Lemma entry_spec {S} Table p i (s : S) : Table = table_of p → u8 i → entry Table i s = Ok (Nat.iter 8 (crc_bit p) i) s.
Proof. intros -> Hi. unfold entry. by rewrite table_of_lookup. Qed.

Lemma bytes_lookup (l : list Z) i b : bytes l → l !! i = Some b → u8 b.
Proof. intros Hl Hb. exact (Forall_lookup_1 _ _ _ _ Hl Hb). Qed.

Lemma land_u8 c : u8 (Z.land c 0xFF).
Proof. change 0xFF with (Z.ones 8). rewrite Z.land_ones by lia. apply (wrap_range 8). lia. Qed.

(** One iteration of the table-driven loops. *)
Lemma crc_step {S} Table p Buffer i c b (s : S) :
  Table = table_of p → bytes Buffer → 0 <= i → Buffer !! Z.to_nat i = Some b →
  (b ← rd 1 Buffer i; e ← entry Table (Z.lxor (Z.land c 0xFF) b); mret (Z.lxor e (Z.shiftr c 8))) s
    = Ok (crc_byte p c b) s.
Proof.
  intros HT Hb Hi Hlk. pose proof (bytes_lookup _ _ _ Hb Hlk) as Hu.
  unfold mbind, M_bind. rewrite (rd_byte _ _ _ _ Hi Hlk).
  rewrite (entry_spec Table p _ s HT) by (apply (lxor_uint 8); [lia|apply land_u8|done]).
  unfold mret, M_ret. by rewrite crc_byte_table.
Qed.

(** Remainders keep the width of the generator. *)
Lemma crc_bit_range w poly c : 0 <= w → is_uint w poly → is_uint w c → is_uint w (crc_bit poly c).
Proof.
  intros Hw Hp Hc. assert (is_uint w (Z.shiftr c 1)) as Hs.
  { unfold is_uint in *. rewrite Z.shiftr_div_pow2 by lia. split; [apply Z.div_pos; lia|].
    apply Z.div_lt_upper_bound; lia. }
  unfold crc_bit. by destruct (Z.odd c); [apply lxor_uint|].
Qed.

Lemma crc_range w poly l : ∀ init,
  8 <= w → is_uint w poly → is_uint w init → bytes l → is_uint w (crc poly init l).
Proof.
  induction l as [|b l IH]; intros init Hw Hp Hi Hl; [done|]. apply Forall_cons_1 in Hl as [Hb Hl].
  apply IH; [done..| |done]. unfold crc_byte.
  assert (is_uint w (Z.lxor init b)) as Hx.
  { apply lxor_uint; [lia|done|]. eapply is_uint_mono; [|done]. done. }
  revert Hx. generalize (Z.lxor init b). intros c Hc. cbn [Nat.iter nat_rect].
  do 8 (apply crc_bit_range; [lia|done|]). done.
Qed.

Lemma crc_app poly init l1 l2 : crc poly init (l1 ++ l2) = crc poly (crc poly init l1) l2.
Proof. apply foldl_app. Qed.

Lemma not32_range x : u32 (not32 x).
Proof. by apply wrap_range. Qed.

Lemma not32_involutive x : u32 x → not32 (not32 x) = x.
Proof.
  intros Hx. unfold not32, wrap, Z.lnot, is_uint in *.
  replace (Z.pred (- x)) with (2 ^ 32 - 1 - x + -1 * 2 ^ 32) by lia. rewrite Z_mod_plus_full.
  rewrite (Z.mod_small (2 ^ 32 - 1 - x)) by lia.
  replace (Z.pred (- (2 ^ 32 - 1 - x))) with (x + -1 * 2 ^ 32) by lia. rewrite Z_mod_plus_full. by apply Z.mod_small.
Qed.

Section CrcSpecs.
Context {S : Type} (Buffer : list Z) (Length : Z) (HBuffer : bytes Buffer) (HLength : 0 <= Length <= size Buffer).

Lemma Length_nat : (Z.to_nat Length <= length Buffer)%nat.
Proof using HLength. unfold size in HLength. lia. Qed.

Lemma CalculateCrc32_spec (s : S) :
  CalculateCrc32 Buffer Length s = Ok (Z.lxor (crc CRC32_POLY 0xffffffff (take (Z.to_nat Length) Buffer)) 0xffffffff) s.
Proof using HBuffer HLength.
  unfold CalculateCrc32, mbind, M_bind.
  rewrite (byte_loop_spec _ (crc_byte CRC32_POLY) Buffer); [done|apply Length_nat|done|].
  intros i c b Hlk Hi. rewrite <- (crc_step mCrcTable CRC32_POLY Buffer i c b s mCrcTable_exact) by (done || lia).
  unfold mbind, M_bind. rewrite (rd_byte _ _ _ _ (proj1 Hi) Hlk).
  unfold wrap. change 0xFF with (Z.ones 8). rewrite Z.land_ones by lia.
  destruct (entry _ _ s); [|done..]. unfold mret, M_ret. by rewrite Z.lxor_comm.
Qed.

Lemma CalculateCrc16Ansi_spec InitialValue (s : S) :
  CalculateCrc16Ansi Buffer Length InitialValue s = Ok (crc CRC16_POLY InitialValue (take (Z.to_nat Length) Buffer)) s.
Proof using HBuffer HLength.
  apply (byte_loop_spec _ (crc_byte CRC16_POLY) Buffer); [apply Length_nat|done|].
  intros i c b Hlk Hi. apply (crc_step _ _ _ _ _ _ _ mCrc16LookupTable_exact); done || lia.
Qed.

Lemma CalculateCrc32c_spec InitialValue (s : S) :
  CalculateCrc32c Buffer Length InitialValue s =
    Ok (not32 (crc CRC32C_POLY (not32 InitialValue) (take (Z.to_nat Length) Buffer))) s.
Proof using HBuffer HLength.
  unfold CalculateCrc32c. unfold mbind at 1. unfold M_bind at 1.
  rewrite (byte_loop_spec _ (crc_byte CRC32C_POLY) Buffer); [done|apply Length_nat|done|].
  intros i c b Hlk Hi. apply (crc_step _ _ _ _ _ _ _ mCrc32cLookupTable_exact); done || lia.
Qed.
End CrcSpecs.

(** C31. The three CRC routines compute, with their tables, the remainder of the polynomial
    division they are named after, bit by bit: CalculateCrc32 the CRC-32 of ITU-T V.42,
    CalculateCrc16Ansi CRC-16, CalculateCrc32c CRC-32C with the complement before and
    after, over exactly Length bytes; none reads outside of the buffer or of its table. *)
Theorem crc_exact {S} (Buffer : list Z) (Length InitialValue : Z) (s : S)
    (HBuffer : bytes Buffer) (HLength : 0 <= Length <= size Buffer) :
  let data := take (Z.to_nat Length) Buffer in
  CalculateCrc32 Buffer Length s = Ok (Z.lxor (crc CRC32_POLY 0xffffffff data) 0xffffffff) s ∧
  CalculateCrc16Ansi Buffer Length InitialValue s = Ok (crc CRC16_POLY InitialValue data) s ∧
  CalculateCrc32c Buffer Length InitialValue s = Ok (not32 (crc CRC32C_POLY (not32 InitialValue) data)) s.
Proof.
  intros data. split_and!; [by apply CalculateCrc32_spec|by apply CalculateCrc16Ansi_spec|by apply CalculateCrc32c_spec].
Qed.

Lemma crc_exact_witness :
  @CalculateCrc32 unit [0x31; 0x32; 0x33; 0x34; 0x35; 0x36; 0x37; 0x38; 0x39] 9 tt = Ok 0xCBF43926 tt.
Proof.
  assert (bytes [0x31; 0x32; 0x33; 0x34; 0x35; 0x36; 0x37; 0x38; 0x39]) as Hb by (repeat constructor; done).
  exact (proj1 (crc_exact [0x31; 0x32; 0x33; 0x34; 0x35; 0x36; 0x37; 0x38; 0x39] 9 0 tt Hb ltac:(split; discriminate))).
Defined.

(** ** Sums *)

(** The sum of the first [k] elements of [n] bytes. *)
Fixpoint elements_sum (n : nat) (Buffer : list Z) (k : nat) : Z :=
  match k with
  | O => 0
  | S k => elements_sum n Buffer k + load n Buffer (Z.of_nat n * Z.of_nat k)
  end.

Lemma SumLoop_spec {S} n Buffer Total (s : S) :
  0 <= Total → Z.of_nat n * Total <= size Buffer →
  SumLoop n Buffer Total s = Ok (wrap (8 * Z.of_nat n) (elements_sum n Buffer (Z.to_nat Total))) s.
Proof.
  intros HT Hsize. apply wp_exact.
  eapply wp_mono; [apply (wp_for_loop (λ i c t, c = wrap (8 * Z.of_nat n) (elements_sum n Buffer (Z.to_nat i)) ∧ t = s)
    (λ _ _, False))| |done].
  - done.
  - intros i c t Hi [-> ->]. apply wp_bind, wp_rd; [lia|nia|]. apply wp_ret. split; [|done].
    replace (Z.to_nat (i + 1)) with (Datatypes.S (Z.to_nat i)) by lia. cbn [elements_sum].
    rewrite Z2Nat.id by lia. unfold wrap. by rewrite Zplus_mod_idemp_l.
  - intros c t [-> ->]. split; [|done]. do 2 f_equal. lia.
Qed.

Lemma elements_sum_app n Buffer l k :
  Z.of_nat n * Z.of_nat k <= size Buffer → elements_sum n (Buffer ++ l) k = elements_sum n Buffer k.
Proof.
  induction k as [|k IH]; intros Hk; [done|]. cbn [elements_sum]. rewrite IH by nia. f_equal.
  apply load_app_l; nia.
Qed.

(** A sum over the buffer and the complement of its sum vanishes. *)
Lemma sum_complement {S} n Buffer Total c (s : S) :
  0 <= Total → Z.of_nat n * Total = size Buffer →
  c = wrap (8 * Z.of_nat n) (- wrap (8 * Z.of_nat n) (elements_sum n Buffer (Z.to_nat Total))) →
  SumLoop n (Buffer ++ le_bytes n c) (Total + 1) s = Ok 0 s.
Proof.
  intros HT Hsize ->. rewrite SumLoop_spec; [|lia|rewrite size_app, size_le_bytes; lia].
  f_equal. replace (Z.to_nat (Total + 1)) with (Datatypes.S (Z.to_nat Total)) by lia. cbn [elements_sum].
  rewrite elements_sum_app by lia. rewrite Z2Nat.id, Hsize by lia.
  replace (size Buffer) with (size Buffer + 0) by lia. rewrite load_app_r, load_le_bytes by lia.
  unfold wrap. rewrite Zmod_mod. set (x := elements_sum _ _ _). set (m := 2 ^ (8 * Z.of_nat n)).
  rewrite <- Zplus_mod_idemp_l. rewrite Zplus_mod_idemp_r. by rewrite Z.add_opp_diag_r.
Qed.

(** [ASSERT ((Length & (n - 1)) == 0)] holds of a multiple of [n = 2^k]. *)
Lemma land_multiple k x : 0 <= k → Z.land (2 ^ k * x) (Z.ones k) = 0.
Proof. intros Hk. rewrite Z.land_ones by done. rewrite Z.mul_comm. apply Z.mod_mul. lia. Qed.

(** The two spellings of the complement. *)
Lemma complement_pow w x : 0 <= w → wrap w (2 ^ w - x) = wrap w (- x).
Proof.
  intros Hw. unfold wrap. replace (2 ^ w - x) with (- x + 1 * 2 ^ w) by lia. apply Z_mod_plus_full.
Qed.

Lemma complement_ones w x : 0 <= w → wrap w (wrap w (2 ^ w - 1 - x) + 1) = wrap w (- x).
Proof.
  intros Hw. rewrite <- complement_pow by done. unfold wrap. rewrite Zplus_mod_idemp_l. f_equal. lia.
Qed.

Section SumTheorems.
Context `{!Platform} {S : Type}.

(** The ASSERT on a length of [T] elements of [2^k] bytes passes. *)
Lemma sum_elements k n Buffer T (s : S) :
  0 <= k → (ASSERT (Z.land (2 ^ k * T) (Z.ones k) =? 0);; SumLoop n Buffer (2 ^ k * T / 2 ^ k)) s = SumLoop n Buffer T s.
Proof.
  intros Hk. rewrite land_multiple by done. rewrite (Z.mul_comm _ T), Z.div_mul by lia.
  unfold ASSERT, require, mbind, M_bind. by rewrite orb_true_r.
Qed.

Lemma CalculateSum16_elements Buffer T (s : S) : CalculateSum16 Buffer (2 * T) s = SumLoop 2 Buffer T s.
Proof. by apply (sum_elements 1). Qed.

Lemma CalculateSum32_elements Buffer T (s : S) : CalculateSum32 Buffer (4 * T) s = SumLoop 4 Buffer T s.
Proof. by apply (sum_elements 2). Qed.

Lemma CalculateSum64_elements Buffer T (s : S) : CalculateSum64 Buffer (8 * T) s = SumLoop 8 Buffer T s.
Proof. by apply (sum_elements 3). Qed.

(** Checksum and verification, for one width. *)
Lemma zero_sum_width (n : nat) (Buffer : list Z) (Total : Z) (complement : Z → Z) (s : S) :
  0 <= Total → size Buffer = Z.of_nat n * Total →
  (∀ x, complement x = wrap (8 * Z.of_nat n) (- x)) →
  ∃ c, (CheckSum ← SumLoop n Buffer Total; mret (complement CheckSum)) s = Ok c s ∧
       SumLoop n (Buffer ++ le_bytes n c) (Total + 1) s = Ok 0 s.
Proof.
  intros HT Hsize Hc. eexists. split.
  - unfold mbind, M_bind. rewrite SumLoop_spec by lia. done.
  - apply sum_complement; done.
Qed.

(** Storing the checksum that CalculateCheckSum8, 16, 32 or 64 returns behind a buffer of
    whole elements, in the byte order of the machine, makes the sum of the same width over
    buffer and checksum zero: writing and verifying a checksum are inverse to each other, no
    ASSERT fires and no element outside of the buffer is read. *)
Theorem checksum_zero_sum (Buffer : list Z) (Total : Z) (s : S) (HTotal : 0 <= Total) :
  (size Buffer = Total →
   ∃ c, CalculateCheckSum8 Buffer Total s = Ok c s ∧
        CalculateSum8 (Buffer ++ le_bytes 1 c) (Total + 1) s = Ok 0 s) ∧
  (size Buffer = 2 * Total →
   ∃ c, CalculateCheckSum16 Buffer (2 * Total) s = Ok c s ∧
        CalculateSum16 (Buffer ++ le_bytes 2 c) (2 * (Total + 1)) s = Ok 0 s) ∧
  (size Buffer = 4 * Total →
   ∃ c, CalculateCheckSum32 Buffer (4 * Total) s = Ok c s ∧
        CalculateSum32 (Buffer ++ le_bytes 4 c) (4 * (Total + 1)) s = Ok 0 s) ∧
  (size Buffer = 8 * Total →
   ∃ c, CalculateCheckSum64 Buffer (8 * Total) s = Ok c s ∧
        CalculateSum64 (Buffer ++ le_bytes 8 c) (8 * (Total + 1)) s = Ok 0 s).
Proof.
  split_and!; intros Hsize.
  - apply (zero_sum_width 1 Buffer Total (λ x, wrap 8 (0x100 - x))); [done|lia|].
    intros x. by apply (complement_pow 8).
  - destruct (zero_sum_width 2 Buffer Total (λ x, wrap 16 (0x10000 - x)) s) as (c & Hc & H0); [done|lia| |].
    { intros x. by apply (complement_pow 16). }
    exists c. unfold CalculateCheckSum16, mbind, M_bind. by rewrite !CalculateSum16_elements.
  - destruct (zero_sum_width 4 Buffer Total (λ x, wrap 32 (wrap 32 (0xFFFFFFFF - x) + 1)) s) as (c & Hc & H0); [done|lia| |].
    { intros x. by apply (complement_ones 32). }
    exists c. unfold CalculateCheckSum32, mbind, M_bind. by rewrite !CalculateSum32_elements.
  - destruct (zero_sum_width 8 Buffer Total (λ x, wrap 64 (wrap 64 (0xFFFFFFFFFFFFFFFF - x) + 1)) s) as (c & Hc & H0); [done|lia| |].
    { intros x. by apply (complement_ones 64). }
    exists c. unfold CalculateCheckSum64, mbind, M_bind. by rewrite !CalculateSum64_elements.
Qed.
End SumTheorems.

Lemma checksum_zero_sum_witness :
  ∃ c, @CalculateCheckSum16 platform_strict unit [0xAD; 0xDE; 0xEF; 0xBE] 4 tt = Ok c tt ∧
       @CalculateSum16 platform_strict unit ([0xAD; 0xDE; 0xEF; 0xBE] ++ le_bytes 2 c) 6 tt = Ok 0 tt.
Proof.
  exact (proj1 (proj2 (checksum_zero_sum (H := platform_strict) [0xAD; 0xDE; 0xEF; 0xBE] 2 tt ltac:(discriminate))) eq_refl).
Defined.
