(* ===== verification/PeImage.v ===== *)
(** The PE/COFF file format (MdePkg/Include/IndustryStandard/PeImage2.h), the
    image context (MdePkg/Include/Library/PeCoffLib2.h).

    A C structure read in place from a byte buffer is its list of fields with
    their sizes; the offset of a field is the sum of the sizes before it, which
    is what C gives for these structures because every field is naturally
    aligned (checked by [naturally_aligned]). *)
From Stdlib Require Import String.
From S2P Require Import Prelude Base Buffer.
From S2P Require Export Platform.
#[local] Open Scope string_scope.
#[local] Open Scope Z_scope.

(** ** Structure layouts *)

Definition layout : Type := list (string * Z).

Fixpoint offset_of (l : layout) (f : string) : Z :=
  match l with
  | [] => 0
  | (g, n) :: l' => if String.eqb f g then 0 else n + offset_of l' f
  end.

Fixpoint size_of (l : layout) : Z :=
  match l with
  | [] => 0
  | (_, n) :: l' => n + size_of l'
  end.

(** No field needs padding before it ([elt] caps the alignment of arrays and
    nested structures, whose alignment is that of their widest member). *)
Fixpoint naturally_aligned (elt : Z) (pos : Z) (l : layout) : bool :=
  match l with
  | [] => true
  | (_, n) :: l' => (pos mod Z.min elt n =? 0) && naturally_aligned elt (pos + n) l'
  end.

Definition EFI_IMAGE_DOS_HEADER : layout :=
  [("e_magic", 2); ("e_cblp", 2); ("e_cp", 2); ("e_crlc", 2); ("e_cparhdr", 2);
   ("e_minalloc", 2); ("e_maxalloc", 2); ("e_ss", 2); ("e_sp", 2); ("e_csum", 2);
   ("e_ip", 2); ("e_cs", 2); ("e_lfarlc", 2); ("e_ovno", 2); ("e_res", 8);
   ("e_oemid", 2); ("e_oeminfo", 2); ("e_res2", 20); ("e_lfanew", 4)].

Definition EFI_IMAGE_FILE_HEADER : layout :=
  [("Machine", 2); ("NumberOfSections", 2); ("TimeDateStamp", 4);
   ("PointerToSymbolTable", 4); ("NumberOfSymbols", 4); ("SizeOfOptionalHeader", 2);
   ("Characteristics", 2)].

Definition EFI_IMAGE_DATA_DIRECTORY : layout := [("VirtualAddress", 4); ("Size", 4)].

(** Signature, then the nested EFI_IMAGE_FILE_HEADER. *)
Definition EFI_IMAGE_NT_HEADERS_COMMON_HDR : layout :=
  ("Signature", 4) :: EFI_IMAGE_FILE_HEADER.

Definition EFI_IMAGE_NT_HEADERS32 : layout :=
  [("CommonHeader", size_of EFI_IMAGE_NT_HEADERS_COMMON_HDR); ("Magic", 2);
   ("MajorLinkerVersion", 1); ("MinorLinkerVersion", 1); ("SizeOfCode", 4);
   ("SizeOfInitializedData", 4); ("SizeOfUninitializedData", 4);
   ("AddressOfEntryPoint", 4); ("BaseOfCode", 4); ("BaseOfData", 4); ("ImageBase", 4);
   ("SectionAlignment", 4); ("FileAlignment", 4); ("MajorOperatingSystemVersion", 2);
   ("MinorOperatingSystemVersion", 2); ("MajorImageVersion", 2); ("MinorImageVersion", 2);
   ("MajorSubsystemVersion", 2); ("MinorSubsystemVersion", 2); ("Win32VersionValue", 4);
   ("SizeOfImage", 4); ("SizeOfHeaders", 4); ("CheckSum", 4); ("Subsystem", 2);
   ("DllCharacteristics", 2); ("SizeOfStackReserve", 4); ("SizeOfStackCommit", 4);
   ("SizeOfHeapReserve", 4); ("SizeOfHeapCommit", 4); ("LoaderFlags", 4);
   ("NumberOfRvaAndSizes", 4)].

Definition EFI_IMAGE_NT_HEADERS64 : layout :=
  [("CommonHeader", size_of EFI_IMAGE_NT_HEADERS_COMMON_HDR); ("Magic", 2);
   ("MajorLinkerVersion", 1); ("MinorLinkerVersion", 1); ("SizeOfCode", 4);
   ("SizeOfInitializedData", 4); ("SizeOfUninitializedData", 4);
   ("AddressOfEntryPoint", 4); ("BaseOfCode", 4); ("ImageBase", 8);
   ("SectionAlignment", 4); ("FileAlignment", 4); ("MajorOperatingSystemVersion", 2);
   ("MinorOperatingSystemVersion", 2); ("MajorImageVersion", 2); ("MinorImageVersion", 2);
   ("MajorSubsystemVersion", 2); ("MinorSubsystemVersion", 2); ("Win32VersionValue", 4);
   ("SizeOfImage", 4); ("SizeOfHeaders", 4); ("CheckSum", 4); ("Subsystem", 2);
   ("DllCharacteristics", 2); ("SizeOfStackReserve", 8); ("SizeOfStackCommit", 8);
   ("SizeOfHeapReserve", 8); ("SizeOfHeapCommit", 8); ("LoaderFlags", 4);
   ("NumberOfRvaAndSizes", 4)].

Definition EFI_IMAGE_SECTION_HEADER : layout :=
  [("Name", 8); ("VirtualSize", 4); ("VirtualAddress", 4); ("SizeOfRawData", 4);
   ("PointerToRawData", 4); ("PointerToRelocations", 4); ("PointerToLinenumbers", 4);
   ("NumberOfRelocations", 2); ("NumberOfLinenumbers", 2); ("Characteristics", 4)].

Definition EFI_IMAGE_BASE_RELOCATION_BLOCK : layout :=
  [("VirtualAddress", 4); ("SizeOfBlock", 4)].

Definition EFI_IMAGE_DEBUG_DIRECTORY_ENTRY : layout :=
  [("Characteristics", 4); ("TimeDateStamp", 4); ("MajorVersion", 2); ("MinorVersion", 2);
   ("Type", 4); ("SizeOfData", 4); ("RVA", 4); ("FileOffset", 4)].

Definition EFI_IMAGE_DEBUG_CODEVIEW_NB10_ENTRY : layout :=
  [("Signature", 4); ("Unknown", 4); ("Unknown2", 4); ("Unknown3", 4)].

Definition EFI_IMAGE_DEBUG_CODEVIEW_RSDS_ENTRY : layout :=
  [("Signature", 4); ("Guid", 16); ("Age", 4)].

Definition EFI_IMAGE_DEBUG_CODEVIEW_MTOC_ENTRY : layout := [("Signature", 4); ("Uuid", 16)].

Definition EFI_IMAGE_RESOURCE_DIRECTORY_ENTRY : layout := [("u1", 4); ("u2", 4)].

Definition EFI_IMAGE_RESOURCE_DIRECTORY : layout :=
  [("Characteristics", 4); ("TimeDateStamp", 4); ("MajorVersion", 2); ("MinorVersion", 2);
   ("NumberOfNamedEntries", 2); ("NumberOfIdEntries", 2)].

Definition EFI_IMAGE_RESOURCE_DIRECTORY_STRING : layout := [("Length", 2)].

Definition EFI_IMAGE_RESOURCE_DATA_ENTRY : layout :=
  [("OffsetToData", 4); ("Size", 4); ("CodePage", 4); ("Reserved", 4)].

(** MdePkg/Include/Guid/WinCertificate.h *)
Definition WIN_CERTIFICATE : layout :=
  [("dwLength", 4); ("wRevision", 2); ("wCertificateType", 2)].

Lemma layouts_naturally_aligned :
  naturally_aligned 4 0 EFI_IMAGE_DOS_HEADER ∧
  naturally_aligned 4 0 EFI_IMAGE_NT_HEADERS_COMMON_HDR ∧
  naturally_aligned 4 0 EFI_IMAGE_NT_HEADERS32 ∧
  naturally_aligned 8 0 EFI_IMAGE_NT_HEADERS64 ∧
  naturally_aligned 4 0 EFI_IMAGE_SECTION_HEADER ∧
  naturally_aligned 4 0 EFI_IMAGE_BASE_RELOCATION_BLOCK ∧
  naturally_aligned 4 0 EFI_IMAGE_DEBUG_DIRECTORY_ENTRY ∧
  naturally_aligned 4 0 EFI_IMAGE_RESOURCE_DIRECTORY ∧
  naturally_aligned 4 0 EFI_IMAGE_RESOURCE_DATA_ENTRY ∧
  naturally_aligned 4 0 WIN_CERTIFICATE.
Proof. split_and!; by vm_compute. Qed.

(** ** Field offsets and sizes, computed from the layouts *)

Definition DOS_e_lfanew : Z := Eval vm_compute in offset_of EFI_IMAGE_DOS_HEADER "e_lfanew".
Definition COMMON_NumberOfSections : Z := Eval vm_compute in offset_of EFI_IMAGE_NT_HEADERS_COMMON_HDR "NumberOfSections".
Definition COMMON_Machine : Z := Eval vm_compute in offset_of EFI_IMAGE_NT_HEADERS_COMMON_HDR "Machine".
Definition COMMON_SizeOfOptionalHeader : Z := Eval vm_compute in offset_of EFI_IMAGE_NT_HEADERS_COMMON_HDR "SizeOfOptionalHeader".
Definition COMMON_Characteristics : Z := Eval vm_compute in offset_of EFI_IMAGE_NT_HEADERS_COMMON_HDR "Characteristics".
Definition NT32_Magic : Z := Eval vm_compute in offset_of EFI_IMAGE_NT_HEADERS32 "Magic".
Definition NT32_AddressOfEntryPoint : Z := Eval vm_compute in offset_of EFI_IMAGE_NT_HEADERS32 "AddressOfEntryPoint".
Definition NT32_ImageBase : Z := Eval vm_compute in offset_of EFI_IMAGE_NT_HEADERS32 "ImageBase".
Definition NT32_SectionAlignment : Z := Eval vm_compute in offset_of EFI_IMAGE_NT_HEADERS32 "SectionAlignment".
Definition NT32_SizeOfHeaders : Z := Eval vm_compute in offset_of EFI_IMAGE_NT_HEADERS32 "SizeOfHeaders".
Definition NT32_CheckSum : Z := Eval vm_compute in offset_of EFI_IMAGE_NT_HEADERS32 "CheckSum".
Definition NT32_Subsystem : Z := Eval vm_compute in offset_of EFI_IMAGE_NT_HEADERS32 "Subsystem".
Definition NT32_NumberOfRvaAndSizes : Z := Eval vm_compute in offset_of EFI_IMAGE_NT_HEADERS32 "NumberOfRvaAndSizes".
Definition NT64_AddressOfEntryPoint : Z := Eval vm_compute in offset_of EFI_IMAGE_NT_HEADERS64 "AddressOfEntryPoint".
Definition NT64_ImageBase : Z := Eval vm_compute in offset_of EFI_IMAGE_NT_HEADERS64 "ImageBase".
Definition NT64_SectionAlignment : Z := Eval vm_compute in offset_of EFI_IMAGE_NT_HEADERS64 "SectionAlignment".
Definition NT64_SizeOfHeaders : Z := Eval vm_compute in offset_of EFI_IMAGE_NT_HEADERS64 "SizeOfHeaders".
Definition NT64_CheckSum : Z := Eval vm_compute in offset_of EFI_IMAGE_NT_HEADERS64 "CheckSum".
Definition NT64_Subsystem : Z := Eval vm_compute in offset_of EFI_IMAGE_NT_HEADERS64 "Subsystem".
Definition NT64_NumberOfRvaAndSizes : Z := Eval vm_compute in offset_of EFI_IMAGE_NT_HEADERS64 "NumberOfRvaAndSizes".
Definition SECT_VirtualSize : Z := Eval vm_compute in offset_of EFI_IMAGE_SECTION_HEADER "VirtualSize".
Definition SECT_VirtualAddress : Z := Eval vm_compute in offset_of EFI_IMAGE_SECTION_HEADER "VirtualAddress".
Definition SECT_SizeOfRawData : Z := Eval vm_compute in offset_of EFI_IMAGE_SECTION_HEADER "SizeOfRawData".
Definition SECT_PointerToRawData : Z := Eval vm_compute in offset_of EFI_IMAGE_SECTION_HEADER "PointerToRawData".
Definition SECT_Characteristics : Z := Eval vm_compute in offset_of EFI_IMAGE_SECTION_HEADER "Characteristics".
Definition DIR_VirtualAddress : Z := Eval vm_compute in offset_of EFI_IMAGE_DATA_DIRECTORY "VirtualAddress".
Definition DIR_Size : Z := Eval vm_compute in offset_of EFI_IMAGE_DATA_DIRECTORY "Size".
Definition RELOC_VirtualAddress : Z := Eval vm_compute in offset_of EFI_IMAGE_BASE_RELOCATION_BLOCK "VirtualAddress".
Definition RELOC_SizeOfBlock : Z := Eval vm_compute in offset_of EFI_IMAGE_BASE_RELOCATION_BLOCK "SizeOfBlock".
Definition DEBUG_Type : Z := Eval vm_compute in offset_of EFI_IMAGE_DEBUG_DIRECTORY_ENTRY "Type".
Definition DEBUG_SizeOfData : Z := Eval vm_compute in offset_of EFI_IMAGE_DEBUG_DIRECTORY_ENTRY "SizeOfData".
Definition DEBUG_FileOffset : Z := Eval vm_compute in offset_of EFI_IMAGE_DEBUG_DIRECTORY_ENTRY "FileOffset".
Definition RES_NumberOfNamedEntries : Z := Eval vm_compute in offset_of EFI_IMAGE_RESOURCE_DIRECTORY "NumberOfNamedEntries".
Definition RES_NumberOfIdEntries : Z := Eval vm_compute in offset_of EFI_IMAGE_RESOURCE_DIRECTORY "NumberOfIdEntries".
Definition RESENT_u1 : Z := Eval vm_compute in offset_of EFI_IMAGE_RESOURCE_DIRECTORY_ENTRY "u1".
Definition RESENT_u2 : Z := Eval vm_compute in offset_of EFI_IMAGE_RESOURCE_DIRECTORY_ENTRY "u2".
Definition RESDATA_OffsetToData : Z := Eval vm_compute in offset_of EFI_IMAGE_RESOURCE_DATA_ENTRY "OffsetToData".
Definition RESDATA_Size : Z := Eval vm_compute in offset_of EFI_IMAGE_RESOURCE_DATA_ENTRY "Size".
Definition CERT_dwLength : Z := Eval vm_compute in offset_of WIN_CERTIFICATE "dwLength".

Definition SIZEOF_EFI_IMAGE_DOS_HEADER : Z := Eval vm_compute in size_of EFI_IMAGE_DOS_HEADER.
Definition SIZEOF_EFI_IMAGE_NT_HEADERS_COMMON_HDR : Z := Eval vm_compute in size_of EFI_IMAGE_NT_HEADERS_COMMON_HDR.
Definition SIZEOF_EFI_IMAGE_NT_HEADERS32 : Z := Eval vm_compute in size_of EFI_IMAGE_NT_HEADERS32.
Definition SIZEOF_EFI_IMAGE_NT_HEADERS64 : Z := Eval vm_compute in size_of EFI_IMAGE_NT_HEADERS64.
Definition SIZEOF_EFI_IMAGE_SECTION_HEADER : Z := Eval vm_compute in size_of EFI_IMAGE_SECTION_HEADER.
Definition SIZEOF_EFI_IMAGE_DATA_DIRECTORY : Z := Eval vm_compute in size_of EFI_IMAGE_DATA_DIRECTORY.
Definition SIZEOF_EFI_IMAGE_BASE_RELOCATION_BLOCK : Z := Eval vm_compute in size_of EFI_IMAGE_BASE_RELOCATION_BLOCK.
Definition SIZEOF_EFI_IMAGE_DEBUG_DIRECTORY_ENTRY : Z := Eval vm_compute in size_of EFI_IMAGE_DEBUG_DIRECTORY_ENTRY.
Definition SIZEOF_EFI_IMAGE_DEBUG_CODEVIEW_NB10_ENTRY : Z := Eval vm_compute in size_of EFI_IMAGE_DEBUG_CODEVIEW_NB10_ENTRY.
Definition SIZEOF_EFI_IMAGE_DEBUG_CODEVIEW_RSDS_ENTRY : Z := Eval vm_compute in size_of EFI_IMAGE_DEBUG_CODEVIEW_RSDS_ENTRY.
Definition SIZEOF_EFI_IMAGE_DEBUG_CODEVIEW_MTOC_ENTRY : Z := Eval vm_compute in size_of EFI_IMAGE_DEBUG_CODEVIEW_MTOC_ENTRY.
Definition SIZEOF_EFI_IMAGE_RESOURCE_DIRECTORY : Z := Eval vm_compute in size_of EFI_IMAGE_RESOURCE_DIRECTORY.
Definition SIZEOF_EFI_IMAGE_RESOURCE_DIRECTORY_ENTRY : Z := Eval vm_compute in size_of EFI_IMAGE_RESOURCE_DIRECTORY_ENTRY.
Definition SIZEOF_EFI_IMAGE_RESOURCE_DIRECTORY_STRING : Z := Eval vm_compute in size_of EFI_IMAGE_RESOURCE_DIRECTORY_STRING.
Definition SIZEOF_EFI_IMAGE_RESOURCE_DATA_ENTRY : Z := Eval vm_compute in size_of EFI_IMAGE_RESOURCE_DATA_ENTRY.
Definition SIZEOF_WIN_CERTIFICATE : Z := Eval vm_compute in size_of WIN_CERTIFICATE.

Definition EFI_IMAGE_DOS_SIGNATURE : Z := 0x5A4D.
Definition EFI_IMAGE_NT_SIGNATURE : Z := 0x4550.
Definition EFI_IMAGE_NT_OPTIONAL_HDR32_MAGIC : Z := 0x10b.
Definition EFI_IMAGE_NT_OPTIONAL_HDR64_MAGIC : Z := 0x20b.
Definition EFI_IMAGE_NUMBER_OF_DIRECTORY_ENTRIES : Z := 16.
Definition EFI_IMAGE_DIRECTORY_ENTRY_RESOURCE : Z := 2.
Definition EFI_IMAGE_DIRECTORY_ENTRY_SECURITY : Z := 4.
Definition EFI_IMAGE_DIRECTORY_ENTRY_BASERELOC : Z := 5.
Definition EFI_IMAGE_DIRECTORY_ENTRY_DEBUG : Z := 6.
Definition EFI_IMAGE_FILE_RELOCS_STRIPPED : Z := 0x1.
Definition EFI_IMAGE_SCN_MEM_DISCARDABLE : Z := 0x02000000.
Definition EFI_IMAGE_SCN_MEM_EXECUTE : Z := 0x20000000.
Definition EFI_IMAGE_SCN_MEM_WRITE : Z := 0x80000000.
Definition EFI_IMAGE_REL_BASED_ABSOLUTE : Z := 0.
Definition EFI_IMAGE_REL_BASED_HIGHLOW : Z := 3.
Definition EFI_IMAGE_REL_BASED_ARM_MOV32T : Z := 7.
Definition EFI_IMAGE_REL_BASED_DIR64 : Z := 10.
Definition EFI_IMAGE_DEBUG_TYPE_CODEVIEW : Z := 2.
Definition CODEVIEW_SIGNATURE_NB10 : Z := 0x3031424E.
Definition CODEVIEW_SIGNATURE_RSDS : Z := 0x53445352.
Definition CODEVIEW_SIGNATURE_MTOC : Z := 0x434F544D.
Definition IMAGE_CERTIFICATE_ALIGN : Z := 8.
Definition EFI_PAGE_SIZE : Z := 0x1000.
Definition ALIGNOF_EFI_IMAGE_NT_HEADERS_COMMON_HDR : Z := 4.
Definition ALIGNOF_EFI_IMAGE_SECTION_HEADER : Z := 4.
Definition ALIGNOF_EFI_IMAGE_BASE_RELOCATION_BLOCK : Z := 4.
Definition ALIGNOF_EFI_IMAGE_DEBUG_DIRECTORY_ENTRY : Z := 4.
Definition ALIGNOF_EFI_IMAGE_RESOURCE_DIRECTORY : Z := 4.
Definition ALIGNOF_EFI_IMAGE_RESOURCE_DIRECTORY_STRING : Z := 2.
Definition ALIGNOF_EFI_IMAGE_RESOURCE_DATA_ENTRY : Z := 4.
Definition ALIGNOF_WIN_CERTIFICATE : Z := 4.
Definition ALIGNOF_UINT16 : Z := 2.
Definition ALIGNOF_UINT32 : Z := 4.
Definition PCD_IMAGE_PROTECTION_POLICY_FV_STOP_BOOT : Z := 0x80000000.
Definition PCD_ALIGNMENT_POLICY_CONTIGUOUS_SECTIONS : Z := 0x1.
Definition PCD_ALIGNMENT_POLICY_RELOCATION_BLOCK_SIZES : Z := 0x2.
Definition PCD_ALIGNMENT_POLICY_CERTIFICATE_SIZES : Z := 0x4.
Definition PCD_RELOC_TYPE_POLICY_ARM : Z := 0x1.
Definition UefiImageOriginFv : Z := 0.
Definition UefiImageOriginOptionROM : Z := 1.
Definition UefiImageOriginUserImage : Z := 2.

Create HintDb pe_layout.
#[export] Hint Unfold
  DOS_e_lfanew COMMON_NumberOfSections COMMON_Machine COMMON_SizeOfOptionalHeader
  COMMON_Characteristics NT32_Magic NT32_AddressOfEntryPoint NT32_ImageBase
  NT32_SectionAlignment NT32_SizeOfHeaders NT32_CheckSum NT32_Subsystem
  NT32_NumberOfRvaAndSizes NT64_AddressOfEntryPoint NT64_ImageBase NT64_SectionAlignment
  NT64_SizeOfHeaders NT64_CheckSum NT64_Subsystem NT64_NumberOfRvaAndSizes SECT_VirtualSize
  SECT_VirtualAddress SECT_SizeOfRawData SECT_PointerToRawData SECT_Characteristics
  DIR_VirtualAddress DIR_Size RELOC_VirtualAddress RELOC_SizeOfBlock DEBUG_Type
  DEBUG_SizeOfData DEBUG_FileOffset RES_NumberOfNamedEntries RES_NumberOfIdEntries RESENT_u1
  RESENT_u2 RESDATA_OffsetToData RESDATA_Size CERT_dwLength SIZEOF_EFI_IMAGE_DOS_HEADER
  SIZEOF_EFI_IMAGE_NT_HEADERS_COMMON_HDR SIZEOF_EFI_IMAGE_NT_HEADERS32
  SIZEOF_EFI_IMAGE_NT_HEADERS64 SIZEOF_EFI_IMAGE_SECTION_HEADER SIZEOF_EFI_IMAGE_DATA_DIRECTORY
  SIZEOF_EFI_IMAGE_BASE_RELOCATION_BLOCK SIZEOF_EFI_IMAGE_DEBUG_DIRECTORY_ENTRY
  SIZEOF_EFI_IMAGE_DEBUG_CODEVIEW_NB10_ENTRY SIZEOF_EFI_IMAGE_DEBUG_CODEVIEW_RSDS_ENTRY
  SIZEOF_EFI_IMAGE_DEBUG_CODEVIEW_MTOC_ENTRY SIZEOF_EFI_IMAGE_RESOURCE_DIRECTORY
  SIZEOF_EFI_IMAGE_RESOURCE_DIRECTORY_ENTRY SIZEOF_EFI_IMAGE_RESOURCE_DIRECTORY_STRING
  SIZEOF_EFI_IMAGE_RESOURCE_DATA_ENTRY SIZEOF_WIN_CERTIFICATE EFI_IMAGE_DOS_SIGNATURE
  EFI_IMAGE_NT_SIGNATURE EFI_IMAGE_NT_OPTIONAL_HDR32_MAGIC EFI_IMAGE_NT_OPTIONAL_HDR64_MAGIC
  EFI_IMAGE_NUMBER_OF_DIRECTORY_ENTRIES EFI_IMAGE_DIRECTORY_ENTRY_RESOURCE
  EFI_IMAGE_DIRECTORY_ENTRY_SECURITY EFI_IMAGE_DIRECTORY_ENTRY_BASERELOC
  EFI_IMAGE_DIRECTORY_ENTRY_DEBUG EFI_IMAGE_FILE_RELOCS_STRIPPED EFI_IMAGE_SCN_MEM_DISCARDABLE
  EFI_IMAGE_SCN_MEM_EXECUTE EFI_IMAGE_SCN_MEM_WRITE EFI_IMAGE_REL_BASED_ABSOLUTE
  EFI_IMAGE_REL_BASED_HIGHLOW EFI_IMAGE_REL_BASED_ARM_MOV32T EFI_IMAGE_REL_BASED_DIR64
  EFI_IMAGE_DEBUG_TYPE_CODEVIEW CODEVIEW_SIGNATURE_NB10 CODEVIEW_SIGNATURE_RSDS
  CODEVIEW_SIGNATURE_MTOC IMAGE_CERTIFICATE_ALIGN EFI_PAGE_SIZE
  ALIGNOF_EFI_IMAGE_NT_HEADERS_COMMON_HDR ALIGNOF_EFI_IMAGE_SECTION_HEADER
  ALIGNOF_EFI_IMAGE_BASE_RELOCATION_BLOCK ALIGNOF_EFI_IMAGE_DEBUG_DIRECTORY_ENTRY
  ALIGNOF_EFI_IMAGE_RESOURCE_DIRECTORY ALIGNOF_EFI_IMAGE_RESOURCE_DIRECTORY_STRING
  ALIGNOF_EFI_IMAGE_RESOURCE_DATA_ENTRY ALIGNOF_WIN_CERTIFICATE ALIGNOF_UINT16 ALIGNOF_UINT32
  PCD_IMAGE_PROTECTION_POLICY_FV_STOP_BOOT PCD_ALIGNMENT_POLICY_CONTIGUOUS_SECTIONS
  PCD_ALIGNMENT_POLICY_RELOCATION_BLOCK_SIZES PCD_ALIGNMENT_POLICY_CERTIFICATE_SIZES
  PCD_RELOC_TYPE_POLICY_ARM UefiImageOriginFv UefiImageOriginOptionROM UefiImageOriginUserImage : pe_layout.

(** IMAGE_RELOC_TYPE and IMAGE_RELOC_OFFSET *)
Definition IMAGE_RELOC_TYPE (Relocation : Z) : Z := Z.shiftr Relocation 12.
Definition IMAGE_RELOC_OFFSET (Relocation : Z) : Z := Z.land Relocation 0x0FFF.

(** ** The image context *)

Inductive PE_COFF_LOADER_IMAGE_TYPE := PeCoffLoaderTypePe32 | PeCoffLoaderTypePe32Plus.

#[global] Instance PE_COFF_LOADER_IMAGE_TYPE_eq_dec : EqDecision PE_COFF_LOADER_IMAGE_TYPE.
Proof. solve_decision. Defined.

(** Where the ImageBuffer pointer points: nowhere yet, to the destination the
    image was copied to, or to the raw file itself (in-place loading). *)
Inductive image_pointer := ImageNull | ImageDestination | ImageFile.

#[global] Instance image_pointer_eq_dec : EqDecision image_pointer.
Proof. solve_decision. Defined.

(** FileBuffer always points to the raw file; its address and contents are in
    the memory the functions are given. *)
Record PE_COFF_LOADER_IMAGE_CONTEXT := {
  ImageBase : Z;
  FileSize : Z;
  ImageBuffer : image_pointer;
  SectionsOffset : Z;
  NumberOfSections : Z;
  SizeOfImage : Z;
  SectionAlignment : Z;
  ExeHdrOffset : Z;
  SizeOfHeaders : Z;
  AddressOfEntryPoint : Z;
  RelocsStripped : bool;
  ImageType : PE_COFF_LOADER_IMAGE_TYPE;
  Subsystem : Z;
  Machine : Z;
  RelocDirRva : Z;
  RelocDirSize : Z;
  SecDirOffset : Z;
  SecDirSize : Z;
}.

#[global] Instance PE_COFF_LOADER_IMAGE_CONTEXT_eq_dec : EqDecision PE_COFF_LOADER_IMAGE_CONTEXT.
Proof. solve_decision. Defined.

(** ZeroMem of the whole context: NULL, FALSE and the first enumerator are zero. *)
Definition zero_context : PE_COFF_LOADER_IMAGE_CONTEXT := {|
  ImageBase := 0;
  FileSize := 0;
  ImageBuffer := ImageNull;
  SectionsOffset := 0;
  NumberOfSections := 0;
  SizeOfImage := 0;
  SectionAlignment := 0;
  ExeHdrOffset := 0;
  SizeOfHeaders := 0;
  AddressOfEntryPoint := 0;
  RelocsStripped := false;
  ImageType := PeCoffLoaderTypePe32;
  Subsystem := 0;
  Machine := 0;
  RelocDirRva := 0;
  RelocDirSize := 0;
  SecDirOffset := 0;
  SecDirSize := 0;
|}.

(** Assignments to members of the context. *)
Definition set_ImageBase (v : Z) (c : PE_COFF_LOADER_IMAGE_CONTEXT) : PE_COFF_LOADER_IMAGE_CONTEXT := {|
  ImageBase := v; FileSize := FileSize c; ImageBuffer := ImageBuffer c;
  SectionsOffset := SectionsOffset c; NumberOfSections := NumberOfSections c;
  SizeOfImage := SizeOfImage c; SectionAlignment := SectionAlignment c;
  ExeHdrOffset := ExeHdrOffset c; SizeOfHeaders := SizeOfHeaders c;
  AddressOfEntryPoint := AddressOfEntryPoint c; RelocsStripped := RelocsStripped c;
  ImageType := ImageType c; Subsystem := Subsystem c; Machine := Machine c;
  RelocDirRva := RelocDirRva c; RelocDirSize := RelocDirSize c; SecDirOffset := SecDirOffset c;
  SecDirSize := SecDirSize c; |}.
Definition set_FileSize (v : Z) (c : PE_COFF_LOADER_IMAGE_CONTEXT) : PE_COFF_LOADER_IMAGE_CONTEXT := {|
  ImageBase := ImageBase c; FileSize := v; ImageBuffer := ImageBuffer c;
  SectionsOffset := SectionsOffset c; NumberOfSections := NumberOfSections c;
  SizeOfImage := SizeOfImage c; SectionAlignment := SectionAlignment c;
  ExeHdrOffset := ExeHdrOffset c; SizeOfHeaders := SizeOfHeaders c;
  AddressOfEntryPoint := AddressOfEntryPoint c; RelocsStripped := RelocsStripped c;
  ImageType := ImageType c; Subsystem := Subsystem c; Machine := Machine c;
  RelocDirRva := RelocDirRva c; RelocDirSize := RelocDirSize c; SecDirOffset := SecDirOffset c;
  SecDirSize := SecDirSize c; |}.
Definition set_ImageBuffer (v : image_pointer) (c : PE_COFF_LOADER_IMAGE_CONTEXT) : PE_COFF_LOADER_IMAGE_CONTEXT := {|
  ImageBase := ImageBase c; FileSize := FileSize c; ImageBuffer := v;
  SectionsOffset := SectionsOffset c; NumberOfSections := NumberOfSections c;
  SizeOfImage := SizeOfImage c; SectionAlignment := SectionAlignment c;
  ExeHdrOffset := ExeHdrOffset c; SizeOfHeaders := SizeOfHeaders c;
  AddressOfEntryPoint := AddressOfEntryPoint c; RelocsStripped := RelocsStripped c;
  ImageType := ImageType c; Subsystem := Subsystem c; Machine := Machine c;
  RelocDirRva := RelocDirRva c; RelocDirSize := RelocDirSize c; SecDirOffset := SecDirOffset c;
  SecDirSize := SecDirSize c; |}.
Definition set_SectionsOffset (v : Z) (c : PE_COFF_LOADER_IMAGE_CONTEXT) : PE_COFF_LOADER_IMAGE_CONTEXT := {|
  ImageBase := ImageBase c; FileSize := FileSize c; ImageBuffer := ImageBuffer c;
  SectionsOffset := v; NumberOfSections := NumberOfSections c; SizeOfImage := SizeOfImage c;
  SectionAlignment := SectionAlignment c; ExeHdrOffset := ExeHdrOffset c;
  SizeOfHeaders := SizeOfHeaders c; AddressOfEntryPoint := AddressOfEntryPoint c;
  RelocsStripped := RelocsStripped c; ImageType := ImageType c; Subsystem := Subsystem c;
  Machine := Machine c; RelocDirRva := RelocDirRva c; RelocDirSize := RelocDirSize c;
  SecDirOffset := SecDirOffset c; SecDirSize := SecDirSize c; |}.
Definition set_NumberOfSections (v : Z) (c : PE_COFF_LOADER_IMAGE_CONTEXT) : PE_COFF_LOADER_IMAGE_CONTEXT := {|
  ImageBase := ImageBase c; FileSize := FileSize c; ImageBuffer := ImageBuffer c;
  SectionsOffset := SectionsOffset c; NumberOfSections := v; SizeOfImage := SizeOfImage c;
  SectionAlignment := SectionAlignment c; ExeHdrOffset := ExeHdrOffset c;
  SizeOfHeaders := SizeOfHeaders c; AddressOfEntryPoint := AddressOfEntryPoint c;
  RelocsStripped := RelocsStripped c; ImageType := ImageType c; Subsystem := Subsystem c;
  Machine := Machine c; RelocDirRva := RelocDirRva c; RelocDirSize := RelocDirSize c;
  SecDirOffset := SecDirOffset c; SecDirSize := SecDirSize c; |}.
Definition set_SizeOfImage (v : Z) (c : PE_COFF_LOADER_IMAGE_CONTEXT) : PE_COFF_LOADER_IMAGE_CONTEXT := {|
  ImageBase := ImageBase c; FileSize := FileSize c; ImageBuffer := ImageBuffer c;
  SectionsOffset := SectionsOffset c; NumberOfSections := NumberOfSections c; SizeOfImage := v;
  SectionAlignment := SectionAlignment c; ExeHdrOffset := ExeHdrOffset c;
  SizeOfHeaders := SizeOfHeaders c; AddressOfEntryPoint := AddressOfEntryPoint c;
  RelocsStripped := RelocsStripped c; ImageType := ImageType c; Subsystem := Subsystem c;
  Machine := Machine c; RelocDirRva := RelocDirRva c; RelocDirSize := RelocDirSize c;
  SecDirOffset := SecDirOffset c; SecDirSize := SecDirSize c; |}.
Definition set_SectionAlignment (v : Z) (c : PE_COFF_LOADER_IMAGE_CONTEXT) : PE_COFF_LOADER_IMAGE_CONTEXT := {|
  ImageBase := ImageBase c; FileSize := FileSize c; ImageBuffer := ImageBuffer c;
  SectionsOffset := SectionsOffset c; NumberOfSections := NumberOfSections c;
  SizeOfImage := SizeOfImage c; SectionAlignment := v; ExeHdrOffset := ExeHdrOffset c;
  SizeOfHeaders := SizeOfHeaders c; AddressOfEntryPoint := AddressOfEntryPoint c;
  RelocsStripped := RelocsStripped c; ImageType := ImageType c; Subsystem := Subsystem c;
  Machine := Machine c; RelocDirRva := RelocDirRva c; RelocDirSize := RelocDirSize c;
  SecDirOffset := SecDirOffset c; SecDirSize := SecDirSize c; |}.
Definition set_ExeHdrOffset (v : Z) (c : PE_COFF_LOADER_IMAGE_CONTEXT) : PE_COFF_LOADER_IMAGE_CONTEXT := {|
  ImageBase := ImageBase c; FileSize := FileSize c; ImageBuffer := ImageBuffer c;
  SectionsOffset := SectionsOffset c; NumberOfSections := NumberOfSections c;
  SizeOfImage := SizeOfImage c; SectionAlignment := SectionAlignment c; ExeHdrOffset := v;
  SizeOfHeaders := SizeOfHeaders c; AddressOfEntryPoint := AddressOfEntryPoint c;
  RelocsStripped := RelocsStripped c; ImageType := ImageType c; Subsystem := Subsystem c;
  Machine := Machine c; RelocDirRva := RelocDirRva c; RelocDirSize := RelocDirSize c;
  SecDirOffset := SecDirOffset c; SecDirSize := SecDirSize c; |}.
Definition set_SizeOfHeaders (v : Z) (c : PE_COFF_LOADER_IMAGE_CONTEXT) : PE_COFF_LOADER_IMAGE_CONTEXT := {|
  ImageBase := ImageBase c; FileSize := FileSize c; ImageBuffer := ImageBuffer c;
  SectionsOffset := SectionsOffset c; NumberOfSections := NumberOfSections c;
  SizeOfImage := SizeOfImage c; SectionAlignment := SectionAlignment c;
  ExeHdrOffset := ExeHdrOffset c; SizeOfHeaders := v;
  AddressOfEntryPoint := AddressOfEntryPoint c; RelocsStripped := RelocsStripped c;
  ImageType := ImageType c; Subsystem := Subsystem c; Machine := Machine c;
  RelocDirRva := RelocDirRva c; RelocDirSize := RelocDirSize c; SecDirOffset := SecDirOffset c;
  SecDirSize := SecDirSize c; |}.
Definition set_AddressOfEntryPoint (v : Z) (c : PE_COFF_LOADER_IMAGE_CONTEXT) : PE_COFF_LOADER_IMAGE_CONTEXT := {|
  ImageBase := ImageBase c; FileSize := FileSize c; ImageBuffer := ImageBuffer c;
  SectionsOffset := SectionsOffset c; NumberOfSections := NumberOfSections c;
  SizeOfImage := SizeOfImage c; SectionAlignment := SectionAlignment c;
  ExeHdrOffset := ExeHdrOffset c; SizeOfHeaders := SizeOfHeaders c; AddressOfEntryPoint := v;
  RelocsStripped := RelocsStripped c; ImageType := ImageType c; Subsystem := Subsystem c;
  Machine := Machine c; RelocDirRva := RelocDirRva c; RelocDirSize := RelocDirSize c;
  SecDirOffset := SecDirOffset c; SecDirSize := SecDirSize c; |}.
Definition set_RelocsStripped (v : bool) (c : PE_COFF_LOADER_IMAGE_CONTEXT) : PE_COFF_LOADER_IMAGE_CONTEXT := {|
  ImageBase := ImageBase c; FileSize := FileSize c; ImageBuffer := ImageBuffer c;
  SectionsOffset := SectionsOffset c; NumberOfSections := NumberOfSections c;
  SizeOfImage := SizeOfImage c; SectionAlignment := SectionAlignment c;
  ExeHdrOffset := ExeHdrOffset c; SizeOfHeaders := SizeOfHeaders c;
  AddressOfEntryPoint := AddressOfEntryPoint c; RelocsStripped := v; ImageType := ImageType c;
  Subsystem := Subsystem c; Machine := Machine c; RelocDirRva := RelocDirRva c;
  RelocDirSize := RelocDirSize c; SecDirOffset := SecDirOffset c; SecDirSize := SecDirSize c; |}.
Definition set_ImageType (v : PE_COFF_LOADER_IMAGE_TYPE) (c : PE_COFF_LOADER_IMAGE_CONTEXT) : PE_COFF_LOADER_IMAGE_CONTEXT := {|
  ImageBase := ImageBase c; FileSize := FileSize c; ImageBuffer := ImageBuffer c;
  SectionsOffset := SectionsOffset c; NumberOfSections := NumberOfSections c;
  SizeOfImage := SizeOfImage c; SectionAlignment := SectionAlignment c;
  ExeHdrOffset := ExeHdrOffset c; SizeOfHeaders := SizeOfHeaders c;
  AddressOfEntryPoint := AddressOfEntryPoint c; RelocsStripped := RelocsStripped c;
  ImageType := v; Subsystem := Subsystem c; Machine := Machine c; RelocDirRva := RelocDirRva c;
  RelocDirSize := RelocDirSize c; SecDirOffset := SecDirOffset c; SecDirSize := SecDirSize c; |}.
Definition set_Subsystem (v : Z) (c : PE_COFF_LOADER_IMAGE_CONTEXT) : PE_COFF_LOADER_IMAGE_CONTEXT := {|
  ImageBase := ImageBase c; FileSize := FileSize c; ImageBuffer := ImageBuffer c;
  SectionsOffset := SectionsOffset c; NumberOfSections := NumberOfSections c;
  SizeOfImage := SizeOfImage c; SectionAlignment := SectionAlignment c;
  ExeHdrOffset := ExeHdrOffset c; SizeOfHeaders := SizeOfHeaders c;
  AddressOfEntryPoint := AddressOfEntryPoint c; RelocsStripped := RelocsStripped c;
  ImageType := ImageType c; Subsystem := v; Machine := Machine c; RelocDirRva := RelocDirRva c;
  RelocDirSize := RelocDirSize c; SecDirOffset := SecDirOffset c; SecDirSize := SecDirSize c; |}.
Definition set_Machine (v : Z) (c : PE_COFF_LOADER_IMAGE_CONTEXT) : PE_COFF_LOADER_IMAGE_CONTEXT := {|
  ImageBase := ImageBase c; FileSize := FileSize c; ImageBuffer := ImageBuffer c;
  SectionsOffset := SectionsOffset c; NumberOfSections := NumberOfSections c;
  SizeOfImage := SizeOfImage c; SectionAlignment := SectionAlignment c;
  ExeHdrOffset := ExeHdrOffset c; SizeOfHeaders := SizeOfHeaders c;
  AddressOfEntryPoint := AddressOfEntryPoint c; RelocsStripped := RelocsStripped c;
  ImageType := ImageType c; Subsystem := Subsystem c; Machine := v;
  RelocDirRva := RelocDirRva c; RelocDirSize := RelocDirSize c; SecDirOffset := SecDirOffset c;
  SecDirSize := SecDirSize c; |}.
Definition set_RelocDirRva (v : Z) (c : PE_COFF_LOADER_IMAGE_CONTEXT) : PE_COFF_LOADER_IMAGE_CONTEXT := {|
  ImageBase := ImageBase c; FileSize := FileSize c; ImageBuffer := ImageBuffer c;
  SectionsOffset := SectionsOffset c; NumberOfSections := NumberOfSections c;
  SizeOfImage := SizeOfImage c; SectionAlignment := SectionAlignment c;
  ExeHdrOffset := ExeHdrOffset c; SizeOfHeaders := SizeOfHeaders c;
  AddressOfEntryPoint := AddressOfEntryPoint c; RelocsStripped := RelocsStripped c;
  ImageType := ImageType c; Subsystem := Subsystem c; Machine := Machine c; RelocDirRva := v;
  RelocDirSize := RelocDirSize c; SecDirOffset := SecDirOffset c; SecDirSize := SecDirSize c; |}.
Definition set_RelocDirSize (v : Z) (c : PE_COFF_LOADER_IMAGE_CONTEXT) : PE_COFF_LOADER_IMAGE_CONTEXT := {|
  ImageBase := ImageBase c; FileSize := FileSize c; ImageBuffer := ImageBuffer c;
  SectionsOffset := SectionsOffset c; NumberOfSections := NumberOfSections c;
  SizeOfImage := SizeOfImage c; SectionAlignment := SectionAlignment c;
  ExeHdrOffset := ExeHdrOffset c; SizeOfHeaders := SizeOfHeaders c;
  AddressOfEntryPoint := AddressOfEntryPoint c; RelocsStripped := RelocsStripped c;
  ImageType := ImageType c; Subsystem := Subsystem c; Machine := Machine c;
  RelocDirRva := RelocDirRva c; RelocDirSize := v; SecDirOffset := SecDirOffset c;
  SecDirSize := SecDirSize c; |}.
Definition set_SecDirOffset (v : Z) (c : PE_COFF_LOADER_IMAGE_CONTEXT) : PE_COFF_LOADER_IMAGE_CONTEXT := {|
  ImageBase := ImageBase c; FileSize := FileSize c; ImageBuffer := ImageBuffer c;
  SectionsOffset := SectionsOffset c; NumberOfSections := NumberOfSections c;
  SizeOfImage := SizeOfImage c; SectionAlignment := SectionAlignment c;
  ExeHdrOffset := ExeHdrOffset c; SizeOfHeaders := SizeOfHeaders c;
  AddressOfEntryPoint := AddressOfEntryPoint c; RelocsStripped := RelocsStripped c;
  ImageType := ImageType c; Subsystem := Subsystem c; Machine := Machine c;
  RelocDirRva := RelocDirRva c; RelocDirSize := RelocDirSize c; SecDirOffset := v;
  SecDirSize := SecDirSize c; |}.
Definition set_SecDirSize (v : Z) (c : PE_COFF_LOADER_IMAGE_CONTEXT) : PE_COFF_LOADER_IMAGE_CONTEXT := {|
  ImageBase := ImageBase c; FileSize := FileSize c; ImageBuffer := ImageBuffer c;
  SectionsOffset := SectionsOffset c; NumberOfSections := NumberOfSections c;
  SizeOfImage := SizeOfImage c; SectionAlignment := SectionAlignment c;
  ExeHdrOffset := ExeHdrOffset c; SizeOfHeaders := SizeOfHeaders c;
  AddressOfEntryPoint := AddressOfEntryPoint c; RelocsStripped := RelocsStripped c;
  ImageType := ImageType c; Subsystem := Subsystem c; Machine := Machine c;
  RelocDirRva := RelocDirRva c; RelocDirSize := RelocDirSize c; SecDirOffset := SecDirOffset c;
  SecDirSize := v; |}.

(** ** Structures read from the raw file *)

Section Tables.
Context (File : list Z).

(** The file offset of DataDirectory[n], for either optional header. *)
Definition DataDirectory32 (Hdr n : Z) : Z :=
  Hdr + SIZEOF_EFI_IMAGE_NT_HEADERS32 + n * SIZEOF_EFI_IMAGE_DATA_DIRECTORY.
Definition DataDirectory64 (Hdr n : Z) : Z :=
  Hdr + SIZEOF_EFI_IMAGE_NT_HEADERS64 + n * SIZEOF_EFI_IMAGE_DATA_DIRECTORY.

(** &Sections[Index].field *)
Definition section_field (c : PE_COFF_LOADER_IMAGE_CONTEXT) (Index field : Z) : Z :=
  SectionsOffset c + Index * SIZEOF_EFI_IMAGE_SECTION_HEADER + field.

(** The program's access to a member of Sections[Index]. *)
Definition Sections {S} (c : PE_COFF_LOADER_IMAGE_CONTEXT) (Index field : Z) : M S Z :=
  rd 4 File (section_field c Index field).

(** The same members as values, for the specifications. *)
Definition VirtualAddress c i : Z := load 4 File (section_field c i SECT_VirtualAddress).
Definition VirtualSize c i : Z := load 4 File (section_field c i SECT_VirtualSize).
Definition SizeOfRawData c i : Z := load 4 File (section_field c i SECT_SizeOfRawData).
Definition PointerToRawData c i : Z := load 4 File (section_field c i SECT_PointerToRawData).
Definition Characteristics c i : Z := load 4 File (section_field c i SECT_Characteristics).
End Tables.

(** ** Symbolic execution of the loader's functions *)

Ltac wp_step :=
  lazymatch goal with
  | |- wp (Sections _ _ _ _) _ _ _ => apply wp_rd
  | _ => Platform.wp_step
  end.

(** Projections of an updated context. *)
Ltac ctx_simpl := cbn [
  ImageBase FileSize ImageBuffer SectionsOffset NumberOfSections SizeOfImage SectionAlignment ExeHdrOffset SizeOfHeaders
  AddressOfEntryPoint RelocsStripped ImageType Subsystem Machine RelocDirRva RelocDirSize SecDirOffset SecDirSize
  set_ImageBase set_FileSize set_ImageBuffer set_SectionsOffset set_NumberOfSections set_SizeOfImage
  set_SectionAlignment set_ExeHdrOffset set_SizeOfHeaders set_AddressOfEntryPoint set_RelocsStripped set_ImageType
  set_Subsystem set_Machine set_RelocDirRva set_RelocDirSize set_SecDirOffset set_SecDirSize
  zero_context] in *.
