(* ===== verification/PeSample.v ===== *)
(** A small PE32+ image used to evaluate the model and to instantiate its
    theorems: no DOS header, a data section with a pointer to relocate, a
    CodeView entry and an "HII" resource, a relocation section, and one
    certificate.  Raw offsets equal RVAs, so the image can also be loaded in
    place. *)
From S2P Require Import Prelude Base Buffer PeImage.

(** [(offset, size, value)] fields written over zeros. *)
Definition build_file (n : nat) (fields : list (Z * nat * Z)) : list Z :=
  foldl (λ b '(off, w, v), write_bytes b off (le_bytes w v)) (replicate n 0) fields.

Definition sample_fields : list (Z * nat * Z) := [
  (0, 4%nat, EFI_IMAGE_NT_SIGNATURE);
  (COMMON_Machine, 2%nat, 0x8664); (COMMON_NumberOfSections, 2%nat, 2);
  (COMMON_SizeOfOptionalHeader, 2%nat, 168);
  (24, 2%nat, EFI_IMAGE_NT_OPTIONAL_HDR64_MAGIC);
  (NT64_AddressOfEntryPoint, 4%nat, 280); (NT64_ImageBase, 8%nat, 0x140000000);
  (NT64_SectionAlignment, 4%nat, 16); (NT64_SizeOfHeaders, 4%nat, 272);
  (NT64_Subsystem, 2%nat, 11); (NT64_NumberOfRvaAndSizes, 4%nat, 7);
  (* data directories: resource, security, base relocation, debug *)
  (152, 4%nat, 352); (156, 4%nat, 48); (168, 4%nat, 448); (172, 4%nat, 16);
  (176, 4%nat, 432); (180, 4%nat, 12); (184, 4%nat, 288); (188, 4%nat, 28);
  (* section headers *)
  (200, 4%nat, 160); (204, 4%nat, 272); (208, 4%nat, 160); (212, 4%nat, 272);
  (228, 4%nat, 0xC0000000);
  (240, 4%nat, 12); (244, 4%nat, 432); (248, 4%nat, 16); (252, 4%nat, 432);
  (268, 4%nat, 0x42000000);
  (* the pointer to relocate *)
  (272, 8%nat, 0x140000118);
  (* debug directory entry and its CodeView data *)
  (300, 4%nat, 2); (304, 4%nat, 28); (312, 4%nat, 320);
  (320, 4%nat, CODEVIEW_SIGNATURE_RSDS); (344, 4%nat, 0x00636261);
  (* resource directory: one named entry "HII" *)
  (364, 2%nat, 1); (368, 4%nat, 0x80000018); (372, 4%nat, 32);
  (376, 2%nat, 3); (378, 2%nat, 0x48); (380, 2%nat, 0x49); (382, 2%nat, 0x49);
  (384, 4%nat, 400); (388, 4%nat, 8); (400, 8%nat, 0x1122334455667788);
  (* relocation block: DIR64 at 272, one padding entry *)
  (432, 4%nat, 272); (436, 4%nat, 12); (440, 2%nat, 0xA000); (442, 2%nat, 0);
  (* certificate *)
  (448, 4%nat, 16); (452, 2%nat, 0x200); (454, 2%nat, 2); (456, 8%nat, 0x0102030405060708)].

Definition sample_file : list Z := build_file 464 sample_fields.

Lemma sample_file_size : size sample_file = 464.
Proof. by vm_compute. Qed.

Lemma build_file_bytes n fields : bytes (build_file n fields).
Proof.
  unfold build_file. assert (bytes (replicate n 0)) as Hb.
  { apply Forall_replicate. by compute. }
  revert Hb. generalize (replicate n 0) as b.
  induction fields as [|[[off w] v] fields IH]; intros b Hb; cbn [foldl]; [done|].
  apply IH, bytes_write_bytes; [done|apply bytes_le_bytes].
Qed.

Lemma sample_file_bytes : bytes sample_file.
Proof. apply build_file_bytes. Qed.

(** An image for platforms that permit unaligned sections: one empty section far
    behind the end of the file, and a relocation directory in the gap. *)
Definition gap_fields : list (Z * nat * Z) := [
  (0, 4%nat, EFI_IMAGE_NT_SIGNATURE);
  (COMMON_Machine, 2%nat, 0x8664); (COMMON_NumberOfSections, 2%nat, 1);
  (COMMON_SizeOfOptionalHeader, 2%nat, 168);
  (24, 2%nat, EFI_IMAGE_NT_OPTIONAL_HDR64_MAGIC);
  (NT64_SectionAlignment, 4%nat, 16); (NT64_SizeOfHeaders, 4%nat, 232);
  (NT64_Subsystem, 2%nat, 11); (NT64_NumberOfRvaAndSizes, 4%nat, 7);
  (176, 4%nat, 512); (180, 4%nat, 12);
  (204, 4%nat, 0x1000); (212, 4%nat, 0x1000)].

Definition gap_file : list Z := build_file 240 gap_fields.

Lemma gap_file_bytes : bytes gap_file.
Proof. apply build_file_bytes. Qed.

(** An image whose resource directory ends at the end of the image: its "HII"
    entry names a sub-directory eight bytes before that end. *)
Definition hii_fields : list (Z * nat * Z) := [
  (0, 4%nat, EFI_IMAGE_NT_SIGNATURE);
  (COMMON_Machine, 2%nat, 0x8664); (COMMON_NumberOfSections, 2%nat, 1);
  (COMMON_SizeOfOptionalHeader, 2%nat, 168);
  (24, 2%nat, EFI_IMAGE_NT_OPTIONAL_HDR64_MAGIC);
  (NT64_SectionAlignment, 4%nat, 16); (NT64_SizeOfHeaders, 4%nat, 240);
  (NT64_Subsystem, 2%nat, 11); (NT64_NumberOfRvaAndSizes, 4%nat, 7);
  (152, 4%nat, 240); (156, 4%nat, 48);
  (200, 4%nat, 48); (204, 4%nat, 240); (208, 4%nat, 48); (212, 4%nat, 240);
  (228, 4%nat, 0x40000000);
  (252, 2%nat, 1); (256, 4%nat, 0x80000018); (260, 4%nat, 0x80000028);
  (264, 2%nat, 3); (266, 2%nat, 0x48); (268, 2%nat, 0x49); (270, 2%nat, 0x49)].

Definition hii_file : list Z := build_file 288 hii_fields.

Lemma hii_file_bytes : bytes hii_file.
Proof. apply build_file_bytes. Qed.
