(* ===== verification/PeCoffInit.v ===== *)
(** PeCoffInit.c: verification of a PE32 or PE32+ image and initialisation of
    its context.  [File] is the contents of FileBuffer.  The state is the
    context; a failing function leaves it as the C code does.  The functions
    longer than a screen are split at their comments; [InternalVerifySections]
    and [InternalInitializePe] compose the parts in the order of the source. *)
From S2P Require Import Prelude Base Buffer Overflow PeImage PeSample.

Abbreviation InitM := (M PE_COFF_LOADER_IMAGE_CONTEXT).

Section Init.
Context `{!Platform, !OverflowLib} (File : list Z).

(** Unaligned sections are not permitted. *)
Definition strict_sections : bool :=
  bit_clear PcdImageLoaderAlignmentPolicy PCD_ALIGNMENT_POLICY_CONTIGUOUS_SECTIONS.

(** ** InternalVerifySections *)

(** The RVA at which the first section may start. *)
Definition VerifySections_StartAddress : InitM Z :=
  c ← getS;
  Va0 ← Sections File c 0 SECT_VirtualAddress;
  if Va0 =? 0 then mret 0
  else if strict_sections then
    let '(Overflow, NextSectRva) := ovf_align_up_u32 (SizeOfHeaders c) (SectionAlignment c) in
    fail_if Overflow RETURN_VOLUME_CORRUPTED;;
    mret NextSectRva
  else mret (SizeOfHeaders c).

(** W^X: a section must not be both writable and executable. *)
Definition VerifySection_WXorX (SectionIndex : Z) : InitM unit :=
  c ← getS;
  if PcdImageLoaderWXorX && negb PcdImageLoaderRemoveXForWX then
    Chars ← Sections File c SectionIndex SECT_Characteristics;
    let WX := Z.lor EFI_IMAGE_SCN_MEM_EXECUTE EFI_IMAGE_SCN_MEM_WRITE in
    fail_if (Z.land Chars WX =? WX) RETURN_VOLUME_CORRUPTED
  else mret tt.

(** Sections are adjacent (strict) or disjoint and ascending (relaxed); in the
    relaxed mode the alignment of the image falls back to what the section has. *)
Definition VerifySection_Address (SectionIndex NextSectRva : Z) : InitM unit :=
  c ← getS;
  Va ← Sections File c SectionIndex SECT_VirtualAddress;
  if strict_sections then
    fail_if (negb (Va =? NextSectRva)) RETURN_VOLUME_CORRUPTED
  else
    fail_if (Va <? NextSectRva) RETURN_VOLUME_CORRUPTED;;
    if negb (IS_ALIGNED Va (SectionAlignment c)) then
      modify (set_SectionAlignment
        (if IS_ALIGNED Va RUNTIME_PAGE_ALLOCATION_GRANULARITY then
           RUNTIME_PAGE_ALLOCATION_GRANULARITY
         else if (DEFAULT_PAGE_ALLOCATION_GRANULARITY <? RUNTIME_PAGE_ALLOCATION_GRANULARITY)
                 && IS_ALIGNED Va DEFAULT_PAGE_ALLOCATION_GRANULARITY then
           DEFAULT_PAGE_ALLOCATION_GRANULARITY
         else 1))
    else mret tt.

(** The raw data of a section lies in the file. *)
Definition VerifySection_RawData (FileSize_ SectionIndex : Z) : InitM unit :=
  c ← getS;
  RawSize ← Sections File c SectionIndex SECT_SizeOfRawData;
  if 0 <? RawSize then
    RawPtr ← Sections File c SectionIndex SECT_PointerToRawData;
    let '(Overflow, SectRawEnd) := ovf_add_u32 RawPtr RawSize in
    fail_if Overflow RETURN_VOLUME_CORRUPTED;;
    fail_if (FileSize_ <? SectRawEnd) RETURN_VOLUME_CORRUPTED
  else mret tt.

(** The end of the section, where the next one may start. *)
Definition VerifySection_End (SectionIndex : Z) : InitM Z :=
  c ← getS;
  Va ← Sections File c SectionIndex SECT_VirtualAddress;
  VSize ← Sections File c SectionIndex SECT_VirtualSize;
  let '(Overflow, NextSectRva) := ovf_add_u32 Va VSize in
  fail_if Overflow RETURN_VOLUME_CORRUPTED;;
  if strict_sections then
    let '(Overflow, NextSectRva) := ovf_align_up_u32 NextSectRva (SectionAlignment c) in
    fail_if Overflow RETURN_VOLUME_CORRUPTED;;
    mret NextSectRva
  else mret NextSectRva.

(** The body of the loop over the sections; the loop carries NextSectRva. *)
Definition VerifySection (FileSize_ SectionIndex NextSectRva : Z) : InitM Z :=
  VerifySection_WXorX SectionIndex;;
  VerifySection_Address SectionIndex NextSectRva;;
  VerifySection_RawData FileSize_ SectionIndex;;
  VerifySection_End SectionIndex.

(** BaseOverflowAlignUpU32 (NextSectRva, Context->SectionAlignment,
    &Context->SizeOfImage): the size is stored even when it overflows. *)
Definition AlignSizeOfImage (NextSectRva Alignment : Z) : InitM bool :=
  let '(Overflow, Aligned) := ovf_align_up_u32 NextSectRva Alignment in
  modify (set_SizeOfImage Aligned);;
  mret Overflow.

Definition VerifySections_SizeOfImage (NextSectRva : Z) : InitM unit :=
  if strict_sections then modify (set_SizeOfImage NextSectRva)
  else
    c ← getS;
    Overflow ← AlignSizeOfImage NextSectRva (SectionAlignment c);
    if (Overflow : bool) then
      modify (set_SectionAlignment RUNTIME_PAGE_ALLOCATION_GRANULARITY);;
      Overflow ← AlignSizeOfImage NextSectRva RUNTIME_PAGE_ALLOCATION_GRANULARITY;
      Overflow ←
        (if (DEFAULT_PAGE_ALLOCATION_GRANULARITY <? RUNTIME_PAGE_ALLOCATION_GRANULARITY)
            && Overflow then
           modify (set_SectionAlignment DEFAULT_PAGE_ALLOCATION_GRANULARITY);;
           AlignSizeOfImage NextSectRva DEFAULT_PAGE_ALLOCATION_GRANULARITY
         else mret Overflow);
      if (Overflow : bool) then modify (set_SectionAlignment 1) else mret tt
    else mret tt.

(** Returns StartAddress. *)
Definition InternalVerifySections (FileSize_ : Z) : InitM Z :=
  c ← getS;
  ASSERT (IS_POW2 (SectionAlignment c));;
  fail_if (NumberOfSections c =? 0) RETURN_VOLUME_CORRUPTED;;
  StartAddress ← VerifySections_StartAddress;
  NextSectRva ← for_loop (Z.to_nat (NumberOfSections c)) 0 (VerifySection FileSize_) StartAddress;
  VerifySections_SizeOfImage NextSectRva;;
  mret StartAddress.

(** ** InternalValidateRelocInfo *)

Definition InternalValidateRelocInfo (StartAddress : Z) : InitM unit :=
  c ← getS;
  ASSERT (negb (RelocsStripped c) || (RelocDirSize c =? 0));;
  (if negb (RelocDirSize c =? 0) then
     fail_if (RelocDirSize c <? SIZEOF_EFI_IMAGE_BASE_RELOCATION_BLOCK) RETURN_VOLUME_CORRUPTED;;
     fail_if (RelocDirRva c <? StartAddress) RETURN_VOLUME_CORRUPTED;;
     let '(Overflow, SectRvaEnd) := ovf_add_u32 (RelocDirRva c) (RelocDirSize c) in
     fail_if (Overflow || (SizeOfImage c <? SectRvaEnd)) RETURN_VOLUME_CORRUPTED;;
     fail_if (negb (IS_ALIGNED (RelocDirRva c) ALIGNOF_EFI_IMAGE_BASE_RELOCATION_BLOCK))
       RETURN_VOLUME_CORRUPTED
   else mret tt);;
  fail_if (negb (IS_ALIGNED (ImageBase c) (SectionAlignment c))) RETURN_VOLUME_CORRUPTED.

(** ** InternalInitializePe *)

(** The local variables the switch on the optional header assigns: the file
    offsets RelocDir and SecDir point to, and two sizes. *)
Record optional_header := {
  RelocDir : Z;
  SecDir : Z;
  NumberOfRvaAndSizes : Z;
  HdrSizeWithoutDataDir : Z;
}.

Definition set_optional_fields (Type_ : PE_COFF_LOADER_IMAGE_TYPE)
    (Subsystem_ SizeOfHeaders_ ImageBase_ Entry_ Alignment_ : Z) : InitM unit :=
  modify (set_ImageType Type_);;
  modify (set_Subsystem Subsystem_);;
  modify (set_SizeOfHeaders SizeOfHeaders_);;
  modify (set_ImageBase ImageBase_);;
  modify (set_AddressOfEntryPoint Entry_);;
  modify (set_SectionAlignment Alignment_).

Definition InitializePe_Pe32 (FileSize_ : Z) : InitM optional_header :=
  c ← getS;
  let Hdr := ExeHdrOffset c in
  fail_if (wrap 32 (FileSize_ - Hdr) <? SIZEOF_EFI_IMAGE_NT_HEADERS32) RETURN_VOLUME_CORRUPTED;;
  Subsystem_ ← rd 2 File (Hdr + NT32_Subsystem);
  SizeOfHeaders_ ← rd 4 File (Hdr + NT32_SizeOfHeaders);
  ImageBase_ ← rd 4 File (Hdr + NT32_ImageBase);
  Entry_ ← rd 4 File (Hdr + NT32_AddressOfEntryPoint);
  Alignment_ ← rd 4 File (Hdr + NT32_SectionAlignment);
  set_optional_fields PeCoffLoaderTypePe32 Subsystem_ SizeOfHeaders_ ImageBase_ Entry_ Alignment_;;
  NumberOfRvaAndSizes_ ← rd 4 File (Hdr + NT32_NumberOfRvaAndSizes);
  mret {| RelocDir := DataDirectory32 Hdr EFI_IMAGE_DIRECTORY_ENTRY_BASERELOC;
          SecDir := DataDirectory32 Hdr EFI_IMAGE_DIRECTORY_ENTRY_SECURITY;
          NumberOfRvaAndSizes := NumberOfRvaAndSizes_;
          HdrSizeWithoutDataDir :=
            SIZEOF_EFI_IMAGE_NT_HEADERS32 - SIZEOF_EFI_IMAGE_NT_HEADERS_COMMON_HDR |}.

Definition InitializePe_Pe32Plus (FileSize_ : Z) : InitM optional_header :=
  c ← getS;
  let Hdr := ExeHdrOffset c in
  fail_if (wrap 32 (FileSize_ - Hdr) <? SIZEOF_EFI_IMAGE_NT_HEADERS64) RETURN_VOLUME_CORRUPTED;;
  fail_if (negb PcdImageLoaderAllowMisalignedOffset && negb (IS_ALIGNED Hdr ALIGNOF_UINT64))
    RETURN_VOLUME_CORRUPTED;;
  Subsystem_ ← rd 2 File (Hdr + NT64_Subsystem);
  SizeOfHeaders_ ← rd 4 File (Hdr + NT64_SizeOfHeaders);
  ImageBase_ ← rd 8 File (Hdr + NT64_ImageBase);
  Entry_ ← rd 4 File (Hdr + NT64_AddressOfEntryPoint);
  Alignment_ ← rd 4 File (Hdr + NT64_SectionAlignment);
  set_optional_fields PeCoffLoaderTypePe32Plus Subsystem_ SizeOfHeaders_ ImageBase_ Entry_ Alignment_;;
  NumberOfRvaAndSizes_ ← rd 4 File (Hdr + NT64_NumberOfRvaAndSizes);
  mret {| RelocDir := DataDirectory64 Hdr EFI_IMAGE_DIRECTORY_ENTRY_BASERELOC;
          SecDir := DataDirectory64 Hdr EFI_IMAGE_DIRECTORY_ENTRY_SECURITY;
          NumberOfRvaAndSizes := NumberOfRvaAndSizes_;
          HdrSizeWithoutDataDir :=
            SIZEOF_EFI_IMAGE_NT_HEADERS64 - SIZEOF_EFI_IMAGE_NT_HEADERS_COMMON_HDR |}.

Definition InitializePe_OptionalHeader (FileSize_ : Z) : InitM optional_header :=
  c ← getS;
  Magic ← rd 2 File (ExeHdrOffset c + SIZEOF_EFI_IMAGE_NT_HEADERS_COMMON_HDR);
  if Magic =? EFI_IMAGE_NT_OPTIONAL_HDR32_MAGIC then InitializePe_Pe32 FileSize_
  else if Magic =? EFI_IMAGE_NT_OPTIONAL_HDR64_MAGIC then InitializePe_Pe32Plus FileSize_
  else raise RETURN_UNSUPPORTED.

(** The image protection policy.  Shifting 1U by 32 or more is undefined in C. *)
Definition InitializePe_ProtectionPolicy (ImageOrigin : Z) : InitM unit :=
  c ← getS;
  if SectionAlignment c <? EFI_PAGE_SIZE then
    let Policy := PcdImageProtectionPolicy in
    require ((0 <=? ImageOrigin) && (ImageOrigin <? 32)) UndefinedBehaviour;;
    if negb (Z.land Policy (Z.shiftl 1 ImageOrigin) =? 0) then
      if negb (Z.land Policy PCD_IMAGE_PROTECTION_POLICY_FV_STOP_BOOT =? 0)
         && (ImageOrigin =? UefiImageOriginFv)
      then raise RETURN_SECURITY_VIOLATION
      else raise RETURN_NOT_STARTED
    else mret tt
  else mret tt.

(** The sizes of the headers, and the fields of the common header. *)
Definition InitializePe_HeaderSizes (FileSize_ : Z) (h : optional_header) : InitM unit :=
  c ← getS;
  let Hdr := ExeHdrOffset c in
  SizeOfOptionalHeader ← rd 2 File (Hdr + COMMON_SizeOfOptionalHeader);
  let '(Overflow, SectionsOffset_) :=
    ovf_add_u32 (wrap 32 (Hdr + SIZEOF_EFI_IMAGE_NT_HEADERS_COMMON_HDR)) SizeOfOptionalHeader in
  modify (set_SectionsOffset SectionsOffset_);;
  fail_if Overflow RETURN_VOLUME_CORRUPTED;;
  fail_if (negb PcdImageLoaderAllowMisalignedOffset
             && negb (IS_ALIGNED SectionsOffset_ ALIGNOF_EFI_IMAGE_SECTION_HEADER))
    RETURN_VOLUME_CORRUPTED;;
  let MinSizeOfOptionalHeader :=
    wrap 32 (HdrSizeWithoutDataDir h + NumberOfRvaAndSizes h * SIZEOF_EFI_IMAGE_DATA_DIRECTORY) in
  ASSERT (HdrSizeWithoutDataDir h <=? MinSizeOfOptionalHeader);;
  NumberOfSections_ ← rd 2 File (Hdr + COMMON_NumberOfSections);
  let '(Overflow, MinSizeOfHeaders) :=
    ovf_add_u32 SectionsOffset_ (wrap 32 (NumberOfSections_ * SIZEOF_EFI_IMAGE_SECTION_HEADER)) in
  fail_if Overflow RETURN_VOLUME_CORRUPTED;;
  fail_if (SizeOfOptionalHeader <? MinSizeOfOptionalHeader) RETURN_VOLUME_CORRUPTED;;
  fail_if (SizeOfHeaders c <? MinSizeOfHeaders) RETURN_VOLUME_CORRUPTED;;
  fail_if (FileSize_ <? SizeOfHeaders c) RETURN_VOLUME_CORRUPTED;;
  Machine_ ← rd 2 File (Hdr + COMMON_Machine);
  FileChars ← rd 2 File (Hdr + COMMON_Characteristics);
  modify (set_NumberOfSections NumberOfSections_);;
  modify (set_Machine Machine_);;
  modify (set_RelocsStripped (negb (Z.land FileChars EFI_IMAGE_FILE_RELOCS_STRIPPED =? 0))).

Definition InitializePe_RelocDir (h : optional_header) : InitM unit :=
  c ← getS;
  if EFI_IMAGE_DIRECTORY_ENTRY_BASERELOC <? NumberOfRvaAndSizes h then
    Rva ← rd 4 File (RelocDir h + DIR_VirtualAddress);
    Size ← rd 4 File (RelocDir h + DIR_Size);
    modify (set_RelocDirRva Rva);;
    modify (set_RelocDirSize Size);;
    fail_if (RelocsStripped c && negb (Size =? 0)) RETURN_VOLUME_CORRUPTED
  else
    ASSERT (RelocDirRva c =? 0);;
    ASSERT (RelocDirSize c =? 0).

Definition InitializePe_SecDir (FileSize_ : Z) (h : optional_header) : InitM unit :=
  c ← getS;
  if EFI_IMAGE_DIRECTORY_ENTRY_SECURITY <? NumberOfRvaAndSizes h then
    Offset ← rd 4 File (SecDir h + DIR_VirtualAddress);
    Size ← rd 4 File (SecDir h + DIR_Size);
    modify (set_SecDirOffset Offset);;
    modify (set_SecDirSize Size);;
    let '(Overflow, SecDirEnd) := ovf_add_u32 Offset Size in
    fail_if (Overflow || (FileSize_ <? SecDirEnd)) RETURN_VOLUME_CORRUPTED;;
    fail_if (negb (IS_ALIGNED Offset IMAGE_CERTIFICATE_ALIGN)) RETURN_VOLUME_CORRUPTED;;
    fail_if (negb (Size =? 0)
               && (negb (IS_ALIGNED Size IMAGE_CERTIFICATE_ALIGN)
                     || (Size <? SIZEOF_WIN_CERTIFICATE)))
      RETURN_VOLUME_CORRUPTED
  else
    ASSERT (SecDirOffset c =? 0);;
    ASSERT (SecDirSize c =? 0).

Definition InternalInitializePe (FileSize_ ImageOrigin : Z) : InitM unit :=
  c ← getS;
  ASSERT (SIZEOF_EFI_IMAGE_NT_HEADERS_COMMON_HDR + 2 <=? wrap 32 (FileSize_ - ExeHdrOffset c));;
  (if negb PcdImageLoaderAllowMisalignedOffset then
     ASSERT (IS_ALIGNED (ExeHdrOffset c) ALIGNOF_EFI_IMAGE_NT_HEADERS_COMMON_HDR)
   else mret tt);;
  h ← InitializePe_OptionalHeader FileSize_;
  fail_if (EFI_IMAGE_NUMBER_OF_DIRECTORY_ENTRIES <? NumberOfRvaAndSizes h) RETURN_VOLUME_CORRUPTED;;
  c ← getS;
  fail_if (negb (IS_POW2 (SectionAlignment c))) RETURN_VOLUME_CORRUPTED;;
  InitializePe_ProtectionPolicy ImageOrigin;;
  InitializePe_HeaderSizes FileSize_ h;;
  InitializePe_RelocDir h;;
  InitializePe_SecDir FileSize_ h;;
  StartAddress ← InternalVerifySections FileSize_;
  c ← getS;
  fail_if (SizeOfImage c <=? AddressOfEntryPoint c) RETURN_VOLUME_CORRUPTED;;
  InternalValidateRelocInfo StartAddress.

(** ** PeCoffInitializeContext *)

(** A DOS header in front of the PE header, when there is one. *)
Definition InitializeContext_DosHeader (FileSize_ : Z) : InitM unit :=
  IsDos ← (if SIZEOF_EFI_IMAGE_DOS_HEADER <=? FileSize_ then
             Magic ← rd 2 File 0; mret (Magic =? EFI_IMAGE_DOS_SIGNATURE)
           else mret false);
  if (IsDos : bool) then
    e_lfanew ← rd 4 File DOS_e_lfanew;
    fail_if ((e_lfanew <? SIZEOF_EFI_IMAGE_DOS_HEADER) || (FileSize_ <? e_lfanew))
      RETURN_VOLUME_CORRUPTED;;
    modify (set_ExeHdrOffset e_lfanew);;
    fail_if (negb PcdImageLoaderAllowMisalignedOffset
               && negb (IS_ALIGNED e_lfanew ALIGNOF_EFI_IMAGE_NT_HEADERS_COMMON_HDR))
      RETURN_UNSUPPORTED
  else mret tt.

Definition PeCoffInitializeContext (FileSize_ ImageOrigin : Z) : InitM unit :=
  modify (λ _, zero_context);;
  modify (set_FileSize FileSize_);;
  InitializeContext_DosHeader FileSize_;;
  c ← getS;
  fail_if (wrap 32 (FileSize_ - ExeHdrOffset c)
             <? SIZEOF_EFI_IMAGE_NT_HEADERS_COMMON_HDR + 2) RETURN_UNSUPPORTED;;
  Signature ← rd 4 File (ExeHdrOffset c);
  fail_if (negb (Signature =? EFI_IMAGE_NT_SIGNATURE)) RETURN_UNSUPPORTED;;
  InternalInitializePe FileSize_ ImageOrigin.
End Init.

(** ** What a verified image satisfies

    The constraints of BasePeCoffLib2/Documentation.md (image section table
    well-formedness) and of the comments of PeCoffInit.c, as a predicate on the
    raw file and the context. *)

(** sizeof of the NT header of the image's type. *)
Definition nt_header_size (t : PE_COFF_LOADER_IMAGE_TYPE) : Z :=
  match t with
  | PeCoffLoaderTypePe32 => SIZEOF_EFI_IMAGE_NT_HEADERS32
  | PeCoffLoaderTypePe32Plus => SIZEOF_EFI_IMAGE_NT_HEADERS64
  end.

(** NumberOfRvaAndSizes is the last field of both headers. *)
Definition num_dirs (File : list Z) (c : PE_COFF_LOADER_IMAGE_CONTEXT) : Z :=
  load 4 File (ExeHdrOffset c + nt_header_size (ImageType c) - 4).

Definition dir_offset (c : PE_COFF_LOADER_IMAGE_CONTEXT) (n : Z) : Z :=
  ExeHdrOffset c + nt_header_size (ImageType c) + n * SIZEOF_EFI_IMAGE_DATA_DIRECTORY.

(** The memory range of a section ends here. *)
Definition section_end (File : list Z) (c : PE_COFF_LOADER_IMAGE_CONTEXT) (i : Z) : Z :=
  VirtualAddress File c i + VirtualSize File c i.

Definition write_execute (chars : Z) : bool :=
  let WX := Z.lor EFI_IMAGE_SCN_MEM_EXECUTE EFI_IMAGE_SCN_MEM_WRITE in
  Z.land chars WX =? WX.

(** The headers are consistent and inside the file. *)
Record HeadersOk (File : list Z) (c : PE_COFF_LOADER_IMAGE_CONTEXT) : Prop := {
  hdr_file_size : FileSize c = size File;
  hdr_file_u32 : u32 (FileSize c);
  hdr_exe : 0 <= ExeHdrOffset c;
  hdr_num_dirs : 0 <= num_dirs File c <= EFI_IMAGE_NUMBER_OF_DIRECTORY_ENTRIES;
  hdr_dirs : dir_offset c (num_dirs File c) <= SectionsOffset c;
  hdr_table : SectionsOffset c + NumberOfSections c * SIZEOF_EFI_IMAGE_SECTION_HEADER
                <= SizeOfHeaders c;
  hdr_size : SizeOfHeaders c <= FileSize c;
  hdr_nsections : u16 (NumberOfSections c);
  hdr_base : u64 (ImageBase c);
  hdr_entry : u32 (AddressOfEntryPoint c);
}.

(** The section table is well-formed. *)
Record SectionsOk `{!Platform} (File : list Z) (c : PE_COFF_LOADER_IMAGE_CONTEXT) : Prop := {
  sec_nonempty : 0 < NumberOfSections c;
  sec_pow2 : IS_POW2 (SectionAlignment c) = true;
  sec_align_u32 : u32 (SectionAlignment c);
  sec_image_u32 : u32 (SizeOfImage c);
  sec_first : VirtualAddress File c 0 = 0 ∨ SizeOfHeaders c <= VirtualAddress File c 0;
  sec_disjoint i j : 0 <= i < j → j < NumberOfSections c →
    section_end File c i <= VirtualAddress File c j;
  sec_in_image i : 0 <= i < NumberOfSections c → section_end File c i <= SizeOfImage c;
  sec_in_file i : 0 <= i < NumberOfSections c → 0 < SizeOfRawData File c i →
    PointerToRawData File c i + SizeOfRawData File c i <= FileSize c;
  sec_aligned i : 0 <= i < NumberOfSections c → (SectionAlignment c | VirtualAddress File c i);
  sec_image_aligned : (SectionAlignment c | SizeOfImage c);
  sec_wx i : PcdImageLoaderWXorX = true → PcdImageLoaderRemoveXForWX = false →
    0 <= i < NumberOfSections c → write_execute (Characteristics File c i) = false;
  sec_adjacent i : strict_sections = true → 0 <= i < NumberOfSections c →
    align_up (section_end File c i) (SectionAlignment c) =
      if i + 1 <? NumberOfSections c then VirtualAddress File c (i + 1) else SizeOfImage c;
  sec_adjacent_first : strict_sections = true → VirtualAddress File c 0 ≠ 0 →
    VirtualAddress File c 0 = align_up (SizeOfHeaders c) (SectionAlignment c);
}.

(** The directories and the entry point are inside the image or the file. *)
Record DirectoriesOk `{!Platform} (File : list Z) (c : PE_COFF_LOADER_IMAGE_CONTEXT) : Prop := {
  dir_entry_point : AddressOfEntryPoint c < SizeOfImage c;
  dir_base_aligned : (SectionAlignment c | ImageBase c);
  dir_reloc_u32 : u32 (RelocDirRva c) ∧ u32 (RelocDirSize c);
  dir_reloc_stripped : RelocsStripped c = true → RelocDirSize c = 0;
  dir_reloc : RelocDirSize c ≠ 0 →
    SIZEOF_EFI_IMAGE_BASE_RELOCATION_BLOCK <= RelocDirSize c ∧
    RelocDirRva c + RelocDirSize c <= SizeOfImage c ∧
    (ALIGNOF_EFI_IMAGE_BASE_RELOCATION_BLOCK | RelocDirRva c) ∧
    (VirtualAddress File c 0 = 0 ∨ SizeOfHeaders c <= RelocDirRva c) ∧
    (strict_sections = true → VirtualAddress File c 0 <= RelocDirRva c);
  dir_sec_u32 : u32 (SecDirOffset c) ∧ u32 (SecDirSize c);
  dir_sec_in_file : SecDirOffset c + SecDirSize c <= FileSize c;
  dir_sec_aligned : (IMAGE_CERTIFICATE_ALIGN | SecDirOffset c) ∧
                    (IMAGE_CERTIFICATE_ALIGN | SecDirSize c);
  dir_sec_size : SecDirSize c = 0 ∨ SIZEOF_WIN_CERTIFICATE <= SecDirSize c;
  dir_sec_header : SecDirSize c =
    if EFI_IMAGE_DIRECTORY_ENTRY_SECURITY <? num_dirs File c
    then load 4 File (dir_offset c EFI_IMAGE_DIRECTORY_ENTRY_SECURITY + DIR_Size) else 0;
}.

Definition WellFormed `{!Platform} (File : list Z) (c : PE_COFF_LOADER_IMAGE_CONTEXT) : Prop :=
  HeadersOk File c ∧ SectionsOk File c ∧ DirectoriesOk File c ∧ ImageBuffer c = ImageNull.

(** ** The section table *)

Lemma set_SectionAlignment_id c : c = set_SectionAlignment (SectionAlignment c) c.
Proof. by destruct c. Qed.

Section SectionTable.
Context `{!Platform, !PlatformOk, !OverflowLib} (File : list Z) (Hfile : bytes File).
Implicit Types c : PE_COFF_LOADER_IMAGE_CONTEXT.

(** The table lies in the file. *)
Definition table_in_file c : Prop :=
  0 <= SectionsOffset c ∧
  SectionsOffset c + NumberOfSections c * SIZEOF_EFI_IMAGE_SECTION_HEADER <= size File.

Lemma section_field_bounds c i f :
  table_in_file c → 0 <= i < NumberOfSections c →
  0 <= f → f + 4 <= SIZEOF_EFI_IMAGE_SECTION_HEADER →
  0 <= section_field c i f ∧ section_field c i f + 4 <= size File.
Proof. unfold table_in_file, section_field, SIZEOF_EFI_IMAGE_SECTION_HEADER. lia. Qed.

Lemma wp_Sections {S c i f} (Q : Z → S → Prop) E s :
  table_in_file c → 0 <= i < NumberOfSections c →
  0 <= f → f + 4 <= SIZEOF_EFI_IMAGE_SECTION_HEADER →
  (u32 (load 4 File (section_field c i f)) → Q (load 4 File (section_field c i f)) s) →
  wp (Sections File c i f) Q E s.
Proof.
  intros Ht Hi Hf0 Hf1 HQ. destruct (section_field_bounds c i f Ht Hi Hf0 Hf1).
  apply wp_rd; [lia..|]. auto with buffers.
Qed.

(** The alignment the image falls back to divides the one it had. *)
Lemma fallback_alignment Va a g :
  u32 a → IS_POW2 a = true → u32 g → IS_POW2 g = true →
  IS_ALIGNED Va a = false → IS_ALIGNED Va g = true → (g | a) ∧ (g | Va).
Proof.
  intros [Ha0 _] Hpa [Hg0 _] Hpg Hna Hg. apply IS_ALIGNED_spec in Hg; [|done..].
  split; [|done]. apply pow2_divide; try done.
  destruct (decide (g <= a)) as [|Hlt]; [done|exfalso].
  assert (a | Va) as Hd.
  { transitivity g; [|done]. apply pow2_divide; done || lia. }
  apply IS_ALIGNED_spec in Hd; [by rewrite Hna in Hd|done..].
Qed.

Lemma VerifySection_Address_spec i next c :
  table_in_file c → 0 <= i < NumberOfSections c →
  IS_POW2 (SectionAlignment c) = true → u32 (SectionAlignment c) →
  wp (VerifySection_Address File i next)
    (λ _ c', ∃ a, c' = set_SectionAlignment a c ∧ IS_POW2 a = true ∧ u32 a ∧
       (a | SectionAlignment c) ∧ next <= VirtualAddress File c i ∧
       (strict_sections = false → (a | VirtualAddress File c i)) ∧
       (strict_sections = true → a = SectionAlignment c ∧ VirtualAddress File c i = next))
    (λ _ _, True) c.
Proof.
  intros Ht Hi Hp Hu. unfold VerifySection_Address. wp_step. wp_step. wp_step.
  apply wp_Sections; [done..|]. fold (VirtualAddress File c i). intros HVa. wp_step; wp_step.
  - exists (SectionAlignment c). split_and!; try done; try lia; try congruence.
    apply set_SectionAlignment_id.
  - wp_step. wp_step. wp_step.
    + (* fall back *)
      destruct (IS_ALIGNED (VirtualAddress File c i) (SectionAlignment c)) eqn:Ena; [done|].
      set (a := if IS_ALIGNED _ RUNTIME_PAGE_ALLOCATION_GRANULARITY then _ else _).
      assert (IS_POW2 a = true ∧ u32 a ∧ (a | SectionAlignment c) ∧ (a | VirtualAddress File c i))
        as (? & ? & ? & ?).
      { unfold a. destruct (IS_ALIGNED _ RUNTIME_PAGE_ALLOCATION_GRANULARITY) eqn:E1;
          [|destruct (_ && IS_ALIGNED _ DEFAULT_PAGE_ALLOCATION_GRANULARITY) eqn:E2].
        - destruct (fallback_alignment _ _ _ Hu Hp platform_runtime_u32 platform_runtime_pow2 Ena E1).
          split_and!; try done; apply platform_runtime_pow2 || apply platform_runtime_u32.
        - apply andb_true_iff in E2 as [_ E2].
          destruct (fallback_alignment _ _ _ Hu Hp platform_default_u32 platform_default_pow2 Ena E2).
          split_and!; try done; apply platform_default_pow2 || apply platform_default_u32.
        - split_and!; [done|by compute|apply Z.divide_1_l..]. }
      exists a. split_and!; try done; [lia|congruence..].
    + exists (SectionAlignment c). split_and!; try done; try lia; try congruence.
      * apply set_SectionAlignment_id.
      * intros _. apply IS_ALIGNED_spec; [by destruct Hu|done|].
        by destruct (IS_ALIGNED (VirtualAddress File c i) (SectionAlignment c)).
Qed.

Lemma VerifySection_WXorX_spec i c :
  table_in_file c → 0 <= i < NumberOfSections c →
  wp (VerifySection_WXorX File i)
    (λ _ c', c' = c ∧ (PcdImageLoaderWXorX = true → PcdImageLoaderRemoveXForWX = false →
       write_execute (Characteristics File c i) = false)) (λ _ _, True) c.
Proof.
  intros Ht Hi. unfold VerifySection_WXorX. wp_step. wp_step. wp_step.
  - wp_step. apply wp_Sections; [done..|]. intros _. wp_step. by split.
  - wp_step. split; [done|]. intros HW HX. by rewrite HW, HX in *.
Qed.

Lemma VerifySection_RawData_spec FS i c :
  table_in_file c → 0 <= i < NumberOfSections c →
  wp (VerifySection_RawData File FS i)
    (λ _ c', c' = c ∧ (0 < SizeOfRawData File c i →
       PointerToRawData File c i + SizeOfRawData File c i <= FS)) (λ _ _, True) c.
Proof.
  intros Ht Hi. unfold VerifySection_RawData. wp_step. wp_step. wp_step.
  apply wp_Sections; [done..|]. fold (SizeOfRawData File c i). intros Hs. wp_step.
  - wp_step. apply wp_Sections; [done..|]. fold (PointerToRawData File c i). intros Hr.
    rewrite ovf_add_u32_spec by done. wp_step. wp_step. wp_step.
    split; [done|]. intros _.
    destruct (fits_u 32 _) eqn:F; [|done]. apply fits_u_spec, wrap_small in F. lia.
  - wp_step. split; [done|]. lia.
Qed.

Lemma VerifySection_End_spec i c :
  table_in_file c → 0 <= i < NumberOfSections c →
  IS_POW2 (SectionAlignment c) = true → u32 (SectionAlignment c) →
  wp (VerifySection_End File i)
    (λ next c', c' = c ∧ u32 next ∧ section_end File c i <= next ∧ 0 <= VirtualSize File c i ∧
       next = if strict_sections then align_up (section_end File c i) (SectionAlignment c)
              else section_end File c i)
    (λ _ _, True) c.
Proof.
  intros Ht Hi Hp Hu. unfold VerifySection_End. wp_step. wp_step. wp_step.
  apply wp_Sections; [done..|]. fold (VirtualAddress File c i). intros Hva.
  wp_step. apply wp_Sections; [done..|]. fold (VirtualSize File c i). intros Hvs.
  rewrite ovf_add_u32_spec by done. fold (section_end File c i). wp_step. wp_step.
  destruct (fits_u 32 (section_end File c i)) eqn:F; [|done].
  apply fits_u_spec in F. rewrite wrap_small by done. unfold is_uint in Hvs.
  wp_step.
  - rewrite ovf_align_up_u32_spec by done. wp_step. wp_step.
    destruct (fits_u 32 (align_up _ _)) eqn:F2; [|done].
    apply fits_u_spec in F2. rewrite wrap_small by done. wp_step.
    pose proof (align_up_ge (section_end File c i) (SectionAlignment c)
                  (IS_POW2_pos _ (proj1 Hu) Hp)).
    split_and!; try done; try lia. by case_match.
  - wp_step. split_and!; try done; try lia. by case_match.
Qed.

(** What the loop has established when it reaches section [j]: the sections
    before [j] are verified, end at [next] and are aligned by [a]. *)
Record Verified (FS start : Z) c0 (j next a : Z) : Prop := {
  ver_pow2 : IS_POW2 a = true;
  ver_u32 : u32 a;
  ver_div : (a | SectionAlignment c0);
  ver_next : u32 next;
  ver_start : start <= next;
  ver_initial : j = 0 → next = start;
  ver_from_start i : 0 <= i < j → start <= VirtualAddress File c0 i;
  ver_end i : 0 <= i < j → section_end File c0 i <= next;
  ver_disjoint i k : 0 <= i < k → k < j → section_end File c0 i <= VirtualAddress File c0 k;
  ver_file i : 0 <= i < j → 0 < SizeOfRawData File c0 i →
    PointerToRawData File c0 i + SizeOfRawData File c0 i <= FS;
  ver_wx i : PcdImageLoaderWXorX = true → PcdImageLoaderRemoveXForWX = false →
    0 <= i < j → write_execute (Characteristics File c0 i) = false;
  ver_relaxed i : strict_sections = false → 0 <= i < j → (a | VirtualAddress File c0 i);
  ver_strict : strict_sections = true → a = SectionAlignment c0;
  ver_first : strict_sections = true → 0 < j → VirtualAddress File c0 0 = start;
  ver_adjacent i : strict_sections = true → 0 <= i < j →
    align_up (section_end File c0 i) a =
      if i + 1 <? j then VirtualAddress File c0 (i + 1) else next;
}.

Lemma Verified_start FS start c0 :
  IS_POW2 (SectionAlignment c0) = true → u32 (SectionAlignment c0) → u32 start →
  Verified FS start c0 0 start (SectionAlignment c0).
Proof. intros. constructor; intros; done || lia. Qed.

Lemma Verified_step FS start c0 j next a next' a' :
  0 <= j → Verified FS start c0 j next a →
  IS_POW2 a' = true → u32 a' → (a' | a) → u32 next' →
  next <= VirtualAddress File c0 j → section_end File c0 j <= next' →
  0 <= VirtualSize File c0 j →
  (0 < SizeOfRawData File c0 j →
     PointerToRawData File c0 j + SizeOfRawData File c0 j <= FS) →
  (PcdImageLoaderWXorX = true → PcdImageLoaderRemoveXForWX = false →
     write_execute (Characteristics File c0 j) = false) →
  (strict_sections = false → (a' | VirtualAddress File c0 j)) →
  (strict_sections = true → a' = a ∧ VirtualAddress File c0 j = next ∧
     next' = align_up (section_end File c0 j) a) →
  Verified FS start c0 (j + 1) next' a'.
Proof.
  intros Hj [] ? ? Hd ? Hnext Hend Hvs Hfile' Hwx Hrel Hstr.
  assert (VirtualAddress File c0 j <= section_end File c0 j) by (unfold section_end; lia).
  assert (∀ i, 0 <= i < j + 1 → 0 <= i < j ∨ i = j) as Hlast by lia.
  constructor; try done; try lia.
  - by transitivity a.
  - intros i [?| ->]%Hlast; [auto|lia].
  - intros i [?| ->]%Hlast; [|lia]. etransitivity; [by apply ver_end0|lia].
  - intros i k ? ?. destruct (decide (k = j)) as [->|]; [|apply ver_disjoint0; lia].
    etransitivity; [apply ver_end0|]; lia.
  - intros i [?| ->]%Hlast; auto.
  - intros i ? ? [?| ->]%Hlast; auto.
  - intros i ? [?| ->]%Hlast; [|auto]. transitivity a; auto.
  - intros Hs. destruct (Hstr Hs) as [-> _]. auto.
  - intros Hs _. destruct (Hstr Hs) as (-> & Heq & _). destruct (decide (j = 0)) as [->|].
    + rewrite Heq. auto.
    + apply ver_first0; [done|lia].
  - intros i Hs Hi. destruct (Hstr Hs) as (-> & Heq & Heq'). apply Hlast in Hi as [Hi| ->].
    + rewrite (ver_adjacent0 i Hs Hi). do 2 case_match; try lia.
      replace (i + 1) with j by lia. done.
    + case_match; [lia|done].
Qed.

(** The body of the loop preserves the invariant. *)
Lemma VerifySection_spec FS start c0 j next c :
  table_in_file c0 → 0 <= j < NumberOfSections c0 →
  (∃ a, c = set_SectionAlignment a c0 ∧ Verified FS start c0 j next a) →
  wp (VerifySection File FS j next)
    (λ next' c', ∃ a, c' = set_SectionAlignment a c0 ∧ Verified FS start c0 (j + 1) next' a)
    (λ _ _, True) c.
Proof.
  intros Ht Hj (a & -> & Hv). unfold VerifySection.
  wp_step. eapply wp_mono; [apply VerifySection_WXorX_spec; done| |done]. intros _ ? [-> Hwx].
  wp_step. eapply wp_mono; [apply VerifySection_Address_spec; try done; by destruct Hv| |done].
  intros _ ? (a' & -> & Hp & Hu & Hd & Hnext & Hrel & Hstr).
  wp_step. eapply wp_mono; [apply VerifySection_RawData_spec; done| |done]. intros _ ? [-> Hraw].
  eapply wp_mono; [apply VerifySection_End_spec; done| |done].
  intros next' ? (-> & Hu' & Hend & Hvs & Heq).
  exists a'. split; [done|]. eapply Verified_step; try done; [lia|].
  intros Hs. destruct (Hstr Hs) as [Ha Hva]. split_and!; [done..|].
  rewrite Hs in Heq. cbn in Ha. subst a'. done.
Qed.

Lemma VerifySections_StartAddress_spec c :
  table_in_file c → 0 < NumberOfSections c → u32 (SizeOfHeaders c) →
  IS_POW2 (SectionAlignment c) = true → u32 (SectionAlignment c) →
  wp (VerifySections_StartAddress File)
    (λ start c', c' = c ∧ u32 start ∧
       ((VirtualAddress File c 0 = 0 ∧ start = 0) ∨ SizeOfHeaders c <= start) ∧
       (VirtualAddress File c 0 ≠ 0 → strict_sections = true →
          start = align_up (SizeOfHeaders c) (SectionAlignment c)) ∧
       (strict_sections = true → (SectionAlignment c | start)))
    (λ _ _, True) c.
Proof.
  intros Ht Hn Hh Hp Hu. unfold VerifySections_StartAddress. wp_step. wp_step. wp_step.
  apply wp_Sections; [done|lia|done..|]. fold (VirtualAddress File c 0). intros Hva.
  wp_step; [|wp_step].
  - wp_step. split_and!; try done; try lia. intros _. apply Z.divide_0_r.
  - rewrite ovf_align_up_u32_spec by done. wp_step. wp_step.
    destruct (fits_u 32 _) eqn:F; [|done]. apply fits_u_spec in F. rewrite wrap_small by done.
    wp_step. pose proof (align_up_ge (SizeOfHeaders c) _ (IS_POW2_pos _ (proj1 Hu) Hp)).
    split_and!; try done; [lia|]. intros _. apply align_up_divide.
  - wp_step. split_and!; try done; [lia|congruence..].
Qed.

(** ** The size of the image *)

Lemma align_up_overflow next a :
  u32 next → IS_POW2 a = true → u32 a → fits_u 32 (align_up next a) = false →
  wrap 32 (align_up next a) = 0.
Proof.
  intros Hn Hp Hu F. assert (0 < a) as Ha by (apply IS_POW2_pos; [apply Hu|done]).
  assert (align_up next a <= 2 ^ 32).
  { apply align_up_least; [done| |destruct Hn; lia].
    apply pow2_divide; done || destruct Hu; lia. }
  pose proof (align_up_ge next a Ha). destruct Hn.
  assert (¬ u32 (align_up next a)) as Hnot by (rewrite <- fits_u_spec, F; done).
  unfold is_uint in Hnot. replace (align_up next a) with (2 ^ 32) by lia. done.
Qed.

(** When a smaller alignment does not overflow, it divides the larger one. *)
Lemma align_up_fallback next a g :
  IS_POW2 a = true → u32 a → IS_POW2 g = true → u32 g → u32 next →
  fits_u 32 (align_up next a) = false → fits_u 32 (align_up next g) = true → (g | a).
Proof.
  intros Hpa Hua Hpg Hug Hn Fa Fg.
  assert (0 < a ∧ 0 < g) as [Ha Hg] by (split; apply IS_POW2_pos; first [apply Hua|apply Hug|done]).
  apply pow2_divide; try lia; try done.
  destruct (decide (g <= a)) as [|Hlt]; [done|exfalso].
  apply fits_u_spec in Fg. pose proof (align_up_ge next g Hg). pose proof (align_up_ge next a Ha).
  assert (align_up next a <= align_up next g).
  { apply align_up_least; [done| |lia].
    transitivity g; [apply pow2_divide; done || lia|apply align_up_divide]. }
  assert (¬ u32 (align_up next a)) as Hnot by (rewrite <- fits_u_spec, Fa; done).
  apply Hnot. destruct Fg, Hn. split; lia.
Qed.

(** What [VerifySections_SizeOfImage] establishes of the new size [img] and the
    new alignment [a]: SizeOfImage is 0 when every alignment overflows. *)
Definition image_size_ok c (next img a : Z) : Prop :=
  IS_POW2 a = true ∧ u32 a ∧ (a | SectionAlignment c) ∧ u32 img ∧
  (strict_sections = true → a = SectionAlignment c ∧ img = next) ∧
  (strict_sections = false → img = 0 ∨ (next <= img ∧ (a | img))).

Lemma image_size_relaxed c next a :
  strict_sections = false → IS_POW2 (SectionAlignment c) = true → u32 (SectionAlignment c) →
  IS_POW2 a = true → u32 a → u32 next →
  a = SectionAlignment c ∨ fits_u 32 (align_up next (SectionAlignment c)) = false →
  fits_u 32 (align_up next a) = true → image_size_ok c next (wrap 32 (align_up next a)) a.
Proof.
  intros Hs Hp Hu Hpa Hua Hn Hor F. assert (Hf := F). apply fits_u_spec in Hf.
  pose proof (align_up_ge next a (IS_POW2_pos _ (proj1 Hua) Hpa)).
  rewrite wrap_small by done. unfold image_size_ok. rewrite Hs. split_and!; try done.
  - destruct Hor as [->|]; [done|]. by apply (align_up_fallback next).
  - intros _. right. split; [lia|apply align_up_divide].
Qed.

Lemma image_size_overflow c next a :
  strict_sections = false → IS_POW2 a = true → u32 a → u32 next →
  fits_u 32 (align_up next a) = false → image_size_ok c next (wrap 32 (align_up next a)) 1.
Proof.
  intros Hs Hpa Hua Hn F. rewrite align_up_overflow by done. unfold image_size_ok. rewrite Hs.
  split_and!; auto; try done. apply Z.divide_1_l.
Qed.

Lemma AlignSizeOfImage_run next a c :
  IS_POW2 a = true → u32 a → u32 next →
  AlignSizeOfImage next a c =
    Ok (negb (fits_u 32 (align_up next a))) (set_SizeOfImage (wrap 32 (align_up next a)) c).
Proof. intros. unfold AlignSizeOfImage. by rewrite ovf_align_up_u32_spec. Qed.

Lemma VerifySections_SizeOfImage_spec next c :
  u32 next → IS_POW2 (SectionAlignment c) = true → u32 (SectionAlignment c) →
  wp (VerifySections_SizeOfImage next)
    (λ _ c', ∃ img a, c' = set_SizeOfImage img (set_SectionAlignment a c) ∧
       image_size_ok c next img a)
    (λ _ _, True) c.
Proof.
  intros Hn Hp Hu. unfold VerifySections_SizeOfImage. wp_step.
  { wp_step. exists next, (SectionAlignment c). unfold image_size_ok.
    split_and!; try done; try congruence. }
  wp_step. wp_step. with_strategy transparent [wp] unfold wp.
  unfold mbind, M_bind, modify. rewrite AlignSizeOfImage_run by done.
  destruct (fits_u 32 (align_up next (SectionAlignment c))) eqn:F; cbn.
  { eexists _, (SectionAlignment c). split; [done|]. apply image_size_relaxed; auto. }
  rewrite AlignSizeOfImage_run by first [apply platform_runtime_pow2|apply platform_runtime_u32|done].
  destruct (fits_u 32 (align_up next RUNTIME_PAGE_ALLOCATION_GRANULARITY)) eqn:Fr; cbn.
  { rewrite andb_false_r. cbn. eexists _, RUNTIME_PAGE_ALLOCATION_GRANULARITY. split; [reflexivity|].
    apply image_size_relaxed; auto using platform_runtime_pow2, platform_runtime_u32. }
  rewrite andb_true_r. destruct (_ <? _).
  2: { cbn. eexists _, 1. split; [reflexivity|].
       apply image_size_overflow; auto using platform_runtime_pow2, platform_runtime_u32. }
  rewrite AlignSizeOfImage_run by first [apply platform_default_pow2|apply platform_default_u32|done].
  destruct (fits_u 32 (align_up next DEFAULT_PAGE_ALLOCATION_GRANULARITY)) eqn:Fd; cbn.
  { eexists _, DEFAULT_PAGE_ALLOCATION_GRANULARITY. split; [reflexivity|].
    apply image_size_relaxed; auto using platform_default_pow2, platform_default_u32. }
  eexists _, 1. split; [reflexivity|].
  apply image_size_overflow; auto using platform_default_pow2, platform_default_u32.
Qed.

(** No alignment of at least [g] has room for [next]. *)
Lemma align_up_no_room next a g :
  IS_POW2 a = true → u32 a → u32 next → g <= a → 2 ^ 32 - g < next →
  fits_u 32 (align_up next a) = false.
Proof.
  intros Hp [Ha0 Ha] Hn Hg Hroom. destruct (fits_u 32 (align_up next a)) eqn:F; [|done].
  apply fits_u_spec in F as [_ F]. pose proof (IS_POW2_pos _ Ha0 Hp) as Hpos.
  pose proof (align_up_ge next a Hpos) as Hge.
  assert ((a | 2 ^ 32)) as [q Hq].
  { apply pow2_divide; [lia|done|by vm_compute|lia]. }
  destruct (align_up_divide next a) as [k Hk]. rewrite Hk in *. exfalso.
  assert (k < q) by (apply (Z.mul_lt_mono_pos_r a); lia).
  assert (k * a <= (q - 1) * a) by (apply Z.mul_le_mono_nonneg_r; lia). lia.
Qed.

(** ** The whole section table *)

Lemma strict_all_aligned FS start c0 j next a :
  0 < j → Verified FS start c0 j next a → strict_sections = true → (a | start) →
  (∀ i, 0 <= i < j → (a | VirtualAddress File c0 i)) ∧ (a | next).
Proof.
  intros Hj [] Hs Hstart. split.
  - intros i Hi. destruct (decide (i = 0)) as [->|].
    { by rewrite ver_first0 by (done || lia). }
    specialize (ver_adjacent0 (i - 1) Hs ltac:(lia)). case_match; [|lia].
    replace (i - 1 + 1) with i in ver_adjacent0 by lia. rewrite <- ver_adjacent0.
    apply align_up_divide.
  - specialize (ver_adjacent0 (j - 1) Hs ltac:(lia)). case_match; [lia|].
    rewrite <- ver_adjacent0. apply align_up_divide.
Qed.

Lemma Verified_SectionsOk FS start c0 next a img a' :
  FS = FileSize c0 → 0 < NumberOfSections c0 →
  Verified FS start c0 (NumberOfSections c0) next a →
  image_size_ok (set_SectionAlignment a c0) next img a' →
  ((VirtualAddress File c0 0 = 0 ∧ start = 0) ∨ SizeOfHeaders c0 <= start) →
  (VirtualAddress File c0 0 ≠ 0 → strict_sections = true →
     start = align_up (SizeOfHeaders c0) (SectionAlignment c0)) →
  (strict_sections = true → (SectionAlignment c0 | start)) →
  img ≠ 0 →
  SectionsOk File (set_SizeOfImage img (set_SectionAlignment a' (set_SectionAlignment a c0))).
Proof.
  intros -> Hn Hv (Hp & Hu & Hd & Hi & Hstr & Hrel) Hfirst Hstart Hal Hnz.
  assert (next <= img ∧ (a' | img) ∧
    ∀ i, 0 <= i < NumberOfSections c0 → (a' | VirtualAddress File c0 i)) as (Hle & Hai & Hva).
  { destruct strict_sections eqn:Hs.
    - destruct (Hstr eq_refl) as [-> ->]. ctx_simpl.
      assert (a | start) as Has by (rewrite (ver_strict _ _ _ _ _ _ Hv Hs); auto).
      destruct (strict_all_aligned _ _ _ _ _ _ Hn Hv Hs Has). auto with lia.
    - destruct (Hrel eq_refl) as [|[Hle Hai]]; [done|]. split_and!; [done..|].
      intros i Hi'. transitivity a; [done|]. by apply (ver_relaxed _ _ _ _ _ _ Hv). }
  destruct Hv. constructor; try done.
  - change (VirtualAddress File c0 0 = 0 ∨ SizeOfHeaders c0 <= VirtualAddress File c0 0).
    destruct Hfirst as [[? _]|?]; [by left|right]. specialize (ver_from_start0 0). lia.
  - intros i Hi'. change (section_end File c0 i <= img). specialize (ver_end0 i Hi'). lia.
  - intros i Hs Hi'. destruct (Hstr Hs) as [-> ->]. by apply ver_adjacent0.
  - intros Hs Hva0. destruct (Hstr Hs) as [-> ->].
    change (VirtualAddress File c0 0 = align_up (SizeOfHeaders c0) a).
    rewrite ver_first0, (ver_strict0 Hs) by done. auto.
Qed.

Lemma InternalVerifySections_spec c :
  table_in_file c → u32 (SizeOfHeaders c) → 0 <= NumberOfSections c →
  IS_POW2 (SectionAlignment c) = true → u32 (SectionAlignment c) →
  wp (InternalVerifySections File (FileSize c))
    (λ start c', ∃ img a, c' = set_SizeOfImage img (set_SectionAlignment a c) ∧
       0 <= img ∧ (img ≠ 0 → SectionsOk File c') ∧
       ((VirtualAddress File c 0 = 0 ∧ start = 0) ∨ SizeOfHeaders c <= start) ∧
       (strict_sections = true → start = VirtualAddress File c 0))
    (λ _ _, True) c.
Proof.
  intros Ht Hh Hn0 Hp Hu. unfold InternalVerifySections. wp_step. wp_step.
  wp_step. wp_step; [done|]. wp_step. wp_step.
  wp_step. eapply wp_mono; [apply VerifySections_StartAddress_spec; done || lia| |done].
  intros start ? (-> & Hus & Hfirst & Hstart & Hal).
  wp_step. eapply wp_mono.
  { apply (wp_for_loop (λ j next c', ∃ a, c' = set_SectionAlignment a c ∧
             Verified (FileSize c) start c j next a) (λ _ _, True)).
    - exists (SectionAlignment c). split; [apply set_SectionAlignment_id|by apply Verified_start].
    - intros j next c' Hj Hinv. apply VerifySection_spec; [done|lia|done]. }
  2: done.
  cbn beta. rewrite Z.add_0_l, Z2Nat.id by done. intros next ? (a & -> & Hv).
  wp_step. eapply wp_mono; [apply VerifySections_SizeOfImage_spec; by destruct Hv| |done].
  intros _ ? (img & a' & -> & Himg). wp_step. exists img, a'. split_and!; [done|..].
  - by destruct Himg as (_ & _ & _ & [? _] & _).
  - intros Hnz. eapply Verified_SectionsOk; try done. lia.
  - done.
  - intros Hs. symmetry. apply (ver_first _ _ _ _ _ _ Hv Hs). lia.
Qed.
End SectionTable.

(** ** The headers *)

Section Headers.
Context `{!Platform, !PlatformOk, !OverflowLib} (File : list Z) (Hfile : bytes File).
Implicit Types c : PE_COFF_LOADER_IMAGE_CONTEXT.

(** The local variables agree with the header the context describes. *)
Definition optional_matches c (h : optional_header) : Prop :=
  RelocDir h = dir_offset c EFI_IMAGE_DIRECTORY_ENTRY_BASERELOC ∧
  SecDir h = dir_offset c EFI_IMAGE_DIRECTORY_ENTRY_SECURITY ∧
  NumberOfRvaAndSizes h = num_dirs File c ∧
  HdrSizeWithoutDataDir h = nt_header_size (ImageType c) - SIZEOF_EFI_IMAGE_NT_HEADERS_COMMON_HDR.

(** The fields that only later parts of the function set are still zero. *)
Definition initial_directories c : Prop :=
  RelocDirRva c = 0 ∧ RelocDirSize c = 0 ∧ SecDirOffset c = 0 ∧ SecDirSize c = 0.

(** The executable header fits into the file up to [n] bytes. *)
Definition header_in_file c (n : Z) : Prop :=
  FileSize c = size File ∧ u32 (FileSize c) ∧ 0 <= ExeHdrOffset c ∧
  ExeHdrOffset c + n <= FileSize c.

(** What the switch on the optional header establishes. *)
Definition optional_ok c (h : optional_header) c' : Prop :=
  optional_matches c' h ∧ header_in_file c' (nt_header_size (ImageType c')) ∧
  u32 (SizeOfHeaders c') ∧ u64 (ImageBase c') ∧ u32 (AddressOfEntryPoint c') ∧
  u32 (SectionAlignment c') ∧ ImageBuffer c' = ImageBuffer c ∧
  ExeHdrOffset c' = ExeHdrOffset c ∧
  (initial_directories c → initial_directories c').

Lemma header_wraps c n m :
  header_in_file c n → 0 <= n → (wrap 32 (FileSize c - ExeHdrOffset c) <? m) = false →
  header_in_file c m.
Proof.
  unfold header_in_file, is_uint. intros (? & ? & ? & ?) ?. rewrite wrap_small.
  - lia.
  - unfold is_uint. lia.
Qed.

(** The fields of either optional header are copied to the context. *)
Lemma set_optional_fields_spec c t sub hs b e a (Q : unit → _ → Prop) E :
  Q tt (set_SectionAlignment a (set_AddressOfEntryPoint e (set_ImageBase b
         (set_SizeOfHeaders hs (set_Subsystem sub (set_ImageType t c)))))) →
  wp (set_optional_fields t sub hs b e a) Q E c.
Proof. intros HQ. unfold set_optional_fields. do 5 (wp_step; wp_step). by wp_step. Qed.

Lemma InitializePe_Pe32_spec c n :
  0 <= n → header_in_file c n →
  wp (InitializePe_Pe32 File (FileSize c)) (optional_ok c) (λ _ _, True) c.
Proof.
  intros Hn Hin. unfold InitializePe_Pe32. wp_step. wp_step. wp_step.
  apply wp_fail_if; [done|]. intros Hh. apply (header_wraps _ _ _ Hin Hn) in Hh.
  assert (Hin' := Hh). destruct Hin' as (Hsz & Hu & He & Hend).
  autounfold with pe_layout in Hend.
  do 5 (wp_step; wp_step; [autounfold with pe_layout; lia..|]).
  wp_step. apply set_optional_fields_spec.
  wp_step. wp_step; [autounfold with pe_layout; lia..|]. wp_step.
  unfold optional_ok, optional_matches, header_in_file, initial_directories, num_dirs. ctx_simpl.
  split_and!; try done; auto with buffers.
  - cbn. f_equal. autounfold with pe_layout. lia.
  - apply (is_uint_mono 32); auto with buffers lia.
Qed.

Lemma InitializePe_Pe32Plus_spec c n :
  0 <= n → header_in_file c n →
  wp (InitializePe_Pe32Plus File (FileSize c)) (optional_ok c) (λ _ _, True) c.
Proof.
  intros Hn Hin. unfold InitializePe_Pe32Plus. wp_step. wp_step. wp_step.
  apply wp_fail_if; [done|]. intros Hh. apply (header_wraps _ _ _ Hin Hn) in Hh.
  assert (Hin' := Hh). destruct Hin' as (Hsz & Hu & He & Hend).
  autounfold with pe_layout in Hend. wp_step. wp_step.
  do 5 (wp_step; wp_step; [autounfold with pe_layout; lia..|]).
  wp_step. apply set_optional_fields_spec.
  wp_step. wp_step; [autounfold with pe_layout; lia..|]. wp_step.
  unfold optional_ok, optional_matches, header_in_file, initial_directories, num_dirs. ctx_simpl.
  split_and!; try done; auto with buffers.
  cbn. f_equal. autounfold with pe_layout. lia.
Qed.

Lemma InitializePe_OptionalHeader_spec c :
  header_in_file c (SIZEOF_EFI_IMAGE_NT_HEADERS_COMMON_HDR + 2) →
  wp (InitializePe_OptionalHeader File (FileSize c)) (optional_ok c) (λ _ _, True) c.
Proof.
  intros Hin. assert (Hin' := Hin). destruct Hin' as (Hsz & Hu & He & Hend).
  unfold InitializePe_OptionalHeader. wp_step. wp_step. wp_step.
  autounfold with pe_layout in *. wp_step; [lia..|]. wp_step; [|wp_step; [|by wp_step]].
  - by eapply InitializePe_Pe32_spec; [|done].
  - by eapply InitializePe_Pe32Plus_spec; [|done].
Qed.

(** The header sizes are consistent; only four fields change. *)
Lemma InitializePe_HeaderSizes_spec c h :
  optional_matches c h → header_in_file c (nt_header_size (ImageType c)) →
  0 <= num_dirs File c <= EFI_IMAGE_NUMBER_OF_DIRECTORY_ENTRIES →
  u64 (ImageBase c) → u32 (AddressOfEntryPoint c) →
  wp (InitializePe_HeaderSizes File (FileSize c) h)
    (λ _ c', (∃ b m n so, c' =
       set_RelocsStripped b (set_Machine m (set_NumberOfSections n (set_SectionsOffset so c)))) ∧
       HeadersOk File c')
    (λ _ _, True) c.
Proof.
  intros (_ & _ & Hnum & Hsize) (Hsz & Hu & He & Hend) Hd Hb Hent.
  unfold InitializePe_HeaderSizes. wp_step. wp_step. rewrite Hnum, Hsize.
  set (nt := nt_header_size (ImageType c)) in *.
  assert (SIZEOF_EFI_IMAGE_NT_HEADERS_COMMON_HDR <= nt <= 200) as Hnt.
  { unfold nt. destruct (ImageType c); cbn; autounfold with pe_layout; lia. }
  autounfold with pe_layout in *.
  wp_step. wp_step; [lia..|]. assert (Hso := load_u16 File (ExeHdrOffset c + 20) Hfile).
  set (so := load 2 File (ExeHdrOffset c + 20)) in *. unfold is_uint in *.
  rewrite ovf_add_u32_spec; [|apply wrap_range; lia|unfold is_uint; lia].
  wp_step. wp_step. wp_step. apply wp_fail_if; [done|]. intros Hf1. wp_step. wp_step.
  rewrite (wrap_small 32 (ExeHdrOffset c + 24)) in * by (unfold is_uint; lia).
  rewrite (wrap_small 32 (nt - 24 + _)) in * by (unfold is_uint; lia).
  apply negb_false_iff, fits_u_spec in Hf1. rewrite (wrap_small _ _ Hf1) in *. unfold is_uint in *.
  wp_step. wp_step; [lia|]. wp_step. wp_step; [lia..|].
  assert (Hns := load_u16 File (ExeHdrOffset c + 6) Hfile).
  set (ns := load 2 File (ExeHdrOffset c + 6)) in *. unfold is_uint in *.
  rewrite (wrap_small 32 (ns * 40)) by (unfold is_uint; lia).
  rewrite ovf_add_u32_spec by (unfold is_uint; lia).
  wp_step. apply wp_fail_if; [done|]. intros Hf2%negb_false_iff%fits_u_spec.
  rewrite (wrap_small _ _ Hf2). wp_step. wp_step. wp_step. wp_step. wp_step. wp_step.
  do 2 (wp_step; wp_step; [lia..|]). do 2 (wp_step; wp_step). wp_step.
  split; [by eexists _, _, _, _|]. unfold is_uint in *.
  clearbody so ns. constructor; unfold num_dirs, dir_offset, is_uint, nt in *; ctx_simpl;
    autounfold with pe_layout in *; lia.
Qed.

(** The directories that exist are inside the headers, hence inside the file. *)
Lemma dir_in_file c n :
  HeadersOk File c → 0 <= n < num_dirs File c →
  0 <= dir_offset c n ∧ dir_offset c n + SIZEOF_EFI_IMAGE_DATA_DIRECTORY <= size File.
Proof.
  intros [] Hn. unfold dir_offset, is_uint in *. autounfold with pe_layout in *.
  destruct (ImageType c); cbn in *; autounfold with pe_layout in *; lia.
Qed.

Lemma InitializePe_RelocDir_spec c h :
  optional_matches c h → HeadersOk File c → initial_directories c →
  wp (InitializePe_RelocDir File h)
    (λ _ c', ∃ r s, c' = set_RelocDirSize s (set_RelocDirRva r c) ∧ u32 r ∧ u32 s ∧
       (RelocsStripped c = true → s = 0))
    (λ _ _, True) c.
Proof.
  intros (Hrel & _ & Hnum & _) Hok (Hr & Hs & _). unfold InitializePe_RelocDir.
  rewrite Hrel, Hnum. wp_step. wp_step. wp_step.
  - destruct (dir_in_file c EFI_IMAGE_DIRECTORY_ENTRY_BASERELOC Hok).
    { autounfold with pe_layout in *. lia. }
    do 2 (wp_step; wp_step; [autounfold with pe_layout in *; lia..|]).
    do 2 (wp_step; wp_step). apply wp_fail_if; [done|]. intros Hst.
    eexists _, _. split_and!; [done|auto with buffers..|].
    intros Hb. rewrite Hb in Hst. lia.
  - wp_step. wp_step; [by rewrite Hr|]. wp_step; [by rewrite Hs|].
    exists 0, 0. split_and!; try done. destruct c; ctx_simpl. by subst.
Qed.

Lemma InitializePe_SecDir_spec c h :
  optional_matches c h → HeadersOk File c → SecDirOffset c = 0 → SecDirSize c = 0 →
  wp (InitializePe_SecDir File (FileSize c) h)
    (λ _ c', ∃ o s, c' = set_SecDirSize s (set_SecDirOffset o c) ∧ u32 o ∧ u32 s ∧
       o + s <= FileSize c ∧ (IMAGE_CERTIFICATE_ALIGN | o) ∧ (IMAGE_CERTIFICATE_ALIGN | s) ∧
       (s = 0 ∨ SIZEOF_WIN_CERTIFICATE <= s) ∧
       s = if EFI_IMAGE_DIRECTORY_ENTRY_SECURITY <? num_dirs File c
           then load 4 File (dir_offset c EFI_IMAGE_DIRECTORY_ENTRY_SECURITY + DIR_Size) else 0)
    (λ _ _, True) c.
Proof.
  intros (_ & Hsec & Hnum & _) Hok Ho Hs. unfold InitializePe_SecDir.
  rewrite Hsec, Hnum. wp_step. wp_step. apply wp_if; intros Hlt; rewrite Hlt.
  - destruct (dir_in_file c EFI_IMAGE_DIRECTORY_ENTRY_SECURITY Hok).
    { autounfold with pe_layout in *. lia. }
    do 2 (wp_step; wp_step; [autounfold with pe_layout in *; lia..|]).
    set (o := load 4 File (_ + DIR_VirtualAddress)). set (s := load 4 File (_ + DIR_Size)).
    assert (u32 o ∧ u32 s) as [Hou Hsu] by (split; apply load_u32; done).
    do 2 (wp_step; wp_step). rewrite ovf_add_u32_spec by done.
    wp_step. apply wp_fail_if; [done|]. intros [Hf Hend]%orb_false_iff.
    apply negb_false_iff, fits_u_spec in Hf. rewrite wrap_small in Hend by done.
    wp_step. apply wp_fail_if; [done|]. intros Hao%negb_false_iff.
    apply IS_ALIGNED_spec in Hao; [|done..].
    apply wp_fail_if; [done|]. intros Has. exists o, s. split_and!; try done; [lia|..].
    + destruct (Z.eqb_spec s 0) as [->|]; [apply Z.divide_0_r|].
      apply IS_ALIGNED_spec; [done..|]. by destruct (IS_ALIGNED s IMAGE_CERTIFICATE_ALIGN).
    + destruct (Z.eqb_spec s 0); [by left|right]. cbn in Has.
      apply orb_false_iff in Has as [_ Has]. lia.
  - wp_step. wp_step; [by rewrite Ho|]. wp_step; [by rewrite Hs|].
    exists 0, 0. destruct Hok. unfold is_uint in *. split_and!; try done; try lia.
    + destruct c; ctx_simpl. by subst.
    + apply Z.divide_0_r.
    + apply Z.divide_0_r.
Qed.

Definition reloc_dir_ok (start : Z) c : Prop :=
  RelocDirSize c ≠ 0 →
  SIZEOF_EFI_IMAGE_BASE_RELOCATION_BLOCK <= RelocDirSize c ∧
  start <= RelocDirRva c ∧ RelocDirRva c + RelocDirSize c <= SizeOfImage c ∧
  (ALIGNOF_EFI_IMAGE_BASE_RELOCATION_BLOCK | RelocDirRva c).

Lemma InternalValidateRelocInfo_spec start c :
  u32 (RelocDirRva c) → u32 (RelocDirSize c) → u32 (SectionAlignment c) →
  IS_POW2 (SectionAlignment c) = true → (RelocsStripped c = true → RelocDirSize c = 0) →
  wp (InternalValidateRelocInfo start)
    (λ _ c', c' = c ∧ (SectionAlignment c | ImageBase c) ∧ reloc_dir_ok start c)
    (λ _ _, True) c.
Proof.
  intros Hr Hs Hu Hp Hst. unfold InternalValidateRelocInfo. wp_step. wp_step.
  wp_step. wp_step.
  { destruct (RelocsStripped c); [|done]. by rewrite Hst. }
  wp_step. eapply (wp_mono _ (λ _ c', c' = c ∧ reloc_dir_ok start c)); [| |intros ? ? HE; exact HE].
  2: { intros _ ? [-> HP]. apply wp_fail_if; [done|]. intros Ha%negb_false_iff.
       apply IS_ALIGNED_spec in Ha; [|by destruct Hu|done]. done. }
  unfold reloc_dir_ok. wp_step; [|wp_step; split; [done|]; lia].
  wp_step. wp_step. wp_step. wp_step. rewrite ovf_add_u32_spec by done.
  wp_step. apply wp_fail_if; [done|]. intros [Hf Hend]%orb_false_iff.
  apply negb_false_iff, fits_u_spec in Hf. rewrite wrap_small in Hend by done.
  apply wp_fail_if; [done|]. intros Ha%negb_false_iff. apply IS_ALIGNED_spec in Ha; [|done..].
  split; [done|]. intros _. split_and!; [lia..|done].
Qed.
End Headers.

(** ** The whole function *)

Section Initialize.
Context `{!Platform, !PlatformOk, !OverflowLib} (File : list Z) (Hfile : bytes File).
Implicit Types c : PE_COFF_LOADER_IMAGE_CONTEXT.

(** The image protection policy does not change the context. *)
Lemma InitializePe_ProtectionPolicy_spec o c :
  0 <= o < 32 → wp (InitializePe_ProtectionPolicy o) (λ _ c', c' = c) (λ _ _, True) c.
Proof.
  intros Ho. unfold InitializePe_ProtectionPolicy. wp_step. wp_step. wp_step; [|by wp_step].
  wp_step. wp_step; [lia|]. repeat wp_step; done.
Qed.

Lemma HeadersOk_table c :
  HeadersOk File c → table_in_file File c ∧ u32 (SizeOfHeaders c) ∧ 0 <= NumberOfSections c.
Proof.
  intros []. unfold table_in_file, dir_offset, is_uint in *. autounfold with pe_layout in *.
  destruct (ImageType c); cbn in *; autounfold with pe_layout in *; lia.
Qed.

(** The parts after the headers, which set the directories and the sizes. *)
Lemma InitializePe_tail_spec c h :
  optional_matches File c h → HeadersOk File c → initial_directories c →
  IS_POW2 (SectionAlignment c) = true → u32 (SectionAlignment c) → ImageBuffer c = ImageNull →
  wp (InitializePe_RelocDir File h;;
      InitializePe_SecDir File (FileSize c) h;;
      StartAddress ← InternalVerifySections File (FileSize c);
      c ← getS;
      fail_if (SizeOfImage c <=? AddressOfEntryPoint c) RETURN_VOLUME_CORRUPTED;;
      InternalValidateRelocInfo StartAddress)
    (λ _ c', WellFormed File c') (λ _ _, True) c.
Proof.
  intros Hm Hok Hinit Hp Hu Hnull.
  wp_step. eapply wp_mono; [by apply InitializePe_RelocDir_spec| |done].
  intros _ ? (r & s & -> & Hr & Hs & Hst). set (c1 := set_RelocDirSize s _).
  assert (HeadersOk File c1) as Hok1 by (by destruct Hok; constructor).
  wp_step. eapply wp_mono; [apply (InitializePe_SecDir_spec File Hfile c1); try done; by apply Hinit| |done].
  intros _ ? (so & ss & -> & Hsec). set (c2 := set_SecDirSize ss _).
  assert (HeadersOk File c2) as Hok2 by (by destruct Hok1; constructor).
  destruct (HeadersOk_table c2 Hok2) as (Htab & Hhdr & Hnum).
  wp_step. eapply wp_mono; [by apply (InternalVerifySections_spec File Hfile c2)| |done].
  intros start ? (img & a & -> & Himg & Hsect & Hstart & Hstrict). set (c3 := set_SizeOfImage img _) in *.
  wp_step. wp_step. wp_step. apply wp_fail_if; [done|]. intros Hentry.
  assert (AddressOfEntryPoint c < img) as Hentry' by (cbn in Hentry; lia). clear Hentry.
  assert (u32 (AddressOfEntryPoint c)) as [He0 _] by by destruct Hok.
  assert (SectionsOk File c3) as Hok3 by (apply Hsect; lia).
  eapply wp_mono; [apply InternalValidateRelocInfo_spec; try done; by destruct Hok3| |done].
  intros _ ? (-> & Hbase & Hreloc).
  destruct Hsec as (Hso & Hss & Hse & Hsa1 & Hsa2 & Hss' & Hsh).
  split; [by destruct Hok2; constructor|]. split; [done|]. split; [|done].
  constructor; try done.
  intros Hnz. destruct (Hreloc Hnz) as (? & Hge & ? & ?). split_and!; try done.
  - destruct Hstart as [[? _]|?]; [by left|right]. etransitivity; done.
  - intros Hm'. rewrite (Hstrict Hm') in Hge. done.
Qed.

Lemma InternalInitializePe_spec o c :
  header_in_file File c (SIZEOF_EFI_IMAGE_NT_HEADERS_COMMON_HDR + 2) →
  (PcdImageLoaderAllowMisalignedOffset = false →
     IS_ALIGNED (ExeHdrOffset c) ALIGNOF_EFI_IMAGE_NT_HEADERS_COMMON_HDR = true) →
  initial_directories c → ImageBuffer c = ImageNull → 0 <= o < 32 →
  wp (InternalInitializePe File (FileSize c) o) (λ _ c', WellFormed File c') (λ _ _, True) c.
Proof.
  intros Hin Hal Hinit Hnull Ho. unfold InternalInitializePe. wp_step. wp_step. wp_step. wp_step.
  { destruct Hin as (Hs & [? ?] & ? & ?). autounfold with pe_layout in *.
    rewrite wrap_small; [lia|split; lia]. }
  wp_step. eapply (wp_mono _ (λ _ c', c' = c) _ (λ _ _, True)); [| |done].
  { wp_step; [|by wp_step]. wp_step; [|done]. apply Hal. by apply negb_true_iff. }
  intros _ ? ->. wp_step.
  eapply wp_mono; [by apply InitializePe_OptionalHeader_spec| |done].
  intros h c1 (Hm & Hin1 & Hsh & Hb & He & Ha & Hbuf & Hexe & Hinit1).
  assert (FileSize c = FileSize c1) as -> by (destruct Hin as [-> _], Hin1 as [-> _]; done).
  wp_step. apply wp_fail_if; [done|]. intros Hnd. wp_step. wp_step. wp_step.
  apply wp_fail_if; [done|]. intros Hp%negb_false_iff.
  wp_step. eapply wp_mono; [by apply InitializePe_ProtectionPolicy_spec| |done]. intros _ ? ->.
  wp_step. eapply wp_mono; [apply InitializePe_HeaderSizes_spec; try done| |done].
  { destruct Hm as (_ & _ & Hnum & _). rewrite Hnum in Hnd.
    pose proof (load_u32 File (ExeHdrOffset c1 + nt_header_size (ImageType c1) - 4) Hfile) as [? _].
    unfold num_dirs in *. lia. }
  intros _ c2 ((b & m & n & so & ->) & Hok).
  change (FileSize c1) with (FileSize (set_RelocsStripped b (set_Machine m
            (set_NumberOfSections n (set_SectionsOffset so c1))))).
  apply InitializePe_tail_spec; try done; [by apply Hinit1|by rewrite <- Hnull].
Qed.

(** After the search for a DOS header, the executable header starts in the file. *)
Lemma InitializeContext_DosHeader_spec c :
  FileSize c = size File → u32 (FileSize c) → ExeHdrOffset c = 0 →
  wp (InitializeContext_DosHeader File (FileSize c))
    (λ _ c', ∃ e, c' = set_ExeHdrOffset e c ∧ header_in_file File c' 0 ∧
       (PcdImageLoaderAllowMisalignedOffset = false →
          IS_ALIGNED e ALIGNOF_EFI_IMAGE_NT_HEADERS_COMMON_HDR = true))
    (λ _ _, True) c.
Proof.
  intros Hs Hu He. unfold InitializeContext_DosHeader. wp_step.
  eapply (wp_mono _ (λ b c', c' = c ∧
    (b = true → SIZEOF_EFI_IMAGE_DOS_HEADER <= FileSize c)) _ (λ _ _, True)); [| |done].
  { wp_step.
    - wp_step. autounfold with pe_layout in *. wp_step; [lia..|]. wp_step. split; [done|lia].
    - wp_step. done. }
  intros b ? [-> Hb]. wp_step.
  - specialize (Hb H2). autounfold with pe_layout in *. wp_step. wp_step; [lia..|]. wp_step.
    apply wp_fail_if; [done|]. intros [Hlo Hhi]%orb_false_iff. wp_step. wp_step.
    apply wp_fail_if; [done|]. intros Hmis. eexists. split; [done|]. split.
    + unfold header_in_file. cbn. split_and!; try done; lia.
    + intros Hf. rewrite Hf in Hmis. by apply negb_false_iff in Hmis.
  - wp_step. exists 0. split; [rewrite <- He; by destruct c|]. split; [|done].
    destruct Hu. unfold header_in_file, is_uint. cbn. split_and!; try done; lia.
Qed.

Lemma PeCoffInitializeContext_spec o c :
  u32 (size File) → 0 <= o < 32 →
  wp (PeCoffInitializeContext File (size File) o) (λ _ c', WellFormed File c') (λ _ _, True) c.
Proof.
  intros Hu Ho. unfold PeCoffInitializeContext. do 2 (wp_step; wp_step).
  set (c0 := set_FileSize _ _). change (size File) with (FileSize c0).
  wp_step. eapply wp_mono; [by apply InitializeContext_DosHeader_spec| |done].
  intros _ ? (e & -> & Hin & Hal). set (c1 := set_ExeHdrOffset e c0) in *.
  change (FileSize c0) with (FileSize c1). wp_step. wp_step. wp_step.
  apply wp_fail_if; [done|]. intros Hlt%(header_wraps _ _ _ _ Hin); [|done].
  destruct Hlt as (? & ? & ? & ?). autounfold with pe_layout in *. wp_step. wp_step; [lia..|].
  wp_step. wp_step. by apply InternalInitializePe_spec.
Qed.
End Initialize.

(** ** Acceptance

    The strict checks reject no section table that satisfies them. *)

Section Acceptance.
Context `{!Platform, !PlatformOk, !OverflowLib} (File : list Z) (Hfile : bytes File).
Implicit Types c : PE_COFF_LOADER_IMAGE_CONTEXT.

(** Where the section after section [i] has to start. *)
Definition aligned_end c (i : Z) : Z := align_up (section_end File c i) (SectionAlignment c).

Record StrictTable c : Prop := {
  st_first : VirtualAddress File c 0 = 0 ∨
    VirtualAddress File c 0 = align_up (SizeOfHeaders c) (SectionAlignment c);
  st_next i : 0 <= i → i + 1 < NumberOfSections c →
    VirtualAddress File c (i + 1) = aligned_end c i;
  st_u32 i : 0 <= i < NumberOfSections c → u32 (aligned_end c i);
  st_raw i : 0 <= i < NumberOfSections c → 0 < SizeOfRawData File c i →
    PointerToRawData File c i + SizeOfRawData File c i <= FileSize c;
  st_wx i : PcdImageLoaderWXorX = true → PcdImageLoaderRemoveXForWX = false →
    0 <= i < NumberOfSections c → write_execute (Characteristics File c i) = false;
}.

(** A value not above one that fits does not overflow. *)
Lemma fits_below x y : 0 <= x <= y → u32 y → fits_u 32 x = true ∧ wrap 32 x = x.
Proof.
  intros Hx [? ?]. assert (u32 x) by (split; lia). by rewrite fits_u_spec, wrap_small.
Qed.

Lemma VerifySection_accepts c i :
  strict_sections = true → StrictTable c → table_in_file File c → u32 (FileSize c) →
  0 <= i < NumberOfSections c → IS_POW2 (SectionAlignment c) = true → u32 (SectionAlignment c) →
  wp (VerifySection File (FileSize c) i (VirtualAddress File c i))
    (λ next c', next = aligned_end c i ∧ c' = c) (λ _ _, False) c.
Proof.
  intros Hs Hst Ht Hfs Hi Hp Hu. unfold VerifySection.
  wp_step. eapply (wp_mono _ (λ _ c', c' = c) _ (λ _ _, False)); [| |done].
  { unfold VerifySection_WXorX. wp_step. wp_step. wp_step; [|by wp_step].
    wp_step. apply wp_Sections; [done..|]. intros _. apply wp_fail_if; [|done].
    apply andb_true_iff in H2 as [HW HX%negb_true_iff]. intros Hwx.
    pose proof (st_wx _ Hst i HW HX Hi) as Hno. unfold write_execute in Hno.
    unfold Characteristics in Hno. by rewrite Hwx in Hno. }
  intros _ ? ->. wp_step. eapply (wp_mono _ (λ _ c', c' = c) _ (λ _ _, False)); [| |done].
  { unfold VerifySection_Address. wp_step. wp_step. wp_step. apply wp_Sections; [done..|].
    intros _. rewrite Hs. apply wp_fail_if; [|done]. unfold VirtualAddress. lia. }
  intros _ ? ->. wp_step. eapply (wp_mono _ (λ _ c', c' = c) _ (λ _ _, False)); [| |done].
  { unfold VerifySection_RawData. wp_step. wp_step. wp_step. apply wp_Sections; [done..|].
    fold (SizeOfRawData File c i). intros Hr. wp_step; [|by wp_step].
    wp_step. apply wp_Sections; [done..|]. fold (PointerToRawData File c i). intros Hptr.
    pose proof (st_raw _ Hst i Hi ltac:(lia)). unfold is_uint in Hr, Hptr.
    rewrite ovf_add_u32_spec by done.
    destruct (fits_below (PointerToRawData File c i + SizeOfRawData File c i) (FileSize c))
      as [-> ->]; [lia|done|].
    wp_step. wp_step. apply wp_fail_if; [lia|done]. }
  intros _ ? ->. unfold VerifySection_End. wp_step. wp_step. wp_step.
  apply wp_Sections; [done..|]. fold (VirtualAddress File c i). intros Hva.
  wp_step. apply wp_Sections; [done..|]. fold (VirtualSize File c i). intros Hvs.
  pose proof (st_u32 _ Hst i Hi) as Hend. unfold aligned_end in *.
  pose proof (align_up_ge (section_end File c i) _ (IS_POW2_pos _ (proj1 Hu) Hp)).
  assert (0 <= section_end File c i) by (unfold section_end; destruct Hva, Hvs; lia).
  rewrite ovf_add_u32_spec by done. fold (section_end File c i).
  destruct (fits_below (section_end File c i) _ ltac:(split; [done|apply H2]) Hend) as [-> ->].
  wp_step. wp_step. rewrite Hs, ovf_align_up_u32_spec by (done || destruct Hend; split; lia).
  apply fits_u_spec in Hend as Hf. rewrite Hf, wrap_small by done.
  wp_step. wp_step. by wp_step.
Qed.

Lemma VerifySections_StartAddress_accepts c :
  strict_sections = true → StrictTable c → table_in_file File c → 0 < NumberOfSections c →
  u32 (SizeOfHeaders c) → IS_POW2 (SectionAlignment c) = true → u32 (SectionAlignment c) →
  wp (VerifySections_StartAddress File)
    (λ start c', start = VirtualAddress File c 0 ∧ c' = c) (λ _ _, False) c.
Proof.
  intros Hs Hst Ht Hn Hh Hp Hu. unfold VerifySections_StartAddress. wp_step. wp_step. wp_step.
  apply wp_Sections; [done|done|lia|done..|]. fold (VirtualAddress File c 0). intros Hva.
  wp_step; [by wp_step; split; [lia|]|]. rewrite Hs, ovf_align_up_u32_spec by done.
  destruct (st_first _ Hst) as [|Hfirst]; [lia|]. rewrite <- Hfirst.
  apply fits_u_spec in Hva as Hf. rewrite Hf, wrap_small by done. wp_step. wp_step.
  by wp_step.
Qed.
End Acceptance.

(** ** Properties *)

(** C1. For every file and every platform, PeCoffInitializeContext is memory
    safe and total: it never reads outside the file, fails no ASSERT, evaluates
    nothing undefined, and terminates. *)
Theorem PeCoffInitializeContext_safe `{!Platform, !PlatformOk, !OverflowLib} (File : list Z)
    (o : Z) (c : PE_COFF_LOADER_IMAGE_CONTEXT) :
  bytes File → u32 (size File) → 0 <= o < 32 →
  never_faults (PeCoffInitializeContext File (size File) o) c.
Proof. intros. by eapply wp_never_faults, PeCoffInitializeContext_spec. Qed.

(** C2. An image PeCoffInitializeContext accepts is well-formed: the headers and
    the section table are inside the file, the sections are aligned, disjoint,
    ascending, inside the image and (with data) inside the file, no section is
    writable and executable when the policy forbids it, the relocation and
    security directories and the entry point are in bounds. *)
Theorem PeCoffInitializeContext_well_formed `{!Platform, !PlatformOk, !OverflowLib}
    (File : list Z) (o : Z) (c c' : PE_COFF_LOADER_IMAGE_CONTEXT) :
  bytes File → u32 (size File) → 0 <= o < 32 →
  PeCoffInitializeContext File (size File) o c = Ok tt c' → WellFormed File c'.
Proof.
  intros Hb Hu Ho Hrun. eapply (wp_ok _ (λ _ c', WellFormed File c')); [|exact Hrun].
  by apply PeCoffInitializeContext_spec.
Qed.

(** In the strict mode the checks of the section table reject nothing
    else: a table whose sections are adjacent, fit 32 bits, keep W^X and have
    their data in the file is accepted, and SizeOfImage is the aligned end of the
    last section. *)
Theorem InternalVerifySections_accepts `{!Platform, !PlatformOk, !OverflowLib} (File : list Z)
    (c : PE_COFF_LOADER_IMAGE_CONTEXT) :
  bytes File → table_in_file File c → 0 < NumberOfSections c → u32 (FileSize c) →
  u32 (SizeOfHeaders c) → IS_POW2 (SectionAlignment c) = true → u32 (SectionAlignment c) →
  strict_sections = true → StrictTable File c →
  InternalVerifySections File (FileSize c) c =
    Ok (VirtualAddress File c 0)
       (set_SizeOfImage (aligned_end File c (NumberOfSections c - 1)) c).
Proof.
  intros Hb Ht Hn Hfs Hh Hp Hu Hs Hst. apply wp_exact. unfold InternalVerifySections.
  wp_step. wp_step. wp_step. wp_step; [done|]. wp_step. apply wp_fail_if; [lia|]. intros _.
  wp_step. eapply wp_mono; [by apply VerifySections_StartAddress_accepts| |done].
  intros ? ? [-> ->]. wp_step. eapply wp_mono.
  { apply (wp_for_loop (λ j next c', c' = c ∧
      next = if j =? 0 then VirtualAddress File c 0 else aligned_end File c (j - 1))
      (λ _ _, False)); [done|].
    intros j next ? Hj [-> ->]. eapply (wp_mono _ (λ next c', next = aligned_end File c j ∧ c' = c)).
    - destruct (Z.eqb_spec j 0) as [->|].
      + apply VerifySection_accepts; done || lia.
      + rewrite <- (st_next _ _ Hst (j - 1)) by lia. replace (j - 1 + 1) with j by lia.
        apply VerifySection_accepts; done || lia.
    - intros ? ? [-> ->]. split; [done|]. rewrite Z.add_simpl_r. by case_match; [lia|].
    - done. }
  2: done.
  cbn beta. rewrite Z.add_0_l, Z2Nat.id by lia. intros ? ? [-> ->]. case_match; [lia|].
  unfold VerifySections_SizeOfImage. rewrite Hs. wp_step. wp_step. by wp_step.
Qed.

(** When unaligned sections are permitted and the last section ends where no
    alignment of the fallback chain has room, the code sets the alignment to 1
    but keeps the SizeOfImage the failed alignment stored, which is 0: the image
    is then rejected by the check of the entry point, whatever it is. *)
Theorem VerifySections_SizeOfImage_fallback `{!Platform, !PlatformOk, !OverflowLib}
    (c : PE_COFF_LOADER_IMAGE_CONTEXT) (NextSectRva : Z) :
  strict_sections = false → u32 NextSectRva → IS_POW2 (SectionAlignment c) = true →
  u32 (SectionAlignment c) →
  2 ^ 32 - Z.min (SectionAlignment c) DEFAULT_PAGE_ALLOCATION_GRANULARITY < NextSectRva →
  VerifySections_SizeOfImage NextSectRva c = Ok tt (set_SizeOfImage 0 (set_SectionAlignment 1 c)).
Proof.
  intros Hs Hn Hp Hu Hroom. pose proof platform_granularities as Hg.
  assert (∀ a, IS_POW2 a = true → u32 a →
    Z.min (SectionAlignment c) DEFAULT_PAGE_ALLOCATION_GRANULARITY <= a → ∀ c',
    AlignSizeOfImage NextSectRva a c' = Ok true (set_SizeOfImage 0 c')) as Hov.
  { intros a Hpa Hua Hle c'. rewrite AlignSizeOfImage_run by done.
    assert (fits_u 32 (align_up NextSectRva a) = false) as Hf by (by eapply align_up_no_room).
    by rewrite Hf, align_up_overflow. }
  unfold VerifySections_SizeOfImage. rewrite Hs. unfold mbind, M_bind, getS, modify.
  rewrite Hov by (done || lia). cbn iota.
  rewrite Hov by (apply platform_runtime_pow2 || apply platform_runtime_u32 || lia). cbn iota.
  rewrite andb_true_r. destruct (_ <? _); [|done].
  by rewrite Hov by (apply platform_default_pow2 || apply platform_default_u32 || lia).
Qed.

(** ** Witnesses on the sample image *)

(** The context of the sample image. *)
Definition sample_context : PE_COFF_LOADER_IMAGE_CONTEXT := {|
  ImageBase := 0x140000000; FileSize := 464; ImageBuffer := ImageNull; SectionsOffset := 192;
  NumberOfSections := 2; SizeOfImage := 448; SectionAlignment := 16; ExeHdrOffset := 0;
  SizeOfHeaders := 272; AddressOfEntryPoint := 280; RelocsStripped := false;
  ImageType := PeCoffLoaderTypePe32Plus; Subsystem := 11; Machine := 0x8664;
  RelocDirRva := 432; RelocDirSize := 12; SecDirOffset := 448; SecDirSize := 16; |}.

Definition sample_lib : OverflowLib := BaseOverflowLib build_gcc_x64.

Lemma sample_initialize :
  @PeCoffInitializeContext platform_strict sample_lib sample_file (size sample_file) 2
    zero_context = Ok tt sample_context.
Proof. by vm_compute. Qed.

Lemma PeCoffInitializeContext_safe_witness :
  never_faults (@PeCoffInitializeContext platform_strict sample_lib sample_file
    (size sample_file) 2) zero_context.
Proof.
  apply (@PeCoffInitializeContext_safe platform_strict platform_strict_ok sample_lib);
    [apply sample_file_bytes|by vm_compute|lia].
Defined.

Lemma PeCoffInitializeContext_well_formed_witness :
  @WellFormed platform_strict sample_file sample_context.
Proof.
  eapply (@PeCoffInitializeContext_well_formed platform_strict platform_strict_ok sample_lib
    sample_file 2 zero_context);
    [apply sample_file_bytes|by vm_compute|lia|apply sample_initialize].
Defined.

Lemma sample_strict_table :
  @StrictTable platform_strict sample_file (set_SizeOfImage 0 sample_context).
Proof.
  assert (∀ i, 0 <= i < 2 → i = 0 ∨ i = 1) as Hi by lia.
  constructor; cbn [NumberOfSections set_SizeOfImage sample_context].
  - right. by vm_compute.
  - intros i ? ?. replace i with 0 by lia. by vm_compute.
  - intros i [->| ->]%Hi; by vm_compute.
  - intros i [->| ->]%Hi _; by vm_compute.
  - intros i _ _ [->| ->]%Hi; by vm_compute.
Qed.

Lemma InternalVerifySections_accepts_witness :
  @InternalVerifySections platform_strict sample_lib sample_file 464
      (set_SizeOfImage 0 sample_context)
    = Ok 272 sample_context.
Proof.
  refine (eq_trans (@InternalVerifySections_accepts platform_strict platform_strict_ok sample_lib
    sample_file (set_SizeOfImage 0 sample_context) sample_file_bytes _ _ _ _ _ _ _
    sample_strict_table) _); by vm_compute.
Defined.

Lemma sample_well_formed : @WellFormed platform_strict sample_file sample_context.
Proof.
  refine (wp_ok _ (λ _ c', @WellFormed platform_strict sample_file c') _ _ _ _ _ sample_initialize).
  apply (@PeCoffInitializeContext_spec platform_strict platform_strict_ok sample_lib);
    [apply sample_file_bytes|by vm_compute|lia].
Qed.

Lemma VerifySections_SizeOfImage_fallback_witness :
  @VerifySections_SizeOfImage platform_relaxed sample_lib 0xFFFFFFF8 sample_context
    = Ok tt (set_SizeOfImage 0 (set_SectionAlignment 1 sample_context)).
Proof.
  apply (@VerifySections_SizeOfImage_fallback platform_relaxed platform_relaxed_ok sample_lib);
    by vm_compute.
Defined.
