(* ===== verification/PeCoffLoad.v ===== *)
(** PeCoffLoad.c and PeCoffInfo.c: loading a verified image into memory.

    The memory is the raw file and the destination; [ImageBuffer] of the context
    says which of the two the loaded image is.  An image loaded in place aliases
    its file: what the functions write to the image they also write to the
    section table they read. *)
From S2P Require Import Prelude Base Buffer Overflow PeImage PeSample PeCoffInit.

(** The runtime context of PeCoffRelocate.c; FixupData as the bytes after the
    header of the structure. *)
Record PE_COFF_LOADER_RUNTIME_CONTEXT := {
  RtRelocDirRva : Z;
  RtRelocDirSize : Z;
  FixupData : list Z;
}.

(** What the functions have pointers to: the context, the raw file, the
    destination of the image, and the runtime context unless it is NULL. *)
Record loader := {
  Context : PE_COFF_LOADER_IMAGE_CONTEXT;
  FileBuffer : list Z;
  Destination : list Z;
  RuntimeContext : option PE_COFF_LOADER_RUNTIME_CONTEXT;
}.

Definition set_Context (f : PE_COFF_LOADER_IMAGE_CONTEXT → PE_COFF_LOADER_IMAGE_CONTEXT)
    (s : loader) : loader :=
  {| Context := f (Context s); FileBuffer := FileBuffer s; Destination := Destination s;
     RuntimeContext := RuntimeContext s |}.

(** The memory ImageBuffer points to. *)
Definition image (s : loader) : list Z :=
  match ImageBuffer (Context s) with
  | ImageNull => []
  | ImageDestination => Destination s
  | ImageFile => FileBuffer s
  end.

Definition set_image (b : list Z) (s : loader) : loader :=
  match ImageBuffer (Context s) with
  | ImageNull => s
  | ImageDestination =>
      {| Context := Context s; FileBuffer := FileBuffer s; Destination := b;
         RuntimeContext := RuntimeContext s |}
  | ImageFile =>
      {| Context := Context s; FileBuffer := b; Destination := Destination s;
         RuntimeContext := RuntimeContext s |}
  end.

Abbreviation LoadM := (M loader).

(** Writing [l] at [off] of the image; nothing is accessed when [l] is empty. *)
Definition write_image (off : Z) (l : list Z) : LoadM unit :=
  s ← getS;
  if size l =? 0 then mret tt
  else
    require (in_bounds (image s) off (size l)) OutOfBounds;;
    modify (set_image (write_bytes (image s) off l)).

(** ZeroMem (ImageBuffer + off, n) *)
Definition ZeroMem (off n : Z) : LoadM unit := write_image off (zeros n).

(** CopyMem (ImageBuffer + off, FileBuffer + src, n) *)
Definition CopyMem (off src n : Z) : LoadM unit :=
  s ← getS;
  if n =? 0 then mret tt
  else
    require (in_bounds (FileBuffer s) src n) OutOfBounds;;
    write_image off (slice (FileBuffer s) src n).

Section Load.
Context `{!Platform} (FileAddress DestinationAddress : Z).

(** A member of Sections[Index], read from the current contents of the file. *)
Definition read_section (Index field : Z) : LoadM Z :=
  s ← getS;
  Sections (FileBuffer s) (Context s) Index field.

(** ** PeCoffInfo.c *)

Definition PeCoffGetAddressOfEntryPoint (c : PE_COFF_LOADER_IMAGE_CONTEXT) : Z := AddressOfEntryPoint c.
Definition PeCoffGetMachine (c : PE_COFF_LOADER_IMAGE_CONTEXT) : Z := Machine c.
Definition PeCoffGetSubsystem (c : PE_COFF_LOADER_IMAGE_CONTEXT) : Z := Subsystem c.
Definition PeCoffGetSectionAlignment (c : PE_COFF_LOADER_IMAGE_CONTEXT) : Z := SectionAlignment c.
Definition PeCoffGetSizeOfImage (c : PE_COFF_LOADER_IMAGE_CONTEXT) : Z := SizeOfImage c.
Definition PeCoffGetImageBase (c : PE_COFF_LOADER_IMAGE_CONTEXT) : Z := ImageBase c.
Definition PeCoffGetSizeOfHeaders (c : PE_COFF_LOADER_IMAGE_CONTEXT) : Z := SizeOfHeaders c.
Definition PeCoffGetRelocsStripped (c : PE_COFF_LOADER_IMAGE_CONTEXT) : bool := RelocsStripped c.

(** Returns the number of sections and the file offset of the table. *)
Definition PeCoffGetSectionTable (c : PE_COFF_LOADER_IMAGE_CONTEXT) : Z * Z :=
  (NumberOfSections c, SectionsOffset c).

Definition image_address (p : image_pointer) : Z :=
  match p with
  | ImageNull => 0
  | ImageDestination => DestinationAddress
  | ImageFile => FileAddress
  end.

Definition PeCoffLoaderGetImageAddress : LoadM Z :=
  s ← getS;
  ASSERT (negb (bool_decide (ImageBuffer (Context s) = ImageNull)));;
  mret (image_address (ImageBuffer (Context s))).

(** ** PeCoffLoad.c *)

(** The body of the loop of InternalLoadSections, carrying PreviousTopRva. *)
Definition LoadSection (SectionIndex PreviousTopRva : Z) : LoadM Z :=
  Va ← read_section SectionIndex SECT_VirtualAddress;
  ZeroMem PreviousTopRva (wrap 32 (Va - PreviousTopRva));;
  RawSize ← read_section SectionIndex SECT_SizeOfRawData;
  VSize ← read_section SectionIndex SECT_VirtualSize;
  let DataSize := if RawSize <=? VSize then RawSize else VSize in
  EffectivePointerToRawData ← read_section SectionIndex SECT_PointerToRawData;
  CopyMem Va EffectivePointerToRawData DataSize;;
  mret (wrap 32 (Va + DataSize)).

Definition InternalLoadSections (LoadedHeaderSize DestinationSize : Z) : LoadM unit :=
  s ← getS;
  PreviousTopRva ←
    for_loop (Z.to_nat (NumberOfSections (Context s))) 0 LoadSection LoadedHeaderSize;
  ZeroMem PreviousTopRva (wrap 32 (DestinationSize - PreviousTopRva)).

Definition PeCoffLoadImage (DestinationSize : Z) : LoadM unit :=
  s ← getS;
  ASSERT (IS_ALIGNED DestinationAddress (SectionAlignment (Context s)));;
  ASSERT (SizeOfImage (Context s) <=? DestinationSize);;
  modify (set_Context (set_ImageBuffer ImageDestination));;
  Va0 ← read_section 0 SECT_VirtualAddress;
  LoadedHeaderSize ←
    (if PcdImageLoaderLoadHeader && negb (Va0 =? 0) then
       CopyMem 0 0 (SizeOfHeaders (Context s));;
       mret (SizeOfHeaders (Context s))
     else mret 0);
  InternalLoadSections LoadedHeaderSize DestinationSize.

(** The body of the loop of PeCoffLoadImageInplaceNoBase. *)
Definition CheckInplaceSection (SectionIndex : Z) (_ : unit) : LoadM unit :=
  s ← getS;
  VSize ← read_section SectionIndex SECT_VirtualSize;
  let AlignedSize := ALIGN_VALUE 32 VSize (SectionAlignment (Context s)) in
  RawPtr ← read_section SectionIndex SECT_PointerToRawData;
  Va ← read_section SectionIndex SECT_VirtualAddress;
  RawSize ← read_section SectionIndex SECT_SizeOfRawData;
  fail_if (negb (RawPtr =? Va) || negb (RawSize =? AlignedSize)) RETURN_VOLUME_CORRUPTED.

Definition PeCoffLoadImageInplaceNoBase : LoadM unit :=
  s ← getS;
  for_loop (Z.to_nat (fst (PeCoffGetSectionTable (Context s)))) 0 CheckInplaceSection tt;;
  modify (set_Context (set_ImageBuffer ImageFile)).

Definition PeCoffImageIsInplace (c : PE_COFF_LOADER_IMAGE_CONTEXT) : bool :=
  PeCoffGetImageBase c =? FileAddress.

Definition PeCoffLoadImageInplace : LoadM unit :=
  s ← getS;
  fail_if (negb (PeCoffImageIsInplace (Context s))) RETURN_UNSUPPORTED;;
  PeCoffLoadImageInplaceNoBase.

(** The body of the loop of PeCoffDiscardSections. *)
Definition DiscardSection (SectionIndex : Z) (_ : unit) : LoadM unit :=
  Chars ← read_section SectionIndex SECT_Characteristics;
  if negb (Z.land Chars EFI_IMAGE_SCN_MEM_DISCARDABLE =? 0) then
    Va ← read_section SectionIndex SECT_VirtualAddress;
    VSize ← read_section SectionIndex SECT_VirtualSize;
    ZeroMem Va VSize
  else mret tt.

Definition PeCoffDiscardSections : LoadM unit :=
  modify (set_Context (set_RelocDirRva 0));;
  modify (set_Context (set_RelocDirSize 0));;
  s ← getS;
  for_loop (Z.to_nat (NumberOfSections (Context s))) 0 DiscardSection tt.
End Load.

(** ** Memory rules *)

Lemma set_image_id s : set_image (image s) s = s.
Proof. unfold set_image, image. destruct s as [c F D rt]; cbn. by destruct (ImageBuffer c). Qed.

Lemma size_0_nil (l : list Z) : size l = 0 → l = [].
Proof. unfold size. destruct l; [done|]. cbn. lia. Qed.

Lemma wp_write_image off l (Q : unit → loader → Prop) E s :
  (size l ≠ 0 → 0 <= off ∧ off + size l <= size (image s)) →
  Q tt (set_image (write_bytes (image s) off l) s) → wp (write_image off l) Q E s.
Proof.
  intros Hin HQ. unfold write_image. wp_step. wp_step. wp_step.
  - rewrite (size_0_nil l) in HQ by lia. rewrite write_bytes_nil, set_image_id in HQ. by wp_step.
  - wp_step. pose proof (size_nonneg l). wp_step; [apply in_bounds_spec; lia|]. by wp_step.
Qed.

Lemma wp_ZeroMem off n (Q : unit → loader → Prop) E s :
  0 <= n → (n ≠ 0 → 0 <= off ∧ off + n <= size (image s)) →
  Q tt (set_image (write_bytes (image s) off (zeros n)) s) → wp (ZeroMem off n) Q E s.
Proof. intros Hn Hin HQ. apply wp_write_image; [|done]. by rewrite size_zeros. Qed.

Lemma wp_CopyMem off src n (Q : unit → loader → Prop) E s :
  (n ≠ 0 → 0 <= off ∧ 0 <= n ∧ off + n <= size (image s)) →
  (n ≠ 0 → 0 <= src ∧ src + n <= size (FileBuffer s)) →
  Q tt (set_image (write_bytes (image s) off (slice (FileBuffer s) src n)) s) →
  wp (CopyMem off src n) Q E s.
Proof.
  intros Hd Hs HQ. unfold CopyMem. wp_step. wp_step. wp_step.
  - replace n with 0 in HQ by lia. unfold slice in HQ. cbn in HQ.
    rewrite write_bytes_nil, set_image_id in HQ. by wp_step.
  - wp_step. wp_step; [apply in_bounds_spec; lia|].
    apply wp_write_image; [|done]. rewrite size_slice by lia. lia.
Qed.

Lemma wp_read_section i f (Q : Z → loader → Prop) E s :
  bytes (FileBuffer s) → table_in_file (FileBuffer s) (Context s) →
  0 <= i < NumberOfSections (Context s) → 0 <= f → f + 4 <= SIZEOF_EFI_IMAGE_SECTION_HEADER →
  (u32 (load 4 (FileBuffer s) (section_field (Context s) i f)) →
     Q (load 4 (FileBuffer s) (section_field (Context s) i f)) s) →
  wp (read_section i f) Q E s.
Proof. intros. unfold read_section. wp_step. wp_step. by apply wp_Sections. Qed.

(** ** The loaded image, byte by byte *)

Section LoadedImage.
Context `{!Platform, !PlatformOk} (File : list Z) (c : PE_COFF_LOADER_IMAGE_CONTEXT).

(** The part of section [i] that comes from the file. *)
Definition data_size (i : Z) : Z := Z.min (SizeOfRawData File c i) (VirtualSize File c i).
Definition data_end (i : Z) : Z := VirtualAddress File c i + data_size i.
Definition in_data (i x : Z) : bool := (VirtualAddress File c i <=? x) && (x <? data_end i).

(** The byte at RVA [x] of sections [i], ..., [i + n - 1]. *)
Fixpoint section_byte (n : nat) (i x : Z) : Z :=
  match n with
  | O => 0
  | S k => if in_data i x
           then byte_at File (PointerToRawData File c i + (x - VirtualAddress File c i))
           else section_byte k (i + 1) x
  end.

Definition header_loaded : bool := PcdImageLoaderLoadHeader && negb (VirtualAddress File c 0 =? 0).

(** The byte at RVA [x] of the loaded image: a header byte when the headers
    are loaded, a byte of the file for the data of a section, or zero. *)
Definition loaded_byte (x : Z) : Z :=
  if header_loaded && (x <? SizeOfHeaders c) then byte_at File x
  else section_byte (Z.to_nat (NumberOfSections c)) 0 x.

Lemma section_byte_miss n i x :
  (∀ j, i <= j < i + Z.of_nat n → in_data j x = false) → section_byte n i x = 0.
Proof.
  revert i. induction n as [|n IH]; intros i Hmiss; cbn [section_byte]; [done|].
  rewrite Hmiss by lia. apply IH. intros j Hj. apply Hmiss. lia.
Qed.

Lemma section_byte_hit n i x j :
  i <= j < i + Z.of_nat n → (∀ k, i <= k < j → in_data k x = false) → in_data j x = true →
  section_byte n i x = byte_at File (PointerToRawData File c j + (x - VirtualAddress File c j)).
Proof.
  revert i. induction n as [|n IH]; intros i Hj Hmiss Hhit; cbn [section_byte]; [lia|].
  destruct (decide (i = j)) as [->|]; [by rewrite Hhit|].
  rewrite Hmiss by lia. apply IH; [lia| |done]. intros k Hk. apply Hmiss. lia.
Qed.

(** From here on the image is well-formed. *)
Context (Hfile : bytes File) (Hwf : WellFormed File c).

Lemma wf_table : table_in_file File c ∧ u32 (SizeOfHeaders c) ∧ 0 <= NumberOfSections c.
Proof. apply HeadersOk_table, Hwf. Qed.

Lemma section_fields_u32 i :
  u32 (VirtualAddress File c i) ∧ u32 (VirtualSize File c i) ∧ u32 (SizeOfRawData File c i) ∧
  u32 (PointerToRawData File c i).
Proof. split_and!; by apply load_u32. Qed.

Lemma data_bounds i :
  0 <= VirtualAddress File c i ∧ 0 <= data_size i ∧ data_end i <= section_end File c i.
Proof.
  destruct (section_fields_u32 i) as ([? ?] & [? ?] & [? ?] & _).
  unfold data_end, data_size, section_end. lia.
Qed.

(** Data of earlier sections ends before later ones start. *)
Lemma data_order i j :
  0 <= i < j → j < NumberOfSections c → data_end i <= VirtualAddress File c j.
Proof.
  intros Hi Hj. destruct Hwf as (_ & Hs & _).
  pose proof (sec_disjoint _ _ Hs i j Hi Hj). pose proof (data_bounds i). lia.
Qed.

Lemma header_below j :
  header_loaded = true → 0 <= j < NumberOfSections c → SizeOfHeaders c <= VirtualAddress File c j.
Proof.
  unfold header_loaded. intros [_ Hva]%andb_true_iff Hj. destruct Hwf as (_ & Hs & _).
  destruct (sec_first _ _ Hs) as [|Hle]; [lia|]. destruct (decide (j = 0)) as [->|]; [done|].
  pose proof (data_order 0 j ltac:(lia) ltac:(lia)). pose proof (data_bounds 0).
  unfold data_end in *. lia.
Qed.

(** RVAs between the data of the sections are zero in the loaded image. *)
Lemma loaded_byte_gap j x :
  0 <= j <= NumberOfSections c →
  (∀ i, 0 <= i < j → data_end i <= x) → (j < NumberOfSections c → x < VirtualAddress File c j) →
  (header_loaded = true → SizeOfHeaders c <= x) → loaded_byte x = 0.
Proof.
  intros Hj Hlo Hhi Hh. unfold loaded_byte.
  destruct header_loaded; cbn; [destruct (Z.ltb_spec x (SizeOfHeaders c)); [lia|]|];
    (apply section_byte_miss; intros k Hk; unfold in_data;
     destruct (decide (k < j));
     [specialize (Hlo k); lia|
      pose proof (data_bounds j); destruct (decide (k = j)) as [->|];
      [|pose proof (data_order j k)]; unfold data_end in *; lia]).
Qed.

Lemma loaded_byte_data j x :
  0 <= j < NumberOfSections c → VirtualAddress File c j <= x < data_end j →
  loaded_byte x = byte_at File (PointerToRawData File c j + (x - VirtualAddress File c j)).
Proof.
  intros Hj Hx. unfold loaded_byte.
  replace (header_loaded && (x <? SizeOfHeaders c)) with false.
  - apply section_byte_hit; [lia| |unfold in_data; lia].
    intros k Hk. pose proof (data_order k j ltac:(lia) ltac:(lia)). unfold in_data. lia.
  - destruct header_loaded eqn:Hh; [|done]. pose proof (header_below j Hh Hj). cbn. lia.
Qed.

Lemma loaded_byte_header x :
  header_loaded = true → x < SizeOfHeaders c → loaded_byte x = byte_at File x.
Proof. intros Hh Hx. unfold loaded_byte. rewrite Hh. cbn. by destruct (Z.ltb_spec x (SizeOfHeaders c)); [|lia]. Qed.

(** ** The loop of InternalLoadSections *)

Context (rt : option PE_COFF_LOADER_RUNTIME_CONTEXT) (DestinationSize : Z).
Context (HD : u32 DestinationSize) (Himage : SizeOfImage c <= DestinationSize).
Abbreviation loading D := {| Context := set_ImageBuffer ImageDestination c; FileBuffer := File;
                             Destination := D; RuntimeContext := rt |}.

(** Before section [j]: everything below [prev] is as it will be. *)
Record Loading (j prev : Z) (D : list Z) : Prop := {
  ld_size : size D = DestinationSize;
  ld_prev : 0 <= prev <= DestinationSize;
  ld_data i : 0 <= i < j → data_end i <= prev;
  ld_next : j < NumberOfSections c → prev <= VirtualAddress File c j;
  ld_header : header_loaded = true → SizeOfHeaders c <= prev;
  ld_bytes x : 0 <= x < prev → byte_at D x = loaded_byte x;
}.

(** Zeroing up to the next section. *)
Lemma Loading_zero j prev D n :
  0 <= j <= NumberOfSections c → Loading j prev D → 0 <= n → prev + n <= DestinationSize →
  (j < NumberOfSections c → prev + n <= VirtualAddress File c j) →
  Loading j (prev + n) (write_bytes D prev (zeros n)).
Proof.
  intros Hj [] Hn Hle Hva. assert (prev + size (zeros n) <= size D) by (rewrite size_zeros; lia).
  constructor; try lia.
  - rewrite size_write_bytes; lia.
  - intros i Hi. specialize (ld_data0 i Hi). lia.
  - intros Hh. specialize (ld_header0 Hh). lia.
  - intros x Hx. rewrite byte_at_write_bytes, size_zeros, byte_at_zeros by lia.
    destruct (Z.leb_spec prev x); cbn; [|apply ld_bytes0; lia].
    destruct (Z.ltb_spec x (prev + n)); [|lia].
    symmetry. apply (loaded_byte_gap j); [done|..].
    + intros i Hi. specialize (ld_data0 i Hi). lia.
    + lia.
    + intros Hh. specialize (ld_header0 Hh). lia.
Qed.

(** Copying the data of section [j] to where the zeroes end. *)
Lemma Loading_copy j D :
  0 <= j < NumberOfSections c → Loading j (VirtualAddress File c j) D →
  Loading (j + 1) (data_end j)
    (write_bytes D (VirtualAddress File c j) (slice File (PointerToRawData File c j) (data_size j))).
Proof.
  intros Hj []. destruct Hwf as (Hh & Hs & _).
  pose proof (data_bounds j). pose proof (sec_in_image _ _ Hs j Hj).
  destruct (section_fields_u32 j) as (_ & _ & _ & [Hptr _]).
  assert (data_size j ≠ 0 → PointerToRawData File c j + data_size j <= size File) as Hraw.
  { intros ?. pose proof (sec_in_file _ _ Hs j Hj). destruct Hh. unfold data_size in *. lia. }
  assert (size (slice File (PointerToRawData File c j) (data_size j)) = data_size j) as Hsl.
  { destruct (decide (data_size j = 0)) as [->|]; [by unfold slice|]. apply size_slice; lia. }
  unfold data_end in *. constructor; try lia.
  - rewrite size_write_bytes; lia.
  - intros i Hi. destruct (decide (i = j)) as [->|]; [done|].
    pose proof (data_order i j). unfold data_end in *. lia.
  - intros Hlt. pose proof (data_order j (j + 1)). unfold data_end in *. lia.
  - intros Hl. specialize (ld_header0 Hl). lia.
  - intros x Hx. rewrite byte_at_write_bytes by lia. rewrite Hsl.
    destruct (Z.leb_spec (VirtualAddress File c j) x); cbn; [|apply ld_bytes0; lia].
    destruct (Z.ltb_spec x (VirtualAddress File c j + data_size j)); [|lia].
    rewrite byte_at_slice by lia. symmetry. by apply loaded_byte_data.
Qed.

Lemma LoadSection_spec j prev D E :
  0 <= j < NumberOfSections c → Loading j prev D →
  wp (LoadSection j prev)
    (λ prev' s, ∃ D', s = loading D' ∧ Loading (j + 1) prev' D') E (loading D).
Proof.
  intros Hj HL. destruct wf_table as (Ht & _ & _). unfold LoadSection.
  wp_step. apply wp_read_section; [done..|]. intros Hva.
  change (load _ _ _) with (VirtualAddress File c j) in *.
  pose proof (ld_next _ _ _ HL) as Hnext. pose proof (ld_prev _ _ _ HL) as Hprev.
  destruct Hwf as (_ & Hs & _). pose proof (sec_in_image _ _ Hs j Hj) as Himg.
  pose proof (data_bounds j) as Hdata. unfold is_uint in Hva.
  rewrite wrap_small by (unfold is_uint; lia).
  wp_step. apply wp_ZeroMem; [lia|cbn; rewrite (ld_size _ _ _ HL); unfold data_end in *; lia|].
  change (set_image _ _) with (loading (write_bytes D prev (zeros (VirtualAddress File c j - prev)))).
  assert (HL0 := Loading_zero j prev D (VirtualAddress File c j - prev)).
  replace (prev + (VirtualAddress File c j - prev)) with (VirtualAddress File c j) in HL0 by lia.
  specialize (HL0 ltac:(lia) HL ltac:(lia) ltac:(unfold data_end in *; lia) ltac:(lia)).
  set (D0 := write_bytes D prev _) in *.
  do 3 (wp_step; apply wp_read_section; [done..|]; intros ?).
  change (load _ _ (section_field _ _ SECT_SizeOfRawData)) with (SizeOfRawData File c j) in *.
  change (load _ _ (section_field _ _ SECT_VirtualSize)) with (VirtualSize File c j) in *.
  change (load _ _ (section_field _ _ SECT_PointerToRawData)) with (PointerToRawData File c j) in *.
  replace (if SizeOfRawData File c j <=? VirtualSize File c j then _ else _) with (data_size j)
    by (unfold data_size; case_match; lia).
  fold (data_end j). unfold is_uint in *. wp_step. apply wp_CopyMem.
  - cbn. rewrite (ld_size _ _ _ HL0). unfold data_end in *. lia.
  - intros ?. pose proof (sec_in_file _ _ Hs j Hj). destruct Hwf as ([] & _).
    cbn. unfold data_size in *. lia.
  - wp_step. rewrite wrap_small by (unfold data_end in *; destruct Hwf as (_ & [] & _); unfold is_uint in *; lia).
    eexists. split; [reflexivity|]. by apply Loading_copy.
Qed.

(** The whole destination after the loop and the final ZeroMem. *)
Lemma InternalLoadSections_spec hdr D E :
  Loading 0 hdr D →
  wp (InternalLoadSections hdr DestinationSize)
    (λ _ s, ∃ D', s = loading D' ∧ size D' = DestinationSize ∧
       ∀ x, 0 <= x < DestinationSize → byte_at D' x = loaded_byte x)
    E (loading D).
Proof.
  intros HL. destruct wf_table as (_ & _ & Hn). unfold InternalLoadSections. wp_step. wp_step.
  wp_step. eapply wp_mono.
  { apply (wp_for_loop (λ j prev s, ∃ D, s = loading D ∧ Loading j prev D) E); [by exists D|].
    intros j prev s Hj (D1 & -> & HL1). apply LoadSection_spec; [cbn in Hj; lia|done]. }
  2: done.
  cbn beta. cbn [Context set_ImageBuffer NumberOfSections]. rewrite Z.add_0_l, Z2Nat.id by done.
  intros prev s (D1 & -> & HL1). destruct (ld_prev _ _ _ HL1) as [Hp0 Hp1]. destruct HD as [_ HD'].
  rewrite wrap_small by (unfold is_uint; lia).
  apply wp_ZeroMem; [lia|cbn; rewrite (ld_size _ _ _ HL1); lia|].
  eexists. split; [reflexivity|].
  assert (HL2 := Loading_zero _ _ _ (DestinationSize - prev) ltac:(split; [exact Hn|lia]) HL1).
  replace (prev + (DestinationSize - prev)) with DestinationSize in HL2 by lia.
  destruct HL2; [lia..|]. done.
Qed.

(** PeCoffLoadImage builds exactly the reference image, whatever was in the
    destination before. *)
Lemma PeCoffLoadImage_spec DestinationAddress c0 D E :
  c0 = c → size D = DestinationSize →
  IS_ALIGNED DestinationAddress (SectionAlignment c) = true →
  wp (PeCoffLoadImage DestinationAddress DestinationSize)
    (λ _ s, ∃ D', s = loading D' ∧ size D' = DestinationSize ∧
       ∀ x, 0 <= x < DestinationSize → byte_at D' x = loaded_byte x)
    E {| Context := c0; FileBuffer := File; Destination := D; RuntimeContext := rt |}.
Proof.
  intros -> HDs Hal. destruct wf_table as (Ht & Hh & Hn). assert (Hwf' := Hwf).
  destruct Hwf' as ([] & Hs & _). unfold PeCoffLoadImage.
  wp_step. wp_step. wp_step. wp_step; [done|]. wp_step. wp_step; [cbn; lia|].
  wp_step. wp_step. wp_step. apply wp_read_section; try done.
  { cbn. pose proof (sec_nonempty _ _ Hs). lia. }
  intros Hva. change (load _ _ _) with (VirtualAddress File c 0) in *.
  fold header_loaded. change (set_Context _ _) with (loading D).
  wp_step. apply wp_if; intros Hhl.
  - pose proof (header_below 0 Hhl ltac:(pose proof (sec_nonempty _ _ Hs); lia)) as Hb.
    pose proof (sec_in_image _ _ Hs 0 ltac:(pose proof (sec_nonempty _ _ Hs); lia)) as Himg.
    pose proof (data_bounds 0) as Hd. unfold data_end, is_uint in *. cbn [Context].
    wp_step. apply wp_CopyMem; [cbn; lia|cbn; lia|]. wp_step.
    apply InternalLoadSections_spec. cbn [image Context set_ImageBuffer ImageBuffer FileBuffer].
    assert (size (slice File 0 (SizeOfHeaders c)) = SizeOfHeaders c) as Hsl by (apply size_slice; lia).
    constructor; try lia.
    + rewrite size_write_bytes; cbn; lia.
    + intros x Hx. rewrite byte_at_write_bytes by (cbn; lia). rewrite Hsl, loaded_byte_header by (done || lia).
      destruct (Z.leb_spec 0 x), (Z.ltb_spec x (0 + SizeOfHeaders c)); try lia. cbn.
      rewrite byte_at_slice by lia. f_equal. lia.
  - wp_step. apply InternalLoadSections_spec. destruct HD. constructor; try lia; try congruence.
    intros _. apply Hva.
Qed.
End LoadedImage.

(** ** In-place loading *)

Section Inplace.
Context `{!Platform, !PlatformOk} (File : list Z) (c : PE_COFF_LOADER_IMAGE_CONTEXT).
Context (Hfile : bytes File) (Hwf : WellFormed File c).

(** Section [i] has the same place in the file and in the image. *)
Definition inplace_section (i : Z) : Prop :=
  PointerToRawData File c i = VirtualAddress File c i ∧
  SizeOfRawData File c i = align_up (VirtualSize File c i) (SectionAlignment c).

(** The aligned size of a section of a verified image does not overflow. *)
Lemma aligned_section_size i :
  0 <= i < NumberOfSections c →
  VirtualAddress File c i + align_up (VirtualSize File c i) (SectionAlignment c) <= SizeOfImage c ∧
  ALIGN_VALUE 32 (VirtualSize File c i) (SectionAlignment c)
    = align_up (VirtualSize File c i) (SectionAlignment c).
Proof.
  intros Hi. destruct Hwf as (_ & Hs & _).
  destruct (section_fields_u32 File c Hfile i) as (Hva & Hvs & _).
  pose proof (sec_align_u32 _ _ Hs) as Hau. pose proof (sec_pow2 _ _ Hs) as Hp.
  pose proof (sec_image_u32 _ _ Hs) as Hiu. pose proof (sec_in_image _ _ Hs i Hi) as Hin.
  assert (0 < SectionAlignment c) as Ha by (apply IS_POW2_pos; [apply Hau|done]).
  assert (align_up (VirtualSize File c i) (SectionAlignment c)
            <= SizeOfImage c - VirtualAddress File c i) as Hle.
  { apply align_up_least; [done| |unfold section_end in Hin; lia].
    apply Z.divide_sub_r; [apply (sec_image_aligned _ _ Hs)|by apply (sec_aligned _ _ Hs)]. }
  split; [lia|]. pose proof (align_up_ge (VirtualSize File c i) _ Ha).
  apply ALIGN_VALUE_spec; try done. unfold is_uint in *. lia.
Qed.

Lemma PeCoffLoadImageInplaceNoBase_spec s :
  Context s = c → FileBuffer s = File →
  wp PeCoffLoadImageInplaceNoBase
    (λ _ s', s' = set_Context (set_ImageBuffer ImageFile) s ∧
       ∀ i, 0 <= i < NumberOfSections c → inplace_section i)
    (λ e s', e = RETURN_VOLUME_CORRUPTED ∧ s' = s ∧
       ∃ i, 0 <= i < NumberOfSections c ∧ ¬ inplace_section i) s.
Proof.
  intros Hc HF. destruct (wf_table File c Hwf) as (Ht & _ & Hn).
  unfold PeCoffLoadImageInplaceNoBase. wp_step. wp_step. wp_step. eapply wp_mono.
  { apply (wp_for_loop (λ j _ s', s' = s ∧ ∀ i, 0 <= i < j → inplace_section i)
      (λ e s', e = RETURN_VOLUME_CORRUPTED ∧ s' = s ∧
         ∃ i, 0 <= i < NumberOfSections c ∧ ¬ inplace_section i)); [split; [done|lia]|].
    intros j [] ? Hj [-> Hok]. cbn in Hj. rewrite Hc, Z2Nat.id in Hj by lia.
    unfold CheckInplaceSection. wp_step. wp_step.
    do 4 (wp_step; apply wp_read_section; [by rewrite ?Hc, ?HF; (done || lia)..|]; intros ?).
    rewrite Hc, HF in *. fold (VirtualSize File c j) (PointerToRawData File c j).
    fold (VirtualAddress File c j) (SizeOfRawData File c j).
    destruct (aligned_section_size j ltac:(lia)) as [_ ->].
    apply wp_fail_if.
    - intros Hne. split_and!; try done. exists j. unfold inplace_section. lia.
    - intros Heq. split; [done|]. intros i Hi. destruct (decide (i = j)) as [->|]; [|apply Hok; lia].
      unfold inplace_section. lia. }
  2: done.
  cbn beta. intros _ ? [-> Hok]. wp_step. split; [done|]. intros i Hi. apply Hok.
  cbn. rewrite Hc. lia.
Qed.

(** In the strict mode an in-place image lies in the file, unless all of its
    sections are empty. *)
Lemma inplace_aligned_end i :
  strict_sections = true → (∀ i, 0 <= i < NumberOfSections c → inplace_section i) →
  0 <= i < NumberOfSections c →
  align_up (section_end File c i) (SectionAlignment c)
    = VirtualAddress File c i + SizeOfRawData File c i.
Proof.
  intros Hs Hall Hi. destruct (Hall i Hi) as [_ ->]. destruct Hwf as (_ & Hsec & _).
  destruct (sec_aligned _ _ Hsec i Hi) as [q Hq].
  pose proof (IS_POW2_pos _ (proj1 (sec_align_u32 _ _ Hsec)) (sec_pow2 _ _ Hsec)).
  unfold section_end, align_up. rewrite Hq.
  replace (q * SectionAlignment c + VirtualSize File c i + SectionAlignment c - 1)
    with (VirtualSize File c i + SectionAlignment c - 1 + q * SectionAlignment c) by lia.
  rewrite Z.div_add by lia. lia.
Qed.

Lemma inplace_image_in_file :
  strict_sections = true → (∀ i, 0 <= i < NumberOfSections c → inplace_section i) →
  SizeOfImage c = VirtualAddress File c 0 ∨ SizeOfImage c <= size File.
Proof.
  intros Hs Hall. pose proof Hwf as ([] & Hsec & _). pose proof (sec_nonempty _ _ Hsec) as Hn.
  assert (∀ k, (k < Z.to_nat (NumberOfSections c))%nat →
    VirtualAddress File c (Z.of_nat k) + SizeOfRawData File c (Z.of_nat k)
      = VirtualAddress File c 0 ∨
    VirtualAddress File c (Z.of_nat k) + SizeOfRawData File c (Z.of_nat k) <= size File) as Hk.
  { induction k as [|k IH]; intros Hlt.
    - pose proof (sec_in_file _ _ Hsec 0 ltac:(lia)). destruct (Hall 0 ltac:(lia)) as [Hp _].
      destruct (section_fields_u32 File c Hfile 0) as (_ & _ & [? _] & _). change (Z.of_nat 0) with 0. lia.
    - specialize (IH ltac:(lia)). set (i := Z.of_nat k) in *.
      replace (Z.of_nat (S k)) with (i + 1) by lia.
      pose proof (sec_in_file _ _ Hsec (i + 1) ltac:(lia)).
      destruct (Hall (i + 1) ltac:(lia)) as [Hp _].
      destruct (section_fields_u32 File c Hfile (i + 1)) as (_ & _ & [? _] & _).
      pose proof (sec_adjacent _ _ Hsec i Hs ltac:(lia)) as Hadj.
      rewrite inplace_aligned_end in Hadj by (done || lia). case_match; lia. }
  specialize (Hk (Z.to_nat (NumberOfSections c - 1)) ltac:(lia)).
  rewrite Z2Nat.id in Hk by lia.
  pose proof (sec_adjacent _ _ Hsec (NumberOfSections c - 1) Hs ltac:(lia)) as Hadj.
  rewrite inplace_aligned_end in Hadj by (done || lia). case_match; lia.
Qed.
End Inplace.

(** ** Discarding *)

Section Discard.
Context `{!Platform, !PlatformOk} (File : list Z) (c : PE_COFF_LOADER_IMAGE_CONTEXT).
Context (Hfile : bytes File) (Hwf : WellFormed File c).

Definition discardable (i : Z) : bool :=
  negb (Z.land (Characteristics File c i) EFI_IMAGE_SCN_MEM_DISCARDABLE =? 0).

Definition in_section (x i : Z) : bool :=
  (VirtualAddress File c i <=? x) && (x <? section_end File c i).

(** RVA [x] belongs to a discardable section below [n]. *)
Definition discarded (n x : Z) : bool :=
  existsb (λ i, discardable i && in_section x i) (seqZ 0 n).

Lemma discarded_S n x :
  0 <= n → discarded (n + 1) x = discarded n x || (discardable n && in_section x n).
Proof.
  intros. unfold discarded. rewrite (seqZ_app 0 n 1) by lia.
  rewrite existsb_app, Z.add_0_l, (seqZ_cons n 1) by lia.
  cbn. by rewrite orb_false_r.
Qed.

Lemma PeCoffDiscardSections_spec s E :
  Context s = set_ImageBuffer ImageDestination c → FileBuffer s = File →
  SizeOfImage c <= size (Destination s) →
  wp PeCoffDiscardSections
    (λ _ s', ∃ D, size D = size (Destination s) ∧
       s' = {| Context := set_RelocDirSize 0 (set_RelocDirRva 0 (Context s)); FileBuffer := File;
               Destination := D; RuntimeContext := RuntimeContext s |} ∧
       ∀ x, byte_at D x = if discarded (NumberOfSections c) x then 0 else byte_at (Destination s) x)
    E s.
Proof.
  intros Hc HF HD. destruct (wf_table File c Hwf) as (Ht & _ & Hn). destruct Hwf as (_ & Hs & _).
  destruct s as [c0 F D rt]; cbn in Hc, HF, HD; subst.
  unfold PeCoffDiscardSections. do 3 (wp_step; wp_step). cbn.
  set (c1 := set_RelocDirSize 0 _).
  set (st D := {| Context := c1; FileBuffer := File; Destination := D; RuntimeContext := rt |}).
  eapply wp_mono.
  { apply (wp_for_loop (λ j _ s', ∃ D', s' = st D' ∧ size D' = size D ∧
      ∀ x, byte_at D' x = if discarded j x then 0 else byte_at D x) E).
    - exists D. split_and!; done.
    - intros j [] ? Hj (D' & -> & HD' & Hx). rewrite Z2Nat.id in Hj by done.
      unfold DiscardSection. wp_step. apply wp_read_section; [done..|]. intros _.
      change (load _ _ _) with (Characteristics File c j). fold (discardable j).
      apply wp_if; intros Hd.
      + wp_step. apply wp_read_section; [done..|]. intros Hva.
        wp_step. apply wp_read_section; [done..|]. intros Hvs.
        change (load _ _ (section_field _ _ SECT_VirtualSize)) with (VirtualSize File c j) in *.
        change (load _ _ (section_field _ _ SECT_VirtualAddress)) with (VirtualAddress File c j) in *.
        pose proof (sec_in_image _ _ Hs j ltac:(lia)) as Hin. unfold section_end, is_uint in *.
        apply wp_ZeroMem; [lia|cbn; lia|]. eexists. split; [reflexivity|]. cbn.
        rewrite size_write_bytes by (rewrite ?size_zeros; lia). split; [done|]. intros x.
        rewrite byte_at_write_bytes, size_zeros, byte_at_zeros, Hx by (rewrite ?size_zeros; lia).
        rewrite discarded_S, Hd by lia. cbn. unfold in_section, section_end.
        destruct (discarded j x); cbn; by case_match.
      + wp_step. exists D'. split_and!; try done. intros x.
        rewrite discarded_S, Hd by lia. cbn. rewrite orb_false_r. apply Hx. }
  2: done.
  cbn beta. rewrite Z.add_0_l, Z2Nat.id by done.
  intros _ ? (D' & -> & HD' & Hx). exists D'. split_and!; done.
Qed.
End Discard.

(** ** Properties *)

(** C3. PeCoffLoadImage succeeds on every verified image and large enough
    destination, accesses nothing out of bounds, leaves the file alone, and
    makes every byte of the destination the one the file specifies: header
    bytes if the headers are loaded, section data, and zeroes elsewhere, so
    nothing of the old contents survives. *)
Theorem PeCoffLoadImage_exact `{!Platform, !PlatformOk} (DestinationAddress : Z)
    (File D : list Z) (c : PE_COFF_LOADER_IMAGE_CONTEXT)
    (rt : option PE_COFF_LOADER_RUNTIME_CONTEXT) :
  bytes File → WellFormed File c → u32 (size D) → SizeOfImage c <= size D →
  IS_ALIGNED DestinationAddress (SectionAlignment c) = true →
  ∃ D', PeCoffLoadImage DestinationAddress (size D)
          {| Context := c; FileBuffer := File; Destination := D; RuntimeContext := rt |}
        = Ok tt {| Context := set_ImageBuffer ImageDestination c; FileBuffer := File;
                   Destination := D'; RuntimeContext := rt |} ∧
    size D' = size D ∧ ∀ x, 0 <= x < size D → byte_at D' x = loaded_byte File c x.
Proof.
  intros Hb Hwf Hu Hsz Hal.
  destruct (wp_total _ _ _ (PeCoffLoadImage_spec File c Hb Hwf rt (size D) Hu Hsz
    DestinationAddress c D _ eq_refl eq_refl Hal)) as ([] & s' & Hrun & D' & -> & Hrest).
  by exists D'.
Qed.

(** In-place loading never faults on a verified image.  It succeeds exactly if
    every section has the same place and size in the file and in memory; the
    image is then the file itself, and agrees with what PeCoffLoadImage would
    have built on every section.  Otherwise it changes nothing. *)
Theorem PeCoffLoadImageInplaceNoBase_agrees `{!Platform, !PlatformOk} (File D : list Z)
    (c : PE_COFF_LOADER_IMAGE_CONTEXT) (rt : option PE_COFF_LOADER_RUNTIME_CONTEXT) :
  bytes File → WellFormed File c →
  let s := {| Context := c; FileBuffer := File; Destination := D; RuntimeContext := rt |} in
  match PeCoffLoadImageInplaceNoBase s with
  | Ok _ s' =>
      (∀ i, 0 <= i < NumberOfSections c → inplace_section File c i) ∧
      s' = set_Context (set_ImageBuffer ImageFile) s ∧ image s' = File ∧
      ∀ i x, 0 <= i < NumberOfSections c → VirtualAddress File c i <= x < section_end File c i →
        byte_at (image s') x = loaded_byte File c x
  | Err e s' =>
      e = RETURN_VOLUME_CORRUPTED ∧ s' = s ∧
      ∃ i, 0 <= i < NumberOfSections c ∧ ¬ inplace_section File c i
  | Fault _ => False
  end.
Proof.
  intros Hb Hwf s.
  pose proof (wp_cases _ _ _ _ (PeCoffLoadImageInplaceNoBase_spec File c Hb Hwf s eq_refl eq_refl)) as Hrun.
  destruct (PeCoffLoadImageInplaceNoBase s) as [[] s'| |]; [|done..].
  destruct Hrun as [-> Hall]. split_and!; [done..|]. intros i x Hi Hx.
  destruct (Hall i Hi) as [Hptr Hraw]. assert (Hs := proj1 (proj2 Hwf)).
  pose proof (align_up_ge (VirtualSize File c i) _
    (IS_POW2_pos _ (proj1 (sec_align_u32 _ _ Hs)) (sec_pow2 _ _ Hs))).
  rewrite (loaded_byte_data File c Hb Hwf i) by
    (done || unfold data_end, data_size, section_end in *; lia).
  cbn. f_equal. lia.
Qed.

(** PeCoffDiscardSections zeroes exactly the discardable sections of the
    loaded image, keeps every other byte and the file, and forgets the
    relocation directory. *)
Theorem PeCoffDiscardSections_exact `{!Platform, !PlatformOk} (File D : list Z)
    (c : PE_COFF_LOADER_IMAGE_CONTEXT) (rt : option PE_COFF_LOADER_RUNTIME_CONTEXT) :
  bytes File → WellFormed File c → SizeOfImage c <= size D →
  ∃ D', PeCoffDiscardSections
          {| Context := set_ImageBuffer ImageDestination c; FileBuffer := File;
             Destination := D; RuntimeContext := rt |}
        = Ok tt {| Context := set_RelocDirSize 0 (set_RelocDirRva 0
                                (set_ImageBuffer ImageDestination c));
                   FileBuffer := File; Destination := D'; RuntimeContext := rt |} ∧
    size D' = size D ∧
    ∀ x, byte_at D' x = if discarded File c (NumberOfSections c) x then 0 else byte_at D x.
Proof.
  intros Hb Hwf Hsz.
  destruct (wp_total _ _ _ (PeCoffDiscardSections_spec File c Hb Hwf
    {| Context := set_ImageBuffer ImageDestination c; FileBuffer := File; Destination := D;
       RuntimeContext := rt |} _ eq_refl eq_refl Hsz)) as ([] & s' & Hrun & D' & HD' & -> & Hx).
  by exists D'.
Qed.

(** ** Witnesses on the sample image *)

Definition sample_destination : list Z := replicate 448 0xAA.

Definition sample_state : loader :=
  {| Context := sample_context; FileBuffer := sample_file; Destination := sample_destination;
     RuntimeContext := None |}.

(** The sample loaded at 0x2000, in a buffer that held 0xAA. *)
Definition sample_image : list Z := take 444 sample_file ++ [0; 0; 0; 0].

Definition sample_loaded : loader :=
  {| Context := set_ImageBuffer ImageDestination sample_context; FileBuffer := sample_file;
     Destination := sample_image; RuntimeContext := None |}.

Lemma sample_load : @PeCoffLoadImage platform_strict 0x2000 448 sample_state = Ok tt sample_loaded.
Proof. by vm_compute. Qed.

Lemma PeCoffLoadImage_exact_witness :
  ∃ D', @PeCoffLoadImage platform_strict 0x2000 448 sample_state
        = Ok tt {| Context := set_ImageBuffer ImageDestination sample_context;
                   FileBuffer := sample_file; Destination := D'; RuntimeContext := None |} ∧
    size D' = 448 ∧
    ∀ x, 0 <= x < 448 → byte_at D' x = @loaded_byte platform_strict sample_file sample_context x.
Proof.
  apply (@PeCoffLoadImage_exact platform_strict platform_strict_ok 0x2000 sample_file
    sample_destination sample_context None sample_file_bytes sample_well_formed); by vm_compute.
Defined.

Lemma sample_load_inplace :
  PeCoffLoadImageInplaceNoBase sample_state
    = Ok tt (set_Context (set_ImageBuffer ImageFile) sample_state).
Proof. by vm_compute. Qed.

Lemma PeCoffLoadImageInplaceNoBase_agrees_witness :
  image (set_Context (set_ImageBuffer ImageFile) sample_state) = sample_file ∧
  ∀ i x, 0 <= i < NumberOfSections sample_context →
    VirtualAddress sample_file sample_context i <= x < section_end sample_file sample_context i →
    byte_at (image (set_Context (set_ImageBuffer ImageFile) sample_state)) x
      = @loaded_byte platform_strict sample_file sample_context x.
Proof.
  pose proof (@PeCoffLoadImageInplaceNoBase_agrees platform_strict platform_strict_ok sample_file
    sample_destination sample_context None sample_file_bytes sample_well_formed) as Hs.
  cbv zeta in Hs. fold sample_state in Hs. rewrite sample_load_inplace in Hs.
  destruct Hs as (_ & _ & Himg & Hx). exact (conj Himg Hx).
Defined.

Lemma PeCoffDiscardSections_exact_witness :
  ∃ D', PeCoffDiscardSections sample_loaded
        = Ok tt {| Context := set_RelocDirSize 0 (set_RelocDirRva 0
                                (set_ImageBuffer ImageDestination sample_context));
                   FileBuffer := sample_file; Destination := D'; RuntimeContext := None |} ∧
    size D' = size sample_image ∧
    ∀ x, byte_at D' x =
      if discarded sample_file sample_context 2 x then 0 else byte_at sample_image x.
Proof.
  apply (@PeCoffDiscardSections_exact platform_strict platform_strict_ok sample_file sample_image
    sample_context None sample_file_bytes sample_well_formed); by vm_compute.
Defined.
