(* ===== verification/PeCoffRelocate.v ===== *)
(** PeCoffRelocate.c: base relocation of a loaded image, and its relocation at
    runtime.  The relocation directory is read from the image that is being
    relocated, so the functions interleave reads of the directory with writes
    to the image; [fixups] below is the directory read up front, and the
    theorems show that both give the same image. *)
From S2P Require Import Prelude Base Buffer Overflow PeImage PeSample PeCoffInit PeCoffLoad.

Definition SIZEOF_PE_COFF_LOADER_RUNTIME_CONTEXT : Z := 8.

Definition set_RuntimeContext (rt : option PE_COFF_LOADER_RUNTIME_CONTEXT) (s : loader) : loader :=
  {| Context := Context s; FileBuffer := FileBuffer s; Destination := Destination s;
     RuntimeContext := rt |}.

(** ReadUnalignedN and WriteUnalignedN on the image. *)
Definition read_image (n : nat) (off : Z) : LoadM Z := s ← getS; rd n (image s) off.
Definition store_image (n : nat) (off v : Z) : LoadM unit := write_image off (le_bytes n v).

(** ** ARM Thumb instructions *)

(** The immediate in the two halfwords of a MOVT or MOVW instruction. *)
Definition ThumbMovt_decode (Movt1 Movt2 : Z) : Z :=
  let Movt := Z.lor (Z.shiftl Movt1 16) Movt2 in
  let Address := wrap 16 (Z.land Movt 0x000000FF) in
  let Address := Z.lor Address (wrap 16 (Z.land (Z.shiftr Movt 4) 0x0000F700)) in
  Z.lor Address (wrap 16 (Z.shiftr (Z.land Movt (Z.shiftl 1 26)) 15)).

Definition ThumbMovtImmediateAddress (Instruction : Z) : LoadM Z :=
  Movt1 ← read_image 2 Instruction;
  Movt2 ← read_image 2 (Instruction + 2);
  mret (ThumbMovt_decode Movt1 Movt2).

(** The halfwords with the immediate replaced. *)
Definition ThumbMovt_patch1 (PatchedInstruction Address : Z) : Z :=
  let Patch := Z.shiftr (Z.land Address 0xF000) 12 in
  let Patch := Z.lor Patch (Z.shiftr (Z.land Address (Z.shiftl 1 11)) 1) in
  Z.lor (Z.land PatchedInstruction (Z.lnot 0x040F)) Patch.
Definition ThumbMovt_patch2 (PatchedInstruction Address : Z) : Z :=
  let Patch := Z.land Address 0x000000FF in
  let Patch := Z.lor Patch (Z.land (Z.shiftl Address 4) 0x00007000) in
  Z.lor (Z.land PatchedInstruction (Z.lnot 0x70FF)) Patch.

Definition ThumbMovtImmediatePatch (Instruction Address : Z) : LoadM unit :=
  PatchedInstruction ← read_image 2 Instruction;
  store_image 2 Instruction (ThumbMovt_patch1 PatchedInstruction Address);;
  PatchedInstruction ← read_image 2 (Instruction + 2);
  store_image 2 (Instruction + 2) (ThumbMovt_patch2 PatchedInstruction Address).

Definition PeCoffThumbMovwMovtImmediateAddress (Instructions : Z) : LoadM Z :=
  Top ← ThumbMovtImmediateAddress (Instructions + 2 * 2);
  Word ← ThumbMovtImmediateAddress Instructions;
  mret (Z.lor (Z.shiftl Top 16) Word).

Definition ThumbMovwMovtImmediatePatch (Instructions Address : Z) : LoadM unit :=
  ThumbMovtImmediatePatch Instructions (Z.land Address 0x0000FFFF);;
  ThumbMovtImmediatePatch (Instructions + 2 * 2) (Z.shiftr (Z.land Address 0xFFFF0000) 16).

Definition PeCoffThumbMovwMovtImmediateFixup (Instructions Adjust : Z) : LoadM unit :=
  Address ← PeCoffThumbMovwMovtImmediateAddress Instructions;
  let Fixup32 := wrap 32 (Address + wrap 32 Adjust) in
  ThumbMovwMovtImmediatePatch Instructions Fixup32.

Section Relocate.
Context `{!Platform, !OverflowLib} (FileAddress DestinationAddress : Z).

Definition IMAGE_RELOC_TYPE_SUPPORTED (Type_ : Z) : bool :=
  (Type_ =? EFI_IMAGE_REL_BASED_ABSOLUTE) || (Type_ =? EFI_IMAGE_REL_BASED_HIGHLOW)
  || (Type_ =? EFI_IMAGE_REL_BASED_DIR64)
  || (negb (bit_clear PcdImageLoaderRelocTypePolicy PCD_RELOC_TYPE_POLICY_ARM)
        && (Type_ =? EFI_IMAGE_REL_BASED_ARM_MOV32T)).

(** RelocBlock->VirtualAddress, ->SizeOfBlock and ->Relocations[Index]. *)
Definition block_VirtualAddress (RelocBlock : Z) : LoadM Z :=
  read_image 4 (RelocBlock + RELOC_VirtualAddress).
Definition block_SizeOfBlock (RelocBlock : Z) : LoadM Z :=
  read_image 4 (RelocBlock + RELOC_SizeOfBlock).
Definition block_Relocations (RelocBlock Index : Z) : LoadM Z :=
  read_image 2 (RelocBlock + SIZEOF_EFI_IMAGE_BASE_RELOCATION_BLOCK + 2 * Index).

(** if (FixupData != NULL) FixupData[RelocIndex] = v: [Index] counts from the
    start of the array of the runtime context. *)
Definition record_fixup (Index : option Z) (v : Z) : LoadM unit :=
  match Index with
  | None => mret tt
  | Some k =>
      s ← getS;
      match RuntimeContext s with
      | None => crash OutOfBounds
      | Some r =>
          require (in_bounds (FixupData r) (8 * k) 8) OutOfBounds;;
          modify (set_RuntimeContext (Some
            {| RtRelocDirRva := RtRelocDirRva r; RtRelocDirSize := RtRelocDirSize r;
               FixupData := write_bytes (FixupData r) (8 * k) (le_bytes 8 v) |}))
      end
  end.

(** ** InternalApplyRelocation *)

(** The target [Rva, Rva + n) overlaps the relocation directory. *)
Definition TargetsRelocDir (c : PE_COFF_LOADER_IMAGE_CONTEXT) (Rva n : Z) : bool :=
  (RelocDirRva c <? wrapn (Rva + n)) && (Rva <? wrap 32 (RelocDirRva c + RelocDirSize c)).

Definition ApplyRelocation_HighLow (RelocTargetRva RemRelocTargetSize Adjust : Z)
    (Index : option Z) : LoadM unit :=
  s ← getS;
  fail_if (RemRelocTargetSize <? 4) RETURN_VOLUME_CORRUPTED;;
  fail_if (TargetsRelocDir (Context s) RelocTargetRva 4) RETURN_VOLUME_CORRUPTED;;
  Fixup32 ← read_image 4 RelocTargetRva;
  let Fixup32 := wrap 32 (Fixup32 + wrap 32 Adjust) in
  store_image 4 RelocTargetRva Fixup32;;
  record_fixup Index Fixup32.

Definition ApplyRelocation_Dir64 (RelocTargetRva RemRelocTargetSize Adjust : Z)
    (Index : option Z) : LoadM unit :=
  s ← getS;
  fail_if (RemRelocTargetSize <? 8) RETURN_VOLUME_CORRUPTED;;
  fail_if (TargetsRelocDir (Context s) RelocTargetRva 8) RETURN_VOLUME_CORRUPTED;;
  Fixup64 ← read_image 8 RelocTargetRva;
  let Fixup64 := wrap 64 (Fixup64 + Adjust) in
  store_image 8 RelocTargetRva Fixup64;;
  record_fixup Index Fixup64.

Definition ApplyRelocation_ArmMov32t (RelocTargetRva RemRelocTargetSize Adjust : Z)
    (Index : option Z) : LoadM unit :=
  s ← getS;
  fail_if (bit_clear PcdImageLoaderRelocTypePolicy PCD_RELOC_TYPE_POLICY_ARM)
    RETURN_VOLUME_CORRUPTED;;
  fail_if (RemRelocTargetSize <? 8) RETURN_VOLUME_CORRUPTED;;
  fail_if (negb (IS_ALIGNED RelocTargetRva ALIGNOF_UINT16)) RETURN_VOLUME_CORRUPTED;;
  fail_if (TargetsRelocDir (Context s) RelocTargetRva 8) RETURN_VOLUME_CORRUPTED;;
  PeCoffThumbMovwMovtImmediateFixup RelocTargetRva Adjust;;
  match Index with
  | None => mret tt
  | Some _ => v ← read_image 8 RelocTargetRva; record_fixup Index v
  end.

(** [Index]: where the bookkeeping value goes, or None for a NULL FixupData. *)
Definition InternalApplyRelocation (RelocBlock RelocIndex Adjust : Z) (Index : option Z)
    : LoadM unit :=
  s ← getS;
  Relocation ← block_Relocations RelocBlock RelocIndex;
  let RelocType := IMAGE_RELOC_TYPE Relocation in
  let RelocOffset := IMAGE_RELOC_OFFSET Relocation in
  if RelocType =? EFI_IMAGE_REL_BASED_ABSOLUTE then record_fixup Index 0
  else
    BlockVa ← block_VirtualAddress RelocBlock;
    let '(Overflow, RelocTargetRva) := ovf_add_u32 BlockVa RelocOffset in
    fail_if Overflow RETURN_VOLUME_CORRUPTED;;
    let '(Overflow, RemRelocTargetSize) := ovf_sub_u32 (SizeOfImage (Context s)) RelocTargetRva in
    fail_if Overflow RETURN_VOLUME_CORRUPTED;;
    if RelocType =? EFI_IMAGE_REL_BASED_HIGHLOW then
      ApplyRelocation_HighLow RelocTargetRva RemRelocTargetSize Adjust Index
    else if RelocType =? EFI_IMAGE_REL_BASED_DIR64 then
      ApplyRelocation_Dir64 RelocTargetRva RemRelocTargetSize Adjust Index
    else if RelocType =? EFI_IMAGE_REL_BASED_ARM_MOV32T then
      ApplyRelocation_ArmMov32t RelocTargetRva RemRelocTargetSize Adjust Index
    else raise RETURN_UNSUPPORTED.

(** ** PeCoffRelocateImage *)

(** Unaligned relocation block sizes are not permitted. *)
Definition strict_blocks : bool :=
  bit_clear PcdImageLoaderAlignmentPolicy PCD_ALIGNMENT_POLICY_RELOCATION_BLOCK_SIZES.

(** The body of the while loop up to its inner loop: the checks of the block
    header; returns RelocBlockSize and NumRelocs. *)
Definition CheckRelocBlock (RelocBlockOffset RelocBlockOffsetMax : Z) : LoadM (Z * Z) :=
  SizeOfBlock ← block_SizeOfBlock RelocBlockOffset;
  let '(Overflow, SizeOfRelocs) :=
    ovf_sub_u32 SizeOfBlock SIZEOF_EFI_IMAGE_BASE_RELOCATION_BLOCK in
  fail_if Overflow RETURN_VOLUME_CORRUPTED;;
  fail_if (wrap 32 (RelocBlockOffsetMax - RelocBlockOffset) <? SizeOfRelocs)
    RETURN_VOLUME_CORRUPTED;;
  RelocBlockSize ←
    (if strict_blocks then
       fail_if (negb (IS_ALIGNED SizeOfBlock ALIGNOF_EFI_IMAGE_BASE_RELOCATION_BLOCK))
         RETURN_VOLUME_CORRUPTED;;
       mret SizeOfBlock
     else mret (ALIGN_VALUE 32 SizeOfBlock ALIGNOF_EFI_IMAGE_BASE_RELOCATION_BLOCK));
  mret (RelocBlockSize, SizeOfRelocs / 2).

(** The while loop; returns RelocBlockOffset and FixupDataIndex. *)
Fixpoint RelocateBlocks (fuel : nat) (RelocBlockOffsetMax Adjust : Z)
    (RelocBlockOffset FixupDataIndex : Z) : LoadM (Z * Z) :=
  if RelocBlockOffset <=? RelocBlockOffsetMax then
    match fuel with
    | O => crash OutOfFuel
    | S fuel' =>
        s ← getS;
        '(RelocBlockSize, NumRelocs) ← CheckRelocBlock RelocBlockOffset RelocBlockOffsetMax;
        let HasRuntime := bool_decide (is_Some (RuntimeContext s)) in
        for_loop (Z.to_nat NumRelocs) 0
          (λ RelocIndex _, InternalApplyRelocation RelocBlockOffset RelocIndex Adjust
             (if HasRuntime then Some (FixupDataIndex + RelocIndex) else None)) tt;;
        RelocateBlocks fuel' RelocBlockOffsetMax Adjust
          (wrap 32 (RelocBlockOffset + RelocBlockSize))
          (if HasRuntime then wrap 32 (FixupDataIndex + NumRelocs) else FixupDataIndex)
    end
  else mret (RelocBlockOffset, FixupDataIndex).

(** ZeroMem of the rest of FixupData. *)
Definition ClearFixupData (RuntimeContextSize FixupDataIndex : Z) : LoadM unit :=
  s ← getS;
  match RuntimeContext s with
  | None => mret tt
  | Some r =>
      let n := wrapn (RuntimeContextSize - SIZEOF_PE_COFF_LOADER_RUNTIME_CONTEXT
                        - wrapn (FixupDataIndex * 8)) in
      require ((n =? 0) || in_bounds (FixupData r) (8 * FixupDataIndex) n) OutOfBounds;;
      modify (set_RuntimeContext (Some
        {| RtRelocDirRva := RtRelocDirRva r; RtRelocDirSize := RtRelocDirSize r;
           FixupData := write_bytes (FixupData r) (8 * FixupDataIndex) (zeros n) |}))
  end.

(** Initialise the header of the runtime context. *)
Definition InitRuntimeContext : LoadM unit :=
  s ← getS;
  match RuntimeContext s with
  | None => mret tt
  | Some r =>
      modify (set_RuntimeContext (Some
        {| RtRelocDirRva := RelocDirRva (Context s); RtRelocDirSize := RelocDirSize (Context s);
           FixupData := FixupData r |}))
  end.

Definition PeCoffRelocateImage (BaseAddress RuntimeContextSize : Z) : LoadM unit :=
  s ← getS;
  let c := Context s in
  let HasRuntime := bool_decide (is_Some (RuntimeContext s)) in
  ASSERT (negb (RelocsStripped c) || (BaseAddress =? ImageBase c));;
  ASSERT (HasRuntime || (RuntimeContextSize =? 0));;
  ASSERT (negb HasRuntime
            || (wrapn (SIZEOF_PE_COFF_LOADER_RUNTIME_CONTEXT + wrapn (RelocDirSize c * (8 / 2)))
                  <=? RuntimeContextSize));;
  InitRuntimeContext;;
  if RelocDirSize c =? 0 then mret tt
  else
    let Adjust := wrap 64 (BaseAddress - ImageBase c) in
    if negb HasRuntime && (Adjust =? 0) then mret tt
    else
      let TopOfRelocDir := wrap 32 (RelocDirRva c + RelocDirSize c) in
      let RelocBlockOffsetMax := wrap 32 (TopOfRelocDir - SIZEOF_EFI_IMAGE_BASE_RELOCATION_BLOCK) in
      TopOfRelocDir ←
        (if negb strict_blocks then
           let '(Overflow, Top) :=
             ovf_align_up_u32 TopOfRelocDir ALIGNOF_EFI_IMAGE_BASE_RELOCATION_BLOCK in
           fail_if Overflow RETURN_VOLUME_CORRUPTED;;
           mret Top
         else mret TopOfRelocDir);
      '(RelocBlockOffset, FixupDataIndex) ←
        RelocateBlocks (Z.to_nat (RelocDirSize c)) RelocBlockOffsetMax Adjust (RelocDirRva c) 0;
      fail_if (negb (RelocBlockOffset =? TopOfRelocDir)) RETURN_VOLUME_CORRUPTED;;
      ClearFixupData RuntimeContextSize FixupDataIndex.

(** ** PeCoffLoaderGetRuntimeContextSize *)

Definition PeCoffLoaderGetRuntimeContextSize : LoadM Z :=
  s ← getS;
  ASSERT (negb (RelocsStripped (Context s)));;
  let '(Overflow, FixupDataSize) := ovf_mul_u32 (RelocDirSize (Context s)) (8 / 2) in
  fail_if Overflow RETURN_UNSUPPORTED;;
  let '(Overflow, Size) := ovf_add_u32 FixupDataSize SIZEOF_PE_COFF_LOADER_RUNTIME_CONTEXT in
  fail_if Overflow RETURN_UNSUPPORTED;;
  mret Size.

(** ** PeCoffRuntimeRelocateImage *)

(** Skip or abort when the target is not what the first relocation left. *)
Definition TargetMismatch : LoadM bool :=
  if PcdImageLoaderRtRelocAllowTargetMismatch then mret true
  else raise RETURN_VOLUME_CORRUPTED.

Definition InternalApplyRelocationRuntime (Fixup RelocType Adjust FixupValue : Z) : LoadM unit :=
  ASSERT (IMAGE_RELOC_TYPE_SUPPORTED RelocType
            && negb (RelocType =? EFI_IMAGE_REL_BASED_ABSOLUTE));;
  if RelocType =? EFI_IMAGE_REL_BASED_HIGHLOW then
    Fixup32 ← read_image 4 Fixup;
    if negb (FixupValue =? Fixup32) then TargetMismatch;; mret tt
    else store_image 4 Fixup (wrap 32 (Fixup32 + wrap 32 Adjust))
  else if RelocType =? EFI_IMAGE_REL_BASED_DIR64 then
    Fixup64 ← read_image 8 Fixup;
    if negb (FixupValue =? Fixup64) then TargetMismatch;; mret tt
    else store_image 8 Fixup (wrap 64 (Fixup64 + Adjust))
  else if RelocType =? EFI_IMAGE_REL_BASED_ARM_MOV32T then
    ASSERT (negb (bit_clear PcdImageLoaderRelocTypePolicy PCD_RELOC_TYPE_POLICY_ARM));;
    Fixup64 ← read_image 8 Fixup;
    if negb (FixupValue =? Fixup64) then TargetMismatch;; mret tt
    else PeCoffThumbMovwMovtImmediateFixup Fixup Adjust
  else ASSERT false.

(** RuntimeContext->FixupData[Index] *)
Definition read_fixup (r : PE_COFF_LOADER_RUNTIME_CONTEXT) (Index : Z) : LoadM Z :=
  rd 8 (FixupData r) (8 * Index).

(** The body of the inner loop; FixupDataIndex counts the relocations. *)
Definition RuntimeRelocation (r : PE_COFF_LOADER_RUNTIME_CONTEXT) (RelocBlock Adjust : Z)
    (RelocIndex FixupDataIndex : Z) : LoadM Z :=
  Relocation ← block_Relocations RelocBlock RelocIndex;
  if IMAGE_RELOC_TYPE Relocation =? EFI_IMAGE_REL_BASED_ABSOLUTE then
    mret (wrap 32 (FixupDataIndex + 1))
  else
    let RelocOffset := IMAGE_RELOC_OFFSET Relocation in
    BlockVa ← block_VirtualAddress RelocBlock;
    ASSERT (RelocOffset <=? wrap 32 (BlockVa + RelocOffset));;
    let RelocTarget := wrap 32 (BlockVa + RelocOffset) in
    FixupValue ← read_fixup r FixupDataIndex;
    InternalApplyRelocationRuntime RelocTarget (IMAGE_RELOC_TYPE Relocation) Adjust FixupValue;;
    mret (wrap 32 (FixupDataIndex + 1)).

(** The while loop; returns RelocBlockOffset. *)
Fixpoint RuntimeRelocateBlocks (fuel : nat) (r : PE_COFF_LOADER_RUNTIME_CONTEXT)
    (TopOfRelocDir Adjust RelocBlockOffset FixupDataIndex : Z) : LoadM Z :=
  if RelocBlockOffset <? TopOfRelocDir then
    match fuel with
    | O => crash OutOfFuel
    | S fuel' =>
        ASSERT (IS_ALIGNED RelocBlockOffset ALIGNOF_EFI_IMAGE_BASE_RELOCATION_BLOCK);;
        SizeOfBlock ← block_SizeOfBlock RelocBlockOffset;
        ASSERT (SIZEOF_EFI_IMAGE_BASE_RELOCATION_BLOCK <=? SizeOfBlock);;
        let SizeOfRelocs := wrap 32 (SizeOfBlock - SIZEOF_EFI_IMAGE_BASE_RELOCATION_BLOCK) in
        let NumRelocs := SizeOfRelocs / 2 in
        FixupDataIndex ←
          for_loop (Z.to_nat NumRelocs) 0 (RuntimeRelocation r RelocBlockOffset Adjust)
            FixupDataIndex;
        SizeOfBlock ← block_SizeOfBlock RelocBlockOffset;
        RelocBlockSize ←
          (if strict_blocks then
             ASSERT (IS_ALIGNED SizeOfBlock ALIGNOF_EFI_IMAGE_BASE_RELOCATION_BLOCK);;
             mret SizeOfBlock
           else mret (ALIGN_VALUE 32 SizeOfBlock ALIGNOF_EFI_IMAGE_BASE_RELOCATION_BLOCK));
        RuntimeRelocateBlocks fuel' r TopOfRelocDir Adjust
          (wrap 32 (RelocBlockOffset + RelocBlockSize)) FixupDataIndex
    end
  else mret RelocBlockOffset.

(** [r]: the runtime context PeCoffRelocateImage filled; Image is the image of
    the state. *)
Definition PeCoffRuntimeRelocateImage (BaseAddress : Z) (r : PE_COFF_LOADER_RUNTIME_CONTEXT)
    : LoadM unit :=
  s ← getS;
  ASSERT (negb (BaseAddress =? 0));;
  if RtRelocDirSize r =? 0 then mret tt
  else
    let ImageAddress := image_address FileAddress DestinationAddress (ImageBuffer (Context s)) in
    let Adjust := wrap 64 (BaseAddress - ImageAddress) in
    if Adjust =? 0 then mret tt
    else
      let TopOfRelocDir := wrap 32 (RtRelocDirRva r + RtRelocDirSize r) in
      RelocBlockOffset ←
        RuntimeRelocateBlocks (Z.to_nat (RtRelocDirSize r)) r TopOfRelocDir Adjust
          (RtRelocDirRva r) 0;
      let TopOfRelocDir :=
        if negb strict_blocks
        then ALIGN_VALUE 32 TopOfRelocDir ALIGNOF_EFI_IMAGE_BASE_RELOCATION_BLOCK
        else TopOfRelocDir in
      ASSERT (RelocBlockOffset =? TopOfRelocDir).

(** ** PeCoffRelocateImageInplace *)

(** The RuntimeContext argument is NULL. *)
Definition PeCoffRelocateImageInplace : LoadM unit :=
  PeCoffLoadImageInplaceNoBase;;
  NewBase ← PeCoffLoaderGetImageAddress FileAddress DestinationAddress;
  modify (set_RuntimeContext None);;
  PeCoffRelocateImage NewBase 0.
End Relocate.

(** ** The Thumb instruction encoding *)

Lemma u16_ext x y :
  u16 x → u16 y → (∀ i, 0 <= i < 16 → Z.testbit x i = Z.testbit y i) → x = y.
Proof.
  intros Hx Hy H. apply Z.bits_inj'. intros i Hi. destruct (decide (i < 16)); [auto|].
  by rewrite !(uint_testbit_high 16) by (done || lia).
Qed.

(** Case analysis on a bit position below 16. *)
Ltac bit_cases i :=
  assert (i = 0 ∨ i = 1 ∨ i = 2 ∨ i = 3 ∨ i = 4 ∨ i = 5 ∨ i = 6 ∨ i = 7 ∨ i = 8 ∨ i = 9 ∨
          i = 10 ∨ i = 11 ∨ i = 12 ∨ i = 13 ∨ i = 14 ∨ i = 15) as Hcases by lia;
  destruct_or! Hcases; subst i.

Ltac bits := unfold wrap;
  repeat first [rewrite Z.lor_spec|rewrite Z.land_spec|rewrite Z.shiftr_spec by lia
               |rewrite Z.shiftl_spec by lia|rewrite Z.lnot_spec by lia
               |rewrite Z.mod_pow2_bits_low by lia].

Lemma testbit_u16_bound x : 0 <= x → (∀ i, 16 <= i → Z.testbit x i = false) → u16 x.
Proof.
  intros Hx H. split; [done|]. destruct (decide (x < 2 ^ 16)); [done|].
  assert (Hlog := Z.log2_le_mono (2 ^ 16) x ltac:(lia)). rewrite Z.log2_pow2 in Hlog by lia.
  specialize (H (Z.log2 x) Hlog). rewrite Z.bit_log2 in H by lia. done.
Qed.

Lemma patch1_u16 m a : u16 m → u16 a → u16 (ThumbMovt_patch1 m a).
Proof.
  intros Hm Ha. apply testbit_u16_bound.
  - destruct Hm, Ha. unfold ThumbMovt_patch1.
    repeat first [apply Z.lor_nonneg; split|apply Z.land_nonneg; left|apply Z.shiftr_nonneg]; done.
  - intros i Hi. unfold ThumbMovt_patch1. bits.
    rewrite !(uint_testbit_high 16 a), (uint_testbit_high 16 m) by (done || lia). by cbn.
Qed.

Lemma patch2_u16 m a : u16 m → u16 a → u16 (ThumbMovt_patch2 m a).
Proof.
  intros Hm Ha. apply testbit_u16_bound.
  - destruct Hm, Ha. unfold ThumbMovt_patch2.
    repeat first [apply Z.lor_nonneg; split|apply Z.land_nonneg; left|apply Z.shiftl_nonneg]; done.
  - intros i Hi. unfold ThumbMovt_patch2. bits.
    rewrite (uint_testbit_high 16 m), (uint_testbit_high 16 a i) by (done || lia).
    rewrite (uint_testbit_high 16 0x7000) by (split; lia || done). by rewrite andb_false_r.
Qed.

Lemma decode_u16 m1 m2 : u16 m1 → u16 m2 → u16 (ThumbMovt_decode m1 m2).
Proof.
  intros [H1 _] [H2 _]. apply testbit_u16_bound; unfold ThumbMovt_decode.
  - repeat (apply Z.lor_nonneg; split); apply wrap_range; lia.
  - intros i Hi. rewrite !Z.lor_spec, !(uint_testbit_high 16) by first [apply wrap_range; lia|lia].
    done.
Qed.

(** Evaluate bits of constants and constant positions. *)
Ltac bit_consts :=
  repeat match goal with
  | |- context [Z.testbit (Z.pos ?p) ?k] =>
      let b := eval vm_compute in (Z.testbit (Z.pos p) k) in
      change (Z.testbit (Z.pos p) k) with b
  | |- context [Z.testbit ?x (?a + ?b)] =>
      let k := eval vm_compute in (a + b) in change (Z.testbit x (a + b)) with (Z.testbit x k)
  | |- context [Z.testbit ?x (?a - ?b)] =>
      let k := eval vm_compute in (a - b) in change (Z.testbit x (a - b)) with (Z.testbit x k)
  | |- context [Z.testbit ?x (Z.neg ?p)] => rewrite (Z.testbit_neg_r x (Z.neg p)) by lia
  end;
  rewrite ?andb_true_r, ?andb_false_r, ?orb_false_r, ?orb_true_r, ?orb_false_l.

(** Which bits of the halfwords hold the immediate. *)
Lemma decode_bits m1 m2 i :
  u16 m1 → u16 m2 → 0 <= i < 16 →
  Z.testbit (ThumbMovt_decode m1 m2) i =
    if i <? 8 then Z.testbit m2 i else if i <? 11 then Z.testbit m2 (i + 4)
    else if i =? 11 then Z.testbit m1 10 else Z.testbit m1 (i - 12).
Proof.
  intros H1 H2 Hi. unfold ThumbMovt_decode. bits.
  bit_cases i; cbn [Z.ltb Z.eqb Z.compare Pos.compare Pos.compare_cont Pos.eqb]; bit_consts;
    rewrite ?(uint_testbit_high 16 m2) by (done || lia); rewrite ?orb_false_r; done.
Qed.

Lemma patch1_bits m a i :
  u16 m → u16 a → 0 <= i < 16 →
  Z.testbit (ThumbMovt_patch1 m a) i =
    if i <? 4 then Z.testbit a (i + 12) else if i =? 10 then Z.testbit a 11 else Z.testbit m i.
Proof.
  intros H1 H2 Hi. unfold ThumbMovt_patch1. bits.
  bit_cases i; cbn [Z.ltb Z.eqb Z.compare Pos.compare Pos.compare_cont Pos.eqb]; bit_consts; done.
Qed.

Lemma patch2_bits m a i :
  u16 m → u16 a → 0 <= i < 16 →
  Z.testbit (ThumbMovt_patch2 m a) i =
    if i <? 8 then Z.testbit a i
    else if (12 <=? i) && (i <? 15) then Z.testbit a (i - 4) else Z.testbit m i.
Proof.
  intros H1 H2 Hi. unfold ThumbMovt_patch2. bits.
  bit_cases i; cbn [Z.ltb Z.leb andb Z.eqb Z.compare Pos.compare Pos.compare_cont Pos.eqb]; bit_consts; done.
Qed.

(** Reading back a patched immediate, and patching in what was read. *)
Lemma decode_patch m1 m2 a :
  u16 m1 → u16 m2 → u16 a → ThumbMovt_decode (ThumbMovt_patch1 m1 a) (ThumbMovt_patch2 m2 a) = a.
Proof.
  intros H1 H2 Ha. pose proof (patch1_u16 m1 a H1 Ha). pose proof (patch2_u16 m2 a H2 Ha).
  apply u16_ext; [by apply decode_u16|done|]. intros i Hi. rewrite decode_bits by done.
  repeat case_match; rewrite ?patch2_bits, ?patch1_bits by (done || lia);
    repeat case_match; try lia; f_equal; lia.
Qed.

Lemma patch_decode m1 m2 :
  u16 m1 → u16 m2 →
  ThumbMovt_patch1 m1 (ThumbMovt_decode m1 m2) = m1 ∧
  ThumbMovt_patch2 m2 (ThumbMovt_decode m1 m2) = m2.
Proof.
  intros H1 H2. pose proof (decode_u16 m1 m2 H1 H2).
  split; apply u16_ext; auto using patch1_u16, patch2_u16; intros i Hi;
    rewrite ?patch1_bits, ?patch2_bits by done; repeat case_match; try done;
    rewrite decode_bits by (done || lia); repeat case_match; try lia; f_equal; lia.
Qed.

(** ** Reference semantics of a relocation *)

(** The address a MOVW/MOVT pair encodes, and the image with it replaced. *)
Definition thumb_decode (img : list Z) (off : Z) : Z :=
  ThumbMovt_decode (load 2 img off) (load 2 img (off + 2)).
Definition thumb_address (img : list Z) (off : Z) : Z :=
  Z.lor (Z.shiftl (thumb_decode img (off + 2 * 2)) 16) (thumb_decode img off).
Definition thumb_patch (img : list Z) (off a : Z) : list Z :=
  let img1 := write_bytes img off (le_bytes 2 (ThumbMovt_patch1 (load 2 img off) a)) in
  write_bytes img1 (off + 2) (le_bytes 2 (ThumbMovt_patch2 (load 2 img1 (off + 2)) a)).
Definition thumb_fixup (Adjust : Z) (img : list Z) (off : Z) : list Z :=
  let a := wrap 32 (thumb_address img off + wrap 32 Adjust) in
  thumb_patch (thumb_patch img off (Z.land a 0xFFFF)) (off + 2 * 2)
    (Z.shiftr (Z.land a 0xFFFF0000) 16).

(** One base relocation: its number, its type and the RVA it targets. *)
Record fixup := { fx_index : Z; fx_type : Z; fx_target : Z }.

Definition fx_width (t : Z) : nat :=
  if t =? EFI_IMAGE_REL_BASED_ABSOLUTE then 0%nat
  else if t =? EFI_IMAGE_REL_BASED_HIGHLOW then 4%nat else 8%nat.

(** The image with the displacement added at the target. *)
Definition apply_fixup (Adjust : Z) (img : list Z) (f : fixup) : list Z :=
  if fx_type f =? EFI_IMAGE_REL_BASED_ABSOLUTE then img
  else if fx_type f =? EFI_IMAGE_REL_BASED_HIGHLOW then
    write_bytes img (fx_target f)
      (le_bytes 4 (wrap 32 (load 4 img (fx_target f) + wrap 32 Adjust)))
  else if fx_type f =? EFI_IMAGE_REL_BASED_DIR64 then
    write_bytes img (fx_target f) (le_bytes 8 (wrap 64 (load 8 img (fx_target f) + Adjust)))
  else thumb_fixup Adjust img (fx_target f).

(** The bookkeeping value: what the target holds after the relocation. *)
Definition fixup_value (img : list Z) (f : fixup) : Z := load (fx_width (fx_type f)) img (fx_target f).

Definition record_value (f : fixup) (img : list Z) (r : PE_COFF_LOADER_RUNTIME_CONTEXT)
    : PE_COFF_LOADER_RUNTIME_CONTEXT :=
  {| RtRelocDirRva := RtRelocDirRva r; RtRelocDirSize := RtRelocDirSize r;
     FixupData := write_bytes (FixupData r) (8 * fx_index f) (le_bytes 8 (fixup_value img f)) |}.

(** Image and runtime context after one relocation. *)
Definition step_fixup (Adjust : Z)
    (st : list Z * option PE_COFF_LOADER_RUNTIME_CONTEXT) (f : fixup) :=
  let img := apply_fixup Adjust st.1 f in (img, record_value f img <$> st.2).

(** ** States that differ in the image and the runtime context *)

Section AtImage.
Context (s0 : loader) (Hbuf : ImageBuffer (Context s0) ≠ ImageNull).

Definition at_image (st : list Z * option PE_COFF_LOADER_RUNTIME_CONTEXT) : loader :=
  set_RuntimeContext st.2 (set_image st.1 s0).

Lemma Context_at_image st : Context (at_image st) = Context s0.
Proof. unfold at_image, set_image. by destruct (ImageBuffer (Context s0)). Qed.

Lemma image_at_image st : image (at_image st) = st.1.
Proof.
  unfold image. rewrite Context_at_image. unfold at_image, set_image.
  by destruct (ImageBuffer (Context s0)).
Qed.

Lemma RuntimeContext_at_image st : RuntimeContext (at_image st) = st.2.
Proof. done. Qed.

Lemma set_image_at_image b st : set_image b (at_image st) = at_image (b, st.2).
Proof.
  unfold set_image at 1. rewrite Context_at_image. unfold at_image, set_image.
  by destruct (ImageBuffer (Context s0)) eqn:E; cbn; rewrite ?E.
Qed.

Lemma set_RuntimeContext_at_image rt st : set_RuntimeContext rt (at_image st) = at_image (st.1, rt).
Proof. done. Qed.

Lemma at_image_self : at_image (image s0, RuntimeContext s0) = s0.
Proof. unfold at_image. cbn. rewrite set_image_id. by destruct s0. Qed.

Lemma wp_read_image n off (Q : Z → loader → Prop) E st :
  0 <= off → off + Z.of_nat n <= size st.1 → Q (load n st.1 off) (at_image st) →
  wp (read_image n off) Q E (at_image st).
Proof.
  intros. unfold read_image. wp_step. wp_step. rewrite image_at_image. by apply wp_rd.
Qed.

Lemma wp_store_image n off v (Q : unit → loader → Prop) E st :
  0 <= off → off + Z.of_nat n <= size st.1 →
  Q tt (at_image (write_bytes st.1 off (le_bytes n v), st.2)) →
  wp (store_image n off v) Q E (at_image st).
Proof.
  intros. apply wp_write_image.
  - rewrite size_le_bytes, image_at_image. lia.
  - by rewrite image_at_image, set_image_at_image.
Qed.

(** The room FixupData needs for entry [k]. *)
Definition fixup_room (rt : option PE_COFF_LOADER_RUNTIME_CONTEXT) (k : Z) : Prop :=
  ∀ r, rt = Some r → 8 * k + 8 <= size (FixupData r).

Lemma wp_record_fixup k v (Q : unit → loader → Prop) E st f :
  fx_index f = k → 0 <= k → fixup_room st.2 k → v = fixup_value st.1 f →
  Q tt (at_image (st.1, record_value f st.1 <$> st.2)) →
  wp (record_fixup (if bool_decide (is_Some st.2) then Some k else None) v) Q E (at_image st).
Proof.
  intros <- Hk Hroom -> HQ. destruct st as [img [r|]]; cbn in *; [|by wp_step].
  wp_step. wp_step. cbn. wp_step. wp_step; [apply in_bounds_spec; specialize (Hroom r eq_refl); lia|].
  by wp_step.
Qed.

Lemma wp_thumb_address off (Q : Z → loader → Prop) E st :
  0 <= off → off + 8 <= size st.1 → Q (thumb_address st.1 off) (at_image st) →
  wp (PeCoffThumbMovwMovtImmediateAddress off) Q E (at_image st).
Proof.
  intros ? ? HQ. unfold PeCoffThumbMovwMovtImmediateAddress, ThumbMovtImmediateAddress.
  do 2 (wp_step; do 2 (wp_step; apply wp_read_image; [lia..|]); wp_step). wp_step. exact HQ.
Qed.

Lemma size_thumb_patch img off a :
  0 <= off → off + 4 <= size img → size (thumb_patch img off a) = size img.
Proof.
  intros. unfold thumb_patch. rewrite !size_write_bytes; rewrite ?size_le_bytes; try lia.
  rewrite size_write_bytes; rewrite ?size_le_bytes; lia.
Qed.

Lemma wp_thumb_patch off a (Q : unit → loader → Prop) E st :
  0 <= off → off + 4 <= size st.1 → Q tt (at_image (thumb_patch st.1 off a, st.2)) →
  wp (ThumbMovtImmediatePatch off a) Q E (at_image st).
Proof.
  intros ? ? HQ. unfold ThumbMovtImmediatePatch.
  wp_step. apply wp_read_image; [lia..|]. wp_step. apply wp_store_image; [lia..|].
  assert (size (write_bytes st.1 off (le_bytes 2 (ThumbMovt_patch1 (load 2 st.1 off) a))) = size st.1)
    as Hsz by (apply size_write_bytes; rewrite ?size_le_bytes; lia).
  wp_step. apply wp_read_image; [lia|cbn [fst]; lia|].
  apply wp_store_image; [lia|cbn [fst]; lia|exact HQ].
Qed.

Lemma wp_thumb_fixup Adjust off (Q : unit → loader → Prop) E st :
  0 <= off → off + 8 <= size st.1 → Q tt (at_image (thumb_fixup Adjust st.1 off, st.2)) →
  wp (PeCoffThumbMovwMovtImmediateFixup off Adjust) Q E (at_image st).
Proof.
  intros ? ? HQ. unfold PeCoffThumbMovwMovtImmediateFixup. wp_step.
  apply wp_thumb_address; [lia..|]. unfold ThumbMovwMovtImmediatePatch.
  wp_step. apply wp_thumb_patch; [lia..|].
  apply wp_thumb_patch; [lia|cbn [fst]; rewrite size_thumb_patch; lia|exact HQ].
Qed.
End AtImage.

(** ** The relocation directory *)

Section Directory.
Context `{!Platform} (c : PE_COFF_LOADER_IMAGE_CONTEXT).

(** Relocation [k] of the block at [off], whose relocations count from [idx]. *)
Definition block_fixup (img : list Z) (off idx k : Z) : fixup :=
  let e := load 2 img (off + SIZEOF_EFI_IMAGE_BASE_RELOCATION_BLOCK + 2 * k) in
  {| fx_index := idx + k; fx_type := IMAGE_RELOC_TYPE e;
     fx_target := load 4 img (off + RELOC_VirtualAddress) + IMAGE_RELOC_OFFSET e |}.

Definition block_size (img : list Z) (off : Z) : Z := load 4 img (off + RELOC_SizeOfBlock).
Definition block_count (img : list Z) (off : Z) : Z :=
  (block_size img off - SIZEOF_EFI_IMAGE_BASE_RELOCATION_BLOCK) / 2.

(** Where the next block starts. *)
Definition block_next (img : list Z) (off : Z) : Z :=
  off + align_up (block_size img off) ALIGNOF_EFI_IMAGE_BASE_RELOCATION_BLOCK.

Definition reloc_top : Z := RelocDirRva c + RelocDirSize c.

(** A relocation the loader may apply: of a supported type, inside the image,
    and not inside the relocation directory. *)
Definition valid_fixup (f : fixup) : Prop :=
  fx_type f = EFI_IMAGE_REL_BASED_ABSOLUTE ∨
  (IMAGE_RELOC_TYPE_SUPPORTED (fx_type f) = true ∧
   0 <= fx_target f ∧ fx_target f + Z.of_nat (fx_width (fx_type f)) <= SizeOfImage c ∧
   (fx_target f + Z.of_nat (fx_width (fx_type f)) <= RelocDirRva c ∨ reloc_top <= fx_target f)).

(** A well-formed block. *)
Definition valid_block (img : list Z) (off idx : Z) : Prop :=
  SIZEOF_EFI_IMAGE_BASE_RELOCATION_BLOCK <= block_size img off ∧
  off + block_size img off <= reloc_top ∧
  (strict_blocks = true → (ALIGNOF_EFI_IMAGE_BASE_RELOCATION_BLOCK | block_size img off)) ∧
  ∀ k, 0 <= k < block_count img off → valid_fixup (block_fixup img off idx k).

(** The relocations of the directory from [off] on, and where they end. *)
Fixpoint fixups (fuel : nat) (img : list Z) (off idx : Z) : list fixup * Z :=
  if off <=? reloc_top - SIZEOF_EFI_IMAGE_BASE_RELOCATION_BLOCK then
    match fuel with
    | O => ([], off)
    | S fuel' =>
        let n := block_count img off in
        let '(l, e) := fixups fuel' img (block_next img off) (idx + n) in
        (map (block_fixup img off idx) (seqZ 0 n) ++ l, e)
    end
  else ([], off).

(** Every block from [off] on is well-formed. *)
Fixpoint valid_blocks (fuel : nat) (img : list Z) (off idx : Z) : Prop :=
  off <= reloc_top - SIZEOF_EFI_IMAGE_BASE_RELOCATION_BLOCK →
  match fuel with
  | O => False
  | S fuel' =>
      valid_block img off idx ∧
      valid_blocks fuel' img (block_next img off) (idx + block_count img off)
  end.

(** Two images of the same size with the same relocation directory. *)
Definition same_directory (img0 img : list Z) : Prop :=
  size img = size img0 ∧
  ∀ x, RelocDirRva c <= x < reloc_top → byte_at img x = byte_at img0 x.

Lemma same_directory_refl img : same_directory img img.
Proof. done. Qed.

Lemma same_directory_load n img0 img off :
  same_directory img0 img → RelocDirRva c <= off → off + Z.of_nat n <= reloc_top →
  load n img off = load n img0 off.
Proof. intros [_ Hb] ? ?. apply load_ext. intros i Hi. apply Hb. lia. Qed.

(** Applying a valid relocation changes the target only. *)
Lemma byte_at_write_outside b off l x :
  0 <= off → off + size l <= size b → x < off ∨ off + size l <= x →
  byte_at (write_bytes b off l) x = byte_at b x.
Proof.
  intros. rewrite byte_at_write_bytes by lia.
  destruct (Z.leb_spec off x), (Z.ltb_spec x (off + size l)); cbn; lia || done.
Qed.

Lemma fx_width_supported t :
  t ≠ EFI_IMAGE_REL_BASED_ABSOLUTE →
  fx_width t = if t =? EFI_IMAGE_REL_BASED_HIGHLOW then 4%nat else 8%nat.
Proof. unfold fx_width. by destruct (Z.eqb_spec t EFI_IMAGE_REL_BASED_ABSOLUTE). Qed.

Lemma size_apply_fixup Adjust img f :
  SizeOfImage c <= size img → valid_fixup f → size (apply_fixup Adjust img f) = size img.
Proof.
  intros Hsz Hv. unfold apply_fixup.
  destruct (Z.eqb_spec (fx_type f) EFI_IMAGE_REL_BASED_ABSOLUTE) as [|Hnz]; [done|].
  destruct Hv as [|(Hsup & H0 & H1 & _)]; [done|]. rewrite fx_width_supported in H1 by done.
  case_match; [apply size_write_bytes; rewrite ?size_le_bytes; lia|].
  case_match; [apply size_write_bytes; rewrite ?size_le_bytes; lia|].
  unfold thumb_fixup. rewrite !size_thumb_patch; try lia. rewrite size_thumb_patch; lia.
Qed.

Lemma byte_at_thumb_patch img off a x :
  0 <= off → off + 4 <= size img → x < off ∨ off + 4 <= x →
  byte_at (thumb_patch img off a) x = byte_at img x.
Proof.
  intros. unfold thumb_patch.
  rewrite !byte_at_write_outside; rewrite ?size_write_bytes; rewrite ?size_le_bytes; lia || done.
Qed.

Lemma apply_fixup_outside Adjust img f x :
  SizeOfImage c <= size img → valid_fixup f →
  x < fx_target f ∨ fx_target f + Z.of_nat (fx_width (fx_type f)) <= x →
  byte_at (apply_fixup Adjust img f) x = byte_at img x.
Proof.
  intros Hsz Hv Hx. unfold apply_fixup.
  destruct (Z.eqb_spec (fx_type f) EFI_IMAGE_REL_BASED_ABSOLUTE) as [|Hnz]; [done|].
  destruct Hv as [|(Hsup & H0 & H1 & _)]; [done|]. rewrite fx_width_supported in Hx, H1 by done.
  case_match; [apply byte_at_write_outside; rewrite ?size_le_bytes; lia|].
  case_match; [apply byte_at_write_outside; rewrite ?size_le_bytes; lia|].
  unfold thumb_fixup. rewrite !byte_at_thumb_patch; rewrite ?size_thumb_patch; lia || done.
Qed.

Lemma same_directory_apply Adjust img0 img f :
  SizeOfImage c <= size img0 → same_directory img0 img → valid_fixup f →
  same_directory img0 (apply_fixup Adjust img f).
Proof.
  intros Hsz [Hs Hb] Hv. split; [rewrite size_apply_fixup by (done || lia); done|].
  intros x Hx. destruct (id Hv) as [Ht|(? & ? & ? & Hd)].
  - unfold apply_fixup. rewrite Ht. by apply Hb.
  - rewrite apply_fixup_outside; [by apply Hb|lia|done|lia].
Qed.
End Directory.

(** ** Relocating an image *)

Section Relocating.
Context `{!Platform, !PlatformOk, !OverflowLib} (s0 : loader) (img0 : list Z).
Abbreviation c := (Context s0).
Context (Hbuf : ImageBuffer c ≠ ImageNull) (Hbytes : bytes img0).
Context (Hsize : SizeOfImage c <= size img0) (Himage : u32 (SizeOfImage c)).
Context (Hdir : u32 (RelocDirRva c)) (Hdirsize : u32 (RelocDirSize c)).
Context (Htop : reloc_top c <= SizeOfImage c).
Context (Adjust : Z).

Definition fixup_index (rt : option PE_COFF_LOADER_RUNTIME_CONTEXT) (k : Z) : option Z :=
  if bool_decide (is_Some rt) then Some k else None.

Lemma TargetsRelocDir_spec rva n :
  0 <= rva → 0 <= n → rva + n <= SizeOfImage c → TargetsRelocDir c rva n = false →
  rva + n <= RelocDirRva c ∨ reloc_top c <= rva.
Proof.
  intros ? ? ? HT. unfold TargetsRelocDir, reloc_top, is_uint in *.
  rewrite wrapn_small, wrap_small in HT by (unfold is_uint; lia). lia.
Qed.

(** The cases of the switch.  [f] is the relocation, checked to be below
    SizeOfImage by the code before the switch. *)
Section Cases.
Context (st : list Z * option PE_COFF_LOADER_RUNTIME_CONTEXT) (f : fixup) (Rem : Z).
Context (Hst : same_directory c img0 st.1) (Hroom : fixup_room st.2 (fx_index f)).
Context (Hindex : 0 <= fx_index f) (Htarget : 0 <= fx_target f).
Context (HRem : Rem = SizeOfImage c - fx_target f).

Definition case_spec (m : LoadM unit) : Prop :=
  wp m (λ _ s', s' = at_image s0 (step_fixup Adjust st f) ∧ valid_fixup c f)
    (λ _ s', s' = at_image s0 st) (at_image s0 st).

Lemma ApplyRelocation_HighLow_spec :
  fx_type f = EFI_IMAGE_REL_BASED_HIGHLOW →
  case_spec (ApplyRelocation_HighLow (fx_target f) Rem Adjust (fixup_index st.2 (fx_index f))).
Proof.
  intros Ht. destruct Hst as [Hsz _]. unfold case_spec, ApplyRelocation_HighLow.
  wp_step. wp_step. rewrite (Context_at_image s0 Hbuf). wp_step. apply wp_fail_if; [done|]. intros Hrem.
  wp_step. apply wp_fail_if; [done|]. intros Hov%TargetsRelocDir_spec; [|lia..].
  wp_step. apply wp_read_image; [done|lia..|]. wp_step. apply wp_store_image; [done|lia..|].
  apply (wp_record_fixup s0 (fx_index f) _ _ _ (_, st.2) f); try done.
  - unfold fixup_value, fx_width. rewrite Ht. cbn [fst].
    rewrite load_write_same by lia. unfold wrap. by rewrite Z.mod_mod by lia.
  - split; [unfold step_fixup, apply_fixup; by rewrite Ht|].
    right. rewrite Ht. unfold fx_width. cbn -[Z.add]. split_and!; [done|lia..].
Qed.

Lemma ApplyRelocation_Dir64_spec :
  fx_type f = EFI_IMAGE_REL_BASED_DIR64 →
  case_spec (ApplyRelocation_Dir64 (fx_target f) Rem Adjust (fixup_index st.2 (fx_index f))).
Proof.
  intros Ht. destruct Hst as [Hsz _]. unfold case_spec, ApplyRelocation_Dir64.
  wp_step. wp_step. rewrite (Context_at_image s0 Hbuf). wp_step. apply wp_fail_if; [done|]. intros Hrem.
  wp_step. apply wp_fail_if; [done|]. intros Hov%TargetsRelocDir_spec; [|lia..].
  wp_step. apply wp_read_image; [done|lia..|]. wp_step. apply wp_store_image; [done|lia..|].
  apply (wp_record_fixup s0 (fx_index f) _ _ _ (_, st.2) f); try done.
  - unfold fixup_value, fx_width. rewrite Ht. cbn [fst].
    rewrite load_write_same by lia. unfold wrap. by rewrite Z.mod_mod by lia.
  - split; [unfold step_fixup, apply_fixup; by rewrite Ht|].
    right. rewrite Ht. unfold fx_width. cbn -[Z.add]. split_and!; [done|lia..].
Qed.

Lemma ApplyRelocation_ArmMov32t_spec :
  fx_type f = EFI_IMAGE_REL_BASED_ARM_MOV32T →
  case_spec (ApplyRelocation_ArmMov32t (fx_target f) Rem Adjust (fixup_index st.2 (fx_index f))).
Proof.
  intros Ht. destruct Hst as [Hsz _]. unfold case_spec, ApplyRelocation_ArmMov32t.
  wp_step. wp_step. rewrite (Context_at_image s0 Hbuf). wp_step. apply wp_fail_if; [done|]. intros Hpol.
  wp_step. apply wp_fail_if; [done|]. intros Hrem. wp_step. apply wp_fail_if; [done|]. intros _.
  wp_step. apply wp_fail_if; [done|]. intros Hov%TargetsRelocDir_spec; [|lia..].
  assert (valid_fixup c f) as Hv.
  { right. rewrite Ht. unfold fx_width, IMAGE_RELOC_TYPE_SUPPORTED. rewrite Hpol.
    cbn -[Z.add]. split_and!; [done|lia..]. }
  assert (apply_fixup Adjust st.1 f = thumb_fixup Adjust st.1 (fx_target f)) as Ha
    by (unfold apply_fixup; by rewrite Ht).
  wp_step. apply wp_thumb_fixup; [done|lia..|]. rewrite <- Ha.
  assert (size (apply_fixup Adjust st.1 f) = size st.1) as Hsz'
    by (apply (size_apply_fixup c); [lia|done]).
  destruct st as [img [r|]]; cbn [fst snd] in *; cbn.
  - wp_step. apply wp_read_image; [done|lia|cbn [fst]; lia|].
    apply (wp_record_fixup s0 (fx_index f) _ _ _ (_, Some r) f); try done.
    unfold fixup_value. by rewrite Ht.
  - by wp_step.
Qed.
End Cases.

Lemma u16_reloc e : u16 e → 0 <= IMAGE_RELOC_OFFSET e < 4096.
Proof.
  intros _. unfold IMAGE_RELOC_OFFSET. change 0x0FFF with (2 ^ 12 - 1).
  rewrite land_mask by lia. apply Z.mod_pos_bound. lia.
Qed.

(** InternalApplyRelocation applies exactly the relocation the directory
    describes, or changes nothing. *)
Lemma InternalApplyRelocation_spec st off k idx :
  same_directory c img0 st.1 → fixup_room st.2 (idx + k) → 0 <= idx → 0 <= k →
  RelocDirRva c <= off → off + SIZEOF_EFI_IMAGE_BASE_RELOCATION_BLOCK + 2 * k + 2 <= reloc_top c →
  case_spec st (block_fixup img0 off idx k)
    (InternalApplyRelocation off k Adjust (fixup_index st.2 (idx + k))).
Proof.
  intros Hsame Hroom Hidx Hk Hoff Hend. assert (Hsz := proj1 Hsame). unfold is_uint in *.
  set (f := block_fixup img0 off idx k). unfold case_spec, InternalApplyRelocation.
  autounfold with pe_layout in *.
  wp_step. wp_step. rewrite (Context_at_image s0 Hbuf). wp_step. unfold block_Relocations.
  autounfold with pe_layout. apply wp_read_image; [done|lia..|].
  rewrite (same_directory_load c 2 img0) by (done || lia).
  change (IMAGE_RELOC_TYPE _) with (fx_type f). apply wp_if; intros Habs.
  { apply (wp_record_fixup s0 (idx + k) _ _ _ st f); try done; [lia|..].
    - unfold fixup_value, fx_width. autounfold with pe_layout. by rewrite Habs.
    - split; [|left; autounfold with pe_layout; lia]. unfold step_fixup, apply_fixup.
      autounfold with pe_layout. by rewrite Habs. }
  wp_step. unfold block_VirtualAddress. autounfold with pe_layout.
  apply wp_read_image; [done|lia..|]. rewrite (same_directory_load c 4 img0) by (done || lia).
  assert (0 <= load 4 img0 (off + 0) < 2 ^ 32) as Hva by (apply load_u32; done).
  pose proof (u16_reloc _ (load_u16 img0 (off + 8 + 2 * k) Hbytes)) as Hro.
  rewrite ovf_add_u32_spec by (unfold is_uint; lia).
  change (load 4 img0 (off + 0) + IMAGE_RELOC_OFFSET _) with (fx_target f).
  assert (0 <= fx_target f) as Ht0 by (cbn; autounfold with pe_layout; lia).
  wp_step. apply wp_fail_if; [done|]. intros Hf%negb_false_iff%fits_u_spec.
  rewrite (wrap_small _ _ Hf). rewrite ovf_sub_u32_spec by (unfold is_uint in *; lia).
  wp_step. apply wp_fail_if; [done|]. intros Hf2%negb_false_iff%fits_u_spec.
  rewrite (wrap_small _ _ Hf2).
  apply wp_if; intros Hty; [apply ApplyRelocation_HighLow_spec; try done; [cbn; lia|autounfold with pe_layout; lia]|].
  apply wp_if; intros Hty2; [apply ApplyRelocation_Dir64_spec; try done; [cbn; lia|autounfold with pe_layout; lia]|].
  apply wp_if; intros Hty3; [apply ApplyRelocation_ArmMov32t_spec; try done; [cbn; lia|autounfold with pe_layout; lia]|].
  by wp_step.
Qed.

(** States of the loop: the directory is untouched, and the runtime context
    keeps its size ([None]: there is none). *)
Definition ok_state (F : option Z) (st : list Z * option PE_COFF_LOADER_RUNTIME_CONTEXT) : Prop :=
  same_directory c img0 st.1 ∧ size ∘ FixupData <$> st.2 = F.

Context (F : option Z) (HF : ∀ n, F = Some n → 4 * RelocDirSize c <= n).

Lemma ok_state_step st f :
  ok_state F st → valid_fixup c f → 0 <= fx_index f → fixup_room st.2 (fx_index f) →
  ok_state F (step_fixup Adjust st f).
Proof.
  intros [Hsame HFx] Hv Hi Hroom. split; [by apply same_directory_apply|].
  destruct st as [img [r|]]; [|done]. specialize (Hroom r eq_refl).
  rewrite <- HFx. cbn -[Z.mul write_bytes]. f_equal.
  apply size_write_bytes; rewrite ?size_le_bytes; lia.
Qed.

Lemma fixup_index_ok st k :
  ok_state F st → fixup_index st.2 k = if bool_decide (is_Some F) then Some k else None.
Proof.
  intros [_ <-]. unfold fixup_index. by destruct st.2.
Qed.

Lemma fixup_room_ok st k :
  ok_state F st → 2 * k + 2 <= RelocDirSize c → fixup_room st.2 k.
Proof.
  intros [_ HFx] Hk r Hr. rewrite Hr in HFx. cbn in HFx. specialize (HF _ (eq_sym HFx)).
  cbn in HF. lia.
Qed.

(** The state after the relocations [l]. *)
Definition after st (l : list fixup) := foldl (step_fixup Adjust) st l.

(** The inner loop over the relocations of one block. *)
Lemma block_loop_spec st off idx n :
  ok_state F st → 0 <= idx → 0 <= n → RelocDirRva c <= off →
  off + SIZEOF_EFI_IMAGE_BASE_RELOCATION_BLOCK + 2 * n <= reloc_top c →
  2 * idx <= off - RelocDirRva c →
  wp (for_loop (Z.to_nat n) 0
        (λ RelocIndex _, InternalApplyRelocation off RelocIndex Adjust
           (if bool_decide (is_Some F) then Some (idx + RelocIndex) else None)) tt)
    (λ _ s', let l := map (block_fixup img0 off idx) (seqZ 0 n) in
       s' = at_image s0 (after st l) ∧ ok_state F (after st l) ∧
       ∀ k, 0 <= k < n → valid_fixup c (block_fixup img0 off idx k))
    (λ _ s', ∃ st', s' = at_image s0 st' ∧ ok_state F st')
    (at_image s0 st).
Proof.
  intros Hok Hidx Hn Hoff Hend Hcount. autounfold with pe_layout in *.
  set (I j := λ (_ : unit) s', let l := map (block_fixup img0 off idx) (seqZ 0 j) in
       s' = at_image s0 (after st l) ∧ ok_state F (after st l) ∧
       ∀ k, 0 <= k < j → valid_fixup c (block_fixup img0 off idx k)).
  change (wp (for_loop (Z.to_nat n) 0 (λ RelocIndex (_ : unit), InternalApplyRelocation off RelocIndex
    Adjust (if bool_decide (is_Some F) then Some (idx + RelocIndex) else None)) tt) (I n)
    (λ _ s', ∃ st', s' = at_image s0 st' ∧ ok_state F st') (at_image s0 st)).
  rewrite <- (Z.add_0_l n) at 2. rewrite <- (Z2Nat.id n) at 2 by done.
  apply (wp_for_loop I); [split_and!; [done..|lia]|].
  intros j [] ? Hj (-> & Hokj & Hval).
  set (st' := after st _) in *. rewrite Z2Nat.id in Hj by done.
  rewrite <- (fixup_index_ok st' (idx + j)) by done. unfold reloc_top in *.
  assert (fixup_room st'.2 (idx + j)) as Hroom by (apply fixup_room_ok; [done|lia]).
  eapply wp_mono; [apply InternalApplyRelocation_spec;
    first [done|apply Hokj|autounfold with pe_layout; unfold reloc_top; lia]| |].
  - intros [] ? [-> Hv]. unfold I. cbn zeta. rewrite (seqZ_app 0 j 1), map_app by lia.
    rewrite (seqZ_cons (0 + j) 1) by lia. unfold after. rewrite foldl_app. cbn.
    fold (after st (map (block_fixup img0 off idx) (seqZ 0 j))). fold st'.
    split_and!; [done| |].
    + apply ok_state_step; try done. cbn. lia.
    + intros k Hk. destruct (decide (k = j)) as [->|]; [done|apply Hval; lia].
  - intros e ? ->. by exists st'.
Qed.

Context (Hfit : strict_blocks = false →
  u32 (align_up (reloc_top c) ALIGNOF_EFI_IMAGE_BASE_RELOCATION_BLOCK)).

Lemma align4_pos : 0 < ALIGNOF_EFI_IMAGE_BASE_RELOCATION_BLOCK.
Proof. done. Qed.

(** The next block starts below the aligned end of the directory. *)
Lemma block_next_bound off :
  RelocDirRva c <= off → (ALIGNOF_EFI_IMAGE_BASE_RELOCATION_BLOCK | off) →
  0 <= block_size img0 off → off + block_size img0 off <= reloc_top c →
  (strict_blocks = true → (ALIGNOF_EFI_IMAGE_BASE_RELOCATION_BLOCK | block_size img0 off)) →
  u32 (align_up (block_size img0 off) ALIGNOF_EFI_IMAGE_BASE_RELOCATION_BLOCK) ∧
  u32 (block_next img0 off) ∧ (ALIGNOF_EFI_IMAGE_BASE_RELOCATION_BLOCK | block_next img0 off).
Proof.
  intros Hoff Hd Hs Hend Hstrict. pose proof align4_pos as H4. unfold block_next, is_uint in *.
  set (a := ALIGNOF_EFI_IMAGE_BASE_RELOCATION_BLOCK) in *.
  pose proof (align_up_ge (block_size img0 off) a H4) as Hge.
  assert (off + align_up (block_size img0 off) a < 2 ^ 32).
  { destruct strict_blocks eqn:Hsb.
    - rewrite align_up_id by auto. lia.
    - specialize (Hfit eq_refl). pose proof (align_up_ge (reloc_top c) a H4).
      assert (align_up (block_size img0 off) a <= align_up (reloc_top c) a - off); [|lia].
      apply align_up_least; [done| |lia].
      apply Z.divide_sub_r; [apply align_up_divide|done]. }
  split_and!; try lia. apply Z.divide_add_r; [done|apply align_up_divide].
Qed.

Lemma CheckRelocBlock_spec st off :
  same_directory c img0 st.1 → RelocDirRva c <= off →
  (ALIGNOF_EFI_IMAGE_BASE_RELOCATION_BLOCK | off) →
  off <= reloc_top c - SIZEOF_EFI_IMAGE_BASE_RELOCATION_BLOCK →
  wp (CheckRelocBlock off (reloc_top c - SIZEOF_EFI_IMAGE_BASE_RELOCATION_BLOCK))
    (λ r s', s' = at_image s0 st ∧
       r = (align_up (block_size img0 off) ALIGNOF_EFI_IMAGE_BASE_RELOCATION_BLOCK,
            block_count img0 off) ∧
       SIZEOF_EFI_IMAGE_BASE_RELOCATION_BLOCK <= block_size img0 off ∧
       off + block_size img0 off <= reloc_top c ∧
       (strict_blocks = true → (ALIGNOF_EFI_IMAGE_BASE_RELOCATION_BLOCK | block_size img0 off)))
    (λ _ s', s' = at_image s0 st) (at_image s0 st).
Proof.
  intros Hst Hoff Hal Hmax. assert (Hsz := proj1 Hst). unfold is_uint in *.
  unfold CheckRelocBlock, block_SizeOfBlock. wp_step.
  apply wp_read_image; [done|autounfold with pe_layout in *; lia..|].
  rewrite (same_directory_load c 4 img0) by (done || autounfold with pe_layout in *; lia).
  fold (block_size img0 off). assert (u32 (block_size img0 off)) as Hbs by (apply load_u32; done).
  rewrite ovf_sub_u32_spec by done.
  wp_step. apply wp_fail_if; [done|]. intros Hf%negb_false_iff%fits_u_spec.
  rewrite (wrap_small _ _ Hf). unfold is_uint in *.
  rewrite wrap_small by (unfold is_uint; autounfold with pe_layout in *; lia).
  wp_step. apply wp_fail_if; [done|]. intros Hle. wp_step.
  eapply (wp_mono _ (λ r s', s' = at_image s0 st ∧
    r = align_up (block_size img0 off) ALIGNOF_EFI_IMAGE_BASE_RELOCATION_BLOCK ∧
    (strict_blocks = true → (ALIGNOF_EFI_IMAGE_BASE_RELOCATION_BLOCK | block_size img0 off)))
    _ (λ _ s', s' = at_image s0 st)); [|intros r ? (-> & -> & Ha)|done].
  - wp_step.
    + wp_step. apply wp_fail_if; [done|]. intros Ha%negb_false_iff.
      apply IS_ALIGNED_spec in Ha; [|done..]. wp_step. by rewrite align_up_id.
    + wp_step. destruct (block_next_bound off) as (Hu & _); try done; [lia|lia|congruence|].
      split_and!; [done| |congruence]. by apply ALIGN_VALUE_spec.
  - wp_step. split_and!; try done; autounfold with pe_layout in *; lia.
Qed.

Lemma RelocateBlocks_spec fuel : ∀ off idx ci st,
  ok_state F st → (ALIGNOF_EFI_IMAGE_BASE_RELOCATION_BLOCK | off) → RelocDirRva c <= off →
  0 <= idx → 2 * idx <= off - RelocDirRva c → 2 * idx <= RelocDirSize c →
  (bool_decide (is_Some F) = true → ci = idx) →
  reloc_top c - off <= 8 * Z.of_nat fuel →
  wp (RelocateBlocks fuel (reloc_top c - SIZEOF_EFI_IMAGE_BASE_RELOCATION_BLOCK) Adjust off ci)
    (λ r s', let l := (fixups c fuel img0 off idx).1 in
       s' = at_image s0 (after st l) ∧ ok_state F (after st l) ∧
       r.1 = (fixups c fuel img0 off idx).2 ∧ valid_blocks c fuel img0 off idx ∧
       2 * (idx + Z.of_nat (length l)) <= RelocDirSize c ∧
       (bool_decide (is_Some F) = true → r.2 = idx + Z.of_nat (length l)))
    (λ _ s', ∃ st', s' = at_image s0 st' ∧ ok_state F st')
    (at_image s0 st).
Proof.
  assert (Hu := Hdirsize). unfold is_uint in Hu.
  induction fuel as [|fuel IH]; intros off idx ci st Hok Hal Hoff Hidx Hcnt Hcnt' Hci Hfuel;
    cbn [RelocateBlocks fixups valid_blocks].
  { case_match; [autounfold with pe_layout in *; lia|]. wp_step. cbn.
    split_and!; try done; try lia. intros Hb. rewrite (Hci Hb). lia. }
  destruct (Z.leb_spec off (reloc_top c - SIZEOF_EFI_IMAGE_BASE_RELOCATION_BLOCK)) as [Hle|Hgt].
  2: { wp_step. cbn. split_and!; try done; try lia. intros Hb. rewrite (Hci Hb). lia. }
  wp_step. wp_step. wp_step.
  eapply wp_mono; [apply CheckRelocBlock_spec; try done; apply Hok| |intros _ ? ->; by exists st].
  intros r ? (-> & -> & H8 & Hend & Hstr). cbn [fst snd].
  replace (bool_decide (is_Some (RuntimeContext (at_image s0 st)))) with (bool_decide (is_Some F)).
  2: { rewrite RuntimeContext_at_image. destruct Hok as [_ <-]. by destruct st.2. }
  destruct (block_next_bound off) as (Hu1 & Hu2 & Hal'); try done; [autounfold with pe_layout in *; lia|].
  assert (0 <= block_count img0 off ∧ 2 * block_count img0 off
            <= block_size img0 off - SIZEOF_EFI_IMAGE_BASE_RELOCATION_BLOCK) as [Hc0 Hc1].
  { unfold block_count. split; [apply Z.div_pos; lia|apply Z.mul_div_le; lia]. }
  wp_step. eapply wp_mono.
  { replace (for_loop _ _ _ _) with (for_loop (Z.to_nat (block_count img0 off)) 0
      (λ RelocIndex (_ : unit), InternalApplyRelocation off RelocIndex Adjust
         (if bool_decide (is_Some F) then Some (idx + RelocIndex) else None)) tt).
    - apply block_loop_spec; try done. autounfold with pe_layout in *. lia.
    - destruct (bool_decide (is_Some F)); [by rewrite Hci|done]. }
  2: done.
  intros [] ? (-> & Hok' & Hval). set (n := block_count img0 off) in *.
  pose proof (align_up_ge (block_size img0 off) _ align4_pos) as Hge.
  rewrite wrap_small by done. fold (block_next img0 off).
  destruct (fixups c fuel img0 (block_next img0 off) (idx + n)) as [l e] eqn:Hfx.
  eapply wp_mono; [apply (IH (block_next img0 off) (idx + n)); try done| |done].
  - unfold block_next. autounfold with pe_layout in *. lia.
  - lia.
  - unfold block_next. autounfold with pe_layout in *. lia.
  - unfold reloc_top in *. autounfold with pe_layout in *. lia.
  - intros Hb. rewrite Hb, (Hci Hb). apply wrap_small.
    unfold reloc_top, is_uint in *. autounfold with pe_layout in *. lia.
  - unfold block_next. autounfold with pe_layout in *. lia.
  - rewrite Hfx. cbn zeta. cbn [fst snd]. intros r s' (-> & Hok2 & Hr1 & Hvb & Hlen & Hr2).
    unfold after in *. rewrite foldl_app.
    assert (Z.of_nat (length (map (block_fixup img0 off idx) (seqZ 0 n) ++ l)) =
              n + Z.of_nat (length l)) as Hl.
    { rewrite length_app, length_map, length_seqZ. lia. }
    rewrite Hl. split_and!; try done; try lia. intros Hb. rewrite (Hr2 Hb). lia.
Qed.
End Relocating.

(** ** The whole relocation *)

(** A loaded image that can be relocated: what PeCoffInitializeContext and the
    loading functions establish. *)
Record Relocatable `{!Platform} (s : loader) : Prop := {
  rl_buffer : ImageBuffer (Context s) ≠ ImageNull;
  rl_bytes : bytes (image s);
  rl_image_u32 : u32 (SizeOfImage (Context s));
  rl_dir_u32 : u32 (RelocDirRva (Context s)) ∧ u32 (RelocDirSize (Context s));
  rl_dir : RelocDirSize (Context s) ≠ 0 →
    SIZEOF_EFI_IMAGE_BASE_RELOCATION_BLOCK <= RelocDirSize (Context s) ∧
    reloc_top (Context s) <= SizeOfImage (Context s) ∧
    (ALIGNOF_EFI_IMAGE_BASE_RELOCATION_BLOCK | RelocDirRva (Context s)) ∧
    SizeOfImage (Context s) <= size (image s);
}.

(** The runtime context has the size PeCoffLoaderGetRuntimeContextSize asks for. *)
Definition runtime_size_ok (s : loader) (RuntimeContextSize : Z) : Prop :=
  match RuntimeContext s with
  | None => RuntimeContextSize = 0
  | Some r =>
      u32 RuntimeContextSize ∧
      SIZEOF_PE_COFF_LOADER_RUNTIME_CONTEXT + 4 * RelocDirSize (Context s) <= RuntimeContextSize ∧
      size (FixupData r) = RuntimeContextSize - SIZEOF_PE_COFF_LOADER_RUNTIME_CONTEXT
  end.

Section Whole.
Context `{!Platform, !PlatformOk, !OverflowLib}.

(** The relocations of the directory of [s], and the offset after them. *)
Definition image_fixups (s : loader) : list fixup * Z :=
  fixups (Context s) (Z.to_nat (RelocDirSize (Context s))) (image s) (RelocDirRva (Context s)) 0.

(** The end of the directory, aligned when unaligned blocks are permitted. *)
Definition aligned_top (c : PE_COFF_LOADER_IMAGE_CONTEXT) : Z :=
  if strict_blocks then reloc_top c
  else align_up (reloc_top c) ALIGNOF_EFI_IMAGE_BASE_RELOCATION_BLOCK.

(** Every block and relocation is well-formed and the blocks fill the
    directory. *)
Definition directory_valid (s : loader) : Prop :=
  u32 (aligned_top (Context s)) ∧
  valid_blocks (Context s) (Z.to_nat (RelocDirSize (Context s))) (image s)
    (RelocDirRva (Context s)) 0 ∧
  (image_fixups s).2 = aligned_top (Context s).

Definition init_runtime (c : PE_COFF_LOADER_IMAGE_CONTEXT) (r : PE_COFF_LOADER_RUNTIME_CONTEXT) :=
  {| RtRelocDirRva := RelocDirRva c; RtRelocDirSize := RelocDirSize c; FixupData := FixupData r |}.

Definition clear_runtime (n : Z) (r : PE_COFF_LOADER_RUNTIME_CONTEXT) :=
  {| RtRelocDirRva := RtRelocDirRva r; RtRelocDirSize := RtRelocDirSize r;
     FixupData := write_bytes (FixupData r) (8 * n) (zeros (size (FixupData r) - 8 * n)) |}.

(** The relocation is skipped when there is nothing to do. *)
Definition reloc_skipped (s : loader) (BaseAddress : Z) : bool :=
  (RelocDirSize (Context s) =? 0)
  || (negb (bool_decide (is_Some (RuntimeContext s)))
        && (wrap 64 (BaseAddress - ImageBase (Context s)) =? 0)).

(** The state after a successful relocation. *)
Definition relocated (s : loader) (BaseAddress : Z) : loader :=
  let st0 := (image s, init_runtime (Context s) <$> RuntimeContext s) in
  if reloc_skipped s BaseAddress then at_image s st0
  else
    let l := (image_fixups s).1 in
    let st := after (wrap 64 (BaseAddress - ImageBase (Context s))) st0 l in
    at_image s (st.1, clear_runtime (Z.of_nat (length l)) <$> st.2).

Lemma InitRuntimeContext_run s :
  ImageBuffer (Context s) ≠ ImageNull →
  InitRuntimeContext s = Ok tt (at_image s (image s, init_runtime (Context s) <$> RuntimeContext s)).
Proof.
  intros Hb. rewrite <- (at_image_self s Hb) at 1. unfold InitRuntimeContext, mbind, M_bind, getS.
  rewrite RuntimeContext_at_image, (Context_at_image s Hb). cbn.
  by destruct (RuntimeContext s).
Qed.

Lemma wp_run {S A} (m : M S A) (Q : A → S → Prop) E s a s' :
  m s = Ok a s' → Q a s' → wp m Q E s.
Proof. with_strategy transparent [wp] unfold wp. by intros ->. Qed.

Lemma ClearFixupData_spec s st size_ ci n E (Q : unit → loader → Prop) :
  ImageBuffer (Context s) ≠ ImageNull → 0 <= n →
  (∀ r, st.2 = Some r → ci = n ∧ u32 size_ ∧ 8 * n <= size (FixupData r) ∧
     size (FixupData r) = size_ - SIZEOF_PE_COFF_LOADER_RUNTIME_CONTEXT) →
  Q tt (at_image s (st.1, clear_runtime n <$> st.2)) →
  wp (ClearFixupData size_ ci) Q E (at_image s st).
Proof.
  intros Hb Hn Hr HQ. unfold ClearFixupData. wp_step. wp_step. rewrite RuntimeContext_at_image.
  destruct st as [img [r|]]; cbn [snd fst] in *; [|by wp_step].
  destruct (Hr r eq_refl) as (-> & [? ?] & Hle & Hsz).
  unfold SIZEOF_PE_COFF_LOADER_RUNTIME_CONTEXT in *.
  rewrite (wrapn_small (n * 8)) by (split; lia). rewrite wrapn_small by (split; lia).
  wp_step. wp_step.
  - apply orb_true_iff. destruct (Z.eqb_spec (size_ - 8 - n * 8) 0); [by left|right].
    apply in_bounds_spec. lia.
  - wp_step. cbn in HQ. unfold clear_runtime in HQ.
    replace (size_ - 8 - n * 8) with (size (FixupData r) - 8 * n) by lia. exact HQ.
Qed.

(** The part after the early returns: the loop and the bookkeeping. *)
Lemma RelocateImage_loop_spec s Adjust size_ Top :
  Relocatable s → runtime_size_ok s size_ → RelocDirSize (Context s) ≠ 0 →
  Top = aligned_top (Context s) → u32 Top →
  let c := Context s in
  let st0 := (image s, init_runtime c <$> RuntimeContext s) in
  let l := (image_fixups s).1 in
  wp ('(RelocBlockOffset, FixupDataIndex) ←
        RelocateBlocks (Z.to_nat (RelocDirSize c))
          (reloc_top c - SIZEOF_EFI_IMAGE_BASE_RELOCATION_BLOCK) Adjust (RelocDirRva c) 0;
      fail_if (negb (RelocBlockOffset =? Top)) RETURN_VOLUME_CORRUPTED;;
      ClearFixupData size_ FixupDataIndex)
    (λ _ s', s' = at_image s ((after Adjust st0 l).1,
                     clear_runtime (Z.of_nat (length l)) <$> (after Adjust st0 l).2) ∧
       directory_valid s ∧ 2 * Z.of_nat (length l) <= RelocDirSize c)
    (λ _ s', ∃ st, s' = at_image s st ∧ same_directory c (image s) st.1) (at_image s st0).
Proof.
  intros [Hbuf Hby Hiu [Hdu Hsu] Hdir] Hrt Hnz -> HTop c st0 l.
  destruct (Hdir Hnz) as (H8 & Htop & Hal & Hsz). fold c in Hbuf, Hby, Hiu, Hsz, Hdu, Hsu, Htop, Hal, H8.
  set (F := size ∘ FixupData <$> st0.2).
  assert (∀ n, F = Some n → 4 * RelocDirSize c <= n) as HF.
  { unfold F, st0. cbn. unfold runtime_size_ok in Hrt. fold c in Hrt.
    destruct (RuntimeContext s); cbn; [|done]. intros ? [= <-].
    unfold SIZEOF_PE_COFF_LOADER_RUNTIME_CONTEXT in *. lia. }
  wp_step. eapply wp_mono.
  { apply (RelocateBlocks_spec s (image s) Hbuf Hby Hsz Hiu Hdu Hsu Htop Adjust F HF)
      with (idx := 0) (st := st0); try done; fold c.
    - intros Hs. unfold aligned_top in HTop. by rewrite Hs in HTop.
    - lia.
    - destruct Hsu; lia.
    - unfold reloc_top. destruct Hsu. lia. }
  2: { intros e ? (st & -> & Hok). exists st. split; [done|apply Hok]. }
  fold c. intros [off ci] s' (-> & Hok & Hoff & Hvb & Hlen & Hci). cbn [fst snd] in *.
  change (fixups c (Z.to_nat (RelocDirSize c)) (image s) (RelocDirRva c) 0)
    with (image_fixups s) in *. fold l in Hok, Hlen, Hci |- *.
  set (st := after Adjust st0 l) in *.
  wp_step. apply wp_fail_if; [intros _; exists st; split; [done|apply Hok]|]. intros Htop'.
  apply ClearFixupData_spec with (n := Z.of_nat (length l)); try done; [lia| |].
  - intros r Hr. destruct Hok as [_ HFx]. rewrite Hr in HFx.
    assert (bool_decide (is_Some F) = true) as Hb by (apply bool_decide_eq_true; by rewrite <- HFx).
    rewrite (Hci Hb).
    split; [done|]. unfold F, st0 in HFx. cbn in HFx. unfold runtime_size_ok in Hrt. fold c in Hrt.
    destruct (RuntimeContext s) as [r0|]; [|done]. cbn in HFx. injection HFx as ->.
    destruct Hrt as (? & ? & ?). unfold SIZEOF_PE_COFF_LOADER_RUNTIME_CONTEXT in *.
    split_and!; [done|lia..].
  - split; [done|]. split; [split_and!; [done|done|fold c; lia]|lia].
Qed.

Lemma PeCoffRelocateImage_spec s BaseAddress RuntimeContextSize :
  Relocatable s → runtime_size_ok s RuntimeContextSize →
  (RelocsStripped (Context s) = true → BaseAddress = ImageBase (Context s)) →
  wp (PeCoffRelocateImage BaseAddress RuntimeContextSize)
    (λ _ s', s' = relocated s BaseAddress ∧
       (reloc_skipped s BaseAddress = false → directory_valid s ∧
          2 * Z.of_nat (length (image_fixups s).1) <= RelocDirSize (Context s)))
    (λ _ s', ∃ st, s' = at_image s st ∧ same_directory (Context s) (image s) st.1) s.
Proof.
  intros Hr Hrt Hstrip. destruct (id Hr) as [Hbuf Hby Hiu [Hdu Hsu] Hdir].
  unfold PeCoffRelocateImage. wp_step. wp_step. set (c := Context s) in *.
  wp_step. wp_step; [destruct (RelocsStripped c); [rewrite Hstrip by done; cbn; lia|done]|].
  wp_step. wp_step.
  { unfold runtime_size_ok in Hrt. destruct (RuntimeContext s); [done|]. cbn. lia. }
  wp_step. wp_step.
  { unfold runtime_size_ok in Hrt. fold c in Hrt. destruct (RuntimeContext s); [|done]. cbn -[Z.mul Z.div].
    destruct Hrt as ([? ?] & Hle & _). destruct Hsu. change (8 / 2) with 4.
    unfold SIZEOF_PE_COFF_LOADER_RUNTIME_CONTEXT in *.
    rewrite (wrapn_small (RelocDirSize c * 4)) by (split; lia).
    rewrite wrapn_small by (split; lia). lia. }
  wp_step. eapply wp_run; [by apply InitRuntimeContext_run|]. fold c.
  unfold relocated, reloc_skipped. fold c.
  set (st0 := (image s, init_runtime c <$> RuntimeContext s)).
  apply wp_if; intros Hz; [wp_step; by rewrite Hz|]. rewrite Hz.
  apply wp_if; intros Hskip; [wp_step; by rewrite Hskip|]. rewrite Hskip. cbn [orb].
  destruct (Hdir ltac:(lia)) as (H8 & Htop & Hal & Hsz). unfold is_uint in Hdu, Hsu, Hiu.
  assert (u32 (reloc_top c)) as Htu by (unfold reloc_top, is_uint in *; lia).
  fold (reloc_top c). rewrite (wrap_small 32 (reloc_top c)) by done.
  rewrite wrap_small by (unfold reloc_top, is_uint in *; autounfold with pe_layout in *; lia).
  wp_step. eapply (wp_mono _ (λ top s', s' = at_image s st0 ∧ top = aligned_top c ∧ u32 top) _
    (λ _ s', s' = at_image s st0)); [|intros top ? (-> & Ht & Hu)|].
  - unfold aligned_top. destruct strict_blocks; cbn; [by wp_step|].
    rewrite ovf_align_up_u32_spec by done. wp_step. apply wp_fail_if; [done|].
    intros Hf%negb_false_iff%fits_u_spec. wp_step. by rewrite wrap_small.
  - eapply wp_mono; [apply RelocateImage_loop_spec; first [done|by apply Z.eqb_neq]| |done].
    intros [] ? [-> Hv]. by split.
  - intros _ ? ->. by exists st0.
Qed.
End Whole.

(** ** Facts on the reference semantics *)

Lemma lor_halves hi lo : u16 hi → u16 lo → Z.lor (Z.shiftl hi 16) lo = hi * 2 ^ 16 + lo.
Proof.
  intros Hhi Hlo. rewrite <- Z.shiftl_mul_pow2 by lia. symmetry.
  rewrite Z.add_nocarry_lxor, <- Z.lxor_lor; try done.
  all: apply Z.bits_inj'; intros i Hi; rewrite Z.land_spec, Z.shiftl_spec, Z.bits_0 by done;
    destruct (decide (i < 16));
    [by rewrite Z.testbit_neg_r by lia|by rewrite (uint_testbit_high 16 lo), andb_false_r by (done || lia)].
Qed.

Lemma halves_lo hi lo : u16 hi → u16 lo → Z.land (hi * 2 ^ 16 + lo) 0xFFFF = lo.
Proof.
  intros _ [? ?]. change 0xFFFF with (2 ^ 16 - 1). rewrite land_mask by lia.
  rewrite Z.add_comm, Z.mod_add, Z.mod_small by lia. done.
Qed.

Lemma halves_hi hi lo : u16 hi → u16 lo → Z.shiftr (Z.land (hi * 2 ^ 16 + lo) 0xFFFF0000) 16 = hi.
Proof.
  intros [? ?] [? ?]. rewrite Z.shiftr_land. change (Z.shiftr 0xFFFF0000 16) with (2 ^ 16 - 1).
  rewrite land_mask, Z.shiftr_div_pow2 by lia.
  rewrite Z.add_comm, Z.div_add, (Z.div_small lo), Z.mod_small by lia. lia.
Qed.

(** Every 32-bit value is made of two halves. *)
Lemma address_halves a : u32 a → ∃ hi lo, u16 hi ∧ u16 lo ∧ a = hi * 2 ^ 16 + lo.
Proof.
  intros [? ?]. exists (a / 2 ^ 16), (a mod 2 ^ 16). split_and!.
  - split; [apply Z.div_pos; lia|apply Z.div_lt_upper_bound; lia].
  - apply Z.mod_pos_bound. lia.
  - pose proof (Z.div_mod a (2 ^ 16)). lia.
Qed.

Section Thumb.
Context (img : list Z) (Himg : bytes img) (off : Z) (Hoff : 0 <= off).

Lemma thumb_decode_patch a :
  off + 4 <= size img → u16 a → thumb_decode (thumb_patch img off a) off = a.
Proof.
  intros Hsz Ha. unfold thumb_decode, thumb_patch.
  set (p1 := ThumbMovt_patch1 (load 2 img off) a). set (img1 := write_bytes img off (le_bytes 2 p1)).
  assert (size img1 = size img) as Hs1 by (apply size_write_bytes; rewrite ?size_le_bytes; lia).
  assert (u16 p1) as Hp1 by (apply patch1_u16; [by apply load_u16|done]).
  assert (load 2 img1 (off + 2) = load 2 img (off + 2)) as Hl
    by (apply load_write_disjoint; rewrite ?size_le_bytes; lia).
  assert (u16 (ThumbMovt_patch2 (load 2 img1 (off + 2)) a)) as Hp2.
  { rewrite Hl. apply patch2_u16; [by apply load_u16|done]. }
  rewrite load_write_same by lia. rewrite Z.mod_small by apply Hp2.
  rewrite load_write_disjoint by (rewrite ?size_le_bytes; lia).
  unfold img1 at 1. rewrite load_write_same by lia. rewrite Z.mod_small by apply Hp1.
  rewrite Hl. apply decode_patch; try done; by apply load_u16.
Qed.

Lemma thumb_decode_disjoint off' a :
  off + 4 <= size img → off' + 4 <= off ∨ off + 4 <= off' →
  thumb_decode (thumb_patch img off a) off' = thumb_decode img off'.
Proof.
  intros Hsz Hd. unfold thumb_decode. f_equal; apply load_ext; intros i Hi;
    apply byte_at_thumb_patch; lia.
Qed.

Lemma thumb_patch_decode :
  off + 4 <= size img → thumb_patch img off (thumb_decode img off) = img.
Proof.
  intros Hsz. unfold thumb_patch, thumb_decode.
  destruct (patch_decode (load 2 img off) (load 2 img (off + 2))) as [-> Hp2]; try by apply load_u16.
  rewrite (write_load_same 2) by (done || lia). rewrite Hp2. by rewrite (write_load_same 2) by (done || lia).
Qed.

Lemma bytes_thumb_patch a : bytes (thumb_patch img off a).
Proof. unfold thumb_patch. apply bytes_write_bytes; [|apply bytes_le_bytes]. apply bytes_write_bytes; [done|apply bytes_le_bytes]. Qed.

Lemma thumb_decode_u16 o : u16 (thumb_decode img o).
Proof. apply decode_u16; by apply load_u16. Qed.
End Thumb.

(** The relocation of a MOVW/MOVT pair adds to the address it encodes. *)
Lemma thumb_fixup_address Adjust img off :
  bytes img → 0 <= off → off + 8 <= size img →
  thumb_address (thumb_fixup Adjust img off) off = wrap 32 (thumb_address img off + Adjust).
Proof.
  intros Hb Hoff Hsz. unfold thumb_fixup.
  replace (wrap 32 (thumb_address img off + wrap 32 Adjust)) with (wrap 32 (thumb_address img off + Adjust))
    by (unfold wrap; rewrite Z.add_mod_idemp_r by lia; done).
  destruct (address_halves (wrap 32 (thumb_address img off + Adjust))) as (hi & lo & Hhi & Hlo & ->);
    [apply wrap_range; lia|].
  rewrite halves_lo, halves_hi by done. unfold thumb_address.
  pose proof (bytes_thumb_patch img Hb off lo) as Hb1.
  assert (size (thumb_patch img off lo) = size img) as Hs1 by (apply size_thumb_patch; lia).
  rewrite thumb_decode_patch by (done || lia). rewrite thumb_decode_disjoint by (done || lia).
  rewrite thumb_decode_patch by (done || lia). by apply lor_halves.
Qed.

(** A zero displacement changes nothing. *)
Lemma thumb_fixup_0 img off :
  bytes img → 0 <= off → off + 8 <= size img → thumb_fixup 0 img off = img.
Proof.
  intros Hb Hoff Hsz. unfold thumb_fixup, thumb_address.
  pose proof (thumb_decode_u16 img Hb (off + 2 * 2)) as Hhi. pose proof (thumb_decode_u16 img Hb off) as Hlo.
  rewrite lor_halves by done. change (wrap 32 0) with 0. rewrite Z.add_0_r, wrap_small
    by (destruct Hhi, Hlo; split; lia).
  rewrite halves_lo, halves_hi by done. rewrite thumb_patch_decode by (done || lia).
  apply thumb_patch_decode; done || lia.
Qed.

Lemma apply_fixup_0 `{!Platform} c img f :
  bytes img → SizeOfImage c <= size img → valid_fixup c f → apply_fixup 0 img f = img.
Proof.
  intros Hb Hsz Hv. unfold apply_fixup.
  destruct (Z.eqb_spec (fx_type f) EFI_IMAGE_REL_BASED_ABSOLUTE) as [|Hnz]; [done|].
  destruct Hv as [|(Hsup & H0 & H1 & _)]; [done|]. rewrite fx_width_supported in H1 by done.
  case_match; [|case_match].
  - change (wrap 32 0) with 0. rewrite Z.add_0_r, wrap_small by (by apply load_u32).
    apply (write_load_same 4); done || lia.
  - rewrite Z.add_0_r, wrap_small by (by apply load_u64). apply (write_load_same 8); done || lia.
  - apply thumb_fixup_0; done || lia.
Qed.

Lemma bytes_apply_fixup Adjust img f : bytes img → bytes (apply_fixup Adjust img f).
Proof.
  intros Hb. unfold apply_fixup, thumb_fixup.
  repeat case_match; auto using bytes_write_bytes, bytes_le_bytes, bytes_thumb_patch.
Qed.

Lemma after_image Adjust st l : (after Adjust st l).1 = foldl (apply_fixup Adjust) st.1 l.
Proof. revert st. induction l as [|f l IH]; intros st; [done|]. apply IH. Qed.

Section Directories.
Context `{!Platform} (c : PE_COFF_LOADER_IMAGE_CONTEXT).

(** All relocations of a valid directory are valid. *)
Lemma valid_blocks_fixups fuel img : ∀ off idx,
  valid_blocks c fuel img off idx → Forall (valid_fixup c) (fixups c fuel img off idx).1.
Proof.
  induction fuel as [|fuel IH]; intros off idx Hv; cbn [fixups valid_blocks] in *; [by case_match|].
  destruct (Z.leb_spec off (reloc_top c - SIZEOF_EFI_IMAGE_BASE_RELOCATION_BLOCK)) as [Hle|]; [|done].
  destruct (Hv Hle) as [(_ & _ & _ & Hf) Hrest]. specialize (IH _ _ Hrest).
  destruct (fixups c fuel img _ _) as [l e]. cbn in *. apply Forall_app. split; [|done].
  apply Forall_map, Forall_forall. intros k Hk%list_elem_of_In%elem_of_seqZ. apply Hf. lia.
Qed.

(** A sequence of valid relocations keeps the directory and what is not a target. *)
Lemma fold_fixups_same Adjust img0 l : ∀ img,
  SizeOfImage c <= size img0 → Forall (valid_fixup c) l → same_directory c img0 img →
  same_directory c img0 (foldl (apply_fixup Adjust) img l).
Proof.
  induction l as [|f l IH]; intros img Hsz Hl Hs; [done|]. apply Forall_cons_iff in Hl as [Hf Hl].
  cbn. apply IH; try done. by apply same_directory_apply.
Qed.

Lemma fold_fixups_outside Adjust l x : ∀ img,
  SizeOfImage c <= size img → Forall (valid_fixup c) l →
  Forall (λ f, x < fx_target f ∨ fx_target f + Z.of_nat (fx_width (fx_type f)) <= x) l →
  byte_at (foldl (apply_fixup Adjust) img l) x = byte_at img x.
Proof.
  induction l as [|f l IH]; intros img Hsz Hl Hx; [done|].
  apply Forall_cons_iff in Hl as [Hf Hl], Hx as [Hfx Hx]. cbn.
  rewrite IH; try done; [by apply (apply_fixup_outside c)|by rewrite (size_apply_fixup c)].
Qed.

Lemma fold_fixups_0 l : ∀ img,
  bytes img → SizeOfImage c <= size img → Forall (valid_fixup c) l →
  foldl (apply_fixup 0) img l = img.
Proof.
  induction l as [|f l IH]; intros img Hb Hsz Hl; [done|]. apply Forall_cons_iff in Hl as [Hf Hl]. cbn.
  rewrite (apply_fixup_0 c) by done. by apply IH.
Qed.
End Directories.

(** ** From loading to relocation *)

Section Pipeline.
Context `{!Platform, !PlatformOk, !OverflowLib}.

Lemma bytes_loaded (File D : list Z) c :
  bytes File → (∀ x, 0 <= x < size D → byte_at D x = loaded_byte File c x) → bytes D.
Proof.
  intros Hb Hx. apply bytes_byte_at. intros i Hi. rewrite Hx by done. unfold loaded_byte.
  case_match; [by apply byte_at_range|]. generalize 0 as j.
  induction (Z.to_nat (NumberOfSections c)) as [|n IH]; intros j; cbn; [by compute|].
  case_match; [by apply byte_at_range|apply IH].
Qed.

(** A loaded image can be relocated. *)
Lemma loaded_Relocatable (File D : list Z) c rt :
  bytes D → WellFormed File c → SizeOfImage c <= size D →
  Relocatable {| Context := set_ImageBuffer ImageDestination c; FileBuffer := File;
                 Destination := D; RuntimeContext := rt |}.
Proof.
  intros Hb (_ & Hs & Hd & _) Hsz. destruct Hd. constructor; cbn; try done; [apply Hs|].
  intros Hnz. destruct (dir_reloc Hnz) as (? & ? & ? & _). done.
Qed.

(** An image loaded in place can be relocated in the strict mode. *)
Lemma inplace_Relocatable (File D : list Z) c rt :
  bytes File → WellFormed File c → strict_sections = true →
  (∀ i, 0 <= i < NumberOfSections c → inplace_section File c i) →
  Relocatable {| Context := set_ImageBuffer ImageFile c; FileBuffer := File;
                 Destination := D; RuntimeContext := rt |}.
Proof.
  intros Hb Hwf Hstrict Hall.
  pose proof (inplace_image_in_file File c Hb Hwf Hstrict Hall) as Hin.
  destruct Hwf as (_ & Hs & Hd & _). destruct Hd. constructor; cbn; try done; [apply Hs|].
  intros Hnz. destruct (dir_reloc Hnz) as (H8 & Htop & Hal & _ & Hst). split_and!; try done.
  destruct Hin as [Hin|]; [|done]. specialize (Hst Hstrict).
  unfold SIZEOF_EFI_IMAGE_BASE_RELOCATION_BLOCK in H8. lia.
Qed.
End Pipeline.

(** ** Properties *)

(** C5. PeCoffRelocateImage is memory safe and terminates for every relocation
    directory contents: it accesses only the image and the runtime context,
    fails no ASSERT, and its loop ends within RelocDirSize iterations. *)
Theorem PeCoffRelocateImage_safe `{!Platform, !PlatformOk, !OverflowLib} (s : loader)
    (BaseAddress RuntimeContextSize : Z) :
  Relocatable s → runtime_size_ok s RuntimeContextSize →
  (RelocsStripped (Context s) = true → BaseAddress = ImageBase (Context s)) →
  never_faults (PeCoffRelocateImage BaseAddress RuntimeContextSize) s.
Proof. intros. by eapply wp_never_faults, PeCoffRelocateImage_spec. Qed.

(** C4. A successful relocation is the relocation directory applied in one
    pass: although the loop reads the directory from the image it is changing,
    the result is the fold of the relocations of the original image, all of
    them are valid, and the context, the directory and every byte that no
    relocation targets are unchanged. *)
Theorem PeCoffRelocateImage_refines `{!Platform, !PlatformOk, !OverflowLib} (s s' : loader)
    (BaseAddress RuntimeContextSize : Z) :
  Relocatable s → runtime_size_ok s RuntimeContextSize →
  (RelocsStripped (Context s) = true → BaseAddress = ImageBase (Context s)) →
  reloc_skipped s BaseAddress = false →
  PeCoffRelocateImage BaseAddress RuntimeContextSize s = Ok tt s' →
  let l := (image_fixups s).1 in
  image s' = foldl (apply_fixup (wrap 64 (BaseAddress - ImageBase (Context s)))) (image s) l ∧
  directory_valid s ∧ Forall (valid_fixup (Context s)) l ∧ Context s' = Context s ∧
  same_directory (Context s) (image s) (image s') ∧
  ∀ x, Forall (λ f, x < fx_target f ∨ fx_target f + Z.of_nat (fx_width (fx_type f)) <= x) l →
    byte_at (image s') x = byte_at (image s) x.
Proof.
  intros Hr Hrt Hst Hskip Hrun l.
  destruct (wp_ok _ _ _ _ _ _ (PeCoffRelocateImage_spec s _ _ Hr Hrt Hst) Hrun) as [-> Hv].
  destruct (Hv Hskip) as [Hdv _]. unfold relocated. rewrite Hskip. destruct Hr as [Hbuf _ _ _ Hdir].
  rewrite image_at_image, Context_at_image, after_image by done. cbn [fst]. fold l.
  assert (Forall (valid_fixup (Context s)) l) as Hl by (apply valid_blocks_fixups, Hdv).
  unfold reloc_skipped in Hskip. apply orb_false_iff in Hskip as [Hnz _].
  destruct (Hdir ltac:(lia)) as (_ & _ & _ & Hsz). split_and!; try done.
  - by apply fold_fixups_same.
  - intros x Hx. by apply (fold_fixups_outside (Context s)).
Qed.

(** Relocating an image to the base address it is linked for, with or
    without a runtime context, leaves the image as it was loaded. *)
Theorem PeCoffRelocateImage_identity `{!Platform, !PlatformOk, !OverflowLib} (s s' : loader)
    (RuntimeContextSize : Z) :
  Relocatable s → runtime_size_ok s RuntimeContextSize →
  PeCoffRelocateImage (ImageBase (Context s)) RuntimeContextSize s = Ok tt s' →
  image s' = image s.
Proof.
  intros Hr Hrt Hrun.
  destruct (wp_ok _ _ _ _ _ _ (PeCoffRelocateImage_spec s _ _ Hr Hrt (λ _, eq_refl)) Hrun) as [-> Hv].
  destruct Hr as [Hbuf Hb _ _ Hdir].
  unfold relocated. destruct (reloc_skipped _ _) eqn:Hskip; rewrite image_at_image by done; [done|].
  rewrite after_image, Z.sub_diag. change (wrap 64 0) with 0. cbn [fst].
  unfold reloc_skipped in Hskip. apply orb_false_iff in Hskip as [Hnz _].
  destruct (Hdir ltac:(lia)) as (_ & _ & _ & Hsz).
  apply (fold_fixups_0 (Context s)); try done. apply valid_blocks_fixups, (Hv eq_refl).
Qed.

(** C6. A verified image can go through the whole loader: any file that
    PeCoffInitializeContext accepts is loaded into a destination of sufficient
    size and alignment with success, every byte of the destination being the one
    the file specifies, and relocating the loaded image never faults.  The base
    address is any, or the preferred one if relocations are stripped; there is no
    runtime context, or one of the size that is asked for. *)
Theorem load_and_relocate_safe `{!Platform, !PlatformOk, !OverflowLib} (File D : list Z)
    (o DestinationAddress BaseAddress RuntimeContextSize : Z) (c0 c : PE_COFF_LOADER_IMAGE_CONTEXT)
    (rt : option PE_COFF_LOADER_RUNTIME_CONTEXT) :
  let loaded D' := {| Context := set_ImageBuffer ImageDestination c; FileBuffer := File; Destination := D'; RuntimeContext := rt |} in
  bytes File → u32 (size File) → 0 <= o < 32 →
  PeCoffInitializeContext File (size File) o c0 = Ok tt c →
  u32 (size D) → SizeOfImage c <= size D →
  IS_ALIGNED DestinationAddress (SectionAlignment c) = true →
  (RelocsStripped c = true → BaseAddress = ImageBase c) →
  runtime_size_ok (loaded D) RuntimeContextSize →
  ∃ D', PeCoffLoadImage DestinationAddress (size D)
          {| Context := c; FileBuffer := File; Destination := D; RuntimeContext := rt |} = Ok tt (loaded D') ∧
    size D' = size D ∧ (∀ x, 0 <= x < size D → byte_at D' x = loaded_byte File c x) ∧
    never_faults (PeCoffRelocateImage BaseAddress RuntimeContextSize) (loaded D').
Proof.
  intros loaded Hb Hu Ho Hinit HuD Hsz Hal Hst Hrt.
  assert (WellFormed File c) as Hwf.
  { refine (wp_ok _ (λ _ c', WellFormed File c') _ _ _ _ _ Hinit). by apply PeCoffInitializeContext_spec. }
  destruct (wp_total _ _ _ (PeCoffLoadImage_spec File c Hb Hwf rt (size D) HuD Hsz DestinationAddress c D _ eq_refl eq_refl Hal))
    as ([] & s' & Hrun & D' & -> & HsD & Hx).
  exists D'. split_and!; [done|done|done|].
  eapply wp_never_faults, PeCoffRelocateImage_spec; [|done|done].
  apply loaded_Relocatable; [|done|lia]. apply (bytes_loaded File D' c); [done|]. by rewrite HsD.
Qed.

(** In-place loading and relocation never faults on a verified image when
    unaligned sections are not permitted: the sections being adjacent, the
    relocation directory is inside the file. *)
Theorem PeCoffRelocateImageInplace_safe `{!Platform, !PlatformOk, !OverflowLib} (File D : list Z)
    (FileAddress DestinationAddress : Z) (c : PE_COFF_LOADER_IMAGE_CONTEXT)
    (rt : option PE_COFF_LOADER_RUNTIME_CONTEXT) :
  bytes File → WellFormed File c → strict_sections = true →
  (RelocsStripped c = true → FileAddress = ImageBase c) →
  never_faults (PeCoffRelocateImageInplace FileAddress DestinationAddress)
    {| Context := c; FileBuffer := File; Destination := D; RuntimeContext := rt |}.
Proof.
  intros Hb Hwf Hs Hst.
  apply (wp_never_faults _ (λ _ _, True) (λ _ _, True)), wp_bind. eapply wp_mono.
  - by eapply (PeCoffLoadImageInplaceNoBase_spec File c Hb Hwf).
  - intros _ ? [-> Hall]. wp_step. unfold PeCoffLoaderGetImageAddress. wp_step. wp_step. wp_step.
    wp_step; [done|]. wp_step. wp_step. wp_step.
    cbn [Context set_Context ImageBuffer set_ImageBuffer image_address].
    eapply wp_mono; [apply PeCoffRelocateImage_spec; try done|done|done].
    by apply inplace_Relocatable.
  - done.
Qed.

(** PeCoffLoaderGetRuntimeContextSize returns the size PeCoffRelocateImage
    needs, 64 bits per 16-bit relocation, and fails exactly when that does not
    fit 32 bits. *)
Theorem PeCoffLoaderGetRuntimeContextSize_exact `{!Platform, !PlatformOk, !OverflowLib}
    (s : loader) :
  RelocsStripped (Context s) = false → u32 (RelocDirSize (Context s)) →
  PeCoffLoaderGetRuntimeContextSize s =
    let n := SIZEOF_PE_COFF_LOADER_RUNTIME_CONTEXT + 4 * RelocDirSize (Context s) in
    if n <? 2 ^ 32 then Ok n s else Err RETURN_UNSUPPORTED s.
Proof.
  intros Hst Hu. unfold PeCoffLoaderGetRuntimeContextSize, mbind, M_bind, getS, ASSERT, require.
  rewrite Hst, orb_true_r. cbn -[Z.pow Z.mul Z.add Z.div]. change (8 / 2) with 4.
  unfold SIZEOF_PE_COFF_LOADER_RUNTIME_CONTEXT. rewrite ovf_mul_u32_spec by done.
  destruct (fits_u 32 (RelocDirSize (Context s) * 4)) eqn:F1; cbn -[Z.pow Z.mul Z.add].
  - apply fits_u_spec in F1. rewrite (wrap_small _ _ F1), ovf_add_u32_spec by done.
    destruct (fits_u 32 (RelocDirSize (Context s) * 4 + 8)) eqn:F2; cbn -[Z.pow Z.mul Z.add].
    + apply fits_u_spec in F2. rewrite wrap_small by done. unfold is_uint in *.
      case_match; [|lia]. unfold mret, M_ret. f_equal. lia.
    + assert (¬ u32 (RelocDirSize (Context s) * 4 + 8)) as Hn by (rewrite <- fits_u_spec, F2; done).
      unfold is_uint in *. case_match; [lia|done].
  - assert (¬ u32 (RelocDirSize (Context s) * 4)) as Hn by (rewrite <- fits_u_spec, F1; done).
    unfold is_uint in *. case_match; [lia|done].
Qed.

(** Relocating an ARM MOVW/MOVT pair adds the displacement, modulo 2^32, to
    the address the four halfwords encode; the bytes around the pair are
    unchanged. *)
Theorem PeCoffThumbMovwMovtImmediateFixup_adds (s : loader) (Instructions Adjust : Z) :
  ImageBuffer (Context s) ≠ ImageNull → bytes (image s) →
  0 <= Instructions → Instructions + 8 <= size (image s) →
  ∃ s', PeCoffThumbMovwMovtImmediateFixup Instructions Adjust s = Ok tt s' ∧
    Context s' = Context s ∧
    thumb_address (image s') Instructions = wrap 32 (thumb_address (image s) Instructions + Adjust) ∧
    ∀ x, x < Instructions ∨ Instructions + 8 <= x → byte_at (image s') x = byte_at (image s) x.
Proof.
  intros Hb Hby H0 H1.
  exists (at_image s (thumb_fixup Adjust (image s) Instructions, RuntimeContext s)). split.
  - apply wp_exact. set (s' := at_image s _). rewrite <- (at_image_self s Hb).
    by apply wp_thumb_fixup.
  - rewrite Context_at_image, image_at_image by done. cbn [fst]. split_and!; [done|by apply thumb_fixup_address|].
    intros x Hx. unfold thumb_fixup.
    rewrite !byte_at_thumb_patch; rewrite ?size_thumb_patch; lia || done.
Qed.

(** When unaligned sections are permitted the relocation directory of an
    image that is loaded in place can lie outside the file: SizeOfImage covers
    the gap before an empty section, PeCoffLoadImageInplaceNoBase compares
    sections only, and PeCoffRelocateImage reads past the end of the file. *)
Theorem PeCoffRelocateImageInplace_relaxed_overrun :
  ∃ c, @PeCoffInitializeContext platform_relaxed sample_lib gap_file (size gap_file) 2 zero_context
         = Ok tt c ∧
       size gap_file < RelocDirRva c ∧
       @PeCoffRelocateImageInplace platform_relaxed sample_lib 0x10000 0
         {| Context := c; FileBuffer := gap_file; Destination := []; RuntimeContext := None |}
       = Fault OutOfBounds.
Proof.
  destruct (@PeCoffInitializeContext platform_relaxed sample_lib gap_file (size gap_file) 2
    zero_context) as [[] c| |] eqn:E; vm_compute in E; try done.
  injection E as <-. eexists. split; [done|]. split; by vm_compute.
Qed.

(** ** Witnesses on the sample image *)

Lemma sample_image_bytes : bytes sample_image.
Proof. apply Forall_app. split; [apply Forall_take, sample_file_bytes|].
  apply (bool_decide_unpack _). by vm_compute.
Qed.

Definition sample_runtime : PE_COFF_LOADER_RUNTIME_CONTEXT :=
  {| RtRelocDirRva := 0; RtRelocDirSize := 0; FixupData := replicate 48 0xCC |}.

Lemma sample_relocatable rt :
  @Relocatable platform_strict (set_RuntimeContext rt sample_loaded).
Proof.
  apply (@loaded_Relocatable platform_strict sample_file); [apply sample_image_bytes| |by vm_compute].
  apply sample_well_formed.
Qed.

Lemma PeCoffRelocateImage_safe_witness :
  never_faults (@PeCoffRelocateImage platform_strict sample_lib 0x2000 56)
    (set_RuntimeContext (Some sample_runtime) sample_loaded).
Proof.
  apply (@PeCoffRelocateImage_safe platform_strict platform_strict_ok sample_lib);
    [apply sample_relocatable|by vm_compute|done].
Defined.

Lemma PeCoffRelocateImage_refines_witness :
  ∃ s', @PeCoffRelocateImage platform_strict sample_lib 0x2000 0
          (set_RuntimeContext None sample_loaded) = Ok tt s' ∧
    image s' = foldl (apply_fixup (wrap 64 (0x2000 - 0x140000000))) sample_image
      [{| fx_index := 0; fx_type := 10; fx_target := 272 |};
       {| fx_index := 1; fx_type := 0; fx_target := 272 |}] ∧
    load 8 (image s') 272 = 0x2118.
Proof.
  eexists. split; [by vm_compute|]. split; [|by vm_compute].
  refine (proj1 (@PeCoffRelocateImage_refines platform_strict platform_strict_ok sample_lib
    (set_RuntimeContext None sample_loaded) _ 0x2000 0 (sample_relocatable None) _ _ _ _));
    by vm_compute.
Defined.

Lemma PeCoffRelocateImage_identity_witness :
  ∃ s', @PeCoffRelocateImage platform_strict sample_lib 0x140000000 56
          (set_RuntimeContext (Some sample_runtime) sample_loaded) = Ok tt s' ∧
    image s' = image (set_RuntimeContext (Some sample_runtime) sample_loaded).
Proof.
  eexists. split; [by vm_compute|].
  apply (@PeCoffRelocateImage_identity platform_strict platform_strict_ok sample_lib
    (set_RuntimeContext (Some sample_runtime) sample_loaded) _ 56
    (sample_relocatable (Some sample_runtime))); by vm_compute.
Defined.

Lemma load_and_relocate_safe_witness :
  ∃ D', @PeCoffLoadImage platform_strict 0x2000 (size sample_destination) sample_state =
      Ok tt {| Context := set_ImageBuffer ImageDestination sample_context; FileBuffer := sample_file; Destination := D'; RuntimeContext := None |} ∧
    never_faults (@PeCoffRelocateImage platform_strict sample_lib 0x2000 0)
      {| Context := set_ImageBuffer ImageDestination sample_context; FileBuffer := sample_file; Destination := D'; RuntimeContext := None |}.
Proof.
  destruct (@load_and_relocate_safe platform_strict platform_strict_ok sample_lib sample_file
    sample_destination 2 0x2000 0x2000 0 zero_context sample_context None sample_file_bytes) as (D' & Hl & _ & _ & Hr); [by vm_compute..|].
  exists D'. exact (conj Hl Hr).
Defined.

Lemma PeCoffRelocateImageInplace_safe_witness :
  never_faults (@PeCoffRelocateImageInplace platform_strict sample_lib 0x100000 0) sample_state.
Proof.
  apply (@PeCoffRelocateImageInplace_safe platform_strict platform_strict_ok sample_lib sample_file
    sample_destination 0x100000 0 sample_context None sample_file_bytes sample_well_formed);
    by vm_compute.
Defined.

Lemma PeCoffLoaderGetRuntimeContextSize_exact_witness :
  @PeCoffLoaderGetRuntimeContextSize platform_strict sample_lib sample_loaded = Ok 56 sample_loaded.
Proof.
  refine (eq_trans (@PeCoffLoaderGetRuntimeContextSize_exact platform_strict
    platform_strict_ok sample_lib sample_loaded _ _) _); by vm_compute.
Defined.

(** MOVW R0, #0x1234; MOVT R0, #0 at the start of an image. *)
Definition thumb_sample : loader :=
  {| Context := set_ImageBuffer ImageDestination zero_context; FileBuffer := [];
     Destination := le_bytes 2 0xF241 ++ le_bytes 2 0x2034 ++ le_bytes 2 0xF2C0 ++ le_bytes 2 0;
     RuntimeContext := None |}.

Lemma PeCoffThumbMovwMovtImmediateFixup_adds_witness :
  thumb_address (image thumb_sample) 0 = 0x1234 ∧
  ∃ s', PeCoffThumbMovwMovtImmediateFixup 0 0x12345678 thumb_sample = Ok tt s' ∧
    Context s' = Context thumb_sample ∧
    thumb_address (image s') 0 = wrap 32 (thumb_address (image thumb_sample) 0 + 0x12345678) ∧
    ∀ x, x < 0 ∨ 0 + 8 <= x → byte_at (image s') x = byte_at (image thumb_sample) x.
Proof.
  split; [by vm_compute|]. apply PeCoffThumbMovwMovtImmediateFixup_adds;
    [done|apply (bool_decide_unpack _); by vm_compute|done|done].
Defined.
