(* ===== verification/PeCoffRuntime.v ===== *)
(** Relocation at runtime (PeCoffRuntimeRelocateImage of PeCoffRelocate.c): the
    safety of relocating an image again after its code has run, and the
    agreement of the bookkept values with the image PeCoffRelocateImage left. *)
From S2P Require Import Prelude Base Buffer Overflow PeImage PeSample PeCoffInit PeCoffLoad PeCoffRelocate.

(** ** Relocation at runtime *)

Section Runtime.
Context `{!Platform, !PlatformOk, !OverflowLib}.
Context (r : PE_COFF_LOADER_RUNTIME_CONTEXT) (Adjust : Z).

(** The value bookkept for a relocation. *)
Definition fixup_data (f : fixup) : Z := load 8 (FixupData r) (8 * fx_index f).

Definition target_matches (img : list Z) (f : fixup) : bool :=
  (fx_type f =? EFI_IMAGE_REL_BASED_ABSOLUTE) || (fixup_data f =? fixup_value img f).

(** A relocation whose target has changed is skipped. *)
Definition runtime_fixup (img : list Z) (f : fixup) : list Z :=
  if target_matches img f then apply_fixup Adjust img f else img.

(** No target has changed when its relocation is reached. *)
Fixpoint targets_match (img : list Z) (l : list fixup) : bool :=
  match l with
  | [] => true
  | f :: l => target_matches img f && targets_match (runtime_fixup img f) l
  end.

Lemma targets_match_app img l1 l2 :
  targets_match img (l1 ++ l2) =
    targets_match img l1 && targets_match (foldl runtime_fixup img l1) l2.
Proof.
  revert img. induction l1 as [|f l1 IH]; intros img; [done|]. cbn. by rewrite IH, andb_assoc.
Qed.

Context (s0 : loader) (img0 : list Z).
Abbreviation c := (Context s0).
Context (Hbuf : ImageBuffer c ≠ ImageNull) (Hbytes : bytes img0).
Context (Hsize : SizeOfImage c <= size img0) (Himage : u32 (SizeOfImage c)).
Context (Hdir : u32 (RelocDirRva c)) (Hdirsize : u32 (RelocDirSize c)).
Context (Htop : reloc_top c <= SizeOfImage c) (HF : 4 * RelocDirSize c <= size (FixupData r)).

Definition runtime_state (rt : option PE_COFF_LOADER_RUNTIME_CONTEXT) (img : list Z) : loader :=
  at_image s0 (img, rt).

(** Outcomes: the reference result, or the error of a changed target, which the
    policy must forbid. *)
Definition runtime_ok rt (img : list Z) (l : list fixup) (s' : loader) : Prop :=
  s' = runtime_state rt (foldl runtime_fixup img l) ∧
  (PcdImageLoaderRtRelocAllowTargetMismatch = false → targets_match img l = true).
Definition runtime_err rt (img : list Z) (l : list fixup) (e : RETURN_STATUS) (s' : loader) : Prop :=
  e = RETURN_VOLUME_CORRUPTED ∧ PcdImageLoaderRtRelocAllowTargetMismatch = false ∧
  targets_match img l = false ∧
  ∃ img', s' = runtime_state rt img' ∧ same_directory c img0 img'.

Lemma same_directory_runtime img f :
  same_directory c img0 img → valid_fixup c f → same_directory c img0 (runtime_fixup img f).
Proof. intros. unfold runtime_fixup. case_match; [by apply same_directory_apply|done]. Qed.

(** The target is what the first relocation left: the fixup is applied. *)
Lemma runtime_hit (m : LoadM unit) rt img f :
  fixup_data f = fixup_value img f →
  wp m (λ _ s', s' = runtime_state rt (apply_fixup Adjust img f)) (λ _ _, False)
    (runtime_state rt img) →
  wp m (λ _ s', runtime_ok rt img [f] s') (runtime_err rt img [f]) (runtime_state rt img).
Proof.
  intros Heq Hm. eapply wp_mono; [exact Hm| |done]. intros _ ? ->. unfold runtime_ok. cbn.
  unfold runtime_fixup, target_matches. by rewrite Heq, Z.eqb_refl, orb_true_r.
Qed.

(** It is not: the policy decides. *)
Lemma runtime_miss rt img f :
  same_directory c img0 img → fx_type f ≠ EFI_IMAGE_REL_BASED_ABSOLUTE →
  fixup_data f ≠ fixup_value img f →
  wp (TargetMismatch;; mret tt) (λ _ s', runtime_ok rt img [f] s') (runtime_err rt img [f])
    (runtime_state rt img).
Proof.
  intros Hsame Hnz Hne. apply Z.eqb_neq in Hne, Hnz. wp_step. unfold TargetMismatch. wp_step; wp_step.
  - wp_step. unfold runtime_ok. cbn. unfold runtime_fixup, target_matches. rewrite Hne, Hnz. cbn.
    split; [done|congruence].
  - unfold runtime_err. cbn. unfold target_matches. rewrite Hne, Hnz. cbn. eauto 6.
Qed.

Lemma runtime_store rt img f n v :
  0 <= fx_target f → fx_target f + Z.of_nat n <= size img →
  wp (store_image n (fx_target f) v)
    (λ _ s', s' = runtime_state rt (write_bytes img (fx_target f) (le_bytes n v)))
    (λ _ _, False) (runtime_state rt img).
Proof. intros. by apply wp_store_image. Qed.

Lemma InternalApplyRelocationRuntime_spec rt img f :
  same_directory c img0 img → valid_fixup c f → fx_type f ≠ EFI_IMAGE_REL_BASED_ABSOLUTE →
  wp (InternalApplyRelocationRuntime (fx_target f) (fx_type f) Adjust (fixup_data f))
    (λ _ s', runtime_ok rt img [f] s') (runtime_err rt img [f]) (runtime_state rt img).
Proof.
  intros Hsame Hv Hnz. pose proof (proj1 Hsame) as Hsz.
  destruct Hv as [|(Hsup & H0' & H1' & _)]; [done|]. apply Z.eqb_neq in Hnz as Hnz'.
  pose proof (runtime_miss rt img f Hsame Hnz) as Hmiss. pose proof (λ m, runtime_hit m rt img f) as Hhit.
  unfold fixup_value, apply_fixup in Hmiss, Hhit. rewrite fx_width_supported in H1', Hmiss by done.
  setoid_rewrite fx_width_supported in Hhit; [|done]. rewrite Hnz' in Hhit.
  unfold InternalApplyRelocationRuntime. wp_step. wp_step; [by rewrite Hsup, Hnz'|].
  unfold IMAGE_RELOC_TYPE_SUPPORTED in Hsup. rewrite Hnz' in Hsup.
  apply wp_if; intros Ht; rewrite Ht in *.
  { wp_step. apply wp_read_image; [done|lia|cbn; lia|].
    apply wp_if; intros Heq; [apply Hmiss; cbn in *; lia|].
    apply Hhit; [cbn in *; lia|]. apply runtime_store; cbn in *; lia. }
  apply wp_if; intros Ht2; rewrite Ht2 in *.
  { wp_step. apply wp_read_image; [done|lia|cbn; lia|].
    apply wp_if; intros Heq; [apply Hmiss; cbn in *; lia|].
    apply Hhit; [cbn in *; lia|]. apply runtime_store; cbn in *; lia. }
  apply wp_if; intros Ht3; rewrite Ht3 in Hsup; cbn in Hsup;
    [|by rewrite andb_false_r in Hsup].
  wp_step. wp_step; [by rewrite andb_true_r in Hsup|].
  wp_step. apply wp_read_image; [done|lia|cbn; lia|].
  apply wp_if; intros Heq; [apply Hmiss; cbn in *; lia|].
  apply Hhit; [cbn in *; lia|]. by apply wp_thumb_fixup; [|lia|cbn; lia|].
Qed.

(** Outcomes compose along the list of relocations. *)
Lemma runtime_ok_app rt img l1 l2 s' :
  (PcdImageLoaderRtRelocAllowTargetMismatch = false → targets_match img l1 = true) →
  runtime_ok rt (foldl runtime_fixup img l1) l2 s' → runtime_ok rt img (l1 ++ l2) s'.
Proof.
  intros H1' [-> H2']. split; [by rewrite foldl_app|]. intros Hp.
  by rewrite targets_match_app, H1', H2'.
Qed.

Lemma runtime_err_app_l rt img l1 l2 e s' :
  runtime_err rt img l1 e s' → runtime_err rt img (l1 ++ l2) e s'.
Proof. intros (? & ? & Hm & ?). unfold runtime_err. by rewrite targets_match_app, Hm. Qed.

Lemma runtime_err_app_r rt img l1 l2 e s' :
  runtime_err rt (foldl runtime_fixup img l1) l2 e s' → runtime_err rt img (l1 ++ l2) e s'.
Proof. intros (? & ? & Hm & ?). unfold runtime_err. by rewrite targets_match_app, Hm, andb_false_r. Qed.

Lemma same_directory_runtime_fold l : ∀ img,
  same_directory c img0 img → Forall (valid_fixup c) l →
  same_directory c img0 (foldl runtime_fixup img l).
Proof.
  induction l as [|f l IH]; intros img Hs Hl; [done|]. apply Forall_cons_iff in Hl as [Hf Hl].
  cbn. apply IH; [|done]. by apply same_directory_runtime.
Qed.

Lemma RuntimeRelocation_spec rt img off idx k :
  same_directory c img0 img → RelocDirRva c <= off → 0 <= idx → 0 <= k →
  off + SIZEOF_EFI_IMAGE_BASE_RELOCATION_BLOCK + 2 * k + 2 <= reloc_top c →
  2 * (idx + k) + 2 <= RelocDirSize c →
  valid_fixup c (block_fixup img0 off idx k) →
  wp (RuntimeRelocation r off Adjust k (idx + k))
    (λ i s', i = idx + (k + 1) ∧ runtime_ok rt img [block_fixup img0 off idx k] s')
    (runtime_err rt img [block_fixup img0 off idx k]) (runtime_state rt img).
Proof.
  intros Hsame Hoff Hidx Hk Hend Hroom Hv. assert (Hsz := proj1 Hsame). unfold is_uint in *.
  set (f := block_fixup img0 off idx k) in *. unfold RuntimeRelocation, block_Relocations.
  autounfold with pe_layout in *. wp_step. apply wp_read_image; [done|lia|cbn [fst]; lia|].
  cbn [fst]. rewrite (same_directory_load c 2 img0) by (done || lia).
  change (IMAGE_RELOC_TYPE _) with (fx_type f).
  rewrite wrap_small by (unfold is_uint; lia). rewrite <- Z.add_assoc.
  apply wp_if; intros Habs.
  { wp_step. split; [done|]. unfold runtime_ok. cbn. unfold runtime_fixup, target_matches, apply_fixup.
    autounfold with pe_layout. by rewrite Habs. }
  wp_step. unfold block_VirtualAddress. autounfold with pe_layout.
  apply wp_read_image; [done|lia|cbn [fst]; lia|]. cbn [fst].
  rewrite (same_directory_load c 4 img0) by (done || lia).
  change (load 4 img0 (off + 0) + IMAGE_RELOC_OFFSET _) with (fx_target f).
  pose proof (u16_reloc _ (load_u16 img0 (off + 8 + 2 * k) Hbytes)) as Hro.
  assert (0 <= load 4 img0 (off + 0) < 2 ^ 32) as Hva by (apply load_u32; done).
  assert (0 <= fx_target f < 2 ^ 32 ∧
    IMAGE_RELOC_OFFSET (load 2 img0 (off + 8 + 2 * k)) <= fx_target f) as [Ht Hle].
  { destruct Hv as [|(_ & ? & ? & _)]; [autounfold with pe_layout in *; lia|].
    split; [lia|]. cbn. autounfold with pe_layout. lia. }
  rewrite wrap_small by done. wp_step. wp_step; [lia|]. wp_step. unfold read_fixup.
  apply wp_rd; [lia..|]. change (load 8 _ _) with (fixup_data f).
  wp_step. eapply wp_mono; [apply InternalApplyRelocationRuntime_spec; try done;
    autounfold with pe_layout; lia| |done].
  intros [] s' Hok. wp_step. done.
Qed.

(** The inner loop. *)
Lemma runtime_block_spec rt img off idx n :
  same_directory c img0 img → RelocDirRva c <= off → 0 <= idx → 0 <= n →
  off + SIZEOF_EFI_IMAGE_BASE_RELOCATION_BLOCK + 2 * n <= reloc_top c →
  2 * (idx + n) <= RelocDirSize c →
  (∀ k, 0 <= k < n → valid_fixup c (block_fixup img0 off idx k)) →
  let l := map (block_fixup img0 off idx) (seqZ 0 n) in
  wp (for_loop (Z.to_nat n) 0 (RuntimeRelocation r off Adjust) idx)
    (λ i s', i = idx + n ∧ runtime_ok rt img l s') (runtime_err rt img l) (runtime_state rt img).
Proof.
  intros Hsame Hoff Hidx Hn Hend Hroom Hv l.
  assert (∀ j, 0 <= j <= n → l = map (block_fixup img0 off idx) (seqZ 0 j) ++
    map (block_fixup img0 off idx) (seqZ j (n - j))) as Hsplit.
  { intros j Hj. unfold l. rewrite <- map_app, <- (seqZ_app 0) by lia. do 2 f_equal. lia. }
  set (I j := λ i s', i = idx + j ∧
    runtime_ok rt img (map (block_fixup img0 off idx) (seqZ 0 j)) s').
  change (wp (for_loop (Z.to_nat n) 0 (RuntimeRelocation r off Adjust) idx) (I n)
    (runtime_err rt img l) (runtime_state rt img)).
  rewrite <- (Z.add_0_l n) at 2. rewrite <- (Z2Nat.id n) at 2 by done.
  apply (wp_for_loop I); [split; [lia|by split]|].
  rewrite Z2Nat.id by done. intros j i ? Hj [-> [-> Hm]].
  set (l1 := map (block_fixup img0 off idx) (seqZ 0 j)) in *.
  eapply wp_mono; [apply RuntimeRelocation_spec; try lia; [|apply Hv; lia]| |].
  - apply same_directory_runtime_fold; [done|]. apply Forall_map, Forall_forall.
    intros k Hk%list_elem_of_In%elem_of_seqZ. apply Hv. lia.
  - intros i s' [-> Hok]. split; [done|]. rewrite (seqZ_app 0 j 1), map_app by lia.
    rewrite (seqZ_cons (0 + j) 1) by lia. by apply runtime_ok_app.
  - intros e s' He. rewrite (Hsplit (j + 1)) by lia. apply runtime_err_app_l.
    rewrite (seqZ_app 0 j 1), map_app by lia. rewrite (seqZ_cons (0 + j) 1) by lia.
    by apply runtime_err_app_r.
Qed.

Context (Hfit : u32 (aligned_top c)).

Lemma aligned_top_ge : reloc_top c <= aligned_top c.
Proof.
  unfold aligned_top. case_match; [lia|].
  pose proof (align_up_ge (reloc_top c) ALIGNOF_EFI_IMAGE_BASE_RELOCATION_BLOCK align4_pos). lia.
Qed.

(** The header of a block is the one of the image before. *)
Lemma wp_runtime_SizeOfBlock rt img off (Q : Z → loader → Prop) E :
  same_directory c img0 img → RelocDirRva c <= off →
  off + SIZEOF_EFI_IMAGE_BASE_RELOCATION_BLOCK <= reloc_top c →
  Q (block_size img0 off) (runtime_state rt img) →
  wp (block_SizeOfBlock off) Q E (runtime_state rt img).
Proof.
  intros Hsame Hoff Hend HQ. assert (Hsz := proj1 Hsame). assert (0 <= off) by (destruct Hdir; lia).
  unfold block_SizeOfBlock. apply wp_read_image; [done|autounfold with pe_layout in *; lia|
    cbn [fst]; autounfold with pe_layout in *; lia|].
  cbn [fst]. by rewrite (same_directory_load c 4 img0) by (done || autounfold with pe_layout in *; lia).
Qed.

Lemma wp_runtime_advance (s : loader) sz :
  u32 sz → u32 (align_up sz ALIGNOF_EFI_IMAGE_BASE_RELOCATION_BLOCK) →
  (strict_blocks = true → (ALIGNOF_EFI_IMAGE_BASE_RELOCATION_BLOCK | sz)) →
  wp (if strict_blocks then
        ASSERT (IS_ALIGNED sz ALIGNOF_EFI_IMAGE_BASE_RELOCATION_BLOCK);; mret sz
      else mret (ALIGN_VALUE 32 sz ALIGNOF_EFI_IMAGE_BASE_RELOCATION_BLOCK))
    (λ n s', s' = s ∧ n = align_up sz ALIGNOF_EFI_IMAGE_BASE_RELOCATION_BLOCK) (λ _ _, False) s.
Proof.
  intros Hu Hua Hstr. wp_step.
  - wp_step. wp_step; [apply IS_ALIGNED_spec; first [done|by apply Hstr]|]. wp_step.
    split; [done|]. rewrite align_up_id; [done|done|by apply Hstr].
  - wp_step. split; [done|]. by apply ALIGN_VALUE_spec.
Qed.

Lemma RuntimeRelocateBlocks_spec rt fuel : ∀ off idx img,
  same_directory c img0 img → (ALIGNOF_EFI_IMAGE_BASE_RELOCATION_BLOCK | off) →
  RelocDirRva c <= off → 0 <= idx → 2 * idx <= off - RelocDirRva c → 2 * idx <= RelocDirSize c →
  valid_blocks c fuel img0 off idx → (fixups c fuel img0 off idx).2 = aligned_top c →
  let l := (fixups c fuel img0 off idx).1 in
  wp (RuntimeRelocateBlocks fuel r (reloc_top c) Adjust off idx)
    (λ e s', e = aligned_top c ∧ runtime_ok rt img l s')
    (runtime_err rt img l) (runtime_state rt img).
Proof.
  assert (Hu := Hdirsize). unfold is_uint in Hu. pose proof aligned_top_ge as Hge.
  induction fuel as [|fuel IH]; intros off idx img Hsame Hal Hoff Hidx Hcnt Hcnt' Hv Hend;
    cbn [RuntimeRelocateBlocks fixups valid_blocks] in *.
  { destruct (Z.leb_spec off (reloc_top c - SIZEOF_EFI_IMAGE_BASE_RELOCATION_BLOCK)); [by destruct Hv|].
    cbn in Hend. destruct (Z.ltb_spec off (reloc_top c)); [lia|]. wp_step. cbn. by split; [|split]. }
  destruct (Z.leb_spec off (reloc_top c - SIZEOF_EFI_IMAGE_BASE_RELOCATION_BLOCK)) as [Hle|].
  2: { cbn in Hend. destruct (Z.ltb_spec off (reloc_top c)); [lia|]. wp_step. cbn. by split; [|split]. }
  destruct (Hv Hle) as [(H8 & Hbend & Hstr & Hval) Hrest].
  destruct (Z.ltb_spec off (reloc_top c)); [|autounfold with pe_layout in *; lia].
  destruct (block_next_bound s0 img0 Himage Hdir Htop) with (off := off) as (Hu1 & Hu2 & Hal');
    try done; [by unfold aligned_top in Hfit; intros Hs; rewrite Hs in Hfit|autounfold with pe_layout in *; lia|].
  destruct (fixups c fuel img0 (block_next img0 off) (idx + block_count img0 off)) as [l e] eqn:Hfx.
  cbn [fst snd] in Hend |- *. subst e. set (l1 := map (block_fixup img0 off idx) (seqZ 0 _)).
  assert (0 <= block_count img0 off ∧ 2 * block_count img0 off
            <= block_size img0 off - SIZEOF_EFI_IMAGE_BASE_RELOCATION_BLOCK) as [Hc0 Hc1].
  { unfold block_count. split; [apply Z.div_pos; lia|apply Z.mul_div_le; lia]. }
  assert (u32 (block_size img0 off)) as Hbs by (apply load_u32; done).
  assert (Hsz := proj1 Hsame). assert (0 <= off) by (destruct Hdir; lia). unfold is_uint in Hbs.
  wp_step. wp_step; [apply IS_ALIGNED_spec; done || lia|]. wp_step.
  apply wp_runtime_SizeOfBlock; [done|done|lia|]. wp_step. wp_step; [lia|].
  rewrite wrap_small by (unfold is_uint; autounfold with pe_layout in *; lia). fold (block_count img0 off).
  wp_step. eapply wp_mono.
  { apply (runtime_block_spec rt img off idx); try done; unfold reloc_top in *; autounfold with pe_layout in *; lia. }
  2: { intros e s' He. by apply runtime_err_app_l. }
  intros i s' [-> [-> Hm]]. fold l1 in Hm |- *. set (img1 := foldl runtime_fixup img l1).
  assert (same_directory c img0 img1) as Hsame1.
  { apply same_directory_runtime_fold; [done|]. apply Forall_map, Forall_forall.
    intros k Hk%list_elem_of_In%elem_of_seqZ. apply Hval. lia. }
  wp_step. apply wp_runtime_SizeOfBlock; [done|done|lia|]. wp_step.
  eapply wp_mono; [by apply wp_runtime_advance| |done].
  intros sz ? [-> ->]. rewrite wrap_small by done. fold (block_next img0 off).
  pose proof (align_up_ge (block_size img0 off) _ align4_pos) as Hge'.
  specialize (IH (block_next img0 off) (idx + block_count img0 off) img1 Hsame1 Hal').
  rewrite Hfx in IH. eapply wp_mono; [apply IH; try done| |].
  - unfold block_next. autounfold with pe_layout in *. lia.
  - lia.
  - unfold block_next. autounfold with pe_layout in *. lia.
  - unfold reloc_top in *. autounfold with pe_layout in *. lia.
  - intros e s' [-> Hok]. split; [done|]. by apply runtime_ok_app.
  - intros e s' He. by apply runtime_err_app_r.
Qed.
End Runtime.

(** ** The whole function *)

Section RuntimeWhole.
Context `{!Platform, !PlatformOk, !OverflowLib} (FileAddress DestinationAddress : Z).

(** The displacement from where the image is to where it will be. *)
Definition runtime_adjust (s : loader) (BaseAddress : Z) : Z :=
  wrap 64 (BaseAddress - image_address FileAddress DestinationAddress (ImageBuffer (Context s))).

(** [r] describes the directory of [s1], which was found valid. *)
Record runtime_ready (s1 : loader) (r : PE_COFF_LOADER_RUNTIME_CONTEXT) : Prop := {
  rr_relocatable : Relocatable s1;
  rr_rva : RtRelocDirRva r = RelocDirRva (Context s1);
  rr_size : RtRelocDirSize r = RelocDirSize (Context s1);
  rr_data : 4 * RelocDirSize (Context s1) <= size (FixupData r);
  rr_valid : RelocDirSize (Context s1) ≠ 0 → directory_valid s1;
}.

(** [s] is the same image later: only its relocation directory must be intact. *)
Definition same_image (s1 s : loader) : Prop :=
  Context s = Context s1 ∧ same_directory (Context s1) (image s1) (image s).

Definition runtime_skipped (s : loader) (BaseAddress : Z) (r : PE_COFF_LOADER_RUNTIME_CONTEXT) : bool :=
  (RtRelocDirSize r =? 0) || (runtime_adjust s BaseAddress =? 0).

Lemma PeCoffRuntimeRelocateImage_spec s1 s r BaseAddress :
  runtime_ready s1 r → same_image s1 s → BaseAddress ≠ 0 →
  let A := runtime_adjust s BaseAddress in
  let l := (image_fixups s1).1 in
  wp (PeCoffRuntimeRelocateImage FileAddress DestinationAddress BaseAddress r)
    (λ _ s', if runtime_skipped s BaseAddress r then s' = s
             else runtime_ok r A s (RuntimeContext s) (image s) l s')
    (runtime_err r A s (image s1) (RuntimeContext s) (image s) l) s.
Proof.
  intros [Hrel Hrva Hsize Hdata Hvalid] [Hctx Hsame] HBase A l.
  unfold PeCoffRuntimeRelocateImage, runtime_skipped. wp_step. wp_step. wp_step. wp_step; [lia|].
  apply wp_if; intros Hz; rewrite Hz; [by wp_step|]. fold (runtime_adjust s BaseAddress). fold A.
  apply wp_if; intros HA; rewrite HA; [by wp_step|]. cbn [orb].
  destruct Hrel as [Hbuf Hby Hiu [Hdu Hsu] Hdir].
  assert (RelocDirSize (Context s1) ≠ 0) as Hnz by (rewrite <- Hsize; lia).
  destruct (Hvalid Hnz) as (Hfit & Hvb & Hend). destruct (Hdir Hnz) as (_ & Htop & Hal & Hsz).
  rewrite Hrva, Hsize. fold (reloc_top (Context s1)). unfold is_uint in Hiu, Hdu, Hsu.
  rewrite wrap_small by (unfold reloc_top, is_uint in *; lia).
  unfold image_fixups in Hend. rewrite <- Hctx in *. wp_step.
  assert (Hspec := RuntimeRelocateBlocks_spec r A s (image s1) Hbuf Hby Hsz Hiu Hdu Hsu Htop Hdata Hfit
    (RuntimeContext s) (Z.to_nat (RelocDirSize (Context s))) (RelocDirRva (Context s)) 0 (image s)
    Hsame Hal ltac:(lia) ltac:(lia) ltac:(lia) ltac:(lia) Hvb Hend).
  unfold runtime_state in Hspec. rewrite (at_image_self s Hbuf) in Hspec. eapply wp_mono.
  - exact Hspec.
  - intros e s' [-> Hok].
    replace (if negb strict_blocks then _ else _) with (aligned_top (Context s)).
    + wp_step; [apply Z.eqb_refl|]. unfold l, image_fixups. rewrite <- Hctx. done.
    + unfold aligned_top in *. destruct strict_blocks; [done|]. cbn. symmetry.
      apply ALIGN_VALUE_spec; try done. unfold reloc_top, is_uint in *. lia.
  - intros e s' He. unfold l, image_fixups. by rewrite <- Hctx.
Qed.
End RuntimeWhole.

(** ** The bookkept values *)

Definition in_target (f : fixup) (x : Z) : Prop :=
  fx_target f <= x < fx_target f + Z.of_nat (fx_width (fx_type f)).

(** Two relocations with no common target byte. *)
Definition disjoint_targets (f g : fixup) : Prop := ∀ x, in_target f x → in_target g x → False.

Section Bookkeeping.
Context `{!Platform} (c : PE_COFF_LOADER_IMAGE_CONTEXT) (Adjust : Z).

(** The relocations are numbered in order. *)
Lemma fixups_index fuel img : ∀ off idx,
  valid_blocks c fuel img off idx →
  map fx_index (fixups c fuel img off idx).1
    = seqZ idx (Z.of_nat (length (fixups c fuel img off idx).1)).
Proof.
  induction fuel as [|fuel IH]; intros off idx Hv; cbn [fixups valid_blocks] in *; [by case_match|].
  destruct (Z.leb_spec off (reloc_top c - SIZEOF_EFI_IMAGE_BASE_RELOCATION_BLOCK)) as [Hle|]; [|done].
  destruct (Hv Hle) as [(H8 & _) Hrest]. specialize (IH _ _ Hrest).
  destruct (fixups c fuel img _ _) as [l e]. cbn [fst] in *.
  assert (0 <= block_count img off) by (apply Z.div_pos; lia).
  rewrite map_app, length_app, length_map, length_seqZ, IH.
  replace (Z.of_nat (Z.to_nat (block_count img off) + length l))
    with (block_count img off + Z.of_nat (length l)) by lia.
  rewrite (seqZ_app idx) by lia. f_equal. rewrite map_map.
  pose proof (fmap_add_seqZ idx 0 (block_count img off)) as Hm. rewrite Z.add_0_r in Hm. exact Hm.
Qed.

Lemma indices_sorted l : ∀ k n,
  map fx_index l = seqZ k n →
  ForallOrdPairs (λ f g, fx_index f < fx_index g) l ∧ Forall (λ f, k <= fx_index f < k + n) l.
Proof.
  induction l as [|f l IH]; intros k n Hl; [split; constructor|].
  destruct (decide (n <= 0)) as [|Hn]; [by rewrite seqZ_nil in Hl by lia|].
  rewrite seqZ_cons in Hl by lia. cbn in Hl. injection Hl as Hf Hl.
  destruct (IH _ _ Hl) as [Hs Hr]. split; constructor; try done; [|lia|];
    eapply Forall_impl; try done; cbn; lia.
Qed.

Lemma fixup_value_apply img f g :
  SizeOfImage c <= size img → valid_fixup c f → disjoint_targets f g →
  fixup_value (apply_fixup Adjust img f) g = fixup_value img g.
Proof.
  intros Hsz Hv Hd. apply load_ext. intros i Hi. apply (apply_fixup_outside c); try done.
  specialize (Hd (fx_target g + i)). unfold in_target in Hd. lia.
Qed.

Lemma fixup_value_fold l f : ∀ img,
  SizeOfImage c <= size img → Forall (valid_fixup c) l → Forall (disjoint_targets f) l →
  fixup_value (foldl (apply_fixup Adjust) img l) f = fixup_value img f.
Proof.
  intros img Hsz Hv Hd. apply load_ext. intros i Hi. apply (fold_fixups_outside c); try done.
  eapply Forall_impl; [|exact Hd]. intros g Hg. specialize (Hg (fx_target f + i)).
  unfold in_target in Hg. lia.
Qed.

Lemma fixup_value_u64 img f : bytes img → u64 (fixup_value img f).
Proof.
  intros Hb. unfold fixup_value. eapply is_uint_mono; [|by apply load_range].
  unfold fx_width. repeat case_match; lia.
Qed.

(** After all relocations, slot [k] holds what relocation [k] left in the image. *)
Lemma after_data l : ∀ img r0,
  bytes img → SizeOfImage c <= size img → Forall (valid_fixup c) l →
  Forall (λ f, 0 <= fx_index f ∧ 8 * fx_index f + 8 <= size (FixupData r0)) l →
  ForallOrdPairs (λ f g, fx_index f < fx_index g) l →
  ∃ r', (after Adjust (img, Some r0) l).2 = Some r' ∧
    RtRelocDirRva r' = RtRelocDirRva r0 ∧ RtRelocDirSize r' = RtRelocDirSize r0 ∧
    size (FixupData r') = size (FixupData r0) ∧
    (∀ k, Forall (λ f, k < fx_index f) l →
       load 8 (FixupData r') (8 * k) = load 8 (FixupData r0) (8 * k)) ∧
    (ForallOrdPairs disjoint_targets l →
       Forall (λ f, fixup_data r' f = fixup_value (foldl (apply_fixup Adjust) img l) f) l).
Proof.
  induction l as [|f l IH]; intros img r0 Hb Hsz Hv Hi Ho; [exists r0; by split_and!|].
  apply Forall_cons_iff in Hv as [Hf Hv]. apply Forall_cons_iff in Hi as [[Hi0 Hi1] Hi].
  inversion_clear Ho as [|? ? Hlt Ho'].
  set (img1 := apply_fixup Adjust img f). set (r1 := record_value f img1 r0).
  assert (size (FixupData r1) = size (FixupData r0)) as Hs1
    by (apply size_write_bytes; rewrite ?size_le_bytes; lia).
  assert (size img1 = size img) as Hsi by (by apply (size_apply_fixup c)).
  destruct (IH img1 r1) as (r' & Haft & Hr1 & Hr2 & Hr3 & Hslot & Hval); try done.
  { by apply bytes_apply_fixup. }
  { by rewrite Hsi. }
  { by rewrite Hs1. }
  exists r'. split_and!; try done; [by rewrite Hr3|..].
  - intros k [Hk _]%Forall_cons_iff. rewrite Hslot.
    + apply load_write_disjoint; rewrite ?size_le_bytes; lia.
    + eapply Forall_impl; [|exact Hlt]. cbn. lia.
  - intros Hd. inversion_clear Hd as [|? ? Hdf Hdl]. constructor; [|by apply Hval].
    cbn [foldl]. fold img1. rewrite fixup_value_fold by (done || by rewrite Hsi).
    unfold fixup_data. rewrite Hslot by done. cbn [FixupData r1 record_value].
    unfold r1, record_value. cbn [FixupData].
    rewrite load_write_same by lia. apply Z.mod_small.
    apply fixup_value_u64. by apply bytes_apply_fixup.
Qed.

(** If every slot holds what its target holds, nothing is skipped. *)
Lemma targets_match_all r l : ∀ img,
  SizeOfImage c <= size img → Forall (valid_fixup c) l → ForallOrdPairs disjoint_targets l →
  Forall (λ f, fixup_data r f = fixup_value img f) l →
  targets_match r Adjust img l = true ∧
  foldl (runtime_fixup r Adjust) img l = foldl (apply_fixup Adjust) img l.
Proof.
  induction l as [|f l IH]; intros img Hsz Hv Hd He; [done|].
  apply Forall_cons_iff in Hv as [Hf Hv]. apply Forall_cons_iff in He as [Hfe He].
  inversion_clear Hd as [|? ? Hdf Hdl].
  assert (target_matches r img f = true) as Hm
    by (unfold target_matches; by rewrite Hfe, Z.eqb_refl, orb_true_r).
  cbn. unfold runtime_fixup at 1 3. rewrite Hm. cbn [andb]. apply IH; try done.
  - by rewrite (size_apply_fixup c).
  - apply Forall_forall. intros g Hg. rewrite Forall_forall in He, Hdf.
    rewrite fixup_value_apply by auto. auto.
Qed.
End Bookkeeping.

(** ** Properties *)

Section Relocated.
Context `{!Platform, !PlatformOk, !OverflowLib} (s1 s2 : loader) (r : PE_COFF_LOADER_RUNTIME_CONTEXT).
Context (BaseAddress RuntimeContextSize : Z).
Context (Hrel : Relocatable s1) (Hsize : runtime_size_ok s1 RuntimeContextSize).
Context (Hstrip : RelocsStripped (Context s1) = true → BaseAddress = ImageBase (Context s1)).
Context (Hrun : PeCoffRelocateImage BaseAddress RuntimeContextSize s1 = Ok tt s2).
Context (Hrt : RuntimeContext s2 = Some r).

(** What the runtime context of a relocated image holds. *)
Lemma relocated_runtime :
  runtime_ready s1 r ∧ same_image s1 s2 ∧
  (RelocDirSize (Context s1) ≠ 0 → ForallOrdPairs disjoint_targets (image_fixups s1).1 →
     Forall (λ f, fixup_data r f = fixup_value (image s2) f) (image_fixups s1).1).
Proof.
  destruct (wp_ok _ _ _ _ _ _ (PeCoffRelocateImage_spec s1 _ _ Hrel Hsize Hstrip) Hrun) as [Heq Hv].
  destruct (id Hrel) as [Hbuf Hby _ _ Hdir]. unfold relocated in Heq.
  set (st0 := (image s1, init_runtime (Context s1) <$> RuntimeContext s1)) in Heq.
  destruct (RuntimeContext s1) as [r0|] eqn:Hr0.
  2: { exfalso. destruct (reloc_skipped s1 BaseAddress); rewrite Heq in Hrt; cbn in Hrt; [done|].
       assert (∀ A l img, (after A (img, None) l).2 = None) as Hnone
         by (intros A l; induction l as [|f l IH]; intros img; [done|apply IH]).
       unfold st0 in Hrt. cbn in Hrt. by rewrite Hnone in Hrt. }
  unfold runtime_size_ok in Hsize. rewrite Hr0 in Hsize. destruct Hsize as (_ & Hle & Hfd).
  destruct (reloc_skipped s1 BaseAddress) eqn:Hskip; rewrite Heq in Hrt |- *.
  { cbn in Hrt. injection Hrt as <-. unfold reloc_skipped in Hskip. rewrite Hr0 in Hskip. cbn in Hskip.
    rewrite orb_false_r in Hskip. split_and!; [constructor; cbn; done || lia| |lia].
    split; [by rewrite Context_at_image|]. rewrite image_at_image by done. done. }
  destruct (Hv eq_refl) as [Hdv Hlen]. destruct (id Hdv) as (_ & Hvb & _).
  unfold reloc_skipped in Hskip. apply orb_false_iff in Hskip as [Hnz _].
  destruct (Hdir ltac:(lia)) as (_ & _ & _ & Hsz).
  set (l := (image_fixups s1).1) in *. set (A := wrap 64 _) in *.
  pose proof (valid_blocks_fixups _ _ _ _ _ Hvb) as Hval. fold l in Hval.
  pose proof (fixups_index _ _ _ _ _ Hvb) as Hidx. apply indices_sorted in Hidx as [Ho Hi].
  change ((fixups (Context s1) _ (image s1) (RelocDirRva (Context s1)) 0).1) with l in Ho, Hi.
  destruct (after_data (Context s1) A l (image s1) (init_runtime (Context s1) r0))
    as (r' & Haft & Hr1 & Hr2 & Hr3 & _ & Hdata); try done.
  { eapply Forall_impl; [|exact Hi]. cbn. unfold SIZEOF_PE_COFF_LOADER_RUNTIME_CONTEXT in *. lia. }
  cbn in Hrt. unfold st0 in Hrt. cbn in Hrt. rewrite Haft in Hrt. cbn in Hrt. injection Hrt as <-.
  unfold SIZEOF_PE_COFF_LOADER_RUNTIME_CONTEXT in *. cbn in Hr3.
  assert (size (FixupData (clear_runtime (Z.of_nat (length l)) r')) = size (FixupData r')) as Hcl
    by (apply size_write_bytes; rewrite ?size_zeros; lia).
  split_and!.
  - constructor; try done. rewrite Hcl. lia.
  - split; [by rewrite Context_at_image|]. rewrite image_at_image, after_image by done.
    by apply fold_fixups_same.
  - intros _ Hd. rewrite image_at_image, after_image by done. specialize (Hdata Hd).
    apply Forall_forall. intros f Hf. rewrite Forall_forall in Hdata, Hi. rewrite <- Hdata by done.
    specialize (Hi f Hf). unfold fixup_data, clear_runtime. cbn [FixupData].
    apply load_write_disjoint; rewrite ?size_zeros; lia.
Qed.
End Relocated.

(** C8. After PeCoffRelocateImage has filled the runtime context, the image can
    be relocated at runtime safely whatever the running code has done to it, as
    long as its relocation directory is intact: PeCoffRuntimeRelocateImage never
    faults and terminates, applies exactly the relocations whose targets still
    hold the bookkept values, and fails only when a target has changed and the
    policy forbids it. *)
Theorem PeCoffRuntimeRelocateImage_safe `{!Platform, !PlatformOk, !OverflowLib}
    (FileAddress DestinationAddress BaseAddress RuntimeContextSize NewBase : Z)
    (s1 s2 s3 : loader) (r : PE_COFF_LOADER_RUNTIME_CONTEXT) :
  Relocatable s1 → runtime_size_ok s1 RuntimeContextSize →
  (RelocsStripped (Context s1) = true → BaseAddress = ImageBase (Context s1)) →
  PeCoffRelocateImage BaseAddress RuntimeContextSize s1 = Ok tt s2 →
  RuntimeContext s2 = Some r → same_image s2 s3 → NewBase ≠ 0 →
  let run := PeCoffRuntimeRelocateImage FileAddress DestinationAddress NewBase r in
  let A := runtime_adjust FileAddress DestinationAddress s3 NewBase in
  let l := (image_fixups s1).1 in
  never_faults run s3 ∧
  (∀ s', run s3 = Ok tt s' →
     runtime_skipped FileAddress DestinationAddress s3 NewBase r = false →
     image s' = foldl (runtime_fixup r A) (image s3) l) ∧
  (∀ e s', run s3 = Err e s' →
     e = RETURN_VOLUME_CORRUPTED ∧ PcdImageLoaderRtRelocAllowTargetMismatch = false ∧
     targets_match r A (image s3) l = false).
Proof.
  intros Hrel Hsz Hst Hrun Hrt Hs3 HB run A l.
  destruct (relocated_runtime s1 s2 r BaseAddress RuntimeContextSize Hrel Hsz Hst Hrun Hrt)
    as (Hready & [Hc2 [Hs2 Hb2]] & _).
  assert (same_image s1 s3) as Hsame.
  { destruct Hs3 as [Hc3 [Hs3 Hb3]]. rewrite Hc2 in *. split; [done|]. split; [congruence|].
    intros x Hx. rewrite Hb3, Hb2; done. }
  pose proof (PeCoffRuntimeRelocateImage_spec FileAddress DestinationAddress s1 s3 r NewBase
    Hready Hsame HB) as Hspec.
  split_and!; [by eapply wp_never_faults| |].
  - intros s' Hok Hskip. pose proof (wp_ok _ _ _ _ _ _ Hspec Hok) as Hres. cbn beta in Hres.
    rewrite Hskip in Hres. destruct Hres as [-> _]. unfold runtime_state.
    apply image_at_image. destruct Hs3 as [-> _]. rewrite Hc2. apply Hrel.
  - intros e s' Herr. by destruct (wp_err _ _ _ _ _ _ Hspec Herr) as (? & ? & ? & _).
Qed.

(** The bookkeeping is consistent: when no two relocations share a target
    byte and nothing has written to the image since PeCoffRelocateImage, the
    runtime relocation always succeeds and applies every relocation. *)
Theorem PeCoffRuntimeRelocateImage_consistent `{!Platform, !PlatformOk, !OverflowLib}
    (FileAddress DestinationAddress BaseAddress RuntimeContextSize NewBase : Z)
    (s1 s2 : loader) (r : PE_COFF_LOADER_RUNTIME_CONTEXT) :
  Relocatable s1 → runtime_size_ok s1 RuntimeContextSize →
  (RelocsStripped (Context s1) = true → BaseAddress = ImageBase (Context s1)) →
  PeCoffRelocateImage BaseAddress RuntimeContextSize s1 = Ok tt s2 →
  RuntimeContext s2 = Some r → NewBase ≠ 0 →
  ForallOrdPairs disjoint_targets (image_fixups s1).1 →
  ∃ s', PeCoffRuntimeRelocateImage FileAddress DestinationAddress NewBase r s2 = Ok tt s' ∧
    image s' =
      if runtime_skipped FileAddress DestinationAddress s2 NewBase r then image s2
      else foldl (apply_fixup (runtime_adjust FileAddress DestinationAddress s2 NewBase))
             (image s2) (image_fixups s1).1.
Proof.
  intros Hrel Hsz Hst Hrun Hrt HB Hd.
  destruct (relocated_runtime s1 s2 r BaseAddress RuntimeContextSize Hrel Hsz Hst Hrun Hrt)
    as (Hready & Hsame & Hdata).
  pose proof (PeCoffRuntimeRelocateImage_spec FileAddress DestinationAddress s1 s2 r NewBase
    Hready Hsame HB) as Hspec. cbn zeta in Hspec.
  destruct (decide (RelocDirSize (Context s1) = 0)) as [Hz|Hnz].
  - destruct Hready as [_ _ Hrs _ _]. unfold runtime_skipped in *. rewrite Hrs, Hz in *. cbn in *.
    exists s2. split; [|done]. apply wp_exact. eapply wp_mono; [exact Hspec|by intros [] ? ->|].
    intros e s' (_ & _ & Hm & _). unfold image_fixups in Hm. rewrite Hz in Hm.
    change (Z.to_nat 0) with 0%nat in Hm. cbn [fixups] in Hm. revert Hm. by case_match.
  - destruct (id Hrel) as [Hbuf _ _ _ Hdir]. destruct (Hdir Hnz) as (_ & _ & _ & Hsi).
    destruct Hready as [_ _ _ _ Hvalid]. destruct (Hvalid Hnz) as (_ & Hvb & _).
    destruct (targets_match_all (Context s1) (runtime_adjust FileAddress DestinationAddress s2 NewBase)
      r (image_fixups s1).1 (image s2)) as [Hm Hfold]; try done.
    { by destruct Hsame as [_ [-> _]]. }
    { apply valid_blocks_fixups, Hvb. }
    { by apply Hdata. }
    destruct (wp_total _ _ _ (wp_mono _ _ _ _ (λ _ _, False) _ Hspec (λ a s' Hq, Hq)
      ltac:(intros e s' (_ & _ & Hf & _); by rewrite Hm in Hf))) as ([] & s' & Hok & Hres).
    exists s'. split; [done|]. case_match; [by rewrite Hres|]. destruct Hres as [-> _].
    unfold runtime_state. rewrite image_at_image; [done|]. destruct Hsame as [-> _]. done.
Qed.

(** ** Witnesses on the sample image *)

Definition sample_before : loader := set_RuntimeContext (Some sample_runtime) sample_loaded.

(** The sample relocated to 0x2000 with a runtime context of 56 bytes. *)
Definition sample_relocated : loader :=
  set_RuntimeContext (Some {| RtRelocDirRva := 432; RtRelocDirSize := 12;
                              FixupData := le_bytes 8 0x2118 ++ replicate 40 0 |})
    (set_image (write_bytes sample_image 272 (le_bytes 8 0x2118)) sample_loaded).

Lemma sample_relocate :
  @PeCoffRelocateImage platform_strict sample_lib 0x2000 56 sample_before = Ok tt sample_relocated.
Proof. by vm_compute. Qed.

Lemma PeCoffRuntimeRelocateImage_safe_witness :
  ∃ r, RuntimeContext sample_relocated = Some r ∧
  let run := @PeCoffRuntimeRelocateImage platform_strict 0 0x2000 0x80000 r in
  let A := runtime_adjust 0 0x2000 sample_relocated 0x80000 in
  let l := (image_fixups sample_before).1 in
  never_faults run sample_relocated ∧
  (∀ s', run sample_relocated = Ok tt s' →
     runtime_skipped 0 0x2000 sample_relocated 0x80000 r = false →
     image s' = foldl (runtime_fixup r A) (image sample_relocated) l) ∧
  (∀ e s', run sample_relocated = Err e s' →
     e = RETURN_VOLUME_CORRUPTED ∧
     @PcdImageLoaderRtRelocAllowTargetMismatch platform_strict = false ∧
     targets_match r A (image sample_relocated) l = false).
Proof.
  eexists. split; [reflexivity|].
  apply (@PeCoffRuntimeRelocateImage_safe platform_strict platform_strict_ok sample_lib 0 0x2000 0x2000
    56 0x80000 sample_before sample_relocated sample_relocated _
    (sample_relocatable (Some sample_runtime)));
    [by vm_compute|done|apply sample_relocate|reflexivity|done|done].
Defined.

Lemma PeCoffRuntimeRelocateImage_consistent_witness :
  ∃ r, RuntimeContext sample_relocated = Some r ∧
  ∃ s', @PeCoffRuntimeRelocateImage platform_strict 0 0x2000 0x80000 r sample_relocated = Ok tt s' ∧
    image s' =
      if runtime_skipped 0 0x2000 sample_relocated 0x80000 r then image sample_relocated
      else foldl (apply_fixup (runtime_adjust 0 0x2000 sample_relocated 0x80000))
             (image sample_relocated) (image_fixups sample_before).1.
Proof.
  eexists. split; [reflexivity|].
  apply (@PeCoffRuntimeRelocateImage_consistent platform_strict platform_strict_ok sample_lib 0 0x2000
    0x2000 56 0x80000 sample_before sample_relocated _
    (sample_relocatable (Some sample_runtime)));
    [by vm_compute|done|apply sample_relocate|reflexivity|done|].
  assert ((image_fixups sample_before).1 =
    [{| fx_index := 0; fx_type := 10; fx_target := 272 |};
     {| fx_index := 1; fx_type := 0; fx_target := 272 |}]) as -> by by vm_compute.
  repeat constructor. intros x Hf Hg. unfold in_target in Hg. cbn in Hg. lia.
Defined.
