(* ===== verification/PeCoffHash.v ===== *)
(** PeCoffHash.c: the Authenticode hash of an image and the iteration over its
    certificates.  The hash algorithm is the caller's HashUpdate, a parameter;
    AllocatePool is represented by its result, NULL or a buffer of unknown
    contents.  A pointer to a section header is the index of the header, and a
    pointer to a certificate its offset in the file. *)
From stdpp Require Import sets sorting.
From S2P Require Import Prelude Base Buffer Overflow PeImage PeSample PeCoffInit PeCoffLoad.

(** Array accesses of a table of pointers. *)
Definition array_get {S} (a : list Z) (i : Z) : M S Z :=
  match (if i <? 0 then None else a !! Z.to_nat i) with
  | Some v => mret v
  | None => crash OutOfBounds
  end.
Definition array_set {S} (a : list Z) (i v : Z) : M S (list Z) :=
  require ((0 <=? i) && (i <? size a)) OutOfBounds;; mret (<[Z.to_nat i := v]> a).

Section Hash.
Context `{!Platform, !OverflowLib} (File : list Z) (c : PE_COFF_LOADER_IMAGE_CONTEXT).
Context {HashContext : Type} (HashUpdate : HashContext → list Z → bool * HashContext).

Abbreviation HashM := (M HashContext).

(** HashUpdate (HashContext, FileBuffer + Offset, Size) *)
Definition hash_update (Offset Size : Z) : HashM bool :=
  require (in_bounds File Offset Size) OutOfBounds;;
  h ← getS;
  let '(Result, h') := HashUpdate h (slice File Offset Size) in
  modify (λ _, h');;
  mret Result.

(** ** InternalHashSections *)

(** The inner loop of the insertion sort: move the larger sections up; returns
    the table and SectionPos. *)
Fixpoint SortSections_shift (SectionPos : nat) (Key : Z) (SortedSections : list Z)
    : HashM (list Z * Z) :=
  match SectionPos with
  | O => mret (SortedSections, 0)
  | S Pos =>
      Previous ← array_get SortedSections (Z.of_nat Pos);
      PreviousPtr ← Sections File c Previous SECT_PointerToRawData;
      if Key <? PreviousPtr then
        SortedSections ← array_set SortedSections (Z.of_nat SectionPos) Previous;
        SortSections_shift Pos Key SortedSections
      else mret (SortedSections, Z.of_nat SectionPos)
  end.

(** The body of the outer loop. *)
Definition SortSections_insert (SectionIndex : Z) (SortedSections : list Z) : HashM (list Z) :=
  Key ← Sections File c SectionIndex SECT_PointerToRawData;
  '(SortedSections, SectionPos) ← SortSections_shift (Z.to_nat SectionIndex) Key SortedSections;
  array_set SortedSections SectionPos SectionIndex.

Definition SortSections (Pool : list Z) : HashM (list Z) :=
  SortedSections ← array_set Pool 0 0;
  for_loop (Z.to_nat (NumberOfSections c - 1)) 1 SortSections_insert SortedSections.

(** The loop over the sorted table; returns Result and CurHashSize. *)
Fixpoint HashSections_loop (SortedSections : list Z) (SectionTop CurHashSize : Z)
    : HashM (bool * Z) :=
  match SortedSections with
  | [] => mret (true, CurHashSize)
  | Section_ :: rest =>
      RawPtr ← Sections File c Section_ SECT_PointerToRawData;
      RawSize ← Sections File c Section_ SECT_SizeOfRawData;
      if PcdImageLoaderHashProhibitOverlap && (RawPtr <? SectionTop) then
        mret (false, CurHashSize)
      else
        let SectionTop := if PcdImageLoaderHashProhibitOverlap then wrap 32 (RawPtr + RawSize)
                          else SectionTop in
        if 0 <? RawSize then
          Result ← hash_update RawPtr RawSize;
          if negb Result then mret (false, CurHashSize)
          else if PcdImageLoaderHashProhibitOverlap then
            HashSections_loop rest SectionTop (wrap 32 (CurHashSize + RawSize))
          else
            let '(Overflow, CurHashSize) := ovf_add_u32 CurHashSize RawSize in
            if Overflow : bool then mret (false, CurHashSize)
            else HashSections_loop rest SectionTop CurHashSize
        else HashSections_loop rest SectionTop CurHashSize
  end.

(** [Pool]: the result of AllocatePool.  Returns Result and SumBytesHashed. *)
Definition InternalHashSections (Pool : option (list Z)) : HashM (bool * Z) :=
  match Pool with
  | None => mret (false, 0)
  | Some Pool =>
      SortedSections ← SortSections Pool;
      HashSections_loop SortedSections 0 0
  end.

(** ** PeCoffHashImageAuthenticode *)

(** The offsets the switch on ImageType retrieves: ChecksumOffset,
    SecurityDirOffset, NumberOfRvaAndSizes and SecurityDirSize. *)
Definition HashImage_Offsets : HashM (Z * Z * Z * Z) :=
  let Hdr := ExeHdrOffset c in
  let '(Checksum, Directories, Number) :=
    match ImageType c with
    | PeCoffLoaderTypePe32 =>
        (NT32_CheckSum, SIZEOF_EFI_IMAGE_NT_HEADERS32, NT32_NumberOfRvaAndSizes)
    | PeCoffLoaderTypePe32Plus =>
        (NT64_CheckSum, SIZEOF_EFI_IMAGE_NT_HEADERS64, NT64_NumberOfRvaAndSizes)
    end in
  let ChecksumOffset := wrap 32 (Hdr + Checksum) in
  let SecurityDirOffset :=
    wrap 32 (Hdr + Directories
               + EFI_IMAGE_DIRECTORY_ENTRY_SECURITY * SIZEOF_EFI_IMAGE_DATA_DIRECTORY) in
  NumberOfRvaAndSizes_ ← rd 4 File (Hdr + Number);
  SecurityDirSize ←
    (if EFI_IMAGE_DIRECTORY_ENTRY_SECURITY <? NumberOfRvaAndSizes_ then
       rd 4 File (Hdr + Directories
                    + EFI_IMAGE_DIRECTORY_ENTRY_SECURITY * SIZEOF_EFI_IMAGE_DATA_DIRECTORY + DIR_Size)
     else mret 0);
  mret (ChecksumOffset, SecurityDirOffset, NumberOfRvaAndSizes_, SecurityDirSize).

(** Steps 3 to 7: the headers without the checksum and the certificate entry. *)
Definition HashImage_Headers (ChecksumOffset SecurityDirOffset NumberOfRvaAndSizes_ : Z)
    : HashM bool :=
  Result ← hash_update 0 ChecksumOffset;
  if negb Result then mret false
  else
    let CurrentOffset := wrap 32 (ChecksumOffset + 4) in
    '(Result, CurrentOffset) ←
      (if EFI_IMAGE_DIRECTORY_ENTRY_SECURITY <? NumberOfRvaAndSizes_ then
         Result ← hash_update CurrentOffset (wrap 32 (SecurityDirOffset - CurrentOffset));
         mret (Result, wrap 32 (SecurityDirOffset + SIZEOF_EFI_IMAGE_DATA_DIRECTORY))
       else mret (true, CurrentOffset));
    if negb Result then mret false
    else hash_update CurrentOffset (wrap 32 (SizeOfHeaders c - CurrentOffset)).

(** Step 14: what follows the hashed sections, without the certificates. *)
Definition HashImage_Tail (SumBytesHashed SecurityDirSize : Z) : HashM bool :=
  let '(Overflow, SumBytesHashed) := ovf_add_u32 SumBytesHashed (SizeOfHeaders c) in
  if Overflow : bool then mret false
  else
    let FileSize_ := wrap 32 (FileSize c - SecurityDirSize) in
    if SumBytesHashed <? FileSize_ then
      hash_update SumBytesHashed (wrap 32 (FileSize_ - SumBytesHashed))
    else mret true.

Definition PeCoffHashImageAuthenticode (Pool : option (list Z)) : HashM bool :=
  '(ChecksumOffset, SecurityDirOffset, NumberOfRvaAndSizes_, SecurityDirSize) ← HashImage_Offsets;
  Result ← HashImage_Headers ChecksumOffset SecurityDirOffset NumberOfRvaAndSizes_;
  if negb Result then mret false
  else
    '(Result, SumBytesHashed) ← InternalHashSections Pool;
    if negb Result then mret false
    else HashImage_Tail SumBytesHashed SecurityDirSize.
End Hash.

(** ** Certificates *)

Section Certificates.
Context `{!Platform, !OverflowLib} (File : list Z) (c : PE_COFF_LOADER_IMAGE_CONTEXT).

Definition strict_certificates : bool :=
  bit_clear PcdImageLoaderAlignmentPolicy PCD_ALIGNMENT_POLICY_CERTIFICATE_SIZES.

(** dwLength of the certificate at file offset [Certificate]. *)
Definition dwLength {S} (Certificate : Z) : M S Z := rd 4 File (Certificate + CERT_dwLength).

(** The condition of the first ASSERT is the remainder itself. *)
Definition PeCoffGetFirstCertificate : M unit Z :=
  ASSERT (negb (SecDirOffset c mod ALIGNOF_WIN_CERTIFICATE =? 0));;
  ASSERT ((SecDirSize c =? 0) || (SIZEOF_WIN_CERTIFICATE <=? SecDirSize c));;
  fail_if (SecDirSize c =? 0) RETURN_NOT_FOUND;;
  let WinCertificate := SecDirOffset c in
  Length ← dwLength WinCertificate;
  fail_if ((Length <? SIZEOF_WIN_CERTIFICATE) || (SecDirSize c <? Length)) RETURN_VOLUME_CORRUPTED;;
  (if strict_certificates then
     fail_if (negb (IS_ALIGNED Length IMAGE_CERTIFICATE_ALIGN)) RETURN_VOLUME_CORRUPTED
   else mret tt);;
  mret WinCertificate.

Definition PeCoffGetNextCertificate (Certificate : Z) : M unit Z :=
  ASSERT (IS_ALIGNED (SecDirSize c) IMAGE_CERTIFICATE_ALIGN);;
  let CertOffset := wrap 32 (wrapn (Certificate - SecDirOffset c)) in
  Length ← dwLength Certificate;
  let CertSize :=
    if strict_certificates then Length else ALIGN_VALUE 32 Length IMAGE_CERTIFICATE_ALIGN in
  let CertOffset := wrap 32 (CertOffset + CertSize) in
  ASSERT (CertOffset <=? SecDirSize c);;
  fail_if (CertOffset =? SecDirSize c) RETURN_NOT_FOUND;;
  fail_if (wrap 32 (SecDirSize c - CertOffset) <? SIZEOF_WIN_CERTIFICATE) RETURN_VOLUME_CORRUPTED;;
  let WinCertificate := SecDirOffset c + CertOffset in
  Length ← dwLength WinCertificate;
  fail_if (Length <? SIZEOF_WIN_CERTIFICATE) RETURN_VOLUME_CORRUPTED;;
  (if strict_certificates then
     fail_if (negb (IS_ALIGNED Length IMAGE_CERTIFICATE_ALIGN)) RETURN_VOLUME_CORRUPTED
   else mret tt);;
  let '(Overflow, CertEnd) := ovf_add_u32 CertOffset Length in
  fail_if (Overflow || (SecDirSize c <? CertEnd)) RETURN_VOLUME_CORRUPTED;;
  mret WinCertificate.
End Certificates.

(** ** The insertion sort *)

Lemma wp_array_get {S} l1 (x : Z) l2 i (Q : Z → S → Prop) E s :
  i = size l1 → Q x s → wp (array_get (l1 ++ x :: l2) i) Q E s.
Proof.
  intros -> HQ. unfold array_get, size. destruct (Z.ltb_spec (Z.of_nat (length l1)) 0); [lia|].
  rewrite Nat2Z.id, list_lookup_middle by done. by apply wp_ret.
Qed.

Lemma wp_array_set {S} l1 (x v : Z) l2 i (Q : list Z → S → Prop) E s :
  i = size l1 → Q (l1 ++ v :: l2) s → wp (array_set (l1 ++ x :: l2) i v) Q E s.
Proof.
  intros -> HQ. unfold array_set, size. wp_step. wp_step.
  { rewrite length_app. cbn [length]. apply andb_true_iff. split; [apply Z.leb_le|apply Z.ltb_lt]; lia. }
  wp_step. rewrite Nat2Z.id. by rewrite insert_app_r_alt, Nat.sub_diag by lia.
Qed.

Section Sorting.
Context `{!Platform, !OverflowLib} (File : list Z) (c : PE_COFF_LOADER_IMAGE_CONTEXT).
Context (Hfile : bytes File) (Htab : table_in_file File c).
Context {HashContext : Type}.
Implicit Types (h : HashContext) (P : list Z).

(** Ascending by raw file offset; equal offsets keep the order of the table. *)
Definition raw_order (i j : Z) : Prop :=
  PointerToRawData File c i < PointerToRawData File c j ∨
  (PointerToRawData File c i = PointerToRawData File c j ∧ i < j).

Definition section_index (i : Z) : Prop := 0 <= i < NumberOfSections c.

Lemma SortSections_shift_spec Key h P : ∀ y rest,
  Forall section_index P → StronglySorted raw_order P →
  wp (SortSections_shift File c (length P) Key (P ++ y :: rest))
    (λ r h', h' = h ∧ ∃ P1 P2 x, P = P1 ++ P2 ∧ r = (P1 ++ x :: P2 ++ rest, size P1) ∧
       (∀ p, p ∈ P1 → PointerToRawData File c p <= Key) ∧
       (∀ p, p ∈ P2 → Key < PointerToRawData File c p))
    (λ _ _, False) h.
Proof.
  induction P as [|q P IH] using rev_ind; intros y rest HP Hs.
  { cbn. wp_step. split; [done|]. exists [], [], y. split_and!; set_solver. }
  rewrite length_app, Nat.add_1_r. cbn [SortSections_shift].
  rewrite <- app_assoc. cbn [app]. apply Forall_app in HP as [HP Hq].
  rewrite Forall_singleton in Hq. apply StronglySorted_app in Hs as (Hlt & Hs & _).
  wp_step. apply wp_array_get; [done|]. wp_step. apply wp_Sections; [done..|].
  fold (PointerToRawData File c q). intros _. wp_step.
  - wp_step. change (P ++ q :: y :: rest) with (P ++ [q] ++ y :: rest).
    rewrite (app_assoc P [q]). apply wp_array_set.
    { unfold size. rewrite length_app. cbn. lia. }
    rewrite <- app_assoc. cbn [app]. eapply wp_mono; [by apply IH| |done].
    intros r h' (-> & P1 & P2 & x & -> & -> & H1' & H2'). split; [done|].
    exists P1, (P2 ++ [q]), x. rewrite <- !app_assoc. split_and!; try done.
    intros p [?| ->%list_elem_of_singleton]%elem_of_app; [auto|lia].
  - wp_step. split; [done|]. exists (P ++ [q]), [], y. rewrite app_nil_r, <- app_assoc.
    split_and!; [done|..|set_solver].
    + unfold size. rewrite length_app. cbn. f_equal. lia.
    + intros p [Hp| ->%list_elem_of_singleton]%elem_of_app; [|lia].
      specialize (Hlt p q Hp (list_elem_of_here _ _)). unfold raw_order in Hlt. lia.
Qed.

(** The first [i] entries of the table are the first [i] sections, sorted. *)
Definition sorted_prefix (i : Z) (a : list Z) : Prop :=
  ∃ P rest, a = P ++ rest ∧ size a = NumberOfSections c ∧
    P ≡ₚ seqZ 0 i ∧ StronglySorted raw_order P.

Lemma SortSections_insert_spec i a h :
  0 < i < NumberOfSections c → sorted_prefix i a →
  wp (SortSections_insert File c i a) (λ a' h', h' = h ∧ sorted_prefix (i + 1) a')
    (λ _ _, False) h.
Proof.
  intros Hi (P & rest & -> & Hsz & HP & Hs).
  assert (length P = Z.to_nat i) as Hlen by (rewrite HP, length_seqZ; lia).
  assert (Forall (λ p, 0 <= p < i) P) as Hidx.
  { apply list.Forall_forall. intros p Hp. rewrite HP in Hp. apply elem_of_seqZ in Hp. lia. }
  unfold size in Hsz. rewrite length_app in Hsz. destruct rest as [|y rest]; [cbn in Hsz; lia|].
  unfold SortSections_insert. wp_step. apply wp_Sections; [done|done|lia|done..|].
  fold (PointerToRawData File c i). intros _. wp_step. rewrite <- Hlen.
  eapply wp_mono; [apply (SortSections_shift_spec _ h P y rest); [|done]| |done].
  { eapply list.Forall_impl; [exact Hidx|]. unfold section_index. lia. }
  intros ? ? (-> & P1 & P2 & x & -> & -> & H1' & H2'). apply wp_array_set; [done|].
  split; [done|]. exists (P1 ++ i :: P2), rest. rewrite <- app_assoc. split_and!; [done|..].
  - unfold size. rewrite !length_app in *. cbn in *. rewrite length_app. lia.
  - rewrite (seqZ_app 0 i 1), (seqZ_cons (0 + i) 1) by lia. cbn.
    rewrite <- HP, <- Permutation_middle. apply Permutation_cons_append.
  - rewrite list.Forall_forall in Hidx. apply StronglySorted_app in Hs as (Hlt & Hs1 & Hs2).
    apply StronglySorted_app_2; [|done|apply StronglySorted_cons; split; [|done]].
    + intros p q Hp [->|Hq]%elem_of_cons; [|by apply Hlt].
      specialize (H1' p Hp). 
      specialize (Hidx p (proj2 (elem_of_app _ _ _) (or_introl Hp))). unfold raw_order. lia.
    + apply list.Forall_forall. intros q Hq. left. auto.
Qed.

Lemma SortSections_spec Pool h :
  0 < NumberOfSections c → size Pool = NumberOfSections c →
  wp (SortSections File c Pool)
    (λ l h', h' = h ∧ l ≡ₚ seqZ 0 (NumberOfSections c) ∧ StronglySorted raw_order l)
    (λ _ _, False) h.
Proof.
  intros Hn Hsz. unfold SortSections. destruct Pool as [|y Pool]; [unfold size in Hsz; cbn in Hsz; lia|].
  wp_step. apply (wp_array_set [] y 0 Pool); [done|]. eapply wp_mono.
  { apply (wp_for_loop (λ i a h', h' = h ∧ sorted_prefix i a) (λ _ _, False)).
    - split; [done|]. exists [0], Pool. split_and!; [done|done|done|repeat constructor].
    - intros i a ? Hi [-> Ha]. apply SortSections_insert_spec; [lia|done]. }
  2: done.
  cbn beta. rewrite Z2Nat.id by lia. replace (1 + (NumberOfSections c - 1)) with (NumberOfSections c) by lia.
  intros a ? (-> & P & rest & -> & Hsz' & HP & Hs). split; [done|].
  assert (rest = []) as ->; [|by rewrite app_nil_r].
  pose proof (Permutation_length HP) as Hlen.
  rewrite length_seqZ in Hlen. unfold size in Hsz'. rewrite length_app in Hsz'.
  destruct rest; [done|cbn in Hsz'; lia].
Qed.
End Sorting.

(** ** The hashed ranges *)

Section Ranges.
Context `{!Platform, !PlatformOk, !OverflowLib} (File : list Z) (c : PE_COFF_LOADER_IMAGE_CONTEXT).
Context {HashContext : Type} (HashUpdate : HashContext → list Z → bool * HashContext).
Implicit Types h : HashContext.

(** Hash the ranges [(offset, size)] of the file one after the other. *)
Fixpoint hash_ranges h (l : list (Z * Z)) : bool * HashContext :=
  match l with
  | [] => (true, h)
  | (o, n) :: l =>
      let '(ok, h') := HashUpdate h (slice File o n) in
      if (ok : bool) then hash_ranges h' l else (false, h')
  end.

Lemma hash_ranges_app h l1 l2 :
  hash_ranges h (l1 ++ l2) =
    let '(ok, h') := hash_ranges h l1 in if (ok : bool) then hash_ranges h' l2 else (false, h').
Proof.
  revert h. induction l1 as [|[o n] l1 IH]; intros h; cbn; [done|].
  destruct (HashUpdate h _) as [[] h']; [apply IH|done].
Qed.

Definition raw_size (i : Z) : Z := SizeOfRawData File c i.

(** The data of the sections in [l], in order. *)
Definition section_ranges (l : list Z) : list (Z * Z) :=
  map (λ i, (PointerToRawData File c i, raw_size i)) (filter (λ i, 0 < raw_size i) l).

Definition section_bytes (l : list Z) : Z := foldr (λ i n, raw_size i + n) 0 l.

(** The policy of the loop: no overlap, or no overflow of the number of bytes. *)
Fixpoint sections_allowed (l : list Z) (top sum : Z) : bool :=
  match l with
  | [] => true
  | i :: l =>
      (if PcdImageLoaderHashProhibitOverlap then top <=? PointerToRawData File c i
       else sum + raw_size i <? 2 ^ 32)
      && sections_allowed l
           (if PcdImageLoaderHashProhibitOverlap then PointerToRawData File c i + raw_size i
            else top) (sum + raw_size i)
  end.

(** The Authenticode ranges: the headers without the checksum and the
    certificate table entry, the sections, and what follows them up to the
    certificates. *)
Definition checksum_offset : Z :=
  ExeHdrOffset c + match ImageType c with
                   | PeCoffLoaderTypePe32 => NT32_CheckSum
                   | PeCoffLoaderTypePe32Plus => NT64_CheckSum
                   end.

Definition header_ranges : list (Z * Z) :=
  let sec := dir_offset c EFI_IMAGE_DIRECTORY_ENTRY_SECURITY in
  (0, checksum_offset) ::
  if EFI_IMAGE_DIRECTORY_ENTRY_SECURITY <? num_dirs File c then
    [(checksum_offset + 4, sec - (checksum_offset + 4));
     (sec + SIZEOF_EFI_IMAGE_DATA_DIRECTORY,
      SizeOfHeaders c - (sec + SIZEOF_EFI_IMAGE_DATA_DIRECTORY))]
  else [(checksum_offset + 4, SizeOfHeaders c - (checksum_offset + 4))].

Definition tail_ranges (l : list Z) : list (Z * Z) :=
  let sum := section_bytes l + SizeOfHeaders c in
  let top := FileSize c - SecDirSize c in
  if sum <? top then [(sum, top - sum)] else [].

Definition authenticode_ranges (l : list Z) : list (Z * Z) :=
  header_ranges ++ section_ranges l ++ tail_ranges l.

Definition hash_allowed (l : list Z) : bool :=
  sections_allowed l 0 0 && (section_bytes l + SizeOfHeaders c <? 2 ^ 32).

Context (Hfile : bytes File) (Hwf : WellFormed File c).

Lemma raw_u32 i : u32 (raw_size i) ∧ u32 (PointerToRawData File c i).
Proof. split; by apply load_u32. Qed.

Lemma wp_hash_update o n (Q : bool → HashContext → Prop) E h :
  0 <= o → 0 <= n → o + n <= size File →
  Q (HashUpdate h (slice File o n)).1 (HashUpdate h (slice File o n)).2 →
  wp (hash_update File HashUpdate o n) Q E h.
Proof.
  intros. unfold hash_update. wp_step. wp_step; [by apply in_bounds_spec|]. wp_step. wp_step.
  destruct (HashUpdate h _) as [ok h']. wp_step. wp_step. by wp_step.
Qed.

(** What the loop returns. *)
Definition loop_result (l : list Z) (top sum : Z) h (r : bool * Z) h' : Prop :=
  if r.1 then hash_ranges h (section_ranges l) = (true, h') ∧ sections_allowed l top sum = true ∧
              r.2 = sum + section_bytes l
  else sections_allowed l top sum = false ∨ (hash_ranges h (section_ranges l)).1 = false.

Lemma section_bytes_nonneg l : 0 <= section_bytes l.
Proof. induction l as [|i l IH]; cbn; [done|]. destruct (raw_u32 i) as [[? ?] _]. unfold section_bytes in IH. lia. Qed.

Lemma section_ranges_cons i l :
  section_ranges (i :: l) =
    (if 0 <? raw_size i then [(PointerToRawData File c i, raw_size i)] else []) ++ section_ranges l.
Proof.
  unfold section_ranges. rewrite filter_cons. destruct (Z.ltb_spec 0 (raw_size i)).
  - rewrite decide_True by done. done.
  - rewrite decide_False by lia. done.
Qed.

(** One step of the loop that is allowed and whose HashUpdate succeeds. *)
Lemma loop_result_cons i l top sum h h1 r h' :
  (if PcdImageLoaderHashProhibitOverlap then top <=? PointerToRawData File c i
   else sum + raw_size i <? 2 ^ 32) = true →
  hash_ranges h (if 0 <? raw_size i then [(PointerToRawData File c i, raw_size i)] else [])
    = (true, h1) →
  loop_result l (if PcdImageLoaderHashProhibitOverlap then PointerToRawData File c i + raw_size i
                 else top) (sum + raw_size i) h1 r h' →
  loop_result (i :: l) top sum h r h'.
Proof.
  intros Hok Hup. unfold loop_result. rewrite section_ranges_cons, hash_ranges_app, Hup.
  cbn [sections_allowed]. rewrite Hok. cbn. destruct r.1; [|done].
  intros (? & ? & ->). split_and!; [done..|]. unfold section_bytes. lia.
Qed.

(** One step whose HashUpdate fails. *)
Lemma loop_result_fail i l top sum h n h' :
  0 < raw_size i →
  (HashUpdate h (slice File (PointerToRawData File c i) (raw_size i))).1 = false →
  loop_result (i :: l) top sum h (false, n) h'.
Proof.
  intros Hr Hf. right. rewrite section_ranges_cons.
  destruct (Z.ltb_spec 0 (raw_size i)); [|lia]. cbn.
  by destruct (HashUpdate h _) as [[] h1].
Qed.

(** One step that is not allowed. *)
Lemma loop_result_denied i l top sum h n h' :
  (if PcdImageLoaderHashProhibitOverlap then top <=? PointerToRawData File c i
   else sum + raw_size i <? 2 ^ 32) = false →
  loop_result (i :: l) top sum h (false, n) h'.
Proof. intros Hd. left. cbn [sections_allowed]. by rewrite Hd. Qed.

Lemma HashSections_loop_spec l : ∀ top sum h,
  Forall (section_index c) l → 0 <= sum < 2 ^ 32 →
  (PcdImageLoaderHashProhibitOverlap = true → sum <= top < 2 ^ 32) →
  wp (HashSections_loop File c HashUpdate l top sum) (loop_result l top sum h) (λ _ _, False) h.
Proof.
  destruct (HeadersOk_table File c (proj1 Hwf)) as (Htab & _ & _).
  induction l as [|i l IH]; intros top sum h Hl Hsum Hov; cbn [HashSections_loop].
  { wp_step. unfold loop_result. cbn. split_and!; [done..|lia]. }
  apply Forall_cons_iff in Hl as [Hi Hl]. destruct (raw_u32 i) as [Hrs Hrp].
  wp_step. apply wp_Sections; [done..|]. intros _. wp_step. apply wp_Sections; [done..|]. intros _.
  fold (PointerToRawData File c i) (SizeOfRawData File c i) (raw_size i).
  assert (0 < raw_size i → PointerToRawData File c i + raw_size i <= size File ∧
            size File < 2 ^ 32) as Hin.
  { intros. destruct Hwf as ([] & Hs & _). pose proof (sec_in_file _ _ Hs i Hi). unfold raw_size, is_uint in *. lia. }
  unfold is_uint in Hrs, Hrp. apply wp_if; intros Hb.
  { wp_step. apply andb_true_iff in Hb as [Hp Hlt]. apply loop_result_denied. rewrite Hp. lia. }
  assert (PcdImageLoaderHashProhibitOverlap = true → top <= PointerToRawData File c i) as Htop.
  { intros Hp. rewrite Hp in Hb. cbn in Hb. lia. }
  assert (∀ sum' h1, sum' = sum + raw_size i → sum + raw_size i < 2 ^ 32 →
    hash_ranges h (if 0 <? raw_size i then [(PointerToRawData File c i, raw_size i)] else []) = (true, h1) →
    wp (HashSections_loop File c HashUpdate l
          (if PcdImageLoaderHashProhibitOverlap then wrap 32 (PointerToRawData File c i + raw_size i)
           else top) sum')
      (loop_result (i :: l) top sum h) (λ _ _, False) h1) as Hnext.
  { intros sum' h1 -> Hlt Hup. rewrite wrap_small by (unfold is_uint; lia).
    eapply wp_mono; [apply IH; [done|lia|]| |done].
    - intros Hp. rewrite Hp in *. specialize (Hov eq_refl). specialize (Htop eq_refl). lia.
    - intros r h' Hr. eapply loop_result_cons; try done.
      destruct PcdImageLoaderHashProhibitOverlap; [specialize (Htop eq_refl)|]; lia. }
  wp_step; [|apply Hnext; [lia|lia|]; by destruct (Z.ltb_spec 0 (raw_size i)); [lia|]].
  wp_step. destruct (Hin ltac:(lia)) as [Hend Hfs]. apply wp_hash_update; [lia..|].
  destruct (HashUpdate h _) as [[] h1] eqn:Hup; cbn [fst snd negb]; cycle 1.
  { wp_step. apply loop_result_fail; [lia|]. by rewrite Hup. }
  assert (hash_ranges h (if 0 <? raw_size i then [(PointerToRawData File c i, raw_size i)] else [])
            = (true, h1)) as Hup'.
  { destruct (Z.ltb_spec 0 (raw_size i)); [|lia]. cbn. by rewrite Hup. }
  destruct PcdImageLoaderHashProhibitOverlap eqn:Hp.
  - specialize (Hov eq_refl). specialize (Htop eq_refl).
    apply Hnext; [apply wrap_small; unfold is_uint; lia|lia|done].
  - rewrite ovf_add_u32_spec by (unfold is_uint; lia).
    destruct (fits_u 32 (sum + raw_size i)) eqn:Hf; cbn [negb].
    + apply fits_u_spec in Hf. destruct Hf. apply Hnext; [apply wrap_small; done|lia|done].
    + wp_step. apply loop_result_denied. rewrite Hp.
      assert (¬ u32 (sum + raw_size i)) as Hn by (rewrite <- fits_u_spec, Hf; done).
      unfold is_uint in Hn. lia.
Qed.

(** ** The headers and the tail *)

Lemma HashImage_Offsets_spec h :
  wp (HashImage_Offsets File c)
    (λ r h', h' = h ∧
       r = (checksum_offset, dir_offset c EFI_IMAGE_DIRECTORY_ENTRY_SECURITY, num_dirs File c,
            SecDirSize c)) (λ _ _, False) h.
Proof.
  destruct Hwf as ([] & Hs & Hd & _). pose proof (sec_nonempty _ _ Hs).
  pose proof (dir_sec_header _ _ Hd) as Hdir.
  unfold HashImage_Offsets, num_dirs, dir_offset, checksum_offset in *.
  autounfold with pe_layout in *.
  destruct (ImageType c); cbn [nt_header_size] in *; autounfold with pe_layout in *.
  - rewrite !wrap_small by (unfold is_uint in *; lia). wp_step. wp_step; [lia..|].
    replace (ExeHdrOffset c + 116) with (ExeHdrOffset c + 120 - 4) by lia.
    wp_step. wp_step; [wp_step; [lia..|]|]; repeat wp_step; (split; [done|]);
      rewrite Hdir; by destruct (4 <? _).
  - rewrite !wrap_small by (unfold is_uint in *; lia). wp_step. wp_step; [lia..|].
    replace (ExeHdrOffset c + 132) with (ExeHdrOffset c + 136 - 4) by lia.
    wp_step. wp_step; [wp_step; [lia..|]|]; repeat wp_step; (split; [done|]);
      rewrite Hdir; by destruct (4 <? _).
Qed.

(** The result of hashing [l]: success with the hash, or a failure of HashUpdate. *)
Definition ranges_result (l : list (Z * Z)) h (b : bool) h' : Prop :=
  if b then hash_ranges h l = (true, h') else (hash_ranges h l).1 = false.

Lemma ranges_result_update o n h :
  ranges_result [(o, n)] h (HashUpdate h (slice File o n)).1 (HashUpdate h (slice File o n)).2.
Proof. unfold ranges_result. cbn. by destruct (HashUpdate h _) as [[] h']. Qed.

Lemma ranges_result_app l1 l2 h h1 b h' :
  ranges_result l1 h true h1 → ranges_result l2 h1 b h' → ranges_result (l1 ++ l2) h b h'.
Proof. unfold ranges_result. intros Hl1. by rewrite hash_ranges_app, Hl1. Qed.

Lemma ranges_result_fail l1 l2 h h1 h' :
  ranges_result l1 h false h1 → ranges_result (l1 ++ l2) h false h'.
Proof.
  unfold ranges_result. rewrite hash_ranges_app. destruct (hash_ranges h l1) as [[] ?]; [done|]. done.
Qed.

Lemma HashImage_Headers_spec h :
  wp (HashImage_Headers File c HashUpdate checksum_offset
        (dir_offset c EFI_IMAGE_DIRECTORY_ENTRY_SECURITY) (num_dirs File c))
    (ranges_result header_ranges h) (λ _ _, False) h.
Proof.
  destruct Hwf as ([] & Hs & _ & _). pose proof (sec_nonempty _ _ Hs).
  assert (0 <= checksum_offset ∧ checksum_offset + 4 <= dir_offset c 0 ∧
          dir_offset c EFI_IMAGE_DIRECTORY_ENTRY_SECURITY = dir_offset c 0 + 32 ∧
          dir_offset c (num_dirs File c) = dir_offset c 0 + num_dirs File c * 8)
    as (Hc0 & Hc1 & Hd1 & Hd2).
  { unfold checksum_offset, dir_offset. autounfold with pe_layout.
    destruct (ImageType c); cbn; autounfold with pe_layout; lia. }
  unfold HashImage_Headers, header_ranges. autounfold with pe_layout in *.
  unfold is_uint in *. wp_step. apply wp_hash_update; [lia..|].
  pose proof (ranges_result_update 0 checksum_offset h) as Hr.
  destruct (HashUpdate h (slice File 0 checksum_offset)) as [[] h1]; cbn [fst snd negb] in *;
    [|wp_step; by eapply (ranges_result_fail [_])].
  rewrite (wrap_small 32 (checksum_offset + 4)) by (unfold is_uint; lia).
  wp_step. destruct (Z.ltb_spec 4 (num_dirs File c)).
  - rewrite !wrap_small by (unfold is_uint; lia). wp_step. apply wp_hash_update; [lia..|].
    set (o := checksum_offset + 4) in *. set (n := dir_offset c 4 - o) in *.
    pose proof (ranges_result_update o n h1) as Hr1.
    destruct (HashUpdate h1 (slice File o n)) as [[] h2]; cbn [fst snd negb] in *; wp_step;
      cbn [negb]; cycle 1.
    { wp_step. eapply (ranges_result_app [_]); [done|]. by eapply (ranges_result_fail [_]). }
    rewrite wrap_small by (unfold is_uint; lia).
    apply wp_hash_update; [lia..|]. eapply (ranges_result_app [_]); [done|].
    eapply (ranges_result_app [_]); [done|]. apply ranges_result_update.
  - wp_step. cbn [negb]. rewrite wrap_small by (unfold is_uint; lia).
    apply wp_hash_update; [lia..|]. eapply (ranges_result_app [_]); [done|].
    apply ranges_result_update.
Qed.

Lemma HashImage_Tail_spec l h :
  section_bytes l < 2 ^ 32 →
  wp (HashImage_Tail File c HashUpdate (section_bytes l) (SecDirSize c))
    (λ b h', (section_bytes l + SizeOfHeaders c <? 2 ^ 32) = false ∧ b = false ∨
             (section_bytes l + SizeOfHeaders c <? 2 ^ 32) = true ∧
             ranges_result (tail_ranges l) h b h')
    (λ _ _, False) h.
Proof.
  intros Hsum. destruct (HeadersOk_table File c (proj1 Hwf)) as (_ & Hh & _).
  destruct Hwf as ([] & _ & Hd & _). pose proof (section_bytes_nonneg l).
  pose proof (dir_sec_in_file _ _ Hd). destruct (dir_sec_u32 _ _ Hd). unfold is_uint in *.
  unfold HashImage_Tail, tail_ranges. rewrite ovf_add_u32_spec by (unfold is_uint; lia).
  destruct (fits_u 32 (section_bytes l + SizeOfHeaders c)) eqn:Hf; cbn [negb].
  - apply fits_u_spec in Hf. unfold is_uint in Hf.
    rewrite (wrap_small 32 (section_bytes l + _)), (wrap_small 32 (FileSize c - SecDirSize c))
      by (unfold is_uint; lia).
    wp_step; [|wp_step; right]; destruct (Z.ltb_spec (section_bytes l + SizeOfHeaders c)
      (FileSize c - SecDirSize c)); try lia; [|split; [lia|done]].
    rewrite wrap_small by (unfold is_uint; lia). apply wp_hash_update; [lia..|]. right.
    split; [lia|apply ranges_result_update].
  - wp_step. left. split; [|done].
    assert (¬ u32 (section_bytes l + SizeOfHeaders c)) as Hn by (rewrite <- fits_u_spec, Hf; done).
    unfold is_uint in Hn. lia.
Qed.

Lemma sections_allowed_bytes l : ∀ top sum,
  0 <= sum < 2 ^ 32 → (PcdImageLoaderHashProhibitOverlap = true → sum <= top < 2 ^ 32) →
  Forall (section_index c) l → sections_allowed l top sum = true →
  sum + section_bytes l < 2 ^ 32.
Proof.
  induction l as [|i l IH]; intros top sum Hsum Hov Hl; cbn [section_bytes foldr sections_allowed]; [lia|].
  apply Forall_cons_iff in Hl as [Hi Hl]. intros [Ha Hb]%andb_true_iff.
  destruct (raw_u32 i) as [Hrs Hrp]. unfold is_uint in *.
  assert (0 < raw_size i → PointerToRawData File c i + raw_size i < 2 ^ 32) as Hin.
  { intros. destruct Hwf as ([] & Hs & _). pose proof (sec_in_file _ _ Hs i Hi). unfold raw_size, is_uint in *. lia. }
  enough (sum + raw_size i + section_bytes l < 2 ^ 32) by (unfold section_bytes in *; lia).
  eapply IH; [..|done|done]; destruct PcdImageLoaderHashProhibitOverlap;
    try specialize (Hov eq_refl); lia.
Qed.
End Ranges.

(** ** The whole computation *)

Section Whole.
Context `{!Platform, !PlatformOk, !OverflowLib} (File : list Z) (c : PE_COFF_LOADER_IMAGE_CONTEXT).
Context {HashContext : Type} (HashUpdate : HashContext → list Z → bool * HashContext).
Context (Hfile : bytes File) (Hwf : WellFormed File c).

(** The order in which the sections are hashed. *)
Definition hash_order (l : list Z) : Prop :=
  l ≡ₚ seqZ 0 (NumberOfSections c) ∧ StronglySorted (raw_order File c) l.

Lemma hash_order_index l : hash_order l → Forall (section_index c) l.
Proof.
  intros [Hl _]. apply list.Forall_forall. intros i Hi. rewrite Hl in Hi.
  apply elem_of_seqZ in Hi. unfold section_index. lia.
Qed.

(** Without memory for the table of sections. *)
Lemma PeCoffHashImageAuthenticode_no_memory (h : HashContext) :
  wp (PeCoffHashImageAuthenticode File c HashUpdate None) (λ b _, b = false ∧ ∃ l, hash_order l) (λ _ _, False) h.
Proof.
  destruct (HeadersOk_table File c (proj1 Hwf)) as (Htab & _ & _).
  assert (0 < NumberOfSections c) as Hn by (destruct Hwf as (_ & [] & _); done).
  destruct (wp_total _ _ _ (SortSections_spec File c Hfile Htab (replicate (Z.to_nat (NumberOfSections c)) 0) h Hn
    ltac:(unfold size; rewrite length_replicate; lia))) as (l & ? & _ & -> & Hl).
  unfold PeCoffHashImageAuthenticode. wp_step. eapply wp_mono; [by apply (HashImage_Offsets_spec File c Hwf)| |done].
  intros ? ? [-> ->]. wp_step. eapply wp_mono; [by apply (HashImage_Headers_spec File c HashUpdate Hwf)| |done].
  intros [] h1 Hr1; cbn [negb]; [|wp_step; split; [done|by exists l]].
  unfold InternalHashSections. do 2 wp_step. cbn [negb]. wp_step. split; [done|by exists l].
Qed.

Lemma PeCoffHashImageAuthenticode_spec Pool (h : HashContext) :
  size Pool = NumberOfSections c →
  wp (PeCoffHashImageAuthenticode File c HashUpdate (Some Pool))
    (λ b h', ∃ l, hash_order l ∧
       if b then hash_allowed File c l = true ∧
                 ranges_result File HashUpdate (authenticode_ranges File c l) h true h'
       else hash_allowed File c l = false ∨
            ranges_result File HashUpdate (authenticode_ranges File c l) h false h')
    (λ _ _, False) h.
Proof.
  intros Hpool. destruct (HeadersOk_table File c (proj1 Hwf)) as (Htab & _ & _).
  assert (0 < NumberOfSections c) as Hn by (destruct Hwf as (_ & [] & _); done).
  destruct (wp_total _ _ _ (SortSections_spec File c Hfile Htab Pool h Hn Hpool))
    as (l0 & ? & _ & -> & Hl0). unfold authenticode_ranges.
  unfold PeCoffHashImageAuthenticode. wp_step.
  eapply wp_mono; [by apply (HashImage_Offsets_spec File c Hwf)| |done].
  intros ? ? [-> ->]. wp_step.
  eapply wp_mono; [by apply (HashImage_Headers_spec File c HashUpdate Hwf)| |done].
  intros [] h1 Hr1; cbn [negb]; [|wp_step; exists l0; split; [done|]; right; by eapply ranges_result_fail].
  unfold InternalHashSections. wp_step. wp_step.
  eapply wp_mono; [by apply (SortSections_spec File c Hfile Htab Pool h1)| |done].
  intros l ? (-> & Hl). pose proof (hash_order_index l Hl) as Hidx.
  eapply wp_mono; [by apply (HashSections_loop_spec File c HashUpdate Hfile Hwf)| |done].
  unfold loop_result. intros [[] sum] h2; cbn [fst snd negb]; cycle 1.
  { intros Hf. wp_step. exists l. split; [done|]. destruct Hf as [Hf|Hf].
    - left. unfold hash_allowed. by rewrite Hf.
    - right. eapply ranges_result_app; [done|]. by eapply (ranges_result_fail _ _ _ _ _ h2). }
  intros (Hr2 & Hal & ->). rewrite Z.add_0_l.
  eapply wp_mono; [apply (HashImage_Tail_spec File c HashUpdate Hfile Hwf)| |done].
  { apply (sections_allowed_bytes File c Hfile Hwf l 0 0) in Hal; [lia..|done]. }
  intros b h3 Hb. exists l. split; [done|]. unfold hash_allowed. rewrite Hal.
  destruct Hb as [[-> ->]|[-> Hr3]]; [by left|].
  assert (ranges_result File HashUpdate (header_ranges File c ++ section_ranges File c l
            ++ tail_ranges File c l) h b h3) as Hr.
  { eapply ranges_result_app; [done|]. by eapply ranges_result_app. }
  destruct b; auto.
Qed.
End Whole.

(** ** Certificates *)

Section CertificateList.
Context `{!Platform, !PlatformOk, !OverflowLib} (File : list Z) (c : PE_COFF_LOADER_IMAGE_CONTEXT).

Definition cert_length (Certificate : Z) : Z := load 4 File (Certificate + CERT_dwLength).

(** A certificate of the directory: its place is aligned, and it lies in it. *)
Definition cert_ok (Certificate : Z) : Prop :=
  SecDirOffset c <= Certificate ∧ (IMAGE_CERTIFICATE_ALIGN | Certificate - SecDirOffset c) ∧
  SIZEOF_WIN_CERTIFICATE <= cert_length Certificate ∧
  Certificate + cert_length Certificate <= SecDirOffset c + SecDirSize c ∧
  (strict_certificates = true → (IMAGE_CERTIFICATE_ALIGN | cert_length Certificate)).

(** Where the certificate after the given one is. *)
Definition next_certificate (Certificate : Z) : Z :=
  Certificate + align_up (cert_length Certificate) IMAGE_CERTIFICATE_ALIGN.

Context (Hfile : bytes File) (Hwf : WellFormed File c).

Lemma wp_dwLength {S} o (Q : Z → S → Prop) E s :
  0 <= o → o + 4 <= size File → Q (cert_length o) s → wp (dwLength File o) Q E s.
Proof. intros. unfold dwLength. change CERT_dwLength with 0. wp_step; [lia..|]. done. Qed.

Lemma wp_certificate_alignment x :
  wp (if strict_certificates
      then fail_if (negb (IS_ALIGNED x IMAGE_CERTIFICATE_ALIGN)) RETURN_VOLUME_CORRUPTED
      else mret tt)
    (λ _ (_ : unit), strict_certificates = true → (IMAGE_CERTIFICATE_ALIGN | x))
    (λ e _, e = RETURN_VOLUME_CORRUPTED ∧
            ¬ (strict_certificates = true → (IMAGE_CERTIFICATE_ALIGN | x))) tt.
Proof.
  assert (IS_ALIGNED x IMAGE_CERTIFICATE_ALIGN = true ↔ (IMAGE_CERTIFICATE_ALIGN | x)) as Hx
    by by apply IS_ALIGNED_spec.
  apply wp_if; intros Hst; [|wp_step; congruence]. apply wp_fail_if.
  - intros Ha%negb_true_iff. split; [done|]. intros Hd. specialize (Hd Hst). apply Hx in Hd. congruence.
  - intros Ha%negb_false_iff _. by apply Hx.
Qed.

Lemma PeCoffGetFirstCertificate_spec :
  DebugAssertEnabled = false →
  wp (PeCoffGetFirstCertificate File c)
    (λ o _, o = SecDirOffset c ∧ cert_ok o)
    (λ e _, (e = RETURN_NOT_FOUND ∧ SecDirSize c = 0) ∨
            (e = RETURN_VOLUME_CORRUPTED ∧ ¬ cert_ok (SecDirOffset c))) tt.
Proof.
  intros Hoff. destruct Hwf as ([] & _ & [] & _). destruct dir_sec_u32 as [[? ?] [? ?]].
  unfold PeCoffGetFirstCertificate, ASSERT. rewrite Hoff. cbn [negb orb].
  wp_step. wp_step; [done|]. wp_step. wp_step; [done|]. wp_step.
  apply wp_fail_if; [intros; left; split; [done|lia]|intros ?].
  wp_step. apply wp_dwLength; [autounfold with pe_layout in *; lia..|]. wp_step.
  apply wp_fail_if; [intros; right; split; [done|]; unfold cert_ok; lia|intros Hlen].
  wp_step. eapply wp_mono; [apply wp_certificate_alignment|..].
  - intros _ [] Hal. wp_step. split; [done|].
    unfold cert_ok. split_and!; [lia| |lia..|done]. rewrite Z.sub_diag. apply Z.divide_0_r.
  - intros e _ [-> Hal]. right. split; [done|]. by intros (_ & _ & _ & _ & ?).
Qed.

(** The place of the next certificate, and how the code computes it. *)
Lemma next_certificate_place o :
  cert_ok o →
  o + SIZEOF_WIN_CERTIFICATE <= next_certificate o <= SecDirOffset c + SecDirSize c ∧
  (IMAGE_CERTIFICATE_ALIGN | next_certificate o - SecDirOffset c) ∧
  (if strict_certificates then cert_length o
   else ALIGN_VALUE 32 (cert_length o) IMAGE_CERTIFICATE_ALIGN) = next_certificate o - o.
Proof.
  intros (Ho1 & Ho2 & Hlen & Hend & Hstrict). destruct Hwf as (_ & _ & [] & _).
  destruct dir_sec_u32 as [[? ?] [? ?]]. destruct dir_sec_aligned as [_ Hal].
  assert (0 < IMAGE_CERTIFICATE_ALIGN) as Hpos by done.
  pose proof (align_up_ge (cert_length o) _ Hpos) as Hup. unfold next_certificate.
  assert (align_up (cert_length o) IMAGE_CERTIFICATE_ALIGN <= SecDirSize c - (o - SecDirOffset c)) as Hle.
  { apply align_up_least; [done| |lia]. by apply Z.divide_sub_r. }
  autounfold with pe_layout in *. split_and!; [lia..| |].
  - replace (o + _ - _) with (o - SecDirOffset c + align_up (cert_length o) 8) by lia.
    apply Z.divide_add_r; [done|apply align_up_divide].
  - rewrite Z.add_simpl_l. destruct strict_certificates; [by rewrite align_up_id by auto|].
    apply ALIGN_VALUE_spec; [done|by compute|done|unfold is_uint; lia|unfold is_uint; lia].
Qed.

Lemma PeCoffGetNextCertificate_spec o :
  cert_ok o →
  wp (PeCoffGetNextCertificate File c o)
    (λ o' _, o' = next_certificate o ∧ cert_ok o')
    (λ e _, (e = RETURN_NOT_FOUND ∧ next_certificate o = SecDirOffset c + SecDirSize c) ∨
            (e = RETURN_VOLUME_CORRUPTED ∧ next_certificate o < SecDirOffset c + SecDirSize c ∧
             ¬ cert_ok (next_certificate o))) tt.
Proof.
  intros Hok. destruct (next_certificate_place o Hok) as (Hn & Hdiv & Hsize).
  destruct Hok as (Ho1 & _ & Hlen & Hend & _).
  destruct Hwf as ([] & _ & [] & _). destruct dir_sec_u32 as [[? ?] [? ?]].
  destruct dir_sec_aligned as [_ Hal]. unfold PeCoffGetNextCertificate.
  wp_step. wp_step; [by apply IS_ALIGNED_spec|]. wp_step.
  apply wp_dwLength; [autounfold with pe_layout in *; lia..|].
  rewrite Hsize, (wrapn_small (o - SecDirOffset c)), (wrap_small 32 (o - SecDirOffset c))
    by (autounfold with pe_layout in *; unfold is_uint; lia).
  replace (o - SecDirOffset c + (next_certificate o - o)) with (next_certificate o - SecDirOffset c) by lia.
  set (n := next_certificate o) in *. clearbody n. clear Hsize.
  assert (SecDirOffset c <= n) by (autounfold with pe_layout in *; lia).
  rewrite (wrap_small 32 (n - SecDirOffset c)) by (unfold is_uint; lia).
  wp_step. wp_step; [lia|]. wp_step.
  apply wp_fail_if; [intros; left; split; [done|lia]|intros ?].
  rewrite wrap_small by (unfold is_uint; lia). wp_step.
  assert (n + 8 <= SecDirOffset c + SecDirSize c) as Hroom.
  { destruct Hdiv as [k Hk], Hal as [m Hm]. autounfold with pe_layout in *. lia. }
  apply wp_fail_if; [autounfold with pe_layout in *; lia|intros _]. rewrite Zplus_minus.
  wp_step. apply wp_dwLength; [lia..|]. wp_step.
  apply wp_fail_if; [intros; right; split_and!; [done|lia|]; unfold cert_ok; lia|intros Hlen'].
  assert (u32 (cert_length n)) as Hu by by apply load_u32. wp_step.
  eapply wp_mono; [apply wp_certificate_alignment|..]; cycle 1.
  { intros e _ [-> Ha]. right. split_and!; [done|lia|]. by intros (_ & _ & _ & _ & ?). }
  intros _ [] Hs. rewrite ovf_add_u32_spec by (unfold is_uint in *; lia).
  wp_step. apply wp_fail_if.
  - intros Hf. right. split_and!; [done|lia|]. intros (_ & _ & _ & Hin & _).
    assert (u32 (n - SecDirOffset c + cert_length n)) as Hfit by (unfold is_uint in *; lia).
    rewrite (wrap_small _ _ Hfit), (proj2 (fits_u_spec _ _) Hfit) in Hf. cbn in Hf. lia.
  - intros [Hf1 Hf2]%orb_false_iff. apply negb_false_iff, fits_u_spec in Hf1.
    rewrite wrap_small in Hf2 by done. wp_step. split; [done|]. unfold cert_ok.
    split_and!; [lia|done|lia|lia|done].
Qed.
End CertificateList.

(** ** Properties *)

(** The insertion sort of InternalHashSections writes only inside its table
    and leaves in it every section exactly once, ascending by raw file offset;
    sections with equal offsets keep their order. *)
Theorem SortSections_sorts `{!Platform} (File : list Z) (c : PE_COFF_LOADER_IMAGE_CONTEXT)
    {HashContext : Type} (Pool : list Z) (h : HashContext) :
  bytes File → table_in_file File c → 0 < NumberOfSections c → size Pool = NumberOfSections c →
  ∃ l, SortSections File c Pool h = Ok l h ∧
    l ≡ₚ seqZ 0 (NumberOfSections c) ∧ StronglySorted (raw_order File c) l.
Proof.
  intros Hb Ht Hn Hp.
  destruct (wp_total _ _ _ (SortSections_spec File c Hb Ht Pool h Hn Hp)) as (l & ? & Hr & -> & Hl).
  by exists l.
Qed.

(** C7. On a verified image the Authenticode computation reads only inside the
    file and always returns, whether or not the allocation of the table of sections
    succeeds.  It succeeds exactly if that allocation does, the overlap policy and the
    size bound hold and every HashUpdate succeeds, and the hash is then the one
    of the headers without the checksum and the certificate entry, the sections
    in ascending file order, and the rest of the file up to the certificates.
    Sections without raw data add nothing to the hash but have a place in the order,
    and the overlap policy applies to them too. *)
Theorem PeCoffHashImageAuthenticode_exact `{!Platform, !PlatformOk, !OverflowLib}
    (File : list Z) (c : PE_COFF_LOADER_IMAGE_CONTEXT) {HashContext : Type}
    (HashUpdate : HashContext → list Z → bool * HashContext) (Pool : option (list Z)) (h : HashContext) :
  bytes File → WellFormed File c → (∀ p, Pool = Some p → size p = NumberOfSections c) →
  ∃ l b h', PeCoffHashImageAuthenticode File c HashUpdate Pool h = Ok b h' ∧
    hash_order File c l ∧
    b = bool_decide (is_Some Pool) && hash_allowed File c l && (hash_ranges File HashUpdate h (authenticode_ranges File c l)).1 ∧
    (b = true → h' = (hash_ranges File HashUpdate h (authenticode_ranges File c l)).2).
Proof.
  intros Hb Hwf Hp. destruct Pool as [p|].
  - destruct (wp_total _ _ _ (PeCoffHashImageAuthenticode_spec File c HashUpdate Hb Hwf p h (Hp p eq_refl)))
      as (b & h' & Hr & l & Hl & Hres).
    exists l, b, h'. rewrite bool_decide_true by done. unfold ranges_result in Hres. split_and!; [done|done|..]; destruct b.
    + destruct Hres as [-> ->]. done.
    + destruct Hres as [->| ->]; [done|by rewrite andb_false_r].
    + destruct Hres as [_ ->]. done.
    + done.
  - destruct (wp_total _ _ _ (PeCoffHashImageAuthenticode_no_memory File c HashUpdate Hb Hwf h)) as (b & h' & Hr & -> & l & Hl).
    by exists l, false, h'.
Qed.

(** With ASSERTs enabled PeCoffGetFirstCertificate fails its first ASSERT on
    every verified image: the condition is the remainder itself, which is zero
    because the directory is aligned. *)
Theorem PeCoffGetFirstCertificate_assert_inverted `{!Platform} (File : list Z)
    (c : PE_COFF_LOADER_IMAGE_CONTEXT) :
  DebugAssertEnabled = true → WellFormed File c →
  PeCoffGetFirstCertificate File c tt = Fault AssertFailed.
Proof.
  intros Hon (_ & _ & [] & _). destruct dir_sec_aligned as [[k Hk] _].
  unfold PeCoffGetFirstCertificate, ASSERT. rewrite Hon, Hk. autounfold with pe_layout.
  replace (k * 8) with (k * 2 * 4) by lia. by rewrite Z.mod_mul.
Qed.

(** With ASSERTs disabled PeCoffGetFirstCertificate reads only inside the
    file; it returns the start of the directory if a certificate lies there,
    not-found exactly for an empty directory, and corrupted otherwise. *)
Theorem PeCoffGetFirstCertificate_exact `{!Platform} (File : list Z)
    (c : PE_COFF_LOADER_IMAGE_CONTEXT) :
  bytes File → WellFormed File c → DebugAssertEnabled = false →
  match PeCoffGetFirstCertificate File c tt with
  | Ok o _ => o = SecDirOffset c ∧ cert_ok File c o
  | Err e _ => (e = RETURN_NOT_FOUND ∧ SecDirSize c = 0) ∨
               (e = RETURN_VOLUME_CORRUPTED ∧ ¬ cert_ok File c (SecDirOffset c))
  | Fault _ => False
  end.
Proof. intros Hb Hwf Hoff. by apply (wp_cases _ _ _ tt), PeCoffGetFirstCertificate_spec. Qed.

(** C11. From a certificate of the directory PeCoffGetNextCertificate never
    faults.  It returns the certificate behind it, which is again one of the
    directory and at least eight bytes further, so the iteration ends;
    not-found exactly at the end of the directory, and corrupted exactly if
    what follows is no certificate. *)
Theorem PeCoffGetNextCertificate_exact `{!Platform, !PlatformOk, !OverflowLib} (File : list Z)
    (c : PE_COFF_LOADER_IMAGE_CONTEXT) (Certificate : Z) :
  bytes File → WellFormed File c → cert_ok File c Certificate →
  Certificate + 8 <= next_certificate File Certificate <= SecDirOffset c + SecDirSize c ∧
  match PeCoffGetNextCertificate File c Certificate tt with
  | Ok o _ => o = next_certificate File Certificate ∧ cert_ok File c o
  | Err e _ =>
      (e = RETURN_NOT_FOUND ∧ next_certificate File Certificate = SecDirOffset c + SecDirSize c) ∨
      (e = RETURN_VOLUME_CORRUPTED ∧
       next_certificate File Certificate < SecDirOffset c + SecDirSize c ∧
       ¬ cert_ok File c (next_certificate File Certificate))
  | Fault _ => False
  end.
Proof.
  intros Hb Hwf Hok. destruct (next_certificate_place File c Hwf _ Hok) as (? & _).
  split; [done|]. by apply (wp_cases _ _ _ tt), PeCoffGetNextCertificate_spec.
Qed.

(** ** The properties on the sample image *)

(** A hash that keeps all its input. *)
Definition concat_update (h data : list Z) : bool * list Z := (true, h ++ data).

Example sample_hash :
  @PeCoffHashImageAuthenticode platform_strict sample_lib sample_file sample_context _
    concat_update (Some [7; 7]) [] =
  Ok true (slice sample_file 0 88 ++ slice sample_file 92 76 ++ slice sample_file 176 272).
Proof. by vm_compute. Qed.

Lemma SortSections_sorts_witness :
  ∃ l, @SortSections sample_file sample_context _ [7; 7] tt = Ok l tt ∧
    l ≡ₚ seqZ 0 2 ∧ StronglySorted (raw_order sample_file sample_context) l.
Proof.
  apply (@SortSections_sorts platform_strict sample_file sample_context unit [7; 7] tt);
    [apply sample_file_bytes|split; by vm_compute|by vm_compute|by vm_compute].
Defined.

Lemma PeCoffHashImageAuthenticode_exact_witness :
  ∃ l b h', @PeCoffHashImageAuthenticode platform_strict sample_lib sample_file sample_context _
      concat_update (Some [7; 7]) [] = Ok b h' ∧
    hash_order sample_file sample_context l ∧
    b = bool_decide (is_Some (Some [7; 7])) && @hash_allowed platform_strict sample_file sample_context l
        && (hash_ranges sample_file concat_update []
              (authenticode_ranges sample_file sample_context l)).1 ∧
    (b = true → h' = (hash_ranges sample_file concat_update []
                        (authenticode_ranges sample_file sample_context l)).2).
Proof.
  apply (@PeCoffHashImageAuthenticode_exact platform_strict platform_strict_ok sample_lib
    sample_file sample_context (list Z) concat_update (Some [7; 7]) []);
    [apply sample_file_bytes|apply sample_well_formed|by intros ? [= <-]; vm_compute].
Defined.

Lemma PeCoffGetFirstCertificate_assert_inverted_witness :
  @PeCoffGetFirstCertificate platform_strict sample_file sample_context tt = Fault AssertFailed.
Proof.
  apply (@PeCoffGetFirstCertificate_assert_inverted platform_strict); [done|apply sample_well_formed].
Defined.

Lemma sample_initialize_release :
  @PeCoffInitializeContext platform_release sample_lib sample_file (size sample_file) 2
    zero_context = Ok tt sample_context.
Proof. by vm_compute. Qed.

Lemma sample_well_formed_release : @WellFormed platform_release sample_file sample_context.
Proof.
  refine (wp_ok _ (λ _ c', @WellFormed platform_release sample_file c') _ _ _ _ _
    sample_initialize_release).
  apply (@PeCoffInitializeContext_spec platform_release platform_release_ok sample_lib);
    [apply sample_file_bytes|by vm_compute|lia].
Qed.

Lemma PeCoffGetFirstCertificate_exact_witness :
  @PeCoffGetFirstCertificate platform_release sample_file sample_context tt = Ok 448 tt ∧
  @cert_ok platform_release sample_file sample_context 448.
Proof.
  assert (@PeCoffGetFirstCertificate platform_release sample_file sample_context tt = Ok 448 tt)
    as Hrun by by vm_compute.
  pose proof (@PeCoffGetFirstCertificate_exact platform_release sample_file sample_context
    sample_file_bytes sample_well_formed_release eq_refl) as Hcert.
  rewrite Hrun in Hcert. split; [exact Hrun|exact (proj2 Hcert)].
Defined.

Lemma sample_cert_ok : @cert_ok platform_strict sample_file sample_context 448.
Proof. split_and!; [done|by exists 0|by vm_compute|by vm_compute|]. intros _. by exists 2. Qed.

Lemma PeCoffGetNextCertificate_exact_witness :
  448 + 8 <= next_certificate sample_file 448
    <= SecDirOffset sample_context + SecDirSize sample_context ∧
  @PeCoffGetNextCertificate platform_strict sample_lib sample_file sample_context 448 tt
    = Err RETURN_NOT_FOUND tt.
Proof.
  split; [|by vm_compute].
  pose proof (@PeCoffGetNextCertificate_exact platform_strict platform_strict_ok sample_lib
    sample_file sample_context 448 sample_file_bytes sample_well_formed sample_cert_ok) as [Hn _].
  exact Hn.
Defined.
