(* ===== verification/PeCoffDebug.v ===== *)
(** PeCoffDebug.c: the path of the debug symbols an image names.

    The debug directory is read from the loaded image, the CodeView entry from
    the raw file.  A pointer into the file is its offset. *)
From S2P Require Import Prelude Base Buffer Overflow PeImage PeSample PeCoffInit PeCoffLoad.

Section Debug.
Context `{!Platform, !OverflowLib}.

(** The switch on ImageType: the file offset of DataDirectory[Entry], or
    RETURN_NOT_FOUND if the image has no such entry. *)
Definition GetDataDirectory (Entry : Z) : LoadM Z :=
  s ← getS;
  let Hdr := ExeHdrOffset (Context s) in
  match ImageType (Context s) with
  | PeCoffLoaderTypePe32 =>
      NumberOfRvaAndSizes ← rd 4 (FileBuffer s) (Hdr + NT32_NumberOfRvaAndSizes);
      fail_if (NumberOfRvaAndSizes <=? Entry) RETURN_NOT_FOUND;;
      mret (DataDirectory32 Hdr Entry)
  | PeCoffLoaderTypePe32Plus =>
      NumberOfRvaAndSizes ← rd 4 (FileBuffer s) (Hdr + NT64_NumberOfRvaAndSizes);
      fail_if (NumberOfRvaAndSizes <=? Entry) RETURN_NOT_FOUND;;
      mret (DataDirectory64 Hdr Entry)
  end.

(** The offset of a member of DebugEntries[DebugIndex] in the image. *)
Definition debug_entry (DebugEntries DebugIndex field : Z) : Z :=
  DebugEntries + DebugIndex * SIZEOF_EFI_IMAGE_DEBUG_DIRECTORY_ENTRY + field.

(** The search loop over [n] entries; returns DebugIndex. *)
Fixpoint FindCodeView (n : nat) (DebugEntries DebugIndex : Z) : LoadM Z :=
  match n with
  | O => mret DebugIndex
  | S k =>
      s ← getS;
      Type_ ← rd 4 (image s) (debug_entry DebugEntries DebugIndex DEBUG_Type);
      if Type_ =? EFI_IMAGE_DEBUG_TYPE_CODEVIEW then mret DebugIndex
      else FindCodeView k DebugEntries (DebugIndex + 1)
  end.

(** The switch on the CodeView signature: PdbOffset. *)
Definition CodeViewPdbOffset (Signature : Z) : LoadM Z :=
  if Signature =? CODEVIEW_SIGNATURE_NB10 then mret SIZEOF_EFI_IMAGE_DEBUG_CODEVIEW_NB10_ENTRY
  else if Signature =? CODEVIEW_SIGNATURE_RSDS then mret SIZEOF_EFI_IMAGE_DEBUG_CODEVIEW_RSDS_ENTRY
  else if Signature =? CODEVIEW_SIGNATURE_MTOC then mret SIZEOF_EFI_IMAGE_DEBUG_CODEVIEW_MTOC_ENTRY
  else raise RETURN_UNSUPPORTED.

(** From the CodeView entry on: the file offset of the path and its size. *)
Definition GetCodeViewPdbPath (DebugEntries DebugIndex : Z) : LoadM (Z * Z) :=
  s ← getS;
  SizeOfData ← rd 4 (image s) (debug_entry DebugEntries DebugIndex DEBUG_SizeOfData);
  fail_if (SizeOfData <? 4) RETURN_VOLUME_CORRUPTED;;
  DebugEntryFileOffset ← rd 4 (image s) (debug_entry DebugEntries DebugIndex DEBUG_FileOffset);
  let '(Overflow, DebugEntryFileOffsetTop) := ovf_add_u32 DebugEntryFileOffset SizeOfData in
  fail_if (Overflow || (FileSize (Context s) <? DebugEntryFileOffsetTop)
             || negb (IS_ALIGNED DebugEntryFileOffset ALIGNOF_UINT32)) RETURN_VOLUME_CORRUPTED;;
  Signature ← rd 4 (FileBuffer s) DebugEntryFileOffset;
  PdbOffset ← CodeViewPdbOffset Signature;
  let '(Overflow, PdbNameSize) := ovf_sub_u32 SizeOfData PdbOffset in
  fail_if (Overflow || (PdbNameSize =? 0)) RETURN_VOLUME_CORRUPTED;;
  let PdbName := DebugEntryFileOffset + PdbOffset in
  Last ← rd 1 (FileBuffer s) (PdbName + (PdbNameSize - 1));
  fail_if (negb (Last =? 0)) RETURN_VOLUME_CORRUPTED;;
  mret (PdbName, PdbNameSize).

(** Returns PdbPath, as an offset in the file, and PdbPathSize. *)
Definition PeCoffGetPdbPath : LoadM (Z * Z) :=
  fail_if (negb PcdImageLoaderDebugSupport) RETURN_NOT_FOUND;;
  s ← getS;
  DebugDir ← GetDataDirectory EFI_IMAGE_DIRECTORY_ENTRY_DEBUG;
  DebugDirSize ← rd 4 (FileBuffer s) (DebugDir + DIR_Size);
  fail_if (DebugDirSize =? 0) RETURN_NOT_FOUND;;
  fail_if (negb (DebugDirSize mod SIZEOF_EFI_IMAGE_DEBUG_DIRECTORY_ENTRY =? 0))
    RETURN_VOLUME_CORRUPTED;;
  DebugDirRva ← rd 4 (FileBuffer s) (DebugDir + DIR_VirtualAddress);
  let '(Overflow, DebugDirTop) := ovf_add_u32 DebugDirRva DebugDirSize in
  fail_if (Overflow || (SizeOfImage (Context s) <? DebugDirTop)) RETURN_VOLUME_CORRUPTED;;
  fail_if (negb (IS_ALIGNED DebugDirRva ALIGNOF_EFI_IMAGE_DEBUG_DIRECTORY_ENTRY))
    RETURN_VOLUME_CORRUPTED;;
  let NumDebugEntries := DebugDirSize / SIZEOF_EFI_IMAGE_DEBUG_DIRECTORY_ENTRY in
  DebugIndex ← FindCodeView (Z.to_nat NumDebugEntries) DebugDirRva 0;
  fail_if (DebugIndex =? NumDebugEntries) RETURN_NOT_FOUND;;
  GetCodeViewPdbPath DebugDirRva DebugIndex.
End Debug.

(** ** A loaded image *)

(** The context belongs to the file and the image buffer holds the image. *)
Record Loaded (s : loader) : Prop := {
  loaded_headers : HeadersOk (FileBuffer s) (Context s);
  loaded_nsections : 0 < NumberOfSections (Context s);
  loaded_file : bytes (FileBuffer s);
  loaded_image : bytes (image s);
  loaded_size : SizeOfImage (Context s) <= size (image s);
}.

(** The addition of BaseOverflowLib, seen through the check that follows it. *)
Lemma ovf_add_checked `{!OverflowLib} A B limit :
  u32 A → u32 B → limit < 2 ^ 32 →
  let '(Overflow, Top) := ovf_add_u32 A B in
  (Overflow || (limit <? Top) = true → limit < A + B) ∧
  (Overflow || (limit <? Top) = false → A + B <= limit ∧ Top = A + B).
Proof.
  intros HA HB Hl. rewrite ovf_add_u32_spec by done. unfold is_uint in *.
  destruct (fits_u 32 (A + B)) eqn:Hf; cbn [negb orb].
  - apply fits_u_spec in Hf. rewrite wrap_small by done. split; lia.
  - split; [|done]. intros _. assert (¬ u32 (A + B)) as Hn by (by rewrite <- fits_u_spec, Hf).
    unfold is_uint in Hn. lia.
Qed.

Section DebugSpec.
Context `{!Platform, !OverflowLib} (s : loader) (Hld : Loaded s).

(** Where the entry is, if the image has it. *)
Lemma GetDataDirectory_spec Entry :
  0 <= Entry →
  wp (GetDataDirectory Entry)
    (λ d s', s' = s ∧ d = dir_offset (Context s) Entry ∧ Entry < num_dirs (FileBuffer s) (Context s) ∧
       0 <= d ∧ d + SIZEOF_EFI_IMAGE_DATA_DIRECTORY <= size (FileBuffer s))
    (λ e s', s' = s ∧ e = RETURN_NOT_FOUND ∧ num_dirs (FileBuffer s) (Context s) <= Entry) s.
Proof.
  intros HE. destruct Hld as [[] ? ? _ _].
  unfold GetDataDirectory, num_dirs, dir_offset, DataDirectory32, DataDirectory64 in *.
  autounfold with pe_layout in *. wp_step. wp_step.
  destruct (ImageType (Context s)); cbn [nt_header_size] in *; autounfold with pe_layout in *.
  - wp_step. wp_step; [lia..|].
    replace (ExeHdrOffset (Context s) + 116) with (ExeHdrOffset (Context s) + 120 - 4) by lia.
    wp_step. apply wp_fail_if; intros; [by split_and!; [..|lia]|]. wp_step. split_and!; [done..|lia|lia|lia].
  - wp_step. wp_step; [lia..|].
    replace (ExeHdrOffset (Context s) + 132) with (ExeHdrOffset (Context s) + 136 - 4) by lia.
    wp_step. apply wp_fail_if; intros; [by split_and!; [..|lia]|]. wp_step. split_and!; [done..|lia|lia|lia].
Qed.

(** A member of the [i]-th debug entry of the directory at [Rva]. *)
Definition debug_field (Rva i field : Z) : Z := load 4 (image s) (debug_entry Rva i field).

Definition is_codeview (Rva i : Z) : Prop :=
  debug_field Rva i DEBUG_Type = EFI_IMAGE_DEBUG_TYPE_CODEVIEW.

(** The size of the structure in front of the path. *)
Definition pdb_header_size (Signature : Z) : option Z :=
  if Signature =? CODEVIEW_SIGNATURE_NB10 then Some SIZEOF_EFI_IMAGE_DEBUG_CODEVIEW_NB10_ENTRY
  else if Signature =? CODEVIEW_SIGNATURE_RSDS then Some SIZEOF_EFI_IMAGE_DEBUG_CODEVIEW_RSDS_ENTRY
  else if Signature =? CODEVIEW_SIGNATURE_MTOC then Some SIZEOF_EFI_IMAGE_DEBUG_CODEVIEW_MTOC_ENTRY
  else None.

(** The path at file offset [o] of length [n] is the data of the CodeView entry
    [i] behind its header, lies in the file and is terminated. *)
Definition pdb_path_of (Rva i o n : Z) : Prop :=
  let off := debug_field Rva i DEBUG_FileOffset in
  ∃ hdr, pdb_header_size (load 4 (FileBuffer s) off) = Some hdr ∧
    o = off + hdr ∧ o + n = off + debug_field Rva i DEBUG_SizeOfData ∧
    0 < n ∧ 0 <= o ∧ o + n <= FileSize (Context s) ∧ byte_at (FileBuffer s) (o + n - 1) = 0.

Lemma FindCodeView_spec Rva n : ∀ i,
  0 <= Rva → 0 <= i →
  Rva + (i + Z.of_nat n) * SIZEOF_EFI_IMAGE_DEBUG_DIRECTORY_ENTRY <= SizeOfImage (Context s) →
  wp (FindCodeView n Rva i)
    (λ r s', s' = s ∧ i <= r <= i + Z.of_nat n ∧ (∀ j, i <= j < r → ¬ is_codeview Rva j) ∧
       (r < i + Z.of_nat n → is_codeview Rva r))
    (λ _ _, False) s.
Proof.
  destruct Hld as [_ _ _ _ Hsz].
  induction n as [|n IH]; intros i HR Hi Htop; cbn [FindCodeView].
  { wp_step. split_and!; [done|lia..]. }
  wp_step. wp_step. wp_step. unfold debug_entry. autounfold with pe_layout in *.
  wp_step; [lia..|]. wp_step.
  - wp_step. split_and!; [done|lia..|]. intros _. unfold is_codeview, debug_field, debug_entry.
    autounfold with pe_layout. lia.
  - eapply wp_mono; [apply IH; lia| |done].
    intros r s' (-> & Hr & Hno & Hyes). split_and!; [done|lia..| |].
    + intros j Hj. destruct (decide (j = i)) as [->|]; [|apply Hno; lia].
      unfold is_codeview, debug_field, debug_entry. autounfold with pe_layout. lia.
    + intros. apply Hyes. lia.
Qed.

Lemma CodeViewPdbOffset_spec Signature :
  wp (CodeViewPdbOffset Signature)
    (λ r s', s' = s ∧ pdb_header_size Signature = Some r ∧ 16 <= r <= 24)
    (λ _ s', s' = s) s.
Proof.
  unfold CodeViewPdbOffset, pdb_header_size. autounfold with pe_layout.
  repeat (case_match; [wp_step; split_and!; done || lia|]). by wp_step.
Qed.

Lemma GetCodeViewPdbPath_spec Rva i :
  0 <= Rva → 0 <= i →
  Rva + (i + 1) * SIZEOF_EFI_IMAGE_DEBUG_DIRECTORY_ENTRY <= SizeOfImage (Context s) →
  wp (GetCodeViewPdbPath Rva i)
    (λ r s', s' = s ∧ pdb_path_of Rva i r.1 r.2) (λ _ s', s' = s) s.
Proof.
  intros HR Hi Htop. destruct Hld as [[] _ Hfb Hib Hsz].
  assert (∀ f, 0 <= f → f + 4 <= SIZEOF_EFI_IMAGE_DEBUG_DIRECTORY_ENTRY →
    0 <= debug_entry Rva i f ∧ debug_entry Rva i f + Z.of_nat 4 <= size (image s)) as Hf.
  { intros f ? ?. unfold debug_entry. autounfold with pe_layout in *. lia. }
  unfold GetCodeViewPdbPath. wp_step. wp_step. wp_step. wp_step; [by apply Hf..|].
  assert (u32 (debug_field Rva i DEBUG_SizeOfData)) as Hds by by apply load_u32.
  assert (u32 (debug_field Rva i DEBUG_FileOffset)) as Hdo by by apply load_u32.
  unfold pdb_path_of. fold (debug_field Rva i DEBUG_SizeOfData). wp_step. wp_step.
  wp_step. wp_step; [by apply Hf..|]. fold (debug_field Rva i DEBUG_FileOffset).
  set (n := debug_field _ _ DEBUG_SizeOfData) in *. set (o := debug_field _ _ DEBUG_FileOffset) in *.
  pose proof (ovf_add_checked o n (FileSize (Context s)) Hdo Hds ltac:(by destruct hdr_file_u32)) as Hadd.
  destruct (ovf_add_u32 o n) as [Overflow Top]. destruct Hadd as [_ Hadd].
  wp_step. apply wp_fail_if; [done|]. intros [[Hle ->]%Hadd _]%orb_false_iff.
  unfold is_uint in *. wp_step. wp_step; [lia..|]. wp_step.
  eapply wp_mono; [apply CodeViewPdbOffset_spec| |done]. intros hdr s' (-> & Hhdr & Hrange).
  rewrite ovf_sub_u32_spec by (unfold is_uint; lia).
  destruct (fits_u 32 (n - hdr)) eqn:Hfit; cbn [negb orb]; [|wp_step; by wp_step].
  apply fits_u_spec in Hfit. rewrite wrap_small by done. unfold is_uint in Hfit.
  wp_step. wp_step. wp_step. wp_step; [lia..|]. wp_step. wp_step. wp_step. split; [done|].
  exists hdr. cbn [fst snd]. split_and!; [done|done|lia..|].
  replace (o + hdr + (n - hdr) - 1) with (o + hdr + (n - hdr - 1)) by lia.
  rewrite load_byte in *. lia.
Qed.

(** The debug directory of the headers. *)
Definition debug_dir_rva : Z :=
  load 4 (FileBuffer s) (dir_offset (Context s) EFI_IMAGE_DIRECTORY_ENTRY_DEBUG + DIR_VirtualAddress).
Definition debug_dir_size : Z :=
  load 4 (FileBuffer s) (dir_offset (Context s) EFI_IMAGE_DIRECTORY_ENTRY_DEBUG + DIR_Size).
Definition debug_dir_entries : Z := debug_dir_size / SIZEOF_EFI_IMAGE_DEBUG_DIRECTORY_ENTRY.

Lemma PeCoffGetPdbPath_spec :
  wp PeCoffGetPdbPath
    (λ r s', s' = s ∧ ∃ i, 0 <= i < debug_dir_entries ∧
       is_codeview debug_dir_rva i ∧ (∀ j, 0 <= j < i → ¬ is_codeview debug_dir_rva j) ∧
       pdb_path_of debug_dir_rva i r.1 r.2)
    (λ _ s', s' = s) s.
Proof.
  pose proof Hld as [_ _ Hfb _ Hsz]. unfold PeCoffGetPdbPath. wp_step. wp_step. wp_step. wp_step. wp_step.
  eapply wp_mono; [by apply GetDataDirectory_spec| |by intros ? ? (-> & _)].
  intros d s' (-> & -> & _ & Hd0 & Hd1). change SIZEOF_EFI_IMAGE_DATA_DIRECTORY with 8 in Hd1.
  wp_step. wp_step; [change DIR_Size with 4; lia..|]. fold debug_dir_size.
  wp_step. wp_step. wp_step. apply wp_fail_if; [done|]. intros Hmod%negb_false_iff%Z.eqb_eq.
  wp_step. wp_step; [change DIR_VirtualAddress with 0; lia..|]. fold debug_dir_rva.
  assert (u32 debug_dir_rva) as Hr by by apply load_u32.
  assert (u32 debug_dir_size) as Hs by by apply load_u32.
  rewrite ovf_add_u32_spec by done. destruct (fits_u 32 _) eqn:Hfit; cbn [negb orb]; [|wp_step; by wp_step].
  apply fits_u_spec in Hfit. rewrite wrap_small by done. unfold is_uint in *.
  wp_step. wp_step. wp_step. wp_step. fold debug_dir_entries. wp_step.
  assert (debug_dir_entries * SIZEOF_EFI_IMAGE_DEBUG_DIRECTORY_ENTRY = debug_dir_size
          ∧ 0 <= debug_dir_entries) as [Hn Hn0].
  { unfold debug_dir_entries. autounfold with pe_layout in *.
    pose proof (Z.div_mod debug_dir_size 28). split; [lia|]. apply Z.div_pos; lia. }
  eapply wp_mono; [apply FindCodeView_spec; [lia..|]| |done].
  { rewrite Z2Nat.id by done. lia. }
  intros i s' (-> & Hi & Hno & Hyes). rewrite Z2Nat.id in * by done. wp_step. wp_step.
  eapply wp_mono; [apply GetCodeViewPdbPath_spec; [lia..|]| |done].
  { autounfold with pe_layout in *. nia. }
  intros r s' (-> & Hp). split; [done|]. exists i. split_and!; [lia..|apply Hyes; lia|done|done].
Qed.
End DebugSpec.

(** ** Properties *)

(** On a loaded image PeCoffGetPdbPath never faults and changes nothing.  A
    path it returns is the data of the first CodeView entry of the debug
    directory behind its header; it is not empty, lies in the file and ends
    with a terminator, so that it can be used as a C string. *)
Theorem PeCoffGetPdbPath_sound `{!Platform, !OverflowLib} (s : loader) :
  Loaded s →
  match PeCoffGetPdbPath s with
  | Ok (PdbPath, PdbPathSize) s' =>
      s' = s ∧ ∃ i, 0 <= i < debug_dir_entries s ∧ is_codeview s (debug_dir_rva s) i ∧
        (∀ j, 0 <= j < i → ¬ is_codeview s (debug_dir_rva s) j) ∧
        pdb_path_of s (debug_dir_rva s) i PdbPath PdbPathSize
  | Err _ s' => s' = s
  | Fault _ => False
  end.
Proof.
  intros Hld. pose proof (wp_cases _ _ _ _ (PeCoffGetPdbPath_spec s Hld)) as Hs.
  by destruct (PeCoffGetPdbPath s) as [[] ?| |].
Qed.

(** ** The property on the sample image *)

Lemma sample_loaded_ok : Loaded sample_loaded.
Proof.
  destruct sample_well_formed as ([] & _).
  constructor; [by constructor|by vm_compute|apply sample_file_bytes| |by vm_compute].
  cbn [image ImageBuffer Context sample_loaded set_ImageBuffer Destination]. unfold sample_image.
  apply Forall_app. split; [by apply Forall_take, sample_file_bytes|]. repeat constructor; done.
Qed.

Lemma PeCoffGetPdbPath_sound_witness :
  @PeCoffGetPdbPath platform_strict sample_lib sample_loaded = Ok (344, 4) sample_loaded ∧
  ∃ i, 0 <= i < debug_dir_entries sample_loaded ∧
    is_codeview sample_loaded (debug_dir_rva sample_loaded) i ∧
    pdb_path_of sample_loaded (debug_dir_rva sample_loaded) i 344 4.
Proof.
  assert (@PeCoffGetPdbPath platform_strict sample_lib sample_loaded = Ok (344, 4) sample_loaded)
    as Hrun by by vm_compute.
  pose proof (@PeCoffGetPdbPath_sound platform_strict sample_lib sample_loaded sample_loaded_ok) as Hs.
  rewrite Hrun in Hs. destruct Hs as (_ & i & Hi & Hv & _ & Hp).
  exact (conj Hrun (ex_intro _ i (conj Hi (conj Hv Hp)))).
Defined.
