(* ===== verification/PeCoffHii.v ===== *)
(** PeCoffHii.c: the location of the "HII" resource of an image.

    The resource directory is read from the loaded image; a pointer into it is
    an offset in the image buffer. *)
From S2P Require Import Prelude Base Buffer Overflow PeImage PeSample PeCoffInit PeCoffLoad PeCoffDebug.

(** The bit fields of EFI_IMAGE_RESOURCE_DIRECTORY_ENTRY: a 31-bit offset below
    a flag, in u1 (NameOffset, NameIsString) and in u2 (OffsetToDirectory,
    DataIsDirectory). *)
Definition resource_offset (u : Z) : Z := Z.land u 0x7FFFFFFF.
Definition resource_flag (u : Z) : Z := Z.shiftr u 31.

Definition CHAR_H : Z := 0x48.
Definition CHAR_I : Z := 0x49.

Section Hii.
Context `{!Platform, !OverflowLib}.

(** &ResourceDir->Entries[Index] *)
Definition resource_entry (ResourceDir Index : Z) : Z :=
  ResourceDir + SIZEOF_EFI_IMAGE_RESOURCE_DIRECTORY
    + Index * SIZEOF_EFI_IMAGE_RESOURCE_DIRECTORY_ENTRY.

(** The comparison of the name with "HII", character by character. *)
Definition NameIsHii (ResourceDirString Length : Z) : LoadM bool :=
  s ← getS;
  let String_ i := rd 2 (image s) (ResourceDirString + SIZEOF_EFI_IMAGE_RESOURCE_DIRECTORY_STRING + 2 * i) in
  if negb (Length =? 3) then mret false
  else
    c0 ← String_ 0;
    if negb (c0 =? CHAR_H) then mret false
    else
      c1 ← String_ 1;
      if negb (c1 =? CHAR_I) then mret false
      else
        c2 ← String_ 2;
        mret (c2 =? CHAR_I).

(** The body of the search: whether the named entry [Index] is the "HII" one. *)
Definition CheckHiiEntry (Rva Size Index : Z) : LoadM bool :=
  s ← getS;
  u1 ← rd 4 (image s) (resource_entry Rva Index + RESENT_u1);
  if resource_flag u1 =? 0 then mret false
  else
    let '(Overflow, TopOffset) :=
      ovf_add_u32 (resource_offset u1) SIZEOF_EFI_IMAGE_RESOURCE_DIRECTORY_STRING in
    fail_if (Overflow || (Size <? TopOffset)) RETURN_VOLUME_CORRUPTED;;
    let Offset := wrap 32 (Rva + resource_offset u1) in
    fail_if (negb (IS_ALIGNED Offset ALIGNOF_EFI_IMAGE_RESOURCE_DIRECTORY_STRING))
      RETURN_VOLUME_CORRUPTED;;
    Length ← rd 2 (image s) Offset;
    let '(Overflow, TopOffset) := ovf_add_u32 TopOffset (wrap 32 (Length * 2)) in
    fail_if (Overflow || (Size <? TopOffset)) RETURN_VOLUME_CORRUPTED;;
    NameIsHii Offset Length.

(** The search over [n] named entries; returns Index. *)
Fixpoint FindHiiEntry (n : nat) (Rva Size Index : Z) : LoadM Z :=
  match n with
  | O => mret Index
  | S k =>
      Found ← CheckHiiEntry Rva Size Index;
      if Found : bool then mret Index else FindHiiEntry k Rva Size (Index + 1)
  end.

(** The walk down at most [n] levels; returns ResourceDirEntry. *)
Fixpoint WalkResourceLevels (n : nat) (Rva Size ResourceDirEntry : Z) : LoadM Z :=
  match n with
  | O => mret ResourceDirEntry
  | S k =>
      s ← getS;
      u2 ← rd 4 (image s) (ResourceDirEntry + RESENT_u2);
      if resource_flag u2 =? 0 then mret ResourceDirEntry
      else
        fail_if (wrapn (wrapn (Size - SIZEOF_EFI_IMAGE_RESOURCE_DIRECTORY)
                          + SIZEOF_EFI_IMAGE_RESOURCE_DIRECTORY_ENTRY) <? resource_offset u2)
          RETURN_VOLUME_CORRUPTED;;
        let Offset := wrap 32 (Rva + resource_offset u2) in
        fail_if (negb (IS_ALIGNED Offset ALIGNOF_EFI_IMAGE_RESOURCE_DIRECTORY))
          RETURN_VOLUME_CORRUPTED;;
        NumberOfIdEntries ← rd 2 (image s) (Offset + RES_NumberOfIdEntries);
        NumberOfNamedEntries ← rd 2 (image s) (Offset + RES_NumberOfNamedEntries);
        fail_if (NumberOfIdEntries + NumberOfNamedEntries =? 0) RETURN_VOLUME_CORRUPTED;;
        WalkResourceLevels k Rva Size (resource_entry Offset 0)
  end.

(** From the final entry on: HiiRva and HiiSize. *)
Definition GetResourceData (Rva Size ResourceDirEntry : Z) : LoadM (Z * Z) :=
  s ← getS;
  u2 ← rd 4 (image s) (ResourceDirEntry + RESENT_u2);
  fail_if (negb (resource_flag u2 =? 0)) RETURN_VOLUME_CORRUPTED;;
  fail_if (wrapn (Size - SIZEOF_EFI_IMAGE_RESOURCE_DATA_ENTRY) <? u2) RETURN_VOLUME_CORRUPTED;;
  let Offset := wrap 32 (Rva + u2) in
  fail_if (negb (IS_ALIGNED Offset ALIGNOF_EFI_IMAGE_RESOURCE_DATA_ENTRY)) RETURN_VOLUME_CORRUPTED;;
  OffsetToData ← rd 4 (image s) (Offset + RESDATA_OffsetToData);
  DataSize ← rd 4 (image s) (Offset + RESDATA_Size);
  let '(Overflow, HiiRvaEnd) := ovf_add_u32 OffsetToData DataSize in
  fail_if (Overflow || (SizeOfImage (Context s) <? HiiRvaEnd)) RETURN_VOLUME_CORRUPTED;;
  mret (OffsetToData, DataSize).

Definition PeCoffGetHiiDataRva : LoadM (Z * Z) :=
  s ← getS;
  ResDirTable ← GetDataDirectory EFI_IMAGE_DIRECTORY_ENTRY_RESOURCE;
  Size ← rd 4 (FileBuffer s) (ResDirTable + DIR_Size);
  fail_if (Size <? SIZEOF_EFI_IMAGE_RESOURCE_DIRECTORY + SIZEOF_EFI_IMAGE_RESOURCE_DIRECTORY_ENTRY)
    RETURN_NOT_FOUND;;
  Rva ← rd 4 (FileBuffer s) (ResDirTable + DIR_VirtualAddress);
  fail_if (negb (IS_ALIGNED Rva ALIGNOF_EFI_IMAGE_RESOURCE_DIRECTORY)) RETURN_VOLUME_CORRUPTED;;
  let '(Overflow, TopOffset) := ovf_add_u32 Rva Size in
  fail_if (Overflow || (SizeOfImage (Context s) <? TopOffset)) RETURN_VOLUME_CORRUPTED;;
  NumberOfNamedEntries ← rd 2 (image s) (Rva + RES_NumberOfNamedEntries);
  NumberOfIdEntries ← rd 2 (image s) (Rva + RES_NumberOfIdEntries);
  let TopOffset := wrap 32 (SIZEOF_EFI_IMAGE_RESOURCE_DIRECTORY
    + SIZEOF_EFI_IMAGE_RESOURCE_DIRECTORY_ENTRY * (NumberOfNamedEntries + NumberOfIdEntries)) in
  fail_if (Size <? TopOffset) RETURN_VOLUME_CORRUPTED;;
  Index ← FindHiiEntry (Z.to_nat NumberOfNamedEntries) Rva Size 0;
  fail_if (Index =? NumberOfNamedEntries) RETURN_NOT_FOUND;;
  ResourceDirEntry ← WalkResourceLevels 2 Rva Size (resource_entry Rva Index);
  GetResourceData Rva Size ResourceDirEntry.
End Hii.

(** ** Bounds *)

Section HiiSpec.
Context `{!Platform, !PlatformOk, !OverflowLib} (s : loader) (Hld : Loaded s).
Context (Hsize32 : SizeOfImage (Context s) < 2 ^ 32).

(** The resource directory of the headers. *)
Definition resource_dir_rva : Z :=
  load 4 (FileBuffer s) (dir_offset (Context s) EFI_IMAGE_DIRECTORY_ENTRY_RESOURCE + DIR_VirtualAddress).
Definition resource_dir_size : Z :=
  load 4 (FileBuffer s) (dir_offset (Context s) EFI_IMAGE_DIRECTORY_ENTRY_RESOURCE + DIR_Size).
Definition resource_named_entries : Z :=
  load 2 (image s) (resource_dir_rva + RES_NumberOfNamedEntries).

(** The [i]-th entry of the directory at [Rva] has the name "HII". *)
Definition entry_is_hii (Rva i : Z) : Prop :=
  let u1 := load 4 (image s) (resource_entry Rva i + RESENT_u1) in
  let o := Rva + resource_offset u1 in
  resource_flag u1 ≠ 0 ∧ load 2 (image s) o = 3 ∧ load 2 (image s) (o + 2) = CHAR_H ∧
  load 2 (image s) (o + 4) = CHAR_I ∧ load 2 (image s) (o + 6) = CHAR_I.

Lemma resource_offset_range u : 0 <= resource_offset u < 2 ^ 31.
Proof.
  unfold resource_offset. change 0x7FFFFFFF with (2 ^ 31 - 1). rewrite land_mask by done.
  by apply Z.mod_pos_bound.
Qed.

Lemma NameIsHii_spec o Length :
  0 <= o → o + 2 + Length * 2 <= size (image s) →
  wp (NameIsHii o Length)
    (λ b s', s' = s ∧ (b = true ↔ Length = 3 ∧ load 2 (image s) (o + 2) = CHAR_H ∧
       load 2 (image s) (o + 4) = CHAR_I ∧ load 2 (image s) (o + 6) = CHAR_I))
    (λ _ _, False) s.
Proof.
  intros Ho Htop. unfold NameIsHii. autounfold with pe_layout. wp_step. wp_step.
  rewrite <- !Z.add_assoc. change (2 + 2 * 0) with 2. change (2 + 2 * 1) with 4. change (2 + 2 * 2) with 6.
  assert (∀ b : bool, b = false → ∀ P, ¬ P → (b = true ↔ P)) as Hno by (intros ? ->; naive_solver).
  wp_step; [wp_step; split; [done|]; apply Hno; [done|lia]|].
  wp_step. wp_step; [lia..|]. wp_step; [wp_step; split; [done|]; apply Hno; [done|]; lia|].
  wp_step. wp_step; [lia..|]. wp_step; [wp_step; split; [done|]; apply Hno; [done|]; lia|].
  wp_step. wp_step; [lia..|]. wp_step. split; [done|]. lia.
Qed.

Lemma CheckHiiEntry_spec Rva Size i :
  u32 Rva → u32 Size → 0 <= i → Rva + Size <= SizeOfImage (Context s) →
  SIZEOF_EFI_IMAGE_RESOURCE_DIRECTORY + (i + 1) * SIZEOF_EFI_IMAGE_RESOURCE_DIRECTORY_ENTRY <= Size →
  wp (CheckHiiEntry Rva Size i) (λ b s', s' = s ∧ (b = true ↔ entry_is_hii Rva i))
    (λ _ s', s' = s) s.
Proof.
  intros HR HS Hi Htop Hent. destruct Hld as [_ _ _ Hib Hsz].
  unfold CheckHiiEntry, entry_is_hii. wp_step. wp_step. wp_step.
  unfold is_uint in *. wp_step; [unfold resource_entry; autounfold with pe_layout in *; lia..|].
  set (u1 := load 4 _ _). pose proof (resource_offset_range u1) as Hr.
  wp_step; [wp_step; split; [done|]; split; [done|]; intros [? _]; lia|].
  pose proof (ovf_add_checked (resource_offset u1) SIZEOF_EFI_IMAGE_RESOURCE_DIRECTORY_STRING Size) as Hadd.
  destruct (ovf_add_u32 _ _) as [Ov Top]. autounfold with pe_layout in *.
  destruct Hadd as [_ Hadd]; [unfold is_uint; lia|by compute|lia|]. wp_step.
  apply wp_fail_if; [done|]. intros [Hle ->]%Hadd. clear Hadd.
  rewrite wrap_small by (unfold is_uint; lia). wp_step. wp_step. wp_step. wp_step; [lia..|].
  assert (u16 (load 2 (image s) (Rva + resource_offset u1))) as Hlen by by apply load_u16.
  set (len := load 2 _ _) in *. unfold is_uint in Hlen.
  rewrite wrap_small by (unfold is_uint; lia).
  pose proof (ovf_add_checked (resource_offset u1 + 2) (len * 2) Size) as Hadd.
  destruct (ovf_add_u32 _ _) as [Ov' Top'].
  destruct Hadd as [_ Hadd]; [unfold is_uint; lia..|lia|]. wp_step.
  apply wp_fail_if; [done|]. intros [Hle' ->]%Hadd.
  eapply wp_mono; [apply NameIsHii_spec; lia| |done].
  intros b s' [-> ->]. split; [done|]. split; [intros ?; split; [lia|done]|by intros [_ ?]].
Qed.

Lemma FindHiiEntry_spec Rva Size n : ∀ i,
  u32 Rva → u32 Size → 0 <= i → Rva + Size <= SizeOfImage (Context s) →
  SIZEOF_EFI_IMAGE_RESOURCE_DIRECTORY
    + (i + Z.of_nat n) * SIZEOF_EFI_IMAGE_RESOURCE_DIRECTORY_ENTRY <= Size →
  wp (FindHiiEntry n Rva Size i)
    (λ r s', s' = s ∧ i <= r <= i + Z.of_nat n ∧ (∀ j, i <= j < r → ¬ entry_is_hii Rva j) ∧
       (r < i + Z.of_nat n → entry_is_hii Rva r))
    (λ _ s', s' = s) s.
Proof.
  induction n as [|n IH]; intros i HR HS Hi Htop Hent; cbn [FindHiiEntry].
  { wp_step. split_and!; [done|lia..]. }
  wp_step. autounfold with pe_layout in *.
  eapply wp_mono; [apply (CheckHiiEntry_spec Rva Size i); autounfold with pe_layout; done || lia| |done].
  intros b s' [-> Hb]. destruct b.
  - wp_step. split_and!; [done|lia..|]. intros _. by apply Hb.
  - eapply wp_mono; [apply IH; done || lia| |done].
    intros r s' (-> & Hr & Hno & Hyes). split_and!; [done|lia..| |].
    + intros j Hj. destruct (decide (j = i)) as [->|]; [|apply Hno; lia]. intros ?%Hb. done.
    + intros. apply Hyes. lia.
Qed.

(** The directory and what the walk may read behind it lie in the image. *)
Definition resource_room (Rva Size : Z) : Prop :=
  u32 Rva ∧ u32 Size ∧
  SIZEOF_EFI_IMAGE_RESOURCE_DIRECTORY + SIZEOF_EFI_IMAGE_RESOURCE_DIRECTORY_ENTRY <= Size ∧
  Rva + Size <= SizeOfImage (Context s) ∧
  Rva + Size + SIZEOF_EFI_IMAGE_RESOURCE_DIRECTORY <= size (image s) ∧ Rva + Size + 16 < 2 ^ 32.

Lemma WalkResourceLevels_spec Rva Size n : ∀ e,
  resource_room Rva Size → 0 <= e →
  e + SIZEOF_EFI_IMAGE_RESOURCE_DIRECTORY_ENTRY <= size (image s) →
  wp (WalkResourceLevels n Rva Size e)
    (λ r s', s' = s ∧ 0 <= r ∧ r + SIZEOF_EFI_IMAGE_RESOURCE_DIRECTORY_ENTRY <= size (image s))
    (λ _ s', s' = s) s.
Proof.
  induction n as [|n IH]; intros e Hroom He Htop; cbn [WalkResourceLevels]; [by wp_step|].
  pose proof Hroom as (HR & HS & Hmin & Hin & Hroom' & H32).
  wp_step. wp_step. wp_step. unfold is_uint in *. autounfold with pe_layout in *. wp_step; [lia..|].
  set (u2 := load 4 _ _). pose proof (resource_offset_range u2) as Hr.
  wp_step; [by wp_step|]. rewrite !wrapn_small by (rewrite ?wrapn_small; unfold is_uint; lia).
  wp_step. wp_step. rewrite wrap_small by (unfold is_uint; lia). wp_step. wp_step.
  wp_step. wp_step; [lia..|]. wp_step. wp_step; [lia..|]. wp_step. wp_step.
  unfold resource_entry. autounfold with pe_layout. apply IH; [done|lia..].
Qed.

Lemma GetResourceData_spec Rva Size e :
  resource_room Rva Size → 0 <= e →
  e + SIZEOF_EFI_IMAGE_RESOURCE_DIRECTORY_ENTRY <= size (image s) →
  wp (GetResourceData Rva Size e)
    (λ r s', s' = s ∧ 0 <= r.1 ∧ 0 <= r.2 ∧ r.1 + r.2 <= SizeOfImage (Context s))
    (λ _ s', s' = s) s.
Proof.
  intros (HR & HS & Hmin & Hin & Hroom' & H32) He Htop. destruct Hld as [_ _ _ Hib Hsz].
  unfold GetResourceData. autounfold with pe_layout in *. unfold is_uint in *.
  wp_step. wp_step. wp_step. wp_step; [lia..|].
  assert (u32 (load 4 (image s) (e + 4))) as Hu by by apply load_u32. set (u2 := load 4 _ _) in *.
  unfold is_uint in Hu. wp_step. wp_step. rewrite wrapn_small by (unfold is_uint; lia).
  wp_step. wp_step. rewrite wrap_small by (unfold is_uint; lia). wp_step. wp_step.
  wp_step. wp_step; [lia..|]. wp_step. wp_step; [lia..|].
  set (d := load 4 _ (_ + 0)). set (n := load 4 _ (_ + 4)).
  assert (u32 d) as Hd by by apply load_u32. assert (u32 n) as Hn by by apply load_u32.
  pose proof (ovf_add_checked d n (SizeOfImage (Context s)) Hd Hn Hsize32) as Hadd.
  destruct (ovf_add_u32 d n) as [Ov Top]. destruct Hadd as [_ Hadd]. wp_step.
  apply wp_fail_if; [done|]. intros [Hle _]%Hadd. wp_step. unfold is_uint in *. cbn [fst snd].
  clearbody d n. split_and!; [done|lia..].
Qed.

Lemma PeCoffGetHiiDataRva_spec :
  resource_dir_rva + resource_dir_size + SIZEOF_EFI_IMAGE_RESOURCE_DIRECTORY <= size (image s) →
  resource_dir_rva + resource_dir_size + 16 < 2 ^ 32 →
  wp PeCoffGetHiiDataRva
    (λ r s', s' = s ∧
       (∃ i, 0 <= i < resource_named_entries ∧ entry_is_hii resource_dir_rva i ∧
          ∀ j, 0 <= j < i → ¬ entry_is_hii resource_dir_rva j) ∧
       0 <= r.1 ∧ 0 <= r.2 ∧ r.1 + r.2 <= SizeOfImage (Context s))
    (λ _ s', s' = s) s.
Proof.
  intros Hroom1 Hroom2. pose proof Hld as [_ _ Hfb Hib Hsz].
  unfold PeCoffGetHiiDataRva, resource_named_entries. wp_step. wp_step. wp_step.
  eapply wp_mono; [by apply GetDataDirectory_spec| |by intros ? ? (-> & _)].
  intros d s' (-> & -> & _ & Hd0 & Hd1). change SIZEOF_EFI_IMAGE_DATA_DIRECTORY with 8 in Hd1.
  wp_step. wp_step; [change DIR_Size with 4; lia..|]. fold resource_dir_size.
  wp_step. wp_step. wp_step. wp_step; [change DIR_VirtualAddress with 0; lia..|]. fold resource_dir_rva.
  assert (u32 resource_dir_rva) as Hr by by apply load_u32.
  assert (u32 resource_dir_size) as Hs by by apply load_u32.
  wp_step. wp_step. set (Rva := resource_dir_rva) in *. set (Size := resource_dir_size) in *.
  pose proof (ovf_add_checked Rva Size (SizeOfImage (Context s)) Hr Hs Hsize32) as Hadd.
  destruct (ovf_add_u32 Rva Size) as [Ov Top]. destruct Hadd as [_ Hadd]. wp_step.
  apply wp_fail_if; [done|]. intros [Hle ->]%Hadd.
  assert (resource_room Rva Size) as Hroom by (unfold resource_room; split_and!; done || lia).
  assert (∀ f, u16 (load 2 (image s) f)) as Hu16 by (intros; by apply load_u16).
  pose proof (Hu16 (Rva + RES_NumberOfNamedEntries)) as Hnamed.
  pose proof (Hu16 (Rva + RES_NumberOfIdEntries)) as Hid. clearbody Rva Size.
  unfold is_uint in *. autounfold with pe_layout in *.
  wp_step. wp_step; [lia..|]. wp_step. wp_step; [lia..|]. rewrite wrap_small by (unfold is_uint; lia).
  wp_step. wp_step. wp_step. set (named := load 2 _ (Rva + 12)) in *.
  eapply wp_mono; [apply (FindHiiEntry_spec Rva Size); autounfold with pe_layout; unfold is_uint; lia|
    |done].
  rewrite Z2Nat.id by lia. intros i s' (-> & Hi & Hno & Hyes). wp_step. wp_step. wp_step.
  assert (i < named) as Hlt by lia.
  eapply wp_mono; [apply WalkResourceLevels_spec; [done|unfold resource_entry; autounfold with pe_layout; lia..]|
    |done].
  intros e s' (-> & He0 & He1). eapply wp_mono; [by apply GetResourceData_spec| |done].
  intros r s' (-> & ? & ? & ?). split_and!; try done.
  exists i. split_and!; [lia..|apply Hyes; lia|done].
Qed.
End HiiSpec.

(** ** Properties *)

(** If the image buffer holds sixteen more bytes than the resource directory
    ends at, PeCoffGetHiiDataRva never faults and changes nothing.  The data it
    returns is that of the first named entry "HII" of the directory, and lies in
    the image. *)
Theorem PeCoffGetHiiDataRva_sound `{!Platform, !PlatformOk, !OverflowLib} (s : loader) :
  Loaded s → u32 (size (image s)) →
  resource_dir_rva s + resource_dir_size s + SIZEOF_EFI_IMAGE_RESOURCE_DIRECTORY <= size (image s) →
  match PeCoffGetHiiDataRva s with
  | Ok (HiiRva, HiiSize) s' =>
      s' = s ∧
      (∃ i, 0 <= i < resource_named_entries s ∧ entry_is_hii s (resource_dir_rva s) i ∧
         ∀ j, 0 <= j < i → ¬ entry_is_hii s (resource_dir_rva s) j) ∧
      0 <= HiiRva ∧ 0 <= HiiSize ∧ HiiRva + HiiSize <= SizeOfImage (Context s)
  | Err _ s' => s' = s
  | Fault _ => False
  end.
Proof.
  intros Hld [_ Hu] Hroom. pose proof (loaded_size _ Hld).
  pose proof (wp_cases _ _ _ _ (PeCoffGetHiiDataRva_spec s Hld ltac:(lia) Hroom
    ltac:(autounfold with pe_layout in Hroom; lia))) as Hs.
  by destruct (PeCoffGetHiiDataRva s) as [[] ?| |].
Qed.

(** The context of [hii_file] and the image loaded from it. *)
Definition hii_context : PE_COFF_LOADER_IMAGE_CONTEXT := {|
  ImageBase := 0; FileSize := 288; ImageBuffer := ImageNull; SectionsOffset := 192;
  NumberOfSections := 1; SizeOfImage := 288; SectionAlignment := 16; ExeHdrOffset := 0;
  SizeOfHeaders := 240; AddressOfEntryPoint := 0; RelocsStripped := false;
  ImageType := PeCoffLoaderTypePe32Plus; Subsystem := 11; Machine := 0x8664;
  RelocDirRva := 0; RelocDirSize := 0; SecDirOffset := 0; SecDirSize := 0; |}.

Definition hii_state (Destination_ : list Z) (p : image_pointer) : loader :=
  {| Context := set_ImageBuffer p hii_context; FileBuffer := hii_file;
     Destination := Destination_; RuntimeContext := None |}.

(** The bound on a sub-directory subtracts the size of a directory but adds
    the size of its first entry, so a sub-directory may start up to eight bytes
    before the end of the resource directory: there is a file that passes
    PeCoffInitializeContext and loads into a buffer of SizeOfImage bytes, for
    which PeCoffGetHiiDataRva reads behind that buffer. *)
Theorem PeCoffGetHiiDataRva_overrun :
  @PeCoffInitializeContext platform_strict sample_lib hii_file (size hii_file) 2 zero_context
    = Ok tt hii_context ∧
  @PeCoffLoadImage platform_strict 0x2000 288 (hii_state (zeros 288) ImageNull)
    = Ok tt (hii_state hii_file ImageDestination) ∧
  @PeCoffGetHiiDataRva platform_strict sample_lib (hii_state hii_file ImageDestination)
    = Fault OutOfBounds.
Proof. split_and!; by vm_compute. Qed.

(** ** The property on the sample image *)

Lemma sample_resource_room :
  u32 (size (image sample_loaded)) ∧
  resource_dir_rva sample_loaded + resource_dir_size sample_loaded
    + SIZEOF_EFI_IMAGE_RESOURCE_DIRECTORY <= size (image sample_loaded).
Proof. by vm_compute. Qed.

Lemma PeCoffGetHiiDataRva_sound_witness :
  @PeCoffGetHiiDataRva platform_strict sample_lib sample_loaded = Ok (400, 8) sample_loaded ∧
  400 + 8 <= SizeOfImage (Context sample_loaded).
Proof.
  assert (@PeCoffGetHiiDataRva platform_strict sample_lib sample_loaded = Ok (400, 8) sample_loaded)
    as Hrun by by vm_compute.
  pose proof (@PeCoffGetHiiDataRva_sound platform_strict platform_strict_ok sample_lib sample_loaded
    sample_loaded_ok (proj1 sample_resource_room) (proj2 sample_resource_room)) as Hs.
  rewrite Hrun in Hs. destruct Hs as (_ & _ & _ & _ & Hle). exact (conj Hrun Hle).
Defined.
