(* ===== verification/UeImage.v ===== *)
(** The UE (UEFI Executable) file format (MdePkg/Include/IndustryStandard/UeImage.h),
    the image context of MdePkg/Include/Library/UeImageLib.h, and the state of
    the UE image loader. *)
From S2P Require Import Prelude Base Buffer Overflow.
From S2P Require Export Platform.

(** ** Layouts and constants *)

(** UE_HEADER: Magic, Type, TableCounts, EntryPointAddress, ImageInfo, Segments. *)
Definition UE_HEADER_Magic : Z := 0.
Definition UE_HEADER_Type : Z := 2.
Definition UE_HEADER_TableCounts : Z := 3.
Definition UE_HEADER_EntryPointAddress : Z := 4.
Definition UE_HEADER_ImageInfo : Z := 8.
Definition UE_HEADER_Segments : Z := 16.

(** UE_SEGMENT: ImageInfo, FileSize. *)
Definition UE_SEGMENT_ImageInfo : Z := 0.
Definition UE_SEGMENT_FileSize : Z := 4.
Definition SIZEOF_UE_SEGMENT : Z := 8.
Definition SIZEOF_UE_LOAD_TABLE : Z := 4.
Definition ALIGNOF_UE_LOAD_TABLE : Z := 4.

(** UE_FIXUP_ROOT: FirstOffset, Heads.  UE_DEBUG_TABLE: ImageInfo,
    SymbolsPathLength, SymbolsPath. *)
Definition SIZEOF_UE_FIXUP_ROOT : Z := 4.
Definition ALIGNOF_UE_FIXUP_ROOT : Z := 4.
Definition UE_DEBUG_TABLE_ImageInfo : Z := 0.
Definition UE_DEBUG_TABLE_SymbolsPathLength : Z := 1.
Definition UE_DEBUG_TABLE_SymbolsPath : Z := 2.
Definition ALIGNOF_UE_DEBUG_TABLE : Z := 1.
Definition SIZEOF_UE_SEGMENT_NAME : Z := 8.

Definition UE_HEADER_MAGIC : Z := 0x4555.
Definition UE_LOAD_TABLE_ALIGNMENT : Z := 8.
Definition UE_HEADER_NUM_LOAD_TABLES_MAX : Z := 7.
Definition UE_HEADER_NUM_SEGMENTS_MAX : Z := 32.
Definition MIN_SIZE_OF_UE_HEADER : Z := UE_HEADER_Segments + SIZEOF_UE_SEGMENT.
Definition MAX_SIZE_OF_UE_HEADER : Z :=
  MIN_SIZE_OF_UE_HEADER + UE_HEADER_NUM_SEGMENTS_MAX * SIZEOF_UE_SEGMENT
    + UE_HEADER_NUM_LOAD_TABLES_MAX * SIZEOF_UE_LOAD_TABLE.
Definition MIN_SIZE_OF_UE_FIXUP_ROOT : Z := SIZEOF_UE_FIXUP_ROOT + 2.
Definition MIN_SIZE_OF_UE_DEBUG_TABLE : Z := UE_DEBUG_TABLE_SymbolsPath + 1.
Definition UE_HEADER_IMAGE_INFO_XIP : Z := 0x0100000000000000.
Definition UE_HEADER_IMAGE_INFO_FIXED_ADDRESS : Z := 0x0200000000000000.
Definition UE_HEADER_IMAGE_INFO_RELOCATION_FIXUPS_STRIPPED : Z := 0x0400000000000000.
Definition UE_HEADER_IMAGE_INFO_CHAINED_FIXUPS : Z := 0x0800000000000000.
Definition UE_HEAD_FIXUP_OFFSET_END : Z := 0x0FFF.
Definition UE_CHAINED_RELOC_FIXUP_OFFSET_END : Z := 0x0FFF.
Definition UeReloc32 : Z := 0.
Definition UeReloc64 : Z := 1.
Definition UeReloc32NoMeta : Z := 2.
Definition UeRelocGenericMax : Z := 3.
Definition UeLoadTableIdReloc : Z := 0.
Definition UeLoadTableIdDebug : Z := 1.

Create HintDb ue_layout.
#[export] Hint Unfold UE_HEADER_Magic UE_HEADER_Type UE_HEADER_TableCounts
  UE_HEADER_EntryPointAddress UE_HEADER_ImageInfo UE_HEADER_Segments UE_SEGMENT_ImageInfo
  UE_SEGMENT_FileSize SIZEOF_UE_SEGMENT SIZEOF_UE_LOAD_TABLE ALIGNOF_UE_LOAD_TABLE
  SIZEOF_UE_FIXUP_ROOT ALIGNOF_UE_FIXUP_ROOT UE_DEBUG_TABLE_ImageInfo
  UE_DEBUG_TABLE_SymbolsPathLength UE_DEBUG_TABLE_SymbolsPath ALIGNOF_UE_DEBUG_TABLE
  SIZEOF_UE_SEGMENT_NAME UE_HEADER_MAGIC UE_LOAD_TABLE_ALIGNMENT UE_HEADER_NUM_LOAD_TABLES_MAX
  UE_HEADER_NUM_SEGMENTS_MAX MIN_SIZE_OF_UE_HEADER MAX_SIZE_OF_UE_HEADER
  MIN_SIZE_OF_UE_FIXUP_ROOT MIN_SIZE_OF_UE_DEBUG_TABLE UE_HEAD_FIXUP_OFFSET_END
  UE_CHAINED_RELOC_FIXUP_OFFSET_END UeReloc32 UeReloc64 UeReloc32NoMeta UeRelocGenericMax
  UeLoadTableIdReloc UeLoadTableIdDebug : ue_layout.

(** ** Packed fields *)

Definition UE_SEGMENT_SIZE (ImageInfo : Z) : Z := wrap 32 (Z.shiftl ImageInfo 12).
Definition UE_LOAD_TABLE_ID (FileInfo : Z) : Z := wrap 8 (Z.shiftr FileInfo 29).
Definition UE_LOAD_TABLE_SIZE (FileInfo : Z) : Z := wrap 32 (Z.shiftl FileInfo 3).
Definition UE_RELOC_FIXUP_OFFSET (FixupInfo : Z) : Z := wrap 16 (Z.shiftr FixupInfo 4).
Definition UE_RELOC_FIXUP_TYPE (FixupInfo : Z) : Z := Z.land FixupInfo 0x000F.
Definition UE_CHAINED_RELOC_FIXUP_NEXT_OFFSET (FixupInfo : Z) : Z :=
  Z.land (wrap 16 (Z.shiftr (wrap 16 FixupInfo) 4)) 0x0FFF.
Definition UE_CHAINED_RELOC_FIXUP_NEXT_TYPE (FixupInfo : Z) : Z :=
  wrap 8 (Z.land (wrap 16 FixupInfo) 0x0F).
Definition UE_CHAINED_RELOC_FIXUP_VALUE (FixupInfo : Z) : Z := RShiftU64 FixupInfo 16.
Definition UE_CHAINED_RELOC_FIXUP_VALUE_32 (FixupInfo : Z) : Z := Z.shiftr (wrap 32 FixupInfo) 12.
Definition UE_DEBUG_TABLE_IMAGE_INFO_SYM_SUBTRAHEND_FACTOR (ImageInfo : Z) : Z :=
  wrap 8 (Z.land ImageInfo 0x03).
Definition UE_HEADER_BASE_ADDRESS (ImageInfo : Z) : Z := LShiftU64 ImageInfo 12.
Definition UE_HEADER_SEGMENT_ALIGNMENT (ImageInfo : Z) : Z :=
  wrap 32 (Z.shiftl 1 (wrap 8 (RShiftU64 ImageInfo 60) + 12)).
Definition UE_HEADER_SUBSYSTEM (Type_ : Z) : Z := Z.land Type_ 0x07.
Definition UE_HEADER_ARCH (Type_ : Z) : Z := Z.shiftr Type_ 3.
Definition UE_HEADER_NUM_LOAD_TABLES (TableCounts : Z) : Z := Z.land TableCounts 0x07.
Definition UE_HEADER_LAST_SEGMENT_INDEX (TableCounts : Z) : Z := Z.shiftr TableCounts 3.

(** ** The image context *)

(** The pointers Segments and LoadTables are offsets in the file; FileBuffer and
    ImageBuffer are the buffers of the state below. *)
Record UE_LOADER_IMAGE_CONTEXT := {
  UnsignedFileSize : Z;
  Subsystem : Z;
  Machine : Z;
  FixedAddress : bool;
  XIP : bool;
  LastSegmentIndex : Z;
  SegmentsFileOffset : Z;
  SegmentAlignment : Z;
  Segments : Z;
  SegmentImageInfoIterSize : Z;
  RelocsStripped : bool;
  NumLoadTables : Z;
  LoadTablesFileOffset : Z;
  RelocTableSize : Z;
  LoadTables : Z;
  ImageSize : Z;
  EntryPointAddress : Z;
  BaseAddress : Z;
}.

#[global] Instance UE_LOADER_IMAGE_CONTEXT_eq_dec : EqDecision UE_LOADER_IMAGE_CONTEXT.
Proof. solve_decision. Defined.

(** ZeroMem of the context, then UnsignedFileSize. *)
Definition ue_context (FileSize : Z) : UE_LOADER_IMAGE_CONTEXT := {|
  UnsignedFileSize := FileSize; Subsystem := 0; Machine := 0; FixedAddress := false; XIP := false;
  LastSegmentIndex := 0; SegmentsFileOffset := 0; SegmentAlignment := 0; Segments := 0;
  SegmentImageInfoIterSize := 0; RelocsStripped := false; NumLoadTables := 0;
  LoadTablesFileOffset := 0; RelocTableSize := 0; LoadTables := 0; ImageSize := 0;
  EntryPointAddress := 0; BaseAddress := 0 |}.

(** The groups of members that are assigned together. *)
Definition set_info (fixed stripped xip : bool) (segments iter align : Z)
    (c : UE_LOADER_IMAGE_CONTEXT) : UE_LOADER_IMAGE_CONTEXT := {|
  UnsignedFileSize := UnsignedFileSize c; Subsystem := Subsystem c; Machine := Machine c;
  FixedAddress := fixed; XIP := xip; LastSegmentIndex := LastSegmentIndex c;
  SegmentsFileOffset := SegmentsFileOffset c; SegmentAlignment := align; Segments := segments;
  SegmentImageInfoIterSize := iter; RelocsStripped := stripped; NumLoadTables := NumLoadTables c;
  LoadTablesFileOffset := LoadTablesFileOffset c; RelocTableSize := RelocTableSize c;
  LoadTables := LoadTables c; ImageSize := ImageSize c; EntryPointAddress := EntryPointAddress c;
  BaseAddress := BaseAddress c |}.
Definition set_tables (tables offset last num : Z) (c : UE_LOADER_IMAGE_CONTEXT)
    : UE_LOADER_IMAGE_CONTEXT := {|
  UnsignedFileSize := UnsignedFileSize c; Subsystem := Subsystem c; Machine := Machine c;
  FixedAddress := FixedAddress c; XIP := XIP c; LastSegmentIndex := last;
  SegmentsFileOffset := offset; SegmentAlignment := SegmentAlignment c; Segments := Segments c;
  SegmentImageInfoIterSize := SegmentImageInfoIterSize c; RelocsStripped := RelocsStripped c;
  NumLoadTables := num; LoadTablesFileOffset := LoadTablesFileOffset c;
  RelocTableSize := RelocTableSize c; LoadTables := tables; ImageSize := ImageSize c;
  EntryPointAddress := EntryPointAddress c; BaseAddress := BaseAddress c |}.
Definition set_sizes (tables_offset image : Z) (c : UE_LOADER_IMAGE_CONTEXT)
    : UE_LOADER_IMAGE_CONTEXT := {|
  UnsignedFileSize := UnsignedFileSize c; Subsystem := Subsystem c; Machine := Machine c;
  FixedAddress := FixedAddress c; XIP := XIP c; LastSegmentIndex := LastSegmentIndex c;
  SegmentsFileOffset := SegmentsFileOffset c; SegmentAlignment := SegmentAlignment c;
  Segments := Segments c; SegmentImageInfoIterSize := SegmentImageInfoIterSize c;
  RelocsStripped := RelocsStripped c; NumLoadTables := NumLoadTables c;
  LoadTablesFileOffset := tables_offset; RelocTableSize := RelocTableSize c;
  LoadTables := LoadTables c; ImageSize := image; EntryPointAddress := EntryPointAddress c;
  BaseAddress := BaseAddress c |}.
Definition set_addresses (base entry subsystem machine : Z) (c : UE_LOADER_IMAGE_CONTEXT)
    : UE_LOADER_IMAGE_CONTEXT := {|
  UnsignedFileSize := UnsignedFileSize c; Subsystem := subsystem; Machine := machine;
  FixedAddress := FixedAddress c; XIP := XIP c; LastSegmentIndex := LastSegmentIndex c;
  SegmentsFileOffset := SegmentsFileOffset c; SegmentAlignment := SegmentAlignment c;
  Segments := Segments c; SegmentImageInfoIterSize := SegmentImageInfoIterSize c;
  RelocsStripped := RelocsStripped c; NumLoadTables := NumLoadTables c;
  LoadTablesFileOffset := LoadTablesFileOffset c; RelocTableSize := RelocTableSize c;
  LoadTables := LoadTables c; ImageSize := ImageSize c; EntryPointAddress := entry;
  BaseAddress := base |}.
Definition set_RelocTableSize (v : Z) (c : UE_LOADER_IMAGE_CONTEXT) : UE_LOADER_IMAGE_CONTEXT := {|
  UnsignedFileSize := UnsignedFileSize c; Subsystem := Subsystem c; Machine := Machine c;
  FixedAddress := FixedAddress c; XIP := XIP c; LastSegmentIndex := LastSegmentIndex c;
  SegmentsFileOffset := SegmentsFileOffset c; SegmentAlignment := SegmentAlignment c;
  Segments := Segments c; SegmentImageInfoIterSize := SegmentImageInfoIterSize c;
  RelocsStripped := RelocsStripped c; NumLoadTables := NumLoadTables c;
  LoadTablesFileOffset := LoadTablesFileOffset c; RelocTableSize := v;
  LoadTables := LoadTables c; ImageSize := ImageSize c; EntryPointAddress := EntryPointAddress c;
  BaseAddress := BaseAddress c |}.

(** ** The getters of UeImageLib.c *)

Definition UeGetEntryPointAddress (c : UE_LOADER_IMAGE_CONTEXT) : Z := EntryPointAddress c.
Definition UeGetMachine (c : UE_LOADER_IMAGE_CONTEXT) : Z := Machine c.
Definition UeGetSubsystem (c : UE_LOADER_IMAGE_CONTEXT) : Z := Subsystem c.
Definition UeGetSegmentAlignment (c : UE_LOADER_IMAGE_CONTEXT) : Z := SegmentAlignment c.
Definition UeGetImageSize (c : UE_LOADER_IMAGE_CONTEXT) : Z := ImageSize c.
Definition UeGetBaseAddress (c : UE_LOADER_IMAGE_CONTEXT) : Z := BaseAddress c.
Definition UeGetRelocsStripped (c : UE_LOADER_IMAGE_CONTEXT) : bool := RelocsStripped c.
Definition UeGetFixedAddress (c : UE_LOADER_IMAGE_CONTEXT) : bool := FixedAddress c.

(** Returns the number of segments and the segment table. *)
Definition UeGetSegments (c : UE_LOADER_IMAGE_CONTEXT) : Z * Z :=
  (wrap 16 (LastSegmentIndex c + 1), Segments c).

(** ** The state of the loader *)

(** struct UE_LOADER_RUNTIME_CONTEXT_; a NULL array is the empty one. *)
Record UE_LOADER_RUNTIME_CONTEXT := {
  RtMachine : Z;
  FixupSize : Z;
  FixupData : list Z;
  UnchainedRelocsSize : Z;
  UnchainedRelocs : list Z;
}.

(** What the functions have pointers to: the context, the file, the memory
    ImageBuffer points to and its address, and the runtime context unless it is
    NULL. *)
Record ue_loader := {
  Context : UE_LOADER_IMAGE_CONTEXT;
  FileBuffer : list Z;
  ImageBuffer : list Z;
  ImageAddress : Z;
  RuntimeContext : option UE_LOADER_RUNTIME_CONTEXT;
}.

Abbreviation UeM := (M ue_loader).

Definition with_Context (c : UE_LOADER_IMAGE_CONTEXT) (s : ue_loader) : ue_loader :=
  {| Context := c; FileBuffer := FileBuffer s; ImageBuffer := ImageBuffer s;
     ImageAddress := ImageAddress s; RuntimeContext := RuntimeContext s |}.
Definition with_Image (b : list Z) (s : ue_loader) : ue_loader :=
  {| Context := Context s; FileBuffer := FileBuffer s; ImageBuffer := b;
     ImageAddress := ImageAddress s; RuntimeContext := RuntimeContext s |}.
Definition with_Destination (b : list Z) (a : Z) (s : ue_loader) : ue_loader :=
  {| Context := Context s; FileBuffer := FileBuffer s; ImageBuffer := b;
     ImageAddress := a; RuntimeContext := RuntimeContext s |}.
Definition with_Runtime (r : UE_LOADER_RUNTIME_CONTEXT) (s : ue_loader) : ue_loader :=
  {| Context := Context s; FileBuffer := FileBuffer s; ImageBuffer := ImageBuffer s;
     ImageAddress := ImageAddress s; RuntimeContext := Some r |}.

(** ReadUnaligned32, ReadUnaligned64 and writes to the image; nothing is accessed
    when [l] is empty. *)
Definition ue_read (n : nat) (off : Z) : UeM Z := s ← getS; rd n (ImageBuffer s) off.
Definition ue_write (off : Z) (l : list Z) : UeM unit :=
  s ← getS;
  if size l =? 0 then mret tt
  else
    require (in_bounds (ImageBuffer s) off (size l)) OutOfBounds;;
    modify (with_Image (write_bytes (ImageBuffer s) off l)).

Lemma with_Image_id s : with_Image (ImageBuffer s) s = s.
Proof. by destruct s. Qed.

Lemma wp_ue_read n off (Q : Z → ue_loader → Prop) E s :
  0 <= off → off + Z.of_nat n <= size (ImageBuffer s) → Q (load n (ImageBuffer s) off) s →
  wp (ue_read n off) Q E s.
Proof. intros. apply wp_bind, wp_getS. by apply wp_rd. Qed.

Lemma wp_ue_write off l (Q : unit → ue_loader → Prop) E s :
  0 <= off → off + size l <= size (ImageBuffer s) →
  Q tt (with_Image (write_bytes (ImageBuffer s) off l) s) → wp (ue_write off l) Q E s.
Proof.
  intros Hoff Hin HQ. apply wp_bind, wp_getS. destruct (Z.eqb_spec (size l) 0) as [Hl|Hl].
  - apply wp_ret. destruct l; [|unfold size in Hl; cbn in Hl; lia].
    by rewrite write_bytes_nil, with_Image_id in HQ.
  - apply wp_bind, wp_require; [|by apply wp_modify].
    apply in_bounds_spec. pose proof (size_nonneg l). lia.
Qed.
