(* ===== verification/UeSample.v ===== *)
(** Concrete UE files the theorems on the UE loader are instantiated at. *)
From S2P Require Import Prelude Base Buffer UeImage.

(** One segment with a chained 64-bit fixup, a relocation table, and a debug
    table with the symbols path [ab] and the name of the segment. *)
Definition ue_sample_header (ImageInfo : Z) : list Z :=
  le_bytes 2 UE_HEADER_MAGIC ++ [0; 2] ++ le_bytes 4 16 ++ le_bytes 8 ImageInfo.
Definition ue_sample_segments : list Z := le_bytes 4 1 ++ le_bytes 4 24.
Definition ue_sample_tables : list Z := le_bytes 4 1 ++ le_bytes 4 (2 ^ 29 + 2).
Definition ue_sample_debug : list Z :=
  [0; 2; 97; 98; 0] ++ [46; 116; 101; 120; 116; 0; 0; 0] ++ [0; 0; 0].

Definition ue_sample : list Z :=
  ue_sample_header (UE_HEADER_IMAGE_INFO_CHAINED_FIXUPS + 0x140000)
    ++ ue_sample_segments ++ ue_sample_tables
    ++ le_bytes 8 (0x140000010 * 2 ^ 16 + 0xFFF0) ++ replicate 16 1
    ++ le_bytes 4 0 ++ le_bytes 2 0xFFF1 ++ [0; 0]
    ++ ue_sample_debug.

(** The same image without chaining: the fixup holds the address itself. *)
Definition ue_sample_unchained : list Z :=
  ue_sample_header 0x140000
    ++ ue_sample_segments ++ ue_sample_tables
    ++ le_bytes 8 0x140000010 ++ replicate 16 1
    ++ le_bytes 4 0 ++ le_bytes 2 0xFFF1 ++ [0; 0]
    ++ ue_sample_debug.

(** A file of 4 KiB for execution in place whose only segment claims
    0xFFFFF000 bytes of the file. *)
Definition ue_xip_sample : list Z :=
  le_bytes 2 UE_HEADER_MAGIC ++ [0; 1] ++ le_bytes 4 0 ++ le_bytes 8 UE_HEADER_IMAGE_INFO_XIP
    ++ le_bytes 4 0xFFFFF ++ le_bytes 4 0xFFFFF000 ++ le_bytes 4 (2 ^ 29 + 512)
    ++ replicate 4068 0.

(** Checking a file by evaluation. *)
Definition bytesb (b : list Z) : bool := forallb (λ x, (0 <=? x) && (x <? 256)) b.

Lemma bytesb_spec b : bytesb b = true → bytes b.
Proof.
  unfold bytesb. intros Hb. apply List.Forall_forall. intros x Hx.
  rewrite forallb_forall in Hb. specialize (Hb x Hx).
  apply andb_true_iff in Hb as [H0 H1]. apply Z.leb_le in H0. apply Z.ltb_lt in H1. done.
Qed.

Lemma ue_sample_bytes : bytes ue_sample.
Proof. apply bytesb_spec. by vm_compute. Qed.

Lemma ue_sample_unchained_bytes : bytes ue_sample_unchained.
Proof. apply bytesb_spec. by vm_compute. Qed.
