(* ===== verification/UeInit.v ===== *)
(** UeImageLib.c, first part: verification of a UE image, before and after its
    hash.  [File] is the contents of FileBuffer and the state is the context. *)
From S2P Require Import Prelude Base Buffer Overflow UeImage UeSample.

Abbreviation UeInitM := (M UE_LOADER_IMAGE_CONTEXT).

Section UeInit.
Context `{!Platform, !OverflowLib} (File : list Z).

(** Segments[SegmentIndex].field and LoadTables[LoadTableIndex].FileInfo *)
Definition ue_segment {S} (c : UE_LOADER_IMAGE_CONTEXT) (SegmentIndex field : Z) : M S Z :=
  rd 4 File (Segments c + SegmentIndex * SIZEOF_UE_SEGMENT + field).
Definition ue_load_table {S} (c : UE_LOADER_IMAGE_CONTEXT) (LoadTableIndex : Z) : M S Z :=
  rd 4 File (LoadTables c + LoadTableIndex * SIZEOF_UE_LOAD_TABLE).

(** ** InternalVerifySegments *)

(** The body of the loop; it carries SegmentEndFileOffset and
    SegmentEndImageAddress. *)
Definition VerifySegment (c : UE_LOADER_IMAGE_CONTEXT) (SegmentIndex : Z) (acc : Z * Z)
    : UeInitM (Z * Z) :=
  let '(SegmentEndFileOffset, SegmentEndImageAddress) := acc in
  ImageInfo ← ue_segment c SegmentIndex UE_SEGMENT_ImageInfo;
  let SegmentImageSize := UE_SEGMENT_SIZE ImageInfo in
  FileSize ← ue_segment c SegmentIndex UE_SEGMENT_FileSize;
  fail_if (SegmentImageSize <? FileSize) RETURN_UNSUPPORTED;;
  fail_if (negb (IS_ALIGNED SegmentImageSize (SegmentAlignment c))) RETURN_UNSUPPORTED;;
  let '(Overflow, SegmentEndImageAddress) := ovf_add_u32 SegmentEndImageAddress SegmentImageSize in
  fail_if Overflow RETURN_UNSUPPORTED;;
  mret (wrap 32 (SegmentEndFileOffset + FileSize), SegmentEndImageAddress).

Definition InternalVerifySegments : UeInitM unit :=
  c ← getS;
  '(SegmentEndFileOffset, SegmentEndImageAddress) ←
    for_loop (Z.to_nat (LastSegmentIndex c + 1)) 0 (VerifySegment c) (SegmentsFileOffset c, 0);
  let SegmentEndFileOffset := ALIGN_VALUE 32 SegmentEndFileOffset UE_LOAD_TABLE_ALIGNMENT in
  ASSERT (SegmentsFileOffset c <=? SegmentEndFileOffset);;
  fail_if (UnsignedFileSize c <? SegmentEndFileOffset) RETURN_UNSUPPORTED;;
  modify (set_sizes SegmentEndFileOffset
    (if XIP c then wrap 32 (SegmentEndImageAddress + SegmentsFileOffset c)
     else SegmentEndImageAddress)).

(** ** InternalVerifyLoadTables *)

(** The body of the loop; it carries PrevLoadTableId and LoadTableEndFileOffset. *)
Definition VerifyLoadTable (c : UE_LOADER_IMAGE_CONTEXT) (LoadTableIndex : Z) (acc : Z * Z)
    : UeInitM (Z * Z) :=
  let '(PrevLoadTableId, LoadTableEndFileOffset) := acc in
  FileInfo ← ue_load_table c LoadTableIndex;
  let LoadTableId := UE_LOAD_TABLE_ID FileInfo in
  fail_if (LoadTableId <=? PrevLoadTableId) RETURN_UNSUPPORTED;;
  let '(Overflow, LoadTableEndFileOffset) :=
    ovf_add_u32 LoadTableEndFileOffset (UE_LOAD_TABLE_SIZE FileInfo) in
  fail_if Overflow RETURN_UNSUPPORTED;;
  mret (LoadTableId, LoadTableEndFileOffset).

Definition InternalVerifyLoadTables : UeInitM unit :=
  modify (set_RelocTableSize 0);;
  c ← getS;
  '(_, LoadTableEndFileOffset) ←
    for_loop (Z.to_nat (NumLoadTables c)) 0 (VerifyLoadTable c) (-1, LoadTablesFileOffset c);
  (if 0 <? NumLoadTables c then
     FileInfo ← ue_load_table c 0;
     if UE_LOAD_TABLE_ID FileInfo =? UeLoadTableIdReloc then
       fail_if (RelocsStripped c) RETURN_UNSUPPORTED;;
       modify (set_RelocTableSize (UE_LOAD_TABLE_SIZE FileInfo))
     else mret tt
   else mret tt);;
  fail_if (negb (LoadTableEndFileOffset =? UnsignedFileSize c)) RETURN_UNSUPPORTED.

(** ** UeInitializeContextPreHash, UeInitializeContextPostHash *)

Definition UeInitializeContextPreHash (FileSize : Z) : UeInitM unit :=
  fail_if (FileSize <? MIN_SIZE_OF_UE_HEADER) RETURN_UNSUPPORTED;;
  Magic ← rd 2 File UE_HEADER_Magic;
  fail_if (negb (Magic =? UE_HEADER_MAGIC)) RETURN_UNSUPPORTED;;
  modify (λ _, ue_context FileSize).

Definition InternalInitializeContextLate : UeInitM unit :=
  c ← getS;
  fail_if (ImageSize c <? EntryPointAddress c) RETURN_UNSUPPORTED;;
  InternalVerifyLoadTables.

(** The flags and the segment table of the header. *)
Definition PostHash_Info (ImageInfo : Z) : UeInitM unit :=
  modify (set_info
    (negb (Z.land ImageInfo UE_HEADER_IMAGE_INFO_FIXED_ADDRESS =? 0))
    (negb (Z.land ImageInfo UE_HEADER_IMAGE_INFO_RELOCATION_FIXUPS_STRIPPED =? 0))
    (negb (Z.land ImageInfo UE_HEADER_IMAGE_INFO_XIP =? 0))
    UE_HEADER_Segments SIZEOF_UE_SEGMENT (UE_HEADER_SEGMENT_ALIGNMENT ImageInfo)).

(** The load tables and the size of the header. *)
Definition PostHash_Tables (TableCounts : Z) : UeInitM unit :=
  c ← getS;
  let LastSegmentIndex_ := UE_HEADER_LAST_SEGMENT_INDEX TableCounts in
  let NumLoadTables_ := UE_HEADER_NUM_LOAD_TABLES TableCounts in
  let LoadTablesFileOffset_ :=
    wrap 32 (MIN_SIZE_OF_UE_HEADER + LastSegmentIndex_ * SIZEOF_UE_SEGMENT) in
  let HeaderSize := wrap 32 (LoadTablesFileOffset_ + NumLoadTables_ * SIZEOF_UE_LOAD_TABLE) in
  ASSERT (HeaderSize <=? MAX_SIZE_OF_UE_HEADER);;
  let HeaderSize := if XIP c then ALIGN_VALUE 32 HeaderSize (SegmentAlignment c) else HeaderSize in
  fail_if (UnsignedFileSize c <? HeaderSize) RETURN_UNSUPPORTED;;
  ASSERT (IS_ALIGNED LoadTablesFileOffset_ ALIGNOF_UE_LOAD_TABLE);;
  modify (set_tables LoadTablesFileOffset_ HeaderSize LastSegmentIndex_ NumLoadTables_).

Definition UeInitializeContextPostHash : UeInitM unit :=
  ImageInfo ← rd 8 File UE_HEADER_ImageInfo;
  PostHash_Info ImageInfo;;
  TableCounts ← rd 1 File UE_HEADER_TableCounts;
  PostHash_Tables TableCounts;;
  let BaseAddress_ := UE_HEADER_BASE_ADDRESS ImageInfo in
  c ← getS;
  fail_if (negb (IS_ALIGNED BaseAddress_ (SegmentAlignment c))) RETURN_UNSUPPORTED;;
  InternalVerifySegments;;
  EntryPointAddress_ ← rd 4 File UE_HEADER_EntryPointAddress;
  Type_ ← rd 1 File UE_HEADER_Type;
  modify (set_addresses BaseAddress_ EntryPointAddress_
    (UE_HEADER_SUBSYSTEM Type_) (UE_HEADER_ARCH Type_));;
  InternalInitializeContextLate.

(** ** UeHashImageDefault *)

Definition UeHashImageDefault {HashContext : Type}
    (HashUpdate : HashContext → list Z → bool * HashContext)
    (c : UE_LOADER_IMAGE_CONTEXT) : M HashContext bool :=
  require (in_bounds File 0 (UnsignedFileSize c)) OutOfBounds;;
  h ← getS;
  let '(Result, h') := HashUpdate h (slice File 0 (UnsignedFileSize c)) in
  modify (λ _, h');;
  mret Result.
End UeInit.

(** ** What a verified UE image satisfies *)

(** The sum of [f 0], ..., [f (n - 1)]. *)
Fixpoint sum_below (f : Z → Z) (n : nat) : Z :=
  match n with
  | O => 0
  | S k => sum_below f k + f (Z.of_nat k)
  end.

Section UeSpec.
Context (File : list Z).

Definition seg_size (i : Z) : Z :=
  UE_SEGMENT_SIZE (load 4 File (UE_HEADER_Segments + i * SIZEOF_UE_SEGMENT + UE_SEGMENT_ImageInfo)).
Definition seg_file (i : Z) : Z :=
  load 4 File (UE_HEADER_Segments + i * SIZEOF_UE_SEGMENT + UE_SEGMENT_FileSize).

(** Where segment [i] starts in the image and in the file. *)
Definition seg_address (i : Z) : Z := sum_below seg_size (Z.to_nat i).
Definition seg_offset (c : UE_LOADER_IMAGE_CONTEXT) (i : Z) : Z :=
  SegmentsFileOffset c + sum_below seg_file (Z.to_nat i).

(** The load tables, and where they start in the file. *)
Definition table_info (c : UE_LOADER_IMAGE_CONTEXT) (i : Z) : Z :=
  load 4 File (LoadTables c + i * SIZEOF_UE_LOAD_TABLE).
Definition table_size (c : UE_LOADER_IMAGE_CONTEXT) (i : Z) : Z := UE_LOAD_TABLE_SIZE (table_info c i).
Definition table_id (c : UE_LOADER_IMAGE_CONTEXT) (i : Z) : Z := UE_LOAD_TABLE_ID (table_info c i).
Definition table_offset (c : UE_LOADER_IMAGE_CONTEXT) (i : Z) : Z :=
  LoadTablesFileOffset c + sum_below (table_size c) (Z.to_nat i).

Definition num_segments (c : UE_LOADER_IMAGE_CONTEXT) : Z := LastSegmentIndex c + 1.

(** The header is in the file, and the context holds its fields. *)
Record UeHeaderOk (c : UE_LOADER_IMAGE_CONTEXT) : Prop := {
  ueh_magic : load 2 File UE_HEADER_Magic = UE_HEADER_MAGIC;
  ueh_size : UnsignedFileSize c = size File;
  ueh_last : LastSegmentIndex c = UE_HEADER_LAST_SEGMENT_INDEX (load 1 File UE_HEADER_TableCounts);
  ueh_num : NumLoadTables c = UE_HEADER_NUM_LOAD_TABLES (load 1 File UE_HEADER_TableCounts);
  ueh_align : SegmentAlignment c = UE_HEADER_SEGMENT_ALIGNMENT (load 8 File UE_HEADER_ImageInfo);
  ueh_stripped : RelocsStripped c = negb (bit_clear (load 8 File UE_HEADER_ImageInfo)
                                            UE_HEADER_IMAGE_INFO_RELOCATION_FIXUPS_STRIPPED);
  ueh_xip : XIP c = false;
  ueh_segments : Segments c = UE_HEADER_Segments;
  ueh_iter : SegmentImageInfoIterSize c = SIZEOF_UE_SEGMENT;
  ueh_tables : LoadTables c = MIN_SIZE_OF_UE_HEADER + LastSegmentIndex c * SIZEOF_UE_SEGMENT;
  ueh_offset : SegmentsFileOffset c = LoadTables c + NumLoadTables c * SIZEOF_UE_LOAD_TABLE;
  ueh_in_file : SegmentsFileOffset c <= size File;
}.

(** The segments are aligned, contiguous in the image and in the file, and the
    load tables follow them. *)
Record UeSegmentsOk (c : UE_LOADER_IMAGE_CONTEXT) : Prop := {
  ues_file i : 0 <= i < num_segments c → seg_file i <= seg_size i;
  ues_aligned i : 0 <= i < num_segments c → (SegmentAlignment c | seg_size i);
  ues_image : ImageSize c = seg_address (num_segments c);
  ues_image_u32 : u32 (ImageSize c);
  ues_tables : LoadTablesFileOffset c
                 = align_up (seg_offset c (num_segments c)) UE_LOAD_TABLE_ALIGNMENT;
  ues_in_file : SegmentsFileOffset c <= LoadTablesFileOffset c <= size File;
}.

(** The first load table is the relocation table. *)
Definition has_relocs (c : UE_LOADER_IMAGE_CONTEXT) : bool :=
  (0 <? NumLoadTables c) && (table_id c 0 =? UeLoadTableIdReloc).

(** The load tables are ordered and fill the rest of the file; an image without
    relocations has no relocation table. *)
Record UeTablesOk (c : UE_LOADER_IMAGE_CONTEXT) : Prop := {
  uet_order i j : 0 <= i < j → j < NumLoadTables c → table_id c i < table_id c j;
  uet_end : table_offset c (NumLoadTables c) = size File;
  uet_reloc : RelocTableSize c = if has_relocs c then table_size c 0 else 0;
  uet_stripped : RelocsStripped c = true → has_relocs c = false;
}.

(** [c] is the context of a well-formed image file. *)
Record UeOk (c : UE_LOADER_IMAGE_CONTEXT) : Prop := {
  ue_header_ok : UeHeaderOk c;
  ue_segments_ok : UeSegmentsOk c;
  ue_tables_ok : UeTablesOk c;
  ue_base : BaseAddress c = UE_HEADER_BASE_ADDRESS (load 8 File UE_HEADER_ImageInfo);
  ue_base_aligned : (SegmentAlignment c | BaseAddress c);
  ue_entry : EntryPointAddress c = load 4 File UE_HEADER_EntryPointAddress;
  ue_entry_in_image : EntryPointAddress c <= ImageSize c;
}.

(** ** Packed fields *)

Lemma UE_SEGMENT_SIZE_spec x : u32 (UE_SEGMENT_SIZE x) ∧ (2 ^ 12 | UE_SEGMENT_SIZE x).
Proof.
  split; [by apply wrap_range|]. unfold UE_SEGMENT_SIZE, wrap. rewrite Z.shiftl_mul_pow2 by done.
  change (2 ^ 32) with (2 ^ 20 * 2 ^ 12). rewrite Zmult_mod_distr_r. apply Z.divide_factor_r.
Qed.

Lemma UE_LOAD_TABLE_SIZE_spec x : u32 (UE_LOAD_TABLE_SIZE x) ∧ (2 ^ 3 | UE_LOAD_TABLE_SIZE x).
Proof.
  split; [by apply wrap_range|]. unfold UE_LOAD_TABLE_SIZE, wrap. rewrite Z.shiftl_mul_pow2 by done.
  change (2 ^ 32) with (2 ^ 29 * 2 ^ 3). rewrite Zmult_mod_distr_r. apply Z.divide_factor_r.
Qed.

Lemma sum_below_nonneg f n : (∀ i, 0 <= f i) → 0 <= sum_below f n.
Proof. intros Hf. induction n as [|n IH]; cbn; [done|]. specialize (Hf (Z.of_nat n)). lia. Qed.

Lemma sum_below_le f g n : (∀ i, 0 <= i < Z.of_nat n → f i <= g i) → sum_below f n <= sum_below g n.
Proof.
  induction n as [|n IH]; intros Hfg; cbn; [done|].
  specialize (IH ltac:(intros; apply Hfg; lia)). specialize (Hfg (Z.of_nat n) ltac:(lia)). lia.
Qed.

Lemma sum_below_divide d f n : (∀ i, 0 <= i < Z.of_nat n → (d | f i)) → (d | sum_below f n).
Proof.
  induction n as [|n IH]; intros Hf; cbn; [apply Z.divide_0_r|].
  apply Z.divide_add_r; [apply IH; intros; apply Hf; lia|apply Hf; lia].
Qed.

Lemma sum_below_mono f n m : (∀ i, 0 <= f i) → (n <= m)%nat → sum_below f n <= sum_below f m.
Proof.
  intros Hf Hnm. induction Hnm as [|m _ IH]; [done|]. cbn. specialize (Hf (Z.of_nat m)). lia.
Qed.

Lemma sum_below_succ f i : 0 <= i → sum_below f (Z.to_nat (i + 1)) = sum_below f (Z.to_nat i) + f i.
Proof.
  intros Hi. replace (Z.to_nat (i + 1)) with (S (Z.to_nat i)) by lia. cbn.
  by rewrite Z2Nat.id by done.
Qed.
End UeSpec.

(** ** Proofs *)

Lemma UE_HEADER_SEGMENT_ALIGNMENT_spec x :
  u64 x → let a := UE_HEADER_SEGMENT_ALIGNMENT x in IS_POW2 a = true ∧ 2 ^ 12 <= a <= 2 ^ 27.
Proof.
  intros [Hx0 Hx1]. unfold UE_HEADER_SEGMENT_ALIGNMENT, RShiftU64. cbv zeta.
  assert (0 <= Z.shiftr x 60 < 16) as He.
  { rewrite Z.shiftr_div_pow2 by done. split; [by apply Z.div_pos|].
    apply Z.div_lt_upper_bound; lia. }
  rewrite (wrap_small 8) by (unfold is_uint; lia).
  rewrite Z.shiftl_mul_pow2, Z.mul_1_l by lia.
  assert (2 ^ (Z.shiftr x 60 + 12) <= 2 ^ 27) by (apply Z.pow_le_mono_r; lia).
  assert (2 ^ 12 <= 2 ^ (Z.shiftr x 60 + 12)) by (apply Z.pow_le_mono_r; lia).
  rewrite wrap_small by (unfold is_uint; lia). split; [|lia].
  apply IS_POW2_spec; [lia|]. exists (Z.shiftr x 60 + 12). lia.
Qed.

(** A multiple of 4 KiB that fits 32 bits leaves room for a header. *)
Lemma page_multiple_bound x : u32 x → (2 ^ 12 | x) → x <= 2 ^ 32 - 2 ^ 12.
Proof. intros [Hx0 Hx1] [q ->]. lia. Qed.

(** A check of the code that returns RETURN_UNSUPPORTED. *)
Ltac wp_check Hname := apply wp_bind, wp_fail_if; [intros Hname|intros Hname].

Lemma UE_HEADER_counts_spec x :
  u8 x → 0 <= UE_HEADER_LAST_SEGMENT_INDEX x < 32 ∧ 0 <= UE_HEADER_NUM_LOAD_TABLES x <= 7.
Proof.
  intros [Hx0 Hx1]. unfold UE_HEADER_LAST_SEGMENT_INDEX, UE_HEADER_NUM_LOAD_TABLES.
  assert (Z.land x 7 = x mod 2 ^ 3) as -> by by apply (land_mask x 3).
  rewrite Z.shiftr_div_pow2 by done.
  pose proof (Z.mod_pos_bound x (2 ^ 3) eq_refl). split; [|lia]. split; [by apply Z.div_pos|].
  apply Z.div_lt_upper_bound; lia.
Qed.

Section UeInitProofs.
Context `{!Platform, !OverflowLib} (File : list Z) (Hbytes : bytes File) (Hsize : u32 (size File)).

(** *** Facts on the segments and tables of a file *)

Lemma seg_size_spec i : u32 (seg_size File i) ∧ (2 ^ 12 | seg_size File i).
Proof. apply UE_SEGMENT_SIZE_spec. Qed.

Lemma seg_file_range i : u32 (seg_file File i).
Proof. by apply load_u32. Qed.

Lemma table_size_spec c i : u32 (table_size File c i) ∧ (2 ^ 3 | table_size File c i).
Proof. apply UE_LOAD_TABLE_SIZE_spec. Qed.

Lemma table_id_range c i : u8 (table_id File c i).
Proof. by apply wrap_range. Qed.

Lemma seg_address_page i : (2 ^ 12 | seg_address File i).
Proof. apply sum_below_divide. intros. apply seg_size_spec. Qed.

Lemma seg_address_mono i j : 0 <= i <= j → 0 <= seg_address File i <= seg_address File j.
Proof.
  intros. unfold seg_address. split; [apply sum_below_nonneg|apply sum_below_mono; [|lia]];
    intros; apply seg_size_spec.
Qed.

Lemma table_offset_mono c i j :
  0 <= i <= j → LoadTablesFileOffset c <= table_offset File c i <= table_offset File c j.
Proof.
  intros. unfold table_offset.
  assert (∀ k, 0 <= table_size File c k) as Hn by (intros; apply table_size_spec).
  pose proof (sum_below_nonneg _ (Z.to_nat i) Hn).
  pose proof (sum_below_mono _ (Z.to_nat i) (Z.to_nat j) Hn). lia.
Qed.

Lemma seg_address_succ i :
  0 <= i → seg_address File (i + 1) = seg_address File i + seg_size File i.
Proof. intros. unfold seg_address. by rewrite sum_below_succ. Qed.

Lemma seg_offset_succ c i :
  0 <= i → seg_offset File c (i + 1) = seg_offset File c i + seg_file File i.
Proof. intros. unfold seg_offset. rewrite sum_below_succ by done. lia. Qed.

Lemma table_offset_succ c i :
  0 <= i → table_offset File c (i + 1) = table_offset File c i + table_size File c i.
Proof. intros. unfold table_offset. rewrite sum_below_succ by done. lia. Qed.

(** Segment data takes no more space in the file than in the image. *)
Lemma seg_offset_bound c n :
  (∀ i, 0 <= i < n → seg_file File i <= seg_size File i) →
  SegmentsFileOffset c <= seg_offset File c n <= SegmentsFileOffset c + seg_address File n.
Proof.
  intros Hle. unfold seg_offset, seg_address. split.
  - assert (0 <= sum_below (seg_file File) (Z.to_nat n)); [|lia].
    apply sum_below_nonneg. intros. apply seg_file_range.
  - assert (sum_below (seg_file File) (Z.to_nat n) <= sum_below (seg_size File) (Z.to_nat n)); [|lia].
    apply sum_below_le. intros. apply Hle. lia.
Qed.

(** The bounds that hold of every header. *)
Lemma UeHeaderOk_bounds c : UeHeaderOk File c →
  1 <= num_segments c <= 32 ∧ 0 <= NumLoadTables c <= 7 ∧ 24 <= SegmentsFileOffset c <= 300 ∧
  IS_POW2 (SegmentAlignment c) = true ∧ 2 ^ 12 <= SegmentAlignment c <= 2 ^ 27.
Proof.
  intros []. unfold num_segments.
  destruct (UE_HEADER_counts_spec _ (load_range 1 File UE_HEADER_TableCounts Hbytes)) as [Hl Hn].
  rewrite <- ueh_last0 in Hl. rewrite <- ueh_num0 in Hn.
  rewrite ueh_align0. autounfold with ue_layout in *. split_and!; try lia;
    apply UE_HEADER_SEGMENT_ALIGNMENT_spec; by apply load_u64.
Qed.

(** The file determines the layout: two contexts of it agree. *)
Record same_layout (c c' : UE_LOADER_IMAGE_CONTEXT) : Prop := {
  sl_last : LastSegmentIndex c' = LastSegmentIndex c;
  sl_num : NumLoadTables c' = NumLoadTables c;
  sl_tables : LoadTables c' = LoadTables c;
  sl_offset : SegmentsFileOffset c' = SegmentsFileOffset c;
  sl_align : SegmentAlignment c' = SegmentAlignment c;
  sl_stripped : RelocsStripped c' = RelocsStripped c;
}.

Lemma UeHeaderOk_same_layout c c' : UeHeaderOk File c → UeHeaderOk File c' → same_layout c c'.
Proof. intros [] []. split; congruence. Qed.

(** The file is not well-formed. *)
Definition malformed (e : RETURN_STATUS) (s : UE_LOADER_IMAGE_CONTEXT) : Prop :=
  e = RETURN_UNSUPPORTED ∧ ¬ ∃ c, UeOk File c.

(** To reject a file with a verified header, refute any context of it. *)
Lemma malformed_intro c s :
  UeHeaderOk File c → (∀ c', UeOk File c' → same_layout c c' → False) →
  malformed RETURN_UNSUPPORTED s.
Proof.
  intros Hh Hno. split; [done|]. intros [c' Hc']. apply (Hno c' Hc').
  apply UeHeaderOk_same_layout; [done|apply Hc'].
Qed.

(** *** InternalVerifySegments *)

(** One round of the segment loop. *)
Lemma VerifySegment_spec c s i :
  UeHeaderOk File c → 0 <= i < num_segments c →
  (∀ j, 0 <= j < i → seg_file File j <= seg_size File j) → u32 (seg_address File i) →
  wp (VerifySegment File c i (seg_offset File c i, seg_address File i))
    (λ acc s', s' = s ∧ acc = (seg_offset File c (i + 1), seg_address File (i + 1))
      ∧ seg_file File i <= seg_size File i ∧ (SegmentAlignment c | seg_size File i)
      ∧ u32 (seg_address File (i + 1))) malformed s.
Proof.
  intros Hh Hi Hprev Haddr. pose proof (UeHeaderOk_bounds _ Hh) as (? & ? & ? & Hpow & ?).
  pose proof (malformed_intro c s Hh) as Hbad.
  assert (∀ c', same_layout c c' → 0 <= i < num_segments c') as Hi'
    by (intros c' []; unfold num_segments in *; lia).
  pose proof (proj1 (seg_size_spec i)) as Hsz. pose proof (seg_file_range i) as Hfs.
  unfold VerifySegment, ue_segment. destruct Hh. rewrite ueh_segments0.
  unfold num_segments in Hi.
  wp_step. wp_step; [autounfold with ue_layout in *; lia..|].
  wp_step. wp_step; [autounfold with ue_layout in *; lia..|].
  fold (seg_file File i) (seg_size File i).
  wp_check Hfile.
  { apply Hbad. intros c' Hc' Hl. apply Z.ltb_lt in Hfile.
    pose proof (ues_file _ _ (ue_segments_ok _ _ Hc') i (Hi' _ Hl)). lia. }
  wp_check Halign.
  { apply Hbad. intros c' Hc' Hl. rewrite <- (sl_align _ _ Hl) in *.
    pose proof (ues_aligned _ _ (ue_segments_ok _ _ Hc') i (Hi' _ Hl)) as Ha.
    apply IS_ALIGNED_spec in Ha; [|lia|done]. by rewrite Ha in Halign. }
  rewrite ovf_add_u32_spec by done. rewrite <- seg_address_succ by lia.
  wp_check Hfits.
  { apply Hbad. intros c' Hc' Hl. pose proof (ue_segments_ok _ _ Hc') as Hs.
    pose proof (ues_image_u32 _ _ Hs) as Hu. rewrite (ues_image _ _ Hs) in Hu.
    pose proof (seg_address_mono (i + 1) (num_segments c') ltac:(specialize (Hi' _ Hl); lia)).
    assert (u32 (seg_address File (i + 1))) as Hok%fits_u_spec by (unfold is_uint in *; lia).
    by rewrite Hok in Hfits. }
  wp_step. rewrite seg_offset_succ by lia.
  apply Z.ltb_ge in Hfile. apply negb_false_iff, fits_u_spec in Hfits.
  apply negb_false_iff, IS_ALIGNED_spec in Halign; [|lia|done].
  pose proof (seg_offset_bound c i Hprev) as Hb.
  pose proof (page_multiple_bound _ Hfits (seg_address_page _)) as Hp.
  rewrite seg_address_succ in * by lia.
  rewrite !wrap_small by (unfold is_uint in *; lia). done.
Qed.

Lemma UeHeaderOk_set_sizes c o m : UeHeaderOk File c → UeHeaderOk File (set_sizes o m c).
Proof. by intros []. Qed.

Lemma InternalVerifySegments_spec c :
  UeHeaderOk File c →
  wp (InternalVerifySegments File)
    (λ _ c', (∃ o m, c' = set_sizes o m c) ∧ UeHeaderOk File c' ∧ UeSegmentsOk File c')
    malformed c.
Proof.
  intros Hh. pose proof (UeHeaderOk_bounds _ Hh) as (Hn & _ & Hoff & _).
  unfold InternalVerifySegments. wp_step. wp_step. wp_step. fold (num_segments c).
  eapply wp_mono; [apply (wp_for_loop (λ i acc s', s' = c ∧
    acc = (seg_offset File c i, seg_address File i) ∧ u32 (seg_address File i) ∧
    (∀ j, 0 <= j < i → seg_file File j <= seg_size File j ∧ (SegmentAlignment c | seg_size File j)))
    malformed)| |done].
  - split_and!; [done| |by compute|lia]. unfold seg_offset, seg_address. cbn. by rewrite Z.add_0_r.
  - intros i acc s' Hi (-> & -> & Haddr & Hprev).
    eapply wp_mono; [apply (VerifySegment_spec c c i)| |done]; try done; [lia|by apply Hprev|].
    intros acc' s' (-> & -> & ? & ? & ?). split_and!; try done.
    intros j Hj. destruct (decide (j = i)) as [->|]; [done|]. apply Hprev. lia.
  - intros acc s' (-> & -> & Haddr & Hprev). rewrite Z.add_0_l, Z2Nat.id in * by lia.
    pose proof (seg_offset_bound c (num_segments c) ltac:(intros; by apply Hprev)) as Hb.
    pose proof (page_multiple_bound _ Haddr (seg_address_page _)) as Hp.
    pose proof (align_up_ge (seg_offset File c (num_segments c)) UE_LOAD_TABLE_ALIGNMENT eq_refl) as Hge.
    assert (ALIGN_VALUE 32 (seg_offset File c (num_segments c)) UE_LOAD_TABLE_ALIGNMENT
      = align_up (seg_offset File c (num_segments c)) UE_LOAD_TABLE_ALIGNMENT) as ->
      by (unfold UE_LOAD_TABLE_ALIGNMENT in *; apply ALIGN_VALUE_spec; unfold is_uint in *; done || lia).
    wp_step. apply wp_ASSERT; [apply Z.leb_le; lia|]. rewrite (ueh_size _ _ Hh).
    wp_check Hfile; [|apply Z.ltb_ge in Hfile].
    { apply (malformed_intro c); [done|]. intros c' Hc' Hl. apply Z.ltb_lt in Hfile.
      pose proof (ue_segments_ok _ _ Hc') as Hs. pose proof (ues_in_file _ _ Hs) as Hin.
      rewrite (ues_tables _ _ Hs) in Hin. unfold num_segments, seg_offset in *.
      destruct Hl. rewrite sl_last0, sl_offset0 in Hin. lia. }
    wp_step. assert (XIP c = false) as -> by apply Hh.
    split; [by eauto|]. split; [by apply UeHeaderOk_set_sizes|].
    split; cbn; intros; done || lia || by apply Hprev.
Qed.

(** *** InternalVerifyLoadTables *)

Lemma wp_ue_load_table {S} c i (Q : Z → S → Prop) E s :
  UeHeaderOk File c → 0 <= i < NumLoadTables c → Q (table_info File c i) s →
  wp (ue_load_table File c i) Q E s.
Proof.
  intros Hh Hi HQ. pose proof (UeHeaderOk_bounds _ Hh) as (Hn & _ & _). unfold num_segments in Hn.
  destruct Hh. apply wp_rd; [..|done]; autounfold with ue_layout in *; lia.
Qed.

(** Load tables of two contexts of the file. *)
Lemma same_tables c c' i :
  same_layout c c' → table_id File c' i = table_id File c i ∧ table_size File c' i = table_size File c i.
Proof. intros []. unfold table_id, table_size, table_info. by rewrite sl_tables0. Qed.

Lemma same_table_offset c c' i :
  UeSegmentsOk File c → UeSegmentsOk File c' → same_layout c c' →
  table_offset File c' i = table_offset File c i.
Proof.
  intros Hs Hs' Hl. unfold table_offset. rewrite (ues_tables _ _ Hs), (ues_tables _ _ Hs').
  unfold num_segments, seg_offset, table_size, table_info. destruct Hl.
  by rewrite sl_last0, sl_offset0, sl_tables0.
Qed.

(** What the load table loop has established before round [i]; it carries the
    previous identifier and the end of the previous table. *)
Definition tables_inv (c : UE_LOADER_IMAGE_CONTEXT) (i : Z) (acc : Z * Z) : Prop :=
  acc = (if i =? 0 then -1 else table_id File c (i - 1), table_offset File c i) ∧
  u32 (table_offset File c i) ∧
  (∀ j k, 0 <= j < k → k < i → table_id File c j < table_id File c k).

Lemma tables_inv_0 c : u32 (LoadTablesFileOffset c) → tables_inv c 0 (-1, LoadTablesFileOffset c).
Proof.
  intros. assert (table_offset File c 0 = LoadTablesFileOffset c) as Ho by apply Z.add_0_r.
  unfold tables_inv. rewrite Ho. split_and!; done || (intros; lia).
Qed.

Lemma VerifyLoadTable_spec c s i acc :
  UeHeaderOk File c → UeSegmentsOk File c → 0 <= i < NumLoadTables c → tables_inv c i acc →
  wp (VerifyLoadTable File c i acc) (λ acc' s', s' = s ∧ tables_inv c (i + 1) acc') malformed s.
Proof.
  intros Hh Hs Hi (-> & Hu & Hord). pose proof (malformed_intro c s Hh) as Hbad.
  unfold VerifyLoadTable. wp_step. apply wp_ue_load_table; [done..|].
  fold (table_id File c i) (table_size File c i).
  pose proof (table_id_range c i) as [Hid0 _].
  wp_check Hid; [|apply Z.leb_gt in Hid].
  { apply Hbad. intros c' Hc' Hl. apply Z.leb_le in Hid.
    destruct (Z.eqb_spec i 0) as [->|Hi0]; [lia|].
    pose proof (uet_order _ _ (ue_tables_ok _ _ Hc') (i - 1) i ltac:(lia)) as Hlt.
    rewrite (proj1 (same_tables c c' (i - 1) Hl)), (proj1 (same_tables c c' i Hl)) in Hlt.
    rewrite (sl_num _ _ Hl) in Hlt. lia. }
  rewrite ovf_add_u32_spec by (done || apply table_size_spec). rewrite <- table_offset_succ by lia.
  wp_check Hfits; [|apply negb_false_iff, fits_u_spec in Hfits].
  { apply Hbad. intros c' Hc' Hl. pose proof (uet_end _ _ (ue_tables_ok _ _ Hc')) as He.
    rewrite (same_table_offset c c'), (sl_num _ _ Hl) in He by (done || apply Hc').
    pose proof (table_offset_mono c (i + 1) (NumLoadTables c) ltac:(lia)).
    pose proof (ues_in_file _ _ Hs). pose proof (UeHeaderOk_bounds _ Hh) as (_ & _ & ? & _).
    assert (u32 (table_offset File c (i + 1))) as Hok%fits_u_spec by (unfold is_uint in *; lia).
    by rewrite Hok in Hfits. }
  wp_step. split; [done|]. unfold tables_inv. split_and!; [|done|].
  - destruct (Z.eqb_spec (i + 1) 0); [lia|]. rewrite wrap_small by done. do 2 f_equal. lia.
  - intros j k Hj Hk. destruct (decide (k = i)) as [->|]; [|apply Hord; lia].
    destruct (Z.eqb_spec i 0); [lia|].
    destruct (decide (j = i - 1)) as [->|]; [lia|]. specialize (Hord j (i - 1)). lia.
Qed.

Lemma InternalVerifyLoadTables_spec c :
  UeHeaderOk File c → UeSegmentsOk File c →
  wp (InternalVerifyLoadTables File)
    (λ _ c', (∃ v, c' = set_RelocTableSize v c) ∧ UeTablesOk File c') malformed c.
Proof.
  intros Hh Hs. unfold InternalVerifyLoadTables. do 3 wp_step. wp_step.
  set (c0 := set_RelocTableSize 0 c).
  assert (UeHeaderOk File c0) as Hh0 by (by destruct Hh).
  assert (UeSegmentsOk File c0) as Hs0 by (by destruct Hs).
  pose proof (malformed_intro c0 c0 Hh0) as Hbad.
  pose proof (UeHeaderOk_bounds _ Hh0) as (_ & Hnum & Hoff & _).
  wp_step. eapply wp_mono;
    [apply (wp_for_loop (λ i acc s', s' = c0 ∧ tables_inv c0 i acc) malformed)| |done].
  { split; [done|]. apply tables_inv_0. pose proof (ues_in_file _ _ Hs0). unfold is_uint in *. lia. }
  { intros i acc s' Hi [-> Hinv]. apply VerifyLoadTable_spec; done || lia. }
  intros acc s' [-> (-> & _ & Hord)]. rewrite Z.add_0_l, Z2Nat.id in * by lia.
  set (v := if has_relocs File c0 then table_size File c0 0 else 0).
  wp_step. apply (wp_mono _ (λ _ s', s' = set_RelocTableSize v c
    ∧ (RelocsStripped c = true → has_relocs File c = false)) _ malformed); [| |done].
  - change (has_relocs File c) with (has_relocs File c0). unfold v.
    assert (∀ c', same_layout c0 c' → has_relocs File c' = has_relocs File c0) as Hhas.
    { intros c' Hl. unfold has_relocs. by rewrite (sl_num _ _ Hl), (proj1 (same_tables c0 c' 0 Hl)). }
    unfold has_relocs at 1 2. unfold has_relocs in Hhas at 2.
    destruct (Z.ltb_spec 0 (NumLoadTables c0)); [|by apply wp_ret].
    wp_step. apply wp_ue_load_table; [done|lia|]. fold (table_id File c0 0) (table_size File c0 0).
    destruct (table_id File c0 0 =? UeLoadTableIdReloc); cbn [andb] in *; [|by apply wp_ret].
    wp_check Hstr.
    { apply Hbad. intros c' Hc' Hl. rewrite <- (sl_stripped _ _ Hl) in Hstr.
      apply (uet_stripped _ _ (ue_tables_ok _ _ Hc')) in Hstr. by rewrite Hhas in Hstr. }
    wp_step. change (RelocsStripped c = false) in Hstr. by rewrite Hstr.
  - intros [] s' [-> Hv]. apply wp_fail_if; intros Heq.
    + apply (malformed_intro c0); [done|]. intros c' Hc' Hl.
      pose proof (uet_end _ _ (ue_tables_ok _ _ Hc')) as He.
      rewrite (same_table_offset c0 c'), (sl_num _ _ Hl) in He by (done || apply Hc').
      rewrite He, (ueh_size _ _ Hh0), Z.eqb_refl in Heq. done.
    + apply negb_false_iff, Z.eqb_eq in Heq. rewrite (ueh_size _ _ Hh0) in Heq.
      split; [by eauto|]. split; [exact Hord|exact Heq|done|exact Hv].
Qed.

(** *** UeInitializeContextPreHash and UeInitializeContextPostHash *)

(** The header part of UeInitializeContextPostHash. *)
Lemma PostHash_header_spec c0 :
  let ImageInfo := load 8 File UE_HEADER_ImageInfo in
  let TableCounts := load 1 File UE_HEADER_TableCounts in
  UnsignedFileSize c0 = size File → load 2 File UE_HEADER_Magic = UE_HEADER_MAGIC →
  bit_clear ImageInfo UE_HEADER_IMAGE_INFO_XIP = true →
  wp (PostHash_Info ImageInfo;; PostHash_Tables TableCounts)
    (λ _ c, UeHeaderOk File c) malformed c0.
Proof.
  intros ImageInfo TableCounts Hsz Hmagic Hxip.
  destruct (UE_HEADER_counts_spec _ (load_range 1 File UE_HEADER_TableCounts Hbytes)) as [Hl Hn].
  unfold PostHash_Info, PostHash_Tables. do 3 wp_step. wp_step.
  cbn [XIP UnsignedFileSize SegmentAlignment set_info].
  unfold bit_clear in Hxip. rewrite Hxip. cbn [negb]. fold TableCounts in Hl, Hn.
  rewrite !wrap_small by (autounfold with ue_layout; unfold is_uint; lia).
  wp_step. apply wp_ASSERT; [apply Z.leb_le; autounfold with ue_layout; lia|].
  wp_check Hfile; [|apply Z.ltb_ge in Hfile].
  { split; [done|]. intros [c' [[] _ _ _ _ _ _]]. apply Z.ltb_lt in Hfile.
    rewrite ueh_offset0, ueh_tables0, ueh_last0, ueh_num0 in ueh_in_file0.
    fold TableCounts in ueh_in_file0. lia. }
  wp_step. apply wp_ASSERT.
  { apply IS_ALIGNED_spec; [done..|]. autounfold with ue_layout.
    exists (6 + UE_HEADER_LAST_SEGMENT_INDEX TableCounts * 2). lia. }
  wp_step. rewrite Hsz in Hfile.
  split; cbn; rewrite ?Hxip; done || lia.
Qed.

Lemma UeInitializeContextPostHash_spec c0 :
  UnsignedFileSize c0 = size File → load 2 File UE_HEADER_Magic = UE_HEADER_MAGIC →
  MIN_SIZE_OF_UE_HEADER <= size File →
  bit_clear (load 8 File UE_HEADER_ImageInfo) UE_HEADER_IMAGE_INFO_XIP = true →
  wp (UeInitializeContextPostHash File) (λ _ c, UeOk File c) malformed c0.
Proof.
  intros Hsz Hmagic Hmin Hxip. unfold UeInitializeContextPostHash.
  pose proof (wp_bind_inv _ _ _ _ _ (PostHash_header_spec c0 Hsz Hmagic Hxip)) as Hhdr.
  wp_step. wp_step; [autounfold with ue_layout in *; lia..|].
  wp_step. eapply wp_mono; [exact Hhdr| |done].
  intros [] c1 Htables. wp_step. wp_step; [autounfold with ue_layout in *; lia..|].
  wp_step. eapply wp_mono; [exact Htables| |done]. intros [] c Hh.
  pose proof (UeHeaderOk_bounds _ Hh) as (_ & _ & _ & Hpow & Ha). wp_step. wp_step.
  wp_check Hbase; [|apply negb_false_iff, IS_ALIGNED_spec in Hbase; [|lia|done]].
  { apply (malformed_intro c); [done|]. intros c' Hc' Hl. pose proof (ue_base_aligned _ _ Hc') as Hb.
    rewrite (ue_base _ _ Hc'), (sl_align _ _ Hl) in Hb.
    apply IS_ALIGNED_spec in Hb; [|lia|done]. by rewrite Hb in Hbase. }
  wp_step. eapply wp_mono; [by apply InternalVerifySegments_spec| |done].
  intros [] c2 ((o & m & ->) & Hh2 & Hs2).
  wp_step. wp_step; [autounfold with ue_layout in *; lia..|].
  wp_step. wp_step; [autounfold with ue_layout in *; lia..|].
  wp_step. wp_step. unfold InternalInitializeContextLate. wp_step. wp_step.
  wp_check Hentry; [|apply Z.ltb_ge in Hentry].
  { apply (malformed_intro c); [done|]. intros c' Hc' Hl. apply Z.ltb_lt in Hentry. cbn in Hentry.
    pose proof (ue_entry_in_image _ _ Hc') as He. pose proof (ues_image _ _ Hs2) as Hi. cbn in Hi.
    rewrite (ue_entry _ _ Hc'), (ues_image _ _ (ue_segments_ok _ _ Hc')) in He.
    unfold num_segments in *. cbn in Hi. rewrite (sl_last _ _ Hl) in He. lia. }
  eapply wp_mono; [apply InternalVerifyLoadTables_spec; [by destruct Hh2|by destruct Hs2]| |done].
  intros [] c3 [[v ->] Ht]. split; [by destruct Hh2|by destruct Hs2|done..].
Qed.

Lemma ue_init_spec c0 :
  bit_clear (load 8 File UE_HEADER_ImageInfo) UE_HEADER_IMAGE_INFO_XIP = true →
  wp (UeInitializeContextPreHash File (size File);; UeInitializeContextPostHash File)
    (λ _ c, UeOk File c) malformed c0.
Proof.
  intros Hxip.
  unfold UeInitializeContextPreHash. wp_step. wp_check Hmin.
  { split; [done|]. intros [c [Hh _ _ _ _ _ _]]. apply Z.ltb_lt in Hmin.
    pose proof (UeHeaderOk_bounds _ Hh) as (_ & _ & ? & _).
    destruct Hh. autounfold with ue_layout in *. lia. }
  apply Z.ltb_ge in Hmin.
  wp_step. wp_step; [autounfold with ue_layout in *; lia..|]. wp_check Hmagic.
  { split; [done|]. intros [c [[] _ _ _ _ _ _]]. by rewrite ueh_magic0 in Hmagic. }
  apply negb_false_iff, Z.eqb_eq in Hmagic. wp_step.
  by apply UeInitializeContextPostHash_spec.
Qed.
End UeInitProofs.

(** C25. UE verification is exact.  For every byte sequence whose header does not
    ask for execution in place, UeInitializeContextPreHash followed by
    UeInitializeContextPostHash does not fault; it succeeds with a context that
    is well-formed for the file (header, segments contiguous and aligned, load
    tables ordered and covering the rest of the file), and it returns
    RETURN_UNSUPPORTED only when no context is. *)
Theorem ue_init_exact `{!Platform, !OverflowLib} (File : list Z) (c0 : UE_LOADER_IMAGE_CONTEXT)
    (Hbytes : bytes File) (Hsize : u32 (size File))
    (Hxip : bit_clear (load 8 File UE_HEADER_ImageInfo) UE_HEADER_IMAGE_INFO_XIP = true) :
  match (UeInitializeContextPreHash File (size File);; UeInitializeContextPostHash File) c0 with
  | Ok _ c => UeOk File c
  | Err e _ => e = RETURN_UNSUPPORTED ∧ ¬ ∃ c, UeOk File c
  | Fault _ => False
  end.
Proof. exact (wp_cases _ _ _ _ (ue_init_spec File Hbytes Hsize c0 Hxip)). Qed.

(** The context of the sample file. *)
Definition ue_sample_context : UE_LOADER_IMAGE_CONTEXT :=
  match (UeInitializeContextPreHash ue_sample (size ue_sample);;
         @UeInitializeContextPostHash platform_x64 (BaseOverflowLib build_gcc_x64) ue_sample)
          (ue_context 0) with
  | Ok _ c => c
  | _ => ue_context 0
  end.

Lemma ue_sample_init :
  (UeInitializeContextPreHash ue_sample (size ue_sample);;
   @UeInitializeContextPostHash platform_x64 (BaseOverflowLib build_gcc_x64) ue_sample) (ue_context 0)
  = Ok tt ue_sample_context.
Proof. by vm_compute. Qed.

Lemma ue_sample_ok : UeOk ue_sample ue_sample_context.
Proof.
  refine (wp_ok _ _ _ _ _ _ (ue_init_spec ue_sample ue_sample_bytes _ (ue_context 0) _) ue_sample_init);
    by vm_compute.
Qed.

Lemma ue_init_exact_witness :
  UeOk ue_sample ue_sample_context ∧ ImageSize ue_sample_context = 4096 ∧
  RelocTableSize ue_sample_context = 8 ∧ BaseAddress ue_sample_context = 0x140000000.
Proof.
  split; [|by vm_compute].
  pose proof (@ue_init_exact platform_x64 (BaseOverflowLib build_gcc_x64) ue_sample (ue_context 0)
    ue_sample_bytes ltac:(by compute) ltac:(by vm_compute)) as Hok.
  rewrite ue_sample_init in Hok. exact Hok.
Defined.

(** For an image for execution in place the header is rounded up to the segment
    alignment, so the bound on SegmentsFileOffset that the overflow argument of
    InternalVerifySegments rests on does not hold: a 4 KiB file whose segment claims
    0xFFFFF000 bytes makes SegmentEndFileOffset wrap to 0.  With ASSERTs the firmware
    stops; without them the file is accepted with ImageSize 0. *)
Theorem ue_xip_offset_wraps :
  let init (P : Platform) :=
    (UeInitializeContextPreHash ue_xip_sample (size ue_xip_sample);;
     @UeInitializeContextPostHash P (BaseOverflowLib build_gcc_x64) ue_xip_sample) (ue_context 0) in
  init platform_x64 = Fault AssertFailed ∧
  match init platform_release with
  | Ok _ c => ImageSize c = 0 ∧ LoadTablesFileOffset c = 0 ∧ SegmentsFileOffset c = 4096 ∧
      seg_file ue_xip_sample 0 = 0xFFFFF000 ∧ size ue_xip_sample = 4096
  | _ => False
  end.
Proof. cbv zeta. split; by vm_compute. Qed.
