(* ===== verification/UeLoad.v ===== *)
(** UeImageLib.c, second part: UeLoadImage, and the bytes of the image it loads. *)
From S2P Require Import Prelude Base Buffer Overflow UeImage UeSample UeInit.

Section UeLoad.
Context `{!Platform}.

(** CopyMem (Destination + off, FileBuffer + src, n) *)
Definition ue_copy (off src n : Z) : UeM unit :=
  s ← getS;
  if n =? 0 then mret tt
  else
    require (in_bounds (FileBuffer s) src n) OutOfBounds;;
    ue_write off (slice (FileBuffer s) src n).

(** The body of the loop; it carries SegmentFileOffset, SegmentImageAddress and
    PrevSegmentDataEnd. *)
Definition UeLoadSegment (SegmentIndex : Z) (acc : Z * Z * Z) : UeM (Z * Z * Z) :=
  let '(SegmentFileOffset, SegmentImageAddress, PrevSegmentDataEnd) := acc in
  s ← getS;
  SegmentFileSize ← ue_segment (FileBuffer s) (Context s) SegmentIndex UE_SEGMENT_FileSize;
  ImageInfo ← ue_segment (FileBuffer s) (Context s) SegmentIndex UE_SEGMENT_ImageInfo;
  let SegmentImageSize := UE_SEGMENT_SIZE ImageInfo in
  ue_write PrevSegmentDataEnd (zeros (wrap 32 (SegmentImageAddress - PrevSegmentDataEnd)));;
  ASSERT (SegmentFileSize <=? SegmentImageSize);;
  ue_copy SegmentImageAddress SegmentFileOffset SegmentFileSize;;
  mret (wrap 32 (SegmentFileOffset + SegmentFileSize),
        wrap 32 (SegmentImageAddress + SegmentImageSize),
        wrap 32 (SegmentImageAddress + SegmentFileSize)).

(** [Destination] is the memory at address [Address]. *)
Definition UeLoadImage (Destination : list Z) (Address DestinationSize : Z) : UeM unit :=
  s ← getS;
  ASSERT (IS_ALIGNED Address (SegmentAlignment (Context s)));;
  modify (with_Destination Destination Address);;
  '(_, _, PrevSegmentDataEnd) ←
    for_loop (Z.to_nat (LastSegmentIndex (Context s) + 1)) 0 UeLoadSegment
      (SegmentsFileOffset (Context s), 0, 0);
  ue_write PrevSegmentDataEnd (zeros (wrap 32 (DestinationSize - PrevSegmentDataEnd))).
End UeLoad.

(** ** What is loaded *)

(** Each segment holds its data from the file, then zeroes; what follows the last
    segment is zero. *)
Record UeLoaded (File : list Z) (c : UE_LOADER_IMAGE_CONTEXT) (Image : list Z) : Prop := {
  uel_segment k i :
    0 <= k < num_segments c → 0 <= i < seg_size File k →
    byte_at Image (seg_address File k + i) =
      if i <? seg_file File k then byte_at File (seg_offset File c k + i) else 0;
  uel_rest i : ImageSize c <= i < size Image → byte_at Image i = 0;
}.

Section UeLoadProofs.
Context `{!Platform} (File : list Z) (Hbytes : bytes File) (Hsize : u32 (size File)).
Context (c : UE_LOADER_IMAGE_CONTEXT) (Hok : UeOk File c).
Context (Address DestinationSize : Z) (HD : u32 DestinationSize) (Himage : ImageSize c <= DestinationSize).
Context (rt : option UE_LOADER_RUNTIME_CONTEXT).
Abbreviation loading D := {| Context := c; FileBuffer := File; ImageBuffer := D;
                             ImageAddress := Address; RuntimeContext := rt |}.

(** Where the data of the segments before [k] ends. *)
Definition data_end (k : Z) : Z :=
  if k =? 0 then 0 else seg_address File (k - 1) + seg_file File (k - 1).

Lemma data_end_succ k : 0 <= k → data_end (k + 1) = seg_address File k + seg_file File k.
Proof.
  intros. unfold data_end. destruct (Z.eqb_spec (k + 1) 0); [lia|]. by replace (k + 1 - 1) with k by lia.
Qed.

Lemma data_end_bounds k :
  0 <= k <= num_segments c → 0 <= data_end k <= seg_address File k.
Proof.
  intros Hk. unfold data_end. destruct (Z.eqb_spec k 0) as [->|]; [by compute|].
  pose proof (ues_file _ _ (ue_segments_ok _ _ Hok) (k - 1) ltac:(lia)).
  pose proof (seg_address_succ File (k - 1)) as Hs. replace (k - 1 + 1) with k in Hs by lia.
  pose proof (seg_address_mono File (k - 1) (k - 1) ltac:(lia)).
  pose proof (seg_file_range File Hbytes (k - 1)) as [? _]. lia.
Qed.

(** Segments are in the image and their data is in the file. *)
Lemma seg_bounds k : 0 <= k < num_segments c →
  0 <= seg_address File k ∧ seg_address File (k + 1) <= ImageSize c ∧
  24 <= seg_offset File c k ∧ seg_offset File c (k + 1) <= size File.
Proof.
  intros Hk. destruct Hok as [Hh Hs _ _ _ _ _].
  pose proof (seg_address_mono File k (k + 1)). pose proof (seg_address_mono File (k + 1) (num_segments c)).
  rewrite (ues_image _ _ Hs). pose proof (UeHeaderOk_bounds _ Hbytes _ Hh) as (_ & _ & ? & _).
  pose proof (ues_in_file _ _ Hs) as Hin. rewrite (ues_tables _ _ Hs) in Hin.
  pose proof (align_up_ge (seg_offset File c (num_segments c)) UE_LOAD_TABLE_ALIGNMENT eq_refl).
  assert (∀ i, 0 <= seg_file File i) as Hn by (intros; by apply seg_file_range).
  pose proof (sum_below_nonneg _ (Z.to_nat k) Hn).
  pose proof (sum_below_mono _ (Z.to_nat (k + 1)) (Z.to_nat (num_segments c)) Hn).
  unfold seg_offset in *. lia.
Qed.

(** The part of [UeLoaded] below [bound]. *)
Definition loaded_below (bound : Z) (D : list Z) : Prop :=
  ∀ k i, 0 <= k < num_segments c → 0 <= i < seg_size File k → seg_address File k + i < bound →
    byte_at D (seg_address File k + i) =
      if i <? seg_file File k then byte_at File (seg_offset File c k + i) else 0.

(** Zeroing from the end of the data of segment [k - 1] to segment [k]. *)
Lemma loaded_below_zero k n D :
  0 <= k <= num_segments c → loaded_below (data_end k) D → 0 <= n → data_end k + n <= size D →
  (k < num_segments c → data_end k + n <= seg_address File k) →
  loaded_below (data_end k + n) (write_bytes D (data_end k) (zeros n)).
Proof.
  intros Hk Hb Hn Hin Hle j i Hj Hi Hlt. pose proof (data_end_bounds k Hk).
  rewrite byte_at_write_bytes, size_zeros, byte_at_zeros by (rewrite ?size_zeros; lia).
  destruct (Z.leb_spec (data_end k) (seg_address File j + i)); cbn; [|by apply Hb; lia].
  destruct (Z.ltb_spec (seg_address File j + i) (data_end k + n)); [|lia].
  assert (j < k) as Hjk.
  { destruct (decide (j < k)); [done|]. pose proof (seg_address_mono File k j). lia. }
  destruct (Z.ltb_spec i (seg_file File j)); [|done]. exfalso.
  assert (seg_address File j + seg_file File j <= data_end k); [|lia].
  rewrite <- data_end_succ by lia. destruct (decide (j + 1 = k)) as [->|]; [done|].
  pose proof (data_end_bounds (j + 1)). pose proof (seg_address_mono File (j + 1) (k - 1)).
  unfold data_end at 2. destruct (Z.eqb_spec k 0); [lia|].
  pose proof (seg_file_range File Hbytes (k - 1)) as [? _]. lia.
Qed.

(** Copying the data of segment [k]. *)
Lemma loaded_below_copy k D :
  0 <= k < num_segments c → size D = DestinationSize → loaded_below (seg_address File k) D →
  loaded_below (data_end (k + 1))
    (write_bytes D (seg_address File k) (slice File (seg_offset File c k) (seg_file File k))).
Proof.
  intros Hk HsD Hb j i Hj Hi Hlt. destruct (seg_bounds k Hk) as (? & ? & ? & Hin).
  rewrite seg_offset_succ in Hin by lia. rewrite data_end_succ in Hlt by lia.
  pose proof (seg_file_range File Hbytes k) as [Hf _].
  pose proof (ues_file _ _ (ue_segments_ok _ _ Hok) k Hk).
  rewrite seg_address_succ in * by lia.
  rewrite byte_at_write_bytes, size_slice by (rewrite ?size_slice; lia).
  destruct (Z.leb_spec (seg_address File k) (seg_address File j + i)); cbn; [|by apply Hb; lia].
  destruct (Z.ltb_spec (seg_address File j + i) (seg_address File k + seg_file File k)); [|lia].
  assert (j = k) as ->.
  { pose proof (seg_address_succ File j ltac:(lia)). pose proof (seg_address_succ File k ltac:(lia)).
    destruct (decide (j < k)); [pose proof (seg_address_mono File (j + 1) k); lia|].
    destruct (decide (k < j)); [pose proof (seg_address_mono File (k + 1) j); lia|lia]. }
  rewrite byte_at_slice by lia.
  destruct (Z.ltb_spec i (seg_file File k)); [f_equal; lia|lia].
Qed.

(** Before segment [k]. *)
Definition loading_inv (k : Z) (acc : Z * Z * Z) (s : ue_loader) : Prop :=
  acc = (seg_offset File c k, seg_address File k, data_end k) ∧
  ∃ D, s = loading D ∧ size D = DestinationSize ∧ loaded_below (data_end k) D.

Lemma wp_ue_copy off src n (Q : unit → ue_loader → Prop) E s :
  0 <= off → 0 <= src → 0 <= n → src + n <= size (FileBuffer s) → off + n <= size (ImageBuffer s) →
  Q tt (with_Image (write_bytes (ImageBuffer s) off (slice (FileBuffer s) src n)) s) →
  wp (ue_copy off src n) Q E s.
Proof.
  intros ? ? ? ? ? HQ. unfold ue_copy. wp_step. wp_step. destruct (Z.eqb_spec n 0) as [->|].
  - wp_step. unfold slice in HQ. cbn in HQ. by rewrite write_bytes_nil, with_Image_id in HQ.
  - wp_step. wp_step; [apply in_bounds_spec; lia|].
    apply wp_ue_write; [done|by rewrite size_slice|done].
Qed.

Lemma UeLoadSegment_spec k acc s E :
  0 <= k < num_segments c → loading_inv k acc s →
  wp (UeLoadSegment k acc) (loading_inv (k + 1)) E s.
Proof.
  intros Hk (-> & D & -> & HsD & Hb).
  destruct (seg_bounds k Hk) as (Haddr & Himg & Hoff & Hin).
  pose proof (data_end_bounds k ltac:(lia)) as Hde.
  pose proof (seg_file_range File Hbytes k) as Hf. pose proof (proj1 (seg_size_spec File k)) as Hsz.
  pose proof (ues_file _ _ (ue_segments_ok _ _ Hok) k Hk) as Hle.
  pose proof (UeHeaderOk_bounds _ Hbytes _ (ue_header_ok _ _ Hok)) as (_ & ? & ? & _).
  pose proof (ue_header_ok _ _ Hok) as Hh.
  pose proof (seg_address_succ File k ltac:(lia)) as HA.
  pose proof (seg_offset_succ File c k ltac:(lia)) as HO.
  unfold UeLoadSegment. wp_step. wp_step. unfold ue_segment. cbn [FileBuffer Context].
  rewrite (ueh_segments _ _ Hh). destruct Hh. unfold num_segments in Hk.
  wp_step. wp_step; [autounfold with ue_layout in *; lia..|].
  wp_step. wp_step; [autounfold with ue_layout in *; lia..|].
  fold (seg_file File k) (seg_size File k). unfold is_uint in *.
  rewrite (wrap_small _ (seg_address File k - data_end k)) by (unfold is_uint; lia).
  wp_step. apply wp_ue_write; [lia|rewrite size_zeros; cbn; lia|]. cbn [with_Image ImageBuffer].
  apply (loaded_below_zero k (seg_address File k - data_end k)) in Hb; [|unfold num_segments; lia..].
  replace (data_end k + (seg_address File k - data_end k)) with (seg_address File k) in Hb by lia.
  set (D0 := write_bytes _ _ _) in *.
  assert (size D0 = DestinationSize) as HsD0
    by (unfold D0; rewrite size_write_bytes; rewrite ?size_zeros; lia).
  change (with_Image D0 (loading D)) with (loading D0).
  wp_step. apply wp_ASSERT; [by apply Z.leb_le|].
  wp_step. apply wp_ue_copy; cbn [FileBuffer ImageBuffer]; try lia.
  wp_step. split.
  - rewrite HA, HO, data_end_succ by lia. rewrite !wrap_small by (unfold is_uint; lia). done.
  - eexists. split; [reflexivity|]. split; [|by apply loaded_below_copy; unfold num_segments].
    rewrite size_write_bytes; rewrite ?size_slice; lia.
Qed.

Lemma UeLoadImage_spec D s E :
  Context s = c → FileBuffer s = File → RuntimeContext s = rt →
  size D = DestinationSize → IS_ALIGNED Address (SegmentAlignment c) = true →
  wp (UeLoadImage D Address DestinationSize)
    (λ _ s', ∃ I, s' = loading I ∧ size I = DestinationSize ∧ UeLoaded File c I) E s.
Proof.
  intros Hc HF Hrt HsD Halign.
  pose proof (UeHeaderOk_bounds _ Hbytes _ (ue_header_ok _ _ Hok)) as (Hn & _ & _).
  unfold UeLoadImage. wp_step. wp_step. rewrite Hc. wp_step. apply wp_ASSERT; [done|].
  wp_step. wp_step. wp_step. fold (num_segments c).
  eapply wp_mono; [apply (wp_for_loop loading_inv)| |done].
  - split.
    + unfold seg_offset, seg_address, data_end. cbn. by rewrite Z.add_0_r.
    + exists D. unfold with_Destination. rewrite Hc, HF, Hrt. split_and!; [done..|].
      intros k i Hk Hi Hlt. pose proof (seg_address_mono File k k). unfold data_end in Hlt. cbn in Hlt. lia.
  - intros k acc s' Hk Hinv. apply UeLoadSegment_spec; [lia|done].
  - rewrite Z.add_0_l, Z2Nat.id by lia. intros acc s' (-> & D0 & -> & HsD0 & Hb).
    pose proof (data_end_bounds (num_segments c) ltac:(lia)) as Hde.
    pose proof (ues_image _ _ (ue_segments_ok _ _ Hok)) as Hi. unfold is_uint in HD.
    rewrite wrap_small by (unfold is_uint; lia).
    apply wp_ue_write; [lia|rewrite size_zeros; cbn; lia|]. eexists. split; [reflexivity|].
    cbn [ImageBuffer with_Image].
    assert (data_end (num_segments c) + size (zeros (DestinationSize - data_end (num_segments c)))
      <= size D0) as Hin by (rewrite size_zeros; lia).
    split; [rewrite size_write_bytes; lia|]. split.
    + intros k i Hk Hseg. destruct (seg_bounds k Hk) as (_ & Himg & _).
      rewrite seg_address_succ in Himg by lia.
      rewrite size_zeros in Hin by lia.
      apply (loaded_below_zero (num_segments c) _ _ ltac:(lia) Hb); done || lia.
    + intros i Hi'. rewrite size_write_bytes in Hi' by lia.
      rewrite byte_at_write_bytes, byte_at_zeros, size_zeros by lia.
      destruct (Z.leb_spec (data_end (num_segments c)) i), (Z.ltb_spec i (data_end (num_segments c) +
        (DestinationSize - data_end (num_segments c)))); done || lia.
Qed.
End UeLoadProofs.

(** C26. UeLoadImage is exact.  On the context of a well-formed file that is not for execution in place and a destination
    that is aligned and large enough, it succeeds and leaves in the destination,
    byte for byte, the data of every segment followed by zeroes up to the size of
    the segment, and zeroes after the last one; the file, the context and the
    runtime context are untouched. *)
Theorem ue_load_exact `{!Platform} (s : ue_loader) (D : list Z) (Address : Z)
    (Hbytes : bytes (FileBuffer s)) (Hsize : u32 (size (FileBuffer s)))
    (Hok : UeOk (FileBuffer s) (Context s)) (HD : u32 (size D))
    (Himage : ImageSize (Context s) <= size D)
    (Halign : IS_ALIGNED Address (SegmentAlignment (Context s)) = true) :
  ∃ I, UeLoadImage D Address (size D) s = Ok tt (with_Destination I Address s) ∧
    size I = size D ∧ UeLoaded (FileBuffer s) (Context s) I.
Proof.
  destruct (wp_total _ _ _ (UeLoadImage_spec _ Hbytes Hsize _ Hok Address (size D) HD Himage
    (RuntimeContext s) D s (λ _ _, False) eq_refl eq_refl eq_refl eq_refl Halign))
    as ([] & s' & Hrun & I & -> & HI & Hl).
  by exists I.
Qed.

(** The sample file is loaded into memory full of ones. *)
Definition ue_sample_state : ue_loader :=
  {| Context := ue_sample_context; FileBuffer := ue_sample; ImageBuffer := []; ImageAddress := 0;
     RuntimeContext := None |}.

Strategy 1000 [ue_sample ue_sample_context].

Definition ue_sample_memory : list Z := replicate (Z.to_nat 4104) 1.

Lemma ue_sample_memory_size : size ue_sample_memory = 4104.
Proof. by vm_compute. Qed.

Lemma ue_load_exact_witness :
  ∃ I, @UeLoadImage platform_x64 ue_sample_memory 0x200000 (size ue_sample_memory) ue_sample_state
         = Ok tt (with_Destination I 0x200000 ue_sample_state) ∧
    size I = size ue_sample_memory ∧ UeLoaded ue_sample ue_sample_context I.
Proof.
  apply (@ue_load_exact platform_x64 ue_sample_state ue_sample_memory 0x200000 ue_sample_bytes).
  - by compute.
  - exact ue_sample_ok.
  - by rewrite ue_sample_memory_size.
  - rewrite ue_sample_memory_size. by vm_compute.
  - by vm_compute.
Defined.
