(* ===== verification/UeRelocate.v ===== *)
(** UeImageLib.c, third part: relocation of a UE image, at boot and at runtime. *)
From S2P Require Import Prelude Base Buffer Overflow UeImage UeSample UeInit UeLoad.

(** ReallocateRuntimePool of CommonMemoryAllocationLib: the buffer of NewSize bytes,
    zeroed, with the old contents; None is NULL, as the empty list is for OldBuffer.
    Whether there is memory is [Allocated]. *)
Definition ReallocateRuntimePool {S} (Allocated : bool) (OldSize NewSize : Z) (OldBuffer : list Z)
    : M S (option (list Z)) :=
  if Allocated then
    if size OldBuffer =? 0 then mret (Some (zeros NewSize))
    else
      let Count := Z.min OldSize NewSize in
      require (in_bounds OldBuffer 0 Count) OutOfBounds;;
      mret (Some (write_bytes (zeros NewSize) 0 (slice OldBuffer 0 Count)))
  else mret None.

(** Assignments to the runtime context. *)
Definition set_UnchainedRelocs (b : list Z) (n : Z) (r : UE_LOADER_RUNTIME_CONTEXT)
    : UE_LOADER_RUNTIME_CONTEXT :=
  {| RtMachine := RtMachine r; FixupSize := FixupSize r; FixupData := FixupData r;
     UnchainedRelocsSize := n; UnchainedRelocs := b |}.
Definition set_FixupData (b : list Z) (n : Z) (r : UE_LOADER_RUNTIME_CONTEXT)
    : UE_LOADER_RUNTIME_CONTEXT :=
  {| RtMachine := RtMachine r; FixupSize := n; FixupData := b;
     UnchainedRelocsSize := UnchainedRelocsSize r; UnchainedRelocs := UnchainedRelocs r |}.
Definition set_RtMachine (m : Z) (r : UE_LOADER_RUNTIME_CONTEXT) : UE_LOADER_RUNTIME_CONTEXT :=
  {| RtMachine := m; FixupSize := FixupSize r; FixupData := FixupData r;
     UnchainedRelocsSize := UnchainedRelocsSize r; UnchainedRelocs := UnchainedRelocs r |}.

(** sizeof (UE_LOADER_RUNTIME_CONTEXT), with 32 and with 64-bit pointers *)
Definition UeLoaderGetRuntimeContextSize `{!Platform} : Z := if UINTN_WIDTH =? 64 then 40 else 24.

Section UeRelocate.
Context `{!Platform, !OverflowLib}.
(** Whether the allocator can serve a request of a size, when the runtime context
    is in the given state. *)
Context (Memory : UE_LOADER_RUNTIME_CONTEXT → Z → bool).

(** ** InternalApplyRelocation *)

(** [*FixupData] at runtime: the entry of RuntimeContext->FixupData. *)
Definition read_FixupData (FixupIndex : Z) : UeM Z :=
  s ← getS;
  match RuntimeContext s with
  | Some r => rd 8 (FixupData r) (8 * FixupIndex)
  | None => crash UndefinedBehaviour
  end.

(** IsRuntime && (FixupValue != *FixupData) *)
Definition target_mismatch (n : nat) (FixupValue FixupIndex : Z) (IsRuntime : bool) : UeM bool :=
  if IsRuntime then
    Data ← read_FixupData FixupIndex;
    mret (negb (FixupValue =? wrap (8 * Z.of_nat n) Data))
  else mret false.

(** One branch of the function, for a fixup of [n] bytes; [Store] says whether it
    assigns [*FixupData] at boot.  Returns [*RelocTarget] and what is assigned. *)
Definition ApplyFixup (n : nat) (Store : bool)
    (RemFixupTargetSize FixupTarget Adjust FixupIndex : Z) (IsRuntime : bool) : UeM (Z * option Z) :=
  fail_if (RemFixupTargetSize <? Z.of_nat n) RETURN_VOLUME_CORRUPTED;;
  FixupValue ← ue_read n FixupTarget;
  Mismatch ← target_mismatch n FixupValue FixupIndex IsRuntime;
  if (Mismatch : bool) then
    if PcdImageLoaderRtRelocAllowTargetMismatch then mret (FixupTarget, None)
    else raise RETURN_VOLUME_CORRUPTED
  else
    let FixupValue := wrap (8 * Z.of_nat n) (FixupValue + wrap (8 * Z.of_nat n) Adjust) in
    ue_write FixupTarget (le_bytes n FixupValue);;
    mret (wrap 32 (FixupTarget + Z.of_nat n),
          if Store && negb IsRuntime then Some FixupValue else None).

Definition InternalApplyRelocation (ImageSize RelocType RelocTarget Adjust FixupIndex : Z)
    (IsRuntime : bool) : UeM (Z * option Z) :=
  let FixupTarget := RelocTarget in
  let '(Overflow, RemFixupTargetSize) := ovf_sub_u32 ImageSize FixupTarget in
  fail_if Overflow RETURN_VOLUME_CORRUPTED;;
  if RelocType <? UeRelocGenericMax then
    if RelocType =? UeReloc32 then
      ApplyFixup 4 false RemFixupTargetSize FixupTarget Adjust FixupIndex IsRuntime
    else if RelocType =? UeReloc64 then
      ApplyFixup 8 false RemFixupTargetSize FixupTarget Adjust FixupIndex IsRuntime
    else if RelocType =? UeReloc32NoMeta then
      ApplyFixup 4 true RemFixupTargetSize FixupTarget Adjust FixupIndex IsRuntime
    else raise RETURN_UNSUPPORTED
  else raise RETURN_UNSUPPORTED.

(** ** UnchainReloc *)

(** MetaSource is NULL: the offset of the last fixup header is replaced, and at
    the end of a root the table is padded. *)
Definition UnchainReloc_Offset (r : UE_LOADER_RUNTIME_CONTEXT) (RelocOffset : Z) : UeM unit :=
  let FixupIndex := wrap 32 (UnchainedRelocsSize r - 2) in
  FixupHdr ← rd 2 (UnchainedRelocs r) FixupIndex;
  let FixupHdr := wrap 16 (Z.lor (Z.shiftl RelocOffset 4) (UE_RELOC_FIXUP_TYPE FixupHdr)) in
  let r := set_UnchainedRelocs (write_bytes (UnchainedRelocs r) FixupIndex (le_bytes 2 FixupHdr))
             (UnchainedRelocsSize r) r in
  modify (with_Runtime r);;
  let Addend := wrap 8 (ALIGN_VALUE_ADDEND UINTN_WIDTH (UnchainedRelocsSize r) ALIGNOF_UE_FIXUP_ROOT) in
  if (RelocOffset =? UE_HEAD_FIXUP_OFFSET_END) && negb (Addend =? 0) then
    let OldSize := UnchainedRelocsSize r in
    let NewSize := wrap 32 (OldSize + Addend) in
    New ← ReallocateRuntimePool (Memory r NewSize) OldSize NewSize (UnchainedRelocs r);
    match New with
    | None => modify (with_Runtime (set_UnchainedRelocs [] OldSize r));; raise RETURN_OUT_OF_RESOURCES
    | Some b =>
        require (in_bounds b OldSize Addend) OutOfBounds;;
        modify (with_Runtime
          (set_UnchainedRelocs (write_bytes b OldSize (zeros Addend)) (wrap 32 (OldSize + Addend)) r))
    end
  else mret tt.

(** The fixup data of a relocation is appended; the variable FixupData points to may
    not have been assigned yet. *)
Definition UnchainReloc_Data (r : UE_LOADER_RUNTIME_CONTEXT) (Data : option Z) : UeM unit :=
  let OldSize := FixupSize r in
  let NewSize := wrapn (OldSize + 8) in
  New ← ReallocateRuntimePool (Memory r NewSize) OldSize NewSize (FixupData r);
  match New with
  | None => modify (with_Runtime (set_FixupData [] OldSize r));; raise RETURN_OUT_OF_RESOURCES
  | Some b =>
      match Data with
      | None => crash UndefinedBehaviour
      | Some v =>
          require (in_bounds b OldSize 8) OutOfBounds;;
          modify (with_Runtime
            (set_FixupData (write_bytes b OldSize (le_bytes 8 v)) (wrap 32 (OldSize + 8)) r))
      end
  end.

(** MetaSource is [Meta]: it is appended to the table. *)
Definition UnchainReloc_Meta (r : UE_LOADER_RUNTIME_CONTEXT) (Meta : list Z)
    (Data : option (option Z)) : UeM unit :=
  let OldSize := UnchainedRelocsSize r in
  let NewSize := wrap 32 (OldSize + size Meta) in
  New ← ReallocateRuntimePool (Memory r NewSize) OldSize NewSize (UnchainedRelocs r);
  match New with
  | None => modify (with_Runtime (set_UnchainedRelocs [] OldSize r));; raise RETURN_OUT_OF_RESOURCES
  | Some b =>
      require (in_bounds b OldSize (size Meta)) OutOfBounds;;
      let r := set_UnchainedRelocs (write_bytes b OldSize Meta) (wrap 32 (OldSize + size Meta)) r in
      modify (with_Runtime r);;
      match Data with
      | None => mret tt
      | Some Data => UnchainReloc_Data r Data
      end
  end.

(** [Data] is None when FixupData is NULL, [Some None] when it points to an
    unassigned variable. *)
Definition UnchainReloc (MetaSource : option (list Z)) (IsRuntime : bool) (RelocOffset : Z)
    (Data : option (option Z)) : UeM unit :=
  s ← getS;
  match RuntimeContext s with
  | Some r =>
      if IsRuntime then mret tt
      else
        match MetaSource with
        | None => UnchainReloc_Offset r RelocOffset
        | Some Meta => UnchainReloc_Meta r Meta Data
        end
  | None => mret tt
  end.

(** ** InternalProcessRelocChain *)

(** The branch on RelocType: relocates the fixup and returns the header of the next
    one, the size of the fixup and its new value. *)
Definition ChainFixup (RelocType RelocTarget RemFixupTargetSize Adjust : Z) : UeM (Z * Z * Z) :=
  if RelocType <? UeRelocGenericMax then
    if RelocType =? UeReloc64 then
      fail_if (RemFixupTargetSize <? 8) RETURN_VOLUME_CORRUPTED;;
      FixupInfo ← ue_read 8 RelocTarget;
      let FixupValue := wrap 64 (UE_CHAINED_RELOC_FIXUP_VALUE FixupInfo + Adjust) in
      ue_write RelocTarget (le_bytes 8 FixupValue);;
      mret (wrap 32 FixupInfo, 8, FixupValue)
    else if RelocType =? UeReloc32 then
      fail_if (RemFixupTargetSize <? 4) RETURN_VOLUME_CORRUPTED;;
      FixupInfo ← ue_read 4 RelocTarget;
      let FixupValue := wrap 32 (UE_CHAINED_RELOC_FIXUP_VALUE_32 FixupInfo + wrap 32 Adjust) in
      ue_write RelocTarget (le_bytes 4 FixupValue);;
      mret (Z.lor (wrap 32 (Z.shiftl FixupInfo 4)) UeReloc32, 4, FixupValue)
    else raise RETURN_UNSUPPORTED
  else raise RETURN_UNSUPPORTED.

(** The while loop; returns [*ChainStart]. *)
Fixpoint RelocChain (fuel : nat) (ImageSize Adjust RelocType RelocTarget : Z) : UeM Z :=
  match fuel with
  | O => crash OutOfFuel
  | S fuel =>
      let '(Overflow, RemFixupTargetSize) := ovf_sub_u32 ImageSize RelocTarget in
      fail_if Overflow RETURN_VOLUME_CORRUPTED;;
      '(FixupInfo, FixupSize, FixupData) ← ChainFixup RelocType RelocTarget RemFixupTargetSize Adjust;
      let RelocTarget := wrap 32 (RelocTarget + FixupSize) in
      let RelocOffset := UE_CHAINED_RELOC_FIXUP_NEXT_OFFSET FixupInfo in
      let FixupHdr := wrap 16 (Z.lor (Z.shiftl RelocOffset 4) RelocType) in
      UnchainReloc (Some (le_bytes 2 FixupHdr)) false 0 (Some (Some FixupData));;
      if RelocOffset =? UE_CHAINED_RELOC_FIXUP_OFFSET_END then mret RelocTarget
      else
        let RelocTarget := wrap 32 (RelocTarget + RelocOffset) in
        ASSERT (RelocOffset <=? RelocTarget);;
        RelocChain fuel ImageSize Adjust (UE_CHAINED_RELOC_FIXUP_NEXT_TYPE FixupInfo) RelocTarget
  end.

Definition InternalProcessRelocChain (ImageSize FirstRelocType ChainStart Adjust : Z) : UeM Z :=
  RelocChain (S (Z.to_nat ImageSize)) ImageSize Adjust FirstRelocType ChainStart.

(** ** InternaRelocateImage *)

(** The locals of the loops: TableOffset, RelocTarget, FixupPointer and FixupData. *)
Record reloc_locals := {
  TableOffset : Z;
  RelocTarget : Z;
  FixupPointer : Z;
  LocalFixupData : option Z;
}.

Section Loops.
Context (ImageSize Adjust : Z) (RelocTable : list Z) (RelocTableSize : Z) (Chaining IsRuntime : bool).

(** The two calls that apply the fixup with header FixupInfo. *)
Definition RelocateFixup (FixupInfo : Z) (v : reloc_locals) : UeM reloc_locals :=
  let RelocType := UE_RELOC_FIXUP_TYPE FixupInfo in
  if Chaining && negb IsRuntime && negb (RelocType =? UeReloc32NoMeta) then
    Target ← InternalProcessRelocChain ImageSize RelocType (RelocTarget v) Adjust;
    mret {| TableOffset := TableOffset v; RelocTarget := Target; FixupPointer := FixupPointer v;
            LocalFixupData := LocalFixupData v |}
  else
    '(Target, Data) ←
      InternalApplyRelocation ImageSize RelocType (RelocTarget v) Adjust (FixupPointer v) IsRuntime;
    let Data := match Data with Some d => Some d | None => LocalFixupData v end in
    UnchainReloc (Some (le_bytes 2 FixupInfo)) IsRuntime 0 (Some Data);;
    mret {| TableOffset := TableOffset v; RelocTarget := Target;
            FixupPointer := if IsRuntime then FixupPointer v + 1 else FixupPointer v;
            LocalFixupData := Data |}.

(** The inner loop, over the fixups of a root. *)
Fixpoint RelocateHeads (fuel : nat) (v : reloc_locals) : UeM reloc_locals :=
  match fuel with
  | O => crash OutOfFuel
  | S fuel =>
      let EntryOffsetMax := wrap 32 (RelocTableSize - 2) in
      FixupInfo ← rd 2 RelocTable (TableOffset v);
      v ← RelocateFixup FixupInfo
        {| TableOffset := wrap 32 (TableOffset v + 2); RelocTarget := RelocTarget v;
           FixupPointer := FixupPointer v; LocalFixupData := LocalFixupData v |};
      let RelocOffset := UE_RELOC_FIXUP_OFFSET FixupInfo in
      UnchainReloc None IsRuntime RelocOffset None;;
      if RelocOffset =? UE_HEAD_FIXUP_OFFSET_END then mret v
      else
        let Target := wrap 32 (RelocTarget v + RelocOffset) in
        ASSERT (RelocOffset <=? Target);;
        fail_if (EntryOffsetMax <? TableOffset v) RETURN_VOLUME_CORRUPTED;;
        RelocateHeads fuel
          {| TableOffset := TableOffset v; RelocTarget := Target;
             FixupPointer := FixupPointer v; LocalFixupData := LocalFixupData v |}
  end.

(** The outer loop, over the roots. *)
Fixpoint RelocateRoots (fuel : nat) (v : reloc_locals) : UeM unit :=
  match fuel with
  | O => crash OutOfFuel
  | S fuel' =>
      let RootOffsetMax := wrap 32 (RelocTableSize - MIN_SIZE_OF_UE_FIXUP_ROOT) in
      if TableOffset v <=? RootOffsetMax then
        FirstOffset ← rd 4 RelocTable (TableOffset v);
        let '(Overflow, Target) := ovf_add_u32 (RelocTarget v) FirstOffset in
        fail_if Overflow RETURN_VOLUME_CORRUPTED;;
        UnchainReloc (Some (le_bytes 4 FirstOffset)) IsRuntime 0 None;;
        v ← RelocateHeads fuel
          {| TableOffset := wrap 32 (TableOffset v + SIZEOF_UE_FIXUP_ROOT); RelocTarget := Target;
             FixupPointer := FixupPointer v; LocalFixupData := LocalFixupData v |};
        let NewTableOffset := ALIGN_VALUE 32 (TableOffset v) ALIGNOF_UE_FIXUP_ROOT in
        ASSERT (TableOffset v <=? NewTableOffset);;
        RelocateRoots fuel'
          {| TableOffset := NewTableOffset; RelocTarget := RelocTarget v;
             FixupPointer := FixupPointer v; LocalFixupData := LocalFixupData v |}
      else mret tt
  end.
End Loops.

Definition InternaRelocateImage (ImageSize OldBaseAddress : Z) (RelocTable : list Z)
    (RelocTableSize : Z) (Chaining : bool) (BaseAddress : Z) (IsRuntime : bool) : UeM unit :=
  if RelocTableSize =? 0 then mret tt
  else
    let Adjust := wrap 64 (BaseAddress - OldBaseAddress) in
    if (Adjust =? 0) && negb Chaining then mret tt
    else
      RelocateRoots ImageSize Adjust RelocTable RelocTableSize Chaining IsRuntime
        (S (Z.to_nat RelocTableSize))
        {| TableOffset := 0; RelocTarget := 0; FixupPointer := 0; LocalFixupData := None |}.

(** ** UeRelocateImage *)

Definition UeRelocateImage (BaseAddress_ RuntimeContextSize : Z) : UeM unit :=
  s ← getS;
  let c := Context s in
  let HasRuntime := bool_decide (is_Some (RuntimeContext s)) in
  ASSERT (IS_ALIGNED (LoadTablesFileOffset c) UE_LOAD_TABLE_ALIGNMENT);;
  ASSERT (IS_ALIGNED (RelocTableSize c) UE_LOAD_TABLE_ALIGNMENT);;
  ASSERT (IS_ALIGNED BaseAddress_ (SegmentAlignment c));;
  ASSERT (HasRuntime || (RuntimeContextSize =? 0));;
  ASSERT ((RuntimeContextSize =? 0) || (UeLoaderGetRuntimeContextSize <=? RuntimeContextSize));;
  ImageInfo ← rd 8 (FileBuffer s) UE_HEADER_ImageInfo;
  let Chaining := negb (Z.land ImageInfo UE_HEADER_IMAGE_INFO_CHAINED_FIXUPS =? 0) in
  match RuntimeContext s with
  | Some r => modify (with_Runtime (set_RtMachine (Machine c) r))
  | None => mret tt
  end;;
  (if XIP c then
     modify (λ s, with_Context (set_addresses (BaseAddress c)
       (wrap 32 (EntryPointAddress c - SegmentsFileOffset c)) (Subsystem c) (Machine c) c) s)
   else mret tt);;
  InternaRelocateImage (ImageSize c)
    (if XIP c then wrap 64 (BaseAddress c + SegmentsFileOffset c) else BaseAddress c)
    (drop (Z.to_nat (LoadTablesFileOffset c)) (FileBuffer s)) (RelocTableSize c) Chaining
    BaseAddress_ false.
End UeRelocate.
