(* ===== verification/UeRelocateSpec.v ===== *)
(** What relocating a UE image means, and the proof that UeRelocateImage does it.

    The specification reads the relocation table and the unrelocated image only: it
    lists the fixups, root by root, without executing any.  The code follows chains
    through the image while it overwrites their links, and keeps a record for the
    relocation at runtime; the theorems show that both are the functions of that
    list defined here. *)
From S2P Require Import Prelude Base Buffer Overflow UeImage UeSample UeInit UeLoad UeRelocate.

(** A fixup: its type, where it is in the image, whether it is a link of a chain,
    and the offset of the next fixup from its end. *)
Record fixup := {
  fx_type : Z;
  fx_target : Z;
  fx_chained : bool;
  fx_next : Z;
}.

(** The number of bytes of a fixup. *)
Definition fx_width (RelocType : Z) : nat := if RelocType =? UeReloc64 then 8 else 4.
Definition fx_end (f : fixup) : Z := fx_target f + Z.of_nat (fx_width (fx_type f)).

(** The header in a link of a chain. *)
Definition link_header (RelocType Info : Z) : Z :=
  if RelocType =? UeReloc64 then wrap 32 Info else Z.lor (wrap 32 (Z.shiftl Info 4)) UeReloc32.
Definition link_next (RelocType Info : Z) : Z :=
  UE_CHAINED_RELOC_FIXUP_NEXT_OFFSET (link_header RelocType Info).

Definition set_fx_next (n : Z) (f : fixup) : fixup :=
  {| fx_type := fx_type f; fx_target := fx_target f; fx_chained := fx_chained f; fx_next := n |}.
Fixpoint set_last_next (n : Z) (l : list fixup) : list fixup :=
  match l with
  | [] => []
  | [f] => [set_fx_next n f]
  | f :: l => f :: set_last_next n l
  end.

Section Fixups.
Context (Image : list Z) (ImageSize : Z) (Table : list Z) (TableSize : Z) (Chaining : bool).

(** ** The fixups of an image *)

(** The chain that starts at [t], and its end. *)
Fixpoint chain_fixups (fuel : nat) (ty t : Z) : option (list fixup * Z) :=
  match fuel with
  | O => None
  | S fuel =>
      if ((ty =? UeReloc64) || (ty =? UeReloc32)) && (t + Z.of_nat (fx_width ty) <=? ImageSize) then
        let Info := load (fx_width ty) Image t in
        let f := {| fx_type := ty; fx_target := t; fx_chained := true; fx_next := link_next ty Info |} in
        if fx_next f =? UE_CHAINED_RELOC_FIXUP_OFFSET_END then Some ([f], fx_end f)
        else
          '(l, e) ← chain_fixups fuel (UE_CHAINED_RELOC_FIXUP_NEXT_TYPE (link_header ty Info))
                      (fx_end f + fx_next f);
          Some (f :: l, e)
      else None
  end.

(** The fixups of the table entry [Info] for the address [t], and their end. *)
Definition entry_fixups (Info t : Z) : option (list fixup * Z) :=
  let ty := UE_RELOC_FIXUP_TYPE Info in
  if Chaining && negb (ty =? UeReloc32NoMeta) then chain_fixups (S (Z.to_nat ImageSize)) ty t
  else if (ty <? UeRelocGenericMax) && (t + Z.of_nat (fx_width ty) <=? ImageSize) then
    let f := {| fx_type := ty; fx_target := t; fx_chained := false;
                fx_next := UE_RELOC_FIXUP_OFFSET Info |} in
    Some ([f], fx_end f)
  else None.

(** The fixups of a root from the entry at offset [o], where they end in the table
    and in the image. *)
Fixpoint root_fixups (fuel : nat) (o t : Z) : option (list fixup * Z * Z) :=
  match fuel with
  | O => None
  | S fuel =>
      let Info := load 2 Table o in
      let Next := UE_RELOC_FIXUP_OFFSET Info in
      '(l, e) ← entry_fixups Info t;
      let l := set_last_next Next l in
      if Next =? UE_HEAD_FIXUP_OFFSET_END then Some (l, o + 2, e)
      else if TableSize - 2 <? o + 2 then None
      else
        '(l', o', e') ← root_fixups fuel (o + 2) (e + Next);
        Some (l ++ l', o', e')
  end.

(** The roots from offset [o] on, each with its first offset and its fixups. *)
Fixpoint table_fixups (fuel : nat) (o t : Z) : option (list (Z * list fixup)) :=
  match fuel with
  | O => None
  | S k =>
      if o <=? TableSize - MIN_SIZE_OF_UE_FIXUP_ROOT then
        let First := load 4 Table o in
        if t + First <? 2 ^ 32 then
          '(l, o', e) ← root_fixups fuel (o + SIZEOF_UE_FIXUP_ROOT) (t + First);
          roots ← table_fixups k (align_up o' ALIGNOF_UE_FIXUP_ROOT) e;
          Some ((First, l) :: roots)
        else None
      else Some []
  end.

Definition image_fixups : option (list (Z * list fixup)) :=
  table_fixups (S (Z.to_nat TableSize)) 0 0.

(** ** Their effect *)

Context (Adjust : Z).

(** The value of a fixup in the unrelocated image, and after relocation. *)
Definition fx_old (f : fixup) : Z :=
  let v := load (fx_width (fx_type f)) Image (fx_target f) in
  if fx_chained f then Z.shiftr v (if fx_type f =? UeReloc64 then 16 else 12) else v.
Definition fx_new (f : fixup) : Z := wrap (8 * Z.of_nat (fx_width (fx_type f))) (fx_old f + Adjust).

(** [b] with the fixups relocated. *)
Definition apply_fixup (b : list Z) (f : fixup) : list Z :=
  write_bytes b (fx_target f) (le_bytes (fx_width (fx_type f)) (fx_new f)).
Definition apply_fixups (b : list Z) (l : list fixup) : list Z := foldl apply_fixup b l.

(** What is recorded for the relocation at runtime: the values, and a table without
    chains. *)
Definition fixup_data (l : list fixup) : list Z := concat (map (λ f, le_bytes 8 (fx_new f)) l).
Definition fixup_entries (l : list fixup) : list Z :=
  concat (map (λ f, le_bytes 2 (fx_next f * 16 + fx_type f)) l).
Definition root_entries (root : Z * list fixup) : list Z :=
  le_bytes 4 root.1 ++ fixup_entries root.2 ++ zeros (2 * (Z.of_nat (length root.2) mod 2)).
Definition unchained_table (roots : list (Z * list fixup)) : list Z := concat (map root_entries roots).
End Fixups.

Definition all_fixups (roots : list (Z * list fixup)) : list fixup := concat (map snd roots).

(** ** Growing buffers *)

Lemma wp_ReallocateRuntimePool {S} ok l n (Q : option (list Z) → S → Prop) E s :
  0 <= n → Q None s → Q (Some (l ++ zeros n)) s →
  wp (ReallocateRuntimePool ok (size l) (size l + n) l) Q E s.
Proof.
  intros Hn HN HS. unfold ReallocateRuntimePool. destruct ok; [|by apply wp_ret].
  destruct (Z.eqb_spec (size l) 0) as [Hl|Hl].
  - apply wp_ret. rewrite Hl, Z.add_0_l. destruct l; [done|unfold size in Hl; cbn in Hl; lia].
  - rewrite Z.min_l by lia. apply wp_bind, wp_require; [apply in_bounds_spec; pose proof (size_nonneg l); lia|].
    apply wp_ret. rewrite slice_all. replace (write_bytes _ _ _) with (l ++ zeros n); [done|].
    unfold write_bytes, zeros, size. change (Z.to_nat 0) with 0%nat.
    rewrite take_0, app_nil_l, Nat.add_0_l, drop_replicate. do 2 f_equal. lia.
Qed.

(** ** Recording *)

(** The runtime context with the given table and data, or none. *)
Definition recorded (rt : option Z) (tb db : list Z) : option UE_LOADER_RUNTIME_CONTEXT :=
  (λ m, {| RtMachine := m; FixupSize := size db; FixupData := db;
           UnchainedRelocsSize := size tb; UnchainedRelocs := tb |}) <$> rt.

Section Recording.
Context `{!Platform, !PlatformOk, !OverflowLib} (Memory : UE_LOADER_RUNTIME_CONTEXT → Z → bool).
Context (c : UE_LOADER_IMAGE_CONTEXT) (F : list Z) (a : Z) (rt : option Z).

(** The states of the relocation: the image, the table and the data so far. *)
Definition relocating (J tb db : list Z) : ue_loader :=
  {| Context := c; FileBuffer := F; ImageBuffer := J; ImageAddress := a;
     RuntimeContext := recorded rt tb db |}.

(** Out of memory, which needs a runtime context. *)
Definition no_memory (J : list Z) (e : RETURN_STATUS) (s : ue_loader) : Prop :=
  e = RETURN_OUT_OF_RESOURCES ∧ is_Some rt ∧ ImageBuffer s = J.

Lemma UnchainReloc_Meta_spec J tb db m (d : option Z) :
  (is_Some rt → size tb + size m < 2 ^ 32 ∧ size db + 8 < 2 ^ 32) →
  wp (UnchainReloc Memory (Some m) false 0 (Some <$> d))
    (λ _ s, s = relocating J (tb ++ m) (db ++ from_option (le_bytes 8) [] d))
    (no_memory J) (relocating J tb db).
Proof.
  intros Hb. unfold UnchainReloc. apply wp_bind, wp_getS. cbn [relocating RuntimeContext].
  unfold relocating, recorded, no_memory. destruct rt as [mach|]; cbn [fmap option_fmap option_map].
  2: { apply wp_ret. by destruct d. }
  destruct (Hb ltac:(by eauto)) as [Htb Hdb].
  unfold UnchainReloc_Meta. cbn [UnchainedRelocsSize UnchainedRelocs].
  pose proof (size_nonneg tb). pose proof (size_nonneg m). pose proof (size_nonneg db).
  rewrite wrap_small by (unfold is_uint; lia).
  wp_step. apply wp_ReallocateRuntimePool; [lia|by wp_step; wp_step; wp_step; eauto|].
  wp_step. wp_step; [apply in_bounds_spec; rewrite size_app, size_zeros; lia|].
  rewrite write_app_r by (rewrite size_zeros; done || lia). rewrite <- size_app. wp_step. wp_step.
  destruct d as [d|]; cbn; [|wp_step; by rewrite app_nil_r].
  unfold UnchainReloc_Data. cbn [set_UnchainedRelocs FixupSize FixupData].
  rewrite wrapn_small by (unfold is_uint; lia).
  wp_step. apply wp_ReallocateRuntimePool; [lia|by wp_step; wp_step; wp_step; eauto|].
  wp_step. wp_step; [apply in_bounds_spec; rewrite size_app, size_zeros; lia|].
  rewrite write_app_r by (rewrite size_zeros; done || lia). wp_step.
  rewrite wrap_small, (size_app db), size_le_bytes by (unfold is_uint; lia). done.
Qed.

(** Without a runtime context nothing is recorded. *)
Lemma UnchainReloc_skip J tb db m off d tb' db' E :
  ¬ is_Some rt →
  wp (UnchainReloc Memory m false off d) (λ _ s, s = relocating J tb' db') E (relocating J tb db).
Proof.
  intros Hrt. unfold UnchainReloc. apply wp_bind, wp_getS. unfold relocating, recorded.
  destruct rt; [by destruct Hrt|]. by apply wp_ret.
Qed.

(** A fixup header is its offset and its type. *)
Lemma header_pack off ty :
  0 <= off < 2 ^ 12 → 0 <= ty < 16 → wrap 16 (Z.lor (Z.shiftl off 4) ty) = off * 16 + ty.
Proof.
  intros Hoff Hty. rewrite lor_shiftl_add by (done || unfold is_uint; lia).
  apply wrap_small. unfold is_uint. lia.
Qed.

Lemma header_type off ty : 0 <= ty < 16 → UE_RELOC_FIXUP_TYPE (off * 16 + ty) = ty.
Proof.
  intros. unfold UE_RELOC_FIXUP_TYPE. change 0x000F with (2 ^ 4 - 1). rewrite land_mask by done.
  change (2 ^ 4) with 16. rewrite Z.add_comm, Z.mod_add by done. by apply Z.mod_small.
Qed.

Lemma header_offset off ty :
  0 <= off < 2 ^ 12 → 0 <= ty < 16 → UE_RELOC_FIXUP_OFFSET (off * 16 + ty) = off.
Proof.
  intros. unfold UE_RELOC_FIXUP_OFFSET. rewrite Z.shiftr_div_pow2 by done. change (2 ^ 4) with 16.
  rewrite Z.div_add_l, Z.div_small, Z.add_0_r by lia. apply wrap_small. unfold is_uint. lia.
Qed.

Lemma header_unpack x :
  u16 x → x = UE_RELOC_FIXUP_OFFSET x * 16 + UE_RELOC_FIXUP_TYPE x ∧
    0 <= UE_RELOC_FIXUP_OFFSET x < 2 ^ 12 ∧ 0 <= UE_RELOC_FIXUP_TYPE x < 16.
Proof.
  intros [Hx0 Hx1]. unfold UE_RELOC_FIXUP_OFFSET, UE_RELOC_FIXUP_TYPE.
  change 0x000F with (2 ^ 4 - 1). rewrite land_mask, Z.shiftr_div_pow2 by done. change (2 ^ 4) with 16.
  pose proof (Z.div_mod x 16). pose proof (Z.mod_pos_bound x 16).
  rewrite wrap_small by (unfold is_uint; lia). lia.
Qed.

(** Changing the offset of the last header, without padding or at the end of a root. *)
Lemma UnchainReloc_Offset_spec J tb db old ty off :
  0 <= off < 2 ^ 12 → 0 <= ty < 16 → 0 <= old < 2 ^ 12 → (is_Some rt → size tb + 8 < 2 ^ 32) →
  wp (UnchainReloc Memory None false off None)
    (λ _ s, s = relocating J
      (tb ++ le_bytes 2 (off * 16 + ty)
          ++ if off =? UE_HEAD_FIXUP_OFFSET_END then zeros ((4 - (size tb + 2)) mod 4) else []) db)
    (no_memory J) (relocating J (tb ++ le_bytes 2 (old * 16 + ty)) db).
Proof.
  intros Hoff Hty Hold Hb. unfold UnchainReloc. apply wp_bind, wp_getS. cbn [relocating RuntimeContext].
  unfold relocating, recorded, no_memory. destruct rt as [mach|]; cbn [fmap option_fmap option_map].
  2: { by apply wp_ret. }
  specialize (Hb ltac:(by eauto)) as Htb.
  unfold UnchainReloc_Offset. cbn [UnchainedRelocsSize UnchainedRelocs].
  pose proof (size_nonneg tb). rewrite !size_app, !size_le_bytes. change (Z.of_nat 2) with 2.
  replace (size tb + 2 - 2) with (size tb) by lia. rewrite wrap_small by (unfold is_uint; lia).
  wp_step. wp_step; [lia|rewrite size_app, size_le_bytes; lia|].
  replace (load 2 _ _) with (old * 16 + ty).
  2: { rewrite <- (Z.add_0_r (size tb)). rewrite load_app_r, load_le_bytes by done.
       symmetry. apply Z.mod_small. cbn. lia. }
  rewrite header_type, header_pack, write_app_r by (done || by rewrite !size_le_bytes).
  wp_step. wp_step. cbn [set_UnchainedRelocs UnchainedRelocsSize UnchainedRelocs].
  replace (wrap 8 _) with ((4 - (size tb + 2)) mod 4).
  2: { pose proof (Z.mod_pos_bound (4 - (size tb + 2)) 4 eq_refl). unfold ALIGN_VALUE_ADDEND.
       change ALIGNOF_UE_FIXUP_ROOT with (2 ^ 2). rewrite land_mask by done. unfold wrap at 2.
       rewrite Z.mod_mod_divide; [rewrite wrap_small; [done|change (2 ^ 2) with 4; unfold is_uint; lia]|].
       destruct platform_uintn as [-> | ->]; [by exists (2 ^ 30)|by exists (2 ^ 62)]. }
  set (k := (4 - (size tb + 2)) mod 4).
  assert (0 <= k < 4) as Hk by by apply Z.mod_pos_bound.
  destruct (off =? UE_HEAD_FIXUP_OFFSET_END); cbn [andb]; [|wp_step; by rewrite app_nil_r, Z.add_0_r].
  destruct (Z.eqb_spec k 0) as [->|]; cbn [negb]; [wp_step; by rewrite app_nil_r, Z.add_0_r|].
  assert (size tb + 2 = size (tb ++ le_bytes 2 (off * 16 + ty))) as ->
    by (by rewrite size_app, size_le_bytes).
  rewrite wrap_small by (unfold is_uint; rewrite size_app, size_le_bytes; lia).
  wp_step. apply wp_ReallocateRuntimePool; [lia|by wp_step; wp_step; wp_step; eauto|].
  wp_step. wp_step; [apply in_bounds_spec; rewrite !size_app, size_zeros, size_le_bytes; lia|].
  rewrite write_app_r by done. wp_step.
  unfold with_Runtime, set_UnchainedRelocs. cbn [Context FileBuffer ImageBuffer ImageAddress RuntimeContext
    FixupSize FixupData RtMachine]. rewrite size_app, size_le_bytes, size_zeros, <- app_assoc, Z.add_assoc by lia. done.
Qed.

(** ** The relocation of one fixup *)

Context (Image : list Z) (HImage : bytes Image) (Size : Z) (HSize : 0 <= Size <= size Image).
Context (Hpage : Size <= 2 ^ 32 - 2 ^ 12) (Hrt : is_Some rt → 2 * Size + 16 < 2 ^ 32).
Context (Adjust : Z) (HAdjust : u64 Adjust).

(** [J] is the image, relocated below [t] only. *)
Definition agree (J : list Z) (t : Z) : Prop :=
  size J = size Image ∧ ∀ i, t <= i → byte_at J i = byte_at Image i.

Lemma agree_load J t n off : agree J t → t <= off → load n J off = load n Image off.
Proof. intros [_ Hb] Hoff. apply load_ext. intros i Hi. apply Hb. lia. Qed.

Lemma agree_apply J t f :
  agree J t → 0 <= t → t = fx_target f → fx_end f <= Size → agree (apply_fixup Image Adjust J f) (fx_end f).
Proof.
  intros [Hs Hb] Ht -> He. unfold fx_end in He.
  assert (fx_target f + size (le_bytes (fx_width (fx_type f)) (fx_new Image Adjust f)) <= size J) as Hin
    by (rewrite size_le_bytes; lia).
  split; [unfold apply_fixup; rewrite size_write_bytes; lia|].
  intros i Hi. unfold apply_fixup. rewrite byte_at_write_bytes by lia. rewrite size_le_bytes.
  unfold fx_end in Hi. destruct (Z.ltb_spec i (fx_target f + Z.of_nat (fx_width (fx_type f)))); [lia|].
  rewrite andb_false_r. apply Hb. lia.
Qed.

Lemma fx_width_bounds ty : 4 <= Z.of_nat (fx_width ty) <= 8.
Proof. unfold fx_width. destruct (ty =? UeReloc64); lia. Qed.

(** The outcome of a function that fails only when memory is exhausted or [P] holds. *)
Definition reloc_error (P : Prop) (e : RETURN_STATUS) (s : ue_loader) : Prop :=
  (e = RETURN_OUT_OF_RESOURCES ∧ is_Some rt ∨ P) ∧ size (ImageBuffer s) = size Image.

Definition chain_link (ty t : Z) : fixup :=
  {| fx_type := ty; fx_target := t; fx_chained := true;
     fx_next := link_next ty (load (fx_width ty) Image t) |}.

Definition can_link (ty t : Z) : bool :=
  ((ty =? UeReloc64) || (ty =? UeReloc32)) && (t + Z.of_nat (fx_width ty) <=? Size).

Lemma ChainFixup_spec ty t J tb db :
  0 <= t <= Size → agree J t →
  wp (ChainFixup ty t (Size - t) Adjust)
    (λ r s, can_link ty t = true ∧ r = (link_header ty (load (fx_width ty) Image t),
        Z.of_nat (fx_width ty), fx_new Image Adjust (chain_link ty t)) ∧
      s = relocating (apply_fixup Image Adjust J (chain_link ty t)) tb db)
    (reloc_error (can_link ty t = false)) (relocating J tb db).
Proof.
  intros Ht HJ. pose proof HJ as [HsJ _].
  assert (∀ e, can_link ty t = false →
    reloc_error (can_link ty t = false) e (relocating J tb db)) as Hbad
    by (intros; split; [by right|done]).
  assert (∀ n, Z.of_nat n = Z.of_nat (fx_width ty) → (Size - t <? Z.of_nat n) = true →
    can_link ty t = false) as Hrange.
  { intros n Hn Hlt. apply Z.ltb_lt in Hlt. unfold can_link.
    destruct (Z.leb_spec (t + Z.of_nat (fx_width ty)) Size); [lia|apply andb_false_r]. }
  unfold ChainFixup. destruct (Z.ltb_spec ty UeRelocGenericMax) as [Hmax|Hmax].
  2: { wp_step. apply Hbad. unfold can_link. autounfold with ue_layout in *.
       destruct (Z.eqb_spec ty 1), (Z.eqb_spec ty 0); lia || done. }
  destruct (Z.eqb_spec ty UeReloc64) as [->|N64]; [|destruct (Z.eqb_spec ty UeReloc32) as [->|N32]].
  - apply wp_bind, wp_fail_if; intros Hw; [by apply Hbad, (Hrange 8%nat)|]. apply Z.ltb_ge in Hw.
    wp_step. apply wp_ue_read; [lia|cbn; lia|]. cbn [relocating ImageBuffer].
    rewrite (agree_load J t) by (done || lia).
    wp_step. apply wp_ue_write; [lia|rewrite size_le_bytes; cbn; lia|]. wp_step. split_and!; [|done..].
    unfold can_link. cbn. apply Z.leb_le. lia.
  - apply wp_bind, wp_fail_if; intros Hw; [by apply Hbad, (Hrange 4%nat)|]. apply Z.ltb_ge in Hw.
    wp_step. apply wp_ue_read; [lia|cbn; lia|]. cbn [relocating ImageBuffer].
    rewrite (agree_load J t) by (done || lia).
    assert (wrap 32 (UE_CHAINED_RELOC_FIXUP_VALUE_32 (load 4 Image t) + wrap 32 Adjust)
      = fx_new Image Adjust (chain_link UeReloc32 t)) as ->.
    { unfold fx_new, fx_old, UE_CHAINED_RELOC_FIXUP_VALUE_32. cbn [chain_link fx_type fx_target fx_chained].
      rewrite (wrap_small 32 (load 4 Image t)) by by apply load_u32. unfold wrap.
      by rewrite Z.add_mod_idemp_r. }
    wp_step. apply wp_ue_write; [lia|rewrite size_le_bytes; cbn; lia|]. wp_step. split_and!; [|done..].
    unfold can_link. cbn. apply Z.leb_le. lia.
  - wp_step. apply Hbad. unfold can_link.
    destruct (Z.eqb_spec ty UeReloc64), (Z.eqb_spec ty UeReloc32); done.
Qed.

(** ** Chains *)

Lemma link_bounds ty i :
  0 <= link_next ty i < 2 ^ 12 ∧ 0 <= UE_CHAINED_RELOC_FIXUP_NEXT_TYPE (link_header ty i) < 16.
Proof.
  unfold link_next, UE_CHAINED_RELOC_FIXUP_NEXT_OFFSET, UE_CHAINED_RELOC_FIXUP_NEXT_TYPE.
  change 0x0FFF with (2 ^ 12 - 1). change 0x0F with (2 ^ 4 - 1). rewrite !land_mask by done.
  split; [by apply Z.mod_pos_bound|].
  pose proof (Z.mod_pos_bound (wrap 16 (link_header ty i)) (2 ^ 4) eq_refl).
  rewrite wrap_small by (unfold is_uint; lia). lia.
Qed.

Lemma fixup_data_cons f l :
  fixup_data Image Adjust (f :: l) = le_bytes 8 (fx_new Image Adjust f) ++ fixup_data Image Adjust l.
Proof. done. Qed.
Lemma fixup_entries_cons f l :
  fixup_entries (f :: l) = le_bytes 2 (fx_next f * 16 + fx_type f) ++ fixup_entries l.
Proof. done. Qed.

(** The bounds on what has been recorded when the fixups below [t] are relocated. *)
Definition record_bounds (t : Z) (tb db : list Z) : Prop := size tb <= 2 * t + 4 ∧ size db <= 2 * t.

(** The fixups [l] lie between [t] and [e] and have been relocated. *)
Record relocated (t e : Z) (l : list fixup) (J tb db : list Z) (s : ue_loader) : Prop := {
  rl_state : s = relocating (apply_fixups Image Adjust J l) (tb ++ fixup_entries l)
                   (db ++ fixup_data Image Adjust l);
  rl_nonempty : l ≠ [];
  rl_agree : agree (apply_fixups Image Adjust J l) e;
  rl_end : t + 4 * Z.of_nat (length l) <= e <= Size;
  rl_types f : f ∈ l → 0 <= fx_type f < UeRelocGenericMax;
  rl_next f : f ∈ l → 0 <= fx_next f < 2 ^ 12;
}.

Lemma relocated_single f t J tb db :
  fx_target f = t → 0 <= t → agree J t → fx_end f <= Size → 0 <= fx_type f < UeRelocGenericMax →
  0 <= fx_next f < 2 ^ 12 →
  relocated t (fx_end f) [f] J tb db
    (relocating (apply_fixup Image Adjust J f) (tb ++ le_bytes 2 (fx_next f * 16 + fx_type f))
      (db ++ le_bytes 8 (fx_new Image Adjust f))).
Proof.
  intros Htarget Ht HJ He Hty Hnext. split; try done.
  - cbn. by apply (agree_apply J t).
  - unfold fx_end in *. pose proof (fx_width_bounds (fx_type f)). cbn [length]. lia.
  - by intros f' ->%list_elem_of_singleton.
  - by intros f' ->%list_elem_of_singleton.
Qed.

(** Fixups after fixups. *)
Lemma relocated_app t e l t' e' l' J tb db s s' :
  relocated t e l J tb db s → e <= t' →
  relocated t' e' l' (apply_fixups Image Adjust J l) (tb ++ fixup_entries l)
    (db ++ fixup_data Image Adjust l) s' →
  relocated t e' (l ++ l') J tb db s'.
Proof.
  intros [] Hle []. split.
  - rewrite rl_state1. unfold apply_fixups, fixup_entries, fixup_data.
    by rewrite foldl_app, !map_app, !concat_app, !app_assoc.
  - by destruct l.
  - unfold apply_fixups in *. by rewrite foldl_app.
  - rewrite length_app. lia.
  - intros f [?|?]%elem_of_app; auto.
  - intros f [?|?]%elem_of_app; auto.
Qed.

(** Recording keeps up with the relocation. *)
Lemma size_fixup_entries l : size (fixup_entries l) = 2 * Z.of_nat (length l).
Proof.
  induction l as [|f l IH]; [done|]. rewrite fixup_entries_cons, size_app, size_le_bytes, IH.
  cbn [length]. lia.
Qed.
Lemma size_fixup_data l : size (fixup_data Image Adjust l) = 8 * Z.of_nat (length l).
Proof.
  induction l as [|f l IH]; [done|]. rewrite fixup_data_cons, size_app, size_le_bytes, IH.
  cbn [length]. lia.
Qed.

Lemma relocated_bounds t e l J tb db s :
  relocated t e l J tb db s → record_bounds t tb db →
  size (tb ++ fixup_entries l) <= 2 * e - 2 ∧ size (db ++ fixup_data Image Adjust l) <= 2 * e.
Proof.
  intros [] [Ht Hd]. rewrite !size_app, size_fixup_entries, size_fixup_data.
  assert (1 <= length l)%nat by (destruct l; [done|cbn; lia]). lia.
Qed.

Lemma record_bounds_mono t t' tb db : t <= t' → record_bounds t tb db → record_bounds t' tb db.
Proof. unfold record_bounds. lia. Qed.

Lemma can_link_true ty t :
  can_link ty t = true → 0 <= ty < UeRelocGenericMax ∧ fx_end (chain_link ty t) <= Size.
Proof.
  unfold can_link, fx_end. intros [Hty Hle%Z.leb_le]%andb_true_iff. split; [|done].
  autounfold with ue_layout in *. apply orb_true_iff in Hty as [->%Z.eqb_eq| ->%Z.eqb_eq]; lia.
Qed.

Lemma RelocChain_spec fuel : ∀ ty t J tb db,
  0 <= t < 2 ^ 32 → agree J t → record_bounds t tb db →
  (0 < fuel)%nat → Size <= t + 4 * (Z.of_nat fuel - 1) →
  wp (RelocChain Memory fuel Size Adjust ty t)
    (λ e s, ∃ l, chain_fixups Image Size fuel ty t = Some (l, e) ∧ relocated t e l J tb db s)
    (reloc_error (chain_fixups Image Size fuel ty t = None)) (relocating J tb db).
Proof.
  induction fuel as [|fuel IH]; intros ty t J tb db Ht HJ Hrec Hpos Hfuel; [lia|].
  cbn [RelocChain chain_fixups]. fold (can_link ty t).
  rewrite ovf_sub_u32_spec by (unfold is_uint; lia).
  apply wp_bind, wp_fail_if; intros Hsub.
  { split; [right|apply HJ]. apply negb_true_iff in Hsub. unfold can_link.
    destruct (Z.leb_spec (t + Z.of_nat (fx_width ty)) Size); [|by rewrite andb_false_r].
    pose proof (fx_width_bounds ty). assert (fits_u 32 (Size - t) = true); [|congruence].
    apply fits_u_spec. unfold is_uint. lia. }
  apply negb_false_iff, fits_u_spec in Hsub. rewrite wrap_small by done.
  wp_step. eapply wp_mono; [apply (ChainFixup_spec ty t J tb db); [unfold is_uint in *; lia|done]| |].
  2: { intros e s [[?|Hno] Hs]; (split; [|done]); [by left|right; by rewrite Hno]. }
  intros r s (Hlink & -> & ->). rewrite Hlink in *. fold (chain_link ty t).
  destruct (can_link_true _ _ Hlink) as [Hty He]. set (f := chain_link ty t) in *.
  destruct (link_bounds ty (load (fx_width ty) Image t)) as [Hnext Hnty].
  fold (link_next ty (load (fx_width ty) Image t)).
  change (link_next ty (load (fx_width ty) Image t)) with (fx_next f) in *.
  change (t + Z.of_nat (fx_width ty)) with (fx_end f).
  pose proof (relocated_single f t J tb db eq_refl ltac:(lia) HJ He Hty Hnext) as Hone.
  pose proof (relocated_bounds _ _ _ _ _ _ _ Hone Hrec) as Hb.
  pose proof (rl_end _ _ _ _ _ _ _ Hone) as Hend. cbn [length] in Hend.
  rewrite header_pack by (done || autounfold with ue_layout in *; lia).
  rewrite (wrap_small 32 (fx_end f)) by (unfold is_uint; lia).
  wp_step. eapply wp_mono; [apply (UnchainReloc_Meta_spec _ _ _ _ (Some (fx_new Image Adjust f)))| |].
  { intros Hsome. specialize (Hrt Hsome). rewrite !size_app, size_fixup_entries, size_fixup_data in Hb.
    rewrite size_le_bytes. cbn [length] in Hb. lia. }
  2: { intros e s (-> & ? & Hs). split; [by left|]. rewrite Hs. apply (rl_agree _ _ _ _ _ _ _ Hone). }
  intros [] s ->. cbn [from_option].
  destruct (Z.eqb_spec (fx_next f) UE_CHAINED_RELOC_FIXUP_OFFSET_END) as [Hlast|Hlast].
  { wp_step. exists [f]. by split. }
  rewrite wrap_small by (unfold is_uint; lia).
  wp_step. apply wp_ASSERT; [apply Z.leb_le; lia|].
  eapply wp_mono; [apply IH|..].
  - lia.
  - destruct (rl_agree _ _ _ _ _ _ _ Hone) as [Hs Hi]. split; [done|]. intros. apply Hi. lia.
  - rewrite !size_app, size_fixup_entries, size_fixup_data in Hb. cbn [length] in Hb.
    unfold record_bounds. rewrite !size_app, !size_le_bytes. lia.
  - lia.
  - lia.
  - intros e s (l & Hl & Hrl). exists (f :: l). rewrite Hl. split; [done|].
    apply (relocated_app t (fx_end f) [f] (fx_end f + fx_next f) e l J tb db _ s Hone); [lia|exact Hrl].
  - intros e s [[?|Hno] Hs]; (split; [|done]); [by left|right; by rewrite Hno].
Qed.

(** ** Table entries *)

Definition plain_fixup (ty t next : Z) : fixup :=
  {| fx_type := ty; fx_target := t; fx_chained := false; fx_next := next |}.

Definition can_apply (ty t : Z) : bool :=
  (ty <? UeRelocGenericMax) && (t + Z.of_nat (fx_width ty) <=? Size).

Lemma can_apply_false ty t : Size < t + Z.of_nat (fx_width ty) → can_apply ty t = false.
Proof.
  intros. unfold can_apply. destruct (Z.leb_spec (t + Z.of_nat (fx_width ty)) Size); [lia|apply andb_false_r].
Qed.

Lemma ApplyFixup_spec ty t next k store J tb db :
  0 <= t <= Size → ty < UeRelocGenericMax → agree J t →
  wp (ApplyFixup (fx_width ty) store (Size - t) t Adjust k false)
    (λ r s, can_apply ty t = true ∧
      r = (t + Z.of_nat (fx_width ty),
           if store then Some (fx_new Image Adjust (plain_fixup ty t next)) else None) ∧
      s = relocating (apply_fixup Image Adjust J (plain_fixup ty t next)) tb db)
    (reloc_error (can_apply ty t = false)) (relocating J tb db).
Proof.
  intros Ht Hty HJ. pose proof HJ as [HsJ _]. unfold ApplyFixup, target_mismatch.
  apply wp_bind, wp_fail_if; intros Hw.
  { apply Z.ltb_lt in Hw. split; [right; apply can_apply_false; lia|done]. }
  apply Z.ltb_ge in Hw. pose proof (fx_width_bounds ty).
  wp_step. apply wp_ue_read; [lia|cbn; lia|]. cbn [relocating ImageBuffer].
  rewrite (agree_load J t) by (done || lia). wp_step. wp_step.
  replace (wrap _ (_ + wrap _ Adjust)) with (fx_new Image Adjust (plain_fixup ty t next)).
  2: { unfold fx_new, fx_old, wrap. cbn [plain_fixup fx_type fx_target fx_chained]. by rewrite Zplus_mod_idemp_r. }
  wp_step. apply wp_ue_write; [lia|rewrite size_le_bytes; cbn; lia|]. wp_step.
  rewrite wrap_small by (unfold is_uint; lia). rewrite andb_true_r. split_and!; [|done..].
  unfold can_apply. apply andb_true_iff. split; [by apply Z.ltb_lt|apply Z.leb_le; lia].
Qed.

Lemma UeApplyRelocation_spec ty t next k J tb db :
  0 <= t < 2 ^ 32 → 0 <= ty → agree J t →
  wp (InternalApplyRelocation Size ty t Adjust k false)
    (λ r s, can_apply ty t = true ∧
      r = (t + Z.of_nat (fx_width ty),
           if ty =? UeReloc32NoMeta then Some (fx_new Image Adjust (plain_fixup ty t next)) else None) ∧
      s = relocating (apply_fixup Image Adjust J (plain_fixup ty t next)) tb db)
    (reloc_error (can_apply ty t = false)) (relocating J tb db).
Proof.
  intros Ht Hty HJ. unfold InternalApplyRelocation. pose proof (fx_width_bounds ty).
  rewrite ovf_sub_u32_spec by (unfold is_uint; lia). apply wp_bind, wp_fail_if; intros Hsub.
  { split; [right|apply HJ]. apply can_apply_false. apply negb_true_iff in Hsub.
    destruct (decide (t <= Size)); [|lia].
    assert (fits_u 32 (Size - t) = true); [apply fits_u_spec; unfold is_uint; lia|congruence]. }
  apply negb_false_iff, fits_u_spec in Hsub. rewrite wrap_small by done.
  assert (0 <= t <= Size) by (unfold is_uint in *; lia).
  destruct (Z.ltb_spec ty UeRelocGenericMax) as [Hmax|Hmax].
  2: { wp_step. split; [right|apply HJ]. unfold can_apply.
       by destruct (Z.ltb_spec ty UeRelocGenericMax); [lia|]. }
  assert (ty = UeReloc32 ∨ ty = UeReloc64 ∨ ty = UeReloc32NoMeta) as Hcases
    by (autounfold with ue_layout in *; lia).
  destruct Hcases as [->|[->| ->]]; cbn [Z.eqb UeReloc32 UeReloc64 UeReloc32NoMeta Pos.eqb].
  - by apply (ApplyFixup_spec 0 t next k false).
  - by apply (ApplyFixup_spec 1 t next k false).
  - by apply (ApplyFixup_spec 2 t next k true).
Qed.

(** An entry of the table, at boot: data is recorded for chained images only. *)
Context (Chaining : bool) (Hchain : is_Some rt → Chaining = true).

Lemma RelocateFixup_spec Info v J tb db :
  u16 Info → 0 <= RelocTarget v < 2 ^ 32 → agree J (RelocTarget v) → record_bounds (RelocTarget v) tb db →
  wp (RelocateFixup Memory Size Adjust Chaining false Info v)
    (λ v' s, TableOffset v' = TableOffset v ∧ ∃ l,
      entry_fixups Image Size Chaining Info (RelocTarget v) = Some (l, RelocTarget v') ∧
      relocated (RelocTarget v) (RelocTarget v') l J tb db s)
    (reloc_error (entry_fixups Image Size Chaining Info (RelocTarget v) = None)) (relocating J tb db).
Proof.
  intros HInfo Ht HJ Hrec. set (t := RelocTarget v) in *.
  destruct (header_unpack Info HInfo) as (HI & Hnext & Hty).
  unfold RelocateFixup, entry_fixups. fold t. set (ty := UE_RELOC_FIXUP_TYPE Info) in *.
  cbn [negb]. rewrite andb_true_r.
  destruct (Chaining && negb (ty =? UeReloc32NoMeta)) eqn:Hch.
  - unfold InternalProcessRelocChain. wp_step. eapply wp_mono; [apply RelocChain_spec|..]; try done || lia.
  - set (next := UE_RELOC_FIXUP_OFFSET Info) in *.
    fold (can_apply ty t) (plain_fixup ty t next). set (f := plain_fixup ty t next).
    wp_step. eapply wp_mono; [apply (UeApplyRelocation_spec ty t next); done || lia| |].
    2: { intros e s [[?|Hno] Hs]; (split; [|done]); [by left|right; by rewrite Hno]. }
    intros r s (Hap & -> & ->). rewrite Hap in *. fold f.
    assert (ty < UeRelocGenericMax ∧ fx_end f <= Size) as [Hmax He].
    { unfold can_apply in Hap. apply andb_true_iff in Hap as [?%Z.ltb_lt ?%Z.leb_le]. done. }
    pose proof (relocated_single f t J tb db eq_refl ltac:(lia) HJ He (conj (proj1 Hty) Hmax) Hnext) as Hone.
    assert (le_bytes 2 Info = le_bytes 2 (fx_next f * 16 + fx_type f)) as -> by exact (f_equal _ HI).
    wp_step. apply (wp_mono _ (λ _ s, s = relocating (apply_fixup Image Adjust J f)
      (tb ++ le_bytes 2 (fx_next f * 16 + fx_type f)) (db ++ le_bytes 8 (fx_new Image Adjust f))) _
      (no_memory (apply_fixup Image Adjust J f))).
    + destruct (decide (is_Some rt)) as [Hsome|Hnone]; [|by apply UnchainReloc_skip].
      rewrite (Hchain Hsome) in Hch. apply negb_false_iff in Hch. rewrite Hch.
      apply (UnchainReloc_Meta_spec _ _ _ _ (Some (fx_new Image Adjust f))). intros _.
      pose proof (relocated_bounds _ _ _ _ _ _ _ Hone Hrec) as Hb. specialize (Hrt Hsome).
      rewrite !size_app, size_fixup_entries, size_fixup_data in Hb. cbn [length] in Hb.
      rewrite size_le_bytes. lia.
    + intros [] s ->. wp_step. split; [done|]. by exists [f].
    + intros e s (-> & ? & Hs). split; [by left|]. rewrite Hs. apply (rl_agree _ _ _ _ _ _ _ Hone).
Qed.

(** ** Roots *)

Lemma set_last_next_snoc n l f : set_last_next n (l ++ [f]) = l ++ [set_fx_next n f].
Proof.
  induction l as [|g l IH]; [done|]. cbn [app]. rewrite <- IH. by destruct (l ++ [f]) eqn:E; [destruct l|].
Qed.

(** The offset of the next fixup does not matter for the image and the data. *)
Lemma set_last_next_same n J l :
  apply_fixups Image Adjust J (set_last_next n l) = apply_fixups Image Adjust J l ∧
  fixup_data Image Adjust (set_last_next n l) = fixup_data Image Adjust l.
Proof.
  destruct l as [|f l _] using rev_ind; [done|]. rewrite set_last_next_snoc.
  unfold apply_fixups, fixup_data. by rewrite !foldl_app, !map_app, !concat_app.
Qed.

Lemma relocated_set_last n t e l J tb db s :
  0 <= n < 2 ^ 12 → relocated t e l J tb db s →
  relocated t e (set_last_next n l) J tb db
    (relocating (apply_fixups Image Adjust J l) (tb ++ fixup_entries (set_last_next n l))
       (db ++ fixup_data Image Adjust l)).
Proof.
  intros Hn []. destruct (set_last_next_same n J l) as [HA HD].
  destruct l as [|f l _] using rev_ind; [done|]. rewrite set_last_next_snoc in *. split.
  - by rewrite HA, HD.
  - by destruct l.
  - by rewrite HA.
  - rewrite length_app in *. done.
  - intros g [?| ->%list_elem_of_singleton]%elem_of_app; [by apply rl_types0, elem_of_app; left|].
    apply (rl_types0 f), elem_of_app. right. by apply list_elem_of_singleton.
  - intros g [?| ->%list_elem_of_singleton]%elem_of_app; [by apply rl_next0, elem_of_app; left|done].
Qed.

(** The table is padded to the alignment of roots. *)
Definition root_pad (tb : list Z) : list Z := zeros ((4 - size tb) mod 4).

(** After an entry, its offset is recorded and, at the end of the root, the padding. *)
Lemma UnchainReloc_entry n t e l J tb db s :
  0 <= n < 2 ^ 12 → relocated t e l J tb db s → record_bounds t tb db →
  let tb' := tb ++ fixup_entries (set_last_next n l) in
  wp (UnchainReloc Memory None false n None)
    (λ _ s', s' = relocating (apply_fixups Image Adjust J l)
      (tb' ++ if n =? UE_HEAD_FIXUP_OFFSET_END then root_pad tb' else [])
      (db ++ fixup_data Image Adjust l))
    (no_memory (apply_fixups Image Adjust J l)) s.
Proof.
  intros Hn Hrl Hrec tb'. pose proof (relocated_bounds _ _ _ _ _ _ _ Hrl Hrec) as [Hb _].
  destruct Hrl. subst s. destruct l as [|f l _] using rev_ind; [done|].
  assert (0 <= fx_type f < UeRelocGenericMax) as Hty by (apply rl_types0, elem_of_app; right; by left).
  assert (0 <= fx_next f < 2 ^ 12) as Hold by (apply rl_next0, elem_of_app; right; by left).
  assert (∀ g, tb ++ fixup_entries (l ++ [g])
    = (tb ++ fixup_entries l) ++ le_bytes 2 (fx_next g * 16 + fx_type g)) as He.
  { intros g. unfold fixup_entries. rewrite map_app, concat_app. cbn [map concat].
    by rewrite app_nil_r, app_assoc. }
  unfold tb'. rewrite set_last_next_snoc, !He. rewrite He in Hb.
  rewrite size_app, size_le_bytes in Hb. unfold root_pad.
  rewrite (size_app (tb ++ fixup_entries l)), size_le_bytes.
  eapply wp_mono; [apply UnchainReloc_Offset_spec; try done| |done].
  - autounfold with ue_layout in *. lia.
  - intros Hsome. specialize (Hrt Hsome). lia.
  - intros [] s ->. cbn [set_fx_next fx_next fx_type]. by rewrite <- !app_assoc.
Qed.

Context (Table : list Z) (HTable : bytes Table) (TableSize : Z).
Context (HTableSize : 8 <= TableSize <= size Table) (HTable32 : TableSize < 2 ^ 32).

Lemma RelocateHeads_spec fuel : ∀ v J tb db,
  0 <= RelocTarget v < 2 ^ 32 → agree J (RelocTarget v) → record_bounds (RelocTarget v) tb db →
  0 <= TableOffset v <= TableSize - 2 → TableSize <= TableOffset v + 2 * Z.of_nat fuel →
  wp (RelocateHeads Memory Size Adjust Table TableSize Chaining false fuel v)
    (λ v' s, ∃ l, root_fixups Image Size Table TableSize Chaining fuel (TableOffset v) (RelocTarget v)
        = Some (l, TableOffset v', RelocTarget v') ∧
      TableOffset v + 2 <= TableOffset v' <= TableSize ∧
      let tb' := tb ++ fixup_entries l in
      relocated (RelocTarget v) (RelocTarget v') l J tb db
        (relocating (apply_fixups Image Adjust J l) tb' (db ++ fixup_data Image Adjust l)) ∧
      s = relocating (apply_fixups Image Adjust J l) (tb' ++ root_pad tb')
            (db ++ fixup_data Image Adjust l))
    (reloc_error (root_fixups Image Size Table TableSize Chaining fuel (TableOffset v) (RelocTarget v)
       = None)) (relocating J tb db).
Proof.
  induction fuel as [|fuel IH]; intros v J tb db Ht HJ Hrec Ho Hfuel; [lia|].
  cbn [RelocateHeads root_fixups]. set (t := RelocTarget v) in *. set (o := TableOffset v) in *.
  wp_step. wp_step; [lia..|]. set (Info := load 2 Table o).
  assert (u16 Info) as HInfo by by apply load_u16.
  destruct (header_unpack Info HInfo) as (_ & Hnext & _).
  rewrite (wrap_small 32 (o + 2)), (wrap_small 32 (TableSize - 2)) by (unfold is_uint; lia).
  wp_step. eapply wp_mono; [by apply RelocateFixup_spec| |]; cbn [RelocTarget TableOffset].
  2: { intros e s [[?|Hno] Hs]; (split; [|done]); [by left|right; by rewrite Hno]. }
  intros v' s (Ho' & l & Hl & Hrl). fold t in Hl. rewrite Hl. cbn [mbind option_bind].
  set (next := UE_RELOC_FIXUP_OFFSET Info) in *.
  pose proof (relocated_set_last next _ _ _ _ _ _ _ Hnext Hrl) as Hrl'.
  pose proof (relocated_bounds _ _ _ _ _ _ _ Hrl' Hrec) as Hb.
  pose proof (rl_end _ _ _ _ _ _ _ Hrl) as Hend.
  wp_step. eapply wp_mono; [by eapply UnchainReloc_entry| |].
  2: { intros e s' (-> & ? & Hs). split; [by left|]. rewrite Hs. apply (rl_agree _ _ _ _ _ _ _ Hrl). }
  intros [] s' ->.
  destruct (set_last_next_same next J l) as [HA HD].
  destruct (Z.eqb_spec next UE_HEAD_FIXUP_OFFSET_END) as [Hlast|Hlast].
  { wp_step. exists (set_last_next next l). rewrite HA, HD, Ho'. split_and!; done || lia. }
  rewrite app_nil_r. rewrite (wrap_small 32 (RelocTarget v' + next)) by (unfold is_uint; lia).
  wp_step. apply wp_ASSERT; [apply Z.leb_le; lia|]. rewrite Ho'.
  apply wp_bind, wp_fail_if; intros Hmax.
  { rewrite Hmax. split; [by right|]. apply (rl_agree _ _ _ _ _ _ _ Hrl). }
  rewrite Hmax. apply Z.ltb_ge in Hmax.
  eapply wp_mono; [apply IH|..]; cbn [RelocTarget TableOffset].
  - lia.
  - destruct (rl_agree _ _ _ _ _ _ _ Hrl) as [Hs Hi]. split; [done|]. intros. apply Hi. lia.
  - rewrite HD in Hb. unfold record_bounds. lia.
  - lia.
  - lia.
  - intros v'' s' (l' & Hl' & Ho'' & Hrl'' & ->). exists (set_last_next next l ++ l').
    rewrite Hl'. split; [done|]. split; [lia|]. rewrite <- HA, <- HD in Hrl''.
    apply (relocated_app t (RelocTarget v') _ (RelocTarget v' + next)) with (1 := Hrl') in Hrl''; [|lia].
    rewrite <- HA, <- HD. unfold apply_fixups, fixup_entries, fixup_data in *.
    rewrite !foldl_app, !map_app, !concat_app, !app_assoc in *. done.
  - intros e s' [[?|Hno] Hs]; (split; [|done]); [by left|right; by rewrite Hno].
Qed.

Context (Htable4 : (4 | TableSize)).

(** A recorded root ends at a multiple of four. *)
Lemma root_pad_eq tb first l :
  (4 | size tb) →
  let tb' := (tb ++ le_bytes 4 first) ++ fixup_entries l in
  tb' ++ root_pad tb' = tb ++ root_entries (first, l) ∧ (4 | size (tb ++ root_entries (first, l))).
Proof.
  intros [q Hq] tb'. unfold tb', root_pad, root_entries.
  rewrite !size_app, !size_fixup_entries, !size_le_bytes, Hq. cbn [fst snd].
  replace ((4 - (q * 4 + Z.of_nat 4 + 2 * Z.of_nat (length l))) mod 4)
    with (2 * (Z.of_nat (length l) mod 2)) by (Z.to_euclidean_division_equations; lia).
  rewrite size_zeros by (Z.to_euclidean_division_equations; lia).
  split; [by rewrite <- !app_assoc|].
  exists (q + 1 + (Z.of_nat (length l) + 1) / 2). Z.to_euclidean_division_equations; lia.
Qed.

Lemma RelocateRoots_spec fuel : ∀ v J tb db,
  0 <= RelocTarget v <= Size → agree J (RelocTarget v) →
  size tb <= 2 * RelocTarget v → size db <= 2 * RelocTarget v → (4 | size tb) →
  0 <= TableOffset v <= TableSize → (4 | TableOffset v) → TableSize < TableOffset v + 2 * Z.of_nat fuel →
  wp (RelocateRoots Memory Size Adjust Table TableSize Chaining false fuel v)
    (λ _ s, ∃ roots, table_fixups Image Size Table TableSize Chaining fuel (TableOffset v) (RelocTarget v)
        = Some roots ∧
      s = relocating (apply_fixups Image Adjust J (all_fixups roots)) (tb ++ unchained_table roots)
            (db ++ fixup_data Image Adjust (all_fixups roots)))
    (reloc_error (table_fixups Image Size Table TableSize Chaining fuel (TableOffset v) (RelocTarget v)
       = None)) (relocating J tb db).
Proof.
  induction fuel as [|fuel IH]; intros v J tb db Ht HJ Htb Hdb Htb4 Ho Ho4 Hfuel; [lia|].
  cbn [RelocateRoots table_fixups]. set (t := RelocTarget v) in *. set (o := TableOffset v) in *.
  unfold MIN_SIZE_OF_UE_FIXUP_ROOT, SIZEOF_UE_FIXUP_ROOT, ALIGNOF_UE_FIXUP_ROOT.
  rewrite (wrap_small 32 (TableSize - (4 + 2))) by (unfold is_uint; lia).
  destruct (Z.leb_spec o (TableSize - (4 + 2))).
  2: { wp_step. exists []. split; [done|]. cbn. by rewrite !app_nil_r. }
  wp_step. wp_step; [lia..|]. set (first := load 4 Table o).
  assert (u32 first) as Hfirst by by apply load_u32.
  rewrite ovf_add_u32_spec by (done || unfold is_uint; lia). unfold is_uint in Hfirst.
  apply wp_bind, wp_fail_if; intros Hfits.
  { destruct (Z.ltb_spec (t + first) (2 ^ 32)); [|split; [by right|apply HJ]].
    assert (fits_u 32 (t + first) = true) as Hf by (apply fits_u_spec; unfold is_uint; lia).
    by rewrite Hf in Hfits. }
  apply negb_false_iff, fits_u_spec in Hfits. rewrite (wrap_small 32 (t + first)) by done.
  destruct (Z.ltb_spec (t + first) (2 ^ 32)); [|unfold is_uint in Hfits; lia].
  wp_step. eapply wp_mono; [apply (UnchainReloc_Meta_spec _ _ _ _ None)| |].
  { intros Hsome. specialize (Hrt Hsome). rewrite size_le_bytes. lia. }
  2: { intros e s (-> & ? & Hs). split; [by left|]. rewrite Hs. apply HJ. }
  intros [] s ->. cbn [from_option]. rewrite app_nil_r, (wrap_small 32 (o + 4)) by (unfold is_uint; lia).
  wp_step. eapply wp_mono; [apply RelocateHeads_spec|..]; cbn [RelocTarget TableOffset].
  - done.
  - destruct HJ as [Hs Hi]. split; [done|]. intros. apply Hi. lia.
  - unfold record_bounds. rewrite size_app, size_le_bytes. lia.
  - lia.
  - lia.
  - intros v' s (l & Hl & Ho' & Hrl & ->).
    pose proof (rl_end _ _ _ _ _ _ _ Hrl) as Hend.
    destruct (root_pad_eq tb first l Htb4) as [-> Hroot4].
    assert (record_bounds (t + first) (tb ++ le_bytes 4 first) db) as Hrec
      by (unfold record_bounds; rewrite size_app, size_le_bytes; lia).
    destruct (relocated_bounds _ _ _ _ _ _ _ Hrl Hrec) as [Hb Hb'].
    assert (align_up (TableOffset v') 4 <= TableSize) as Halign by (apply align_up_least; done || lia).
    pose proof (align_up_ge (TableOffset v') 4 eq_refl) as Hge.
    rewrite ALIGN_VALUE_spec by (done || unfold is_uint; lia).
    wp_step. apply wp_ASSERT; [apply Z.leb_le; lia|]. rewrite Hl. cbn [mbind option_bind].
    eapply wp_mono; [apply IH|..]; cbn [RelocTarget TableOffset].
    + lia.
    + apply (rl_agree _ _ _ _ _ _ _ Hrl).
    + unfold root_entries. rewrite !size_app, size_fixup_entries, size_le_bytes, size_zeros in *; cbn [fst snd];
        Z.to_euclidean_division_equations; lia.
    + done.
    + done.
    + lia.
    + apply align_up_divide.
    + lia.
    + intros [] s (roots & Hroots & ->). exists ((first, l) :: roots). rewrite Hroots.
      split; [done|]. unfold all_fixups, unchained_table, apply_fixups, fixup_data. cbn [map concat snd].
      by rewrite foldl_app, map_app, concat_app, !app_assoc.
    + intros e s [[?|Hno] Hs]; (split; [|done]); [by left|right; by rewrite Hno].
  - intros e s [[?|Hno] Hs]; (split; [|done]); [by left|right; by rewrite Hno].
Qed.
End Recording.

(** ** UeRelocateImage *)

Definition ue_chaining (File : list Z) : bool :=
  negb (bit_clear (load 8 File UE_HEADER_ImageInfo) UE_HEADER_IMAGE_INFO_CHAINED_FIXUPS).

Definition ue_reloc_table (s : ue_loader) : list Z :=
  drop (Z.to_nat (LoadTablesFileOffset (Context s))) (FileBuffer s).

Definition ue_adjust (s : ue_loader) (Base : Z) : Z := wrap 64 (Base - BaseAddress (Context s)).

(** The fixups to relocate when the image moves to [Base]: none when it has none, or
    when it is where it was linked to be and has no chains to resolve. *)
Definition ue_fixups (s : ue_loader) (Base : Z) : option (list (Z * list fixup)) :=
  if (RelocTableSize (Context s) =? 0)
     || (ue_adjust s Base =? 0) && negb (ue_chaining (FileBuffer s)) then Some []
  else image_fixups (ImageBuffer s) (ImageSize (Context s)) (ue_reloc_table s)
         (RelocTableSize (Context s)) (ue_chaining (FileBuffer s)).

(** What a caller of UeRelocateImage has: a loaded image, a base address, and either
    no runtime context, or a zeroed one and a chained image of less than 2 GiB. *)
Record UeRelocatable (rt : option Z) (s : ue_loader) (Base : Z) : Prop := {
  uer_file : bytes (FileBuffer s);
  uer_file_size : u32 (size (FileBuffer s));
  uer_ok : UeOk (FileBuffer s) (Context s);
  uer_image : bytes (ImageBuffer s);
  uer_image_size : ImageSize (Context s) <= size (ImageBuffer s);
  uer_base : IS_ALIGNED Base (SegmentAlignment (Context s)) = true;
  uer_runtime : RuntimeContext s = recorded rt [] [];
  uer_record : is_Some rt → ue_chaining (FileBuffer s) = true ∧ 2 * ImageSize (Context s) + 16 < 2 ^ 32;
}.

Section UeRelocateProofs.
Context `{!Platform, !PlatformOk, !OverflowLib} (Memory : UE_LOADER_RUNTIME_CONTEXT → Z → bool).

Lemma ImageSize_bounds File c :
  UeOk File c → 0 <= ImageSize c <= 2 ^ 32 - 2 ^ 12.
Proof.
  intros [_ Hs _ _ _ _ _]. pose proof (ues_image_u32 _ _ Hs) as Hu. split; [apply Hu|].
  rewrite (ues_image _ _ Hs) in *. by apply page_multiple_bound, seg_address_page.
Qed.

(** The relocation table is in the file. *)
Lemma RelocTable_bounds File c :
  bytes File → u32 (size File) → UeOk File c → RelocTableSize c ≠ 0 →
  8 <= RelocTableSize c ∧ LoadTablesFileOffset c + RelocTableSize c <= size File ∧
  (8 | RelocTableSize c) ∧ 0 <= LoadTablesFileOffset c ∧ (8 | LoadTablesFileOffset c).
Proof.
  intros Hb Hsz [Hh Hs Ht _ _ _ _] Hne. rewrite (uet_reloc _ _ Ht) in *.
  unfold has_relocs in *. destruct (Z.ltb_spec 0 (NumLoadTables c)); [|done].
  destruct (table_id File c 0 =? UeLoadTableIdReloc); [cbn in *|done].
  pose proof (table_offset_mono File c 1 (NumLoadTables c) ltac:(lia)) as Hm.
  rewrite (uet_end _ _ Ht) in Hm. pose proof (table_offset_succ File c 0 ltac:(done)) as Hsucc.
  assert (table_offset File c 0 = LoadTablesFileOffset c) as Hzero by apply Z.add_0_r.
  rewrite Z.add_0_l in Hsucc.
  destruct (table_size_spec File c 0) as [[Hp _] Hd]. pose proof Hd as [q Hq].
  pose proof (ues_in_file _ _ Hs). pose proof (UeHeaderOk_bounds _ Hb _ Hh) as (_ & _ & ? & _).
  split_and!; [lia|lia|done|lia|]. rewrite (ues_tables _ _ Hs). apply align_up_divide.
Qed.

Lemma InternaRelocateImage_spec rt s Base :
  UeRelocatable rt s Base →
  wp (InternaRelocateImage Memory (ImageSize (Context s)) (BaseAddress (Context s)) (ue_reloc_table s)
        (RelocTableSize (Context s)) (ue_chaining (FileBuffer s)) Base false)
    (λ _ s', ∃ roots, ue_fixups s Base = Some roots ∧
      s' = relocating (Context s) (FileBuffer s) (ImageAddress s) rt
        (apply_fixups (ImageBuffer s) (ue_adjust s Base) (ImageBuffer s) (all_fixups roots))
        (unchained_table roots) (fixup_data (ImageBuffer s) (ue_adjust s Base) (all_fixups roots)))
    (reloc_error rt (ImageBuffer s) (ue_fixups s Base = None)) s.
Proof.
  intros []. assert (s = relocating (Context s) (FileBuffer s) (ImageAddress s) rt (ImageBuffer s) [] [])
    as Hst by (destruct s; cbn in *; by subst).
  unfold InternaRelocateImage, ue_fixups.
  destruct (Z.eqb_spec (RelocTableSize (Context s)) 0) as [Hz|Hz]; [wp_step; by exists []|].
  cbn [orb]. fold (ue_adjust s Base).
  destruct ((ue_adjust s Base =? 0) && negb (ue_chaining (FileBuffer s))) eqn:Hskip; [wp_step; by exists []|].
  destruct (RelocTable_bounds _ _ uer_file0 uer_file_size0 uer_ok0 Hz) as (H8 & Hin & Hd8 & Ho & _).
  pose proof (ImageSize_bounds _ _ uer_ok0) as HIS.
  assert (size (ue_reloc_table s) = size (FileBuffer s) - LoadTablesFileOffset (Context s)) as HTs.
  { unfold ue_reloc_table, size in *. rewrite length_drop. lia. }
  assert (bytes (ue_reloc_table s)) as HT by by apply Forall_drop.
  assert (4 | RelocTableSize (Context s)) as Hd4 by (etrans; [|exact Hd8]; by exists 2).
  pose proof (RelocateRoots_spec Memory (Context s) (FileBuffer s) (ImageAddress s) rt
    (ImageBuffer s) uer_image0 (ImageSize (Context s)) ltac:(lia) ltac:(lia)
    (λ H, proj2 (uer_record0 H)) (ue_adjust s Base) (ue_chaining (FileBuffer s)) (λ H, proj1 (uer_record0 H))
    (ue_reloc_table s) HT (RelocTableSize (Context s)) ltac:(lia) ltac:(unfold is_uint in *; lia) Hd4
    (S (Z.to_nat (RelocTableSize (Context s))))
    {| TableOffset := 0; RelocTarget := 0; FixupPointer := 0; LocalFixupData := None |}
    (ImageBuffer s) [] []) as Hw.
  rewrite <- Hst in Hw. apply Hw; cbn [RelocTarget TableOffset]; try done || lia; apply Z.divide_0_r.
Qed.

Lemma UeRelocateImage_spec rt s Base RtSize :
  UeRelocatable rt s Base →
  RtSize = 0 ∨ is_Some rt ∧ UeLoaderGetRuntimeContextSize <= RtSize →
  let rt' := (λ _, Machine (Context s)) <$> rt in
  wp (UeRelocateImage Memory Base RtSize)
    (λ _ s', ∃ roots, ue_fixups s Base = Some roots ∧
      s' = relocating (Context s) (FileBuffer s) (ImageAddress s) rt'
        (apply_fixups (ImageBuffer s) (ue_adjust s Base) (ImageBuffer s) (all_fixups roots))
        (unchained_table roots) (fixup_data (ImageBuffer s) (ue_adjust s Base) (all_fixups roots)))
    (reloc_error rt' (ImageBuffer s) (ue_fixups s Base = None)) s.
Proof.
  intros Hr HRt rt'. pose proof Hr as []. unfold UeRelocateImage. wp_step. wp_step.
  assert (∀ x, (8 | x) → IS_ALIGNED x UE_LOAD_TABLE_ALIGNMENT = true) as H8
    by (intros; by apply IS_ALIGNED_spec).
  wp_step. apply wp_ASSERT.
  { apply H8. rewrite (ues_tables _ _ (ue_segments_ok _ _ uer_ok0)). apply align_up_divide. }
  wp_step. apply wp_ASSERT.
  { apply H8. rewrite (uet_reloc _ _ (ue_tables_ok _ _ uer_ok0)).
    destruct (has_relocs _ _); [apply table_size_spec|apply Z.divide_0_r]. }
  wp_step. apply wp_ASSERT; [done|]. rewrite uer_runtime0.
  wp_step. apply wp_ASSERT.
  { destruct HRt as [->|[[m ->] _]]; [apply orb_true_r|]. by rewrite bool_decide_true by eauto. }
  wp_step. apply wp_ASSERT.
  { destruct HRt as [->|[_ HRt]]; [done|]. apply orb_true_iff. right. by apply Z.leb_le. }
  pose proof (UeHeaderOk_bounds _ uer_file0 _ (ue_header_ok _ _ uer_ok0)) as (_ & _ & ? & _).
  pose proof (ueh_in_file _ _ (ue_header_ok _ _ uer_ok0)).
  wp_step. wp_step; [autounfold with ue_layout; lia..|].
  rewrite (ueh_xip _ _ (ue_header_ok _ _ uer_ok0)). fold (bit_clear (load 8 (FileBuffer s) UE_HEADER_ImageInfo)
    UE_HEADER_IMAGE_INFO_CHAINED_FIXUPS). fold (ue_chaining (FileBuffer s)) (ue_reloc_table s).
  set (s0 := relocating (Context s) (FileBuffer s) (ImageAddress s) rt' (ImageBuffer s) [] []).
  wp_step. apply (wp_mono _ (λ _ s', s' = s0) _ (λ _ _, False)); [| |done].
  { destruct rt as [m|]; cbn [recorded fmap option_fmap option_map]; wp_step; [done|].
    by destruct s; cbn in *; subst. }
  intros [] s' ->. wp_step. wp_step.
  assert (UeRelocatable rt' s0 Base) as Hr0.
  { split; try done. intros [m Hm]. apply uer_record0. by destruct rt; eauto. }
  apply (InternaRelocateImage_spec rt' s0 Base Hr0).
Qed.
End UeRelocateProofs.

(** C27. UeRelocateImage is exact.  For a loaded image that is not for execution in place, and no runtime
    context or, if the image is chained and has less than 2 GiB, a zeroed one, it does not fault and
    terminates whatever the relocation table and the
    chains contain.  When it succeeds, the image is the unrelocated one with every
    fixup the table and the chains list written once, with its own old value plus
    the displacement, and the runtime context holds the fixups as a table without
    chains, and their values; it fails only when the list is not well-formed, or
    for want of memory for the record. *)
Theorem ue_relocate_exact `{!Platform, !PlatformOk, !OverflowLib}
    (Memory : UE_LOADER_RUNTIME_CONTEXT → Z → bool) (rt : option Z) (s : ue_loader) (Base RtSize : Z)
    (Hs : UeRelocatable rt s Base)
    (HRt : RtSize = 0 ∨ is_Some rt ∧ UeLoaderGetRuntimeContextSize <= RtSize) :
  match UeRelocateImage Memory Base RtSize s with
  | Ok _ s' => ∃ roots, ue_fixups s Base = Some roots ∧
      s' = {| Context := Context s; FileBuffer := FileBuffer s;
              ImageBuffer := apply_fixups (ImageBuffer s) (ue_adjust s Base) (ImageBuffer s)
                               (all_fixups roots);
              ImageAddress := ImageAddress s;
              RuntimeContext := recorded ((λ _, Machine (Context s)) <$> rt) (unchained_table roots)
                (fixup_data (ImageBuffer s) (ue_adjust s Base) (all_fixups roots)) |}
  | Err e s' => (e = RETURN_OUT_OF_RESOURCES ∧ is_Some rt ∨ ue_fixups s Base = None) ∧
      size (ImageBuffer s') = size (ImageBuffer s)
  | Fault _ => False
  end.
Proof.
  pose proof (wp_cases _ _ _ _ (UeRelocateImage_spec Memory rt s Base RtSize Hs HRt)) as Hw.
  destruct (UeRelocateImage Memory Base RtSize s) as [[] s'|e s'|]; [done| |done].
  destruct Hw as [[[He Hrt]|Hno] Hsz]; split; try done; [|by right].
  left. split; [done|]. by apply fmap_is_Some in Hrt.
Qed.

(** The sample image, loaded, with a zeroed runtime context. *)
Definition ue_sample_loaded : ue_loader :=
  match @UeLoadImage platform_x64 (zeros 4096) 0x200000 4096 ue_sample_state with
  | Ok _ s => s
  | _ => ue_sample_state
  end.
Definition ue_sample_recording : ue_loader := {|
  Context := ue_sample_context; FileBuffer := ue_sample; ImageBuffer := ImageBuffer ue_sample_loaded;
  ImageAddress := 0x200000; RuntimeContext := recorded (Some 0) [] [] |}.

Definition no_limit : UE_LOADER_RUNTIME_CONTEXT → Z → bool := λ _ _, true.

Lemma ue_sample_relocatable : UeRelocatable (Some 0) ue_sample_recording 0x200000.
Proof.
  split.
  - exact ue_sample_bytes.
  - by vm_compute.
  - exact ue_sample_ok.
  - apply bytesb_spec. by vm_compute.
  - by vm_compute.
  - by vm_compute.
  - done.
  - intros _. split; by vm_compute.
Qed.

Lemma ue_sample_one_fixup :
  (length ∘ all_fixups) <$> ue_fixups ue_sample_recording 0x200000 = Some 1%nat.
Proof. by vm_compute. Qed.

Definition ue_sample_relocated : ue_loader :=
  match @UeRelocateImage platform_x64 (BaseOverflowLib build_gcc_x64) no_limit 0x200000 40
          ue_sample_recording with
  | Ok _ s => s
  | _ => ue_sample_recording
  end.

Lemma ue_sample_relocates :
  @UeRelocateImage platform_x64 (BaseOverflowLib build_gcc_x64) no_limit 0x200000 40 ue_sample_recording
    = Ok tt ue_sample_relocated.
Proof. by vm_compute. Qed.

Lemma ue_sample_relocated_value : load 8 (ImageBuffer ue_sample_relocated) 0 = 0x200010.
Proof. by vm_compute. Qed.

Strategy 1000 [ue_sample_relocated ue_sample_loaded].

Lemma ue_relocate_exact_witness :
  ∃ roots, ue_fixups ue_sample_recording 0x200000 = Some roots ∧ length (all_fixups roots) = 1%nat ∧
    load 8 (apply_fixups (ImageBuffer ue_sample_recording) (ue_adjust ue_sample_recording 0x200000)
      (ImageBuffer ue_sample_recording) (all_fixups roots)) 0 = 0x200010.
Proof.
  assert (is_Some (Some 0) ∧ @UeLoaderGetRuntimeContextSize platform_x64 <= 40) as HRt
    by (split; [by eexists|by vm_compute]).
  pose proof (@ue_relocate_exact platform_x64 platform_x64_ok (BaseOverflowLib build_gcc_x64) no_limit
    (Some 0) ue_sample_recording 0x200000 40 ue_sample_relocatable (or_intror HRt)) as Hw.
  rewrite ue_sample_relocates in Hw. destruct Hw as (roots & Hroots & Hs). exists roots.
  pose proof ue_sample_one_fixup as Hone. rewrite Hroots in Hone.
  pose proof ue_sample_relocated_value as Hv. rewrite Hs in Hv.
  split; [exact Hroots|]. split; [exact (f_equal (from_option id 0%nat) Hone)|exact Hv].
Defined.
