(* ===== verification/UeRuntime.v ===== *)
(** Relocation of a UE image at runtime: what UeRelocateImage has recorded is what
    UeRelocateImageForRuntime needs to move the image again. *)
From S2P Require Import Prelude Base Buffer Overflow UeImage UeSample UeInit UeLoad UeRelocate UeRelocateSpec.

(** ** UeRelocateImageForRuntime *)

Section UeRelocateForRuntime.
Context `{!Platform, !OverflowLib} (Memory : UE_LOADER_RUNTIME_CONTEXT → Z → bool).

(** Image is the ImageBuffer of the state. *)
Definition UeRelocateImageForRuntime (ImageSize BaseAddress_ : Z) : UeM unit :=
  s ← getS;
  match RuntimeContext s with
  | None => ASSERT false;; crash UndefinedBehaviour
  | Some r =>
      InternaRelocateImage Memory ImageSize (ImageAddress s) (UnchainedRelocs r) (UnchainedRelocsSize r)
        false BaseAddress_ true
  end.
End UeRelocateForRuntime.

(** ** Where fixups are *)

(** The fixups of a root follow one another from [t] to [e]. *)
Fixpoint placed (t : Z) (l : list fixup) (e : Z) : Prop :=
  match l with
  | [] => False
  | [f] => fx_target f = t ∧ fx_end f = e
  | f :: l => fx_target f = t ∧ fx_next f ≠ UE_HEAD_FIXUP_OFFSET_END ∧ placed (fx_end f + fx_next f) l e
  end.

(** The offset in the last of the fixups. *)
Fixpoint last_next (l : list fixup) : Z :=
  match l with
  | [] => 0
  | [f] => fx_next f
  | _ :: l => last_next l
  end.

(** A fixup of a table: its type is known, it is in the image. *)
Record valid_fixup (Size : Z) (f : fixup) : Prop := {
  vf_type : 0 <= fx_type f < UeRelocGenericMax;
  vf_next : 0 <= fx_next f < 2 ^ 12;
  vf_target : 0 <= fx_target f;
  vf_end : fx_end f <= Size;
}.

(** Fixups in increasing order, from [t] on. *)
Fixpoint ordered (t : Z) (l : list fixup) : Prop :=
  match l with
  | [] => True
  | f :: l => t <= fx_target f ∧ ordered (fx_end f) l
  end.

Fixpoint roots_placed (Size t : Z) (roots : list (Z * list fixup)) : Prop :=
  match roots with
  | [] => True
  | (first, l) :: roots => u32 first ∧ t + first < 2 ^ 32 ∧ ∃ e, placed (t + first) l e ∧
      last_next l = UE_HEAD_FIXUP_OFFSET_END ∧ Forall (valid_fixup Size) l ∧ roots_placed Size e roots
  end.

Lemma fx_end_gt f : fx_target f + 4 <= fx_end f <= fx_target f + 8.
Proof. unfold fx_end. pose proof (fx_width_bounds (fx_type f)). lia. Qed.

Lemma placed_cons f l t e :
  l ≠ [] → placed t (f :: l) e ↔
    fx_target f = t ∧ fx_next f ≠ UE_HEAD_FIXUP_OFFSET_END ∧ placed (fx_end f + fx_next f) l e.
Proof. by destruct l. Qed.

Lemma last_next_cons f l : l ≠ [] → last_next (f :: l) = last_next l.
Proof. by destruct l. Qed.

Lemma placed_nonempty t l e : placed t l e → l ≠ [].
Proof. by destruct l. Qed.

Lemma placed_app t l1 e l2 e' :
  placed t l1 e → last_next l1 ≠ UE_HEAD_FIXUP_OFFSET_END → placed (e + last_next l1) l2 e' →
  placed t (l1 ++ l2) e'.
Proof.
  revert t. induction l1 as [|f l1 IH]; intros t Hl1 Hn Hl2; [done|].
  assert (l2 ≠ []) by by eapply placed_nonempty. destruct (decide (l1 = [])) as [->|Hne].
  - destruct Hl1 as [Ht He]. cbn [app]. apply placed_cons; [done|]. by rewrite He.
  - apply placed_cons in Hl1 as (Ht & Hf & Hl1); [|done]. rewrite last_next_cons in * by done.
    cbn [app]. apply placed_cons; [by destruct l1|]. split_and!; [done..|]. by apply IH.
Qed.

Lemma placed_set_last t l e n : placed t l e → placed t (set_last_next n l) e ∧ last_next (set_last_next n l) = n.
Proof.
  revert t. induction l as [|f l IH]; intros t Hl; [done|]. destruct (decide (l = [])) as [->|Hne]; [done|].
  apply placed_cons in Hl as (Ht & Hf & Hl); [|done]. destruct (IH _ Hl) as [Hp Hn].
  replace (set_last_next n (f :: l)) with (f :: set_last_next n l) by by destruct l.
  pose proof (placed_nonempty _ _ _ Hp).
  split; [by apply placed_cons|]. by rewrite last_next_cons.
Qed.

(** Fixups that follow one another are ordered and end at [e]. *)
Lemma placed_ordered Size t l e :
  placed t l e → Forall (valid_fixup Size) l →
  ordered t l ∧ Forall (λ f, fx_end f <= e) l ∧ t + 4 * Z.of_nat (length l) <= e <= Size.
Proof.
  revert t. induction l as [|f l IH]; intros t Hl Hv; [done|]. inversion_clear Hv as [|?? Hf Hv'].
  pose proof (fx_end_gt f) as Hgt. destruct Hf. destruct (decide (l = [])) as [->|Hne].
  - destruct Hl as [Ht <-]. cbn. split_and!; try done || lia. by constructor.
  - apply placed_cons in Hl as (Ht & _ & Hl); [|done]. destruct (IH _ Hl Hv') as (Ho & He & Hlen).
    cbn [ordered length]. split_and!; try lia.
    + destruct l as [|g l]; [done|]. cbn in *. split; [lia|apply Ho].
    + constructor; [lia|done].
Qed.

Lemma ordered_app t l1 e l2 :
  ordered t l1 → Forall (λ f, fx_end f <= e) l1 → t <= e → ordered e l2 → ordered t (l1 ++ l2).
Proof.
  revert t. induction l1 as [|f l1 IH]; intros t Ho He Hle Ho2; cbn.
  - destruct l2 as [|g l2]; [done|]. destruct Ho2. split; [lia|done].
  - destruct Ho as [Hf Ho]. inversion_clear He. split; [done|]. by apply IH.
Qed.

(** ** The fixups of an image are placed *)

Section Placed.
Context (Image : list Z) (Size : Z) (Table : list Z) (HTable : bytes Table) (TableSize : Z) (Chaining : bool).

Lemma chain_placed fuel ty t l e :
  chain_fixups Image Size fuel ty t = Some (l, e) → 0 <= t →
  placed t l e ∧ Forall (valid_fixup Size) l.
Proof.
  revert ty t l. induction fuel as [|fuel IH]; intros ty t l Hl Ht; [done|]. cbn [chain_fixups] in Hl.
  fold (can_link Size ty t) (chain_link Image ty t) in Hl.
  destruct (can_link Size ty t) eqn:Hlink; [|done].
  destruct (can_link_true Image _ _ _ Hlink) as [Hty He].
  destruct (link_bounds ty (load (fx_width ty) Image t)) as [Hnext _].
  assert (valid_fixup Size (chain_link Image ty t)) as Hv by by split.
  set (f := chain_link Image ty t) in *.
  destruct (Z.eqb_spec (fx_next f) UE_CHAINED_RELOC_FIXUP_OFFSET_END) as [Hn|Hn].
  { simplify_eq. split; [done|]. by constructor. }
  destruct (chain_fixups Image Size fuel _ _) as [[l' e']|] eqn:Hl'; [|done]. cbn in Hl. simplify_eq.
  pose proof (fx_end_gt f). destruct (IH _ _ _ Hl') as [Hp Hvl]; [destruct Hv; lia|].
  split; [|by constructor]. apply placed_cons; [by eapply placed_nonempty|done].
Qed.

Lemma entry_placed Info t l e :
  u16 Info → 0 <= t → entry_fixups Image Size Chaining Info t = Some (l, e) →
  placed t l e ∧ Forall (valid_fixup Size) l.
Proof.
  intros HInfo Ht. destruct (header_unpack Info HInfo) as (_ & Hnext & Hty). unfold entry_fixups.
  destruct (Chaining && negb (UE_RELOC_FIXUP_TYPE Info =? UeReloc32NoMeta)).
  { intros Hl. by eapply chain_placed. }
  destruct (_ && _) eqn:Hap; [|done]. intros ?. simplify_eq.
  apply andb_true_iff in Hap as [Hmax%Z.ltb_lt He%Z.leb_le].
  split; [done|]. constructor; [|done]. split; cbn; done || lia.
Qed.

Lemma valid_set_last n l :
  0 <= n < 2 ^ 12 → Forall (valid_fixup Size) l → Forall (valid_fixup Size) (set_last_next n l).
Proof.
  intros Hn Hv. destruct l as [|f l _] using rev_ind; [done|]. rewrite set_last_next_snoc.
  apply Forall_app in Hv as [Hv Hf]. apply Forall_app. split; [done|].
  rewrite Forall_singleton in *. by destruct Hf.
Qed.

Lemma root_placed fuel o t l o' e :
  0 <= t → root_fixups Image Size Table TableSize Chaining fuel o t = Some (l, o', e) →
  placed t l e ∧ last_next l = UE_HEAD_FIXUP_OFFSET_END ∧ Forall (valid_fixup Size) l.
Proof.
  revert o t l. induction fuel as [|fuel IH]; intros o t l Ht Hl; [done|]. cbn [root_fixups] in Hl.
  assert (u16 (load 2 Table o)) as HInfo by by apply load_u16.
  destruct (header_unpack _ HInfo) as (_ & Hnext & _).
  set (Info := load 2 Table o) in *. set (next := UE_RELOC_FIXUP_OFFSET Info) in *.
  destruct (entry_fixups Image Size Chaining Info t) as [[l1 e1]|] eqn:Hl1; [|done].
  destruct (entry_placed _ _ _ _ HInfo Ht Hl1) as [Hp Hv]. cbn in Hl.
  destruct (placed_set_last _ _ _ next Hp) as [Hp1 Hn1].
  pose proof (valid_set_last next l1 Hnext Hv) as Hv1.
  destruct (Z.eqb_spec next UE_HEAD_FIXUP_OFFSET_END) as [Heq|Hne].
  { injection Hl as <- <- <-. split_and!; [done|by rewrite Hn1|done]. }
  destruct (TableSize - 2 <? o + 2); [done|].
  destruct (root_fixups _ _ _ _ _ _ _ _) as [[[l2 o2] e2]|] eqn:Hl2; [|done]. cbn in Hl. injection Hl as <- <- <-.
  destruct (placed_ordered _ _ _ _ Hp1 Hv1) as (_ & _ & Hlen).
  destruct (IH (o + 2) (e1 + next) l2 ltac:(lia) Hl2) as (Hp2 & Hn2 & Hv2).
  split_and!.
  - eapply placed_app; [done|by rewrite Hn1|by rewrite Hn1].
  - clear -Hn2 Hp2. induction (set_last_next next l1) as [|f l IH]; [done|]. cbn [app].
    rewrite last_next_cons; [done|]. by destruct l, l2.
  - by apply Forall_app.
Qed.

Lemma table_placed fuel o t roots :
  0 <= t → table_fixups Image Size Table TableSize Chaining fuel o t = Some roots →
  roots_placed Size t roots.
Proof.
  revert o t roots. induction fuel as [|fuel IH]; intros o t roots Ht Hr; [done|]. cbn [table_fixups] in Hr.
  destruct (o <=? TableSize - MIN_SIZE_OF_UE_FIXUP_ROOT); [|by simplify_eq].
  assert (u32 (load 4 Table o)) as Hfirst by by apply load_u32.
  destruct (Z.ltb_spec (t + load 4 Table o) (2 ^ 32)); [|done].
  destruct (root_fixups _ _ _ _ _ _ _ _) as [[[l o'] e]|] eqn:Hl; [|done]. cbn in Hr.
  destruct (table_fixups _ _ _ _ _ _ _ _) as [roots'|] eqn:Hr'; [|done]. cbn in Hr. simplify_eq.
  apply root_placed in Hl as (Hp & Hn & Hv); [|unfold is_uint in *; lia].
  destruct (placed_ordered _ _ _ _ Hp Hv) as (_ & _ & Hlen). unfold is_uint in Hfirst.
  cbn. split; [done|]. split; [done|]. exists e. split_and!; try done. eapply IH; [|done]. lia.
Qed.
End Placed.

Lemma roots_ordered Size t roots :
  0 <= t → roots_placed Size t roots →
  ordered t (all_fixups roots) ∧ Forall (valid_fixup Size) (all_fixups roots).
Proof.
  revert t. induction roots as [|[first l] roots IH]; intros t Ht Hr; [done|].
  destruct Hr as ([Hf _] & _ & e & Hp & _ & Hv & Hr). destruct (placed_ordered _ _ _ _ Hp Hv) as (Ho & He & Hlen).
  destruct (IH e ltac:(lia) Hr) as [Ho' Hv']. unfold all_fixups in *. cbn [map concat snd]. split.
  - apply (ordered_app _ _ e); [|done|lia|done]. destruct l as [|f l]; [done|]. destruct Ho. split; [lia|done].
  - by apply Forall_app.
Qed.

(** The recorded table is no larger than twice the image. *)
Lemma size_unchained_table Size t roots :
  0 <= t <= Size → roots_placed Size t roots → size (unchained_table roots) <= 2 * (Size - t).
Proof.
  revert t. induction roots as [|[first l] roots IH]; intros t Ht Hr; [change (0 <= 2 * (Size - t)); lia|].
  destruct Hr as ([Hf _] & _ & e & Hp & _ & Hv & Hr).
  destruct (placed_ordered _ _ _ _ Hp Hv) as (_ & _ & Hlen). specialize (IH e ltac:(lia) Hr).
  pose proof (placed_nonempty _ _ _ Hp).
  assert (1 <= length l)%nat by (destruct l; [done|cbn; lia]).
  unfold unchained_table in *. cbn [map concat].
  unfold root_entries at 1. rewrite !size_app, size_le_bytes, size_fixup_entries, size_zeros; cbn [fst snd];
    Z.to_euclidean_division_equations; lia.
Qed.

(** ** What the relocated image contains *)

(** A byte of one of the fixups. *)
Definition in_fixup (i : Z) (f : fixup) : Prop := fx_target f <= i < fx_end f.

Section Effect.
Context (Image : list Z) (Size : Z) (HSize : Size <= size Image).

Lemma apply_fixups_cons A J f l :
  apply_fixups Image A J (f :: l) = apply_fixups Image A (apply_fixup Image A J f) l.
Proof. done. Qed.

Lemma size_ue_apply_fixup A J f :
  size J = size Image → valid_fixup Size f → size (apply_fixup Image A J f) = size Image.
Proof.
  intros HJ []. unfold apply_fixup, fx_end in *. rewrite size_write_bytes; rewrite ?size_le_bytes; lia.
Qed.

Lemma size_apply_fixups A J l :
  size J = size Image → Forall (valid_fixup Size) l → size (apply_fixups Image A J l) = size Image.
Proof.
  intros HJ Hl. revert J HJ. induction Hl as [|f l Hf Hl IH]; intros J HJ; [done|].
  cbn. apply IH. by apply size_ue_apply_fixup.
Qed.

Lemma byte_at_apply_fixup A J f i :
  size J = size Image → valid_fixup Size f →
  byte_at (apply_fixup Image A J f) i =
    if (fx_target f <=? i) && (i <? fx_end f)
    then byte_at (le_bytes (fx_width (fx_type f)) (fx_new Image A f)) (i - fx_target f) else byte_at J i.
Proof.
  intros HJ []. unfold apply_fixup, fx_end in *. rewrite byte_at_write_bytes; rewrite ?size_le_bytes; [done|lia..].
Qed.

(** Bytes outside the fixups are untouched. *)
Lemma apply_fixups_outside A J l i :
  size J = size Image → Forall (valid_fixup Size) l → ¬ Exists (in_fixup i) l →
  byte_at (apply_fixups Image A J l) i = byte_at J i.
Proof.
  intros HJ Hl. revert J HJ. induction Hl as [|f l Hf Hl IH]; intros J HJ Hi; [done|].
  rewrite apply_fixups_cons, IH; [|by apply size_ue_apply_fixup|by intros ?; apply Hi; right].
  rewrite byte_at_apply_fixup by done. destruct (Z.leb_spec (fx_target f) i), (Z.ltb_spec i (fx_end f)); try done.
  exfalso. apply Hi. by left.
Qed.

(** Bytes of the fixups do not depend on the image they are written to. *)
Lemma apply_fixups_inside A J J' l i :
  size J = size Image → size J' = size Image → Forall (valid_fixup Size) l →
  (Exists (in_fixup i) l ∨ byte_at J i = byte_at J' i) →
  byte_at (apply_fixups Image A J l) i = byte_at (apply_fixups Image A J' l) i.
Proof.
  intros HJ HJ' Hl. revert J J' HJ HJ'. induction Hl as [|f l Hf Hl IH]; intros J J' HJ HJ' Hi.
  { destruct Hi as [Hi|Hi]; [by inversion Hi|done]. }
  rewrite !apply_fixups_cons. apply IH; [by apply size_ue_apply_fixup..|]. rewrite !byte_at_apply_fixup by done.
  destruct Hi as [[Hin|?]%Exists_cons|Hi]; [|by left|].
  - right. destruct Hin. by destruct (Z.leb_spec (fx_target f) i), (Z.ltb_spec i (fx_end f)); [|lia..].
  - right. by rewrite Hi.
Qed.

(** Relocating again overwrites the first relocation. *)
Lemma apply_fixups_twice A A' l :
  Forall (valid_fixup Size) l →
  apply_fixups Image A' (apply_fixups Image A Image l) l = apply_fixups Image A' Image l.
Proof.
  intros Hl. pose proof (size_apply_fixups A Image l eq_refl Hl) as Hs.
  apply buffer_ext; [by rewrite !size_apply_fixups|]. intros i _.
  apply apply_fixups_inside; [done..|]. destruct (decide (Exists (in_fixup i) l)) as [|Hno]; [by left|].
  right. by apply apply_fixups_outside.
Qed.

(** Fixups below [t] are not touched by fixups from [t] on. *)
Lemma ordered_outside t l i : ordered t l → i < t → ¬ Exists (in_fixup i) l.
Proof.
  revert t. induction l as [|f l IH]; intros t Ho Hi He; inversion_clear He as [?? Hin|?? Hin].
  - destruct Ho, Hin. lia.
  - destruct Ho as [Ht Ho]. pose proof (fx_end_gt f). apply (IH _ Ho); [lia|done].
Qed.

(** Every fixup has its new value. *)
Lemma load_apply_fixups A J t l f :
  size J = size Image → Forall (valid_fixup Size) l → ordered t l → f ∈ l →
  load (fx_width (fx_type f)) (apply_fixups Image A J l) (fx_target f) = fx_new Image A f.
Proof.
  intros HJ Hl. revert J t HJ. induction Hl as [|g l Hg Hl IH]; intros J t HJ Ho Hin; [by inversion Hin|].
  destruct Ho as [_ Ho]. rewrite apply_fixups_cons. apply elem_of_cons in Hin as [->|Hin].
  - rewrite (load_ext _ _ (apply_fixup Image A J g) _ (fx_target g)).
    + unfold apply_fixup. destruct Hg. unfold fx_end in *.
      rewrite load_write_same by lia. apply Zmod_mod.
    + intros i Hi. apply apply_fixups_outside; [by apply size_ue_apply_fixup|done|].
      apply (ordered_outside (fx_end g)); [done|]. unfold fx_end. lia.
  - eapply IH; [by apply size_ue_apply_fixup|done|done].
Qed.

(** The displacement matters modulo 2^64 only, and displacements add up. *)
Lemma fx_new_congr A A' f : A mod 2 ^ 64 = A' mod 2 ^ 64 → fx_new Image A f = fx_new Image A' f.
Proof.
  intros HA. unfold fx_new, wrap. pose proof (fx_width_bounds (fx_type f)).
  assert (2 ^ (8 * Z.of_nat (fx_width (fx_type f))) | 2 ^ 64) as Hd.
  { exists (2 ^ (64 - 8 * Z.of_nat (fx_width (fx_type f)))). rewrite <- Z.pow_add_r by lia. f_equal. lia. }
  rewrite <- (Zplus_mod_idemp_r A), <- (Zplus_mod_idemp_r A'),
    <- (Z.mod_mod_divide A _ _ Hd), <- (Z.mod_mod_divide A' _ _ Hd), HA. done.
Qed.

Lemma apply_fixups_congr A A' J l :
  A mod 2 ^ 64 = A' mod 2 ^ 64 → apply_fixups Image A J l = apply_fixups Image A' J l.
Proof.
  intros HA. revert J. induction l as [|f l IH]; intros J; [done|].
  rewrite !apply_fixups_cons, IH. unfold apply_fixup. by rewrite (fx_new_congr A A').
Qed.

Lemma fx_new_add A B f :
  wrap (8 * Z.of_nat (fx_width (fx_type f))) (fx_new Image A f + B) = fx_new Image (A + B) f.
Proof. unfold fx_new, wrap. rewrite Zplus_mod_idemp_l. f_equal. lia. Qed.
End Effect.

(** ** The runtime pass over the recorded table *)

Lemma size_root_entries first l :
  size (root_entries (first, l)) = align_up (4 + 2 * Z.of_nat (length l)) 4.
Proof.
  unfold root_entries, align_up. rewrite !size_app, size_le_bytes, size_fixup_entries, size_zeros;
    cbn [fst snd]; Z.to_euclidean_division_equations; lia.
Qed.

Lemma align_up_add x y : (4 | x) → align_up (x + y) 4 = x + align_up y 4.
Proof. intros [q ->]. unfold align_up. Z.to_euclidean_division_equations; lia. Qed.

Section Runtime.
Context `{!Platform, !PlatformOk, !OverflowLib} (Memory : UE_LOADER_RUNTIME_CONTEXT → Z → bool).
Context (Image : list Z) (Size : Z) (HSize : 0 <= Size <= size Image) (HSize32 : Size < 2 ^ 32).
Context (A B : Z) (Table D : list Z).

(** The states of the pass. *)
Definition at_runtime (s : ue_loader) (J : list Z) : Prop :=
  ImageBuffer s = J ∧ size J = size Image ∧
  ∃ r, RuntimeContext s = Some r ∧ FixupData r = D.

Lemma at_runtime_write s J f :
  at_runtime s J → valid_fixup Size f →
  at_runtime (with_Image (apply_fixup Image (A + B) J f) s) (apply_fixup Image (A + B) J f).
Proof.
  intros (_ & Hs & Hr) Hf. split; [done|]. split; [|done]. apply (size_ue_apply_fixup _ Size); [lia|done..].
Qed.

(** The fixup at [t] whose value is the recorded one. *)
Lemma InternalApplyRelocation_runtime s J f k :
  at_runtime s J → valid_fixup Size f → 0 <= k → 8 * k + 8 <= size D →
  load 8 D (8 * k) = fx_new Image A f →
  load (fx_width (fx_type f)) J (fx_target f) = fx_new Image A f →
  wp (InternalApplyRelocation Size (fx_type f) (fx_target f) B k true)
    (λ r s', r = (fx_end f, None) ∧ s' = with_Image (apply_fixup Image (A + B) J f) s) (λ _ _, False) s.
Proof.
  intros (HJ & HsJ & r & Hr & HD) [] Hk Hin Hdata Hval. unfold InternalApplyRelocation, fx_end in *.
  pose proof (fx_width_bounds (fx_type f)) as Hw.
  rewrite ovf_sub_u32_spec by (unfold is_uint; lia).
  assert (fits_u 32 (Size - fx_target f) = true) as -> by (apply fits_u_spec; unfold is_uint; lia).
  apply wp_bind, wp_fail_if; [done|intros _]. rewrite wrap_small by (unfold is_uint; lia).
  destruct (Z.ltb_spec (fx_type f) UeRelocGenericMax); [|lia].
  enough (∀ store, wp (ApplyFixup (fx_width (fx_type f)) store (Size - fx_target f) (fx_target f) B k true)
    (λ r s', r = (fx_target f + Z.of_nat (fx_width (fx_type f)), None) ∧
      s' = with_Image (apply_fixup Image (A + B) J f) s) (λ _ _, False) s) as Hall.
  { assert (fx_type f = UeReloc32 ∨ fx_type f = UeReloc64 ∨ fx_type f = UeReloc32NoMeta) as Hc
      by (autounfold with ue_layout in *; lia).
    destruct Hc as [Hc|[Hc|Hc]]; rewrite Hc in *;
      cbn [Z.eqb UeReloc32 UeReloc64 UeReloc32NoMeta Pos.eqb]; apply Hall. }
  intros store. unfold ApplyFixup, target_mismatch, read_FixupData.
  apply wp_bind, wp_fail_if; [intros ?%Z.ltb_lt; lia|intros _].
  wp_step. apply wp_ue_read; [lia|rewrite HJ; lia|]. rewrite HJ, Hval.
  wp_step. wp_step. wp_step. wp_step. rewrite Hr. wp_step; [lia|rewrite HD; lia|]. wp_step.
  rewrite HD, Hdata.
  assert (wrap (8 * Z.of_nat (fx_width (fx_type f))) (fx_new Image A f) = fx_new Image A f) as ->
    by (unfold fx_new, wrap; apply Zmod_mod).
  rewrite Z.eqb_refl. cbn [negb].
  assert (wrap (8 * Z.of_nat (fx_width (fx_type f)))
    (fx_new Image A f + wrap (8 * Z.of_nat (fx_width (fx_type f))) B) = fx_new Image (A + B) f) as ->.
  { rewrite <- fx_new_add. unfold wrap. by rewrite Zplus_mod_idemp_r. }
  wp_step. apply wp_ue_write; [lia|rewrite size_le_bytes, HJ; lia|]. rewrite HJ. wp_step.
  rewrite wrap_small by (unfold is_uint; lia). by rewrite andb_false_r.
Qed.

Lemma UnchainReloc_runtime m off d (Q : unit → ue_loader → Prop) E s :
  Q tt s → wp (UnchainReloc Memory m true off d) Q E s.
Proof. intros HQ. unfold UnchainReloc. wp_step. wp_step. by destruct (RuntimeContext s); apply wp_ret. Qed.

(** Later fixups still have their recorded values after one is relocated. *)
Lemma later_values J f l :
  size J = size Image → valid_fixup Size f → Forall (valid_fixup Size) l → ordered (fx_end f) l →
  (∀ g, g ∈ l → load (fx_width (fx_type g)) J (fx_target g) = fx_new Image A g) →
  ∀ g, g ∈ l → load (fx_width (fx_type g)) (apply_fixup Image (A + B) J f) (fx_target g) = fx_new Image A g.
Proof.
  intros HJ Hf Hl Ho Hv g Hg. rewrite <- (Hv g Hg). destruct Hf. unfold apply_fixup, fx_end in *.
  apply load_write_disjoint; rewrite ?size_le_bytes; [lia|lia|]. right.
  clear -Ho Hg. revert Ho. generalize (fx_target f + Z.of_nat (fx_width (fx_type f))) as t.
  induction Hg as [g l|g h l Hg IH]; intros t [Ht Ho]; [done|].
  pose proof (fx_end_gt h). specialize (IH _ Ho). lia.
Qed.

Context (TableSize : Z) (HTableSize : TableSize = size Table) (HTable32 : TableSize < 2 ^ 32).

Lemma RelocateHeads_runtime l : ∀ t e v s J pre post dpre dpost fuel,
  placed t l e → last_next l = UE_HEAD_FIXUP_OFFSET_END → Forall (valid_fixup Size) l → ordered t l →
  RelocTarget v = t → TableOffset v = size pre → 8 * FixupPointer v = size dpre →
  Table = pre ++ fixup_entries l ++ post → D = dpre ++ fixup_data Image A l ++ dpost →
  at_runtime s J → (∀ f, f ∈ l → load (fx_width (fx_type f)) J (fx_target f) = fx_new Image A f) →
  (length l <= fuel)%nat →
  wp (RelocateHeads Memory Size B Table TableSize false true fuel v)
    (λ v' s', v' = {| TableOffset := size pre + 2 * Z.of_nat (length l); RelocTarget := e;
                      FixupPointer := FixupPointer v + Z.of_nat (length l);
                      LocalFixupData := LocalFixupData v |} ∧
      s' = with_Image (apply_fixups Image (A + B) J l) s) (λ _ _, False) s.
Proof.
  induction l as [|f l IH];
    intros t e v s J pre post dpre dpost fuel Hp Hlast Hv Ho Ht Hpre Hdpre HT HD Hs Hval Hfuel; [done|].
  destruct fuel as [|fuel]; [cbn in Hfuel; lia|]. inversion_clear Hv as [|?? Hf Hvl].
  pose proof (size_nonneg pre). pose proof (size_nonneg dpre). pose proof (size_nonneg post).
  pose proof (size_nonneg dpost). pose proof Hf as [Hty Hnext Htgt Hend].
  assert (size Table = size pre + 2 * Z.of_nat (length (f :: l)) + size post) as HTs
    by (rewrite HT, !size_app, size_fixup_entries; lia).
  assert (size D = size dpre + 8 * Z.of_nat (length (f :: l)) + size dpost) as HDs
    by (rewrite HD, !size_app, size_fixup_data; lia).
  cbn [length] in HTs, HDs. rewrite fixup_entries_cons, <- app_assoc in HT.
  rewrite fixup_data_cons, <- app_assoc in HD. autounfold with ue_layout in Hty.
  assert (fx_target f = t) as Htf by (destruct l; apply Hp).
  cbn [RelocateHeads]. rewrite Hpre. wp_step. wp_step; [lia|cbn; lia|].
  replace (load 2 Table (size pre)) with (fx_next f * 16 + fx_type f).
  2: { rewrite HT, load_middle. symmetry. apply Z.mod_small. cbn. lia. }
  rewrite (wrap_small 32 (size pre + 2)), (wrap_small 32 (TableSize - 2)) by (unfold is_uint; lia).
  unfold RelocateFixup. cbn [andb]. rewrite header_type by lia. rewrite header_offset by lia.
  cbn [RelocTarget FixupPointer TableOffset LocalFixupData]. rewrite Ht, <- Htf.
  wp_step. wp_step. eapply wp_mono; [apply (InternalApplyRelocation_runtime s J f)| |done]; try done || lia.
  { rewrite Hdpre, HD, load_middle. apply Z.mod_small. pose proof (fx_width_bounds (fx_type f)).
    unfold fx_new. destruct (wrap_range (8 * Z.of_nat (fx_width (fx_type f))) (fx_old Image f + A)) as [? Hlt];
      [lia|]. split; [done|]. eapply Z.lt_le_trans; [exact Hlt|]. apply Z.pow_le_mono_r; cbn; lia. }
  { apply Hval. by left. }
  intros r s' (-> & ->). wp_step. apply UnchainReloc_runtime. wp_step. wp_step. apply UnchainReloc_runtime.
  cbn [TableOffset RelocTarget FixupPointer LocalFixupData].
  destruct (decide (l = [])) as [->|Hne].
  - cbn in Hlast. rewrite Hlast, Z.eqb_refl. wp_step. destruct Hp as [_ <-]. done.
  - apply placed_cons in Hp as (_ & Hn & Hp); [|done]. rewrite last_next_cons in Hlast by done.
    apply Z.eqb_neq in Hn. rewrite Hn.
    assert (1 <= length l)%nat by (destruct l; [done|cbn; lia]).
    destruct (placed_ordered _ _ _ _ Hp Hvl) as (Ho' & _ & Hlen).
    rewrite wrap_small by (unfold is_uint; pose proof (fx_end_gt f); lia).
    pose proof (fx_end_gt f).
    wp_step. apply wp_ASSERT; [apply Z.leb_le; lia|].
    apply wp_bind, wp_fail_if; [intros ?%Z.ltb_lt; lia|intros _].
    eapply wp_mono; [eapply (IH (fx_end f + fx_next f) e _ _ _ (pre ++ le_bytes 2 (fx_next f * 16 + fx_type f))
      post (dpre ++ le_bytes 8 (fx_new Image A f)) dpost fuel)| |done]; try done.
    + cbn. by rewrite size_app, size_le_bytes.
    + cbn. rewrite size_app, size_le_bytes. lia.
    + by rewrite <- app_assoc.
    + by rewrite <- app_assoc.
    + by apply at_runtime_write.
    + destruct Ho as [_ Ho]. apply later_values; try done; [apply Hs|]. intros g Hg. apply Hval. by right.
    + cbn in Hfuel. lia.
    + intros v' s' (-> & ->). split; [|done].
      cbn [TableOffset RelocTarget FixupPointer LocalFixupData length]. rewrite size_app, size_le_bytes.
      f_equal; lia.
Qed.

(** A fixup after [t] keeps its value when those before are relocated. *)
Lemma values_after J l l' :
  size J = size Image → Forall (valid_fixup Size) l → Forall (valid_fixup Size) l' →
  ∀ t, ordered t (l ++ l') →
  (∀ f, f ∈ l ++ l' → load (fx_width (fx_type f)) J (fx_target f) = fx_new Image A f) →
  ∀ f, f ∈ l' → load (fx_width (fx_type f)) (apply_fixups Image (A + B) J l) (fx_target f) = fx_new Image A f.
Proof.
  intros HJ Hl Hl'. revert J HJ. induction Hl as [|g l Hg Hl IH]; intros J HJ t Ho Hv; [done|].
  rewrite apply_fixups_cons. destruct Ho as [_ Ho]. apply (IH _ ltac:(apply (size_ue_apply_fixup _ Size); done || lia)
    (fx_end g)); [done|]. apply later_values; try done; [by apply Forall_app|].
  intros f Hf. apply Hv. by right.
Qed.

Lemma RelocateRoots_runtime roots : ∀ t v s J pre dpre fuel,
  0 <= t → roots_placed Size t roots → (4 | size pre) →
  RelocTarget v = t → TableOffset v = size pre → 8 * FixupPointer v = size dpre →
  Table = pre ++ unchained_table roots → D = dpre ++ fixup_data Image A (all_fixups roots) →
  at_runtime s J →
  (∀ f, f ∈ all_fixups roots → load (fx_width (fx_type f)) J (fx_target f) = fx_new Image A f) →
  8 <= TableSize → TableSize < size pre + 2 * Z.of_nat fuel →
  wp (RelocateRoots Memory Size B Table TableSize false true fuel v)
    (λ _ s', s' = with_Image (apply_fixups Image (A + B) J (all_fixups roots)) s) (λ _ _, False) s.
Proof.
  induction roots as [|[first l] roots IH];
    intros t v s J pre dpre fuel Ht0 Hr Hpre4 Ht Hpre Hdpre HT HD Hs Hval H8 Hfuel.
  - destruct fuel as [|fuel]; cbn [RelocateRoots]; [rewrite HT, app_nil_r in HTableSize; lia|].
    unfold MIN_SIZE_OF_UE_FIXUP_ROOT, SIZEOF_UE_FIXUP_ROOT.
    rewrite wrap_small by (unfold is_uint; lia). rewrite HT, app_nil_r in HTableSize.
    destruct (Z.leb_spec (TableOffset v) (TableSize - (4 + 2))); [lia|]. wp_step.
    destruct Hs as [<- _]. cbn. by rewrite with_Image_id.
  - pose proof (roots_ordered _ _ _ Ht0 Hr) as [Ho Hv].
    destruct Hr as (Hfirst & Hfits & e & Hp & Hlast & Hvl & Hr). unfold is_uint in Hfirst.
    destruct (placed_ordered _ _ _ _ Hp Hvl) as (Hol & _ & Hlen).
    pose proof (placed_nonempty _ _ _ Hp). assert (1 <= length l)%nat by (destruct l; [done|cbn; lia]).
    pose proof (size_nonneg pre). pose proof (size_nonneg (unchained_table roots)).
    pose proof (size_root_entries first l) as Hroot.
    pose proof (align_up_ge (4 + 2 * Z.of_nat (length l)) 4 eq_refl) as Hge.
    change (unchained_table ((first, l) :: roots)) with (root_entries (first, l) ++ unchained_table roots) in HT.
    change (all_fixups ((first, l) :: roots)) with (l ++ all_fixups roots) in *.
    assert (TableSize = size pre + size (root_entries (first, l)) + size (unchained_table roots)) as HTs
      by (rewrite HTableSize, HT, !size_app; lia).
    destruct fuel as [|fuel]; [lia|]. cbn [RelocateRoots].
    unfold MIN_SIZE_OF_UE_FIXUP_ROOT, SIZEOF_UE_FIXUP_ROOT, ALIGNOF_UE_FIXUP_ROOT.
    rewrite (wrap_small 32 (TableSize - (4 + 2))) by (unfold is_uint; lia). rewrite Hpre.
    destruct (Z.leb_spec (size pre) (TableSize - (4 + 2))); [|lia].
    assert (load 4 Table (size pre) = first) as Hload.
    { rewrite HT. unfold root_entries. cbn [fst]. rewrite <- app_assoc, load_middle. by apply Z.mod_small. }
    wp_step. wp_step; [lia|cbn; lia|]. rewrite Hload, Ht.
    rewrite ovf_add_u32_spec by (unfold is_uint; lia).
    assert (fits_u 32 (t + first) = true) as -> by (apply fits_u_spec; unfold is_uint; lia).
    apply wp_bind, wp_fail_if; [done|intros _]. rewrite (wrap_small 32 (t + first)) by (unfold is_uint; lia).
    wp_step. apply UnchainReloc_runtime. rewrite (wrap_small 32 (size pre + 4)) by (unfold is_uint; lia).
    assert (D = dpre ++ fixup_data Image A l ++ fixup_data Image A (all_fixups roots)) as HD'.
    { rewrite HD. unfold fixup_data. by rewrite map_app, concat_app. }
    wp_step. eapply wp_mono; [eapply (RelocateHeads_runtime l (t + first) e _ s J (pre ++ le_bytes 4 first)
      (zeros (2 * (Z.of_nat (length l) mod 2)) ++ unchained_table roots) dpre _ (S fuel))| |done]; try done.
    + cbn. by rewrite size_app, size_le_bytes.
    + rewrite HT. unfold root_entries. cbn [fst snd]. by rewrite <- !app_assoc.
    + intros f Hf. apply Hval, elem_of_app. by left.
    + lia.
    + intros v' s' (-> & ->). cbn [TableOffset RelocTarget FixupPointer LocalFixupData].
      rewrite size_app, size_le_bytes, <- Z.add_assoc. change (Z.of_nat 4) with 4.
      assert (align_up (size pre + (4 + 2 * Z.of_nat (length l))) 4
        = size (pre ++ root_entries (first, l))) as Halign by (rewrite align_up_add, size_app, Hroot; done).
      rewrite ALIGN_VALUE_spec; [|done|by compute|done|unfold is_uint; lia|
        rewrite Halign, size_app; unfold is_uint; lia].
      wp_step. apply wp_ASSERT; [apply Z.leb_le; rewrite Halign, size_app; lia|].
      eapply wp_mono; [eapply (IH e _ _ (apply_fixups Image (A + B) J l) (pre ++ root_entries (first, l))
        (dpre ++ fixup_data Image A l) fuel)| |done]; try done.
      * lia.
      * rewrite size_app, Hroot. apply Z.divide_add_r; [done|apply align_up_divide].
      * cbn. rewrite size_app, size_fixup_data. lia.
      * by rewrite <- app_assoc.
      * by rewrite <- app_assoc.
      * destruct Hs as (? & HsJ & ?). split; [done|]. split; [|done].
        apply (size_apply_fixups _ Size); done || lia.
      * apply Forall_app in Hv as [_ Hv']. eapply values_after; try done. apply Hs.
      * rewrite size_app. lia.
      * intros [] s' ->. unfold apply_fixups. by rewrite foldl_app.
Qed.
End Runtime.

(** ** The runtime pass moves the image *)

Section UeRuntimeProofs.
Context `{!Platform, !PlatformOk, !OverflowLib} (Memory : UE_LOADER_RUNTIME_CONTEXT → Z → bool).

(** The fixups of an image are placed and ordered. *)
Lemma ue_fixups_placed rt s Base roots :
  UeRelocatable rt s Base → ue_fixups s Base = Some roots →
  roots_placed (ImageSize (Context s)) 0 roots.
Proof.
  intros [] Hr. unfold ue_fixups in Hr. destruct (_ || _); [by simplify_eq|].
  eapply table_placed; [|done|exact Hr]. by apply Forall_drop.
Qed.

(** Chained images have the same fixups wherever they go. *)
Lemma ue_fixups_base s Base Base' :
  ue_chaining (FileBuffer s) = true → ue_fixups s Base' = ue_fixups s Base.
Proof. intros Hc. unfold ue_fixups. by rewrite Hc, !andb_false_r. Qed.

Lemma UeRelocateImageForRuntime_spec m s Base Base' roots s' :
  UeRelocatable (Some m) s Base → ue_fixups s Base = Some roots → ImageAddress s = Base →
  let I := ImageBuffer s in
  s' = relocating (Context s) (FileBuffer s) (ImageAddress s) (Some (Machine (Context s)))
    (apply_fixups I (ue_adjust s Base) I (all_fixups roots)) (unchained_table roots)
    (fixup_data I (ue_adjust s Base) (all_fixups roots)) →
  wp (UeRelocateImageForRuntime Memory (ImageSize (Context s)) Base')
    (λ _ s'', s'' = with_Image (apply_fixups I (ue_adjust s Base') I (all_fixups roots)) s')
    (λ _ _, False) s'.
Proof.
  intros Hs Hroots Haddr I ->. pose proof (ue_fixups_placed _ _ _ _ Hs Hroots) as Hp.
  pose proof (ImageSize_bounds _ _ (uer_ok _ _ _ Hs)) as HIS.
  destruct (roots_ordered _ 0 _ ltac:(done) Hp) as [Ho Hv].
  pose proof (uer_image_size _ _ _ Hs) as Himg. fold I in Himg.
  set (l := all_fixups roots) in *. set (A := ue_adjust s Base). set (J := apply_fixups I A I l).
  set (B := wrap 64 (Base' - Base)).
  assert (apply_fixups I (A + B) J l = apply_fixups I (ue_adjust s Base') I l) as Hfinal.
  { unfold J. rewrite (apply_fixups_twice _ (ImageSize (Context s)) Himg) by done. apply apply_fixups_congr.
    unfold A, B, ue_adjust, wrap. rewrite Zplus_mod_idemp_l, Zplus_mod_idemp_r, Zmod_mod. f_equal. lia. }
  rewrite <- Hfinal. unfold UeRelocateImageForRuntime. wp_step. wp_step.
  cbn [relocating RuntimeContext recorded fmap option_fmap option_map ImageAddress UnchainedRelocs UnchainedRelocsSize].
  unfold InternaRelocateImage. rewrite Haddr. fold B.
  assert (size J = size I) as HsJ by by apply (size_apply_fixups _ (ImageSize (Context s))).
  destruct (Z.eqb_spec (size (unchained_table roots)) 0) as [Hz|Hz].
  - assert (roots = []) as ->.
    { destruct roots as [|[first l'] roots']; [done|]. exfalso. revert Hz.
      unfold unchained_table. cbn [map concat]. rewrite size_app, size_root_entries.
      pose proof (align_up_ge (4 + 2 * Z.of_nat (length l')) 4 eq_refl).
      pose proof (size_nonneg (concat (map root_entries roots'))). lia. }
    by wp_step.
  - cbn [negb]. rewrite andb_true_r. destruct (Z.eqb_spec B 0) as [HB|HB].
    { wp_step. rewrite HB, Z.add_0_r. unfold J.
      by rewrite (apply_fixups_twice _ (ImageSize (Context s)) Himg) by done. }
    pose proof (size_unchained_table (ImageSize (Context s)) 0 roots ltac:(lia) Hp) as Hsz.
    destruct (uer_record _ _ _ Hs ltac:(by eauto)) as [_ H2].
    pose proof (size_nonneg (unchained_table roots)) as Hnn.
    eapply (RelocateRoots_runtime Memory I (ImageSize (Context s)) ltac:(lia) ltac:(lia) A B
      (unchained_table roots) (fixup_data I A l) (size (unchained_table roots)) eq_refl ltac:(lia)
      roots 0 _ _ J [] []); try done.
    + apply Z.divide_0_r.
    + split; [done|]. split; [done|]. by eexists.
    + intros f Hf. by eapply load_apply_fixups.
    + destruct roots as [|[first l'] roots']; [done|]. unfold unchained_table. cbn [map concat].
      rewrite size_app, size_root_entries. pose proof (size_nonneg (concat (map root_entries roots'))).
      destruct Hp as (_ & _ & e & Hp & _). pose proof (placed_nonempty _ _ _ Hp).
      assert (1 <= length l')%nat by (destruct l'; [done|cbn; lia]).
      pose proof (align_up_ge (4 + 2 * Z.of_nat (length l')) 4 eq_refl).
      destruct (align_up_divide (4 + 2 * Z.of_nat (length l')) 4) as [q Hq]. lia.
    + change (size []) with 0. lia.
Qed.
End UeRuntimeProofs.

(** C28. Relocation at runtime undoes nothing and misses nothing: when a chained image of less than 2 GiB
    that is not for execution in place was
    relocated to the address it runs at with a record, UeRelocateImageForRuntime
    succeeds for every new base address that is aligned, and the image is then the one that
    UeRelocateImage gives when it relocates the unrelocated image to the new base
    at once. *)
Theorem ue_runtime_roundtrip `{!Platform, !PlatformOk, !OverflowLib}
    (Memory Memory1 : UE_LOADER_RUNTIME_CONTEXT → Z → bool) (m : Z) (s s' : ue_loader)
    (Base NewBase RtSize : Z)
    (Hs : UeRelocatable (Some m) s Base) (HRt : RtSize = 0 ∨ UeLoaderGetRuntimeContextSize <= RtSize)
    (Haddr : ImageAddress s = Base)
    (Hbase : IS_ALIGNED NewBase (SegmentAlignment (Context s)) = true)
    (Hboot : UeRelocateImage Memory Base RtSize s = Ok tt s') :
  ∃ s1, UeRelocateImageForRuntime Memory1 (ImageSize (Context s)) NewBase s' = Ok tt s1 ∧
    ∀ Memory2 s2, UeRelocateImage Memory2 NewBase RtSize s = Ok tt s2 → ImageBuffer s1 = ImageBuffer s2.
Proof.
  assert (RtSize = 0 ∨ is_Some (Some m) ∧ UeLoaderGetRuntimeContextSize <= RtSize) as HRt'
    by (destruct HRt; [by left|right; split; [by eexists|done]]).
  destruct (wp_ok _ _ _ _ _ _ (UeRelocateImage_spec Memory _ _ _ _ Hs HRt') Hboot) as (roots & Hroots & Hs').
  destruct (wp_total _ _ _ (UeRelocateImageForRuntime_spec Memory1 m s Base NewBase roots s' Hs Hroots Haddr Hs'))
    as ([] & s1 & Hrun & Hs1).
  exists s1. split; [done|]. intros Memory2 s2 Hdirect.
  assert (UeRelocatable (Some m) s NewBase) as Hs2 by (by destruct Hs).
  destruct (wp_ok _ _ _ _ _ _ (UeRelocateImage_spec Memory2 _ _ _ _ Hs2 HRt') Hdirect) as (roots2 & Hroots2 & ->).
  rewrite (ue_fixups_base s Base NewBase) in Hroots2 by (apply (uer_record _ _ _ Hs); by eexists).
  assert (roots2 = roots) as -> by congruence. by rewrite Hs1.
Qed.

Lemma ue_runtime_roundtrip_witness :
  ∃ s1, @UeRelocateImageForRuntime platform_x64 (BaseOverflowLib build_gcc_x64) no_limit
           (ImageSize ue_sample_context) 0x700000 ue_sample_relocated = Ok tt s1 ∧
    ∀ Memory2 s2, @UeRelocateImage platform_x64 (BaseOverflowLib build_gcc_x64) Memory2 0x700000 40
      ue_sample_recording = Ok tt s2 → ImageBuffer s1 = ImageBuffer s2.
Proof.
  assert (@UeLoaderGetRuntimeContextSize platform_x64 <= 40) as HRt by by vm_compute.
  assert (IS_ALIGNED 0x700000 (SegmentAlignment ue_sample_context) = true) as Hb by by vm_compute.
  exact (@ue_runtime_roundtrip platform_x64 platform_x64_ok (BaseOverflowLib build_gcc_x64) no_limit no_limit
    0 ue_sample_recording ue_sample_relocated 0x200000 0x700000 40 ue_sample_relocatable (or_intror HRt)
    eq_refl Hb ue_sample_relocates).
Defined.

(** The words UeRelocateImage writes are disjoint, and nothing else is written: the
    listed fixups follow one another in the image, each holds its relocated value
    afterwards, and every byte outside of them is as it was loaded. *)
Theorem ue_relocate_pointwise `{!Platform, !PlatformOk, !OverflowLib}
    (Memory : UE_LOADER_RUNTIME_CONTEXT → Z → bool) (s s' : ue_loader) (Base : Z)
    (Hs : UeRelocatable None s Base) (Hrun : UeRelocateImage Memory Base 0 s = Ok tt s') :
  ∃ roots, ue_fixups s Base = Some roots ∧ ordered 0 (all_fixups roots) ∧
    (∀ f, f ∈ all_fixups roots → fx_end f <= ImageSize (Context s) ∧
      load (fx_width (fx_type f)) (ImageBuffer s') (fx_target f)
        = fx_new (ImageBuffer s) (ue_adjust s Base) f) ∧
    (∀ i, ¬ Exists (in_fixup i) (all_fixups roots) → byte_at (ImageBuffer s') i = byte_at (ImageBuffer s) i).
Proof.
  destruct (wp_ok _ _ _ _ _ _ (UeRelocateImage_spec Memory None s Base 0 Hs (or_introl eq_refl)) Hrun)
    as (roots & Hroots & ->).
  pose proof (ue_fixups_placed _ _ _ _ Hs Hroots) as Hp.
  destruct (roots_ordered _ 0 _ ltac:(done) Hp) as [Ho Hv]. pose proof (uer_image_size _ _ _ Hs) as Himg.
  exists roots. split_and!; [done..| |].
  - intros f Hf. split; [|by eapply load_apply_fixups].
    rewrite Forall_forall in Hv. by destruct (Hv f (proj1 (list_elem_of_In _ _) Hf)).
  - intros i Hi. by apply (apply_fixups_outside _ (ImageSize (Context s))).
Qed.

(** The sample image without a runtime context. *)
Definition ue_sample_plain : ue_loader := {|
  Context := ue_sample_context; FileBuffer := ue_sample; ImageBuffer := ImageBuffer ue_sample_loaded;
  ImageAddress := 0x200000; RuntimeContext := None |}.

Lemma ue_sample_plain_relocatable : UeRelocatable None ue_sample_plain 0x200000.
Proof.
  destruct ue_sample_relocatable as [Hf Hfs Hok Hi His Hb _ _].
  split; [exact Hf|exact Hfs|exact Hok|exact Hi|exact His|exact Hb|reflexivity|intros [? ?]; discriminate].
Qed.

Definition ue_sample_plain_relocated : ue_loader :=
  match @UeRelocateImage platform_x64 (BaseOverflowLib build_gcc_x64) no_limit 0x200000 0 ue_sample_plain with
  | Ok _ s => s
  | _ => ue_sample_plain
  end.

Lemma ue_sample_plain_relocates :
  @UeRelocateImage platform_x64 (BaseOverflowLib build_gcc_x64) no_limit 0x200000 0 ue_sample_plain
    = Ok tt ue_sample_plain_relocated.
Proof. by vm_compute. Qed.

Strategy 1000 [ue_sample_plain_relocated].

Lemma ue_relocate_pointwise_witness :
  ∃ roots, ue_fixups ue_sample_plain 0x200000 = Some roots ∧ ordered 0 (all_fixups roots).
Proof.
  destruct (@ue_relocate_pointwise platform_x64 platform_x64_ok (BaseOverflowLib build_gcc_x64) no_limit
    ue_sample_plain ue_sample_plain_relocated 0x200000 ue_sample_plain_relocatable ue_sample_plain_relocates)
    as (roots & Hr & Ho & _). exists roots. exact (conj Hr Ho).
Defined.

(** ** What the record does not cover *)

(** The context of a file, by evaluation. *)
Definition ue_init (File : list Z) : UE_LOADER_IMAGE_CONTEXT :=
  match (UeInitializeContextPreHash File (size File);;
         @UeInitializeContextPostHash platform_x64 (BaseOverflowLib build_gcc_x64) File) (ue_context 0) with
  | Ok _ c => c
  | _ => ue_context 0
  end.

Definition ue_unchained_state (rt : option UE_LOADER_RUNTIME_CONTEXT) : ue_loader := {|
  Context := ue_init ue_sample_unchained; FileBuffer := ue_sample_unchained;
  ImageBuffer := slice ue_sample_unchained 32 24 ++ zeros 4072; ImageAddress := 0x200000;
  RuntimeContext := rt |}.

(** InternalApplyRelocation assigns its FixupData result in the UeReloc32NoMeta branch
    only.  For an image without chains, whose fixups are of the other types,
    InternaRelocateImage then records a local variable that was never assigned:
    relocation succeeds without a runtime context and uses an indeterminate value
    with one. *)
Theorem ue_unchained_record_unassigned :
  let run rt := @UeRelocateImage platform_x64 (BaseOverflowLib build_gcc_x64) no_limit 0x200000 0
                  (ue_unchained_state rt) in
  match run None with Ok _ s => load 8 (ImageBuffer s) 0 = 0x200010 | _ => False end ∧
  run (recorded (Some 0) [] []) = Fault UndefinedBehaviour.
Proof. cbv zeta. split; by vm_compute. Qed.

(** The default platform, except that mismatching targets are skipped at runtime. *)
Definition platform_mismatch : Platform := {|
  DebugAssertEnabled := true;
  PcdImageLoaderAlignmentPolicy := 0xFFFFFFFF;
  PcdImageLoaderWXorX := true;
  PcdImageLoaderRemoveXForWX := false;
  PcdImageLoaderAllowMisalignedOffset := false;
  PcdImageProtectionPolicy := 0x7;
  PcdImageLoaderLoadHeader := true;
  PcdImageLoaderHashProhibitOverlap := true;
  PcdImageLoaderRelocTypePolicy := 0xFFFFFFFF;
  PcdImageLoaderRtRelocAllowTargetMismatch := true;
  PcdImageLoaderDebugSupport := true;
  DEFAULT_PAGE_ALLOCATION_GRANULARITY := 0x1000;
  RUNTIME_PAGE_ALLOCATION_GRANULARITY := 0x1000;
  ALIGNOF_UINT64 := 8;
  UINTN_WIDTH := 64;
|}.

(** Two adjacent 64-bit fixups with the recorded values 0x200010 and 0x200020, in an
    image whose first word is now [v]. *)
Definition ue_two_fixups (v : Z) : ue_loader := {|
  Context := ue_context 0; FileBuffer := []; ImageBuffer := le_bytes 8 v ++ le_bytes 8 0x200020;
  ImageAddress := 0x200000;
  RuntimeContext := recorded (Some 0) (unchained_table
    [(0, [{| fx_type := UeReloc64; fx_target := 0; fx_chained := false; fx_next := 0 |};
          {| fx_type := UeReloc64; fx_target := 8; fx_chained := false;
             fx_next := UE_HEAD_FIXUP_OFFSET_END |}])])
    (le_bytes 8 0x200010 ++ le_bytes 8 0x200020) |}.

(** With PcdImageLoaderRtRelocAllowTargetMismatch, a mismatching target is meant to be
    skipped, but InternalApplyRelocation returns success without advancing RelocTarget,
    so the fixups that follow are looked up at the wrong addresses: a second fixup
    that is as recorded is relocated when the first one is too, and is not when the
    first one was modified. *)
Theorem ue_runtime_mismatch_stops :
  let run v := @UeRelocateImageForRuntime platform_mismatch (BaseOverflowLib build_gcc_x64) no_limit
                 16 0x700000 (ue_two_fixups v) in
  match run 0x200010 with Ok _ s => load 8 (ImageBuffer s) 8 = 0x700020 | _ => False end ∧
  match run 0 with Ok _ s => load 8 (ImageBuffer s) 8 = 0x200020 | _ => False end.
Proof. cbv zeta. split; by vm_compute. Qed.
