(* ===== verification/UeDebug.v ===== *)
(** UeImageLib.c, last part: the debug table of a UE file, and the getters of the
    loaded image. *)
From S2P Require Import Prelude Base Buffer Overflow UeImage UeSample UeInit UeLoad.

Section UeDebug.
Context `{!Platform, !OverflowLib}.

(** The loop of InternalGetDebugTable from LoadTableIndex on, for [n] more tables. *)
Fixpoint FindDebugTable (n : nat) (LoadTableIndex LoadTableFileOffset : Z) : UeM Z :=
  match n with
  | O => raise RETURN_NOT_FOUND
  | S n =>
      s ← getS;
      FileInfo ← ue_load_table (FileBuffer s) (Context s) LoadTableIndex;
      if negb (UE_LOAD_TABLE_ID FileInfo =? UeLoadTableIdDebug) then
        FindDebugTable n (LoadTableIndex + 1) (wrap 32 (LoadTableFileOffset + UE_LOAD_TABLE_SIZE FileInfo))
      else
        ASSERT (IS_ALIGNED LoadTableFileOffset ALIGNOF_UE_DEBUG_TABLE);;
        let LoadTableFileSize := UE_LOAD_TABLE_SIZE FileInfo in
        let '(Overflow, LoadTableExtraSize) := ovf_sub_u32 LoadTableFileSize MIN_SIZE_OF_UE_DEBUG_TABLE in
        fail_if Overflow RETURN_VOLUME_CORRUPTED;;
        let '(NumSegments, _) := UeGetSegments (Context s) in
        SymbolsPathLength ← rd 1 (FileBuffer s) (LoadTableFileOffset + UE_DEBUG_TABLE_SymbolsPathLength);
        let MinLoadTableExtraSize :=
          wrap 32 (SymbolsPathLength + NumSegments * SIZEOF_UE_SEGMENT_NAME) in
        fail_if (LoadTableExtraSize <? MinLoadTableExtraSize) RETURN_VOLUME_CORRUPTED;;
        mret LoadTableFileOffset
  end.

(** Returns where the debug table is in the file. *)
Definition InternalGetDebugTable : UeM Z :=
  s ← getS;
  FindDebugTable (Z.to_nat (NumLoadTables (Context s))) 0 (LoadTablesFileOffset (Context s)).

(** Returns the offset of SymbolsPath in the file, and SymbolsPathSize. *)
Definition UeGetSymbolsPath : UeM (Z * Z) :=
  DebugTable ← InternalGetDebugTable;
  s ← getS;
  SymbolsPathLength ← rd 1 (FileBuffer s) (DebugTable + UE_DEBUG_TABLE_SymbolsPathLength);
  fail_if (SymbolsPathLength =? 0) RETURN_NOT_FOUND;;
  Last ← rd 1 (FileBuffer s) (DebugTable + UE_DEBUG_TABLE_SymbolsPath + SymbolsPathLength);
  fail_if (negb (Last =? 0)) RETURN_VOLUME_CORRUPTED;;
  mret (DebugTable + UE_DEBUG_TABLE_SymbolsPath, SymbolsPathLength + 1).

Definition UeLoaderGetImageAddress : UeM Z := s ← getS; mret (ImageAddress s).

(** An error of InternalGetDebugTable is not returned. *)
Definition UeLoaderGetImageDebugAddress : UeM Z := λ s,
  match InternalGetDebugTable s with
  | Fault f => Fault f
  | Err _ s => (Address ← UeLoaderGetImageAddress; mret (wrapn (Address - 0))) s
  | Ok DebugTable s =>
      (ImageInfo ← rd 1 (FileBuffer s) (DebugTable + UE_DEBUG_TABLE_ImageInfo);
       let SymOffsetFactor := UE_DEBUG_TABLE_IMAGE_INFO_SYM_SUBTRAHEND_FACTOR ImageInfo in
       let SymOffsetSubtrahend := wrap 32 (SymOffsetFactor * SegmentAlignment (Context s)) in
       Address ← UeLoaderGetImageAddress;
       mret (wrapn (Address - SymOffsetSubtrahend))) s
  end.

(** Returns where the array of segment names is in the file. *)
Definition UeGetSegmentNames : UeM Z :=
  DebugTable ← InternalGetDebugTable;
  s ← getS;
  SymbolsPathLength ← rd 1 (FileBuffer s) (DebugTable + UE_DEBUG_TABLE_SymbolsPathLength);
  mret (DebugTable + UE_DEBUG_TABLE_SymbolsPath + SymbolsPathLength + 1).

(** Returns the number of segments, the array and the size of its elements. *)
Definition UeGetSegmentImageInfos : UeM (Z * Z * Z) :=
  s ← getS;
  let c := Context s in
  ASSERT (IS_ALIGNED (SegmentImageInfoIterSize c) 4);;
  mret (wrap 16 (LastSegmentIndex c + 1), Segments c, SegmentImageInfoIterSize c).
End UeDebug.

(** ** What they return *)

Section UeDebugProofs.
Context `{!Platform, !OverflowLib} (s : ue_loader).
Abbreviation File := (FileBuffer s).
Abbreviation c := (Context s).
Context (Hbytes : bytes File) (Hsize : u32 (size File)) (Hok : UeOk File c).

(** Load table [i] is a debug table with all its parts. *)
Record debug_table (i : Z) : Prop := {
  dt_index : 0 <= i < NumLoadTables c;
  dt_id : table_id File c i = UeLoadTableIdDebug;
  dt_fits : MIN_SIZE_OF_UE_DEBUG_TABLE + byte_at File (table_offset File c i + UE_DEBUG_TABLE_SymbolsPathLength)
              + num_segments c * SIZEOF_UE_SEGMENT_NAME <= table_size File c i;
}.

(** Why there is none: no such identifier, or a table that is too small. *)
Definition no_debug_table (e : RETURN_STATUS) : Prop :=
  e = RETURN_NOT_FOUND ∧ (∀ i, 0 <= i < NumLoadTables c → table_id File c i ≠ UeLoadTableIdDebug) ∨
  e = RETURN_VOLUME_CORRUPTED ∧ ∃ i, 0 <= i < NumLoadTables c ∧ table_id File c i = UeLoadTableIdDebug ∧
    ¬ debug_table i.

(** A load table is in the file. *)
Lemma table_in_file i : 0 <= i < NumLoadTables c →
  24 <= table_offset File c i ∧ table_offset File c i + table_size File c i <= size File.
Proof.
  intros Hi. destruct Hok as [Hh Hs Ht _ _ _ _].
  pose proof (UeHeaderOk_bounds _ Hbytes _ Hh) as (_ & _ & ? & _).
  pose proof (ues_in_file _ _ Hs). pose proof (table_offset_mono File c i i ltac:(lia)).
  pose proof (table_offset_mono File c (i + 1) (NumLoadTables c) ltac:(lia)) as Hm.
  rewrite (uet_end _ _ Ht), table_offset_succ in Hm by lia. lia.
Qed.

Lemma FindDebugTable_spec n : ∀ i,
  0 <= i → i + Z.of_nat n = NumLoadTables c →
  (∀ j, 0 <= j < i → table_id File c j ≠ UeLoadTableIdDebug) →
  wp (FindDebugTable n i (table_offset File c i))
    (λ off s', s' = s ∧ ∃ j, debug_table j ∧ off = table_offset File c j)
    (λ e s', s' = s ∧ no_debug_table e) s.
Proof.
  induction n as [|n IH]; intros i Hi0 Hi Hprev; cbn [FindDebugTable].
  { wp_step. split; [done|]. left. split; [done|]. intros j Hj. apply Hprev. lia. }
  assert (0 <= i < NumLoadTables c) as Hin by lia. destruct (table_in_file i Hin) as [Hlo Hhi].
  destruct (table_size_spec File c i) as [Hts _]. unfold is_uint in *.
  pose proof (ue_header_ok _ _ Hok) as Hh. pose proof (UeHeaderOk_bounds _ Hbytes _ Hh) as (Hn & _).
  wp_step. wp_step. wp_step. apply wp_ue_load_table; [done..|].
  fold (table_id File c i) (table_size File c i).
  destruct (Z.eqb_spec (table_id File c i) UeLoadTableIdDebug) as [Hid|Hid]; cbn [negb].
  - wp_step. apply wp_ASSERT; [by unfold IS_ALIGNED, ALIGN_VALUE_SUBTRAHEND; cbn; rewrite Z.land_0_r|].
    rewrite ovf_sub_u32_spec by (unfold is_uint; autounfold with ue_layout in *; lia).
    pose proof (byte_at_range File (table_offset File c i + UE_DEBUG_TABLE_SymbolsPathLength) Hbytes) as [Hl0 Hl1].
    assert (∀ e, (table_size File c i < MIN_SIZE_OF_UE_DEBUG_TABLE +
      byte_at File (table_offset File c i + UE_DEBUG_TABLE_SymbolsPathLength)
      + num_segments c * SIZEOF_UE_SEGMENT_NAME) → e = RETURN_VOLUME_CORRUPTED → no_debug_table e) as Hbad.
    { intros e Hlt ->. right. split; [done|]. exists i. split_and!; [lia..|done|]. intros []. lia. }
    unfold num_segments in *. autounfold with ue_layout in *.
    apply wp_bind, wp_fail_if; intros Hsub.
    { split; [done|]. apply Hbad; [|done]. apply negb_true_iff in Hsub.
      destruct (decide (3 <= table_size File c i)) as [Hge|]; [|lia].
      assert (fits_u 32 (table_size File c i - (2 + 1)) = true); [|congruence].
      apply fits_u_spec. unfold is_uint. lia. }
    apply negb_false_iff, fits_u_spec in Hsub. rewrite (wrap_small 32 (_ - _)) by done. unfold is_uint in Hsub.
    unfold UeGetSegments. rewrite (wrap_small 16) by (unfold is_uint; lia).
    wp_step. wp_step; [lia..|]. rewrite load_byte, wrap_small by (unfold is_uint; lia).
    apply wp_bind, wp_fail_if; [intros Hlt%Z.ltb_lt|intros Hlt%Z.ltb_ge].
    { split; [done|]. apply Hbad; [lia|done]. }
    wp_step. split; [done|]. exists i. split; [|done].
    split; unfold num_segments; autounfold with ue_layout; done || lia.
  - rewrite wrap_small by (unfold is_uint; lia). rewrite <- table_offset_succ by lia.
    apply IH; [lia..|]. intros j Hj. destruct (decide (j = i)) as [->|]; [done|]. apply Hprev. lia.
Qed.

Lemma InternalGetDebugTable_spec :
  wp InternalGetDebugTable (λ off s', s' = s ∧ ∃ j, debug_table j ∧ off = table_offset File c j)
    (λ e s', s' = s ∧ no_debug_table e) s.
Proof.
  pose proof (UeHeaderOk_bounds _ Hbytes _ (ue_header_ok _ _ Hok)) as (_ & ? & _).
  unfold InternalGetDebugTable. wp_step. wp_step.
  assert (LoadTablesFileOffset c = table_offset File c 0) as -> by (symmetry; apply Z.add_0_r).
  apply FindDebugTable_spec; lia.
Qed.

(** The parts of a debug table. *)
Lemma debug_table_bounds j :
  debug_table j →
  let off := table_offset File c j in
  let len := byte_at File (off + UE_DEBUG_TABLE_SymbolsPathLength) in
  24 <= off ∧ 0 <= len < 256 ∧ 1 <= num_segments c ∧
  off + MIN_SIZE_OF_UE_DEBUG_TABLE + len + num_segments c * SIZEOF_UE_SEGMENT_NAME <= off + table_size File c j ∧
  off + table_size File c j <= size File.
Proof.
  intros [Hj _ Hfits]. cbv zeta. destruct (table_in_file j Hj).
  pose proof (byte_at_range File (table_offset File c j + UE_DEBUG_TABLE_SymbolsPathLength) Hbytes).
  pose proof (UeHeaderOk_bounds _ Hbytes _ (ue_header_ok _ _ Hok)) as (? & _).
  unfold is_uint in *. autounfold with ue_layout in *. change (2 ^ 8) with 256 in *. split_and!; lia.
Qed.

Lemma UeGetSymbolsPath_spec :
  wp UeGetSymbolsPath
    (λ r s', s' = s ∧ ∃ j, debug_table j ∧ r.1 = table_offset File c j + UE_DEBUG_TABLE_SymbolsPath ∧
      2 <= r.2 ∧ r.1 + r.2 <= table_offset File c j + table_size File c j <= size File ∧
      byte_at File (r.1 + r.2 - 1) = 0)
    (λ e s', s' = s ∧ (e = RETURN_NOT_FOUND ∨ e = RETURN_VOLUME_CORRUPTED)) s.
Proof.
  unfold UeGetSymbolsPath. wp_step. eapply wp_mono; [exact InternalGetDebugTable_spec| |].
  2: { intros e s' [-> [[-> _]|[-> _]]]; auto. }
  intros off s' (-> & j & Hj & ->). pose proof (debug_table_bounds j Hj) as (? & ? & ? & ? & ?).
  wp_step. wp_step. wp_step. wp_step; [autounfold with ue_layout in *; lia..|]. rewrite load_byte.
  apply wp_bind, wp_fail_if; [by auto|intros Hz%Z.eqb_neq].
  wp_step. wp_step; [autounfold with ue_layout in *; lia..|]. rewrite load_byte.
  apply wp_bind, wp_fail_if; [by auto|intros Hlast%negb_false_iff%Z.eqb_eq]. wp_step.
  split; [done|]. exists j. cbn [fst snd]. split_and!; try done; autounfold with ue_layout in *; try lia.
  rewrite <- Hlast. f_equal. lia.
Qed.

Lemma UeGetSegmentNames_spec :
  wp UeGetSegmentNames
    (λ r s', s' = s ∧ ∃ j, debug_table j ∧ table_offset File c j <= r ∧
      r + num_segments c * SIZEOF_UE_SEGMENT_NAME <= table_offset File c j + table_size File c j <= size File)
    (λ e s', s' = s ∧ no_debug_table e) s.
Proof.
  unfold UeGetSegmentNames. wp_step. eapply wp_mono; [exact InternalGetDebugTable_spec| |done].
  intros off s' (-> & j & Hj & ->). pose proof (debug_table_bounds j Hj) as (? & ? & ? & ? & ?).
  wp_step. wp_step. wp_step. wp_step; [autounfold with ue_layout in *; lia..|]. rewrite load_byte. wp_step.
  split; [done|]. exists j. split; [done|]. autounfold with ue_layout in *. lia.
Qed.

(** The address for debuggers: before the image by up to three segment alignments. *)
Lemma UeLoaderGetImageDebugAddress_spec :
  wp UeLoaderGetImageDebugAddress
    (λ a s', s' = s ∧ ∃ k, 0 <= k <= 3 ∧ a = wrapn (ImageAddress s - k * SegmentAlignment c))
    (λ _ _, False) s.
Proof.
  pose proof (wp_cases _ _ _ _ InternalGetDebugTable_spec) as Hw. unfold UeLoaderGetImageDebugAddress.
  with_strategy transparent [wp] unfold wp. destruct (InternalGetDebugTable s) as [off s'|e s'|]; [| |done].
  - destruct Hw as (-> & j & Hj & ->). pose proof (debug_table_bounds j Hj) as (? & ? & ? & ? & ?).
    pose proof (UeHeaderOk_bounds _ Hbytes _ (ue_header_ok _ _ Hok)) as (_ & _ & _ & _ & Ha).
    set (prog := rd 1 _ _ ≫= _).
    assert (wp prog (λ a s', s' = s ∧ ∃ k, 0 <= k <= 3 ∧ a = wrapn (ImageAddress s - k * SegmentAlignment c))
      (λ _ _, False) s) as Hp; [|exact (wp_cases _ _ _ _ Hp)].
    unfold prog. wp_step. wp_step; [autounfold with ue_layout in *; lia..|].
    unfold UeLoaderGetImageAddress. do 3 wp_step. wp_step. wp_step.
    set (k := UE_DEBUG_TABLE_IMAGE_INFO_SYM_SUBTRAHEND_FACTOR _).
    assert (0 <= k <= 3) as Hk.
    { unfold k, UE_DEBUG_TABLE_IMAGE_INFO_SYM_SUBTRAHEND_FACTOR. change 0x03 with (2 ^ 2 - 1).
      rewrite land_mask by done. pose proof (Z.mod_pos_bound (load 1 File (table_offset File c j +
        UE_DEBUG_TABLE_ImageInfo)) (2 ^ 2) eq_refl). rewrite wrap_small by (unfold is_uint; lia). lia. }
    split; [done|]. exists k. split; [done|]. by rewrite wrap_small by (unfold is_uint; nia).
  - destruct Hw as [-> _]. cbn. split; [done|]. exists 0. split; [lia|]. by rewrite Z.mul_0_l.
Qed.
End UeDebugProofs.

(** The debug data of a verified UE file is in the file: on success UeGetSymbolsPath
    returns a non-empty NUL-terminated string, and UeGetSegmentNames an array with
    a name for every segment, both inside of a debug table that is inside of the
    file; neither function faults or changes anything. *)
Theorem ue_debug_data_in_file `{!Platform, !OverflowLib} (s : ue_loader)
    (Hbytes : bytes (FileBuffer s)) (Hsize : u32 (size (FileBuffer s))) (Hok : UeOk (FileBuffer s) (Context s)) :
  match UeGetSymbolsPath s with
  | Ok (path, n) s' => s' = s ∧ ∃ j, debug_table s j ∧ 2 <= n ∧
      table_offset (FileBuffer s) (Context s) j <= path ∧
      path + n <= table_offset (FileBuffer s) (Context s) (j + 1) <= size (FileBuffer s) ∧
      byte_at (FileBuffer s) (path + n - 1) = 0
  | Err e s' => s' = s ∧ (e = RETURN_NOT_FOUND ∨ e = RETURN_VOLUME_CORRUPTED)
  | Fault _ => False
  end ∧
  match UeGetSegmentNames s with
  | Ok names s' => s' = s ∧ ∃ j, debug_table s j ∧
      table_offset (FileBuffer s) (Context s) j <= names ∧
      names + num_segments (Context s) * SIZEOF_UE_SEGMENT_NAME
        <= table_offset (FileBuffer s) (Context s) (j + 1) <= size (FileBuffer s)
  | Err e s' => s' = s ∧ no_debug_table s e
  | Fault _ => False
  end.
Proof.
  assert (∀ j, debug_table s j → table_offset (FileBuffer s) (Context s) (j + 1)
    = table_offset (FileBuffer s) (Context s) j + table_size (FileBuffer s) (Context s) j) as Hsucc
    by (intros j []; apply table_offset_succ; lia).
  split.
  - pose proof (wp_cases _ _ _ _ (UeGetSymbolsPath_spec s Hbytes Hsize Hok)) as Hw.
    destruct (UeGetSymbolsPath s) as [[path n] s'| |]; [|done..].
    destruct Hw as (-> & j & Hj & Hp & Hn & Hin & Hz). cbn [fst snd] in *. split; [done|]. exists j.
    rewrite (Hsucc j Hj). autounfold with ue_layout in *. split_and!; done || lia.
  - pose proof (wp_cases _ _ _ _ (UeGetSegmentNames_spec s Hbytes Hsize Hok)) as Hw.
    destruct (UeGetSegmentNames s) as [names s'| |]; [|done..].
    destruct Hw as (-> & j & Hj & Hp & Hin). split; [done|]. exists j. by rewrite (Hsucc j Hj).
Qed.

Lemma ue_sample_symbols :
  @UeGetSymbolsPath platform_x64 (BaseOverflowLib build_gcc_x64) ue_sample_state = Ok (66, 3) ue_sample_state.
Proof. by vm_compute. Qed.

Lemma ue_debug_data_in_file_witness :
  byte_at ue_sample 68 = 0 ∧ ∃ j, debug_table ue_sample_state j.
Proof.
  assert (u32 (size ue_sample)) as Hsz by by vm_compute.
  destruct (@ue_debug_data_in_file platform_x64 (BaseOverflowLib build_gcc_x64) ue_sample_state
    ue_sample_bytes Hsz ue_sample_ok) as [Hw _].
  rewrite ue_sample_symbols in Hw. destruct Hw as (_ & j & Hj & _ & _ & _ & Hz).
  split; [exact Hz|]. exists j. exact Hj.
Defined.
