(* ===== verification/OrderedCollection.v ===== *)
(** BaseOrderedCollectionRedBlackTreeLib.c, first part: the nodes and trees in memory,
    the read-only operations, the rotations, and the validation of a tree.

    Memory is a finite map from addresses to nodes, and one from addresses to trees;
    NULL is [None].  An access through NULL, or to memory that was not allocated or is
    freed, is a fault.  User structures are opaque, and the two comparison functions of
    a tree are the caller's. *)
From stdpp Require Export gmap.
From S2P Require Import Prelude Platform.

Inductive RED_BLACK_TREE_COLOR :=
| RedBlackTreeRed
| RedBlackTreeBlack.

#[global] Instance RED_BLACK_TREE_COLOR_eq_dec : EqDecision RED_BLACK_TREE_COLOR.
Proof. solve_decision. Defined.

Abbreviation loc := positive (only parsing).
Abbreviation ptr := (option positive) (only parsing).
Abbreviation NULL := (@None positive) (only parsing).

Record RED_BLACK_TREE_NODE {U : Type} := mkNode {
  UserStruct : U;
  Parent : ptr;
  Left : ptr;
  Right : ptr;
  Color : RED_BLACK_TREE_COLOR;
}.
Arguments RED_BLACK_TREE_NODE U : clear implicits.
Arguments mkNode {U}.

(** Root, and the comparison functions: of two user structures, and of a key with a
    user structure.  INTN results are integers, of which only the sign is used. *)
Record RED_BLACK_TREE {U K : Type} := mkTree {
  Root : ptr;
  UserStructCompare : U → U → Z;
  KeyCompare : K → U → Z;
}.
Arguments RED_BLACK_TREE U K : clear implicits.
Arguments mkTree {U K}.

Record pool {U K : Type} := mkPool {
  Nodes : gmap positive (RED_BLACK_TREE_NODE U);
  Trees : gmap positive (RED_BLACK_TREE U K);
}.
Arguments pool U K : clear implicits.
Arguments mkPool {U K}.

Section Memory.
Context {U K : Type}.

Definition OcM (A : Type) : Type := M (pool U K) A.

#[global] Instance OcM_ret : MRet OcM := @M_ret (pool U K).
#[global] Instance OcM_bind : MBind OcM := @M_bind (pool U K).

Definition with_Nodes (h : gmap positive (RED_BLACK_TREE_NODE U)) (s : pool U K) : pool U K :=
  mkPool h (Trees s).

Definition with_Trees (t : gmap positive (RED_BLACK_TREE U K)) (s : pool U K) : pool U K :=
  mkPool (Nodes s) t.

(** [*Node] *)
Definition deref (Node : ptr) : OcM (RED_BLACK_TREE_NODE U) :=
  match Node with
  | None => crash UndefinedBehaviour
  | Some x => λ s, match Nodes s !! x with
                   | Some n => Ok n s
                   | None => Fault OutOfBounds
                   end
  end.

(** [Node->Field] *)
Definition field {A} (f : RED_BLACK_TREE_NODE U → A) (Node : ptr) : OcM A :=
  n ← deref Node; mret (f n).

(** [Node->Field = Value], with [g] the update of the field. *)
Definition store (g : RED_BLACK_TREE_NODE U → RED_BLACK_TREE_NODE U) (Node : ptr) : OcM unit :=
  match Node with
  | None => crash UndefinedBehaviour
  | Some x => _ ← deref Node; modify (λ s, with_Nodes (alter g x (Nodes s)) s)
  end.

Definition set_Parent (p : ptr) (n : RED_BLACK_TREE_NODE U) : RED_BLACK_TREE_NODE U :=
  mkNode (UserStruct n) p (Left n) (Right n) (Color n).
Definition set_Left (p : ptr) (n : RED_BLACK_TREE_NODE U) : RED_BLACK_TREE_NODE U :=
  mkNode (UserStruct n) (Parent n) p (Right n) (Color n).
Definition set_Right (p : ptr) (n : RED_BLACK_TREE_NODE U) : RED_BLACK_TREE_NODE U :=
  mkNode (UserStruct n) (Parent n) (Left n) p (Color n).
Definition set_Color (c : RED_BLACK_TREE_COLOR) (n : RED_BLACK_TREE_NODE U) : RED_BLACK_TREE_NODE U :=
  mkNode (UserStruct n) (Parent n) (Left n) (Right n) c.

(** [*Tree] *)
Definition deref_tree (Tree : loc) : OcM (RED_BLACK_TREE U K) :=
  λ s, match Trees s !! Tree with
       | Some t => Ok t s
       | None => Fault OutOfBounds
       end.

(** [Tree->Root = Value] *)
Definition store_Root (Tree : loc) (p : ptr) : OcM unit :=
  t ← deref_tree Tree;
  modify (λ s, with_Trees (<[Tree := mkTree p (UserStructCompare t) (KeyCompare t)]> (Trees s)) s).

(** FreePool of a node *)
Definition FreePool_node (Node : ptr) : OcM unit :=
  match Node with
  | None => crash UndefinedBehaviour
  | Some x => _ ← deref Node; modify (λ s, with_Nodes (delete x (Nodes s)) s)
  end.

(** FreePool of a tree *)
Definition FreePool_tree (Tree : loc) : OcM unit :=
  _ ← deref_tree Tree; modify (λ s, with_Trees (delete Tree (Trees s)) s).

(** The bound on the number of nodes a loop visits: the nodes there are. *)
Definition pool_fuel : OcM nat := s ← getS; mret (S (size (Nodes s))).
End Memory.

Definition is_null (p : ptr) : bool := bool_decide (p = NULL).
Definition ptr_eq (p q : ptr) : bool := bool_decide (p = q).
Definition color_eq (c c' : RED_BLACK_TREE_COLOR) : bool := bool_decide (c = c').

Section OrderedCollection.
Context {U K : Type} `{!Platform} (PcdValidateOrderedCollection : bool).
Abbreviation OcM := (@OcM U K).

Definition OrderedCollectionUserStruct (Node : ptr) : OcM U := field UserStruct Node.

Definition NodeIsNullOrBlack (Node : ptr) : OcM bool :=
  if is_null Node then mret true
  else c ← field Color Node; mret (color_eq c RedBlackTreeBlack).

Definition OrderedCollectionIsEmpty (Tree : loc) : OcM bool :=
  t ← deref_tree Tree; mret (is_null (Root t)).

Definition OrderedCollectionUninit (Tree : loc) : OcM unit :=
  e ← OrderedCollectionIsEmpty Tree;
  ASSERT e;;
  FreePool_tree Tree.

(** ** Lookup *)

Fixpoint Find_loop (fuel : nat) (Compare : U → Z) (Node : ptr) : OcM ptr :=
  match fuel with
  | O => crash OutOfFuel
  | S fuel =>
      if is_null Node then mret Node
      else
        u ← field UserStruct Node;
        let Result := Compare u in
        if Result =? 0 then mret Node
        else
          Next ← (if Result <? 0 then field Left Node else field Right Node);
          Find_loop fuel Compare Next
  end.

Definition OrderedCollectionFind (Tree : loc) (StandaloneKey : K) : OcM ptr :=
  t ← deref_tree Tree;
  fuel ← pool_fuel;
  Find_loop fuel (KeyCompare t StandaloneKey) (Root t).

(** [while (Node->Left != NULL) Node = Node->Left;] *)
Fixpoint Leftmost_loop (fuel : nat) (Node : ptr) : OcM ptr :=
  match fuel with
  | O => crash OutOfFuel
  | S fuel =>
      Next ← field Left Node;
      if is_null Next then mret Node else Leftmost_loop fuel Next
  end.

(** [while (Node->Right != NULL) Node = Node->Right;] *)
Fixpoint Rightmost_loop (fuel : nat) (Node : ptr) : OcM ptr :=
  match fuel with
  | O => crash OutOfFuel
  | S fuel =>
      Next ← field Right Node;
      if is_null Next then mret Node else Rightmost_loop fuel Next
  end.

Definition OrderedCollectionMin (Tree : loc) : OcM ptr :=
  t ← deref_tree Tree;
  let Node := Root t in
  if is_null Node then mret NULL
  else fuel ← pool_fuel; Leftmost_loop fuel Node.

Definition OrderedCollectionMax (Tree : loc) : OcM ptr :=
  t ← deref_tree Tree;
  let Node := Root t in
  if is_null Node then mret NULL
  else fuel ← pool_fuel; Rightmost_loop fuel Node.

(** [while (Walk != NULL && Child == Walk->Right) { Child = Walk; Walk = Child->Parent; }] *)
Fixpoint Next_loop (fuel : nat) (Child Walk : ptr) : OcM ptr :=
  match fuel with
  | O => crash OutOfFuel
  | S fuel =>
      if is_null Walk then mret Walk
      else
        r ← field Right Walk;
        if ptr_eq Child r then
          p ← field Parent Walk;
          Next_loop fuel Walk p
        else mret Walk
  end.

(** [while (Walk != NULL && Child == Walk->Left) { Child = Walk; Walk = Child->Parent; }] *)
Fixpoint Prev_loop (fuel : nat) (Child Walk : ptr) : OcM ptr :=
  match fuel with
  | O => crash OutOfFuel
  | S fuel =>
      if is_null Walk then mret Walk
      else
        l ← field Left Walk;
        if ptr_eq Child l then
          p ← field Parent Walk;
          Prev_loop fuel Walk p
        else mret Walk
  end.

Definition OrderedCollectionNext (Node : ptr) : OcM ptr :=
  if is_null Node then mret NULL
  else
    fuel ← pool_fuel;
    Walk ← field Right Node;
    if negb (is_null Walk) then Leftmost_loop fuel Walk
    else
      Walk ← field Parent Node;
      Next_loop fuel Node Walk.

Definition OrderedCollectionPrev (Node : ptr) : OcM ptr :=
  if is_null Node then mret NULL
  else
    fuel ← pool_fuel;
    Walk ← field Left Node;
    if negb (is_null Walk) then Rightmost_loop fuel Walk
    else
      Walk ← field Parent Node;
      Prev_loop fuel Node Walk.

(** ** Rotations *)

(** The new child [New] takes the place of [Old] below [Parent_], or becomes the root:
    [if (Parent == NULL) NewRoot = New; else if (Old == Parent->Left) Parent->Left = New;
    else Parent->Right = New;].  The value of NewRoot afterwards is returned. *)
Definition ReplaceChild (Parent_ Old New NewRoot : ptr) : OcM ptr :=
  if is_null Parent_ then mret New
  else
    l ← field Left Parent_;
    (if ptr_eq Old l then store (set_Left New) Parent_ else store (set_Right New) Parent_);;
    mret NewRoot.

(** [if (Child != NULL) Child->Parent = p;] *)
Definition SetParentIfNotNull (p Child : ptr) : OcM unit :=
  if is_null Child then mret tt else store (set_Parent p) Child.

(** NewRoot is an in/out argument: its value afterwards is returned. *)
Definition RedBlackTreeRotateRight (Pivot NewRoot : ptr) : OcM ptr :=
  Parent_ ← field Parent Pivot;
  LeftChild ← field Left Pivot;
  LeftRightChild ← field Right LeftChild;
  store (set_Left LeftRightChild) Pivot;;
  SetParentIfNotNull Pivot LeftRightChild;;
  store (set_Parent Parent_) LeftChild;;
  NewRoot ← ReplaceChild Parent_ Pivot LeftChild NewRoot;
  store (set_Right Pivot) LeftChild;;
  store (set_Parent LeftChild) Pivot;;
  mret NewRoot.

Definition RedBlackTreeRotateLeft (Pivot NewRoot : ptr) : OcM ptr :=
  Parent_ ← field Parent Pivot;
  RightChild ← field Right Pivot;
  RightLeftChild ← field Left RightChild;
  store (set_Right RightLeftChild) Pivot;;
  SetParentIfNotNull Pivot RightLeftChild;;
  store (set_Parent Parent_) RightChild;;
  NewRoot ← ReplaceChild Parent_ Pivot RightChild NewRoot;
  store (set_Left Pivot) RightChild;;
  store (set_Parent RightChild) Pivot;;
  mret NewRoot.

(** ** Validation *)

(** UINT32 results; the recursion is bounded by the nodes there are. *)
Fixpoint RedBlackTreeRecursiveCheck (fuel : nat) (Node : ptr) : OcM Z :=
  match fuel with
  | O => crash OutOfFuel
  | S fuel =>
      if is_null Node then mret 1
      else
        n ← deref Node;
        ASSERT (color_eq (Color n) RedBlackTreeRed || color_eq (Color n) RedBlackTreeBlack);;
        (if color_eq (Color n) RedBlackTreeRed then
           bl ← NodeIsNullOrBlack (Left n); ASSERT bl;;
           br ← NodeIsNullOrBlack (Right n); ASSERT br
         else mret tt);;
        LeftHeight ← RedBlackTreeRecursiveCheck fuel (Left n);
        RightHeight ← RedBlackTreeRecursiveCheck fuel (Right n);
        ASSERT (LeftHeight =? RightHeight);;
        mret (wrap 32 ((if color_eq (Color n) RedBlackTreeBlack then 1 else 0) + LeftHeight))
  end.

(** [for (Node = Next (Last); Node != NULL; Node = Next (Last)) { ASSERT (Compare (Last, Node));
    Last = Node; ++Count; }], with [Walk] the function Next or Prev. *)
Fixpoint Validate_loop (fuel : nat) (Walk : ptr → OcM ptr) (Ordered : U → U → bool)
    (Last : ptr) (Count : Z) : OcM Z :=
  match fuel with
  | O => crash OutOfFuel
  | S fuel =>
      Node ← Walk Last;
      if is_null Node then mret Count
      else
        a ← field UserStruct Last;
        b ← field UserStruct Node;
        ASSERT (Ordered a b);;
        Validate_loop fuel Walk Ordered Node (wrap 32 (Count + 1))
  end.

Definition RedBlackTreeValidate (Tree : loc) : OcM unit :=
  t ← deref_tree Tree;
  b ← NodeIsNullOrBlack (Root t);
  ASSERT b;;
  fuel ← pool_fuel;
  _ ← RedBlackTreeRecursiveCheck fuel (Root t);
  Last ← OrderedCollectionMin Tree;
  ForwardCount ← Validate_loop fuel OrderedCollectionNext
    (λ a b, UserStructCompare t a b <? 0) Last (if is_null Last then 0 else 1);
  Last ← OrderedCollectionMax Tree;
  BackwardCount ← Validate_loop fuel OrderedCollectionPrev
    (λ a b, 0 <? UserStructCompare t a b) Last (if is_null Last then 0 else 1);
  ASSERT (ForwardCount =? BackwardCount).

(** [if (FeaturePcdGet (PcdValidateOrderedCollection)) RedBlackTreeValidate (Tree);] *)
Definition ValidateIfEnabled (Tree : loc) : OcM unit :=
  if PcdValidateOrderedCollection then RedBlackTreeValidate Tree else mret tt.

(** [Allocated] is the answer of AllocatePool: an address, or NULL. *)
Definition OrderedCollectionInit (Allocated : ptr) (UserStructCompare_ : U → U → Z)
    (KeyCompare_ : K → U → Z) : OcM ptr :=
  match Allocated with
  | None => mret NULL
  | Some Tree =>
      modify (λ s, with_Trees (<[Tree := mkTree NULL UserStructCompare_ KeyCompare_]> (Trees s)) s);;
      ValidateIfEnabled Tree;;
      mret (Some Tree)
  end.
End OrderedCollection.
