(* ===== verification/OrderedTree.v ===== *)
(** The trees that a pool of red-black tree nodes represents: trees and one-hole
    contexts, what it means that memory holds a tree, and the read-only operations on
    such memory. *)
From S2P Require Import Prelude Platform OrderedCollection.
From stdpp Require Import sorting.

(** ** Trees and contexts *)

Inductive side := L | R.

#[global] Instance side_eq_dec : EqDecision side.
Proof. solve_decision. Defined.

Definition opp (d : side) : side := match d with L => R | R => L end.

Section Trees.
Context {U : Type}.

(** A tree, with the address and the user structure of each node. *)
Inductive tree :=
| E
| T (c : RED_BLACK_TREE_COLOR) (l : tree) (x : loc) (u : U) (r : tree).

(** The node whose child on side [d] is [a], and [b] the other one. *)
Definition node (d : side) (c : RED_BLACK_TREE_COLOR) (a : tree) (x : loc) (u : U) (b : tree) : tree :=
  match d with L => T c a x u b | R => T c b x u a end.

(** A step of the way to a hole: the hole is on side [f_side] of the node. *)
Record frame := mkFrame {
  f_side : side;
  f_color : RED_BLACK_TREE_COLOR;
  f_loc : loc;
  f_user : U;
  f_other : tree;
}.

Definition fill (f : frame) (t : tree) : tree := node (f_side f) (f_color f) t (f_loc f) (f_user f) (f_other f).

(** A context lists the steps from the hole to the root. *)
Fixpoint plug (z : list frame) (t : tree) : tree :=
  match z with
  | [] => t
  | f :: z => plug z (fill f t)
  end.

Definition root (t : tree) : ptr := match t with E => None | T _ _ x _ _ => Some x end.

Definition color (t : tree) : RED_BLACK_TREE_COLOR :=
  match t with E => RedBlackTreeBlack | T c _ _ _ _ => c end.

(** The nodes in order. *)
Fixpoint entries (t : tree) : list (loc * U) :=
  match t with
  | E => []
  | T _ l x u r => entries l ++ (x, u) :: entries r
  end.

Definition locs (t : tree) : list loc := (entries t).*1.

(** The nodes to the left and to the right of a hole. *)
Fixpoint before (z : list frame) : list (loc * U) :=
  match z with
  | [] => []
  | f :: z => before z ++ match f_side f with L => [] | R => entries (f_other f) ++ [(f_loc f, f_user f)] end
  end.

Fixpoint after (z : list frame) : list (loc * U) :=
  match z with
  | [] => []
  | f :: z => match f_side f with L => (f_loc f, f_user f) :: entries (f_other f) | R => [] end ++ after z
  end.

Definition ctx_locs (z : list frame) : list loc := (before z).*1 ++ (after z).*1.

Lemma entries_plug z t : entries (plug z t) = before z ++ entries t ++ after z.
Proof.
  revert t. induction z as [|[[] c x u o] z IH]; intros t; cbn -[entries]; [by rewrite app_nil_r| |];
    rewrite IH; cbn; by rewrite ?app_nil_r, <- ?app_assoc.
Qed.

Lemma plug_app z z' t : plug (z ++ z') t = plug z' (plug z t).
Proof. revert t. induction z as [|f z IH]; intros t; cbn; auto. Qed.

Lemma plug_eq_E z t : plug z t = E → z = [] ∧ t = E.
Proof.
  revert t. induction z as [|[[] c x u o] z IH]; intros t; cbn; [done| |];
    intros [_ Ht]%IH; discriminate.
Qed.

Lemma node_cases d t : t ≠ E → ∃ c a x u b, t = node d c a x u b.
Proof. destruct t as [|c l x u r]; [done|]. destruct d; cbn; eauto 10. Qed.

Lemma root_node d c a x u b : root (node d c a x u b) = Some x.
Proof. by destruct d. Qed.

Lemma color_node d c a x u b : color (node d c a x u b) = c.
Proof. by destruct d. Qed.

(** Membership in a node and in a plugged tree. *)
Lemma elem_locs_node d c a x u b y : y ∈ locs (node d c a x u b) ↔ y = x ∨ y ∈ locs a ∨ y ∈ locs b.
Proof. unfold locs. destruct d; cbn; rewrite fmap_app, fmap_cons, elem_of_app, elem_of_cons; cbn; tauto. Qed.

Lemma elem_locs_plug z t y : y ∈ locs (plug z t) ↔ y ∈ locs t ∨ y ∈ ctx_locs z.
Proof. unfold locs, ctx_locs. rewrite entries_plug, !fmap_app, !elem_of_app. tauto. Qed.

Lemma elem_ctx_locs f z y :
  y ∈ ctx_locs (f :: z) ↔ y = f_loc f ∨ y ∈ locs (f_other f) ∨ y ∈ ctx_locs z.
Proof.
  unfold ctx_locs, locs. cbn. destruct (f_side f);
    rewrite ?fmap_app, ?elem_of_app, ?fmap_cons, ?elem_of_cons; cbn;
    rewrite ?fmap_app, ?elem_of_app, ?elem_of_cons, ?elem_of_nil; cbn; rewrite ?elem_of_nil; tauto.
Qed.

(** Distinct addresses. *)
Lemma NoDup_locs_node d c a x u b :
  NoDup (locs (node d c a x u b)) ↔
  x ∉ locs a ∧ x ∉ locs b ∧ NoDup (locs a) ∧ NoDup (locs b) ∧ (∀ y, y ∈ locs a → y ∈ locs b → False).
Proof.
  unfold locs. destruct d; cbn; rewrite fmap_app, fmap_cons, NoDup_app, NoDup_cons; cbn;
    set_solver.
Qed.

Lemma NoDup_locs_plug z t :
  NoDup (locs (plug z t)) ↔
  NoDup (locs t) ∧ NoDup (ctx_locs z) ∧ (∀ y, y ∈ locs t → y ∈ ctx_locs z → False).
Proof.
  unfold locs, ctx_locs. rewrite entries_plug, !fmap_app, !NoDup_app. set_solver.
Qed.

Lemma NoDup_ctx_locs f z :
  NoDup (ctx_locs (f :: z)) ↔
  f_loc f ∉ locs (f_other f) ∧ f_loc f ∉ ctx_locs z ∧ NoDup (locs (f_other f)) ∧ NoDup (ctx_locs z) ∧
  (∀ y, y ∈ locs (f_other f) → y ∈ ctx_locs z → False).
Proof.
  pose proof (NoDup_locs_plug (f :: z) E) as Hplug. cbn [plug] in Hplug.
  rewrite NoDup_locs_plug in Hplug. unfold fill in Hplug. rewrite NoDup_locs_node in Hplug.
  setoid_rewrite elem_locs_node in Hplug. unfold locs at 1 3 6 8 9 in Hplug. cbn in Hplug.
  pose proof (NoDup_nil_2 (A := loc)).
  assert (∀ y : loc, y ∉ []) as Hnil by (intros y; apply not_elem_of_nil).
  unfold not in Hnil. naive_solver.
Qed.

Lemma locs_elem x t : x ∈ locs t ↔ ∃ u, (x, u) ∈ entries t.
Proof. unfold locs. rewrite list_elem_of_fmap. split; [intros ([] & -> & ?)|intros (u & ?); exists (x, u)]; eauto. Qed.

(** An address of a tree is a node of it, with a context. *)
Lemma locs_focus x u t : (x, u) ∈ entries t → ∃ z c l r, t = plug z (T c l x u r).
Proof.
  induction t as [|c l IHl y v r IHr]; cbn; [by rewrite elem_of_nil|].
  rewrite elem_of_app, elem_of_cons. intros [Hl|[Hx|Hr]].
  - destruct (IHl Hl) as (z & c' & l' & r' & ->). exists (z ++ [mkFrame L c y v r]), c', l', r'.
    by rewrite plug_app.
  - inversion Hx; subst. by exists [], c, l, r.
  - destruct (IHr Hr) as (z & c' & l' & r' & ->). exists (z ++ [mkFrame R c y v l]), c', l', r'.
    by rewrite plug_app.
Qed.
End Trees.
Arguments tree U : clear implicits.
Arguments frame U : clear implicits.

(** ** Trees in memory *)

Section Represent.
Context {U : Type}.
Implicit Types (h : gmap positive (RED_BLACK_TREE_NODE U)) (t : tree U) (z : list (frame U)).

(** The memory [h] holds the nodes of [t], whose root has the parent [p]. *)
Fixpoint rep h (p : ptr) (t : tree U) : Prop :=
  match t with
  | E => True
  | T c l x u r => h !! x = Some (mkNode u p (root l) (root r) c) ∧ rep h (Some x) l ∧ rep h (Some x) r
  end.

(** The node of a frame, with parent [p] and the subtree with root [q] in the hole. *)
Definition frame_node (p q : ptr) (f : frame U) : RED_BLACK_TREE_NODE U :=
  match f_side f with
  | L => mkNode (f_user f) p q (root (f_other f)) (f_color f)
  | R => mkNode (f_user f) p (root (f_other f)) q (f_color f)
  end.

(** The parent of what is in the hole: [p] is the parent of the whole. *)
Definition parent (p : ptr) z : ptr := match z with [] => p | f :: _ => Some (f_loc f) end.

(** The memory holds the nodes of the context, with the root [q] in the hole. *)
Fixpoint rep_ctx h (p q : ptr) z : Prop :=
  match z with
  | [] => True
  | f :: z => h !! f_loc f = Some (frame_node (parent p z) q f) ∧
      rep h (Some (f_loc f)) (f_other f) ∧ rep_ctx h p (Some (f_loc f)) z
  end.

Lemma rep_node h p d c a x u b :
  rep h p (node d c a x u b) ↔
  h !! x = Some (frame_node p (root a) (mkFrame d c x u b)) ∧ rep h (Some x) a ∧ rep h (Some x) b.
Proof. destruct d; cbn; tauto. Qed.

Lemma rep_plug h p z t : rep h p (plug z t) ↔ rep_ctx h p (root t) z ∧ rep h (parent p z) t.
Proof.
  revert t. induction z as [|f z IH]; intros t; cbn; [tauto|].
  rewrite IH. unfold fill. rewrite rep_node, root_node. destruct f; cbn. tauto.
Qed.

(** Memory elsewhere does not matter. *)
Lemma rep_frame h h' p t : (∀ x, x ∈ locs t → h' !! x = h !! x) → rep h p t → rep h' p t.
Proof.
  revert p. induction t as [|c l IHl x u r IHr]; intros p Heq; cbn; [done|].
  assert (∀ y, y ∈ locs (T c l x u r) ↔ y = x ∨ y ∈ locs l ∨ y ∈ locs r) as Hin
    by (intros y; apply (elem_locs_node L)).
  intros (Hx & Hl & Hr). rewrite Heq by (apply Hin; auto).
  split; [done|]. split; [apply IHl|apply IHr]; try done; intros; apply Heq, Hin; auto.
Qed.

Lemma rep_ctx_frame h h' p q z : (∀ x, x ∈ ctx_locs z → h' !! x = h !! x) → rep_ctx h p q z → rep_ctx h' p q z.
Proof.
  revert q. induction z as [|f z IH]; intros q Heq; cbn; [done|]. intros (Hf & Ho & Hz).
  rewrite Heq by (apply elem_ctx_locs; auto). split; [done|]. split.
  - eapply rep_frame; [|done]. intros. apply Heq, elem_ctx_locs; auto.
  - apply IH; [|done]. intros. apply Heq, elem_ctx_locs; auto.
Qed.

Lemma rep_in h p t x : rep h p t → x ∈ locs t → is_Some (h !! x).
Proof.
  intros Ht (u & Hx)%locs_elem. destruct (locs_focus _ _ _ Hx) as (z & c & l & r & ->).
  apply rep_plug in Ht as [_ (Hn & _)]. by eexists.
Qed.

(** The nodes of a tree are nodes of the memory: a bound on loops. *)
Lemma rep_size h p t : rep h p t → NoDup (locs t) → (length (locs t) <= size h)%nat.
Proof.
  intros Ht Hd. rewrite <- size_dom, <- (size_list_to_set (C := gset positive)) by done.
  apply subseteq_size. intros x Hx. apply elem_of_list_to_set in Hx.
  apply elem_of_dom. by eapply rep_in.
Qed.

(** *** Updates *)

(** [if (p != NULL) p->Field = ...] on memory. *)
Definition alter_ptr (g : RED_BLACK_TREE_NODE U → RED_BLACK_TREE_NODE U) (p : ptr) h :=
  match p with None => h | Some x => alter g x h end.

Lemma alter_ptr_ne g p h y : p ≠ Some y → alter_ptr g p h !! y = h !! y.
Proof. destruct p as [x|]; cbn; [|done]. intros. apply lookup_alter_ne. congruence. Qed.

Lemma root_in t x : root t = Some x → x ∈ locs t.
Proof.
  destruct t as [|c l y u r]; [done|]. intros [= ->]. apply (elem_locs_node L). auto.
Qed.

(** A subtree gets another parent. *)
Lemma rep_set_Parent h p q t :
  NoDup (locs t) → rep h p t → rep (alter_ptr (set_Parent q) (root t) h) q t.
Proof.
  destruct t as [|c l x u r]; [done|]. intros Hd (Hx & Hl & Hr).
  apply (NoDup_locs_node L) in Hd as (Hxl & Hxr & _). cbn. split.
  - by rewrite lookup_alter_eq, Hx.
  - split; (eapply rep_frame; [|done]); intros y Hy; apply lookup_alter_ne; congruence.
Qed.

Lemma rep_set_Color h p c c' l x u r :
  NoDup (locs (T c l x u r)) → rep h p (T c l x u r) →
  rep (alter (set_Color c') x h) p (T c' l x u r).
Proof.
  intros Hd (Hx & Hl & Hr). apply (NoDup_locs_node L) in Hd as (Hxl & Hxr & _). cbn. split.
  - by rewrite lookup_alter_eq, Hx.
  - split; (eapply rep_frame; [|done]); intros y Hy; apply lookup_alter_ne; congruence.
Qed.

Definition set_child (d : side) (q : ptr) : RED_BLACK_TREE_NODE U → RED_BLACK_TREE_NODE U :=
  match d with L => set_Left q | R => set_Right q end.

Definition child (d : side) : RED_BLACK_TREE_NODE U → ptr := match d with L => Left | R => Right end.

(** Another subtree is put in the hole. *)
Definition set_hole (q : ptr) z h : gmap positive (RED_BLACK_TREE_NODE U) :=
  match z with [] => h | f :: _ => alter (set_child (f_side f) q) (f_loc f) h end.

Lemma rep_set_hole h p q q' z :
  NoDup (ctx_locs z) → rep_ctx h p q z → rep_ctx (set_hole q' z h) p q' z.
Proof.
  destruct z as [|f z]; [done|]. intros (Hfo & Hfz & _)%NoDup_ctx_locs (Hf & Ho & Hz). cbn. split.
  - rewrite lookup_alter_eq, Hf. by destruct f as [[] ? ? ? ?].
  - split; [eapply rep_frame; [|done]|eapply rep_ctx_frame; [|done]];
      intros y Hy; apply lookup_alter_ne; congruence.
Qed.

Lemma set_hole_ne q z h y : y ∉ ctx_locs z → set_hole q z h !! y = h !! y.
Proof.
  destruct z as [|f z]; [done|]. intros Hy. apply lookup_alter_ne. intros <-.
  apply Hy, elem_ctx_locs. auto.
Qed.
End Represent.

(** ** Red-black trees *)

Section RedBlack.
Context {U : Type}.
Implicit Types (t : tree U) (z : list (frame U)).
Abbreviation Red := RedBlackTreeRed.
Abbreviation Black := RedBlackTreeBlack.

(** Properties #1 to #4: [rb c n t] when the root has the colour [c] and every path to a
    leaf has [n] black nodes. *)
Inductive rb : RED_BLACK_TREE_COLOR → nat → tree U → Prop :=
| rb_leaf : rb Black 0 E
| rb_red n d a x u b : rb Black n a → rb Black n b → rb Red n (node d Red a x u b)
| rb_black n d ca a x u cb b : rb ca n a → rb cb n b → rb Black (S n) (node d Black a x u b).

(** The five properties. *)
Definition red_black t : Prop := ∃ n, rb Black n t.

(** A context in which a tree of colour [c] and black height [n] makes a red-black tree,
    up to the colour of the root when the context is empty. *)
Fixpoint rb_ctx (c : RED_BLACK_TREE_COLOR) (n : nat) z : Prop :=
  match z with
  | [] => True
  | f :: z =>
      match f_color f with
      | Red => c = Black ∧ z ≠ [] ∧ rb Black n (f_other f) ∧ rb_ctx Red n z
      | Black => (∃ co, rb co n (f_other f)) ∧ rb_ctx Black (S n) z
      end
  end.

Lemma rb_inv c n d c' a x u b :
  rb c n (node d c' a x u b) →
  c = c' ∧ match c' with
           | Red => rb Black n a ∧ rb Black n b
           | Black => ∃ ca cb m, n = S m ∧ rb ca m a ∧ rb cb m b
           end.
Proof.
  inversion 1 as [Hd|m e a' y v b' Ha Hb Hc Hm He|m e ca a' y v cb b' Ha Hb Hc Hm He]; subst; [by destruct d|..];
    destruct d, e; inversion He; subst; eauto 10.
Qed.

Lemma rb_color c n t : rb c n t → color t = c.
Proof. destruct 1; by rewrite ?color_node. Qed.

Lemma rb_E_inv c n : rb c n (E (U := U)) → c = Black ∧ n = 0%nat.
Proof. inversion 1 as [|m d|m d]; [done|by destruct d..]. Qed.

Lemma rb_black_nonempty c n t : rb c (S n) t → t ≠ E.
Proof. intros Ht ->. by apply rb_E_inv in Ht as [? ?]. Qed.

Lemma rb_red_nonempty n t : rb Red n t → t ≠ E.
Proof. intros Ht ->. by apply rb_E_inv in Ht as [? ?]. Qed.

Lemma rb_ctx_weaken n z : rb_ctx Red n z → rb_ctx Black n z.
Proof. destruct z as [|f z]; [done|]. cbn. destruct (f_color f); naive_solver. Qed.

Lemma rb_plug c n z t : rb_ctx c n z → rb c n t → (z = [] → c = Black) → red_black (plug z t).
Proof.
  revert c n t. induction z as [|[d c' x u o] z IH]; intros c n t Hz Ht Hc; cbn in *.
  - rewrite (Hc eq_refl) in Ht. by exists n.
  - unfold fill. cbn. destruct c'.
    + destruct Hz as (-> & Hne & Ho & Hz). eapply IH; [done| |done]. by apply rb_red.
    + destruct Hz as ((co & Ho) & Hz). eapply IH; [done| |done]. by eapply rb_black.
Qed.

Lemma rb_unplug z t :
  red_black (plug z t) → ∃ c n, rb c n t ∧ rb_ctx c n z ∧ (z = [] → c = Black).
Proof.
  revert t. induction z as [|[d c' x u o] z IH]; intros t; cbn.
  - intros [n Hn]. eauto.
  - intros (c & n & Ht & Hz & Hc)%IH. unfold fill in Ht. cbn in Ht. apply rb_inv in Ht as [-> Ht].
    destruct c'.
    + destruct Ht as [Ht Ho]. exists Black, n. split; [done|]. split; [|done].
      split; [done|]. split; [|done]. intros ->. by specialize (Hc eq_refl).
    + destruct Ht as (ca & cb & m & -> & Ht & Ho). exists ca, m.
      split; [done|]. split; [|done]. split; [by exists cb|done].
Qed.

(** The length of the longest path, and its bound. *)
Fixpoint height t : nat :=
  match t with E => 0 | T _ l _ _ r => S (Nat.max (height l) (height r)) end.

Lemma height_node d c a x u b : height (node d c a x u b) = S (Nat.max (height a) (height b)).
Proof. destruct d; cbn; [done|]. by rewrite Nat.max_comm. Qed.

Lemma length_entries_node d c a x u b :
  length (entries (node d c a x u b)) = S (length (entries a) + length (entries (U := U) b)).
Proof. destruct d; cbn; rewrite length_app; cbn; lia. Qed.

Lemma height_entries t : (height t <= length (entries t))%nat.
Proof. induction t as [|c l IHl x u r IHr]; cbn; [lia|]. rewrite length_app. cbn. lia. Qed.

Lemma rb_height c n t : rb c n t → (height t <= 2 * n + if c then 1 else 0)%nat.
Proof.
  induction 1 as [|n d a x u b _ IHa _ IHb|n d ca a x u cb b _ IHa _ IHb];
    rewrite ?height_node; cbn in *; [lia..|]. destruct ca, cb; lia.
Qed.

Lemma rb_entries c n t : rb c n t → (2 ^ n <= S (length (entries t)))%nat.
Proof.
  induction 1 as [|n d a x u b _ IHa _ IHb|n d ca a x u cb b _ IHa _ IHb];
    rewrite ?length_entries_node; cbn in *; lia.
Qed.

(** A red-black tree is at most twice as high as a perfectly balanced one. *)
Lemma red_black_height t : red_black t → (height t <= 2 * Nat.log2 (S (length (entries t))))%nat.
Proof.
  intros [n Hn]. pose proof (rb_height _ _ _ Hn). pose proof (rb_entries _ _ _ Hn) as Hp.
  apply Nat.log2_le_mono in Hp. rewrite Nat.log2_pow2 in Hp by lia. cbn in *. lia.
Qed.
End RedBlack.
