(* ===== verification/OrderedWalk.v ===== *)
(** Collections in memory, and the read-only operations on them: lookup, minimum and
    maximum, successor and predecessor, validation. *)
From S2P Require Import Prelude Platform OrderedCollection OrderedTree.
From stdpp Require Import sorting.
#[local] Open Scope Z_scope.

(** What the library class asks of the caller's comparison function: it orders the user
    structures. *)
Class Comparison {U : Type} (cmp : U → U → Z) : Prop := {
  cmp_flip a b : cmp a b < 0 ↔ 0 < cmp b a;
  cmp_below a b c : cmp a b <= 0 → cmp b c < 0 → cmp a c < 0;
  cmp_above a b c : 0 <= cmp a b → cmp c b < 0 → 0 < cmp a c;
}.

(** The entries are in ascending order. *)
Definition ordered {U} (cmp : U → U → Z) (l : list (loc * U)) : Prop :=
  StronglySorted (λ a b, cmp a.2 b.2 < 0) l.

(** Tree is a collection with the entries of [t], in memory [s]. *)
Record Collection {U K} (s : pool U K) (Tree : loc) (cmp : U → U → Z) (kcmp : K → U → Z)
    (t : tree U) : Prop := {
  col_tree : Trees s !! Tree = Some (mkTree (root t) cmp kcmp);
  col_distinct : NoDup (locs t);
  col_rep : rep (Nodes s) NULL t;
  col_red_black : red_black t;
  col_ordered : ordered cmp (entries t);
}.

(** What an operation on one collection leaves alone: the nodes outside of it, and the
    other collections. *)
Definition elsewhere {U K} (s s' : pool U K) (Tree : loc) (l : list loc) : Prop :=
  (∀ y, y ∉ l → Nodes s' !! y = Nodes s !! y) ∧ (∀ T, T ≠ Tree → Trees s' !! T = Trees s !! T).

(** ** Memory accesses *)

Section Access.
Context {U K : Type} `{!Platform}.
Implicit Types (s : pool U K) (n : RED_BLACK_TREE_NODE U).

Lemma wp_deref x n s Q E : Nodes s !! x = Some n → Q n s → wp (deref (Some x)) Q E s.
Proof. intros Hx HQ. Transparent wp. unfold wp, deref. by rewrite Hx. Qed.

Lemma wp_field {A} (f : RED_BLACK_TREE_NODE U → A) x n s Q E :
  Nodes s !! x = Some n → Q (f n) s → wp (field f (Some x)) Q E s.
Proof. intros Hx HQ. apply wp_bind. eapply wp_deref; [done|]. by apply wp_ret. Qed.

Lemma wp_store g x n s Q E :
  Nodes s !! x = Some n → Q tt (with_Nodes (alter g x (Nodes s)) s) → wp (store g (Some x)) Q E s.
Proof. intros Hx HQ. apply wp_bind. eapply wp_deref; [done|]. by apply wp_modify. Qed.

Lemma wp_free x n s Q E :
  Nodes s !! x = Some n → Q tt (with_Nodes (delete x (Nodes s)) s) → wp (FreePool_node (Some x)) Q E s.
Proof. intros Hx HQ. apply wp_bind. eapply wp_deref; [done|]. by apply wp_modify. Qed.

Lemma wp_deref_tree Tree t s Q E : Trees s !! Tree = Some t → Q t s → wp (deref_tree Tree) Q E s.
Proof. intros Hx HQ. unfold wp, deref_tree. by rewrite Hx. Qed.

Lemma wp_store_Root Tree p t s Q E :
  Trees s !! Tree = Some t →
  Q tt (with_Trees (<[Tree := mkTree p (UserStructCompare t) (KeyCompare t)]> (Trees s)) s) →
  wp (store_Root Tree p) Q E s.
Proof. intros Hx HQ. apply wp_bind. eapply wp_deref_tree; [done|]. by apply wp_modify. Qed.

Lemma wp_fuel s Q E : Q (S (size (Nodes s))) s → wp pool_fuel Q E s.
Proof. intros HQ. apply wp_bind, wp_getS. by apply wp_ret. Qed.

Lemma wp_is_black p (t : tree U) s Q E :
  rep (Nodes s) p t → Q (color_eq (color t) RedBlackTreeBlack) s → wp (NodeIsNullOrBlack (root t)) Q E s.
Proof.
  destruct t as [|c l x u r]; cbn; [intros _ HQ; by apply wp_ret|].
  intros (Hx & _) HQ. apply wp_bind. eapply wp_field; [done|]. by apply wp_ret.
Qed.
End Access.
#[global] Opaque wp.

Lemma is_null_root {U} (t : tree U) : is_null (root t) = false → t ≠ E.
Proof. by intros ? ->. Qed.

Lemma bool_decide_ptr (p q : ptr) : ptr_eq p q = true ↔ p = q.
Proof. apply bool_decide_eq_true. Qed.

(** ** The ends of a tree *)

Section Walks.
Context {U K : Type} `{!Platform}.
Implicit Types (s : pool U K) (t : tree U) (z : list (frame U)).

(** The loops to the leftmost and the rightmost node. *)
Definition end_loop (d : side) : nat → ptr → OcM (U := U) (K := K) ptr :=
  match d with L => Leftmost_loop | R => Rightmost_loop end.

Lemma end_loop_S d fuel Node :
  end_loop d (S fuel) Node =
  (Next ← field (child d) Node; if is_null Next then mret Node else end_loop d fuel Next).
Proof. by destruct d. Qed.

(** The first and the last of a list, and the first after a point from either side. *)
Definition end_of {A} (d : side) (l : list A) : option A := match d with L => head l | R => list.last l end.

Lemma head_app_cons {A} (l k : list A) x : head (l ++ x :: k) = Some (default x (head l)).
Proof. by destruct l. Qed.

Lemma last_app_cons {A} (l k : list A) x : list.last (l ++ x :: k) = Some (default x (list.last k)).
Proof. rewrite last_app, last_cons. by destruct (list.last k). Qed.

Lemma end_of_node d c a x (u : U) b :
  end_of d (locs (node d c a x u b)) = Some (default x (end_of d (locs a))).
Proof.
  unfold locs. destruct d; cbn; rewrite fmap_app, fmap_cons; [apply head_app_cons|apply last_app_cons].
Qed.

Lemma end_loop_spec d t : ∀ fuel p s,
  (height t <= fuel)%nat → t ≠ E → rep (Nodes s) p t →
  wp (end_loop d fuel (root t)) (λ q s', q = end_of d (locs t) ∧ s' = s) (λ _ _, False) s.
Proof.
  induction t as [t IH] using (well_founded_induction_type (Wf_nat.well_founded_ltof _ height)).
  intros fuel p s Hfuel Hne Ht. destruct (node_cases d t Hne) as (c & a & x & u & b & ->).
  rewrite height_node in Hfuel. destruct fuel as [|fuel]; [lia|]. rewrite end_loop_S, root_node.
  apply rep_node in Ht as (Hx & Ha & Hb). apply wp_bind. eapply wp_field; [done|].
  replace (child d _) with (root a) by by destruct d.
  apply wp_if; intros Hnull.
  - apply wp_ret. rewrite end_of_node. split; [|done].
    destruct a as [|]; [|done]. by destruct d.
  - apply is_null_root in Hnull. eapply wp_mono; [eapply IH; try done| |done].
    + unfold Wf_nat.ltof. rewrite height_node. lia.
    + lia.
    + intros q s' [-> ->]. split; [|done]. rewrite end_of_node.
      destruct (node_cases d a Hnull) as (c' & a' & x' & u' & b' & ->). by rewrite end_of_node.
Qed.

(** ** Neighbours *)

(** The loops to the first ancestor that has the node on side [d]. *)
Definition turn_loop (d : side) : nat → ptr → ptr → OcM (U := U) (K := K) ptr :=
  match d with L => Next_loop | R => Prev_loop end.

Lemma turn_loop_S d fuel Child Walk :
  turn_loop d (S fuel) Child Walk =
  (if is_null Walk then mret Walk
   else
     r ← field (child (opp d)) Walk;
     if ptr_eq Child r then p ← field Parent Walk; turn_loop d fuel Walk p
     else mret Walk).
Proof. by destruct d. Qed.

(** What comes next to the hole: after it for [L], before it for [R]. *)
Definition beside (d : side) z : ptr :=
  match d with L => head (after z).*1 | R => list.last (before z).*1 end.

Lemma beside_cons d f z :
  beside d (f :: z) = if decide (f_side f = d) then Some (f_loc f) else beside d z.
Proof.
  destruct f as [e c x u o], d, e; cbn; try done.
  - by rewrite app_nil_r.
  - rewrite !fmap_app, app_assoc. apply last_snoc.
Qed.

Lemma turn_loop_spec d z : ∀ fuel t x s,
  (length z < fuel)%nat → root t = Some x → NoDup (locs (plug z t)) → rep_ctx (Nodes s) NULL (Some x) z →
  wp (turn_loop d fuel (Some x) (parent NULL z)) (λ q s', q = beside d z ∧ s' = s) (λ _ _, False) s.
Proof.
  induction z as [|f z IH]; intros fuel t x s Hfuel Hroot Hd Hz; (destruct fuel as [|fuel]; [cbn in *; lia|]).
  - rewrite turn_loop_S. apply wp_ret. by destruct d.
  - rewrite turn_loop_S. cbn [parent is_null]. destruct Hz as (Hf & Ho & Hz).
    apply wp_if; [done|]; intros _. apply wp_bind. eapply wp_field; [done|]. rewrite beside_cons.
    destruct (decide (f_side f = d)) as [<-|Hside].
    + apply wp_if; intros Heq; [|by apply wp_ret]. exfalso.
      apply bool_decide_ptr in Heq. cbn [plug] in Hd. apply NoDup_locs_plug in Hd as (Hd & _).
      apply NoDup_locs_node in Hd as (_ & _ & _ & _ & Hd).
      apply (Hd x); apply root_in; [done|]. rewrite Heq. by destruct f as [[] ? ? ? ?].
    + apply wp_if; intros Heq; [|exfalso; apply not_true_iff_false in Heq; apply Heq, bool_decide_ptr;
        by destruct f as [[] ? ? ? ?], d].
      apply wp_bind. eapply wp_field; [done|]. replace (Parent _) with (parent NULL z) by by destruct f as [[] ? ? ? ?].
      eapply (IH _ (fill f t)); [cbn in *; lia|by apply root_node|done..].
Qed.

Lemma length_ctx z t : (length z <= length (locs (plug z t)))%nat.
Proof.
  unfold locs. rewrite entries_plug, length_fmap, !length_app.
  enough (length z <= length (before z) + length (after z))%nat by lia.
  induction z as [|[[] c x u o] z IH]; cbn; rewrite ?length_app; cbn; rewrite ?length_app; cbn; lia.
Qed.

Lemma height_locs_plug z t : (height t <= length (locs (plug z t)))%nat.
Proof.
  unfold locs. rewrite entries_plug, length_fmap, !length_app. pose proof (height_entries t). lia.
Qed.

(** The neighbour of a node on side [d] is the end of its subtree on that side or, if
    there is none, of an ancestor. *)
Definition neighbour (d : side) (Node : ptr) : OcM (U := U) (K := K) ptr :=
  match d with L => OrderedCollectionNext Node | R => OrderedCollectionPrev Node end.

Lemma neighbour_eq d x :
  neighbour d (Some x) =
  (fuel ← pool_fuel; Walk ← field (child (opp d)) (Some x);
   if negb (is_null Walk) then end_loop d fuel Walk
   else Walk ← field Parent (Some x); turn_loop d fuel (Some x) Walk).
Proof. by destruct d. Qed.

Lemma neighbour_spec d z c a x u b s :
  NoDup (locs (plug z (node (opp d) c a x u b))) → rep (Nodes s) NULL (plug z (node (opp d) c a x u b)) →
  wp (neighbour d (Some x)) (λ q s', q = match a with E => beside d z | _ => end_of d (locs a) end ∧ s' = s)
    (λ _ _, False) s.
Proof.
  intros Hd Ht. pose proof (rep_size _ _ _ Ht Hd) as Hsize. rewrite neighbour_eq.
  apply rep_plug in Ht as [Hz Ht]. apply rep_node in Ht as (Hx & Ha & Hb). rewrite root_node in Hz.
  apply wp_bind, wp_fuel, wp_bind. eapply wp_field; [done|].
  replace (child (opp d) _) with (root a) by by destruct d.
  destruct a as [|ca la xa ua ra] eqn:Hae; rewrite <- Hae in *.
  - rewrite Hae. apply wp_bind. eapply wp_field; [done|]. replace (Parent _) with (parent NULL z) by by destruct d.
    eapply turn_loop_spec; [|apply (root_node (opp d))|done..].
    pose proof (length_ctx z (node (opp d) c a x u b)). lia.
  - replace (negb _) with true by by rewrite Hae. eapply end_loop_spec; [|by rewrite Hae|done].
    pose proof (height_locs_plug z (node (opp d) c a x u b)) as Hh. rewrite height_node in Hh. lia.
Qed.

Lemma split_unique {A} (l k l' k' : list A) x :
  NoDup (l ++ x :: k) → l ++ x :: k = l' ++ x :: k' → l = l' ∧ k = k'.
Proof.
  revert l'. induction l as [|y l IH]; intros [|y' l'] Hd Heq; simplify_eq/=; try done;
    apply NoDup_cons in Hd as [Hx Hd]; [set_solver..|].
  edestruct IH as [-> ->]; done.
Qed.

(** A node with its neighbours in order. *)
Lemma locs_split t l1 x l2 :
  NoDup (locs t) → locs t = l1 ++ x :: l2 →
  ∃ z c l u r, t = plug z (T c l x u r) ∧ l1 = (before z).*1 ++ locs l ∧ l2 = locs r ++ (after z).*1.
Proof.
  intros Hd Hl. assert (x ∈ locs t) as (u & Hx)%locs_elem by (rewrite Hl; set_solver).
  destruct (locs_focus _ _ _ Hx) as (z & c & l & r & ->). exists z, c, l, u, r. split; [done|].
  assert (locs (plug z (T c l x u r)) = ((before z).*1 ++ locs l) ++ x :: (locs r ++ (after z).*1)) as Hs.
  { unfold locs. rewrite entries_plug. cbn. by rewrite !fmap_app, fmap_cons, <- !app_assoc. }
  apply split_unique with x; [by rewrite <- Hl|]. by rewrite <- Hl.
Qed.

Lemma OrderedCollectionNext_spec t l1 x l2 s :
  NoDup (locs t) → rep (Nodes s) NULL t → locs t = l1 ++ x :: l2 →
  OrderedCollectionNext (Some x) s = Ok (head l2) s.
Proof.
  intros Hd Ht Hl. destruct (locs_split _ _ _ _ Hd Hl) as (z & c & l & u & r & -> & _ & ->).
  apply wp_exact. eapply wp_mono; [eapply (neighbour_spec L z c r x u l s Hd Ht)| |done].
  intros q s' [-> ->]. split; [|done]. destruct r as [|cr lr y v rr]; [done|].
  unfold end_of, locs. cbn. by rewrite fmap_app, fmap_cons, <- app_assoc, <- app_comm_cons, !head_app_cons.
Qed.

Lemma OrderedCollectionPrev_spec t l1 x l2 s :
  NoDup (locs t) → rep (Nodes s) NULL t → locs t = l1 ++ x :: l2 →
  OrderedCollectionPrev (Some x) s = Ok (list.last l1) s.
Proof.
  intros Hd Ht Hl. destruct (locs_split _ _ _ _ Hd Hl) as (z & c & l & u & r & -> & -> & _).
  apply wp_exact. eapply wp_mono; [eapply (neighbour_spec R z c l x u r s Hd Ht)| |done].
  intros q s' [-> ->]. split; [|done]. destruct l as [|cl ll y v rl].
  - cbn. by rewrite app_nil_r.
  - unfold end_of, locs. cbn. by rewrite fmap_app, fmap_cons, app_assoc, !last_app_cons.
Qed.

(** ** Lookup *)

(** A search by [cmp] can tell on which side of an entry to go on. *)
Definition searchable (cmp : U → Z) (l : list (loc * U)) : Prop :=
  ∀ l1 x u l2, l = l1 ++ (x, u) :: l2 →
    (cmp u <= 0 → Forall (λ e, cmp e.2 < 0) l2) ∧ (0 <= cmp u → Forall (λ e, 0 < cmp e.2) l1).

(** The entry that compares equal. *)
Definition find_entry (cmp : U → Z) (l : list (loc * U)) : ptr :=
  fst <$> List.find (λ e, cmp e.2 =? 0) l.

Lemma searchable_parts cmp l1 e l2 : searchable cmp (l1 ++ e :: l2) → searchable cmp l1 ∧ searchable cmp l2.
Proof.
  intros Hs. split; intros k1 x u k2 ->.
  - destruct (Hs k1 x u (k2 ++ e :: l2)) as [Hb Ha]; [by rewrite <- app_assoc|].
    split; [intros Hu; by apply Forall_app in Hb as [? _]|done].
  - destruct (Hs (l1 ++ e :: k1) x u k2) as [Hb Ha]; [by rewrite <- app_assoc|].
    split; [done|intros Hu]. specialize (Ha Hu). apply Forall_app in Ha as [_ Ha]. by inversion Ha.
Qed.

Lemma find_none cmp l : Forall (λ e : loc * U, cmp e.2 ≠ 0) l → List.find (λ e, cmp e.2 =? 0) l = None.
Proof.
  induction 1 as [|e l He _ IH]; cbn; [done|]. by rewrite (proj2 (Z.eqb_neq _ _) He).
Qed.

Lemma find_app {A} (f : A → bool) l k :
  List.find f (l ++ k) = match List.find f l with Some a => Some a | None => List.find f k end.
Proof. induction l as [|a l IH]; cbn; [done|]. by destruct (f a). Qed.

Lemma Find_loop_spec cmp t : ∀ fuel p s,
  (height t < fuel)%nat → rep (Nodes s) p t → searchable cmp (entries t) →
  wp (Find_loop fuel cmp (root t)) (λ q s', q = find_entry cmp (entries t) ∧ s' = s) (λ _ _, False) s.
Proof.
  unfold find_entry. induction t as [|c l IHl x u r IHr]; intros fuel p s Hfuel Ht Hs;
    (destruct fuel as [|fuel]; [lia|]); cbn; [by apply wp_ret|].
  destruct Ht as (Hx & Hl & Hr). destruct (searchable_parts _ _ _ _ Hs) as [Hsl Hsr].
  destruct (Hs (entries l) x u (entries r) eq_refl) as [Hb Ha].
  apply wp_bind. eapply wp_field; [done|]. cbn. rewrite find_app. cbn.
  destruct (cmp u =? 0) eqn:H0.
  - apply wp_ret. apply Z.eqb_eq in H0. split; [|done].
    rewrite find_none; [done|]. eapply Forall_impl; [apply Ha; lia|]. cbn. lia.
  - apply Z.eqb_neq in H0. apply wp_bind.
    destruct (cmp u <? 0) eqn:Hlt; eapply wp_field; try done; cbn.
    + eapply wp_mono; [eapply IHl; [cbn in *; lia|done..]| |done]. intros q s' [-> ->].
      destruct (List.find _ (entries l)); [done|].
      apply Z.ltb_lt in Hlt. rewrite find_none; [done|]. eapply Forall_impl; [apply Hb; lia|]. cbn. lia.
    + eapply wp_mono; [eapply IHr; [cbn in *; lia|done..]| |done]. intros q s' [-> ->].
      apply Z.ltb_ge in Hlt.
      rewrite (find_none _ (entries l)); [done|]. eapply Forall_impl; [apply Ha; lia|]. cbn. lia.
Qed.

(** Whatever the comparison function does, the search is safe and finds only what compares
    equal. *)
Lemma Find_loop_safe cmp t : ∀ fuel p s,
  (height t < fuel)%nat → rep (Nodes s) p t →
  wp (Find_loop fuel cmp (root t))
    (λ q s', s' = s ∧ ∀ x, q = Some x → ∃ u, (x, u) ∈ entries t ∧ cmp u = 0) (λ _ _, False) s.
Proof.
  induction t as [|c l IHl x u r IHr]; intros [|fuel] p s Hfuel Ht; cbn in Hfuel; try lia; [by apply wp_ret|].
  destruct Ht as (Hx & Hl & Hr). cbn. apply wp_bind. eapply wp_field; [done|]. cbn.
  apply wp_if; intros H0.
  - apply wp_ret. split; [done|]. intros y [= <-]. exists u. apply Z.eqb_eq in H0. set_solver.
  - apply wp_bind. apply wp_if; intros _; (eapply wp_field; [done|]); cbn.
    + eapply wp_mono; [eapply IHl; [lia|done]| |done]. intros q s' [-> Hq]. split; [done|].
      intros y Hy. destruct (Hq y Hy) as (v & Hv & Hz). exists v. set_solver.
    + eapply wp_mono; [eapply IHr; [lia|done]| |done]. intros q s' [-> Hq]. split; [done|].
      intros y Hy. destruct (Hq y Hy) as (v & Hv & Hz). exists v. set_solver.
Qed.
End Walks.

(** ** Collections *)

Lemma sorted_searchable {U} (cmp : U → U → Z) (f : U → Z) l :
  (∀ b c, f b <= 0 → cmp b c < 0 → f c < 0) → (∀ b c, 0 <= f b → cmp c b < 0 → 0 < f c) →
  ordered cmp l → searchable f l.
Proof.
  intros Hb Ha Hs l1 x u l2 ->. apply StronglySorted_app in Hs as (Hl & _ & Hs).
  apply StronglySorted_cons in Hs as [Hx _].
  split; intros Hu; apply Forall_forall; intros e He.
  - apply (Hb u); [done|]. rewrite Forall_forall in Hx. by apply (Hx e).
  - apply (Ha u); [done|]. apply (Hl e (x, u)); [done|set_solver].
Qed.

Section Collections.
Context {U K : Type} `{!Platform} {cmp : U → U → Z} {kcmp : K → U → Z} `{!Comparison cmp}.
Implicit Types (s : pool U K) (t : tree U).

Lemma col_fuel s Tree t : Collection s Tree cmp kcmp t → (height t < S (size (Nodes s)))%nat.
Proof.
  intros [_ Hd Hr _ _]. pose proof (rep_size _ _ _ Hr Hd). pose proof (height_locs_plug [] t). cbn [plug] in *. lia.
Qed.

Lemma Min_spec s Tree t : Collection s Tree cmp kcmp t → OrderedCollectionMin Tree s = Ok (head (locs t)) s.
Proof.
  intros Hc. pose proof (col_fuel _ _ _ Hc). destruct Hc as [Ht Hd Hr _ _]. apply wp_exact.
  apply wp_bind. eapply wp_deref_tree; [done|]. cbn. apply wp_if; intros Hn; [by destruct t; [apply wp_ret|]|].
  apply wp_bind, wp_fuel. apply (end_loop_spec L t (S (size (Nodes s))) NULL s); [lia|by apply is_null_root|done].
Qed.

Lemma Max_spec s Tree t : Collection s Tree cmp kcmp t → OrderedCollectionMax Tree s = Ok (list.last (locs t)) s.
Proof.
  intros Hc. pose proof (col_fuel _ _ _ Hc). destruct Hc as [Ht Hd Hr _ _]. apply wp_exact.
  apply wp_bind. eapply wp_deref_tree; [done|]. cbn. apply wp_if; intros Hn; [by destruct t; [apply wp_ret|]|].
  apply wp_bind, wp_fuel. apply (end_loop_spec R t (S (size (Nodes s))) NULL s); [lia|by apply is_null_root|done].
Qed.

Lemma Find_spec s Tree t k : Collection s Tree cmp kcmp t → searchable (kcmp k) (entries t) →
  OrderedCollectionFind Tree k s = Ok (find_entry (kcmp k) (entries t)) s.
Proof.
  intros Hc Hk. pose proof (col_fuel _ _ _ Hc). destruct Hc as [Ht Hd Hr _ Ho]. apply wp_exact.
  apply wp_bind. eapply wp_deref_tree; [done|]. cbn. apply wp_bind, wp_fuel.
  by apply (Find_loop_spec _ t _ NULL); [lia|..].
Qed.

Lemma Find_safe s Tree t k : Collection s Tree cmp kcmp t →
  ∃ q, OrderedCollectionFind Tree k s = Ok q s ∧ ∀ x, q = Some x → ∃ u, (x, u) ∈ entries t ∧ kcmp k u = 0.
Proof.
  intros Hc. pose proof (col_fuel _ _ _ Hc) as Hfuel. destruct Hc as [Ht Hd Hr _ Ho].
  enough (wp (OrderedCollectionFind Tree k) (λ q s', s' = s ∧
    ∀ x, q = Some x → ∃ u, (x, u) ∈ entries t ∧ kcmp k u = 0) (λ _ _, False) s)
    as (q & s' & Hrun & -> & Hq)%wp_total by eauto.
  apply wp_bind. eapply wp_deref_tree; [done|]. cbn. apply wp_bind, wp_fuel.
  by apply (Find_loop_safe _ t _ NULL).
Qed.

(** ** Validation *)

Lemma wrap_succ m : wrap 32 (1 + wrap 32 (m + 1)) = wrap 32 (m + 1 + 1).
Proof. unfold wrap. rewrite Zplus_mod_idemp_r. f_equal. lia. Qed.

Lemma RecursiveCheck_spec t : ∀ c n fuel p s,
  rb c n t → (height t < fuel)%nat → rep (Nodes s) p t →
  wp (RedBlackTreeRecursiveCheck fuel (root t)) (λ v s', v = wrap 32 (Z.of_nat n + 1) ∧ s' = s) (λ _ _, False) s.
Proof.
  induction t as [|c' l IHl x u r IHr]; intros c n [|fuel] p s Hrb Hfuel Ht; cbn in Hfuel; try lia.
  - apply rb_E_inv in Hrb as [-> ->]. by apply wp_ret.
  - destruct Ht as (Hx & Hl & Hr). apply (rb_inv _ _ L) in Hrb as [-> Hrb].
    assert (∃ cl cr m, rb cl m l ∧ rb cr m r ∧ n = (if color_eq c' RedBlackTreeBlack then S m else m) ∧
      (c' = RedBlackTreeRed → color l = RedBlackTreeBlack ∧ color r = RedBlackTreeBlack))
      as (cl & cr & m & Hbl & Hbr & -> & Hred).
    { destruct c'; [destruct Hrb as [? ?]; by eauto 10 using rb_color|].
      destruct Hrb as (ca & cb & m & -> & ? & ?). by exists ca, cb, m. }
    cbn. apply wp_bind. eapply wp_deref; [done|]. cbn. apply wp_bind, wp_ASSERT; [by destruct c'|].
    apply wp_bind. eapply (wp_mono _ (λ _ s', s' = s) _ (λ _ _, False)); [|intros _ s' ->|done].
    + apply wp_if; intros Hc; [|by apply wp_ret]. apply bool_decide_eq_true in Hc as ->.
      destruct (Hred eq_refl) as [Hcl Hcr].
      apply wp_bind. eapply wp_is_black; [done|]. apply wp_bind, wp_ASSERT; [by rewrite Hcl|].
      apply wp_bind. eapply wp_is_black; [done|]. apply wp_ASSERT; [by rewrite Hcr|done].
    + apply wp_bind. eapply wp_mono; [eapply IHl; [done|lia|done]| |done]. intros ? ? [-> ->].
      apply wp_bind. eapply wp_mono; [eapply IHr; [done|lia|done]| |done]. intros ? ? [-> ->].
      apply wp_bind, wp_ASSERT; [apply Z.eqb_refl|]. apply wp_ret. split; [|done].
      destruct c'; [change (color_eq _ _) with false|change (color_eq _ _) with true]; cbv iota.
      * by unfold wrap; rewrite Z.add_0_l, Zmod_mod.
      * rewrite wrap_succ. f_equal. lia.
Qed.

(** The list with [e] after [l1] and before [l2], seen from either end. *)
Definition around (d : side) (l1 : list (loc * U)) (e : loc * U) (l2 : list (loc * U)) : list (loc * U) :=
  match d with L => l1 ++ e :: l2 | R => rev l2 ++ e :: l1 end.

Lemma around_next d l1 e e' l2 : ∃ l1', around d l1 e (e' :: l2) = around d l1' e' l2.
Proof.
  destruct d; cbn.
  - exists (l1 ++ [e]). by rewrite <- app_assoc.
  - exists (e :: l1). by rewrite <- app_assoc.
Qed.

Lemma elem_around d l1 e l2 : e ∈ around d l1 e l2.
Proof. destruct d; cbn; set_solver. Qed.

Lemma neighbour_around d t l1 e l2 s :
  NoDup (locs t) → rep (Nodes s) NULL t → entries t = around d l1 e l2 →
  neighbour d (Some e.1) s = Ok (fst <$> head l2) s.
Proof.
  intros Hd Ht He. destruct d; cbn in He; unfold neighbour.
  - rewrite (OrderedCollectionNext_spec t l1.*1 e.1 l2.*1); [by destruct l2|done..|].
    unfold locs. by rewrite He, fmap_app.
  - rewrite (OrderedCollectionPrev_spec t (rev l2).*1 e.1 l1.*1); [|done..|].
    + f_equal. destruct l2 as [|e' l2]; [done|]. cbn [rev]. rewrite fmap_app. apply last_snoc.
    + unfold locs. by rewrite He, fmap_app.
Qed.

Lemma rep_user p t x u s : rep (Nodes s) p t → (x, u) ∈ entries t →
  ∃ n, Nodes s !! x = Some n ∧ UserStruct n = u.
Proof.
  intros Ht Hx. destruct (locs_focus _ _ _ Hx) as (z & c & l & r & ->).
  apply rep_plug in Ht as [_ (Hn & _)]. eauto.
Qed.

(** Walking over the rest of the list, in either direction. *)
Lemma Validate_loop_spec d (Ordered : U → U → bool) t s :
  NoDup (locs t) → rep (Nodes s) NULL t →
  ∀ (l2 : list (loc * U)) fuel l1 e Count,
  (length l2 < fuel)%nat → entries t = around d l1 e l2 →
  StronglySorted (λ a b, Ordered a.2 b.2 = true) (e :: l2) →
  wp (Validate_loop fuel (neighbour d) Ordered (Some e.1) (wrap 32 Count))
    (λ v s', v = wrap 32 (Count + Z.of_nat (length l2)) ∧ s' = s) (λ _ _, False) s.
Proof.
  intros Hd Ht l2. induction l2 as [|e' l2 IH]; intros fuel l1 e Count Hfuel He Hs;
    (destruct fuel as [|fuel]; [cbn in *; lia|]); cbn [Validate_loop];
    apply wp_bind, (wp_intro_ok _ _ _ _ _ _ (neighbour_around d t l1 e _ s Hd Ht He)).
  - apply wp_ret. by rewrite Z.add_0_r.
  - destruct (around_next d l1 e e' l2) as [l1' Hnext].
    destruct (rep_user NULL t e.1 e.2 s Ht) as (n & Hn & Hu).
    { rewrite <- surjective_pairing, He. apply elem_around. }
    destruct (rep_user NULL t e'.1 e'.2 s Ht) as (n' & Hn' & Hu').
    { rewrite <- surjective_pairing, He, Hnext. apply elem_around. }
    cbn. apply wp_bind. eapply wp_field; [done|]. apply wp_bind. eapply wp_field; [done|].
    rewrite Hu, Hu'. apply StronglySorted_cons in Hs as [Hee Hs].
    apply wp_bind, wp_ASSERT; [by inversion Hee|].
    replace (wrap 32 (wrap 32 Count + 1)) with (wrap 32 (Count + 1))
      by (unfold wrap; by rewrite Zplus_mod_idemp_l).
    eapply wp_mono; [eapply IH; [cbn in *; lia|by rewrite He, Hnext|done]| |done].
    intros v s' [-> ->]. split; [|done]. f_equal. cbn [length]. lia.
Qed.

(** One of the two passes over the list. *)
Lemma Validate_pass d (Ordered : U → U → bool) t s fuel :
  NoDup (locs t) → rep (Nodes s) NULL t → (length (entries t) < fuel)%nat →
  StronglySorted (λ a b, Ordered a.2 b.2 = true) (match d with L => entries t | R => rev (entries t) end) →
  let Last := end_of d (locs t) in
  wp (Validate_loop fuel (neighbour d) Ordered Last (if is_null Last then 0 else 1))
    (λ v s', v = wrap 32 (Z.of_nat (length (entries t))) ∧ s' = s) (λ _ _, False) s.
Proof.
  intros Hd Ht Hfuel Hs Last.
  destruct (match d with L => entries t | R => rev (entries t) end) as [|e l] eqn:Hl.
  - assert (entries t = []) as He by (destruct d; [done|]; by rewrite <- (rev_involutive (entries t)), Hl).
    assert (Last = NULL) as -> by (unfold Last, locs; rewrite He; by destruct d).
    destruct fuel as [|fuel]; [lia|]. rewrite He. cbn [Validate_loop].
    apply wp_bind. eapply wp_intro_ok; [by destruct d|]. by apply wp_ret.
  - assert (entries t = around d [] e l ∧ Last = Some e.1) as [He ->].
    { unfold Last, locs. destruct d; cbn; [by rewrite Hl|].
      rewrite <- (rev_involutive (entries t)), Hl. cbn. split; [done|]. rewrite fmap_app. apply last_snoc. }
    assert (length (entries t) = S (length l)) as Hlen
      by (rewrite He; destruct d; cbn; rewrite ?length_app, ?length_rev; cbn; lia).
    change (if is_null _ then 0 else 1) with (wrap 32 1).
    eapply wp_mono; [apply (Validate_loop_spec d Ordered t s Hd Ht l fuel [] e 1); [lia|done|done]| |done].
    intros v s' [-> ->]. split; [|done]. f_equal. lia.
Qed.

Lemma ordered_fwd l : ordered cmp l → StronglySorted (λ a b, (cmp a.2 b.2 <? 0) = true) l.
Proof.
  induction 1 as [|e l _ IH He]; constructor; [done|].
  eapply Forall_impl; [done|]. intros b. apply Z.ltb_lt.
Qed.

Lemma ordered_rev l : ordered cmp l → StronglySorted (λ a b, (0 <? cmp a.2 b.2) = true) (rev l).
Proof.
  induction 1 as [|e l _ IH He]; cbn; [constructor|]. apply StronglySorted_app. split; [|split].
  - intros a b Ha Hb. apply list_elem_of_singleton in Hb as ->. apply Z.ltb_lt, cmp_flip.
    rewrite Forall_forall in He. apply He. apply list_elem_of_In in Ha. by apply list_elem_of_In, in_rev.
  - done.
  - repeat constructor.
Qed.

Lemma RedBlackTreeValidate_spec s Tree t :
  Collection s Tree cmp kcmp t → RedBlackTreeValidate Tree s = Ok tt s.
Proof.
  intros Hc. pose proof (col_fuel _ _ _ Hc) as Hfuel. pose proof (Min_spec _ _ _ Hc) as Hmin.
  pose proof (Max_spec _ _ _ Hc) as Hmax. destruct Hc as [Ht Hd Hr [n Hrb] Ho].
  pose proof (rep_size _ _ _ Hr Hd) as Hsize. unfold locs in Hsize. rewrite length_fmap in Hsize.
  apply wp_exact. apply wp_bind. eapply wp_deref_tree; [done|]. cbn.
  apply wp_bind. eapply wp_is_black; [done|]. apply wp_bind, wp_ASSERT; [by rewrite (rb_color _ _ _ Hrb)|].
  apply wp_bind, wp_fuel, wp_bind. eapply wp_mono; [by eapply RecursiveCheck_spec| |done]. intros ? ? [_ ->].
  apply wp_bind, (wp_intro_ok _ _ _ _ _ _ Hmin), wp_bind.
  eapply wp_mono; [eapply (Validate_pass L); [done|done|lia|by apply ordered_fwd]| |done].
  intros ? ? [-> ->]. apply wp_bind, (wp_intro_ok _ _ _ _ _ _ Hmax), wp_bind.
  eapply wp_mono; [eapply (Validate_pass R); [done|done|lia|by apply ordered_rev]| |done].
  intros ? ? [-> ->]. apply wp_ASSERT; [apply Z.eqb_refl|done].
Qed.
End Collections.

(** ** A collection of integers *)

#[global] Instance sample_comparison : Comparison (λ a b : Z, a - b).
Proof. split; intros; lia. Qed.

(** Five entries: a root with a black left child and a right subtree. *)
Definition sample_tree : tree Z :=
  T RedBlackTreeBlack (T RedBlackTreeBlack E 2%positive 10 E) 1%positive 20
    (T RedBlackTreeRed (T RedBlackTreeBlack E 4%positive 30 E) 3%positive 40 (T RedBlackTreeBlack E 5%positive 50 E)).

Fixpoint tree_nodes {U} (p : ptr) (t : tree U) : gmap positive (RED_BLACK_TREE_NODE U) :=
  match t with
  | E => ∅
  | T c l x u r => <[x := mkNode u p (root l) (root r) c]> (tree_nodes (Some x) l ∪ tree_nodes (Some x) r)
  end.

Definition sample_pool : pool Z Z :=
  mkPool (tree_nodes NULL sample_tree)
    {[ 7%positive := mkTree (root sample_tree) (λ a b, a - b) (λ k a, k - a) ]}.

Lemma sample_collection : Collection sample_pool 7%positive (λ a b, a - b) (λ k a, k - a) sample_tree.
Proof.
  split; [done|by apply (bool_decide_unpack _); vm_compute|by repeat split| |by repeat constructor].
  exists 2%nat. apply (rb_black 1 L RedBlackTreeBlack _ _ _ RedBlackTreeRed); [apply (rb_black 0 L RedBlackTreeBlack _ _ _ RedBlackTreeBlack); constructor|].
  apply (rb_red 1 L); apply (rb_black 0 L RedBlackTreeBlack _ _ _ RedBlackTreeBlack); constructor.
Qed.

(** Lookup is exact and logarithmic.  On every collection OrderedCollectionFind ends
    without a fault and returns NULL or an entry that compares equal, whatever KeyCompare
    does; when KeyCompare is consistent with the order of the entries, it returns the one
    entry that compares equal, and the loop looks at no more than 2 log2 (n + 1) nodes. *)
Theorem ordered_find_exact {U K} (cmp : U → U → Z) (kcmp : K → U → Z) (s : pool U K)
    (Tree : loc) (t : tree U) (Key : K) (Hc : Collection s Tree cmp kcmp t) :
  ∃ q, OrderedCollectionFind Tree Key s = Ok q s ∧
    (∀ x, q = Some x → ∃ u, (x, u) ∈ entries t ∧ kcmp Key u = 0) ∧
    (searchable (kcmp Key) (entries t) →
       q = find_entry (kcmp Key) (entries t) ∧
       Find_loop (S (2 * Nat.log2 (S (length (entries t))))) (kcmp Key) (root t) s = Ok q s).
Proof.
  destruct (Find_safe _ _ _ Key Hc) as (q & Hq & Hsafe). exists q. split; [done|]. split; [done|].
  intros Hk. rewrite (Find_spec _ _ _ _ Hc Hk) in Hq. injection Hq as <-. split; [done|].
  apply wp_exact, (Find_loop_spec _ t _ NULL); [|apply Hc|done].
  pose proof (red_black_height t (col_red_black _ _ _ _ _ Hc)). lia.
Qed.

Lemma ordered_find_exact_witness :
  ∃ q, @OrderedCollectionFind Z Z 7%positive 40 sample_pool = Ok q sample_pool.
Proof.
  destruct (@ordered_find_exact Z Z _ _ sample_pool 7%positive sample_tree 40 sample_collection)
    as (q & Hq & _). exists q. exact Hq.
Defined.

(** Iteration follows the order of the entries: OrderedCollectionMin and Max are the
    first and the last, and OrderedCollectionNext and Prev are the neighbours in the list,
    NULL at its ends; none of them changes or faults. *)
Theorem ordered_iteration_exact {U K} (cmp : U → U → Z) (kcmp : K → U → Z) (s : pool U K)
    (Tree : loc) (t : tree U) (Hc : Collection s Tree cmp kcmp t) :
  OrderedCollectionMin Tree s = Ok (head (locs t)) s ∧
  OrderedCollectionMax Tree s = Ok (list.last (locs t)) s ∧
  ∀ l1 x l2, locs t = l1 ++ x :: l2 →
    OrderedCollectionNext (Some x) s = Ok (head l2) s ∧ OrderedCollectionPrev (Some x) s = Ok (list.last l1) s.
Proof.
  split; [by eapply Min_spec|]. split; [by eapply Max_spec|]. intros l1 x l2 Hl.
  split; [eapply OrderedCollectionNext_spec|eapply OrderedCollectionPrev_spec]; try done; apply Hc.
Qed.

Lemma ordered_iteration_exact_witness :
  @OrderedCollectionMin Z Z 7%positive sample_pool = Ok (Some 2%positive) sample_pool.
Proof.
  exact (proj1 (@ordered_iteration_exact Z Z _ _ sample_pool 7%positive sample_tree sample_collection)).
Defined.
