(* ===== verification/OrderedRotate.v ===== *)
(** What the writing operations of the red-black tree do to the tree in memory:
    linking a child, recolouring a node, the two rotations. *)
From S2P Require Import Prelude Platform OrderedCollection OrderedTree OrderedWalk.
#[local] Open Scope Z_scope.

(** The memory [s] holds [t], and differs from [s0] in the nodes of [t] only. *)
Record Holds {U K} (s0 s : pool U K) (t : tree U) : Prop := {
  holds_distinct : NoDup (locs t);
  holds_rep : rep (Nodes s) NULL t;
  holds_else x : x ∉ locs t → Nodes s !! x = Nodes s0 !! x;
  holds_trees : Trees s = Trees s0;
}.

(** Addresses that differ: from membership facts and distinctness. *)
Ltac loc_neq :=
  let Heq := fresh in
  intros Heq; subst;
  repeat match goal with Hr : root _ = Some _ |- _ => apply root_in in Hr end;
  unfold not in *; solve [eauto 6 | congruence].

(** The same nodes in the same order, up to the shape of the tree. *)
Ltac same_entries d :=
  cbn [plug]; unfold fill; cbn; rewrite ?entries_plug; do 2 f_equal; destruct d; cbn;
  repeat (rewrite <- app_assoc; cbn); done.

(** Lookups in updated memory. *)
Ltac heap_step :=
  first [ rewrite lookup_alter_eq | rewrite lookup_alter_ne by loc_neq
        | rewrite alter_ptr_ne by loc_neq | rewrite set_hole_ne by loc_neq ].
Ltac heap := cbn [Nodes with_Nodes]; repeat heap_step.

Section Rotate.
Context {U K : Type} `{!Platform}.
Implicit Types (s : pool U K) (t a b e : tree U) (z : list (frame U)).

Lemma wp_store_some g x s Q E :
  is_Some (Nodes s !! x) → Q tt (with_Nodes (alter g x (Nodes s)) s) → wp (store g (Some x)) Q E s.
Proof. intros [n Hn]. by eapply wp_store. Qed.

Lemma wp_SetParent p q t s Q E :
  rep (Nodes s) p t → Q tt (with_Nodes (alter_ptr (set_Parent q) (root t) (Nodes s)) s) →
  wp (SetParentIfNotNull q (root t)) Q E s.
Proof.
  destruct t as [|c l x u r]; intros Ht HQ; [apply wp_ret; by destruct s|].
  destruct Ht as (Hx & _). by eapply wp_store.
Qed.

(** On which side of its parent a subtree is. *)
Lemma hole_left p (f : frame U) t :
  (∀ y, y ∈ locs t → y ∈ locs (f_other f) → False) → t ≠ E ∨ f_other f ≠ E →
  ptr_eq (root t) (Left (frame_node p (root t) f)) = match f_side f with L => true | R => false end.
Proof.
  intros Hd Hne. unfold frame_node. destruct (f_side f); cbn; [by apply bool_decide_ptr|].
  apply not_true_iff_false. rewrite bool_decide_ptr. intros Heq. destruct (root t) as [x|] eqn:Hx.
  - apply (Hd x); by apply root_in.
  - destruct t; [|done]. destruct (f_other f); naive_solver.
Qed.

Lemma wp_ReplaceChild x z New NewRoot s Q E :
  rep_ctx (Nodes s) NULL (Some x) z → x ∉ ctx_locs z →
  Q (match z with [] => New | _ => NewRoot end) (with_Nodes (set_hole New z (Nodes s)) s) →
  wp (ReplaceChild (parent NULL z) (Some x) New NewRoot) Q E s.
Proof.
  destruct z as [|f z]; intros Hz Hx HQ; [apply wp_ret; by destruct s|].
  destruct Hz as (Hf & Ho & _). apply wp_bind. eapply wp_field; [done|].
  assert (ptr_eq (Some x) (Left (frame_node (parent NULL z) (Some x) f)) =
    match f_side f with L => true | R => false end) as ->.
  { apply (hole_left _ f (T RedBlackTreeRed OrderedTree.E x (f_user f) OrderedTree.E)); [|by left].
    intros y Hy Hyo. apply list_elem_of_singleton in Hy as ->. apply Hx, elem_ctx_locs. auto. }
  apply wp_bind. cbn in HQ. destruct (f_side f); (eapply wp_store; [done|]); by apply wp_ret.
Qed.

(** The root does not depend on what is in a hole below it. *)
Lemma root_plug z t t' : z ≠ [] → root (plug z t) = root (plug z t').
Proof.
  revert t t'. induction z as [|f z IH]; intros t t'; [done|]. intros _. cbn.
  destruct z as [|g z]; [|by apply IH]. unfold fill. cbn. by rewrite !root_node.
Qed.

Lemma root_plug_cons z t t' :
  match z with [] => root t' | _ => root (plug z t) end = root (plug z t').
Proof. destruct z as [|f z]; [done|]. by apply root_plug. Qed.

Lemma holds_swap s0 s t t' : Holds s0 s t → entries t' = entries t →
  ∀ s', rep (Nodes s') NULL t' → (∀ x, x ∉ locs t → Nodes s' !! x = Nodes s !! x) → Trees s' = Trees s →
  Holds s0 s' t'.
Proof.
  intros [Hd Hr He Ht] Heq s' Hr' He' Ht'. assert (locs t' = locs t) as Hl by (unfold locs; by rewrite Heq).
  split; [by rewrite Hl|done| |by rewrite Ht']. intros x Hx. rewrite Hl in Hx. rewrite He' by done. by apply He.
Qed.

(** Recolouring the node in focus. *)
Lemma wp_recolor s0 s z d c c' a x u b Q E :
  Holds s0 s (plug z (node d c a x u b)) →
  (∀ s', Holds s0 s' (plug z (node d c' a x u b)) → Q tt s') →
  wp (store (set_Color c') (Some x)) Q E s.
Proof.
  intros Hh HQ. pose proof (holds_distinct _ _ _ Hh) as Hd. pose proof (holds_rep _ _ _ Hh) as Hr.
  apply rep_plug in Hr as [Hz Hr]. pose proof Hd as Hd0.
  apply NoDup_locs_plug in Hd as (Hd & _ & Hdz). apply rep_node in Hr as (Hx & Ha & Hb).
  setoid_rewrite elem_locs_node in Hdz. rewrite NoDup_locs_node in Hd.
  destruct Hd as (Hxa & Hxb & Hda & Hdb & Hab).
  eapply wp_store; [done|]. apply HQ. eapply holds_swap; [done| | |intros y Hy|done].
  - rewrite !entries_plug. by destruct d.
  - cbn. rewrite rep_plug, rep_node, root_node. rewrite root_node in Hz. split.
    + eapply rep_ctx_frame; [|done]. intros y Hy. by heap.
    + split; [heap; rewrite Hx; by destruct d|].
      split; (eapply rep_frame; [|done]); intros y Hy; by heap.
  - cbn. rewrite lookup_alter_ne; [done|]. intros ->. apply Hy, elem_locs_plug. left.
    apply elem_locs_node. auto.
Qed.

(** The two rotations: [rotate d] moves the pivot down on side [d]. *)
Definition rotate (d : side) : ptr → ptr → OcM (U := U) (K := K) ptr :=
  match d with L => RedBlackTreeRotateLeft | R => RedBlackTreeRotateRight end.

Lemma rotate_eq d Pivot NewRoot :
  rotate d Pivot NewRoot =
  (Parent_ ← field Parent Pivot;
   Child ← field (child (opp d)) Pivot;
   GrandChild ← field (child d) Child;
   store (set_child (opp d) GrandChild) Pivot;;
   SetParentIfNotNull Pivot GrandChild;;
   store (set_Parent Parent_) Child;;
   NewRoot ← ReplaceChild Parent_ Pivot Child NewRoot;
   store (set_child d Pivot) Child;;
   store (set_Parent Child) Pivot;;
   mret NewRoot).
Proof. by destruct d. Qed.

(** The memory after a rotation. *)
Definition rotate_nodes (d : side) z (x y : loc) b (h : gmap positive (RED_BLACK_TREE_NODE U)) :=
  alter (set_Parent (Some y)) x (alter (set_child d (Some x)) y (set_hole (Some y) z
    (alter (set_Parent (parent NULL z)) y (alter_ptr (set_Parent (Some x)) (root b)
      (alter (set_child (opp d) (root b)) x h))))).

Lemma rep_rotate_nodes d z c a x u c' b y v e h :
  NoDup (locs (plug z (node d c a x u (node d c' b y v e)))) →
  rep h NULL (plug z (node d c a x u (node d c' b y v e))) →
  rep (rotate_nodes d z x y b h) NULL (plug z (node d c' (node d c a x u b) y v e)).
Proof.
  intros Hd Hr. apply rep_plug in Hr as [Hz Hr]. apply NoDup_locs_plug in Hd as (Hd & Hzd & Hdz).
  apply rep_node in Hr as (Hx & Ha & Hr). apply rep_node in Hr as (Hy & Hb & He).
  do 2 setoid_rewrite elem_locs_node in Hdz. rewrite !NoDup_locs_node, elem_locs_node in Hd.
  destruct Hd as (Hxa & Hx' & Hda & (Hyb & Hye & Hdb & Hde & Hbe) & Ha'). setoid_rewrite elem_locs_node in Ha'.
  rewrite root_node in Hz. rewrite rep_plug, rep_node, rep_node, !root_node. unfold rotate_nodes. split.
  - eapply rep_ctx_frame; [|eapply (rep_set_hole h); done]. intros w Hw.
    assert (∀ h' : gmap positive (RED_BLACK_TREE_NODE U), h' !! w = h !! w → set_hole (Some y) z h' !! w = set_hole (Some y) z h !! w) as Hset.
    { intros h' Hh'. destruct z as [|f z]; [done|]. cbn. destruct (decide (f_loc f = w)) as [->|Hne].
      - by rewrite !lookup_alter_eq, Hh'.
      - by rewrite !lookup_alter_ne. }
    rewrite lookup_alter_ne by loc_neq. rewrite lookup_alter_ne by loc_neq. apply Hset. by heap.
  - split; [|split; [split; [|split]|]].
    + heap. rewrite Hy. by destruct d.
    + heap. rewrite Hx. by destruct d.
    + eapply rep_frame; [|done]. intros w Hw. by heap.
    + eapply rep_frame; [|by eapply rep_set_Parent]. intros w Hw. heap.
      destruct (decide (root b = Some w)) as [Hrt|Hne].
      * rewrite Hrt. cbn. by heap.
      * rewrite !alter_ptr_ne by done. by heap.
    + eapply rep_frame; [|done]. intros w Hw. by heap.
Qed.

Lemma wp_rotate s0 s z d c a x u c' b y v e Q E :
  let t := plug z (node d c a x u (node d c' b y v e)) in
  let t' := plug z (node d c' (node d c a x u b) y v e) in
  Holds s0 s t → (∀ s', Holds s0 s' t' → Q (root t') s') →
  wp (rotate d (Some x) (root t)) Q E s.
Proof.
  intros t t' Hh HQ. pose proof (holds_distinct _ _ _ Hh) as Hd. pose proof (holds_rep _ _ _ Hh) as Hr.
  pose proof (rep_rotate_nodes _ _ _ _ _ _ _ _ _ _ _ _ Hd Hr) as Hr'. fold t' in Hr'.
  unfold t in Hd, Hr. apply rep_plug in Hr as [Hz Hr]. apply NoDup_locs_plug in Hd as (Hd & Hzd & Hdz).
  apply rep_node in Hr as (Hx & Ha & Hr). apply rep_node in Hr as (Hy & Hb & He).
  do 2 setoid_rewrite elem_locs_node in Hdz. rewrite !NoDup_locs_node, elem_locs_node in Hd.
  destruct Hd as (Hxa & Hx' & Hda & (Hyb & Hye & Hdb & Hde & Hbe) & Ha').
  apply Decidable.not_or in Hx' as [Hxy [Hxb Hxe]%Decidable.not_or].
  rewrite root_node in Hz. rewrite rotate_eq.
  apply wp_bind. eapply wp_field; [done|]. replace (Parent _) with (parent NULL z) by by destruct d.
  apply wp_bind. eapply wp_field; [done|]. replace (child (opp d) _) with (Some y) by by destruct d.
  apply wp_bind. eapply wp_field; [done|]. replace (child d _) with (root b) by by destruct d.
  apply wp_bind. eapply wp_store; [done|]. apply wp_bind. eapply (wp_SetParent (Some y)).
  { eapply rep_frame; [|done]. intros w Hw. by heap. }
  apply wp_bind, wp_store_some; [heap; by rewrite Hy|].
  apply wp_bind. apply wp_ReplaceChild; [|intros Hxz; eapply Hdz; [|done]; auto|].
  { eapply rep_ctx_frame; [|done]. intros w Hw. by heap. }
  apply wp_bind, wp_store_some; [heap; by rewrite Hy|].
  apply wp_bind, wp_store_some; [heap; by rewrite Hx|]. apply wp_ret.
  replace (match z with [] => Some y | _ => root t end) with (root t')
    by (unfold t, t'; rewrite <- (root_plug_cons z (node d c a x u (node d c' b y v e))); by rewrite root_node).
  apply HQ. eapply holds_swap; [done| |done|intros w Hw|done].
  - unfold t, t'. same_entries d.
  - unfold t in Hw. rewrite elem_locs_plug, !elem_locs_node in Hw.
    assert (w ≠ x ∧ w ≠ y ∧ w ∉ locs b ∧ w ∉ ctx_locs z) as (Hwx & Hwy & Hwb & Hwz) by tauto. by heap.
Qed.
End Rotate.
