(* ===== verification/OrderedInsert.v ===== *)
(** BaseOrderedCollectionRedBlackTreeLib.c, second part: insertion. *)
From stdpp Require Import sorting.
From S2P Require Import Prelude Platform OrderedCollection OrderedTree OrderedWalk OrderedRotate.
#[local] Open Scope Z_scope.

(** ** OrderedCollectionInsert *)

(** The return value, None for RETURN_SUCCESS, and what is stored to the optional output
    Node, NULL when it is not changed. *)
Record insert_result := mkInsert {
  Status : option RETURN_STATUS;
  NodeOut : ptr;
}.

Section Insert.
Context {U K : Type} `{!Platform} (PcdValidateOrderedCollection : bool).
Abbreviation OcM := (@OcM U K).

(** The search for a collision: Tmp, Parent and Result after the loop. *)
Fixpoint Insert_search (fuel : nat) (Compare : U → Z) (Tmp Parent_ : ptr) (Result : Z) : OcM (ptr * ptr * Z) :=
  match fuel with
  | O => crash OutOfFuel
  | S fuel =>
      if is_null Tmp then mret (Tmp, Parent_, Result)
      else
        u ← field UserStruct Tmp;
        let Result := Compare u in
        if Result =? 0 then mret (Tmp, Parent_, Result)
        else
          Next ← (if Result <? 0 then field Left Tmp else field Right Tmp);
          Insert_search fuel Compare Next Tmp Result
  end.

(** [(Uncle != NULL) && (Uncle->Color == RedBlackTreeRed)] *)
Definition NodeIsRed (Node : ptr) : OcM bool :=
  if is_null Node then mret false
  else c ← field Color Node; mret (color_eq c RedBlackTreeRed).

(** The branch of the loop where Parent is the left child of GrandParent: the new
    values of Tmp, Parent and NewRoot. *)
Definition Insert_fixup_Left (GrandParent Tmp Parent_ NewRoot : ptr) : OcM (ptr * ptr * ptr) :=
  Uncle ← field Right GrandParent;
  UncleIsRed ← NodeIsRed Uncle;
  if (UncleIsRed : bool) then
    store (set_Color RedBlackTreeBlack) Parent_;;
    store (set_Color RedBlackTreeBlack) Uncle;;
    store (set_Color RedBlackTreeRed) GrandParent;;
    let Tmp := GrandParent in
    Parent_ ← field Parent Tmp;
    mret (Tmp, Parent_, NewRoot)
  else
    r ← field Right Parent_;
    '(Tmp, Parent_, NewRoot) ← (
      if ptr_eq Tmp r then
        let Tmp := Parent_ in
        NewRoot ← RedBlackTreeRotateLeft Tmp NewRoot;
        Parent_ ← field Parent Tmp;
        g ← field Parent Parent_;
        ASSERT (ptr_eq GrandParent g);;
        mret (Tmp, Parent_, NewRoot)
      else mret (Tmp, Parent_, NewRoot));
    store (set_Color RedBlackTreeBlack) Parent_;;
    store (set_Color RedBlackTreeRed) GrandParent;;
    NewRoot ← RedBlackTreeRotateRight GrandParent NewRoot;
    mret (Tmp, Parent_, NewRoot).

(** The branch where it is the right child. *)
Definition Insert_fixup_Right (GrandParent Tmp Parent_ NewRoot : ptr) : OcM (ptr * ptr * ptr) :=
  Uncle ← field Left GrandParent;
  UncleIsRed ← NodeIsRed Uncle;
  if (UncleIsRed : bool) then
    store (set_Color RedBlackTreeBlack) Parent_;;
    store (set_Color RedBlackTreeBlack) Uncle;;
    store (set_Color RedBlackTreeRed) GrandParent;;
    let Tmp := GrandParent in
    Parent_ ← field Parent Tmp;
    mret (Tmp, Parent_, NewRoot)
  else
    l ← field Left Parent_;
    '(Tmp, Parent_, NewRoot) ← (
      if ptr_eq Tmp l then
        let Tmp := Parent_ in
        NewRoot ← RedBlackTreeRotateRight Tmp NewRoot;
        Parent_ ← field Parent Tmp;
        g ← field Parent Parent_;
        ASSERT (ptr_eq GrandParent g);;
        mret (Tmp, Parent_, NewRoot)
      else mret (Tmp, Parent_, NewRoot));
    store (set_Color RedBlackTreeBlack) Parent_;;
    store (set_Color RedBlackTreeRed) GrandParent;;
    NewRoot ← RedBlackTreeRotateLeft GrandParent NewRoot;
    mret (Tmp, Parent_, NewRoot).

(** [while (Tmp != NewRoot && Parent->Color == RedBlackTreeRed)]; the value of NewRoot
    after the loop. *)
Fixpoint Insert_fixup (fuel : nat) (Tmp Parent_ NewRoot : ptr) : OcM ptr :=
  match fuel with
  | O => crash OutOfFuel
  | S fuel =>
      if ptr_eq Tmp NewRoot then mret NewRoot
      else
        c ← field Color Parent_;
        if color_eq c RedBlackTreeRed then
          GrandParent ← field Parent Parent_;
          l ← field Left GrandParent;
          '(Tmp, Parent_, NewRoot) ←
            (if ptr_eq Parent_ l then Insert_fixup_Left GrandParent Tmp Parent_ NewRoot
             else Insert_fixup_Right GrandParent Tmp Parent_ NewRoot);
          Insert_fixup fuel Tmp Parent_ NewRoot
        else mret NewRoot
  end.

(** The new node at address [x], which AllocatePool returned, with all fields the code
    assigns to it. *)
Definition Insert_node (x : loc) (UserStruct_ : U) (Parent_ : ptr) (c : RED_BLACK_TREE_COLOR) : OcM unit :=
  modify (λ s, with_Nodes (<[x := mkNode UserStruct_ Parent_ NULL NULL c]> (Nodes s)) s).

(** From the allocation to the label Done. *)
Definition Insert_new (Tree x : loc) (UserStruct_ : U) (Parent_ : ptr) (Result : Z) : OcM unit :=
  let Tmp := Some x in
  if is_null Parent_ then
    Insert_node x UserStruct_ Parent_ RedBlackTreeBlack;;
    store_Root Tree Tmp
  else
    Insert_node x UserStruct_ Parent_ RedBlackTreeRed;;
    (if Result <? 0 then store (set_Left Tmp) Parent_ else store (set_Right Tmp) Parent_);;
    t ← deref_tree Tree;
    fuel ← pool_fuel;
    NewRoot ← Insert_fixup fuel Tmp Parent_ (Root t);
    store (set_Color RedBlackTreeBlack) NewRoot;;
    store_Root Tree NewRoot.

(** [Allocated] is the answer of AllocatePool. *)
Definition OrderedCollectionInsert (Allocated : ptr) (Tree : loc) (UserStruct_ : U) : OcM insert_result :=
  t ← deref_tree Tree;
  fuel ← pool_fuel;
  '(Tmp, Parent_, Result) ← Insert_search fuel (UserStructCompare t UserStruct_) (Root t) NULL 0;
  r ← (if negb (is_null Tmp) then mret (mkInsert (Some RETURN_ALREADY_STARTED) Tmp)
       else
         match Allocated with
         | None => mret (mkInsert (Some RETURN_OUT_OF_RESOURCES) NULL)
         | Some x =>
             Insert_new Tree x UserStruct_ Parent_ Result;;
             mret (mkInsert None (Some x))
         end);
  ValidateIfEnabled PcdValidateOrderedCollection Tree;;
  mret r.
End Insert.

(** ** The loops *)

Abbreviation Red := RedBlackTreeRed (only parsing).
Abbreviation Black := RedBlackTreeBlack (only parsing).

Lemma node_opp {U} d c (a : tree U) x u b : node (opp d) c a x u b = node d c b x u a.
Proof. by destruct d. Qed.

Section InsertProofs.
Context {U K : Type} `{!Platform}.
Implicit Types (s : pool U K) (t a b : tree U) (z : list (frame U)).

Lemma wp_is_red p t s Q E :
  rep (Nodes s) p t → Q (color_eq (color t) Red) s → wp (NodeIsRed (root t)) Q E s.
Proof.
  destruct t as [|c l x u r]; cbn; [intros _ HQ; by apply wp_ret|].
  intros (Hx & _) HQ. apply wp_bind. eapply wp_field; [done|]. by apply wp_ret.
Qed.

Lemma root_plug_ne z t : z ≠ [] → NoDup (locs (plug z t)) → root t ≠ root (plug z t).
Proof.
  intros Hz Hd Heq. destruct (root (plug z t)) as [y|] eqn:Hy.
  - apply root_in in Heq. rewrite (root_plug z t E Hz) in Hy. apply root_in, elem_locs_plug in Hy as [Hy|Hy].
    + by apply not_elem_of_nil in Hy.
    + apply NoDup_locs_plug in Hd as (_ & _ & Hd). eauto.
  - destruct (plug z t) eqn:Hp; [|done]. by apply plug_eq_E in Hp as [-> _].
Qed.

(** The side on which a node hangs. *)
Definition on_side (f : frame U) (Result : Z) : Prop := f_side f = if Result <? 0 then L else R.

(** Where a search that found nothing has ended: the place of the new entry. *)
Definition gap (cmp : U → Z) t (z : list (frame U)) (Result : Z) : Prop :=
  t = plug z E ∧ Forall (λ e, 0 < cmp e.2) (before z) ∧ Forall (λ e, cmp e.2 < 0) (after z) ∧
  ∀ f z', z = f :: z' → on_side f Result.

Lemma Insert_search_spec (cmp : U → Z) t : ∀ z fuel s Result,
  (height t < fuel)%nat → rep (Nodes s) NULL (plug z t) → searchable cmp (entries (plug z t)) →
  Forall (λ e, 0 < cmp e.2) (before z) → Forall (λ e, cmp e.2 < 0) (after z) →
  (∀ f z', z = f :: z' → on_side f Result) →
  wp (Insert_search fuel cmp (root t) (parent NULL z) Result)
    (λ r s', s' = s ∧
       ((∃ x u, r.1.1 = Some x ∧ (x, u) ∈ entries (plug z t) ∧ cmp u = 0) ∨
        (∃ z', r.1.1 = NULL ∧ r.1.2 = parent NULL z' ∧ gap cmp (plug z t) z' r.2)))
    (λ _ _, False) s.
Proof.
  induction t as [|c l IHl x u r IHr]; intros z [|fuel] s Result Hfuel Ht Hs Hb Ha Hside; cbn in Hfuel; try lia.
  - apply wp_ret. split; [done|]. right. by exists z.
  - pose proof Ht as Hrep. apply rep_plug in Hrep as [_ (Hx & _)].
    destruct (Hs (before z ++ entries l) x u (entries r ++ after z)) as [Hlt Hgt].
    { rewrite entries_plug. cbn. by rewrite <- !app_assoc. }
    cbn [Insert_search root is_null]. apply wp_if; [done|intros _]. apply wp_bind. eapply wp_field; [done|].
    cbn [UserStruct]. apply wp_if; intros H0.
    { apply wp_ret. split; [done|]. left. exists x, u. apply Z.eqb_eq in H0. split; [done|].
      split; [|done]. rewrite entries_plug. cbn. set_solver. }
    apply Z.eqb_neq in H0. apply wp_bind. apply wp_if; intros Hc; (eapply wp_field; [done|]).
    + pose proof (proj1 (Z.ltb_lt _ _) Hc).
      eapply (IHl (mkFrame L c x u r :: z)); [lia|done|done| | |].
      * cbn. by rewrite app_nil_r.
      * cbn. constructor; [done|]. apply Hlt. lia.
      * intros f z' [= <- <-]. unfold on_side. by rewrite Hc.
    + pose proof (proj1 (Z.ltb_ge _ _) Hc).
      eapply (IHr (mkFrame R c x u l :: z)); [lia|done|done| | |].
      * cbn. rewrite app_assoc. apply Forall_app. split; [apply Hgt; lia|]. repeat constructor. cbn. lia.
      * done.
      * intros f z' [= <- <-]. unfold on_side. by rewrite Hc.
Qed.

(** *** The repair loop *)

(** The two branches, as one. *)
Definition Insert_branch (d : side) (GrandParent Tmp Parent_ NewRoot : ptr) : OcM (U := U) (K := K) (ptr * ptr * ptr) :=
  Uncle ← field (child (opp d)) GrandParent;
  UncleIsRed ← NodeIsRed Uncle;
  if (UncleIsRed : bool) then
    store (set_Color Black) Parent_;;
    store (set_Color Black) Uncle;;
    store (set_Color Red) GrandParent;;
    Parent_ ← field Parent GrandParent;
    mret (GrandParent, Parent_, NewRoot)
  else
    r ← field (child (opp d)) Parent_;
    '(Tmp, Parent_, NewRoot) ← (
      if ptr_eq Tmp r then
        NewRoot ← rotate d Parent_ NewRoot;
        New ← field Parent Parent_;
        g ← field Parent New;
        ASSERT (ptr_eq GrandParent g);;
        mret (Parent_, New, NewRoot)
      else mret (Tmp, Parent_, NewRoot));
    store (set_Color Black) Parent_;;
    store (set_Color Red) GrandParent;;
    NewRoot ← rotate (opp d) GrandParent NewRoot;
    mret (Tmp, Parent_, NewRoot).

Lemma Insert_branch_eq d :
  Insert_branch d = match d with L => Insert_fixup_Left | R => Insert_fixup_Right end.
Proof. by destruct d. Qed.

(** What the loop keeps: the tree in focus is red and of black height [n], and would
    fit its context if it were black. *)
Definition repairing s0 s z t n : Prop :=
  Holds s0 s (plug z t) ∧ rb Red n t ∧ rb_ctx Black n z.

(** The case of a red uncle: the red nodes move up. *)
Lemma Insert_red_uncle s0 s d z t fd p pu o g gu ua y v ub Q E :
  let T := plug z (node d Black (node fd Red t p pu o) g gu (node d Red ua y v ub)) in
  Holds s0 s T →
  (∀ s', Holds s0 s' (plug z (node d Red (node fd Black t p pu o) g gu (node d Black ua y v ub))) → 
     Q (Some g, parent NULL z, root T) s') →
  wp (store (set_Color Black) (Some p);;
      store (set_Color Black) (Some y);;
      store (set_Color Red) (Some g);;
      Parent_ ← field Parent (Some g);
      mret (Some g, Parent_, root T)) Q E s.
Proof.
  intros T Hh HQ.
  apply wp_bind, (wp_recolor s0 _ (mkFrame d Black g gu (node d Red ua y v ub) :: z) fd Red Black t p pu o); [done|].
  intros s1 Hh1. apply wp_bind.
  apply (wp_recolor s0 _ (mkFrame (opp d) Black g gu (node fd Black t p pu o) :: z) d Red Black ua y v ub).
  { cbn [plug]. unfold fill. cbn. by rewrite node_opp. }
  intros s2 Hh2. cbn [plug] in Hh2. unfold fill in Hh2. cbn in Hh2. rewrite node_opp in Hh2.
  apply wp_bind, (wp_recolor s0 _ z d Black Red (node fd Black t p pu o) g gu (node d Black ua y v ub)); [done|].
  intros s3 Hh3. apply wp_bind. pose proof (holds_rep _ _ _ Hh3) as Hr.
  apply rep_plug in Hr as [_ Hr]. apply rep_node in Hr as (Hg & _). eapply wp_field; [done|].
  apply wp_ret. replace (Parent _) with (parent NULL z) by by destruct d. by apply HQ.
Qed.

(** The last case: [t1], red, below the red [p], which is on side [d] of the black
    grandparent, as [t1] is of [p]. *)
Lemma Insert_last_case s0 s d z t1 p pu o g gu uncle Q E :
  let T := plug z (node d Black (node d Red t1 p pu o) g gu uncle) in
  let T' := plug z (node d Black t1 p pu (node d Red o g gu uncle)) in
  Holds s0 s T → (∀ s', Holds s0 s' T' → Q (root t1, Some p, root T') s') →
  wp (store (set_Color Black) (Some p);;
      store (set_Color Red) (Some g);;
      NewRoot ← rotate (opp d) (Some g) (root T);
      mret (root t1, Some p, NewRoot)) Q E s.
Proof.
  intros T T' Hh HQ.
  apply wp_bind, (wp_recolor s0 _ (mkFrame d Black g gu uncle :: z) d Red Black t1 p pu o); [done|].
  intros s1 Hh1. apply wp_bind, (wp_recolor s0 _ z d Black Red (node d Black t1 p pu o) g gu uncle); [done|].
  intros s2 Hh2. apply wp_bind.
  replace (root T) with (root (plug z (node (opp d) Red uncle g gu (node (opp d) Black o p pu t1)))).
  2:{ unfold T. rewrite !node_opp. destruct z; [cbn [plug]; by rewrite !root_node|by apply root_plug]. }
  apply wp_rotate with s0; [by rewrite !node_opp|]. rewrite !node_opp. intros s3 Hh3. apply wp_ret. by apply HQ.
Qed.

(** The turn before it, when [t] is on the other side: afterwards the parent is in focus. *)
Lemma Insert_turn s0 s d z c a x u b p pu o g gu uncle Q E :
  let T := plug z (node d c (node d Red o p pu (node d Red a x u b)) g gu uncle) in
  let T' := plug z (node d c (node d Red (node d Red o p pu a) x u b) g gu uncle) in
  Holds s0 s T → (∀ s', Holds s0 s' T' → Q (Some p, Some x, root T') s') →
  wp (NewRoot ← rotate d (Some p) (root T);
      New ← field Parent (Some p);
      r ← field Parent New;
      ASSERT (ptr_eq (Some g) r);;
      mret (Some p, New, NewRoot)) Q E s.
Proof.
  intros T T' Hh HQ. apply wp_bind.
  apply (wp_rotate s0 s (mkFrame d c g gu uncle :: z) d Red o p pu Red a x u b); [done|].
  intros s1 Hh1. pose proof (holds_rep _ _ _ Hh1) as Hr. apply rep_plug in Hr as [_ Hr].
  apply rep_node in Hr as (Hx & Hr & _). apply rep_node in Hr as (Hp & _).
  apply wp_bind. eapply wp_field; [done|]. replace (Parent _) with (Some x) by by destruct d.
  apply wp_bind. eapply wp_field; [done|]. replace (Parent _) with (Some g) by by destruct d.
  apply wp_bind, wp_ASSERT; [by apply bool_decide_ptr|]. apply wp_ret. by apply HQ.
Qed.

(** One iteration. *)
Lemma Insert_branch_spec s0 s z f g t n :
  repairing s0 s (f :: g :: z) t n → f_color f = Red →
  wp (Insert_branch (f_side g) (Some (f_loc g)) (root t) (Some (f_loc f)) (root (plug (f :: g :: z) t)))
    (λ r s', ∃ z' t' m, repairing s0 s' z' t' m ∧ (length z' < S (S (length z)))%nat ∧
       entries (plug z' t') = entries (plug (f :: g :: z) t) ∧
       r = (root t', parent NULL z', root (plug z' t')))
    (λ _ _, False) s.
Proof.
  intros (Hh & Ht & Hz) Hf. destruct f as [fd fc p pu o], g as [d gc gx gu uncle]. cbn in Hf, Hz |- *. subst fc.
  destruct Hz as (_ & _ & Ho & Hz). destruct gc; [by destruct Hz|]. destruct Hz as [[cu Hu] Hz].
  cbn [plug] in Hh |- *. unfold fill in Hh |- *. cbn in Hh |- *.
  pose proof (holds_rep _ _ _ Hh) as Hr. pose proof (holds_distinct _ _ _ Hh) as Hd.
  apply rep_plug in Hr as [_ Hr]. apply rep_node in Hr as (Hg & Hp & Hru). apply rep_node in Hp as (Hp & _).
  apply wp_bind. eapply wp_field; [done|]. replace (child (opp d) _) with (root uncle) by by destruct d.
  apply wp_bind. eapply wp_is_red; [done|]. rewrite (rb_color _ _ _ Hu). destruct cu.
  - destruct (node_cases d uncle (rb_red_nonempty _ _ Hu)) as (cy & ua & y & v & ub & ->).
    pose proof (rb_inv _ _ _ _ _ _ _ _ Hu) as [<- [Hua Hub]]. rewrite root_node.
    apply Insert_red_uncle with s0; [done|]. intros s' Hh'.
    eexists z, _, (S n). split; [split; [exact Hh'|split; [|done]]|].
    + by apply rb_red; [by eapply rb_black|by eapply rb_black].
    + split; [lia|]. split; [rewrite !entries_plug; by destruct d, fd|]. rewrite root_node. f_equal.
      destruct z; [cbn [plug]; by rewrite !root_node|by apply root_plug].
  - apply wp_bind. eapply wp_field; [done|]. apply wp_bind.
    destruct (decide (fd = d)) as [->|Hfd].
    + replace (ptr_eq (root t) _) with false.
      2:{ symmetry. apply not_true_iff_false. rewrite bool_decide_ptr. intros Heq.
          destruct (root t) as [x|] eqn:Hx; [|by destruct t; [apply rb_E_inv in Ht as [? ?]|]].
          apply NoDup_locs_plug in Hd as [Hd _]. apply NoDup_locs_node in Hd as (_ & _ & Hd & _).
          apply NoDup_locs_node in Hd as (_ & _ & _ & _ & Hd).
          apply (Hd x); apply root_in; [done|]. by destruct d. }
      apply wp_ret, Insert_last_case with s0; [done|]. intros s' Hh'.
      eexists (mkFrame d Black p pu (node d Red o gx gu uncle) :: z), t, n.
      split; [split; [done|split; [done|]]|split; [cbn; lia|split; [|done]]].
      * split; [|done]. eexists. by apply rb_red.
      * same_entries d.
    + assert (fd = opp d) as -> by by destruct fd, d. rewrite node_opp in *.
      destruct (node_cases d t (rb_red_nonempty _ _ Ht)) as (cx & a & x & u & b & ->).
      pose proof (rb_inv _ _ _ _ _ _ _ _ Ht) as [<- [Hta Htb]]. rewrite root_node.
      replace (ptr_eq (Some x) _) with true by (symmetry; apply bool_decide_ptr; by destruct d).
      apply Insert_turn with s0; [done|]. intros s1 Hh1. cbn beta iota.
      rewrite <- (root_node d Red o p pu a). apply Insert_last_case with s0; [done|]. intros s' Hh'.
      eexists (mkFrame d Black x u (node d Red b gx gu uncle) :: z), (node d Red o p pu a), n.
      split; [split; [done|split; [by apply rb_red|]]|split; [cbn; lia|split; [|done]]].
      * split; [|done]. eexists. by apply rb_red.
      * same_entries d.
Qed.

Lemma Insert_fixup_spec s0 fuel : ∀ z t n s,
  (length z < fuel)%nat → repairing s0 s z t n →
  wp (Insert_fixup fuel (root t) (parent NULL z) (root (plug z t)))
    (λ q s', ∃ t' c m, Holds s0 s' t' ∧ rb c m t' ∧ entries t' = entries (plug z t) ∧ q = root t')
    (λ _ _, False) s.
Proof.
  induction fuel as [|fuel IH]; intros z t n s Hfuel Hrep; [lia|]. destruct Hrep as (Hh & Ht & Hz).
  cbn [Insert_fixup]. destruct z as [|f z].
  { apply wp_if; intros Heq; [apply wp_ret; by exists t, Red, n|].
    apply not_true_iff_false in Heq. by rewrite bool_decide_ptr in Heq. }
  pose proof (holds_rep _ _ _ Hh) as Hr. pose proof (holds_distinct _ _ _ Hh) as Hd.
  apply wp_if; intros Heq; [apply bool_decide_ptr in Heq; by apply root_plug_ne in Heq|].
  pose proof Hr as Hr0. apply rep_plug in Hr0 as [(Hf & _ & Hg) _]. cbn [parent].
  apply wp_bind. eapply wp_field; [done|]. replace (Color _) with (f_color f) by by destruct f as [[] ? ? ? ?].
  destruct (f_color f) eqn:Hfc.
  - pose proof Hz as Hz0. cbn in Hz0. rewrite Hfc in Hz0. destruct Hz0 as (_ & Hne & _).
    destruct z as [|g z]; [done|]. destruct Hg as (Hg & _).
    apply wp_bind. eapply wp_field; [done|]. replace (Parent _) with (Some (f_loc g)) by by destruct f as [[] ? ? ? ?].
    apply wp_bind. eapply wp_field; [done|]. cbn [parent] in *.
    assert (Some (f_loc f) = root (fill f t)) as Hroot by (unfold fill; by rewrite root_node).
    assert (ptr_eq (Some (f_loc f)) (Left (frame_node (parent NULL z) (Some (f_loc f)) g)) =
      match f_side g with L => true | R => false end) as ->.
    { rewrite Hroot. apply hole_left; [|left; by destruct f as [[] ? ? ? ?]].
      cbn [plug] in Hd. apply NoDup_locs_plug in Hd as [Hd _]. by apply NoDup_locs_node in Hd as (_ & _ & _ & _ & Hd). }
    apply wp_bind.
    replace (if match f_side g with L => true | R => false end then _ else _)
      with (Insert_branch (f_side g) (Some (f_loc g)) (root t) (Some (f_loc f)) (root (plug (f :: g :: z) t)))
      by (rewrite Insert_branch_eq; by destruct (f_side g)).
    eapply wp_mono; [by eapply Insert_branch_spec| |done].
    intros r s' (z' & t' & m & Hrep & Hlen & Hent & ->). rewrite <- Hent.
    apply (IH z' t' m); [cbn in *; lia|done].
  - apply wp_ret. destruct (rb_plug Red n (f :: z) t) as [m Hm]; [|done|done|by exists (plug (f :: z) t), Black, m].
    cbn in Hz |- *. by rewrite Hfc in *.
Qed.

(** Storing the root last. *)
Lemma store_Root_collection s0 s Tree p cmp kcmp t Q (E : RETURN_STATUS → pool U K → Prop) :
  Holds s0 s t → red_black t → ordered cmp (entries t) → Trees s0 !! Tree = Some (mkTree p cmp kcmp) →
  (∀ s', Collection s' Tree cmp kcmp t → Nodes s' = Nodes s →
     (∀ T, T ≠ Tree → Trees s' !! T = Trees s0 !! T) → Q tt s') →
  wp (store_Root Tree (root t)) Q E s.
Proof.
  intros [Hd Hr _ Ht] Hrb Ho HT HQ. eapply wp_store_Root; [by rewrite Ht|]. apply HQ; [|done|].
  - split; [|done..]. cbn. by rewrite lookup_insert_eq.
  - intros T HT'. cbn. rewrite lookup_insert_ne by congruence. by rewrite Ht.
Qed.

(** The root is coloured black at the end. *)
Lemma blacken_root s0 s c m t Q (E : RETURN_STATUS → pool U K → Prop) :
  Holds s0 s t → t ≠ OrderedTree.E → rb c m t →
  (∀ s' t', Holds s0 s' t' → red_black t' → entries t' = entries t → root t' = root t → Q tt s') →
  wp (store (set_Color Black) (root t)) Q E s.
Proof.
  intros Hh Hne Hrb HQ. destruct (node_cases L t Hne) as (c' & l & x & u & r & ->).
  apply (wp_recolor s0 _ [] L c' Black l x u r); [done|]. intros s' Hh'.
  apply (HQ s' (node L Black l x u r)); [done| |done..].
  apply rb_inv in Hrb as [-> Hrb]. destruct c'.
  - destruct Hrb as [Hl Hr]. exists (S m). by eapply rb_black.
  - destruct Hrb as (ca & cb & k & -> & Hl & Hr). exists (S k). by eapply rb_black.
Qed.
End InsertProofs.

(** ** The operation *)

(** Insertion into a list of entries: before the first one that is greater. *)
Fixpoint insert_entry {U} (cmp : U → U → Z) (x : loc) (u : U) (l : list (loc * U)) : list (loc * U) :=
  match l with
  | [] => [(x, u)]
  | e :: l => if cmp u e.2 <? 0 then (x, u) :: e :: l else e :: insert_entry cmp x u l
  end.

Section InsertSpec.
Context {U K : Type} `{!Platform} {cmp : U → U → Z} {kcmp : K → U → Z} `{!Comparison cmp}.
Implicit Types (s : pool U K) (t : tree U) (z : list (frame U)).

(** The new node is linked below its parent. *)
Lemma Holds_link s z x u :
  let n := mkNode u (parent NULL z) NULL NULL Red in
  let s0 := with_Nodes (<[x := n]> (Nodes s)) s in
  NoDup (locs (plug z E)) → rep (Nodes s) NULL (plug z E) → x ∉ locs (plug z E) →
  Holds s0 (with_Nodes (set_hole (Some x) z (Nodes s0)) s) (plug z (T Red E x u E)).
Proof.
  intros n s0 Hd Hr Hx. rewrite NoDup_locs_plug in Hd. destruct Hd as (_ & Hd & _).
  rewrite elem_locs_plug in Hx. apply rep_plug in Hr as [Hz _].
  assert (∀ w, w ∈ locs (T Red E x u E) ↔ w = x) as Hs by (intros w; apply list_elem_of_singleton).
  split.
  - apply NoDup_locs_plug. split; [apply NoDup_singleton|]. split; [done|].
    intros y ->%Hs Hy. apply Hx. by right.
  - apply rep_plug. split.
    + eapply rep_set_hole; [done|]. eapply rep_ctx_frame; [|done]. intros y Hy. cbn.
      rewrite lookup_insert_ne; [done|]. intros ->. apply Hx. by right.
    + cbn. rewrite set_hole_ne by tauto. by rewrite lookup_insert_eq.
  - intros y Hy. rewrite elem_locs_plug in Hy. cbn [Nodes with_Nodes]. rewrite set_hole_ne; [done|]. tauto.
  - done.
Qed.

Lemma Insert_new_spec s Tree z x u Result :
  Collection s Tree cmp kcmp (plug z E) → Nodes s !! x = None → gap (cmp u) (plug z E) z Result →
  ordered cmp (before z ++ (x, u) :: after z) →
  wp (Insert_new Tree x u (parent NULL z) Result)
    (λ _ s', ∃ t', Collection s' Tree cmp kcmp t' ∧ entries t' = before z ++ (x, u) :: after z ∧
       elsewhere s s' Tree (locs t'))
    (λ _ _, False) s.
Proof.
  intros [Ht Hd Hr [k Hrb] Ho] Hx (_ & _ & _ & Hside) Ho'.
  assert (x ∉ locs (plug z E)) as Hxl by (intros [? Heq]%(rep_in (Nodes s) NULL); congruence).
  destruct z as [|f z].
  - apply wp_if; [intros _|done]. apply wp_bind, wp_modify.
    eapply (store_Root_collection (with_Nodes (<[x := mkNode u NULL NULL NULL Black]> (Nodes s)) s) _ _ NULL _ _
      (T Black E x u E)); [split| |done|done|].
    + apply NoDup_singleton.
    + cbn. by rewrite lookup_insert_eq.
    + done.
    + done.
    + exists 1%nat. apply (rb_black 0 L Black E x u Black E); constructor.
    + intros s' Hc Hn Htr. exists (T Black E x u E). split; [done|]. split; [done|]. split; [|done].
      intros y Hy. rewrite Hn. cbn. apply lookup_insert_ne. intros ->. apply Hy. by apply list_elem_of_singleton.
  - apply wp_if; [done|intros _]. apply wp_bind, wp_modify.
    pose proof (Holds_link s (f :: z) x u Hd Hr Hxl) as Hlink. cbn zeta in Hlink.
    set (s0 := with_Nodes (<[x := mkNode u (parent NULL (f :: z)) NULL NULL Red]> (Nodes s)) s) in *.
    pose proof Hr as Hr0. apply rep_plug in Hr0 as [(Hf & _) _].
    assert (f_loc f ≠ x) as Hfx.
    { intros <-. apply Hxl, elem_locs_plug. right. apply elem_ctx_locs. auto. }
    apply wp_bind. eapply (wp_mono _ (λ _ s', s' = with_Nodes (set_hole (Some x) (f :: z) (Nodes s0)) s)
      _ (λ _ _, False)); [|intros _ s1 ->|done].
    { specialize (Hside _ _ eq_refl). unfold on_side in Hside. cbn [parent set_hole]. rewrite Hside.
      destruct (Result <? 0); eapply wp_store; try done; cbn; by rewrite lookup_insert_ne. }
    apply wp_bind. eapply wp_deref_tree; [done|]. cbn [Root]. apply wp_bind, wp_fuel, wp_bind.
    destruct (rb_unplug (f :: z) E) as (c & n & Hc & Hz & _); [by exists k|].
    apply rb_E_inv in Hc as [-> ->]. rewrite (root_plug (f :: z) E (T Red E x u E)) by done.
    eapply wp_mono; [apply (Insert_fixup_spec s0 _ (f :: z) (T Red E x u E) 0%nat)| |done].
    + pose proof (rep_size _ _ _ (holds_rep _ _ _ Hlink) (holds_distinct _ _ _ Hlink)).
      pose proof (length_ctx (f :: z) (T Red E x u E)). lia.
    + split; [done|]. split; [|done]. apply (rb_red 0 L E x u E); constructor.
    + intros q s2 (t' & c & m & Hh & Hrb' & Hent & ->). rewrite entries_plug in Hent. cbn [entries app] in Hent.
      assert (t' ≠ E) as Hne by (intros ->; by destruct (before (f :: z))).
      apply wp_bind. eapply blacken_root; [done..|]. intros s3 t'' Hh3 Hrb3 Hent3 Hroot. rewrite <- Hroot.
      eapply store_Root_collection; [done..| | |]; [by rewrite Hent3, Hent|exact Ht|].
      intros s' Hcol Hn Htr. exists t''. split; [done|]. split; [by rewrite Hent3, Hent|]. split; [|done].
      intros y Hy. rewrite Hn, (holds_else _ _ _ Hh3) by done. cbn. apply lookup_insert_ne. intros ->.
      apply Hy. unfold locs. rewrite Hent3, Hent, fmap_app. set_solver.
Qed.

Lemma insert_entry_gap x u l1 l2 :
  Forall (λ e, 0 < cmp u e.2) l1 → Forall (λ e, cmp u e.2 < 0) l2 →
  insert_entry cmp x u (l1 ++ l2) = l1 ++ (x, u) :: l2.
Proof.
  intros H1 H2. induction H1 as [|e l1 He _ IH]; cbn.
  - destruct H2 as [|e l2 He _]; [done|]. cbn. by rewrite (proj2 (Z.ltb_lt _ _) He).
  - rewrite (proj2 (Z.ltb_ge _ _)) by lia. by rewrite IH.
Qed.

Lemma ordered_insert x u l1 l2 :
  Forall (λ e, 0 < cmp u e.2) l1 → Forall (λ e, cmp u e.2 < 0) l2 →
  ordered cmp (l1 ++ l2) → ordered cmp (l1 ++ (x, u) :: l2).
Proof.
  intros H1 H2 Ho. apply StronglySorted_app in Ho as (H12 & Ho1 & Ho2).
  apply StronglySorted_app. split; [|split; [done|by constructor]].
  intros a b Ha [->|Hb]%elem_of_cons; [|by apply H12]. apply cmp_flip.
  rewrite Forall_forall in H1. by apply (H1 a).
Qed.

Lemma gap_not_found (f : U → Z) t z Result : gap f t z Result → find_entry f (entries t) = None.
Proof.
  intros (-> & Hb & Ha & _). unfold find_entry. rewrite find_none; [done|].
  rewrite entries_plug. apply Forall_app. split; (eapply Forall_impl; [done|]); cbn; lia.
Qed.

Lemma found (f : U → Z) l x u : searchable f l → (x, u) ∈ l → f u = 0 → find_entry f l = Some x.
Proof.
  intros Hs (l1 & l2 & ->)%list_elem_of_split H0. unfold find_entry. rewrite find_app.
  destruct (Hs l1 x u l2 eq_refl) as [_ Ha].
  rewrite find_none; [cbn; by rewrite H0|]. eapply Forall_impl; [apply Ha; lia|]. cbn. lia.
Qed.

Lemma Validate_if_spec Pcd s Tree t :
  Collection s Tree cmp kcmp t → ValidateIfEnabled Pcd Tree s = Ok tt s.
Proof. destruct Pcd; [apply RedBlackTreeValidate_spec|done]. Qed.

Lemma col_searchable s Tree t u : Collection s Tree cmp kcmp t → searchable (cmp u) (entries t).
Proof. intros Hc. apply (sorted_searchable cmp); [apply cmp_below|apply cmp_above|apply Hc]. Qed.

Lemma search_start s Tree t u :
  Collection s Tree cmp kcmp t →
  wp (Insert_search (S (size (Nodes s))) (cmp u) (root t) NULL 0)
    (λ r s', s' = s ∧
       ((∃ x v, r.1.1 = Some x ∧ (x, v) ∈ entries t ∧ cmp u v = 0) ∨
        (∃ z, r.1.1 = NULL ∧ r.1.2 = parent NULL z ∧ gap (cmp u) t z r.2)))
    (λ _ _, False) s.
Proof.
  intros Hc. pose proof (col_fuel _ _ _ Hc) as Hfuel.
  apply (Insert_search_spec (cmp u) t []); [done|apply Hc|by eapply col_searchable|done..].
Qed.
End InsertSpec.

Lemma Insert_contract {U K} `{!Platform} (cmp : U → U → Z) (kcmp : K → U → Z)
    (Hcmp : Comparison cmp) (PcdValidate : bool) (s : pool U K) (Tree : loc) (t : tree U)
    (Allocated : ptr) (u : U)
    (Hc : Collection s Tree cmp kcmp t) (Hfresh : ∀ x, Allocated = Some x → Nodes s !! x = None) :
  let run := OrderedCollectionInsert PcdValidate Allocated Tree u s in
  match find_entry (cmp u) (entries t), Allocated with
  | Some y, _ => run = Ok (mkInsert (Some RETURN_ALREADY_STARTED) (Some y)) s
  | None, None => run = Ok (mkInsert (Some RETURN_OUT_OF_RESOURCES) NULL) s
  | None, Some x => ∃ s' t', run = Ok (mkInsert None (Some x)) s' ∧ Collection s' Tree cmp kcmp t' ∧
      entries t' = insert_entry cmp x u (entries t) ∧ elsewhere s s' Tree (locs t')
  end.
Proof.
  intros run. pose proof (Validate_if_spec PcdValidate _ _ _ Hc) as Hval.
  enough (wp (OrderedCollectionInsert PcdValidate Allocated Tree u) (λ r s', match find_entry (cmp u) (entries t), Allocated with
    | Some y, _ => r = mkInsert (Some RETURN_ALREADY_STARTED) (Some y) ∧ s' = s
    | None, None => r = mkInsert (Some RETURN_OUT_OF_RESOURCES) NULL ∧ s' = s
    | None, Some x => r = mkInsert None (Some x) ∧ ∃ t', Collection s' Tree cmp kcmp t' ∧
        entries t' = insert_entry cmp x u (entries t) ∧ elsewhere s s' Tree (locs t')
    end) (λ _ _, False) s) as (r & s' & Hrun & Hpost)%wp_total.
  { unfold run. rewrite Hrun. destruct (find_entry _ _); [by destruct Hpost as [-> ->]|].
    destruct Allocated; [|by destruct Hpost as [-> ->]].
    destruct Hpost as (-> & t' & Hpost). by exists s', t'. }
  apply wp_bind. eapply wp_deref_tree; [apply Hc|]. cbn [Root UserStructCompare].
  apply wp_bind, wp_fuel, wp_bind. eapply wp_mono; [by eapply search_start| |done].
  intros [[Tmp Parent_] Result] s' [-> [(x & v & Hx & Hin & H0)|(z & HN & HP & Hgap)]]; cbn in *; subst.
  - rewrite (found (cmp u) (entries t) x v) by (done || by eapply col_searchable).
    apply wp_bind, wp_ret, wp_bind. eapply wp_intro_ok; [done|]. by apply wp_ret.
  - rewrite (gap_not_found _ _ _ _ Hgap). apply wp_bind. destruct Allocated as [x|].
    + pose proof Hgap as (-> & Hb & Ha & _). pose proof (col_ordered _ _ _ _ _ Hc) as Ho.
      rewrite entries_plug in Ho |- *. cbn in Ho |- *. rewrite insert_entry_gap by done.
      apply wp_bind. eapply wp_mono; [eapply Insert_new_spec; [done|by apply Hfresh|done|by apply ordered_insert]| |done].
      intros _ s' (t' & Hc' & Hent & Helse). apply wp_ret, wp_bind.
      eapply wp_intro_ok; [by eapply Validate_if_spec|]. apply wp_ret. split; [done|]. by exists t'.
    + apply wp_ret, wp_bind. eapply wp_intro_ok; [done|]. by apply wp_ret.
Qed.

(** C29. OrderedCollectionInsert is insertion into a sorted list.  On a collection with
    the entries [entries t] it never faults and ends, with or without validation: an
    entry that compares equal is reported with RETURN_ALREADY_STARTED, a failed
    allocation with RETURN_OUT_OF_RESOURCES, and nothing changes; otherwise the memory
    holds a collection again, a red-black tree with the new entry in its place in the
    order and all other entries at their addresses, and nothing outside of it changes. *)
Theorem ordered_insert_exact {U K} `{!Platform} (cmp : U → U → Z) (kcmp : K → U → Z)
    (Hcmp : Comparison cmp) (PcdValidate : bool) (s : pool U K) (Tree : loc) (t : tree U)
    (Allocated : ptr) (u : U)
    (Hc : Collection s Tree cmp kcmp t) (Hfresh : ∀ x, Allocated = Some x → Nodes s !! x = None) :
  let run := OrderedCollectionInsert PcdValidate Allocated Tree u s in
  match find_entry (cmp u) (entries t), Allocated with
  | Some y, _ => run = Ok (mkInsert (Some RETURN_ALREADY_STARTED) (Some y)) s
  | None, None => run = Ok (mkInsert (Some RETURN_OUT_OF_RESOURCES) NULL) s
  | None, Some x => ∃ s' t', run = Ok (mkInsert None (Some x)) s' ∧ Collection s' Tree cmp kcmp t' ∧
      entries t' = insert_entry cmp x u (entries t) ∧ elsewhere s s' Tree (locs t')
  end.
Proof. exact (Insert_contract cmp kcmp Hcmp PcdValidate s Tree t Allocated u Hc Hfresh). Qed.

Lemma ordered_insert_exact_witness : ∃ s' t',
  @OrderedCollectionInsert Z Z platform_x64 true (Some 6%positive) 7%positive 35 sample_pool
    = Ok (mkInsert None (Some 6%positive)) s' ∧
  entries t' = [(2%positive, 10); (1%positive, 20); (4%positive, 30); (6%positive, 35); (3%positive, 40); (5%positive, 50)].
Proof.
  destruct (@ordered_insert_exact Z Z platform_x64 (λ a b, a - b) (λ k a, k - a) sample_comparison true sample_pool
    7%positive sample_tree (Some 6%positive) 35 sample_collection) as (s' & t' & Hrun & _ & He & _).
  - intros x Hx. injection Hx as <-. reflexivity.
  - exists s', t'. exact (conj Hrun He).
Defined.
