(* ===== verification/OrderedDelete.v ===== *)
(** BaseOrderedCollectionRedBlackTreeLib.c, third part: deletion. *)
From stdpp Require Import sorting.
From S2P Require Import Prelude Platform OrderedCollection OrderedTree OrderedWalk OrderedRotate OrderedInsert.
#[local] Open Scope Z_scope.

(** ** OrderedCollectionDelete *)

Section Delete.
Context {U K : Type} `{!Platform} (PcdValidateOrderedCollection : bool).
Abbreviation OcM := (@OcM U K).

(** What the function knows after the node is unlinked. *)
Record unlinked := mkUnlinked {
  ul_NewRoot : ptr;
  ul_Child : ptr;
  ul_Parent : ptr;
  ul_ColorOfUnlinked : RED_BLACK_TREE_COLOR;
}.

(** Node has at most one child. *)
Definition Delete_unlink_one (Node OrigLeftChild OrigRightChild OrigParent NewRoot : ptr) : OcM unlinked :=
  let Parent_ := OrigParent in
  let Child := if negb (is_null OrigLeftChild) then OrigLeftChild else OrigRightChild in
  ColorOfUnlinked ← field Color Node;
  SetParentIfNotNull Parent_ Child;;
  NewRoot ← ReplaceChild OrigParent Node Child NewRoot;
  mret (mkUnlinked NewRoot Child Parent_ ColorOfUnlinked).

(** Node has two children: its successor is unlinked, and linked in its place. *)
Definition Delete_unlink_successor (Node OrigLeftChild OrigRightChild OrigParent NewRoot : ptr) : OcM unlinked :=
  l ← field Left OrigRightChild;
  '(ToRelink, Parent_, Child) ← (
    if is_null l then
      Child ← field Right OrigRightChild;
      mret (OrigRightChild, OrigRightChild, Child)
    else
      fuel ← pool_fuel;
      ToRelink ← Leftmost_loop fuel l;
      Parent_ ← field Parent ToRelink;
      Child ← field Right ToRelink;
      store (set_Left Child) Parent_;;
      SetParentIfNotNull Parent_ Child;;
      store (set_Right OrigRightChild) ToRelink;;
      store (set_Parent ToRelink) OrigRightChild;;
      mret (ToRelink, Parent_, Child));
  store (set_Left OrigLeftChild) ToRelink;;
  store (set_Parent ToRelink) OrigLeftChild;;
  ColorOfUnlinked ← field Color ToRelink;
  c ← field Color Node;
  store (set_Color c) ToRelink;;
  store (set_Parent OrigParent) ToRelink;;
  NewRoot ← ReplaceChild OrigParent Node ToRelink NewRoot;
  mret (mkUnlinked NewRoot Child Parent_ ColorOfUnlinked).

(** The branch of the loop where Child is the left child of Parent: the new values of
    Child, Parent and NewRoot. *)
Definition Delete_fixup_Left (Child Parent_ NewRoot : ptr) : OcM (ptr * ptr * ptr) :=
  Sibling ← field Right Parent_;
  ASSERT (negb (is_null Sibling));;
  c ← field Color Sibling;
  '(Sibling, NewRoot) ← (
    if color_eq c RedBlackTreeRed then
      store (set_Color RedBlackTreeBlack) Sibling;;
      store (set_Color RedBlackTreeRed) Parent_;;
      NewRoot ← RedBlackTreeRotateLeft Parent_ NewRoot;
      Sibling ← field Right Parent_;
      ASSERT (negb (is_null Sibling));;
      mret (Sibling, NewRoot)
    else mret (Sibling, NewRoot));
  c ← field Color Sibling;
  ASSERT (color_eq c RedBlackTreeBlack);;
  LeftNephew ← field Left Sibling;
  RightNephew ← field Right Sibling;
  bl ← NodeIsNullOrBlack LeftNephew;
  both ← (if (bl : bool) then NodeIsNullOrBlack RightNephew else mret false);
  if (both : bool) then
    store (set_Color RedBlackTreeRed) Sibling;;
    let Child := Parent_ in
    Parent_ ← field Parent Parent_;
    mret (Child, Parent_, NewRoot)
  else
    br ← NodeIsNullOrBlack RightNephew;
    '(Sibling, RightNephew, NewRoot) ← (
      if (br : bool) then
        store (set_Color RedBlackTreeBlack) LeftNephew;;
        store (set_Color RedBlackTreeRed) Sibling;;
        NewRoot ← RedBlackTreeRotateRight Sibling NewRoot;
        Sibling ← field Right Parent_;
        RightNephew ← field Right Sibling;
        mret (Sibling, RightNephew, NewRoot)
      else mret (Sibling, RightNephew, NewRoot));
    ASSERT (negb (is_null RightNephew));;
    c ← field Color RightNephew;
    ASSERT (color_eq c RedBlackTreeRed);;
    ASSERT (negb (is_null Sibling));;
    c ← field Color Sibling;
    ASSERT (color_eq c RedBlackTreeBlack);;
    c ← field Color Parent_;
    store (set_Color c) Sibling;;
    store (set_Color RedBlackTreeBlack) Parent_;;
    store (set_Color RedBlackTreeBlack) RightNephew;;
    NewRoot ← RedBlackTreeRotateLeft Parent_ NewRoot;
    let Child := NewRoot in
    mret (Child, Parent_, NewRoot).

(** The branch where it is the right child. *)
Definition Delete_fixup_Right (Child Parent_ NewRoot : ptr) : OcM (ptr * ptr * ptr) :=
  Sibling ← field Left Parent_;
  ASSERT (negb (is_null Sibling));;
  c ← field Color Sibling;
  '(Sibling, NewRoot) ← (
    if color_eq c RedBlackTreeRed then
      store (set_Color RedBlackTreeBlack) Sibling;;
      store (set_Color RedBlackTreeRed) Parent_;;
      NewRoot ← RedBlackTreeRotateRight Parent_ NewRoot;
      Sibling ← field Left Parent_;
      ASSERT (negb (is_null Sibling));;
      mret (Sibling, NewRoot)
    else mret (Sibling, NewRoot));
  c ← field Color Sibling;
  ASSERT (color_eq c RedBlackTreeBlack);;
  RightNephew ← field Right Sibling;
  LeftNephew ← field Left Sibling;
  br ← NodeIsNullOrBlack RightNephew;
  both ← (if (br : bool) then NodeIsNullOrBlack LeftNephew else mret false);
  if (both : bool) then
    store (set_Color RedBlackTreeRed) Sibling;;
    let Child := Parent_ in
    Parent_ ← field Parent Parent_;
    mret (Child, Parent_, NewRoot)
  else
    bl ← NodeIsNullOrBlack LeftNephew;
    '(Sibling, LeftNephew, NewRoot) ← (
      if (bl : bool) then
        store (set_Color RedBlackTreeBlack) RightNephew;;
        store (set_Color RedBlackTreeRed) Sibling;;
        NewRoot ← RedBlackTreeRotateLeft Sibling NewRoot;
        Sibling ← field Left Parent_;
        LeftNephew ← field Left Sibling;
        mret (Sibling, LeftNephew, NewRoot)
      else mret (Sibling, LeftNephew, NewRoot));
    ASSERT (negb (is_null LeftNephew));;
    c ← field Color LeftNephew;
    ASSERT (color_eq c RedBlackTreeRed);;
    ASSERT (negb (is_null Sibling));;
    c ← field Color Sibling;
    ASSERT (color_eq c RedBlackTreeBlack);;
    c ← field Color Parent_;
    store (set_Color c) Sibling;;
    store (set_Color RedBlackTreeBlack) Parent_;;
    store (set_Color RedBlackTreeBlack) LeftNephew;;
    NewRoot ← RedBlackTreeRotateRight Parent_ NewRoot;
    let Child := NewRoot in
    mret (Child, Parent_, NewRoot).

(** [while (Child != NewRoot && NodeIsNullOrBlack (Child))]; the values of Child and
    NewRoot after the loop. *)
Fixpoint Delete_fixup (fuel : nat) (Child Parent_ NewRoot : ptr) : OcM (ptr * ptr) :=
  match fuel with
  | O => crash OutOfFuel
  | S fuel =>
      if ptr_eq Child NewRoot then mret (Child, NewRoot)
      else
        b ← NodeIsNullOrBlack Child;
        if (b : bool) then
          l ← field Left Parent_;
          '(Child, Parent_, NewRoot) ←
            (if ptr_eq Child l then Delete_fixup_Left Child Parent_ NewRoot
             else Delete_fixup_Right Child Parent_ NewRoot);
          Delete_fixup fuel Child Parent_ NewRoot
        else mret (Child, NewRoot)
  end.

(** The user structure of the deleted node is returned, as *UserStruct. *)
Definition OrderedCollectionDelete (Tree : loc) (Node : ptr) : OcM U :=
  t ← deref_tree Tree;
  let NewRoot := Root t in
  OrigLeftChild ← field Left Node;
  OrigRightChild ← field Right Node;
  OrigParent ← field Parent Node;
  UserStruct_ ← field UserStruct Node;
  v ← (if is_null OrigLeftChild || is_null OrigRightChild
       then Delete_unlink_one Node OrigLeftChild OrigRightChild OrigParent NewRoot
       else Delete_unlink_successor Node OrigLeftChild OrigRightChild OrigParent NewRoot);
  fuel ← pool_fuel;
  FreePool_node Node;;
  NewRoot ← (
    if color_eq (ul_ColorOfUnlinked v) RedBlackTreeBlack then
      '(Child, NewRoot) ← Delete_fixup fuel (ul_Child v) (ul_Parent v) (ul_NewRoot v);
      (if negb (is_null Child) then store (set_Color RedBlackTreeBlack) Child else mret tt);;
      mret NewRoot
    else mret (ul_NewRoot v));
  store_Root Tree NewRoot;;
  ValidateIfEnabled PcdValidateOrderedCollection Tree;;
  mret UserStruct_.
End Delete.

(** ** The repair loop *)

Section DeleteProofs.
Context {U K : Type} `{!Platform}.
Implicit Types (s : pool U K) (t a b : tree U) (z : list (frame U)).

(** The part of the branch after Sibling is known to be black, for the child on side [d]. *)
Definition Delete_black_sibling (d : side) (Sibling Parent_ NewRoot : ptr) : OcM (U := U) (K := K) (ptr * ptr * ptr) :=
  c ← field Color Sibling;
  ASSERT (color_eq c Black);;
  Near ← field (child d) Sibling;
  Far ← field (child (opp d)) Sibling;
  bl ← NodeIsNullOrBlack Near;
  both ← (if (bl : bool) then NodeIsNullOrBlack Far else mret false);
  if (both : bool) then
    store (set_Color Red) Sibling;;
    New ← field Parent Parent_;
    mret (Parent_, New, NewRoot)
  else
    br ← NodeIsNullOrBlack Far;
    '(Sibling, Far, NewRoot) ← (
      if (br : bool) then
        store (set_Color Black) Near;;
        store (set_Color Red) Sibling;;
        NewRoot ← rotate (opp d) Sibling NewRoot;
        Sibling ← field (child (opp d)) Parent_;
        Far ← field (child (opp d)) Sibling;
        mret (Sibling, Far, NewRoot)
      else mret (Sibling, Far, NewRoot));
    ASSERT (negb (is_null Far));;
    c ← field Color Far;
    ASSERT (color_eq c Red);;
    ASSERT (negb (is_null Sibling));;
    c ← field Color Sibling;
    ASSERT (color_eq c Black);;
    c ← field Color Parent_;
    store (set_Color c) Sibling;;
    store (set_Color Black) Parent_;;
    store (set_Color Black) Far;;
    NewRoot ← rotate d Parent_ NewRoot;
    mret (NewRoot, Parent_, NewRoot).

(** The two branches, as one. *)
Definition Delete_branch (d : side) (Child Parent_ NewRoot : ptr) : OcM (U := U) (K := K) (ptr * ptr * ptr) :=
  Sibling ← field (child (opp d)) Parent_;
  ASSERT (negb (is_null Sibling));;
  c ← field Color Sibling;
  '(Sibling, NewRoot) ← (
    if color_eq c Red then
      store (set_Color Black) Sibling;;
      store (set_Color Red) Parent_;;
      NewRoot ← rotate d Parent_ NewRoot;
      Sibling ← field (child (opp d)) Parent_;
      ASSERT (negb (is_null Sibling));;
      mret (Sibling, NewRoot)
    else mret (Sibling, NewRoot));
  Delete_black_sibling d Sibling Parent_ NewRoot.

Lemma Delete_branch_eq d :
  Delete_branch d = match d with L => Delete_fixup_Left | R => Delete_fixup_Right end.
Proof. by destruct d. Qed.

Definition blacken t : tree U := match t with E => E | T _ l x u r => T Black l x u r end.

Lemma blacken_node d c a x u b : blacken (node d c a x u b) = node d Black a x u b.
Proof. by destruct d. Qed.

Lemma blacken_black n t : rb Black n t → blacken t = t.
Proof. destruct t as [|c l x u r]; [done|]. intros Hc%rb_color. cbn in *. by subst. Qed.

Lemma blacken_red n t : rb Red n t → rb Black (S n) (blacken t).
Proof.
  intros Ht. destruct (node_cases L t (rb_red_nonempty _ _ Ht)) as (c & l & x & u & r & ->).
  apply rb_inv in Ht as [<- [Hl Hr]]. rewrite blacken_node. by eapply rb_black.
Qed.

(** Once the tree in focus is coloured black, everything is in order. *)
Definition settled z t : Prop := ∃ m, rb Black m (blacken t) ∧ rb_ctx Black m z.

Lemma settled_root t : red_black t → settled [] t.
Proof. intros [m Hm]. exists m. by rewrite (blacken_black _ _ Hm). Qed.

(** What the loop keeps: the black tree in focus is one black node short. *)
Definition deficient z t n : Prop := rb Black n t ∧ rb_ctx Black (S n) z.

(** The state of the loop: it goes on, or the next test ends it. *)
Definition progress s0 s (k : nat) (l : list (loc * U)) (r : ptr * ptr * ptr) : Prop :=
  ∃ z t, Holds s0 s (plug z t) ∧ entries (plug z t) = l ∧
    ((∃ n, deficient z t n) ∧ (length z < k)%nat ∧ r = (root t, parent NULL z, root (plug z t)) ∨
     settled z t ∧ (z = [] ∨ color t = Red) ∧ r.1.1 = root t ∧ r.2 = root (plug z t)).

(** A red nephew on the far side: the last case. *)
Lemma Delete_far_red s0 s d z cp t p pu a y v c' f1 w wv f2 n ca k :
  let T := plug z (node d cp t p pu (node d Black a y v (node d c' f1 w wv f2))) in
  Holds s0 s T → c' = Red → rb Black n t → rb ca n a → rb Red n (node d c' f1 w wv f2) →
  rb_ctx Black (S n) (mkFrame d cp p pu (node d Black a y v (node d c' f1 w wv f2)) :: z) →
  wp (ASSERT (negb (is_null (Some w)));;
      c ← field Color (Some w);
      ASSERT (color_eq c Red);;
      ASSERT (negb (is_null (Some y)));;
      c ← field Color (Some y);
      ASSERT (color_eq c Black);;
      c ← field Color (Some p);
      store (set_Color c) (Some y);;
      store (set_Color Black) (Some p);;
      store (set_Color Black) (Some w);;
      NewRoot ← rotate d (Some p) (root T);
      mret (NewRoot, Some p, NewRoot))
    (λ r s', progress s0 s' k (entries T) r) (λ _ _, False) s.
Proof.
  intros T Hh -> Ht Ha Hfar Hz. pose proof (holds_rep _ _ _ Hh) as Hr.
  apply rep_plug in Hr as [_ Hr]. apply rep_node in Hr as (Hp & _ & Hr).
  apply rep_node in Hr as (Hy & _ & Hr). apply rep_node in Hr as (Hw & _).
  apply wp_bind, wp_ASSERT; [done|]. apply wp_bind. eapply wp_field; [done|].
  apply wp_bind, wp_ASSERT; [by destruct d|]. apply wp_bind, wp_ASSERT; [done|].
  apply wp_bind. eapply wp_field; [done|]. apply wp_bind, wp_ASSERT; [by destruct d|].
  apply wp_bind. eapply wp_field; [done|]. replace (Color _) with cp by by destruct d.
  apply wp_bind. set (far := node d Red f1 w wv f2) in *. set (far' := node d Black f1 w wv f2).
  apply (wp_recolor s0 _ (mkFrame (opp d) cp p pu t :: z) d Black cp a y v far).
  { cbn [plug]. unfold fill. cbn. by rewrite node_opp. }
  cbn [plug]. unfold fill. cbn. rewrite node_opp. intros s1 Hh1. apply wp_bind.
  apply (wp_recolor s0 _ z d cp Black t p pu (node d cp a y v far)); [done|]. intros s2 Hh2. apply wp_bind.
  apply (wp_recolor s0 _ (mkFrame (opp d) cp y v a :: mkFrame (opp d) Black p pu t :: z) d Red Black f1 w wv f2).
  { cbn [plug]. unfold fill. cbn. by rewrite !node_opp. }
  cbn [plug]. unfold fill. cbn. rewrite !node_opp. intros s3 Hh3. apply wp_bind.
  replace (root T) with (root (plug z (node d Black t p pu (node d cp a y v far'))))
    by (destruct z; [cbn; unfold T; cbn; by rewrite !root_node|by apply root_plug]).
  apply wp_rotate with s0; [done|]. intros s4 Hh4. apply wp_ret.
  exists [], (plug z (node d cp (node d Black t p pu a) y v far')). split; [done|].
  split; [unfold T, far', far; same_entries d|]. right. split; [|by auto].
  apply settled_root. assert (rb Black (S n) far') as Hfar'.
  { apply blacken_red in Hfar. unfold far in Hfar. by rewrite blacken_node in Hfar. }
  assert (rb Black (S n) (node d Black t p pu a)) by by eapply rb_black.
  cbn in Hz. destruct cp.
  - destruct Hz as (_ & Hne & _ & Hz). eapply rb_plug; [done|by apply rb_red|done].
  - destruct Hz as [_ Hz]. eapply rb_plug; [done|by eapply rb_black|done].
Qed.

(** A red nephew on the near side only: it becomes the sibling. *)
Lemma Delete_near_red s0 s d z cp t p pu a1 w wv a2 y v b Q E :
  let T := plug z (node d cp t p pu (node d Black (node d Red a1 w wv a2) y v b)) in
  let T' := plug z (node d cp t p pu (node d Black a1 w wv (node d Red a2 y v b))) in
  Holds s0 s T → (∀ s', Holds s0 s' T' → Q (Some w, Some y, root T') s') →
  wp (store (set_Color Black) (Some w);;
      store (set_Color Red) (Some y);;
      NewRoot ← rotate (opp d) (Some y) (root T);
      Sibling ← field (child (opp d)) (Some p);
      Far ← field (child (opp d)) Sibling;
      mret (Sibling, Far, NewRoot)) Q E s.
Proof.
  intros T T' Hh HQ. apply wp_bind.
  apply (wp_recolor s0 _ (mkFrame d Black y v b :: mkFrame (opp d) cp p pu t :: z) d Red Black a1 w wv a2).
  { cbn [plug]. unfold fill. cbn. by rewrite node_opp. }
  intros s1 Hh1. apply wp_bind.
  apply (wp_recolor s0 _ (mkFrame (opp d) cp p pu t :: z) d Black Red (node d Black a1 w wv a2) y v b); [done|].
  intros s2 Hh2. apply wp_bind.
  set (z' := mkFrame (opp d) cp p pu t :: z) in *.
  replace (root T) with (root (plug z' (node (opp d) Red b y v (node (opp d) Black a2 w wv a1))))
    by (unfold T, z'; cbn [plug]; unfold fill; cbn; rewrite !node_opp; destruct z;
        [cbn; by rewrite !root_node|by apply root_plug]).
  apply (wp_rotate s0 s2 z' (opp d) Red b y v Black a2 w wv a1); [by rewrite !node_opp|].
  unfold z'. cbn [plug]. unfold fill. cbn. rewrite !node_opp. intros s3 Hh3.
  pose proof (holds_rep _ _ _ Hh3) as Hr. apply rep_plug in Hr as [_ Hr].
  apply rep_node in Hr as (Hp & _ & Hr). apply rep_node in Hr as (Hw & _).
  apply wp_bind. eapply wp_field; [done|]. replace (child (opp d) _) with (Some w) by by destruct d.
  apply wp_bind. eapply wp_field; [done|]. replace (child (opp d) _) with (Some y) by by destruct d.
  apply wp_ret. by apply HQ.
Qed.

(** Both nephews are black: the deficiency moves up. *)
Lemma Delete_both_black s0 s d z cp t p pu a y v b n k :
  (cp = Black → (length z < k)%nat) →
  let T := plug z (node d cp t p pu (node d Black a y v b)) in
  Holds s0 s T → rb Black n t → rb Black n a → rb Black n b →
  rb_ctx Black (S n) (mkFrame d cp p pu (node d Black a y v b) :: z) →
  wp (store (set_Color Red) (Some y);;
      New ← field Parent (Some p);
      mret (Some p, New, root T))
    (λ r s', progress s0 s' k (entries T) r) (λ _ _, False) s.
Proof.
  intros Hk T Hh Ht Ha Hb Hz. apply wp_bind.
  apply (wp_recolor s0 _ (mkFrame (opp d) cp p pu t :: z) d Black Red a y v b).
  { cbn [plug]. unfold fill. cbn. by rewrite node_opp. }
  cbn [plug]. unfold fill. cbn. rewrite node_opp. intros s1 Hh1.
  pose proof (holds_rep _ _ _ Hh1) as Hr. apply rep_plug in Hr as [_ Hr]. apply rep_node in Hr as (Hp & _).
  apply wp_bind. eapply wp_field; [done|]. replace (Parent _) with (parent NULL z) by by destruct d.
  apply wp_ret. assert (rb Red n (node d Red a y v b)) as Hs by by apply rb_red.
  set (t' := node d cp t p pu (node d Red a y v b)) in *.
  assert (root T = root (plug z t')) as Hroot
    by (unfold T, t'; destruct z; [cbn; by rewrite !root_node|by apply root_plug]).
  assert (root t' = Some p) as Hp' by apply root_node.
  exists z, t'. split; [done|]. split; [unfold T, t'; same_entries d|].
  rewrite Hroot, Hp'. cbn in Hz. destruct cp.
  - destruct Hz as (_ & Hne & _ & Hz). right. split; [|split; [right; apply color_node|done]].
    exists (S n). split; [unfold t'; rewrite blacken_node; by eapply rb_black|by apply rb_ctx_weaken].
  - destruct Hz as [_ Hz]. left. split; [|split; [by apply Hk|done]]. exists (S n). split; [by eapply rb_black|done].
Qed.

Lemma Delete_black_sibling_spec s0 s d z cp t p pu sib n k :
  (cp = Black → (length z < k)%nat) →
  let T := plug z (node d cp t p pu sib) in
  Holds s0 s T → rb Black n t → rb Black (S n) sib → rb_ctx Black (S n) (mkFrame d cp p pu sib :: z) →
  wp (Delete_black_sibling d (root sib) (Some p) (root T))
    (λ r s', progress s0 s' k (entries T) r) (λ _ _, False) s.
Proof.
  intros Hk T Hh Ht Hsib Hz. destruct (node_cases d sib (rb_black_nonempty _ _ _ Hsib)) as (c & a & y & v & b & ->).
  pose proof (rb_inv _ _ _ _ _ _ _ _ Hsib) as [<- (ca & cb & m & [= <-] & Ha & Hb)]. rewrite root_node.
  pose proof (holds_rep _ _ _ Hh) as Hr. apply rep_plug in Hr as [_ Hr]. apply rep_node in Hr as (_ & _ & Hr).
  apply rep_node in Hr as (Hy & Hra & Hrb).
  apply wp_bind. eapply wp_field; [done|]. apply wp_bind, wp_ASSERT; [by destruct d|].
  apply wp_bind. eapply wp_field; [done|]. replace (child d _) with (root a) by by destruct d.
  apply wp_bind. eapply wp_field; [done|]. replace (child (opp d) _) with (root b) by by destruct d.
  apply wp_bind. eapply wp_is_black; [done|]. rewrite (rb_color _ _ _ Ha).
  apply wp_bind, (wp_mono _ (λ v s', v = (color_eq ca Black && color_eq cb Black) ∧ s' = s) _ (λ _ _, False));
    [|intros both s' [-> ->]|done].
  { destruct ca; [by apply wp_ret|]. eapply wp_is_black; [done|]. by rewrite (rb_color _ _ _ Hb). }
  apply wp_if; intros Hboth.
  { destruct ca, cb; try done. by eapply Delete_both_black. }
  apply wp_bind. eapply wp_is_black; [done|]. rewrite (rb_color _ _ _ Hb). apply wp_bind. destruct cb.
  - destruct (node_cases d b (rb_red_nonempty _ _ Hb)) as (c' & f1 & w & wv & f2 & ->). rewrite root_node.
    apply wp_ret. eapply Delete_far_red; try done. by apply rb_inv in Hb as [<- _].
  - destruct ca; [|done]. destruct (node_cases d a (rb_red_nonempty _ _ Ha)) as (c' & a1 & w & wv & a2 & ->).
    pose proof (rb_inv _ _ _ _ _ _ _ _ Ha) as [<- [Ha1 Ha2]]. rewrite root_node.
    apply Delete_near_red with s0; [done|]. intros s1 Hh1. cbn beta iota.
    assert (entries T = entries (plug z (node d cp t p pu (node d Black a1 w wv (node d Red a2 y v b))))) as ->
      by (unfold T; same_entries d).
    eapply Delete_far_red; [done|done|done|done|by apply rb_red|].
    cbn in Hz |- *. assert (rb Black (S n) (node d Black a1 w wv (node d Red a2 y v b))).
    { eapply rb_black; [done|]. by apply rb_red. }
    destruct cp; [naive_solver|]. destruct Hz as [_ Hz]. split; [by eexists|done].
Qed.

(** One iteration. *)
Lemma Delete_branch_spec s0 s f z t n :
  Holds s0 s (plug (f :: z) t) → deficient (f :: z) t n →
  wp (Delete_branch (f_side f) (root t) (Some (f_loc f)) (root (plug (f :: z) t)))
    (λ r s', progress s0 s' (S (length z)) (entries (plug (f :: z) t)) r) (λ _ _, False) s.
Proof.
  intros Hh [Ht Hz]. destruct f as [d cp p pu sib]. cbn [f_side f_loc plug] in *. unfold fill in *. cbn [f_side f_loc f_color f_user f_other] in *.
  pose proof (holds_rep _ _ _ Hh) as Hr. apply rep_plug in Hr as [_ Hr]. apply rep_node in Hr as (Hp & _ & Hr).
  assert (∃ cs, rb cs (S n) sib ∧ (cs = Red → cp = Black)) as (cs & Hsib & Hcs).
  { cbn in Hz. destruct cp; [exists Black|]; naive_solver. }
  pose proof (rb_black_nonempty _ _ _ Hsib) as Hne.
  apply wp_bind. eapply wp_field; [done|]. replace (child (opp d) _) with (root sib) by by destruct d.
  apply wp_bind, wp_ASSERT; [by destruct sib|].
  destruct (node_cases d sib Hne) as (c & b & y & v & e & ->). rewrite root_node.
  pose proof (rb_inv _ _ _ _ _ _ _ _ Hsib) as [<- Hbe]. apply rep_node in Hr as (Hy & _).
  apply wp_bind. eapply wp_field; [done|]. replace (Color _) with cs by by destruct d.
  apply wp_bind. destruct cs.
  - rewrite (Hcs eq_refl) in *. destruct Hbe as [Hb He]. destruct Hz as [_ Hz].
    apply wp_bind, (wp_recolor s0 _ (mkFrame (opp d) Black p pu t :: z) d Red Black b y v e).
    { cbn [plug]. unfold fill. cbn. by rewrite node_opp. }
    cbn [plug]. unfold fill. cbn. rewrite node_opp. intros s1 Hh1.
    apply wp_bind, (wp_recolor s0 _ z d Black Red t p pu (node d Black b y v e)); [done|].
    intros s2 Hh2. apply wp_bind.
    replace (root (plug z (node d Black t p pu (node d Red b y v e))))
      with (root (plug z (node d Red t p pu (node d Black b y v e))))
      by (destruct z; [cbn; by rewrite !root_node|by apply root_plug]).
    apply wp_rotate with s0; [done|]. intros s3 Hh3.
    pose proof (holds_rep _ _ _ Hh3) as Hr. apply rep_plug in Hr as [_ Hr].
    apply rep_node in Hr as (_ & Hr & _). apply rep_node in Hr as (Hp3 & _).
    apply wp_bind. eapply wp_field; [done|]. replace (child (opp d) _) with (root b) by by destruct d.
    apply wp_bind, wp_ASSERT; [by destruct b; [apply rb_E_inv in Hb as [? ?]|]|]. apply wp_ret.
    replace (entries _) with (entries (plug (mkFrame d Black y v e :: z) (node d Red t p pu b))) by same_entries d.
    eapply (Delete_black_sibling_spec _ _ _ (mkFrame d Black y v e :: z)); [done|exact Hh3|done|done|].
    cbn. split; [done|]. split; [done|]. split; [done|]. split; [by exists Black|done].
  - apply wp_ret. rewrite <- (root_node d Black b y v e). eapply Delete_black_sibling_spec; [|done..]. intros; lia.
Qed.

(** The loop ends with a tree that is in order once Child is coloured black. *)
Lemma Delete_fixup_spec s0 fuel : ∀ s k l Child Parent_ NewRoot,
  (k <= fuel)%nat → (0 < fuel)%nat → progress s0 s k l (Child, Parent_, NewRoot) →
  wp (Delete_fixup fuel Child Parent_ NewRoot)
    (λ r s', ∃ z t, Holds s0 s' (plug z t) ∧ entries (plug z t) = l ∧ settled z t ∧
       (t = E → z = []) ∧ r = (root t, root (plug z t)))
    (λ _ _, False) s.
Proof.
  induction fuel as [|fuel IH]; intros s k l Child Parent_ NewRoot Hk Hpos (z & t & Hh & Hl & Hcase); [lia|].
  pose proof (holds_rep _ _ _ Hh) as Hr. pose proof Hr as Hr'. apply rep_plug in Hr' as [Hz Ht].
  cbn [Delete_fixup]. destruct Hcase as [((n & Hdef) & Hlen & [= -> -> ->])|(Hset & Hexit & Heq1 & Heq2)].
  - apply wp_if; intros Heq.
    + assert (z = []) as -> by (destruct z; [done|]; apply bool_decide_ptr in Heq;
        apply root_plug_ne in Heq; [done|done|apply Hh]).
      apply wp_ret. exists [], t. split_and!; try done. apply settled_root. exists n. apply Hdef.
    + destruct z as [|f z]; [by rewrite (proj2 (bool_decide_ptr _ _)) in Heq|].
      apply wp_bind. eapply wp_is_black; [done|]. destruct Hdef as [Hrb Hctx]. rewrite (rb_color _ _ _ Hrb).
      destruct Hz as (Hf & _). cbn [parent]. apply wp_bind. eapply wp_field; [done|].
      rewrite hole_left.
      2:{ pose proof (holds_distinct _ _ _ Hh) as Hd. cbn [plug] in Hd. apply NoDup_locs_plug in Hd as [Hd _].
          by apply NoDup_locs_node in Hd as (_ & _ & _ & _ & Hd). }
      2:{ right. cbn in Hctx. destruct (f_color f); [destruct Hctx as (_ & _ & Ho & _)|destruct Hctx as [[co Ho] _]];
          by eapply rb_black_nonempty. }
      apply wp_bind.
      replace (if match f_side f with L => true | R => false end then _ else _)
        with (Delete_branch (f_side f) (root t) (Some (f_loc f)) (root (plug (f :: z) t)))
        by (rewrite Delete_branch_eq; by destruct (f_side f)).
      eapply wp_mono; [by eapply Delete_branch_spec| |done].
      intros [[C P] N] s' Hp. rewrite Hl in Hp. cbn in Hlen. apply (IH s' (S (length z))); [lia|lia|done].
  - cbn in Heq1, Heq2. subst. apply wp_if; intros Heq.
    + assert (z = []) as -> by (destruct z; [done|]; apply bool_decide_ptr in Heq;
        apply root_plug_ne in Heq; [done|done|apply Hh]).
      apply wp_ret. by exists [], t.
    + destruct Hexit as [->|Hc]; [by rewrite (proj2 (bool_decide_ptr _ _)) in Heq|].
      apply wp_bind. eapply wp_is_black; [done|]. rewrite Hc. apply wp_ret. exists z, t. split_and!; try done.
      by intros ->.
Qed.
End DeleteProofs.

(** ** Unlinking *)

Section Unlink.
Context {U K : Type} `{!Platform}.
Implicit Types (s : pool U K) (t l r b : tree U) (z : list (frame U)).

(** The node at [x] is not linked any more: the memory holds [t] without it. *)
Record Unlinked s s' (x : loc) t : Prop := {
  un_distinct : NoDup (locs t);
  un_out : x ∉ locs t;
  un_rep : rep (Nodes s') NULL t;
  un_node : is_Some (Nodes s' !! x);
  un_else y : y ∉ locs t → y ≠ x → Nodes s' !! y = Nodes s !! y;
  un_trees : Trees s' = Trees s;
}.

Lemma Unlinked_free s s' x t :
  Unlinked s s' x t →
  Holds (with_Nodes (delete x (Nodes s)) s) (with_Nodes (delete x (Nodes s')) s') t.
Proof.
  intros [Hd Hx Hr _ He Ht]. split; [done| | |done].
  - eapply rep_frame; [|done]. intros y Hy. cbn. apply lookup_delete_ne. congruence.
  - intros y Hy. cbn. destruct (decide (y = x)) as [->|Hne]; [by rewrite !lookup_delete_eq|].
    rewrite !lookup_delete_ne by congruence. by apply He.
Qed.

(** A node whose other child is a leaf. *)
Lemma Delete_unlink_one_spec s z d c x u t Q (E' : RETURN_STATUS → pool U K → Prop) :
  let T := plug z (node d c t x u E) in
  NoDup (locs T) → rep (Nodes s) NULL T →
  (∀ s', Unlinked s s' x (plug z t) → Q (mkUnlinked (root (plug z t)) (root t) (parent NULL z) c) s') →
  wp (c' ← field Color (Some x);
      SetParentIfNotNull (parent NULL z) (root t);;
      NewRoot ← ReplaceChild (parent NULL z) (Some x) (root t) (root T);
      mret (mkUnlinked NewRoot (root t) (parent NULL z) c')) Q E' s.
Proof.
  intros T Hd Hr HQ. pose proof Hd as HdT. unfold T in HdT. rewrite NoDup_locs_plug, NoDup_locs_node in HdT.
  setoid_rewrite elem_locs_node in HdT. destruct HdT as ((Hxt & _ & Hdt & _) & Hdz & Htz).
  apply rep_plug in Hr as [Hz Hr]. apply rep_node in Hr as (Hx & Ht & _). rewrite root_node in Hz.
  apply wp_bind. eapply wp_field; [done|]. replace (Color _) with c by by destruct d.
  apply wp_bind. eapply wp_SetParent; [done|]. apply wp_bind.
  assert (∀ w, w ∈ ctx_locs z → alter_ptr (set_Parent (parent NULL z)) (root t) (Nodes s) !! w = Nodes s !! w) as Hout.
  { intros w Hw. by heap. }
  apply wp_ReplaceChild; [by eapply rep_ctx_frame|intros Hxz; eapply Htz; [|done]; by left|].
  apply wp_ret. unfold T. rewrite (root_plug_cons z (node d c t x u E) t). apply HQ. split.
  - by apply NoDup_locs_plug; eauto 6.
  - rewrite elem_locs_plug. intros [Hxt'|Hxz]; [done|]. eapply Htz; [|done]. by left.
  - apply rep_plug. split.
    + eapply rep_set_hole; [done|]. by eapply rep_ctx_frame.
    + eapply rep_frame; [|by eapply rep_set_Parent]. intros w Hw. cbn [Nodes with_Nodes].
      by rewrite set_hole_ne by loc_neq.
  - assert (x ∉ ctx_locs z) by (intros Hxz; eapply Htz; [|done]; by left). heap. by rewrite Hx.
  - intros w Hw Hwx. rewrite elem_locs_plug in Hw. assert (w ∉ locs t ∧ w ∉ ctx_locs z) as [? ?] by tauto. by heap.
  - done.
Qed.

(** The successor, at [y], takes the place of the node at [x]. *)
Lemma relink s1 z c l y v r x nx py ly cy NewRoot Child Parent_ Q (E' : RETURN_STATUS → pool U K → Prop) :
  let T := plug z (node L c l y v r) in
  NoDup (locs T) → x ∉ locs T → l ≠ E → rep_ctx (Nodes s1) NULL (Some x) z →
  rep (Nodes s1) (Some x) l → rep (Nodes s1) (Some y) r →
  Nodes s1 !! y = Some (mkNode v py ly (root r) cy) → Nodes s1 !! x = Some nx → Color nx = c →
  (∀ s', Unlinked s1 s' x T →
     Q (mkUnlinked (match z with [] => Some y | _ => NewRoot end) Child Parent_ cy) s') →
  wp (store (set_Left (root l)) (Some y);;
      store (set_Parent (Some y)) (root l);;
      ColorOfUnlinked ← field Color (Some y);
      c ← field Color (Some x);
      store (set_Color c) (Some y);;
      store (set_Parent (parent NULL z)) (Some y);;
      NewRoot ← ReplaceChild (parent NULL z) (Some x) (Some y) NewRoot;
      mret (mkUnlinked NewRoot Child Parent_ ColorOfUnlinked)) Q E' s1.
Proof.
  intros T Hd Hx Hne Hz Hl Hr Hy Hnx Hc HQ. pose proof Hd as HdT. unfold T in HdT, Hx.
  rewrite NoDup_locs_plug, NoDup_locs_node in HdT. setoid_rewrite elem_locs_node in HdT.
  rewrite elem_locs_plug, elem_locs_node in Hx.
  destruct HdT as ((Hyl & Hyr & Hdl & Hdr & Hlr) & Hdz & Htz).
  assert (x ≠ y ∧ x ∉ locs l ∧ x ∉ locs r ∧ x ∉ ctx_locs z) as (Hxy & Hxl & Hxr & Hxz) by tauto.
  assert (y ∉ ctx_locs z) as Hyz by (intros Hyz; eapply Htz; [|done]; by left).
  apply wp_bind. eapply wp_store; [done|]. apply wp_bind.
  destruct (root l) as [xl|] eqn:Hxl'; [|by destruct l].
  assert (xl ∈ locs l) as Hxll by by apply root_in.
  apply wp_store_some; [heap; by eapply (rep_in _ _ l)|].
  apply wp_bind. eapply wp_field; [heap; by rewrite Hy|]. cbn [Color set_Left].
  apply wp_bind. eapply wp_field; [by heap|]. rewrite Hc.
  apply wp_bind, wp_store_some; [heap; by rewrite Hy|]. apply wp_bind, wp_store_some; [heap; by rewrite Hy|].
  apply wp_bind, wp_ReplaceChild; [eapply rep_ctx_frame; [|done]; intros w Hw; by heap|done|].
  apply wp_ret. apply HQ. split; [done|by unfold T; rewrite elem_locs_plug, elem_locs_node| | | |done].
  - unfold T. rewrite rep_plug, root_node. split; [|split; [|split]].
    + eapply rep_set_hole; [done|]. eapply rep_ctx_frame; [|done]. intros w Hw. by heap.
    + heap. rewrite Hy. cbn. by rewrite Hxl'.
    + eapply rep_frame; [|by eapply (rep_set_Parent (Nodes s1))]. intros w Hw. rewrite Hxl'. cbn [alter_ptr]. heap.
      destruct (decide (xl = w)) as [->|Hne']; by heap.
    + eapply rep_frame; [|done]. intros w Hw. by heap.
  - heap. by rewrite Hnx.
  - intros w Hw Hwx. unfold T in Hw. rewrite elem_locs_plug, elem_locs_node in Hw.
    assert (w ≠ y ∧ w ∉ locs l ∧ w ∉ ctx_locs z) as (? & ? & ?) by tauto. by heap.
Qed.

(** The minimum of a tree, down the left edge. *)
Lemma leftmost t : t ≠ E →
  ∃ z c y v b, t = plug z (node R c b y v E) ∧ (∀ f z', z = f :: z' → f_side f = L) ∧
    before z = [] ∧ head (locs t) = Some y.
Proof.
  induction t as [|c l IHl x u r _]; [done|]. intros _. destruct l as [|cl ll xl ul rl].
  - exists [], c, x, u, r. split_and!; done.
  - destruct IHl as (z & c' & y & v & b & Hl & Hz & Hbz & Hy); [done|]. rewrite Hl in Hy |- *.
    exists (z ++ [mkFrame L c x u r]), c', y, v, b. split; [by rewrite plug_app|]. split_and!.
    + intros f z' Hf. destruct z as [|g z]; cbn in Hf; [by injection Hf as <- _|].
      injection Hf as <- _. by eapply Hz.
    + clear -Hbz. induction z as [|g z IH]; [done|]. cbn in *. apply app_nil in Hbz as [Hbz ->]. by rewrite IH.
    + unfold locs in *. cbn. rewrite fmap_app. by destruct ((entries (plug z _)).*1).
Qed.

(** The successor below the left edge of the right subtree is taken out of it. *)
Lemma unlink_below s z x xr zr f y cy v b Q (E' : RETURN_STATUS → pool U K → Prop) :
  zr = f :: z → f_side f = L → root (plug zr b) = Some xr →
  NoDup (locs (plug zr (node R cy b y v E))) → rep (Nodes s) (Some x) (plug zr (node R cy b y v E)) →
  (∀ s', rep (Nodes s') (Some y) (plug zr b) →
     (∃ py ly, Nodes s' !! y = Some (mkNode v py ly (Some xr) cy)) →
     (∀ w, w ∉ locs (plug zr (node R cy b y v E)) → Nodes s' !! w = Nodes s !! w) → Trees s' = Trees s →
     Q (Some y, parent (Some y) zr, root b) s') →
  wp (Parent_ ← field Parent (Some y);
      Child ← field Right (Some y);
      store (set_Left Child) Parent_;;
      SetParentIfNotNull Parent_ Child;;
      store (set_Right (Some xr)) (Some y);;
      store (set_Parent (Some y)) (Some xr);;
      mret (Some y, Parent_, Child)) Q E' s.
Proof.
  intros Hzr Hside Hxr Hd Hr HQ. rewrite NoDup_locs_plug, NoDup_locs_node in Hd.
  setoid_rewrite elem_locs_node in Hd. destruct Hd as ((Hyb & _ & Hdb & _) & Hdz & Htz).
  assert (y ∉ ctx_locs zr) as Hyz by (intros Hyz; eapply Htz; [|done]; by left).
  apply rep_plug in Hr as [Hz Hr]. rewrite root_node in Hz. apply rep_node in Hr as (Hy & Hb & _).
  apply wp_bind. eapply wp_field; [done|]. apply wp_bind. eapply wp_field; [done|]. cbn [Parent Right frame_node f_side].
  set (h1 := set_hole (root b) zr (Nodes s)). set (h2 := alter_ptr (set_Parent (parent (Some x) zr)) (root b) h1).
  assert (rep h2 (Some x) (plug zr b)) as Hr2.
  { apply rep_plug. split.
    - eapply rep_ctx_frame; [|by eapply rep_set_hole]. intros w Hw. unfold h2. by heap.
    - apply (rep_set_Parent _ (Some y)); [done|]. eapply rep_frame; [|done].
      intros w Hw. unfold h1. by heap. }
  assert (h2 !! y = Nodes s !! y) as Hy2 by (unfold h2, h1; by heap).
  assert (∀ w, w ∈ locs (plug zr b) → w ≠ y) as Hwy.
  { intros w [Hw|Hw]%elem_locs_plug ->; done. }
  assert (is_Some (Nodes s !! f_loc f)) as Hf by (rewrite Hzr in Hz; destruct Hz as (Hf & _); by eexists).
  assert (parent (Some x) zr = Some (f_loc f) ∧ set_hole (root b) zr (Nodes s) =
    alter (set_Left (root b)) (f_loc f) (Nodes s)) as [Hpar Hhole] by (rewrite Hzr; cbn; by rewrite Hside).
  apply wp_bind. rewrite Hpar. apply wp_store_some; [done|]. rewrite <- Hhole. fold h1. rewrite <- Hpar.
  apply wp_bind, (wp_SetParent (Some y)).
  { eapply rep_frame; [|done]. intros w Hw. unfold h1. by heap. }
  cbn [Nodes with_Nodes]. fold h2. apply wp_bind, wp_store_some; [cbn; by rewrite Hy2, Hy|].
  assert (xr ≠ y) as Hxry by (apply Hwy; by apply root_in).
  apply wp_bind, wp_store_some.
  { heap. eapply rep_in; [exact Hr2|]. by apply root_in. }
  apply wp_ret. replace (parent (Some x) zr) with (parent (Some y) zr) by by rewrite Hzr.
  apply HQ; [| |intros w Hw|done].
  - eapply rep_frame; [|eapply (rep_set_Parent h2 (Some x)); [|done]].
    + intros w Hw. rewrite Hxr. cbn [alter_ptr Nodes with_Nodes]. pose proof (Hwy w Hw).
      destruct (decide (xr = w)) as [->|Hne]; by heap.
    + apply NoDup_locs_plug. eauto 6.
  - heap. rewrite Hy2, Hy. cbn. eauto.
  - rewrite elem_locs_plug, elem_locs_node in Hw.
    assert (w ≠ y ∧ w ∉ locs b ∧ w ∉ ctx_locs zr) as (Hw1 & Hw2 & Hw3) by tauto.
    assert (w ≠ xr) by (intros ->; apply root_in, elem_locs_plug in Hxr; tauto).
    unfold h2, h1. by heap.
Qed.

Lemma NoDup_drop_middle {A} (k1 k2 : list A) x : NoDup (k1 ++ x :: k2) → NoDup (k1 ++ k2) ∧ x ∉ k1 ++ k2.
Proof. rewrite !NoDup_app, NoDup_cons, elem_of_app. set_solver. Qed.

(** The entries without the one at [x]. *)
Lemma entries_relinked z c l x u y v zr cy b :
  before zr = [] →
  entries (plug z (node L c l x u (plug zr (node R cy b y v E)))) =
    (before z ++ entries l) ++ (x, u) :: entries (plug zr (node R cy b y v E)) ++ after z ∧
  entries (plug z (node L c l y v (plug zr b))) =
    (before z ++ entries l) ++ entries (plug zr (node R cy b y v E)) ++ after z.
Proof.
  intros Hbz. rewrite !entries_plug. cbn. rewrite !entries_plug, Hbz. cbn.
  split; repeat (rewrite <- app_assoc; cbn); done.
Qed.

Lemma relinked_distinct z c l x u y v zr cy b :
  before zr = [] → NoDup (locs (plug z (node L c l x u (plug zr (node R cy b y v E))))) →
  NoDup (locs (plug z (node L c l y v (plug zr b)))) ∧ x ∉ locs (plug z (node L c l y v (plug zr b))).
Proof.
  intros Hbz Hd. destruct (entries_relinked z c l x u y v zr cy b Hbz) as [He He'].
  unfold locs in *. rewrite He in Hd. rewrite He'. rewrite fmap_app in *. by apply NoDup_drop_middle in Hd.
Qed.

(** What is known of the result, for the successor at [y]. *)
Definition relinked s z c l x r (res : unlinked) s' : Prop :=
  ∃ zr cy y v b, r = plug zr (node R cy b y v E) ∧ before zr = [] ∧
    Unlinked s s' x (plug z (node L c l y v (plug zr b))) ∧
    res = mkUnlinked (root (plug z (node L c l y v (plug zr b)))) (root b) (parent (Some y) zr) cy.

(** The last steps, after the successor was taken out. *)
Lemma relink_successor s s1 z c l x u zr cy y v b nx :
  let r := plug zr (node R cy b y v E) in
  let T := plug z (node L c l x u r) in
  before zr = [] → l ≠ E → NoDup (locs T) → rep (Nodes s) NULL T → Nodes s !! x = Some nx → Color nx = c →
  rep (Nodes s1) (Some y) (plug zr b) → (∃ py ly, Nodes s1 !! y = Some (mkNode v py ly (root (plug zr b)) cy)) →
  (∀ w, w ∉ locs r → Nodes s1 !! w = Nodes s !! w) → Trees s1 = Trees s →
  wp (store (set_Left (root l)) (Some y);;
      store (set_Parent (Some y)) (root l);;
      ColorOfUnlinked ← field Color (Some y);
      c ← field Color (Some x);
      store (set_Color c) (Some y);;
      store (set_Parent (parent NULL z)) (Some y);;
      NewRoot ← ReplaceChild (parent NULL z) (Some x) (Some y) (root T);
      mret (mkUnlinked NewRoot (root b) (parent (Some y) zr) ColorOfUnlinked))
    (relinked s z c l x r) (λ _ _, False) s1.
Proof.
  intros r T Hbz Hne Hd Hr Hnx Hc Hr' (py & ly & Hy) Hout Htr.
  destruct (relinked_distinct _ _ _ _ _ _ _ _ _ _ Hbz Hd) as [Hd' Hx'].
  unfold T in Hd, Hr. rewrite NoDup_locs_plug, NoDup_locs_node in Hd. setoid_rewrite elem_locs_node in Hd.
  destruct Hd as ((Hxl & Hxr & _ & _ & Hlr) & _ & Htz).
  apply rep_plug in Hr as [Hz Hr]. apply rep_node in Hr as (_ & Hl & _). rewrite root_node in Hz. fold r in Hxr, Hlr, Htz.
  eapply (relink s1 z c l y v (plug zr b) x); [done|done|done| | |done|done|by rewrite Hout|done|].
  - eapply rep_ctx_frame; [|done]. intros w Hw. apply Hout. eauto.
  - eapply rep_frame; [|done]. intros w Hw. apply Hout. eauto.
  - intros s' Hun. exists zr, cy, y, v, b. split; [done|]. split; [done|].
    assert (∀ w, w ∈ locs r ↔ w = y ∨ w ∈ locs (plug zr b)) as Hlocs.
    { intros w. unfold r. rewrite !elem_locs_plug, elem_locs_node. unfold locs at 2. cbn.
      rewrite elem_of_nil. tauto. }
    split.
    + destruct Hun as [H1 H2 H3 H4 H5 H6]. split; [done..| |by rewrite H6].
      intros w Hw Hwx. rewrite H5 by done. apply Hout. rewrite Hlocs.
      rewrite elem_locs_plug, elem_locs_node in Hw. tauto.
    + f_equal. unfold T. rewrite <- (root_plug_cons z (node L c l x u r) (node L c l y v (plug zr b))). by rewrite root_node.
Qed.

Lemma Delete_unlink_successor_spec s z c l x u r :
  let T := plug z (node L c l x u r) in
  l ≠ E → r ≠ E → NoDup (locs T) → rep (Nodes s) NULL T →
  wp (Delete_unlink_successor (Some x) (root l) (root r) (parent NULL z) (root T))
    (relinked s z c l x r) (λ _ _, False) s.
Proof.
  intros T Hl0 Hr0 Hd Hr. pose proof (rep_size _ _ _ Hr Hd) as Hsize. pose proof Hr as Hrep.
  apply rep_plug in Hr as [_ Hr]. apply rep_node in Hr as (Hx & _ & Hrr). pose proof Hrr as Hrn.
  destruct (node_cases R r Hr0) as (cr & rr & xr & ur & rl & ->). rewrite root_node.
  apply rep_node in Hrn as (Hxr & Hrrr & Hrl).
  apply wp_bind. eapply wp_field; [done|]. cbn [Left frame_node f_side f_other]. apply wp_bind.
  apply wp_if; intros Hnull.
  - destruct rl; [|done]. apply wp_bind. eapply wp_field; [done|]. apply wp_ret. cbn beta iota.
    eapply (relink_successor s s z c l x u [] cr xr ur rr); [done..|eexists _, _; exact Hxr|done|done].
  - apply is_null_root in Hnull. destruct (leftmost rl Hnull) as (zl & cy & y & v & b & Hrz & Hside & Hbz & Hmin).
    apply wp_bind, wp_fuel, wp_bind.
    eapply wp_mono; [apply (end_loop_spec L rl (S (size (Nodes s))) (Some xr) s); [|done|done]| |done].
    { pose proof (height_locs_plug z (node L c l x u (node R cr rr xr ur rl))) as Hh.
      rewrite !height_node in Hh. unfold T in Hsize. lia. }
    intros q s' [-> ->]. cbn [end_of]. rewrite Hmin.
    set (zr := zl ++ [mkFrame L cr xr ur rr]).
    assert (node R cr rr xr ur rl = plug zr (node R cy b y v E)) as Hreq.
    { unfold zr. rewrite plug_app, <- Hrz. done. }
    assert (before zr = []) as Hbzr.
    { unfold zr. clear -Hbz. induction zl as [|g zl IH]; [done|]. cbn in *. apply app_nil in Hbz as [Hbz ->].
      by rewrite IH. }
    assert (root (plug zr b) = Some xr) as Hxrb by (unfold zr; by rewrite plug_app).
    assert (∃ f zr', zr = f :: zr' ∧ f_side f = L) as (f & zr' & Hzr & Hf).
    { unfold zr. destruct zl as [|g zl]; cbn; [by eexists _, _|]. eexists _, _. split; [done|]. by eapply Hside. }
    unfold T in *. rewrite Hreq in *.
    eapply (unlink_below s zr' x xr zr f y cy v b); [done..| | |].
    + rewrite NoDup_locs_plug, NoDup_locs_node in Hd. apply Hd.
    + done.
    + intros s1 Hr1 Hy1 Hout1 Htr1. cbn beta iota. rewrite <- Hxrb in Hy1.
      eapply (relink_successor s s1); try done.
Qed.
End Unlink.

(** ** The operation *)

Section DeleteSpec.
Context {U K : Type} `{!Platform} {cmp : U → U → Z} {kcmp : K → U → Z} `{!Comparison cmp}.
Implicit Types (s : pool U K) (t : tree U) (z : list (frame U)).

Lemma rb_ctx_rename zr : ∀ c n d k x (u : U) o z y v,
  rb_ctx c n (zr ++ mkFrame d k x u o :: z) → rb_ctx c n (zr ++ mkFrame d k y v o :: z).
Proof.
  induction zr as [|f zr IH]; intros c n d k x u o z y v; [done|]. cbn.
  destruct (f_color f); [intros (? & Hne & ? & Hz)|intros (? & Hz)]; split_and!; try done; try by eapply IH.
  by destruct zr.
Qed.

(** The node was unlinked: its only child is in focus, and what is missing is known. *)
Definition unlinked_at s x (l : list (loc * U)) (v : unlinked) s' : Prop :=
  ∃ z t d y w n c, Unlinked s s' x (plug z t) ∧ entries (plug z t) = l ∧
    v = mkUnlinked (root (plug z t)) (root t) (parent NULL z) c ∧
    rb c n (node d c t y w E) ∧ rb_ctx c n z ∧ (z = [] → c = Black).

Lemma Delete_unlink_spec s z c l x u r :
  let T := plug z (node L c l x u r) in
  NoDup (locs T) → rep (Nodes s) NULL T → red_black T →
  wp (if is_null (root l) || is_null (root r)
      then Delete_unlink_one (Some x) (root l) (root r) (parent NULL z) (root T)
      else Delete_unlink_successor (Some x) (root l) (root r) (parent NULL z) (root T))
    (unlinked_at s x ((before z ++ entries l) ++ entries r ++ after z)) (λ _ _, False) s.
Proof.
  intros T Hd Hr Hrb. destruct (rb_unplug _ _ Hrb) as (ct & n & Ht & Hz & Hc).
  pose proof (rb_inv _ _ _ _ _ _ _ _ Ht) as [-> _].
  apply wp_if; intros Hnull.
  - assert (∃ d t, node L c l x u r = node d c t x u E ∧ entries t = entries l ++ entries r ∧
      (if negb (is_null (root l)) then root l else root r) = root t) as (d & t & Hn & He & Hchild).
    { destruct l as [|cl ll xl ul rl]; [by exists R, r|]. destruct r; [|done].
      exists L, (OrderedTree.T cl ll xl ul rl).
      split; [done|]. split; [by rewrite app_nil_r|done]. }
    unfold T in *. rewrite Hn in *. unfold Delete_unlink_one. rewrite Hchild.
    apply (Delete_unlink_one_spec s z d c x u t); [done..|]. intros s' Hun.
    exists z, t, d, x, u, n, c. split; [done|]. split; [rewrite entries_plug, He; by rewrite <- !app_assoc|].
    done.
  - apply orb_false_iff in Hnull as [Hl%is_null_root Hr'%is_null_root].
    eapply wp_mono; [by apply Delete_unlink_successor_spec| |done].
    intros v s' (zr & cy & y & w & b & -> & Hbz & Hun & ->).
    set (zc := zr ++ mkFrame R c y w l :: z).
    assert (plug z (node L c l y w (plug zr b)) = plug zc b) as Hplug by (unfold zc; by rewrite plug_app).
    destruct (entries_relinked z c l x u y w zr cy b Hbz) as [_ He]. rewrite Hplug in *.
    destruct (rb_unplug (zr ++ mkFrame R c x u l :: z) (node R cy b y w E)) as (cc & m & Hb & Hzc & _).
    { by rewrite plug_app. }
    pose proof (rb_inv _ _ _ _ _ _ _ _ Hb) as [-> _].
    exists zc, b, R, y, w, m, cy. split; [done|]. split; [done|]. split; [|split; [done|]].
    + f_equal. unfold zc. by destruct zr.
    + split; [by eapply rb_ctx_rename|]. unfold zc. by destruct zr.
Qed.

(** The state in which the repair starts. *)
Lemma unlinked_progress s0 s z t d y (w : U) n :
  Holds s0 s (plug z t) → rb Black n (node d Black t y w E) → rb_ctx Black n z →
  progress s0 s (S (length z)) (entries (plug z t)) (root t, parent NULL z, root (plug z t)).
Proof.
  intros Hh Hrb Hz. apply rb_inv in Hrb as [_ (ct & cb & m & -> & Ht & _)].
  exists z, t. split; [done|]. split; [done|]. destruct ct.
  - right. split; [|split; [right; by eapply rb_color|done]]. exists (S m). split; [by apply blacken_red|done].
  - left. split; [by exists m|]. split; [lia|done].
Qed.

Lemma unlinked_red z t d y (w : U) n c :
  rb c n (node d c t y w E) → rb_ctx c n z → c = Red → red_black (plug z t).
Proof.
  intros Hrb Hz ->. apply rb_inv in Hrb as [_ [Ht _]]. eapply rb_plug; [by apply rb_ctx_weaken|done|done].
Qed.

(** After the loop Child is coloured black, if there is one. *)
Lemma settle s0 s z t Q (E' : RETURN_STATUS → pool U K → Prop) :
  Holds s0 s (plug z t) → settled z t → (t = E → z = []) →
  (∀ s', Holds s0 s' (plug z (blacken t)) → red_black (plug z (blacken t)) →
     root (plug z (blacken t)) = root (plug z t) → Q tt s') →
  wp (if negb (is_null (root t)) then store (set_Color Black) (root t) else mret tt) Q E' s.
Proof.
  intros Hh (m & Hm & Hz) Hne HQ.
  assert (red_black (plug z (blacken t))) as Hrb by by eapply rb_plug.
  destruct t as [|c l x u r]; [apply wp_ret; by apply HQ|]. cbn [root is_null].
  change (negb (bool_decide _)) with true. cbv iota.
  apply (wp_recolor s0 s z L c Black l x u r); [done|].
  intros s' Hh'. apply HQ; [exact Hh'|exact Hrb|]. destruct z; [done|]. by apply root_plug.
Qed.

Lemma ordered_remove (l1 l2 : list (loc * U)) e : ordered cmp (l1 ++ e :: l2) → ordered cmp (l1 ++ l2).
Proof.
  intros (H12 & H1 & H2)%StronglySorted_app. apply StronglySorted_cons in H2 as [_ H2].
  apply StronglySorted_app. split; [|done]. intros a b Ha Hb. apply H12; [done|]. by apply elem_of_cons; right.
Qed.
End DeleteSpec.

Lemma Delete_contract {U K} `{!Platform} (cmp : U → U → Z) (kcmp : K → U → Z)
    (Hcmp : Comparison cmp) (PcdValidate : bool) (s : pool U K) (Tree : loc) (t : tree U)
    (l1 : list (loc * U)) (x : loc) (u : U) (l2 : list (loc * U))
    (Hc : Collection s Tree cmp kcmp t) (Hx : entries t = l1 ++ (x, u) :: l2) :
  ∃ s' t', OrderedCollectionDelete PcdValidate Tree (Some x) s = Ok u s' ∧
    Collection s' Tree cmp kcmp t' ∧ entries t' = l1 ++ l2 ∧ Nodes s' !! x = None ∧
    elsewhere s s' Tree (x :: locs t').
Proof.
  enough (wp (OrderedCollectionDelete PcdValidate Tree (Some x)) (λ v s', v = u ∧ ∃ t',
    Collection s' Tree cmp kcmp t' ∧ entries t' = l1 ++ l2 ∧ Nodes s' !! x = None ∧
    elsewhere s s' Tree (x :: locs t')) (λ _ _, False) s) as (v & s' & Hrun & -> & t' & Hpost)%wp_total by eauto.
  destruct Hc as [Ht Hd Hr Hrb Ho].
  destruct (locs_focus x u t) as (z & c & l & r & ->); [rewrite Hx; set_solver|].
  change (T c l x u r) with (node L c l x u r) in *.
  pose proof Hr as Hr0. apply rep_plug in Hr0 as [_ Hn]. apply rep_node in Hn as (Hn & _).
  assert (l1 ++ l2 = (before z ++ entries l) ++ entries r ++ after z) as Hl.
  { assert (entries (plug z (node L c l x u r)) = (before z ++ entries l) ++ (x, u) :: (entries r ++ after z)) as He
      by (rewrite entries_plug; cbn; by rewrite <- !app_assoc).
    destruct (split_unique l1 l2 (before z ++ entries l) (entries r ++ after z) (x, u)) as [-> ->]; [|congruence|done].
    rewrite <- Hx. by apply (NoDup_fmap_1 fst). }
  apply wp_bind. eapply wp_deref_tree; [done|]. cbn [Root].
  apply wp_bind. eapply wp_field; [done|]. apply wp_bind. eapply wp_field; [done|].
  apply wp_bind. eapply wp_field; [done|]. apply wp_bind. eapply wp_field; [done|].
  cbn [Left Right Parent UserStruct frame_node f_side f_other f_user].
  apply wp_bind. eapply wp_mono; [by apply Delete_unlink_spec| |done]. rewrite <- Hl.
  intros v s1 (zc & tc & d & y & w & n & cu & Hun & He & -> & Hrbu & Hzc & Hcu). cbn [ul_ColorOfUnlinked ul_Child ul_Parent ul_NewRoot].
  apply wp_bind, wp_fuel. pose proof (un_node _ _ _ _ Hun) as [nx Hnx].
  apply wp_bind. eapply wp_free; [done|]. pose proof (Unlinked_free _ _ _ _ Hun) as Hh.
  set (s0 := with_Nodes (delete x (Nodes s)) s) in *. set (s2 := with_Nodes (delete x (Nodes s1)) s1) in *.
  apply wp_bind.
  eapply (wp_mono _ (λ q s', ∃ t', Holds s0 s' t' ∧ red_black t' ∧ entries t' = l1 ++ l2 ∧ q = root t') _ (λ _ _, False)); [| |done].
  - apply wp_if; intros Hcol; [apply bool_decide_eq_true in Hcol as ->|].
    + apply wp_bind. eapply wp_mono; [eapply (Delete_fixup_spec s0 _ s2 (S (length zc)) (l1 ++ l2)); [|lia|]| |done].
      * pose proof (rep_size _ _ _ (un_rep _ _ _ _ Hun) (un_distinct _ _ _ _ Hun)).
        pose proof (length_ctx zc tc). lia.
      * rewrite <- He. by eapply unlinked_progress.
      * intros r' s3 (z' & t' & Hh' & He' & Hset & Hne & ->). apply wp_bind. eapply settle; [done..|].
        intros s4 Hh4 Hrb4 Hroot. apply wp_ret. exists (plug z' (blacken t')). split_and!; [done..| |by rewrite Hroot].
        rewrite <- He', !entries_plug. by destruct t'.
    + apply wp_ret. exists (plug zc tc). split_and!; [done| |done..].
      eapply unlinked_red; [done..|]. by destruct cu.
  - intros q s3 (t' & Hh3 & Hrb3 & He3 & ->). apply wp_bind.
    eapply (store_Root_collection s0); [done|done|rewrite He3|exact Ht|].
    { rewrite Hx in Ho. by eapply ordered_remove. }
    intros s4 Hc4 Hn4 Ht4. apply wp_bind. eapply wp_intro_ok; [by eapply Validate_if_spec|]. apply wp_ret.
    assert (x ∉ locs t') as Hxt'.
    { unfold locs. rewrite He3, <- He. apply Hun. }
    split; [done|]. exists t'. split_and!; [done|done| |split; [|done]].
    + rewrite Hn4, (holds_else _ _ _ Hh3) by done. apply lookup_delete_eq.
    + intros w' Hw'. apply not_elem_of_cons in Hw' as [Hwx Hw'].
      rewrite Hn4, (holds_else _ _ _ Hh3) by done. by apply lookup_delete_ne.
Qed.

(** C30. OrderedCollectionDelete is removal from a sorted list.  On a collection it never
    faults, fails no ASSERT and ends, with or without validation: it returns the user
    structure of the node, frees the node, and the memory holds a collection again, a
    red-black tree with the other entries in order and at their addresses; nothing
    outside of it changes. *)
Theorem ordered_delete_exact {U K} `{!Platform} (cmp : U → U → Z) (kcmp : K → U → Z)
    (Hcmp : Comparison cmp) (PcdValidate : bool) (s : pool U K) (Tree : loc) (t : tree U)
    (l1 : list (loc * U)) (x : loc) (u : U) (l2 : list (loc * U))
    (Hc : Collection s Tree cmp kcmp t) (Hx : entries t = l1 ++ (x, u) :: l2) :
  ∃ s' t', OrderedCollectionDelete PcdValidate Tree (Some x) s = Ok u s' ∧
    Collection s' Tree cmp kcmp t' ∧ entries t' = l1 ++ l2 ∧ Nodes s' !! x = None ∧
    elsewhere s s' Tree (x :: locs t').
Proof. exact (Delete_contract cmp kcmp Hcmp PcdValidate s Tree t l1 x u l2 Hc Hx). Qed.

Lemma ordered_delete_exact_witness : ∃ s' t',
  @OrderedCollectionDelete Z Z platform_x64 true 7%positive (Some 2%positive) sample_pool = Ok 10 s' ∧
  entries t' = [(1%positive, 20); (4%positive, 30); (3%positive, 40); (5%positive, 50)].
Proof.
  destruct (@ordered_delete_exact Z Z platform_x64 (λ a b, a - b) (λ k a, k - a) sample_comparison true sample_pool
    7%positive sample_tree [] 2%positive 10 [(1%positive, 20); (4%positive, 30); (3%positive, 40); (5%positive, 50)]
    sample_collection eq_refl) as (s' & t' & Hrun & _ & He & _).
  exists s', t'. exact (conj Hrun He).
Defined.
