(* ===== verification/OrderedLib.v ===== *)
(** The library class OrderedCollectionLib: what MdePkg/Include/Library/OrderedCollectionLib.h
    promises its clients, and the red-black tree as an instance of it. *)
From S2P Require Import Prelude Platform OrderedCollection OrderedTree OrderedWalk OrderedRotate OrderedInsert OrderedDelete.
#[local] Open Scope Z_scope.

(** The operations on some representation of collections, and their contracts in terms of
    the sorted list of entries. *)
Class OrderedCollectionLib (U K : Type) := {
  oc_state : Type;
  oc_Init : ptr → (U → U → Z) → (K → U → Z) → M oc_state ptr;
  oc_IsEmpty : loc → M oc_state bool;
  oc_Uninit : loc → M oc_state unit;
  oc_UserStruct : ptr → M oc_state U;
  oc_Find : loc → K → M oc_state ptr;
  oc_Min : loc → M oc_state ptr;
  oc_Next : ptr → M oc_state ptr;
  oc_Insert : ptr → loc → U → M oc_state insert_result;
  oc_Delete : loc → ptr → M oc_state U;
  (** The state holds a collection with these entries; addresses AllocatePool may return. *)
  oc_holds : oc_state → loc → (U → U → Z) → (K → U → Z) → list (loc * U) → Prop;
  oc_fresh_tree : oc_state → loc → Prop;
  oc_fresh_node : oc_state → loc → Prop;
  oc_sorted s Tree cmp kcmp l : oc_holds s Tree cmp kcmp l → ordered cmp l;
  oc_Init_ok s Tree cmp kcmp : Comparison cmp → oc_fresh_tree s Tree →
    ∃ s', oc_Init (Some Tree) cmp kcmp s = Ok (Some Tree) s' ∧ oc_holds s' Tree cmp kcmp [];
  oc_Init_null s cmp kcmp : oc_Init NULL cmp kcmp s = Ok NULL s;
  oc_IsEmpty_ok s Tree cmp kcmp l : oc_holds s Tree cmp kcmp l →
    oc_IsEmpty Tree s = Ok (match l with [] => true | _ => false end) s;
  oc_Uninit_ok s Tree cmp kcmp : oc_holds s Tree cmp kcmp [] → ∃ s', oc_Uninit Tree s = Ok tt s';
  oc_UserStruct_ok s Tree cmp kcmp l x u : oc_holds s Tree cmp kcmp l → (x, u) ∈ l →
    oc_UserStruct (Some x) s = Ok u s;
  oc_Find_ok s Tree cmp kcmp l k : oc_holds s Tree cmp kcmp l →
    ∃ q, oc_Find Tree k s = Ok q s ∧ (∀ x, q = Some x → ∃ u, (x, u) ∈ l ∧ kcmp k u = 0) ∧
      (searchable (kcmp k) l → q = find_entry (kcmp k) l);
  oc_Min_ok s Tree cmp kcmp l : oc_holds s Tree cmp kcmp l → oc_Min Tree s = Ok (fst <$> head l) s;
  oc_Next_ok s Tree cmp kcmp l1 x u l2 : oc_holds s Tree cmp kcmp (l1 ++ (x, u) :: l2) →
    oc_Next (Some x) s = Ok (fst <$> head l2) s;
  oc_Insert_ok s Tree cmp kcmp l Allocated u : Comparison cmp → oc_holds s Tree cmp kcmp l →
    (∀ x, Allocated = Some x → oc_fresh_node s x) →
    match find_entry (cmp u) l, Allocated with
    | Some y, _ => oc_Insert Allocated Tree u s = Ok (mkInsert (Some RETURN_ALREADY_STARTED) (Some y)) s
    | None, None => oc_Insert Allocated Tree u s = Ok (mkInsert (Some RETURN_OUT_OF_RESOURCES) NULL) s
    | None, Some x => ∃ s', oc_Insert Allocated Tree u s = Ok (mkInsert None (Some x)) s' ∧
        oc_holds s' Tree cmp kcmp (insert_entry cmp x u l)
    end;
  oc_Delete_ok s Tree cmp kcmp l1 x u l2 : Comparison cmp → oc_holds s Tree cmp kcmp (l1 ++ (x, u) :: l2) →
    ∃ s', oc_Delete Tree (Some x) s = Ok u s' ∧ oc_holds s' Tree cmp kcmp (l1 ++ l2);
}.

(** ** The red-black tree *)

Section RedBlackTreeLib.
Context {U K : Type} `{!Platform} (PcdValidateOrderedCollection : bool).
Implicit Types (s : pool U K).

Lemma Init_spec s Tree cmp kcmp :
  Comparison cmp →
  ∃ s', OrderedCollectionInit PcdValidateOrderedCollection (Some Tree) cmp kcmp s = Ok (Some Tree) s' ∧
    Collection s' Tree cmp kcmp E ∧ Nodes s' = Nodes s ∧ ∀ T, T ≠ Tree → Trees s' !! T = Trees s !! T.
Proof.
  intros Hcmp. set (s' := with_Trees (<[Tree := mkTree NULL cmp kcmp]> (Trees s)) s).
  assert (Collection s' Tree cmp kcmp E) as Hc.
  { split; [apply lookup_insert_eq|apply NoDup_nil_2|done|exists 0%nat; constructor|constructor]. }
  exists s'. split_and!; [|done|done|intros T HT; by apply lookup_insert_ne].
  apply wp_exact, wp_bind, wp_modify. fold s'. apply wp_bind.
  eapply wp_intro_ok; [by eapply Validate_if_spec|by apply wp_ret].
Qed.

Lemma IsEmpty_spec s Tree cmp kcmp t :
  Collection s Tree cmp kcmp t → OrderedCollectionIsEmpty Tree s = Ok (is_null (root t)) s.
Proof.
  intros Hc. apply wp_exact, wp_bind. eapply wp_deref_tree; [apply Hc|]. by apply wp_ret.
Qed.

Lemma Uninit_spec s Tree cmp kcmp :
  Collection s Tree cmp kcmp E →
  OrderedCollectionUninit Tree s = Ok tt (with_Trees (delete Tree (Trees s)) s).
Proof.
  intros Hc. apply wp_exact, wp_bind. eapply wp_intro_ok; [by eapply IsEmpty_spec|].
  apply wp_bind, wp_ASSERT; [done|]. apply wp_bind. eapply wp_deref_tree; [apply Hc|]. by apply wp_modify.
Qed.

(** The state holds a collection, with the tree abstracted away. *)
Definition rb_holds s Tree cmp kcmp (l : list (loc * U)) : Prop :=
  ∃ t, Collection s Tree cmp kcmp t ∧ entries t = l.

Lemma locs_entries (t : tree U) l1 x u l2 :
  entries t = l1 ++ (x, u) :: l2 → locs t = l1.*1 ++ x :: l2.*1.
Proof. intros He. unfold locs. by rewrite He, fmap_app. Qed.

#[refine] #[global] Instance RedBlackTreeLib : OrderedCollectionLib U K := {|
  oc_state := pool U K;
  oc_Init := OrderedCollectionInit PcdValidateOrderedCollection;
  oc_IsEmpty := OrderedCollectionIsEmpty;
  oc_Uninit := OrderedCollectionUninit;
  oc_UserStruct := OrderedCollectionUserStruct;
  oc_Find := OrderedCollectionFind;
  oc_Min := OrderedCollectionMin;
  oc_Next := OrderedCollectionNext;
  oc_Insert := OrderedCollectionInsert PcdValidateOrderedCollection;
  oc_Delete := OrderedCollectionDelete PcdValidateOrderedCollection;
  oc_holds := rb_holds;
  oc_fresh_tree s Tree := Trees s !! Tree = None;
  oc_fresh_node s x := Nodes s !! x = None;
|}.
Proof.
  - intros s Tree cmp kcmp l (t & Hc & <-). apply Hc.
  - intros s Tree cmp kcmp Hcmp _. destruct (Init_spec s Tree cmp kcmp Hcmp) as (s' & Hs & Hc & _).
    exists s'. split; [done|]. by exists E.
  - done.
  - intros s Tree cmp kcmp l (t & Hc & <-). rewrite (IsEmpty_spec _ _ _ _ _ Hc).
    destruct t as [|c lt x u rt]; [done|]. cbn. by destruct (entries lt).
  - intros s Tree cmp kcmp (t & Hc & He). eexists. eapply (Uninit_spec s Tree cmp kcmp).
    destruct t as [|c lt x u rt]; [done|]. cbn in He. by destruct (entries lt).
  - intros s Tree cmp kcmp l x u (t & Hc & <-) Hx.
    destruct (rep_user NULL t x u s (col_rep _ _ _ _ _ Hc) Hx) as (n & Hn & <-).
    apply wp_exact. by eapply wp_field.
  - intros s Tree cmp kcmp l k (t & Hc & <-).
    destruct (Find_safe _ _ _ k Hc) as (q & Hq & Hsafe). exists q. split; [done|]. split; [done|].
    intros Hk. rewrite (Find_spec _ _ _ _ Hc Hk) in Hq. by injection Hq as <-.
  - intros s Tree cmp kcmp l (t & Hc & <-). rewrite (Min_spec _ _ _ Hc). unfold locs. by destruct (entries t).
  - intros s Tree cmp kcmp l1 x u l2 (t & Hc & He).
    rewrite (OrderedCollectionNext_spec t l1.*1 x l2.*1); [by destruct l2|apply Hc|apply Hc|by eapply locs_entries].
  - intros s Tree cmp kcmp l Allocated u Hcmp (t & Hc & <-) Hfresh.
    pose proof (Insert_contract cmp kcmp Hcmp PcdValidateOrderedCollection s Tree t Allocated u Hc Hfresh) as Hins.
    cbn zeta in Hins. destruct (find_entry _ _); [done|]. destruct Allocated; [|done].
    destruct Hins as (s' & t' & Hrun & Hc' & He & _). exists s'. split; [done|]. by exists t'.
  - intros s Tree cmp kcmp l1 x u l2 Hcmp (t & Hc & He).
    destruct (Delete_contract cmp kcmp Hcmp PcdValidateOrderedCollection s Tree t l1 x u l2 Hc He)
      as (s' & t' & Hrun & Hc' & He' & _). exists s'. split; [done|]. by exists t'.
Defined.
End RedBlackTreeLib.

(** The life of a collection: OrderedCollectionInit returns NULL exactly when the
    allocation fails and otherwise an empty collection; OrderedCollectionUninit releases
    an empty collection, and fails its ASSERT on any other. *)
Theorem ordered_lifecycle {U K} `{!Platform} (cmp : U → U → Z) (kcmp : K → U → Z) (Hcmp : Comparison cmp)
    (PcdValidate : bool) (s : pool U K) :
  OrderedCollectionInit PcdValidate NULL cmp kcmp s = Ok NULL s ∧
  (∀ Tree, ∃ s', OrderedCollectionInit PcdValidate (Some Tree) cmp kcmp s = Ok (Some Tree) s' ∧
     rb_holds s' Tree cmp kcmp [] ∧ Nodes s' = Nodes s) ∧
  (∀ Tree l, rb_holds s Tree cmp kcmp l →
     match l with
     | [] => ∃ s', OrderedCollectionUninit Tree s = Ok tt s' ∧ Trees s' !! Tree = None ∧ Nodes s' = Nodes s
     | _ => DebugAssertEnabled = true → OrderedCollectionUninit Tree s = Fault AssertFailed
     end).
Proof.
  split; [done|]. split.
  - intros Tree. destruct (Init_spec PcdValidate s Tree cmp kcmp Hcmp) as (s' & Hs & Hc & Hn & _).
    exists s'. split; [done|]. split; [by exists E|done].
  - intros Tree l (t & Hc & <-). destruct t as [|c lt x u rt].
    + rewrite (Uninit_spec _ _ _ _ Hc). eexists. split; [done|]. split; [apply lookup_delete_eq|done].
    + cbn. assert (DebugAssertEnabled = true → OrderedCollectionUninit Tree s = Fault AssertFailed) as Hf.
      { intros Ha. unfold OrderedCollectionUninit, mbind, OcM_bind, M_bind. rewrite (IsEmpty_spec _ _ _ _ _ Hc).
        cbn. unfold ASSERT. by rewrite Ha. }
      by destruct (entries lt).
Qed.

Lemma ordered_lifecycle_witness :
  ∃ s', @OrderedCollectionInit Z Z platform_x64 true (Some 8%positive) (λ a b, a - b) (λ k a, k - a) sample_pool
    = Ok (Some 8%positive) s' ∧ rb_holds s' 8%positive (λ a b, a - b) (λ k a, k - a) [].
Proof.
  destruct (@ordered_lifecycle Z Z platform_x64 (λ a b, a - b) (λ k a, k - a) sample_comparison true sample_pool)
    as (_ & Hinit & _). destruct (Hinit 8%positive) as (s' & Hs & Hc & _). exists s'. exact (conj Hs Hc).
Defined.
