(* ===== verification/Ext4Disk.v ===== *)
(** The data of the ext4 driver (Ext4Pkg/Ext4Dxe/Ext4Disk.h, Ext4Dxe.h), the memory it works
    in, and its disk access (DiskUtil.c).

    On-disk structures are byte lists with the layouts of Ext4Disk.h.  The driver's memory is
    the pool of the ordered collection library, the extents cached in pool memory and the
    temporary buffers; AllocatePool is an argument that answers from the state, so that it may
    fail or succeed at any time.  EFI_DISK_IO_PROTOCOL.ReadDisk, which the firmware provides,
    is a function of time, offset and length: the disk may fail and may change. *)
From Stdlib Require Import String.
From stdpp Require Import gmap.
From S2P Require Import Prelude OrderedCollection OrderedLib Base Buffer Overflow Platform PeImage.
#[local] Open Scope string_scope.
#[local] Open Scope list_scope.
#[local] Open Scope Z_scope.

(** ** On-disk structures *)

Definition EXT4_SUPERBLOCK : layout :=
  [("s_inodes_count", 4); ("s_blocks_count", 4); ("s_r_blocks_count", 4); ("s_free_blocks_count", 4);
   ("s_free_inodes_count", 4); ("s_first_data_block", 4); ("s_log_block_size", 4); ("s_log_frag_size", 4);
   ("s_blocks_per_group", 4); ("s_frags_per_group", 4); ("s_inodes_per_group", 4); ("s_mtime", 4);
   ("s_wtime", 4); ("s_mnt_count", 2); ("s_max_mnt_count", 2); ("s_magic", 2); ("s_state", 2);
   ("s_errors", 2); ("s_minor_rev_level", 2); ("s_lastcheck", 4); ("s_check_interval", 4);
   ("s_creator_os", 4); ("s_rev_level", 4); ("s_def_resuid", 2); ("s_def_resgid", 2);
   ("s_first_ino", 4); ("s_inode_size", 2); ("s_block_group_nr", 2); ("s_feature_compat", 4);
   ("s_feature_incompat", 4); ("s_feature_ro_compat", 4); ("s_uuid", 16); ("s_volume_name", 16);
   ("s_last_mounted", 64); ("s_algo_bitmap", 4); ("s_prealloc_blocks", 1); ("s_prealloc_dir_blocks", 1);
   ("unused", 2); ("s_journal_uuid", 16); ("s_journal_inum", 4); ("s_journal_dev", 4);
   ("s_last_orphan", 4); ("s_hash_seed", 16); ("s_def_hash_version", 1); ("s_jnl_backup_type", 1);
   ("s_desc_size", 2); ("s_default_mount_options", 4); ("s_first_meta_bg", 4); ("s_mkfs_time", 4);
   ("s_jnl_blocks", 68); ("s_blocks_count_hi", 4); ("s_r_blocks_count_hi", 4);
   ("s_free_blocks_count_hi", 4); ("s_min_extra_isize", 2); ("s_want_extra_isize", 2); ("s_flags", 4);
   ("s_raid_stride", 2); ("s_mmp_interval", 2); ("s_mmp_block", 8); ("s_raid_stride_width", 4);
   ("s_log_groups_per_flex", 1); ("s_checksum_type", 1); ("s_reserved_pad", 2); ("s_kbytes_written", 8);
   ("s_snapshot_inum", 4); ("s_snapshot_id", 4); ("s_snapshot_r_blocks_count", 8);
   ("s_snapshot_list", 4); ("s_error_count", 4); ("s_first_error_time", 4); ("s_first_error_ino", 4);
   ("s_first_error_block", 8); ("s_first_error_func", 32); ("s_first_error_line", 4);
   ("s_last_error_time", 4); ("s_last_error_ino", 4); ("s_last_error_line", 4); ("s_last_error_block", 8);
   ("s_last_error_func", 32); ("s_mount_opts", 64); ("s_usr_quota_inum", 4); ("s_grp_quota_inum", 4);
   ("s_overhead_blocks", 4); ("s_backup_bgs", 8); ("s_encrypt_algos", 4); ("s_encrypt_pw_salt", 16);
   ("s_lpf_ino", 4); ("s_prj_quota_inum", 4); ("s_checksum_seed", 4); ("s_reserved", 392);
   ("s_checksum", 4)].

Definition EXT4_BLOCK_GROUP_DESC : layout :=
  [("bg_block_bitmap_lo", 4); ("bg_inode_bitmap_lo", 4); ("bg_inode_table_lo", 4);
   ("bg_free_blocks_count_lo", 2); ("bg_free_inodes_count_lo", 2); ("bg_used_dirs_count_lo", 2);
   ("bg_flags", 2); ("bg_exclude_bitmap_lo", 4); ("bg_block_bitmap_csum_lo", 2);
   ("bg_inode_bitmap_csum_lo", 2); ("bg_itable_unused_lo", 2); ("bg_checksum", 2);
   ("bg_block_bitmap_hi", 4); ("bg_inode_bitmap_hi", 4); ("bg_inode_table_hi", 4);
   ("bg_free_blocks_count_hi", 2); ("bg_free_inodes_count_hi", 2); ("bg_used_dirs_count_hi", 2);
   ("bg_itable_unused_hi", 2); ("bg_exclude_bitmap_hi", 4); ("bg_block_bitmap_csum_hi", 2);
   ("bg_inode_bitmap_csum_hi", 2); ("bg_reserved", 4)].

(** With the Linux member of the union i_osd2. *)
Definition EXT4_INODE : layout :=
  [("i_mode", 2); ("i_uid", 2); ("i_size_lo", 4); ("i_atime", 4); ("i_ctime", 4); ("i_mtime", 4);
   ("i_dtime", 4); ("i_gid", 2); ("i_links", 2); ("i_blocks", 4); ("i_flags", 4); ("i_os_spec", 4);
   ("i_data", 60); ("i_generation", 4); ("i_file_acl", 4); ("i_size_hi", 4); ("i_faddr", 4);
   ("l_i_blocks_high", 2); ("l_i_file_acl_high", 2); ("l_i_uid_high", 2); ("l_i_gid_high", 2);
   ("l_i_checksum_lo", 2); ("l_i_reserved", 2); ("i_extra_isize", 2); ("i_checksum_hi", 2);
   ("i_ctime_extra", 4); ("i_mtime_extra", 4); ("i_atime_extra", 4); ("i_crtime", 4);
   ("i_crtime_extra", 4); ("i_version_hi", 4); ("i_projid", 4)].

Definition EXT4_EXTENT_HEADER : layout :=
  [("eh_magic", 2); ("eh_entries", 2); ("eh_max", 2); ("eh_depth", 2); ("eh_generation", 4)].

Definition EXT4_EXTENT_INDEX : layout :=
  [("ei_block", 4); ("ei_leaf_lo", 4); ("ei_leaf_hi", 2); ("ei_unused", 2)].

Definition EXT4_EXTENT_DISK : layout :=
  [("ee_block", 4); ("ee_len", 2); ("ee_start_hi", 2); ("ee_start_lo", 4)].

(** The sizes the header asserts, and that no structure has padding. *)
Lemma ext4_layouts :
  size_of EXT4_SUPERBLOCK = 1024 ∧ size_of EXT4_BLOCK_GROUP_DESC = 64 ∧ size_of EXT4_INODE = 160 ∧
  size_of EXT4_EXTENT_HEADER = 12 ∧ size_of EXT4_EXTENT_INDEX = 12 ∧ size_of EXT4_EXTENT_DISK = 12 ∧
  naturally_aligned 4 0 EXT4_SUPERBLOCK ∧ naturally_aligned 4 0 EXT4_BLOCK_GROUP_DESC ∧
  naturally_aligned 4 0 EXT4_INODE ∧ naturally_aligned 4 0 EXT4_EXTENT_HEADER ∧
  naturally_aligned 4 0 EXT4_EXTENT_INDEX ∧ naturally_aligned 4 0 EXT4_EXTENT_DISK.
Proof. split_and!; by vm_compute. Qed.

(** A structure field in a buffer: [Ptr->f] with [Ptr] at [off] in [b]. *)
Definition field_size (l : layout) (f : string) : nat :=
  match find (λ p, String.eqb f p.1) l with Some (_, n) => Z.to_nat n | None => O end.

Definition rd_field {S} (l : layout) (f : string) (b : list Z) (off : Z) : M S Z :=
  rd (field_size l f) b (off + offset_of l f).

(** ** Constants *)

Definition EXT4_SUPERBLOCK_OFFSET : Z := 1024.
Definition EXT4_SIGNATURE : Z := 0xEF53.
Definition EXT4_GOOD_OLD_REV : Z := 0.
Definition EXT4_DYNAMIC_REV : Z := 1.
Definition EXT4_CHECKSUM_CRC32C : Z := 0x1.
Definition EXT4_FEATURE_INCOMPAT_FILETYPE : Z := 0x00002.
Definition EXT4_FEATURE_INCOMPAT_RECOVER : Z := 0x00004.
Definition EXT4_FEATURE_INCOMPAT_EXTENTS : Z := 0x00040.
Definition EXT4_FEATURE_INCOMPAT_64BIT : Z := 0x00080.
Definition EXT4_FEATURE_INCOMPAT_MMP : Z := 0x00100.
Definition EXT4_FEATURE_INCOMPAT_FLEX_BG : Z := 0x00200.
Definition EXT4_FEATURE_INCOMPAT_DIRDATA : Z := 0x01000.
Definition EXT4_FEATURE_INCOMPAT_CSUM_SEED : Z := 0x02000.
Definition EXT4_FEATURE_INCOMPAT_LARGEDIR : Z := 0x04000.
Definition EXT4_FEATURE_RO_COMPAT_SPARSE_SUPER : Z := 0x0001.
Definition EXT4_FEATURE_RO_COMPAT_LARGE_FILE : Z := 0x0002.
Definition EXT4_FEATURE_RO_COMPAT_HUGE_FILE : Z := 0x0008.
Definition EXT4_FEATURE_RO_COMPAT_GDT_CSUM : Z := 0x0010.
Definition EXT4_FEATURE_RO_COMPAT_DIR_NLINK : Z := 0x0020.
Definition EXT4_FEATURE_RO_COMPAT_EXTRA_ISIZE : Z := 0x0040.
Definition EXT4_FEATURE_RO_COMPAT_METADATA_CSUM : Z := 0x0400.
Definition EXT4_OLD_BLOCK_DESC_SIZE : Z := 32.
Definition EXT4_64BIT_BLOCK_DESC_SIZE : Z := 64.
Definition EXT4_GOOD_OLD_INODE_SIZE : Z := 128.
Definition EXT4_LOG_BLOCK_SIZE_MAX : Z := 11.
Definition EXT4_EXTENTS_FL : Z := 0x00080000.
Definition EXT4_DBLOCKS : Z := 12.
Definition EXT4_IND_BLOCK : Z := 12.
Definition EXT4_DIND_BLOCK : Z := 13.
Definition EXT4_TIND_BLOCK : Z := 14.
Definition EXT4_EXTENT_HEADER_MAGIC : Z := 0xF30A.
Definition EXT4_EXTENT_TREE_MAX_DEPTH : Z := 5.
Definition EXT4_EXTENT_MAX_INITIALIZED : Z := 32768.
Definition EXT4_BLOCK_FILE_HOLE : Z := 0.
Definition SIZEOF_EXT4_EXTENT_TAIL : Z := 4.
Definition SIZEOF_EXT4_INODE : Z := Eval vm_compute in size_of EXT4_INODE.
Definition SIZEOF_EXT4_EXTENT : Z := Eval vm_compute in size_of EXT4_EXTENT_DISK.
Definition SIZEOF_EXT4_EXTENT_HEADER : Z := Eval vm_compute in size_of EXT4_EXTENT_HEADER.

(** ** The driver's own structures *)

(** An extent in memory; sets of them are the contents of the cache. *)
Record EXT4_EXTENT := mkExtent {
  ee_block : Z;
  ee_len : Z;
  ee_start_hi : Z;
  ee_start_lo : Z;
}.

#[global] Instance EXT4_EXTENT_eq_dec : EqDecision EXT4_EXTENT.
Proof. solve_decision. Defined.

(** The partition, without its protocol interfaces and its lists of open files; BlockGroups is
    the block the pointer points to. *)
Record EXT4_PARTITION := mkPartition {
  SuperBlock : list Z;
  FeaturesIncompat : Z;
  FeaturesCompat : Z;
  FeaturesRoCompat : Z;
  InodeSize : Z;
  BlockSize : Z;
  ReadOnly : bool;
  NumberBlockGroups : Z;
  NumberBlocks : Z;
  BlockGroups : list Z;
  DescSize : Z;
  InitialSeed : Z;
}.

(** An open file: its inode, which does not change while it is open.  The pointer to the
    extents map is part of the state below. *)
Record EXT4_FILE := mkFile {
  Inode : list Z;
  InodeNum : Z;
}.

(** ** Feature tests *)

Definition has_features (Features Set_ : Z) : bool := Z.land Features Set_ =? Set_.
Definition EXT4_HAS_RO_COMPAT (P : EXT4_PARTITION) (Set_ : Z) : bool := has_features (FeaturesRoCompat P) Set_.
Definition EXT4_HAS_INCOMPAT (P : EXT4_PARTITION) (Set_ : Z) : bool := has_features (FeaturesIncompat P) Set_.
Definition EXT4_HAS_METADATA_CSUM (P : EXT4_PARTITION) : bool :=
  EXT4_HAS_RO_COMPAT P EXT4_FEATURE_RO_COMPAT_METADATA_CSUM.
Definition EXT4_HAS_GDT_CSUM (P : EXT4_PARTITION) : bool :=
  EXT4_HAS_RO_COMPAT P EXT4_FEATURE_RO_COMPAT_GDT_CSUM.
Definition EXT4_IS_64_BIT (P : EXT4_PARTITION) : bool :=
  negb (Z.land (FeaturesIncompat P) EXT4_FEATURE_INCOMPAT_64BIT =? 0).
Definition EXT4_BLOCK_NR_FROM_HALFS (P : EXT4_PARTITION) (Low High : Z) : Z :=
  if EXT4_IS_64_BIT P then Z.lor Low (LShiftU64 High 32) else Low.
Definition EXT4_EXTENT_IS_UNINITIALIZED (Extent : EXT4_EXTENT) : bool :=
  EXT4_EXTENT_MAX_INITIALIZED <? ee_len Extent.

Definition Ext4GetExtentLength (Extent : EXT4_EXTENT) : Z :=
  if EXT4_EXTENT_IS_UNINITIALIZED Extent then ee_len Extent - EXT4_EXTENT_MAX_INITIALIZED else ee_len Extent.

(** The first block of an extent on the disk. *)
Definition extent_start (Extent : EXT4_EXTENT) : Z :=
  Z.lor (LShiftU64 (ee_start_hi Extent) 32) (ee_start_lo Extent).

(** [EXT4_INODE_SIZE (Inode)] *)
Definition EXT4_INODE_SIZE {S} (Inode : list Z) : M S Z :=
  hi ← rd_field EXT4_INODE "i_size_hi" Inode 0;
  lo ← rd_field EXT4_INODE "i_size_lo" Inode 0;
  mret (Z.lor (LShiftU64 hi 32) lo).

(** [EXT4_INODE_HAS_FIELD (Inode, Field)] *)
Definition EXT4_INODE_HAS_FIELD {S} (Inode : list Z) (Field : string) : M S bool :=
  extra ← rd_field EXT4_INODE "i_extra_isize" Inode 0;
  mret (offset_of EXT4_INODE Field + Z.of_nat (field_size EXT4_INODE Field) <=? extra + EXT4_GOOD_OLD_INODE_SIZE).

(** What Ext4OpenSuperblock establishes of an open partition, and what is true of a file's inode. *)
Record PartitionOk (P : EXT4_PARTITION) : Prop := {
  po_super : size (SuperBlock P) = size_of EXT4_SUPERBLOCK;
  po_super_bytes : bytes (SuperBlock P);
  po_csum : EXT4_HAS_METADATA_CSUM P = true →
    load 1 (SuperBlock P) (offset_of EXT4_SUPERBLOCK "s_checksum_type") = EXT4_CHECKSUM_CRC32C;
  po_seed : u32 (InitialSeed P);
  po_block : ∃ n, 0 <= n <= EXT4_LOG_BLOCK_SIZE_MAX ∧ BlockSize P = 2 ^ (10 + n);
  po_inode : EXT4_GOOD_OLD_INODE_SIZE <= InodeSize P < 2 ^ 16;
  po_inode_aligned : InodeSize P mod 4 = 0;
  po_desc : EXT4_OLD_BLOCK_DESC_SIZE <= DescSize P < 2 ^ 16;
}.

Record FileOk (P : EXT4_PARTITION) (F : EXT4_FILE) : Prop := {
  fo_inode : size (Inode F) = Z.max (InodeSize P) SIZEOF_EXT4_INODE;
  fo_inode_bytes : bytes (Inode F);
  fo_number : u32 (InodeNum F);
}.

Lemma BlockSize_bounds P : PartitionOk P → 1024 <= BlockSize P <= 2 ^ 21 ∧ BlockSize P mod 1024 = 0.
Proof.
  intros HP. destruct (po_block P HP) as (n & Hn & ->). unfold EXT4_LOG_BLOCK_SIZE_MAX in Hn.
  rewrite Z.pow_add_r by lia. change (2 ^ 10) with 1024. split.
  - assert (2 ^ 0 <= 2 ^ n <= 2 ^ 11) by (split; apply Z.pow_le_mono_r; lia).
    change (2 ^ 21) with (1024 * 2 ^ 11). lia.
  - rewrite Z.mul_comm. by apply Z.mod_mul.
Qed.

(** BaseLib *)
Definition MultU64x32 (Multiplicand Multiplier : Z) : Z := wrap 64 (Multiplicand * Multiplier).

(** ** Memory and firmware *)

Section Memory.
Context `{OC : !OrderedCollectionLib (loc * EXT4_EXTENT) Z}.

(** The memory while a file is open: that of the collection library, the extents in pool
    memory, the sizes of the temporary buffers, File->ExtentsMap.  Clock counts the calls of
    the firmware, so that its answers may differ. *)
Record ext4 := mkExt4 {
  Collections : oc_state;
  ExtentPool : gmap loc EXT4_EXTENT;
  Buffers : gmap loc Z;
  ExtentsMap : ptr;
  Clock : nat;
}.

Definition with_Collections (c : oc_state) (s : ext4) : ext4 :=
  mkExt4 c (ExtentPool s) (Buffers s) (ExtentsMap s) (Clock s).
Definition with_ExtentPool (p : gmap loc EXT4_EXTENT) (s : ext4) : ext4 :=
  mkExt4 (Collections s) p (Buffers s) (ExtentsMap s) (Clock s).
Definition with_Buffers (b : gmap loc Z) (s : ext4) : ext4 :=
  mkExt4 (Collections s) (ExtentPool s) b (ExtentsMap s) (Clock s).
Definition with_ExtentsMap (m : ptr) (s : ext4) : ext4 :=
  mkExt4 (Collections s) (ExtentPool s) (Buffers s) m (Clock s).
Definition tick (s : ext4) : ext4 :=
  mkExt4 (Collections s) (ExtentPool s) (Buffers s) (ExtentsMap s) (S (Clock s)).

(** What the firmware provides: AllocatePool, whose answer is memory not in use, and
    EFI_DISK_IO_PROTOCOL.ReadDisk at a time, an offset and a length, which fills the buffer
    or fails with some status. *)
Class Firmware := {
  AllocatePool : ext4 → ptr;
  ReadDisk : nat → Z → Z → RETURN_STATUS + list Z;
  AllocatePool_fresh s x : AllocatePool s = Some x →
    oc_fresh_node (Collections s) x ∧ oc_fresh_tree (Collections s) x ∧
    ExtentPool s !! x = None ∧ Buffers s !! x = None;
  ReadDisk_fills t Offset Length data : ReadDisk t Offset Length = inr data →
    size data = Length ∧ bytes data;
}.

(** A call of the collection library. *)
Definition call {A} (m : M oc_state A) : M ext4 A := λ s,
  match m (Collections s) with
  | Ok a c => Ok a (with_Collections c s)
  | Err e c => Err e (with_Collections c s)
  | Fault f => Fault f
  end.

Context `{!Platform, !Firmware}.

(** [AllocatePool (n)] for a temporary buffer and [FreePool] of it. *)
Definition AllocateBuffer (n : Z) : M ext4 ptr :=
  s ← getS;
  modify tick;;
  match AllocatePool s with
  | Some x => modify (λ s, with_Buffers (<[x := n]> (Buffers s)) s);; mret (Some x)
  | None => mret NULL
  end.

Definition FreeBuffer (Buffer : ptr) : M ext4 unit :=
  s ← getS;
  match Buffer with
  | Some x =>
      require (bool_decide (is_Some (Buffers s !! x))) UndefinedBehaviour;;
      modify (λ s, with_Buffers (delete x (Buffers s)) s)
  | None => crash UndefinedBehaviour
  end.

(** [if (Buffer != NULL) FreePool (Buffer)] *)
Definition FreeBufferIfAny (Buffer : ptr) : M ext4 unit :=
  match Buffer with Some _ => FreeBuffer Buffer | None => mret tt end.

(** The number of bytes at a buffer's address. *)
Definition BufferSize (Buffer : ptr) : M ext4 Z :=
  s ← getS;
  match Buffer with
  | Some x => match Buffers s !! x with Some n => mret n | None => crash UndefinedBehaviour end
  | None => crash UndefinedBehaviour
  end.

(** ** DiskUtil.c *)

(** The destination has room for [Room] bytes; the result is what is in it afterwards. *)
Definition Ext4ReadDiskIo (Room Length Offset : Z) : M ext4 (list Z) :=
  require (Length <=? Room) OutOfBounds;;
  s ← getS;
  modify tick;;
  match ReadDisk (Clock s) Offset Length with
  | inl e => raise e
  | inr data => mret data
  end.

Definition Ext4ReadBlocks (P : EXT4_PARTITION) (Room NumberBlocks_ BlockNumber : Z) : M ext4 (list Z) :=
  ASSERT (negb (NumberBlocks_ =? 0));;
  ASSERT (negb (BlockNumber =? EXT4_BLOCK_FILE_HOLE));;
  let Offset := MultU64x32 BlockNumber (BlockSize P) in
  let Length := wrapn (NumberBlocks_ * BlockSize P) in
  '(Quotient, _) ← DivU64x64Remainder Offset BlockNumber;
  fail_if (negb (Quotient =? BlockSize P)) RETURN_INVALID_PARAMETER;;
  require (negb (NumberBlocks_ =? 0)) UndefinedBehaviour;;
  fail_if (negb (Length / NumberBlocks_ =? BlockSize P)) RETURN_INVALID_PARAMETER;;
  Ext4ReadDiskIo Room Length Offset.

(** The buffer and the data in it. *)
Definition Ext4AllocAndReadBlocks (P : EXT4_PARTITION) (NumberBlocks_ BlockNumber : Z) :
    M ext4 (option (loc * list Z)) :=
  if (NumberBlocks_ =? 0) || (BlockNumber =? EXT4_BLOCK_FILE_HOLE) then mret None
  else
    let Length := wrapn (NumberBlocks_ * BlockSize P) in
    if negb (Length / NumberBlocks_ =? BlockSize P) then mret None
    else
      Buf ← AllocateBuffer Length;
      match Buf with
      | None => mret None
      | Some x =>
          Room ← BufferSize Buf;
          Status ← attempt (Ext4ReadBlocks P Room NumberBlocks_ BlockNumber);
          match Status with
          | inl _ => FreeBuffer Buf;; mret None
          | inr data => mret (Some (x, data))
          end
      end.

(** ** Specifications *)

(** States that differ only in what the firmware will answer. *)
#[global] Instance ext4_equiv : Equiv ext4 := λ s s',
  Collections s = Collections s' ∧ ExtentPool s = ExtentPool s' ∧ Buffers s = Buffers s' ∧ ExtentsMap s = ExtentsMap s'.

#[global] Instance ext4_equivalence : Equivalence (≡@{ext4}).
Proof.
  unfold equiv, ext4_equiv. split; [done|..].
  - intros s s' (? & ? & ? & ?). by split_and!.
  - intros s s' s'' (-> & -> & -> & ->) (? & ? & ? & ?). by split_and!.
Qed.

Lemma tick_equiv s : tick s ≡ s.
Proof. done. Qed.

Lemma wp_call {A} (m : M oc_state A) Q E s :
  wp m (λ a c, Q a (with_Collections c s)) (λ e c, E e (with_Collections c s)) (Collections s) → wp (call m) Q E s.
Proof. intros Hm%wp_cases. apply wp_of_cases. unfold call. by destruct (m (Collections s)). Qed.

Lemma wp_AllocateBuffer n (Q : ptr → ext4 → Prop) E s :
  (∀ x, AllocatePool s = Some x → Q (Some x) (with_Buffers (<[x := n]> (Buffers s)) (tick s))) →
  (AllocatePool s = None → Q NULL (tick s)) → wp (AllocateBuffer n) Q E s.
Proof.
  intros HSome HNone. apply wp_bind, wp_getS, wp_bind, wp_modify. destruct (AllocatePool s) as [x|].
  - apply wp_bind, wp_modify, wp_ret. by apply HSome.
  - apply wp_ret. by apply HNone.
Qed.

Lemma wp_FreeBuffer x n (Q : unit → ext4 → Prop) E s :
  Buffers s !! x = Some n → Q tt (with_Buffers (delete x (Buffers s)) s) → wp (FreeBuffer (Some x)) Q E s.
Proof.
  intros Hx HQ. apply wp_bind, wp_getS, wp_bind, wp_require; [|by apply wp_modify].
  apply bool_decide_eq_true. by exists n.
Qed.

Lemma wp_BufferSize x n (Q : Z → ext4 → Prop) E s :
  Buffers s !! x = Some n → Q n s → wp (BufferSize (Some x)) Q E s.
Proof. intros Hx HQ. apply wp_bind, wp_getS. rewrite Hx. by apply wp_ret. Qed.

Lemma wp_Ext4ReadDiskIo Room Length Offset (Q : list Z → ext4 → Prop) (E : RETURN_STATUS → ext4 → Prop) s :
  Length <= Room →
  (∀ data, ReadDisk (Clock s) Offset Length = inr data → size data = Length → bytes data → Q data (tick s)) →
  (∀ e, ReadDisk (Clock s) Offset Length = inl e → E e (tick s)) →
  wp (Ext4ReadDiskIo Room Length Offset) Q E s.
Proof.
  intros HR HQ HE. apply wp_bind, wp_require; [by apply Z.leb_le|]. apply wp_bind, wp_getS, wp_bind, wp_modify.
  destruct (ReadDisk _ _ _) as [e|data] eqn:Hd; [apply wp_raise; by apply HE|].
  apply wp_ret. destruct (ReadDisk_fills _ _ _ _ Hd). by apply HQ.
Qed.

(** The quotient of a truncated product gives the other factor exactly when nothing was lost. *)
Lemma truncated_quotient w a b :
  0 <= w → 0 < a → 0 < b → (wrap w (a * b) / a =? b) = (a * b <? 2 ^ w).
Proof.
  intros Hw Ha Hb. destruct (Z.ltb_spec (a * b) (2 ^ w)) as [Hlt|Hge].
  - rewrite wrap_small by (unfold is_uint; nia). rewrite Z.mul_comm, Z.div_mul by lia. apply Z.eqb_refl.
  - apply Z.eqb_neq. intros Hq. pose proof (wrap_range w (a * b) Hw) as Hr. unfold is_uint in Hr.
    pose proof (Z.mul_div_le (wrap w (a * b)) a Ha). rewrite Hq in *. nia.
Qed.

(** Ext4ReadBlocks reads the bytes of the blocks, or reports that an offset or a length does not fit. *)
Lemma Ext4ReadBlocks_spec `{!PlatformOk} P Room NumberBlocks_ BlockNumber s :
  0 < NumberBlocks_ → 0 < BlockNumber → 0 < BlockSize P → NumberBlocks_ * BlockSize P <= Room →
  wp (Ext4ReadBlocks P Room NumberBlocks_ BlockNumber)
    (λ data s', s' = tick s ∧ BlockNumber * BlockSize P < 2 ^ 64 ∧ NumberBlocks_ * BlockSize P < 2 ^ UINTN_WIDTH ∧
       ReadDisk (Clock s) (BlockNumber * BlockSize P) (NumberBlocks_ * BlockSize P) = inr data ∧
       size data = NumberBlocks_ * BlockSize P ∧ bytes data)
    (λ e s', s' ≡ s ∧
       (e = RETURN_INVALID_PARAMETER ∧
        (2 ^ 64 <= BlockNumber * BlockSize P ∨ 2 ^ UINTN_WIDTH <= NumberBlocks_ * BlockSize P) ∨
        ReadDisk (Clock s) (BlockNumber * BlockSize P) (NumberBlocks_ * BlockSize P) = inl e)) s.
Proof.
  intros HN HB HS HR. assert (0 <= UINTN_WIDTH) as HW by (destruct platform_uintn as [->| ->]; lia).
  unfold Ext4ReadBlocks, EXT4_BLOCK_FILE_HOLE, MultU64x32, wrapn. cbv zeta.
  apply wp_bind, wp_ASSERT; [apply negb_true_iff, Z.eqb_neq; lia|].
  apply wp_bind, wp_ASSERT; [apply negb_true_iff, Z.eqb_neq; lia|].
  apply wp_bind, wp_bind, wp_require; [apply negb_true_iff, Z.eqb_neq; lia|]. apply wp_ret.
  rewrite (truncated_quotient 64 BlockNumber) by lia.
  apply wp_bind, wp_fail_if; [intros Ho; apply negb_true_iff, Z.ltb_ge in Ho; split; [done|auto]|].
  intros Ho%negb_false_iff%Z.ltb_lt.
  apply wp_bind, wp_require; [apply negb_true_iff, Z.eqb_neq; lia|].
  rewrite (truncated_quotient UINTN_WIDTH NumberBlocks_) by lia.
  apply wp_bind, wp_fail_if; [intros Hl; apply negb_true_iff, Z.ltb_ge in Hl; split; [done|auto]|].
  intros Hl%negb_false_iff%Z.ltb_lt. rewrite !wrap_small by (unfold is_uint; nia).
  apply wp_Ext4ReadDiskIo; [done| |].
  - intros data Hd Hs Hb. by split_and!.
  - intros e He. split; [done|auto].
Qed.
End Memory.

(** ** A firmware *)

Lemma bytes_decide b : bool_decide (Forall (is_uint 8) b) = true → bytes b.
Proof. apply bool_decide_eq_true. Qed.

(** An address above those in use. *)
Definition above (l : list positive) : positive := Pos.succ (foldr Pos.max 1%positive l).

Definition map_above {A} (m : gmap positive A) : positive := above (map_to_list m).*1.

Lemma map_above_fresh {A} (m : gmap positive A) x : (map_above m <= x)%positive → m !! x = None.
Proof.
  intros Hx. destruct (m !! x) as [a|] eqn:Hm; [|done]. exfalso. apply elem_of_map_to_list in Hm.
  assert (x ∈ (map_to_list m).*1) as Hin by (apply list_elem_of_fmap; by exists (x, a)).
  assert ((x <= foldr Pos.max 1 (map_to_list m).*1)%positive) as Hle; [|unfold map_above, above in Hx; lia].
  revert Hin. generalize ((map_to_list m).*1). clear. intros l. induction l as [|b l IH]; intros Hy; [by apply elem_of_nil in Hy|].
  cbn. apply elem_of_cons in Hy as [->|Hy%IH]; lia.
Qed.

(** The red-black tree library, a pool that always has memory and a disk that never fails,
    with the given bytes. *)
Definition sample_collections : OrderedCollectionLib (loc * EXT4_EXTENT) Z :=
  @RedBlackTreeLib (loc * EXT4_EXTENT) Z platform_x64 false.

Definition sample_alloc (s : @ext4 sample_collections) : positive :=
  Pos.max (Pos.max (map_above (Nodes (Collections s : pool (loc * EXT4_EXTENT) Z)))
                   (map_above (Trees (Collections s : pool (loc * EXT4_EXTENT) Z))))
          (Pos.max (map_above (ExtentPool s)) (map_above (Buffers s))).

Definition disk_bytes (disk : Z → Z) (Offset Length : Z) : list Z :=
  map (λ i, wrap 8 (disk (Offset + i))) (seqZ 0 Length).

#[refine] Definition sample_firmware (disk : Z → Z) : @Firmware sample_collections := {|
  AllocatePool s := Some (sample_alloc s);
  ReadDisk _ Offset Length := if Length <? 0 then inl RETURN_DEVICE_ERROR else inr (disk_bytes disk Offset Length);
|}.
Proof.
  - intros s x [= <-]. unfold sample_alloc. cbn. split_and!; apply map_above_fresh; lia.
  - intros _ Offset Length data. destruct (Z.ltb_spec Length 0); [done|]. intros [= <-]. unfold disk_bytes. split.
    + unfold size. rewrite length_map, length_seqZ. lia.
    + apply Forall_map, Forall_true. intros i. by apply wrap_range.
Defined.

Lemma sample_alloc_some disk s : @AllocatePool _ (sample_firmware disk) s ≠ None.
Proof. cbn. discriminate. Qed.

Definition sample_state : @ext4 sample_collections := @mkExt4 sample_collections (mkPool ∅ ∅ : pool (loc * EXT4_EXTENT) Z) ∅ ∅ NULL 0.
