(* ===== verification/Ext4Checksum.v ===== *)
(** The metadata checksums of the ext4 driver: Ext4CalculateChecksum (Superblock.c) and the
    checksums of superblock, block group descriptors (BlockGroup.c), inodes (Inode.c) and
    extent blocks (Extents.c). *)
From Stdlib Require Import String.
From S2P Require Import Prelude Base Buffer Overflow Platform PeImage CheckSum Ext4Disk.
#[local] Open Scope string_scope.
#[local] Open Scope list_scope.
#[local] Open Scope Z_scope.

(** [&Ptr->f] as the bytes from there on. *)
Definition at_field (l : layout) (f : string) (b : list Z) : list Z := drop (Z.to_nat (offset_of l f)) b.

Definition CRC16ANSI_INIT : Z := 0xffff.

Section Checksums.
Context `{!Platform} {S : Type} (Partition : EXT4_PARTITION).

Definition Ext4CalculateChecksum (Buffer : list Z) (Length InitialValue : Z) : M S Z :=
  if negb (EXT4_HAS_METADATA_CSUM Partition) then mret 0
  else
    Type_ ← rd_field EXT4_SUPERBLOCK "s_checksum_type" (SuperBlock Partition) 0;
    if Type_ =? EXT4_CHECKSUM_CRC32C then
      Crc ← CalculateCrc32c Buffer Length (not32 InitialValue);
      mret (not32 Crc)
    else ASSERT false;; mret 0.

(** ** Superblock *)

Definition Ext4CalculateSuperblockChecksum (Sb : list Z) : M S Z :=
  Ext4CalculateChecksum Sb (offset_of EXT4_SUPERBLOCK "s_checksum") (not32 0).

Definition Ext4VerifySuperblockChecksum (Sb : list Z) : M S bool :=
  if negb (EXT4_HAS_METADATA_CSUM Partition) then mret true
  else
    s_checksum ← rd_field EXT4_SUPERBLOCK "s_checksum" Sb 0;
    Csum ← Ext4CalculateSuperblockChecksum Sb;
    mret (s_checksum =? Csum).

(** ** Block group descriptors *)

Definition Ext4CalculateBlockGroupDescChecksumMetadataCsum (BlockGroupDesc : list Z) (BlockGroupNum : Z) : M S Z :=
  Csum ← Ext4CalculateChecksum (le_bytes 4 BlockGroupNum) 4 (InitialSeed Partition);
  Csum ← Ext4CalculateChecksum BlockGroupDesc (offset_of EXT4_BLOCK_GROUP_DESC "bg_checksum") Csum;
  Csum ← Ext4CalculateChecksum (le_bytes 2 0) 2 Csum;
  Csum ← Ext4CalculateChecksum (at_field EXT4_BLOCK_GROUP_DESC "bg_block_bitmap_hi" BlockGroupDesc)
           (wrapn (DescSize Partition - offset_of EXT4_BLOCK_GROUP_DESC "bg_block_bitmap_hi")) Csum;
  mret (wrap 16 Csum).

Definition Ext4CalculateBlockGroupDescChecksumGdtCsum (BlockGroupDesc : list Z) (BlockGroupNum : Z) : M S Z :=
  Csum ← CalculateCrc16Ansi (slice (SuperBlock Partition) (offset_of EXT4_SUPERBLOCK "s_uuid") 16) 16 CRC16ANSI_INIT;
  Csum ← CalculateCrc16Ansi (le_bytes 4 BlockGroupNum) 4 Csum;
  Csum ← CalculateCrc16Ansi BlockGroupDesc (offset_of EXT4_BLOCK_GROUP_DESC "bg_checksum") Csum;
  CalculateCrc16Ansi (at_field EXT4_BLOCK_GROUP_DESC "bg_block_bitmap_hi" BlockGroupDesc)
    (wrapn (DescSize Partition - offset_of EXT4_BLOCK_GROUP_DESC "bg_block_bitmap_hi")) Csum.

Definition Ext4CalculateBlockGroupDescChecksum (BlockGroupDesc : list Z) (BlockGroupNum : Z) : M S Z :=
  if EXT4_HAS_METADATA_CSUM Partition then
    Ext4CalculateBlockGroupDescChecksumMetadataCsum BlockGroupDesc BlockGroupNum
  else if EXT4_HAS_GDT_CSUM Partition then
    Ext4CalculateBlockGroupDescChecksumGdtCsum BlockGroupDesc BlockGroupNum
  else mret 0.

Definition Ext4VerifyBlockGroupDescChecksum (BlockGroupDesc : list Z) (BlockGroupNum : Z) : M S bool :=
  if negb (EXT4_HAS_METADATA_CSUM Partition) && negb (EXT4_HAS_GDT_CSUM Partition) then mret true
  else
    Csum ← Ext4CalculateBlockGroupDescChecksum BlockGroupDesc BlockGroupNum;
    bg_checksum ← rd_field EXT4_BLOCK_GROUP_DESC "bg_checksum" BlockGroupDesc 0;
    mret (Csum =? bg_checksum).

(** ** Inodes *)

Definition Ext4CalculateInodeChecksum (Inode : list Z) (InodeNum : Z) : M S Z :=
  HasSecondChecksumField ← EXT4_INODE_HAS_FIELD Inode "i_checksum_hi";
  Crc ← Ext4CalculateChecksum (le_bytes 4 InodeNum) 4 (InitialSeed Partition);
  Crc ← Ext4CalculateChecksum (at_field EXT4_INODE "i_generation" Inode) 4 Crc;
  Crc ← Ext4CalculateChecksum Inode (offset_of EXT4_INODE "l_i_checksum_lo") Crc;
  Crc ← Ext4CalculateChecksum (le_bytes 2 0) 2 Crc;
  if HasSecondChecksumField : bool then
    let Length := offset_of EXT4_INODE "i_checksum_hi" - offset_of EXT4_INODE "l_i_reserved" in
    Crc ← Ext4CalculateChecksum (at_field EXT4_INODE "l_i_reserved" Inode) Length Crc;
    Crc ← Ext4CalculateChecksum (le_bytes 2 0) 2 Crc;
    Ext4CalculateChecksum (at_field EXT4_INODE "i_ctime_extra" Inode)
      (wrap 32 (wrap 32 (InodeSize Partition - EXT4_GOOD_OLD_INODE_SIZE) - 4)) Crc
  else
    Ext4CalculateChecksum (at_field EXT4_INODE "l_i_reserved" Inode)
      (wrapn (InodeSize Partition - offset_of EXT4_INODE "l_i_reserved")) Crc.

Definition Ext4CheckInodeChecksum (Inode : list Z) (InodeNum : Z) : M S bool :=
  if negb (EXT4_HAS_METADATA_CSUM Partition) then mret true
  else
    Csum ← Ext4CalculateInodeChecksum Inode InodeNum;
    DiskCsum ← rd_field EXT4_INODE "l_i_checksum_lo" Inode 0;
    HasSecondChecksumField ← EXT4_INODE_HAS_FIELD Inode "i_checksum_hi";
    if HasSecondChecksumField : bool then
      hi ← rd_field EXT4_INODE "i_checksum_hi" Inode 0;
      mret (Csum =? Z.lor DiskCsum (wrap 32 (Z.shiftl hi 16)))
    else mret (Z.land Csum 0xffff =? DiskCsum).

(** ** Extent blocks *)

Definition Ext4CalculateExtentChecksum (ExtHeader : list Z) (File : EXT4_FILE) : M S Z :=
  Csum ← Ext4CalculateChecksum (le_bytes 4 (InodeNum File)) 4 (InitialSeed Partition);
  Csum ← Ext4CalculateChecksum (at_field EXT4_INODE "i_generation" (Inode File)) 4 Csum;
  Ext4CalculateChecksum ExtHeader (wrapn (BlockSize Partition - SIZEOF_EXT4_EXTENT_TAIL)) Csum.

Definition Ext4CheckExtentChecksum (ExtHeader : list Z) (File : EXT4_FILE) : M S bool :=
  if negb (EXT4_HAS_METADATA_CSUM Partition) then mret true
  else
    eb_checksum ← rd 4 ExtHeader (BlockSize Partition - 4);
    Csum ← Ext4CalculateExtentChecksum ExtHeader File;
    mret (eb_checksum =? Csum).
End Checksums.

(** ** Specifications *)

(** Reduces the layout computations. *)
Ltac layouts :=
  repeat match goal with
  | |- context [offset_of ?l ?f] => let n := eval vm_compute in (offset_of l f) in change (offset_of l f) with n
  | |- context [field_size ?l ?f] => let n := eval vm_compute in (field_size l f) in change (field_size l f) with n
  end.

(** Pieces of byte lists are byte lists. *)
Ltac bytes_solve :=
  repeat first [assumption | apply bytes_le_bytes | apply bytes_zeros | apply Forall_nil_2 | apply Forall_app; split
               | apply Forall_take | apply Forall_drop].

(** The checksum of a superblock with the supported algorithm. *)
Lemma Ext4CalculateChecksum_crc `{!Platform} {S} (P : EXT4_PARTITION) Buffer Length InitialValue (s : S) :
  size (SuperBlock P) = size_of EXT4_SUPERBLOCK → EXT4_HAS_METADATA_CSUM P = true →
  load 1 (SuperBlock P) (offset_of EXT4_SUPERBLOCK "s_checksum_type") = EXT4_CHECKSUM_CRC32C →
  bytes Buffer → 0 <= Length <= size Buffer → u32 InitialValue →
  Ext4CalculateChecksum P Buffer Length InitialValue s = Ok (crc CRC32C_POLY InitialValue (take (Z.to_nat Length) Buffer)) s.
Proof.
  intros Hs Hcsum Ht Hb Hl Hi. unfold Ext4CalculateChecksum. rewrite Hcsum. cbn [negb]. apply wp_exact, wp_bind.
  revert Hs Ht. layouts. intros Hs Ht.
  unfold rd_field. layouts. rewrite Z.add_0_l. apply wp_rd; [lia|rewrite Hs; by vm_compute|]. rewrite Ht.
  rewrite Z.eqb_refl. apply wp_bind. eapply wp_intro_ok; [by apply CalculateCrc32c_spec|]. apply wp_ret.
  rewrite (not32_involutive InitialValue) by done. rewrite not32_involutive; [done|].
  apply crc_range; [lia|by vm_compute|done|]. by apply Forall_take.
Qed.

Section ChecksumSpecs.
Context `{!Platform, HOk : !PlatformOk} {S : Type} (P : EXT4_PARTITION) (HP : PartitionOk P)
  (Hcsum : EXT4_HAS_METADATA_CSUM P = true).

(** The checksums of ext4 are CRC-32C without the complements. *)
Abbreviation ext4_crc := (crc CRC32C_POLY).

Lemma Ext4CalculateChecksum_spec Buffer Length InitialValue (s : S) :
  bytes Buffer → 0 <= Length <= size Buffer → u32 InitialValue →
  Ext4CalculateChecksum P Buffer Length InitialValue s = Ok (ext4_crc InitialValue (take (Z.to_nat Length) Buffer)) s.
Proof using HP Hcsum. apply Ext4CalculateChecksum_crc; [apply HP|done|by apply HP]. Qed.

(** Two checksums in a row are the checksum of the concatenation. *)
Lemma checksum_chain Buffer Length InitialValue data (k : Z → M S Z) (r : Z) (s : S) :
  bytes Buffer → 0 <= Length <= size Buffer → bytes data → u32 InitialValue →
  k (ext4_crc InitialValue (data ++ take (Z.to_nat Length) Buffer)) s = Ok r s →
  (Crc ← Ext4CalculateChecksum P Buffer Length (ext4_crc InitialValue data); k Crc) s = Ok r s.
Proof using HP Hcsum.
  intros Hb Hl Hd Hi Hk. unfold mbind, M_bind. rewrite Ext4CalculateChecksum_spec; [|done|done|].
  - by rewrite <- crc_app.
  - apply crc_range; [lia|by vm_compute|done|done].
Qed.

(** The next piece. *)
Ltac chain := apply checksum_chain; [bytes_solve|rewrite ?size_le_bytes; lia|bytes_solve|assumption|].

Lemma checksum_last Buffer Length InitialValue data (s : S) :
  bytes Buffer → 0 <= Length <= size Buffer → bytes data → u32 InitialValue →
  Ext4CalculateChecksum P Buffer Length (ext4_crc InitialValue data) s
    = Ok (ext4_crc InitialValue (data ++ take (Z.to_nat Length) Buffer)) s.
Proof using HP Hcsum.
  intros Hb Hl Hd Hi. rewrite Ext4CalculateChecksum_spec; [by rewrite <- crc_app|done|done|].
  apply crc_range; [lia|by vm_compute|done|done].
Qed.

(** An inode with its checksum fields zero, and whether it has the second one. *)
Definition has_checksum_hi (Inode : list Z) : bool :=
  132 <=? load 2 Inode 128 + EXT4_GOOD_OLD_INODE_SIZE.

Definition clear_inode_checksum (Inode : list Z) : list Z :=
  let b := write_bytes Inode (offset_of EXT4_INODE "l_i_checksum_lo") (zeros 2) in
  if has_checksum_hi Inode then write_bytes b (offset_of EXT4_INODE "i_checksum_hi") (zeros 2) else b.

(** What the checksum of an inode covers. *)
Definition inode_checksum (Inode : list Z) (InodeNum : Z) : Z :=
  ext4_crc (InitialSeed P)
    (le_bytes 4 InodeNum ++ slice Inode (offset_of EXT4_INODE "i_generation") 4 ++
     take (Z.to_nat (InodeSize P)) (clear_inode_checksum Inode)).

(** What the checksum of an extent block covers. *)
Definition extent_checksum (Node : list Z) (F : EXT4_FILE) : Z :=
  ext4_crc (InitialSeed P)
    (le_bytes 4 (InodeNum F) ++ slice (Inode F) (offset_of EXT4_INODE "i_generation") 4 ++
     take (Z.to_nat (BlockSize P - 4)) Node).

Lemma take_drop_slice b off n : take (Z.to_nat n) (drop (Z.to_nat off) b) = slice b off n.
Proof. done. Qed.

Lemma Ext4CalculateExtentChecksum_spec Node F (s : S) :
  FileOk P F → bytes Node → size Node = BlockSize P →
  Ext4CalculateExtentChecksum P Node F s = Ok (extent_checksum Node F) s.
Proof using HP Hcsum HOk.
  intros HF Hn Hs. pose proof (BlockSize_bounds P HP) as [HB _]. pose proof (fo_inode P F HF) as Hi.
  pose proof (po_seed P HP). pose proof (fo_inode_bytes P F HF).
  assert (160 <= size (Inode F)) by (rewrite Hi; unfold SIZEOF_EXT4_INODE; lia).
  unfold Ext4CalculateExtentChecksum, SIZEOF_EXT4_EXTENT_TAIL.
  rewrite wrapn_small by (unfold is_uint; lia).
  assert (bytes (at_field EXT4_INODE "i_generation" (Inode F))) as Hg by by apply Forall_drop.
  assert (4 <= size (at_field EXT4_INODE "i_generation" (Inode F))) as Hgs.
  { unfold at_field. layouts. unfold size in *. rewrite length_drop. lia. }
  apply (checksum_chain _ _ (InitialSeed P) []); [bytes_solve|rewrite size_le_bytes; lia|bytes_solve|done|].
  chain. rewrite checksum_last; [|done|lia|bytes_solve|done].
  unfold extent_checksum. by rewrite app_nil_l, <- app_assoc.
Qed.

(** A prefix of a buffer with some bytes replaced. *)
Lemma take_write_bytes b off l n :
  0 <= off → off + size l <= n → n <= size b →
  take (Z.to_nat n) (write_bytes b off l) = take (Z.to_nat off) b ++ l ++ slice b (off + size l) (n - (off + size l)).
Proof.
  intros Ho Hn Hb. unfold write_bytes, slice, size in *. rewrite !take_app, !length_take.
  rewrite !(take_ge (take _ _)) by (rewrite length_take; lia). rewrite (take_ge l) by lia.
  repeat f_equal; lia.
Qed.

Lemma slice_write_bytes b off l o n :
  0 <= off → off + size l <= o → off + size l <= size b → slice (write_bytes b off l) o n = slice b o n.
Proof.
  intros Ho Hl Hb. unfold slice, write_bytes, size in *. f_equal.
  rewrite !drop_app, !length_take. rewrite drop_ge by (rewrite length_take; lia). rewrite (drop_ge l) by lia.
  cbn [app]. rewrite drop_drop. f_equal. lia.
Qed.

Lemma Ext4CalculateInodeChecksum_spec Inode InodeNum (s : S) :
  bytes Inode → size Inode = Z.max (InodeSize P) SIZEOF_EXT4_INODE →
  (InodeSize P < 132 → has_checksum_hi Inode = false) →
  Ext4CalculateInodeChecksum P Inode InodeNum s = Ok (inode_checksum Inode InodeNum) s.
Proof using HP Hcsum HOk.
  intros Hb Hs Hhi. pose proof (po_inode P HP) as Hi. pose proof (po_seed P HP).
  unfold SIZEOF_EXT4_INODE, EXT4_GOOD_OLD_INODE_SIZE in *.
  assert (∀ o n, 0 <= o <= 132 → 0 <= n → o + n <= Z.max (InodeSize P) 160 → 0 <= n <= size (drop (Z.to_nat o) Inode)) as Hd.
  { intros o n Ho Hn Hon. unfold size in *. rewrite length_drop. lia. }
  unfold Ext4CalculateInodeChecksum, EXT4_INODE_HAS_FIELD, EXT4_GOOD_OLD_INODE_SIZE, rd_field, at_field. layouts.
  apply wp_exact, wp_bind, wp_bind, wp_rd; [lia|lia|]. apply wp_ret.
  change (0 + 128) with 128. change (130 + Z.of_nat 2) with 132.
  change (132 <=? load 2 Inode 128 + 128) with (has_checksum_hi Inode).
  eapply wp_intro_ok; [|by split].
  apply (checksum_chain _ _ (InitialSeed P) []); [bytes_solve|rewrite size_le_bytes; lia|bytes_solve|done|].
  apply checksum_chain; [bytes_solve|by apply Hd; lia|bytes_solve|done|].
  apply checksum_chain; [bytes_solve|lia|bytes_solve|done|]. chain.
  unfold inode_checksum, clear_inode_checksum. layouts. cbv zeta. destruct (has_checksum_hi Inode) eqn:Hf.
  - assert (132 <= InodeSize P) by (destruct (Z.lt_ge_cases (InodeSize P) 132) as [Hlt|Hge]; [discriminate (Hhi Hlt)|exact Hge]).
    apply checksum_chain; [bytes_solve|by apply Hd; lia|bytes_solve|done|]. chain.
    rewrite !wrap_small by (rewrite ?wrap_small; unfold is_uint; lia).
    rewrite checksum_last; [|bytes_solve|by apply Hd; lia|bytes_solve|done].
    rewrite take_write_bytes by (rewrite ?size_write_bytes, ?size_zeros; lia || (rewrite size_zeros; lia)).
    rewrite take_write_bytes by (rewrite ?size_zeros; lia).
    rewrite slice_write_bytes by (rewrite ?size_zeros; lia).
    rewrite size_zeros by lia. rewrite !app_nil_l, <- !app_assoc.
    replace (InodeSize P - (130 + 2)) with (InodeSize P - 128 - 4) by lia. done.
  - rewrite wrapn_small by (unfold is_uint; lia).
    rewrite checksum_last; [|bytes_solve|by apply Hd; lia|bytes_solve|done].
    rewrite take_write_bytes by (rewrite ?size_zeros; lia).
    by rewrite size_zeros, !app_nil_l, <- !app_assoc by lia.
Qed.

(** What the checksum of a block group descriptor covers. *)
Definition group_checksum (Desc : list Z) (BlockGroupNum : Z) : Z :=
  wrap 16 (ext4_crc (InitialSeed P)
    (le_bytes 4 BlockGroupNum ++
     take (Z.to_nat (DescSize P)) (write_bytes Desc (offset_of EXT4_BLOCK_GROUP_DESC "bg_checksum") (zeros 2)))).

Lemma Ext4CalculateBlockGroupDescChecksumMetadataCsum_spec Desc BlockGroupNum (s : S) :
  bytes Desc → DescSize P <= size Desc →
  Ext4CalculateBlockGroupDescChecksumMetadataCsum P Desc BlockGroupNum s = Ok (group_checksum Desc BlockGroupNum) s.
Proof using HP Hcsum HOk.
  intros Hb Hs. pose proof (po_desc P HP) as Hd. pose proof (po_seed P HP). unfold EXT4_OLD_BLOCK_DESC_SIZE in Hd.
  unfold Ext4CalculateBlockGroupDescChecksumMetadataCsum, at_field, group_checksum. layouts.
  rewrite wrapn_small by (unfold is_uint; lia).
  apply (checksum_chain _ _ (InitialSeed P) []); [bytes_solve|rewrite size_le_bytes; lia|bytes_solve|done|].
  chain. chain. apply checksum_chain; [bytes_solve| |bytes_solve|done|].
  { unfold size in *. rewrite length_drop. lia. }
  rewrite take_write_bytes by (rewrite ?size_zeros; lia).
  by rewrite size_zeros, app_nil_l, <- !app_assoc by lia.
Qed.

Lemma Ext4VerifySuperblockChecksum_spec Sb (s : S) :
  bytes Sb → size Sb = size_of EXT4_SUPERBLOCK →
  Ext4VerifySuperblockChecksum P Sb s = Ok (load 4 Sb 1020 =? ext4_crc 0xffffffff (take 1020 Sb)) s.
Proof using HP Hcsum.
  intros Hb Hs. unfold Ext4VerifySuperblockChecksum, Ext4CalculateSuperblockChecksum, rd_field.
  rewrite Hcsum. cbn [negb]. change (size_of EXT4_SUPERBLOCK) with 1024 in Hs. layouts.
  apply wp_exact, wp_bind, wp_rd; [lia|lia|]. apply wp_bind.
  eapply wp_intro_ok; [by apply Ext4CalculateChecksum_spec; [|lia|]|]. by apply wp_ret.
Qed.

(** The stored checksum of an inode, and the part of the computed one it is compared to. *)
Definition inode_checksum_matches (Inode : list Z) (InodeNum : Z) : bool :=
  if has_checksum_hi Inode then
    inode_checksum Inode InodeNum =? Z.lor (load 2 Inode 124) (Z.shiftl (load 2 Inode 130) 16)
  else inode_checksum Inode InodeNum mod 2 ^ 16 =? load 2 Inode 124.

Lemma Ext4CheckInodeChecksum_spec Inode InodeNum (s : S) :
  bytes Inode → size Inode = Z.max (InodeSize P) SIZEOF_EXT4_INODE →
  (InodeSize P < 132 → has_checksum_hi Inode = false) →
  Ext4CheckInodeChecksum P Inode InodeNum s = Ok (inode_checksum_matches Inode InodeNum) s.
Proof using HP Hcsum HOk.
  intros Hb Hs Hhi. unfold Ext4CheckInodeChecksum, EXT4_INODE_HAS_FIELD, rd_field, inode_checksum_matches.
  rewrite Hcsum. cbn [negb]. unfold SIZEOF_EXT4_INODE in *. layouts.
  apply wp_exact, wp_bind. eapply wp_intro_ok; [by apply Ext4CalculateInodeChecksum_spec|].
  apply wp_bind, wp_rd; [lia|lia|]. apply wp_bind, wp_bind, wp_rd; [lia|lia|]. apply wp_ret.
  change (130 + Z.of_nat 2 <=? load 2 Inode (0 + 128) + EXT4_GOOD_OLD_INODE_SIZE) with (has_checksum_hi Inode).
  destruct (has_checksum_hi Inode).
  - apply wp_bind, wp_rd; [lia|lia|]. apply wp_ret. rewrite wrap_small; [done|].
    pose proof (load_u16 Inode 130 Hb) as Hl. unfold is_uint in *. rewrite Z.shiftl_mul_pow2 by lia. change (0 + 130) with 130. lia.
  - apply wp_ret. change 0xffff with (Z.ones 16). by rewrite Z.land_ones by lia.
Qed.

Lemma Ext4CheckExtentChecksum_spec Node F (s : S) :
  FileOk P F → bytes Node → size Node = BlockSize P →
  Ext4CheckExtentChecksum P Node F s = Ok (load 4 Node (BlockSize P - 4) =? extent_checksum Node F) s.
Proof using HP Hcsum HOk.
  intros HF Hn Hs. pose proof (BlockSize_bounds P HP) as [HB _]. unfold Ext4CheckExtentChecksum. rewrite Hcsum. cbn [negb].
  apply wp_exact, wp_bind, wp_rd; [lia|lia|]. apply wp_bind.
  eapply wp_intro_ok; [by apply Ext4CalculateExtentChecksum_spec|]. by apply wp_ret.
Qed.
End ChecksumSpecs.

(** With metadata checksums enabled, every check compares the stored checksum with the
    CRC-32C, without complements, of the structure with its checksum fields zero: of the
    superblock; of the number of a block group and its descriptor, truncated to 16 bits; of
    the number, the generation and the bytes of an inode, in full or truncated depending on
    whether the inode has the second field; of the same prefix and an extent block without
    its tail.  No check reads outside of its structure or fails an ASSERT. *)
Theorem ext4_checksums_exact `{!Platform, !PlatformOk} {S} (P : EXT4_PARTITION) (HP : PartitionOk P)
    (Hcsum : EXT4_HAS_METADATA_CSUM P = true) (s : S) :
  (∀ Sb, bytes Sb → size Sb = size_of EXT4_SUPERBLOCK →
     Ext4VerifySuperblockChecksum P Sb s = Ok (load 4 Sb 1020 =? crc CRC32C_POLY 0xffffffff (take 1020 Sb)) s) ∧
  (∀ Desc Num, bytes Desc → DescSize P <= size Desc →
     Ext4VerifyBlockGroupDescChecksum P Desc Num s = Ok (group_checksum P Desc Num =? load 2 Desc 30) s) ∧
  (∀ Inode Num, bytes Inode → size Inode = Z.max (InodeSize P) SIZEOF_EXT4_INODE →
     (InodeSize P < 132 → has_checksum_hi Inode = false) →
     Ext4CheckInodeChecksum P Inode Num s = Ok (inode_checksum_matches P Inode Num) s) ∧
  (∀ Node F, FileOk P F → bytes Node → size Node = BlockSize P →
     Ext4CheckExtentChecksum P Node F s = Ok (load 4 Node (BlockSize P - 4) =? extent_checksum P Node F) s).
Proof.
  split_and!.
  - intros Sb Hb Hs. by apply Ext4VerifySuperblockChecksum_spec.
  - intros Desc Num Hb Hs. pose proof (po_desc P HP) as Hd. unfold EXT4_OLD_BLOCK_DESC_SIZE in Hd.
    unfold Ext4VerifyBlockGroupDescChecksum, Ext4CalculateBlockGroupDescChecksum, rd_field. rewrite Hcsum. cbn [negb andb].
    layouts. apply wp_exact, wp_bind.
    eapply wp_intro_ok; [by apply Ext4CalculateBlockGroupDescChecksumMetadataCsum_spec|].
    apply wp_bind, wp_rd; [lia|lia|]. by apply wp_ret.
  - intros Inode Num Hb Hs Hhi. by apply Ext4CheckInodeChecksum_spec.
  - intros Node F HF Hn Hs. by apply Ext4CheckExtentChecksum_spec.
Qed.

(** A partition with 1024-byte blocks and metadata checksums. *)
Definition sample_partition : EXT4_PARTITION :=
  mkPartition (write_bytes (zeros 1024) 373 [1]) 0x40 0 0x400 128 1024 false 1 8192 (zeros 1024) 32 0x12345678.

Lemma sample_partition_ok : PartitionOk sample_partition.
Proof.
  constructor; try by vm_compute.
  - by apply bytes_decide.
  - by exists 0.
Qed.

Lemma ext4_checksums_exact_witness :
  @Ext4VerifySuperblockChecksum platform_x64 unit sample_partition (SuperBlock sample_partition) tt = Ok false tt.
Proof.
  rewrite (proj1 (@ext4_checksums_exact platform_x64 platform_x64_ok unit sample_partition sample_partition_ok eq_refl tt)
    (SuperBlock sample_partition) (po_super_bytes _ sample_partition_ok) (po_super _ sample_partition_ok)).
  vm_compute. reflexivity.
Defined.
