(* ===== verification/Ext4BlockMap.v ===== *)
(** The block maps of ext2 and ext3 (Ext4Pkg/Ext4Dxe/BlockMap.c): the path of a logical block
    through the indirect blocks, and the extent of contiguous blocks, or the hole, it starts. *)
From Stdlib Require Import String.
From stdpp Require Import gmap.
From S2P Require Import Prelude OrderedCollection OrderedLib Base Buffer Overflow Platform PeImage Ext4Disk.
#[local] Open Scope string_scope.
#[local] Open Scope list_scope.
#[local] Open Scope Z_scope.

Inductive EXT4_LOGICAL_BLOCK_TYPE :=
| EXT4_TYPE_DIRECT_BLOCK
| EXT4_TYPE_SINGLY_BLOCK
| EXT4_TYPE_DOUBLY_BLOCK
| EXT4_TYPE_TREBLY_BLOCK
| EXT4_TYPE_BAD_BLOCK.

(** The value of the enumeration. *)
Definition type_value (Type_ : EXT4_LOGICAL_BLOCK_TYPE) : Z :=
  match Type_ with
  | EXT4_TYPE_DIRECT_BLOCK => 0
  | EXT4_TYPE_SINGLY_BLOCK => 1
  | EXT4_TYPE_DOUBLY_BLOCK => 2
  | EXT4_TYPE_TREBLY_BLOCK => 3
  | EXT4_TYPE_BAD_BLOCK => 4
  end.

(** All arithmetic is on UINT32. *)
Definition Ext4DetectBlockType (LogicalBlock : Z) (Partition : EXT4_PARTITION) : EXT4_LOGICAL_BLOCK_TYPE :=
  let Entries := BlockSize Partition / 4 in
  let MinSinglyBlock := EXT4_DBLOCKS in
  let MinDoublyBlock := wrap 32 (Entries + MinSinglyBlock) in
  let MinTreblyBlock := wrap 32 (Entries * Entries + MinDoublyBlock) in
  let MinQuadBlock := wrap 32 (Entries * Entries * Entries + MinTreblyBlock) in
  if LogicalBlock <? MinSinglyBlock then EXT4_TYPE_DIRECT_BLOCK
  else if (MinSinglyBlock <=? LogicalBlock) && (LogicalBlock <? MinDoublyBlock) then EXT4_TYPE_SINGLY_BLOCK
  else if (MinDoublyBlock <=? LogicalBlock) && (LogicalBlock <? MinTreblyBlock) then EXT4_TYPE_DOUBLY_BLOCK
  else if (MinTreblyBlock <=? LogicalBlock) && (LogicalBlock <? MinQuadBlock) then EXT4_TYPE_TREBLY_BLOCK
  else EXT4_TYPE_BAD_BLOCK.

(** Returns the length of the path and the elements of BlockPath that were assigned. *)
Definition Ext4GetBlockPath {S} (Partition : EXT4_PARTITION) (LogicalBlock : Z) : M S (Z * list Z) :=
  let Entries := BlockSize Partition / 4 in
  let EntriesEntries := wrap 32 (Entries * Entries) in
  let MinSinglyBlock := EXT4_DBLOCKS in
  let MinDoublyBlock := wrap 32 (Entries + MinSinglyBlock) in
  let MinTreblyBlock := wrap 32 (EntriesEntries + MinDoublyBlock) in
  let Type_ := Ext4DetectBlockType LogicalBlock Partition in
  BlockPath ←
    match Type_ with
    | EXT4_TYPE_DIRECT_BLOCK => mret [LogicalBlock]
    | EXT4_TYPE_SINGLY_BLOCK => mret [EXT4_IND_BLOCK; wrap 32 (LogicalBlock - EXT4_DBLOCKS)]
    | EXT4_TYPE_DOUBLY_BLOCK =>
        let LogicalBlock := wrap 32 (LogicalBlock - MinDoublyBlock) in
        require (negb (Entries =? 0)) UndefinedBehaviour;;
        mret [EXT4_DIND_BLOCK; LogicalBlock / Entries; LogicalBlock mod Entries]
    | EXT4_TYPE_TREBLY_BLOCK =>
        let LogicalBlock := wrap 32 (LogicalBlock - MinTreblyBlock) in
        require (negb (EntriesEntries =? 0) && negb (Entries =? 0)) UndefinedBehaviour;;
        mret [EXT4_DIND_BLOCK; LogicalBlock / EntriesEntries;
              LogicalBlock mod EntriesEntries / Entries; (LogicalBlock mod EntriesEntries) mod Entries]
    | EXT4_TYPE_BAD_BLOCK => mret []
    end;
  mret (type_value Type_ + 1, BlockPath).

(** [Buffer[Index]] of an array of UINT32. *)
Definition rd32 {S} (Buffer : list Z) (Index : Z) : M S Z := rd 4 Buffer (4 * Index).

(** The number of further entries is [n]. *)
Fixpoint HoleLoop {S} (n : nat) (Buffer : list Z) (Index Count : Z) : M S Z :=
  match n with
  | O => mret Count
  | S k =>
      if Count =? EXT4_EXTENT_MAX_INITIALIZED - 1 then mret Count
      else
        Block ← rd32 Buffer Index;
        if Block =? EXT4_BLOCK_FILE_HOLE then HoleLoop k Buffer (Index + 1) (wrap 16 (Count + 1)) else mret Count
  end.

Fixpoint RunLoop {S} (n : nat) (Buffer : list Z) (Index Count LastBlock : Z) : M S Z :=
  match n with
  | O => mret Count
  | S k =>
      if Count =? EXT4_EXTENT_MAX_INITIALIZED then mret Count
      else
        Block ← rd32 Buffer Index;
        if (Block =? wrap 32 (LastBlock + 1)) && negb (Block =? EXT4_BLOCK_FILE_HOLE)
        then RunLoop k Buffer (Index + 1) (wrap 16 (Count + 1)) Block
        else mret Count
  end.

(** [*Extent] with ee_block, which the caller has assigned. *)
Definition Ext4GetExtentInBlockMap {S} (Buffer : list Z) (IndEntries StartIndex ee_block_ : Z) : M S EXT4_EXTENT :=
  FirstBlock ← rd32 Buffer StartIndex;
  let n := Z.to_nat (IndEntries - (StartIndex + 1)) in
  if FirstBlock =? EXT4_BLOCK_FILE_HOLE then
    Count ← HoleLoop n Buffer (StartIndex + 1) 1;
    mret (mkExtent ee_block_ (wrap 16 (EXT4_EXTENT_MAX_INITIALIZED + Count)) 0 0)
  else
    Count ← RunLoop n Buffer (StartIndex + 1) 1 FirstBlock;
    mret (mkExtent ee_block_ Count 0 FirstBlock).

(** [BlockPath[Index]], assigned. *)
Definition path_entry {S} (BlockPath : list Z) (Index : Z) : M S Z :=
  match BlockPath !! Z.to_nat Index with Some x => mret x | None => crash UndefinedBehaviour end.

Section GetBlocks.
Context `{OC : !OrderedCollectionLib (loc * EXT4_EXTENT) Z, !Platform, !Firmware} (Partition : EXT4_PARTITION).

(** [FreePool (Buffer); return Status;] *)
Definition free_and_raise {A} (Buffer : ptr) (Status : RETURN_STATUS) : M ext4 A :=
  FreeBuffer Buffer;; raise Status.

(** [Inode->i_data] *)
Definition i_data (File : EXT4_FILE) : list Z := slice (Inode File) (offset_of EXT4_INODE "i_data") 60.

(** One step along the path: [Contents] is what is in the buffer, nothing at first. *)
Definition ReadIndirect (File : EXT4_FILE) (Buffer : ptr) (BlockPath : list Z) (Index : Z) (Contents : list Z) :
    M ext4 (list Z) :=
  BlockIndex ← path_entry BlockPath Index;
  Block ← (if Index =? 0 then rd32 (i_data File) BlockIndex else rd32 Contents BlockIndex);
  if Block =? EXT4_BLOCK_FILE_HOLE then free_and_raise Buffer RETURN_NO_MAPPING
  else
    Room ← BufferSize Buffer;
    Status ← attempt (Ext4ReadBlocks Partition Room 1 Block);
    match Status with
    | inl e => free_and_raise Buffer e
    | inr data => mret data
    end.

Definition Ext4GetBlocks (File : EXT4_FILE) (LogicalBlock : Z) : M ext4 EXT4_EXTENT :=
  '(BlockPathLength, BlockPath) ← Ext4GetBlockPath Partition LogicalBlock;
  fail_if (BlockPathLength - 1 =? type_value EXT4_TYPE_BAD_BLOCK) RETURN_NO_MAPPING;;
  if BlockPathLength =? 1 then
    First ← path_entry BlockPath 0;
    Ext4GetExtentInBlockMap (i_data File) EXT4_DBLOCKS First LogicalBlock
  else
    Buffer ← AllocateBuffer (BlockSize Partition);
    match Buffer with
    | None => raise RETURN_OUT_OF_RESOURCES
    | Some _ =>
        Contents ← for_loop (Z.to_nat (BlockPathLength - 1)) 0 (ReadIndirect File Buffer BlockPath) [];
        Last ← path_entry BlockPath (BlockPathLength - 1);
        Extent ← Ext4GetExtentInBlockMap Contents (BlockSize Partition / 4) Last LogicalBlock;
        FreeBuffer Buffer;;
        mret Extent
    end.
End GetBlocks.

(** ** Paths *)

(** The path of a block through tables of [E] entries, with the entry of the inode that is the
    root of the trebly indirect paths: EXT4_TIND_BLOCK in the format, EXT4_DIND_BLOCK in the
    code.  The other paths do not depend on it. *)
Inductive block_path (Root E : Z) : Z → list Z → Prop :=
| path_direct b : 0 <= b < EXT4_DBLOCKS → block_path Root E b [b]
| path_singly a : 0 <= a < E → block_path Root E (EXT4_DBLOCKS + a) [EXT4_IND_BLOCK; a]
| path_doubly a b : 0 <= a < E → 0 <= b < E →
    block_path Root E (EXT4_DBLOCKS + E + (a * E + b)) [EXT4_DIND_BLOCK; a; b]
| path_trebly a b c : 0 <= a < E → 0 <= b < E → 0 <= c < E →
    block_path Root E (EXT4_DBLOCKS + E + E * E + ((a * E + b) * E + c)) [Root; a; b; c].

(** The first trebly indirect block. *)
Definition first_trebly (E : Z) : Z := EXT4_DBLOCKS + E + E * E.

(** A power of the number of entries counts only while it fits UINT32. *)
Definition fitting (x : Z) : Z := if x <? 2 ^ 32 then x else 0.

(** The number of blocks the code can map. *)
Definition mappable (E : Z) : Z := EXT4_DBLOCKS + E + fitting (E * E) + fitting (E * E * E).

Lemma entries_cases P : PartitionOk P →
  let E := BlockSize P / 4 in
  256 <= E <= 2 ^ 19 ∧ BlockSize P = 4 * E ∧
  wrap 32 (E * E) = fitting (E * E) ∧ wrap 32 (E * E * E) = fitting (E * E * E) ∧
  fitting (E * E) + fitting (E * E * E) <= 2 ^ 31 ∧ (fitting (E * E) = 0 → fitting (E * E * E) = 0).
Proof.
  intros HP E. destruct (po_block P HP) as (n & Hn & HB). unfold EXT4_LOG_BLOCK_SIZE_MAX in Hn. unfold E. clear E.
  assert (n = 0 ∨ n = 1 ∨ n = 2 ∨ n = 3 ∨ n = 4 ∨ n = 5 ∨ n = 6 ∨ n = 7 ∨ n = 8 ∨ n = 9 ∨ n = 10 ∨ n = 11) as Hc by lia.
  rewrite HB. by repeat (destruct Hc as [->|Hc] || subst n).
Qed.

(** The bounds as the code computes them. *)
Lemma block_bounds P : PartitionOk P →
  let E := BlockSize P / 4 in
  wrap 32 (E + EXT4_DBLOCKS) = EXT4_DBLOCKS + E ∧
  wrap 32 (E * E + wrap 32 (E + EXT4_DBLOCKS)) = EXT4_DBLOCKS + E + fitting (E * E) ∧
  wrap 32 (wrap 32 (E * E) + wrap 32 (E + EXT4_DBLOCKS)) = EXT4_DBLOCKS + E + fitting (E * E) ∧
  wrap 32 (E * E * E + wrap 32 (E * E + wrap 32 (E + EXT4_DBLOCKS))) = mappable E.
Proof.
  intros HP E. destruct (entries_cases P HP) as (HE & _ & H2 & H3 & Hsum & _). fold E in HE, H2, H3, Hsum.
  assert (0 <= fitting (E * E) ∧ 0 <= fitting (E * E * E)) as [? ?].
  { unfold fitting. split; destruct (_ <? _); nia. }
  unfold mappable, EXT4_DBLOCKS.
  assert (wrap 32 (E + 12) = 12 + E) as -> by (rewrite wrap_small; unfold is_uint; lia).
  rewrite <- (wrap_add_l 32 (E * E)), H2 by lia.
  assert (wrap 32 (fitting (E * E) + (12 + E)) = 12 + E + fitting (E * E)) as Ht by (rewrite wrap_small; unfold is_uint; lia).
  rewrite Ht, <- (wrap_add_l 32 (E * E * E)), H3 by lia. split_and!; [done|done|done|].
  rewrite wrap_small; unfold is_uint; lia.
Qed.

(** A number split into two digits. *)
Lemma digits E x : 0 < E → 0 <= x < E * E → 0 <= x / E < E ∧ 0 <= x mod E < E ∧ x = x / E * E + x mod E.
Proof.
  intros HE Hx. pose proof (Z.mod_pos_bound x E HE). pose proof (Z.div_mod x E).
  split; [split; [apply Z.div_pos; lia|apply Z.div_lt_upper_bound; lia]|lia].
Qed.

Lemma Ext4GetBlockPath_spec {S} P LogicalBlock (s : S) :
  PartitionOk P → u32 LogicalBlock →
  let E := BlockSize P / 4 in
  wp (Ext4GetBlockPath P LogicalBlock)
    (λ r s', s' = s ∧
       if LogicalBlock <? mappable E then block_path EXT4_DIND_BLOCK E LogicalBlock r.2 ∧ r.1 = Z.of_nat (length r.2)
       else r = (type_value EXT4_TYPE_BAD_BLOCK + 1, []))
    (λ _ _, False) s.
Proof.
  intros HP HL E. destruct (entries_cases P HP) as (HE & _ & H2 & _ & _ & H0). fold E in HE, H2, H0.
  destruct (block_bounds P HP) as (B1 & B2 & B3 & B4). fold E in B1, B2, B3, B4.
  unfold Ext4GetBlockPath, Ext4DetectBlockType. cbv zeta. fold E. rewrite B4, B2, B3, B1, H2.
  unfold is_uint in HL. assert (0 <= fitting (E * E)) by (unfold fitting; destruct (_ <? _); nia).
  assert (0 <= fitting (E * E * E)) by (unfold fitting; destruct (_ <? _); nia).
  assert (∀ x, fitting x ≠ 0 → fitting x = x) as Hfit by (intros x; unfold fitting; by destruct (_ <? _)).
  set (l := LogicalBlock) in *. unfold mappable, EXT4_DBLOCKS, EXT4_IND_BLOCK in *.
  destruct (Z.ltb_spec l 12), (Z.leb_spec 12 l), (Z.ltb_spec l (12 + E)), (Z.leb_spec (12 + E) l),
    (Z.ltb_spec l (12 + E + fitting (E * E))), (Z.leb_spec (12 + E + fitting (E * E)) l),
    (Z.ltb_spec l (12 + E + fitting (E * E) + fitting (E * E * E))); cbn [andb]; try lia; apply wp_bind.
  - apply wp_ret, wp_ret. split; [done|]. split; [apply path_direct; unfold EXT4_DBLOCKS; lia|done].
  - apply wp_ret, wp_ret. split; [done|]. rewrite wrap_small by (unfold is_uint; lia). split; [|done].
    cbn [snd]. replace l with (EXT4_DBLOCKS + (l - 12)) at 1 by (unfold EXT4_DBLOCKS; lia). apply path_singly. lia.
  - assert (fitting (E * E) = E * E) as Hf2 by (apply Hfit; lia).
    apply wp_bind, wp_require; [apply negb_true_iff, Z.eqb_neq; lia|]. apply wp_ret, wp_ret. split; [done|].
    rewrite wrap_small by (unfold is_uint; lia). destruct (digits E (l - (12 + E))) as (Ha & Hb & Hd); [lia|lia|].
    split; [|done]. cbn [snd].
    replace l with (EXT4_DBLOCKS + E + ((l - (12 + E)) / E * E + (l - (12 + E)) mod E)) at 1
      by (unfold EXT4_DBLOCKS; lia). by apply path_doubly.
  - assert (fitting (E * E * E) = E * E * E) as Hf3 by (apply Hfit; lia).
    assert (fitting (E * E) = E * E) as Hf2 by (apply Hfit; lia). rewrite Hf2 in *.
    set (x := l - (12 + E + E * E)).
    apply wp_bind, wp_require; [apply andb_true_iff; split; apply negb_true_iff, Z.eqb_neq; nia|].
    apply wp_ret, wp_ret. split; [done|]. rewrite wrap_small by (unfold is_uint; lia). fold x.
    assert (0 < E * E) by nia. pose proof (Z.mod_pos_bound x (E * E)) as Hm. pose proof (Z.div_mod x (E * E)) as Hdm.
    destruct (digits E (x mod (E * E))) as (Ha & Hb & Hd); [lia|lia|].
    assert (0 <= x / (E * E) < E) as Hc.
    { split; [apply Z.div_pos; unfold x; lia|]. apply Z.div_lt_upper_bound; unfold x; lia. }
    split; [|done]. cbn [snd].
    replace l with (EXT4_DBLOCKS + E + E * E + ((x / (E * E) * E + x mod (E * E) / E) * E + (x mod (E * E)) mod E)) at 1
      by (unfold EXT4_DBLOCKS, x in *; nia). by apply path_trebly.
  - by apply wp_ret, wp_ret.
Qed.

(** ** Extents of a table *)

Section Table.
Context {S : Type} (Buffer : list Z) (HBuffer : bytes Buffer).

(** The entry of the table. *)
Definition table_entry (i : Z) : Z := load 4 Buffer (4 * i).

Lemma wp_rd32 i (Q : Z → S → Prop) E s :
  0 <= i → 4 * i + 4 <= size Buffer → Q (table_entry i) s → wp (rd32 Buffer i) Q E s.
Proof. intros. apply wp_rd; [lia|lia|done]. Qed.

(** [Count] entries from [start] on satisfy [R], which is false of the next one. *)
Lemma HoleLoop_spec n : ∀ start Count (s : S),
  0 <= start → 1 <= Count <= EXT4_EXTENT_MAX_INITIALIZED - 1 → 4 * (start + Count + Z.of_nat n) <= size Buffer →
  (∀ j, 0 <= j < Count → table_entry (start + j) = 0) →
  wp (HoleLoop n Buffer (start + Count) Count)
    (λ c s', s' = s ∧ Count <= c <= Count + Z.of_nat n ∧ c <= EXT4_EXTENT_MAX_INITIALIZED - 1 ∧
       (∀ j, 0 <= j < c → table_entry (start + j) = 0) ∧
       (c = EXT4_EXTENT_MAX_INITIALIZED - 1 ∨ c = Count + Z.of_nat n ∨ table_entry (start + c) ≠ 0))
    (λ _ _, False) s.
Proof using HBuffer.
  unfold EXT4_EXTENT_MAX_INITIALIZED. induction n as [|n IH]; intros start Count s Hs HC Hn Hj; cbn [HoleLoop].
  - apply wp_ret. split_and!; [done|lia|lia|lia|done|]. right. left. lia.
  - unfold EXT4_EXTENT_MAX_INITIALIZED. destruct (Z.eqb_spec Count (32768 - 1)) as [->|Hne].
    { apply wp_ret. split_and!; [done|lia|lia|lia|done|by left]. }
    apply wp_bind, wp_rd32; [lia|lia|]. unfold EXT4_BLOCK_FILE_HOLE.
    destruct (Z.eqb_spec (table_entry (start + Count)) 0) as [Hz|Hz].
    + rewrite wrap_small by (unfold is_uint; lia). rewrite <- Z.add_assoc.
      eapply wp_mono; [apply IH; [lia|lia|lia|]| |done].
      * intros j Hj'. destruct (decide (j = Count)) as [->|]; [done|]. apply Hj. lia.
      * intros c s' (-> & Hc & Hm & Hall & Hend). split_and!; [done|lia|lia|lia|done|].
        destruct Hend as [?|[->|?]]; [by left|right; left; lia|by right; right].
    + apply wp_ret. split_and!; [done|lia|lia|lia|done|by right; right].
Qed.

Lemma RunLoop_spec n first : ∀ start Count (s : S),
  0 <= start → 1 <= Count <= EXT4_EXTENT_MAX_INITIALIZED → 4 * (start + Count + Z.of_nat n) <= size Buffer →
  0 < first → first + Count - 1 < 2 ^ 32 → (∀ j, 0 <= j < Count → table_entry (start + j) = first + j) →
  wp (RunLoop n Buffer (start + Count) Count (first + Count - 1))
    (λ c s', s' = s ∧ Count <= c <= Count + Z.of_nat n ∧ c <= EXT4_EXTENT_MAX_INITIALIZED ∧ first + c - 1 < 2 ^ 32 ∧
       (∀ j, 0 <= j < c → table_entry (start + j) = first + j) ∧
       (c = EXT4_EXTENT_MAX_INITIALIZED ∨ c = Count + Z.of_nat n ∨ table_entry (start + c) ≠ first + c))
    (λ _ _, False) s.
Proof using HBuffer.
  unfold EXT4_EXTENT_MAX_INITIALIZED. induction n as [|n IH]; intros start Count s Hs HC Hn Hf Hl Hj; cbn [RunLoop].
  - apply wp_ret. split_and!; [done|lia|lia|lia|done|done|]. right. left. lia.
  - unfold EXT4_EXTENT_MAX_INITIALIZED. destruct (Z.eqb_spec Count 32768) as [->|Hne].
    { apply wp_ret. split_and!; [done|lia|lia|lia|done|done|by left]. }
    apply wp_bind, wp_rd32; [lia|lia|]. unfold EXT4_BLOCK_FILE_HOLE.
    pose proof (load_u32 Buffer (4 * (start + Count)) HBuffer) as Hr. fold (table_entry (start + Count)) in Hr. unfold is_uint in Hr.
    replace (first + Count - 1 + 1) with (first + Count) by lia.
    destruct (Z.eq_dec (first + Count) (2 ^ 32)) as [Hw|Hw].
    { unfold wrap. rewrite Hw, Z.mod_same by lia. replace (_ && _) with false.
      - apply wp_ret. split_and!; [done|lia|lia|lia|lia|done|right; right; lia].
      - by destruct (table_entry (start + Count) =? 0). }
    rewrite wrap_small by (unfold is_uint; lia).
    destruct (Z.eqb_spec (table_entry (start + Count)) (first + Count)) as [Hz|Hz]; cbn [andb].
    + rewrite (proj2 (Z.eqb_neq _ 0)) by lia. cbn [negb]. rewrite wrap_small by (unfold is_uint; lia).
      rewrite <- Z.add_assoc, Hz. replace (first + Count) with (first + (Count + 1) - 1) by lia.
      eapply wp_mono; [apply IH; [lia|lia|lia|lia|lia|]| |done].
      * intros j Hj'. destruct (decide (j = Count)) as [->|]; [done|]. apply Hj. lia.
      * intros c s' (-> & Hc & Hm & Hb & Hall & Hend). split_and!; [done|lia|lia|lia|lia|done|].
        destruct Hend as [?|[->|?]]; [by left|right; left; lia|by right; right].
    + apply wp_ret. split_and!; [done|lia|lia|lia|lia|done|by right; right].
Qed.

(** The longest extent of at most 32768 blocks, or hole of at most 32767, that starts at an
    entry of a table of [n] entries. *)
Record longest_run (n start : Z) (Extent : EXT4_EXTENT) : Prop := {
  run_bounds : 1 <= Ext4GetExtentLength Extent ∧ start + Ext4GetExtentLength Extent <= n;
  run_hi : ee_start_hi Extent = 0;
  run_lo : ee_start_lo Extent = table_entry start;
  run_uninit : EXT4_EXTENT_IS_UNINITIALIZED Extent = (table_entry start =? 0);
  run_len : u16 (ee_len Extent);
  run_blocks : ∀ j, 0 <= j < Ext4GetExtentLength Extent →
    table_entry (start + j) = if EXT4_EXTENT_IS_UNINITIALIZED Extent then 0 else table_entry start + j;
  run_longest : let c := Ext4GetExtentLength Extent in
    c = (if EXT4_EXTENT_IS_UNINITIALIZED Extent then 32767 else 32768) ∨ start + c = n ∨
    table_entry (start + c) ≠ (if EXT4_EXTENT_IS_UNINITIALIZED Extent then 0 else table_entry start + c);
}.

Lemma Ext4GetExtentInBlockMap_spec n start b (s : S) :
  0 <= start < n → 4 * n <= size Buffer →
  wp (Ext4GetExtentInBlockMap Buffer n start b)
    (λ e s', s' = s ∧ ee_block e = b ∧ longest_run n start e) (λ _ _, False) s.
Proof using HBuffer.
  intros Hs Hn. unfold Ext4GetExtentInBlockMap. apply wp_bind, wp_rd32; [lia|lia|]. cbv zeta.
  pose proof (load_u32 Buffer (4 * start) HBuffer) as Hr. fold (table_entry start) in Hr. unfold is_uint in Hr.
  assert (∀ j, 0 <= j < 1 → j = 0) as H01 by lia. unfold EXT4_BLOCK_FILE_HOLE.
  destruct (Z.eqb_spec (table_entry start) 0) as [Hz|Hz]; apply wp_bind.
  - eapply wp_mono; [apply HoleLoop_spec; [lia|by compute|lia|]| |done].
    { intros j ->%H01. by rewrite Z.add_0_r. }
    unfold EXT4_EXTENT_MAX_INITIALIZED. intros c s' (-> & Hc & Hm & Hall & Hend). apply wp_ret. split; [done|]. split; [done|].
    rewrite wrap_small by (unfold is_uint; lia).
    assert (EXT4_EXTENT_IS_UNINITIALIZED (mkExtent b (32768 + c) 0 0) = true) as Hu by (apply Z.ltb_lt; cbn; unfold EXT4_EXTENT_MAX_INITIALIZED; lia).
    assert (Ext4GetExtentLength (mkExtent b (32768 + c) 0 0) = c) as Hlen.
    { unfold Ext4GetExtentLength. rewrite Hu. cbn. unfold EXT4_EXTENT_MAX_INITIALIZED. lia. }
    split; rewrite ?Hu, ?Hlen; cbn; rewrite ?Hz; done || lia || (unfold is_uint; lia).
  - replace (table_entry start) with (table_entry start + 1 - 1) at 1 by lia.
    eapply wp_mono; [apply (RunLoop_spec _ (table_entry start)); [lia|by compute|lia|lia|lia|]| |done].
    { intros j ->%H01. by rewrite !Z.add_0_r. }
    unfold EXT4_EXTENT_MAX_INITIALIZED. intros c s' (-> & Hc & Hm & Hb & Hall & Hend). apply wp_ret. split; [done|]. split; [done|].
    assert (EXT4_EXTENT_IS_UNINITIALIZED (mkExtent b c 0 (table_entry start)) = false) as Hu by (apply Z.ltb_ge; cbn; unfold EXT4_EXTENT_MAX_INITIALIZED; lia).
    assert (Ext4GetExtentLength (mkExtent b c 0 (table_entry start)) = c) as Hlen by (unfold Ext4GetExtentLength; by rewrite Hu).
    split; rewrite ?Hu, ?Hlen; cbn; rewrite ?(proj2 (Z.eqb_neq _ _) Hz); done || lia || (unfold is_uint; lia).
Qed.
End Table.

(** ** Looking up a block *)

Section Lookup.
Context `{OC : !OrderedCollectionLib (loc * EXT4_EXTENT) Z, !Platform, HOk : !PlatformOk, !Firmware}.
Context (P : EXT4_PARTITION) (HP : PartitionOk P) (F : EXT4_FILE) (HF : FileOk P F).

Abbreviation Entries := (BlockSize P / 4).

(** The table a path leads to: the inode's own, or one read from the disk. *)
Inductive table_at : list Z → list Z → Prop :=
| table_root : table_at [] (i_data F)
| table_step path Table i data t :
    table_at path Table → table_entry Table i ≠ 0 →
    ReadDisk t (table_entry Table i * BlockSize P) (BlockSize P) = inr data → table_at (path ++ [i]) data.

(** The block of the disk that holds a logical block; zero for a hole. *)
Definition block_at (LogicalBlock Block : Z) : Prop :=
  ∃ path i Table, block_path EXT4_TIND_BLOCK Entries LogicalBlock (path ++ [i]) ∧ table_at path Table ∧
    Block = table_entry Table i.

(** The number of entries of a table that are data blocks. *)
Definition data_entries (path : list Z) : Z := match path with [] => EXT4_DBLOCKS | _ => Entries end.

Lemma size_i_data : size (i_data F) = 60.
Proof using HF.
  unfold i_data. rewrite size_slice; [done|by vm_compute|lia|]. rewrite (fo_inode P F HF).
  change (offset_of EXT4_INODE "i_data") with 40. unfold SIZEOF_EXT4_INODE. lia.
Qed.

Lemma bytes_i_data : bytes (i_data F).
Proof using HF. apply bytes_slice, (fo_inode_bytes P F HF). Qed.

(** The elements of a path. *)
Lemma block_path_split Root E l path : block_path Root E l path → ∃ q i, path = q ++ [i].
Proof.
  intros []; [by eexists [], _|by eexists [_], _|by eexists [_; _], _|by eexists [_; _; _], _].
Qed.

Lemma block_path_lookup Root E l path k x :
  0 <= Root < 15 → block_path Root E l path → path !! k = Some x → 0 <= x < match k with O => 15 | _ => E end.
Proof.
  intros HRoot [] Hk; unfold EXT4_DBLOCKS, EXT4_IND_BLOCK, EXT4_DIND_BLOCK in *;
    destruct k as [|[|[|[|k]]]]; cbn in Hk; simplify_eq; cbn; lia.
Qed.

(** The blocks behind an entry have the entries behind it. *)
Lemma block_path_next Root E l q i j :
  block_path Root E l (q ++ [i]) → 0 <= j → i + j < (match q with [] => EXT4_DBLOCKS | _ => E end) →
  block_path Root E (l + j) (q ++ [i + j]).
Proof.
  intros Hp Hj Hlt. remember (q ++ [i]) as path eqn:Hpath. destruct Hp;
    (destruct q as [|q1 [|q2 [|q3 [|q4 q]]]]; try discriminate Hpath); try (by destruct q);
    cbn in Hpath; simplify_eq; cbn [app] in Hlt |- *.
  - apply path_direct. lia.
  - rewrite <- Z.add_assoc. apply path_singly. lia.
  - replace (_ + j) with (EXT4_DBLOCKS + E + (q2 * E + (i + j))) by lia. apply path_doubly; lia.
  - replace (_ + j) with (EXT4_DBLOCKS + E + E * E + ((q2 * E + q3) * E + (i + j))) by lia. apply path_trebly; lia.
Qed.

(** Below the trebly indirect blocks the code's paths are those of the format. *)
Lemma block_path_root Root Root' E l path :
  0 <= E → l < first_trebly E → block_path Root E l path → block_path Root' E l path.
Proof.
  unfold first_trebly. intros HE Hl Hp. destruct Hp as [?|?|?|a b c]; [by apply path_direct|by apply path_singly|by apply path_doubly|].
  exfalso. nia.
Qed.

(** What a successful lookup returns: the longest run of the table the code's path leads to. *)
Definition block_extent (LogicalBlock : Z) (Extent : EXT4_EXTENT) : Prop :=
  ee_block Extent = LogicalBlock ∧
  ∃ path i Table, block_path EXT4_DIND_BLOCK Entries LogicalBlock (path ++ [i]) ∧ table_at path Table ∧
    longest_run Table (data_entries path) i Extent.

(** Below the trebly indirect blocks, every block of the extent is where the block map says. *)
Lemma block_extent_maps LogicalBlock Extent :
  block_extent LogicalBlock Extent →
  ee_block Extent = LogicalBlock ∧ 0 < Ext4GetExtentLength Extent ∧
  (LogicalBlock < first_trebly Entries → ∀ j, 0 <= j < Ext4GetExtentLength Extent →
    block_at (LogicalBlock + j)
      (if EXT4_EXTENT_IS_UNINITIALIZED Extent then 0 else ee_start_lo Extent + j)).
Proof using HP.
  destruct (entries_cases P HP) as (HE & _). intros (Hb & path & i & Table & Hp & Ht & Hr). destruct (run_bounds _ _ _ _ Hr) as [Hc Hend].
  split_and!; [done|lia|]. intros Hl j Hj. exists path, (i + j), Table. split_and!; [|done|].
  - apply block_path_next; [apply (block_path_root EXT4_DIND_BLOCK); [lia|done|done]|lia|]. unfold data_entries in Hend. destruct path; lia.
  - rewrite (run_blocks _ _ _ _ Hr j Hj), (run_lo _ _ _ _ Hr). done.
Qed.

(** *** The walk *)

(** The buffer is allocated and nothing else has changed. *)
Definition with_buffer (x : loc) (s s' : ext4) : Prop := s' ≡ with_Buffers (<[x := BlockSize P]> (Buffers s)) s.

Lemma with_buffer_freed x s s' :
  Buffers s !! x = None → with_buffer x s s' → with_Buffers (delete x (Buffers s')) s' ≡ s.
Proof.
  intros Hx (H1 & H2 & H3 & H4). cbn in *. split_and!; cbn; [done|done| |done]. rewrite H3. by apply delete_insert_id.
Qed.

Lemma with_buffer_lookup x s s' : with_buffer x s s' → Buffers s' !! x = Some (BlockSize P).
Proof. intros (_ & _ & H3 & _). rewrite H3. apply lookup_insert_eq. Qed.

(** Freeing the buffer on an error path. *)
Lemma wp_free_and_raise {A} x e s s' (Q : A → ext4 → Prop) (E : RETURN_STATUS → ext4 → Prop) :
  Buffers s !! x = None → with_buffer x s s' → (∀ s'', s'' ≡ s → E e s'') → wp (free_and_raise (Some x) e) Q E s'.
Proof.
  intros Hx Hs HE. apply wp_bind. eapply wp_FreeBuffer; [by eapply with_buffer_lookup|].
  apply wp_raise, HE. by apply with_buffer_freed.
Qed.

(** What the buffer holds after [k] steps. *)
Definition contents_ok (path : list Z) (k : Z) (Contents : list Z) : Prop :=
  if k =? 0 then Contents = [] else table_at (take (Z.to_nat k) path) Contents ∧ size Contents = BlockSize P ∧ bytes Contents.

(** The errors of a walk: an indirect block on the path is missing or cannot be read. *)
Definition walk_error (Root LogicalBlock : Z) (e : RETURN_STATUS) : Prop :=
  ∃ path i rest Table, block_path Root Entries LogicalBlock (path ++ i :: rest) ∧ rest ≠ [] ∧ table_at path Table ∧
    (e = RETURN_NO_MAPPING ∧ table_entry Table i = 0 ∨
     table_entry Table i ≠ 0 ∧ ∃ t, ReadDisk t (table_entry Table i * BlockSize P) (BlockSize P) = inl e).

Lemma ReadIndirect_spec x s path l k Contents s' :
  Buffers s !! x = None → block_path EXT4_DIND_BLOCK Entries l path → 0 <= k < Z.of_nat (length path) - 1 →
  with_buffer x s s' → contents_ok path k Contents →
  wp (ReadIndirect P F (Some x) path k Contents)
    (λ data s'', with_buffer x s s'' ∧ contents_ok path (k + 1) data)
    (λ e s'', s'' ≡ s ∧ walk_error EXT4_DIND_BLOCK l e) s'.
Proof using HP HF HOk.
  intros Hx Hp Hk Hs Hc. destruct (lookup_lt_is_Some_2 path (Z.to_nat k)) as [i Hi]; [lia|].
  assert (0 <= EXT4_DIND_BLOCK < 15) as HRoot by by compute.
  pose proof (block_path_lookup _ _ _ _ _ _ HRoot Hp Hi) as Hir. destruct (BlockSize_bounds P HP) as [HB _].
  assert (path = take (Z.to_nat k) path ++ i :: drop (S (Z.to_nat k)) path) as Hsplit by (symmetry; by apply take_drop_middle).
  assert (drop (S (Z.to_nat k)) path ≠ []) as Hrest by (intros Hnil%(f_equal length); rewrite length_drop in Hnil; cbn in Hnil; lia).
  assert (block_path EXT4_DIND_BLOCK Entries l (take (Z.to_nat k) path ++ i :: drop (S (Z.to_nat k)) path)) as Hp' by by rewrite <- Hsplit.
  clear Hsplit.
  destruct (entries_cases P HP) as (_ & HE & _).
  assert (∃ Table, table_at (take (Z.to_nat k) path) Table ∧ bytes Table ∧ 4 * i + 4 <= size Table ∧
    ∀ (Q : Z → ext4 → Prop) E, Q (table_entry Table i) s' → wp (if k =? 0 then rd32 (i_data F) i else rd32 Contents i) Q E s')
    as (Table & Ht & Hb & Hsz & Hrd).
  { unfold contents_ok in Hc. destruct (Z.eqb_spec k 0) as [->|Hk0].
    - change (Z.to_nat 0) with 0%nat in Hir. cbv iota in Hir.
      exists (i_data F). rewrite size_i_data. split_and!; [exact table_root|apply bytes_i_data|lia|].
      intros. apply wp_rd32; [lia|rewrite size_i_data; lia|done].
    - destruct Hc as (Ht & Hsz & Hb). destruct (Z.to_nat k) eqn:Hkn; [lia|].
      exists Contents. split_and!; [done|done|lia|]. intros. apply wp_rd32; [lia|lia|done]. }
  unfold ReadIndirect, path_entry. apply wp_bind. rewrite Hi. apply wp_ret, wp_bind, Hrd.
  pose proof (load_u32 Table (4 * i) Hb) as Hu. fold (table_entry Table i) in Hu. unfold is_uint, EXT4_BLOCK_FILE_HOLE in *.
  destruct (Z.eqb_spec (table_entry Table i) 0) as [Hz|Hz].
  { eapply wp_free_and_raise; [done..|]. intros s'' Hs''. split; [done|].
    exists (take (Z.to_nat k) path), i, (drop (S (Z.to_nat k)) path), Table. split_and!; [done|done|done|by left]. }
  apply wp_bind. eapply wp_BufferSize; [by eapply with_buffer_lookup|]. apply wp_bind, wp_attempt.
  eapply wp_mono; [apply Ext4ReadBlocks_spec; lia| |].
  - intros data s'' (-> & _ & _ & Hd & Hds & Hdb). rewrite Z.mul_1_l in Hd, Hds. apply wp_ret. split; [done|].
    unfold contents_ok. rewrite (proj2 (Z.eqb_neq _ _)) by lia.
    replace (Z.to_nat (k + 1)) with (S (Z.to_nat k)) by lia. rewrite (take_S_r _ _ _ Hi).
    split_and!; [by eapply table_step|done|done].
  - intros e s'' (Hs'' & He). rewrite Z.mul_1_l in He. cbn.
    eapply wp_free_and_raise; [done|by unfold with_buffer; rewrite Hs''|]. intros s3 Hs3. split; [done|].
    destruct He as [[-> He]|He]; [|exists (take (Z.to_nat k) path), i, (drop (S (Z.to_nat k)) path), Table; split_and!; [done|done|done|right; eauto]]. exfalso. destruct platform_uintn as [HW|HW]; rewrite HW in He; nia.
Qed.

(** Ext4GetBlocks never faults; it returns the extent the block map has at the block, and
    leaves no buffer allocated. *)
Lemma Ext4GetBlocks_spec LogicalBlock s :
  u32 LogicalBlock →
  wp (Ext4GetBlocks P F LogicalBlock)
    (λ e s', s' ≡ s ∧ LogicalBlock < mappable Entries ∧ block_extent LogicalBlock e)
    (λ e s', s' ≡ s ∧ (e = RETURN_NO_MAPPING ∧ mappable Entries <= LogicalBlock ∨
       e = RETURN_OUT_OF_RESOURCES ∧ AllocatePool s = None ∨ walk_error EXT4_DIND_BLOCK LogicalBlock e)) s.
Proof using HP HF HOk.
  intros HL. destruct (entries_cases P HP) as (HE & HBE & _). unfold Ext4GetBlocks. apply wp_bind.
  eapply wp_mono; [by apply Ext4GetBlockPath_spec| |done]. intros [len path] s' [-> Hp].
  apply wp_bind. destruct (Z.ltb_spec LogicalBlock (mappable Entries)) as [Hlt|Hge].
  2: { injection Hp as -> ->. apply wp_fail_if; [|done]. intros _. split; [done|by left]. }
  cbn [fst snd] in Hp. destruct Hp as [Hp ->].
  assert (1 <= Z.of_nat (length path) <= 4) as Hlen by (destruct Hp; cbn; lia).
  apply wp_fail_if; [intros Hbad%Z.eqb_eq; cbn in Hbad; lia|intros _].
  destruct (block_path_split _ _ _ _ Hp) as (q & i & ->). rewrite length_app in Hlen |- *. cbn [length] in Hlen |- *.
  assert (∀ (Q : Z → ext4 → Prop) E t, Q i t → wp (path_entry (q ++ [i]) (Z.of_nat (length q + 1) - 1)) Q E t) as Hlast.
  { intros Q E t HQ. unfold path_entry. rewrite lookup_app_r by lia.
    replace (_ - length q)%nat with 0%nat by lia. by apply wp_ret. }
  destruct (Z.eqb_spec (Z.of_nat (length q + 1)) 1) as [H1|H1].
  - destruct q; [|cbn in H1; lia]. apply wp_bind. apply (Hlast _ _ s).
    eapply wp_mono; [apply Ext4GetExtentInBlockMap_spec; [apply bytes_i_data| |rewrite size_i_data; unfold EXT4_DBLOCKS; lia]| |done].
    + inversion Hp; subst; try done. 
    + intros e s' (-> & Hb & Hr). split; [done|]. split; [done|]. split; [done|].
      exists [], i, (i_data F). split_and!; [done|constructor|done].
  - apply wp_bind, wp_AllocateBuffer.
    2: { intros Hnone. apply wp_raise. split; [done|]. right. by left. }
    intros x Hx. destruct (AllocatePool_fresh _ _ Hx) as (_ & _ & _ & Hfresh). apply wp_bind.
    eapply wp_mono; [apply (wp_for_loop (λ k c t, with_buffer x s t ∧ contents_ok (q ++ [i]) k c) (λ e t, t ≡ s ∧ walk_error EXT4_DIND_BLOCK LogicalBlock e))| |].
    + split; [done|done].
    + intros k c t Hk [Ht Hc]. eapply ReadIndirect_spec; [done..| |done|done]. rewrite length_app. cbn [length]. lia.
    + intros c t [Ht Hc]. apply wp_bind, Hlast, wp_bind.
      replace (0 + _) with (Z.of_nat (length q)) in Hc by lia. unfold contents_ok in Hc.
      rewrite (proj2 (Z.eqb_neq _ _)) in Hc by lia. rewrite Nat2Z.id, take_app_length in Hc. destruct Hc as (Htab & Hsz & Hb).
      assert (0 <= i < Entries) as Hi.
      { assert ((q ++ [i]) !! length q = Some i) as Hi by (by rewrite lookup_app_r, Nat.sub_diag).
        assert (0 <= EXT4_DIND_BLOCK < 15) as HRoot by by compute.
        pose proof (block_path_lookup _ _ _ _ _ _ HRoot Hp Hi) as Hir. by destruct q. }
      eapply wp_mono; [apply Ext4GetExtentInBlockMap_spec; [done|done|lia]| |done].
      intros e t' (-> & Hbl & Hr). apply wp_bind. eapply wp_FreeBuffer; [by eapply with_buffer_lookup|].
      apply wp_ret. split; [by apply with_buffer_freed|]. split; [done|]. split; [done|].
      exists q, i, c. split_and!; [done|done|]. by destruct q.
    + intros e t [? ?]. split; [done|]. by right; right.
Qed.

Lemma walk_error_root Root Root' l e : l < first_trebly Entries → walk_error Root l e → walk_error Root' l e.
Proof using HP.
  destruct (entries_cases P HP) as (HE & _). intros Hl (path & i & rest & Table & Hp & Hw). exists path, i, rest, Table.
  split; [|done]. apply (block_path_root Root); [lia|done|done].
Qed.
End Lookup.

(** With blocks of at most 64 KiB the code maps all blocks below the trebly indirect ones. *)
Lemma first_trebly_mappable P : PartitionOk P → BlockSize P <= 65536 → first_trebly (BlockSize P / 4) <= mappable (BlockSize P / 4).
Proof.
  intros HP Hb. destruct (entries_cases P HP) as (HE & HBE & _). set (E := BlockSize P / 4) in *. unfold first_trebly, mappable, fitting.
  rewrite (proj2 (Z.ltb_lt (E * E) _)) by nia. destruct (_ <? _); nia.
Qed.

(** C40. Looking up a block of an ext2 or ext3 file never faults, whatever the block map and
    the indirect blocks hold and however the disk answers, and leaves no buffer allocated; an
    extent that is returned starts at the logical block and is not empty.  For the direct,
    singly and doubly indirect blocks of a file system with blocks of at most 64 KiB, every
    block of the extent is where the format says, holes being marked uninitialized, and the
    lookup fails only because an indirect block on the path to the block is missing or could
    not be read, or the buffer could not be allocated.  (The trebly indirect blocks, which the
    code looks up in the wrong tree or not at all, are excepted: see below.) *)
Theorem ext4_block_map_exact `{OC : !OrderedCollectionLib (loc * EXT4_EXTENT) Z, !Platform, !PlatformOk, !Firmware}
    (P : EXT4_PARTITION) (HP : PartitionOk P) (F : EXT4_FILE) (HF : FileOk P F)
    (LogicalBlock : Z) (HL : u32 LogicalBlock) (s : ext4) :
  let exact := BlockSize P <= 65536 ∧ LogicalBlock < first_trebly (BlockSize P / 4) in
  match Ext4GetBlocks P F LogicalBlock s with
  | Ok Extent s' => s' ≡ s ∧ ee_block Extent = LogicalBlock ∧ 0 < Ext4GetExtentLength Extent ∧
      (exact → ∀ j, 0 <= j < Ext4GetExtentLength Extent →
        block_at P F (LogicalBlock + j)
          (if EXT4_EXTENT_IS_UNINITIALIZED Extent then 0 else ee_start_lo Extent + j))
  | Err e s' => s' ≡ s ∧
      (exact → e = RETURN_OUT_OF_RESOURCES ∧ AllocatePool s = None ∨ walk_error P F EXT4_TIND_BLOCK LogicalBlock e)
  | Fault _ => False
  end.
Proof.
  intros exact. pose proof (wp_cases _ _ _ _ (Ext4GetBlocks_spec P HP F HF LogicalBlock s HL)) as Hs.
  destruct (Ext4GetBlocks P F LogicalBlock s) as [e s'|e s'|f]; [| |done].
  - destruct Hs as (Hs & Hlt & (Hb & Hlen & Hat)%block_extent_maps); [|done]. split_and!; [done..|]. intros [_ Hl]. by apply Hat.
  - destruct Hs as [Hs He]. split; [done|]. intros [HB Hl]. pose proof (first_trebly_mappable P HP HB).
    destruct He as [[_ ?]|[?|He]]; [lia|by left|]. right. by eapply walk_error_root.
Qed.

(** A trebly indirect block is looked up in the doubly indirect tree: its path should start at
    EXT4_TIND_BLOCK, and starts at EXT4_DIND_BLOCK. *)
Theorem ext4_trebly_wrong_root {S} (P : EXT4_PARTITION) (HP : PartitionOk P) (LogicalBlock : Z) (HL : u32 LogicalBlock)
    (Htrebly : first_trebly (BlockSize P / 4) <= LogicalBlock < mappable (BlockSize P / 4)) (s : S) :
  ∃ a b c, block_path EXT4_TIND_BLOCK (BlockSize P / 4) LogicalBlock [EXT4_TIND_BLOCK; a; b; c] ∧
    Ext4GetBlockPath P LogicalBlock s = Ok (4, [EXT4_DIND_BLOCK; a; b; c]) s.
Proof.
  destruct (entries_cases P HP) as (HE & _). pose proof (wp_cases _ _ _ _ (Ext4GetBlockPath_spec P LogicalBlock s HP HL)) as Hs.
  destruct (Ext4GetBlockPath P LogicalBlock s) as [[len path] s'|e s'|f]; [|done|done]. destruct Hs as [-> Hs].
  rewrite (proj2 (Z.ltb_lt _ _)) in Hs by lia. destruct Hs as [Hp Hlen]. cbn [fst snd] in *. subst len.
  unfold first_trebly, EXT4_DBLOCKS in Htrebly. set (E := BlockSize P / 4) in *.
  destruct Hp as [b Hb|a Ha|a b Ha Hb|a b c Ha Hb Hc]; unfold EXT4_DBLOCKS in *; [nia|nia|nia|].
  exists a, b, c. split; [by apply path_trebly|done].
Qed.

(** With blocks of 8 KiB and more no trebly indirect block is found: the cube of the number of
    entries does not fit UINT32. *)
Theorem ext4_trebly_unmapped `{OC : !OrderedCollectionLib (loc * EXT4_EXTENT) Z, !Platform, !PlatformOk, !Firmware}
    (P : EXT4_PARTITION) (HP : PartitionOk P) (Hlarge : 8192 <= BlockSize P) (F : EXT4_FILE)
    (LogicalBlock : Z) (HL : u32 LogicalBlock) (Htrebly : first_trebly (BlockSize P / 4) <= LogicalBlock) (s : ext4) :
  Ext4GetBlocks P F LogicalBlock s = Err RETURN_NO_MAPPING s.
Proof.
  destruct (entries_cases P HP) as (HE & HBE & _). pose proof (wp_cases _ _ _ _ (Ext4GetBlockPath_spec P LogicalBlock s HP HL)) as Hs.
  unfold Ext4GetBlocks, mbind, M_bind. destruct (Ext4GetBlockPath P LogicalBlock s) as [[len path] s'|e s'|f]; [|done|done].
  destruct Hs as [-> Hs]. rewrite (proj2 (Z.ltb_ge _ _)) in Hs; [by injection Hs as -> ->|].
  set (E := BlockSize P / 4) in *. unfold first_trebly in Htrebly. unfold mappable, fitting.
  rewrite (proj2 (Z.ltb_ge (E * E * E) _)) by nia. cbv iota. assert (0 <= E * E) by nia. destruct (E * E <? 2 ^ 32); lia.
Qed.

(** The first block of the doubly indirect tree, with a map whose entry 13 is block 7 and a disk
    on which block 7 points to block 9 and block 9 to blocks 50 and 51. *)
Definition sample_map_partition : EXT4_PARTITION :=
  mkPartition (write_bytes (zeros 1024) 373 [1]) 0 0 0 128 1024 false 1 8192 (zeros 1024) 32 0.

Definition sample_map_file : EXT4_FILE := mkFile (write_bytes (zeros 160) (40 + 4 * 13) [7]) 12.

Definition sample_map_disk (i : Z) : Z :=
  if i =? 7 * 1024 then 9 else if i =? 9 * 1024 then 50 else if i =? 9 * 1024 + 4 then 51 else 0.

Lemma sample_map_partition_ok : PartitionOk sample_map_partition.
Proof. constructor; try by vm_compute. - by apply bytes_decide. - by exists 0. Qed.

Lemma ext4_block_map_exact_witness :
  ∃ s', @Ext4GetBlocks sample_collections platform_x64 (sample_firmware sample_map_disk) sample_map_partition
    sample_map_file 268 sample_state = Ok (mkExtent 268 2 0 50) s' ∧ s' ≡ sample_state ∧
    @block_at sample_collections (sample_firmware sample_map_disk) sample_map_partition sample_map_file 269 51.
Proof.
  assert (FileOk sample_map_partition sample_map_file) as HF by (constructor; [by vm_compute|by apply bytes_decide|by vm_compute]).
  pose proof (@ext4_block_map_exact sample_collections platform_x64 platform_x64_ok (sample_firmware sample_map_disk)
    sample_map_partition sample_map_partition_ok sample_map_file HF 268 ltac:(by compute) sample_state) as Hs.
  assert (match @Ext4GetBlocks sample_collections platform_x64 (sample_firmware sample_map_disk) sample_map_partition
      sample_map_file 268 sample_state with Ok e _ => bool_decide (e = mkExtent 268 2 0 50) | _ => false end = true)
    as Hc by (vm_compute; reflexivity).
  destruct (Ext4GetBlocks _ _ _ _) as [e s'|e s'|f]; [|discriminate Hc|discriminate Hc].
  apply bool_decide_eq_true in Hc as ->. destruct Hs as (Hs & _ & _ & Hat). exists s'. split; [done|]. split; [exact Hs|].
  apply (Hat ltac:(by vm_compute) 1). by vm_compute.
Defined.
