(* ===== verification/Ext4Extents.v ===== *)
(** Extents (Ext4Pkg/Ext4Dxe/Extents.c): the search through the extent tree of an inode and
    the cache of extents, an ordered collection. *)
From Stdlib Require Import String.
From stdpp Require Import gmap.
From S2P Require Import Prelude OrderedCollection OrderedWalk OrderedInsert OrderedLib Base Buffer Overflow Platform PeImage CheckSum Ext4Disk Ext4Checksum Ext4BlockMap.
#[local] Open Scope string_scope.
#[local] Open Scope list_scope.
#[local] Open Scope Z_scope.

(** ** Nodes of the extent tree *)

(** [*(EXT4_EXTENT * )Ptr] with Ptr at [off]. *)
Definition rd_extent {S} (b : list Z) (off : Z) : M S EXT4_EXTENT :=
  block ← rd_field EXT4_EXTENT_DISK "ee_block" b off;
  len ← rd_field EXT4_EXTENT_DISK "ee_len" b off;
  hi ← rd_field EXT4_EXTENT_DISK "ee_start_hi" b off;
  lo ← rd_field EXT4_EXTENT_DISK "ee_start_lo" b off;
  mret (mkExtent block len hi lo).

(** The entries are behind the header: the offset of the i-th one. *)
Definition entry_offset (i : Z) : Z := SIZEOF_EXT4_EXTENT_HEADER + SIZEOF_EXT4_EXTENT * i.

(** The bytes of the node in the inode. *)
Definition Ext4GetInoExtentHeader (File : EXT4_FILE) : list Z := i_data File.

Section Nodes.
Context {T : Type}.

Definition Ext4ExtentHeaderValid (Header : list Z) (MaxEntries : Z) : M T bool :=
  eh_depth ← rd_field EXT4_EXTENT_HEADER "eh_depth" Header 0;
  eh_magic ← rd_field EXT4_EXTENT_HEADER "eh_magic" Header 0;
  eh_max ← rd_field EXT4_EXTENT_HEADER "eh_max" Header 0;
  eh_entries ← rd_field EXT4_EXTENT_HEADER "eh_entries" Header 0;
  mret (if EXT4_EXTENT_TREE_MAX_DEPTH <? eh_depth then false
        else if negb (eh_magic =? EXT4_EXTENT_HEADER_MAGIC) then false
        else if MaxEntries <? eh_max then false
        else if eh_max <? eh_entries then false
        else true).

(** [while (l <= r)] over the entries, whose keys are their first four bytes; the pointers are
    indices of entries.  Returns [l - 1]. *)
Fixpoint Binsearch (fuel : nat) (Header : list Z) (LogicalBlock l r : Z) : M T Z :=
  match fuel with
  | O => crash OutOfFuel
  | S k =>
      if l <=? r then
        let m := l + (r - l) / 2 in
        key ← rd 4 Header (entry_offset m);
        if LogicalBlock <? key then Binsearch k Header LogicalBlock l (m - 1)
        else Binsearch k Header LogicalBlock (m + 1) r
      else mret (l - 1)
  end.

Definition Ext4BinsearchExtentIndex (Header : list Z) (LogicalBlock : Z) : M T Z :=
  eh_entries ← rd_field EXT4_EXTENT_HEADER "eh_entries" Header 0;
  Binsearch (S (Z.to_nat eh_entries)) Header LogicalBlock 1 (eh_entries - 1).

(** NULL is [None]. *)
Definition Ext4BinsearchExtentExt (Header : list Z) (LogicalBlock : Z) : M T (option Z) :=
  eh_entries ← rd_field EXT4_EXTENT_HEADER "eh_entries" Header 0;
  if eh_entries =? 0 then mret None
  else
    i ← Binsearch (S (Z.to_nat eh_entries)) Header LogicalBlock 1 (eh_entries - 1);
    mret (Some i).

Definition Ext4ExtentIdxLeafBlock (Header : list Z) (Index : Z) : M T Z :=
  hi ← rd_field EXT4_EXTENT_INDEX "ei_leaf_hi" Header (entry_offset Index);
  lo ← rd_field EXT4_EXTENT_INDEX "ei_leaf_lo" Header (entry_offset Index);
  mret (Z.lor (LShiftU64 hi 32) lo).
End Nodes.

(** ** The cache *)

Definition Ext4ExtentsMapStructCompare (UserStruct1 UserStruct2 : loc * EXT4_EXTENT) : Z :=
  let Extent1 := UserStruct1.2 in
  let Extent2 := UserStruct2.2 in
  if ee_block Extent1 <? ee_block Extent2 then -1 else if ee_block Extent2 <? ee_block Extent1 then 1 else 0.

Definition Ext4ExtentsMapKeyCompare (Block : Z) (UserStruct : loc * EXT4_EXTENT) : Z :=
  let Extent := UserStruct.2 in
  if (ee_block Extent <=? Block) && (wrap 32 (Block - ee_block Extent) <? Ext4GetExtentLength Extent) then 0
  else if Block <? ee_block Extent then -1 else if ee_block Extent <? Block then 1 else 0.

Section Extents.
Context `{OC : !OrderedCollectionLib (loc * EXT4_EXTENT) Z, !Platform, !Firmware}.

(** A non-NULL File->ExtentsMap. *)
Definition the_map : M ext4 loc :=
  s ← getS;
  match ExtentsMap s with Some Tree => mret Tree | None => crash UndefinedBehaviour end.

Definition Ext4InitExtentsMap : M ext4 unit :=
  s ← getS;
  modify tick;;
  Map ← call (oc_Init (AllocatePool s) Ext4ExtentsMapStructCompare Ext4ExtentsMapKeyCompare);
  modify (with_ExtentsMap Map);;
  fail_if (is_null Map) RETURN_OUT_OF_RESOURCES.

(** AllocatePool (sizeof (EXT4_EXTENT)) and CopyMem; FreePool of an extent. *)
Definition AllocateExtent (Source : EXT4_EXTENT) : M ext4 ptr :=
  s ← getS;
  modify tick;;
  match AllocatePool s with
  | Some p => modify (λ s, with_ExtentPool (<[p := Source]> (ExtentPool s)) s);; mret (Some p)
  | None => mret NULL
  end.

Definition FreeExtent (p : loc) : M ext4 unit :=
  s ← getS;
  require (bool_decide (is_Some (ExtentPool s !! p))) UndefinedBehaviour;;
  modify (λ s, with_ExtentPool (delete p (ExtentPool s)) s).

Definition deref_extent (p : loc) : M ext4 EXT4_EXTENT :=
  s ← getS;
  match ExtentPool s !! p with Some e => mret e | None => crash UndefinedBehaviour end.

Fixpoint FreeExtents (fuel : nat) (Tree : loc) : M ext4 unit :=
  match fuel with
  | O => crash OutOfFuel
  | S k =>
      MinEntry ← call (oc_Min Tree);
      match MinEntry with
      | None => mret tt
      | Some _ =>
          Ext ← call (oc_Delete Tree MinEntry);
          FreeExtent Ext.1;;
          FreeExtents k Tree
      end
  end.

Definition Ext4FreeExtentsMap : M ext4 unit :=
  Tree ← the_map;
  s ← getS;
  FreeExtents (S (base.size (ExtentPool s))) Tree;;
  Empty ← call (oc_IsEmpty Tree);
  ASSERT Empty;;
  call (oc_Uninit Tree);;
  modify (with_ExtentsMap NULL).

(** [Extents Idx] reads the element of the array. *)
Fixpoint CacheLoop (n : nat) (Tree : loc) (Extents : Z → M ext4 EXT4_EXTENT) (Idx : Z) : M ext4 unit :=
  match n with
  | O => mret tt
  | S k =>
      Source ← Extents Idx;
      fail_if (ee_len Source =? 0) RETURN_VOLUME_CORRUPTED;;
      Extent ← AllocateExtent Source;
      match Extent with
      | None => raise RETURN_OUT_OF_RESOURCES
      | Some p =>
          s ← getS;
          modify tick;;
          Result ← call (oc_Insert (AllocatePool s) Tree (p, Source));
          match OrderedInsert.Status Result with
          | None => CacheLoop k Tree Extents (Idx + 1)
          | Some Status =>
              FreeExtent p;;
              if bool_decide (Status = RETURN_ALREADY_STARTED) then CacheLoop k Tree Extents (Idx + 1) else mret tt
          end
      end
  end.

Definition Ext4CacheExtents (Extents : Z → M ext4 EXT4_EXTENT) (NumberExtents : Z) : M ext4 unit :=
  Tree ← the_map;
  CacheLoop (Z.to_nat NumberExtents) Tree Extents 0.

Definition Ext4GetExtentFromMap (Block : Z) : M ext4 ptr :=
  Tree ← the_map;
  Entry ← call (oc_Find Tree Block);
  match Entry with
  | None => mret NULL
  | Some _ => UserStruct ← call (oc_UserStruct Entry); mret (Some UserStruct.1)
  end.

(** ** Ext4GetExtent *)

Section GetExtent.
Context (Partition : EXT4_PARTITION) (File : EXT4_FILE) (LogicalBlock : Z).

Definition EXT4_NR_INLINE_EXTENTS : Z := 4.

Definition MaxExtentsPerNode : Z := wrap 16 (BlockSize Partition / SIZEOF_EXT4_EXTENT - 1).

(** The block the index leads to, read and checked. *)
Definition ReadNode (Buffer : ptr) (BlockNumber CurrentDepth : Z) : M ext4 (list Z) :=
  Room ← BufferSize Buffer;
  Status ← attempt (Ext4ReadBlocks Partition Room 1 BlockNumber);
  match Status with
  | inl e => free_and_raise Buffer e
  | inr ExtHeader =>
      Valid ← Ext4ExtentHeaderValid ExtHeader MaxExtentsPerNode;
      if negb Valid then free_and_raise Buffer RETURN_VOLUME_CORRUPTED
      else
        Correct ← Ext4CheckExtentChecksum Partition ExtHeader File;
        if negb Correct then free_and_raise Buffer RETURN_VOLUME_CORRUPTED
        else
          eh_depth ← rd_field EXT4_EXTENT_HEADER "eh_depth" ExtHeader 0;
          if negb (eh_depth =? CurrentDepth) then free_and_raise Buffer RETURN_VOLUME_CORRUPTED
          else mret ExtHeader
  end.

(** [while (ExtHeader->eh_depth != 0)] *)
Fixpoint Descend (fuel : nat) (ExtHeader : list Z) (Buffer : ptr) (CurrentDepth : Z) : M ext4 (list Z * ptr) :=
  match fuel with
  | O => crash OutOfFuel
  | S k =>
      eh_depth ← rd_field EXT4_EXTENT_HEADER "eh_depth" ExtHeader 0;
      if eh_depth =? 0 then mret (ExtHeader, Buffer)
      else
        let CurrentDepth := wrap 32 (CurrentDepth - 1) in
        Index ← Ext4BinsearchExtentIndex ExtHeader LogicalBlock;
        BlockNumber ← Ext4ExtentIdxLeafBlock ExtHeader Index;
        if BlockNumber =? EXT4_BLOCK_FILE_HOLE then FreeBufferIfAny Buffer;; raise RETURN_VOLUME_CORRUPTED
        else
          Buffer ← (if is_null Buffer then AllocateBuffer (BlockSize Partition) else mret Buffer);
          fail_if (is_null Buffer) RETURN_OUT_OF_RESOURCES;;
          ExtHeader ← ReadNode Buffer BlockNumber CurrentDepth;
          Descend k ExtHeader Buffer CurrentDepth
  end.

(** The extents of a leaf are cached, then the one that covers the block is looked up. *)
Definition SearchLeaf (ExtHeader : list Z) (Buffer : ptr) : M ext4 EXT4_EXTENT :=
  eh_entries ← rd_field EXT4_EXTENT_HEADER "eh_entries" ExtHeader 0;
  Status ← attempt (Ext4CacheExtents (λ Idx, rd_extent ExtHeader (entry_offset Idx)) eh_entries);
  match Status with
  | inl e => if bool_decide (e = RETURN_OUT_OF_RESOURCES) then mret tt else FreeBufferIfAny Buffer;; raise e
  | inr _ => mret tt
  end;;
  Ext ← Ext4BinsearchExtentExt ExtHeader LogicalBlock;
  match Ext with
  | None => FreeBufferIfAny Buffer;; raise RETURN_NO_MAPPING
  | Some i =>
      Extent ← rd_extent ExtHeader (entry_offset i);
      if negb ((ee_block Extent <=? LogicalBlock) && (LogicalBlock <? ee_block Extent + Ext4GetExtentLength Extent)) then
        FreeBufferIfAny Buffer;; raise RETURN_NO_MAPPING
      else
        FreeBufferIfAny Buffer;;
        mret Extent
  end.

(** An inode with a block map. *)
Definition GetExtentFromBlockMap : M ext4 EXT4_EXTENT :=
  Extent ← Ext4GetBlocks Partition File (wrap 32 LogicalBlock);
  Status ← attempt (Ext4CacheExtents (λ Idx, if Idx =? 0 then mret Extent else crash OutOfBounds) 1);
  match Status with
  | inl e => if bool_decide (e = RETURN_OUT_OF_RESOURCES) then mret Extent else raise e
  | inr _ => mret Extent
  end.

Definition Ext4GetExtent : M ext4 EXT4_EXTENT :=
  fail_if (0xFFFFFFFF <? LogicalBlock) RETURN_NO_MAPPING;;
  Ext ← Ext4GetExtentFromMap (wrap 32 LogicalBlock);
  match Ext with
  | Some p => deref_extent p
  | None =>
      i_flags ← rd_field EXT4_INODE "i_flags" (Inode File) 0;
      if Z.land i_flags EXT4_EXTENTS_FL =? 0 then GetExtentFromBlockMap
      else
        let ExtHeader := Ext4GetInoExtentHeader File in
        Valid ← Ext4ExtentHeaderValid ExtHeader EXT4_NR_INLINE_EXTENTS;
        fail_if (negb Valid) RETURN_VOLUME_CORRUPTED;;
        CurrentDepth ← rd_field EXT4_EXTENT_HEADER "eh_depth" ExtHeader 0;
        '(ExtHeader, Buffer) ← Descend (S (Z.to_nat CurrentDepth)) ExtHeader NULL CurrentDepth;
        SearchLeaf ExtHeader Buffer
  end.
End GetExtent.
End Extents.
