(* ===== verification/Ext4Cache.v ===== *)
(** The cache of extents of an open file, proved against the interface of the ordered
    collection library: its invariant, lookup, insertion and release. *)
From stdpp Require Import gmap sorting.
From S2P Require Import Prelude OrderedCollection OrderedWalk OrderedInsert OrderedLib Base Buffer Overflow Platform PeImage Ext4Disk Ext4BlockMap Ext4Extents.
#[local] Open Scope Z_scope.

(** ** Extents *)

Record ExtentOk (e : EXT4_EXTENT) : Prop := {
  ext_block : u32 (ee_block e);
  ext_len : u16 (ee_len e);
  ext_hi : u16 (ee_start_hi e);
  ext_lo : u32 (ee_start_lo e);
}.

Definition covers (e : EXT4_EXTENT) (Block : Z) : Prop :=
  ee_block e <= Block < ee_block e + Ext4GetExtentLength e.

#[global] Instance covers_dec e b : Decision (covers e b).
Proof. unfold covers. apply _. Defined.

Lemma extent_length_pos e : ExtentOk e → ee_len e ≠ 0 → 0 < Ext4GetExtentLength e <= 32768.
Proof.
  intros He H0. pose proof (ext_len e He) as Hl. unfold is_uint in Hl.
  unfold Ext4GetExtentLength, EXT4_EXTENT_IS_UNINITIALIZED, EXT4_EXTENT_MAX_INITIALIZED.
  destruct (Z.ltb_spec 32768 (ee_len e)); lia.
Qed.

(** Both comparison functions, in terms of the extents. *)
#[global] Instance StructCompare_comparison : Comparison Ext4ExtentsMapStructCompare.
Proof.
  split; [intros [? a] [? b]|intros [? a] [? b] [? c]|intros [? a] [? b] [? c]]; unfold Ext4ExtentsMapStructCompare; cbn;
    repeat match goal with |- context [?x <? ?y] => destruct (Z.ltb_spec x y) end; lia.
Qed.

Lemma KeyCompare_covers Block p e :
  ExtentOk e → ee_len e ≠ 0 → u32 Block →
  (Ext4ExtentsMapKeyCompare Block (p, e) = 0 ↔ covers e Block) ∧
  (Ext4ExtentsMapKeyCompare Block (p, e) < 0 ↔ Block < ee_block e) ∧
  (0 < Ext4ExtentsMapKeyCompare Block (p, e) ↔ ee_block e + Ext4GetExtentLength e <= Block).
Proof.
  intros He H0 HB. pose proof (extent_length_pos e He H0). pose proof (ext_block e He). unfold covers, Ext4ExtentsMapKeyCompare, is_uint in *. cbn.
  destruct (Z.leb_spec (ee_block e) Block); cbn [andb].
  - rewrite wrap_small by (unfold is_uint; lia). destruct (Z.ltb_spec (Block - ee_block e) (Ext4GetExtentLength e)); [lia|].
    destruct (Z.ltb_spec Block (ee_block e)), (Z.ltb_spec (ee_block e) Block); lia.
  - destruct (Z.ltb_spec Block (ee_block e)); lia.
Qed.

(** ** The invariant *)

Section Cache.
Context `{OC : !OrderedCollectionLib (loc * EXT4_EXTENT) Z, HPl : !Platform, HFw : !Firmware}.
Implicit Types (s : ext4) (l : list (loc * (loc * EXT4_EXTENT))).

(** File->ExtentsMap is a collection whose user structures are exactly the extents in pool
    memory, none of them empty. *)
Record Cache s (Tree : loc) l : Prop := {
  cache_map : ExtentsMap s = Some Tree;
  cache_holds : oc_holds (Collections s) Tree Ext4ExtentsMapStructCompare Ext4ExtentsMapKeyCompare l;
  cache_pool : map_to_list (ExtentPool s) ≡ₚ l.*2;
  cache_extents : Forall (λ x, ExtentOk x.2.2 ∧ ee_len x.2.2 ≠ 0) l;
}.

Definition CacheOk s : Prop := ∃ Tree l, Cache s Tree l.

Definition cached s (e : EXT4_EXTENT) : Prop := ∃ p, ExtentPool s !! p = Some e.

#[global] Instance Cache_proper : Proper ((≡) ==> eq ==> eq ==> iff) Cache.
Proof.
  intros s s' (H1 & H2 & H3 & H4) Tree _ <- l _ <-.
  split; intros []; split; rewrite ?H1, ?H2, ?H4 in *; done.
Qed.

#[global] Instance CacheOk_proper : Proper ((≡) ==> iff) CacheOk.
Proof. intros s s' Hs. unfold CacheOk. by setoid_rewrite Hs. Qed.

#[global] Instance cached_proper : Proper ((≡) ==> eq ==> iff) cached.
Proof. intros s s' (_ & H2 & _) e _ <-. unfold cached. by rewrite H2. Qed.

Lemma cache_lookup s Tree l p e : Cache s Tree l → ExtentPool s !! p = Some e ↔ ∃ x, (x, (p, e)) ∈ l.
Proof.
  intros HC. rewrite <- elem_of_map_to_list, (cache_pool _ _ _ HC), list_elem_of_fmap.
  split; [intros ([x q] & Hq & Hx); cbn in Hq; subst; by exists x|intros [x Hx]; by exists (x, (p, e))].
Qed.

Lemma cache_extent s Tree l x p e : Cache s Tree l → (x, (p, e)) ∈ l → ExtentOk e ∧ ee_len e ≠ 0.
Proof. intros HC Hx. exact (proj1 (Forall_forall _ _) (cache_extents _ _ _ HC) _ Hx). Qed.

Lemma cached_extent s e : CacheOk s → cached s e → ExtentOk e ∧ ee_len e ≠ 0.
Proof.
  intros (Tree & l & HC) [p Hp]. apply (cache_lookup _ _ _ _ _ HC) in Hp as [x Hx]. by eapply cache_extent.
Qed.

(** ** Lookup *)

Lemma wp_the_map s Tree l (Q : loc → ext4 → Prop) E : Cache s Tree l → Q Tree s → wp the_map Q E s.
Proof. intros HC HQ. apply wp_bind, wp_getS. rewrite (cache_map _ _ _ HC). by apply wp_ret. Qed.

(** A call of the library whose outcome is known. *)
Lemma wp_call_ok {A} (m : M oc_state A) (Q : A → ext4 → Prop) E s a c :
  m (Collections s) = Ok a c → Q a (with_Collections c s) → wp (call m) Q E s.
Proof. intros Hm HQ. apply wp_call. by eapply wp_intro_ok. Qed.

Lemma wp_call_read {A} (m : M oc_state A) (Q : A → ext4 → Prop) E s a :
  m (Collections s) = Ok a (Collections s) → Q a s → wp (call m) Q E s.
Proof. intros Hm HQ. eapply wp_call_ok; [done|]. by destruct s. Qed.

(** The extents of the cache do not overlap. *)
Definition disjoint_extents (R : EXT4_EXTENT → Prop) : Prop :=
  ∀ e e' b, R e → R e' → covers e b → covers e' b → e = e'.

Lemma find_entry_none {U} (cmp : U → Z) (l : list (loc * U)) x u : find_entry cmp l = None → (x, u) ∈ l → cmp u ≠ 0.
Proof.
  unfold find_entry. intros Hf Hx H0. destruct (List.find _ l) eqn:Hfind; [done|].
  eapply List.find_none in Hfind; [|by apply list_elem_of_In]. by apply Z.eqb_neq in Hfind.
Qed.

(** With disjoint extents the search by a block can tell where to go. *)
Lemma cache_searchable s Tree l Block :
  Cache s Tree l → u32 Block → disjoint_extents (cached s) → searchable (Ext4ExtentsMapKeyCompare Block) l.
Proof.
  intros HC HB Hdis l1 x [p e] l2 ->.
  pose proof (oc_sorted _ _ _ _ _ (cache_holds _ _ _ HC)) as Ho. unfold ordered in Ho.
  assert (∀ y q f, (y, (q, f)) ∈ l1 ++ (x, (p, e)) :: l2 → ExtentOk f ∧ ee_len f ≠ 0 ∧ cached s f) as Hall.
  { intros y q f Hy. destruct (cache_extent _ _ _ _ _ _ HC Hy). split_and!; [done..|].
    exists q. apply (cache_lookup _ _ _ _ _ HC). by exists y. }
  assert (∀ f g, cached s f → cached s g → ExtentOk f → ExtentOk g → ee_len f ≠ 0 → ee_len g ≠ 0 →
    ee_block f < ee_block g → ee_block f + Ext4GetExtentLength f <= ee_block g) as Hsep.
  { intros f g Hf Hg Hfo Hgo Hf0 Hg0 Hlt. destruct (Z.le_gt_cases (ee_block f + Ext4GetExtentLength f) (ee_block g)); [done|].
    pose proof (extent_length_pos g Hgo Hg0). exfalso.
    assert (f = g); [|subst; lia]. eapply (Hdis f g (ee_block g)); [done..|unfold covers; lia|unfold covers; lia]. }
  apply StronglySorted_app in Ho as (Hlt & _ & Ho2). apply StronglySorted_inv in Ho2 as [_ Ho2].
  destruct (Hall x p e) as (He & He0 & Hec); [set_solver|].
  destruct (KeyCompare_covers Block p e He He0 HB) as (Hz & Hn & Hp).
  assert (∀ f g a b, Ext4ExtentsMapStructCompare (a, f) (b, g) < 0 → ee_block f < ee_block g) as Hsc.
  { intros f g a b. unfold Ext4ExtentsMapStructCompare. cbn.
    destruct (Z.ltb_spec (ee_block f) (ee_block g)); [done|]. destruct (_ <? _); lia. }
  split; intros Hk; apply Forall_forall; intros [y [q f]] Hy; cbn [snd];
    (destruct (Hall y q f) as (Hf & Hf0 & Hfc); [set_solver|]);
    destruct (KeyCompare_covers Block q f Hf Hf0 HB) as (Hz' & Hn' & Hp').
  - rewrite Forall_forall in Ho2. specialize (Ho2 _ Hy). apply Hsc in Ho2.
    pose proof (Hsep e f Hec Hfc He Hf He0 Hf0 Ho2). apply Hn'.
    destruct (Z.eq_dec (Ext4ExtentsMapKeyCompare Block (p, e)) 0) as [H0%Hz|]; unfold covers in *; lia.
  - specialize (Hlt _ _ Hy (list_elem_of_here _ _)). apply Hsc in Hlt.
    pose proof (Hsep f e Hfc Hec Hf He Hf0 He0 Hlt). apply Hp'.
    destruct (Z.eq_dec (Ext4ExtentsMapKeyCompare Block (p, e)) 0) as [H0%Hz|]; unfold covers in *; lia.
Qed.

(** A hit is an extent that covers the block; with disjoint extents a miss means there is none. *)
Lemma Ext4GetExtentFromMap_spec s Block :
  CacheOk s → u32 Block →
  wp (Ext4GetExtentFromMap Block)
    (λ r s', s' = s ∧ match r with
       | Some p => ∃ e, ExtentPool s !! p = Some e ∧ covers e Block
       | None => disjoint_extents (cached s) → ∀ e, cached s e → ¬ covers e Block
       end) (λ _ _, False) s.
Proof.
  intros (Tree & l & HC) HB. apply wp_bind. eapply wp_the_map; [done|]. apply wp_bind.
  destruct (oc_Find_ok _ _ _ _ _ Block (cache_holds _ _ _ HC)) as (q & Hq & Hsafe & Hexact).
  eapply wp_call_read; [done|]. destruct q as [x|].
  - destruct (Hsafe x eq_refl) as ([p e] & Hx & Hk). apply wp_bind.
    eapply wp_call_read; [by eapply oc_UserStruct_ok; [apply HC|]|]. apply wp_ret. split; [done|]. cbn.
    exists e. destruct (cache_extent _ _ _ _ _ _ HC Hx) as [He H0]. split; [apply (cache_lookup _ _ _ _ _ HC); by exists x|].
    by apply (KeyCompare_covers Block p e He H0 HB).
  - apply wp_ret. split; [done|]. intros Hdis e [p Hp] Hcov. apply (cache_lookup _ _ _ _ _ HC) in Hp as [x Hx].
    destruct (cache_extent _ _ _ _ _ _ HC Hx) as [He H0].
    symmetry in Hexact. eapply find_entry_none; [apply Hexact; by eapply cache_searchable|done|].
    by apply (KeyCompare_covers Block p e He H0 HB).
Qed.

(** ** Insertion *)

Lemma insert_entry_permutation {U} (cmp : U → U → Z) x u (l : list (loc * U)) : insert_entry cmp x u l ≡ₚ (x, u) :: l.
Proof.
  induction l as [|e l IH]; cbn; [done|]. destruct (cmp u e.2 <? 0); [done|]. rewrite IH. apply Permutation_swap.
Qed.

(** What caching extents from [Src] does to the memory: the cache grows by some of them. *)
Definition cache_step (Src : EXT4_EXTENT → Prop) s s' : Prop :=
  CacheOk s' ∧ Buffers s' = Buffers s ∧ (∀ e, cached s e → cached s' e) ∧ (∀ e, cached s' e → cached s e ∨ Src e).

Lemma cache_step_refl Src s s' : CacheOk s → s' ≡ s → cache_step Src s s'.
Proof.
  intros HC Hs. split_and!; [by rewrite Hs|apply Hs| |].
  - intros e. by rewrite Hs.
  - intros e. rewrite Hs. by left.
Qed.

Lemma cache_step_trans Src s1 s2 s3 : cache_step Src s1 s2 → cache_step Src s2 s3 → cache_step Src s1 s3.
Proof.
  intros (_ & HB & Hu & Hd) (HC & HB' & Hu' & Hd'). split_and!; [done|congruence|by eauto|].
  intros e [He|He]%Hd'; [by apply Hd|by right].
Qed.

Lemma cache_step_mono (Src Src' : EXT4_EXTENT → Prop) s s' : (∀ e, Src e → Src' e) → cache_step Src s s' → cache_step Src' s s'.
Proof. intros HS (H1 & H2 & H3 & H4). split_and!; [done..|]. intros e [?|?]%H4; eauto. Qed.

Lemma wp_AllocateExtent Source (Q : ptr → ext4 → Prop) E s :
  (∀ p, AllocatePool s = Some p → Q (Some p) (with_ExtentPool (<[p := Source]> (ExtentPool s)) (tick s))) →
  (AllocatePool s = None → Q NULL (tick s)) → wp (AllocateExtent Source) Q E s.
Proof.
  intros HSome HNone. apply wp_bind, wp_getS, wp_bind, wp_modify. destruct (AllocatePool s) as [x|].
  - apply wp_bind, wp_modify, wp_ret. by apply HSome.
  - apply wp_ret. by apply HNone.
Qed.

Lemma wp_FreeExtent p e (Q : unit → ext4 → Prop) E s :
  ExtentPool s !! p = Some e → Q tt (with_ExtentPool (delete p (ExtentPool s)) s) → wp (FreeExtent p) Q E s.
Proof.
  intros Hp HQ. apply wp_bind, wp_getS, wp_bind, wp_require; [|by apply wp_modify].
  apply bool_decide_eq_true. by exists e.
Qed.

(** A new extent in the pool and in the collection. *)
Lemma cache_insert s Tree l p e x c n :
  Cache s Tree l → ExtentPool s !! p = None → ExtentOk e → ee_len e ≠ 0 →
  oc_holds c Tree Ext4ExtentsMapStructCompare Ext4ExtentsMapKeyCompare
    (insert_entry Ext4ExtentsMapStructCompare x (p, e) l) →
  let s' := mkExt4 c (<[p := e]> (ExtentPool s)) (Buffers s) (ExtentsMap s) n in
  Cache s' Tree (insert_entry Ext4ExtentsMapStructCompare x (p, e) l) ∧ cache_step (eq e) s s'.
Proof.
  intros HC Hp He H0 Hh s'. assert (Cache s' Tree (insert_entry Ext4ExtentsMapStructCompare x (p, e) l)) as HC'.
  { split; cbn; [apply HC|done| |].
    - rewrite map_to_list_insert, (cache_pool _ _ _ HC), insert_entry_permutation by done. done.
    - rewrite insert_entry_permutation. constructor; [done|apply HC]. }
  split; [done|]. split_and!; [by eexists _, _|done| |].
  - intros f [q Hq]. exists q. cbn. rewrite lookup_insert_ne; [done|]. congruence.
  - intros f [q Hq]. cbn in Hq. apply lookup_insert_Some in Hq as [[_ <-]|[_ Hq]]; [by right|left; by exists q].
Qed.

(** The array of extents can be read. *)
Definition readable (Extents : Z → M ext4 EXT4_EXTENT) (n : Z) (Src : EXT4_EXTENT → Prop) : Prop :=
  ∀ Idx s, 0 <= Idx < n → wp (Extents Idx) (λ e s', s' = s ∧ ExtentOk e ∧ Src e) (λ _ _, False) s.

Lemma CacheLoop_spec Extents N (Src : EXT4_EXTENT → Prop) n : ∀ Idx s Tree l,
  readable Extents N Src → 0 <= Idx → Idx + Z.of_nat n <= N → Cache s Tree l →
  wp (CacheLoop n Tree Extents Idx) (λ _ s', cache_step Src s s')
    (λ e s', cache_step Src s s' ∧
       (e = RETURN_OUT_OF_RESOURCES ∨ e = RETURN_VOLUME_CORRUPTED ∧ ∃ f, Src f ∧ ee_len f = 0)) s.
Proof.
  induction n as [|n IH]; intros Idx s Tree l Hrd HI HN HC; cbn [CacheLoop].
  { apply wp_ret, cache_step_refl; [by eexists _, _|done]. }
  assert (CacheOk s) as HCs by by eexists _, _.
  apply wp_bind. eapply wp_mono; [apply Hrd; lia| |done]. intros e s' (-> & He & Hsrc). apply wp_bind, wp_fail_if.
  { intros H0%Z.eqb_eq. split; [by apply cache_step_refl|]. right. eauto. }
  intros H0%Z.eqb_neq. apply wp_bind, wp_AllocateExtent.
  2: { intros _. apply wp_raise. split; [by apply cache_step_refl|by left]. }
  intros p Hp. destruct (AllocatePool_fresh _ _ Hp) as (_ & _ & Hpf & _).
  apply wp_bind, wp_getS, wp_bind, wp_modify, wp_bind. set (s1 := with_ExtentPool _ _).
  pose proof (oc_Insert_ok (Collections s1) Tree Ext4ExtentsMapStructCompare Ext4ExtentsMapKeyCompare l (AllocatePool s1) (p, e) _
    (cache_holds _ _ _ HC) (λ x Hx, proj1 (AllocatePool_fresh s1 x Hx))) as Hins.
  assert (with_ExtentPool (delete p (ExtentPool (tick s1))) (tick s1) ≡ s) as Hfreed.
  { split_and!; cbn; [done| |done|done]. by apply delete_insert_id. }
  assert (∀ s' l', Cache s' Tree l' → cache_step Src s s' →
    wp (CacheLoop n Tree Extents (Idx + 1)) (λ _ s'', cache_step Src s s'')
      (λ e s'', cache_step Src s s'' ∧
         (e = RETURN_OUT_OF_RESOURCES ∨ e = RETURN_VOLUME_CORRUPTED ∧ ∃ f, Src f ∧ ee_len f = 0)) s') as Hgo.
  { intros s' l' HC' Hs'. eapply wp_mono; [apply (IH (Idx + 1) s' Tree l'); [done|lia|lia|done]| |].
    - intros [] s'' Hs''. by eapply cache_step_trans.
    - intros f s'' [Hs'' Hf]. split; [by eapply cache_step_trans|done]. }
  destruct (find_entry _ l) as [y|]; [|destruct (AllocatePool s1) as [x|] eqn:Hx].
  - eapply wp_call_read; [exact Hins|]. cbn [OrderedInsert.Status]. apply wp_bind.
    eapply wp_FreeExtent; [apply lookup_insert_eq|]. rewrite bool_decide_true by done.
    apply (Hgo _ l); [by rewrite Hfreed|by apply cache_step_refl].
  - destruct Hins as (c & Hc & Hh). eapply wp_call_ok; [exact Hc|]. cbn [OrderedInsert.Status].
    destruct (cache_insert s Tree l p e x c (S (S (Clock s))) HC Hpf He H0 Hh) as [HC' Hstep].
    eapply Hgo; [exact HC'|]. eapply cache_step_mono; [|exact Hstep]. by intros ? <-.
  - eapply wp_call_read; [exact Hins|]. cbn [OrderedInsert.Status]. apply wp_bind.
    eapply wp_FreeExtent; [apply lookup_insert_eq|]. rewrite bool_decide_false by done.
    apply wp_ret. by apply cache_step_refl.
Qed.

(** Ext4CacheExtents never faults; the cache grows by extents of the array. *)
Lemma Ext4CacheExtents_spec Extents N (Src : EXT4_EXTENT → Prop) s :
  readable Extents N Src → 0 <= N → CacheOk s →
  wp (Ext4CacheExtents Extents N) (λ _ s', cache_step Src s s')
    (λ e s', cache_step Src s s' ∧
       (e = RETURN_OUT_OF_RESOURCES ∨ e = RETURN_VOLUME_CORRUPTED ∧ ∃ f, Src f ∧ ee_len f = 0)) s.
Proof.
  intros Hrd HN (Tree & l & HC). apply wp_bind. eapply wp_the_map; [done|].
  eapply CacheLoop_spec; [done|lia|lia|done].
Qed.

(** ** The life of the cache *)

Lemma Ext4InitExtentsMap_spec s :
  ExtentPool s = ∅ →
  wp Ext4InitExtentsMap
    (λ _ s', CacheOk s' ∧ ExtentPool s' = ∅ ∧ Buffers s' = Buffers s)
    (λ e s', e = RETURN_OUT_OF_RESOURCES ∧ AllocatePool s = None ∧ ExtentsMap s' = NULL ∧ ExtentPool s' = ∅) s.
Proof.
  intros Hpool. apply wp_bind, wp_getS, wp_bind, wp_modify, wp_bind. destruct (AllocatePool s) as [Tree|] eqn:HT.
  - destruct (AllocatePool_fresh _ _ HT) as (_ & Hf & _).
    destruct (oc_Init_ok _ _ Ext4ExtentsMapStructCompare Ext4ExtentsMapKeyCompare _ Hf) as (c & Hc & Hh).
    eapply wp_call_ok; [exact Hc|]. apply wp_bind, wp_modify, wp_fail_if; [done|intros _].
    split_and!; [|done|done]. exists Tree, []. split; [done|done| |done]. cbn. by rewrite Hpool.
  - eapply wp_call_ok; [apply oc_Init_null|]. apply wp_bind, wp_modify, wp_fail_if; [|done]. intros _. by split_and!.
Qed.

Lemma FreeExtents_spec fuel : ∀ s Tree l,
  Cache s Tree l → (length l < fuel)%nat →
  wp (FreeExtents fuel Tree) (λ _ s', Cache s' Tree [] ∧ Buffers s' = Buffers s) (λ _ _, False) s.
Proof.
  induction fuel as [|fuel IH]; intros s Tree l HC Hf; [lia|]. cbn [FreeExtents]. apply wp_bind.
  eapply wp_call_read; [eapply oc_Min_ok, HC|]. destruct l as [|[x [p e]] l]; cbn [head fmap option_fmap option_map fst].
  { by apply wp_ret. }
  destruct (oc_Delete_ok (Collections s) Tree Ext4ExtentsMapStructCompare Ext4ExtentsMapKeyCompare [] x (p, e) l _
    (cache_holds _ _ _ HC)) as (c & Hc & Hh).
  apply wp_bind. eapply wp_call_ok; [exact Hc|]. cbn [fst]. apply wp_bind.
  assert (ExtentPool s !! p = Some e) as Hp by (apply (cache_lookup _ _ _ _ _ HC); exists x; apply list_elem_of_here).
  eapply wp_FreeExtent; [exact Hp|]. eapply wp_mono; [apply (IH _ _ l)| |done].
  - split; cbn; [apply HC|done| |].
    + apply (Permutation_cons_inv (a := (p, e))). rewrite map_to_list_delete by done. apply (cache_pool _ _ _ HC).
    + exact (Forall_inv_tail (cache_extents _ _ _ HC)).
  - cbn in Hf. lia.
  - done.
Qed.

(** Ext4FreeExtentsMap releases every extent and the collection. *)
Lemma Ext4FreeExtentsMap_spec s :
  CacheOk s →
  wp Ext4FreeExtentsMap
    (λ _ s', ExtentPool s' = ∅ ∧ ExtentsMap s' = NULL ∧ Buffers s' = Buffers s) (λ _ _, False) s.
Proof.
  intros (Tree & l & HC). apply wp_bind. eapply wp_the_map; [done|]. apply wp_bind, wp_getS, wp_bind.
  eapply wp_mono; [eapply FreeExtents_spec; [done|]| |done].
  - pose proof (Permutation_length (cache_pool _ _ _ HC)) as Hl. rewrite length_map_to_list, length_fmap in Hl. lia.
  - intros _ s' [HC' HB]. apply wp_bind. eapply wp_call_read; [by eapply oc_IsEmpty_ok, HC'|].
    apply wp_bind, wp_ASSERT; [done|]. destruct (oc_Uninit_ok _ _ _ _ (cache_holds _ _ _ HC')) as [c Hc].
    apply wp_bind. eapply wp_call_ok; [exact Hc|]. apply wp_modify. split_and!; [|done|done]. cbn.
    apply map_to_list_empty_iff, Permutation_nil_r, (cache_pool _ _ _ HC').
Qed.
End Cache.

(** ** Sequences of operations *)

Section Sequences.
Context `{OC : !OrderedCollectionLib (loc * EXT4_EXTENT) Z, HPl : !Platform, HFw : !Firmware}.

(** What a file does with its cache: add the extents of an array, or look a block up. *)
Inductive cache_op :=
| OpCache (Extents : list EXT4_EXTENT)
| OpLookup (Block : Z).

Definition op_ok (op : cache_op) : Prop :=
  match op with OpCache Extents => Forall ExtentOk Extents | OpLookup Block => u32 Block end.

Definition array (Extents : list EXT4_EXTENT) (Idx : Z) : M ext4 EXT4_EXTENT :=
  match Extents !! Z.to_nat Idx with Some e => mret e | None => crash OutOfBounds end.

Definition run_op (op : cache_op) : M ext4 unit :=
  match op with
  | OpCache Extents => attempt (Ext4CacheExtents (array Extents) (Z.of_nat (length Extents)));; mret tt
  | OpLookup Block =>
      p ← Ext4GetExtentFromMap Block;
      match p with Some p => deref_extent p;; mret tt | None => mret tt end
  end.

Fixpoint run_ops (ops : list cache_op) : M ext4 unit :=
  match ops with
  | [] => mret tt
  | op :: ops => run_op op;; run_ops ops
  end.

Lemma array_readable Extents :
  Forall ExtentOk Extents → readable (array Extents) (Z.of_nat (length Extents)) (λ e, e ∈ Extents).
Proof.
  intros HE Idx s HI. unfold array. destruct (lookup_lt_is_Some_2 Extents (Z.to_nat Idx)) as [e He]; [lia|].
  rewrite He. apply wp_ret. split; [done|]. split; [by eapply Forall_lookup_1|by eapply list_elem_of_lookup_2].
Qed.

Lemma run_op_spec op s :
  op_ok op → CacheOk s →
  wp (run_op op) (λ _ s', CacheOk s' ∧ Buffers s' = Buffers s ∧ ∀ e, cached s e → cached s' e) (λ _ _, False) s.
Proof.
  intros Hop HC. destruct op as [Extents|Block]; cbn [run_op op_ok] in *; apply wp_bind.
  - apply wp_attempt. eapply wp_mono; [apply (Ext4CacheExtents_spec _ _ _ s (array_readable Extents Hop)); [lia|done]| |].
    + intros [] s' (H1 & H2 & H3 & _). by apply wp_ret.
    + intros e s' [(H1 & H2 & H3 & _) _]. by apply wp_ret.
  - eapply wp_mono; [by apply Ext4GetExtentFromMap_spec| |done]. intros [p|] s' [-> Hp]; [|by apply wp_ret].
    destruct Hp as (e & Hp & _). apply wp_bind, wp_bind, wp_getS. rewrite Hp. by apply wp_ret, wp_ret.
Qed.

Lemma run_ops_spec ops : ∀ s,
  Forall op_ok ops → CacheOk s →
  wp (run_ops ops) (λ _ s', CacheOk s' ∧ Buffers s' = Buffers s) (λ _ _, False) s.
Proof.
  induction ops as [|op ops IH]; intros s Hops HC; cbn [run_ops]; [by apply wp_ret|].
  apply Forall_cons_1 in Hops as [Hop Hops]. apply wp_bind. eapply wp_mono; [by apply run_op_spec| |done].
  intros [] s1 (HC1 & HB1 & _). eapply wp_mono; [by apply IH| |done]. intros [] s2 [HC2 HB2]. split; [done|congruence].
Qed.
End Sequences.

(** Whatever sequence of insertions and lookups a file performs on its extent cache between
    Ext4InitExtentsMap and Ext4FreeExtentsMap, with extents that overlap, repeat or are empty
    and with memory running out at any point after the first allocation, nothing faults, no
    freed extent is used, and in the end every extent and the collection have been released. *)
Theorem ext4_cache_no_leak `{OC : !OrderedCollectionLib (loc * EXT4_EXTENT) Z, !Platform, !Firmware}
    (ops : list cache_op) (Hops : Forall op_ok ops) (s : ext4) (Hempty : ExtentPool s = ∅)
    (Halloc : AllocatePool s ≠ None) :
  ∃ s', (Ext4InitExtentsMap;; run_ops ops;; Ext4FreeExtentsMap) s = Ok tt s' ∧
    ExtentPool s' = ∅ ∧ Buffers s' = Buffers s ∧ ExtentsMap s' = NULL.
Proof.
  destruct (wp_total (Ext4InitExtentsMap;; run_ops ops;; Ext4FreeExtentsMap)
    (λ _ s', ExtentPool s' = ∅ ∧ Buffers s' = Buffers s ∧ ExtentsMap s' = NULL) s) as ([] & s' & Hs & Hpost); [|by eauto].
  apply wp_bind. eapply wp_mono; [by apply Ext4InitExtentsMap_spec| |by intros e s' (_ & Hn & _)].
  intros [] s1 (HC & _ & HB). apply wp_bind. eapply wp_mono; [by apply run_ops_spec| |done].
  intros [] s2 [HC2 HB2]. eapply wp_mono; [by apply Ext4FreeExtentsMap_spec| |done].
  intros [] s3 (Hp & Hm & HB3). split_and!; [done|congruence|done].
Qed.

Section Witness.
#[local] Existing Instance platform_x64.
#[local] Existing Instance sample_collections.
#[local] Instance zero_disk : Firmware := sample_firmware (λ _, 0).

Lemma ext4_cache_no_leak_witness :
  ∃ s', (Ext4InitExtentsMap;;
         run_ops [OpCache [mkExtent 0 4 0 100; mkExtent 4 2 0 200]; OpLookup 5; OpCache [mkExtent 4 0 0 0]];;
         Ext4FreeExtentsMap) sample_state = Ok tt s' ∧ ExtentPool s' = ∅.
Proof.
  assert (Forall op_ok [OpCache [mkExtent 0 4 0 100; mkExtent 4 2 0 200]; OpLookup 5; OpCache [mkExtent 4 0 0 0]]) as Hops.
  { repeat constructor; by compute. }
  destruct (ext4_cache_no_leak _ Hops sample_state eq_refl (sample_alloc_some (λ _, 0) sample_state)) as (s' & Hs & Hp & _).
  exists s'. exact (conj Hs Hp).
Defined.
End Witness.
