(* ===== verification/Ext4Tree.v ===== *)
(** The extent tree of a file: Ext4GetExtent is safe on every inode and every disk, and what
    it returns is an extent of the file that covers the block. *)
From Stdlib Require Import String.
From stdpp Require Import gmap.
From S2P Require Import Prelude OrderedCollection OrderedLib Base Buffer Overflow Platform PeImage CheckSum Ext4Disk Ext4Checksum Ext4BlockMap Ext4Extents Ext4Cache.
#[local] Open Scope string_scope.
#[local] Open Scope list_scope.
#[local] Open Scope Z_scope.

(** ** Nodes *)

Definition node_magic (b : list Z) : Z := load 2 b 0.
Definition node_entries (b : list Z) : Z := load 2 b 2.
Definition node_max (b : list Z) : Z := load 2 b 4.
Definition node_depth (b : list Z) : Z := load 2 b 6.
Definition node_key (b : list Z) (i : Z) : Z := load 4 b (entry_offset i).
Definition node_child (b : list Z) (i : Z) : Z :=
  Z.lor (LShiftU64 (load 2 b (entry_offset i + 8)) 32) (load 4 b (entry_offset i + 4)).
Definition node_extent (b : list Z) (i : Z) : EXT4_EXTENT :=
  mkExtent (load 4 b (entry_offset i)) (load 2 b (entry_offset i + 4)) (load 2 b (entry_offset i + 6))
    (load 4 b (entry_offset i + 8)).

(** What Ext4ExtentHeaderValid checks. *)
Definition header_valid (b : list Z) (MaxEntries : Z) : bool :=
  (node_depth b <=? EXT4_EXTENT_TREE_MAX_DEPTH) && (node_magic b =? EXT4_EXTENT_HEADER_MAGIC) &&
  (node_max b <=? MaxEntries) && (node_entries b <=? node_max b).

(** A node all of whose entries, and the slot of the first one, are in the buffer. *)
Record NodeOk (b : list Z) : Prop := {
  node_bytes : bytes b;
  node_room : entry_offset (Z.max 1 (node_entries b)) <= size b;
  node_depth_max : node_depth b <= EXT4_EXTENT_TREE_MAX_DEPTH;
}.

Lemma node_entries_range b : bytes b → 0 <= node_entries b < 2 ^ 16.
Proof. intros Hb. exact (load_u16 b 2 Hb). Qed.

Lemma node_child_range b i : bytes b → 0 <= node_child b i < 2 ^ 48.
Proof.
  intros Hb. unfold node_child. pose proof (load_u16 b (entry_offset i + 8) Hb) as H1. pose proof (load_u32 b (entry_offset i + 4) Hb) as H2.
  unfold LShiftU64. rewrite wrap_small.
  - rewrite lor_shiftl_add by (done || lia). unfold is_uint in *. lia.
  - unfold is_uint in *. rewrite Z.shiftl_mul_pow2 by lia. lia.
Qed.

Lemma header_valid_ok b MaxEntries :
  bytes b → header_valid b MaxEntries = true → entry_offset MaxEntries <= size b → 24 <= size b → NodeOk b.
Proof.
  unfold header_valid, entry_offset, SIZEOF_EXT4_EXTENT_HEADER, SIZEOF_EXT4_EXTENT. rewrite !andb_true_iff, !Z.leb_le.
  intros Hb [[[Hd _] Hm] He] Hs H24. split; [done| |done]. unfold entry_offset, SIZEOF_EXT4_EXTENT_HEADER, SIZEOF_EXT4_EXTENT. lia.
Qed.

Section NodeSpecs.
Context {T : Type}.
Implicit Types (s : T).

Lemma wp_rd_field l f b off n (Q : Z → T → Prop) E s :
  field_size l f = n → 0 <= off + offset_of l f → off + offset_of l f + Z.of_nat n <= size b →
  Q (load n b (off + offset_of l f)) s → wp (rd_field l f b off) Q E s.
Proof. intros <- H1 H2 HQ. by apply wp_rd. Qed.

Lemma Ext4ExtentHeaderValid_spec b MaxEntries s :
  12 <= size b → Ext4ExtentHeaderValid b MaxEntries s = Ok (header_valid b MaxEntries) s.
Proof.
  intros Hs. apply wp_exact. unfold Ext4ExtentHeaderValid. do 4 (apply wp_bind, wp_rd; [by compute|layouts; lia|]). apply wp_ret.
  split; [|done]. unfold header_valid, node_depth, node_magic, node_max, node_entries. layouts. rewrite !Z.add_0_l.
  destruct (Z.ltb_spec EXT4_EXTENT_TREE_MAX_DEPTH (load 2 b 6)), (Z.leb_spec (load 2 b 6) EXT4_EXTENT_TREE_MAX_DEPTH),
    (Z.ltb_spec MaxEntries (load 2 b 4)), (Z.leb_spec (load 2 b 4) MaxEntries), (Z.ltb_spec (load 2 b 4) (load 2 b 2)),
    (Z.leb_spec (load 2 b 2) (load 2 b 4)), (load 2 b 0 =? EXT4_EXTENT_HEADER_MAGIC); cbn; done || lia.
Qed.

(** The search: the entries up to the result have keys up to the block and the ones behind it
    larger keys, if the keys are in order; it stays within the bounds in any case. *)
Lemma Binsearch_spec fuel : ∀ b Block l r s,
  0 <= l → entry_offset (r + 1) <= size b → (Z.to_nat (r - l + 1) < fuel)%nat →
  wp (Binsearch fuel b Block l r)
    (λ i s', s' = s ∧ l - 1 <= i <= Z.max (l - 1) r ∧
       ((∀ j k, l <= j <= k → k <= r → node_key b j <= node_key b k) →
        (∀ j, l <= j <= i → node_key b j <= Block) ∧ (∀ j, i < j <= r → Block < node_key b j)))
    (λ _ _, False) s.
Proof.
  unfold entry_offset, SIZEOF_EXT4_EXTENT_HEADER, SIZEOF_EXT4_EXTENT.
  induction fuel as [|fuel IH]; intros b Block l r s Hl Hs Hf; [lia|]. cbn [Binsearch].
  destruct (Z.leb_spec l r) as [Hlr|Hlr].
  2: { apply wp_ret. split; [done|]. split; [lia|]. intros _. split; intros j Hj; lia. }
  pose proof (Z.div_mod (r - l) 2). pose proof (Z.mod_pos_bound (r - l) 2). set (m := l + (r - l) / 2).
  assert (l <= m <= r) as Hm by lia. apply wp_bind, wp_rd;
    [unfold entry_offset, SIZEOF_EXT4_EXTENT_HEADER, SIZEOF_EXT4_EXTENT; lia..|]. fold (node_key b m).
  destruct (Z.ltb_spec Block (node_key b m)) as [Hk|Hk].
  - eapply wp_mono; [apply IH; lia| |done]. intros i s' (-> & Hi & Hex). split; [done|]. split; [lia|].
    intros Hsort. destruct Hex as [Hle Hgt]; [intros j k Hj Hk'; apply Hsort; lia|]. split; [done|].
    intros j Hj. destruct (Z.le_gt_cases j (m - 1)); [apply Hgt; lia|]. pose proof (Hsort m j). lia.
  - eapply wp_mono; [apply IH; lia| |done]. intros i s' (-> & Hi & Hex). split; [done|]. split; [lia|].
    intros Hsort. destruct Hex as [Hle Hgt]; [intros j k Hj Hk'; apply Hsort; lia|]. split; [|done].
    intros j Hj. destruct (Z.le_gt_cases (m + 1) j); [apply Hle; lia|]. pose proof (Hsort j m). lia.
Qed.

(** The last entry whose key is not above the block, or the first entry. *)
Definition selects (b : list Z) (Block i : Z) : Prop :=
  0 <= i <= Z.max 0 (node_entries b - 1) ∧
  ((∀ j k, 1 <= j <= k → k < node_entries b → node_key b j <= node_key b k) →
   (0 < i → node_key b i <= Block) ∧ (∀ j, i < j < node_entries b → Block < node_key b j)).

Lemma Binsearch_selects b Block s :
  NodeOk b → wp (Binsearch (S (Z.to_nat (node_entries b))) b Block 1 (node_entries b - 1))
    (λ i s', s' = s ∧ selects b Block i) (λ _ _, False) s.
Proof.
  intros HN. pose proof (node_entries_range b (node_bytes b HN)) as Hn. pose proof (node_room b HN) as Hr.
  unfold entry_offset, SIZEOF_EXT4_EXTENT_HEADER, SIZEOF_EXT4_EXTENT in Hr.
  eapply wp_mono; [apply Binsearch_spec; [lia|unfold entry_offset, SIZEOF_EXT4_EXTENT_HEADER, SIZEOF_EXT4_EXTENT; lia|lia]| |done].
  intros i s' (-> & Hi & Hex). split; [done|]. split; [lia|]. intros Hsort.
  destruct Hex as [Hle Hgt]; [intros j k Hj Hk; apply Hsort; lia|].
  split; [intros Hi0; apply Hle; lia|intros j Hj; apply Hgt; lia].
Qed.

Lemma node_rd_entries b (Q : Z → T → Prop) E s :
  NodeOk b → Q (node_entries b) s → wp (rd_field EXT4_EXTENT_HEADER "eh_entries" b 0) Q E s.
Proof.
  intros HN HQ. pose proof (node_room b HN) as Hr. unfold entry_offset, SIZEOF_EXT4_EXTENT_HEADER, SIZEOF_EXT4_EXTENT in Hr.
  apply wp_rd; [by compute|layouts; lia|done].
Qed.

Lemma node_rd_depth b (Q : Z → T → Prop) E s :
  NodeOk b → Q (node_depth b) s → wp (rd_field EXT4_EXTENT_HEADER "eh_depth" b 0) Q E s.
Proof.
  intros HN HQ. pose proof (node_room b HN) as Hr. unfold entry_offset, SIZEOF_EXT4_EXTENT_HEADER, SIZEOF_EXT4_EXTENT in Hr.
  apply wp_rd; [by compute|layouts; lia|done].
Qed.

Lemma Ext4BinsearchExtentIndex_spec b Block s :
  NodeOk b → wp (Ext4BinsearchExtentIndex b Block) (λ i s', s' = s ∧ selects b Block i) (λ _ _, False) s.
Proof. intros HN. apply wp_bind, node_rd_entries; [done|]. by apply Binsearch_selects. Qed.

Lemma Ext4BinsearchExtentExt_spec b Block s :
  NodeOk b →
  wp (Ext4BinsearchExtentExt b Block)
    (λ r s', s' = s ∧ match r with
       | None => node_entries b = 0
       | Some i => 0 < node_entries b ∧ selects b Block i
       end) (λ _ _, False) s.
Proof.
  intros HN. pose proof (node_entries_range b (node_bytes b HN)). apply wp_bind, node_rd_entries; [done|].
  destruct (Z.eqb_spec (node_entries b) 0) as [H0|H0]; [by apply wp_ret|]. apply wp_bind.
  eapply wp_mono; [by apply Binsearch_selects| |done]. intros i s' [-> Hi]. apply wp_ret. split; [done|]. split; [lia|done].
Qed.

(** Reading an entry. *)
Lemma wp_rd_extent b i (Q : EXT4_EXTENT → T → Prop) E s :
  0 <= i → entry_offset (i + 1) <= size b → Q (node_extent b i) s → wp (rd_extent b (entry_offset i)) Q E s.
Proof.
  unfold entry_offset, SIZEOF_EXT4_EXTENT_HEADER, SIZEOF_EXT4_EXTENT. intros Hi Hs HQ.
  unfold rd_extent, rd_field. layouts. do 4 (apply wp_bind, wp_rd; [lia|lia|]). apply wp_ret. rewrite !Z.add_0_r. exact HQ.
Qed.

Lemma wp_IdxLeafBlock b i (Q : Z → T → Prop) E s :
  0 <= i → entry_offset (i + 1) <= size b → Q (node_child b i) s → wp (Ext4ExtentIdxLeafBlock b i) Q E s.
Proof.
  unfold entry_offset, SIZEOF_EXT4_EXTENT_HEADER, SIZEOF_EXT4_EXTENT. intros Hi Hs HQ.
  unfold Ext4ExtentIdxLeafBlock, rd_field, entry_offset, SIZEOF_EXT4_EXTENT_HEADER, SIZEOF_EXT4_EXTENT. layouts.
  do 2 (apply wp_bind, wp_rd; [lia|lia|]). apply wp_ret. exact HQ.
Qed.

Lemma node_extent_ok b i : bytes b → ExtentOk (node_extent b i).
Proof. intros Hb. split; cbn; auto with buffers. Qed.
End NodeSpecs.

(** ** The extents of a file *)

Section GetExtent.
Context `{OC : !OrderedCollectionLib (loc * EXT4_EXTENT) Z, HPl : !Platform, HOk : !PlatformOk, HFw : !Firmware}.
Context (P : EXT4_PARTITION) (HP : PartitionOk P) (F : EXT4_FILE) (HF : FileOk P F).

(** The nodes that can be reached from the inode.  An index node without entries is followed
    through its first slot, as the code does. *)
Inductive node_at : list Z → Prop :=
| node_root : node_at (i_data F)
| node_step b i data t :
    node_at b → node_depth b ≠ 0 → 0 <= i <= Z.max 0 (node_entries b - 1) → node_child b i ≠ 0 →
    ReadDisk t (node_child b i * BlockSize P) (BlockSize P) = inr data →
    node_depth data = node_depth b - 1 → node_at data.

Definition leaf_extent (e : EXT4_EXTENT) : Prop :=
  ∃ b i, node_at b ∧ node_depth b = 0 ∧ 0 <= i < node_entries b ∧ e = node_extent b i.

Definition uses_extents : bool := negb (Z.land (load 4 (Inode F) (offset_of EXT4_INODE "i_flags")) EXT4_EXTENTS_FL =? 0).

(** The extents of the file: those of the leaves, or those of the block map. *)
Definition extent_of_file (e : EXT4_EXTENT) : Prop :=
  if uses_extents then leaf_extent e else block_extent P F (ee_block e) e.

(** The cache holds extents of the file only. *)
Definition Sound (s : ext4) : Prop := CacheOk s ∧ ∀ e, cached s e → extent_of_file e.

#[global] Instance Sound_proper : Proper ((≡) ==> iff) Sound.
Proof. intros s s' Hs. unfold Sound. by setoid_rewrite Hs. Qed.

Lemma Cache_with_Buffers bs s Tree l : Cache s Tree l → Cache (with_Buffers bs s) Tree l.
Proof. intros []. by split. Qed.

Lemma Sound_with_Buffers bs s : Sound s → Sound (with_Buffers bs s).
Proof. intros [(Tree & l & HC) Hs]. split; [|done]. exists Tree, l. by apply Cache_with_Buffers. Qed.

Lemma cache_step_sound s s' : Sound s → cache_step extent_of_file s s' → Sound s'.
Proof. intros [_ Hs] (HC & _ & _ & Hd). split; [done|]. intros e [He|He]%Hd; auto. Qed.

(** *** Buffers *)

(** The buffer, if any, is the only thing that has changed. *)
Definition holding (Buffer : ptr) (s s' : ext4) : Prop :=
  match Buffer with
  | None => s' ≡ s
  | Some x => Buffers s !! x = None ∧ with_buffer P x s s'
  end.

Lemma holding_proper Buffer s s1 s2 : holding Buffer s s1 → s2 ≡ s1 → holding Buffer s s2.
Proof.
  destruct Buffer; cbn; [intros [? H1] H2; split; [done|unfold with_buffer in *; by rewrite H2]|intros H1 H2; by rewrite H2].
Qed.

(** Freeing it when the cache has changed in between. *)
Lemma wp_FreeBufferIfAny Buffer s s1 s2 (Q : unit → ext4 → Prop) E :
  holding Buffer s s1 → Buffers s2 = Buffers s1 → Q tt (with_Buffers (Buffers s) s2) → wp (FreeBufferIfAny Buffer) Q E s2.
Proof.
  destruct Buffer as [x|]; cbn [FreeBufferIfAny holding].
  - intros [Hx Hs] HB HQ. pose proof (with_buffer_lookup P _ _ _ Hs) as Hl. rewrite <- HB in Hl.
    eapply wp_FreeBuffer; [exact Hl|]. rewrite HB. destruct Hs as (_ & _ & H3 & _). rewrite H3. cbn.
    by rewrite delete_insert_id.
  - intros Hs HB HQ. apply wp_ret. destruct Hs as (_ & _ & H3 & _). rewrite <- H3, <- HB in HQ. by destruct s2.
Qed.

(** Freeing it on an error path that has not touched the cache. *)
Lemma wp_free_raise {A} Buffer s s1 e (Q : A → ext4 → Prop) (E : RETURN_STATUS → ext4 → Prop) :
  holding Buffer s s1 → (∀ s2, s2 ≡ s → E e s2) → wp (FreeBufferIfAny Buffer;; raise e) Q E s1.
Proof.
  intros Hs HE. apply wp_bind. eapply wp_FreeBufferIfAny; [done|done|]. apply wp_raise, HE.
  destruct Buffer; cbn in Hs; [destruct Hs as [_ Hs]|]; destruct Hs as (H1 & H2 & H3 & H4); cbn in *; by split_and!.
Qed.

(** *** Reading a node *)

Lemma MaxExtentsPerNode_bound : entry_offset (MaxExtentsPerNode P) <= BlockSize P.
Proof using HP.
  destruct (BlockSize_bounds P HP) as [HB _]. unfold entry_offset, MaxExtentsPerNode, SIZEOF_EXT4_EXTENT_HEADER, SIZEOF_EXT4_EXTENT.
  assert (wrap 16 (BlockSize P / 12 - 1) <= BlockSize P / 12 - 1); [|pose proof (Z.mul_div_le (BlockSize P) 12); lia].
  apply Z.mod_le; [|lia]. assert (1 <= BlockSize P / 12) by (apply Z.div_le_lower_bound; lia). lia.
Qed.

(** The result of Ext4CheckExtentChecksum. *)
Definition node_checksum_ok (b : list Z) : bool :=
  negb (EXT4_HAS_METADATA_CSUM P) || (load 4 b (BlockSize P - 4) =? extent_checksum P b F).

Lemma CheckExtentChecksum_exact b (s : ext4) :
  bytes b → size b = BlockSize P → Ext4CheckExtentChecksum P b F s = Ok (node_checksum_ok b) s.
Proof using HP HF HOk.
  intros Hb Hs. unfold node_checksum_ok. destruct (EXT4_HAS_METADATA_CSUM P) eqn:Hc.
  - by apply Ext4CheckExtentChecksum_spec.
  - unfold Ext4CheckExtentChecksum. by rewrite Hc.
Qed.

(** Why a node cannot be read. *)
Inductive read_error (BlockNumber Depth : Z) (e : RETURN_STATUS) : Prop :=
| read_overflow : e = RETURN_INVALID_PARAMETER → 2 ^ 64 <= BlockNumber * BlockSize P → read_error BlockNumber Depth e
| read_failed t : ReadDisk t (BlockNumber * BlockSize P) (BlockSize P) = inl e → read_error BlockNumber Depth e
| read_corrupt t data :
    e = RETURN_VOLUME_CORRUPTED → ReadDisk t (BlockNumber * BlockSize P) (BlockSize P) = inr data →
    header_valid data (MaxExtentsPerNode P) = false ∨ node_checksum_ok data = false ∨ node_depth data ≠ Depth →
    read_error BlockNumber Depth e.

Lemma ReadNode_spec x BlockNumber Depth s s1 :
  holding (Some x) s s1 → 0 < BlockNumber →
  wp (ReadNode P F (Some x) BlockNumber Depth)
    (λ b s2, holding (Some x) s s2 ∧ NodeOk b ∧ node_depth b = Depth ∧
       ∃ t, ReadDisk t (BlockNumber * BlockSize P) (BlockSize P) = inr b)
    (λ e s2, s2 ≡ s ∧ read_error BlockNumber Depth e) s1.
Proof using HP HF HOk.
  intros Hh HB. destruct (BlockSize_bounds P HP) as [HBS _]. destruct Hh as [Hx Hw]. unfold ReadNode. apply wp_bind.
  eapply wp_BufferSize; [by eapply with_buffer_lookup|]. apply wp_bind, wp_attempt.
  eapply wp_mono; [apply Ext4ReadBlocks_spec; lia| |].
  2: { intros e s2 [Hs2 He]. cbn. eapply wp_free_and_raise; [exact Hx|unfold with_buffer in *; by rewrite Hs2|].
       intros s3 Hs3. split; [done|]. rewrite Z.mul_1_l in He. destruct He as [[-> [Ho|Ho]]|He].
       - by apply read_overflow.
       - destruct platform_uintn as [HW|HW]; rewrite HW in Ho; lia.
       - by eapply read_failed. }
  intros b s2 (-> & _ & _ & Hd & Hsz & Hb). rewrite Z.mul_1_l in Hd, Hsz.
  assert (∀ (Q : list Z → ext4 → Prop),
    header_valid b (MaxExtentsPerNode P) = false ∨ node_checksum_ok b = false ∨ node_depth b ≠ Depth →
    wp (free_and_raise (Some x) RETURN_VOLUME_CORRUPTED) Q (λ e s2, s2 ≡ s ∧ read_error BlockNumber Depth e) (tick s1)) as Hbad.
  { intros Q Hb'. eapply wp_free_and_raise; [exact Hx|done|]. intros s3 Hs3. split; [done|by eapply read_corrupt]. }
  apply wp_bind. eapply wp_intro_ok; [apply Ext4ExtentHeaderValid_spec; lia|].
  destruct (header_valid b (MaxExtentsPerNode P)) eqn:Hv; cbn [negb]; [|apply Hbad; by left]. apply wp_bind.
  eapply wp_intro_ok; [by apply CheckExtentChecksum_exact|].
  destruct (node_checksum_ok b) eqn:Hc; cbn [negb]; [|apply Hbad; right; by left].
  assert (NodeOk b) as HN by (eapply header_valid_ok; [done|done|rewrite Hsz; apply MaxExtentsPerNode_bound|lia]).
  apply wp_bind, node_rd_depth; [done|].
  destruct (Z.eqb_spec (node_depth b) Depth) as [Hdep|]; cbn [negb]; [|apply Hbad; right; by right].
  apply wp_ret. split; [by split|]. split; [done|]. split; [done|]. by eexists.
Qed.

(** *** From the root to a leaf *)

(** The leaf the search for a block ends at. *)
Inductive descends (Block : Z) : list Z → list Z → Prop :=
| descends_leaf b : node_depth b = 0 → descends Block b b
| descends_step b i data t leaf :
    node_depth b ≠ 0 → selects b Block i → node_child b i ≠ 0 →
    ReadDisk t (node_child b i * BlockSize P) (BlockSize P) = inr data →
    node_depth data = node_depth b - 1 → descends Block data leaf → descends Block b leaf.

Lemma descends_node_at Block b leaf : descends Block b leaf → node_at b → node_at leaf ∧ node_depth leaf = 0.
Proof.
  induction 1 as [|b i data t leaf H1 [Hi _] H3 H4 H5 _ IH]; intros Hb; [done|]. apply IH. by eapply node_step.
Qed.

(** Why the search does not get to a leaf. *)
Inductive fails (Block : Z) (e : RETURN_STATUS) : list Z → Prop :=
| fails_hole b i :
    node_depth b ≠ 0 → selects b Block i → node_child b i = 0 → e = RETURN_VOLUME_CORRUPTED → fails Block e b
| fails_read b i :
    node_depth b ≠ 0 → selects b Block i → node_child b i ≠ 0 → read_error (node_child b i) (node_depth b - 1) e → fails Block e b
| fails_step b i data t :
    node_depth b ≠ 0 → selects b Block i → node_child b i ≠ 0 →
    ReadDisk t (node_child b i * BlockSize P) (BlockSize P) = inr data →
    node_depth data = node_depth b - 1 → fails Block e data → fails Block e b.

Lemma Descend_spec Block s fuel : ∀ b Buffer s1,
  NodeOk b → holding Buffer s s1 → (Z.to_nat (node_depth b) < fuel)%nat →
  wp (Descend P F Block fuel b Buffer (node_depth b))
    (λ r s2, holding r.2 s s2 ∧ NodeOk r.1 ∧ descends Block b r.1)
    (λ e s2, s2 ≡ s ∧ (fails Block e b ∨ e = RETURN_OUT_OF_RESOURCES)) s1.
Proof using HP HF HOk.
  induction fuel as [|fuel IH]; intros b Buffer s1 HN Hh Hf; [lia|]. cbn [Descend].
  pose proof (load_u16 b 6 (node_bytes b HN)) as Hd. fold (node_depth b) in Hd. unfold is_uint in Hd.
  apply wp_bind, node_rd_depth; [done|]. destruct (Z.eqb_spec (node_depth b) 0) as [H0|H0].
  { apply wp_ret. split_and!; [done|done|by constructor]. }
  rewrite wrap_small by (unfold is_uint; lia). apply wp_bind.
  eapply wp_mono; [by apply Ext4BinsearchExtentIndex_spec| |done]. intros i s' [-> Hsel].
  pose proof (node_room b HN) as Hroom. unfold entry_offset, SIZEOF_EXT4_EXTENT_HEADER, SIZEOF_EXT4_EXTENT in Hroom.
  apply wp_bind, wp_IdxLeafBlock; [apply Hsel| |].
  { unfold entry_offset, SIZEOF_EXT4_EXTENT_HEADER, SIZEOF_EXT4_EXTENT. destruct Hsel as [Hi _]. lia. }
  pose proof (node_child_range b i (node_bytes b HN)) as Hchild. unfold EXT4_BLOCK_FILE_HOLE.
  destruct (Z.eqb_spec (node_child b i) 0) as [Hz|Hz].
  { eapply wp_free_raise; [done|]. intros s2 Hs2. split; [done|]. left. by eapply fails_hole. }
  assert (∀ x s2, holding (Some x) s s2 →
    wp (ExtHeader ← ReadNode P F (Some x) (node_child b i) (node_depth b - 1);
        Descend P F Block fuel ExtHeader (Some x) (node_depth b - 1))
      (λ r s3, holding r.2 s s3 ∧ NodeOk r.1 ∧ descends Block b r.1)
      (λ e s3, s3 ≡ s ∧ (fails Block e b ∨ e = RETURN_OUT_OF_RESOURCES)) s2) as Hgo.
  { intros x s2 Hs2. apply wp_bind. eapply wp_mono; [apply (ReadNode_spec x _ _ s); [done|lia]| |].
    - intros data s3 (Hs3 & HN' & Hdep & t & Ht). rewrite <- Hdep.
      eapply wp_mono; [apply IH; [done|done|lia]| |].
      + intros r s4 (Hs4 & HNr & Hdesc). split_and!; [done|done|]. by eapply descends_step.
      + intros e s4 [Hs4 [He|He]]; split; [done| |done|by right]. left. by eapply fails_step.
    - intros e s3 [Hs3 He]. split; [done|]. left. by eapply fails_read. }
  apply wp_bind. destruct Buffer as [x|].
  - apply wp_ret. apply wp_bind, wp_fail_if; [done|intros _]. by apply Hgo.
  - cbn [is_null]. change (bool_decide (NULL = NULL)) with true. apply wp_AllocateBuffer.
    + intros x Hx. apply wp_bind, wp_fail_if; [done|intros _]. apply Hgo.
      destruct (AllocatePool_fresh _ _ Hx) as (_ & _ & _ & Hfr). destruct Hh as (E1 & E2 & E3 & E4).
      split; [by rewrite <- E3|]. split_and!; cbn; congruence.
    + intros _. apply wp_bind, wp_fail_if; [intros _|done]. split; [by rewrite tick_equiv|by right].
Qed.

(** *** The leaf *)

Lemma holding_sound Buffer s s1 : Sound s → holding Buffer s s1 → Sound s1.
Proof.
  intros Hs. destruct Buffer; cbn [holding]; [intros [_ Hh]; unfold with_buffer in Hh|intros Hh]; rewrite Hh; [by apply Sound_with_Buffers|done].
Qed.

Lemma leaf_readable b :
  NodeOk b → readable (λ Idx, rd_extent b (entry_offset Idx)) (node_entries b)
    (λ e, ∃ i, 0 <= i < node_entries b ∧ e = node_extent b i).
Proof.
  intros HN Idx s HI. pose proof (node_room b HN) as Hroom. unfold entry_offset, SIZEOF_EXT4_EXTENT_HEADER, SIZEOF_EXT4_EXTENT in Hroom.
  apply wp_rd_extent; [lia|unfold entry_offset, SIZEOF_EXT4_EXTENT_HEADER, SIZEOF_EXT4_EXTENT; lia|].
  split; [done|]. split; [apply node_extent_ok, (node_bytes b HN)|by eexists].
Qed.

(** The search in the leaf did not find the block. *)
Definition leaf_misses (Block : Z) (b : list Z) : Prop :=
  node_entries b = 0 ∨ ∃ i, 0 < node_entries b ∧ selects b Block i ∧ ¬ covers (node_extent b i) Block.

(** Why the search in a leaf fails. *)
Definition leaf_error (Block : Z) (e : RETURN_STATUS) (b : list Z) : Prop :=
  (e = RETURN_VOLUME_CORRUPTED ∧ ∃ i, 0 <= i < node_entries b ∧ ee_len (node_extent b i) = 0) ∨
  (e = RETURN_NO_MAPPING ∧ leaf_misses Block b).

(** The memory after a lookup. *)
Definition after_lookup (s s' : ext4) : Prop :=
  Sound s' ∧ Buffers s' = Buffers s ∧ ∀ e, cached s e → cached s' e.

Lemma after_lookup_refl s s' : Sound s → s' ≡ s → after_lookup s s'.
Proof. intros Hs Hss. split_and!; [by rewrite Hss|apply Hss|]. intros e. by rewrite Hss. Qed.

Lemma SearchLeaf_spec Block b Buffer s s1 :
  uses_extents = true → Sound s → NodeOk b → node_at b → node_depth b = 0 → holding Buffer s s1 →
  wp (SearchLeaf Block b Buffer)
    (λ e s2, after_lookup s s2 ∧ covers e Block ∧ ∃ i, 0 <= i < node_entries b ∧ e = node_extent b i)
    (λ e s2, after_lookup s s2 ∧ leaf_error Block e b) s1.
Proof.
  intros Hu Hs HN Hb Hd Hh. pose proof (node_entries_range b (node_bytes b HN)) as Hn.
  pose proof (holding_sound _ _ _ Hs Hh) as Hs1. pose proof (node_room b HN) as Hroom.
  unfold entry_offset, SIZEOF_EXT4_EXTENT_HEADER, SIZEOF_EXT4_EXTENT in Hroom.
  assert (∀ s2, cache_step (λ e, ∃ i, 0 <= i < node_entries b ∧ e = node_extent b i) s1 s2 →
    Buffers s2 = Buffers s1 ∧ after_lookup s (with_Buffers (Buffers s) s2)) as Hdone.
  { intros s2 Hstep. assert (cache_step extent_of_file s1 s2) as Hstep'.
    { eapply cache_step_mono; [|exact Hstep]. intros e (i & Hi & ->). unfold extent_of_file. rewrite Hu. by exists b, i. }
    pose proof (cache_step_sound _ _ Hs1 Hstep') as Hs2. destruct Hstep as (_ & HB & Hmono & _). split; [done|].
    split_and!; [by apply Sound_with_Buffers|done|]. intros e He. apply (Hmono e).
    destruct He as [p He]. exists p. rewrite <- He. f_equal.
    destruct Buffer; cbn in Hh; [destruct Hh as [_ Hh]|]; apply Hh. }
  unfold SearchLeaf. apply wp_bind, node_rd_entries; [done|]. apply wp_bind, wp_attempt.
  assert (∀ s2, cache_step (λ e, ∃ i, 0 <= i < node_entries b ∧ e = node_extent b i) s1 s2 →
    wp (Ext ← Ext4BinsearchExtentExt b Block;
        match Ext with
        | None => FreeBufferIfAny Buffer;; raise RETURN_NO_MAPPING
        | Some i =>
            Extent ← rd_extent b (entry_offset i);
            if negb ((ee_block Extent <=? Block) && (Block <? ee_block Extent + Ext4GetExtentLength Extent)) then
              FreeBufferIfAny Buffer;; raise RETURN_NO_MAPPING
            else
              FreeBufferIfAny Buffer;;
              mret Extent
        end)
      (λ e s2, after_lookup s s2 ∧ covers e Block ∧ ∃ i, 0 <= i < node_entries b ∧ e = node_extent b i)
      (λ e s2, after_lookup s s2 ∧ leaf_error Block e b) s2) as Hgo.
  { intros s2 Hstep. destruct (Hdone s2 Hstep) as [HB Hafter]. apply wp_bind.
    eapply wp_mono; [by apply Ext4BinsearchExtentExt_spec| |done]. intros [i|] s' [-> Hi]; cbn beta iota in Hi.
    - destruct Hi as [Hpos Hsel]. apply wp_bind, wp_rd_extent; [apply Hsel| |].
      { unfold entry_offset, SIZEOF_EXT4_EXTENT_HEADER, SIZEOF_EXT4_EXTENT. destruct Hsel as [Hi _]. lia. }
      destruct (decide (covers (node_extent b i) Block)) as [Hc|Hc].
      + replace (_ && _) with true by (symmetry; apply andb_true_iff; rewrite Z.leb_le, Z.ltb_lt; exact Hc). cbn [negb].
        apply wp_bind. eapply wp_FreeBufferIfAny; [done|done|]. apply wp_ret. split_and!; [done|apply Hc..|].
        exists i. destruct Hsel as [Hi _]. split; [lia|done].
      + replace (_ && _) with false; cbn [negb].
        * apply wp_bind. eapply wp_FreeBufferIfAny; [done|done|]. apply wp_raise. split; [done|]. right. split; [done|]. right. by exists i.
        * symmetry. apply not_true_iff_false. rewrite andb_true_iff, Z.leb_le, Z.ltb_lt. exact Hc.
    - apply wp_bind. eapply wp_FreeBufferIfAny; [done|done|]. apply wp_raise. split; [done|]. right. split; [done|by left]. }
  eapply wp_mono; [apply (Ext4CacheExtents_spec _ _ _ s1 (leaf_readable b HN)); [lia|apply Hs1]| |].
  - intros [] s2 Hstep. apply wp_bind, wp_ret. by apply Hgo.
  - intros e s2 [Hstep He]. apply wp_bind. cbn. destruct He as [->|[-> (f & (i & Hi & ->) & Hf)]].
    + apply wp_ret. by apply Hgo.
    + destruct (Hdone s2 Hstep) as [HB Hafter]. apply wp_bind. eapply wp_FreeBufferIfAny; [done|done|].
      apply wp_raise. split; [done|]. left. eauto.
Qed.

(** *** Block maps *)

Lemma table_at_bytes path Table : table_at P F path Table → bytes Table.
Proof using HF. intros []; [by eapply bytes_i_data|by eapply ReadDisk_fills]. Qed.

Lemma block_extent_ok Block e : u32 Block → block_extent P F Block e → ExtentOk e ∧ ee_len e ≠ 0.
Proof using HF.
  intros HB (Hb & path & i & Table & _ & Ht & Hr). apply table_at_bytes in Ht as Hby. split.
  - split; [by rewrite Hb|apply Hr|by rewrite (run_hi _ _ _ _ Hr)|]. rewrite (run_lo _ _ _ _ Hr). by apply load_u32.
  - destruct (run_bounds _ _ _ _ Hr) as [Hc _]. intros H0. unfold Ext4GetExtentLength, EXT4_EXTENT_IS_UNINITIALIZED, EXT4_EXTENT_MAX_INITIALIZED in Hc.
    rewrite H0 in Hc. cbn in Hc. lia.
Qed.

(** The code's walk fails, or the block is behind the last one the code maps. *)
Definition map_error (Block : Z) (e : RETURN_STATUS) : Prop :=
  walk_error P F EXT4_DIND_BLOCK Block e ∨ e = RETURN_NO_MAPPING ∧ mappable (BlockSize P / 4) <= Block.

Lemma GetExtentFromBlockMap_spec Block s :
  uses_extents = false → Sound s → u32 Block →
  wp (GetExtentFromBlockMap P F Block)
    (λ e s', after_lookup s s' ∧ block_extent P F Block e)
    (λ e s', after_lookup s s' ∧ (map_error Block e ∨ e = RETURN_OUT_OF_RESOURCES)) s.
Proof using HP HF HOk.
  intros Hu Hs HB. unfold GetExtentFromBlockMap. rewrite wrap_small by done. apply wp_bind.
  eapply wp_mono; [by apply Ext4GetBlocks_spec| |].
  2: { intros e s' (Hs' & He). split; [by apply after_lookup_refl|]. unfold map_error. destruct He as [?|[[? _]|?]]; auto. }
  intros e s1 (Hs1 & _ & He). destruct (block_extent_ok _ _ HB He) as [Hok H0].
  assert (Sound s1) as HS1 by by rewrite Hs1. apply wp_bind, wp_attempt.
  assert (∀ s2, cache_step (eq e) s1 s2 → after_lookup s s2) as Hdone.
  { intros s2 Hstep. split_and!.
    - eapply cache_step_sound; [exact HS1|]. eapply cache_step_mono; [|exact Hstep].
      intros ? <-. unfold extent_of_file. rewrite Hu. by rewrite (proj1 He).
    - destruct Hstep as (_ & -> & _). apply Hs1.
    - intros f Hf. apply Hstep. by rewrite Hs1. }
  assert (readable (λ Idx, if Idx =? 0 then mret e else crash OutOfBounds) 1 (eq e)) as Hrd.
  { intros Idx s' HI. assert (Idx = 0) as -> by lia. by apply wp_ret. }
  eapply wp_mono; [apply (Ext4CacheExtents_spec _ _ _ s1 Hrd); [lia|apply HS1]| |].
  - intros [] s2 Hstep. apply wp_ret. split; [by apply Hdone|done].
  - intros f s2 [Hstep [->|[_ (g & <- & Hg)]]]; [|done]. cbn. apply wp_ret. split; [by apply Hdone|done].
Qed.

(** *** The whole lookup *)

(** Why a lookup may fail. *)
Definition lookup_error (Block : Z) (e : RETURN_STATUS) : Prop :=
  (e = RETURN_NO_MAPPING ∧ 2 ^ 32 <= Block) ∨ e = RETURN_OUT_OF_RESOURCES ∨
  if uses_extents then
    (e = RETURN_VOLUME_CORRUPTED ∧ header_valid (i_data F) EXT4_NR_INLINE_EXTENTS = false) ∨
    fails Block e (i_data F) ∨ ∃ leaf, descends Block (i_data F) leaf ∧ leaf_error Block e leaf
  else map_error Block e.

Lemma Ext4GetExtent_spec Block s :
  Sound s → 0 <= Block →
  wp (Ext4GetExtent P F Block)
    (λ e s', after_lookup s s' ∧ extent_of_file e ∧ covers e Block ∧ ExtentOk e)
    (λ e s', after_lookup s s' ∧ lookup_error Block e) s.
Proof using HP HF HOk.
  intros Hs HB. unfold Ext4GetExtent. apply wp_bind, wp_fail_if.
  { intros Hbig%Z.ltb_lt. split; [by apply after_lookup_refl|]. left. split; [done|lia]. }
  intros Hsmall%Z.ltb_ge. assert (u32 Block) as HB32 by (unfold is_uint; lia). rewrite wrap_small by done.
  apply wp_bind. eapply wp_mono; [apply Ext4GetExtentFromMap_spec; [apply Hs|done]| |done].
  intros [p|] s' [-> Hp]; cbn beta iota in Hp.
  { destruct Hp as (e & Hp & Hc). apply wp_bind, wp_getS. rewrite Hp. apply wp_ret.
    assert (cached s e) as Hce by by exists p. split; [by apply after_lookup_refl|]. split; [by apply Hs|]. split; [done|].
    by apply (cached_extent s e (proj1 Hs) Hce). }
  clear Hp. apply wp_bind. unfold rd_field at 1. apply wp_rd; [by compute| |].
  { rewrite (fo_inode P F HF). layouts. unfold SIZEOF_EXT4_INODE. lia. }
  change (load (field_size EXT4_INODE "i_flags") (Inode F) (0 + offset_of EXT4_INODE "i_flags"))
    with (load 4 (Inode F) (offset_of EXT4_INODE "i_flags")).
  destruct (Z.land (load 4 (Inode F) (offset_of EXT4_INODE "i_flags")) EXT4_EXTENTS_FL =? 0) eqn:Hfl.
  - assert (uses_extents = false) as Hu by (unfold uses_extents; by rewrite Hfl).
    eapply wp_mono; [by apply GetExtentFromBlockMap_spec| |].
    + intros e s' [Ha He]. destruct (block_extent_ok _ _ HB32 He) as [Hok H0]. destruct (block_extent_maps P HP F _ _ He) as (Hb & Hlen & _).
      split; [done|]. split; [unfold extent_of_file; rewrite Hu; by rewrite Hb|]. split; [unfold covers; lia|done].
    + intros e s' [Ha He]. split; [done|]. unfold lookup_error. rewrite Hu. destruct He; auto.
  - assert (uses_extents = true) as Hu by (unfold uses_extents; by rewrite Hfl).
    assert (size (i_data F) = 60) as H60 by by eapply size_i_data. assert (bytes (i_data F)) as Hby by by eapply bytes_i_data.
    apply wp_bind. eapply wp_intro_ok; [apply Ext4ExtentHeaderValid_spec; unfold Ext4GetInoExtentHeader; lia|].
    apply wp_bind, wp_fail_if.
    { intros Hv%negb_true_iff. split; [by apply after_lookup_refl|]. unfold lookup_error. rewrite Hu. right. right. by left. }
    intros Hv%negb_false_iff. unfold Ext4GetInoExtentHeader in *.
    assert (NodeOk (i_data F)) as HN by (eapply header_valid_ok; [done|done|by rewrite H60; vm_compute|lia]).
    apply wp_bind, node_rd_depth; [done|]. apply wp_bind. eapply wp_mono; [apply (Descend_spec Block s); [done|done|lia]| |].
    + intros [leaf Buffer] s1 (Hh & HNl & Hdesc). cbn [fst snd] in *.
      destruct (descends_node_at _ _ _ Hdesc node_root) as [Hat Hd].
      eapply wp_mono; [by apply (SearchLeaf_spec Block leaf Buffer s)| |].
      * intros e s2 (Ha & Hc & i & Hi & ->). split; [done|]. split; [unfold extent_of_file; rewrite Hu; by exists leaf, i|].
        split; [done|apply node_extent_ok, HNl].
      * intros e s2 [Ha He]. split; [done|]. unfold lookup_error. rewrite Hu. right. right. right. right. by exists leaf.
    + intros e s1 [Hs1 He]. split; [by apply after_lookup_refl|]. unfold lookup_error. rewrite Hu. destruct He; auto.
Qed.

(** An empty cache is sound. *)
Lemma Sound_empty s : CacheOk s → ExtentPool s = ∅ → Sound s.
Proof. intros HC He. split; [done|]. intros e [p Hp]. by rewrite He, lookup_empty in Hp. Qed.
End GetExtent.

(** Ext4GetExtent never faults and terminates, for every inode, every contents of the disk
    and every answer of the firmware, and leaves no buffer allocated.  An extent it returns
    covers the block and is one of the file's: of a leaf the extent tree leads to, or of the
    block map; the cache keeps to extents of the file, so that a hit is as good as a lookup,
    and nothing is evicted.  It fails only for a block above 2^32, for lack of memory, because
    a node is corrupt or cannot be read, or because the search in the leaf found no extent
    around the block. *)
Theorem ext4_get_extent_sound `{OC : !OrderedCollectionLib (loc * EXT4_EXTENT) Z, !Platform, !PlatformOk, !Firmware}
    (P : EXT4_PARTITION) (HP : PartitionOk P) (F : EXT4_FILE) (HF : FileOk P F)
    (Block : Z) (HB : 0 <= Block) (s : ext4) (Hs : Sound P F s) :
  match Ext4GetExtent P F Block s with
  | Ok e s' => after_lookup P F s s' ∧ extent_of_file P F e ∧ covers e Block ∧ ExtentOk e
  | Err e s' => after_lookup P F s s' ∧ lookup_error P F Block e
  | Fault _ => False
  end.
Proof. exact (wp_cases _ _ _ _ (Ext4GetExtent_spec P HP F HF Block s Hs HB)). Qed.

(** ** A file *)

Section SampleFile.
#[local] Existing Instance platform_x64.
#[local] Existing Instance platform_x64_ok.
#[local] Existing Instance sample_collections.

(** A tree of depth one: the root points to block 5, which has the extents [0, 3) at block 100
    and [10, 12) at block 200; block 100 starts with "ext4". *)
Definition sample_root : list Z :=
  le_bytes 2 EXT4_EXTENT_HEADER_MAGIC ++ le_bytes 2 1 ++ le_bytes 2 4 ++ le_bytes 2 1 ++ le_bytes 4 0 ++
  le_bytes 4 0 ++ le_bytes 4 5 ++ le_bytes 2 0 ++ le_bytes 2 0.

Definition sample_leaf : list Z :=
  le_bytes 2 EXT4_EXTENT_HEADER_MAGIC ++ le_bytes 2 2 ++ le_bytes 2 84 ++ le_bytes 2 0 ++ le_bytes 4 0 ++
  le_bytes 4 0 ++ le_bytes 2 3 ++ le_bytes 2 0 ++ le_bytes 4 100 ++
  le_bytes 4 10 ++ le_bytes 2 2 ++ le_bytes 2 0 ++ le_bytes 4 200.

Definition sample_tree_disk (i : Z) : Z :=
  if (5 * 1024 <=? i) && (i <? 5 * 1024 + 36) then byte_at sample_leaf (i - 5 * 1024)
  else if (100 * 1024 <=? i) && (i <? 100 * 1024 + 4) then byte_at [101; 120; 116; 52] (i - 100 * 1024)
  else 0.

(** With EXT4_EXTENTS_FL and the size of twelve blocks. *)
Definition sample_tree_inode : list Z :=
  write_bytes (write_bytes (write_bytes (zeros 160) 4 (le_bytes 4 (12 * 1024))) 32 (le_bytes 4 EXT4_EXTENTS_FL)) 40 sample_root.

Definition sample_tree_file : EXT4_FILE := mkFile sample_tree_inode 12.

#[local] Instance sample_tree_firmware : Firmware := sample_firmware sample_tree_disk.

Lemma sample_tree_file_ok : FileOk sample_map_partition sample_tree_file.
Proof. constructor; [by vm_compute|by apply bytes_decide|by vm_compute]. Qed.

(** The file just opened. *)
Definition sample_open : ext4 :=
  match Ext4InitExtentsMap sample_state with Ok _ s => s | _ => sample_state end.

Lemma sample_open_cache : CacheOk sample_open ∧ ExtentPool sample_open = ∅.
Proof.
  unfold sample_open. pose proof (wp_cases _ _ _ _ (Ext4InitExtentsMap_spec sample_state eq_refl)) as Hs.
  destruct (Ext4InitExtentsMap sample_state) as [[] s|e s|f]; [by split; apply Hs| |done].
  destruct Hs as (_ & Hn & _). exfalso. by eapply sample_alloc_some.
Qed.

Lemma sample_open_sound P F : Sound P F sample_open.
Proof. apply Sound_empty; apply sample_open_cache. Qed.

Lemma ext4_get_extent_sound_witness :
  match Ext4GetExtent sample_map_partition sample_tree_file 11 sample_open with
  | Ok e s' => Sound sample_map_partition sample_tree_file s' ∧ e = mkExtent 10 2 0 200
  | _ => False
  end.
Proof.
  pose proof (ext4_get_extent_sound sample_map_partition sample_map_partition_ok sample_tree_file sample_tree_file_ok 11
    ltac:(discriminate) sample_open (sample_open_sound _ _)) as Hs.
  assert (match Ext4GetExtent sample_map_partition sample_tree_file 11 sample_open with
          | Ok e _ => bool_decide (e = mkExtent 10 2 0 200) | _ => false end = true) as Hc by (vm_compute; reflexivity).
  destruct (Ext4GetExtent _ _ _ _) as [e s'|e s'|f]; [|discriminate Hc|discriminate Hc].
  split; [exact (proj1 (proj1 Hs))|]. exact (bool_decide_eq_true_1 _ Hc).
Defined.
End SampleFile.
