(* ===== verification/Ext4TreeExact.v ===== *)
(** Well-formed extent trees on a disk that works: Ext4GetExtent finds the extent of a block
    exactly when there is one. *)
From stdpp Require Import gmap.
From S2P Require Import Prelude OrderedCollection OrderedLib Base Buffer Overflow Platform PeImage CheckSum Ext4Disk Ext4Checksum Ext4BlockMap Ext4Extents Ext4Cache Ext4Tree.
#[local] Open Scope Z_scope.

Section Trees.
Context `{OC : !OrderedCollectionLib (loc * EXT4_EXTENT) Z, HPl : !Platform, HOk : !PlatformOk, HFw : !Firmware}.
Context (P : EXT4_PARTITION) (F : EXT4_FILE) (blk : Z → list Z).

(** The end of the blocks below an entry of an index node. *)
Definition upper (b : list Z) (hi i : Z) : Z := if i + 1 <? node_entries b then node_key b (i + 1) else hi.

(** A node below which all extents lie in [lo, hi), in order, and every block of the tree is
    as ext4 writes it. *)
Inductive tree_ok : list Z → Z → Z → Prop :=
| tree_leaf b lo hi :
    node_depth b = 0 →
    (∀ i, 0 <= i < node_entries b → ee_len (node_extent b i) ≠ 0 ∧ ExtentOk (node_extent b i) ∧
       lo <= node_key b i ∧ node_key b i + Ext4GetExtentLength (node_extent b i) <= hi) →
    (∀ i j, 0 <= i < j → j < node_entries b →
       node_key b i + Ext4GetExtentLength (node_extent b i) <= node_key b j) →
    tree_ok b lo hi
| tree_index b lo hi :
    node_depth b ≠ 0 → 0 < node_entries b →
    (∀ i, 0 <= i < node_entries b → lo <= node_key b i <= upper b hi i ∧ upper b hi i <= hi) →
    (∀ i, 0 <= i < node_entries b → node_child b i ≠ 0 ∧ node_child b i * BlockSize P < 2 ^ 64) →
    (∀ i, 0 <= i < node_entries b →
       header_valid (blk (node_child b i)) (MaxExtentsPerNode P) = true ∧
       node_checksum_ok P F (blk (node_child b i)) = true ∧
       node_depth (blk (node_child b i)) = node_depth b - 1) →
    (∀ i, 0 <= i < node_entries b → tree_ok (blk (node_child b i)) (node_key b i) (upper b hi i)) →
    tree_ok b lo hi.

(** The extents of a tree. *)
Inductive in_tree : list Z → EXT4_EXTENT → Prop :=
| in_leaf b i : node_depth b = 0 → 0 <= i < node_entries b → in_tree b (node_extent b i)
| in_index b i e : node_depth b ≠ 0 → 0 <= i < node_entries b → in_tree (blk (node_child b i)) e → in_tree b e.

(** Keys of an index node are in order. *)
Lemma keys_sorted b hi :
  (∀ i, 0 <= i < node_entries b → node_key b i <= upper b hi i) →
  ∀ j k, 0 <= j <= k → k < node_entries b → node_key b j <= node_key b k.
Proof.
  intros Hk j k Hjk. replace k with (j + Z.of_nat (Z.to_nat (k - j))) by lia. generalize (Z.to_nat (k - j)).
  induction n as [|n IH]; intros Hn; [by rewrite Z.add_0_r|]. etrans; [apply IH; lia|].
  pose proof (Hk (j + Z.of_nat n) ltac:(lia)) as Hs. unfold upper in Hs.
  rewrite (proj2 (Z.ltb_lt _ _)) in Hs by lia. by replace (j + Z.of_nat (S n)) with (j + Z.of_nat n + 1) by lia.
Qed.

(** The entry the search selects is the one whose range has the block. *)
Lemma selects_range b hi Block i j :
  (∀ i, 0 <= i < node_entries b → node_key b i <= upper b hi i) →
  selects b Block i → 0 <= j < node_entries b → node_key b j <= Block < upper b hi j → i = j.
Proof.
  intros Hk [Hi Hsel] Hj HB. pose proof (keys_sorted b hi Hk) as Hs.
  destruct Hsel as [Hle Hgt]; [intros k l Hkl; apply Hs; lia|].
  destruct (Z.lt_trichotomy i j) as [Hlt|[->|Hlt]]; [|done|].
  - specialize (Hgt j). lia.
  - unfold upper in HB. rewrite (proj2 (Z.ltb_lt _ _)) in HB by lia. pose proof (Hs (j + 1) i). lia.
Qed.

Lemma range_unique b hi Block i j :
  (∀ i, 0 <= i < node_entries b → node_key b i <= upper b hi i) →
  0 <= i < node_entries b → 0 <= j < node_entries b →
  node_key b i <= Block < upper b hi i → node_key b j <= Block < upper b hi j → i = j.
Proof.
  intros Hk Hi Hj HBi HBj. eapply selects_range; [exact Hk| |exact Hj|exact HBj].
  pose proof (keys_sorted b hi Hk) as Hs. split; [lia|]. intros _. split; [lia|]. intros k Hik.
  unfold upper in HBi. rewrite (proj2 (Z.ltb_lt _ _)) in HBi by lia. pose proof (Hs (i + 1) k). lia.
Qed.

(** All extents of a tree lie in its range. *)
Lemma in_tree_range b lo hi e :
  tree_ok b lo hi → in_tree b e → lo <= ee_block e ∧ ee_block e + Ext4GetExtentLength e <= hi ∧ 0 < Ext4GetExtentLength e.
Proof.
  intros Ht. revert e. induction Ht as [b lo hi Hd Hall Hord|b lo hi Hd Hn Hr Hc Hv Ht IH]; intros e He;
    inversion He as [? j Hd' Hj|? j ? Hd' Hj Hin]; subst; try done.
  - destruct (Hall j Hj) as (Hne & Hok & Hlo & Hhi). pose proof (extent_length_pos _ Hok Hne).
    unfold node_key in *. cbn in *. lia.
  - pose proof (IH j Hj e Hin). pose proof (Hr j Hj). lia.
Qed.

(** In a leaf the search finds the extent. *)
Lemma leaf_finds b lo hi Block e :
  tree_ok b lo hi → node_depth b = 0 → in_tree b e → covers e Block → ¬ leaf_misses Block b.
Proof.
  intros Ht Hd He Hc Hm. inversion He as [? j ? Hj|]; subst; [|done]. destruct Ht as [b lo hi _ Hall Hord|]; [|done].
  destruct Hm as [Hz|(i & Hpos & [Hi Hsel] & Hnc)]; [lia|].
  assert (∀ k, 0 <= k < node_entries b → 0 < Ext4GetExtentLength (node_extent b k)) as Hlen.
  { intros k Hk. destruct (Hall k Hk) as (H0 & Hok & _). apply extent_length_pos; done. }
  destruct Hsel as [Hle Hgt].
  { intros k l Hkl Hl. destruct (decide (k = l)) as [->|]; [done|]. pose proof (Hord k l). pose proof (Hlen k). lia. }
  apply Hnc. replace i with j; [done|]. unfold covers in Hc. change (ee_block (node_extent b j)) with (node_key b j) in Hc.
  destruct (Z.lt_trichotomy i j) as [Hlt|[->|Hlt]]; [|done|].
  - specialize (Hgt j). lia.
  - pose proof (Hord j i). lia.
Qed.

(** Extents of a tree do not overlap. *)
Lemma in_tree_unique b lo hi e e' Block :
  tree_ok b lo hi → in_tree b e → in_tree b e' → covers e Block → covers e' Block → e = e'.
Proof.
  intros Ht. revert e e'. induction Ht as [b lo hi Hd Hall Hord|b lo hi Hd Hn Hr Hc Hv Ht IH]; intros e e' He He' Hcov Hcov'.
  - inversion He as [? i ? Hi|]; subst; [|done]. inversion He' as [? j ? Hj|]; subst; [|done].
    unfold covers in *. change (ee_block (node_extent b ?k)) with (node_key b k) in *.
    destruct (Z.lt_trichotomy i j) as [Hlt|[->|Hlt]]; [|done|]; [pose proof (Hord i j)|pose proof (Hord j i)]; lia.
  - inversion He as [|? i ? ? Hi Hin]; subst; [done|]. inversion He' as [|? j ? ? Hj Hin']; subst; [done|].
    pose proof (in_tree_range _ _ _ _ (Ht i Hi) Hin). pose proof (in_tree_range _ _ _ _ (Ht j Hj) Hin'). unfold covers in Hcov, Hcov'.
    assert (i = j) as <- by (eapply (range_unique b hi Block); [intros k Hk; by apply Hr|done|done|lia|lia]).
    by eapply IH.
Qed.

(** *** On a disk that works *)

Context (Hdisk : ∀ t n, ReadDisk t (n * BlockSize P) (BlockSize P) = inr (blk n)).

Lemma disk_read t n data : ReadDisk t (n * BlockSize P) (BlockSize P) = inr data → data = blk n.
Proof using Hdisk. rewrite Hdisk. by intros [= ->]. Qed.

(** The search gets to the leaf that has the extent. *)
Lemma descends_finds b leaf Block :
  descends P Block b leaf → ∀ lo hi, tree_ok b lo hi →
  (∃ lo' hi', tree_ok leaf lo' hi') ∧ ∀ e, in_tree b e → covers e Block → in_tree leaf e.
Proof using Hdisk.
  induction 1 as [b Hd|b i data t leaf Hd Hsel Hc Hr Hdep _ IH]; intros lo hi Ht; [by eauto|].
  apply disk_read in Hr as ->. destruct Ht as [|b lo hi _ Hn Hr Hc' Hv Ht]; [done|].
  assert (0 <= i < node_entries b) as Hi by (destruct Hsel; lia). destruct (IH _ _ (Ht i Hi)) as [Hlt Hfind].
  split; [done|]. intros e He Hcov. apply Hfind; [|done]. inversion He as [|? j ? ? Hj Hin]; subst; [done|].
  pose proof (in_tree_range _ _ _ _ (Ht j Hj) Hin). unfold covers in Hcov.
  replace i with j; [done|]. symmetry. eapply (selects_range b hi Block); [intros k Hk; by apply Hr|done|done|lia].
Qed.

(** The search gets to a leaf. *)
Lemma tree_never_fails Block e b lo hi : tree_ok b lo hi → ¬ fails P F Block e b.
Proof using Hdisk.
  intros Ht Hf. revert lo hi Ht. induction Hf as [b i Hd Hsel Hz _|b i Hd Hsel Hz Hrd|b i data t Hd Hsel Hz Hr Hdep _ IH]; intros lo hi Ht;
    (destruct Ht as [|b lo hi _ Hn Hrange Hc Hv Ht]; [done|]);
    (assert (0 <= i < node_entries b) as Hi by (destruct Hsel; lia)); destruct (Hc i Hi) as [Hc0 Hc64].
  - done.
  - destruct (Hv i Hi) as (Hv1 & Hv2 & Hv3). destruct Hrd as [_ Ho|t Hr|t data _ Hr Hbad]; [lia|by rewrite Hdisk in Hr|].
    apply disk_read in Hr as ->. destruct Hbad as [Hb|[Hb|Hb]]; congruence.
  - apply disk_read in Hr as ->. by eapply IH, Ht.
Qed.

(** The nodes that can be reached are nodes of the tree. *)
Lemma node_at_in_tree b lo hi :
  tree_ok (i_data F) lo hi → node_at P F b →
  (∃ lo' hi', tree_ok b lo' hi') ∧ ∀ e, in_tree b e → in_tree (i_data F) e.
Proof using Hdisk.
  intros Hroot. induction 1 as [|b i data t _ [(lo' & hi' & Ht) IH] Hd Hi Hc Hr Hdep]; [by eauto|].
  apply disk_read in Hr as ->. destruct Ht as [|b lo' hi' _ Hn Hrange Hc' Hv Ht]; [done|].
  assert (0 <= i < node_entries b) as Hi' by lia. split; [by eauto|]. intros e He. apply IH. by eapply in_index.
Qed.

Lemma leaf_extent_in_tree lo hi e : tree_ok (i_data F) lo hi → leaf_extent P F e → in_tree (i_data F) e.
Proof using Hdisk.
  intros Hroot (b & i & Hb & Hd & Hi & ->). apply (node_at_in_tree b lo hi Hroot Hb). by apply in_leaf.
Qed.
(** The lookup in the tree. *)
Lemma Ext4GetExtent_tree (HP : PartitionOk P) (HF : FileOk P F) Block s :
  uses_extents F = true → header_valid (i_data F) EXT4_NR_INLINE_EXTENTS = true →
  tree_ok (i_data F) 0 (2 ^ 32) → 0 <= Block → Sound P F s →
  wp (Ext4GetExtent P F Block)
    (λ e s', after_lookup P F s s' ∧ ExtentOk e ∧ in_tree (i_data F) e ∧ covers e Block ∧
       ∀ e', in_tree (i_data F) e' → covers e' Block → e' = e)
    (λ e s', after_lookup P F s s' ∧
       (e = RETURN_OUT_OF_RESOURCES ∨ e = RETURN_NO_MAPPING ∧ ∀ e', in_tree (i_data F) e' → ¬ covers e' Block)) s.
Proof using HOk Hdisk.
  intros Huses Hvalid Htree HB Hs. eapply wp_mono; [by apply (Ext4GetExtent_spec P HP F HF Block s)| |].
  - intros e s' (Ha & He & Hc & Hok). unfold extent_of_file in He. rewrite Huses in He.
    pose proof (leaf_extent_in_tree _ _ _ Htree He) as Hin. split_and!; [done|done|done|apply Hc..|].
    intros e' He' Hc'. by eapply in_tree_unique.
  - intros e s' [Ha He]. split; [done|]. unfold lookup_error in He. rewrite Huses in He.
    destruct He as [[-> Hbig]|[->|[[_ Hv]|[Hf|(leaf & Hdesc & Hleaf)]]]]; [|by left|congruence|exfalso|].
    + right. split; [done|]. intros e' He' Hc'. pose proof (in_tree_range _ _ _ _ Htree He'). unfold covers in Hc'. lia.
    + by eapply tree_never_fails.
    + destruct (descends_finds _ _ _ Hdesc _ _ Htree) as [(lo & hi & Hl) Hfind].
      destruct (descends_node_at P F _ _ _ Hdesc (node_root P F)) as [_ Hd].
      destruct Hleaf as [[-> (i & Hi & Hz)]|[-> Hm]].
      * exfalso. inversion Hl as [? ? ? _ Hall _|]; subst; [|done]. by destruct (Hall i Hi).
      * right. split; [done|]. intros e' He' Hc'. eapply leaf_finds; [exact Hl|exact Hd|by apply Hfind|exact Hc'|exact Hm].
Qed.
End Trees.

(** C35. On a file with a well-formed extent tree and a disk that works, Ext4GetExtent is the
    lookup in the tree: it returns the one extent of the tree that covers the block, reports
    EFI_NO_MAPPING exactly when there is none, and can otherwise only run out of memory,
    whatever part of the tree is already in the cache. *)
Theorem ext4_get_extent_exact `{OC : !OrderedCollectionLib (loc * EXT4_EXTENT) Z, !Platform, !PlatformOk, !Firmware}
    (P : EXT4_PARTITION) (HP : PartitionOk P) (F : EXT4_FILE) (HF : FileOk P F) (blk : Z → list Z)
    (Hdisk : ∀ t n, ReadDisk t (n * BlockSize P) (BlockSize P) = inr (blk n))
    (Huses : uses_extents F = true) (Hvalid : header_valid (i_data F) EXT4_NR_INLINE_EXTENTS = true)
    (Htree : tree_ok P F blk (i_data F) 0 (2 ^ 32))
    (Block : Z) (HB : 0 <= Block) (s : ext4) (Hs : Sound P F s) :
  match Ext4GetExtent P F Block s with
  | Ok e s' => after_lookup P F s s' ∧ in_tree blk (i_data F) e ∧ covers e Block ∧
      ∀ e', in_tree blk (i_data F) e' → covers e' Block → e' = e
  | Err e s' => after_lookup P F s s' ∧
      (e = RETURN_OUT_OF_RESOURCES ∨ e = RETURN_NO_MAPPING ∧ ∀ e', in_tree blk (i_data F) e' → ¬ covers e' Block)
  | Fault _ => False
  end.
Proof.
  pose proof (wp_cases _ _ _ _ (Ext4GetExtent_tree P F blk Hdisk HP HF Block s Huses Hvalid Htree HB Hs)) as Hspec.
  destruct (Ext4GetExtent P F Block s) as [e s'|e s'|f]; [|done|done]. destruct Hspec as (Ha & _ & He). done.
Qed.

Section Witness.
#[local] Existing Instance platform_x64.
#[local] Existing Instance platform_x64_ok.
#[local] Existing Instance sample_collections.
#[local] Existing Instance sample_tree_firmware.

Definition sample_blk (n : Z) : list Z := disk_bytes sample_tree_disk (n * 1024) 1024.

Lemma sample_tree_disk_ok t n : ReadDisk t (n * 1024) 1024 = inr (sample_blk n).
Proof. reflexivity. Qed.

Lemma sample_tree_ok : tree_ok sample_map_partition sample_tree_file sample_blk (i_data sample_tree_file) 0 (2 ^ 32).
Proof.
  assert (∀ i, 0 <= i < node_entries (i_data sample_tree_file) → i = 0) as Hroot.
  { change (node_entries (i_data sample_tree_file)) with 1. lia. }
  apply tree_index; [by vm_compute|by vm_compute|..]; intros i ->%Hroot; [by vm_compute..|].
  assert (node_child (i_data sample_tree_file) 0 = 5) as -> by by vm_compute.
  assert (∀ i, 0 <= i < node_entries (sample_blk 5) → i = 0 ∨ i = 1) as Hleaf.
  { replace (node_entries (sample_blk 5)) with 2 by by vm_compute. lia. }
  apply tree_leaf; [by vm_compute| |].
  - intros i [->| ->]%Hleaf; (split; [by vm_compute|]; split; [constructor; by vm_compute|by vm_compute]).
  - intros i j Hij Hj. assert (i = 0 ∧ j = 1) as [-> ->] by (destruct (Hleaf j); lia). by vm_compute.
Qed.

Lemma ext4_get_extent_exact_witness :
  match Ext4GetExtent sample_map_partition sample_tree_file 5 sample_open with
  | Err e _ => e = RETURN_NO_MAPPING ∧ ∀ e', in_tree sample_blk (i_data sample_tree_file) e' → ¬ covers e' 5
  | _ => False
  end.
Proof.
  pose proof (ext4_get_extent_exact sample_map_partition sample_map_partition_ok sample_tree_file sample_tree_file_ok
    sample_blk sample_tree_disk_ok eq_refl eq_refl sample_tree_ok 5 ltac:(discriminate) sample_open (sample_open_sound _ _)) as Hs.
  assert (match Ext4GetExtent sample_map_partition sample_tree_file 5 sample_open with
          | Err e _ => bool_decide (e = RETURN_NO_MAPPING) | _ => false end = true) as Hc by (vm_compute; reflexivity).
  destruct (Ext4GetExtent _ _ _ _) as [e s'|e s'|f]; [discriminate Hc| |discriminate Hc].
  destruct Hs as [_ [->|Hs]]; [discriminate Hc|exact Hs].
Defined.
End Witness.
