(* ===== verification/Ext4Read.v ===== *)
(** Reading a file: Ext4Read (Ext4Pkg/Ext4Dxe/Inode.c), over the extents of Extents.c. *)
From stdpp Require Import gmap.
From S2P Require Import Prelude OrderedCollection OrderedLib Base Buffer Overflow Platform PeImage CheckSum Ext4Disk Ext4Checksum Ext4BlockMap Ext4Extents Ext4Cache Ext4Tree Ext4TreeExact.
#[local] Open Scope Z_scope.

Section Read.
Context `{OC : !OrderedCollectionLib (loc * EXT4_EXTENT) Z, HPl : !Platform, HFw : !Firmware}.
Context (Partition : EXT4_PARTITION) (File : EXT4_FILE).

(** ZeroMem and the copy of read data into the caller's buffer. *)
Definition store_at (Buffer : list Z) (off : Z) (data : list Z) : M ext4 (list Z) :=
  require (in_bounds Buffer off (size data)) OutOfBounds;;
  mret (write_bytes Buffer off data).

(** [Status = Ext4GetExtent (...); if (Status is another error) return Status;] *)
Definition LookupExtent (Block : Z) : M ext4 (option EXT4_EXTENT) :=
  Status ← attempt (Ext4GetExtent Partition File Block);
  match Status with
  | inr Extent => mret (Some Extent)
  | inl e => if bool_decide (e = RETURN_NO_MAPPING) then mret None else raise e
  end.

(** The two kinds of chunks: returns the buffer and WasRead. *)
Definition ReadHole (Extent : option EXT4_EXTENT) (BlockOff RemainingRead : Z) (Buffer : list Z) (BeenRead : Z) :
    M ext4 (list Z * Z) :=
  let HoleOff := BlockOff in
  let HoleLen :=
    match Extent with
    | None => wrap 32 (BlockSize Partition - HoleOff)
    | Some e => wrap 64 (MultU64x32 (Ext4GetExtentLength e) (BlockSize Partition) - HoleOff)
    end in
  let WasRead := if RemainingRead <? HoleLen then RemainingRead else wrapn HoleLen in
  Buffer ← store_at Buffer BeenRead (zeros WasRead);
  mret (Buffer, WasRead).

Definition ReadBacked (Extent : EXT4_EXTENT) (CurrentSeek RemainingRead : Z) (Buffer : list Z) (BeenRead : Z) :
    M ext4 (list Z * Z) :=
  let ExtentStartBytes := MultU64x32 (extent_start Extent) (BlockSize Partition) in
  let ExtentLengthBytes := wrap 32 (ee_len Extent * BlockSize Partition) in
  let ExtentLogicalBytes := MultU64x32 (ee_block Extent) (BlockSize Partition) in
  let ExtentOffset := wrap 64 (CurrentSeek - ExtentLogicalBytes) in
  let ExtentMayRead := wrapn (wrap 64 (ExtentLengthBytes - ExtentOffset)) in
  let WasRead := if RemainingRead <? ExtentMayRead then RemainingRead else ExtentMayRead in
  data ← Ext4ReadDiskIo (size Buffer - BeenRead) WasRead (wrap 64 (ExtentStartBytes + ExtentOffset));
  Buffer ← store_at Buffer BeenRead data;
  mret (Buffer, WasRead).

(** [while (RemainingRead != 0)]; [Buffer + BeenRead] is the moving pointer of the code. *)
Fixpoint ReadLoop (fuel : nat) (CurrentSeek RemainingRead BeenRead : Z) (Buffer : list Z) : M ext4 (list Z * Z) :=
  match fuel with
  | O => crash OutOfFuel
  | S k =>
      if RemainingRead =? 0 then mret (Buffer, BeenRead)
      else
        '(Block, BlockOff) ← DivU64x32Remainder CurrentSeek (BlockSize Partition);
        Extent ← LookupExtent Block;
        '(Buffer, WasRead) ←
          match Extent with
          | Some e =>
              if EXT4_EXTENT_IS_UNINITIALIZED e then ReadHole (Some e) BlockOff RemainingRead Buffer BeenRead
              else ReadBacked e CurrentSeek RemainingRead Buffer BeenRead
          | None => ReadHole None BlockOff RemainingRead Buffer BeenRead
          end;
        ReadLoop k (wrap 64 (CurrentSeek + WasRead)) (wrapn (RemainingRead - WasRead)) (wrapn (BeenRead + WasRead)) Buffer
  end.

(** Returns what is in the buffer and *Length. *)
Definition Ext4Read (Buffer : list Z) (Offset Length : Z) : M ext4 (list Z * Z) :=
  InodeSize_ ← EXT4_INODE_SIZE (Inode File);
  fail_if (InodeSize_ <? Offset) RETURN_DEVICE_ERROR;;
  let RemainingRead :=
    if wrap 64 (InodeSize_ - Offset) <? Length then wrapn (wrap 64 (InodeSize_ - Offset)) else Length in
  ReadLoop (S (Z.to_nat RemainingRead)) Offset RemainingRead 0 Buffer.
End Read.

(** ** The loop *)

Lemma extent_start_range e : ExtentOk e → 0 <= extent_start e < 2 ^ 48.
Proof.
  intros He. pose proof (ext_hi e He) as Hh. pose proof (ext_lo e He) as Hl. unfold extent_start, LShiftU64. rewrite wrap_small.
  - rewrite lor_shiftl_add by (done || lia). unfold is_uint in *. lia.
  - unfold is_uint in *. rewrite Z.shiftl_mul_pow2 by lia. lia.
Qed.

(** Two writes one after the other. *)
Lemma write_bytes_chunks b off l1 l2 :
  0 <= off → off + size l1 + size l2 <= size b →
  write_bytes (write_bytes b off l1) (off + size l1) l2 = write_bytes b off (l1 ++ l2).
Proof.
  intros Ho Hs. pose proof (size_nonneg l1). pose proof (size_nonneg l2).
  assert (size (write_bytes b off l1) = size b) as Hw by (apply size_write_bytes; lia). apply buffer_ext.
  - rewrite !size_write_bytes; rewrite ?Hw, ?size_app; lia.
  - intros i _.
    rewrite byte_at_write_bytes by lia. rewrite !byte_at_write_bytes by (rewrite ?size_app; lia).
    rewrite byte_at_app, size_app.
    destruct (Z.leb_spec (off + size l1) i), (Z.ltb_spec i (off + size l1 + size l2)), (Z.leb_spec off i),
      (Z.ltb_spec i (off + size l1)), (Z.ltb_spec i (off + (size l1 + size l2))), (Z.ltb_spec (i - off) (size l1)); cbn; try lia; try done.
    f_equal. lia.
Qed.

(** ** The size of a file *)

Section FileSize.
Context (P : EXT4_PARTITION) (F : EXT4_FILE) (HF : FileOk P F).

(** The size of the file. *)
Definition file_size : Z := load 4 (Inode F) 108 * 2 ^ 32 + load 4 (Inode F) 4.

Lemma file_size_range : 0 <= file_size < 2 ^ 64.
Proof using HF.
  pose proof (load_range 4 (Inode F) 108 (fo_inode_bytes P F HF)). pose proof (load_range 4 (Inode F) 4 (fo_inode_bytes P F HF)).
  unfold file_size, is_uint in *. change (8 * Z.of_nat 4) with 32 in *. lia.
Qed.

Lemma wp_EXT4_INODE_SIZE {T} (Q : Z → T → Prop) E s : Q file_size s → wp (EXT4_INODE_SIZE (Inode F)) Q E s.
Proof using HF.
  intros HQ. pose proof (load_range 4 (Inode F) 108 (fo_inode_bytes P F HF)) as H1.
  pose proof (load_range 4 (Inode F) 4 (fo_inode_bytes P F HF)) as H2. change (8 * Z.of_nat 4) with 32 in *.
  unfold EXT4_INODE_SIZE, rd_field. layouts.
  do 2 (apply wp_bind, wp_rd; [by compute|rewrite (fo_inode P F HF); unfold SIZEOF_EXT4_INODE; lia|]). apply wp_ret.
  rewrite !Z.add_0_l. unfold LShiftU64. rewrite wrap_small by (unfold is_uint in *; rewrite Z.shiftl_mul_pow2 by lia; lia).
  rewrite lor_shiftl_add by (done || lia). exact HQ.
Qed.

(** How much is read. *)
Definition read_length (Offset Length : Z) : Z := Z.min Length (file_size - Offset).

End FileSize.

Section Loop.
Context `{OC : !OrderedCollectionLib (loc * EXT4_EXTENT) Z, HPl : !Platform, HOk : !PlatformOk, HFw : !Firmware}.
Context (P : EXT4_PARTITION) (HP : PartitionOk P) (HBS : BlockSize P <= 65536) (F : EXT4_FILE) (HF : FileOk P F).

(** What the lookups guarantee: an invariant of the memory, what is known of extents found, of
    blocks without one and of errors, and which byte the file has at an offset. *)
Context (Inv : ext4 → Prop) (Good : EXT4_EXTENT → Prop) (Absent : Z → Prop) (Fail : RETURN_STATUS → Prop)
  (content : Z → Z → Prop).
Context (HInv : ∀ s s', Inv s → s' ≡ s → Inv s')
  (Hlookup : ∀ Block s, Inv s → 0 <= Block →
     wp (Ext4GetExtent P F Block) (λ e s', Inv s' ∧ covers e Block ∧ ExtentOk e ∧ Good e)
       (λ e s', Inv s' ∧ if decide (e = RETURN_NO_MAPPING) then Absent Block else Fail e) s)
  (HFail : ∀ t Offset Length e, 0 <= Length → ReadDisk t Offset Length = inl e → Fail e)
  (HAbsent : ∀ Block d, Absent Block → 0 <= d < BlockSize P → content (Block * BlockSize P + d) 0)
  (HUnwritten : ∀ e i, Good e → EXT4_EXTENT_IS_UNINITIALIZED e = true → content i 0)
  (HData : ∀ e t d n data, Good e → ExtentOk e → EXT4_EXTENT_IS_UNINITIALIZED e = false →
     0 <= d → d + n <= Ext4GetExtentLength e * BlockSize P →
     ReadDisk t (wrap 64 (extent_start e * BlockSize P + d)) n = inr data →
     ∀ j, 0 <= j < n → content (ee_block e * BlockSize P + d + j) (byte_at data j)).

Abbreviation BS := (BlockSize P).

(** The next bytes of the file, stored behind those read so far. *)
Definition chunk (Seek : Z) (Buffer : list Z) (BeenRead WasRead : Z) (Buffer' : list Z) : Prop :=
  ∃ data, Buffer' = write_bytes Buffer BeenRead data ∧ size data = WasRead ∧ bytes data ∧
    ∀ j, 0 <= j < WasRead → content (Seek + j) (byte_at data j).

Lemma LookupExtent_spec Block s :
  Inv s → 0 <= Block →
  wp (LookupExtent P F Block)
    (λ r s', Inv s' ∧ match r with Some e => covers e Block ∧ ExtentOk e ∧ Good e | None => Absent Block end)
    (λ e s', Inv s' ∧ Fail e) s.
Proof using Hlookup.
  intros Hs HB. apply wp_bind, wp_attempt. eapply wp_mono; [by apply Hlookup| |].
  - intros e s' (HI & Hc). by apply wp_ret.
  - intros e s' [HI He]. destruct (decide (e = RETURN_NO_MAPPING)) as [->|Hne].
    + by apply wp_ret.
    + rewrite bool_decide_false by done. by apply wp_raise.
Qed.

Lemma wp_store_at Buffer off data (Q : list Z → ext4 → Prop) E s :
  0 <= off → off + size data <= size Buffer → Q (write_bytes Buffer off data) s → wp (store_at Buffer off data) Q E s.
Proof.
  intros Ho Hs HQ. apply wp_bind, wp_require; [|by apply wp_ret]. apply in_bounds_spec. pose proof (size_nonneg data). lia.
Qed.

Lemma wrapn_fits x : 0 <= x < 2 ^ UINTN_WIDTH → wrapn x = x.
Proof. apply wrap_small. Qed.

Lemma ReadHole_spec Extent Block d Remaining Buffer BeenRead s :
  Inv s → 0 <= d < BS → 0 < Remaining < 2 ^ UINTN_WIDTH → 0 <= BeenRead → BeenRead + Remaining <= size Buffer →
  match Extent with
  | Some e => covers e Block ∧ ExtentOk e ∧ Good e ∧ EXT4_EXTENT_IS_UNINITIALIZED e = true
  | None => Absent Block
  end →
  wp (ReadHole P Extent d Remaining Buffer BeenRead)
    (λ r s', Inv s' ∧ 0 < r.2 <= Remaining ∧ chunk (Block * BS + d) Buffer BeenRead r.2 r.1) (λ e s', Inv s' ∧ Fail e) s.
Proof using HP HBS HAbsent HUnwritten.
  intros HI Hd HR HB Hsz HE. destruct (BlockSize_bounds P HP) as [HBs _]. unfold ReadHole.
  set (HoleLen := match Extent with Some _ => _ | None => _ end).
  assert (0 < HoleLen ∧ (Extent = None → HoleLen = BS - d)) as [Hpos Hnone].
  { unfold HoleLen. destruct Extent as [e|].
    - destruct HE as (Hc & Hok & _ & Hu). assert (ee_len e ≠ 0) as Hne.
      { intros Hz. unfold EXT4_EXTENT_IS_UNINITIALIZED in Hu. rewrite Hz in Hu. done. }
      pose proof (extent_length_pos e Hok Hne). split; [|done]. unfold MultU64x32.
      rewrite !wrap_small; unfold is_uint; rewrite ?wrap_small; unfold is_uint; nia.
    - rewrite wrap_small by (unfold is_uint; lia). split; [lia|done]. }
  assert (∃ w, (if Remaining <? HoleLen then Remaining else wrapn HoleLen) = w ∧ 0 < w <= Remaining ∧ w <= HoleLen) as (w & -> & Hw & Hw').
  { eexists. split; [done|]. destruct (Z.ltb_spec Remaining HoleLen); [lia|]. rewrite wrapn_fits; lia. }
  apply wp_bind, wp_store_at; [done|rewrite size_zeros; lia|]. apply wp_ret. cbn [fst snd]. split; [done|]. split; [done|].
  exists (zeros w). split_and!; [done|apply size_zeros; lia|apply bytes_zeros|]. intros j Hj. rewrite byte_at_zeros.
  destruct Extent as [e|].
  - destruct HE as (_ & _ & HG & Hu). by apply HUnwritten with e.
  - rewrite <- Z.add_assoc. apply HAbsent; [done|]. rewrite Hnone in Hw' by done. lia.
Qed.

Lemma ReadBacked_spec e Seek Remaining Buffer BeenRead s :
  Inv s → 0 <= Seek → covers e (Seek / BS) → ExtentOk e → Good e → EXT4_EXTENT_IS_UNINITIALIZED e = false →
  0 < Remaining < 2 ^ UINTN_WIDTH → 0 <= BeenRead → BeenRead + Remaining <= size Buffer → Seek < 2 ^ 64 →
  wp (ReadBacked P e Seek Remaining Buffer BeenRead)
    (λ r s', Inv s' ∧ 0 < r.2 <= Remaining ∧ chunk Seek Buffer BeenRead r.2 r.1) (λ e s', Inv s' ∧ Fail e) s.
Proof using HP HBS HOk HInv HFail HData.
  intros HI HS Hc Hok HG Hu HR HB Hsz H64. destruct (BlockSize_bounds P HP) as [HBs _].
  assert (Ext4GetExtentLength e = ee_len e) as Hlen by (unfold Ext4GetExtentLength; by rewrite Hu).
  assert (ee_len e <= 32768) as Hmax by (apply Z.ltb_ge in Hu; exact Hu). unfold covers in Hc. rewrite Hlen in Hc.
  pose proof (ext_block e Hok) as Hb. pose proof (extent_start_range e Hok) as Hst. unfold is_uint in Hb.
  pose proof (Z.div_mod Seek BS). pose proof (Z.mod_pos_bound Seek BS). set (d := Seek - ee_block e * BS).
  assert (0 <= d < ee_len e * BS) as Hd by (unfold d; nia).
  unfold ReadBacked, MultU64x32. rewrite !(wrap_small 32 (ee_len e * BS)) by (unfold is_uint; nia).
  rewrite !(wrap_small 64 (extent_start e * BS)), !(wrap_small 64 (ee_block e * BS)) by (unfold is_uint; nia).
  rewrite !(wrap_small 64 (Seek - ee_block e * BS)) by (fold d; unfold is_uint; nia). fold d.
  rewrite !(wrap_small 64 (ee_len e * BS - d)) by (unfold is_uint; nia).
  rewrite !(wrapn_fits (ee_len e * BS - d)).
  2: { destruct platform_uintn as [->| ->]; nia. }
  assert (∃ w, (if Remaining <? ee_len e * BS - d then Remaining else ee_len e * BS - d) = w ∧ 0 < w <= Remaining ∧ d + w <= ee_len e * BS)
    as (w & -> & Hw & Hdw) by (eexists; split; [done|]; destruct (Z.ltb_spec Remaining (ee_len e * BS - d)); lia).
  apply wp_bind, wp_Ext4ReadDiskIo; [lia| |].
  - intros data Ht Hds Hdb. apply wp_bind, wp_store_at; [done|lia|]. apply wp_ret. cbn [fst snd].
    split; [by apply (HInv s)|]. split; [done|]. exists data. split_and!; [done|done|done|]. intros j Hj.
    replace (Seek + j) with (ee_block e * BS + d + j) by (unfold d; lia). eapply HData; [done|done|done|lia| |exact Ht|done]. by rewrite Hlen.
  - intros err Ht. split; [by apply (HInv s)|]. eapply HFail; [|exact Ht]. lia.
Qed.

Lemma ReadLoop_spec fuel : ∀ Seek Remaining BeenRead Buffer s,
  Inv s → 0 <= Seek → 0 <= Remaining → 0 <= BeenRead → BeenRead + Remaining <= size Buffer →
  BeenRead + Remaining < 2 ^ UINTN_WIDTH → Seek + Remaining < 2 ^ 64 → (Z.to_nat Remaining < fuel)%nat →
  wp (ReadLoop P F fuel Seek Remaining BeenRead Buffer)
    (λ r s', Inv s' ∧ r.2 = BeenRead + Remaining ∧ chunk Seek Buffer BeenRead Remaining r.1) (λ e s', Inv s' ∧ Fail e) s.
Proof using HP HBS HOk HInv Hlookup HFail HAbsent HUnwritten HData.
  induction fuel as [|fuel IH]; intros Seek Remaining BeenRead Buffer s HI HS HR HB Hsz HW H64 Hf; [lia|]. cbn [ReadLoop].
  destruct (BlockSize_bounds P HP) as [HBs _].
  destruct (Z.eqb_spec Remaining 0) as [->|H0].
  { apply wp_ret. split; [done|]. split; [cbn; lia|]. exists []. split_and!; [by rewrite write_bytes_nil|done|constructor|lia]. }
  apply wp_bind, wp_DivU64x32Remainder; [lia|]. pose proof (Z.div_mod Seek BS) as Hdm. pose proof (Z.mod_pos_bound Seek BS) as Hmb.
  assert (0 <= Seek / BS) by (apply Z.div_pos; lia).
  apply wp_bind. eapply wp_mono; [apply LookupExtent_spec; [exact HI|done]| |done]. intros Extent s1 [HI1 HE].
  assert (Seek / BS * BS + Seek mod BS = Seek) as Hsplit by lia.
  assert (∀ r s2, Inv s2 ∧ 0 < r.2 <= Remaining ∧ chunk Seek Buffer BeenRead r.2 r.1 →
    wp (let '(Buffer, WasRead) := r in
        ReadLoop P F fuel (wrap 64 (Seek + WasRead)) (wrapn (Remaining - WasRead)) (wrapn (BeenRead + WasRead)) Buffer)
      (λ r s', Inv s' ∧ r.2 = BeenRead + Remaining ∧ chunk Seek Buffer BeenRead Remaining r.1) (λ e s', Inv s' ∧ Fail e) s2) as Hgo.
  { intros [Buffer' w] s2 (HI2 & Hw & data & Heq & Hsd & Hbd & Hcd). cbn [fst snd] in *. subst Buffer'.
    rewrite wrap_small by (unfold is_uint; lia). rewrite !wrapn_fits by lia.
    eapply wp_mono; [apply IH; [done|lia|lia|lia|rewrite size_write_bytes; lia|lia|lia|lia]| |done].
    intros r s3 (HI3 & Hr & data2 & Heq2 & Hs2 & Hb2 & Hc2). split; [done|]. split; [lia|].
    exists (data ++ data2). rewrite Heq2, <- Hsd, write_bytes_chunks by lia. split_and!; [done|rewrite size_app; lia|by apply Forall_app|].
    intros j Hj. rewrite byte_at_app. destruct (Z.ltb_spec j (size data)); [apply Hcd; lia|].
    replace (Seek + j) with (Seek + w + (j - size data)) by lia. apply Hc2. lia. }
  apply wp_bind. destruct Extent as [e|]; [destruct (EXT4_EXTENT_IS_UNINITIALIZED e) eqn:Hu|].
  - eapply wp_mono; [apply (ReadHole_spec (Some e) (Seek / BS)); [done|lia|lia|done|lia|by destruct HE as (? & ? & ?)]| |done].
    rewrite Hsplit. exact Hgo.
  - destruct HE as (Hc & Hok & HG). eapply wp_mono; [apply ReadBacked_spec; done || lia|exact Hgo|done].
  - eapply wp_mono; [apply (ReadHole_spec None (Seek / BS)); [done|lia|lia|done|lia|done]| |done]. rewrite Hsplit. exact Hgo.
Qed.
(** From the loop to the whole operation. *)
Lemma Ext4Read_by_loop Buffer Offset Length s :
  Inv s → 0 <= Offset → 0 <= Length < 2 ^ UINTN_WIDTH → Length <= size Buffer →
  wp (Ext4Read P F Buffer Offset Length)
    (λ r s', Inv s' ∧ Offset <= file_size F ∧ r.2 = read_length F Offset Length ∧ chunk Offset Buffer 0 r.2 r.1)
    (λ e s', Inv s' ∧ (file_size F < Offset ∧ e = RETURN_DEVICE_ERROR ∨ Fail e)) s.
Proof using HP HBS HF HOk HInv Hlookup HFail HAbsent HUnwritten HData.
  intros HI HO HL Hsz. pose proof (file_size_range P F HF). apply wp_bind, (wp_EXT4_INODE_SIZE P F HF), wp_bind, wp_fail_if.
  { intros Hlt%Z.ltb_lt. split; [done|]. by left. }
  intros Hle%Z.ltb_ge. rewrite wrap_small by (unfold is_uint; lia).
  replace (if file_size F - Offset <? Length then wrapn (file_size F - Offset) else Length) with (read_length F Offset Length).
  2: { unfold read_length. destruct (Z.ltb_spec (file_size F - Offset) Length); [|lia]. rewrite wrapn_fits; lia. }
  assert (0 <= read_length F Offset Length <= Length ∧ Offset + read_length F Offset Length <= file_size F) as Hlen
    by (unfold read_length; lia).
  eapply wp_mono; [apply ReadLoop_spec; done || lia| |].
  - intros r s' (Ha & Hr & Hc). rewrite Hr, Z.add_0_l. by split_and!.
  - intros e s' [Ha He]. split; [done|by right].
Qed.
End Loop.

(** ** Reading *)

Section FileSpecs.
Context `{OC : !OrderedCollectionLib (loc * EXT4_EXTENT) Z, HPl : !Platform, HOk : !PlatformOk, HFw : !Firmware}.
Context (P : EXT4_PARTITION) (HP : PartitionOk P) (F : EXT4_FILE) (HF : FileOk P F).

Lemma after_lookup_trans s1 s2 s3 : after_lookup P F s1 s2 → after_lookup P F s2 s3 → after_lookup P F s1 s3.
Proof. intros (_ & HB & Hu) (Hs & HB' & Hu'). split_and!; [done|congruence|by eauto]. Qed.

Lemma after_lookup_equiv s1 s2 s3 : after_lookup P F s1 s2 → s3 ≡ s2 → after_lookup P F s1 s3.
Proof. intros Ha Hss. eapply after_lookup_trans; [exact Ha|]. apply after_lookup_refl; [apply Ha|done]. Qed.

(** A byte the file may show at a position: a zero, or one read from the disk where an
    initialized extent of the file puts that position. *)
Definition file_byte (i v : Z) : Prop :=
  v = 0 ∨ ∃ e t d n j data, extent_of_file P F e ∧ EXT4_EXTENT_IS_UNINITIALIZED e = false ∧
    0 <= d ∧ 0 <= j < n ∧ d + n <= Ext4GetExtentLength e * BlockSize P ∧ i = ee_block e * BlockSize P + d + j ∧
    ReadDisk t (wrap 64 (extent_start e * BlockSize P + d)) n = inr data ∧ v = byte_at data j.

(** A lookup or the disk failed. *)
Definition read_failure (e : RETURN_STATUS) : Prop :=
  (∃ Block, lookup_error P F Block e ∧ e ≠ RETURN_NO_MAPPING) ∨ ∃ t Offset Length, ReadDisk t Offset Length = inl e.

Lemma Ext4Read_spec (HBS : BlockSize P <= 65536) Buffer Offset Length s :
  Sound P F s → 0 <= Offset → 0 <= Length < 2 ^ UINTN_WIDTH → Length <= size Buffer →
  wp (Ext4Read P F Buffer Offset Length)
    (λ r s', after_lookup P F s s' ∧ Offset <= file_size F ∧ r.2 = read_length F Offset Length ∧
       chunk file_byte Offset Buffer 0 r.2 r.1)
    (λ e s', after_lookup P F s s' ∧ (file_size F < Offset ∧ e = RETURN_DEVICE_ERROR ∨ read_failure e)) s.
Proof using HP HF HOk.
  intros Hs HO HL Hsz.
  apply (Ext4Read_by_loop P HP HBS F HF (after_lookup P F s) (extent_of_file P F) (λ _, True) read_failure file_byte); try done.
  - intros s1 s2. apply after_lookup_equiv.
  - intros Block s1 Hs1 HB. eapply wp_mono; [apply (Ext4GetExtent_spec P HP F HF); [apply Hs1|done]| |].
    + intros e s2 (Ha & He & Hc & Hok). split; [by eapply after_lookup_trans|done].
    + intros e s2 [Ha He]. split; [by eapply after_lookup_trans|]. destruct (decide _); [done|]. left. by exists Block.
  - intros t o l e _ He. right. by eauto.
  - intros Block d _ _. by left.
  - intros e i _ _. by left.
  - intros e t d n data He Hok Hu Hd Hn Ht j Hj. right. exists e, t, d, n, j, data. split_and!; done || lia.
Qed.
End FileSpecs.

(** Ext4Read never faults and terminates, for every inode, contents of the disk and answer
    of the firmware, on file systems with blocks of at most 64 KiB: it reads the smaller of
    what was asked for and what is left of the file, writes exactly that many bytes to the
    start of the caller's buffer, and every byte it shows is a zero or one the disk has where
    an initialized extent of this file puts it, never data from elsewhere.  It fails only
    behind the end of the file or when a lookup or the disk does, and keeps the cache sound. *)
Theorem ext4_read_safe `{OC : !OrderedCollectionLib (loc * EXT4_EXTENT) Z, !Platform, !PlatformOk, !Firmware}
    (P : EXT4_PARTITION) (HP : PartitionOk P) (HBS : BlockSize P <= 65536) (F : EXT4_FILE) (HF : FileOk P F)
    (Buffer : list Z) (Offset Length : Z) (HO : 0 <= Offset) (HL : 0 <= Length < 2 ^ UINTN_WIDTH)
    (Hsz : Length <= size Buffer) (s : ext4) (Hs : Sound P F s) :
  match Ext4Read P F Buffer Offset Length s with
  | Ok (Buffer', n) s' => after_lookup P F s s' ∧ Offset <= file_size F ∧ n = Z.min Length (file_size F - Offset) ∧
      ∃ data, Buffer' = write_bytes Buffer 0 data ∧ size data = n ∧ bytes data ∧
        ∀ j, 0 <= j < n → file_byte P F (Offset + j) (byte_at data j)
  | Err e s' => after_lookup P F s s' ∧ (file_size F < Offset ∧ e = RETURN_DEVICE_ERROR ∨ read_failure P F e)
  | Fault _ => False
  end.
Proof.
  pose proof (wp_cases _ _ _ _ (Ext4Read_spec P HP F HF HBS Buffer Offset Length s Hs HO HL Hsz)) as Hspec.
  by destruct (Ext4Read P F Buffer Offset Length s) as [[Buffer' n] s'|e s'|f].
Qed.

(** ** The contents of a file *)

Lemma byte_at_disk_bytes disk off n j : 0 <= j < n → byte_at (disk_bytes disk off n) j = wrap 8 (disk (off + j)).
Proof.
  intros Hj. unfold byte_at, disk_bytes. destruct (Z.ltb_spec j 0); [lia|].
  rewrite nth_lookup, list_lookup_fmap, lookup_seqZ_lt by lia. cbn. do 3 f_equal. lia.
Qed.

Section Contents.
Context `{OC : !OrderedCollectionLib (loc * EXT4_EXTENT) Z, HPl : !Platform, HOk : !PlatformOk, HFw : !Firmware}.
Context (P : EXT4_PARTITION) (HP : PartitionOk P) (F : EXT4_FILE) (disk : Z → Z).

Definition disk_block (n : Z) : list Z := disk_bytes disk (n * BlockSize P) (BlockSize P).

(** What the extent tree says: the byte where the extent of the block is, or a zero. *)
Definition file_content (i v : Z) : Prop :=
  (∃ e, in_tree disk_block (i_data F) e ∧ covers e (i / BlockSize P) ∧
     v = wrap 8 (disk (extent_start e * BlockSize P + (i - ee_block e * BlockSize P)))) ∨
  ((∀ e, in_tree disk_block (i_data F) e → ¬ covers e (i / BlockSize P)) ∧ v = 0).

Lemma covers_offset e d : 0 <= d < Ext4GetExtentLength e * BlockSize P → covers e ((ee_block e * BlockSize P + d) / BlockSize P).
Proof using HP.
  intros Hd. destruct (BlockSize_bounds P HP) as [HBs _]. unfold covers. rewrite Z.add_comm, Z.div_add by lia.
  pose proof (Z.div_pos d (BlockSize P)). pose proof (Z.div_lt_upper_bound d (BlockSize P) (Ext4GetExtentLength e)). lia.
Qed.

Lemma backed_content e d n t data :
  (∀ t off len, 0 <= len → ReadDisk t off len = inr (disk_bytes disk off len)) →
  in_tree disk_block (i_data F) e → ExtentOk e → 0 <= d → d + n <= Ext4GetExtentLength e * BlockSize P →
  (extent_start e + Ext4GetExtentLength e) * BlockSize P <= 2 ^ 64 →
  ReadDisk t (wrap 64 (extent_start e * BlockSize P + d)) n = inr data →
  ∀ j, 0 <= j < n → file_content (ee_block e * BlockSize P + d + j) (byte_at data j).
Proof using HP.
  intros Hdisk He Hok Hd Hn Hfit Ht j Hj. destruct (BlockSize_bounds P HP) as [HBs _]. pose proof (extent_start_range e Hok).
  rewrite Hdisk in Ht by lia. injection Ht as <-. rewrite wrap_small by (unfold is_uint; nia). rewrite byte_at_disk_bytes by done.
  left. exists e. rewrite <- Z.add_assoc. split_and!; [done|apply covers_offset; lia..|]. do 2 f_equal. lia.
Qed.

Lemma hole_content Block d :
  (∀ e, in_tree disk_block (i_data F) e → ¬ covers e Block) → 0 <= d < BlockSize P → file_content (Block * BlockSize P + d) 0.
Proof using HP.
  intros Hno Hd. destruct (BlockSize_bounds P HP) as [HBs _]. right. split; [|done].
  rewrite Z.add_comm, Z.div_add, Z.div_small by lia. exact Hno.
Qed.
End Contents.

(** C34. On a file with a well-formed extent tree and a disk that works, whose extents are
    initialized and end below 2^64 bytes, Ext4Read returns the contents of the file: each byte
    is the one the disk has at the place the block's extent gives, or a zero in a hole; it reads
    up to the end of the file and can otherwise only run out of memory or be asked for an offset
    behind that end. *)
Theorem ext4_read_exact `{OC : !OrderedCollectionLib (loc * EXT4_EXTENT) Z, !Platform, !PlatformOk, !Firmware}
    (P : EXT4_PARTITION) (HP : PartitionOk P) (HBS : BlockSize P <= 65536) (F : EXT4_FILE) (HF : FileOk P F) (disk : Z → Z)
    (Hdisk : ∀ t off len, 0 <= len → ReadDisk t off len = inr (disk_bytes disk off len))
    (Huses : uses_extents F = true) (Hvalid : header_valid (i_data F) EXT4_NR_INLINE_EXTENTS = true)
    (Htree : tree_ok P F (disk_block P disk) (i_data F) 0 (2 ^ 32))
    (Hinit : ∀ e, in_tree (disk_block P disk) (i_data F) e → EXT4_EXTENT_IS_UNINITIALIZED e = false)
    (Hfit : ∀ e, in_tree (disk_block P disk) (i_data F) e → (extent_start e + Ext4GetExtentLength e) * BlockSize P <= 2 ^ 64)
    (Buffer : list Z) (Offset Length : Z) (HO : 0 <= Offset) (HL : 0 <= Length < 2 ^ UINTN_WIDTH)
    (Hsz : Length <= size Buffer) (s : ext4) (Hs : Sound P F s) :
  match Ext4Read P F Buffer Offset Length s with
  | Ok (Buffer', n) s' => after_lookup P F s s' ∧ Offset <= file_size F ∧ n = Z.min Length (file_size F - Offset) ∧
      ∃ data, Buffer' = write_bytes Buffer 0 data ∧ size data = n ∧ bytes data ∧
        ∀ j, 0 <= j < n → file_content P F disk (Offset + j) (byte_at data j)
  | Err e s' => after_lookup P F s s' ∧ (file_size F < Offset ∧ e = RETURN_DEVICE_ERROR ∨ e = RETURN_OUT_OF_RESOURCES)
  | Fault _ => False
  end.
Proof.
  enough (wp (Ext4Read P F Buffer Offset Length)
    (λ r s', after_lookup P F s s' ∧ Offset <= file_size F ∧ r.2 = read_length F Offset Length ∧
       chunk (file_content P F disk) Offset Buffer 0 r.2 r.1)
    (λ e s', after_lookup P F s s' ∧ (file_size F < Offset ∧ e = RETURN_DEVICE_ERROR ∨ e = RETURN_OUT_OF_RESOURCES)) s) as Hspec.
  { apply wp_cases in Hspec. by destruct (Ext4Read P F Buffer Offset Length s) as [[Buffer' n] s'|e s'|f]. }
  set (inside := in_tree (disk_block P disk) (i_data F)).
  eapply wp_mono; [apply (Ext4Read_by_loop P HP HBS F HF (after_lookup P F s) inside
    (λ Block, ∀ e, inside e → ¬ covers e Block) (eq RETURN_OUT_OF_RESOURCES) (file_content P F disk)); try done| |].
  - intros s1 s2. apply after_lookup_equiv.
  - intros Block s1 Hs1 HB. eapply wp_mono; [apply (Ext4GetExtent_tree P F (disk_block P disk)); try done; [|apply Hs1]| |].
    + intros t n. apply Hdisk. destruct (BlockSize_bounds P HP). lia.
    + intros e s2 (Ha & Hok & He & Hc & _). by split; [eapply after_lookup_trans|].
    + intros e s2 [Ha He]. split; [by eapply after_lookup_trans|]. destruct He as [->|[-> He]]; done.
  - intros t o l e Hl He. by rewrite Hdisk in He.
  - intros Block d Hno Hd. by apply hole_content.
  - intros e i He Hu. by rewrite Hinit in Hu.
  - intros e t d n data He Hok Hu Hd Hn Ht. eapply backed_content; eauto.
  - done.
  - intros e s' [Ha [He|<-]]; auto.
Qed.

(** ** Large blocks *)

(** A first step with a known outcome, then the rest. *)
Lemma wp_then {St A B} (m : M St A) (k : A → M St B) (Q : A → St → Prop) E (R : outcome St B → Prop) s :
  wp m Q E s → (∀ a s', Q a s' → R (k a s')) → (∀ e s', E e s' → R (Err e s')) → R ((m ≫= k) s).
Proof. intros Hm%wp_cases HQ HE. unfold mbind, M_bind. destruct (m s) as [a s'|e s'|f]; [by apply HQ|by apply HE|done]. Qed.

Section LargeBlocks.
Context `{OC : !OrderedCollectionLib (loc * EXT4_EXTENT) Z, HPl : !Platform, HOk : !PlatformOk, HFw : !Firmware}.
Context (P : EXT4_PARTITION) (HP : PartitionOk P) (HBS : BlockSize P = 131072) (F : EXT4_FILE) (HF : FileOk P F).
Context (Huses : uses_extents F = true) (Hdepth : node_depth (i_data F) = 0) (Hone : node_entries (i_data F) = 1).
Context (Hblock : ee_block (node_extent (i_data F) 0) = 0) (Hlen : ee_len (node_extent (i_data F) 0) = 32768).

Lemma large_extent_covers : covers (node_extent (i_data F) 0) 0.
Proof using Hblock Hlen. unfold covers, Ext4GetExtentLength, EXT4_EXTENT_IS_UNINITIALIZED. rewrite Hblock, Hlen. by vm_compute. Qed.

Lemma large_root b : node_at P F b → b = i_data F.
Proof using Hdepth. induction 1 as [|b i data t _ -> Hd]; [done|]. by destruct Hd. Qed.

Lemma large_lookup s :
  Sound P F s →
  wp (LookupExtent P F 0) (λ r s', Sound P F s' ∧ r = Some (node_extent (i_data F) 0)) (λ e s', read_failure P F e) s.
Proof using All.
  intros Hs. apply wp_bind, wp_attempt. eapply wp_mono; [by apply (Ext4GetExtent_spec P HP F HF)| |].
  - intros e s' ((Hs' & _) & He & _). apply wp_ret. split; [done|]. f_equal. unfold extent_of_file in He. rewrite Huses in He.
    destruct He as (b & i & ->%large_root & Hd & Hi & ->). f_equal. lia.
  - intros e s' [_ He]. destruct (decide (e = RETURN_NO_MAPPING)) as [->|Hne].
    2: { rewrite bool_decide_false by done. apply wp_raise. left. by exists 0. }
    exfalso. unfold lookup_error in He. rewrite Huses in He.
    destruct He as [[_ ?]|[He|[[He _]|[Hf|(leaf & Hdesc & [[He _]|[_ Hm]])]]]]; try discriminate.
    + lia.
    + by inversion Hf.
    + destruct (descends_node_at P F _ _ _ Hdesc (node_root P F)) as [->%large_root _].
      destruct Hm as [Hz|(i & _ & [Hi _] & Hnc)]; [lia|]. apply Hnc. replace i with 0 by lia. apply large_extent_covers.
Qed.

Lemma large_read Buffer Length s :
  Sound P F s → 0 < Length <= size Buffer →
  wp (ReadBacked P (node_extent (i_data F) 0) 0 Length Buffer 0) (λ r s', Sound P F s' ∧ r = (Buffer, 0))
    (λ e s', read_failure P F e) s.
Proof using HBS HOk Hblock Hlen.
  intros Hs HL. unfold ReadBacked, MultU64x32. rewrite HBS, Hblock, Hlen.
  replace (wrapn (wrap 64 (wrap 32 (32768 * 131072) - wrap 64 (0 - wrap 64 (0 * 131072))))) with 0.
  2: { symmetry. apply wrapn_fits. split; [done|]. apply Z.pow_pos_nonneg; [done|]. destruct platform_uintn as [->| ->]; done. }
  destruct (Z.ltb_spec Length 0); [lia|]. apply wp_bind, wp_Ext4ReadDiskIo; [lia| |].
  - intros data _ Hsz _. apply wp_bind, wp_store_at; [lia|lia|]. apply wp_ret. split; [by rewrite tick_equiv|].
    destruct data; [by rewrite write_bytes_nil|done].
  - intros e He. right. by eauto.
Qed.
End LargeBlocks.

(** With blocks of 128 KiB, which the driver accepts, reading a file whose only extent has
    the 32768 blocks of a full one never succeeds from its start: the length of the extent in
    bytes is computed in 32 bits and is 0, so that each round of the loop reads nothing.  For
    any number of rounds the loop goes on, unless a lookup or the disk fails. *)
Theorem ext4_read_large_blocks_stuck `{OC : !OrderedCollectionLib (loc * EXT4_EXTENT) Z, !Platform, !PlatformOk, !Firmware}
    (P : EXT4_PARTITION) (HP : PartitionOk P) (HBS : BlockSize P = 131072) (F : EXT4_FILE) (HF : FileOk P F)
    (Huses : uses_extents F = true) (Hdepth : node_depth (i_data F) = 0) (Hone : node_entries (i_data F) = 1)
    (Hblock : ee_block (node_extent (i_data F) 0) = 0) (Hlen : ee_len (node_extent (i_data F) 0) = 32768)
    (Buffer : list Z) (Length : Z) (HL : 0 < Length < 2 ^ UINTN_WIDTH) (Hsz : Length <= size Buffer)
    (rounds : nat) (s : ext4) (Hs : Sound P F s) :
  match ReadLoop P F rounds 0 Length 0 Buffer s with
  | Ok _ _ => False
  | Err e _ => read_failure P F e
  | Fault f => f = OutOfFuel
  end.
Proof.
  revert s Hs. induction rounds as [|rounds IH]; intros s Hs; [done|]. cbn [ReadLoop].
  destruct (Z.eqb_spec Length 0); [lia|].
  set (R := λ r : outcome ext4 (list Z * Z), match r with Ok _ _ => False | Err e _ => read_failure P F e | Fault f => f = OutOfFuel end).
  match goal with |- match ?m with _ => _ end => change (R m) end.
  apply (wp_then _ _ (λ r s', r = (0, 0) ∧ s' = s) (λ _ _, False)).
  { apply wp_DivU64x32Remainder; [rewrite HBS; lia|]. by rewrite HBS. }
  2: done.
  intros _ _ [-> ->]. eapply wp_then; [by apply large_lookup| |done]. intros _ s1 [Hs1 ->].
  replace (EXT4_EXTENT_IS_UNINITIALIZED _) with false by (unfold EXT4_EXTENT_IS_UNINITIALIZED; by rewrite Hlen).
  eapply wp_then; [apply large_read; [done..|exact Hs1|lia]| |done]. intros _ s2 [Hs2 ->].
  rewrite Z.add_0_l, Z.sub_0_r, !wrapn_fits, (wrap_small 64 0) by (done || lia). by apply IH.
Qed.

(** ** Samples *)

Section Witness.
#[local] Existing Instance platform_x64.
#[local] Existing Instance platform_x64_ok.
#[local] Existing Instance sample_collections.
#[local] Existing Instance sample_tree_firmware.

Lemma sample_disk_works t off len : 0 <= len → ReadDisk t off len = inr (disk_bytes sample_tree_disk off len).
Proof. intros Hl. unfold ReadDisk. cbn. destruct (Z.ltb_spec len 0); [lia|done]. Qed.

Lemma sample_in_tree e :
  in_tree (disk_block sample_map_partition sample_tree_disk) (i_data sample_tree_file) e →
  e = mkExtent 0 3 0 100 ∨ e = mkExtent 10 2 0 200.
Proof.
  intros He. inversion He as [? i Hd Hi|? i ? Hd Hi Hin]; subst.
  { exfalso. revert Hd. by vm_compute. }
  assert (node_entries (i_data sample_tree_file) = 1) as Hn by by vm_compute. assert (i = 0) as -> by lia.
  replace (node_child (i_data sample_tree_file) 0) with 5 in Hin by by vm_compute.
  inversion Hin as [? i Hd' Hi'|? i ? Hd' Hi' Hin']; subst.
  - assert (node_entries (disk_block sample_map_partition sample_tree_disk 5) = 2) as Hn' by by vm_compute.
    assert (i = 0 ∨ i = 1) as [->| ->] by lia; [left|right]; by vm_compute.
  - exfalso. apply Hd'. by vm_compute.
Qed.

(** The first bytes of the file, and the end of its first extent. *)
Lemma ext4_read_safe_witness :
  match Ext4Read sample_map_partition sample_tree_file (replicate 8 7) (12 * 1024 - 3) 8 sample_open with
  | Ok (Buffer, n) s' => Sound sample_map_partition sample_tree_file s' ∧ n = 3 ∧ Buffer = [0; 0; 0; 7; 7; 7; 7; 7]
  | _ => False
  end.
Proof.
  pose proof (ext4_read_safe sample_map_partition sample_map_partition_ok ltac:(by vm_compute) sample_tree_file
    sample_tree_file_ok (replicate 8 7) (12 * 1024 - 3) 8 ltac:(by vm_compute) ltac:(by vm_compute) ltac:(by vm_compute)
    sample_open (sample_open_sound _ _)) as Hs.
  assert (match Ext4Read sample_map_partition sample_tree_file (replicate 8 7) (12 * 1024 - 3) 8 sample_open with
          | Ok r _ => bool_decide (r = ([0; 0; 0; 7; 7; 7; 7; 7], 3)) | _ => false end = true) as Hc by (vm_compute; reflexivity).
  destruct (Ext4Read _ _ _ _ _ _) as [[Buffer n] s'|e s'|f]; [|discriminate Hc|discriminate Hc].
  apply bool_decide_eq_true_1 in Hc. injection Hc as -> ->. split; [exact (proj1 (proj1 Hs))|done].
Defined.

Lemma ext4_read_exact_witness :
  match Ext4Read sample_map_partition sample_tree_file (replicate 8 7) 0 6 sample_open with
  | Ok (Buffer, n) s' => Buffer = [101; 120; 116; 52; 0; 0; 7; 7] ∧ n = 6 ∧
      ∃ data, Buffer = write_bytes (replicate 8 7) 0 data ∧
        ∀ j, 0 <= j < 6 → file_content sample_map_partition sample_tree_file sample_tree_disk j (byte_at data j)
  | _ => False
  end.
Proof.
  pose proof (ext4_read_exact sample_map_partition sample_map_partition_ok ltac:(by vm_compute) sample_tree_file
    sample_tree_file_ok sample_tree_disk sample_disk_works eq_refl eq_refl sample_tree_ok
    ltac:(by intros e [->| ->]%sample_in_tree) ltac:(by intros e [->| ->]%sample_in_tree)
    (replicate 8 7) 0 6 ltac:(by vm_compute) ltac:(by vm_compute) ltac:(by vm_compute)
    sample_open (sample_open_sound _ _)) as Hs.
  assert (match Ext4Read sample_map_partition sample_tree_file (replicate 8 7) 0 6 sample_open with
          | Ok r _ => bool_decide (r = ([101; 120; 116; 52; 0; 0; 7; 7], 6)) | _ => false end = true) as Hc by (vm_compute; reflexivity).
  destruct (Ext4Read _ _ _ _ _ _) as [[Buffer n] s'|e s'|f]; [|discriminate Hc|discriminate Hc].
  apply bool_decide_eq_true_1 in Hc. injection Hc as -> ->. split; [done|]. split; [done|].
  destruct Hs as (_ & _ & _ & data & Hd & _ & _ & Hc). by exists data.
Defined.
(** A file whose extents are in its inode. *)
Definition extent_bytes (e : EXT4_EXTENT) : list Z :=
  le_bytes 4 (ee_block e) ++ le_bytes 2 (ee_len e) ++ le_bytes 2 (ee_start_hi e) ++ le_bytes 4 (ee_start_lo e).

Definition inline_file (size_lo : Z) (extents : list EXT4_EXTENT) : EXT4_FILE :=
  mkFile (write_bytes (write_bytes (write_bytes (zeros 160) 4 (le_bytes 4 size_lo)) 32 (le_bytes 4 EXT4_EXTENTS_FL)) 40
    (le_bytes 2 EXT4_EXTENT_HEADER_MAGIC ++ le_bytes 2 (Z.of_nat (length extents)) ++ le_bytes 2 4 ++ le_bytes 2 0 ++
     le_bytes 4 0 ++ mjoin (extent_bytes <$> extents))) 12.

Definition large_partition : EXT4_PARTITION :=
  mkPartition (write_bytes (zeros 1024) 373 [1]) 0 0 0 128 131072 false 1 8192 (zeros 1024) 32 0.

Definition large_file : EXT4_FILE := inline_file 8 [mkExtent 0 32768 0 1].

Lemma large_partition_ok : PartitionOk large_partition.
Proof. constructor; try by vm_compute. - by apply bytes_decide. - by exists 7. Qed.

Lemma large_file_ok : FileOk large_partition large_file.
Proof. constructor; [by vm_compute|by apply bytes_decide|by vm_compute]. Qed.

Lemma ext4_read_large_blocks_stuck_witness :
  match ReadLoop large_partition large_file 5 0 8 0 (zeros 8) sample_open with Fault f => f = OutOfFuel | _ => False end.
Proof.
  pose proof (ext4_read_large_blocks_stuck large_partition large_partition_ok eq_refl large_file large_file_ok
    eq_refl eq_refl eq_refl eq_refl eq_refl (zeros 8) 8 ltac:(by vm_compute) ltac:(by vm_compute) 5 sample_open (sample_open_sound _ _)) as Hs.
  assert (match ReadLoop large_partition large_file 5 0 8 0 (zeros 8) sample_open with Fault _ => true | _ => false end = true) as Hc
    by (vm_compute; reflexivity).
  destruct (ReadLoop _ _ _ _ _ _ _ _) as [a s'|e s'|f]; [discriminate Hc|discriminate Hc|exact Hs].
Defined.

(** Two unwritten blocks and then a block of data, "ext4" at its start. *)
Definition unwritten_file : EXT4_FILE := inline_file (3 * 1024) [mkExtent 0 (32768 + 2) 0 50; mkExtent 2 1 0 100].

Definition read_byte (Offset Length i : Z) : option Z :=
  match Ext4Read sample_map_partition unwritten_file (replicate (Z.to_nat Length) 7) Offset Length sample_open with
  | Ok (Buffer, _) _ => Some (byte_at Buffer i)
  | _ => None
  end.

(** Reading from the middle of an unwritten extent returns zeros in place of the data behind
    it: the length of the hole does not account for the blocks of the extent before the position.
    The byte at offset 2048 of the file is 101; a read that starts at 1024 shows it as 0. *)
Theorem ext4_read_unwritten_hides_data :
  FileOk sample_map_partition unwritten_file ∧ Sound sample_map_partition unwritten_file sample_open ∧
  read_byte 2048 4 0 = Some 101 ∧ read_byte 0 2052 2048 = Some 101 ∧ read_byte 1024 1028 1024 = Some 0.
Proof.
  split; [constructor; [by vm_compute|by apply bytes_decide|by vm_compute]|]. split; [apply sample_open_sound|].
  split_and!; vm_compute; reflexivity.
Qed.
End Witness.
