(* ===== verification/Ext4Super.v ===== *)
(** Opening a file system and reading inodes: Superblock.c, BlockGroup.c and Ext4AllocateInode
    of Inode.c (Ext4Pkg/Ext4Dxe). *)
From Stdlib Require Import String.
From stdpp Require Import gmap.
From S2P Require Import Prelude OrderedCollection OrderedLib Base Buffer Overflow Platform PeImage CheckSum Ext4Disk Ext4Checksum Ext4BlockMap Ext4Extents Ext4Cache Ext4Tree.
#[local] Open Scope string_scope.
#[local] Open Scope list_scope.
#[local] Open Scope Z_scope.

Definition gSupportedRoCompatFeat : Z :=
  Z.lor EXT4_FEATURE_RO_COMPAT_DIR_NLINK (Z.lor EXT4_FEATURE_RO_COMPAT_EXTRA_ISIZE
  (Z.lor EXT4_FEATURE_RO_COMPAT_HUGE_FILE (Z.lor EXT4_FEATURE_RO_COMPAT_LARGE_FILE
  (Z.lor EXT4_FEATURE_RO_COMPAT_GDT_CSUM (Z.lor EXT4_FEATURE_RO_COMPAT_METADATA_CSUM EXT4_FEATURE_RO_COMPAT_SPARSE_SUPER))))).

Definition gSupportedIncompatFeat : Z :=
  Z.lor EXT4_FEATURE_INCOMPAT_64BIT (Z.lor EXT4_FEATURE_INCOMPAT_DIRDATA
  (Z.lor EXT4_FEATURE_INCOMPAT_FLEX_BG (Z.lor EXT4_FEATURE_INCOMPAT_FILETYPE
  (Z.lor EXT4_FEATURE_INCOMPAT_EXTENTS (Z.lor EXT4_FEATURE_INCOMPAT_LARGEDIR
  (Z.lor EXT4_FEATURE_INCOMPAT_MMP (Z.lor EXT4_FEATURE_INCOMPAT_RECOVER EXT4_FEATURE_INCOMPAT_CSUM_SEED))))))).

Definition SIZEOF_EXT4_SUPERBLOCK : Z := Eval vm_compute in size_of EXT4_SUPERBLOCK.

(** Partition->BlockGroups = data *)
Definition with_BlockGroups (data : list Z) (P : EXT4_PARTITION) : EXT4_PARTITION :=
  mkPartition (SuperBlock P) (FeaturesIncompat P) (FeaturesCompat P) (FeaturesRoCompat P) (InodeSize P) (BlockSize P)
    (ReadOnly P) (NumberBlockGroups P) (NumberBlocks P) data (DescSize P) (InitialSeed P).

Section Super.
Context `{OC : !OrderedCollectionLib (loc * EXT4_EXTENT) Z, HPl : !Platform, HFw : !Firmware}.

Abbreviation sb_field f Sb := (rd_field EXT4_SUPERBLOCK f Sb 0).

(** ** Superblock.c *)

Definition Ext4SuperblockCheckMagic : M ext4 bool :=
  Status ← attempt (Ext4ReadDiskIo 2 2 (EXT4_SUPERBLOCK_OFFSET + offset_of EXT4_SUPERBLOCK "s_magic"));
  match Status with
  | inl _ => mret false
  | inr Magic =>
      Magic ← rd 2 Magic 0;
      if negb (Magic =? EXT4_SIGNATURE) then mret false else mret true
  end.

Definition Ext4SuperblockValidate (Sb : list Z) : M ext4 bool :=
  s_magic ← sb_field "s_magic" Sb;
  if negb (s_magic =? EXT4_SIGNATURE) then mret false
  else
    s_rev_level ← sb_field "s_rev_level" Sb;
    if negb (s_rev_level =? EXT4_DYNAMIC_REV) && negb (s_rev_level =? EXT4_GOOD_OLD_REV) then mret false
    else mret true.

(** The features and the inode size: [(FeaturesCompat, FeaturesIncompat, FeaturesRoCompat, InodeSize)]. *)
Definition ReadFeatures (Sb : list Z) : M ext4 (Z * Z * Z * Z) :=
  s_rev_level ← sb_field "s_rev_level" Sb;
  if s_rev_level =? EXT4_DYNAMIC_REV then
    Compat ← sb_field "s_feature_compat" Sb;
    Incompat ← sb_field "s_feature_incompat" Sb;
    RoCompat ← sb_field "s_feature_ro_compat" Sb;
    Size ← sb_field "s_inode_size" Sb;
    fail_if (negb (Size mod 4 =? 0) || (Size <? EXT4_GOOD_OLD_INODE_SIZE)) RETURN_VOLUME_CORRUPTED;;
    mret (Compat, Incompat, RoCompat, Size)
  else mret (0, 0, 0, EXT4_GOOD_OLD_INODE_SIZE).

(** Partition->InitialSeed *)
Definition ReadSeed (Partition : EXT4_PARTITION) (Sb : list Z) : M ext4 Z :=
  if EXT4_HAS_INCOMPAT Partition EXT4_FEATURE_INCOMPAT_CSUM_SEED then sb_field "s_checksum_seed" Sb
  else Ext4CalculateChecksum Partition (slice Sb (offset_of EXT4_SUPERBLOCK "s_uuid") 16) 16 (not32 0).

(** Partition->DescSize *)
Definition ReadDescSize (Partition : EXT4_PARTITION) (Sb : list Z) : M ext4 Z :=
  if EXT4_IS_64_BIT Partition then
    s_desc_size ← sb_field "s_desc_size" Sb;
    fail_if (negb (s_desc_size mod 4 =? 0) || (s_desc_size <? EXT4_64BIT_BLOCK_DESC_SIZE)) RETURN_VOLUME_CORRUPTED;;
    mret s_desc_size
  else mret EXT4_OLD_BLOCK_DESC_SIZE.

(** Ext4GetBlockGroupDesc (BlockGroup.c): the memory from the descriptor to the end of the block. *)
Definition Ext4GetBlockGroupDesc (Partition : EXT4_PARTITION) (BlockGroup : Z) : list Z :=
  drop (Z.to_nat (wrap 32 (BlockGroup * DescSize Partition))) (BlockGroups Partition).

Fixpoint CheckDescriptors (fuel : nat) (Partition : EXT4_PARTITION) (Index : Z) : M ext4 bool :=
  match fuel with
  | O => crash OutOfFuel
  | S k =>
      if Index <? NumberBlockGroups Partition then
        Valid ← Ext4VerifyBlockGroupDescChecksum Partition (Ext4GetBlockGroupDesc Partition Index) Index;
        if (Valid : bool) then CheckDescriptors k Partition (wrap 32 (Index + 1)) else mret false
      else mret true
  end.

(** Ext4OpenSuperblock up to the descriptors: the partition without them. *)
Definition ParseSuperblock : M ext4 EXT4_PARTITION :=
  Sb ← Ext4ReadDiskIo SIZEOF_EXT4_SUPERBLOCK SIZEOF_EXT4_SUPERBLOCK EXT4_SUPERBLOCK_OFFSET;
  Valid ← Ext4SuperblockValidate Sb;
  fail_if (negb Valid) RETURN_VOLUME_CORRUPTED;;
  '(Compat, Incompat, RoCompat, Size) ← ReadFeatures Sb;
  let Part (BlockSize : Z) (ReadOnly : bool) (Groups Blocks Desc Seed : Z) :=
    mkPartition Sb Incompat Compat RoCompat Size BlockSize ReadOnly Groups Blocks [] Desc Seed in
  let Partition := Part 0 false 0 0 0 0 in
  fail_if (negb (Z.land Incompat (not32 gSupportedIncompatFeat) =? 0)) RETURN_UNSUPPORTED;;
  let ReadOnly := EXT4_HAS_INCOMPAT Partition EXT4_FEATURE_INCOMPAT_RECOVER in
  s_checksum_type ← sb_field "s_checksum_type" Sb;
  fail_if (EXT4_HAS_METADATA_CSUM Partition && negb (s_checksum_type =? EXT4_CHECKSUM_CRC32C)) RETURN_UNSUPPORTED;;
  Seed ← ReadSeed Partition Sb;
  let ReadOnly := negb (Z.land RoCompat (not32 gSupportedRoCompatFeat) =? 0) || ReadOnly in
  s_inodes_per_group ← sb_field "s_inodes_per_group" Sb;
  fail_if (s_inodes_per_group =? 0) RETURN_VOLUME_CORRUPTED;;
  s_log_block_size ← sb_field "s_log_block_size" Sb;
  fail_if (EXT4_LOG_BLOCK_SIZE_MAX <? s_log_block_size) RETURN_UNSUPPORTED;;
  let BlockSize := wrap 32 (LShiftU64 1024 s_log_block_size) in
  s_blocks_per_group ← sb_field "s_blocks_per_group" Sb;
  fail_if (negb (s_blocks_per_group =? wrap 32 (8 * BlockSize))) RETURN_UNSUPPORTED;;
  s_blocks_count ← sb_field "s_blocks_count" Sb;
  s_blocks_count_hi ← sb_field "s_blocks_count_hi" Sb;
  let Blocks := EXT4_BLOCK_NR_FROM_HALFS Partition s_blocks_count s_blocks_count_hi in
  '(Groups, _) ← DivU64x32Remainder Blocks s_blocks_per_group;
  Desc ← ReadDescSize Partition Sb;
  let Partition := Part BlockSize ReadOnly Groups Blocks Desc Seed in
  Valid ← Ext4VerifySuperblockChecksum Partition Sb;
  fail_if (negb Valid) RETURN_VOLUME_CORRUPTED;;
  mret Partition.

(** The block group descriptors: the partition with them and the buffer they are in. *)
Definition ReadDescriptors (Partition : EXT4_PARTITION) : M ext4 (EXT4_PARTITION * loc) :=
  '(NrBlocks, NrBlocksRem) ←
    DivU64x32Remainder (MultU64x32 (NumberBlockGroups Partition) (DescSize Partition)) (BlockSize Partition);
  let NrBlocks := wrapn NrBlocks in
  let NrBlocks := if negb (NrBlocksRem =? 0) then wrapn (NrBlocks + 1) else NrBlocks in
  Groups ← Ext4AllocAndReadBlocks Partition NrBlocks (if BlockSize Partition =? 1024 then 2 else 1);
  match Groups with
  | None => raise RETURN_OUT_OF_RESOURCES
  | Some (x, data) =>
      let Partition := with_BlockGroups data Partition in
      Valid ← CheckDescriptors (S (Z.to_nat (NumberBlockGroups Partition))) Partition 0;
      if (Valid : bool) then mret (Partition, x)
      else FreeBuffer (Some x);; raise RETURN_VOLUME_CORRUPTED
  end.

(** Ext4OpenSuperblock before the root directory is opened. *)
Definition OpenSuperblock : M ext4 (EXT4_PARTITION * loc) :=
  Partition ← ParseSuperblock;
  ReadDescriptors Partition.

(** ** Inodes *)

Definition EXT4_IS_VALID_INODE_NR (Partition : EXT4_PARTITION) (InodeNum : Z) : M ext4 bool :=
  s_inodes_count ← sb_field "s_inodes_count" (SuperBlock Partition);
  mret ((0 <? InodeNum) && (InodeNum <=? s_inodes_count)).

(** The inode and what is in it. *)
Definition Ext4AllocateInode (Partition : EXT4_PARTITION) : M ext4 (option (loc * list Z)) :=
  let NeedsToZeroRest := InodeSize Partition <? SIZEOF_EXT4_INODE in
  let Size := if NeedsToZeroRest then SIZEOF_EXT4_INODE else InodeSize Partition in
  Inode ← AllocateBuffer Size;
  match Inode with
  | None => mret None
  | Some x =>
      let data := zeros Size in
      let data := if NeedsToZeroRest then write_bytes data (offset_of EXT4_INODE "i_extra_isize") (le_bytes 2 0) else data in
      mret (Some (x, data))
  end.

(** InodeTableStart; the upper half is read on 64-bit file systems only. *)
Definition InodeTable (Partition : EXT4_PARTITION) (BlockGroup : list Z) : M ext4 Z :=
  bg_inode_table_lo ← rd_field EXT4_BLOCK_GROUP_DESC "bg_inode_table_lo" BlockGroup 0;
  bg_inode_table_hi ←
    if EXT4_IS_64_BIT Partition then rd_field EXT4_BLOCK_GROUP_DESC "bg_inode_table_hi" BlockGroup 0 else mret 0;
  mret (EXT4_BLOCK_NR_FROM_HALFS Partition bg_inode_table_lo bg_inode_table_hi).

Definition Ext4ReadInode (Partition : EXT4_PARTITION) (InodeNum : Z) : M ext4 (loc * list Z) :=
  Valid ← EXT4_IS_VALID_INODE_NR Partition InodeNum;
  fail_if (negb Valid) RETURN_VOLUME_CORRUPTED;;
  s_inodes_per_group ← sb_field "s_inodes_per_group" (SuperBlock Partition);
  '(BlockGroupNumber, InodeOffset) ← DivU64x64Remainder (wrap 32 (InodeNum - 1)) s_inodes_per_group;
  let BlockGroupNumber := wrap 32 BlockGroupNumber in
  fail_if (NumberBlockGroups Partition <=? BlockGroupNumber) RETURN_VOLUME_CORRUPTED;;
  Inode ← Ext4AllocateInode Partition;
  match Inode with
  | None => raise RETURN_OUT_OF_RESOURCES
  | Some (x, Inode) =>
      let BlockGroup := Ext4GetBlockGroupDesc Partition BlockGroupNumber in
      InodeTableStart ← InodeTable Partition BlockGroup;
      Status ← attempt (Ext4ReadDiskIo (size Inode) (InodeSize Partition)
        (wrap 64 (MultU64x32 InodeTableStart (BlockSize Partition) + MultU64x32 InodeOffset (InodeSize Partition))));
      match Status with
      | inl e => FreeBuffer (Some x);; raise e
      | inr data =>
          let Inode := write_bytes Inode 0 data in
          Valid ← Ext4CheckInodeChecksum Partition Inode InodeNum;
          if (Valid : bool) then mret (x, Inode)
          else FreeBuffer (Some x);; raise RETURN_VOLUME_CORRUPTED
      end
  end.
End Super.
