(* ===== verification/Ext4SuperSpec.v ===== *)
(** Which superblocks Ext4OpenSuperblock accepts and what it makes of them, and what reading an
    inode gives. *)
From Stdlib Require Import String.
From stdpp Require Import gmap.
From S2P Require Import Prelude OrderedCollection OrderedLib Base Buffer Overflow Platform PeImage CheckSum Ext4Disk Ext4Checksum Ext4BlockMap Ext4Extents Ext4Cache Ext4Tree Ext4Super.
#[local] Open Scope string_scope.
#[local] Open Scope list_scope.
#[local] Open Scope Z_scope.

(** ** Accepted superblocks *)

(** A field of the superblock, and a feature field, which only the dynamic revision has. *)
Definition sbf (f : string) (Sb : list Z) : Z := load (field_size EXT4_SUPERBLOCK f) Sb (offset_of EXT4_SUPERBLOCK f).
Definition dynamic (Sb : list Z) : bool := sbf "s_rev_level" Sb =? EXT4_DYNAMIC_REV.
Definition feature (f : string) (Sb : list Z) : Z := if dynamic Sb then sbf f Sb else 0.

Definition uuid_seed (Sb : list Z) : Z := crc CRC32C_POLY 0xffffffff (slice Sb 104 16).

(** A superblock that is accepted, with the partition it describes. *)
Record Parsed (Sb : list Z) (P : EXT4_PARTITION) : Prop := {
  ps_super : SuperBlock P = Sb;
  ps_magic : sbf "s_magic" Sb = EXT4_SIGNATURE;
  ps_rev : sbf "s_rev_level" Sb = EXT4_DYNAMIC_REV ∨ sbf "s_rev_level" Sb = EXT4_GOOD_OLD_REV;
  ps_incompat : FeaturesIncompat P = feature "s_feature_incompat" Sb;
  ps_compat : FeaturesCompat P = feature "s_feature_compat" Sb;
  ps_ro_compat : FeaturesRoCompat P = feature "s_feature_ro_compat" Sb;
  ps_inode : InodeSize P = if dynamic Sb then sbf "s_inode_size" Sb else EXT4_GOOD_OLD_INODE_SIZE;
  ps_inode_ok : InodeSize P mod 4 = 0 ∧ EXT4_GOOD_OLD_INODE_SIZE <= InodeSize P;
  ps_supported : Z.land (FeaturesIncompat P) (not32 gSupportedIncompatFeat) = 0;
  ps_csum_type : EXT4_HAS_METADATA_CSUM P = true → sbf "s_checksum_type" Sb = EXT4_CHECKSUM_CRC32C;
  ps_seed : InitialSeed P =
    if EXT4_HAS_INCOMPAT P EXT4_FEATURE_INCOMPAT_CSUM_SEED then sbf "s_checksum_seed" Sb
    else if EXT4_HAS_METADATA_CSUM P then uuid_seed Sb else 0;
  ps_read_only : ReadOnly P =
    negb (Z.land (FeaturesRoCompat P) (not32 gSupportedRoCompatFeat) =? 0) || EXT4_HAS_INCOMPAT P EXT4_FEATURE_INCOMPAT_RECOVER;
  ps_inodes : sbf "s_inodes_per_group" Sb ≠ 0;
  ps_log : sbf "s_log_block_size" Sb <= EXT4_LOG_BLOCK_SIZE_MAX;
  ps_block : BlockSize P = 2 ^ (10 + sbf "s_log_block_size" Sb);
  ps_per_group : sbf "s_blocks_per_group" Sb = 8 * BlockSize P;
  ps_blocks : NumberBlocks P =
    sbf "s_blocks_count" Sb + if EXT4_IS_64_BIT P then sbf "s_blocks_count_hi" Sb * 2 ^ 32 else 0;
  ps_groups : NumberBlockGroups P = NumberBlocks P / (8 * BlockSize P);
  ps_desc : DescSize P = if EXT4_IS_64_BIT P then sbf "s_desc_size" Sb else EXT4_OLD_BLOCK_DESC_SIZE;
  ps_desc_ok : EXT4_IS_64_BIT P = true → DescSize P mod 4 = 0 ∧ EXT4_64BIT_BLOCK_DESC_SIZE <= DescSize P;
  ps_checksum : EXT4_HAS_METADATA_CSUM P = true → sbf "s_checksum" Sb = crc CRC32C_POLY 0xffffffff (take 1020 Sb);
  ps_descriptors : BlockGroups P = [];
}.

Section SuperSpecs.
Context `{OC : !OrderedCollectionLib (loc * EXT4_EXTENT) Z, HPl : !Platform, HOk : !PlatformOk, HFw : !Firmware}.
Context (Sb : list Z) (Hsize : size Sb = size_of EXT4_SUPERBLOCK) (Hbytes : bytes Sb).

Lemma wp_sb_field f (Q : Z → ext4 → Prop) E s :
  0 <= offset_of EXT4_SUPERBLOCK f → offset_of EXT4_SUPERBLOCK f + Z.of_nat (field_size EXT4_SUPERBLOCK f) <= 1024 →
  Q (sbf f Sb) s → wp (rd_field EXT4_SUPERBLOCK f Sb 0) Q E s.
Proof using Hsize. intros Ho Hf HQ. apply wp_rd; [lia|rewrite Hsize; exact Hf|exact HQ]. Qed.

Ltac sb_field := apply wp_sb_field; [by vm_compute|by vm_compute|].

Lemma sbf_range f n : field_size EXT4_SUPERBLOCK f = n → is_uint (8 * Z.of_nat n) (sbf f Sb).
Proof using Hbytes. intros <-. by apply load_range. Qed.

Lemma Ext4SuperblockValidate_spec s :
  wp (Ext4SuperblockValidate Sb)
    (λ r s', s' = s ∧ (r = true ↔ sbf "s_magic" Sb = EXT4_SIGNATURE ∧
       (sbf "s_rev_level" Sb = EXT4_DYNAMIC_REV ∨ sbf "s_rev_level" Sb = EXT4_GOOD_OLD_REV))) (λ _ _, False) s.
Proof using Hsize.
  apply wp_bind. sb_field. destruct (Z.eqb_spec (sbf "s_magic" Sb) EXT4_SIGNATURE) as [Hm|Hm].
  2: { apply wp_ret. split; [done|]. split; [done|by intros [? _]]. }
  apply wp_bind. sb_field.
  destruct (Z.eqb_spec (sbf "s_rev_level" Sb) EXT4_DYNAMIC_REV), (Z.eqb_spec (sbf "s_rev_level" Sb) EXT4_GOOD_OLD_REV);
    apply wp_ret; (split; [done|]); split; try done; auto. intros [_ [?|?]]; done.
Qed.

(** The features and the inode size are those of the superblock, or the superblock is not accepted. *)
Lemma ReadFeatures_spec s :
  wp (ReadFeatures Sb)
    (λ r s', s' = s ∧ r = (feature "s_feature_compat" Sb, feature "s_feature_incompat" Sb, feature "s_feature_ro_compat" Sb,
         if dynamic Sb then sbf "s_inode_size" Sb else EXT4_GOOD_OLD_INODE_SIZE) ∧
       r.2 mod 4 = 0 ∧ EXT4_GOOD_OLD_INODE_SIZE <= r.2)
    (λ e s', s' = s ∧ e = RETURN_VOLUME_CORRUPTED ∧ ∀ P, ¬ Parsed Sb P) s.
Proof using Hsize.
  apply wp_bind. sb_field. fold (dynamic Sb). unfold feature. destruct (dynamic Sb) eqn:Hdyn.
  - do 4 (apply wp_bind; sb_field). apply wp_bind, wp_fail_if.
    + intros Hbad. split; [done|]. split; [done|]. intros P HP. pose proof (ps_inode Sb P HP) as Hi. rewrite Hdyn in Hi.
      destruct (ps_inode_ok Sb P HP) as [H4 H128]. rewrite Hi in H4, H128. rewrite H4 in Hbad.
      apply Z.ltb_ge in H128. by rewrite H128 in Hbad.
    + intros [H4%negb_false_iff%Z.eqb_eq H128%Z.ltb_ge]%orb_false_iff. by apply wp_ret.
  - by apply wp_ret.
Qed.

Lemma ReadSeed_spec (P : EXT4_PARTITION) s :
  SuperBlock P = Sb → (EXT4_HAS_METADATA_CSUM P = true → sbf "s_checksum_type" Sb = EXT4_CHECKSUM_CRC32C) →
  wp (ReadSeed P Sb)
    (λ r s', s' = s ∧ u32 r ∧ r = if EXT4_HAS_INCOMPAT P EXT4_FEATURE_INCOMPAT_CSUM_SEED then sbf "s_checksum_seed" Sb
       else if EXT4_HAS_METADATA_CSUM P then uuid_seed Sb else 0) (λ _ _, False) s.
Proof using Hsize Hbytes.
  intros HS Ht. unfold ReadSeed. change (offset_of EXT4_SUPERBLOCK "s_uuid") with 104. destruct (EXT4_HAS_INCOMPAT P EXT4_FEATURE_INCOMPAT_CSUM_SEED).
  { sb_field. split; [done|]. split; [by apply (sbf_range _ 4)|done]. }
  assert (bytes (slice Sb 104 16)) as Hb by by apply bytes_slice.
  destruct (EXT4_HAS_METADATA_CSUM P) eqn:Hc.
  - assert (size (slice Sb 104 16) = 16) as H16 by (apply size_slice; [lia|lia|rewrite Hsize; by vm_compute]).
    eapply wp_intro_ok; [apply Ext4CalculateChecksum_crc; [by rewrite HS|done| |done|lia|by vm_compute]|].
    + rewrite HS. by apply Ht.
    + split; [done|]. split; [apply crc_range; [lia|by vm_compute|by vm_compute|by apply Forall_take]|].
      unfold uuid_seed. f_equal. apply take_ge. unfold size in H16. lia.
  - unfold Ext4CalculateChecksum. rewrite Hc. apply wp_ret. done.
Qed.

Lemma ReadDescSize_spec (P : EXT4_PARTITION) s :
  wp (ReadDescSize P Sb)
    (λ r s', s' = s ∧ r = (if EXT4_IS_64_BIT P then sbf "s_desc_size" Sb else EXT4_OLD_BLOCK_DESC_SIZE) ∧
       (EXT4_IS_64_BIT P = true → r mod 4 = 0 ∧ EXT4_64BIT_BLOCK_DESC_SIZE <= r))
    (λ e s', s' = s ∧ e = RETURN_VOLUME_CORRUPTED ∧
       ∀ P', FeaturesIncompat P' = FeaturesIncompat P → ¬ Parsed Sb P') s.
Proof using Hsize.
  unfold ReadDescSize. destruct (EXT4_IS_64_BIT P) eqn:H64; [|by apply wp_ret].
  apply wp_bind. sb_field. apply wp_bind, wp_fail_if.
  - intros Hbad. split; [done|]. split; [done|]. intros P' HF HP'. pose proof (ps_desc Sb P' HP') as Hd.
    assert (EXT4_IS_64_BIT P' = true) as H64' by (unfold EXT4_IS_64_BIT in *; by rewrite HF).
    destruct (ps_desc_ok Sb P' HP' H64') as [H4 H128]. rewrite H64' in Hd. rewrite Hd in H4, H128. rewrite H4 in Hbad.
    apply Z.ltb_ge in H128. by rewrite H128 in Hbad.
  - intros [H4%negb_false_iff%Z.eqb_eq H128%Z.ltb_ge]%orb_false_iff. by apply wp_ret.
Qed.
Lemma Ext4VerifySuperblockChecksum_parsed (P : EXT4_PARTITION) (s : ext4) :
  SuperBlock P = Sb → (EXT4_HAS_METADATA_CSUM P = true → sbf "s_checksum_type" Sb = EXT4_CHECKSUM_CRC32C) →
  wp (Ext4VerifySuperblockChecksum P Sb)
    (λ r s', s' = s ∧ (r = true ↔ (EXT4_HAS_METADATA_CSUM P = true → sbf "s_checksum" Sb = crc CRC32C_POLY 0xffffffff (take 1020 Sb))))
    (λ _ _, False) s.
Proof using Hsize Hbytes.
  intros HS Ht. unfold Ext4VerifySuperblockChecksum. destruct (EXT4_HAS_METADATA_CSUM P) eqn:Hc; [|by apply wp_ret].
  apply wp_bind. sb_field. apply wp_bind. unfold Ext4CalculateSuperblockChecksum.
  eapply wp_intro_ok; [apply Ext4CalculateChecksum_crc; [by rewrite HS|done| |done| |by vm_compute]|].
  - rewrite HS. by apply Ht.
  - rewrite Hsize. by vm_compute.
  - apply wp_ret. split; [done|]. rewrite Z.eqb_eq. change (not32 0) with 0xffffffff.
    change (Z.to_nat (offset_of EXT4_SUPERBLOCK "s_checksum")) with 1020%nat. by split; auto.
Qed.

Lemma log_block_size log :
  0 <= log <= EXT4_LOG_BLOCK_SIZE_MAX →
  wrap 32 (LShiftU64 1024 log) = 2 ^ (10 + log) ∧ wrap 32 (8 * 2 ^ (10 + log)) = 8 * 2 ^ (10 + log) ∧ 0 < 2 ^ (10 + log).
Proof.
  unfold EXT4_LOG_BLOCK_SIZE_MAX. intros Hl.
  assert (2 ^ (10 + log) <= 2 ^ 21) by (apply Z.pow_le_mono_r; lia). assert (0 < 2 ^ (10 + log)) by (apply Z.pow_pos_nonneg; lia).
  unfold LShiftU64. rewrite Z.shiftl_mul_pow2 by lia. change 1024 with (2 ^ 10). rewrite <- Z.pow_add_r by lia.
  rewrite !wrap_small; unfold is_uint; rewrite ?wrap_small; unfold is_uint; lia.
Qed.

Lemma block_nr_halfs P lo hi :
  u32 lo → u32 hi → EXT4_BLOCK_NR_FROM_HALFS P lo hi = lo + if EXT4_IS_64_BIT P then hi * 2 ^ 32 else 0.
Proof.
  intros Hlo Hhi. unfold EXT4_BLOCK_NR_FROM_HALFS. destruct (EXT4_IS_64_BIT P); [|lia].
  rewrite Z.lor_comm. unfold LShiftU64. rewrite wrap_small, lor_shiftl_add by (done || lia || (unfold is_uint in *; rewrite Z.shiftl_mul_pow2 by lia; lia)).
  lia.
Qed.

Lemma Parsed_unique P P' : Parsed Sb P → Parsed Sb P' → P = P'.
Proof.
  intros [] []. destruct P, P'. cbn in *. subst.
  unfold EXT4_HAS_METADATA_CSUM, EXT4_HAS_RO_COMPAT, EXT4_HAS_INCOMPAT, EXT4_IS_64_BIT in *. cbn in *. subst. congruence.
Qed.

Lemma Parsed_ok P : Parsed Sb P → PartitionOk P.
Proof using Hsize Hbytes.
  intros HP. pose proof (sbf_range "s_log_block_size" 4 eq_refl) as Hlog. pose proof (sbf_range "s_inode_size" 2 eq_refl) as Hin.
  pose proof (sbf_range "s_desc_size" 2 eq_refl) as Hds. pose proof (sbf_range "s_checksum_seed" 4 eq_refl) as Hseed.
  unfold is_uint in Hlog, Hin, Hds. split.
  - by rewrite (ps_super Sb P HP).
  - by rewrite (ps_super Sb P HP).
  - rewrite (ps_super Sb P HP). apply (ps_csum_type Sb P HP).
  - rewrite (ps_seed Sb P HP). destruct (EXT4_HAS_INCOMPAT _ _); [done|]. destruct (EXT4_HAS_METADATA_CSUM _); [|by vm_compute].
    apply crc_range; [lia|by vm_compute|by vm_compute|by apply bytes_slice].
  - exists (sbf "s_log_block_size" Sb). pose proof (ps_log Sb P HP). split; [lia|apply HP].
  - destruct (ps_inode_ok Sb P HP) as [_ H128]. split; [done|]. rewrite (ps_inode Sb P HP). destruct (dynamic Sb); [lia|by vm_compute].
  - apply (ps_inode_ok Sb P HP).
  - pose proof (ps_desc_ok Sb P HP) as Hok. rewrite (ps_desc Sb P HP) in *.
    unfold EXT4_64BIT_BLOCK_DESC_SIZE, EXT4_OLD_BLOCK_DESC_SIZE in *. destruct (EXT4_IS_64_BIT P); [|lia].
    specialize (Hok eq_refl). lia.
Qed.
End SuperSpecs.

Section ParseSpec.
Context `{OC : !OrderedCollectionLib (loc * EXT4_EXTENT) Z, HPl : !Platform, HOk : !PlatformOk, HFw : !Firmware}.

(** The answer of the disk for the superblock. *)
Definition superblock_read (t : nat) (r : RETURN_STATUS + list Z) : Prop :=
  ReadDisk t EXT4_SUPERBLOCK_OFFSET SIZEOF_EXT4_SUPERBLOCK = r.

Definition parse_error (t : nat) (e : RETURN_STATUS) : Prop :=
  superblock_read t (inl e) ∨
  ∃ Sb, superblock_read t (inr Sb) ∧ (∀ P, ¬ Parsed Sb P) ∧ (e = RETURN_VOLUME_CORRUPTED ∨ e = RETURN_UNSUPPORTED).

Ltac sb_next := apply wp_bind; apply wp_sb_field; [assumption|by vm_compute|by vm_compute|].
Ltac reject HP := split; [done|]; right; eexists; split; [eassumption|]; split; [intros P' HP; revert HP|by auto].

Lemma ParseSuperblock_spec s :
  wp ParseSuperblock (λ P s', s' = tick s ∧ ∃ Sb, superblock_read (Clock s) (inr Sb) ∧ size Sb = size_of EXT4_SUPERBLOCK ∧ bytes Sb ∧ Parsed Sb P)
    (λ e s', s' = tick s ∧ parse_error (Clock s) e) s.
Proof.
  apply wp_bind, wp_Ext4ReadDiskIo; [lia| |].
  2: { intros e He. split; [done|by left]. }
  intros Sb Hrd Hsize Hbytes. change (size Sb = size_of EXT4_SUPERBLOCK) in Hsize. unfold parse_error.
  apply wp_bind. eapply wp_mono; [by apply (Ext4SuperblockValidate_spec Sb Hsize)| |done]. intros Valid s1 [-> Hvalid].
  apply wp_bind, wp_fail_if.
  { intros Hv%negb_true_iff. reject HP. intros HP. rewrite Hv in Hvalid. enough (false = true) by done. apply Hvalid. split; apply HP. }
  intros Hv%negb_false_iff. apply Hvalid in Hv as [Hmagic Hrev]. clear Hvalid.
  apply wp_bind. eapply wp_mono; [by apply (ReadFeatures_spec Sb Hsize)| |].
  2: { intros e s1 (-> & -> & Hrej). split; [done|]. right. eauto 10. }
  intros r s1 (-> & -> & H4 & H128). cbn [snd] in H4, H128. cbv zeta.
  apply wp_bind, wp_fail_if.
  { intros Hbad%negb_true_iff%Z.eqb_neq. reject HP. intros HP. apply Hbad. rewrite <- (ps_incompat Sb P' HP). apply HP. }
  intros Hsup%negb_false_iff%Z.eqb_eq. sb_next.
  set (P0 := mkPartition Sb (feature "s_feature_incompat" Sb) _ _ _ _ _ _ _ _ _ _).
  apply wp_bind, wp_fail_if.
  { intros [Hc Hbad%negb_true_iff%Z.eqb_neq]%andb_true_iff. reject HP. intros HP. apply Hbad, (ps_csum_type Sb P' HP).
    unfold EXT4_HAS_METADATA_CSUM, EXT4_HAS_RO_COMPAT. rewrite (ps_ro_compat Sb P' HP). exact Hc. }
  intros Hct. assert (EXT4_HAS_METADATA_CSUM P0 = true → sbf "s_checksum_type" Sb = EXT4_CHECKSUM_CRC32C) as Htype.
  { intros Hc. rewrite Hc in Hct. by apply negb_false_iff, Z.eqb_eq in Hct. }
  apply wp_bind. eapply wp_mono; [by apply (ReadSeed_spec Sb Hsize Hbytes)| |done]. intros Seed s1 (-> & Hseed32 & Hseed).
  sb_next. apply wp_bind, wp_fail_if.
  { intros Hz%Z.eqb_eq. reject HP. intros HP. by apply (ps_inodes Sb P' HP). }
  intros Hinodes%Z.eqb_neq. sb_next. apply wp_bind, wp_fail_if.
  { intros Hz%Z.ltb_lt. reject HP. intros HP. pose proof (ps_log Sb P' HP). lia. }
  intros Hlog%Z.ltb_ge. pose proof (sbf_range Sb Hbytes "s_log_block_size" 4 eq_refl) as Hlog32. unfold is_uint in Hlog32.
  destruct (log_block_size (sbf "s_log_block_size" Sb)) as (-> & H8 & Hpos); [lia|]. rewrite H8. sb_next. apply wp_bind, wp_fail_if.
  { intros Hz%negb_true_iff%Z.eqb_neq. reject HP. intros HP. apply Hz. rewrite <- (ps_block Sb P' HP). apply HP. }
  intros Hper%negb_false_iff%Z.eqb_eq. sb_next. sb_next.
  apply wp_bind, wp_DivU64x32Remainder; [lia|]. rewrite Hper.
  apply wp_bind. eapply wp_mono; [by apply (ReadDescSize_spec Sb Hsize)| |].
  2: { intros e s1 (-> & -> & Hrej). reject HP. intros HP. apply (Hrej P'); [apply HP|exact HP]. }
  intros Desc s1 (-> & Hdesc & Hdesc_ok).
  set (P := mkPartition Sb _ _ _ _ (2 ^ (10 + sbf "s_log_block_size" Sb)) _ _ _ _ _ _).
  apply wp_bind. eapply wp_mono; [by apply (Ext4VerifySuperblockChecksum_parsed Sb Hsize Hbytes P)| |done].
  intros r s1 [-> Hr]. apply wp_bind, wp_fail_if.
  { intros ->%negb_true_iff. reject HP. intros HP. enough (false = true) by done. apply Hr.
    intros Hc. apply (ps_checksum Sb P' HP). unfold EXT4_HAS_METADATA_CSUM, EXT4_HAS_RO_COMPAT. rewrite (ps_ro_compat Sb P' HP). exact Hc. }
  intros ->%negb_false_iff. apply wp_ret. split; [done|]. exists Sb. split_and!; [done..|].
  split; try done; [|by apply Hr].
  exact (block_nr_halfs P0 _ _ (sbf_range Sb Hbytes "s_blocks_count" 4 eq_refl) (sbf_range Sb Hbytes "s_blocks_count_hi" 4 eq_refl)).
Qed.
End ParseSpec.

(** ** Block group descriptors *)

Section Descriptors.
Context `{OC : !OrderedCollectionLib (loc * EXT4_EXTENT) Z, HPl : !Platform, HOk : !PlatformOk, HFw : !Firmware}.

(** The checksum of GDT_CSUM file systems, and what a descriptor has to carry. *)
Definition gdt_checksum (P : EXT4_PARTITION) (Desc : list Z) (BlockGroupNum : Z) : Z :=
  crc CRC16_POLY CRC16ANSI_INIT
    (slice (SuperBlock P) 104 16 ++ le_bytes 4 BlockGroupNum ++ take 30 Desc ++ slice Desc 32 (DescSize P - 32)).

Definition descriptor_valid (P : EXT4_PARTITION) (Desc : list Z) (BlockGroupNum : Z) : bool :=
  if EXT4_HAS_METADATA_CSUM P then group_checksum P Desc BlockGroupNum =? load 2 Desc 30
  else if EXT4_HAS_GDT_CSUM P then gdt_checksum P Desc BlockGroupNum =? load 2 Desc 30
  else true.

Lemma Ext4CalculateBlockGroupDescChecksumGdtCsum_spec P Desc BlockGroupNum (s : ext4) :
  PartitionOk P → bytes Desc → DescSize P <= size Desc →
  Ext4CalculateBlockGroupDescChecksumGdtCsum P Desc BlockGroupNum s = Ok (gdt_checksum P Desc BlockGroupNum) s.
Proof using HOk.
  intros HP Hb Hs. pose proof (po_desc P HP) as Hd. unfold EXT4_OLD_BLOCK_DESC_SIZE in Hd.
  assert (bytes (slice (SuperBlock P) 104 16)) by by apply bytes_slice, HP.
  assert (size (slice (SuperBlock P) 104 16) = 16) as H16 by (apply size_slice; [lia|lia|rewrite (po_super P HP); by vm_compute]).
  unfold Ext4CalculateBlockGroupDescChecksumGdtCsum, at_field, gdt_checksum. layouts. rewrite wrapn_small by (unfold is_uint; lia).
  apply wp_exact. apply wp_bind. eapply wp_intro_ok; [apply CalculateCrc16Ansi_spec; [done|lia]|].
  apply wp_bind. eapply wp_intro_ok; [apply CalculateCrc16Ansi_spec; [apply bytes_le_bytes|rewrite size_le_bytes; lia]|].
  apply wp_bind. eapply wp_intro_ok; [apply CalculateCrc16Ansi_spec; [done|lia]|].
  eapply wp_intro_ok; [apply CalculateCrc16Ansi_spec; [by apply Forall_drop|unfold size in *; rewrite length_drop; lia]|].
  split; [|done]. rewrite !crc_app, take_drop_slice. do 2 f_equal.
  rewrite (take_ge (le_bytes 4 BlockGroupNum)) by (rewrite length_le_bytes; lia). do 3 f_equal.
  rewrite take_ge; [done|unfold size in H16; lia].
Qed.

Lemma Ext4VerifyBlockGroupDescChecksum_exact P Desc BlockGroupNum (s : ext4) :
  PartitionOk P → bytes Desc → DescSize P <= size Desc →
  Ext4VerifyBlockGroupDescChecksum P Desc BlockGroupNum s = Ok (descriptor_valid P Desc BlockGroupNum) s.
Proof using HOk.
  intros HP Hb Hs. pose proof (po_desc P HP) as Hd. unfold EXT4_OLD_BLOCK_DESC_SIZE in Hd.
  unfold Ext4VerifyBlockGroupDescChecksum, descriptor_valid, Ext4CalculateBlockGroupDescChecksum, rd_field. layouts.
  destruct (EXT4_HAS_METADATA_CSUM P) eqn:Hm; [|destruct (EXT4_HAS_GDT_CSUM P)]; cbn [negb andb]; [..|done]; apply wp_exact, wp_bind.
  - eapply wp_intro_ok; [by apply Ext4CalculateBlockGroupDescChecksumMetadataCsum_spec|].
    apply wp_bind, wp_rd; [lia|lia|]. by apply wp_ret.
  - eapply wp_intro_ok; [by apply Ext4CalculateBlockGroupDescChecksumGdtCsum_spec|].
    apply wp_bind, wp_rd; [lia|lia|]. by apply wp_ret.
Qed.

(** The descriptors that are in memory. *)
Record GroupsOk (P : EXT4_PARTITION) : Prop := {
  gr_bytes : bytes (BlockGroups P);
  gr_count : 0 <= NumberBlockGroups P;
  gr_room : NumberBlockGroups P * DescSize P <= size (BlockGroups P);
  gr_small : NumberBlockGroups P * DescSize P < 2 ^ 32;
  gr_inodes : sbf "s_inodes_per_group" (SuperBlock P) ≠ 0;
  gr_desc64 : EXT4_IS_64_BIT P = true → EXT4_64BIT_BLOCK_DESC_SIZE <= DescSize P;
}.

Definition group_desc (P : EXT4_PARTITION) (i : Z) : list Z := drop (Z.to_nat (i * DescSize P)) (BlockGroups P).

Lemma Ext4GetBlockGroupDesc_spec P i :
  PartitionOk P → GroupsOk P → 0 <= i < NumberBlockGroups P →
  Ext4GetBlockGroupDesc P i = group_desc P i ∧ bytes (group_desc P i) ∧ DescSize P <= size (group_desc P i).
Proof.
  intros HP HG Hi. pose proof (po_desc P HP) as Hd. unfold EXT4_OLD_BLOCK_DESC_SIZE in Hd.
  pose proof (gr_room P HG). pose proof (gr_small P HG). unfold Ext4GetBlockGroupDesc, group_desc.
  rewrite wrap_small by (unfold is_uint; nia). split; [done|]. split; [by apply Forall_drop, HG|].
  unfold size in *. rewrite length_drop. nia.
Qed.

Lemma CheckDescriptors_spec P fuel : ∀ Index s,
  PartitionOk P → GroupsOk P → 0 <= Index <= NumberBlockGroups P → (Z.to_nat (NumberBlockGroups P - Index) < fuel)%nat →
  wp (CheckDescriptors fuel P Index)
    (λ r s', s' = s ∧ (r = true ↔ ∀ i, Index <= i < NumberBlockGroups P → descriptor_valid P (group_desc P i) i = true))
    (λ _ _, False) s.
Proof using HOk.
  induction fuel as [|fuel IH]; intros Index s HP HG HI Hf; [lia|]. cbn [CheckDescriptors].
  destruct (Z.ltb_spec Index (NumberBlockGroups P)) as [Hlt|Hge].
  2: { apply wp_ret. split; [done|]. split; [|done]. intros _ i Hi. lia. }
  destruct (Ext4GetBlockGroupDesc_spec P Index HP HG) as (-> & Hb & Hs); [lia|].
  pose proof (po_desc P HP) as Hd. unfold EXT4_OLD_BLOCK_DESC_SIZE in Hd. pose proof (gr_small P HG).
  apply wp_bind. eapply wp_intro_ok; [by apply Ext4VerifyBlockGroupDescChecksum_exact|].
  destruct (descriptor_valid P (group_desc P Index) Index) eqn:Hv.
  - rewrite wrap_small by (unfold is_uint; nia). eapply wp_mono; [apply IH; [done|done|lia|lia]| |done].
    intros r s' [-> Hr]. split; [done|]. rewrite Hr. split; [|intros Hall i Hi; apply Hall; lia].
    intros Hall i Hi. destruct (decide (i = Index)) as [->|]; [done|]. apply Hall. lia.
  - apply wp_ret. split; [done|]. split; [done|]. intros Hall. rewrite <- Hv. apply Hall. lia.
Qed.
End Descriptors.

(** ** Reading the descriptors *)

Section Groups.
Context `{OC : !OrderedCollectionLib (loc * EXT4_EXTENT) Z, HPl : !Platform, HOk : !PlatformOk, HFw : !Firmware}.

(** A new buffer is the only change. *)
Definition allocated (x : loc) (n : Z) (s s' : ext4) : Prop :=
  Buffers s !! x = None ∧ s' ≡ with_Buffers (<[x := n]> (Buffers s)) s.

Lemma wp_free_allocated {A} x n s s1 e (Q : A → ext4 → Prop) (E : RETURN_STATUS → ext4 → Prop) :
  allocated x n s s1 → (∀ s2, s2 ≡ s → E e s2) → wp (FreeBuffer (Some x);; raise e) Q E s1.
Proof.
  intros [Hx (H1 & H2 & H3 & H4)] HE. cbn in *. apply wp_bind. eapply wp_FreeBuffer; [rewrite H3; by apply lookup_insert_eq|].
  apply wp_raise, HE. split_and!; cbn; [done|done| |done]. rewrite H3. by apply delete_insert_id.
Qed.

Lemma allocated_tick x n s s1 : allocated x n s s1 → allocated x n s (tick s1).
Proof. by intros [Hx Hs]. Qed.

Lemma Ext4AllocAndReadBlocks_spec P N BlockNumber s :
  PartitionOk P → 0 <= N → 0 < BlockNumber →
  wp (Ext4AllocAndReadBlocks P N BlockNumber)
    (λ r s', match r with
       | None => s' ≡ s ∧ (N = 0 ∨ AllocatePool s = None ∨ 2 ^ UINTN_WIDTH <= N * BlockSize P ∨
           2 ^ 64 <= BlockNumber * BlockSize P ∨
           ∃ e, ReadDisk (Clock (tick s)) (BlockNumber * BlockSize P) (N * BlockSize P) = inl e)
       | Some (x, data) => allocated x (N * BlockSize P) s s' ∧ 0 < N ∧ size data = N * BlockSize P ∧ bytes data ∧
           ReadDisk (Clock (tick s)) (BlockNumber * BlockSize P) (N * BlockSize P) = inr data
       end) (λ _ _, False) s.
Proof using HOk.
  intros HP HN HB. destruct (BlockSize_bounds P HP) as [HBS _]. assert (0 <= UINTN_WIDTH) as HW by (destruct platform_uintn as [->| ->]; lia).
  unfold Ext4AllocAndReadBlocks, EXT4_BLOCK_FILE_HOLE, wrapn.
  destruct (Z.eqb_spec N 0) as [->|HN0]; cbn [orb]; [apply wp_ret; split; [done|auto]|]. destruct (Z.eqb_spec BlockNumber 0); [lia|].
  rewrite (truncated_quotient UINTN_WIDTH N) by lia.
  destruct (Z.ltb_spec (N * BlockSize P) (2 ^ UINTN_WIDTH)) as [Hfit|]; cbn [negb]; [|apply wp_ret; split; [done|auto]].
  rewrite !wrap_small by (unfold is_uint; nia). apply wp_bind, wp_AllocateBuffer; [|intros; apply wp_ret; split; [done|auto]].
  intros x Hx. assert (Buffers s !! x = None) as Hfresh by (apply AllocatePool_fresh in Hx; apply Hx).
  apply wp_bind. eapply wp_BufferSize; [by apply lookup_insert_eq|]. apply wp_bind, wp_attempt.
  assert (allocated x (N * BlockSize P) s (with_Buffers (<[x := N * BlockSize P]> (Buffers s)) (tick s))) as Ha by done.
  eapply wp_mono; [apply Ext4ReadBlocks_spec; [lia|lia|lia|lia]| |].
  - intros data s' (-> & _ & _ & Hd & Hs & Hb). apply wp_ret. split; [by apply allocated_tick|]. split; [lia|].
    split; [done|]. by split.
  - intros e s' [Hs' Hwhy]. apply wp_bind. destruct Hs' as (H1 & H2 & H3 & H4). cbn in *.
    eapply wp_FreeBuffer; [rewrite H3; by apply lookup_insert_eq|]. apply wp_ret. split.
    + split_and!; cbn; [done|done| |done]. rewrite H3. by apply delete_insert_id.
    + destruct Hwhy as [(_ & [?|?])|?]; [auto 6|auto|]. do 4 right. by exists e.
Qed.

Lemma with_BlockGroups_ok data P : PartitionOk P → PartitionOk (with_BlockGroups data P).
Proof. by intros []. Qed.

(** The blocks the descriptors are in, and the bytes of these blocks. *)
Definition groups_block (P : EXT4_PARTITION) : Z := if BlockSize P =? 1024 then 2 else 1.
Definition groups_length (P : EXT4_PARTITION) : Z :=
  (NumberBlockGroups P * DescSize P + BlockSize P - 1) / BlockSize P * BlockSize P.

(** The answer of the disk for the descriptors: it is asked after the buffer for them. *)
Definition groups_read (t : nat) (P : EXT4_PARTITION) (r : RETURN_STATUS + list Z) : Prop :=
  ReadDisk t (groups_block P * BlockSize P) (groups_length P) = r.

(** Why the descriptors are not accepted: there are none, there is no memory for them, the disk
    does not answer, or one of those on the disk is not valid. *)
Definition groups_error (s : ext4) (P : EXT4_PARTITION) (e : RETURN_STATUS) : Prop :=
  e = RETURN_OUT_OF_RESOURCES ∧
    (NumberBlockGroups P = 0 ∨ AllocatePool s = None ∨ 2 ^ UINTN_WIDTH <= groups_length P ∨
     ∃ e', groups_read (Clock (tick s)) P (inl e')) ∨
  e = RETURN_VOLUME_CORRUPTED ∧
    ∃ data i, groups_read (Clock (tick s)) P (inr data) ∧ 0 <= i < NumberBlockGroups P ∧
      descriptor_valid (with_BlockGroups data P) (group_desc (with_BlockGroups data P) i) i = false.

Lemma Parsed_blocks Sb P : bytes Sb → Parsed Sb P → 0 <= NumberBlocks P < 2 ^ 64 ∧ 0 <= NumberBlockGroups P.
Proof.
  intros Hb HP. pose proof (sbf_range Sb Hb "s_blocks_count" 4 eq_refl) as H1. pose proof (sbf_range Sb Hb "s_blocks_count_hi" 4 eq_refl) as H2.
  pose proof (sbf_range Sb Hb "s_blocks_per_group" 4 eq_refl) as H3. pose proof (ps_per_group Sb P HP) as H8.
  unfold is_uint in H1, H2, H3. change (8 * Z.of_nat 4) with 32 in *.
  assert (0 <= NumberBlocks P < 2 ^ 64) as Hn by (rewrite (ps_blocks Sb P HP); destruct (EXT4_IS_64_BIT P); lia).
  split; [done|]. rewrite (ps_groups Sb P HP). apply Zdiv.Z_div_nonneg_nonneg; lia.
Qed.

Lemma groups_length_round P :
  let n := NumberBlockGroups P * DescSize P in 0 < BlockSize P →
  groups_length P = (if negb (n mod BlockSize P =? 0) then n / BlockSize P + 1 else n / BlockSize P) * BlockSize P.
Proof.
  intros n HBS. unfold groups_length. fold n. f_equal. pose proof (Z.div_mod n (BlockSize P)). pose proof (Z.mod_pos_bound n (BlockSize P)).
  destruct (Z.eqb_spec (n mod BlockSize P) 0); cbn [negb]; symmetry.
  - apply (Z.div_unique_pos _ _ _ (BlockSize P - 1)); lia.
  - apply (Z.div_unique_pos _ _ _ (n mod BlockSize P - 1)); lia.
Qed.

(** If not all descriptors are valid, there is one that is not. *)
Lemma invalid_descriptor P N :
  ¬ (∀ i, 0 <= i < N → descriptor_valid P (group_desc P i) i = true) →
  ∃ i, 0 <= i < N ∧ descriptor_valid P (group_desc P i) i = false.
Proof.
  intros Hn. destruct (decide (Exists (λ i, descriptor_valid P (group_desc P i) i = false) (seqZ 0 N))) as [(i & Hi & Hv)%Exists_exists|Hall].
  - exists i. apply elem_of_seqZ in Hi. split; [lia|done].
  - destruct Hn. intros i Hi. apply not_Exists_Forall in Hall; [|apply _]. rewrite Forall_forall in Hall.
    apply not_false_is_true, Hall, elem_of_seqZ. lia.
Qed.

Lemma ReadDescriptors_spec Sb P s :
  size Sb = size_of EXT4_SUPERBLOCK → bytes Sb → Parsed Sb P → NumberBlockGroups P * DescSize P < 2 ^ 32 →
  wp (ReadDescriptors P)
    (λ r s', ∃ data, r.1 = with_BlockGroups data P ∧ 0 < NumberBlockGroups P ∧ GroupsOk r.1 ∧ allocated r.2 (size data) s s' ∧
       groups_read (Clock (tick s)) P (inr data) ∧
       ∀ i, 0 <= i < NumberBlockGroups P → descriptor_valid r.1 (group_desc r.1 i) i = true)
    (λ e s', s' ≡ s ∧ groups_error s P e) s.
Proof using HOk.
  intros HSize HBytes HParsed Hfit. destruct (Parsed_blocks Sb P HBytes HParsed) as [_ HN].
  assert (PartitionOk P) as HP by by apply (Parsed_ok Sb). destruct (BlockSize_bounds P HP) as [HBS _]. pose proof (po_desc P HP) as Hd. unfold EXT4_OLD_BLOCK_DESC_SIZE in Hd.
  set (bytes_ := NumberBlockGroups P * DescSize P) in *. assert (0 <= bytes_) by (unfold bytes_; nia).
  apply wp_bind, wp_DivU64x32Remainder; [lia|]. unfold MultU64x32. fold bytes_. rewrite wrap_small by (unfold is_uint; lia).
  pose proof (Z.div_mod bytes_ (BlockSize P)). pose proof (Z.mod_pos_bound bytes_ (BlockSize P)).
  assert (0 <= bytes_ / BlockSize P) by (apply Z.div_pos; lia).
  assert (2 ^ 32 <= 2 ^ UINTN_WIDTH) by (destruct platform_uintn as [->| ->]; lia).
  rewrite (wrapn_small (bytes_ / BlockSize P)) by (unfold is_uint; nia). rewrite wrapn_small by (unfold is_uint; nia).
  set (N := if negb (bytes_ mod BlockSize P =? 0) then bytes_ / BlockSize P + 1 else bytes_ / BlockSize P).
  assert (0 <= N ∧ bytes_ <= N * BlockSize P ∧ (bytes_ = 0 → N = 0)) as (HN0 & Hroom & Hnone).
  { unfold N. destruct (Z.eqb_spec (bytes_ mod BlockSize P) 0); cbn [negb]; nia. }
  assert (groups_length P = N * BlockSize P) as HNlen by (apply groups_length_round; lia).
  assert (N = 0 → NumberBlockGroups P = 0) as HNzero by (intros HNz; unfold bytes_ in Hroom; rewrite HNz in Hroom; nia).
  assert (0 < groups_block P <= 2) as Hblock by (unfold groups_block; destruct (BlockSize P =? 1024); lia).
  apply wp_bind. eapply wp_mono; [apply (Ext4AllocAndReadBlocks_spec P N (groups_block P)); [done|done|lia]| |done].
  rewrite <- HNlen. intros [[x data]|] s1 Hr.
  2: { apply wp_raise. destruct Hr as [Hs1 Hr]. split; [done|]. left. split; [done|].
       destruct Hr as [Hr|[Hr|[Hr|[Hr|Hr]]]]; [auto|auto|auto|nia|auto]. }
  destruct Hr as (Ha & HNpos & Hsz & Hb & Hrd).
  set (P' := with_BlockGroups data P). assert (PartitionOk P') as HP' by by apply with_BlockGroups_ok.
  assert (GroupsOk P') as HG by (split; cbn; [done|done|fold bytes_; lia|done|rewrite (ps_super Sb P HParsed); apply HParsed|intros H64; by apply (ps_desc_ok Sb P HParsed)]).
  apply wp_bind. eapply wp_mono; [apply (CheckDescriptors_spec P'); [done|done|cbn; lia|cbn; lia]| |done].
  intros r s2 [-> Hr]. destruct r.
  - apply wp_ret. exists data. rewrite Hsz. split_and!; [done| |done|done|done|by apply Hr].
    destruct (decide (NumberBlockGroups P = 0)) as [Hz|]; [|lia]. unfold bytes_ in Hnone. rewrite Hz in Hnone. lia.
  - eapply wp_free_allocated; [exact Ha|]. intros s2 Hs2. split; [done|]. right. split; [done|]. exists data.
    destruct (invalid_descriptor P' (NumberBlockGroups P)) as (i & Hi & Hbad); [intros Hall; by apply Hr in Hall|]. by exists i.
Qed.

(** The partition that was opened. *)
Record Opened (s : ext4) (P : EXT4_PARTITION) : Prop := {
  op_super : superblock_read (Clock s) (inr (SuperBlock P));
  op_parsed : Parsed (SuperBlock P) (with_BlockGroups [] P);
  op_ok : PartitionOk P;
  op_groups : GroupsOk P;
  op_some : 0 < NumberBlockGroups P;
  op_read : groups_read (Clock (tick (tick s))) P (inr (BlockGroups P));
  op_valid : ∀ i, 0 <= i < NumberBlockGroups P → descriptor_valid P (group_desc P i) i = true;
}.

(** The groups of a file system the superblock describes fit 32 bits. *)
Definition groups_fit (s : ext4) : Prop :=
  ∀ Sb P, superblock_read (Clock s) (inr Sb) → Parsed Sb P → NumberBlockGroups P * DescSize P < 2 ^ 32.

Lemma OpenSuperblock_spec s :
  groups_fit s →
  wp OpenSuperblock (λ r s', Opened s r.1 ∧ allocated r.2 (size (BlockGroups r.1)) s s')
    (λ e s', s' ≡ s ∧ (parse_error (Clock s) e ∨
       ∃ Sb P, superblock_read (Clock s) (inr Sb) ∧ Parsed Sb P ∧ groups_error (tick s) P e)) s.
Proof using HOk.
  intros Hfit. apply wp_bind. eapply wp_mono; [apply ParseSuperblock_spec| |].
  2: { intros e s1 [-> He]. split; [done|by left]. }
  intros P s1 (-> & Sb & Hrd & Hsz & Hb & HP). eapply wp_mono; [by eapply (ReadDescriptors_spec Sb P); [..|by eapply Hfit]| |].
  2: { intros e s2 [Hs2 He]. split; [done|]. right. by exists Sb, P. }
  intros [P' x] s2 (data & Heq & Hpos & HG & Ha & Ht & Hv). cbn [fst snd] in *. subst P'. split; [|done].
  assert (with_BlockGroups [] (with_BlockGroups data P) = P) as Hwith by (rewrite <- (ps_descriptors Sb P HP); by destruct P).
  pose proof (ps_super Sb P HP) as HS. split; cbn; [by rewrite HS| |by apply with_BlockGroups_ok, (Parsed_ok Sb)|done..].
  rewrite HS, Hwith. exact HP.
Qed.
End Groups.

(** C33. Ext4OpenSuperblock, up to opening the root directory, never faults and terminates if
    the group descriptors the superblock describes take less than 4 GiB ([groups_fit]).  A
    partition it sets up is the one of an acceptable superblock (signature, revision, inode
    size, supported features, block and group sizes, checksum), with the number of blocks over
    the blocks of a group, rounded down, as its number of groups; the descriptors of these
    groups are those on the disk and all of them are valid, and their buffer is the only one
    left allocated.  A superblock that is read is refused only if it is not acceptable, or with
    OUT_OF_RESOURCES only if it has no whole group, the buffer could not be allocated or is too
    large for UINTN, or the disk did not give the descriptors, or with VOLUME_CORRUPTED only if
    one of the descriptors on the disk is not valid; nothing is left allocated then. *)
Theorem ext4_open_superblock_exact `{OC : !OrderedCollectionLib (loc * EXT4_EXTENT) Z, !Platform, !PlatformOk, !Firmware}
    (s : ext4) (Hfit : groups_fit s) :
  match OpenSuperblock s with
  | Ok (P, x) s' => Opened s P ∧ allocated x (size (BlockGroups P)) s s'
  | Err e s' => s' ≡ s ∧ (parse_error (Clock s) e ∨
      ∃ Sb P, superblock_read (Clock s) (inr Sb) ∧ Parsed Sb P ∧ groups_error (tick s) P e)
  | Fault _ => False
  end.
Proof.
  pose proof (wp_cases _ _ _ _ (OpenSuperblock_spec s Hfit)) as Hs. by destruct (OpenSuperblock s) as [[P x] s'|e s'|f].
Qed.

(** A file system of fewer blocks than one block group cannot be opened: the number of groups
    is the quotient rounded down, so that there are no descriptors to read, and the driver
    reports that it is out of resources. *)
Theorem ext4_open_small_volume_fails `{OC : !OrderedCollectionLib (loc * EXT4_EXTENT) Z, !Platform, !PlatformOk, !Firmware}
    (s : ext4) (Sb : list Z) (P : EXT4_PARTITION) (Hread : superblock_read (Clock s) (inr Sb)) (HP : Parsed Sb P)
    (Hsmall : NumberBlocks P < 8 * BlockSize P) :
  OpenSuperblock s = Err RETURN_OUT_OF_RESOURCES (tick s).
Proof.
  pose proof (wp_cases _ _ _ _ (ParseSuperblock_spec s)) as Hparse. unfold OpenSuperblock, mbind, M_bind.
  destruct (ParseSuperblock s) as [P' s'|e s'|f]; [| |done].
  - destruct Hparse as (-> & Sb' & Hread' & Hsz & Hb & HP'). unfold superblock_read in *. rewrite Hread in Hread'. injection Hread' as <-.
    assert (P' = P) as -> by by eapply Parsed_unique. destruct (Parsed_blocks Sb P Hb HP) as [Hn _].
    assert (NumberBlockGroups P = 0) as Hzero by (rewrite (ps_groups Sb P HP); apply Z.div_small; lia).
    assert (0 < BlockSize P) by (destruct (BlockSize_bounds P); [by apply (Parsed_ok Sb)|lia]).
    unfold ReadDescriptors. rewrite Hzero. unfold MultU64x32. rewrite Z.mul_0_l. change (wrap 64 0) with 0.
    unfold DivU64x32Remainder. rewrite (proj2 (Z.eqb_neq (BlockSize P) 0)) by lia.
    unfold require, mbind, M_bind, mret, M_ret. cbn [negb]. rewrite Z.div_0_l, Z.mod_0_l by lia.
    change (negb (0 =? 0)) with false. cbv iota zeta. unfold wrapn. rewrite wrap_small; [done|]. split; [done|]. apply Z.pow_pos_nonneg; [done|]. by destruct platform_uintn as [->| ->].
  - destruct Hparse as [_ [He|(Sb' & Hread' & Hrej & _)]]; unfold superblock_read in *; rewrite Hread in *; [done|].
    injection Hread' as <-. by destruct (Hrej P).
Qed.

(** ** How many groups *)

Section Bounds.
Context `{OC : !OrderedCollectionLib (loc * EXT4_EXTENT) Z, HPl : !Platform, HOk : !PlatformOk, HFw : !Firmware}.

(** Groups of at least 8192 blocks: up to 2^45 bytes of descriptors for all blocks are enough room. *)
Lemma groups_fit_blocks Sb P :
  size Sb = size_of EXT4_SUPERBLOCK → bytes Sb → Parsed Sb P → NumberBlocks P * DescSize P < 2 ^ 45 →
  NumberBlockGroups P * DescSize P < 2 ^ 32.
Proof.
  intros Hs Hb HP Hn. assert (PartitionOk P) as HPo by by apply (Parsed_ok Sb). destruct (BlockSize_bounds P HPo) as [HBS _].
  pose proof (po_desc P HPo) as Hd. unfold EXT4_OLD_BLOCK_DESC_SIZE in Hd. destruct (Parsed_blocks Sb P Hb HP) as [Hnb Hg].
  rewrite (ps_groups Sb P HP) in *. pose proof (Z.mul_div_le (NumberBlocks P) (8 * BlockSize P)). nia.
Qed.

(** A file system without 64-bit block numbers always fits. *)
Lemma groups_fit_32bit s :
  (∀ Sb P, superblock_read (Clock s) (inr Sb) → Parsed Sb P → EXT4_IS_64_BIT P = false) → groups_fit s.
Proof.
  intros H32 Sb P Hrd HP. destruct (ReadDisk_fills _ _ _ _ Hrd) as [Hs Hb]. apply (groups_fit_blocks Sb); [done..|].
  rewrite (ps_blocks Sb P HP), (ps_desc Sb P HP), (H32 Sb P Hrd HP).
  pose proof (sbf_range Sb Hb "s_blocks_count" 4 eq_refl) as Hc. unfold is_uint in Hc. change (8 * Z.of_nat 4) with 32 in Hc.
  unfold EXT4_OLD_BLOCK_DESC_SIZE. lia.
Qed.
End Bounds.

(** With 2^32 groups or more and no checksums the loop over the descriptors does not end: its
    index has 32 bits.  A superblock that describes such a file system is accepted. *)
Theorem ext4_open_many_groups_hangs `{OC : !OrderedCollectionLib (loc * EXT4_EXTENT) Z, !Platform, !PlatformOk, !Firmware}
    (P : EXT4_PARTITION) (Hcsum : EXT4_HAS_METADATA_CSUM P = false) (Hgdt : EXT4_HAS_GDT_CSUM P = false)
    (Hmany : 2 ^ 32 <= NumberBlockGroups P) (rounds : nat) (s : ext4) :
  CheckDescriptors rounds P 0 s = Fault OutOfFuel.
Proof.
  assert (∀ Index, u32 Index → CheckDescriptors rounds P Index s = Fault OutOfFuel) as Hloop; [|by apply Hloop].
  induction rounds as [|rounds IH]; intros Index HI; [done|]. cbn [CheckDescriptors].
  rewrite (proj2 (Z.ltb_lt Index (NumberBlockGroups P))) by (unfold is_uint in HI; lia).
  unfold Ext4VerifyBlockGroupDescChecksum. rewrite Hcsum, Hgdt. cbn [negb andb].
  unfold mbind, M_bind, mret, M_ret. cbn beta iota. apply IH. by apply wrap_range.
Qed.

(** ** Samples *)

Section Witness.
#[local] Existing Instance platform_x64.
#[local] Existing Instance platform_x64_ok.
#[local] Existing Instance sample_collections.

(** A superblock with given fields. *)
Definition sample_superblock (fields : list (string * Z)) : list Z :=
  foldr (λ '(f, v) b, write_bytes b (offset_of EXT4_SUPERBLOCK f) (le_bytes (field_size EXT4_SUPERBLOCK f) v))
    (zeros 1024) fields.

(** A disk with the given superblock, descriptors from block 2 on and an inode table in block 5;
    what follows is zero. *)
Definition sample_volume (Sb Descs Inodes : list Z) (i : Z) : Z :=
  if i <? 1024 then 0
  else if i <? 2048 then byte_at Sb (i - 1024)
  else if i <? 5 * 1024 then byte_at Descs (i - 2048)
  else byte_at Inodes (i - 5 * 1024).

(** One group of 8192 blocks of 1 KiB, eight inodes of 256 bytes. *)
Definition small_fields : list (string * Z) :=
  [("s_magic", EXT4_SIGNATURE); ("s_rev_level", EXT4_DYNAMIC_REV); ("s_inode_size", 256);
   ("s_feature_incompat", EXT4_FEATURE_INCOMPAT_EXTENTS); ("s_inodes_per_group", 8); ("s_inodes_count", 8);
   ("s_blocks_per_group", 8192); ("s_blocks_count", 8192)].

Definition small_disk : Z → Z :=
  sample_volume (sample_superblock small_fields) (write_bytes (zeros 1024) 8 (le_bytes 4 5)) [].

#[local] Instance small_firmware : Firmware := sample_firmware small_disk.

Lemma small_groups_fit : groups_fit sample_state.
Proof.
  apply groups_fit_32bit. intros Sb P Hrd HP. unfold EXT4_IS_64_BIT. rewrite (ps_incompat Sb P HP).
  assert (Sb = disk_bytes small_disk 1024 1024) as -> by (unfold superblock_read in Hrd; cbn in Hrd; by injection Hrd).
  by vm_compute.
Qed.

Lemma ext4_open_superblock_exact_witness :
  match OpenSuperblock sample_state with
  | Ok (P, _) _ => Opened sample_state P ∧ NumberBlockGroups P = 1 ∧ BlockSize P = 1024
  | _ => False
  end.
Proof.
  pose proof (ext4_open_superblock_exact sample_state small_groups_fit) as Hs.
  assert (match OpenSuperblock sample_state with
          | Ok (P, _) _ => (NumberBlockGroups P =? 1) && (BlockSize P =? 1024) | _ => false end = true) as Hc by (vm_compute; reflexivity).
  destruct (OpenSuperblock sample_state) as [[P x] s'|e s'|f]; [|discriminate Hc|discriminate Hc].
  apply andb_true_iff in Hc as [H1 H2]. split; [apply Hs|]. split; by apply Z.eqb_eq.
Defined.
End Witness.

Section WitnessSmall.
#[local] Existing Instance platform_x64.
#[local] Existing Instance platform_x64_ok.
#[local] Existing Instance sample_collections.

(** The same file system with 4000 blocks. *)
Definition tiny_disk : Z → Z :=
  sample_volume (sample_superblock (("s_blocks_count", 4000) :: small_fields)) (write_bytes (zeros 1024) 8 (le_bytes 4 5)) [].

#[local] Instance tiny_firmware : Firmware := sample_firmware tiny_disk.

Lemma ext4_open_small_volume_fails_witness :
  OpenSuperblock sample_state = Err RETURN_OUT_OF_RESOURCES (tick sample_state).
Proof.
  pose proof (wp_cases _ _ _ _ (ParseSuperblock_spec sample_state)) as Hs.
  assert (match ParseSuperblock sample_state with
          | Ok P _ => NumberBlocks P <? 8 * BlockSize P | _ => false end = true) as Hc by (vm_compute; reflexivity).
  destruct (ParseSuperblock sample_state) as [P s'|e s'|f]; [|discriminate Hc|discriminate Hc].
  destruct Hs as (_ & Sb & Hread & _ & _ & HP). apply Z.ltb_lt in Hc.
  exact (ext4_open_small_volume_fails sample_state Sb P Hread HP Hc).
Defined.
End WitnessSmall.

Section WitnessMany.
#[local] Existing Instance platform_x64.
#[local] Existing Instance platform_x64_ok.
#[local] Existing Instance sample_collections.

(** A file system of 2^49 + 1 groups with descriptors of 32 KiB, whose sizes add up to 32 KiB
    modulo 2^64. *)
Definition many_disk : Z → Z :=
  sample_volume (sample_superblock
    ([("s_blocks_count_hi", 2 ^ 30); ("s_desc_size", 2 ^ 15);
      ("s_feature_incompat", Z.lor EXT4_FEATURE_INCOMPAT_64BIT EXT4_FEATURE_INCOMPAT_EXTENTS)] ++ small_fields)) [] [].

#[local] Instance many_firmware : Firmware := sample_firmware many_disk.

Lemma ext4_open_many_groups_hangs_witness :
  match ParseSuperblock sample_state with
  | Ok P s => MultU64x32 (NumberBlockGroups P) (DescSize P) = 2 ^ 15 ∧ ∀ rounds, CheckDescriptors rounds P 0 s = Fault OutOfFuel
  | _ => False
  end.
Proof.
  assert (match ParseSuperblock sample_state with
          | Ok P _ => (MultU64x32 (NumberBlockGroups P) (DescSize P) =? 2 ^ 15) && negb (EXT4_HAS_METADATA_CSUM P) &&
              negb (EXT4_HAS_GDT_CSUM P) && (2 ^ 32 <=? NumberBlockGroups P)
          | _ => false end = true) as Hc by (vm_compute; reflexivity).
  destruct (ParseSuperblock sample_state) as [P s'|e s'|f]; [|discriminate Hc|discriminate Hc].
  rewrite !andb_true_iff in Hc. destruct Hc as [[[H1%Z.eqb_eq H2%negb_true_iff] H3%negb_true_iff] H4%Z.leb_le].
  split; [exact H1|]. intros rounds. exact (ext4_open_many_groups_hangs P H2 H3 H4 rounds s').
Defined.
End WitnessMany.
