(* ===== verification/Ext4Inode.v ===== *)
(** Reading an inode, and a file system from its superblock to the bytes of a file: the
    components of the driver together. *)
From Stdlib Require Import String.
From stdpp Require Import gmap.
From S2P Require Import Prelude OrderedCollection OrderedLib Base Buffer Overflow Platform PeImage CheckSum Ext4Disk Ext4Checksum Ext4BlockMap Ext4Extents Ext4Cache Ext4Tree Ext4Read Ext4Super Ext4SuperSpec.
#[local] Open Scope string_scope.
#[local] Open Scope list_scope.
#[local] Open Scope Z_scope.

Section InodeSpecs.
Context `{OC : !OrderedCollectionLib (loc * EXT4_EXTENT) Z, HPl : !Platform, HOk : !PlatformOk, HFw : !Firmware}.
Context (P : EXT4_PARTITION) (HP : PartitionOk P) (HG : GroupsOk P).

(** Where an inode is: its group and its index in it, the table of the group, the byte offset. *)
Definition inode_group (InodeNum : Z) : Z := (InodeNum - 1) / sbf "s_inodes_per_group" (SuperBlock P).
Definition inode_index (InodeNum : Z) : Z := (InodeNum - 1) mod sbf "s_inodes_per_group" (SuperBlock P).
Definition inode_table (Group : Z) : Z :=
  load 4 (group_desc P Group) 8 + if EXT4_IS_64_BIT P then load 4 (group_desc P Group) 40 * 2 ^ 32 else 0.
Definition inode_offset (InodeNum : Z) : Z :=
  wrap 64 (inode_table (inode_group InodeNum) * BlockSize P + inode_index InodeNum * InodeSize P).

(** The inodes that exist. *)
Definition inode_exists (InodeNum : Z) : Prop :=
  0 < InodeNum <= sbf "s_inodes_count" (SuperBlock P) ∧ inode_group InodeNum < NumberBlockGroups P.

(** The inode in memory: what is on the disk, and zeros where the on-disk inode is shorter. *)
Definition inode_of (data : list Z) : list Z := write_bytes (zeros (Z.max (InodeSize P) SIZEOF_EXT4_INODE)) 0 data.

Definition inode_valid (Inode : list Z) (InodeNum : Z) : bool :=
  negb (EXT4_HAS_METADATA_CSUM P) || inode_checksum_matches P Inode InodeNum.

Definition inode_error (InodeNum : Z) (e : RETURN_STATUS) : Prop :=
  (e = RETURN_VOLUME_CORRUPTED ∧ ¬ inode_exists InodeNum) ∨ e = RETURN_OUT_OF_RESOURCES ∨
  (∃ t, ReadDisk t (inode_offset InodeNum) (InodeSize P) = inl e) ∨
  e = RETURN_VOLUME_CORRUPTED ∧ ∃ t data, ReadDisk t (inode_offset InodeNum) (InodeSize P) = inr data ∧
    inode_valid (inode_of data) InodeNum = false.

Lemma zero_inode (b : bool) n :
  0 <= n → (b = true → 130 <= n) →
  (if b then write_bytes (zeros n) (offset_of EXT4_INODE "i_extra_isize") (le_bytes 2 0) else zeros n) = zeros n.
Proof.
  intros Hn Hb. destruct b; [|done]. specialize (Hb eq_refl). layouts. change (le_bytes 2 0) with (zeros 2).
  assert (size (zeros 2) = 2) as H2 by done. assert (size (zeros n) = n) as Hz by (apply size_zeros; lia). apply buffer_ext.
  - by rewrite size_write_bytes by lia.
  - intros i _. rewrite byte_at_write_bytes by lia. rewrite !byte_at_zeros. by destruct (_ && _).
Qed.

Lemma Ext4AllocateInode_spec s :
  wp (Ext4AllocateInode P)
    (λ r s', match r with
       | None => s' ≡ s
       | Some (x, Inode) => allocated x (Z.max (InodeSize P) SIZEOF_EXT4_INODE) s s' ∧
           Inode = zeros (Z.max (InodeSize P) SIZEOF_EXT4_INODE)
       end) (λ _ _, False) s.
Proof using HP.
  pose proof (po_inode P HP) as Hi. unfold EXT4_GOOD_OLD_INODE_SIZE in Hi. unfold Ext4AllocateInode, SIZEOF_EXT4_INODE.
  replace (if InodeSize P <? 160 then 160 else InodeSize P) with (Z.max (InodeSize P) 160) by (destruct (Z.ltb_spec (InodeSize P) 160); lia).
  apply wp_bind, wp_AllocateBuffer; [|by intros; apply wp_ret].
  intros x Hx. apply AllocatePool_fresh in Hx as (_ & _ & _ & Hx). apply wp_ret.
  split; [done|]. apply zero_inode; [lia|]. lia.
Qed.

Lemma Ext4CheckInodeChecksum_exact Inode InodeNum (s : ext4) :
  bytes Inode → size Inode = Z.max (InodeSize P) SIZEOF_EXT4_INODE → (InodeSize P < 132 → has_checksum_hi Inode = false) →
  Ext4CheckInodeChecksum P Inode InodeNum s = Ok (inode_valid Inode InodeNum) s.
Proof using HP HOk.
  intros Hb Hs Hh. unfold inode_valid. destruct (EXT4_HAS_METADATA_CSUM P) eqn:Hc.
  - by apply Ext4CheckInodeChecksum_spec.
  - unfold Ext4CheckInodeChecksum. by rewrite Hc.
Qed.

(** An inode that was read is as the other operations expect it. *)
Lemma inode_of_ok data :
  size data = InodeSize P → bytes data →
  size (inode_of data) = Z.max (InodeSize P) SIZEOF_EXT4_INODE ∧ bytes (inode_of data) ∧
  (InodeSize P < 132 → has_checksum_hi (inode_of data) = false).
Proof using HP.
  intros Hs Hb. pose proof (po_inode P HP) as Hi. unfold EXT4_GOOD_OLD_INODE_SIZE in Hi. unfold inode_of, SIZEOF_EXT4_INODE.
  assert (size (zeros (Z.max (InodeSize P) 160)) = Z.max (InodeSize P) 160) as Hz by (apply size_zeros; lia).
  split; [by rewrite size_write_bytes by lia|]. split; [by apply bytes_write_bytes; [apply bytes_zeros|]|].
  intros Hsmall. assert (InodeSize P = 128) as H128 by (pose proof (po_inode_aligned P HP); pose proof (Z.div_mod (InodeSize P) 4); lia).
  unfold has_checksum_hi. rewrite load_write_disjoint by lia. rewrite H128. by vm_compute.
Qed.

Lemma inode_offset_wraps n :
  wrap 64 (MultU64x32 (inode_table (inode_group n)) (BlockSize P) + MultU64x32 (inode_index n) (InodeSize P)) = inode_offset n.
Proof. unfold inode_offset, MultU64x32, wrap. by rewrite <- Z.add_mod by lia. Qed.

(** The table of a group, from its descriptor. *)
Lemma wp_InodeTable Group (Q : Z → ext4 → Prop) E s :
  0 <= Group < NumberBlockGroups P → Q (inode_table Group) s →
  wp (InodeTable P (Ext4GetBlockGroupDesc P Group)) Q E s.
Proof using HP HG.
  intros Hg HQ. destruct (Ext4GetBlockGroupDesc_spec P Group HP HG Hg) as (-> & Hb & Hs). pose proof (po_desc P HP) as Hd.
  unfold EXT4_OLD_BLOCK_DESC_SIZE in Hd. pose proof (gr_desc64 P HG) as H64. unfold EXT4_64BIT_BLOCK_DESC_SIZE in H64.
  apply wp_bind. unfold InodeTable, rd_field. layouts. apply wp_rd; [lia|lia|]. apply wp_bind.
  eapply wp_mono with (Q := λ hi s', s' = s ∧ u32 hi ∧ (EXT4_IS_64_BIT P = true → hi = load 4 (group_desc P Group) 40)) (E := λ _ _, False); [| |done].
  - destruct (EXT4_IS_64_BIT P); [|by apply wp_ret]. apply wp_rd; [lia|specialize (H64 eq_refl); lia|].
    split; [done|]. split; [by apply (load_range 4)|done].
  - intros hi s' (-> & Hhi & Hex). apply wp_ret. rewrite block_nr_halfs by (done || by apply (load_range 4)).
    unfold inode_table in HQ. destruct (EXT4_IS_64_BIT P); [rewrite Hex by done|]; exact HQ.
Qed.

Lemma Ext4ReadInode_spec InodeNum s :
  u32 InodeNum →
  wp (Ext4ReadInode P InodeNum)
    (λ r s', allocated r.1 (size r.2) s s' ∧ inode_exists InodeNum ∧ FileOk P (mkFile r.2 InodeNum) ∧
       inode_valid r.2 InodeNum = true ∧
       ∃ t data, ReadDisk t (inode_offset InodeNum) (InodeSize P) = inr data ∧ r.2 = inode_of data)
    (λ e s', s' ≡ s ∧ inode_error InodeNum e) s.
Proof using HP HG HOk.
  intros HN. pose proof (po_super P HP) as Hsb. pose proof (po_super_bytes P HP) as Hsbb.
  pose proof (gr_inodes P HG) as Hino. pose proof (sbf_range _ Hsbb "s_inodes_per_group" 4 eq_refl) as Hino32. unfold is_uint in Hino32, HN.
  apply wp_bind. apply wp_bind. apply wp_sb_field; [done|by vm_compute|by vm_compute|]. apply wp_ret. apply wp_bind, wp_fail_if.
  { intros Hbad%negb_true_iff. split; [done|]. left. split; [done|]. intros [[H1 H2] _].
    apply Z.ltb_lt in H1. apply Z.leb_le in H2. by rewrite H1, H2 in Hbad. }
  intros [H1%Z.ltb_lt H2%Z.leb_le]%negb_false_iff%andb_true_iff.
  apply wp_bind. apply wp_sb_field; [done|by vm_compute|by vm_compute|]. apply wp_bind. unfold DivU64x64Remainder.
  apply wp_bind, wp_require; [by apply negb_true_iff, Z.eqb_neq|]. apply wp_ret. rewrite (wrap_small 32 (InodeNum - 1)) by (unfold is_uint; lia).
  fold (inode_group InodeNum) (inode_index InodeNum).
  assert (0 <= inode_group InodeNum <= InodeNum - 1) as Hgr
    by (unfold inode_group; split; [apply Z.div_pos; lia|apply Z.div_le_upper_bound; nia]).
  rewrite (wrap_small 32 (inode_group InodeNum)) by (unfold is_uint; lia). apply wp_bind, wp_fail_if.
  { intros Hbad%Z.leb_le. split; [done|]. left. split; [done|]. intros [_ Hlt]. lia. }
  intros Hlt%Z.leb_gt. assert (inode_exists InodeNum) as Hex by done.
  apply wp_bind. eapply wp_mono; [apply Ext4AllocateInode_spec| |done]. intros [[x Inode]|] s1 Hr.
  2: { apply wp_raise. split; [done|]. right. by left. }
  destruct Hr as [Ha ->]. apply wp_bind, wp_InodeTable; [lia|]. rewrite inode_offset_wraps.
  pose proof (po_inode P HP) as Hi. unfold EXT4_GOOD_OLD_INODE_SIZE in Hi.
  apply wp_bind, wp_attempt, wp_Ext4ReadDiskIo; [rewrite size_zeros; unfold SIZEOF_EXT4_INODE; lia| |].
  2: { intros e He. eapply wp_free_allocated; [apply allocated_tick, Ha|]. intros s2 Hs2. split; [done|]. right. right. left. by eexists. }
  intros data Hrd Hs Hb. fold (inode_of data). destruct (inode_of_ok data Hs Hb) as (Hsi & Hbi & Hh).
  apply wp_bind. eapply wp_intro_ok; [by apply Ext4CheckInodeChecksum_exact|].
  destruct (inode_valid (inode_of data) InodeNum) eqn:Hv.
  - apply wp_ret. cbn [fst snd]. rewrite Hsi. split; [by apply allocated_tick|]. split; [done|]. split; [by split|]. split; [done|]. by eexists _, _.
  - eapply wp_free_allocated; [apply allocated_tick, Ha|]. intros s2 Hs2. split; [done|]. right. right. right. split; [done|]. by eexists _, _.
Qed.
End InodeSpecs.

(** On an open partition Ext4ReadInode never faults and terminates for every inode number and
    every disk.  The inode it returns is the one on the disk: InodeSize bytes at the place the
    descriptor of its group and its index in the group give, followed by zeros, with a valid
    checksum; only its buffer stays allocated.  It fails only if there is no such inode, memory
    runs out, the disk fails or the checksum is wrong, and then leaves nothing allocated. *)
Theorem ext4_read_inode_exact `{OC : !OrderedCollectionLib (loc * EXT4_EXTENT) Z, !Platform, !PlatformOk, !Firmware}
    (P : EXT4_PARTITION) (HP : PartitionOk P) (HG : GroupsOk P) (InodeNum : Z) (HN : u32 InodeNum) (s : ext4) :
  match Ext4ReadInode P InodeNum s with
  | Ok (x, Inode) s' => allocated x (size Inode) s s' ∧ inode_exists P InodeNum ∧ FileOk P (mkFile Inode InodeNum) ∧
      inode_valid P Inode InodeNum = true ∧
      ∃ t data, ReadDisk t (inode_offset P InodeNum) (InodeSize P) = inr data ∧ Inode = inode_of P data
  | Err e s' => s' ≡ s ∧ inode_error P InodeNum e
  | Fault _ => False
  end.
Proof.
  pose proof (wp_cases _ _ _ _ (Ext4ReadInode_spec P HP HG InodeNum s HN)) as Hs.
  by destruct (Ext4ReadInode P InodeNum s) as [[x Inode] s'|e s'|f].
Qed.

(** ** From the superblock to the bytes of a file *)

Section Mount.
Context `{OC : !OrderedCollectionLib (loc * EXT4_EXTENT) Z, HPl : !Platform, HOk : !PlatformOk, HFw : !Firmware}.

(** What the driver does to read a file whose inode number it knows. *)
Definition mount_and_read (InodeNum : Z) (Buffer : list Z) (Offset Length : Z) : M ext4 (EXT4_PARTITION * EXT4_FILE * list Z * Z) :=
  '(P, _) ← OpenSuperblock;
  '(_, Inode) ← Ext4ReadInode P InodeNum;
  Ext4InitExtentsMap;;
  let F := mkFile Inode InodeNum in
  '(Buffer, n) ← Ext4Read P F Buffer Offset Length;
  mret (P, F, Buffer, n).

(** Blocks of at most 64 KiB. *)
Definition blocks_fit (s : ext4) : Prop :=
  ∀ Sb P, superblock_read (Clock s) (inr Sb) → Parsed Sb P → BlockSize P <= 65536.

Lemma allocated_pool x n s s' : allocated x n s s' → ExtentPool s' = ExtentPool s.
Proof. by intros [_ (_ & -> & _)]. Qed.

Lemma Opened_block s P : blocks_fit s → Opened s P → BlockSize P <= 65536.
Proof. intros Hb HP. exact (Hb _ _ (op_super s P HP) (op_parsed s P HP)). Qed.

Lemma mount_and_read_spec InodeNum Buffer Offset Length s :
  groups_fit s → blocks_fit s → ExtentPool s = ∅ → u32 InodeNum →
  0 <= Offset → 0 <= Length < 2 ^ UINTN_WIDTH → Length <= size Buffer →
  wp (mount_and_read InodeNum Buffer Offset Length)
    (λ '(P, F, Buffer', n) s', Opened s P ∧ inode_exists P InodeNum ∧ FileOk P F ∧ Sound P F s' ∧
       n = read_length F Offset Length ∧ chunk (file_byte P F) Offset Buffer 0 n Buffer')
    (λ _ _, True) s.
Proof using HOk.
  intros Hfit Hbl Hpool HN HO HL Hsz. apply wp_bind. eapply wp_mono; [by apply OpenSuperblock_spec| |done].
  intros [P x] s1 [HP Ha1]. cbn [fst snd] in *. pose proof (op_ok s P HP) as HPo.
  apply wp_bind. eapply wp_mono; [by apply (Ext4ReadInode_spec P HPo (op_groups s P HP))| |done].
  intros [y Inode] s2 (Ha2 & Hex & HF & _). cbn [fst snd] in *.
  apply wp_bind. eapply wp_mono; [apply Ext4InitExtentsMap_spec; by rewrite (allocated_pool _ _ _ _ Ha2), (allocated_pool _ _ _ _ Ha1)| |done].
  intros [] s3 (HC & Hempty & _). apply wp_bind.
  eapply wp_mono; [apply (Ext4Read_spec P HPo _ HF (Opened_block s P Hbl HP)); [by apply Sound_empty|done..]| |done].
  intros [Buffer' n] s4 ((Hs & _) & _ & Hn & Hc). apply wp_ret. by split_and!.
Qed.
End Mount.

(** C32. The whole path from the superblock to the bytes of a file is safe for every disk with
    blocks of at most 64 KiB and groups that fit 32 bits: opening the file system, reading an
    inode and reading from the file never fault and terminate, whatever the disk holds and
    whenever it or the allocator fails.  If they succeed, as many bytes are returned as the file
    has left, each a zero or read where an extent of that file is. *)
Theorem ext4_mount_and_read_safe `{OC : !OrderedCollectionLib (loc * EXT4_EXTENT) Z, !Platform, !PlatformOk, !Firmware}
    (s : ext4) (Hfit : groups_fit s) (Hbl : blocks_fit s) (Hpool : ExtentPool s = ∅) (InodeNum : Z) (HN : u32 InodeNum)
    (Buffer : list Z) (Offset Length : Z) (HO : 0 <= Offset) (HL : 0 <= Length < 2 ^ UINTN_WIDTH) (Hsz : Length <= size Buffer) :
  match mount_and_read InodeNum Buffer Offset Length s with
  | Ok (P, F, Buffer', n) s' => Opened s P ∧ inode_exists P InodeNum ∧ FileOk P F ∧ Sound P F s' ∧
      n = Z.min Length (file_size F - Offset) ∧
      ∃ data, Buffer' = write_bytes Buffer 0 data ∧ size data = n ∧ bytes data ∧
        ∀ j, 0 <= j < n → file_byte P F (Offset + j) (byte_at data j)
  | Err _ _ => True
  | Fault _ => False
  end.
Proof.
  pose proof (wp_cases _ _ _ _ (mount_and_read_spec InodeNum Buffer Offset Length s Hfit Hbl Hpool HN HO HL Hsz)) as Hs.
  by destruct (mount_and_read InodeNum Buffer Offset Length s) as [[[[P F] Buffer'] n] s'|e s'|f].
Qed.

(** ** A file system with a file *)

Section Witness.
#[local] Existing Instance platform_x64.
#[local] Existing Instance platform_x64_ok.
#[local] Existing Instance sample_collections.

(** Inode 3 has six bytes; block 7 has the first four of them. *)
Definition file_disk : Z → Z :=
  sample_volume (sample_superblock small_fields) (write_bytes (zeros 1024) 8 (le_bytes 4 5))
    (write_bytes (write_bytes (zeros 4096) 512 (Inode (inline_file 6 [mkExtent 0 1 0 7]))) 2048 [100; 97; 116; 97]).

#[local] Instance file_firmware : Firmware := sample_firmware file_disk.

Lemma file_disk_superblock Sb : superblock_read (Clock sample_state) (inr Sb) → Sb = disk_bytes file_disk 1024 1024.
Proof. unfold superblock_read. cbn. by intros [= <-]. Qed.

Lemma file_groups_fit : groups_fit sample_state.
Proof.
  apply groups_fit_32bit. intros Sb P ->%file_disk_superblock HP. unfold EXT4_IS_64_BIT. rewrite (ps_incompat _ P HP). by vm_compute.
Qed.

Lemma file_blocks_fit : blocks_fit sample_state.
Proof. intros Sb P ->%file_disk_superblock HP. rewrite (ps_block _ P HP). by vm_compute. Qed.

Lemma ext4_mount_and_read_safe_witness :
  match mount_and_read 3 (replicate 8 7) 1 8 sample_state with
  | Ok (P, F, Buffer, n) s' => Opened sample_state P ∧ Sound P F s' ∧ Buffer = [97; 116; 97; 0; 0; 7; 7; 7] ∧ n = 5
  | _ => False
  end.
Proof.
  pose proof (ext4_mount_and_read_safe sample_state file_groups_fit file_blocks_fit eq_refl 3 ltac:(by vm_compute)
    (replicate 8 7) 1 8 ltac:(by vm_compute) ltac:(by vm_compute) ltac:(by vm_compute)) as Hs.
  assert (match mount_and_read 3 (replicate 8 7) 1 8 sample_state with
          | Ok (_, _, Buffer, n) _ => bool_decide ((Buffer, n) = ([97; 116; 97; 0; 0; 7; 7; 7], 5)) | _ => false end = true) as Hc
    by (vm_compute; reflexivity).
  destruct (mount_and_read _ _ _ _ _) as [[[[P F] Buffer] n] s'|e s'|f]; [|discriminate Hc|discriminate Hc].
  apply bool_decide_eq_true_1 in Hc. injection Hc as -> ->. destruct Hs as (HP & _ & _ & HS & _). done.
Defined.

Lemma ext4_read_inode_exact_witness :
  match OpenSuperblock sample_state with
  | Ok (P, _) s => match Ext4ReadInode P 9 s with Err e s' => s' ≡ s ∧ e = RETURN_VOLUME_CORRUPTED | _ => False end
  | _ => False
  end.
Proof.
  pose proof (wp_cases _ _ _ _ (OpenSuperblock_spec sample_state file_groups_fit)) as Hs.
  assert (match OpenSuperblock sample_state with
          | Ok (P, _) s => match Ext4ReadInode P 9 s with Err e _ => bool_decide (e = RETURN_VOLUME_CORRUPTED) | _ => false end
          | _ => false end = true) as Hc by (vm_compute; reflexivity).
  destruct (OpenSuperblock sample_state) as [[P x] s|e s|f]; [|discriminate Hc|discriminate Hc]. destruct Hs as [HP _].
  pose proof (ext4_read_inode_exact P (op_ok _ _ HP) (op_groups _ _ HP) 9 ltac:(by vm_compute) s) as Hi.
  destruct (Ext4ReadInode P 9 s) as [a s'|e s'|f]; [discriminate Hc| |discriminate Hc].
  apply bool_decide_eq_true_1 in Hc. split; [apply Hi|exact Hc].
Defined.
End Witness.
