(* ===== verification/Ext4Info.v ===== *)
(** What an inode says of a file: its type, the space it takes and its times (the rest of
    Ext4Pkg/Ext4Dxe/Inode.c). *)
From Stdlib Require Import String.
From stdpp Require Import gmap.
From S2P Require Import Prelude OrderedCollection OrderedLib Base Buffer Overflow Platform PeImage CheckSum Ext4Disk Ext4Checksum.
#[local] Open Scope string_scope.
#[local] Open Scope list_scope.
#[local] Open Scope Z_scope.

Definition EXT4_INO_TYPE_DIR : Z := 0x4000.
Definition EXT4_INO_TYPE_BLOCKDEV : Z := 0x6000.
Definition EXT4_INO_TYPE_REGFILE : Z := 0x8000.
Definition EXT4_INO_TYPE_SYMLINK : Z := 0xA000.
Definition EXT4_INO_TYPE_UNIX_SOCK : Z := 0xC000.
Definition EXT4_HUGE_FILE_FL : Z := 0x00040000.

(** The time abstraction of UEFI, without its padding. *)
Record EFI_TIME := mkTime {
  Year : Z;
  Month : Z;
  Day : Z;
  Hour : Z;
  Minute : Z;
  Second : Z;
  Nanosecond : Z;
  TimeZone : Z;
  Daylight : Z;
}.

Section Info.
Context `{HPl : !Platform} {T : Type}.

Abbreviation inode_field f File := (rd_field EXT4_INODE f (Inode File) 0).

(** ** File types *)

Definition Ext4FileIsDir (File : EXT4_FILE) : M T bool :=
  i_mode ← inode_field "i_mode" File;
  mret (Z.land i_mode EXT4_INO_TYPE_DIR =? EXT4_INO_TYPE_DIR).

Definition Ext4FileIsSymlink (File : EXT4_FILE) : M T bool :=
  i_mode ← inode_field "i_mode" File;
  mret (Z.land i_mode EXT4_INO_TYPE_SYMLINK =? EXT4_INO_TYPE_SYMLINK).

Definition Ext4FileIsReg (File : EXT4_FILE) : M T bool :=
  i_mode ← inode_field "i_mode" File;
  mret (Z.land i_mode EXT4_INO_TYPE_REGFILE =? EXT4_INO_TYPE_REGFILE).

(** ** Space *)

Definition Ext4FilePhysicalSpace (Partition : EXT4_PARTITION) (File : EXT4_FILE) : M T Z :=
  let HugeFile := EXT4_HAS_RO_COMPAT Partition EXT4_FEATURE_RO_COMPAT_HUGE_FILE in
  Blocks ← inode_field "i_blocks" File;
  if HugeFile then
    l_i_blocks_high ← inode_field "l_i_blocks_high" File;
    let Blocks := Z.lor Blocks (LShiftU64 l_i_blocks_high 32) in
    i_flags ← inode_field "i_flags" File;
    if negb (Z.land i_flags EXT4_HUGE_FILE_FL =? 0) then mret (MultU64x32 Blocks (BlockSize Partition))
    else mret (MultU64x32 Blocks 512)
  else mret (MultU64x32 Blocks 512).

(** ** Times *)

(** The fields the conversion writes; the others keep what is in the caller's structure. *)
Definition EpochToEfiTime (EpochSeconds : Z) (Time : EFI_TIME) : EFI_TIME :=
  let J := wrapn (EpochSeconds / 86400 + 2440588) in
  let j := wrapn (J + 32044) in
  let g := j / 146097 in
  let dg := j mod 146097 in
  let c := wrapn ((dg / 36524 + 1) * 3) / 4 in
  let dc := wrapn (dg - c * 36524) in
  let b := dc / 1461 in
  let db := dc mod 1461 in
  let a := wrapn ((db / 365 + 1) * 3) / 4 in
  let da := wrapn (db - a * 365) in
  let y := wrapn (g * 400 + c * 100 + b * 4 + a) in
  let m := wrapn (wrapn (da * 5 + 308) / 153 - 2) in
  let d := wrapn (da - wrapn ((m + 4) * 153) / 5 + 122) in
  let ss := EpochSeconds mod 60 in
  let a := (EpochSeconds - ss) / 60 in
  let mm := a mod 60 in
  let b := (a - mm) / 60 in
  let hh := b mod 24 in
  mkTime (wrap 16 (wrapn (y - 4800 + (m + 2) / 12))) (wrap 8 ((m + 2) mod 12 + 1)) (wrap 8 (d + 1))
    (wrap 8 hh) (wrap 8 mm) (wrap 8 ss) 0 (TimeZone Time) (Daylight Time).

Definition EXT4_EXTRA_TIMESTAMP_MASK : Z := Z.shiftl 1 2 - 1.

(** EXT4_FILE_GET_TIME_GENERIC *)
Definition Ext4FileGetTime (Field Extra : string) (File : EXT4_FILE) (Time : EFI_TIME) : M T EFI_TIME :=
  SecondsEpoch ← inode_field Field File;
  HasExtra ← EXT4_INODE_HAS_FIELD (Inode File) Extra;
  '(SecondsEpoch, Nanoseconds) ←
    if (HasExtra : bool) then
      extra ← inode_field Extra File;
      mret (Z.lor SecondsEpoch (LShiftU64 (Z.land extra EXT4_EXTRA_TIMESTAMP_MASK) 32), Z.shiftr extra 2)
    else mret (SecondsEpoch, 0);
  let Time := EpochToEfiTime (wrapn SecondsEpoch) Time in
  mret (mkTime (Year Time) (Month Time) (Day Time) (Hour Time) (Minute Time) (Second Time) Nanoseconds (TimeZone Time) (Daylight Time)).

Definition Ext4FileATime : EXT4_FILE → EFI_TIME → M T EFI_TIME := Ext4FileGetTime "i_atime" "i_atime_extra".
Definition Ext4FileMTime : EXT4_FILE → EFI_TIME → M T EFI_TIME := Ext4FileGetTime "i_mtime" "i_mtime_extra".
Definition Ext4FileCrTime : EXT4_FILE → EFI_TIME → M T EFI_TIME := Ext4FileGetTime "i_crtime" "i_crtime_extra".

Definition Ext4FileCreateTime (File : EXT4_FILE) (Time : EFI_TIME) : M T EFI_TIME :=
  HasField ← EXT4_INODE_HAS_FIELD (Inode File) "i_crtime";
  if negb HasField then mret (mkTime 0 0 0 0 0 0 0 0 0) else Ext4FileCrTime File Time.
End Info.

(** ** The calendar *)

(** The Gregorian calendar: leap years, the days before a year and before a month. *)
Definition leap (y : Z) : bool := (y mod 4 =? 0) && (negb (y mod 100 =? 0) || (y mod 400 =? 0)).
Definition month_days (y m : Z) : Z :=
  if m =? 2 then (if leap y then 29 else 28)
  else if (m =? 4) || (m =? 6) || (m =? 9) || (m =? 11) then 30 else 31.
Definition days_before_year (y : Z) : Z := 365 * y + (y + 3) / 4 - (y + 99) / 100 + (y + 399) / 400.
Definition days_before_month (y m : Z) : Z := foldr (λ k acc, month_days y k + acc) 0 (seqZ 1 (m - 1)).

(** Days since January 1, 1970 of a date. *)
Definition days_of_date (y m d : Z) : Z := days_before_year y - days_before_year 1970 + days_before_month y m + (d - 1).

Definition valid_date (y m d : Z) : Prop := 1 <= m <= 12 ∧ 1 <= d <= month_days y m.

Lemma leap_cycle y g : leap (y + 400 * g) = leap y.
Proof.
  unfold leap. replace ((y + 400 * g) mod 4) with (y mod 4) by (rewrite <- (Z_mod_plus_full y (100 * g) 4); f_equal; lia).
  replace ((y + 400 * g) mod 100) with (y mod 100) by (rewrite <- (Z_mod_plus_full y (4 * g) 100); f_equal; lia).
  by replace ((y + 400 * g) mod 400) with (y mod 400) by (rewrite <- (Z_mod_plus_full y g 400); f_equal; lia).
Qed.

Lemma month_days_cycle y g m : month_days (y + 400 * g) m = month_days y m.
Proof. unfold month_days. by rewrite leap_cycle. Qed.

Lemma days_cycle y g m d : days_of_date (y + 400 * g) m d = days_of_date y m d + 146097 * g.
Proof.
  unfold days_of_date. replace (days_before_month (y + 400 * g) m) with (days_before_month y m).
  2: { unfold days_before_month. induction (seqZ 1 (m - 1)) as [|k l IH]; [done|]. cbn. by rewrite month_days_cycle, IH. }
  unfold days_before_year. replace (y + 400 * g + 3) with (y + 3 + 100 * g * 4) by lia.
  replace (y + 400 * g + 99) with (y + 99 + 4 * g * 100) by lia. replace (y + 400 * g + 399) with (y + 399 + g * 400) by lia.
  rewrite !Z_div_plus_full by lia. lia.
Qed.

(** The year begins where the one before it ends. *)
Lemma days_before_year_succ y : days_before_year (y + 1) = days_before_year y + if leap y then 366 else 365.
Proof.
  unfold days_before_year, leap.
  pose proof (Z.div_mod y 4 ltac:(lia)). pose proof (Z.mod_pos_bound y 4 ltac:(lia)). pose proof (Z.div_mod y 100 ltac:(lia)).
  pose proof (Z.mod_pos_bound y 100 ltac:(lia)). pose proof (Z.div_mod y 400 ltac:(lia)). pose proof (Z.mod_pos_bound y 400 ltac:(lia)).
  assert (∀ n, 0 < n → (y + 1 + (n - 1)) / n = (y + (n - 1)) / n + if y mod n =? 0 then 1 else 0) as Hn.
  { intros n Hn. pose proof (Z.div_mod y n). pose proof (Z.mod_pos_bound y n). destruct (Z.eqb_spec (y mod n) 0) as [Hz|Hz].
    - rewrite <- (Z.div_unique (y + 1 + (n - 1)) n (y / n + 1) 0), <- (Z.div_unique (y + (n - 1)) n (y / n) (n - 1)); lia.
    - rewrite <- (Z.div_unique (y + 1 + (n - 1)) n (y / n + 1) (y mod n)), <- (Z.div_unique (y + (n - 1)) n (y / n + 1) (y mod n - 1)); lia. }
  replace (y + 1 + 3) with (y + 1 + (4 - 1)) by lia. replace (y + 1 + 99) with (y + 1 + (100 - 1)) by lia.
  replace (y + 1 + 399) with (y + 1 + (400 - 1)) by lia. rewrite !Hn by lia. clear Hn. change (4 - 1) with 3. change (100 - 1) with 99. change (400 - 1) with 399.
  destruct (Z.eqb_spec (y mod 4) 0), (Z.eqb_spec (y mod 100) 0), (Z.eqb_spec (y mod 400) 0); cbn -[Z.mul Z.add Z.sub Z.div Z.modulo]; lia.
Qed.

(** ** The conversion *)

(** The days before a month from a table. *)
Definition month_start (lp : bool) (m : Z) : Z :=
  nth (Z.to_nat (m - 1)) [0; 31; 59; 90; 120; 151; 181; 212; 243; 273; 304; 334] 0 + if lp && (2 <? m) then 1 else 0.

Lemma days_before_month_table y m : 1 <= m <= 12 → days_before_month y m = month_start (leap y) m.
Proof.
  intros Hm. assert (∃ n, (n < 12)%nat ∧ m = Z.of_nat n + 1) as (n & Hn & ->) by (exists (Z.to_nat (m - 1)); lia).
  unfold days_before_month, month_start, month_days. do 12 (destruct n as [|n]; [by destruct (leap y)|]). lia.
Qed.

(** Years that begin on March 1: the month [m] from March on, the day of the month, and whether
    January of the next year has been reached. *)
Definition month_of (da : Z) : Z := (da * 5 + 308) / 153 - 2.
Definition day_of (da : Z) : Z := da - (month_of da + 4) * 153 / 5 + 122 + 1.
Definition calendar_month (da : Z) : Z := (month_of da + 2) mod 12 + 1.

Definition march_day_ok (da : Z) : bool :=
  (0 <=? month_of da) && (month_of da <=? 11) && (1 <=? day_of da) &&
  if da <? 306 then
    ((month_of da + 2) / 12 =? 0) && (3 <=? calendar_month da) && (calendar_month da <=? 12) &&
    (day_of da <=? month_days 1 (calendar_month da)) && (month_start false (calendar_month da) + (day_of da - 1) =? 59 + da)
  else
    ((month_of da + 2) / 12 =? 1) && (1 <=? calendar_month da) && (calendar_month da <=? 2) &&
    (day_of da <=? if calendar_month da =? 1 then 31 else if da =? 365 then 29 else 28) &&
    (month_start false (calendar_month da) + (day_of da - 1) =? da - 306).

Lemma march_day da : 0 <= da < 366 → march_day_ok da = true.
Proof.
  intros Hda. assert (forallb march_day_ok (seqZ 0 366) = true) as Hall by by vm_compute.
  rewrite forallb_forall in Hall. apply Hall, list_elem_of_In, elem_of_seqZ. lia.
Qed.

(** The date of a day of such a year. *)
Lemma march_date y da :
  0 <= da < 366 → (da = 365 → leap (y + 1) = true) →
  let y' := y + (month_of da + 2) / 12 in
  valid_date y' (calendar_month da) (day_of da) ∧
  days_before_year y' + days_before_month y' (calendar_month da) + (day_of da - 1) = days_before_year (y + 1) - 306 + da.
Proof.
  intros Hda Hleap y'. pose proof (march_day da Hda) as Hok. unfold march_day_ok in Hok. subst y'.
  destruct (Z.ltb_spec da 306) as [Hlt|Hge]; rewrite !andb_true_iff, ?Z.leb_le, ?Z.eqb_eq in Hok;
    destruct Hok as (((H1 & H2) & H3) & (((H4 & H5) & H6) & H7) & H8); rewrite H4; (split; [split; [lia|split; [done|]]|]).
  - unfold month_days in *. destruct (Z.eqb_spec (calendar_month da) 2); [lia|done].
  - rewrite Z.add_0_r, days_before_year_succ, days_before_month_table by lia. unfold month_start in *. cbn [andb] in H8.
    rewrite (proj2 (Z.ltb_lt 2 _)) by lia. rewrite andb_true_r. destruct (leap y); lia.
  - unfold month_days. destruct (Z.eqb_spec (calendar_month da) 2) as [He|Hne].
    + rewrite He in H7. cbn in H7. destruct (Z.eqb_spec da 365) as [->|]; [by rewrite Hleap|]. destruct (leap (y + 1)); lia.
    + assert (calendar_month da = 1) as He by lia. rewrite He in *. exact H7.
  - rewrite days_before_month_table by lia. unfold month_start in *. rewrite (proj2 (Z.ltb_ge 2 _)) by lia. rewrite andb_false_r.
    cbn [andb] in H8. lia.
Qed.

Lemma month_days_max y m d : d <= month_days y m → d <= 31.
Proof. unfold month_days. repeat case_match; lia. Qed.

(** A day of the 400 years: the century, the four years, the year and the day in it. *)
Definition century_of (dg : Z) : Z := (dg / 36524 + 1) * 3 / 4.
Definition four_of (dg : Z) : Z := (dg - century_of dg * 36524) / 1461.
Definition rest_of (dg : Z) : Z := (dg - century_of dg * 36524) mod 1461.
Definition year_of (dg : Z) : Z := (rest_of dg / 365 + 1) * 3 / 4.
Definition march_of (dg : Z) : Z := rest_of dg - year_of dg * 365.

Lemma capped q : 0 <= q <= 4 → (q + 1) * 3 / 4 = Z.min q 3.
Proof. intros Hq. assert (q = 0 ∨ q = 1 ∨ q = 2 ∨ q = 3 ∨ q = 4) as [->|[->|[->|[->| ->]]]] by lia; done. Qed.

Lemma cycle_split dg :
  0 <= dg < 146097 →
  0 <= century_of dg <= 3 ∧ 0 <= four_of dg <= 24 ∧ 0 <= year_of dg <= 3 ∧ 0 <= march_of dg < 366 ∧
  0 <= dg - century_of dg * 36524 ∧ 0 <= rest_of dg ∧
  dg = 36524 * century_of dg + 1461 * four_of dg + 365 * year_of dg + march_of dg ∧
  (march_of dg = 365 → leap (100 * century_of dg + 4 * four_of dg + year_of dg + 1) = true).
Proof.
  intros Hdg. unfold march_of, four_of, rest_of in *. fold (rest_of dg) (four_of dg).
  pose proof (Z.div_mod dg 36524 ltac:(lia)) as Hq. pose proof (Z.mod_pos_bound dg 36524 ltac:(lia)) as Hq'.
  assert (century_of dg = Z.min (dg / 36524) 3) as Hc by (apply capped; lia).
  pose proof (Z.div_mod (dg - century_of dg * 36524) 1461 ltac:(lia)) as Hb. pose proof (Z.mod_pos_bound (dg - century_of dg * 36524) 1461 ltac:(lia)) as Hb'.
  fold (four_of dg) (rest_of dg) in Hb, Hb'.
  pose proof (Z.div_mod (rest_of dg) 365 ltac:(lia)) as Hr. pose proof (Z.mod_pos_bound (rest_of dg) 365 ltac:(lia)) as Hr'.
  assert (year_of dg = Z.min (rest_of dg / 365) 3) as Ha by (apply capped; lia).
  assert (0 <= century_of dg <= 3) by lia. assert (0 <= dg - century_of dg * 36524 <= 36524) by lia.
  assert (0 <= four_of dg <= 24) by lia. split_and!; [lia..|]. intros H365.
  assert (year_of dg = 3 ∧ rest_of dg = 1460) as [-> Hrest] by lia.
  replace (100 * century_of dg + 4 * four_of dg + 3 + 1) with (100 * century_of dg + 4 * (four_of dg + 1)) by lia.
  destruct (decide (four_of dg = 24)) as [H24|H24].
  - assert (century_of dg = 3) as -> by lia. rewrite H24. done.
  - unfold leap. replace (100 * century_of dg + 4 * (four_of dg + 1)) with (4 * (four_of dg + 1) + 25 * century_of dg * 4) at 1 by lia.
    rewrite Z_mod_plus_full. replace (4 * (four_of dg + 1)) with ((four_of dg + 1) * 4) at 1 by lia. rewrite Z.mod_mul by lia.
    replace (100 * century_of dg + 4 * (four_of dg + 1)) with (4 * (four_of dg + 1) + century_of dg * 100) by lia.
    rewrite Z_mod_plus_full. rewrite (Z.mod_small (4 * (four_of dg + 1)) 100) by lia.
    rewrite (proj2 (Z.eqb_neq (4 * (four_of dg + 1)) 0)) by lia. done.
Qed.

Lemma days_before_march c b a :
  0 <= c <= 3 → 0 <= b <= 24 → 0 <= a <= 3 → days_before_year (100 * c + 4 * b + a + 1) = 36524 * c + 1461 * b + 365 * a + 366.
Proof.
  intros Hc Hb Ha. unfold days_before_year.
  rewrite <- (Z.div_unique (100 * c + 4 * b + a + 1 + 3) 4 (25 * c + b + 1) a) by lia.
  rewrite <- (Z.div_unique (100 * c + 4 * b + a + 1 + 99) 100 (c + 1) (4 * b + a)) by lia.
  rewrite <- (Z.div_unique (100 * c + 4 * b + a + 1 + 399) 400 1 (100 * c + 4 * b + a)) by lia. lia.
Qed.

(** The date of a day counted from March 1, 4801 BC, as the code finds it. *)
Lemma epoch_date j :
  0 <= j → let g := j / 146097 in let dg := j mod 146097 in
  let y := 400 * g + 100 * century_of dg + 4 * four_of dg + year_of dg + (month_of (march_of dg) + 2) / 12 - 4800 in
  valid_date y (calendar_month (march_of dg)) (day_of (march_of dg)) ∧
  days_of_date y (calendar_month (march_of dg)) (day_of (march_of dg)) = j - 2472632.
Proof.
  intros Hj g dg. pose proof (Z.div_mod j 146097 ltac:(lia)) as Hjd. fold g dg in Hjd.
  assert (0 <= dg < 146097) as Hdg by (apply Z.mod_pos_bound; lia).
  destruct (cycle_split dg Hdg) as (Hc & Hb & Ha & Hm & _ & _ & Hsum & Hleap). cbv zeta.
  set (y0 := 100 * century_of dg + 4 * four_of dg + year_of dg) in *.
  destruct (march_date y0 (march_of dg) Hm Hleap) as [Hv Hd]. set (y' := y0 + (month_of (march_of dg) + 2) / 12) in *.
  replace (400 * g + 100 * century_of dg + 4 * four_of dg + year_of dg + (month_of (march_of dg) + 2) / 12 - 4800)
    with (y' + 400 * (g - 12)) by (unfold y', y0; lia).
  rewrite days_cycle. unfold valid_date. rewrite month_days_cycle. split; [exact Hv|]. unfold days_of_date.
  rewrite (days_before_march _ _ _ Hc Hb Ha : days_before_year (y0 + 1) = _) in Hd.
  change (days_before_year 1970) with 719528. lia.
Qed.

Lemma without_remainder x n : 0 < n → (x - x mod n) / n = x / n.
Proof. intros Hn. rewrite (Z.div_mod x n) at 1 by lia. replace (n * (x / n) + x mod n - x mod n) with (x / n * n) by lia. apply Z.div_mul. lia. Qed.

Section Times.
Context `{HPl : !Platform, HOk : !PlatformOk}.

Lemma wrapn_32 x : 0 <= x < 2 ^ 32 → wrapn x = x.
Proof using HOk. intros Hx. apply wrap_small. unfold is_uint. destruct platform_uintn as [->| ->]; lia. Qed.

(** Within the range of ext4's timestamps nothing wraps. *)
Lemma EpochToEfiTime_spec E t :
  0 <= E < 2 ^ 34 → let j := E / 86400 + 2472632 in let dg := j mod 146097 in
  EpochToEfiTime E t =
    mkTime (400 * (j / 146097) + 100 * century_of dg + 4 * four_of dg + year_of dg + (month_of (march_of dg) + 2) / 12 - 4800)
      (calendar_month (march_of dg)) (day_of (march_of dg)) (E / 3600 mod 24) (E / 60 mod 60) (E mod 60) 0 (TimeZone t) (Daylight t).
Proof using HOk.
  intros HE j dg. assert (0 <= E / 86400 < 200000) as Hday by (split; [apply Z.div_pos; lia|apply Z.div_lt_upper_bound; lia]).
  assert (0 <= dg < 146097) as Hdg by (apply Z.mod_pos_bound; lia).
  assert (16 <= j / 146097 <= 18) as Hg by (split; [apply Z.div_le_lower_bound; lia|apply Z.lt_succ_r, Z.div_lt_upper_bound; lia]).
  destruct (cycle_split dg Hdg) as (Hc & Hb & Ha & Hm & Hdc & Hdb & Hsum & _).
  destruct (proj1 (andb_true_iff _ _) (march_day _ Hm)) as [Hrange _]. rewrite !andb_true_iff, !Z.leb_le in Hrange.
  destruct Hrange as [[Hm0 Hm11] Hd1]. destruct (epoch_date j ltac:(lia)) as [[Hmon [_ Hdom]] _]. fold dg in Hmon, Hdom.
  unfold EpochToEfiTime. rewrite (wrapn_32 (E / 86400 + 2440588)) by lia.
  replace (wrapn (E / 86400 + 2440588 + 32044)) with j by (rewrite wrapn_32; lia). fold dg.
  assert (0 <= dg / 36524 <= 4) by (split; [apply Z.div_pos; lia|apply Z.lt_succ_r, Z.div_lt_upper_bound; lia]).
  rewrite (wrapn_32 ((dg / 36524 + 1) * 3)) by lia. fold (century_of dg). rewrite (wrapn_32 (dg - century_of dg * 36524)) by lia.
  fold (four_of dg) (rest_of dg). assert (0 <= rest_of dg / 365 <= 4) as Hr4.
  { assert (rest_of dg < 1461) by (apply Z.mod_pos_bound; lia). split; [apply Z.div_pos; lia|apply Z.lt_succ_r, Z.div_lt_upper_bound; lia]. }
  rewrite (wrapn_32 ((rest_of dg / 365 + 1) * 3)) by lia. fold (year_of dg).
  rewrite (wrapn_32 (rest_of dg - year_of dg * 365)) by (unfold march_of in Hm; lia). fold (march_of dg).
  rewrite (wrapn_32 (march_of dg * 5 + 308)) by lia. fold (month_of (march_of dg)).
  rewrite (wrapn_32 (month_of (march_of dg))) by lia.
  rewrite (wrapn_32 ((month_of (march_of dg) + 4) * 153)) by lia.
  assert (0 <= (month_of (march_of dg) + 2) / 12 <= 1) by (split; [apply Z.div_pos; lia|apply Z.lt_succ_r, Z.div_lt_upper_bound; lia]).
  pose proof (month_days_max _ _ _ Hdom) as Hd31. unfold day_of in Hd1, Hd31 |- *.
  rewrite (wrapn_32 (march_of dg - (month_of (march_of dg) + 4) * 153 / 5 + 122)) by lia.
  rewrite (wrapn_32 (j / 146097 * 400 + century_of dg * 100 + four_of dg * 4 + year_of dg)) by lia. rewrite wrapn_32 by lia.
  fold (calendar_month (march_of dg)).
  f_equal; [rewrite wrap_small; [lia|unfold is_uint; lia]|rewrite wrap_small; [done|unfold is_uint; unfold calendar_month in *; lia]|
    rewrite wrap_small; [done|unfold is_uint; lia]|..].
  all: rewrite ?without_remainder by lia.
  - rewrite Z.div_div by lia. apply wrap_small. unfold is_uint. pose proof (Z.mod_pos_bound (E / 3600) 24 ltac:(lia)).
    change (60 * 60) with 3600. lia.
  - apply wrap_small. unfold is_uint. pose proof (Z.mod_pos_bound (E / 60) 60 ltac:(lia)). lia.
  - apply wrap_small. unfold is_uint. pose proof (Z.mod_pos_bound E 60 ltac:(lia)). lia.
Qed.
End Times.

(** For every time an ext4 inode can hold, EpochToEfiTime gives the date of the Gregorian
    calendar: a valid month, day and time of day, which together are again that many seconds
    after the start of 1970. *)
Theorem ext4_time_exact `{!Platform, !PlatformOk} (E : Z) (t : EFI_TIME) (HE : 0 <= E < 2 ^ 34) :
  let r := EpochToEfiTime E t in
  valid_date (Year r) (Month r) (Day r) ∧ 0 <= Hour r < 24 ∧ 0 <= Minute r < 60 ∧ 0 <= Second r < 60 ∧
  ((days_of_date (Year r) (Month r) (Day r) * 24 + Hour r) * 60 + Minute r) * 60 + Second r = E.
Proof.
  cbv zeta. rewrite (EpochToEfiTime_spec E t HE). cbn [Year Month Day Hour Minute Second].
  assert (0 <= E / 86400) as Hday by (apply Z.div_pos; lia). destruct (epoch_date (E / 86400 + 2472632) ltac:(lia)) as [Hv ->].
  split; [exact Hv|]. split_and!; try (apply Z.mod_pos_bound; lia).
  pose proof (Z.div_mod E 60 ltac:(lia)). pose proof (Z.div_mod (E / 60) 60 ltac:(lia)) as Hm. pose proof (Z.div_mod (E / 3600) 24 ltac:(lia)) as Hh.
  rewrite Z.div_div in Hm, Hh by lia. change (60 * 60) with 3600 in Hm. change (3600 * 24) with 86400 in Hh. lia.
Qed.

(** The leap day of 2000, and the last second of the 32-bit range. *)
Lemma ext4_time_exact_witness :
  let t := mkTime 0 0 0 0 0 0 0 0 0 in
  @EpochToEfiTime platform_x64 951826554 t = mkTime 2000 2 29 12 15 54 0 0 0 ∧ days_of_date 2000 2 29 = 11016 ∧
  @EpochToEfiTime platform_x64 (2 ^ 32 - 1) t = mkTime 2106 2 7 6 28 15 0 0 0.
Proof.
  pose proof (@ext4_time_exact platform_x64 platform_x64_ok 951826554 (mkTime 0 0 0 0 0 0 0 0 0) ltac:(lia)) as (_ & _ & _ & _ & Hs).
  cbv zeta. split; [by vm_compute|]. split; [|by vm_compute].
  replace (@EpochToEfiTime platform_x64 951826554 (mkTime 0 0 0 0 0 0 0 0 0)) with (mkTime 2000 2 29 12 15 54 0 0 0) in Hs by by vm_compute.
  cbn [Year Month Day Hour Minute Second] in Hs. lia.
Defined.

(** ** What the getters read *)

Section Getters.
Context `{HPl : !Platform} {T : Type} (P : EXT4_PARTITION) (F : EXT4_FILE) (HF : FileOk P F).

Definition inof (f : string) : Z := load (field_size EXT4_INODE f) (Inode F) (offset_of EXT4_INODE f).

Lemma wp_inode_field f (Q : Z → T → Prop) E s :
  0 <= offset_of EXT4_INODE f → offset_of EXT4_INODE f + Z.of_nat (field_size EXT4_INODE f) <= 160 →
  Q (inof f) s → wp (rd_field EXT4_INODE f (Inode F) 0) Q E s.
Proof using HF. intros Ho Hf HQ. apply wp_rd; [lia|rewrite (fo_inode P F HF); unfold SIZEOF_EXT4_INODE; lia|exact HQ]. Qed.

(** Whether the inode records the upper half of a time. *)
Definition has_field (f : string) : bool :=
  offset_of EXT4_INODE f + Z.of_nat (field_size EXT4_INODE f) <=? inof "i_extra_isize" + EXT4_GOOD_OLD_INODE_SIZE.

(** The seconds since 1970 and the nanoseconds of a time field. *)
Definition timestamp (Field Extra : string) : Z * Z :=
  if has_field Extra then (inof Field + (inof Extra mod 4) * 2 ^ 32, inof Extra / 4) else (inof Field, 0).

Lemma Ext4FileGetTime_spec Field Extra t (s : T) :
  In (Field, Extra) [("i_atime", "i_atime_extra"); ("i_mtime", "i_mtime_extra"); ("i_crtime", "i_crtime_extra")] →
  let '(Seconds, Nanoseconds) := timestamp Field Extra in
  let r := EpochToEfiTime (wrapn Seconds) t in
  Ext4FileGetTime Field Extra F t s =
    Ok (mkTime (Year r) (Month r) (Day r) (Hour r) (Minute r) (Second r) Nanoseconds (TimeZone r) (Daylight r)) s.
Proof using HF.
  intros Hf. assert (∀ f, field_size EXT4_INODE f = 4%nat → u32 (inof f)) as H32.
  { intros f Hs. unfold inof. rewrite Hs. apply (load_range 4), (fo_inode_bytes P F HF). }
  assert (∀ x, x mod 4 * 2 ^ 32 < 2 ^ 64 ∧ 0 <= x mod 4 * 2 ^ 32) as H4 by (intros x; pose proof (Z.mod_pos_bound x 4); lia).
  destruct (timestamp Field Extra) as [Seconds Nanoseconds] eqn:Hts. cbv zeta. unfold timestamp in Hts.
  assert (∀ f, In f ["i_atime"; "i_atime_extra"; "i_mtime"; "i_mtime_extra"; "i_crtime"; "i_crtime_extra"] →
    0 <= offset_of EXT4_INODE f ∧ offset_of EXT4_INODE f + Z.of_nat (field_size EXT4_INODE f) <= 160 ∧ field_size EXT4_INODE f = 4%nat) as Hin.
  { intros f Hif. cbn in Hif. destruct Hif as [<-|[<-|[<-|[<-|[<-|[<-|[]]]]]]]; by vm_compute. }
  assert (In Field ["i_atime"; "i_atime_extra"; "i_mtime"; "i_mtime_extra"; "i_crtime"; "i_crtime_extra"] ∧
          In Extra ["i_atime"; "i_atime_extra"; "i_mtime"; "i_mtime_extra"; "i_crtime"; "i_crtime_extra"]) as [HF1 HE1].
  { cbn in Hf |- *. destruct Hf as [[= <- <-]|[[= <- <-]|[[= <- <-]|[]]]]; tauto. }
  destruct (Hin _ HF1) as (Ho1 & Hs1 & Hw1). destruct (Hin _ HE1) as (Ho2 & Hs2 & Hw2).
  apply wp_exact. apply wp_bind, wp_inode_field; [done|done|]. apply wp_bind. apply wp_bind, wp_inode_field; [by vm_compute|by vm_compute|].
  apply wp_ret. fold (has_field Extra). apply wp_bind. destruct (has_field Extra); injection Hts as <- <-.
  - apply wp_bind, wp_inode_field; [done|done|]. apply wp_ret. apply wp_ret.
    replace (Z.land (inof Extra) EXT4_EXTRA_TIMESTAMP_MASK) with (inof Extra mod 4) by (symmetry; apply (Z.land_ones _ 2); lia).
    rewrite Z.shiftr_div_pow2 by lia. unfold LShiftU64. rewrite wrap_small.
    + rewrite Z.lor_comm, lor_shiftl_add by (lia || by apply H32). by rewrite (Z.add_comm (_ * 2 ^ 32)).
    + unfold is_uint. rewrite Z.shiftl_mul_pow2 by lia. pose proof (H4 (inof Extra)). lia.
  - apply wp_ret. by apply wp_ret.
Qed.

(** The tests of the file type, for each type of inode: block devices and sockets count as
    directories, symbolic links and sockets as regular files. *)
Lemma file_type_tests type perm (s : T) :
  inof "i_mode" = type + perm → 0 <= perm < 4096 →
  In type [0x1000; 0x2000; EXT4_INO_TYPE_DIR; EXT4_INO_TYPE_BLOCKDEV; EXT4_INO_TYPE_REGFILE; EXT4_INO_TYPE_SYMLINK; EXT4_INO_TYPE_UNIX_SOCK] →
  Ext4FileIsDir F s = Ok (bool_decide (In type [EXT4_INO_TYPE_DIR; EXT4_INO_TYPE_BLOCKDEV; EXT4_INO_TYPE_UNIX_SOCK])) s ∧
  Ext4FileIsReg F s = Ok (bool_decide (In type [EXT4_INO_TYPE_REGFILE; EXT4_INO_TYPE_SYMLINK; EXT4_INO_TYPE_UNIX_SOCK])) s ∧
  Ext4FileIsSymlink F s = Ok (bool_decide (type = EXT4_INO_TYPE_SYMLINK)) s.
Proof using HF.
  intros Hm Hp Ht.
  assert (∀ mask, In mask [EXT4_INO_TYPE_DIR; EXT4_INO_TYPE_REGFILE; EXT4_INO_TYPE_SYMLINK] →
    Z.land (type + perm) mask = Z.land type mask) as Hland.
  { intros mask Hmask. assert (∃ k, type = Z.shiftl k 12 ∧ mask = Z.shiftl (mask / 4096) 12) as (k & -> & ->).
    { exists (type / 4096). cbn in Ht, Hmask. split; [destruct Ht as [<-|[<-|[<-|[<-|[<-|[<-|[<-|[]]]]]]]]|destruct Hmask as [<-|[<-|[<-|[]]]]]; done. }
    rewrite Z.shiftl_mul_pow2 at 1 by lia. rewrite <- (lor_shiftl_add k perm 12) by (lia || (unfold is_uint; lia)).
    rewrite Z.land_lor_distr_l. replace (Z.land perm (Z.shiftl (mask / 4096) 12)) with 0; [by rewrite Z.lor_0_r|].
    symmetry. apply Z.bits_inj'. intros n Hn. rewrite Z.land_spec, Z.bits_0. destruct (Z.lt_ge_cases n 12).
    - rewrite (Z.shiftl_spec_low _ 12 n) by lia. apply andb_false_r.
    - rewrite (Z.bits_above_log2 perm n); [done|lia|]. destruct (decide (perm = 0)) as [->|]; [cbn; lia|].
      apply Z.log2_lt_pow2; [lia|]. apply (Z.lt_le_trans _ (2 ^ 12)); [lia|apply Z.pow_le_mono_r; lia]. }
  assert (∀ mask, In mask [EXT4_INO_TYPE_DIR; EXT4_INO_TYPE_REGFILE; EXT4_INO_TYPE_SYMLINK] →
    wp (i_mode ← rd_field EXT4_INODE "i_mode" (Inode F) 0; mret (Z.land i_mode mask =? mask))
      (λ r s', r = (Z.land type mask =? mask) ∧ s' = s) (λ _ _, False) s) as Htest.
  { intros mask Hmask. apply wp_bind, wp_inode_field; [by vm_compute|by vm_compute|]. apply wp_ret. by rewrite Hm, Hland. }
  split_and!; (etrans; [apply wp_exact, Htest; cbn; tauto|]); f_equal; cbn in Ht;
    destruct Ht as [<-|[<-|[<-|[<-|[<-|[<-|[<-|[]]]]]]]]; by vm_compute.
Qed.
End Getters.
