(* ===== verification/Strings.v ===== *)
(** BaseLib's string functions (MdePkg/Library/BaseLib/String.c, SafeString.c) that file names
    go through.

    A string in memory is the list of the character codes from its address to the end of the
    object it is in, so that reading past that end is a fault.  The addresses of different
    objects do not overlap and are aligned, which is what the checks on addresses ask. *)
From stdpp Require Import list.
From S2P Require Import Prelude Base Buffer Platform.
#[local] Open Scope Z_scope.

(** The defaults of MdePkg.dec. *)
Definition PcdMaximumUnicodeStringLength : Z := 1000000.
Definition PcdMaximumAsciiStringLength : Z := 1000000.

Section Strings.
Context `{HPl : !Platform} {T : Type}.

(** [String[i]] and [String[i] = c]. *)
Definition char_at (String : list Z) (i : Z) : M T Z :=
  match String !! Z.to_nat i with Some c => mret c | None => crash OutOfBounds end.

Definition put_char (String : list Z) (i c : Z) : M T (list Z) :=
  require (i <? size String) OutOfBounds;; mret (<[Z.to_nat i := c]> String).

(** The loop of StrLen; it stops at the end of the object at the latest. *)
Fixpoint StrLenLoop (fuel : nat) (String : list Z) (Length : Z) : M T Z :=
  match fuel with
  | O => crash OutOfFuel
  | S k =>
      c ← char_at String Length;
      if c =? 0 then mret Length
      else
        ASSERT (Length <? PcdMaximumUnicodeStringLength);;
        StrLenLoop k String (Length + 1)
  end.

Definition StrLen (String : list Z) : M T Z := StrLenLoop (S (length String)) String 0.

Fixpoint StrnLenLoop (fuel : nat) (String : list Z) (MaxSize Length : Z) : M T Z :=
  match fuel with
  | O => crash OutOfFuel
  | S k =>
      c ← char_at String Length;
      if c =? 0 then mret Length
      else if MaxSize - 1 <=? Length then mret MaxSize
      else StrnLenLoop k String MaxSize (Length + 1)
  end.

(** StrnLenS, and AsciiStrnLenS, which has the same body. *)
Definition StrnLenS (String : list Z) (MaxSize : Z) : M T Z :=
  if MaxSize =? 0 then mret 0 else StrnLenLoop (S (length String)) String MaxSize 0.

Definition AsciiStrnLenS (String : list Z) (MaxSize : Z) : M T Z := StrnLenS String MaxSize.

(** The copy up to and with the terminator. *)
Fixpoint CopyLoop (fuel : nat) (Destination Source : list Z) (i : Z) : M T (list Z) :=
  match fuel with
  | O => crash OutOfFuel
  | S k =>
      c ← char_at Source i;
      Destination ← put_char Destination i c;
      if c =? 0 then mret Destination else CopyLoop k Destination Source (i + 1)
  end.

Definition StrCpyS (Destination : list Z) (DestMax : Z) (Source : list Z) : M T (list Z) :=
  fail_if (PcdMaximumUnicodeStringLength <? DestMax) RETURN_INVALID_PARAMETER;;
  fail_if (DestMax =? 0) RETURN_INVALID_PARAMETER;;
  SourceLen ← StrnLenS Source DestMax;
  fail_if (DestMax <=? SourceLen) RETURN_BUFFER_TOO_SMALL;;
  CopyLoop (S (length Source)) Destination Source 0.

(** Characters *)
Definition InternalAsciiIsDecimalDigitCharacter (Char : Z) : bool := (48 <=? Char) && (Char <=? 57).
Definition InternalAsciiIsHexaDecimalDigitCharacter (Char : Z) : bool :=
  InternalAsciiIsDecimalDigitCharacter Char || ((65 <=? Char) && (Char <=? 70)) || ((97 <=? Char) && (Char <=? 102)).
Definition AsciiCharToUpper (Chr : Z) : Z := if (97 <=? Chr) && (Chr <=? 122) then Chr - (97 - 65) else Chr.
Definition InternalAsciiHexCharToUintn (Char : Z) : Z :=
  if InternalAsciiIsDecimalDigitCharacter Char then Char - 48 else 10 + AsciiCharToUpper Char - 65.

(** Skipping a run of characters. *)
Fixpoint SkipWhile (fuel : nat) (p : Z → bool) (String : list Z) (i : Z) : M T Z :=
  match fuel with
  | O => crash OutOfFuel
  | S k => c ← char_at String i; if p c then SkipWhile k p String (i + 1) else mret i
  end.

Fixpoint HexLoop (fuel : nat) (String : list Z) (i Data : Z) : M T Z :=
  match fuel with
  | O => crash OutOfFuel
  | S k =>
      c ← char_at String i;
      if InternalAsciiIsHexaDecimalDigitCharacter c then
        fail_if (Z.shiftr (2 ^ UINTN_WIDTH - 1 - InternalAsciiHexCharToUintn c) 4 <? Data) RETURN_UNSUPPORTED;;
        HexLoop k String (i + 1) (wrapn (wrapn (Z.shiftl Data 4) + InternalAsciiHexCharToUintn c))
      else mret Data
  end.

(** Without an EndPointer. *)
Definition AsciiStrHexToUintnS (String : list Z) : M T Z :=
  Length ← AsciiStrnLenS String (PcdMaximumAsciiStringLength + 1);
  fail_if (negb (Length <=? PcdMaximumAsciiStringLength)) RETURN_INVALID_PARAMETER;;
  i ← SkipWhile (S (length String)) (λ c, (c =? 32) || (c =? 9)) String 0;
  c ← char_at String i;
  let FoundLeadingZero := c =? 48 in
  i ← SkipWhile (S (length String)) (λ c, c =? 48) String i;
  c ← char_at String i;
  if AsciiCharToUpper c =? 88 then
    if negb FoundLeadingZero then mret 0 else HexLoop (S (length String)) String (i + 1) 0
  else HexLoop (S (length String)) String i 0.

Definition AsciiStrHexToUintn (String : list Z) : M T Z :=
  Status ← attempt (AsciiStrHexToUintnS String);
  match Status with inl _ => mret (2 ^ UINTN_WIDTH - 1) | inr Result => mret Result end.
End Strings.

(** ** Null-terminated strings *)

(** The characters before the terminator. *)
Definition chars (l : list Z) : Prop := Forall (λ c, c ≠ 0) l.

(** The characters of the string in a buffer. *)
Fixpoint cstr (l : list Z) : list Z :=
  match l with [] => [] | c :: l' => if c =? 0 then [] else c :: cstr l' end.

Lemma cstr_chars l : chars (cstr l).
Proof. induction l as [|c l IH]; [constructor|]. cbn. destruct (Z.eqb_spec c 0); [constructor|by constructor]. Qed.

Lemma cstr_app l rest : chars l → cstr (l ++ 0 :: rest) = l.
Proof. induction 1 as [|c l Hc _ IH]; [done|]. cbn. by rewrite (proj2 (Z.eqb_neq _ _) Hc), IH. Qed.

(** A buffer with a zero holds a string. *)
Lemma cstr_cut n (l : list Z) : l !! n = Some 0 → ∃ rest, l = cstr l ++ 0 :: rest ∧ (length (cstr l) <= n)%nat.
Proof.
  revert n. induction l as [|c l IH]; intros n Hn; [done|]. cbn. destruct (Z.eqb_spec c 0) as [->|Hc].
  { exists l. split; [done|cbn; lia]. }
  destruct n as [|n]; [by injection Hn as ->|]. destruct (IH n Hn) as (rest & Heq & Hlen).
  exists rest. split; [by rewrite Heq at 1|cbn; lia].
Qed.

Section StringSpecs.
Context `{HPl : !Platform} {T : Type} (l rest : list Z) (Hl : chars l).

Abbreviation String := (l ++ 0 :: rest).

Lemma cstring_lookup i : 0 <= i <= size l → ∃ c, String !! Z.to_nat i = Some c ∧ (c = 0 ↔ i = size l).
Proof using Hl.
  intros Hi. unfold size in *. destruct (decide (i = Z.of_nat (length l))) as [->|Hne].
  - exists 0. rewrite Nat2Z.id, lookup_app_r, Nat.sub_diag by lia. done.
  - destruct (lookup_lt_is_Some_2 l (Z.to_nat i)) as [c Hc]; [lia|]. exists c. rewrite lookup_app_l by lia. split; [done|].
    pose proof (Forall_lookup_1 _ _ _ _ Hl Hc). done.
Qed.

Lemma wp_char_at i (Q : Z → T → Prop) E s :
  0 <= i <= size l → (∀ c, String !! Z.to_nat i = Some c → (c = 0 ↔ i = size l) → Q c s) → wp (char_at String i) Q E s.
Proof using Hl. intros Hi HQ. destruct (cstring_lookup i Hi) as (c & Hc & Hc0). unfold char_at. rewrite Hc. apply wp_ret. by apply HQ. Qed.

Lemma size_cstring : size String = size l + 1 + size rest.
Proof. rewrite size_app. unfold size. cbn [length]. lia. Qed.

Lemma StrLen_spec (s : T) : size l <= PcdMaximumUnicodeStringLength → StrLen String s = Ok (size l) s.
Proof using Hl.
  intros Hmax. pose proof size_cstring. pose proof (size_nonneg rest). pose proof (size_nonneg l).
  assert (∀ fuel i, 0 <= i <= size l → (Z.to_nat (size l - i) < fuel)%nat →
    wp (StrLenLoop fuel String i) (λ r s', r = size l ∧ s' = s) (λ _ _, False) s) as Hloop.
  { induction fuel as [|fuel IH]; intros i Hi Hf; [lia|]. cbn [StrLenLoop]. apply wp_bind, wp_char_at; [done|]. intros c _ Hc.
    destruct (Z.eqb_spec c 0) as [Hc0|Hc0]; [apply wp_ret; split; [by apply Hc|done]|].
    assert (i ≠ size l) by tauto. apply wp_bind, wp_ASSERT; [apply Z.ltb_lt; lia|]. apply IH; lia. }
  apply wp_exact, Hloop; [lia|]. unfold size in *. lia.
Qed.

Lemma StrnLenS_spec MaxSize (s : T) : 0 <= MaxSize → StrnLenS String MaxSize s = Ok (Z.min (size l) MaxSize) s.
Proof using Hl.
  intros Hm. pose proof size_cstring. pose proof (size_nonneg rest). pose proof (size_nonneg l).
  unfold StrnLenS. destruct (Z.eqb_spec MaxSize 0) as [->|Hm0]; [rewrite Z.min_r by lia; done|].
  assert (∀ fuel i, 0 <= i <= size l → i < MaxSize → (Z.to_nat (size l - i) < fuel)%nat →
    wp (StrnLenLoop fuel String MaxSize i) (λ r s', r = Z.min (size l) MaxSize ∧ s' = s) (λ _ _, False) s) as Hloop.
  { induction fuel as [|fuel IH]; intros i Hi HiM Hf; [lia|]. cbn [StrnLenLoop]. apply wp_bind, wp_char_at; [done|]. intros c _ Hc.
    destruct (Z.eqb_spec c 0) as [Hc0|Hc0]; [apply wp_ret; assert (i = size l) by tauto; split; [lia|done]|].
    assert (i ≠ size l) by tauto. destruct (Z.leb_spec (MaxSize - 1) i); [apply wp_ret; split; [lia|done]|]. apply IH; lia. }
  apply wp_exact, Hloop; [lia|lia|]. unfold size in *. lia.
Qed.

(** The copy. *)
Lemma CopyLoop_spec (s : T) fuel : ∀ Destination i,
  0 <= i <= size l → size l + 1 <= size Destination → (Z.to_nat (size l - i) < fuel)%nat →
  take (Z.to_nat i) Destination = take (Z.to_nat i) l →
  wp (CopyLoop fuel Destination String i)
    (λ r s', r = l ++ 0 :: drop (S (length l)) Destination ∧ s' = s) (λ _ _, False) s.
Proof using Hl.
  induction fuel as [|fuel IH]; intros Destination i Hi Hs Hf Ht; [lia|]. cbn [CopyLoop].
  apply wp_bind, wp_char_at; [done|]. intros c Hc Hz. apply wp_bind, wp_bind, wp_require; [apply Z.ltb_lt; lia|]. apply wp_ret.
  unfold size in *. destruct (Z.eqb_spec c 0) as [Hc0|Hc0].
  - apply wp_ret. split; [|done]. assert (i = Z.of_nat (length l)) as -> by tauto. rewrite Nat2Z.id in *. subst c.
    rewrite insert_take_drop by lia. f_equal. rewrite Ht. apply take_ge. lia.
  - assert (i ≠ Z.of_nat (length l)) by tauto. rewrite lookup_app_l in Hc by lia.
    eapply wp_mono; [apply IH; [lia|rewrite length_insert; lia|lia|]| |done].
    + replace (Z.to_nat (i + 1)) with (S (Z.to_nat i)) by lia.
      rewrite (take_S_r _ _ c) by (apply list_lookup_insert_eq; lia). rewrite (take_S_r _ _ c) by done.
      rewrite take_insert_ge by lia. by rewrite Ht.
    + intros r s' [-> ->]. split; [|done]. by rewrite drop_insert_lt by lia.
Qed.

Lemma StrCpyS_spec Destination DestMax (s : T) (Q : list Z → T → Prop) (E : RETURN_STATUS → T → Prop) :
  0 <= DestMax <= size Destination →
  (0 < DestMax <= PcdMaximumUnicodeStringLength → size l < DestMax → Q (l ++ 0 :: drop (S (length l)) Destination) s) →
  (PcdMaximumUnicodeStringLength < DestMax ∨ DestMax = 0 → E RETURN_INVALID_PARAMETER s) →
  (0 < DestMax → DestMax <= size l → E RETURN_BUFFER_TOO_SMALL s) →
  wp (StrCpyS Destination DestMax String) Q E s.
Proof using Hl.
  intros Hd HQ HE1 HE2. pose proof size_cstring. pose proof (size_nonneg rest). pose proof (size_nonneg l).
  apply wp_bind, wp_fail_if; [intros Hd1%Z.ltb_lt; apply HE1; lia|]. intros Hd1%Z.ltb_ge.
  apply wp_bind, wp_fail_if; [intros Hd2%Z.eqb_eq; apply HE1; lia|]. intros Hd2%Z.eqb_neq.
  apply wp_bind. eapply wp_intro_ok; [apply StrnLenS_spec; lia|]. apply wp_bind, wp_fail_if.
  - intros Hd3%Z.leb_le. apply HE2; lia.
  - intros Hd3%Z.leb_gt. eapply wp_mono; [apply CopyLoop_spec; [lia|lia|unfold size in *; lia|done]| |done].
    intros r s' [-> ->]. apply HQ; lia.
Qed.

Lemma SkipWhile_spec (p : Z → bool) (s : T) : p 0 = false → ∀ fuel i,
  0 <= i <= size l → (Z.to_nat (size l - i) < fuel)%nat →
  wp (SkipWhile fuel p String i) (λ r s', i <= r <= size l ∧ s' = s) (λ _ _, False) s.
Proof using Hl.
  intros Hp. induction fuel as [|fuel IH]; intros i Hi Hf; [lia|]. cbn [SkipWhile]. apply wp_bind, wp_char_at; [done|]. intros c _ Hc.
  destruct (p c) eqn:Hpc; [|apply wp_ret; split; [lia|done]]. assert (i ≠ size l) by (intros ->; destruct Hc as [_ Hc]; rewrite Hc in Hpc; congruence).
  eapply wp_mono; [apply IH; lia| |done]. intros r s' [? ->]. split; [lia|done].
Qed.

Lemma HexLoop_spec (s : T) : ∀ fuel i Data,
  0 <= i <= size l → (Z.to_nat (size l - i) < fuel)%nat →
  wp (HexLoop fuel String i Data) (λ _ s', s' = s) (λ _ s', s' = s) s.
Proof using Hl.
  induction fuel as [|fuel IH]; intros i Data Hi Hf; [lia|]. cbn [HexLoop]. apply wp_bind, wp_char_at; [done|]. intros c _ Hc.
  destruct (InternalAsciiIsHexaDecimalDigitCharacter c) eqn:Hx; [|by apply wp_ret].
  assert (i ≠ size l) by (intros ->; destruct Hc as [_ Hc]; rewrite Hc in Hx; done).
  apply wp_bind, wp_fail_if; [done|]. intros _. apply IH; lia.
Qed.

(** It always gives a number. *)
Lemma AsciiStrHexToUintn_total (s : T) : ∃ v, AsciiStrHexToUintn String s = Ok v s.
Proof using Hl.
  destruct (wp_total (AsciiStrHexToUintn String) (λ _ s', s' = s) s) as (v & s' & Hv & ->); [|by exists v].
  pose proof size_cstring. pose proof (size_nonneg rest). pose proof (size_nonneg l).
  assert (Z.to_nat (size l) < S (length String))%nat as Hfuel by (unfold size in *; lia).
  apply wp_bind, wp_attempt. apply wp_bind. eapply wp_intro_ok; [by apply StrnLenS_spec|]. apply wp_bind, wp_fail_if; [by intros; apply wp_ret|]. intros _.
  apply wp_bind. eapply wp_mono; [apply SkipWhile_spec; [done|lia|by rewrite Z.sub_0_r]| |done]. intros i s' [Hi ->].
  apply wp_bind, wp_char_at; [lia|]. intros c _ _. apply wp_bind.
  eapply wp_mono; [apply SkipWhile_spec; [done|lia|lia]| |done]. intros k s' [Hk ->]. apply wp_bind, wp_char_at; [lia|]. intros c' _ Hc'.
  destruct (Z.eqb_spec (AsciiCharToUpper c') 88) as [Hx|_].
  - assert (k ≠ size l) by (intros ->; destruct Hc' as [_ Hc']; rewrite Hc' in Hx; done).
    destruct (negb (c =? 48)); [apply wp_ret; by apply wp_ret|].
    eapply wp_mono; [apply HexLoop_spec; lia|..]; intros; by apply wp_ret.
  - eapply wp_mono; [apply HexLoop_spec; lia|..]; intros; by apply wp_ret.
Qed.
End StringSpecs.
