(* ===== verification/Utf8.v ===== *)
(** Conversion between UTF-8 and UCS-2 (RedfishPkg/Library/BaseUcs2Utf8Lib), which Ext4Dxe uses
    for file names and labels. *)
From stdpp Require Import list infinite.
From S2P Require Import Prelude OrderedCollection Base Buffer Platform Strings.
#[local] Open Scope Z_scope.

(** What MemoryAllocationLib promises its callers: AllocateZeroPool gives new memory or NULL,
    FreePool takes what was allocated.  [holds s0 l s] says that [s] is [s0] with the pointers
    [l] allocated in between. *)
Class MemoryAllocationLib (T : Type) := {
  AllocateZeroPool : Z → M T ptr;
  FreePool : ptr → M T unit;
  holds : T → list loc → T → Prop;
  holds_nil s : holds s [] s;
  AllocateZeroPool_ok s0 l s n : holds s0 l s →
    wp (AllocateZeroPool n) (λ p s', match p with Some x => holds s0 (x :: l) s' | None => holds s0 l s' end) (λ _ _, False) s;
  FreePool_ok s0 l1 x l2 s : holds s0 (l1 ++ x :: l2) s →
    wp (FreePool (Some x)) (λ _ s', holds s0 (l1 ++ l2) s') (λ _ _, False) s;
}.

Definition UNICODE_FORMAT_LEN : Z := 6.

Section Utf8.
Context `{HPl : !Platform, HMem : !MemoryAllocationLib T}.

(** ** Characters *)

Definition GetUTF8SizeForUCS2 (Utf8Buffer : list Z) (off : Z) : M T Z :=
  TempChar ← char_at Utf8Buffer off;
  if Z.land TempChar 0xF0 =? 0xF0 then mret 0
  else
    let Utf8Size := 1 in
    if Z.land TempChar 0x80 =? 0x80 then
      if Z.land TempChar 0xC0 =? 0xC0 then
        let Utf8Size := Utf8Size + 1 in
        if Z.land TempChar 0xE0 =? 0xE0 then mret (Utf8Size + 1) else mret Utf8Size
      else mret Utf8Size
    else mret Utf8Size.

(** The character given by four digits. *)
Definition GetUCS2CharByFormat (Utf8Buffer : list Z) (off : Z) : M T Z :=
  c1 ← char_at Utf8Buffer (off + 2);
  fail_if (negb (Z.land c1 0x80 =? 0)) RETURN_INVALID_PARAMETER;;
  c2 ← char_at Utf8Buffer (off + 3);
  fail_if (negb (Z.land c2 0x80 =? 0)) RETURN_INVALID_PARAMETER;;
  c3 ← char_at Utf8Buffer (off + 4);
  fail_if (negb (Z.land c3 0x80 =? 0)) RETURN_INVALID_PARAMETER;;
  c4 ← char_at Utf8Buffer (off + 5);
  fail_if (negb (Z.land c4 0x80 =? 0)) RETURN_INVALID_PARAMETER;;
  Num1 ← AsciiStrHexToUintn [c1; c2; 0];
  Num2 ← AsciiStrHexToUintn [c3; c4; 0];
  mret (wrap 8 Num2 + wrap 8 Num1 * 256).

(** The bytes written. *)
Definition UCS2CharToUTF8 (Ucs2Char : Z) : list Z :=
  if Ucs2Char <=? 0x007F then [Z.land Ucs2Char 0x7F]
  else if (0x0080 <=? Ucs2Char) && (Ucs2Char <=? 0x07FF) then
    [Z.lor (Z.land (Z.shiftr Ucs2Char 6) 0x1F) 0xC0; Z.lor (Z.land Ucs2Char 0x3F) 0x80]
  else
    [Z.lor (Z.land (Z.shiftr Ucs2Char 12) 0x0F) 0xE0; Z.lor (Z.land (Z.shiftr Ucs2Char 6) 0x3F) 0x80;
     Z.lor (Z.land Ucs2Char 0x3F) 0x80].

Definition UTF8ToUCS2Char (Utf8Buffer : list Z) (off : Z) : M T Z :=
  Utf8Size ← GetUTF8SizeForUCS2 Utf8Buffer off;
  if Utf8Size =? 1 then
    TempChar1 ← char_at Utf8Buffer off;
    fail_if (negb (Z.land TempChar1 0x80 =? 0)) RETURN_INVALID_PARAMETER;;
    mret TempChar1
  else if Utf8Size =? 2 then
    TempChar1 ← char_at Utf8Buffer off;
    fail_if (negb (Z.land TempChar1 0xE0 =? 0xC0)) RETURN_INVALID_PARAMETER;;
    TempChar2 ← char_at Utf8Buffer (off + 1);
    fail_if (negb (Z.land TempChar2 0xC0 =? 0x80)) RETURN_INVALID_PARAMETER;;
    mret (Z.lor (Z.shiftl (Z.land TempChar1 0x1F) 6) (Z.land TempChar2 0x3F))
  else if Utf8Size =? 3 then
    TempChar1 ← char_at Utf8Buffer off;
    fail_if (negb (Z.land TempChar1 0xF0 =? 0xE0)) RETURN_INVALID_PARAMETER;;
    TempChar2 ← char_at Utf8Buffer (off + 1);
    fail_if (negb (Z.land TempChar2 0xC0 =? 0x80)) RETURN_INVALID_PARAMETER;;
    TempChar3 ← char_at Utf8Buffer (off + 2);
    fail_if (negb (Z.land TempChar3 0xC0 =? 0x80)) RETURN_INVALID_PARAMETER;;
    mret (Z.lor (Z.lor (Z.shiftl (Z.land TempChar1 0x0F) 12) (Z.shiftl (Z.land TempChar2 0x3F) 6)) (Z.land TempChar3 0x3F))
  else raise RETURN_INVALID_PARAMETER.

(** ** Strings *)

(** The length of the encoding. *)
Fixpoint EncodedLength (Ucs2Str : list Z) (n : nat) (Utf8StrLength : Z) : M T Z :=
  match n with
  | O => mret Utf8StrLength
  | S k =>
      c ← char_at Ucs2Str 0;
      EncodedLength (drop 1 Ucs2Str) k (wrapn (Utf8StrLength + size (UCS2CharToUTF8 c)))
  end.

(** [CopyMem (Utf8Str + Utf8StrIndex, Utf8Buffer, Utf8BufferSize)] for each character. *)
Fixpoint EncodeLoop (Ucs2Str : list Z) (n : nat) (Utf8Str : list Z) (Utf8StrIndex : Z) : M T (list Z * Z) :=
  match n with
  | O => mret (Utf8Str, Utf8StrIndex)
  | S k =>
      c ← char_at Ucs2Str 0;
      let b := UCS2CharToUTF8 c in
      require (in_bounds Utf8Str Utf8StrIndex (size b)) OutOfBounds;;
      EncodeLoop (drop 1 Ucs2Str) k (write_bytes Utf8Str Utf8StrIndex b) (wrapn (Utf8StrIndex + size b))
  end.

(** The new string and its address. *)
Definition UCS2StrToUTF8 (Ucs2Str : list Z) : M T (loc * list Z) :=
  Ucs2StrLength ← StrLen Ucs2Str;
  Utf8StrLength ← EncodedLength Ucs2Str (Z.to_nat Ucs2StrLength) 0;
  p ← AllocateZeroPool (wrapn (Utf8StrLength + 1));
  match p with
  | None => raise RETURN_OUT_OF_RESOURCES
  | Some x =>
      '(Utf8Str, Utf8StrIndex) ← EncodeLoop Ucs2Str (Z.to_nat Ucs2StrLength) (zeros (wrapn (Utf8StrLength + 1))) 0;
      Utf8Str ← put_char Utf8Str Utf8StrIndex 0;
      mret (x, Utf8Str)
  end.

(** The first loop of UTF8StrToUCS2. *)
Definition Utf8Length (Utf8Str : list Z) : M T Z := SkipWhile (S (length Utf8Str)) (λ c, negb (c =? 0)) Utf8Str 0.

(** Whether a backslash and a u follow. *)
Definition IsEscape (Utf8Str : list Z) (off : Z) : M T bool :=
  c1 ← char_at Utf8Str off;
  if c1 =? 92 then c2 ← char_at Utf8Str (off + 1); mret (c2 =? 117) else mret false.

(** The second loop of UTF8StrToUCS2; an error is what makes it free the buffer and return. *)
Fixpoint DecodeLoop (fuel : nat) (Utf8Str : list Z) (Utf8StrLength Utf8StrIndex Ucs2StrIndex : Z) (Ucs2StrTemp : list Z) :
    M T (list Z * Z) :=
  match fuel with
  | O => crash OutOfFuel
  | S k =>
      c ← char_at Utf8Str Utf8StrIndex;
      if c =? 0 then mret (Ucs2StrTemp, Ucs2StrIndex)
      else
        Escape ← IsEscape Utf8Str Utf8StrIndex;
        if Escape && (UNICODE_FORMAT_LEN <=? Utf8StrLength - Utf8StrIndex) then
          Status ← attempt (GetUCS2CharByFormat Utf8Str Utf8StrIndex);
          match Status with
          | inr Char =>
              Ucs2StrTemp ← put_char Ucs2StrTemp Ucs2StrIndex Char;
              DecodeLoop k Utf8Str Utf8StrLength (Utf8StrIndex + UNICODE_FORMAT_LEN) (Ucs2StrIndex + 1) Ucs2StrTemp
          | inl _ =>
              Ucs2StrTemp ← put_char Ucs2StrTemp Ucs2StrIndex 92;
              Ucs2StrTemp ← put_char Ucs2StrTemp (Ucs2StrIndex + 1) 117;
              Ucs2StrTemp ← put_char Ucs2StrTemp (Ucs2StrIndex + 2) 0;
              DecodeLoop k Utf8Str Utf8StrLength (Utf8StrIndex + 2) (Ucs2StrIndex + 2) Ucs2StrTemp
          end
        else
          Utf8BufferSize ← GetUTF8SizeForUCS2 Utf8Str Utf8StrIndex;
          fail_if ((Utf8BufferSize =? 0) || (Utf8StrLength - Utf8StrIndex <? Utf8BufferSize)) RETURN_INVALID_PARAMETER;;
          Char ← UTF8ToUCS2Char Utf8Str Utf8StrIndex;
          Ucs2StrTemp ← put_char Ucs2StrTemp Ucs2StrIndex Char;
          DecodeLoop k Utf8Str Utf8StrLength (Utf8StrIndex + Utf8BufferSize) (Ucs2StrIndex + 1) Ucs2StrTemp
  end.

(** The new string and its address; the last StrCpyS may fail, which the code ignores. *)
Definition UTF8StrToUCS2 (Utf8Str : list Z) : M T (loc * list Z) :=
  Utf8StrLength ← Utf8Length Utf8Str;
  p ← AllocateZeroPool (wrapn ((Utf8StrLength + 1) * 2));
  match p with
  | None => raise RETURN_OUT_OF_RESOURCES
  | Some Temp =>
      Status ← attempt (DecodeLoop (S (Z.to_nat Utf8StrLength)) Utf8Str Utf8StrLength 0 0 (zeros (wrapn ((Utf8StrLength + 1) * 2) / 2)));
      match Status with
      | inl _ => FreePool (Some Temp);; raise RETURN_INVALID_PARAMETER
      | inr (Ucs2StrTemp, Ucs2StrIndex) =>
          p ← AllocateZeroPool (wrapn ((Ucs2StrIndex + 1) * 2));
          match p with
          | None => FreePool (Some Temp);; raise RETURN_OUT_OF_RESOURCES
          | Some x =>
              let Ucs2Str := zeros (wrapn ((Ucs2StrIndex + 1) * 2) / 2) in
              Status ← attempt (StrCpyS Ucs2Str (Ucs2StrIndex + 1) Ucs2StrTemp);
              let Ucs2Str := match Status with inr s => s | inl _ => Ucs2Str end in
              Ucs2Str ← put_char Ucs2Str Ucs2StrIndex 0;
              FreePool (Some Temp);;
              mret (x, Ucs2Str)
          end
      end
  end.
End Utf8.

(** ** Characters *)

(** A UTF-8 sequence of the given length and the character it stands for. *)
Definition sequence (b : list Z) (c : Z) : bool :=
  match b with
  | [b0] => (0 <=? b0) && (b0 <? 0x80) && (c =? b0)
  | [b0; b1] => (Z.land b0 0xE0 =? 0xC0) && (Z.land b1 0xC0 =? 0x80) && (c =? Z.lor (Z.shiftl (Z.land b0 0x1F) 6) (Z.land b1 0x3F))
  | [b0; b1; b2] => (Z.land b0 0xF0 =? 0xE0) && (Z.land b1 0xC0 =? 0x80) && (Z.land b2 0xC0 =? 0x80) &&
      (c =? Z.lor (Z.lor (Z.shiftl (Z.land b0 0x0F) 12) (Z.shiftl (Z.land b1 0x3F) 6)) (Z.land b2 0x3F))
  | _ => false
  end.

(** What the size test says of each byte. *)
Definition lead_size (b : Z) : Z :=
  if Z.land b 0xF0 =? 0xF0 then 0
  else if Z.land b 0x80 =? 0x80 then (if Z.land b 0xC0 =? 0xC0 then (if Z.land b 0xE0 =? 0xE0 then 3 else 2) else 1) else 1.

(** Facts on bytes, one by one. *)
Lemma below (p : Z → bool) n : forallb p (seqZ 0 n) = true → ∀ x, 0 <= x < n → p x = true.
Proof. intros Hall x Hx. rewrite forallb_forall in Hall. apply Hall, list_elem_of_In, elem_of_seqZ. lia. Qed.

Lemma continuation_byte x :
  0 <= x < 64 → Z.land (Z.lor x 0x80) 0xC0 = 0x80 ∧ Z.land (Z.lor x 0x80) 0x3F = x ∧ 128 <= Z.lor x 0x80 < 256.
Proof.
  intros Hx. pose proof (below (λ x, (Z.land (Z.lor x 0x80) 0xC0 =? 0x80) && (Z.land (Z.lor x 0x80) 0x3F =? x) &&
    (128 <=? Z.lor x 0x80) && (Z.lor x 0x80 <? 256)) 64 eq_refl x Hx) as Hb. cbv beta in Hb. rewrite !andb_true_iff in Hb. lia.
Qed.

Lemma lead2_byte x :
  0 <= x < 32 → Z.land (Z.lor x 0xC0) 0xE0 = 0xC0 ∧ Z.land (Z.lor x 0xC0) 0x1F = x ∧ lead_size (Z.lor x 0xC0) = 2 ∧ 128 <= Z.lor x 0xC0 < 256.
Proof.
  intros Hx. pose proof (below (λ x, (Z.land (Z.lor x 0xC0) 0xE0 =? 0xC0) && (Z.land (Z.lor x 0xC0) 0x1F =? x) &&
    (lead_size (Z.lor x 0xC0) =? 2) && (128 <=? Z.lor x 0xC0) && (Z.lor x 0xC0 <? 256)) 32 eq_refl x Hx) as Hb.
  cbv beta in Hb. rewrite !andb_true_iff in Hb. lia.
Qed.

Lemma lead3_byte x :
  0 <= x < 16 → Z.land (Z.lor x 0xE0) 0xF0 = 0xE0 ∧ Z.land (Z.lor x 0xE0) 0x0F = x ∧ lead_size (Z.lor x 0xE0) = 3 ∧ 128 <= Z.lor x 0xE0 < 256.
Proof.
  intros Hx. pose proof (below (λ x, (Z.land (Z.lor x 0xE0) 0xF0 =? 0xE0) && (Z.land (Z.lor x 0xE0) 0x0F =? x) &&
    (lead_size (Z.lor x 0xE0) =? 3) && (128 <=? Z.lor x 0xE0) && (Z.lor x 0xE0 <? 256)) 16 eq_refl x Hx) as Hb.
  cbv beta in Hb. rewrite !andb_true_iff in Hb. lia.
Qed.

Lemma ascii_byte x : 0 <= x < 128 → Z.land x 0x7F = x ∧ lead_size x = 1.
Proof.
  intros Hx. pose proof (below (λ x, (Z.land x 0x7F =? x) && (lead_size x =? 1)) 128 eq_refl x Hx) as Hb.
  cbv beta in Hb. rewrite andb_true_iff in Hb. lia.
Qed.

Lemma UCS2CharToUTF8_spec c :
  u16 c → let b := UCS2CharToUTF8 c in
  sequence b c = true ∧ b ≠ [] ∧ lead_size (byte_at b 0) = size b ∧ bytes b ∧ (c ≠ 0 → chars b) ∧ (c < 128 → b = [c]) ∧
  (128 <= c → Forall (λ x, 128 <= x) b).
Proof.
  intros Hc. unfold is_uint in Hc. cbv zeta. unfold UCS2CharToUTF8. destruct (Z.leb_spec c 0x7F) as [H1|H1].
  { destruct (ascii_byte c) as [-> Hs]; [lia|]. split_and!; [|done|done|..].
    - cbn. rewrite Z.eqb_refl, (proj2 (Z.leb_le 0 c)), (proj2 (Z.ltb_lt c 128)) by lia. done.
    - repeat constructor; lia.
    - intros H0. by repeat constructor.
    - done.
    - lia. }
  pose proof (Z.div_mod c 64 ltac:(lia)) as Hdm. pose proof (Z.mod_pos_bound c 64 ltac:(lia)) as Hlow.
  assert (Z.land c 0x3F = c mod 64) as Hl by (apply (Z.land_ones c 6); lia).
  destruct (continuation_byte (c mod 64) Hlow) as (Hc1 & Hc2 & Hc3).
  rewrite (proj2 (Z.leb_le 0x80 c)) by lia. cbn [andb]. destruct (Z.leb_spec c 0x7FF) as [H2|H2].
  - assert (Z.land (Z.shiftr c 6) 0x1F = c / 64) as Hh.
    { rewrite Z.shiftr_div_pow2 by lia. change (2 ^ 6) with 64. rewrite (Z.land_ones _ 5) by lia. apply Z.mod_small.
      split; [apply Z.div_pos; lia|apply Z.div_lt_upper_bound; lia]. }
    rewrite Hl, Hh. assert (0 <= c / 64 < 32) as Hhi by (split; [apply Z.div_pos; lia|apply Z.div_lt_upper_bound; lia]).
    destruct (lead2_byte (c / 64) Hhi) as (Hb1 & Hb2 & Hb3 & Hb4). split_and!; [|done|done|..].
    + cbn -[Z.land Z.lor Z.shiftl]. rewrite Hb1, Hb2, Hc1, Hc2. cbn -[Z.lor Z.shiftl]. apply Z.eqb_eq.
      rewrite (lor_shiftl_add (c / 64) (c mod 64) 6) by (lia || (unfold is_uint; lia)). lia.
    + repeat constructor; lia.
    + intros _. repeat constructor; lia.
    + lia.
    + intros _. repeat constructor; lia.
  - pose proof (Z.div_mod (c / 64) 64 ltac:(lia)) as Hdm2. pose proof (Z.mod_pos_bound (c / 64) 64 ltac:(lia)) as Hmid.
    assert (Z.land (Z.shiftr c 6) 0x3F = c / 64 mod 64) as Hm.
    { rewrite Z.shiftr_div_pow2 by lia. apply (Z.land_ones (c / 64) 6). lia. }
    assert (0 <= c / 64 / 64 < 16) as Hhi.
    { rewrite Z.div_div by lia. split; [apply Z.div_pos; lia|apply Z.div_lt_upper_bound; lia]. }
    assert (Z.land (Z.shiftr c 12) 0x0F = c / 64 / 64) as Hh.
    { rewrite Z.shiftr_div_pow2 by lia. change (2 ^ 12) with (64 * 64). rewrite <- Z.div_div by lia.
      rewrite (Z.land_ones _ 4) by lia. apply Z.mod_small. lia. }
    rewrite Hl, Hm, Hh. destruct (lead3_byte (c / 64 / 64) Hhi) as (Hb1 & Hb2 & Hb3 & Hb4).
    destruct (continuation_byte (c / 64 mod 64) Hmid) as (Hd1 & Hd2 & Hd3). split_and!; [|done|done|..].
    + cbn -[Z.land Z.lor Z.shiftl]. rewrite Hb1, Hb2, Hc1, Hc2, Hd1, Hd2. cbn -[Z.lor Z.shiftl Z.div Z.modulo]. apply Z.eqb_eq.
      change 12 with (6 + 6). rewrite <- Z.shiftl_shiftl by lia. rewrite <- Z.shiftl_lor.
      rewrite (lor_shiftl_add (c / 64 / 64) (c / 64 mod 64) 6) by (lia || (unfold is_uint; lia)).
      rewrite lor_shiftl_add by (lia || (unfold is_uint; lia)). lia.
    + repeat constructor; lia.
    + intros _. repeat constructor; lia.
    + lia.
    + intros _. repeat constructor; lia.
Qed.

Section Decode.
Context `{HPl : !Platform, HMem : !MemoryAllocationLib T}.

Lemma GetUTF8SizeForUCS2_exact Utf8Str off c (s : T) :
  Utf8Str !! Z.to_nat off = Some c → GetUTF8SizeForUCS2 Utf8Str off s = Ok (lead_size c) s.
Proof.
  intros Hc. unfold GetUTF8SizeForUCS2, char_at. rewrite Hc. unfold mbind, M_bind, mret, M_ret, lead_size. by repeat case_match.
Qed.

Lemma lead_size_range c : 0 <= lead_size c <= 3.
Proof. unfold lead_size. repeat case_match; lia. Qed.

(** The bytes of a sequence in a string. *)
Definition occurs (Utf8Str : list Z) (off : Z) (b : list Z) : Prop :=
  ∀ i c, b !! i = Some c → Utf8Str !! Z.to_nat (off + Z.of_nat i) = Some c.

Lemma wp_char_lookup Utf8Str off c (Q : Z → T → Prop) E s :
  Utf8Str !! Z.to_nat off = Some c → Q c s → wp (char_at Utf8Str off) Q E s.
Proof. intros Hc HQ. unfold char_at. rewrite Hc. by apply wp_ret. Qed.

(** A well-formed sequence is decoded. *)
Lemma UTF8ToUCS2Char_sequence Utf8Str off b c (s : T) :
  occurs Utf8Str off b → sequence b c = true → lead_size (byte_at b 0) = size b → UTF8ToUCS2Char Utf8Str off s = Ok c s.
Proof.
  intros Hocc Hseq Hlead. apply wp_exact. unfold UTF8ToUCS2Char.
  destruct b as [|b0 [|b1 [|b2 [|]]]]; cbn -[Z.land Z.lor Z.shiftl] in Hseq; try done;
    pose proof (Hocc 0%nat b0 eq_refl) as H0; rewrite Z.add_0_r in H0; apply wp_bind;
    (eapply wp_intro_ok; [by apply GetUTF8SizeForUCS2_exact|]); match type of Hlead with _ = ?n => change (lead_size b0 = n) in Hlead end; rewrite Hlead; unfold size;
    cbn [length Z.of_nat Pos.of_succ_nat Pos.succ Z.eqb Pos.eqb];
    rewrite ?andb_true_iff, ?Z.eqb_eq in Hseq.
  - destruct Hseq as [[H1%Z.leb_le H2%Z.ltb_lt] ->]. apply wp_bind. eapply wp_char_lookup; [done|]. apply wp_bind, wp_fail_if.
    + intros Hbad%negb_true_iff%Z.eqb_neq. destruct Hbad. destruct (ascii_byte b0) as [<- _]; [lia|].
      rewrite <- Z.land_assoc. apply Z.land_0_r.
    + intros _. by apply wp_ret.
  - destruct Hseq as [[H1 H2] ->]. pose proof (Hocc 1%nat b1 eq_refl) as Hb1.
    apply wp_bind. eapply wp_char_lookup; [done|]. rewrite H1. apply wp_bind, wp_fail_if; [done|intros _].
    apply wp_bind. eapply wp_char_lookup; [done|]. rewrite H2. apply wp_bind, wp_fail_if; [done|intros _]. by apply wp_ret.
  - destruct Hseq as [[[H1 H2] H3] ->]. pose proof (Hocc 1%nat b1 eq_refl) as Hb1. pose proof (Hocc 2%nat b2 eq_refl) as Hb2.
    apply wp_bind. eapply wp_char_lookup; [done|]. rewrite H1. apply wp_bind, wp_fail_if; [done|intros _].
    apply wp_bind. eapply wp_char_lookup; [done|]. rewrite H2. apply wp_bind, wp_fail_if; [done|intros _].
    apply wp_bind. eapply wp_char_lookup; [done|]. rewrite H3. apply wp_bind, wp_fail_if; [done|intros _]. by apply wp_ret.
Qed.

(** Any other is rejected; nothing is read behind it. *)
Lemma UTF8ToUCS2Char_total Utf8Str off (s : T) c :
  0 <= off → Utf8Str !! Z.to_nat off = Some c → off + lead_size c <= size Utf8Str →
  wp (UTF8ToUCS2Char Utf8Str off) (λ _ s', s' = s) (λ e s', s' = s ∧ e = RETURN_INVALID_PARAMETER) s.
Proof.
  intros Ho Hc Hs. unfold UTF8ToUCS2Char. apply wp_bind. eapply wp_intro_ok; [by apply GetUTF8SizeForUCS2_exact|].
  assert (∀ k, 0 <= k < lead_size c → ∃ d, Utf8Str !! Z.to_nat (off + k) = Some d) as Hin.
  { intros k Hk. apply lookup_lt_is_Some_2. unfold size in Hs. lia. }
  destruct (Z.eqb_spec (lead_size c) 1) as [H1|_]; [|destruct (Z.eqb_spec (lead_size c) 2) as [H2|_]; [|destruct (Z.eqb_spec (lead_size c) 3) as [H3|_]; [|by apply wp_raise]]].
  - apply wp_bind. eapply wp_char_lookup; [done|]. apply wp_bind, wp_fail_if; [done|intros _]. by apply wp_ret.
  - destruct (Hin 1) as [d1 Hd1]; [lia|]. apply wp_bind. eapply wp_char_lookup; [done|]. apply wp_bind, wp_fail_if; [done|intros _].
    apply wp_bind. eapply wp_char_lookup; [done|]. apply wp_bind, wp_fail_if; [done|intros _]. by apply wp_ret.
  - destruct (Hin 1) as [d1 Hd1]; [lia|]. destruct (Hin 2) as [d2 Hd2]; [lia|].
    apply wp_bind. eapply wp_char_lookup; [done|]. apply wp_bind, wp_fail_if; [done|intros _].
    apply wp_bind. eapply wp_char_lookup; [done|]. apply wp_bind, wp_fail_if; [done|intros _].
    apply wp_bind. eapply wp_char_lookup; [done|]. apply wp_bind, wp_fail_if; [done|intros _]. by apply wp_ret.
Qed.

(** *** Any string *)

Section AnyString.
Context (l rest : list Z) (Hl : chars l).
Abbreviation Utf8Str := (l ++ 0 :: rest).

Lemma inside_lookup i : 0 <= i < size l → ∃ c, Utf8Str !! Z.to_nat i = Some c ∧ c ≠ 0.
Proof using Hl. intros Hi. destruct (cstring_lookup l rest Hl i) as (c & Hc & H0); [lia|]. exists c. split; [done|]. intros ->. lia. Qed.

Lemma GetUCS2CharByFormat_total off (s : T) :
  0 <= off → off + 6 <= size l →
  wp (GetUCS2CharByFormat Utf8Str off) (λ _ s', s' = s) (λ _ s', s' = s) s.
Proof using Hl.
  intros Ho Hs. destruct (inside_lookup (off + 2)) as (c1 & H1 & N1); [lia|]. destruct (inside_lookup (off + 3)) as (c2 & H2 & N2); [lia|].
  destruct (inside_lookup (off + 4)) as (c3 & H3 & N3); [lia|]. destruct (inside_lookup (off + 5)) as (c4 & H4 & N4); [lia|].
  do 4 (apply wp_bind; eapply wp_char_lookup; [done|]; apply wp_bind, wp_fail_if; [done|intros _]).
  assert (∀ a b, a ≠ 0 → b ≠ 0 → ∃ v, AsciiStrHexToUintn [a; b; 0] s = Ok v s) as Hhex.
  { intros a b Ha Hb. apply (AsciiStrHexToUintn_total [a; b] []). by repeat constructor. }
  destruct (Hhex c1 c2 N1 N2) as [v1 Hv1]. destruct (Hhex c3 c4 N3 N4) as [v2 Hv2].
  apply wp_bind. eapply wp_intro_ok; [exact Hv1|]. apply wp_bind. eapply wp_intro_ok; [exact Hv2|]. by apply wp_ret.
Qed.

Lemma IsEscape_total off (s : T) : 0 <= off < size l → wp (IsEscape Utf8Str off) (λ _ s', s' = s) (λ _ _, False) s.
Proof using Hl.
  intros Ho. destruct (inside_lookup off Ho) as (c & Hc & _). apply wp_bind. eapply wp_char_lookup; [done|].
  destruct (c =? 92); [|by apply wp_ret]. apply wp_bind. apply (wp_char_at l rest Hl); [lia|]. intros d _ _. by apply wp_ret.
Qed.

(** The buffer: as long as needed, and zero from the next position on. *)
Definition temp_ok (n : Z) (Temp : list Z) : Prop :=
  size Temp = size l + 1 ∧ ∀ k, n <= Z.of_nat k → (k < length Temp)%nat → Temp !! k = Some 0.

Lemma wp_put_temp n Temp c (Q : list Z → T → Prop) E s :
  0 <= n <= size l → temp_ok n Temp → (∀ Temp', temp_ok (n + 1) Temp' → Q Temp' s) → wp (put_char Temp n c) Q E s.
Proof.
  intros Hn [Hs Hz] HQ. apply wp_bind, wp_require; [apply Z.ltb_lt; lia|]. apply wp_ret, HQ. unfold size in *.
  split; [by unfold size; rewrite length_insert|]. intros k Hk Hk'. rewrite length_insert in Hk'. rewrite list_lookup_insert_ne by lia. apply Hz; lia.
Qed.

Lemma Utf8Length_spec (s : T) : Utf8Length Utf8Str s = Ok (size l) s.
Proof using Hl.
  pose proof (size_cstring l rest). pose proof (size_nonneg rest). pose proof (size_nonneg l).
  assert (∀ fuel i, 0 <= i <= size l → (Z.to_nat (size l - i) < fuel)%nat →
    wp (SkipWhile fuel (λ c, negb (c =? 0)) Utf8Str i) (λ r s', r = size l ∧ s' = s) (λ _ _, False) s) as Hloop.
  { induction fuel as [|fuel IH]; intros i Hi Hf; [lia|]. cbn [SkipWhile]. apply wp_bind. apply (wp_char_at l rest Hl); [done|]. intros c _ Hc.
    destruct (Z.eqb_spec c 0) as [Hc0|Hc0]; cbn [negb]; [apply wp_ret; split; [by apply Hc|done]|].
    assert (i ≠ size l) by tauto. apply IH; lia. }
  apply wp_exact, Hloop; [lia|]. unfold size in *. lia.
Qed.

Lemma DecodeLoop_safe (s : T) fuel : ∀ i n Temp,
  0 <= n <= i → i <= size l → temp_ok n Temp → (Z.to_nat (size l - i) < fuel)%nat →
  wp (DecodeLoop fuel Utf8Str (size l) i n Temp)
    (λ r s', s' = s ∧ 0 <= r.2 <= size l ∧ temp_ok r.2 r.1) (λ e s', s' = s) s.
Proof using Hl.
  induction fuel as [|fuel IH]; intros i n Temp Hn Hi Ht Hf; [lia|]. cbn [DecodeLoop].
  apply wp_bind. apply (wp_char_at l rest Hl); [lia|]. intros c Hc Hz. destruct (Z.eqb_spec c 0) as [H0|H0].
  { apply wp_ret. cbn. split; [done|]. split; [lia|done]. }
  assert (i < size l) as Hlt by (destruct (decide (i = size l)); [tauto|lia]).
  apply wp_bind. eapply wp_mono; [apply IsEscape_total; lia| |done]. intros Escape s' ->.
  destruct (Escape && (UNICODE_FORMAT_LEN <=? size l - i)) eqn:He.
  - apply andb_true_iff in He as [_ H6%Z.leb_le]. unfold UNICODE_FORMAT_LEN in *. apply wp_bind, wp_attempt.
    eapply wp_mono; [apply GetUCS2CharByFormat_total; lia|..]; [intros Char s' ->|intros e s' ->].
    + apply wp_bind, wp_put_temp; [lia|done|]. intros Temp' Ht'. apply IH; [lia|lia|done|lia].
    + apply wp_bind, wp_put_temp; [lia|done|]. intros Temp1 Ht1. apply wp_bind, wp_put_temp; [lia|done|]. intros Temp2 Ht2.
      replace (n + 1 + 1) with (n + 2) in * by lia. destruct Ht2 as [Hs2 Hz2]. unfold size in *.
      apply wp_bind, wp_bind, wp_require; [apply Z.ltb_lt; unfold size; lia|]. apply wp_ret. apply IH; [lia|unfold size; lia| |unfold size; lia].
      rewrite list_insert_id by (apply Hz2; lia). by split.
  - apply wp_bind. eapply wp_intro_ok; [by apply GetUTF8SizeForUCS2_exact|]. apply wp_bind, wp_fail_if; [done|].
    intros [H1%Z.eqb_neq H2%Z.ltb_ge]%orb_false_iff. pose proof (lead_size_range c). pose proof (size_cstring l rest). pose proof (size_nonneg rest).
    apply wp_bind. eapply wp_mono; [apply (UTF8ToUCS2Char_total _ _ s c); [lia|done|lia]| |by intros e s' [-> _]].
    intros Char s' ->. apply wp_bind, wp_put_temp; [lia|done|]. intros Temp' Ht'. apply IH; [lia|lia|done|lia].
Qed.

(** The copy into the result: the characters before the first zero, then zeros. *)
Lemma copy_result {A} l1 r1 n (s : T) (K : list Z → M T A) (Q : A → T → Prop) E :
  chars l1 → size l1 <= n → (∀ l2 r2, chars l2 → n + 1 = size l2 + 1 + size r2 →
     (n + 1 <= PcdMaximumUnicodeStringLength → l2 = l1) → wp (K (l2 ++ 0 :: r2)) Q E s) →
  wp (Status ← attempt (StrCpyS (zeros (n + 1)) (n + 1) (l1 ++ 0 :: r1));
      Ucs2Str ← put_char (match Status with inr s => s | inl _ => zeros (n + 1) end) n 0; K Ucs2Str) Q E s.
Proof.
  intros Hl1 Hn HQ. pose proof (size_nonneg l1). assert (size (zeros (n + 1)) = n + 1) as Hz by (apply size_zeros; lia).
  assert (∀ (out l2 r2 : list Z), out = l2 ++ 0 :: r2 → chars l2 → n + 1 = size l2 + 1 + size r2 → (n + 1 <= PcdMaximumUnicodeStringLength → l2 = l1) →
    out !! Z.to_nat n = Some 0 → wp (Ucs2Str ← put_char out n 0; K Ucs2Str) Q E s) as Hput.
  { intros out l2 r2 -> Hl2 Hsz Heq Hlast. apply wp_bind, wp_bind, wp_require; [apply Z.ltb_lt; rewrite size_cstring; lia|]. apply wp_ret.
    rewrite list_insert_id by done. by apply HQ. }
  assert (zeros (n + 1) = [] ++ 0 :: zeros n) as Hnil.
  { unfold zeros. replace (Z.to_nat (n + 1)) with (S (Z.to_nat n)) by lia. done. }
  apply wp_bind, wp_attempt, StrCpyS_spec; [done|lia|..].
  - intros Hmax _. apply (Hput _ l1 (drop (S (length l1)) (zeros (n + 1)))); [done|done| |done|].
    + unfold size in *. rewrite length_drop. lia.
    + unfold size in *. destruct (decide (n = Z.of_nat (length l1))) as [->|Hne].
      * rewrite lookup_app_r by lia. by replace (Z.to_nat (Z.of_nat (length l1)) - length l1)%nat with O by lia.
      * rewrite lookup_app_r by lia. replace (Z.to_nat n - length l1)%nat with (S (Z.to_nat n - length l1 - 1)) by lia.
        change (drop (S (length l1)) (zeros (n + 1)) !! (Z.to_nat n - length l1 - 1)%nat = Some 0). rewrite lookup_drop. unfold zeros. rewrite lookup_replicate_2 by lia. done.
  - intros Hbig. apply (Hput _ [] (zeros n)); [done|by apply Forall_nil|rewrite size_zeros by lia; change (size (@nil Z)) with 0; lia|intros ?; exfalso; lia|].
    unfold zeros. rewrite lookup_replicate_2 by lia. done.
  - intros _ Hbad. lia.
Qed.

(** The string is what the loop leaves in the buffer, unless StrCpyS refuses it. *)
Lemma UTF8StrToUCS2_by_loop `{HOk : !PlatformOk} (Done : Z → list Z → Prop) (Bad : Prop) (s : T) :
  size l < 2 ^ 30 →
  (∀ s1 : T, wp (DecodeLoop (S (Z.to_nat (size l))) Utf8Str (size l) 0 0 (zeros (size l + 1)))
     (λ r s', s' = s1 ∧ 0 <= r.2 <= size l ∧ temp_ok r.2 r.1 ∧ Done r.2 (cstr r.1)) (λ _ s', s' = s1 ∧ Bad) s1) →
  wp (UTF8StrToUCS2 Utf8Str)
    (λ r s', holds s [r.1] s' ∧ ∃ n name l1 r1, Done n name ∧ r.2 = l1 ++ 0 :: r1 ∧ chars l1 ∧ (size r.2 = n + 1 ∧ n <= size l) ∧
       (n + 1 <= PcdMaximumUnicodeStringLength → l1 = name))
    (λ e s', holds s [] s' ∧ (e = RETURN_OUT_OF_RESOURCES ∨ e = RETURN_INVALID_PARAMETER ∧ Bad)) s.
Proof using Hl.
  intros Hsz Hloop. pose proof (size_nonneg l).
  assert (∀ k, 0 <= k <= size l → wrapn ((k + 1) * 2) = (k + 1) * 2 ∧ (k + 1) * 2 / 2 = k + 1) as Hwrap.
  { intros k Hk. split; [apply wrapn_small; unfold is_uint; lia|apply Z.div_mul; lia]. }
  destruct (Hwrap (size l)) as [Hw1 Hw2]; [lia|].
  apply wp_bind. eapply wp_intro_ok; [apply Utf8Length_spec|]. rewrite Hw1, Hw2. apply wp_bind.
  eapply wp_mono; [apply AllocateZeroPool_ok, holds_nil| |done]. intros [Temp|] s1 Hs1; [|apply wp_raise; by split; [|left]].
  apply wp_bind, wp_attempt. eapply wp_mono; [apply (Hloop s1)|..].
  2: { intros e s' [-> Hb]. apply wp_bind. eapply wp_mono; [by apply (FreePool_ok s [] Temp [])| |done]. intros [] s' Hs'. apply wp_raise. by split; [|right]. }
  intros [Ucs2StrTemp n] s' (-> & Hn & [Ht Hz] & HD). cbn [fst snd] in *. destruct (Hwrap n Hn) as [-> ->].
  destruct (cstr_cut (Z.to_nat n) Ucs2StrTemp) as (r1 & Heq & Hlen); [apply Hz; unfold size in *; lia|].
  rewrite Heq. set (name := cstr Ucs2StrTemp) in *. pose proof (cstr_chars Ucs2StrTemp) as Hname.
  apply wp_bind. eapply wp_mono; [by apply AllocateZeroPool_ok| |done]. intros [x|] s2 Hs2.
  2: { apply wp_bind. eapply wp_mono; [by apply (FreePool_ok s [] Temp [])| |done]. intros [] s' Hs'. apply wp_raise. by split; [|left]. }
  apply copy_result; [done|unfold size; lia|]. intros l2 r2 Hl2 Hlen2 Hcopy.
  apply wp_bind. eapply wp_mono; [by apply (FreePool_ok s [x] Temp [])| |done]. intros [] s' Hs'. apply wp_ret.
  split; [done|]. exists n, name, l2, r2. cbn [snd]. rewrite size_cstring. split_and!; [done..|lia|lia|done].
Qed.

(** What a caller of UTF8StrToUCS2 gets. *)
Definition Decoded (s : T) (r : loc * list Z) (s' : T) : Prop :=
  holds s [r.1] s' ∧ ∃ l1 r1, r.2 = l1 ++ 0 :: r1 ∧ chars l1 ∧ size l1 <= size l.

Lemma zeros_temp_ok : temp_ok 0 (zeros (size l + 1)).
Proof.
  pose proof (size_nonneg l). split; [by apply size_zeros; lia|]. intros k _ Hk. unfold zeros in *. rewrite length_replicate in Hk. by apply lookup_replicate_2.
Qed.

Lemma UTF8StrToUCS2_safe `{HOk : !PlatformOk} (s : T) :
  size l < 2 ^ 30 →
  wp (UTF8StrToUCS2 Utf8Str) (Decoded s)
    (λ e s', holds s [] s' ∧ (e = RETURN_OUT_OF_RESOURCES ∨ e = RETURN_INVALID_PARAMETER)) s.
Proof using Hl.
  intros Hsz. pose proof (size_nonneg l). eapply wp_mono; [apply (UTF8StrToUCS2_by_loop (λ _ _, True) True s Hsz)|..].
  - intros s1. eapply wp_mono; [apply (DecodeLoop_safe s1); [lia|lia|apply zeros_temp_ok|lia]|..]; [|done].
    intros r s' (-> & Hn & Ht). done.
  - intros r s' (Hs & n & name & l1 & r1 & _ & Heq & Hl1 & [Hn1 Hn2] & _). split; [done|]. exists l1, r1. split_and!; [done..|].
    rewrite Heq, size_cstring in Hn1. pose proof (size_nonneg r1). lia.
  - intros e s' [Hs [->|[-> _]]]; auto.
Qed.
End AnyString.
End Decode.

(** ** Encoding *)

Definition encode (l : list Z) : list Z := concat (map UCS2CharToUTF8 l).

Lemma encode_cons c l : encode (c :: l) = UCS2CharToUTF8 c ++ encode l.
Proof. done. Qed.

Lemma encode_app l1 l2 : encode (l1 ++ l2) = encode l1 ++ encode l2.
Proof. unfold encode. by rewrite map_app, concat_app. Qed.

Lemma size_UCS2CharToUTF8 c : 1 <= size (UCS2CharToUTF8 c) <= 3.
Proof. unfold UCS2CharToUTF8. repeat case_match; unfold size; cbn [length]; lia. Qed.

Lemma size_encode l : size l <= size (encode l) <= 3 * size l.
Proof.
  induction l as [|c l IH]; [done|]. rewrite encode_cons, size_app. pose proof (size_UCS2CharToUTF8 c).
  unfold size in *. cbn [length]. lia.
Qed.

Lemma encode_chars l : Forall (is_uint 16) l → chars l → chars (encode l).
Proof.
  induction 1 as [|c l Hc _ IH]; [done|]. intros [H0 Hl]%Forall_cons. rewrite encode_cons. apply Forall_app. split; [|by apply IH].
  destruct (UCS2CharToUTF8_spec c Hc) as (_ & _ & _ & _ & Hb & _). by apply Hb.
Qed.

Section Encode.
Context `{HPl : !Platform, HOk : !PlatformOk, HMem : !MemoryAllocationLib T}.

Lemma EncodedLength_spec l : ∀ rest Len (s : T),
  0 <= Len → Len + size (encode l) < 2 ^ 32 → EncodedLength (l ++ rest) (length l) Len s = Ok (Len + size (encode l)) s.
Proof using HOk.
  induction l as [|c l IH]; intros rest Len s H0 Hsz; apply wp_exact; cbn [length EncodedLength app].
  { apply wp_ret. change (size (encode [])) with 0. by rewrite Z.add_0_r. }
  rewrite encode_cons, size_app in *. pose proof (size_UCS2CharToUTF8 c). pose proof (size_nonneg (encode l)).
  apply wp_bind. apply (wp_char_lookup _ _ c); [done|]. cbn [drop]. rewrite wrapn_small by (unfold is_uint; lia).
  eapply wp_intro_ok; [apply IH; lia|]. split; [lia|done].
Qed.

Lemma EncodeLoop_spec l : ∀ rest Prefix Room (s : T),
  size (encode l) <= size Room → size Prefix + size Room < 2 ^ 32 →
  EncodeLoop (l ++ rest) (length l) (Prefix ++ Room) (size Prefix) s =
  Ok (Prefix ++ encode l ++ drop (length (encode l)) Room, size Prefix + size (encode l)) s.
Proof using HOk.
  induction l as [|c l IH]; intros rest Prefix Room s HR Hsz; apply wp_exact; cbn [length EncodeLoop app].
  { apply wp_ret. change (encode []) with (@nil Z). change (size []) with 0. by rewrite Z.add_0_r. }
  rewrite encode_cons, size_app in *. pose proof (size_UCS2CharToUTF8 c). pose proof (size_nonneg (encode l)). pose proof (size_nonneg Prefix).
  apply wp_bind. apply (wp_char_lookup _ _ c); [done|]. cbn [drop]. set (b := UCS2CharToUTF8 c) in *.
  apply wp_bind, wp_require; [apply in_bounds_spec; rewrite size_app; lia|].
  rewrite wrapn_small by (unfold is_uint; lia).
  assert (write_bytes (Prefix ++ Room) (size Prefix) b = (Prefix ++ b) ++ drop (length b) Room) as ->.
  { unfold write_bytes, size. rewrite Nat2Z.id, take_app_length, <- app_assoc. do 2 f_equal.
    rewrite <- drop_drop, drop_app_length. done. }
  rewrite <- size_app. assert (size (drop (length b) Room) = size Room - size b) as Hd by (unfold size in *; rewrite length_drop; lia).
  eapply wp_intro_ok; [apply IH; rewrite ?size_app; lia|]. split; [|done]. rewrite size_app, drop_drop, length_app, <- !app_assoc. f_equal. lia.
Qed.

(** The encoding and the terminator. *)
Lemma UCS2StrToUTF8_exact l rest (s : T) :
  chars l → size l <= PcdMaximumUnicodeStringLength →
  wp (UCS2StrToUTF8 (l ++ 0 :: rest)) (λ r s', r.2 = encode l ++ [0] ∧ holds s [r.1] s')
    (λ e s', e = RETURN_OUT_OF_RESOURCES ∧ holds s [] s') s.
Proof using HOk.
  intros Hl Hmax. pose proof (size_encode l) as He. pose proof (size_nonneg l). unfold PcdMaximumUnicodeStringLength in *.
  apply wp_bind. eapply wp_intro_ok; [by apply StrLen_spec|].
  assert (Z.to_nat (size l) = length l) as -> by (unfold size; lia). apply wp_bind.
  eapply wp_intro_ok; [apply EncodedLength_spec; lia|]. rewrite Z.add_0_l, wrapn_small by (unfold is_uint; lia).
  apply wp_bind. eapply wp_mono; [apply AllocateZeroPool_ok, holds_nil| |done]. intros [x|] s1 Hs1; [|by apply wp_raise].
  apply wp_bind. assert (size (zeros (size (encode l) + 1)) = size (encode l) + 1) as Hz by (apply size_zeros; lia).
  eapply wp_intro_ok; [apply (EncodeLoop_spec l _ [] (zeros (size (encode l) + 1))); rewrite Hz; change (size []) with 0; lia|].
  assert (drop (length (encode l)) (zeros (size (encode l) + 1)) = [0]) as ->.
  { unfold zeros, size. replace (Z.to_nat (Z.of_nat (length (encode l)) + 1)) with (length (encode l) + 1)%nat by lia.
    rewrite drop_replicate. by replace (length (encode l) + 1 - length (encode l))%nat with 1%nat by lia. }
  cbn beta iota. rewrite app_nil_l, Z.add_0_l. apply wp_bind, wp_bind, wp_require; [apply Z.ltb_lt; rewrite size_app; change (size [0]) with 1; lia|].
  apply wp_ret, wp_ret. cbn. split; [|done]. unfold size. rewrite Nat2Z.id.
  apply list_insert_id. rewrite lookup_app_r, Nat.sub_diag by lia. done.
Qed.
End Encode.

(** ** The round trip *)

(** No character is written as an escape sequence. *)
Definition no_escape (l : list Z) : Prop := ∀ i, l !! i = Some 92 → l !! S i ≠ Some 117.

Section RoundTrip.
Context `{HPl : !Platform, HOk : !PlatformOk, HMem : !MemoryAllocationLib T}.
Context (l rest : list Z) (Hu : Forall (is_uint 16) l) (Hl : chars l) (Hesc : no_escape l).
Abbreviation Encoded := (encode l ++ 0 :: rest).

Lemma encoded_byte l1 c l2 i b :
  l = l1 ++ c :: l2 → UCS2CharToUTF8 c !! i = Some b → Encoded !! Z.to_nat (size (encode l1) + Z.of_nat i) = Some b.
Proof.
  intros -> Hb. rewrite encode_app, encode_cons, <- !app_assoc. unfold size.
  rewrite lookup_app_r by lia. replace (Z.to_nat _ - _)%nat with i by lia. apply lookup_app_l_Some, Hb.
Qed.

(** An ASCII character can only be read where it is a character of the string. *)
Lemma first_byte c : u16 c → ∃ b bs, UCS2CharToUTF8 c = b :: bs ∧ (c < 128 → b = c ∧ bs = []) ∧ (128 <= c → 128 <= b).
Proof.
  intros Hc. destruct (UCS2CharToUTF8_spec c Hc) as (_ & Hne & _ & _ & _ & Hlo & Hhi).
  destruct (UCS2CharToUTF8 c) as [|b bs]; [done|]. exists b, bs. split; [done|]. split.
  - intros H. injection (Hlo H) as -> ->. done.
  - intros H. by destruct (proj1 (Forall_cons _ _ _) (Hhi H)).
Qed.

Lemma IsEscape_encoded l1 c l2 (s : T) : l = l1 ++ c :: l2 → IsEscape Encoded (size (encode l1)) s = Ok false s.
Proof using Hu Hl Hesc.
  intros Heq. assert (Forall (is_uint 16) (c :: l2)) as [Hc Hl2]%Forall_cons by (rewrite Heq in Hu; by apply Forall_app in Hu as [_ ?]).
  destruct (first_byte c Hc) as (b & bs & Hb & Hlo & Hhi). apply wp_exact. apply wp_bind. apply (wp_char_lookup _ _ b).
  { rewrite <- (Z.add_0_r (size _)). apply (encoded_byte l1 c l2 0); [done|]. by rewrite Hb. }
  destruct (Z.eqb_spec b 92) as [->|]; [|by apply wp_ret].
  assert (c = 92 ∧ bs = []) as [-> ->] by (destruct (decide (c < 128)); [destruct Hlo; [lia|]; by subst|lia]).
  assert (l2 !! 0%nat ≠ Some 117) as Hn.
  { intros H. apply (Hesc (length l1)); rewrite Heq.
    - by apply list_lookup_middle.
    - rewrite lookup_app_r by lia. by replace (S (length l1) - length l1)%nat with 1%nat by lia. }
  apply wp_bind. destruct l2 as [|d l3].
  { apply (wp_char_lookup _ _ 0); [|by apply wp_ret]. rewrite Heq, encode_app, encode_cons, <- !app_assoc. unfold size.
    rewrite lookup_app_r by lia. replace (Z.to_nat _ - _)%nat with 1%nat by lia. done. }
  apply Forall_cons in Hl2 as [Hd _]. destruct (first_byte d Hd) as (b & bs & Hbd & Hlod & Hhid).
  apply (wp_char_lookup _ _ b).
  { assert (size (encode (l1 ++ [92])) = size (encode l1) + 1) as <- by (by rewrite encode_app, size_app).
    rewrite <- (Z.add_0_r (size _)). apply (encoded_byte (l1 ++ [92]) d l3 0); [by rewrite <- app_assoc|]. by rewrite Hbd. }
  apply wp_ret. split; [|done]. apply Z.eqb_neq. intros ->. apply Hn. cbn. f_equal. destruct (decide (d < 128)); [|lia]. destruct Hlod; [lia|]. done.
Qed.

Lemma DecodeLoop_encoded (s : T) fuel : ∀ l1 l2 Room,
  l = l1 ++ l2 → (length l2 < length Room)%nat → (length l2 < fuel)%nat →
  DecodeLoop fuel Encoded (size (encode l)) (size (encode l1)) (size l1) (l1 ++ Room) s = Ok (l ++ drop (length l2) Room, size l) s.
Proof using Hu Hl Hesc.
  induction fuel as [|fuel IH]; intros l1 l2 Room Heq HR Hf; [lia|]. apply wp_exact. cbn [DecodeLoop].
  destruct l2 as [|c l2].
  { rewrite app_nil_r in Heq. apply wp_bind. apply (wp_char_lookup _ _ 0).
    { rewrite Heq. unfold size. rewrite lookup_app_r by lia. by replace (Z.to_nat _ - _)%nat with 0%nat by lia. }
    apply wp_ret. by rewrite Heq. }
  assert (Forall (is_uint 16) (c :: l2)) as [Hc _]%Forall_cons by (rewrite Heq in Hu; by apply Forall_app in Hu as [_ ?]).
  assert (c ≠ 0) as Hc0 by (rewrite Heq in Hl; apply Forall_app in Hl as [_ [? _]%Forall_cons]; done).
  destruct (UCS2CharToUTF8_spec c Hc) as (Hseq & Hne & Hlead & _ & Hchars & _). specialize (Hchars Hc0).
  pose proof (size_UCS2CharToUTF8 c).
  assert (∀ i b, UCS2CharToUTF8 c !! i = Some b → Encoded !! Z.to_nat (size (encode l1) + Z.of_nat i) = Some b) as Hocc.
  { intros i b. by apply encoded_byte with l2. }
  destruct (first_byte c Hc) as (b & bs & Hb & _). pose proof (Hocc 0%nat b ltac:(by rewrite Hb)) as H0. rewrite Z.add_0_r in H0.
  assert (b ≠ 0) as Hb0 by (rewrite Hb in Hchars; by apply Forall_cons in Hchars as [? _]).
  apply wp_bind. apply (wp_char_lookup _ _ b); [done|]. rewrite (proj2 (Z.eqb_neq _ _) Hb0).
  apply wp_bind. eapply wp_intro_ok; [by apply (IsEscape_encoded l1 c l2)|]. cbn [andb].
  apply wp_bind. eapply wp_intro_ok; [by apply GetUTF8SizeForUCS2_exact|].
  assert (lead_size b = size (UCS2CharToUTF8 c)) as -> by (rewrite <- Hlead, Hb; done).
  assert (size (encode l) = size (encode l1) + size (UCS2CharToUTF8 c) + size (encode l2)) as Hsz by (rewrite Heq, encode_app, encode_cons, !size_app; lia).
  pose proof (size_nonneg (encode l2)).
  apply wp_bind, wp_fail_if; [intros [Hz%Z.eqb_eq|Hz%Z.ltb_lt]%orb_true_iff; lia|intros _].
  apply wp_bind. eapply wp_intro_ok; [by apply (UTF8ToUCS2Char_sequence _ _ (UCS2CharToUTF8 c) c)|].
  destruct Room as [|r Room]; [cbn in HR; lia|]. apply wp_bind, wp_bind, wp_require.
  { apply Z.ltb_lt. unfold size. rewrite length_app. cbn [length]. lia. }
  apply wp_ret. assert (<[Z.to_nat (size l1) := c]> (l1 ++ r :: Room) = l1 ++ c :: Room) as ->.
  { unfold size. rewrite insert_app_r_alt by lia. by replace (Z.to_nat _ - _)%nat with 0%nat by lia. }
  replace (l1 ++ c :: Room) with ((l1 ++ [c]) ++ Room) by (by rewrite <- app_assoc).
  assert (size (encode l1) + size (UCS2CharToUTF8 c) = size (encode (l1 ++ [c]))) as -> by (by rewrite encode_app, size_app, (encode_cons c []), app_nil_r).
  assert (size l1 + 1 = size (l1 ++ [c])) as -> by (by rewrite size_app).
  eapply wp_intro_ok; [apply (IH _ l2); [by rewrite <- app_assoc|cbn in *; lia..]|]. done.
Qed.

Lemma UTF8StrToUCS2_encoded (s : T) :
  size l < PcdMaximumUnicodeStringLength →
  wp (UTF8StrToUCS2 Encoded) (λ r s', r.2 = l ++ [0] ∧ holds s [r.1] s')
    (λ e s', e = RETURN_OUT_OF_RESOURCES ∧ holds s [] s') s.
Proof using HOk Hu Hl Hesc.
  intros Hmax. unfold PcdMaximumUnicodeStringLength in *. pose proof (size_encode l) as He. pose proof (size_nonneg l).
  eapply wp_mono; [apply (UTF8StrToUCS2_by_loop (encode l) rest (encode_chars l Hu Hl) (λ n name, n = size l ∧ name = l) False s); [lia|]|..].
  - intros s1. set (Room := zeros (size (encode l) + 1)). assert (length Room = S (length (encode l))) as HR by (unfold Room, zeros, size; rewrite length_replicate; lia).
    eapply wp_intro_ok; [apply (DecodeLoop_encoded s1 _ [] l Room); [done|unfold size in *; lia..]|]. cbn [fst snd].
    assert (drop (length l) Room = 0 :: zeros (size (encode l) - size l)) as ->.
    { unfold Room, zeros, size in *. rewrite drop_replicate. by replace (Z.to_nat _ - _)%nat with (S (Z.to_nat (Z.of_nat (length (encode l)) - Z.of_nat (length l)))) by lia. }
    split; [done|]. split; [lia|]. split; [|split; [done|by apply cstr_app]]. split.
    + cbn [fst snd]. rewrite size_cstring, size_zeros by lia. lia.
    + intros k Hk Hlt. unfold size in *. rewrite lookup_app_r by lia. apply (lookup_replicate_2 (S _)). rewrite length_app in Hlt. unfold zeros in Hlt.
      cbn [length] in Hlt. rewrite length_replicate in Hlt. lia.
  - intros [x out] s' (Hs & n & name & l1 & r1 & [-> ->] & Heq & Hl1 & [Hsz _] & Hcopy). cbn [fst snd] in *. split; [|done].
    assert (l1 = l) as -> by (apply Hcopy; unfold PcdMaximumUnicodeStringLength; lia). rewrite Heq, size_cstring in *. destruct r1; [done|]. unfold size in Hsz. cbn [length] in Hsz. lia.
  - intros e s' [Hs [->|[_ []]]]. done.
Qed.
End RoundTrip.

(** ** Properties *)

Section Properties.
Context `{HPl : !Platform, HOk : !PlatformOk, HMem : !MemoryAllocationLib T}.

(** UTF8StrToUCS2 is safe on any string of less than a gigabyte, however malformed: it reads
    and writes inside its buffers, ends, and either returns a terminated string no longer than the input, the
    only memory left allocated, or fails with EFI_OUT_OF_RESOURCES or EFI_INVALID_PARAMETER and
    leaves nothing allocated. *)
Theorem utf8_decode_safe l rest (s : T) :
  chars l → size l < 2 ^ 30 →
  wp (UTF8StrToUCS2 (l ++ 0 :: rest)) (Decoded l s)
    (λ e s', holds s [] s' ∧ (e = RETURN_OUT_OF_RESOURCES ∨ e = RETURN_INVALID_PARAMETER)) s.
Proof. intros Hl. by apply UTF8StrToUCS2_safe. Qed.

(** C36. The conversions are inverse: a UCS-2 string of fewer than PcdMaximumUnicodeStringLength
    characters in which no backslash is followed by a u comes back from UCS2StrToUTF8 and
    UTF8StrToUCS2 unchanged, with the two new strings the only memory allocated, unless the
    memory runs out. *)
Theorem utf8_roundtrip l rest (s : T) :
  Forall (is_uint 16) l → chars l → no_escape l → size l < PcdMaximumUnicodeStringLength →
  wp (Utf8 ← UCS2StrToUTF8 (l ++ 0 :: rest);
      Ucs2 ← UTF8StrToUCS2 Utf8.2;
      mret (Utf8.1, Ucs2))
    (λ '(x, (y, Ucs2)) s', Ucs2 = l ++ [0] ∧ ∃ s1, holds s [x] s1 ∧ holds s1 [y] s')
    (λ e _, e = RETURN_OUT_OF_RESOURCES) s.
Proof.
  intros Hu Hl Hesc Hmax. apply wp_bind.
  eapply wp_mono; [apply UCS2StrToUTF8_exact; [done|lia]| |by intros e s' [-> _]]. intros [x Utf8] s1 [Heq Hs1]. cbn in Heq. subst Utf8. cbn [fst snd].
  apply wp_bind. eapply wp_mono; [by apply UTF8StrToUCS2_encoded| |by intros e s' [-> _]]. intros [y Ucs2] s2 [Heq Hs2]. cbn in Heq. subst Ucs2.
  apply wp_ret. split; [done|]. by exists s1.
Qed.
End Properties.

(** A pool for the examples: the addresses in use. *)
Definition sample_pool : Type := list loc.

#[local] Program Instance pool_memory : MemoryAllocationLib sample_pool := {|
  AllocateZeroPool n := s ← getS; let x := fresh s in modify (λ s, x :: s);; mret (Some x);
  FreePool p :=
    s ← getS;
    match p with
    | Some x => require (bool_decide (x ∈ s)) UndefinedBehaviour;; modify (filter (λ y, y ≠ x))
    | None => crash UndefinedBehaviour
    end;
  holds s0 l s := s = l ++ s0 ∧ NoDup l ∧ ∀ x, x ∈ l → x ∉ s0;
|}.
Next Obligation. intros s. split; [done|]. split; [constructor|set_solver]. Qed.
Next Obligation.
  intros s0 l s n (-> & Hnd & Hl). apply wp_bind, wp_getS, wp_bind, wp_modify, wp_ret.
  pose proof (infinite_is_fresh (l ++ s0)) as Hf. rewrite elem_of_app in Hf.
  split; [done|]. split; [constructor; [tauto|done]|]. intros x [->|Hx]%elem_of_cons; [tauto|by apply Hl].
Qed.
Next Obligation.
  intros s0 l1 x l2 s (-> & Hnd & Hl). apply wp_bind, wp_getS, wp_bind, wp_require.
  { apply bool_decide_eq_true. set_solver. }
  apply wp_modify. apply NoDup_app in Hnd as (Hn1 & Hx1 & [Hx2 Hn2]%NoDup_cons).
  assert (∀ k : list loc, x ∉ k → filter (λ y, y ≠ x) k = k) as Hid.
  { induction k as [|y k IH]; [done|]. intros [Hy Hk]%not_elem_of_cons. rewrite filter_cons_True by done. by rewrite IH. }
  split; [|split].
  - change (filter (λ y, y ≠ x) ((l1 ++ x :: l2) ++ s0) = (l1 ++ l2) ++ s0). rewrite !filter_app, filter_cons. rewrite decide_False by (by intros ?). rewrite !Hid; [done|set_solver..].
  - apply NoDup_app. split; [done|]. set_solver.
  - set_solver.
Qed.

#[local] Existing Instance platform_x64.
#[local] Existing Instance platform_x64_ok.

(** An e with an acute accent, a euro sign and an A, and then the same string broken. *)
Lemma utf8_roundtrip_witness :
  chars [0xE9; 0x20AC; 0x41] ∧
  UCS2StrToUTF8 [0xE9; 0x20AC; 0x41; 0] ([] : sample_pool) = Ok (1%positive, [0xC3; 0xA9; 0xE2; 0x82; 0xAC; 0x41; 0]) [1%positive] ∧
  wp (Utf8 ← UCS2StrToUTF8 ([0xE9; 0x20AC; 0x41] ++ 0 :: []);
      Ucs2 ← UTF8StrToUCS2 Utf8.2;
      mret (Utf8.1, Ucs2))
    (λ '(x, (y, Ucs2)) s', Ucs2 = [0xE9; 0x20AC; 0x41] ++ [0] ∧ ∃ s1, holds ([] : sample_pool) [x] s1 ∧ holds s1 [y] s')
    (λ e _, e = RETURN_OUT_OF_RESOURCES) [].
Proof.
  split; [by repeat constructor|]. split; [by vm_compute|].
  apply utf8_roundtrip; [repeat constructor; by compute|by repeat constructor| |by compute].
  intros i Hi. do 3 (destruct i as [|i]; [done|]). done.
Defined.

Lemma utf8_decode_safe_witness :
  UTF8StrToUCS2 [0xC3; 0xA9; 0xE2; 0x82; 0] ([] : sample_pool) = Err RETURN_INVALID_PARAMETER [] ∧
  wp (UTF8StrToUCS2 ([0xC3; 0xA9; 0xE2; 0x82] ++ 0 :: [])) (Decoded (HMem := pool_memory) [0xC3; 0xA9; 0xE2; 0x82] [])
    (λ e s', holds [] [] s' ∧ (e = RETURN_OUT_OF_RESOURCES ∨ e = RETURN_INVALID_PARAMETER)) [].
Proof.
  split; [by vm_compute|]. apply utf8_decode_safe; [by repeat constructor|by compute].
Defined.
