(* ===== verification/Utf8Exact.v ===== *)
(** What UTF8StrToUCS2 computes, as a function of the string alone: the conversion does not
    depend on the memory it runs in, other than by running out of it. *)
From stdpp Require Import list.
From S2P Require Import Prelude OrderedCollection Base Buffer Platform Strings Utf8.
#[local] Open Scope Z_scope.

(** ** Computations that only read their arguments *)

Section Stateless.
Context {T : Type}.

Definition at_state {A} (r : outcome unit A) (s : T) : outcome T A :=
  match r with Ok a _ => Ok a s | Err e _ => Err e s | Fault f => Fault f end.

(** [m] is [m0], whatever state it is run in. *)
Definition stateless {A} (m : M T A) (m0 : M unit A) : Prop := ∀ s, m s = at_state (m0 tt) s.

Lemma stateless_ret {A} (a : A) : stateless (mret a) (mret a).
Proof. done. Qed.

Lemma stateless_raise {A} e : stateless (A := A) (raise e) (raise e).
Proof. done. Qed.

Lemma stateless_crash {A} f : stateless (A := A) (crash f) (crash f).
Proof. done. Qed.

Lemma stateless_bind {A B} (m : M T A) m0 (k : A → M T B) k0 :
  stateless m m0 → (∀ a, stateless (k a) (k0 a)) → stateless (m ≫= k) (m0 ≫= k0).
Proof.
  intros Hm Hk s. unfold mbind, M_bind. rewrite Hm. destruct (m0 tt) as [a []|e []|f]; cbn; [apply Hk|done|done].
Qed.

Lemma stateless_attempt {A} (m : M T A) m0 : stateless m m0 → stateless (attempt m) (attempt m0).
Proof. intros Hm s. unfold attempt. rewrite Hm. by destruct (m0 tt) as [a []|e []|f]. Qed.

Lemma stateless_require b f : stateless (require b f) (require b f).
Proof. by destruct b. Qed.

Lemma stateless_fail_if b e : stateless (fail_if b e) (fail_if b e).
Proof. by destruct b. Qed.

Lemma stateless_char_at String i : stateless (char_at String i) (char_at String i).
Proof. unfold char_at. by destruct (String !! Z.to_nat i). Qed.
End Stateless.

Create HintDb stateless.
#[export] Hint Resolve stateless_ret stateless_raise stateless_crash stateless_require stateless_fail_if stateless_char_at : stateless.

(** Follows the structure of a computation. *)
Ltac stateless :=
  repeat first
    [ done
    | solve [eauto 1 with stateless]
    | apply stateless_attempt
    | apply stateless_bind; [|intros ?]
    | match goal with |- stateless (match ?x with _ => _ end) _ => destruct x end ].

Section Library.
Context `{HPl : !Platform} {T : Type}.

Lemma stateless_put_char String i c : stateless (T := T) (put_char String i c) (put_char String i c).
Proof. unfold put_char. stateless. Qed.

Lemma stateless_StrnLenLoop fuel : ∀ String MaxSize Length,
  stateless (T := T) (StrnLenLoop fuel String MaxSize Length) (StrnLenLoop fuel String MaxSize Length).
Proof. induction fuel as [|fuel IH]; intros; cbn [StrnLenLoop]; stateless. Qed.

Lemma stateless_SkipWhile p String fuel : ∀ i, stateless (T := T) (SkipWhile fuel p String i) (SkipWhile fuel p String i).
Proof. induction fuel as [|fuel IH]; intros; cbn [SkipWhile]; stateless. Qed.

Lemma stateless_HexLoop String fuel : ∀ i Data, stateless (T := T) (HexLoop fuel String i Data) (HexLoop fuel String i Data).
Proof. induction fuel as [|fuel IH]; intros; cbn [HexLoop]; stateless. Qed.
End Library.
#[export] Hint Resolve stateless_put_char stateless_StrnLenLoop stateless_SkipWhile stateless_HexLoop : stateless.

Section Conversion.
Context `{HPl : !Platform} {T : Type}.

Lemma stateless_AsciiStrHexToUintn String : stateless (T := T) (AsciiStrHexToUintn String) (AsciiStrHexToUintn String).
Proof. unfold AsciiStrHexToUintn, AsciiStrHexToUintnS, AsciiStrnLenS, StrnLenS. stateless. Qed.

Lemma stateless_IsEscape String off : stateless (T := T) (IsEscape String off) (IsEscape String off).
Proof. unfold IsEscape. stateless. Qed.

Lemma stateless_GetUTF8SizeForUCS2 String off : stateless (T := T) (GetUTF8SizeForUCS2 String off) (GetUTF8SizeForUCS2 String off).
Proof. unfold GetUTF8SizeForUCS2. stateless. Qed.
#[local] Hint Resolve stateless_AsciiStrHexToUintn stateless_IsEscape stateless_GetUTF8SizeForUCS2 : stateless.

Lemma stateless_GetUCS2CharByFormat String off : stateless (T := T) (GetUCS2CharByFormat String off) (GetUCS2CharByFormat String off).
Proof. unfold GetUCS2CharByFormat. stateless. Qed.

Lemma stateless_UTF8ToUCS2Char String off : stateless (T := T) (UTF8ToUCS2Char String off) (UTF8ToUCS2Char String off).
Proof. unfold UTF8ToUCS2Char. stateless. Qed.
#[local] Hint Resolve stateless_GetUCS2CharByFormat stateless_UTF8ToUCS2Char : stateless.

Lemma stateless_DecodeLoop String Length fuel : ∀ i n Temp,
  stateless (T := T) (DecodeLoop fuel String Length i n Temp) (DecodeLoop fuel String Length i n Temp).
Proof. induction fuel as [|fuel IH]; intros; cbn [DecodeLoop]; stateless. Qed.
End Conversion.

(** ** The decoded string *)

Section Decode.
Context `{HPl : !Platform, HOk : !PlatformOk, HMem : !MemoryAllocationLib T}.

(** The string the bytes [l] stand for, if they are UTF-8 for UCS-2 characters. *)
Definition decode (l : list Z) : option (list Z) :=
  match DecodeLoop (S (length l)) (l ++ [0]) (size l) 0 0 (zeros (size l + 1)) tt with
  | Ok (Temp, _) _ => Some (cstr Temp)
  | _ => None
  end.

Lemma decode_plain l : Forall (is_uint 16) l → chars l → no_escape l → decode (encode l) = Some l.
Proof.
  intros Hu Hl Hesc. pose proof (size_encode l) as He. unfold decode.
  assert (length (zeros (size (encode l) + 1)) = S (length (encode l))) as HR by (unfold zeros, size; rewrite length_replicate; lia).
  assert (DecodeLoop (S (length (encode l))) (encode l ++ [0]) (size (encode l)) 0 0 (zeros (size (encode l) + 1)) tt =
    Ok (l ++ drop (length l) (zeros (size (encode l) + 1)), size l) tt) as ->
    by (apply (DecodeLoop_encoded l [] Hu Hl Hesc tt _ [] l); [done|unfold size in *; lia..]).
  assert (∃ r, drop (length l) (zeros (size (encode l) + 1)) = 0 :: r) as [r ->].
  { unfold zeros, size in *. rewrite drop_replicate. destruct (_ - _)%nat as [|k] eqn:Hk; [lia|]. by exists (replicate k 0). }
  by rewrite cstr_app.
Qed.

Lemma UTF8StrToUCS2_exact l (s : T) :
  chars l → size l < PcdMaximumUnicodeStringLength →
  wp (UTF8StrToUCS2 (l ++ [0]))
    (λ r s', holds s [r.1] s' ∧ ∃ name r1, decode l = Some name ∧ r.2 = name ++ 0 :: r1 ∧ chars name ∧ size name <= size l)
    (λ e s', holds s [] s' ∧ (e = RETURN_OUT_OF_RESOURCES ∨ e = RETURN_INVALID_PARAMETER ∧ decode l = None)) s.
Proof using HOk.
  intros Hl Hmax. unfold PcdMaximumUnicodeStringLength in Hmax. pose proof (size_nonneg l).
  eapply wp_mono; [apply (UTF8StrToUCS2_by_loop l [] Hl (λ _ name, decode l = Some name) (decode l = None) s); [lia|]|..].
  - intros s1. pose proof (wp_cases _ _ _ _ (DecodeLoop_safe l [] Hl s1 (S (Z.to_nat (size l))) 0 0 (zeros (size l + 1)) ltac:(lia) ltac:(lia)
      (zeros_temp_ok l) ltac:(lia))) as Hsafe.
    apply wp_of_cases. rewrite stateless_DecodeLoop in *. unfold decode. replace (S (length l)) with (S (Z.to_nat (size l))) by (unfold size; lia).
    destruct (DecodeLoop _ _ _ _ _ _ tt) as [[Temp n] []|e []|f]; cbn in *; [|done|done]. destruct Hsafe as (_ & Hn & Ht). done.
  - intros [x out] s' (Hs & n & name & l1 & r1 & Hd & Heq & Hl1 & [Hsz Hn] & Hcopy). cbn [fst snd] in *. split; [done|].
    assert (l1 = name) as -> by (apply Hcopy; unfold PcdMaximumUnicodeStringLength; lia). exists name, r1. split_and!; [done..|].
    rewrite Heq, size_cstring in Hsz. pose proof (size_nonneg r1). lia.
  - done.
Qed.
End Decode.
