(* ===== verification/LinkedList.v ===== *)
(** The doubly-linked lists of BaseLib (MdePkg/Library/BaseLib/LinkedList.c) on nodes in memory, and
    that they are lists. *)
From S2P Require Import Prelude Base Platform.
From stdpp Require Import gmap.
#[local] Open Scope Z_scope.

(** The PCDs of the library. *)
Class ListPcds := {
  PcdMaximumLinkedListLength : Z;
  PcdVerifyNodeInList : bool;
  PcdMaximumLinkedListLength_u32 : u32 PcdMaximumLinkedListLength;
}.

(** Nodes have addresses in [A]; a link is one or NULL. *)
Record LIST_ENTRY (A : Type) := mkEntry { ForwardLink : option A; BackLink : option A }.
Arguments mkEntry {A}.
Arguments ForwardLink {A}.
Arguments BackLink {A}.

Section Lists.
Context `{HPl : !Platform, HLp : !ListPcds} `{HA : Countable A}.

Abbreviation heap := (gmap A (LIST_ENTRY A)).

(** *** Access to a node *)

Definition entry (x : A) : M heap (LIST_ENTRY A) :=
  h ← getS; match h !! x with Some e => mret e | None => crash UndefinedBehaviour end.

(** The node a link leads to. *)
Definition follow (p : option A) : M heap A := match p with Some x => mret x | None => crash UndefinedBehaviour end.

Definition set_ForwardLink (x : A) (v : option A) : M heap unit :=
  e ← entry x; modify (<[x := mkEntry v (BackLink e)]>).

Definition set_BackLink (x : A) (v : option A) : M heap unit :=
  e ← entry x; modify (<[x := mkEntry (ForwardLink e) v]>).

(** [ASSERT (f (...))]: the call is made only where ASSERTs are enabled. *)
Definition ASSERT_CALL (m : M heap bool) : M heap unit :=
  if DebugAssertEnabled then b ← m; ASSERT b else mret tt.

(** ** LinkedList.c *)

(** [do { Ptr = Ptr->ForwardLink; Count++; } while (...)] *)
Fixpoint CountLoop (fuel : nat) (List Ptr : A) (Count : Z) : M heap Z :=
  match fuel with
  | O => crash OutOfFuel
  | S k =>
      e ← entry Ptr;
      Ptr ← follow (ForwardLink e);
      let Count := wrapn (Count + 1) in
      if negb (bool_decide (Ptr = List)) && (Count <? PcdMaximumLinkedListLength) then CountLoop k List Ptr Count
      else mret Count
  end.

Definition InternalBaseLibIsListValid (List : A) : M heap bool :=
  e ← entry List;
  ASSERT (bool_decide (is_Some (ForwardLink e)));;
  ASSERT (bool_decide (is_Some (BackLink e)));;
  if 0 <? PcdMaximumLinkedListLength then
    h ← getS;
    Count ← CountLoop (S (size h)) List List 0;
    mret (Count <? PcdMaximumLinkedListLength)
  else mret true.

Fixpoint FindLoop (fuel : nat) (FirstEntry SecondEntry Ptr : A) (Count : Z) : M heap bool :=
  match fuel with
  | O => crash OutOfFuel
  | S k =>
      e ← entry Ptr;
      Ptr ← follow (ForwardLink e);
      let Count := if 0 <? PcdMaximumLinkedListLength then wrapn (Count + 1) else Count in
      if (0 <? PcdMaximumLinkedListLength) && (Count =? PcdMaximumLinkedListLength) then mret (bool_decide (Ptr = SecondEntry))
      else if bool_decide (Ptr = SecondEntry) then mret true
      else if bool_decide (Ptr = FirstEntry) then mret false
      else FindLoop k FirstEntry SecondEntry Ptr Count
  end.

Definition IsNodeInList (FirstEntry SecondEntry : A) : M heap bool :=
  ASSERT_CALL (InternalBaseLibIsListValid FirstEntry);;
  h ← getS;
  FindLoop (S (size h)) FirstEntry SecondEntry FirstEntry 0.

Definition ASSERT_VERIFY_NODE_IN_VALID_LIST (FirstEntry SecondEntry : A) (InList : bool) : M heap unit :=
  if PcdVerifyNodeInList then ASSERT_CALL (b ← IsNodeInList FirstEntry SecondEntry; mret (eqb InList b))
  else ASSERT_CALL (InternalBaseLibIsListValid FirstEntry).

Definition InitializeListHead (ListHead : A) : M heap A :=
  set_ForwardLink ListHead (Some ListHead);;
  set_BackLink ListHead (Some ListHead);;
  mret ListHead.

Definition InsertHeadList (ListHead Entry : A) : M heap A :=
  ASSERT_VERIFY_NODE_IN_VALID_LIST ListHead Entry false;;
  h ← entry ListHead;
  set_ForwardLink Entry (ForwardLink h);;
  set_BackLink Entry (Some ListHead);;
  e ← entry Entry;
  Next ← follow (ForwardLink e);
  set_BackLink Next (Some Entry);;
  set_ForwardLink ListHead (Some Entry);;
  mret ListHead.

Definition InsertTailList (ListHead Entry : A) : M heap A :=
  ASSERT_VERIFY_NODE_IN_VALID_LIST ListHead Entry false;;
  set_ForwardLink Entry (Some ListHead);;
  h ← entry ListHead;
  set_BackLink Entry (BackLink h);;
  e ← entry Entry;
  Previous ← follow (BackLink e);
  set_ForwardLink Previous (Some Entry);;
  set_BackLink ListHead (Some Entry);;
  mret ListHead.

Definition GetFirstNode (List : A) : M heap (option A) :=
  ASSERT_CALL (InternalBaseLibIsListValid List);;
  e ← entry List; mret (ForwardLink e).

Definition GetNextNode (List Node : A) : M heap (option A) :=
  ASSERT_VERIFY_NODE_IN_VALID_LIST List Node true;;
  e ← entry Node; mret (ForwardLink e).

Definition GetPreviousNode (List Node : A) : M heap (option A) :=
  ASSERT_VERIFY_NODE_IN_VALID_LIST List Node true;;
  e ← entry Node; mret (BackLink e).

Definition IsListEmpty (ListHead : A) : M heap bool :=
  ASSERT_CALL (InternalBaseLibIsListValid ListHead);;
  e ← entry ListHead; mret (bool_decide (ForwardLink e = Some ListHead)).

Definition IsNull (List Node : A) : M heap bool :=
  ASSERT_VERIFY_NODE_IN_VALID_LIST List Node true;;
  mret (bool_decide (Node = List)).

Definition IsNodeAtEnd (List Node : A) : M heap bool :=
  ASSERT_VERIFY_NODE_IN_VALID_LIST List Node true;;
  Null ← IsNull List Node;
  if negb Null then e ← entry List; mret (bool_decide (BackLink e = Some Node)) else mret false.

Definition RemoveEntryList (Entry : A) : M heap (option A) :=
  ASSERT_CALL (Empty ← IsListEmpty Entry; mret (negb Empty));;
  e ← entry Entry;
  Next ← follow (ForwardLink e);
  set_BackLink Next (BackLink e);;
  e ← entry Entry;
  Previous ← follow (BackLink e);
  set_ForwardLink Previous (ForwardLink e);;
  e ← entry Entry; mret (ForwardLink e).

Definition SwapListEntries (FirstEntry SecondEntry : A) : M heap A :=
  if bool_decide (FirstEntry = SecondEntry) then mret SecondEntry
  else
    ASSERT_VERIFY_NODE_IN_VALID_LIST FirstEntry SecondEntry true;;
    r ← RemoveEntryList FirstEntry;
    Ptr ← follow r;
    e ← entry Ptr;
    if bool_decide (BackLink e = Some SecondEntry) then InsertTailList SecondEntry FirstEntry
    else
      Head ← InsertHeadList SecondEntry FirstEntry;
      if bool_decide (Ptr = Head) then mret Ptr
      else
        RemoveEntryList SecondEntry;;
        InsertTailList Ptr SecondEntry;;
        mret SecondEntry.
End Lists.

(** ** Rings *)

Section Rings.
Context `{HPl : !Platform, HOk : !PlatformOk, HLp : !ListPcds} `{HA : Countable A}.
Abbreviation heap := (gmap A (LIST_ENTRY A)).

Definition fwd (h : heap) (a : A) : option A := e ← h !! a; ForwardLink e.
Definition back (h : heap) (a : A) : option A := e ← h !! a; BackLink e.

(** [a] is followed by [b]. *)
Definition linked (h : heap) (a b : A) : Prop := fwd h a = Some b ∧ back h b = Some a.

(** From [a] over [l] to [b]. *)
Fixpoint chain (h : heap) (a : A) (l : list A) (b : A) : Prop :=
  match l with [] => linked h a b | c :: l' => linked h a c ∧ chain h c l' b end.

(** The node [x] with the nodes [l] behind it, up to [x] again. *)
Definition ring (h : heap) (x : A) (l : list A) : Prop := NoDup (x :: l) ∧ chain h x l x.

Lemma chain_app h a l1 c l2 b : chain h a (l1 ++ c :: l2) b ↔ chain h a l1 c ∧ chain h c l2 b.
Proof. revert a. induction l1 as [|d l1 IH]; intros a; cbn; [done|]. rewrite IH. tauto. Qed.

Lemma chain_frame h h' a l b :
  (∀ c, c ∈ a :: l → fwd h' c = fwd h c) → (∀ c, c ∈ b :: l → back h' c = back h c) → chain h a l b → chain h' a l b.
Proof.
  revert a. induction l as [|c l IH]; cbn; intros a Hf Hb.
  - intros [H1 H2]. split; [rewrite Hf; set_solver|rewrite Hb; set_solver].
  - intros [[H1 H2] Hc]. split; [split; [rewrite Hf; set_solver|rewrite Hb; set_solver]|].
    apply IH; [set_solver|set_solver|done].
Qed.

(** A ring can be looked at from each of its nodes. *)
Lemma ring_rotate h x l1 y l2 : ring h x (l1 ++ y :: l2) → ring h y (l2 ++ x :: l1).
Proof.
  unfold ring. rewrite !chain_app. intros [Hnd [H1 H2]]. split; [|done].
  apply (NoDup_Permutation_proper _ (x :: l1 ++ y :: l2)); [|done].
  rewrite <- (Permutation_middle l1), <- (Permutation_middle l2). rewrite (Permutation_app_comm l2). apply perm_swap.
Qed.

Lemma ring_elem h x l y : ring h x l → y ∈ x :: l → ∃ l', ring h y l' ∧ x :: l ≡ₚ y :: l'.
Proof.
  intros Hr [->|Hy]%elem_of_cons; [by exists l|]. apply list_elem_of_split in Hy as (l1 & l2 & ->).
  exists (l2 ++ x :: l1). split; [by apply ring_rotate|].
  rewrite <- (Permutation_middle l1), <- (Permutation_middle l2). rewrite (Permutation_app_comm l2). apply perm_swap.
Qed.

(** The links of the nodes of a ring. *)
Lemma ring_lookup h x l y : ring h x l → y ∈ x :: l → ∃ e, h !! y = Some e ∧ is_Some (ForwardLink e) ∧ is_Some (BackLink e).
Proof.
  intros Hr Hy. destruct (ring_elem h x l y Hr Hy) as (l' & [_ Hc] & _).
  assert (is_Some (fwd h y)) as [f Hf] by (destruct l' as [|c l']; [destruct Hc as [H _]|destruct Hc as [[H _] _]]; by eexists).
  assert (is_Some (back h y)) as [k Hk].
  { destruct l' as [|c l'' _] using rev_ind; [destruct Hc as [_ H]|apply chain_app in Hc as [_ [_ H]]]; by eexists. }
  unfold fwd, back in *. destruct (h !! y) as [e|]; [|done]. exists e. cbn in *. split_and!; [done|by eexists|by eexists].
Qed.

(** *** Changes of a ring *)

(** The nodes before and after a position. *)
Fixpoint before (x : A) (l1 : list A) : A := match l1 with [] => x | y :: l => before y l end.
Definition after (x : A) (l2 : list A) : A := match l2 with [] => x | y :: _ => y end.

Lemma before_snoc x l p : before x (l ++ [p]) = p.
Proof. revert x. induction l as [|y l IH]; intros x; [done|]. apply IH. Qed.

(** [e] is put between [p] and [q]; taken out from between them. *)
Definition inserted (h : heap) (p e q : A) (h' : heap) : Prop :=
  (∀ c, fwd h' c = if decide (c = p) then Some e else if decide (c = e) then Some q else fwd h c) ∧
  (∀ c, back h' c = if decide (c = q) then Some e else if decide (c = e) then Some p else back h c) ∧ dom h' = dom h.

Definition removed (h : heap) (p q : A) (h' : heap) : Prop :=
  (∀ c, fwd h' c = if decide (c = p) then Some q else fwd h c) ∧
  (∀ c, back h' c = if decide (c = q) then Some p else back h c) ∧ dom h' = dom h.

Lemma chain_between h x l1 l2 :
  chain h x (l1 ++ l2) x → ((∃ l1', l1 = l1' ++ [before x l1] ∧ chain h x l1' (before x l1)) ∨ l1 = [] ∧ before x l1 = x) ∧
    ((∃ l2', l2 = after x l2 :: l2' ∧ chain h (after x l2) l2' x) ∨ l2 = [] ∧ after x l2 = x) ∧ linked h (before x l1) (after x l2).
Proof.
  intros Hc. destruct l1 as [|p l1 _] using rev_ind; [|rewrite before_snoc, <- app_assoc in *]; destruct l2 as [|q l2]; cbn in *.
  - split; [by right|]. split; [by right|done].
  - destruct Hc as [Hl Hc]. split; [by right|]. split; [left; by exists l2|done].
  - apply chain_app in Hc as [Hc Hl]. split; [left; by exists l1|]. split; [by right|done].
  - apply chain_app in Hc as [Hc [Hl Hc']]. split; [left; by exists l1|]. split; [left; by exists l2|done].
Qed.

Lemma ring_insert h h' x l1 l2 e :
  ring h x (l1 ++ l2) → e ∉ x :: l1 ++ l2 → inserted h (before x l1) e (after x l2) h' → ring h' x (l1 ++ e :: l2).
Proof.
  intros [Hnd Hc] He (Hf & Hb & _). split.
  { apply (NoDup_Permutation_proper _ (e :: x :: l1 ++ l2)); [|by constructor]. rewrite <- (Permutation_middle l1). apply perm_swap. }
  apply chain_app. destruct (chain_between h x l1 l2 Hc) as (H1 & H2 & Hl).
  remember (before x l1) as p eqn:Hbefore. remember (after x l2) as q eqn:Hafter. clear Hbefore Hafter.
  assert (p ∈ x :: l1) as Hp by (destruct H1 as [(? & -> & _)|[-> ->]]; set_solver).
  assert (q ∈ x :: l2) as Hq by (destruct H2 as [(? & -> & _)|[-> ->]]; set_solver).
  apply NoDup_cons in Hnd as [Hx [Hn1 [Hn12 Hn2]]%NoDup_app]. split.
  - assert (linked h' p e) as Hpe by (split; [by rewrite Hf, decide_True|rewrite Hb, decide_False by set_solver; by rewrite decide_True]).
    destruct H1 as [(l1' & Heq & Hc1)|[-> ->]]; [|done]. rewrite Heq. apply chain_app. split; [|done].
    rewrite Heq in Hn1. apply NoDup_app in Hn1 as (_ & Hpl & _).
    eapply chain_frame; [..|exact Hc1]; intros c Hcin.
    + rewrite Hf, !decide_False; [done|set_solver|set_solver].
    + rewrite Hb, !decide_False; [done|set_solver|]. intros ->. set_solver.
  - assert (linked h' e q) as Heq by (split; [rewrite Hf, decide_False by set_solver; by rewrite decide_True|by rewrite Hb, decide_True]).
    destruct H2 as [(l2' & Hq2 & Hc2)|[-> ->]]; [|done]. rewrite Hq2. split; [done|].
    rewrite Hq2 in Hn2. apply NoDup_cons in Hn2 as [Hql _].
    eapply chain_frame; [..|exact Hc2]; intros c Hcin.
    + rewrite Hf, !decide_False; [done|set_solver|set_solver].
    + rewrite Hb, !decide_False; [done|set_solver|set_solver].
Qed.

Lemma ring_remove h h' x l1 l2 e :
  ring h x (l1 ++ e :: l2) → removed h (before x l1) (after x l2) h' → ring h' x (l1 ++ l2).
Proof.
  intros [Hnd Hc] (Hf & Hb & _). rewrite <- Permutation_middle in Hnd. apply NoDup_cons in Hnd as [Hx [He Hnd]%NoDup_cons].
  assert (x ∉ l1 ++ l2) as Hx' by set_solver. split; [by constructor|]. apply chain_app in Hc as [Hc1 Hc2].
  assert (linked h' (before x l1) (after x l2)) as Hl by (split; [by rewrite Hf, decide_True|by rewrite Hb, decide_True]).
  apply NoDup_app in Hnd as (Hn1 & Hn12 & Hn2).
  assert (after x l2 ∉ l1) as Hq by (destruct l2 as [|q l2]; cbn in *; set_solver).
  assert (match l2 with [] => True | q :: l2' => chain h' q l2' x end) as Hrest.
  { destruct l2 as [|q l2]; [done|]. cbn in Hc2, Hf, Hb. destruct Hc2 as [_ Hc2]. apply NoDup_cons in Hn2 as [Hq2 _].
    assert (before x l1 ∉ q :: l2) as Hp.
    { destruct l1 as [|p l1 _] using rev_ind; [set_solver|]. rewrite before_snoc. set_solver. }
    eapply chain_frame; [..|exact Hc2]; intros c Hcin.
    - rewrite Hf, decide_False; [done|set_solver].
    - rewrite Hb, decide_False; [done|set_solver]. }
  destruct l1 as [|p l1 _] using rev_ind.
  - destruct l2 as [|q l2]; [done|]. by split.
  - rewrite before_snoc in *. rewrite <- app_assoc. cbn. apply chain_app in Hc1 as [Hc1 _].
    apply NoDup_app in Hn1 as (_ & Hpl & _). apply chain_app. split; [|destruct l2 as [|q l2]; [done|by split]].
    eapply chain_frame; [..|exact Hc1]; intros c Hcin.
    + rewrite Hf, decide_False; [done|set_solver].
    + rewrite Hb, decide_False; [done|]. intros ->. set_solver.
Qed.

(** Nothing but the nodes [l] changes, and nothing is allocated or freed. *)
Definition changes_only (l : list A) (h h' : heap) : Prop := dom h' = dom h ∧ ∀ c, c ∉ l → h' !! c = h !! c.

Lemma changes_only_ext l h h' :
  dom h' = dom h → (∀ c, c ∉ l → fwd h' c = fwd h c ∧ back h' c = back h c) → changes_only l h h'.
Proof.
  intros Hd Hc. split; [done|]. intros c Hcl. destruct (Hc c Hcl) as [Hf Hb]. unfold fwd, back in *.
  destruct (h !! c) as [[f k]|] eqn:H1, (h' !! c) as [[f' k']|] eqn:H2; cbn in *; [by subst|exfalso..|done].
  - apply not_elem_of_dom in H2. apply H2. rewrite Hd. by eapply elem_of_dom_2.
  - apply not_elem_of_dom in H1. apply H1. rewrite <- Hd. by eapply elem_of_dom_2.
Qed.

Lemma changes_only_trans l h h1 h2 : changes_only l h h1 → changes_only l h1 h2 → changes_only l h h2.
Proof. intros [Hd1 H1] [Hd2 H2]. split; [congruence|]. intros c Hc. by rewrite H2, H1. Qed.

Lemma changes_only_mono l l' h h' : l ⊆ l' → changes_only l h h' → changes_only l' h h'.
Proof. intros Hl [Hd H]. split; [done|]. intros c Hc. apply H. set_solver. Qed.

Lemma inserted_changes h p e q h' : inserted h p e q h' → changes_only [p; e; q] h h'.
Proof. intros (Hf & Hb & Hd). apply changes_only_ext; [done|]. intros c Hc. rewrite Hf, Hb, !decide_False by set_solver. done. Qed.

Lemma removed_changes h p q h' : removed h p q h' → changes_only [p; q] h h'.
Proof. intros (Hf & Hb & Hd). apply changes_only_ext; [done|]. intros c Hc. rewrite Hf, Hb, !decide_False by set_solver. done. Qed.

Lemma before_elem x l : before x l ∈ x :: l.
Proof. revert x. induction l as [|y l IH]; intros x; cbn; [by left|]. right. apply IH. Qed.

Lemma after_elem x l : after x l ∈ x :: l.
Proof. destruct l; set_solver. Qed.

(** *** Single accesses *)

Lemma ring_dom h x l y : ring h x l → y ∈ x :: l → y ∈ dom h.
Proof. intros Hr Hy. destruct (ring_lookup h x l y Hr Hy) as (e & He & _). by eapply elem_of_dom_2. Qed.

Lemma wp_entry x (Q : LIST_ENTRY A → heap → Prop) E h :
  x ∈ dom h → (∀ e, ForwardLink e = fwd h x → BackLink e = back h x → Q e h) → wp (entry x) Q E h.
Proof.
  intros [e He]%elem_of_dom HQ. apply wp_bind, wp_getS. rewrite He. apply wp_ret, HQ; unfold fwd, back; by rewrite He.
Qed.

Lemma wp_set_ForwardLink x v (Q : unit → heap → Prop) E h :
  x ∈ dom h → (∀ h', (∀ c, fwd h' c = if decide (c = x) then v else fwd h c) → (∀ c, back h' c = back h c) → dom h' = dom h → Q tt h') →
  wp (set_ForwardLink x v) Q E h.
Proof.
  intros Hx HQ. apply wp_bind, wp_entry; [done|]. intros e Hf Hb. apply wp_modify, HQ.
  - intros c. unfold fwd. destruct (decide (c = x)) as [->|Hne]; [by rewrite lookup_insert_eq|by rewrite lookup_insert_ne].
  - intros c. unfold back in *. destruct (decide (c = x)) as [->|Hne]; [by rewrite lookup_insert_eq|by rewrite lookup_insert_ne].
  - rewrite dom_insert_L. set_solver.
Qed.

Lemma wp_set_BackLink x v (Q : unit → heap → Prop) E h :
  x ∈ dom h → (∀ h', (∀ c, fwd h' c = fwd h c) → (∀ c, back h' c = if decide (c = x) then v else back h c) → dom h' = dom h → Q tt h') →
  wp (set_BackLink x v) Q E h.
Proof.
  intros Hx HQ. apply wp_bind, wp_entry; [done|]. intros e Hf Hb. apply wp_modify, HQ.
  - intros c. unfold fwd in *. destruct (decide (c = x)) as [->|Hne]; [by rewrite lookup_insert_eq|by rewrite lookup_insert_ne].
  - intros c. unfold back. destruct (decide (c = x)) as [->|Hne]; [by rewrite lookup_insert_eq|by rewrite lookup_insert_ne].
  - rewrite dom_insert_L. set_solver.
Qed.

Lemma wp_follow x (Q : A → heap → Prop) E h : Q x h → wp (follow (Some x)) Q E h.
Proof. apply wp_ret. Qed.

(** *** Validation *)

(** Short enough for the PCD. *)
Definition short (l : list A) : Prop := PcdMaximumLinkedListLength = 0 ∨ Z.of_nat (length l) + 1 < PcdMaximumLinkedListLength.

Lemma ring_length h x l : ring h x l → (length l < size h)%nat.
Proof.
  intros Hr. assert (size (list_to_set (x :: l) : gset A) <= size (dom h))%nat as Hle.
  { apply subseteq_size. intros y Hy%elem_of_list_to_set. by eapply ring_dom. }
  rewrite size_list_to_set, size_dom in Hle by apply Hr. cbn in Hle. lia.
Qed.

Lemma chain_first h p l x : chain h p l x → fwd h p = Some (after x l).
Proof. destruct l as [|c l]; [by intros [? _]|by intros [[? _] _]]. Qed.

Lemma fwd_dom h p q : fwd h p = Some q → p ∈ dom h.
Proof. unfold fwd. destruct (h !! p) eqn:Hp; [|done]. intros _. by eapply elem_of_dom_2. Qed.

Lemma CountLoop_spec h x : ∀ l p Count fuel,
  chain h p l x → x ∉ l → 0 <= Count < PcdMaximumLinkedListLength → (length l < fuel)%nat →
  CountLoop fuel x p Count h = Ok (Z.min (Count + Z.of_nat (length l) + 1) PcdMaximumLinkedListLength) h.
Proof using HOk.
  pose proof PcdMaximumLinkedListLength_u32 as Hmax. unfold is_uint in Hmax.
  induction l as [|c l IH]; intros p Count fuel Hc Hx HC Hf; (destruct fuel as [|fuel]; [lia|]); apply wp_exact; cbn [CountLoop];
    pose proof (chain_first _ _ _ _ Hc) as Hfwd; apply wp_bind, wp_entry; try by eapply fwd_dom.
  - intros e -> _. rewrite Hfwd. apply wp_bind, wp_follow. cbn [after]. rewrite bool_decide_true by done. cbn [negb andb].
    apply wp_ret. rewrite wrapn_small by (unfold is_uint; lia). cbn [length]. split; [lia|done].
  - intros e -> _. rewrite Hfwd. apply wp_bind, wp_follow. cbn [after]. rewrite bool_decide_false by set_solver. cbn [negb andb].
    rewrite wrapn_small by (unfold is_uint; lia). cbn [length]. destruct (Z.ltb_spec (Count + 1) PcdMaximumLinkedListLength) as [Hlt|Hge].
    + eapply wp_intro_ok; [apply IH; [apply Hc|set_solver|lia|cbn in Hf; lia]|]. split; [f_equal; lia|done].
    + apply wp_ret. split; [lia|done].
Qed.

Lemma InternalBaseLibIsListValid_spec h x l : ring h x l → short l → InternalBaseLibIsListValid x h = Ok true h.
Proof using HOk.
  intros Hr Hs. destruct (ring_lookup h x l x Hr) as (e & He & Hf & Hb); [by left|]. pose proof PcdMaximumLinkedListLength_u32 as Hmax. unfold is_uint in Hmax.
  apply wp_exact. apply wp_bind, wp_bind, wp_getS. rewrite He. apply wp_ret.
  apply wp_bind, wp_ASSERT; [by apply bool_decide_eq_true|]. apply wp_bind, wp_ASSERT; [by apply bool_decide_eq_true|].
  destruct (Z.ltb_spec 0 PcdMaximumLinkedListLength) as [Hm|Hm]; [|by apply wp_ret].
  apply wp_bind, wp_getS, wp_bind. pose proof (ring_length h x l Hr). destruct Hr as [[Hx _]%NoDup_cons Hc].
  eapply wp_intro_ok; [apply CountLoop_spec; [exact Hc|done|lia|lia]|]. apply wp_ret. split; [|done]. destruct Hs as [?|?]; [lia|]. apply Z.ltb_lt. lia.
Qed.

Lemma FindLoop_spec h x y : ∀ l p Count fuel,
  chain h p l x → x ∉ l → 0 <= Count → PcdMaximumLinkedListLength = 0 ∨ Count + Z.of_nat (length l) + 1 < PcdMaximumLinkedListLength →
  (length l < fuel)%nat → FindLoop fuel x y p Count h = Ok (bool_decide (y ∈ x :: l)) h.
Proof using HOk.
  pose proof PcdMaximumLinkedListLength_u32 as Hmax. unfold is_uint in Hmax.
  induction l as [|c l IH]; intros p Count fuel Hc Hx HC Hs Hf; (destruct fuel as [|fuel]; [lia|]); apply wp_exact; cbn [FindLoop];
    pose proof (chain_first _ _ _ _ Hc) as Hfwd; apply wp_bind, wp_entry; try by eapply fwd_dom.
  all: intros e -> _; rewrite Hfwd; apply wp_bind, wp_follow; cbn [after].
  all: assert ((0 <? PcdMaximumLinkedListLength) && ((if 0 <? PcdMaximumLinkedListLength then wrapn (Count + 1) else Count) =? PcdMaximumLinkedListLength) = false) as ->
    by (destruct Hs as [->|Hs]; [done|]; destruct (Z.ltb_spec 0 PcdMaximumLinkedListLength); [|done]; cbn [andb length] in *; apply Z.eqb_neq;
        rewrite wrapn_small by (unfold is_uint; lia); lia).
  - case_bool_decide as Hy; [|case_bool_decide as Hx']; [..|done]; apply wp_ret; (split; [symmetry|done]); [apply bool_decide_eq_true|apply bool_decide_eq_false]; set_solver.
  - rewrite (bool_decide_false (c = x)) by set_solver. destruct (decide (c = y)) as [Hy|Hy]; [rewrite (bool_decide_true (c = y)) by done|rewrite (bool_decide_false (c = y)) by done].
    + apply wp_ret. split; [symmetry; apply bool_decide_eq_true; set_solver|done].
    + assert (0 <= (if 0 <? PcdMaximumLinkedListLength then wrapn (Count + 1) else Count)) as HC'.
      { destruct (0 <? _); [|done]. unfold wrapn, wrap. apply Z.mod_pos_bound. destruct platform_uintn as [->| ->]; lia. }
      eapply wp_intro_ok; [apply IH; [apply Hc|set_solver|done| |cbn in Hf; lia]|].
      * destruct Hs as [->|Hs]; [by left|]. right. cbn [length] in Hs. rewrite (proj2 (Z.ltb_lt _ _)) by lia. rewrite wrapn_small by (unfold is_uint; lia). lia.
      * split; [|done]. apply bool_decide_ext. set_solver.
Qed.

Lemma wp_ASSERT_CALL (m : M heap bool) (Q : unit → heap → Prop) E h : m h = Ok true h → Q tt h → wp (ASSERT_CALL m) Q E h.
Proof. intros Hm HQ. unfold ASSERT_CALL. destruct DebugAssertEnabled; [|by apply wp_ret]. apply wp_bind. eapply wp_intro_ok; [done|]. by apply wp_ASSERT. Qed.

Lemma IsNodeInList_spec h x l y : ring h x l → short l → IsNodeInList x y h = Ok (bool_decide (y ∈ x :: l)) h.
Proof using HOk.
  intros Hr Hs. apply wp_exact. apply wp_bind, wp_ASSERT_CALL; [by eapply InternalBaseLibIsListValid_spec|]. apply wp_bind, wp_getS.
  pose proof (ring_length h x l Hr). destruct Hr as [[Hx _]%NoDup_cons Hc]. eapply wp_intro_ok; [apply (FindLoop_spec h x y l); [done|done|done|done|lia]|done].
Qed.

Lemma wp_verify x y l InList (Q : unit → heap → Prop) E h :
  ring h x l → short l → InList = bool_decide (y ∈ x :: l) → Q tt h → wp (ASSERT_VERIFY_NODE_IN_VALID_LIST x y InList) Q E h.
Proof using HOk.
  intros Hr Hs -> HQ. unfold ASSERT_VERIFY_NODE_IN_VALID_LIST. destruct PcdVerifyNodeInList; apply wp_ASSERT_CALL; try done.
  - apply wp_exact, wp_bind. eapply wp_intro_ok; [by eapply IsNodeInList_spec|]. apply wp_ret. by rewrite eqb_reflx.
  - by eapply InternalBaseLibIsListValid_spec.
Qed.

(** *** Operations *)

Lemma InitializeListHead_spec h x :
  x ∈ dom h → wp (InitializeListHead x) (λ r h', r = x ∧ ring h' x [] ∧ changes_only [x] h h') (λ _ _, False) h.
Proof.
  intros Hx. apply wp_bind, wp_set_ForwardLink; [done|]. intros h1 Hf1 Hb1 Hd1. apply wp_bind, wp_set_BackLink; [by rewrite Hd1|].
  intros h2 Hf2 Hb2 Hd2. apply wp_ret. split; [done|]. split.
  - split; [apply NoDup_singleton|]. split; [by rewrite Hf2, Hf1, decide_True|by rewrite Hb2, decide_True].
  - apply changes_only_ext; [congruence|]. intros c Hc. rewrite Hf2, Hf1, Hb2, Hb1, !decide_False by set_solver. done.
Qed.

Lemma chain_last h a l b : chain h a l b → back h b = Some (before a l).
Proof. revert a. induction l as [|c l IH]; intros a; [by intros [_ ?]|]. intros [_ Hc]. by apply IH. Qed.

Lemma InsertHeadList_spec h x l e :
  ring h x l → short l → e ∈ dom h → e ∉ x :: l →
  wp (InsertHeadList x e) (λ r h', r = x ∧ inserted h x e (after x l) h') (λ _ _, False) h.
Proof using HOk.
  intros Hr Hs He Hel. assert (e ≠ x) as Hne by set_solver.
  assert (after x l ≠ e) as Hae by (pose proof (after_elem x l); set_solver).
  apply wp_bind, (wp_verify x e l); [done|done|by rewrite bool_decide_false|].
  assert (x ∈ dom h) as Hx by (eapply ring_dom; [done|by left]). assert (after x l ∈ dom h) as Ha by (eapply ring_dom; [done|apply after_elem]).
  destruct Hr as [_ Hc]. pose proof (chain_first _ _ _ _ Hc) as Hfx.
  apply wp_bind, wp_entry; [done|]. intros n -> _. rewrite Hfx.
  apply wp_bind, wp_set_ForwardLink; [done|]. intros h1 Hf1 Hb1 Hd1. apply wp_bind, wp_set_BackLink; [by rewrite Hd1|]. intros h2 Hf2 Hb2 Hd2.
  apply wp_bind, wp_entry; [by rewrite Hd2, Hd1|]. intros n' -> _. rewrite Hf2, Hf1, decide_True by done. apply wp_bind, wp_follow.
  apply wp_bind, wp_set_BackLink; [by rewrite Hd2, Hd1|]. intros h3 Hf3 Hb3 Hd3. apply wp_bind, wp_set_ForwardLink; [by rewrite Hd3, Hd2, Hd1|]. intros h4 Hf4 Hb4 Hd4.
  apply wp_ret. split; [done|]. split; [|split; [|congruence]]; intros c.
  - by rewrite Hf4, Hf3, Hf2, Hf1.
  - by rewrite Hb4, Hb3, Hb2, Hb1.
Qed.

Lemma InsertTailList_spec h x l e :
  ring h x l → short l → e ∈ dom h → e ∉ x :: l →
  wp (InsertTailList x e) (λ r h', r = x ∧ inserted h (before x l) e x h') (λ _ _, False) h.
Proof using HOk.
  intros Hr Hs He Hel. assert (e ≠ x) as Hne by set_solver.
  assert (before x l ≠ e) as Hbe by (pose proof (before_elem x l); set_solver).
  apply wp_bind, (wp_verify x e l); [done|done|by rewrite bool_decide_false|].
  assert (x ∈ dom h) as Hx by (eapply ring_dom; [done|by left]). assert (before x l ∈ dom h) as Hb by (eapply ring_dom; [done|apply before_elem]).
  destruct Hr as [_ Hc]. pose proof (chain_last _ _ _ _ Hc) as Hbx.
  apply wp_bind, wp_set_ForwardLink; [done|]. intros h1 Hf1 Hb1 Hd1.
  apply wp_bind, wp_entry; [by rewrite Hd1|]. intros n _ ->. rewrite Hb1, Hbx.
  apply wp_bind, wp_set_BackLink; [by rewrite Hd1|]. intros h2 Hf2 Hb2 Hd2.
  apply wp_bind, wp_entry; [by rewrite Hd2, Hd1|]. intros n' _ ->. rewrite Hb2, decide_True by done. apply wp_bind, wp_follow.
  apply wp_bind, wp_set_ForwardLink; [by rewrite Hd2, Hd1|]. intros h3 Hf3 Hb3 Hd3. apply wp_bind, wp_set_BackLink; [by rewrite Hd3, Hd2, Hd1|]. intros h4 Hf4 Hb4 Hd4.
  apply wp_ret. split; [done|]. split; [|split; [|congruence]]; intros c.
  - by rewrite Hf4, Hf3, Hf2, Hf1.
  - by rewrite Hb4, Hb3, Hb2, Hb1.
Qed.

Lemma RemoveEntryList_spec h e l :
  ring h e l → l ≠ [] → short l →
  wp (RemoveEntryList e) (λ r h', r = Some (after e l) ∧ removed h (before e l) (after e l) h') (λ _ _, False) h.
Proof using HOk.
  intros Hr Hl Hs. assert (e ∈ dom h) as He by (eapply ring_dom; [done|by left]).
  assert (after e l ∈ dom h) as Ha by (eapply ring_dom; [done|apply after_elem]). assert (before e l ∈ dom h) as Hb by (eapply ring_dom; [done|apply before_elem]).
  pose proof Hr as [[Hel _]%NoDup_cons Hc]. pose proof (chain_first _ _ _ _ Hc) as Hfe. pose proof (chain_last _ _ _ _ Hc) as Hbe.
  assert (after e l ≠ e) as Hae by (destruct l; cbn; set_solver).
  assert (before e l ≠ e) as Hbe' by (destruct l as [|c l]; [done|]; cbn; pose proof (before_elem c l); set_solver).
  apply wp_bind, wp_ASSERT_CALL.
  { apply wp_exact, wp_bind, wp_bind, wp_ASSERT_CALL; [by eapply InternalBaseLibIsListValid_spec|]. apply wp_bind, wp_entry; [done|]. intros n -> _. apply wp_ret, wp_ret.
    split; [|done]. rewrite Hfe, bool_decide_false; [done|]. congruence. }
  apply wp_bind, wp_entry; [done|]. intros n Hn1 Hn2. rewrite Hn1, Hn2, Hfe, Hbe. apply wp_bind, wp_follow.
  apply wp_bind, wp_set_BackLink; [done|]. intros h1 Hf1 Hb1 Hd1.
  apply wp_bind, wp_entry; [by rewrite Hd1|]. intros n' -> ->. rewrite Hf1, Hfe, Hb1, decide_False, Hbe by done. apply wp_bind, wp_follow.
  apply wp_bind, wp_set_ForwardLink; [by rewrite Hd1|]. intros h2 Hf2 Hb2 Hd2.
  apply wp_bind, wp_entry; [by rewrite Hd2, Hd1|]. intros n'' -> _. apply wp_ret. split; [by rewrite Hf2, decide_False, Hf1|].
  split; [|split; [|congruence]]; intros c.
  - by rewrite Hf2, Hf1.
  - by rewrite Hb2, Hb1.
Qed.

(** *** Operations on rings *)

Lemma before_app x l1 y l2 : before x (l1 ++ y :: l2) = before y l2.
Proof. revert x. induction l1 as [|c l1 IH]; intros x; [done|]. apply IH. Qed.

Lemma InsertHeadList_ring h x l e :
  ring h x l → short l → e ∈ dom h → e ∉ x :: l →
  wp (InsertHeadList x e) (λ r h', r = x ∧ ring h' x (e :: l) ∧ changes_only (e :: x :: l) h h') (λ _ _, False) h.
Proof using HOk.
  intros Hr Hs He Hel. eapply wp_mono; [by apply (InsertHeadList_spec h x l e)| |done]. intros r h' [-> Hi]. split; [done|]. split.
  - by apply (ring_insert h h' x [] l e).
  - eapply changes_only_mono; [|by eapply inserted_changes]. pose proof (after_elem x l). set_solver.
Qed.

Lemma InsertTailList_ring h x l e :
  ring h x l → short l → e ∈ dom h → e ∉ x :: l →
  wp (InsertTailList x e) (λ r h', r = x ∧ ring h' x (l ++ [e]) ∧ changes_only (e :: x :: l) h h') (λ _ _, False) h.
Proof using HOk.
  intros Hr Hs He Hel. eapply wp_mono; [by apply (InsertTailList_spec h x l e)| |done]. intros r h' [-> Hi]. split; [done|]. split.
  - apply (ring_insert h h' x l [] e); rewrite ?app_nil_r; done.
  - eapply changes_only_mono; [|by eapply inserted_changes]. pose proof (before_elem x l). set_solver.
Qed.

Lemma short_length l l' : length l = length l' → short l → short l'.
Proof. unfold short. by intros ->. Qed.

Lemma RemoveEntryList_ring h x l1 e l2 :
  ring h x (l1 ++ e :: l2) → short (l1 ++ e :: l2) →
  wp (RemoveEntryList e) (λ r h', r = Some (after x l2) ∧ ring h' x (l1 ++ l2) ∧ changes_only (x :: l1 ++ l2) h h') (λ _ _, False) h.
Proof using HOk.
  intros Hr Hs. eapply wp_mono; [apply (RemoveEntryList_spec h e (l2 ++ x :: l1)); [by apply ring_rotate|by destruct l2|]| |done].
  { eapply short_length; [|exact Hs]. rewrite !length_app. cbn. lia. }
  assert (after e (l2 ++ x :: l1) = after x l2) as -> by (by destruct l2). rewrite before_app.
  intros r h' [-> Hrm]. split; [done|]. split; [by eapply ring_remove|].
  eapply changes_only_mono; [|by eapply removed_changes]. pose proof (before_elem x l1). pose proof (after_elem x l2). set_solver.
Qed.

Lemma SwapListEntries_ring h a m1 b m2 :
  ring h a (m1 ++ b :: m2) → short (m1 ++ b :: m2) →
  wp (SwapListEntries a b) (λ r h', r = b ∧ ring h' b (m1 ++ a :: m2) ∧ changes_only (a :: m1 ++ b :: m2) h h') (λ _ _, False) h.
Proof using HOk.
  intros Hr Hs. assert (a ≠ b) as Hab by (destruct Hr as [[? _]%NoDup_cons _]; set_solver).
  unfold SwapListEntries. rewrite bool_decide_false by done.
  apply wp_bind, (wp_verify a b (m1 ++ b :: m2)); [done|done|symmetry; apply bool_decide_eq_true; set_solver|].
  assert (short (m2 ++ a :: m1)) as Hs1 by (eapply short_length; [|exact Hs]; rewrite !length_app; cbn; lia).
  assert (short (m2 ++ m1)) as Hs2 by (destruct Hs1 as [?|Hs1]; [by left|]; right; rewrite length_app in *; cbn in Hs1; lia).
  assert (a ∈ dom h) as Ha by (eapply ring_dom; [done|by left]).
  assert (a ∉ b :: m2 ++ m1) as Haout by (destruct Hr as [[? _]%NoDup_cons _]; set_solver).
  apply wp_bind. eapply wp_mono; [apply (RemoveEntryList_ring h b m2 a m1); [by apply ring_rotate|done]| |done].
  intros r h1 (-> & Hr1 & Hc1). set (Ptr := after b m1). apply wp_bind, wp_follow.
  assert (a ∈ dom h1) as Ha1 by (by rewrite (proj1 Hc1)).
  assert (back h1 Ptr = Some (before b m2)) as Hback.
  { destruct Hr1 as [_ Hc]. unfold Ptr. destruct m1 as [|c m1]; cbn [after].
    - rewrite app_nil_r in Hc. by apply chain_last.
    - apply chain_app in Hc as [Hc _]. by apply chain_last. }
  assert (Ptr ∈ b :: m2 ++ m1) as HPtr by (unfold Ptr; destruct m1; set_solver).
  assert (changes_only (a :: m1 ++ b :: m2) h h1) as Hout1 by (eapply changes_only_mono; [|done]; set_solver).
  apply wp_bind, wp_entry; [by eapply ring_dom|]. intros e _ ->. rewrite Hback.
  destruct (decide (m2 = [])) as [->|Hm2].
  { rewrite bool_decide_true by done. eapply wp_mono; [by apply (InsertTailList_ring h1 b m1 a)| |done]. intros r h2 (-> & Hr2 & Hc2).
    split; [done|]. split; [done|]. eapply changes_only_trans; [done|]. eapply changes_only_mono; [|done]. set_solver. }
  assert (before b m2 ≠ b) as Hbm.
  { destruct Hr1 as [[Hb _]%NoDup_cons _]. destruct m2 as [|c m2]; [done|]. cbn. pose proof (before_elem c m2). set_solver. }
  rewrite bool_decide_false by congruence.
  apply wp_bind. eapply wp_mono; [by apply (InsertHeadList_ring h1 b (m2 ++ m1) a)| |done]. intros r h2 (-> & Hr2 & Hc2).
  assert (changes_only (a :: m1 ++ b :: m2) h h2) as Hout2 by (eapply changes_only_trans; [done|]; eapply changes_only_mono; [|done]; set_solver).
  unfold Ptr in *. destruct m1 as [|c m1]; cbn [after] in *.
  { rewrite bool_decide_true by done. apply wp_ret. rewrite app_nil_r in Hr2. done. }
  assert (c ≠ b) as Hcb by (destruct Hr1 as [[? _]%NoDup_cons _]; set_solver). rewrite bool_decide_false by done.
  assert (ring h2 c (m1 ++ b :: a :: m2)) as Hr2' by (by apply (ring_rotate h2 b (a :: m2) c m1)).
  apply wp_bind. eapply wp_mono; [apply (RemoveEntryList_ring h2 c m1 b (a :: m2)); [done|]| |done].
  { eapply short_length; [|exact Hs1]. rewrite !length_app. cbn. lia. }
  intros r h3 (_ & Hr3 & Hc3). assert (b ∈ dom h3) as Hb3.
  { rewrite (proj1 Hc3). eapply ring_dom; [exact Hr2'|]. set_solver. }
  assert (b ∉ c :: m1 ++ a :: m2) as Hbout.
  { destruct Hr2 as [[? ?]%NoDup_cons _]. set_solver. }
  apply wp_bind. eapply wp_mono; [apply (InsertTailList_ring h3 c (m1 ++ a :: m2) b); [done| |done|done]| |done].
  { eapply short_length; [|exact Hs2]. rewrite !length_app. cbn. lia. }
  intros r' h4 (_ & Hr4 & Hc4). apply wp_ret. split; [done|]. split.
  - apply (ring_rotate h4 c (m1 ++ a :: m2) b []). by rewrite <- app_assoc in *.
  - eapply changes_only_trans; [done|]. eapply changes_only_trans; (eapply changes_only_mono; [|done]); set_solver.
Qed.
End Rings.

(** ** Lists *)

(** The operations on the list with a given head. *)
Inductive list_op (A : Type) :=
| OpInsertHead (e : A)
| OpInsertTail (e : A)
| OpRemove (e : A)
| OpSwap (a b : A).
Arguments OpInsertHead {A}.
Arguments OpInsertTail {A}.
Arguments OpRemove {A}.
Arguments OpSwap {A}.

Section Refinement.
Context `{HPl : !Platform, HOk : !PlatformOk, HLp : !ListPcds} `{HA : Countable A}.
Abbreviation heap := (gmap A (LIST_ENTRY A)).

Definition run_list_op (x : A) (op : list_op A) : M heap unit :=
  match op with
  | OpInsertHead e => InsertHeadList x e;; mret tt
  | OpInsertTail e => InsertTailList x e;; mret tt
  | OpRemove e => RemoveEntryList e;; mret tt
  | OpSwap a b => SwapListEntries a b;; mret tt
  end.

Fixpoint run_list_ops (x : A) (ops : list (list_op A)) : M heap unit :=
  match ops with [] => mret tt | op :: ops' => run_list_op x op;; run_list_ops x ops' end.

(** What they mean. *)
Definition swap (a b c : A) : A := if decide (c = a) then b else if decide (c = b) then a else c.

Definition apply_op (op : list_op A) (l : list A) : list A :=
  match op with
  | OpInsertHead e => e :: l
  | OpInsertTail e => l ++ [e]
  | OpRemove e => filter (λ c, c ≠ e) l
  | OpSwap a b => map (swap a b) l
  end.

Fixpoint apply_ops (ops : list (list_op A)) (l : list A) : list A :=
  match ops with [] => l | op :: ops' => apply_ops ops' (apply_op op l) end.

(** When they may be used: new nodes are allocated and not in the list, others are in it, and the
    list is not longer than the PCD permits. *)
Definition op_ok (D : gset A) (x : A) (op : list_op A) (l : list A) : Prop :=
  short l ∧ match op with
  | OpInsertHead e | OpInsertTail e => e ∈ D ∧ e ∉ x :: l
  | OpRemove e => e ∈ l
  | OpSwap a b => a ∈ l ∧ b ∈ l
  end.

Fixpoint ops_ok (D : gset A) (x : A) (ops : list (list_op A)) (l : list A) : Prop :=
  match ops with [] => True | op :: ops' => op_ok D x op l ∧ ops_ok D x ops' (apply_op op l) end.

Definition op_nodes (op : list_op A) : list A :=
  match op with OpInsertHead e | OpInsertTail e | OpRemove e => [e] | OpSwap a b => [a; b] end.

Lemma filter_out (e : A) (l : list A) : e ∉ l → filter (λ c, c ≠ e) l = l.
Proof. induction l as [|c l IH]; [done|]. intros [Hc Hl]%not_elem_of_cons. rewrite filter_cons_True by done. by rewrite IH. Qed.

Lemma apply_remove l1 e l2 : NoDup (l1 ++ e :: l2) → apply_op (OpRemove e) (l1 ++ e :: l2) = l1 ++ l2.
Proof.
  intros (Hn1 & Hd & [He Hn2]%NoDup_cons)%NoDup_app. cbn. rewrite filter_app, filter_cons_False by (by intros []).
  by rewrite !filter_out by set_solver.
Qed.

Lemma swap_out a b l : a ∉ l → b ∉ l → map (swap a b) l = l.
Proof.
  induction l as [|c l IH]; [done|]. intros [Ha Hl]%not_elem_of_cons [Hb Hl']%not_elem_of_cons. cbn. rewrite IH by done. f_equal.
  unfold swap. by rewrite !decide_False by done.
Qed.

Lemma apply_swap l1 a l2 b l3 : NoDup (l1 ++ a :: l2 ++ b :: l3) →
  apply_op (OpSwap a b) (l1 ++ a :: l2 ++ b :: l3) = l1 ++ b :: l2 ++ a :: l3 ∧ apply_op (OpSwap b a) (l1 ++ a :: l2 ++ b :: l3) = l1 ++ b :: l2 ++ a :: l3.
Proof.
  intros (Hn1 & Hd & [Ha (Hn2 & Hd2 & [Hb Hn3]%NoDup_cons)%NoDup_app]%NoDup_cons)%NoDup_app. assert (a ≠ b) as Hab by set_solver.
  cbn. rewrite !map_app. cbn. rewrite !map_app. cbn. rewrite !swap_out by set_solver. unfold swap.
  rewrite !(decide_True (P := a = a)), !(decide_True (P := b = b)), !(decide_False (P := a = b)), !(decide_False (P := b = a)) by done. done.
Qed.

Lemma run_swap h x l1 a l2 b l3 :
  ring h x (l1 ++ a :: l2 ++ b :: l3) → short (l1 ++ a :: l2 ++ b :: l3) →
  let Q := λ (_ : A) h', ring h' x (l1 ++ b :: l2 ++ a :: l3) ∧ changes_only (x :: l1 ++ a :: l2 ++ b :: l3) h h' in
  wp (SwapListEntries a b) Q (λ _ _, False) h ∧ wp (SwapListEntries b a) Q (λ _ _, False) h.
Proof using HOk.
  intros Hr Hs. assert (∀ l, length l = length (l1 ++ a :: l2 ++ b :: l3) → short l) as Hshort by (intros l Hl; by eapply short_length; [|exact Hs]).
  split.
  - eapply wp_mono; [apply (SwapListEntries_ring h a l2 b (l3 ++ x :: l1))| |done].
    + apply ring_rotate in Hr. by rewrite <- app_assoc in Hr.
    + apply Hshort. repeat (rewrite length_app || cbn [length]). lia.
    + intros r h' (_ & Hr' & Hc). split; [|eapply changes_only_mono; [|done]; set_solver].
      apply (ring_rotate h' b (l2 ++ a :: l3) x l1). by rewrite <- app_assoc.
  - eapply wp_mono; [apply (SwapListEntries_ring h b (l3 ++ x :: l1) a l2)| |done].
    + pose proof (ring_rotate h x (l1 ++ a :: l2) b l3) as Hrot. rewrite <- !app_assoc in Hrot. cbn in Hrot. rewrite <- app_assoc. by apply Hrot.
    + apply Hshort. repeat (rewrite length_app || cbn [length]). lia.
    + intros r h' (_ & Hr' & Hc). split; [|eapply changes_only_mono; [|done]; set_solver].
      rewrite <- app_assoc in Hr'. apply (ring_rotate h' a l3 x (l1 ++ b :: l2)) in Hr'. by rewrite <- app_assoc in Hr'.
Qed.

Lemma run_list_op_spec h x op l :
  ring h x l → op_ok (dom h) x op l →
  wp (run_list_op x op) (λ _ h', ring h' x (apply_op op l) ∧ changes_only (op_nodes op ++ x :: l) h h') (λ _ _, False) h.
Proof using HOk.
  intros Hr [Hs Hop]. destruct op as [e|e|e|a b]; cbn [run_list_op op_nodes]; apply wp_bind.
  - destruct Hop as [He Hel]. eapply wp_mono; [by apply (InsertHeadList_ring h x l e)| |done]. intros _ h' (_ & Hr' & Hc). by apply wp_ret.
  - destruct Hop as [He Hel]. eapply wp_mono; [by apply (InsertTailList_ring h x l e)| |done]. intros _ h' (_ & Hr' & Hc). by apply wp_ret.
  - apply list_elem_of_split in Hop as (l1 & l2 & ->). assert (NoDup (l1 ++ e :: l2)) as Hnd by (by destruct Hr as [[_ ?]%NoDup_cons _]).
    rewrite apply_remove by done. eapply wp_mono; [by apply (RemoveEntryList_ring h x l1 e l2)| |done]. intros _ h' (_ & Hr' & Hc). apply wp_ret.
    split; [done|]. eapply changes_only_mono; [|done]. set_solver.
  - destruct Hop as [Ha Hb]. destruct (decide (a = b)) as [->|Hab].
    { unfold SwapListEntries. rewrite bool_decide_true by done. apply wp_ret, wp_ret. split; [|by split].
      assert (map (swap b b) l = l) as Hid.
      { clear. induction l as [|c l IH]; [done|]. cbn. rewrite IH. f_equal. unfold swap. by destruct (decide (c = b)). }
      cbn. by rewrite Hid. }
    assert (NoDup l) as Hnd by (by destruct Hr as [[_ ?]%NoDup_cons _]).
    apply list_elem_of_split in Ha as (l1 & l2 & ->). apply elem_of_app in Hb as [Hb|[?|Hb]%elem_of_cons]; [|done|].
    + apply list_elem_of_split in Hb as (l0 & l1' & ->). rewrite <- app_assoc in *. cbn in *.
      destruct (apply_swap l0 b l1' a l2 Hnd) as [_ Heq]. cbn in Heq. rewrite Heq.
      eapply wp_mono; [apply (run_swap h x l0 b l1' a l2); done| |done]. intros _ h' [Hr' Hc]. apply wp_ret. split; [done|]. eapply changes_only_mono; [|done]. set_solver.
    + apply list_elem_of_split in Hb as (l2' & l3 & ->). destruct (apply_swap l1 a l2' b l3 Hnd) as [Heq _]. cbn in Heq. cbn. rewrite Heq.
      eapply wp_mono; [apply (run_swap h x l1 a l2' b l3); done| |done]. intros _ h' [Hr' Hc]. apply wp_ret. split; [done|]. eapply changes_only_mono; [|done]. set_solver.
Qed.

Definition ops_nodes (ops : list (list_op A)) : list A := concat (map op_nodes ops).

Lemma apply_op_subset op l : apply_op op l ⊆ op_nodes op ++ l.
Proof.
  destruct op as [e|e|e|a b]; cbn; [set_solver|set_solver| |].
  - intros c [_ Hc]%list_elem_of_filter. set_solver.
  - intros c (d & -> & Hd)%list_elem_of_fmap. unfold swap. repeat case_decide; set_solver.
Qed.

Lemma run_list_ops_spec x ops : ∀ h l,
  ring h x l → ops_ok (dom h) x ops l →
  wp (run_list_ops x ops) (λ _ h', ring h' x (apply_ops ops l) ∧ changes_only (ops_nodes ops ++ x :: l) h h') (λ _ _, False) h.
Proof using HOk.
  induction ops as [|op ops IH]; intros h l Hr Hok; cbn [run_list_ops apply_ops].
  { apply wp_ret. split; [done|]. by split. }
  destruct Hok as [Hop Hok]. apply wp_bind. eapply wp_mono; [by apply run_list_op_spec| |done]. intros _ h1 [Hr1 Hc1].
  eapply wp_mono; [apply IH; [done|]| |done]; [by rewrite (proj1 Hc1)|]. intros _ h2 [Hr2 Hc2]. split; [done|].
  pose proof (apply_op_subset op l) as Hsub. unfold ops_nodes in *. cbn.
  eapply changes_only_trans; (eapply changes_only_mono; [|done]); set_solver.
Qed.

(** *** Queries *)

(** The node behind another one in the list, or the head. *)
Fixpoint next_of (x y : A) (l : list A) : A :=
  match l with [] => x | c :: l' => if decide (c = y) then after x l' else next_of x y l' end.

Lemma next_of_split x y l1 l2 : y ∉ l1 → next_of x y (l1 ++ y :: l2) = after x l2.
Proof. induction l1 as [|c l1 IH]; cbn; intros Hy; [by rewrite decide_True|]. rewrite decide_False by set_solver. apply IH. set_solver. Qed.

Lemma ring_next (h : heap) x l y : ring h x l → y ∈ l → fwd h y = Some (next_of x y l).
Proof.
  intros [Hnd Hc] Hy. apply list_elem_of_split in Hy as (l1 & l2 & ->). apply NoDup_cons in Hnd as [_ (_ & Hd & _)%NoDup_app].
  rewrite next_of_split by set_solver. apply chain_app in Hc as [_ Hc]. by apply chain_first.
Qed.

Lemma ring_previous (h : heap) x l y : ring h x l → y ∈ l → ∃ p, back h y = Some p ∧ p ∈ x :: l ∧ fwd h p = Some y.
Proof.
  intros [Hnd Hc] Hy. apply list_elem_of_split in Hy as (l1 & l2 & ->). apply chain_app in Hc as [Hc _].
  exists (before x l1). split; [by apply chain_last|]. split; [pose proof (before_elem x l1); set_solver|].
  destruct l1 as [|p l1 _] using rev_ind; [by destruct Hc|]. rewrite before_snoc. apply chain_app in Hc as [_ Hc]. by destruct Hc.
Qed.

Lemma ring_last (h : heap) x l y : ring h x l → y ∈ l → back h x = Some y ↔ next_of x y l = x.
Proof.
  intros Hr Hy. pose proof (ring_next h x l y Hr Hy) as Hn. destruct Hr as [Hnd Hc].
  pose proof (chain_last _ _ _ _ Hc) as Hb. rewrite Hb. apply list_elem_of_split in Hy as (l1 & l2 & ->).
  apply NoDup_cons in Hnd as [Hx (_ & Hd & [Hy Hn2]%NoDup_cons)%NoDup_app]. rewrite next_of_split, before_app by set_solver.
  destruct l2 as [|c l2]; cbn; [done|]. split; [|intros ->; set_solver].
  intros [= Heq]. pose proof (before_elem c l2). rewrite Heq in *. set_solver.
Qed.
End Refinement.

(** C39. The linked list library implements lists.  On a heap in which the nodes of a list with a
    head are linked both ways, any sequence of insertions at both ends, removals and exchanges of
    nodes, used as its documentation demands, never faults, fails no ASSERT whatever the PCDs,
    and leaves the nodes linked in the order the same operations give on a sequence; no node
    other than those of the list and the arguments changes. *)
Theorem linked_list_refines `{!Platform, !PlatformOk, !ListPcds} `{Countable A} (x : A) (ops : list (list_op A))
    (h : gmap A (LIST_ENTRY A)) (l : list A) (Hr : ring h x l) (Hok : ops_ok (dom h) x ops l) :
  ∃ h', run_list_ops x ops h = Ok tt h' ∧ ring h' x (apply_ops ops l) ∧ changes_only (ops_nodes ops ++ x :: l) h h'.
Proof.
  destruct (wp_total _ _ _ (run_list_ops_spec x ops h l Hr Hok)) as ([] & h' & Hrun & Hr' & Hc). by exists h'.
Qed.

(** The queries answer for the list and change nothing: the first node or the head, the node
    behind each node, the one before it, emptiness, membership, and which node is the last. *)
Theorem linked_list_queries `{!Platform, !PlatformOk, !ListPcds} `{Countable A} (h : gmap A (LIST_ENTRY A)) (x : A) (l : list A)
    (Hr : ring h x l) (Hs : short l) :
  GetFirstNode x h = Ok (Some (after x l)) h ∧ IsListEmpty x h = Ok (bool_decide (l = [])) h ∧
  (∀ y, IsNodeInList x y h = Ok (bool_decide (y ∈ x :: l)) h) ∧
  (∀ y, y ∈ l → GetNextNode x y h = Ok (Some (next_of x y l)) h ∧
     (∃ p, GetPreviousNode x y h = Ok (Some p) h ∧ p ∈ x :: l ∧ (p = x ∨ next_of x p l = y)) ∧
     IsNull x y h = Ok false h ∧ IsNodeAtEnd x y h = Ok (bool_decide (next_of x y l = x)) h).
Proof.
  assert (x ∈ dom h) as Hx by (eapply ring_dom; [done|by left]). pose proof Hr as [[Hxl Hnd]%NoDup_cons Hc].
  pose proof (chain_first _ _ _ _ Hc) as Hf. pose proof (InternalBaseLibIsListValid_spec h x l Hr Hs) as Hv.
  split; [|split; [|split]].
  - apply wp_exact, wp_bind, wp_ASSERT_CALL; [done|]. apply wp_bind, wp_entry; [done|]. intros e -> _. apply wp_ret. by rewrite Hf.
  - apply wp_exact, wp_bind, wp_ASSERT_CALL; [done|]. apply wp_bind, wp_entry; [done|]. intros e -> _. apply wp_ret. split; [|done]. rewrite Hf.
    apply bool_decide_ext. destruct l as [|c l]; [done|]. cbn. split; [|done]. intros [= ->]. set_solver.
  - intros y. by apply IsNodeInList_spec.
  - intros y Hy. assert (y ∈ dom h) as Hyd by (eapply ring_dom; [done|by right]). assert (y ≠ x) as Hyx by (by intros ->).
    assert (∀ (Q : unit → gmap A (LIST_ENTRY A) → Prop) E, Q tt h → wp (ASSERT_VERIFY_NODE_IN_VALID_LIST x y true) Q E h) as Hver.
    { intros Q E HQ. apply (wp_verify x y l); [done|done| |done]. symmetry. apply bool_decide_eq_true. by right. }
    split; [|split; [|split]].
    + apply wp_exact, wp_bind, Hver, wp_bind, wp_entry; [done|]. intros e -> _. apply wp_ret. by rewrite (ring_next h x l y).
    + destruct (ring_previous h x l y Hr Hy) as (p & Hp & Hpin & Hpf). exists p. split; [|split; [done|]].
      * apply wp_exact, wp_bind, Hver, wp_bind, wp_entry; [done|]. intros e _ ->. apply wp_ret. by rewrite Hp.
      * apply elem_of_cons in Hpin as [->|Hpin]; [by left|]. right. rewrite (ring_next h x l p Hr Hpin) in Hpf. by injection Hpf.
    + apply wp_exact, wp_bind, Hver, wp_ret. split; [|done]. by rewrite bool_decide_false.
    + apply wp_exact, wp_bind, Hver, wp_bind, wp_bind, Hver, wp_ret. rewrite bool_decide_false by done. cbn [negb].
      apply wp_bind, wp_entry; [done|]. intros e _ ->. apply wp_ret. split; [|done]. apply bool_decide_ext. by apply ring_last.
Qed.

(** ** Samples *)

Section Witness.
#[local] Existing Instance platform_x64.
#[local] Existing Instance platform_x64_ok.

(** The default PCDs, but with the verification of nodes. *)
#[local] Instance sample_list_pcds : ListPcds.
Proof. refine {| PcdMaximumLinkedListLength := 1000000; PcdVerifyNodeInList := true |}. by compute. Defined.

(** An empty list with head 1, and three other nodes. *)
Definition sample_heap : gmap positive (LIST_ENTRY positive) :=
  <[1%positive := mkEntry (Some 1%positive) (Some 1%positive)]> (<[2%positive := mkEntry None None]> (<[3%positive := mkEntry None None]> {[4%positive := mkEntry None None]})).

Definition sample_ops : list (list_op positive) := [OpInsertTail 2%positive; OpInsertTail 3%positive; OpInsertHead 4%positive; OpSwap 4%positive 3%positive; OpRemove 2%positive].

Lemma sample_ring : ring sample_heap 1%positive [].
Proof. split; [apply NoDup_singleton|by split]. Qed.

Lemma linked_list_refines_witness :
  ∃ h', run_list_ops 1%positive sample_ops sample_heap = Ok tt h' ∧ ring h' 1%positive [3%positive; 4%positive] ∧
    h' !! 1%positive = Some (mkEntry (Some 3%positive) (Some 4%positive)).
Proof.
  destruct (linked_list_refines 1%positive sample_ops sample_heap [] sample_ring) as (h' & Hrun & Hr & _).
  - assert (∀ l : list positive, Z.of_nat (length l) + 1 < 1000000 → short l) as Hs by (intros l Hl; by right).
    assert (∀ D : gset positive, D = dom sample_heap → 2%positive ∈ D ∧ 3%positive ∈ D ∧ 4%positive ∈ D) as HD by (intros D ->; by vm_compute).
    destruct (HD _ eq_refl) as (H2 & H3 & H4).
    split; [split; [by apply Hs|split; [done|set_solver]]|]. split; [split; [by apply Hs|split; [done|set_solver]]|].
    split; [split; [by apply Hs|split; [done|set_solver]]|]. split; [split; [by apply Hs|set_solver]|]. split; [split; [by apply Hs|set_solver]|done].
  - exists h'. split; [done|]. split; [exact Hr|]. vm_compute in Hrun. injection Hrun as <-. by vm_compute.
Defined.

(** The head alone. *)
Lemma linked_list_queries_witness :
  IsListEmpty 1%positive sample_heap = Ok true sample_heap ∧ IsNodeInList 1%positive 2%positive sample_heap = Ok false sample_heap.
Proof.
  destruct (linked_list_queries sample_heap 1%positive [] sample_ring ltac:(by right)) as (_ & He & Hin & _).
  split; [exact He|]. exact (Hin 2%positive).
Defined.
End Witness.
