(* ===== verification/Ext4Dir.v ===== *)
(** Directory entries (Ext4Pkg/Ext4Dxe/Directory.c): names, validation and the lookup of a name in
    a directory, over Ext4Read and the conversion from UTF-8. *)
From Stdlib Require Import String.
From stdpp Require Import gmap.
From S2P Require Import Prelude OrderedCollection OrderedLib Base Buffer Overflow Platform PeImage CheckSum Strings Utf8 Utf8Exact Ext4Disk Ext4Checksum Ext4BlockMap Ext4Extents Ext4Cache Ext4Tree Ext4Read Ext4SuperSpec.
#[local] Open Scope string_scope.
#[local] Open Scope list_scope.
#[local] Open Scope Z_scope.

Definition EXT4_NAME_MAX : Z := 255.
Definition EXT4_MIN_DIR_ENTRY_LEN : Z := 8.

Definition EXT4_DIR_ENTRY : layout :=
  [("inode", 4); ("rec_len", 2); ("name_len", 1); ("file_type", 1); ("name", EXT4_NAME_MAX)].

(** With the padding behind the name. *)
Definition SIZEOF_EXT4_DIR_ENTRY : Z := 264.

(** EFI_UNICODE_COLLATION_PROTOCOL, which the driver has located before it is used: StriColl
    compares two strings without regard to case. *)
Class Collation := { StriColl : list Z → list Z → Z }.

(** ** The pool of the driver *)

Section Pool.
Context `{OC : !OrderedCollectionLib (loc * EXT4_EXTENT) Z, HPl : !Platform, HFw : !Firmware}.

(** The buffers [l] are allocated, nothing else has changed. *)
Definition pool_holds (s0 : ext4) (l : list loc) (s : ext4) : Prop :=
  NoDup l ∧ (∀ x, x ∈ l → Buffers s0 !! x = None ∧ is_Some (Buffers s !! x)) ∧
  (∀ x, x ∉ l → Buffers s !! x = Buffers s0 !! x) ∧
  Collections s = Collections s0 ∧ ExtentPool s = ExtentPool s0 ∧ ExtentsMap s = ExtentsMap s0.

Lemma pool_holds_nil s0 s : pool_holds s0 [] s ↔ s ≡ s0.
Proof.
  split.
  - intros (_ & _ & HB & HC & HE & HM). split_and!; [done..| |done]. apply map_eq. intros x. apply HB. set_solver.
  - intros (HC & HE & HB & HM). split_and!; [constructor|set_solver|by intros; rewrite HB|done..].
Qed.

#[export] Program Instance ext4_memory : MemoryAllocationLib ext4 := {|
  AllocateZeroPool n := AllocateBuffer n;
  FreePool p := FreeBuffer p;
  holds := pool_holds;
|}.
Next Obligation. intros s. by apply pool_holds_nil. Qed.
Next Obligation.
  intros s0 l s n (Hnd & Hin & Hout & Hrest). apply wp_AllocateBuffer; [|done].
  intros x (_ & _ & _ & Hx)%AllocatePool_fresh.
  assert (x ∉ l) as Hxl by (intros Hx'; destruct (Hin x Hx') as [_ [? ?]]; congruence).
  split; [by constructor|]. cbn. split; [|split; [|done]].
  - intros y [->|Hy]%elem_of_cons.
    + rewrite lookup_insert_eq. split; [|by eexists]. by rewrite <- Hout.
    + rewrite lookup_insert_ne by (by intros ->). by apply Hin.
  - intros y [Hne Hy]%not_elem_of_cons. rewrite lookup_insert_ne by done. by apply Hout.
Qed.
Next Obligation.
  intros s0 l1 x l2 s (Hnd & Hin & Hout & Hrest). apply NoDup_app in Hnd as (Hn1 & Hx1 & [Hx2 Hn2]%NoDup_cons).
  destruct (Hin x) as [Hx0 [n Hn]]; [set_solver|]. eapply wp_FreeBuffer; [exact Hn|]. unfold pool_holds, with_Buffers. cbn [Buffers Collections ExtentPool ExtentsMap].
  split; [apply NoDup_app; set_solver|]. split; [|split; [|done]].
  - intros y Hy. assert (y ≠ x) by set_solver. rewrite lookup_delete_ne by done. apply Hin. set_solver.
  - intros y Hy. destruct (decide (y = x)) as [->|Hne]; [by rewrite lookup_delete_eq|].
    rewrite lookup_delete_ne by done. apply Hout. set_solver.
Qed.
End Pool.

(** ** Directory.c *)

Section Directory.
Context `{OC : !OrderedCollectionLib (loc * EXT4_EXTENT) Z, HPl : !Platform, HFw : !Firmware, HCo : !Collation}.

Abbreviation entry_field f Buf off := (rd_field EXT4_DIR_ENTRY f Buf off).

(** The entry is at [off] in [Buf].  Returns what is in Ucs2FileName afterwards; on an error that
    is what was there before.  Of Utf8NameBuf we keep what was written to it. *)
Definition Ext4GetUcs2DirentName (Buf : list Z) (off : Z) (Ucs2FileName : list Z) : M ext4 (list Z) :=
  name_len ← entry_field "name_len" Buf off;
  Utf8NameBuf ← for_loop (Z.to_nat name_len) 0
    (λ Index Utf8NameBuf,
       c ← rd 1 Buf (off + offset_of EXT4_DIR_ENTRY "name" + Index);
       fail_if (c =? 0) RETURN_INVALID_PARAMETER;;
       require (size Utf8NameBuf <? EXT4_NAME_MAX + 1) OutOfBounds;;
       mret (Utf8NameBuf ++ [c])) [];
  require (size Utf8NameBuf <? EXT4_NAME_MAX + 1) OutOfBounds;;
  '(Str, Ucs2Str) ← UTF8StrToUCS2 (Utf8NameBuf ++ [0]);
  Status ← attempt (StrCpyS Ucs2FileName (EXT4_NAME_MAX + 1) Ucs2Str);
  FreePool (Some Str);;
  match Status with inl e => raise e | inr Ucs2FileName => mret Ucs2FileName end.

Definition Ext4ValidDirent (Buf : list Z) (off : Z) : M ext4 bool :=
  name_len ← entry_field "name_len" Buf off;
  let RequiredSize := wrapn (name_len + EXT4_MIN_DIR_ENTRY_LEN) in
  rec_len ← entry_field "rec_len" Buf off;
  if rec_len <? RequiredSize then mret false
  else if negb (rec_len mod 4 =? 0) then mret false
  else mret true.

Definition Ext4StrCmpInsensitive (Str1 Str2 : list Z) : Z := StriColl (cstr Str1) (cstr Str2).

Context (Directory : EXT4_FILE) (Name : list Z) (Partition : EXT4_PARTITION).

(** The loop over the entries of a block: the entry copied to Result if one has the name. *)
Fixpoint SearchBlock (fuel : nat) (Buf : list Z) (BlockOffset : Z) (DirentUcs2Name Result : list Z) :
    M ext4 (option (list Z) * list Z) :=
  match fuel with
  | O => crash OutOfFuel
  | S k =>
      if negb (BlockOffset <? BlockSize Partition) then mret (None, DirentUcs2Name)
      else
        let RemainingBlock := wrapn (BlockSize Partition - BlockOffset) in
        fail_if (RemainingBlock <? EXT4_MIN_DIR_ENTRY_LEN) RETURN_VOLUME_CORRUPTED;;
        Valid ← Ext4ValidDirent Buf BlockOffset;
        fail_if (negb Valid) RETURN_VOLUME_CORRUPTED;;
        name_len ← entry_field "name_len" Buf BlockOffset;
        rec_len ← entry_field "rec_len" Buf BlockOffset;
        fail_if ((RemainingBlock <? name_len) || (RemainingBlock <? rec_len)) RETURN_VOLUME_CORRUPTED;;
        inode ← entry_field "inode" Buf BlockOffset;
        let Next := wrapn (BlockOffset + rec_len) in
        if inode =? 0 then SearchBlock k Buf Next DirentUcs2Name Result
        else
          Status ← attempt (Ext4GetUcs2DirentName Buf BlockOffset DirentUcs2Name);
          match Status with
          | inl e => if bool_decide (e = RETURN_INVALID_PARAMETER) then SearchBlock k Buf Next DirentUcs2Name Result else raise e
          | inr DirentUcs2Name =>
              Length ← StrLen Name;
              if (name_len =? Length) && (Ext4StrCmpInsensitive DirentUcs2Name Name =? 0) then
                let ToCopy := Z.min rec_len SIZEOF_EXT4_DIR_ENTRY in
                require (in_bounds Buf BlockOffset ToCopy && in_bounds Result 0 ToCopy) OutOfBounds;;
                mret (Some (write_bytes Result 0 (slice Buf BlockOffset ToCopy)), DirentUcs2Name)
              else SearchBlock k Buf Next DirentUcs2Name Result
          end
  end.

(** The loop over the blocks. *)
Fixpoint SearchDirectory (fuel : nat) (DirInoSize Off : Z) (Buf DirentUcs2Name Result : list Z) : M ext4 (list Z) :=
  match fuel with
  | O => crash OutOfFuel
  | S k =>
      if negb (Off <? DirInoSize) then raise RETURN_NOT_FOUND
      else
        '(Buf, _) ← Ext4Read Partition Directory Buf Off (BlockSize Partition);
        '(Found, DirentUcs2Name) ← SearchBlock (S (Z.to_nat (BlockSize Partition))) Buf 0 DirentUcs2Name Result;
        match Found with
        | Some Result => mret Result
        | None => SearchDirectory k DirInoSize (wrap 64 (Off + BlockSize Partition)) Buf DirentUcs2Name Result
        end
  end.

(** [Memory] and [DirentUcs2Name] are what happens to be in the new buffer and in the local array,
    [Result] what is in the caller's structure; every way out frees the buffer. *)
Definition Ext4RetrieveDirent (Memory DirentUcs2Name Result : list Z) : M ext4 (list Z) :=
  Buf ← AllocateBuffer (BlockSize Partition);
  match Buf with
  | None => raise RETURN_OUT_OF_RESOURCES
  | Some x =>
      Status ← attempt (
        DirInoSize ← EXT4_INODE_SIZE (Inode Directory);
        '(_, BlockRemainder) ← DivU64x32Remainder DirInoSize (BlockSize Partition);
        fail_if (negb (BlockRemainder =? 0)) RETURN_VOLUME_CORRUPTED;;
        SearchDirectory (S (Z.to_nat (DirInoSize / BlockSize Partition))) DirInoSize 0 Memory DirentUcs2Name Result);
      FreeBuffer (Some x);;
      match Status with inl e => raise e | inr Result => mret Result end
  end.
End Directory.

(** ** Entries *)

Definition entry_inode (b : list Z) (o : Z) : Z := load 4 b o.
Definition entry_rec (b : list Z) (o : Z) : Z := load 2 b (o + 4).
Definition entry_nlen (b : list Z) (o : Z) : Z := load 1 b (o + 6).
Definition entry_name (b : list Z) (o : Z) : list Z := slice b (o + 8) (entry_nlen b o).

(** An entry that fits the block and has room for its name. *)
Definition entry_ok (b : list Z) (o : Z) : Prop :=
  o + 8 <= size b ∧ entry_nlen b o + 8 <= entry_rec b o ∧ entry_rec b o mod 4 = 0 ∧ o + entry_rec b o <= size b.

Section Entries.
Context `{OC : !OrderedCollectionLib (loc * EXT4_EXTENT) Z, HPl : !Platform, HOk : !PlatformOk, HFw : !Firmware, HCo : !Collation}.
Context (b : list Z) (Hb : bytes b) (HBS : size b <= 65536).

Lemma entry_ranges o : 0 <= entry_inode b o < 2 ^ 32 ∧ 0 <= entry_rec b o < 2 ^ 16 ∧ 0 <= entry_nlen b o < 2 ^ 8.
Proof using Hb. split; [by apply load_u32|]. split; [by apply load_u16|]. by apply (load_range 1). Qed.

Lemma size_entry_name o : 0 <= o → entry_ok b o → size (entry_name b o) = entry_nlen b o.
Proof using Hb. intros Ho (H8 & Hn & _ & Hr). pose proof (entry_ranges o). apply size_slice; lia. Qed.

Lemma Ext4ValidDirent_spec o s :
  0 <= o → o + 8 <= size b →
  Ext4ValidDirent b o s = Ok (negb (entry_rec b o <? entry_nlen b o + 8) && (entry_rec b o mod 4 =? 0)) s.
Proof using Hb HOk.
  intros Ho H8. pose proof (entry_ranges o) as (_ & Hr & Hn). apply wp_exact. unfold Ext4ValidDirent, rd_field. layouts.
  apply wp_bind, wp_rd; [lia|lia|]. apply wp_bind, wp_rd; [lia|lia|]. fold (entry_nlen b o) (entry_rec b o). unfold EXT4_MIN_DIR_ENTRY_LEN.
  rewrite wrapn_small by (unfold is_uint; lia). destruct (entry_rec b o <? entry_nlen b o + 8), (entry_rec b o mod 4 =? 0); by apply wp_ret.
Qed.

(** The loop over the name. *)
Lemma copy_name_spec o (s : ext4) :
  0 <= o → entry_ok b o →
  wp (for_loop (Z.to_nat (entry_nlen b o)) 0
    (λ Index Utf8NameBuf,
       c ← rd 1 b (o + offset_of EXT4_DIR_ENTRY "name" + Index);
       fail_if (c =? 0) RETURN_INVALID_PARAMETER;;
       require (size Utf8NameBuf <? EXT4_NAME_MAX + 1) OutOfBounds;;
       mret (Utf8NameBuf ++ [c])) [])
    (λ r s', s' = s ∧ r = entry_name b o ∧ chars r) (λ e s', s' = s ∧ e = RETURN_INVALID_PARAMETER ∧ ¬ chars (entry_name b o)) s.
Proof using Hb.
  intros Ho (H8 & Hn & _ & Hr). pose proof (entry_ranges o) as (_ & _ & Hl). layouts.
  eapply wp_mono; [apply (wp_for_loop (λ i r s', s' = s ∧ r = slice b (o + 8) i ∧ chars r)) with (E := λ e s', s' = s ∧ e = RETURN_INVALID_PARAMETER ∧ ¬ chars (entry_name b o))| |done].
  - split; [done|]. split; [done|constructor].
  - intros j r s' Hj (-> & -> & Hc). apply wp_bind, wp_rd; [lia|lia|]. rewrite load_byte. apply wp_bind, wp_fail_if.
    + intros H0%Z.eqb_eq. split; [done|]. split; [done|]. intros Hch. unfold entry_name in Hch.
      assert (byte_at (slice b (o + 8) (entry_nlen b o)) j = 0) as Hz by (by rewrite byte_at_slice by lia).
      apply (Forall_lookup_1 _ _ (Z.to_nat j) 0) in Hch; [done|]. rewrite <- Hz. unfold byte_at. destruct (Z.ltb_spec j 0); [lia|].
      rewrite nth_lookup. assert (size (slice b (o + 8) (entry_nlen b o)) = entry_nlen b o) as Hsz by (apply size_slice; lia). unfold size in Hsz.
      destruct (lookup_lt_is_Some_2 (slice b (o + 8) (entry_nlen b o)) (Z.to_nat j)) as [c Hcj]; [lia|]. by rewrite Hcj.
    + intros H0%Z.eqb_neq. apply wp_bind, wp_require; [apply Z.ltb_lt; unfold EXT4_NAME_MAX; rewrite size_slice; lia|]. apply wp_ret.
      assert (slice b (o + 8 + j) 1 = [byte_at b (o + 8 + j)]) as H1.
      { apply buffer_ext; [rewrite size_slice by lia; done|]. intros i Hi. rewrite size_slice in Hi by lia. assert (i = 0) as -> by lia.
        rewrite byte_at_slice by lia. by rewrite Z.add_0_r. }
      split; [done|]. rewrite <- H1. split; [apply slice_app; lia|]. apply Forall_app. split; [done|]. rewrite H1. by repeat constructor.
  - intros r s' (-> & -> & Hc). split; [done|]. rewrite Z.add_0_l, Z2Nat.id in * by lia. done.
Qed.

Lemma Ext4GetUcs2DirentName_spec o Ucs2FileName s :
  0 <= o → entry_ok b o → size Ucs2FileName = EXT4_NAME_MAX + 1 →
  wp (Ext4GetUcs2DirentName b o Ucs2FileName)
    (λ r s', s' ≡ s ∧ size r = EXT4_NAME_MAX + 1 ∧ chars (entry_name b o) ∧ decode (entry_name b o) = Some (cstr r))
    (λ e s', s' ≡ s ∧ (e = RETURN_OUT_OF_RESOURCES ∨
       e = RETURN_INVALID_PARAMETER ∧ (¬ chars (entry_name b o) ∨ decode (entry_name b o) = None))) s.
Proof using Hb HOk.
  intros Ho Hok Hsz. pose proof (entry_ranges o) as (_ & _ & Hl). pose proof (size_entry_name o Ho Hok) as Hname. destruct Hok as (H8 & Hok).
  unfold Ext4GetUcs2DirentName, rd_field. apply wp_bind. layouts. apply wp_rd; [lia|lia|]. fold (entry_nlen b o). apply wp_bind.
  eapply wp_mono; [by apply (copy_name_spec o s)|..].
  2: { intros e s' (-> & -> & Hc). split; [done|]. right. by split; [|left]. }
  intros r s' (-> & -> & Hc). apply wp_bind, wp_require; [apply Z.ltb_lt; unfold EXT4_NAME_MAX; lia|]. apply wp_bind.
  eapply wp_mono; [apply (UTF8StrToUCS2_exact (entry_name b o) s Hc); unfold PcdMaximumUnicodeStringLength; lia|..].
  2: { intros e s' [Hs%pool_holds_nil [->|[-> Hd]]]; split; [done|by left|done|]. right. by split; [|right]. }
  intros [Str Ucs2Str] s1 (Hs1 & name & r1 & Hd & Heq & Hname' & Hlen). cbn [fst snd] in *. subst Ucs2Str.
  unfold EXT4_NAME_MAX in *. apply wp_bind, wp_attempt. apply StrCpyS_spec; [done|lia|..]; unfold PcdMaximumUnicodeStringLength.
  - intros _ _. apply wp_bind. eapply wp_mono; [by apply (FreePool_ok s [] Str [])| |done]. intros [] s2 Hs2%pool_holds_nil. apply wp_ret.
    split; [done|]. rewrite cstr_app by done. split; [|done]. rewrite size_cstring. unfold size in *. rewrite length_drop. lia.
  - lia.
  - lia.
Qed.
End Entries.

(** ** The search *)

Section Search.
Context `{OC : !OrderedCollectionLib (loc * EXT4_EXTENT) Z, HPl : !Platform, HOk : !PlatformOk, HFw : !Firmware, HCo : !Collation}.
Context (nm rest : list Z) (Hnm : chars nm) (Hmax : size nm <= PcdMaximumUnicodeStringLength).
Abbreviation Name := (nm ++ 0 :: rest).

(** An entry in use whose name has as many bytes as the name searched for has characters and
    collates with it. *)
Definition matches (b : list Z) (o : Z) : Prop :=
  entry_inode b o ≠ 0 ∧ chars (entry_name b o) ∧ entry_nlen b o = size nm ∧
  ∃ name, decode (entry_name b o) = Some name ∧ StriColl name nm = 0.

(** The entries of the block up to [o], one behind the other, are good and do not match. *)
Inductive passed (b : list Z) : Z → Prop :=
| passed_first : passed b 0
| passed_next o : passed b o → entry_ok b o → ¬ matches b o → passed b (o + entry_rec b o).

(** The copy of an entry in the caller's structure. *)
Definition entry_copy (Result b : list Z) (o : Z) : list Z :=
  write_bytes Result 0 (slice b o (Z.min (entry_rec b o) SIZEOF_EXT4_DIR_ENTRY)).

Section Block.
Context (P : EXT4_PARTITION) (b : list Z) (Hb : bytes b) (HBS : BlockSize P = size b) (Hbound : size b <= 65536).

Lemma SearchBlock_spec Result s0 : size Result = SIZEOF_EXT4_DIR_ENTRY → ∀ fuel o DirentUcs2Name s,
  passed b o → 0 <= o <= size b → s ≡ s0 → (Z.to_nat (size b - o) < fuel)%nat → size DirentUcs2Name = EXT4_NAME_MAX + 1 →
  wp (SearchBlock Name P fuel b o DirentUcs2Name Result)
    (λ r s', s' ≡ s0 ∧ size r.2 = EXT4_NAME_MAX + 1 ∧
       match r.1 with
       | Some Copy => ∃ o, passed b o ∧ entry_ok b o ∧ matches b o ∧ Copy = entry_copy Result b o
       | None => passed b (size b)
       end)
    (λ e s', s' ≡ s0 ∧ (e = RETURN_OUT_OF_RESOURCES ∨
       e = RETURN_VOLUME_CORRUPTED ∧ ∃ o, passed b o ∧ o < size b ∧ ¬ entry_ok b o)) s.
Proof using Hb HBS Hbound HOk Hnm Hmax.
  intros HR. induction fuel as [|fuel IH]; intros o Dn s Hpa Ho Hs Hf HD; [lia|]. cbn [SearchBlock]. rewrite HBS.
  destruct (Z.ltb_spec o (size b)) as [Hlt|Hge]; cbn [negb].
  2: { apply wp_ret. split; [done|]. split; [done|]. cbn [fst]. by replace (size b) with o by lia. }
  assert (∀ e, e = RETURN_VOLUME_CORRUPTED → ¬ entry_ok b o → s ≡ s0 ∧ (e = RETURN_OUT_OF_RESOURCES ∨
    e = RETURN_VOLUME_CORRUPTED ∧ ∃ o, passed b o ∧ o < size b ∧ ¬ entry_ok b o)) as Hcorrupt.
  { intros e -> Hno. split; [done|]. right. split; [done|]. by exists o. }
  pose proof (entry_ranges b Hb o) as (_ & Hr & Hn). unfold EXT4_MIN_DIR_ENTRY_LEN in *.
  rewrite (wrapn_small (size b - o)) by (unfold is_uint; lia). apply wp_bind, wp_fail_if.
  { intros H8%Z.ltb_lt. apply Hcorrupt; [done|]. intros [? _]. lia. }
  intros H8%Z.ltb_ge. apply wp_bind. eapply wp_intro_ok; [apply Ext4ValidDirent_spec; [done|lia|lia]|].
  apply wp_bind, wp_fail_if.
  { intros Hv. apply Hcorrupt; [done|]. intros (_ & H1 & H2 & _). rewrite (proj2 (Z.ltb_ge _ _)), (proj2 (Z.eqb_eq _ _)) in Hv by lia. done. }
  intros [H1%negb_true_iff%Z.ltb_ge H2%Z.eqb_eq]%negb_false_iff%andb_true_iff.
  unfold rd_field. layouts. apply wp_bind, wp_rd; [lia|lia|]. fold (entry_nlen b o). apply wp_bind, wp_rd; [lia|lia|]. fold (entry_rec b o).
  apply wp_bind, wp_fail_if.
  { intros Hv. apply Hcorrupt; [done|]. intros (_ & _ & _ & H4). rewrite !(proj2 (Z.ltb_ge _ _)) in Hv by lia. done. }
  intros [_ H3%Z.ltb_ge]%orb_false_iff. assert (entry_ok b o) as Hok by (split_and!; lia).
  apply wp_bind, wp_rd; [lia|lia|]. rewrite Z.add_0_r. fold (entry_inode b o).
  rewrite (wrapn_small (o + entry_rec b o)) by (unfold is_uint; lia).
  assert (∀ Dn' s', ¬ matches b o → s' ≡ s0 → size Dn' = EXT4_NAME_MAX + 1 →
    wp (SearchBlock Name P fuel b (o + entry_rec b o) Dn' Result)
    (λ r s', s' ≡ s0 ∧ size r.2 = EXT4_NAME_MAX + 1 ∧
       match r.1 with
       | Some Copy => ∃ o, passed b o ∧ entry_ok b o ∧ matches b o ∧ Copy = entry_copy Result b o
       | None => passed b (size b)
       end)
    (λ e s', s' ≡ s0 ∧ (e = RETURN_OUT_OF_RESOURCES ∨
       e = RETURN_VOLUME_CORRUPTED ∧ ∃ o, passed b o ∧ o < size b ∧ ¬ entry_ok b o)) s') as Hnext.
  { intros Dn' s' Hm Hs' HD'. apply IH; [by apply passed_next|lia|done|lia|done]. }
  destruct (Z.eqb_spec (entry_inode b o) 0) as [H0|H0]; [apply Hnext; [by intros [? _]|done|done]|].
  apply wp_bind, wp_attempt. eapply wp_mono; [apply Ext4GetUcs2DirentName_spec; [done|lia|done|done]|..].
  - intros Dn' s' (Hs' & HD' & Hc & Hdec). assert (s' ≡ s0) as Hs0 by (by rewrite Hs').
    apply wp_bind. eapply wp_intro_ok; [by apply StrLen_spec|]. unfold Ext4StrCmpInsensitive. rewrite cstr_app by done.
    destruct (Z.eqb_spec (entry_nlen b o) (size nm)) as [Hl|Hl]; cbn [andb]; [destruct (Z.eqb_spec (StriColl (cstr Dn') nm) 0) as [Hco|Hco]|].
    + apply wp_bind, wp_require.
      { apply andb_true_iff. rewrite !in_bounds_spec, HR. unfold SIZEOF_EXT4_DIR_ENTRY. lia. }
      apply wp_ret. split; [done|]. split; [done|]. exists o. split_and!; [done..| |done]. split_and!; [done..|]. by exists (cstr Dn').
    + apply Hnext; [|done|done]. intros (_ & _ & _ & name & Hname & Hz). rewrite Hdec in Hname. by injection Hname as <-.
    + apply Hnext; [|done|done]. by intros (_ & _ & ? & _).
  - intros e s' [Hs' [->|[-> Hbad]]]; assert (s' ≡ s0) as Hs0 by (by rewrite Hs').
    + rewrite bool_decide_false by done. apply wp_raise. by split; [|left].
    + rewrite bool_decide_true by done. apply Hnext; [|done|done]. intros (_ & Hc & _ & name & Hname & _). destruct Hbad as [?|Hd]; [done|]. congruence.
Qed.
End Block.

Section Blocks.
Context (P : EXT4_PARTITION) (HP : PartitionOk P) (HBS : BlockSize P <= 65536) (F : EXT4_FILE) (HF : FileOk P F).
Abbreviation BS := (BlockSize P).

(** What reading a block of the directory can return. *)
Definition dir_block (k : Z) (b : list Z) : Prop :=
  size b = BS ∧ bytes b ∧ ∀ j, 0 <= j < BS → file_byte P F (k * BS + j) (byte_at b j).

(** The first [n] blocks were good and had no match. *)
Definition blocks_passed (n : Z) : Prop := ∀ k, 0 <= k < n → ∃ b, dir_block k b ∧ passed b BS.

(** The first match is in block [k] at [o]. *)
Definition found_at (k : Z) (b : list Z) (o : Z) : Prop :=
  0 <= k < file_size F / BS ∧ blocks_passed k ∧ dir_block k b ∧ passed b o ∧ entry_ok b o ∧ matches b o.

Definition search_error (e : RETURN_STATUS) : Prop :=
  e = RETURN_NOT_FOUND ∧ blocks_passed (file_size F / BS) ∨ e = RETURN_OUT_OF_RESOURCES ∨ read_failure P F e ∨
  e = RETURN_VOLUME_CORRUPTED ∧ ∃ k b o, 0 <= k < file_size F / BS ∧ dir_block k b ∧ passed b o ∧ o < BS ∧ ¬ entry_ok b o.

Lemma SearchDirectory_spec Result s0 : size Result = SIZEOF_EXT4_DIR_ENTRY → file_size F mod BS = 0 → ∀ fuel k Buf Dn s,
  blocks_passed k → 0 <= k <= file_size F / BS → after_lookup P F s0 s → (Z.to_nat (file_size F / BS - k) < fuel)%nat →
  size Buf = BS → size Dn = EXT4_NAME_MAX + 1 →
  wp (SearchDirectory F Name P fuel (file_size F) (k * BS) Buf Dn Result)
    (λ r s', after_lookup P F s0 s' ∧ ∃ k b o, found_at k b o ∧ r = entry_copy Result b o)
    (λ e s', after_lookup P F s0 s' ∧ search_error e) s.
Proof using HP HBS HF HOk Hnm Hmax.
  intros HR Hmod. destruct (BlockSize_bounds P HP) as [HBs0 HBs1]. pose proof (file_size_range P F HF) as Hfs.
  assert (file_size F = file_size F / BS * BS) as Hdiv by (pose proof (Z.div_mod (file_size F) BS); lia).
  induction fuel as [|fuel IH]; intros k Buf Dn s Hpa Hk Hs Hf HB HD; [lia|]. cbn [SearchDirectory].
  destruct (Z.ltb_spec (k * BS) (file_size F)) as [Hlt|Hge]; cbn [negb].
  2: { apply wp_raise. split; [done|]. left. split; [done|]. by replace (file_size F / BS) with k by nia. }
  assert (k < file_size F / BS) as Hk' by nia.
  assert (BS < 2 ^ UINTN_WIDTH) as Hw by (destruct platform_uintn as [->| ->]; lia).
  apply wp_bind. eapply wp_mono; [apply (Ext4Read_spec P HP F HF HBS Buf (k * BS) BS s); [apply Hs|nia|lia|lia]|..].
  2: { intros e s' [Ha He]. split; [by eapply after_lookup_trans|]. destruct He as [[? _]|He]; [lia|]. right. right. by left. }
  intros [b n] s1 (Ha & _ & Hn & data & Hdata & Hsz & Hby & Hcont). cbn [fst snd] in *.
  assert (n = BS) as -> by (unfold read_length in Hn; nia).
  assert (b = data) as ->.
  { rewrite Hdata. rewrite <- (app_nil_l Buf). rewrite <- (app_nil_l data) at 2. apply (write_app_r []). lia. }
  assert (after_lookup P F s0 s1) as Ha1 by (by eapply after_lookup_trans).
  assert (dir_block k data) as Hblock by done. clear Hdata.
  apply wp_bind. eapply wp_mono; [apply (SearchBlock_spec P data Hby ltac:(lia) ltac:(lia) Result s1 HR); [apply passed_first|pose proof (size_nonneg data); lia|done|lia|done]|..].
  - intros [[Copy|] Dn'] s2 (Hs2 & HD' & Hr); cbn [fst snd] in *.
    + apply wp_ret. split; [by eapply after_lookup_equiv|]. destruct Hr as (o & Hpo & Hok & Hm & ->). exists k, data, o. split; [|done]. by split_and!; try lia.
    + rewrite Hsz in Hr. rewrite wrap_small by (unfold is_uint; nia). replace (k * BS + BS) with ((k + 1) * BS) by lia.
      apply IH; [|lia|by eapply after_lookup_equiv|lia|done|done].
      intros j Hj. destruct (decide (j = k)) as [->|]; [by exists data|]. apply Hpa. lia.
  - intros e s2 [Hs2 He]. split; [by eapply after_lookup_equiv|]. destruct He as [->|(-> & o & Hpo & Ho & Hno)]; [right; by left|].
    right. right. right. split; [done|]. exists k, data, o. rewrite Hsz in Ho. split_and!; try done; lia.
Qed.

Lemma Ext4RetrieveDirent_spec Memory Dn Result s :
  Sound P F s → size Memory = BS → size Dn = EXT4_NAME_MAX + 1 → size Result = SIZEOF_EXT4_DIR_ENTRY →
  wp (Ext4RetrieveDirent F Name P Memory Dn Result)
    (λ r s', after_lookup P F s s' ∧ file_size F mod BS = 0 ∧ ∃ k b o, found_at k b o ∧ r = entry_copy Result b o)
    (λ e s', after_lookup P F s s' ∧ (e = RETURN_VOLUME_CORRUPTED ∧ file_size F mod BS ≠ 0 ∨ search_error e)) s.
Proof using HP HBS HF HOk Hnm Hmax.
  intros Hs HM HD HR. destruct (BlockSize_bounds P HP) as [HBs0 HBs1]. pose proof (file_size_range P F HF) as Hfs.
  apply wp_bind, wp_AllocateBuffer.
  2: { intros _. apply wp_raise. split; [by apply after_lookup_refl|]. right. right. by left. }
  intros x (_ & _ & _ & Hx)%AllocatePool_fresh. set (s1 := with_Buffers _ _).
  assert (Sound P F s1) as Hs1 by (apply Sound_with_Buffers; by rewrite (tick_equiv s)).
  assert (∀ s2, after_lookup P F s1 s2 → Buffers s2 !! x = Some BS ∧ after_lookup P F s (with_Buffers (delete x (Buffers s2)) s2)) as Hfree.
  { intros s2 (Hs2 & HB & Hc). split; [rewrite HB; apply lookup_insert_eq|]. split; [by apply Sound_with_Buffers|]. split; [|exact Hc].
    cbn. rewrite HB. cbn. by apply delete_insert_id. }
  apply wp_bind, wp_attempt. apply wp_bind, (wp_EXT4_INODE_SIZE P F HF), wp_bind, wp_DivU64x32Remainder; [lia|].
  apply wp_bind, wp_fail_if.
  { intros Hbad%negb_true_iff%Z.eqb_neq. destruct (Hfree s1) as [Hx1 Ha]; [by apply after_lookup_refl|].
    apply wp_bind. eapply wp_FreeBuffer; [done|]. apply wp_raise. split; [done|by left]. }
  intros Hmod%negb_false_iff%Z.eqb_eq.
  eapply wp_mono; [apply (SearchDirectory_spec Result s1 HR Hmod _ 0); [intros k Hk; lia| |by apply after_lookup_refl|lia|done|done]|..].
  - split; [lia|]. apply Z.div_pos; lia.
  - intros r s2 (Ha2 & Hr). destruct (Hfree s2 Ha2) as [Hx2 Ha]. apply wp_bind. eapply wp_FreeBuffer; [done|]. by apply wp_ret.
  - intros e s2 (Ha2 & He). destruct (Hfree s2 Ha2) as [Hx2 Ha]. apply wp_bind. eapply wp_FreeBuffer; [done|]. apply wp_raise. split; [done|by right].
Qed.
End Blocks.
End Search.

(** Names of ASCII characters in which no backslash is followed by a u are stored as they are. *)
Definition plain_name (b : list Z) (o : Z) : Prop := Forall (λ c, 0 < c < 128) (entry_name b o) ∧ no_escape (entry_name b o).

(** An entry in use with the name, up to collation. *)
Definition named `{!Collation} (nm b : list Z) (o : Z) : Prop :=
  entry_inode b o ≠ 0 ∧ entry_nlen b o = size nm ∧ StriColl (entry_name b o) nm = 0.

(** For plain names the test of the code is the comparison of the names. *)
Lemma matches_plain `{!Platform, !PlatformOk, !Collation} nm b o : plain_name b o → matches nm b o ↔ named nm b o.
Proof.
  intros [Ha Hesc]. assert (chars (entry_name b o)) as Hc by (eapply Forall_impl; [exact Ha|]; cbn; intros; lia).
  assert (Forall (is_uint 16) (entry_name b o)) as Hu by (eapply Forall_impl; [exact Ha|]; unfold is_uint; cbn; intros; lia).
  assert (encode (entry_name b o) = entry_name b o) as He.
  { clear -Ha. induction Ha as [|c l Hc _ IH]; [done|]. rewrite encode_cons, IH. unfold UCS2CharToUTF8.
    rewrite (proj2 (Z.leb_le _ _)) by lia. destruct (ascii_byte c) as [-> _]; [lia|done]. }
  assert (decode (entry_name b o) = Some (entry_name b o)) as Hd by (rewrite <- He at 1; by apply decode_plain).
  unfold matches, named. rewrite Hd. split.
  - intros (Hi & _ & Hl & name & [= <-] & Hco). done.
  - intros (Hi & Hl & Hco). split_and!; [done..|]. by exists (entry_name b o).
Qed.

(** C37. Looking a name up in a directory never faults and terminates, for every directory inode
    and every contents of the disk, on file systems with blocks of at most 64 KiB, and leaves no
    buffer allocated.  The entry returned is the first that matches: the entries before it, one
    behind the other from the start of each block, were well-formed and did not match; it is in
    use and lies in its block.  An entry matches, in the code's terms, if it is in use, its name
    has as many bytes as the name asked for has characters, is UTF-8 and collates with it; for
    entries with plain ASCII names this is that they have the name asked for up to collation,
    while names with other characters are passed over (see below).  EFI_NOT_FOUND is returned
    only after all entries of all blocks were passed, EFI_VOLUME_CORRUPTED only for a malformed
    entry or directory size. *)
Theorem ext4_retrieve_dirent_exact
    `{OC : !OrderedCollectionLib (loc * EXT4_EXTENT) Z, !Platform, !PlatformOk, !Firmware, !Collation}
    (P : EXT4_PARTITION) (HP : PartitionOk P) (HBS : BlockSize P <= 65536) (F : EXT4_FILE) (HF : FileOk P F)
    (nm rest : list Z) (Hnm : chars nm) (Hmax : size nm <= PcdMaximumUnicodeStringLength) (Memory Dn Result : list Z)
    (HM : size Memory = BlockSize P) (HD : size Dn = EXT4_NAME_MAX + 1) (HR : size Result = SIZEOF_EXT4_DIR_ENTRY)
    (s : ext4) (Hs : Sound P F s) :
  (∀ b o, plain_name b o → matches nm b o ↔ named nm b o) ∧
  match Ext4RetrieveDirent F (nm ++ 0 :: rest) P Memory Dn Result s with
  | Ok Result' s' => after_lookup P F s s' ∧ file_size F mod BlockSize P = 0 ∧
      ∃ k b o, found_at nm P F k b o ∧ Result' = entry_copy Result b o
  | Err e s' => after_lookup P F s s' ∧ (e = RETURN_VOLUME_CORRUPTED ∧ file_size F mod BlockSize P ≠ 0 ∨ search_error nm P F e)
  | Fault _ => False
  end.
Proof.
  split; [intros b o; by apply matches_plain|]. pose proof (wp_cases _ _ _ _ (Ext4RetrieveDirent_spec nm rest Hnm Hmax P HP HBS F HF Memory Dn Result s Hs HM HD HR)) as Hspec.
  by destruct (Ext4RetrieveDirent F (nm ++ 0 :: rest) P Memory Dn Result s) as [r s'|e s'|f].
Qed.

(** A name with a character that is not ASCII is never found under its own name: the number of
    its bytes is compared with the number of its characters. *)
Lemma ext4_nonascii_name_not_found `{!Platform, !PlatformOk, !Collation} nm b o :
  bytes b → 0 <= o → entry_ok b o → entry_name b o = encode nm → Exists (λ c, 128 <= c) nm → ¬ matches nm b o.
Proof.
  intros Hb Ho Hok Hname Hex (_ & _ & Hl & _). rewrite <- (size_entry_name b Hb o Ho Hok), Hname in Hl.
  assert (size nm < size (encode nm)); [|lia]. clear -Hex. induction Hex as [c l Hc|c l _ IH]; rewrite encode_cons, size_app.
  - pose proof (size_encode l). assert (2 <= size (UCS2CharToUTF8 c)); [|unfold size in *; cbn [length] in *; lia].
    unfold UCS2CharToUTF8. rewrite (proj2 (Z.leb_gt _ _)) by lia. destruct (_ && _); by vm_compute.
  - pose proof (size_UCS2CharToUTF8 c). unfold size in *. cbn [length]. lia.
Qed.

(** ** A directory *)

Section Witness.
#[local] Existing Instance platform_x64.
#[local] Existing Instance platform_x64_ok.
#[local] Existing Instance sample_collections.

(** ASCII letters without regard to case. *)
#[local] Instance sample_collation : Collation :=
  {| StriColl a b := if decide (map AsciiCharToUpper a = map AsciiCharToUpper b) then 0 else 1 |}.

Definition dirent (inode rec_len : Z) (name : list Z) : list Z :=
  le_bytes 4 inode ++ le_bytes 2 rec_len ++ [size name; 1] ++ name ++ zeros (rec_len - 8 - size name).

(** The entries dot, dotdot, an unused one and hello. *)
Definition sample_directory : list Z :=
  dirent 2 12 [46] ++ dirent 2 12 [46; 46] ++ dirent 0 16 [104; 101; 108; 108; 111] ++ dirent 11 984 [104; 101; 108; 108; 111].

Definition directory_disk (i : Z) : Z := if i <? 7 * 1024 then 0 else byte_at sample_directory (i - 7 * 1024).
#[local] Instance directory_firmware : Firmware := sample_firmware directory_disk.

Definition directory_file : EXT4_FILE := inline_file 1024 [mkExtent 0 1 0 7].

Lemma directory_file_ok : FileOk sample_map_partition directory_file.
Proof. constructor; [by vm_compute|by apply bytes_decide|by vm_compute]. Qed.

Lemma ext4_retrieve_dirent_exact_witness :
  match Ext4RetrieveDirent directory_file ([72; 69; 76; 76; 79] ++ 0 :: []) sample_map_partition (replicate 1024 7) (replicate 256 7) (zeros 264) sample_open with
  | Ok Result s' => load 4 Result 0 = 11 ∧ after_lookup sample_map_partition directory_file sample_open s' ∧
      ∃ k b o, found_at [72; 69; 76; 76; 79] sample_map_partition directory_file k b o ∧ Result = entry_copy (zeros 264) b o
  | _ => False
  end.
Proof.
  pose proof (ext4_retrieve_dirent_exact sample_map_partition sample_map_partition_ok ltac:(by vm_compute) directory_file directory_file_ok
    [72; 69; 76; 76; 79] [] ltac:(by repeat constructor) ltac:(by vm_compute) (replicate 1024 7) (replicate 256 7) (zeros 264)
    ltac:(by vm_compute) ltac:(by vm_compute) ltac:(by vm_compute) sample_open
    (Sound_empty _ _ _ (proj1 sample_open_cache) (proj2 sample_open_cache))) as [_ Hs].
  assert (match Ext4RetrieveDirent directory_file ([72; 69; 76; 76; 79] ++ 0 :: []) sample_map_partition (replicate 1024 7) (replicate 256 7) (zeros 264) sample_open with
          | Ok r _ => load 4 r 0 =? 11 | _ => false end = true) as Hc by (vm_compute; reflexivity).
  destruct (Ext4RetrieveDirent _ _ _ _ _ _ _) as [r s'|e s'|f]; [|discriminate Hc|discriminate Hc].
  destruct Hs as (Ha & _ & Hf). split; [by apply Z.eqb_eq|]. by split.
Defined.
End Witness.
