(* ===== verification/Ext4Dentry.v ===== *)
(** The tree of directory entries in memory (Ext4Pkg/Ext4Dxe/Directory.c): reference counts, the lists
    of children in BaseLib's linked lists, and the release of entries nothing refers to. *)
From S2P Require Import Prelude OrderedCollection Base Buffer Platform Strings LinkedList Ext4Dir.
From stdpp Require Import gmap.
#[local] Open Scope Z_scope.

(** The two LIST_ENTRYs of a dentry: the head of its children and its node in its parent's list. *)
Inductive link := Children (d : loc) | ListNode (d : loc).

#[global] Instance link_eq_dec : EqDecision link.
Proof. solve_decision. Defined.

#[global] Instance link_countable : Countable link.
Proof.
  refine (inj_countable' (λ k, match k with Children d => inl d | ListNode d => inr d end)
    (λ k, match k with inl d => Children d | inr d => ListNode d end) _). by intros [].
Defined.

Definition owner (k : link) : loc := match k with Children d | ListNode d => d end.

(** Without its lists and the inode number, which nothing reads. *)
Record EXT4_DENTRY := mkDentry {
  RefCount : Z;
  Name : list Z;
  Parent : ptr;
}.

(** The dentries in the pool and their list entries. *)
Record dentries := mkDentries {
  Dentries : gmap loc EXT4_DENTRY;
  Links : gmap link (LIST_ENTRY link);
}.

(** AllocateZeroPool: memory not in use, or none. *)
Class DentryPool := {
  AllocateDentry : dentries → ptr;
  AllocateDentry_fresh s d : AllocateDentry s = Some d →
    Dentries s !! d = None ∧ Links s !! Children d = None ∧ Links s !! ListNode d = None;
}.

Section Dentry.
Context `{HPl : !Platform, HLp : !ListPcds, HDp : !DentryPool}.

(** A call of the list library. *)
Definition lists {A} (m : M (gmap link (LIST_ENTRY link)) A) : M dentries A := λ s,
  match m (Links s) with
  | Ok a h => Ok a (mkDentries (Dentries s) h)
  | Err e h => Err e (mkDentries (Dentries s) h)
  | Fault f => Fault f
  end.

Definition dentry (d : loc) : M dentries EXT4_DENTRY :=
  s ← getS; match Dentries s !! d with Some n => mret n | None => crash UndefinedBehaviour end.

Definition store_dentry (d : loc) (n : EXT4_DENTRY) : M dentries unit :=
  dentry d;; modify (λ s, mkDentries (<[d := n]> (Dentries s)) (Links s)).

(** The memory of a new dentry is zero. *)
Definition AllocateZeroDentry : M dentries ptr :=
  s ← getS;
  match AllocateDentry s with
  | Some d =>
      modify (λ s, mkDentries (<[d := mkDentry 0 (zeros (EXT4_NAME_MAX + 1)) NULL]> (Dentries s))
                     (<[Children d := mkEntry None None]> (<[ListNode d := mkEntry None None]> (Links s))));;
      mret (Some d)
  | None => mret NULL
  end.

Definition FreeDentry (d : loc) : M dentries unit :=
  dentry d;; modify (λ s, mkDentries (delete d (Dentries s)) (delete (Children d) (delete (ListNode d) (Links s)))).

(** ** Directory.c *)

Definition Ext4RefDentry (d : loc) : M dentries unit :=
  n ← dentry d;
  let OldRef := RefCount n in
  let NewRef := wrapn (RefCount n + 1) in
  store_dentry d (mkDentry NewRef (Name n) (Parent n));;
  ASSERT (OldRef <? NewRef).

Definition Ext4AddDentry (Parent ToBeAdded : loc) : M dentries unit :=
  n ← dentry ToBeAdded;
  store_dentry ToBeAdded (mkDentry (RefCount n) (Name n) (Some Parent));;
  lists (InsertTailList (Children Parent) (ListNode ToBeAdded));;
  Ext4RefDentry Parent.

Definition Ext4RemoveDentry (Parent ToBeRemoved : loc) : M dentries unit :=
  lists (ASSERT_CALL (IsNodeInList (ListNode ToBeRemoved) (Children Parent)));;
  lists (RemoveEntryList (ListNode ToBeRemoved));;
  mret tt.

Definition Ext4CreateDentry (NewName : list Z) (ParentDentry : ptr) : M dentries ptr :=
  p ← AllocateZeroDentry;
  match p with
  | None => mret NULL
  | Some d =>
      n ← dentry d;
      store_dentry d (mkDentry 1 (Name n) (Parent n));;
      n ← dentry d;
      Status ← attempt (StrCpyS (Name n) (EXT4_NAME_MAX + 1) NewName);
      match Status with inr Copy => store_dentry d (mkDentry (RefCount n) Copy (Parent n)) | inl _ => mret tt end;;
      ASSERT (match Status with inr _ => true | inl _ => false end);;
      lists (InitializeListHead (Children d));;
      match ParentDentry with Some p => Ext4AddDentry p d | None => mret tt end;;
      mret (Some d)
  end.

(** The recursion goes from a dentry to its parent. *)
Definition Ext4DeleteDentry (Unref : loc → M dentries bool) (d : loc) : M dentries unit :=
  n ← dentry d;
  match Parent n with
  | Some p => Ext4RemoveDentry p d;; Unref p;; mret tt
  | None => mret tt
  end;;
  FreeDentry d.

Fixpoint UnrefLoop (fuel : nat) (d : loc) : M dentries bool :=
  match fuel with
  | O => crash OutOfFuel
  | S k =>
      n ← dentry d;
      let NewRef := wrapn (RefCount n - 1) in
      store_dentry d (mkDentry NewRef (Name n) (Parent n));;
      if NewRef =? 0 then Ext4DeleteDentry (UnrefLoop k) d;; mret true else mret false
  end.

Definition Ext4UnrefDentry (d : loc) : M dentries bool :=
  s ← getS; UnrefLoop (S (base.size (Dentries s))) d.
End Dentry.

(** ** The invariant *)

(** The dentries [D] form a forest with the lists of children [kids], and [ext d] counts the
    references to [d] from outside of it.  Other dentries may be there. *)
Record DentriesOk `{!Platform, !ListPcds} (s : dentries) (D : gset loc) (kids : loc → list loc) (ext : loc → Z) : Prop := {
  dn_alloc d : d ∈ D → is_Some (Dentries s !! d);
  dn_link d : d ∈ D → is_Some (Links s !! ListNode d);
  dn_ring d : d ∈ D → ring (Links s) (Children d) (ListNode <$> kids d);
  dn_kids d c : d ∈ D → c ∈ kids d ↔ c ∈ D ∧ (n ← Dentries s !! c; Parent n) = Some d;
  dn_parent c n p : c ∈ D → Dentries s !! c = Some n → Parent n = Some p → p ∈ D;
  dn_count d n : d ∈ D → Dentries s !! d = Some n → RefCount n = ext d + Z.of_nat (length (kids d)) ∧ 0 < RefCount n < 2 ^ UINTN_WIDTH;
  dn_ext d : 0 <= ext d;
  dn_ext_out d : d ∉ D → ext d = 0;
  dn_short d : d ∈ D → short (kids d);
  dn_acyclic : ∃ rank : loc → nat, ∀ c n p, c ∈ D → Dentries s !! c = Some n → Parent n = Some p → (rank p < rank c)%nat;
}.

Definition add_ref (d : loc) (k : Z) (ext : loc → Z) (c : loc) : Z := if decide (c = d) then ext c + k else ext c.

Section Specs.
Context `{HPl : !Platform, HOk : !PlatformOk, HLp : !ListPcds, HDp : !DentryPool}.

Lemma wp_dentry d n (Q : EXT4_DENTRY → dentries → Prop) E s : Dentries s !! d = Some n → Q n s → wp (dentry d) Q E s.
Proof. intros Hd HQ. apply wp_bind, wp_getS. rewrite Hd. by apply wp_ret. Qed.

Lemma wp_store_dentry d n (Q : unit → dentries → Prop) E s :
  is_Some (Dentries s !! d) → Q tt (mkDentries (<[d := n]> (Dentries s)) (Links s)) → wp (store_dentry d n) Q E s.
Proof. intros [n' Hd] HQ. apply wp_bind. eapply wp_dentry; [done|]. by apply wp_modify. Qed.

Lemma wp_lists {A} (m : M (gmap link (LIST_ENTRY link)) A) (Q : A → dentries → Prop) E s :
  wp m (λ a h, Q a (mkDentries (Dentries s) h)) (λ e h, E e (mkDentries (Dentries s) h)) (Links s) → wp (lists m) Q E s.
Proof. intros Hm%wp_cases. apply wp_of_cases. unfold lists. by destruct (m (Links s)). Qed.

(** A ring whose nodes are not among those that change. *)
Lemma ring_frame (h h' : gmap link (LIST_ENTRY link)) l x m :
  changes_only l h h' → (∀ c, c ∈ x :: m → c ∉ l) → ring h x m → ring h' x m.
Proof.
  intros [_ Hc] Hd [Hnd Hch]. split; [done|].
  eapply chain_frame; [..|exact Hch]; intros c Hcin; unfold fwd, back; rewrite Hc; [done|apply Hd; set_solver|done|apply Hd; set_solver].
Qed.

(** Children of different dentries are different. *)
Lemma kids_disjoint s D kids ext d d' c : DentriesOk s D kids ext → d ∈ D → d' ∈ D → c ∈ kids d → c ∈ kids d' → d = d'.
Proof. intros Hs Hd Hd' [_ H1]%(dn_kids _ _ _ _ Hs) [_ H2]%(dn_kids _ _ _ _ Hs); [|done|done]. congruence. Qed.

Lemma kids_NoDup s D kids ext d : DentriesOk s D kids ext → d ∈ D → NoDup (kids d).
Proof. intros Hs Hd. destruct (dn_ring _ _ _ _ Hs d Hd) as [[_ Hn]%NoDup_cons _]. by eapply NoDup_fmap_1. Qed.

(** *** Paths to the root *)

Fixpoint path (s : dentries) (d : loc) (l : list loc) : Prop :=
  match l with
  | [] => (n ← Dentries s !! d; Parent n) = None
  | p :: l' => (n ← Dentries s !! d; Parent n) = Some p ∧ path s p l'
  end.

Lemma path_exists s D kids ext d : DentriesOk s D kids ext → d ∈ D → ∃ l, path s d l ∧ NoDup (d :: l) ∧ (∀ c, c ∈ d :: l → c ∈ D).
Proof.
  intros Hs. destruct (dn_acyclic _ _ _ _ Hs) as [rank Hrank].
  assert (∀ n d, (rank d < n)%nat → d ∈ D → ∃ l, path s d l ∧ NoDup (d :: l) ∧ (∀ c, c ∈ d :: l → c ∈ D ∧ (rank c <= rank d)%nat)) as Hind.
  { induction n as [|n IH]; [lia|]. intros e Hr He. destruct (dn_alloc _ _ _ _ Hs e He) as [m Hm]. destruct (Parent m) as [p|] eqn:Hp.
    - pose proof (Hrank e m p He Hm Hp) as Hlt. pose proof (dn_parent _ _ _ _ Hs e m p He Hm Hp) as HpD.
      destruct (IH p) as (l & Hl & Hnd & Hin); [lia|done|]. exists (p :: l). split; [by cbn; rewrite Hm|]. split.
      + constructor; [|done]. intros Hc. destruct (Hin _ Hc). lia.
      + intros c [->|Hc]%elem_of_cons; [by split|]. destruct (Hin c Hc). split; [done|lia].
    - exists []. split; [by cbn; rewrite Hm|]. split; [apply NoDup_singleton|]. intros c ->%list_elem_of_singleton. by split. }
  intros Hd. destruct (Hind (S (rank d)) d) as (l & Hl & Hnd & Hin); [lia|done|]. exists l. split; [done|]. split; [done|]. intros c Hc. by apply Hin.
Qed.

Lemma path_ext s s' : (∀ c, (n ← Dentries s' !! c; Parent n) = (n ← Dentries s !! c; Parent n)) → ∀ l d, path s d l → path s' d l.
Proof. intros Hp. induction l as [|q l IH]; intros d; cbn; [by rewrite Hp|]. intros [H1 H2]. rewrite Hp. auto. Qed.

(** *** Changes *)

(** Only the memory of the dentries in [D] matters. *)
Lemma DentriesOk_frame s s' D kids ext ext' :
  (∀ c, c ∈ D → Dentries s' !! c = Dentries s !! c) → (∀ k, owner k ∈ D → Links s' !! k = Links s !! k) → (∀ c, ext' c = ext c) →
  DentriesOk s D kids ext → DentriesOk s' D kids ext'.
Proof.
  intros HD HL He Hs. constructor.
  - intros d Hd. rewrite HD by done. by apply Hs.
  - intros d Hd. rewrite HL by done. by apply Hs.
  - intros d Hd. destruct (dn_ring _ _ _ _ Hs d Hd) as [Hn Hc]. split; [done|].
    eapply chain_frame; [..|exact Hc]; intros k Hk; unfold fwd, back; rewrite HL; try done;
      apply elem_of_cons in Hk as [->|(c & -> & Hck)%list_elem_of_fmap]; try done; cbn; by apply (dn_kids _ _ _ _ Hs d c).
  - intros d c Hd. rewrite (dn_kids _ _ _ _ Hs d c Hd). split; intros [Hc Hp]; (split; [done|]); [by rewrite HD|by rewrite HD in Hp].
  - intros c n p Hc Hn. rewrite HD in Hn by done. by apply (dn_parent _ _ _ _ Hs c n).
  - intros d n Hd Hn. rewrite HD in Hn by done. rewrite He. by apply Hs.
  - intros d. rewrite He. apply Hs.
  - intros d Hd. rewrite He. by apply Hs.
  - intros d Hd. by apply Hs.
  - destruct (dn_acyclic _ _ _ _ Hs) as [rank Hr]. exists rank. intros c n p Hc Hn. rewrite HD in Hn by done. by eapply Hr.
Qed.

(** A reference more or less. *)
Lemma set_count s D kids ext d n k :
  DentriesOk s D kids ext → d ∈ D → Dentries s !! d = Some n → 0 < RefCount n + k < 2 ^ UINTN_WIDTH → 0 <= ext d + k →
  DentriesOk (mkDentries (<[d := mkDentry (RefCount n + k) (Name n) (Parent n)]> (Dentries s)) (Links s)) D kids (add_ref d k ext).
Proof.
  intros Hs Hd Hn Hk He.
  assert (∀ c, (m ← <[d := mkDentry (RefCount n + k) (Name n) (Parent n)]> (Dentries s) !! c; Parent m) = (m ← Dentries s !! c; Parent m)) as Hpar.
  { intros c. destruct (decide (c = d)) as [->|Hne]; [by rewrite lookup_insert_eq, Hn|by rewrite lookup_insert_ne]. }
  assert (∀ c m p, <[d := mkDentry (RefCount n + k) (Name n) (Parent n)]> (Dentries s) !! c = Some m → Parent m = Some p →
    ∃ m', Dentries s !! c = Some m' ∧ Parent m' = Some p) as Hold.
  { intros c m p Hc Hp. specialize (Hpar c). rewrite Hc in Hpar. cbn in Hpar. destruct (Dentries s !! c) as [m'|]; cbn in Hpar; [|congruence].
    exists m'. split; [done|congruence]. }
  constructor; cbn [Dentries Links].
  - intros c Hc. destruct (decide (c = d)) as [->|]; [by rewrite lookup_insert_eq|]. rewrite lookup_insert_ne by done. by apply Hs.
  - apply Hs.
  - apply Hs.
  - intros c e Hc. rewrite Hpar. by apply Hs.
  - intros c m p Hc Hm Hp. destruct (Hold c m p Hm Hp) as (m' & Hm' & Hp'). by apply (dn_parent _ _ _ _ Hs c m').
  - intros c m Hc Hm. unfold add_ref. destruct (decide (c = d)) as [->|Hne].
    + rewrite lookup_insert_eq in Hm. injection Hm as <-. cbn. destruct (dn_count _ _ _ _ Hs d n Hd Hn) as [-> _] in Hk |- *. lia.
    + rewrite lookup_insert_ne in Hm by done. by apply Hs.
  - intros c. unfold add_ref. destruct (decide (c = d)) as [->|]; [done|apply Hs].
  - intros c Hc. unfold add_ref. rewrite decide_False by (by intros ->). by apply Hs.
  - apply Hs.
  - destruct (dn_acyclic _ _ _ _ Hs) as [rank Hr]. exists rank. intros c m p Hc Hm Hp. destruct (Hold c m p Hm Hp) as (m' & Hm' & Hp'). by eapply Hr.
Qed.

Lemma short_fmap (l : list loc) : short l → short (ListNode <$> l).
Proof. unfold short. by rewrite length_fmap. Qed.

(** A dentry without children that nobody refers to, taken out of the forest. *)
Lemma detach_root s D kids ext d n :
  DentriesOk s D kids ext → d ∈ D → Dentries s !! d = Some n → kids d = [] → ext d = 1 → Parent n = None →
  DentriesOk s (D ∖ {[d]}) kids (add_ref d (-1) ext).
Proof.
  intros Hs Hd Hn Hk He Hp.
  assert (∀ c m, c ∈ D → Dentries s !! c = Some m → Parent m ≠ Some d) as Hnotpar.
  { intros c m Hc Hm Hpar. assert (c ∈ kids d) as Hcd by (apply (dn_kids _ _ _ _ Hs); [done|]; split; [done|]; by rewrite Hm).
    rewrite Hk in Hcd. set_solver. }
  constructor.
  - intros c Hc. apply Hs. set_solver.
  - intros c Hc. apply Hs. set_solver.
  - intros c Hc. apply Hs. set_solver.
  - intros c e Hc. rewrite (dn_kids _ _ _ _ Hs) by set_solver. split; intros [H1 H2]; (split; [|done]); [|set_solver].
    assert (e ≠ d); [|set_solver]. intros ->. rewrite Hn in H2. cbn in H2. congruence.
  - intros c m p Hc Hm Hpar. pose proof (dn_parent _ _ _ _ Hs c m p ltac:(set_solver) Hm Hpar). assert (p ≠ d); [|set_solver].
    intros ->. eapply Hnotpar; [|done|done]. set_solver.
  - intros c m Hc Hm. unfold add_ref. rewrite decide_False by set_solver. apply Hs; [set_solver|done].
  - intros c. unfold add_ref. destruct (decide (c = d)) as [->|]; [lia|apply Hs].
  - intros c Hc. unfold add_ref. destruct (decide (c = d)) as [->|]; [lia|]. apply Hs. set_solver.
  - intros c Hc. apply Hs. set_solver.
  - destruct (dn_acyclic _ _ _ _ Hs) as [rank Hr]. exists rank. intros c m p Hc. apply Hr. set_solver.
Qed.

Lemma detach_child s D kids ext d n p k1 k2 h' :
  DentriesOk s D kids ext → d ∈ D → Dentries s !! d = Some n → kids d = [] → ext d = 1 → Parent n = Some p → kids p = k1 ++ d :: k2 →
  ring h' (Children p) (ListNode <$> (k1 ++ k2)) → changes_only (Children p :: (ListNode <$> (k1 ++ k2))) (Links s) h' →
  DentriesOk (mkDentries (Dentries s) h') (D ∖ {[d]}) (λ c, if decide (c = p) then k1 ++ k2 else kids c) (add_ref p 1 (add_ref d (-1) ext)).
Proof.
  intros Hs Hd Hn Hk He Hp Hkp Hring Hch. pose proof (dn_parent _ _ _ _ Hs d n p Hd Hn Hp) as HpD.
  assert (p ≠ d) as Hpd by (intros ->; rewrite Hk in Hkp; by destruct k1).
  pose proof (kids_NoDup s D kids ext p Hs HpD) as Hnd. rewrite Hkp in Hnd.
  assert (d ∉ k1 ++ k2) as Hdk by (apply NoDup_app in Hnd as (_ & ? & [? _]%NoDup_cons); set_solver).
  assert (∀ c m, c ∈ D → Dentries s !! c = Some m → Parent m ≠ Some d) as Hnotpar.
  { intros c m Hc Hm Hpar. assert (c ∈ kids d) as Hcd by (apply (dn_kids _ _ _ _ Hs); [done|]; split; [done|]; by rewrite Hm).
    rewrite Hk in Hcd. set_solver. }
  constructor; cbn [Dentries Links].
  - intros c Hc. apply Hs. set_solver.
  - intros c Hc. apply elem_of_dom. rewrite (proj1 Hch). apply elem_of_dom, Hs. set_solver.
  - intros c Hc. destruct (decide (c = p)) as [->|Hne]; [done|]. eapply ring_frame; [done| |apply Hs; set_solver].
    intros k [->|(e & -> & Hek)%list_elem_of_fmap]%elem_of_cons; rewrite not_elem_of_cons; split; try done.
    + congruence.
    + intros (e & ? & _)%list_elem_of_fmap. done.
    + intros (e' & [= <-] & He')%list_elem_of_fmap. apply Hne. eapply (kids_disjoint s D kids ext _ _ e Hs); [set_solver|done|done|].
      rewrite Hkp. set_solver.
  - intros c e Hc. assert (∀ e, e ∈ kids c ↔ e ∈ D ∧ (m ← Dentries s !! e; Parent m) = Some c) as Hold by (intros; apply Hs; set_solver).
    destruct (decide (c = p)) as [->|Hne].
    + specialize (Hold e). rewrite Hkp in Hold. split.
      * intros Hin. destruct (proj1 Hold ltac:(set_solver)) as [H1 H2]. split; [|done]. set_solver.
      * intros [H1 H2]. assert (e ≠ d) by set_solver. pose proof (proj2 Hold ltac:(set_solver)). set_solver.
    + rewrite Hold. split; intros [H1 H2]; (split; [|done]); [|set_solver]. assert (e ≠ d); [|set_solver].
      intros ->. rewrite Hn in H2. cbn in H2. congruence.
  - intros c m q Hc Hm Hpar. pose proof (dn_parent _ _ _ _ Hs c m q ltac:(set_solver) Hm Hpar). assert (q ≠ d); [|set_solver].
    intros ->. eapply Hnotpar; [|done|done]. set_solver.
  - intros c m Hc Hm. destruct (dn_count _ _ _ _ Hs c m ltac:(set_solver) Hm) as [H1 H2]. split; [|done]. rewrite H1. unfold add_ref.
    rewrite (decide_False (P := c = d)) by set_solver. destruct (decide (c = p)) as [->|]; [|done]. rewrite Hkp, !length_app. cbn. lia.
  - intros c. unfold add_ref. pose proof (dn_ext _ _ _ _ Hs c). repeat case_decide; subst; lia.
  - intros c Hc. unfold add_ref. rewrite (decide_False (P := c = p)) by set_solver. destruct (decide (c = d)) as [->|]; [lia|]. apply Hs. set_solver.
  - intros c Hc. pose proof (dn_short _ _ _ _ Hs c ltac:(set_solver)) as Hsh. destruct (decide (c = p)) as [->|]; [|done].
    rewrite Hkp in Hsh. destruct Hsh as [?|Hsh]; [by left|]. right. rewrite length_app in *. cbn in Hsh. lia.
  - destruct (dn_acyclic _ _ _ _ Hs) as [rank Hr]. exists rank. intros c m q Hc. apply Hr. set_solver.
Qed.

(** *** Releasing a reference *)

(** The dentries [D] become [D']; those that go are freed, others stay as they are. *)
Record released (s : dentries) (D D' : gset loc) (s' : dentries) : Prop := {
  rl_subset : D' ⊆ D;
  rl_dentries c : c ∉ D → Dentries s' !! c = Dentries s !! c;
  rl_links k : owner k ∉ D → Links s' !! k = Links s !! k;
  rl_freed c : c ∈ D → c ∉ D' → Dentries s' !! c = None;
  rl_freed_links k : owner k ∈ D → owner k ∉ D' → Links s' !! k = None;
}.

Lemma wp_FreeDentry d (Q : unit → dentries → Prop) E s :
  is_Some (Dentries s !! d) → Q tt (mkDentries (delete d (Dentries s)) (delete (Children d) (delete (ListNode d) (Links s)))) →
  wp (FreeDentry d) Q E s.
Proof. intros [n Hn] HQ. apply wp_bind. eapply wp_dentry; [done|]. by apply wp_modify. Qed.

(** Freeing [d], after it was taken out of the forest and the rest was released. *)
Lemma free_detached s0 s D D' kids ext ext' d :
  d ∈ D → DentriesOk s D' kids ext → released s0 (D ∖ {[d]}) D' s → (∀ c, ext' c = ext c) →
  let s' := mkDentries (delete d (Dentries s)) (delete (Children d) (delete (ListNode d) (Links s))) in
  DentriesOk s' D' kids ext' ∧ ∀ s1, (∀ c, c ≠ d → Dentries s0 !! c = Dentries s1 !! c) →
    (∀ k, owner k ∉ D → Links s0 !! k = Links s1 !! k) → released s1 D D' s'.
Proof.
  intros Hd Hs Hr He s'. pose proof (rl_subset _ _ _ _ Hr) as Hsub.
  assert (∀ k, owner k ≠ d → Links s' !! k = Links s !! k) as HL.
  { intros k Hk. cbn. rewrite !lookup_delete_ne; [done|by intros <-|by intros <-]. }
  split.
  - eapply DentriesOk_frame; [..|done|exact Hs].
    + intros c Hc. cbn. rewrite lookup_delete_ne; [done|]. set_solver.
    + intros k Hk. apply HL. set_solver.
  - intros s1 HD1 HL1. constructor.
    + set_solver.
    + intros c Hc. cbn. rewrite lookup_delete_ne by set_solver. rewrite (rl_dentries _ _ _ _ Hr) by set_solver. apply HD1. set_solver.
    + intros k Hk. rewrite HL by set_solver. rewrite (rl_links _ _ _ _ Hr) by set_solver. by apply HL1.
    + intros c Hc Hc'. cbn. destruct (decide (c = d)) as [->|]; [by rewrite lookup_delete_eq|]. rewrite lookup_delete_ne by done.
      apply (rl_freed _ _ _ _ Hr); set_solver.
    + intros k Hk Hk'. destruct (decide (owner k = d)) as [Hkd|].
      * destruct k as [e|e]; cbn in Hkd; subst e; cbn; [by rewrite lookup_delete_eq|].
        rewrite lookup_delete_ne by done. by rewrite lookup_delete_eq.
      * rewrite HL by done. apply (rl_freed_links _ _ _ _ Hr); set_solver.
Qed.

Lemma count_fits x : 0 <= x < 2 ^ UINTN_WIDTH → wrapn x = x.
Proof. apply wrap_small. Qed.

Lemma released_refl s D : released s D D s.
Proof. constructor; done || set_solver. Qed.

(** What releasing a reference to [d] does. *)
Definition unreferenced (s : dentries) (D : gset loc) (ext : loc → Z) (d : loc) (b : bool) (s' : dentries) : Prop :=
  ∃ D' kids', DentriesOk s' D' kids' (add_ref d (-1) ext) ∧ released s D D' s' ∧ (b = true ↔ d ∉ D').

(** The last reference to a dentry without children. *)
Lemma Ext4DeleteDentry_spec Unref s n' D kids ext d n :
  DentriesOk s D kids ext → d ∈ D → Dentries s !! d = Some n → Parent n' = Parent n → kids d = [] → ext d = 1 →
  (∀ p s1 D1 kids1 ext1, Parent n = Some p → DentriesOk s1 D1 kids1 ext1 → p ∈ D1 → 0 < ext1 p →
     (∀ c, (m ← Dentries s1 !! c; Parent m) = (m ← Dentries s !! c; Parent m)) →
     wp (Unref p) (unreferenced s1 D1 ext1 p) (λ _ _, False) s1) →
  wp (Ext4DeleteDentry Unref d)
    (λ _ s', unreferenced s D ext d true s') (λ _ _, False) (mkDentries (<[d := n']> (Dentries s)) (Links s)).
Proof using HOk.
  intros Hs Hd Hn Hpar Hk He HUnref. set (s1 := mkDentries (<[d := n']> (Dentries s)) (Links s)).
  assert (∀ c, c ≠ d → Dentries s1 !! c = Dentries s !! c) as Hs1 by (intros c Hc; cbn; by rewrite lookup_insert_ne).
  apply wp_bind. eapply wp_dentry; [by apply lookup_insert_eq|]. rewrite Hpar. destruct (Parent n) as [p|] eqn:Hp.
  2: { apply wp_bind, wp_ret, wp_FreeDentry; [cbn; rewrite lookup_insert_eq; by eexists|].
       pose proof (detach_root s D kids ext d n Hs Hd Hn Hk He Hp) as Hdet.
       destruct (free_detached s1 s1 D (D ∖ {[d]}) kids (add_ref d (-1) ext) (add_ref d (-1) ext) d Hd) as [Hok Hrel]; [|apply released_refl|done|].
       - eapply DentriesOk_frame; [..|exact Hdet]; [|done|done]. intros c Hc. apply Hs1. set_solver.
       - exists (D ∖ {[d]}), kids. split; [exact Hok|]. split; [by apply Hrel|]. split; [set_solver|done]. }
  pose proof (dn_parent _ _ _ _ Hs d n p Hd Hn Hp) as HpD. assert (p ≠ d) as Hpd.
  { intros ->. assert (d ∈ kids d) as Hin by (apply (dn_kids _ _ _ _ Hs); [done|]; split; [done|]; by rewrite Hn). rewrite Hk in Hin. set_solver. }
  assert (d ∈ kids p) as Hin by (apply (dn_kids _ _ _ _ Hs); [done|]; split; [done|]; by rewrite Hn).
  apply list_elem_of_split in Hin as (k1 & k2 & Hkp).
  pose proof (dn_ring _ _ _ _ Hs p HpD) as Hring. pose proof (short_fmap _ (dn_short _ _ _ _ Hs p HpD)) as Hsh. rewrite Hkp in Hring, Hsh.
  rewrite fmap_app, fmap_cons in Hring, Hsh.
  apply wp_bind, wp_bind, wp_bind, wp_lists, wp_ASSERT_CALL.
  { erewrite (IsNodeInList_spec _ (ListNode d)); [|by apply ring_rotate|by eapply short_length; [|exact Hsh]; rewrite !length_app; cbn; lia].
    rewrite bool_decide_true; [done|]. set_solver. }
  apply wp_bind, wp_lists. eapply wp_mono; [by apply RemoveEntryList_ring| |done]. intros r h' (_ & Hring' & Hch). cbn [Links Dentries] in *.
  apply wp_ret. rewrite <- fmap_app in Hring', Hch.
  pose proof (detach_child s D kids ext d n p k1 k2 h' Hs Hd Hn Hk He Hp Hkp Hring' Hch) as Hdet.
  set (s2 := mkDentries (<[d := n']> (Dentries s)) h').
  apply wp_bind. eapply wp_mono; [apply (HUnref p s2 (D ∖ {[d]}) (λ c, if decide (c = p) then k1 ++ k2 else kids c) (add_ref p 1 (add_ref d (-1) ext)) eq_refl); [|set_solver| |]| |done].
  - eapply DentriesOk_frame; [..|exact Hdet]; [|done|done]. intros c Hc. cbn. rewrite lookup_insert_ne by set_solver. done.
  - unfold add_ref. rewrite decide_True by done. rewrite decide_False by done. pose proof (dn_ext _ _ _ _ Hs p). lia.
  - intros c. cbn. destruct (decide (c = d)) as [->|]; [rewrite lookup_insert_eq, Hn; cbn; congruence|by rewrite lookup_insert_ne].
  - intros b s3 (D' & kids' & Hs3 & Hrel & _). apply wp_ret.
    pose proof (rl_subset _ _ _ _ Hrel) as Hsub. apply wp_FreeDentry.
    { rewrite (rl_dentries _ _ _ _ Hrel) by set_solver. cbn. rewrite lookup_insert_eq. by eexists. }
    destruct (free_detached s2 s3 D D' kids' _ (add_ref d (-1) ext) d Hd Hs3 Hrel) as [Hok Hrel'].
    + intros c. unfold add_ref. repeat case_decide; subst; lia.
    + exists D', kids'. split; [exact Hok|]. split; [|split; [set_solver|done]]. apply Hrel'.
      * intros c Hc. cbn. by rewrite lookup_insert_ne.
      * intros k Hko. cbn. apply Hch. assert (∀ c, c ∈ k1 ++ k2 → c ∈ D) as HkD.
        { intros c Hc. apply (dn_kids _ _ _ _ Hs p c HpD). rewrite Hkp. set_solver. }
        intros [->|(c & -> & Hc)%list_elem_of_fmap]%elem_of_cons; [by apply Hko|]. by apply Hko, HkD.
Qed.

Lemma UnrefLoop_spec : ∀ l fuel s D kids ext d,
  DentriesOk s D kids ext → d ∈ D → 0 < ext d → path s d l → (length l < fuel)%nat →
  wp (UnrefLoop fuel d) (unreferenced s D ext d) (λ _ _, False) s.
Proof using HOk.
  intros l fuel. revert l. induction fuel as [|fuel IH]; intros l s D kids ext d Hs Hd Hext Hpath Hf; [lia|]. cbn [UnrefLoop].
  destruct (dn_alloc _ _ _ _ Hs d Hd) as [n Hn]. destruct (dn_count _ _ _ _ Hs d n Hd Hn) as [Hcount Hrange].
  apply wp_bind. eapply wp_dentry; [done|]. rewrite count_fits by lia. apply wp_bind, wp_store_dentry; [by eexists|].
  destruct (Z.eqb_spec (RefCount n - 1) 0) as [Hz|Hz].
  - assert (kids d = [] ∧ ext d = 1) as [Hkids Hext1] by (destruct (kids d); [split; [done|cbn in Hcount; lia]|cbn in Hcount; lia]).
    apply wp_bind. eapply wp_mono; [apply (Ext4DeleteDentry_spec _ s _ D kids ext d n); try done| |done].
    + intros p s1 D1 kids1 ext1 Hp Hs1 HpD1 Hp1 Hpars. destruct l as [|q l]; cbn in Hpath; rewrite Hn in Hpath; cbn in Hpath; [congruence|].
      destruct Hpath as [Hq Hpath]. assert (q = p) as -> by congruence. eapply (IH l); [done|done|done| |cbn in Hf; lia].
      by apply (path_ext s s1 Hpars).
    + intros [] s' Hu. by apply wp_ret.
  - apply wp_ret. exists D, kids. split; [|split; [|split; [done|set_solver]]].
    + apply set_count; [done|done|done|lia|lia].
    + constructor; [done| |done|set_solver|set_solver]. intros c Hc. cbn. rewrite lookup_insert_ne; [done|set_solver].
Qed.

(** *** New dentries *)

Definition set_kids (d : loc) (l : list loc) (kids : loc → list loc) (c : loc) : list loc := if decide (c = d) then l else kids c.

(** A new dentry that is not yet in the tree. *)
Lemma add_root s s' D kids ext d n :
  DentriesOk s D kids ext → d ∉ D → Dentries s' !! d = Some n → RefCount n = 1 → Parent n = None →
  ring (Links s') (Children d) [] → is_Some (Links s' !! ListNode d) → short (@nil loc) →
  (∀ c, c ≠ d → Dentries s' !! c = Dentries s !! c) → (∀ k, owner k ≠ d → Links s' !! k = Links s !! k) →
  DentriesOk s' (D ∪ {[d]}) (set_kids d [] kids) (add_ref d 1 ext).
Proof using HOk.
  intros Hs0 Hd Hn Hcnt Hpar Hring Hlink Hnil HD HL.
  assert (DentriesOk s' D kids ext) as Hs.
  { eapply DentriesOk_frame; [..|exact Hs0]; [intros c Hc; apply HD; set_solver|intros k Hk; apply HL; set_solver|done]. }
  assert (∀ c m, c ∈ D → Dentries s' !! c = Some m → Parent m ≠ Some d) as Hnot.
  { intros c m Hc Hm Hp. apply Hd. by eapply (dn_parent _ _ _ _ Hs c m). }
  unfold set_kids, add_ref. constructor.
  - intros c [Hc| ->%elem_of_singleton]%elem_of_union; [by apply Hs|by eexists].
  - intros c [Hc| ->%elem_of_singleton]%elem_of_union; [by apply Hs|done].
  - intros c Hc. destruct (decide (c = d)) as [->|]; [done|]. apply Hs. set_solver.
  - intros c e Hc. destruct (decide (c = d)) as [->|Hne].
    + split; [set_solver|]. intros [[He| ->%elem_of_singleton]%elem_of_union Hp].
      * destruct (dn_alloc _ _ _ _ Hs e He) as [m Hm]. rewrite Hm in Hp. by destruct (Hnot e m He Hm).
      * rewrite Hn in Hp. cbn in Hp. congruence.
    + rewrite (dn_kids _ _ _ _ Hs) by set_solver. split; intros [H1 H2]; (split; [|done]); [set_solver|].
      apply elem_of_union in H1 as [?| ->%elem_of_singleton]; [done|]. rewrite Hn in H2. cbn in H2. congruence.
  - intros c m p [Hc| ->%elem_of_singleton]%elem_of_union Hm Hp; [|congruence]. apply elem_of_union_l. by eapply (dn_parent _ _ _ _ Hs c m).
  - intros c m Hc Hm. destruct (decide (c = d)) as [->|Hne].
    + rewrite Hn in Hm. injection Hm as <-. rewrite Hcnt, (dn_ext_out _ _ _ _ Hs) by done. cbn. destruct platform_uintn as [->| ->]; lia.
    + apply Hs; [set_solver|done].
  - intros c. pose proof (dn_ext _ _ _ _ Hs c). destruct (decide (c = d)); lia.
  - intros c Hc. rewrite decide_False by set_solver. apply Hs. set_solver.
  - intros c Hc. destruct (decide (c = d)) as [->|]; [done|apply Hs; set_solver].
  - destruct (dn_acyclic _ _ _ _ Hs) as [rank Hr]. exists rank. intros c m p [Hc| ->%elem_of_singleton]%elem_of_union Hm Hp; [by eapply Hr|congruence].
Qed.

(** A root without children becomes the last child of another dentry. *)
Lemma attach s D kids ext d n p m h' :
  DentriesOk s D kids ext → d ∈ D → p ∈ D → p ≠ d → Dentries s !! d = Some n → Parent n = None → kids d = [] → Dentries s !! p = Some m →
  RefCount m + 1 < 2 ^ UINTN_WIDTH → short (kids p ++ [d]) →
  ring h' (Children p) (ListNode <$> kids p ++ [d]) → changes_only (ListNode d :: Children p :: (ListNode <$> kids p)) (Links s) h' →
  DentriesOk (mkDentries (<[p := mkDentry (RefCount m + 1) (Name m) (Parent m)]> (<[d := mkDentry (RefCount n) (Name n) (Some p)]> (Dentries s))) h')
    D (set_kids p (kids p ++ [d]) kids) ext.
Proof.
  intros Hs Hd HpD Hpd Hn Hpar Hk Hm Hroom Hsh Hring Hch. set (cells := <[p := _]> _).
  assert (cells !! d = Some (mkDentry (RefCount n) (Name n) (Some p))) as Hcd by (unfold cells; rewrite lookup_insert_ne by done; by rewrite lookup_insert_eq).
  assert (cells !! p = Some (mkDentry (RefCount m + 1) (Name m) (Parent m))) as Hcp by (unfold cells; by rewrite lookup_insert_eq).
  assert (∀ c, c ≠ d → c ≠ p → cells !! c = Dentries s !! c) as Hco by (intros c H1 H2; unfold cells; by rewrite !lookup_insert_ne).
  assert (∀ c, c ≠ d → (x ← cells !! c; Parent x) = (x ← Dentries s !! c; Parent x)) as Hpars.
  { intros c Hc. destruct (decide (c = p)) as [->|]; [by rewrite Hcp, Hm|by rewrite Hco]. }
  assert (∀ c x q, c ≠ d → cells !! c = Some x → Parent x = Some q → ∃ x', Dentries s !! c = Some x' ∧ Parent x' = Some q) as Hold.
  { intros c x q Hc Hx Hq. specialize (Hpars c Hc). rewrite Hx in Hpars. cbn in Hpars. destruct (Dentries s !! c) as [x'|]; cbn in Hpars; [|congruence].
    exists x'. split; [done|congruence]. }
  unfold set_kids. constructor; cbn [Dentries Links].
  - intros c Hc. destruct (decide (c = d)) as [->|]; [by eexists|]. destruct (decide (c = p)) as [->|]; [by eexists|]. rewrite Hco by done. by apply Hs.
  - intros c Hc. apply elem_of_dom. rewrite (proj1 Hch). by apply elem_of_dom, Hs.
  - intros c Hc. destruct (decide (c = p)) as [->|Hne]; [done|]. eapply ring_frame; [done| |by apply Hs].
    assert (∀ e, e ∈ kids c → e ≠ d) as Hed.
    { intros e He ->. apply (dn_kids _ _ _ _ Hs) in He as [_ He]; [|done]. rewrite Hn in He. cbn in He. congruence. }
    intros k [->|(e & -> & Hek)%list_elem_of_fmap]%elem_of_cons; rewrite !not_elem_of_cons; split_and!; try done; try congruence.
    + intros (e & ? & _)%list_elem_of_fmap. done.
    + intros [= ->]. by eapply Hed.
    + intros (e' & [= <-] & He')%list_elem_of_fmap. apply Hne. by eapply (kids_disjoint s D kids ext _ _ e Hs).
  - intros c e Hc. destruct (decide (e = d)) as [->|Hed].
    + rewrite Hcd. cbn. destruct (decide (c = p)) as [->|Hne]; [split; [done|set_solver]|].
      rewrite (dn_kids _ _ _ _ Hs) by done. rewrite Hn. cbn. rewrite Hpar. split; [by intros [_ ?]|]. intros [_ [= ->]]. done.
    + rewrite Hpars by done. destruct (decide (c = p)) as [->|Hne]; [|by apply Hs].
      rewrite <- (dn_kids _ _ _ _ Hs) by done. set_solver.
  - intros c x q Hc Hx Hq. destruct (decide (c = d)) as [->|Hcd']; [rewrite Hcd in Hx; injection Hx as <-; cbn in Hq; by injection Hq as <-|].
    destruct (Hold c x q Hcd' Hx Hq) as (x' & Hx' & Hq'). by apply (dn_parent _ _ _ _ Hs c x').
  - intros c x Hc Hx. destruct (decide (c = p)) as [->|Hcp'].
    + rewrite Hcp in Hx. injection Hx as <-. cbn. destruct (dn_count _ _ _ _ Hs p m HpD Hm) as [-> H2] in Hroom |- *. rewrite length_app. cbn. lia.
    + destruct (decide (c = d)) as [->|]; [|rewrite Hco in Hx by done; by apply Hs]. rewrite Hcd in Hx. injection Hx as <-. cbn. by apply Hs.
  - apply Hs.
  - apply Hs.
  - intros c Hc. destruct (decide (c = p)) as [->|]; [done|by apply Hs].
  - destruct (dn_acyclic _ _ _ _ Hs) as [rank Hr]. exists (λ c, if decide (c = d) then S (rank p) else rank c). intros c x q Hc Hx Hq.
    assert (q ≠ d → c ≠ d → (rank q < rank c)%nat) as Hrest.
    { intros H1 H2. destruct (Hold c x q H2 Hx Hq) as (x' & Hx' & Hq'). by eapply Hr. }
    destruct (decide (c = d)) as [->|Hcd'].
    + rewrite Hcd in Hx. injection Hx as <-. cbn in Hq. injection Hq as <-. rewrite decide_False by done. lia.
    + destruct (decide (q = d)) as [->|]; [|by apply Hrest]. exfalso. destruct (Hold c x d Hcd' Hx Hq) as (x' & Hx' & Hq').
      assert (c ∈ kids d) as Hin by (apply (dn_kids _ _ _ _ Hs); [done|]; split; [done|]; by rewrite Hx'). rewrite Hk in Hin. set_solver.
Qed.

(** *** The operations *)

(** All dentries and list entries there are belong to the forest. *)
Definition whole (s : dentries) (kids : loc → list loc) (ext : loc → Z) : Prop :=
  DentriesOk s (dom (Dentries s)) kids ext ∧ ∀ k, is_Some (Links s !! k) → owner k ∈ dom (Dentries s).

(** There is room for another reference to [d], and for another child. *)
Definition room (s : dentries) (d : loc) : Prop := ∃ n, Dentries s !! d = Some n ∧ RefCount n + 1 < 2 ^ UINTN_WIDTH.
Definition room_for_child (s : dentries) (d : loc) : Prop :=
  ∃ n, Dentries s !! d = Some n ∧ RefCount n + 1 < 2 ^ UINTN_WIDTH ∧
    (PcdMaximumLinkedListLength = 0 ∨ RefCount n + 2 < PcdMaximumLinkedListLength).

Lemma Ext4RefDentry_ok s d n :
  Dentries s !! d = Some n → 0 <= RefCount n → RefCount n + 1 < 2 ^ UINTN_WIDTH →
  Ext4RefDentry d s = Ok tt (mkDentries (<[d := mkDentry (RefCount n + 1) (Name n) (Parent n)]> (Dentries s)) (Links s)).
Proof.
  intros Hn H0 Hr. apply wp_exact, wp_bind. eapply wp_dentry; [done|]. rewrite count_fits by lia. apply wp_bind, wp_store_dentry; [by eexists|].
  apply wp_ASSERT; [apply Z.ltb_lt; lia|done].
Qed.

Lemma Ext4RefDentry_spec s kids ext d :
  whole s kids ext → room s d → wp (Ext4RefDentry d) (λ _ s', whole s' kids (add_ref d 1 ext)) (λ _ _, False) s.
Proof.
  intros [Hs HL] (n & Hn & Hr). assert (d ∈ dom (Dentries s)) as Hd by by eapply elem_of_dom_2.
  destruct (dn_count _ _ _ _ Hs d n Hd Hn) as [Hc Hp]. eapply wp_intro_ok; [apply Ext4RefDentry_ok; [done|lia|lia]|].
  assert (dom (<[d := mkDentry (RefCount n + 1) (Name n) (Parent n)]> (Dentries s)) = dom (Dentries s)) as Hdom by (rewrite dom_insert_L; set_solver).
  split; cbn [Dentries Links]; rewrite Hdom; [|done]. apply set_count; try done; [lia|]. pose proof (dn_ext _ _ _ _ Hs d). lia.
Qed.

Lemma Ext4UnrefDentry_spec s kids ext d :
  whole s kids ext → 0 < ext d →
  wp (Ext4UnrefDentry d)
    (λ b s', (∃ kids', whole s' kids' (add_ref d (-1) ext)) ∧ (b = true ↔ Dentries s' !! d = None)) (λ _ _, False) s.
Proof using HOk.
  intros [Hs HL] He. assert (d ∈ dom (Dentries s)) as Hd.
  { destruct (decide (d ∈ dom (Dentries s))) as [|Hn]; [done|]. rewrite (dn_ext_out _ _ _ _ Hs d Hn) in He. lia. }
  apply wp_bind, wp_getS. destruct (path_exists s _ kids ext d Hs Hd) as (l & Hl & Hnd & Hin).
  assert (length (d :: l) <= base.size (Dentries s))%nat as Hlen.
  { rewrite <- size_dom, <- (size_list_to_set (C := gset loc) (d :: l)) by done. apply subseteq_size. intros c Hc%elem_of_list_to_set. by apply Hin. }
  eapply wp_mono; [apply (UnrefLoop_spec l _ s _ kids ext d Hs Hd He Hl); cbn in Hlen; lia| |done].
  intros b s' (D' & kids' & Hs' & Hrel & Hb).
  assert (∀ c, c ∉ D' → Dentries s' !! c = None) as Hgone.
  { intros c Hc. destruct (decide (c ∈ dom (Dentries s))) as [Hin'|Hout]; [by apply (rl_freed _ _ _ _ Hrel)|].
    rewrite (rl_dentries _ _ _ _ Hrel) by done. by apply not_elem_of_dom. }
  assert (dom (Dentries s') = D') as Hdom.
  { apply set_eq. intros c. rewrite elem_of_dom. split.
    - intros [m Hm]. destruct (decide (c ∈ D')) as [|Hn]; [done|]. rewrite Hgone in Hm by done. done.
    - apply Hs'. }
  split.
  - exists kids'. split; rewrite Hdom; [done|]. intros k [e Hk]. destruct (decide (owner k ∈ D')) as [|Hn]; [done|].
    destruct (decide (owner k ∈ dom (Dentries s))) as [Hin'|Hout].
    + rewrite (rl_freed_links _ _ _ _ Hrel) in Hk by done. done.
    + rewrite (rl_links _ _ _ _ Hrel) in Hk by done. exfalso. apply Hout, HL. by eexists.
  - rewrite Hb, <- Hdom. apply not_elem_of_dom.
Qed.

Lemma Ext4AddDentry_spec s D kids ext d n p m :
  DentriesOk s D kids ext → d ∈ D → p ∈ D → p ≠ d → Dentries s !! d = Some n → Parent n = None → kids d = [] → Dentries s !! p = Some m →
  RefCount m + 1 < 2 ^ UINTN_WIDTH → short (kids p ++ [d]) →
  wp (Ext4AddDentry p d)
    (λ _ s', DentriesOk s' D (set_kids p (kids p ++ [d]) kids) ext ∧ dom (Dentries s') = dom (Dentries s) ∧ dom (Links s') = dom (Links s) ∧
       Dentries s' !! d = Some (mkDentry (RefCount n) (Name n) (Some p))) (λ _ _, False) s.
Proof using HOk.
  intros Hs Hd HpD Hpd Hn Hpar Hk Hm Hroom Hsh. destruct (dn_count _ _ _ _ Hs p m HpD Hm) as [Hcount Hcr].
  apply wp_bind. eapply wp_dentry; [done|]. apply wp_bind, wp_store_dentry; [by eexists|]. apply wp_bind, wp_lists. cbn [Links Dentries].
  assert (d ∉ kids p) as Hdk by (intros [_ Hc]%(dn_kids _ _ _ _ Hs p d HpD); rewrite Hn in Hc; cbn in Hc; congruence).
  eapply wp_mono; [apply (InsertTailList_ring (Links s) (Children p) (ListNode <$> kids p) (ListNode d))| |done].
  - by apply Hs.
  - apply short_fmap. by apply Hs.
  - by apply elem_of_dom, Hs.
  - rewrite not_elem_of_cons. split; [done|]. intros (c & [= <-] & Hc)%list_elem_of_fmap. done.
  - intros y h2 (_ & Hring2 & Hch2). cbn [Dentries].
    eapply wp_intro_ok; [apply (Ext4RefDentry_ok _ p m); [cbn; by rewrite lookup_insert_ne|lia|done]|]. cbn [Dentries Links].
    split; [apply attach; try done; by rewrite fmap_app|]. split_and!.
    + rewrite !dom_insert_L. assert (d ∈ dom (Dentries s) ∧ p ∈ dom (Dentries s)) as [? ?] by (split; by eapply elem_of_dom_2). set_solver.
    + apply Hch2.
    + rewrite lookup_insert_ne by done. by rewrite lookup_insert_eq.
Qed.

(** A new dentry before it is put in the tree. *)
Lemma wp_new_dentry s kids ext d nm rest (K : M dentries ptr) (Q : ptr → dentries → Prop) E :
  whole s kids ext → short (@nil loc) → chars nm → Buffer.size nm <= EXT4_NAME_MAX → Dentries s !! d = None →
  (∀ s1, DentriesOk s1 (dom (Dentries s1)) (set_kids d [] kids) (add_ref d 1 ext) → dom (Dentries s1) = dom (Dentries s) ∪ {[d]} →
     (∀ k, is_Some (Links s1 !! k) → owner k ∈ dom (Dentries s1)) → (∀ c, c ≠ d → Dentries s1 !! c = Dentries s !! c) →
     Dentries s1 !! d = Some (mkDentry 1 (nm ++ 0 :: drop (S (length nm)) (zeros (EXT4_NAME_MAX + 1))) NULL) → wp K Q E s1) →
  wp (n ← dentry d;
      store_dentry d (mkDentry 1 (Name n) (Parent n));;
      n ← dentry d;
      Status ← attempt (StrCpyS (Name n) (EXT4_NAME_MAX + 1) (nm ++ 0 :: rest));
      match Status with inr Copy => store_dentry d (mkDentry (RefCount n) Copy (Parent n)) | inl _ => mret tt end;;
      ASSERT (match Status with inr _ => true | inl _ => false end);;
      lists (InitializeListHead (Children d));;
      K) Q E
    (mkDentries (<[d := mkDentry 0 (zeros (EXT4_NAME_MAX + 1)) NULL]> (Dentries s))
       (<[Children d := mkEntry None None]> (<[ListNode d := mkEntry None None]> (Links s)))).
Proof using HOk.
  intros [Hs HL] Hnil Hnm Hlen Hd HK. unfold EXT4_NAME_MAX in *.
  apply wp_bind. eapply wp_dentry; [by apply lookup_insert_eq|]. apply wp_bind, wp_store_dentry; [cbn; rewrite lookup_insert_eq; by eexists|].
  apply wp_bind. eapply wp_dentry; [cbn; by rewrite lookup_insert_eq|]. cbn [Name Parent RefCount].
  apply wp_bind, wp_attempt. apply StrCpyS_spec; [done|rewrite size_zeros; lia|..]; unfold PcdMaximumUnicodeStringLength; [intros _ _|lia|lia].
  apply wp_bind, wp_store_dentry; [cbn; rewrite lookup_insert_eq; by eexists|]. cbn [Dentries Links].
  rewrite !insert_insert_eq. apply wp_bind, wp_ASSERT; [done|]. apply wp_bind, wp_lists. cbn [Links]. set (L := <[Children d := _]> _).
  assert (dom L = {[Children d; ListNode d]} ∪ dom (Links s)) as HdL by (unfold L; rewrite !dom_insert_L; set_solver).
  eapply wp_mono; [apply InitializeListHead_spec; rewrite HdL; set_solver| |done]. intros x h1 (_ & Hring & Hch). cbn [Dentries].
  assert (∀ k, owner k ≠ d → h1 !! k = Links s !! k) as HL1.
  { intros k Hk. rewrite (proj2 Hch) by (intros ->%list_elem_of_singleton; done). unfold L. rewrite !lookup_insert_ne; [done|by intros <-|by intros <-]. }
  set (s1 := mkDentries _ h1). assert (dom (Dentries s1) = dom (Dentries s) ∪ {[d]}) as Hds1 by (cbn; rewrite dom_insert_L; set_solver).
  apply HK; [|done| |intros c Hc; cbn; by rewrite lookup_insert_ne|by cbn; rewrite lookup_insert_eq].
  - rewrite Hds1. eapply add_root; [exact Hs|by apply not_elem_of_dom|by cbn; rewrite lookup_insert_eq|done|done|done| |done| |done].
    + apply elem_of_dom. cbn. rewrite (proj1 Hch), HdL. set_solver.
    + intros c Hc. cbn. by rewrite lookup_insert_ne.
  - rewrite Hds1. intros k Hk. destruct (decide (owner k = d)) as [->|Hne]; [set_solver|]. cbn in Hk. rewrite HL1 in Hk by done. apply HL in Hk. set_solver.
Qed.

Lemma Ext4CreateDentry_spec s kids ext nm rest p :
  whole s kids ext → short (@nil loc) → chars nm → Buffer.size nm <= EXT4_NAME_MAX → (∀ q, p = Some q → room_for_child s q) →
  wp (Ext4CreateDentry (nm ++ 0 :: rest) p)
    (λ r s', match r with
       | None => s' = s
       | Some d => Dentries s !! d = None ∧ (∃ kids', whole s' kids' (add_ref d 1 ext)) ∧
           ∃ n, Dentries s' !! d = Some n ∧ RefCount n = 1 ∧ Parent n = p ∧ cstr (Name n) = nm
       end) (λ _ _, False) s.
Proof using HOk.
  intros Hs0 Hnil Hnm Hlen Hroom. apply wp_bind, wp_bind, wp_getS. destruct (AllocateDentry s) as [d|] eqn:Ha; [|by apply wp_ret, wp_ret].
  apply AllocateDentry_fresh in Ha as (Hd & HC & HN). apply wp_bind, wp_modify, wp_ret. eapply wp_new_dentry; [done..|].
  intros s1 Hs1 Hds1 HL1 Hother Hcell. destruct p as [p|].
  2: { apply wp_bind, wp_ret, wp_ret. split; [done|]. split; [by exists (set_kids d [] kids)|]. eexists. split; [done|]. split_and!; [done..|]. by apply cstr_app. }
  destruct (Hroom p eq_refl) as (m & Hm & Hr1 & Hr2). assert (p ≠ d) as Hpd by (intros ->; congruence). destruct Hs0 as [Hs HL].
  assert (p ∈ dom (Dentries s)) as HpD by by eapply elem_of_dom_2. destruct (dn_count _ _ _ _ Hs p m HpD Hm) as [Hcount Hcr].
  pose proof (dn_ext _ _ _ _ Hs p) as He. assert (set_kids d [] kids p = kids p) as Hkp by (unfold set_kids; by rewrite decide_False).
  apply wp_bind. eapply wp_mono; [eapply (Ext4AddDentry_spec s1 _ _ _ d _ p m Hs1); rewrite ?Hds1; [set_solver|set_solver|done|exact Hcell|done| |by rewrite Hother|done|]| |done].
  - unfold set_kids. by rewrite decide_True.
  - rewrite Hkp. destruct Hr2 as [?|Hr2]; [by left|]. right. rewrite length_app. cbn. lia.
  - intros [] s2 (Hs2 & HdD & HdL & Hcell2). apply wp_ret. split; [done|]. split; [|eexists; split; [done|]; split_and!; [done..|]; by apply cstr_app].
    eexists. split; rewrite HdD; [exact Hs2|]. intros k Hk. apply HL1, elem_of_dom. rewrite <- HdL. by apply elem_of_dom.
Qed.
End Specs.

(** ** What the driver does with dentries *)

Section Reachable.
Context `{HPl : !Platform, HOk : !PlatformOk, HLp : !ListPcds, HDp : !DentryPool}.

(** A name that fits a dentry. *)
Definition name_ok (NewName : list Z) : Prop := ∃ nm rest, NewName = nm ++ 0 :: rest ∧ chars nm ∧ Buffer.size nm <= EXT4_NAME_MAX.

(** The states the operations lead to, with the references their users hold: who creates a dentry
    has a reference to it, only who has one may take another or give one back. *)
Inductive reachable : dentries → (loc → Z) → Prop :=
| reach_init : reachable (mkDentries ∅ ∅) (λ _, 0)
| reach_create s ext NewName p d s' :
    reachable s ext → name_ok NewName → (∀ q, p = Some q → room_for_child s q) →
    Ext4CreateDentry NewName p s = Ok (Some d) s' → reachable s' (add_ref d 1 ext)
| reach_ref s ext d s' : reachable s ext → room s d → Ext4RefDentry d s = Ok tt s' → reachable s' (add_ref d 1 ext)
| reach_unref s ext d b s' : reachable s ext → 0 < ext d → Ext4UnrefDentry d s = Ok b s' → reachable s' (add_ref d (-1) ext).

Lemma reachable_whole s ext : short (@nil loc) → reachable s ext → ∃ kids, whole s kids ext.
Proof using HOk.
  intros Hnil. induction 1 as [|s ext NewName p d s' _ [kids Hs] (nm & rest & -> & Hnm & Hlen) Hp Hrun|s ext d s' _ [kids Hs] Hr Hrun|s ext d b s' _ [kids Hs] He Hrun].
  - exists (λ _, []). split; [|by intros k [e He]]. constructor; cbn; rewrite ?dom_empty_L; try set_solver. exists (λ _, O). set_solver.
  - pose proof (wp_ok _ _ _ _ _ _ (Ext4CreateDentry_spec s kids ext nm rest p Hs Hnil Hnm Hlen Hp) Hrun) as (_ & Hw & _). exact Hw.
  - pose proof (wp_ok _ _ _ _ _ _ (Ext4RefDentry_spec s kids ext d Hs Hr) Hrun) as Hw. exists kids. exact Hw.
  - pose proof (wp_ok _ _ _ _ _ _ (Ext4UnrefDentry_spec s kids ext d Hs He) Hrun) as [Hw _]. exact Hw.
Qed.

(** A dentry that is held is there, and so are its ancestors. *)
Lemma held_alive s kids ext d : whole s kids ext → 0 < ext d →
  ∃ l, path s d l ∧ ∀ c, c ∈ d :: l → is_Some (Dentries s !! c).
Proof.
  intros [Hs _] He. assert (d ∈ dom (Dentries s)) as Hd.
  { destruct (decide (d ∈ dom (Dentries s))) as [|Hn]; [done|]. rewrite (dn_ext_out _ _ _ _ Hs d Hn) in He. lia. }
  destruct (path_exists s _ kids ext d Hs Hd) as (l & Hl & _ & Hin). exists l. split; [done|]. intros c Hc. by apply elem_of_dom, Hin.
Qed.

(** Ranks of finitely many dentries are bounded. *)
Lemma rank_bound (D : gset loc) (rank : loc → nat) : ∃ B, ∀ d, d ∈ D → (rank d < B)%nat.
Proof.
  induction D as [|x D Hx [B HB]] using set_ind_L; [exists O; set_solver|]. exists (S (Nat.max B (rank x))).
  intros d [->%elem_of_singleton|Hd]%elem_of_union; [lia|]. specialize (HB d Hd). lia.
Qed.

(** Without references from outside there are no dentries. *)
Lemma whole_no_leak s kids ext : whole s kids ext → (∀ d, ext d = 0) → s = mkDentries ∅ ∅.
Proof.
  intros [Hs HL] He. destruct (dn_acyclic _ _ _ _ Hs) as [rank Hrank].
  assert (∀ n d, d ∈ dom (Dentries s) → ∃ c, c ∈ dom (Dentries s) ∧ (n <= rank c)%nat) as Hgrow.
  { induction n as [|n IH]; intros d Hd; [exists d; split; [done|lia]|]. destruct (IH d Hd) as (c & Hc & Hn).
    destruct (dn_alloc _ _ _ _ Hs c Hc) as [m Hm]. destruct (dn_count _ _ _ _ Hs c m Hc Hm) as [Hcount Hpos]. rewrite He in Hcount.
    destruct (kids c) as [|e l] eqn:Hk; [cbn in Hcount; lia|]. assert (e ∈ kids c) as [HeD Hp]%(dn_kids _ _ _ _ Hs) by (rewrite Hk; by left); [|done].
    exists e. split; [done|]. destruct (Dentries s !! e) as [x|] eqn:Hx; [|done]. pose proof (Hrank e x c HeD Hx Hp). lia. }
  assert (Dentries s = ∅) as HD.
  { apply map_empty. intros d. destruct (Dentries s !! d) as [m|] eqn:Hm; [|done]. exfalso. destruct (rank_bound (dom (Dentries s)) rank) as [B HB].
    destruct (Hgrow B d) as (c & Hc & Hge); [by eapply elem_of_dom_2|]. specialize (HB c Hc). lia. }
  assert (Links s = ∅) as HLk.
  { apply map_empty. intros k. destruct (Links s !! k) as [e|] eqn:Hk; [|done]. assert (owner k ∈ dom (Dentries s)) as Hin by (apply HL; by eexists).
    rewrite HD in Hin. set_solver. }
  destruct s as [D L]. cbn in *. by subst.
Qed.
End Reachable.

(** C38. The reference counts of dentries work.  In every state that creating dentries, taking and
    releasing references leads to, each further such operation succeeds: no ASSERT fails, nothing
    is freed twice or used after it was freed, the recursion to the ancestors ends.  A dentry to
    which a reference is held and all its ancestors are allocated, and once all references have
    been released no memory is left. *)
Theorem ext4_dentries_safe `{!Platform, !PlatformOk, !ListPcds, !DentryPool} (s : dentries) (ext : loc → Z)
    (Hnil : short (@nil loc)) (Hr : reachable s ext) :
  (∀ NewName p, name_ok NewName → (∀ q, p = Some q → room_for_child s q) → ∃ r s', Ext4CreateDentry NewName p s = Ok r s' ∧ (r = NULL → s' = s)) ∧
  (∀ d, room s d → ∃ s', Ext4RefDentry d s = Ok tt s') ∧
  (∀ d, 0 < ext d → ∃ b s', Ext4UnrefDentry d s = Ok b s' ∧ (b = true ↔ Dentries s' !! d = None)) ∧
  (∀ d, 0 < ext d → ∃ l, path s d l ∧ ∀ c, c ∈ d :: l → is_Some (Dentries s !! c)) ∧
  ((∀ d, ext d = 0) → s = mkDentries ∅ ∅).
Proof.
  destruct (reachable_whole s ext Hnil Hr) as [kids Hs]. split_and!.
  - intros NewName p (nm & rest & -> & Hnm & Hlen) Hp.
    destruct (wp_total _ _ _ (Ext4CreateDentry_spec s kids ext nm rest p Hs Hnil Hnm Hlen Hp)) as (r & s' & Hrun & Hpost).
    exists r, s'. split; [done|]. by intros ->.
  - intros d Hd. destruct (wp_total _ _ _ (Ext4RefDentry_spec s kids ext d Hs Hd)) as ([] & s' & Hrun & _). by exists s'.
  - intros d Hd. destruct (wp_total _ _ _ (Ext4UnrefDentry_spec s kids ext d Hs Hd)) as (b & s' & Hrun & _ & Hb). by exists b, s'.
  - intros d Hd. by eapply held_alive.
  - by eapply whole_no_leak.
Qed.

(** ** Samples *)

Section Witness.
#[local] Existing Instance platform_x64.
#[local] Existing Instance platform_x64_ok.
#[local] Existing Instance sample_list_pcds.

#[local] Program Instance sample_dentry_pool : DentryPool := {| AllocateDentry s := Some (fresh (elements (dom (Dentries s) ∪ set_map owner (dom (Links s))))) |}.
Next Obligation.
  intros s d [= <-]. set (l := elements _). pose proof (infinite_is_fresh l) as Hf. unfold l in Hf at 2. rewrite elem_of_elements in Hf.
  assert (fresh l ∉ dom (Dentries s) ∧ ∀ k, owner k = fresh l → k ∉ dom (Links s)) as [H1 H2].
  { split; [set_solver|]. intros k Hk Hin. apply Hf, elem_of_union_r, elem_of_map. by exists k. }
  split_and!; apply not_elem_of_dom; [done|by apply H2..].
Qed.

(** The root, a child of it; then both references are given back. *)
Definition sample_run : M dentries (bool * bool) :=
  root ← Ext4CreateDentry [47; 0] NULL;
  child ← Ext4CreateDentry [97; 0] root;
  match root, child with
  | Some r, Some c => b1 ← Ext4UnrefDentry r; b2 ← Ext4UnrefDentry c; mret (b1, b2)
  | _, _ => crash UndefinedBehaviour
  end.

Lemma ext4_dentries_safe_witness :
  sample_run (mkDentries ∅ ∅) = Ok (false, true) (mkDentries ∅ ∅) ∧
  ∃ s ext, reachable s ext ∧ ext 1%positive = 1 ∧ ∃ b s', Ext4UnrefDentry 1%positive s = Ok b s' ∧ (b = true ↔ Dentries s' !! 1%positive = None).
Proof.
  split; [by vm_compute|].
  assert (name_ok [47; 0]) as Hn by (exists [47], []; split; [done|]; split; [by repeat constructor|by vm_compute]).
  destruct (Ext4CreateDentry [47; 0] NULL (mkDentries ∅ ∅)) as [[d|] s|e s|f] eqn:Hrun; try by (exfalso; vm_compute in Hrun; discriminate Hrun).
  assert (d = 1%positive) as -> by (vm_compute in Hrun; by injection Hrun).
  assert (reachable s (add_ref 1%positive 1 (λ _, 0))) as Hr by (eapply (reach_create (mkDentries ∅ ∅) (λ _, 0) [47; 0] NULL); [apply reach_init|exact Hn|by intros q [=]|exact Hrun]).
  exists s, (add_ref 1%positive 1 (λ _, 0)). split; [done|]. split; [done|].
  apply (ext4_dentries_safe s _ ltac:(by right) Hr). done.
Defined.
End Witness.
