(* ===== verification/ImageRecord.v ===== *)
(** Image records (MdePkg/Include/Library/UefiImageLib.h): the description of the memory
    permissions of a loaded image that BaseUefiImageLib gives the firmware core, and what such a
    record has to say about an image. *)
From S2P Require Import Prelude Base Buffer Platform.

Definition EFI_MEMORY_RP : Z := 0x2000.
Definition EFI_MEMORY_XP : Z := 0x4000.
Definition EFI_MEMORY_RO : Z := 0x20000.

(** The attributes of read-only data. *)
Definition read_only : Z := Z.lor EFI_MEMORY_XP EFI_MEMORY_RO.

Record UEFI_IMAGE_RECORD_SEGMENT := segment {
  seg_Size : Z;
  seg_Attributes : Z;
}.

(** 'U', 'I', 'I', 'R' *)
Definition UEFI_IMAGE_RECORD_SIGNATURE : Z := 0x52494955.

(** All of the record but Link, which InitializeListHead makes a list of its own and which only
    means something in the list the caller inserts the record into. *)
Record UEFI_IMAGE_RECORD := {
  Signature : Z;
  NumSegments : Z;
  StartAddress : Z;
  EndAddress : Z;
  Segments : list UEFI_IMAGE_RECORD_SEGMENT;
}.

(** Segments[Index] = s, and Segments[Index] *)
Definition put_segment {S} (l : list UEFI_IMAGE_RECORD_SEGMENT) (Index : Z) (s : UEFI_IMAGE_RECORD_SEGMENT)
    : M S (list UEFI_IMAGE_RECORD_SEGMENT) :=
  require ((0 <=? Index) && (Index <? Z.of_nat (length l))) OutOfBounds;;
  mret (<[Z.to_nat Index := s]> l).

Definition get_segment {S} (l : list UEFI_IMAGE_RECORD_SEGMENT) (Index : Z) : M S UEFI_IMAGE_RECORD_SEGMENT :=
  match l !! Z.to_nat Index with
  | Some s => require (0 <=? Index) OutOfBounds;; mret s
  | None => crash OutOfBounds
  end.

(** [ZeroMem (Segments + Index, (Max - Index) * sizeof ( *Segments))] *)
Definition zero_segments {S} (l : list UEFI_IMAGE_RECORD_SEGMENT) (Index Max : Z) : M S (list UEFI_IMAGE_RECORD_SEGMENT) :=
  require ((0 <=? Index) && (Index <=? Max) && (Max <=? Z.of_nat (length l))) OutOfBounds;;
  mret (take (Z.to_nat Index) l ++ replicate (Z.to_nat (Max - Index)) (segment 0 0) ++ drop (Z.to_nat Max) l).

(** ** What a list of segments says *)

Fixpoint total (l : list UEFI_IMAGE_RECORD_SEGMENT) : Z :=
  match l with
  | [] => 0
  | s :: l' => seg_Size s + total l'
  end.

(** The attributes [x] bytes behind the start. *)
Fixpoint attribute_at (l : list UEFI_IMAGE_RECORD_SEGMENT) (x : Z) : option Z :=
  match l with
  | [] => None
  | s :: l' => if x <? seg_Size s then Some (seg_Attributes s) else attribute_at l' (x - seg_Size s)
  end.

(** The segments have [lo] bytes at least, can be protected in units of [a], and give every byte
    of the first [n] the attributes [f] asks for. *)
Record Covers (lo a : Z) (f : Z → Z) (l : list UEFI_IMAGE_RECORD_SEGMENT) (n : Z) : Prop := {
  cov_sizes : Forall (λ s, lo <= seg_Size s ∧ (a | seg_Size s)) l;
  cov_total : total l = n;
  cov_attr x : 0 <= x < n → attribute_at l x = Some (f x);
}.

(** What an image record promises: [f] are the attributes of an image of [n] bytes at
    [Address], [a] its alignment, [lo] the least size of a segment.  The unused entries of the array are zero. *)
Record RecordOk (w lo a : Z) (f : Z → Z) (n Address : Z) (r : UEFI_IMAGE_RECORD) : Prop := {
  rec_signature : Signature r = UEFI_IMAGE_RECORD_SIGNATURE;
  rec_count : 1 <= NumSegments r <= Z.of_nat (length (Segments r));
  rec_covers : Covers lo a f (take (Z.to_nat (NumSegments r)) (Segments r)) n;
  rec_rest : Forall (λ s, s = segment 0 0) (drop (Z.to_nat (NumSegments r)) (Segments r));
  rec_start : StartAddress r = Address;
  rec_end : EndAddress r = wrap w (Address + n);
}.

(** Memory with these attributes can be executed, can be written. *)
Definition executable (Attributes : Z) : bool := Z.land Attributes EFI_MEMORY_XP =? 0.
Definition writable (Attributes : Z) : bool := Z.land Attributes EFI_MEMORY_RO =? 0.

Section Lists.
Implicit Types l : list UEFI_IMAGE_RECORD_SEGMENT.

Lemma total_app l1 l2 : total (l1 ++ l2) = total l1 + total l2.
Proof. induction l1 as [|s l1 IH]; cbn; [done|]. rewrite IH. lia. Qed.

Lemma total_nonneg l (P : Z → Prop) lo : 0 <= lo → Forall (λ s, lo <= seg_Size s ∧ P (seg_Size s)) l → 0 <= total l.
Proof. induction 2 as [|s l [? ?] ? IH]; cbn; lia. Qed.

Lemma attribute_at_app l1 l2 x :
  attribute_at (l1 ++ l2) x =
    match attribute_at l1 x with Some a => Some a | None => attribute_at l2 (x - total l1) end.
Proof.
  revert x. induction l1 as [|s l1 IH]; intros x; cbn; [f_equal; lia|].
  case_match; [done|]. rewrite IH. case_match; [done|]. f_equal. lia.
Qed.

Lemma attribute_at_behind l (P : Z → Prop) lo x :
  0 <= lo → Forall (λ s, lo <= seg_Size s ∧ P (seg_Size s)) l → total l <= x → attribute_at l x = None.
Proof.
  intros Hlo Hl. revert x. induction Hl as [|s l [Hs HP] Hl IH]; intros x Hx; cbn in *; [done|].
  pose proof (total_nonneg l P lo Hlo Hl). destruct (Z.ltb_spec x (seg_Size s)); [lia|]. apply IH. lia.
Qed.
End Lists.

Section Covering.
Context {lo a : Z} {f : Z → Z} (Hlo : 0 <= lo).
Implicit Types l : list UEFI_IMAGE_RECORD_SEGMENT.

Lemma Covers_nil : Covers lo a f [] 0.
Proof. constructor; [constructor|done|lia]. Qed.

Lemma Covers_snoc l n z Attr :
  Covers lo a f l n → lo <= z → (a | z) → (∀ x, n <= x < n + z → f x = Attr) →
  Covers lo a f (l ++ [segment z Attr]) (n + z).
Proof.
  intros [Hs Ht Ha] Hz Hd Hf. constructor.
  - apply Forall_app. split; [done|]. by repeat constructor.
  - rewrite total_app. cbn. lia.
  - intros x Hx. rewrite attribute_at_app. destruct (decide (x < n)) as [Hlt|].
    + by rewrite Ha by lia.
    + rewrite (attribute_at_behind _ (λ z, (a | z)) lo) by (done || lia). cbn.
      destruct (Z.ltb_spec (x - total l) z); [by rewrite Hf by lia|lia].
Qed.

(** Every segment stands for some byte. *)
Lemma Covers_attributes l n s : 0 < lo → Covers lo a f l n → s ∈ l → ∃ x, 0 <= x < n ∧ f x = seg_Attributes s.
Proof.
  intros Hpos [Hs Ht Ha] (l1 & l2 & ->)%list_elem_of_split.
  rewrite total_app in Ht. cbn in Ht. apply Forall_app in Hs as [Hs1 Hs2]. inversion Hs2 as [|? ? [Hz _] Hs3]; subst.
  pose proof (total_nonneg l1 _ lo Hlo Hs1). pose proof (total_nonneg l2 _ lo Hlo Hs3).
  exists (total l1). split; [lia|].
  assert (Some (f (total l1)) = Some (seg_Attributes s)) as [= ->]; [|done].
  rewrite <- Ha, attribute_at_app, (attribute_at_behind _ (λ z, (a | z)) lo) by (done || lia). cbn.
  rewrite Z.sub_diag. by destruct (Z.ltb_spec 0 (seg_Size s)); [|lia].
Qed.
End Covering.

(** ** Symbolic execution *)

Lemma wp_put_segment {S} l i x (Q : list UEFI_IMAGE_RECORD_SEGMENT → S → Prop) E s :
  0 <= i < Z.of_nat (length l) → Q (<[Z.to_nat i := x]> l) s → wp (put_segment l i x) Q E s.
Proof. intros. unfold put_segment. wp_step. wp_step; [lia|]. by wp_step. Qed.

Lemma wp_get_segment {S} l i x (Q : UEFI_IMAGE_RECORD_SEGMENT → S → Prop) E s :
  0 <= i → l !! Z.to_nat i = Some x → Q x s → wp (get_segment l i) Q E s.
Proof. intros ? Hl ?. unfold get_segment. rewrite Hl. wp_step. wp_step; [lia|]. by wp_step. Qed.

Lemma wp_zero_segments {S} l i n (Q : list UEFI_IMAGE_RECORD_SEGMENT → S → Prop) E s :
  0 <= i <= n → n = Z.of_nat (length l) →
  Q (take (Z.to_nat i) l ++ replicate (Z.to_nat (n - i)) (segment 0 0)) s →
  wp (zero_segments l i n) Q E s.
Proof.
  intros ? Hn HQ. unfold zero_segments. wp_step. wp_step; [lia|]. wp_step.
  by rewrite (drop_ge l), app_nil_r by lia.
Qed.

(** The array starts with [l]. *)
Definition starts (Segs l : list UEFI_IMAGE_RECORD_SEGMENT) : Prop := take (length l) Segs = l.

Lemma starts_length Segs l : starts Segs l → (length l <= length Segs)%nat.
Proof. unfold starts. intros H. apply (f_equal length) in H. rewrite length_take in H. lia. Qed.

Lemma starts_snoc Segs l x :
  starts Segs l → (length l < length Segs)%nat → starts (<[length l := x]> Segs) (l ++ [x]).
Proof.
  unfold starts. intros Hl Hlt. rewrite length_app. cbn. rewrite Nat.add_1_r.
  rewrite (take_S_r _ _ x) by (by apply list_lookup_insert_eq).
  by rewrite take_insert_ge, Hl.
Qed.

Lemma starts_last Segs l y x :
  starts Segs (l ++ [y]) → starts (<[length l := x]> Segs) (l ++ [x]).
Proof.
  intros Hl. pose proof (starts_length _ _ Hl) as Hlen. rewrite length_app in Hlen. cbn in Hlen.
  apply starts_snoc; [|lia]. unfold starts in *. rewrite length_app in Hl. cbn in Hl.
  rewrite Nat.add_1_r in Hl. apply (f_equal (take (length l))) in Hl.
  by rewrite take_take, Nat.min_l, take_app_length in Hl by lia.
Qed.

Lemma starts_lookup Segs l y : starts Segs (l ++ [y]) → Segs !! length l = Some y.
Proof.
  unfold starts. intros Hl. rewrite length_app in Hl. cbn in Hl.
  assert (take (length l + 1) Segs !! length l = Some y) as H.
  { rewrite Hl. by apply list_lookup_middle. }
  apply lookup_take_Some in H. tauto.
Qed.

(** A record whose array starts with [l], after the rest is zeroed. *)
Lemma RecordOk_zeroed `{!Platform} lo a f l Segs n Address :
  starts Segs l → l ≠ [] → Covers lo a f l n →
  RecordOk UINTN_WIDTH lo a f n Address {|
    Signature := UEFI_IMAGE_RECORD_SIGNATURE; NumSegments := Z.of_nat (length l); StartAddress := Address;
    EndAddress := wrapn (Address + n);
    Segments := take (length l) Segs ++ replicate (length Segs - length l) (segment 0 0) |}.
Proof.
  intros Hst Hne HC. pose proof (starts_length _ _ Hst). unfold starts in Hst. rewrite Hst.
  assert (length l ≠ 0%nat) by (by destruct l).
  constructor; cbn [Signature NumSegments StartAddress EndAddress Segments]; try done.
  - rewrite length_app, length_replicate. lia.
  - by rewrite Nat2Z.id, take_app_length.
  - rewrite Nat2Z.id, drop_app_length. by apply Forall_replicate.
Qed.
