(* ===== verification/ImageRecordPe.v ===== *)
(** PeSupport.c of BaseUefiImageLib: the image record and the fixed address of a PE/COFF image. *)
From Stdlib Require Import String.
From S2P Require Import Prelude Base Buffer Overflow PeImage PeSample PeCoffInit PeCoffLoad ImageRecord.

Definition EFI_IMAGE_SCN_CNT_CODE : Z := 0x20.
Definition EFI_IMAGE_SCN_MEM_READ : Z := 0x40000000.
Definition SECT_PointerToRelocations : Z := Eval vm_compute in offset_of EFI_IMAGE_SECTION_HEADER "PointerToRelocations"%string.

(** EFI_IMAGE_SCN_MEM_EXECUTE | EFI_IMAGE_SCN_MEM_READ | EFI_IMAGE_SCN_MEM_WRITE *)
Definition permission_mask : Z :=
  Z.lor (Z.lor EFI_IMAGE_SCN_MEM_EXECUTE EFI_IMAGE_SCN_MEM_READ) EFI_IMAGE_SCN_MEM_WRITE.

(** The local variables of UefiImageLoaderGetImageRecordPe that its loop changes. *)
Record record_locals := {
  rl_Segments : list UEFI_IMAGE_RECORD_SEGMENT;
  rl_NumRecordSegments : Z;
  rl_StartAddress : Z;
  rl_EndAddress : Z;
  rl_Characteristics : Z;
  rl_Attributes : Z;
}.

Definition set_rl_Segments (l : list UEFI_IMAGE_RECORD_SEGMENT) (n : Z) (v : record_locals) : record_locals := {|
  rl_Segments := l; rl_NumRecordSegments := n; rl_StartAddress := rl_StartAddress v;
  rl_EndAddress := rl_EndAddress v; rl_Characteristics := rl_Characteristics v;
  rl_Attributes := rl_Attributes v; |}.

Definition set_rl_StartAddress (a : Z) (v : record_locals) : record_locals := {|
  rl_Segments := rl_Segments v; rl_NumRecordSegments := rl_NumRecordSegments v; rl_StartAddress := a;
  rl_EndAddress := rl_EndAddress v; rl_Characteristics := rl_Characteristics v;
  rl_Attributes := rl_Attributes v; |}.

Definition set_rl_Range (EndAddress_ Characteristics_ Attributes : Z) (v : record_locals) : record_locals := {|
  rl_Segments := rl_Segments v; rl_NumRecordSegments := rl_NumRecordSegments v;
  rl_StartAddress := rl_StartAddress v; rl_EndAddress := EndAddress_;
  rl_Characteristics := Characteristics_; rl_Attributes := Attributes; |}.

Section Code.
Context `{!Platform} (FileAddress DestinationAddress : Z).
(** The array of a new record with this many segments, or NULL. *)
Context (AllocateRecord : Z → option (list UEFI_IMAGE_RECORD_SEGMENT)).

Definition InternalCharacteristicsToAttributes (Characteristics : Z) : Z :=
  let WX := Z.lor EFI_IMAGE_SCN_MEM_EXECUTE EFI_IMAGE_SCN_MEM_WRITE in
  let Characteristics :=
    if PcdImageLoaderRemoveXForWX && (Z.land Characteristics WX =? WX)
    then Z.land Characteristics (lnot_w 32 EFI_IMAGE_SCN_MEM_EXECUTE) else Characteristics in
  let Attributes := 0 in
  let Attributes := if Z.land Characteristics EFI_IMAGE_SCN_MEM_READ =? 0 then Z.lor Attributes EFI_MEMORY_RP else Attributes in
  let Attributes := if Z.land Characteristics EFI_IMAGE_SCN_MEM_EXECUTE =? 0 then Z.lor Attributes EFI_MEMORY_XP else Attributes in
  if Z.land Characteristics EFI_IMAGE_SCN_MEM_WRITE =? 0 then Z.lor Attributes EFI_MEMORY_RO else Attributes.

(** [RecordSegment] is the index of the segment. *)
Definition InternalInsertImageRecordSegmentPadding (Segs : list UEFI_IMAGE_RECORD_SEGMENT)
    (RecordSegment EndAddress_ NextAddress Attributes : Z) : LoadM (list UEFI_IMAGE_RECORD_SEGMENT * Z) :=
  ASSERT (EndAddress_ <=? NextAddress);;
  if NextAddress =? EndAddress_ then mret (Segs, 0)
  else if Attributes =? Z.lor EFI_MEMORY_XP EFI_MEMORY_RO then
    Seg ← get_segment Segs RecordSegment;
    Segs ← put_segment Segs RecordSegment
      (segment (wrap 32 (seg_Size Seg + wrap 32 (NextAddress - EndAddress_))) (seg_Attributes Seg));
    mret (Segs, 0)
  else
    Segs ← put_segment Segs (RecordSegment + 1)
      (segment (wrap 32 (NextAddress - EndAddress_)) (Z.lor EFI_MEMORY_XP EFI_MEMORY_RO));
    mret (Segs, 1).

(** [RecordSegment->Size = EndAddress - StartAddress; ...; ++NumRecordSegments] *)
Definition AddRecordSegment (v : record_locals) : LoadM record_locals :=
  Segs ← put_segment (rl_Segments v) (rl_NumRecordSegments v)
    (segment (wrap 32 (rl_EndAddress v - rl_StartAddress v)) (rl_Attributes v));
  mret (set_rl_Segments Segs (wrap 32 (rl_NumRecordSegments v + 1)) v).

(** The padding behind the segment just added. *)
Definition AddPadding (NextAddress : Z) (v : record_locals) : LoadM record_locals :=
  '(Segs, n) ← InternalInsertImageRecordSegmentPadding (rl_Segments v) (rl_NumRecordSegments v - 1)
    (rl_EndAddress v) NextAddress (rl_Attributes v);
  mret (set_rl_Segments Segs (wrap 32 (rl_NumRecordSegments v + n)) v).

(** The body of the loop over the sections. *)
Definition RecordSection (SectionIndex : Z) (v : record_locals) : LoadM record_locals :=
  s ← getS;
  let SectionAlignment := PeCoffGetSectionAlignment (Context s) in
  VSize ← read_section SectionIndex SECT_VirtualSize;
  if VSize =? 0 then mret v
  else
    SectionAddress ← read_section SectionIndex SECT_VirtualAddress;
    let SectionSize := ALIGN_VALUE 32 VSize SectionAlignment in
    Chars ← read_section SectionIndex SECT_Characteristics;
    let SectionCharacteristics := Z.land Chars permission_mask in
    if (strict_sections || (SectionAddress =? rl_EndAddress v) ||
        (rl_Characteristics v =? EFI_IMAGE_SCN_MEM_READ)) &&
       (SectionCharacteristics =? rl_Characteristics v)
    then mret (set_rl_Range (wrap 32 (SectionAddress + SectionSize)) (rl_Characteristics v) (rl_Attributes v) v)
    else
      v ← (if SectionAddress =? rl_StartAddress v then mret v
           else
             v ← AddRecordSegment v;
             v ← (if strict_sections then mret v else AddPadding SectionAddress v);
             mret (set_rl_StartAddress SectionAddress v));
      mret (set_rl_Range (wrap 32 (SectionAddress + SectionSize)) SectionCharacteristics
              (InternalCharacteristicsToAttributes SectionCharacteristics) v).

Definition UefiImageLoaderGetImageRecordPe : LoadM (option UEFI_IMAGE_RECORD) :=
  s ← getS;
  let NumberOfSections_ := fst (PeCoffGetSectionTable (Context s)) in
  let MaxNumRecordSegments :=
    if strict_sections then NumberOfSections_ + 2 else NumberOfSections_ * 2 + 1 in
  match AllocateRecord MaxNumRecordSegments with
  | None => mret None
  | Some Segs =>
      let Attributes := Z.lor EFI_MEMORY_XP EFI_MEMORY_RO in
      ASSERT (Attributes =? InternalCharacteristicsToAttributes EFI_IMAGE_SCN_MEM_READ);;
      v ← for_loop (Z.to_nat NumberOfSections_) 0 RecordSection {|
            rl_Segments := Segs; rl_NumRecordSegments := 0; rl_StartAddress := 0;
            rl_EndAddress := PeCoffGetSizeOfHeaders (Context s);
            rl_Characteristics := EFI_IMAGE_SCN_MEM_READ; rl_Attributes := Attributes |};
      ASSERT (rl_StartAddress v <? rl_EndAddress v);;
      v ← AddRecordSegment v;
      ImageAddress ← PeCoffLoaderGetImageAddress FileAddress DestinationAddress;
      let SizeOfImage_ := PeCoffGetSizeOfImage (Context s) in
      v ← AddPadding SizeOfImage_ v;
      Segs ← zero_segments (rl_Segments v) (rl_NumRecordSegments v) MaxNumRecordSegments;
      mret (Some {|
        Signature := UEFI_IMAGE_RECORD_SIGNATURE; NumSegments := rl_NumRecordSegments v;
        StartAddress := ImageAddress; EndAddress := wrapn (ImageAddress + SizeOfImage_);
        Segments := Segs |})
  end.

(** ReadUnaligned64 of PointerToRelocations and PointerToLinenumbers of the first section that
    does not hold code; the fixed address. *)
Fixpoint FindFixedAddress (n : nat) (SectionIndex : Z) : LoadM Z :=
  match n with
  | O => raise RETURN_NOT_FOUND
  | S k =>
      s ← getS;
      Chars ← read_section SectionIndex SECT_Characteristics;
      if negb (Z.land Chars EFI_IMAGE_SCN_CNT_CODE =? 0) then FindFixedAddress k (SectionIndex + 1)
      else
        FixedAddress ← rd 8 (FileBuffer s) (section_field (Context s) SectionIndex SECT_PointerToRelocations);
        if negb (FixedAddress =? 0) then
          fail_if (negb (IS_ALIGNED FixedAddress (PeCoffGetSectionAlignment (Context s)))) RETURN_UNSUPPORTED;;
          mret FixedAddress
        else raise RETURN_NOT_FOUND
  end.

Definition UefiImageGetFixedAddressPe : LoadM Z :=
  s ← getS;
  FindFixedAddress (Z.to_nat (fst (PeCoffGetSectionTable (Context s)))) 0.
End Code.

(** ** The attributes of the memory of an image *)

Section Attributes.
Context `{!Platform} (File : list Z) (c : PE_COFF_LOADER_IMAGE_CONTEXT).

(** Section [i] has the memory up to here for itself. *)
Definition range_end (i : Z) : Z :=
  VirtualAddress File c i + align_up (VirtualSize File c i) (SectionAlignment c).

Definition section_attributes (i : Z) : Z :=
  InternalCharacteristicsToAttributes (Z.land (Characteristics File c i) permission_mask).

Definition in_range (i x : Z) : bool := (VirtualAddress File c i <=? x) && (x <? range_end i).

Fixpoint attributes_from (n : nat) (i x : Z) : Z :=
  match n with
  | O => read_only
  | S k => if in_range i x then section_attributes i else attributes_from k (i + 1) x
  end.

(** The attributes RVA [x] should have: those of the section it belongs to; what belongs to no
    section is read-only data. *)
Definition image_attributes (x : Z) : Z := attributes_from (Z.to_nat (NumberOfSections c)) 0 x.

(** No section with memory of its own starts inside the headers, unless it starts the image;
    when sections have to be adjacent, the aligned headers have no gap behind them. *)
Definition headers_apart : Prop :=
  if strict_sections then VirtualAddress File c 0 = 0 ∨ (SectionAlignment c | SizeOfHeaders c)
  else VirtualAddress File c 0 ≠ 0 ∨ VirtualSize File c 0 ≠ 0.

Lemma attributes_from_hit n i x j :
  i <= j < i + Z.of_nat n → (∀ k, i <= k < j → in_range k x = false) → in_range j x = true →
  attributes_from n i x = section_attributes j.
Proof.
  revert i. induction n as [|n IH]; intros i Hj Hmiss Hhit; cbn [attributes_from]; [lia|].
  destruct (decide (i = j)) as [->|]; [by rewrite Hhit|].
  rewrite Hmiss by lia. apply IH; [lia| |done]. intros k Hk. apply Hmiss. lia.
Qed.

Lemma attributes_from_miss n i x :
  (∀ j, i <= j < i + Z.of_nat n → in_range j x = false) → attributes_from n i x = read_only.
Proof.
  revert i. induction n as [|n IH]; intros i Hmiss; cbn [attributes_from]; [done|].
  rewrite Hmiss by lia. apply IH. intros j Hj. apply Hmiss. lia.
Qed.
End Attributes.

(** ** Permissions *)

Section Permissions.
Context `{!Platform}.

(** The three permission bits of a section. *)
Lemma permission_cases Chars :
  u32 Chars → ∃ k, 0 <= k < 8 ∧ Z.land Chars permission_mask = k * 2 ^ 29.
Proof.
  intros Hu. exists (Chars / 2 ^ 29). split.
  - destruct Hu. split; [apply Z.div_pos; lia|]. apply Z.div_lt_upper_bound; lia.
  - change permission_mask with (lnot_w 32 (2 ^ 29 - 1)). rewrite land_lnot_mask by (done || lia).
    pose proof (Z.div_mod Chars (2 ^ 29)). lia.
Qed.

Lemma attributes_of_read : InternalCharacteristicsToAttributes EFI_IMAGE_SCN_MEM_READ = read_only.
Proof. unfold InternalCharacteristicsToAttributes. by destruct PcdImageLoaderRemoveXForWX. Qed.

(** Memory is executable and writable only if the section asks for both and the platform
    leaves it at that. *)
Lemma attributes_wx Chars :
  u32 Chars → (PcdImageLoaderRemoveXForWX = true ∨ write_execute Chars = false) →
  executable (InternalCharacteristicsToAttributes (Z.land Chars permission_mask)) &&
  writable (InternalCharacteristicsToAttributes (Z.land Chars permission_mask)) = false.
Proof.
  intros Hu Hwx. assert (write_execute (Z.land Chars permission_mask) = write_execute Chars) as Hm.
  { unfold write_execute. by rewrite <- Z.land_assoc. }
  rewrite <- Hm in Hwx. clear Hm. revert Hwx. destruct (permission_cases Chars Hu) as (k & Hk & ->).
  assert (k = 0 ∨ k = 1 ∨ k = 2 ∨ k = 3 ∨ k = 4 ∨ k = 5 ∨ k = 6 ∨ k = 7) as Hk8 by lia.
  unfold InternalCharacteristicsToAttributes.
  destruct Hk8 as [->|[->|[->|[->|[->|[->|[->| ->]]]]]]]; destruct PcdImageLoaderRemoveXForWX;
    vm_compute; intros [Hr|Hr]; done.
Qed.
End Permissions.

(** ** Building the record *)

Section Ranges.
Context `{!Platform, !PlatformOk} (File : list Z) (c : PE_COFF_LOADER_IMAGE_CONTEXT).
Context (Hfile : bytes File) (Hwf : WellFormed File c).

#[local] Abbreviation a := (SectionAlignment c).
#[local] Abbreviation f := (image_attributes File c).
#[local] Abbreviation VA := (VirtualAddress File c).

Lemma alignment_pos : 0 < a.
Proof. destruct Hwf as (_ & Hs & _). apply IS_POW2_pos; [apply (sec_align_u32 _ _ Hs)|apply (sec_pow2 _ _ Hs)]. Qed.

Lemma align_up_0 b : 0 < b → align_up 0 b = 0.
Proof. intros. apply align_up_id; [done|]. by exists 0. Qed.

Lemma range_facts i :
  0 <= i < NumberOfSections c →
  0 <= VA i ∧ VA i <= range_end File c i <= SizeOfImage c ∧ (a | VA i) ∧ (a | range_end File c i) ∧
  (VirtualSize File c i = 0 → range_end File c i = VA i) ∧
  (VirtualSize File c i ≠ 0 → VA i < range_end File c i).
Proof.
  intros Hi. pose proof alignment_pos as Ha. pose proof Hwf as (_ & Hs & _).
  destruct (section_fields_u32 File c Hfile i) as ([? ?] & [? ?] & _).
  destruct (aligned_section_size File c Hfile Hwf i Hi) as [Hle _].
  pose proof (align_up_ge (VirtualSize File c i) a Ha).
  pose proof (sec_aligned _ _ Hs i Hi). unfold range_end. split_and!; try lia; try done.
  - apply Z.divide_add_r; [done|apply align_up_divide].
  - intros ->. rewrite align_up_0 by done. lia.
Qed.

Lemma range_order i j : 0 <= i < j → j < NumberOfSections c → range_end File c i <= VA j.
Proof.
  intros Hi Hj. pose proof alignment_pos as Ha. pose proof Hwf as (_ & Hs & _).
  pose proof (sec_disjoint _ _ Hs i j Hi Hj) as Hd. unfold section_end in Hd. unfold range_end.
  enough (align_up (VirtualSize File c i) a <= VA j - VA i) by lia.
  apply align_up_least; [done| |lia].
  apply Z.divide_sub_r; apply (sec_aligned _ _ Hs); lia.
Qed.

(** Adjacent sections. *)
Lemma range_next i :
  strict_sections = true → 0 <= i < NumberOfSections c →
  range_end File c i = if i + 1 <? NumberOfSections c then VA (i + 1) else SizeOfImage c.
Proof.
  intros Hst Hi. pose proof Hwf as (_ & Hs & _). rewrite <- (sec_adjacent _ _ Hs i Hst Hi).
  destruct (sec_aligned _ _ Hs i Hi) as [q Hq]. pose proof alignment_pos.
  unfold range_end, section_end, align_up. rewrite Hq.
  replace (q * a + VirtualSize File c i + a - 1) with (VirtualSize File c i + a - 1 + q * a) by lia.
  rewrite Z.div_add by lia. lia.
Qed.

Lemma attributes_in i x :
  0 <= i < NumberOfSections c → VA i <= x < range_end File c i → f x = section_attributes File c i.
Proof.
  intros Hi Hx. apply attributes_from_hit; unfold in_range; [lia| |lia].
  intros k Hk. pose proof (range_order k i ltac:(lia) ltac:(lia)). lia.
Qed.

Lemma attributes_gap x :
  (∀ i, 0 <= i < NumberOfSections c → x < VA i ∨ range_end File c i <= x) → f x = read_only.
Proof. intros Hx. apply attributes_from_miss. intros j Hj. specialize (Hx j ltac:(lia)). unfold in_range. lia. Qed.

(** Sections without memory of their own before section [j] do not move it. *)
Lemma empty_sections j :
  strict_sections = true → 0 <= j < NumberOfSections c →
  (∀ i, 0 <= i < j → VirtualSize File c i = 0) → VA j = VA 0.
Proof.
  intros Hst Hj. rewrite <- (Z2Nat.id j) in * by lia.
  induction (Z.to_nat j) as [|k IH]; intros Hz; [done|].
  pose proof (range_next (Z.of_nat k) Hst ltac:(lia)) as Hn.
  destruct (range_facts (Z.of_nat k) ltac:(lia)) as (_ & _ & _ & _ & He & _).
  rewrite He in Hn by (apply Hz; lia). destruct (Z.ltb_spec (Z.of_nat k + 1) (NumberOfSections c)); [|lia].
  replace (Z.of_nat (S k)) with (Z.of_nat k + 1) by lia. rewrite <- Hn.
  apply IH; [lia|]. intros i Hi. apply Hz. lia.
Qed.

Context (Happ : headers_apart File c).

Lemma first_section j :
  0 <= j < NumberOfSections c → (∀ i, 0 <= i < j → VirtualSize File c i = 0) →
  VirtualSize File c j ≠ 0 →
  VA j = 0 ∨ SizeOfHeaders c <= VA j ∧ (strict_sections = true → VA j = SizeOfHeaders c).
Proof.
  intros Hj Hz Hne. pose proof Hwf as (_ & Hs & _). unfold headers_apart in Happ.
  destruct strict_sections eqn:Hst.
  - rewrite (empty_sections j) by done. destruct (decide (VA 0 = 0)) as [|Hz0]; [by left|right].
    destruct Happ as [|Hd]; [done|]. rewrite (sec_adjacent_first _ _ Hs Hst Hz0).
    rewrite align_up_id by (apply alignment_pos || done). lia.
  - destruct (decide (j = 0)) as [->|].
    + destruct (sec_first _ _ Hs); [by left|right]. split; [done|by intros ?].
    + destruct Happ as [Hz0|Hz0]; [|by rewrite Hz in Hz0 by lia].
      destruct (sec_first _ _ Hs); [done|right]. split; [|by intros ?].
      pose proof (range_order 0 j ltac:(lia) ltac:(lia)). pose proof (range_facts 0 ltac:(lia)). lia.
Qed.

(** An image of headers only. *)
Lemma no_section :
  (∀ i, 0 <= i < NumberOfSections c → VirtualSize File c i = 0) → SizeOfHeaders c <= SizeOfImage c.
Proof.
  intros Hz. pose proof Hwf as ([] & Hs & [] & _). pose proof (sec_nonempty _ _ Hs) as Hn.
  destruct (range_facts 0 ltac:(lia)) as (? & ? & _). unfold headers_apart in Happ.
  destruct strict_sections eqn:Hst.
  - pose proof (range_next (NumberOfSections c - 1) Hst ltac:(lia)) as Hl.
    destruct (Z.ltb_spec (NumberOfSections c - 1 + 1) (NumberOfSections c)); [lia|].
    destruct (range_facts (NumberOfSections c - 1) ltac:(lia)) as (_ & _ & _ & _ & He & _).
    rewrite He in Hl by (apply Hz; lia).
    rewrite (empty_sections (NumberOfSections c - 1)) in Hl by (done || lia || (intros; apply Hz; lia)).
    destruct hdr_entry. destruct (decide (VA 0 = 0)) as [|Hz0]; [lia|]. destruct Happ as [|Hd]; [done|].
    rewrite (sec_adjacent_first _ _ Hs Hst Hz0) in Hl.
    rewrite align_up_id in Hl by (apply alignment_pos || done). lia.
  - destruct Happ as [Hz0|Hz0]; [|by rewrite Hz in Hz0 by lia]. destruct (sec_first _ _ Hs); [done|lia].
Qed.

(** *** Segments and padding *)

(** A segment of [z] bytes with [Attr], and the padding of [pad] bytes behind it. *)
Definition padded (z Attr pad : Z) : list UEFI_IMAGE_RECORD_SEGMENT :=
  if pad =? 0 then [segment z Attr]
  else if Attr =? read_only then [segment (z + pad) Attr]
  else [segment z Attr; segment pad read_only].

(** At most this many segments. *)
Definition cost (Attr : Z) : Z := if Attr =? read_only then 1 else 2.

Lemma padded_length z Attr pad : 1 <= Z.of_nat (length (padded z Attr pad)) <= cost Attr.
Proof. unfold padded, cost. repeat case_match; cbn; lia. Qed.

Lemma padded_length_0 z Attr : length (padded z Attr 0) = 1%nat.
Proof. done. Qed.

Lemma padded_covers l Start End Next Attr :
  Covers 1 a f l Start → Start < End <= Next → (a | Start) → (a | Next) →
  (Attr = read_only ∨ (a | End)) →
  (∀ x, Start <= x < End → f x = Attr) → (∀ x, End <= x < Next → f x = read_only) →
  Covers 1 a f (l ++ padded (End - Start) Attr (Next - End)) Next.
Proof.
  intros HC Hle Hds Hdn Hde Hin Hgap. unfold padded.
  destruct (Z.eqb_spec (Next - End) 0) as [Hz|Hz].
  { replace Next with (Start + (End - Start)) by lia. apply Covers_snoc; [lia|done|lia| |].
    - replace End with Next by lia. by apply Z.divide_sub_r.
    - intros x Hx. apply Hin. lia. }
  destruct (Z.eqb_spec Attr read_only) as [->|Hro].
  - replace Next with (Start + (End - Start + (Next - End))) at 2 by lia. apply Covers_snoc; [lia|done|lia| |].
    + replace (End - Start + (Next - End)) with (Next - Start) by lia. by apply Z.divide_sub_r.
    + intros x Hx. destruct (decide (x < End)); [apply Hin|apply Hgap]; lia.
  - destruct Hde as [|Hde]; [done|].
    change [?x; ?y] with ([x] ++ [y]). rewrite app_assoc.
    replace Next with (Start + (End - Start) + (Next - End)) at 2 by lia.
    apply Covers_snoc; [lia|apply Covers_snoc; [lia|done|lia|by apply Z.divide_sub_r|]|lia|by apply Z.divide_sub_r|].
    + intros x Hx. apply Hin. lia.
    + intros x Hx. apply Hgap. lia.
Qed.

Lemma AddRecordSegment_spec v l (E : RETURN_STATUS → loader → Prop) s :
  starts (rl_Segments v) l → rl_NumRecordSegments v = Z.of_nat (length l) →
  (length l < length (rl_Segments v))%nat → Z.of_nat (length (rl_Segments v)) < 2 ^ 32 →
  0 <= rl_StartAddress v <= rl_EndAddress v → rl_EndAddress v < 2 ^ 32 →
  wp (AddRecordSegment v)
    (λ v' s', s' = s ∧ ∃ Segs, v' = set_rl_Segments Segs (rl_NumRecordSegments v + 1) v ∧
       length Segs = length (rl_Segments v) ∧
       starts Segs (l ++ [segment (rl_EndAddress v - rl_StartAddress v) (rl_Attributes v)])) E s.
Proof.
  intros Hst Hn Hlt Hu Hle He. unfold AddRecordSegment. wp_step. apply wp_put_segment; [lia|]. wp_step.
  split; [done|]. eexists. rewrite (wrap_small 32 (_ + 1)) by (split; lia). split; [done|].
  rewrite length_insert. split; [done|]. rewrite (wrap_small 32 (_ - _)) by (split; lia).
  rewrite Hn, Nat2Z.id. by apply starts_snoc.
Qed.

Lemma AddPadding_spec v l z Next (E : RETURN_STATUS → loader → Prop) s :
  starts (rl_Segments v) (l ++ [segment z (rl_Attributes v)]) →
  rl_NumRecordSegments v = Z.of_nat (length l) + 1 →
  Z.of_nat (length l) + cost (rl_Attributes v) <= Z.of_nat (length (rl_Segments v)) < 2 ^ 32 →
  0 <= z → 0 <= rl_EndAddress v <= Next → z + (Next - rl_EndAddress v) < 2 ^ 32 →
  wp (AddPadding Next v)
    (λ v' s', s' = s ∧ ∃ Segs,
       v' = set_rl_Segments Segs (Z.of_nat (length (l ++ padded z (rl_Attributes v) (Next - rl_EndAddress v)))) v ∧
       length Segs = length (rl_Segments v) ∧
       starts Segs (l ++ padded z (rl_Attributes v) (Next - rl_EndAddress v))) E s.
Proof.
  intros Hst Hn Hroom Hz Hle Hu. unfold AddPadding, InternalInsertImageRecordSegmentPadding.
  pose proof (starts_length _ _ Hst) as Hlen. rewrite length_app in Hlen. cbn in Hlen.
  wp_step. wp_step. wp_step; [lia|]. wp_step.
  { wp_step. wp_step. split; [done|]. unfold padded. replace (Next - rl_EndAddress v) with 0 by lia. cbn.
    eexists. split; [|done]. rewrite length_app. cbn. f_equal. rewrite wrap_small; [lia|split; lia]. }
  fold read_only. unfold padded. destruct (Z.eqb_spec (Next - rl_EndAddress v) 0); [lia|].
  unfold cost in Hroom. wp_step.
  - assert (rl_Attributes v = read_only) as Hro by lia. rewrite Hro in *. cbn [Z.eqb] in *. rewrite Z.eqb_refl in *.
    wp_step. eapply wp_get_segment; [lia| |].
    { replace (Z.to_nat _) with (length l) by lia. by apply starts_lookup. }
    wp_step. apply wp_put_segment; [lia|]. wp_step. wp_step. split; [done|]. cbn [seg_Size seg_Attributes].
    rewrite (wrap_small 32 (Next - _)) by (split; lia). rewrite (wrap_small 32 (z + _)) by (split; lia).
    eexists. split; [|split].
    + rewrite length_app. cbn. f_equal. rewrite wrap_small; [lia|split; lia].
    + apply length_insert.
    + replace (Z.to_nat _) with (length l) by lia. by eapply starts_last.
  - destruct (Z.eqb_spec (rl_Attributes v) read_only); [done|].
    wp_step. apply wp_put_segment; [lia|]. wp_step. wp_step. split; [done|].
    rewrite (wrap_small 32 (Next - _)) by (split; lia). eexists. split; [|split].
    + rewrite length_app. cbn. f_equal. rewrite wrap_small; [lia|split; lia].
    + apply length_insert.
    + change [?x; ?y] with ([x] ++ [y]). rewrite app_assoc.
      replace (Z.to_nat _) with (length (l ++ [segment z (rl_Attributes v)]))
        by (rewrite length_app; cbn; lia).
      apply starts_snoc; [done|]. rewrite length_app. cbn. lia.
Qed.

(** *** The loop *)

Definition max_segments : Z := if strict_sections then NumberOfSections c + 2 else NumberOfSections c * 2 + 1.

(** No section with memory of its own was seen before section [j]. *)
Record AtHeaders (j : Z) (v : record_locals) : Prop := {
  ah_empty i : 0 <= i < j → VirtualSize File c i = 0;
  ah_num : rl_NumRecordSegments v = 0;
  ah_start : rl_StartAddress v = 0;
  ah_end : rl_EndAddress v = SizeOfHeaders c;
  ah_chars : rl_Characteristics v = EFI_IMAGE_SCN_MEM_READ;
  ah_attr : rl_Attributes v = read_only;
}.

(** The memory below StartAddress is recorded, that up to EndAddress has the same attributes,
    and all sections before [j] are below EndAddress. *)
Record InRange (j : Z) (v : record_locals) (l : list UEFI_IMAGE_RECORD_SEGMENT) : Prop := {
  ir_starts : starts (rl_Segments v) l;
  ir_num : rl_NumRecordSegments v = Z.of_nat (length l);
  ir_covers : Covers 1 a f l (rl_StartAddress v);
  ir_start : 0 <= rl_StartAddress v < rl_EndAddress v;
  ir_aligned : (a | rl_StartAddress v) ∧ (a | rl_EndAddress v);
  ir_in x : rl_StartAddress v <= x < rl_EndAddress v → f x = rl_Attributes v;
  ir_attr : rl_Attributes v = InternalCharacteristicsToAttributes (rl_Characteristics v);
  ir_below i : 0 <= i < j → VirtualSize File c i ≠ 0 → range_end File c i <= rl_EndAddress v;
  ir_above i : j <= i < NumberOfSections c → rl_EndAddress v <= VA i;
  ir_image : rl_EndAddress v <= SizeOfImage c;
  ir_next : strict_sections = true →
    rl_EndAddress v = if j <? NumberOfSections c then VA j else SizeOfImage c;
  ir_count : if strict_sections then Z.of_nat (length l) <= j
             else Z.of_nat (length l) + cost (rl_Attributes v) <= 2 * j + 1;
}.

Definition Recording (j : Z) (v : record_locals) : Prop :=
  Z.of_nat (length (rl_Segments v)) = max_segments ∧ (AtHeaders j v ∨ ∃ l, InRange j v l).

(** Between the end of the range and the next section there is read-only padding. *)
Lemma gap_in_range j v l x :
  InRange j v l → rl_EndAddress v <= x → (∀ i, j <= i < NumberOfSections c → x < VA i) → f x = read_only.
Proof.
  intros HI Hx Hlt. apply attributes_gap. intros i Hi. destruct (decide (i < j)); [|left; apply Hlt; lia].
  destruct (range_facts i Hi) as (_ & _ & _ & _ & He & _).
  destruct (decide (VirtualSize File c i = 0)) as [Hz|Hz]; [rewrite He by done; lia|].
  right. pose proof (ir_below _ _ _ HI i ltac:(lia) Hz). lia.
Qed.

Lemma gap_at_headers j v x :
  AtHeaders j v → (∀ i, j <= i < NumberOfSections c → x < VA i) → f x = read_only.
Proof.
  intros HI Hlt. apply attributes_gap. intros i Hi. destruct (decide (i < j)); [|left; apply Hlt; lia].
  destruct (range_facts i Hi) as (_ & _ & _ & _ & He & _). rewrite He by (apply (ah_empty _ _ HI); lia). lia.
Qed.

(** A section after [j] starts above it. *)
Lemma section_above j i : 0 <= j <= i → i < NumberOfSections c → VA j <= VA i.
Proof.
  intros Hj Hi. destruct (decide (i = j)) as [->|]; [lia|].
  pose proof (range_order j i ltac:(lia) Hi). pose proof (range_facts j ltac:(lia)). lia.
Qed.

(** The range that starts with section [j]. *)
Lemma InRange_section j v l Segs Start Chars :
  0 <= j < NumberOfSections c → VirtualSize File c j ≠ 0 → starts Segs l →
  Covers 1 a f l Start → 0 <= Start <= VA j → (a | Start) → 
  InternalCharacteristicsToAttributes Chars = section_attributes File c j →
  (∀ x, Start <= x < VA j → f x = section_attributes File c j) →
  (if strict_sections then Z.of_nat (length l) <= j + 1
   else Z.of_nat (length l) + cost (section_attributes File c j) <= 2 * (j + 1) + 1) →
  rl_Segments v = Segs → rl_NumRecordSegments v = Z.of_nat (length l) → rl_StartAddress v = Start →
  rl_EndAddress v = range_end File c j → rl_Characteristics v = Chars →
  rl_Attributes v = InternalCharacteristicsToAttributes Chars →
  InRange (j + 1) v l.
Proof.
  intros Hj Hne Hst HC HS Hd HA Hx Hcnt <- Hn HSt HE HCh HAt.
  destruct (range_facts j Hj) as (H1 & H2 & H3 & H4 & H5 & H6). specialize (H6 Hne).
  constructor; rewrite ?HSt, ?HE, ?HCh, ?HAt, ?HA; try done.
  - lia.
  - intros x Hx'. destruct (decide (x < VA j)); [apply Hx; lia|]. apply attributes_in; lia.
  - intros i Hi _. destruct (decide (i = j)) as [->|]; [lia|].
    pose proof (range_order i j ltac:(lia) ltac:(lia)). lia.
  - intros i Hi. apply range_order; lia.
  - lia.
  - intros Hs. by apply range_next.
Qed.

(** A section without memory of its own. *)
Lemma Recording_skip j v :
  0 <= j < NumberOfSections c → VirtualSize File c j = 0 → Recording j v → Recording (j + 1) v.
Proof.
  intros Hj Hz [Hlen HR]. split; [done|]. destruct HR as [HR|[l HR]]; [left|right; exists l]; destruct HR.
  - constructor; try done. intros i Hi. destruct (decide (i = j)) as [->|]; [done|]. apply ah_empty0. lia.
  - constructor; try done.
    + intros i Hi Hne. apply ir_below0; [|done]. destruct (decide (i = j)) as [->|]; [done|lia].
    + intros i Hi. apply ir_above0. lia.
    + intros Hs. rewrite (ir_next0 Hs). destruct (Z.ltb_spec j (NumberOfSections c)); [|lia].
      rewrite <- (range_next j) by done. destruct (range_facts j Hj) as (_ & _ & _ & _ & He & _). by rewrite He.
    + destruct strict_sections; lia.
Qed.

Context (s : loader) (p : image_pointer) (Hc : Context s = set_ImageBuffer p c) (HF : FileBuffer s = File).
Implicit Types E : RETURN_STATUS → loader → Prop.

Lemma wp_section i fld (Q : Z → loader → Prop) E :
  0 <= i < NumberOfSections c → 0 <= fld → fld + 4 <= SIZEOF_EFI_IMAGE_SECTION_HEADER →
  (u32 (load 4 File (section_field c i fld)) → Q (load 4 File (section_field c i fld)) s) →
  wp (read_section i fld) Q E s.
Proof.
  intros Hi H1 H2 HQ. destruct (wf_table File c Hwf) as (Ht & _ & _).
  apply wp_read_section; rewrite ?Hc, ?HF; done.
Qed.

Lemma section_attributes_chars j :
  InternalCharacteristicsToAttributes
    (Z.land (load 4 File (section_field c j SECT_Characteristics)) permission_mask) = section_attributes File c j.
Proof. done. Qed.

(** The headers end: section [j] is the first with memory of its own. *)
Lemma RecordSection_first j v E :
  0 <= j < NumberOfSections c → VirtualSize File c j ≠ 0 →
  Z.of_nat (length (rl_Segments v)) = max_segments → AtHeaders j v → VA j ≠ 0 →
  wp (v ← AddRecordSegment v;
      v ← (if strict_sections then mret v else AddPadding (VA j) v);
      mret (set_rl_StartAddress (VA j) v))
    (λ v' s', s' = s ∧ ∃ Segs, starts Segs [segment (VA j) read_only] ∧ length Segs = length (rl_Segments v) ∧
       v' = set_rl_StartAddress (VA j) (set_rl_Segments Segs 1 v)) E s.
Proof.
  intros Hj Hne Hlen HA Hva. pose proof Hwf as ([] & Hs & _).
  destruct (range_facts j Hj) as (H1 & H2 & _). pose proof (sec_image_u32 _ _ Hs) as [_ Hiu].
  destruct (wf_table File c Hwf) as (_ & [Hh1 Hh2] & _). destruct hdr_nsections as [_ Hnu].
  destruct (first_section j Hj (ah_empty _ _ HA) Hne) as [|[Hle Hex]]; [done|].
  assert (3 <= max_segments <= 2 ^ 17) as Hmax by (unfold max_segments; destruct strict_sections; lia).
  wp_step. eapply wp_mono.
  { apply (AddRecordSegment_spec v []);
      rewrite ?(ah_num _ _ HA), ?(ah_start _ _ HA), ?(ah_end _ _ HA); cbn; try done; lia. }
  2: done.
  rewrite (ah_num _ _ HA), (ah_start _ _ HA), (ah_end _ _ HA), (ah_attr _ _ HA). cbn [app].
  intros v1 ? (-> & Segs & -> & Hl & Hst). rewrite Z.sub_0_r in Hst. wp_step. wp_step.
  - wp_step. wp_step. split; [done|]. exists Segs. rewrite Hex by done. done.
  - eapply wp_mono.
    { apply (AddPadding_spec _ [] (SizeOfHeaders c)); cbn [set_rl_Segments rl_Segments rl_NumRecordSegments rl_Attributes rl_EndAddress];
        rewrite ?(ah_attr _ _ HA), ?(ah_end _ _ HA); cbn; try done; try lia. rewrite Hl. unfold cost. rewrite Z.eqb_refl. lia. }
    2: done.
    cbn [set_rl_Segments rl_Segments rl_NumRecordSegments rl_Attributes rl_EndAddress].
    rewrite (ah_attr _ _ HA), (ah_end _ _ HA). cbn [app].
    intros v2 ? (-> & Segs2 & -> & Hl2 & Hst2). wp_step. split; [done|]. exists Segs2.
    assert (padded (SizeOfHeaders c) read_only (VA j - SizeOfHeaders c) = [segment (VA j) read_only]) as Hp.
    { unfold padded. destruct (Z.eqb_spec (VA j - SizeOfHeaders c) 0); [by replace (VA j) with (SizeOfHeaders c) by lia|].
      rewrite Z.eqb_refl. by replace (SizeOfHeaders c + (VA j - SizeOfHeaders c)) with (VA j) by lia. }
    rewrite Hp in *. split_and!; try done. congruence.
Qed.

(** The recorded memory now ends where section [j] starts. *)
Definition Emitted (j : Z) (v v' : record_locals) : Prop :=
  ∃ Segs l, starts Segs l ∧ length Segs = length (rl_Segments v) ∧ Covers 1 a f l (VA j) ∧
    (if strict_sections then Z.of_nat (length l) <= j + 1 else Z.of_nat (length l) <= 2 * j + 1) ∧
    v' = set_rl_StartAddress (VA j) (set_rl_Segments Segs (Z.of_nat (length l)) v).

Lemma max_segments_bounds : 3 <= max_segments <= 2 ^ 17.
Proof.
  pose proof Hwf as ([] & Hs & _). destruct hdr_nsections as [_ Hnu]. pose proof (sec_nonempty _ _ Hs).
  unfold max_segments. destruct strict_sections; lia.
Qed.

Lemma RecordSection_range j v l E :
  0 <= j < NumberOfSections c → VirtualSize File c j ≠ 0 →
  Z.of_nat (length (rl_Segments v)) = max_segments → InRange j v l →
  wp (v ← AddRecordSegment v;
      v ← (if strict_sections then mret v else AddPadding (VA j) v);
      mret (set_rl_StartAddress (VA j) v))
    (λ v' s', s' = s ∧ Emitted j v v') E s.
Proof.
  intros Hj Hne Hlen HI. pose proof Hwf as (_ & Hs & _). pose proof max_segments_bounds as Hmax.
  destruct (range_facts j Hj) as (H1 & H2 & H3 & _). pose proof (sec_image_u32 _ _ Hs) as [_ Hiu].
  pose proof (ir_start _ _ _ HI) as Hse. pose proof (ir_above _ _ _ HI j ltac:(lia)) as Hab.
  pose proof (ir_count _ _ _ HI) as Hcnt. pose proof (ir_num _ _ _ HI) as Hnum.
  assert (Z.of_nat (length l) + 2 <= max_segments) as Hroom.
  { unfold max_segments, cost in *. destruct strict_sections; [lia|]. destruct (_ =? _); lia. }
  assert (Covers 1 a f (l ++ padded (rl_EndAddress v - rl_StartAddress v) (rl_Attributes v) (VA j - rl_EndAddress v)) (VA j)) as HC.
  { apply padded_covers; try apply HI; try done; try lia; [right; apply (ir_aligned _ _ _ HI)|].
    intros x Hx. eapply gap_in_range; [done|lia|]. intros i Hi. pose proof (section_above j i ltac:(lia) ltac:(lia)). lia. }
  pose proof (padded_length (rl_EndAddress v - rl_StartAddress v) (rl_Attributes v) (VA j - rl_EndAddress v)) as Hpl.
  wp_step. eapply wp_mono; [apply (AddRecordSegment_spec v l); try apply HI; lia| |done].
  intros v1 ? (-> & Segs & -> & Hl & Hst). wp_step. wp_step.
  - pose proof (ir_next _ _ _ HI H4) as Hn. destruct (Z.ltb_spec j (NumberOfSections c)); [|lia].
    replace (VA j - rl_EndAddress v) with 0 in HC by lia. cbn in HC.
    wp_step. wp_step. split; [done|]. exists Segs. eexists. split; [done|]. split; [done|]. split; [done|].
    rewrite H4 in *. rewrite length_app, Nat2Z.inj_add. cbn. split; [lia|]. by rewrite Hnum.
  - rewrite H4 in Hcnt. eapply wp_mono.
    { apply (AddPadding_spec _ l (rl_EndAddress v - rl_StartAddress v));
        cbn [set_rl_Segments rl_Segments rl_NumRecordSegments rl_Attributes rl_EndAddress];
        rewrite ?Hl, ?Hnum; try done; try lia. unfold cost. case_match; lia. }
    2: done.
    cbn [set_rl_Segments rl_Segments rl_NumRecordSegments rl_Attributes rl_EndAddress].
    intros v2 ? (-> & Segs2 & -> & Hl2 & Hst2). wp_step. split; [done|]. exists Segs2. eexists.
    split; [done|]. split; [congruence|]. split; [done|]. rewrite H4. rewrite length_app, Nat2Z.inj_add. split; [lia|done].
Qed.

Lemma RecordSection_emit j v E :
  0 <= j < NumberOfSections c → VirtualSize File c j ≠ 0 → Recording j v → VA j ≠ rl_StartAddress v →
  wp (v ← AddRecordSegment v;
      v ← (if strict_sections then mret v else AddPadding (VA j) v);
      mret (set_rl_StartAddress (VA j) v))
    (λ v' s', s' = s ∧ Emitted j v v') E s.
Proof.
  intros Hj Hne [Hlen [HA|[l HI]]] Hva; [|by eapply RecordSection_range].
  rewrite (ah_start _ _ HA) in Hva. destruct (range_facts j Hj) as (H1 & H2 & H3 & _).
  eapply wp_mono; [by apply RecordSection_first| |done]. intros v' ? (-> & Segs & Hst & Hl & ->).
  split; [done|]. exists Segs, [segment (VA j) read_only]. split_and!; try done.
  - rewrite <- (Z.add_0_l (VA j)). change [?x] with ([] ++ [x]). apply Covers_snoc; [lia|apply Covers_nil|lia|done|].
    intros x Hx. eapply gap_at_headers; [done|]. intros i Hi. pose proof (section_above j i ltac:(lia) ltac:(lia)). lia.
  - cbn. destruct strict_sections; lia.
Qed.

(** The section has the permissions of the current range, which is extended. *)
Lemma Recording_merge j v :
  0 <= j < NumberOfSections c → VirtualSize File c j ≠ 0 → Recording j v →
  Z.land (Characteristics File c j) permission_mask = rl_Characteristics v →
  (strict_sections = true ∨ VA j = rl_EndAddress v ∨ rl_Characteristics v = EFI_IMAGE_SCN_MEM_READ) →
  Recording (j + 1) (set_rl_Range (range_end File c j) (rl_Characteristics v) (rl_Attributes v) v).
Proof.
  intros Hj Hne [Hlen HR] Hch Hadj. split; [done|]. right.
  destruct (range_facts j Hj) as (H1 & H2 & H3 & _).
  assert (InternalCharacteristicsToAttributes (rl_Characteristics v) = section_attributes File c j) as Hat
    by (unfold section_attributes; by rewrite Hch).
  assert (∀ x i, x < VA j → j <= i < NumberOfSections c → x < VA i) as Hup.
  { intros x i Hx Hi. pose proof (section_above j i ltac:(lia) ltac:(lia)). lia. }
  destruct HR as [HA|[l HI]].
  - exists []. pose proof Hat as Hro. rewrite (ah_chars _ _ HA), attributes_of_read in Hro.
    eapply (InRange_section j _ [] (rl_Segments v) 0); try done; [apply Covers_nil|by exists 0|..].
    + intros x Hx. rewrite <- Hro. eapply gap_at_headers; [done|]. intros i Hi. apply Hup; lia.
    + rewrite <- Hro. unfold cost. rewrite Z.eqb_refl. cbn. destruct strict_sections; lia.
    + cbn. by rewrite (ah_num _ _ HA).
    + cbn. apply (ah_start _ _ HA).
    + cbn. by rewrite (ah_chars _ _ HA), attributes_of_read, (ah_attr _ _ HA).
  - exists l. pose proof (ir_start _ _ _ HI) as Hse. pose proof (ir_above _ _ _ HI j ltac:(lia)) as Hab.
    eapply (InRange_section j _ l (rl_Segments v) (rl_StartAddress v)); try apply HI; try done.
    + lia.
    + intros x Hx. rewrite <- Hat, <- (ir_attr _ _ _ HI). destruct (decide (x < rl_EndAddress v)); [apply (ir_in _ _ _ HI); lia|].
      rewrite (gap_in_range j v l) by (done || lia || (intros i Hi; apply Hup; lia)).
      destruct Hadj as [Hs|[Hs|Hs]]; [|lia|by rewrite (ir_attr _ _ _ HI), Hs, attributes_of_read].
      pose proof (ir_next _ _ _ HI Hs) as Hn. destruct (Z.ltb_spec j (NumberOfSections c)); lia.
    + pose proof (ir_count _ _ _ HI) as Hcnt. rewrite <- Hat, <- (ir_attr _ _ _ HI). destruct strict_sections; lia.
Qed.

(** The section starts a new range. *)
Lemma Recording_start j v v' :
  0 <= j < NumberOfSections c → VirtualSize File c j ≠ 0 → Recording j v →
  (VA j = rl_StartAddress v ∧ v' = v ∨ Emitted j v v') →
  Recording (j + 1) (set_rl_Range (range_end File c j) (Z.land (Characteristics File c j) permission_mask)
    (section_attributes File c j) v').
Proof.
  intros Hj Hne [Hlen HR] Hem. destruct (range_facts j Hj) as (H1 & H2 & H3 & _).
  assert (∀ n, 1 <= cost n <= 2) as Hcost by (intros n; unfold cost; case_match; lia).
  destruct Hem as [[Hva ->]|(Segs & l & Hst & Hl & HC & Hcnt & ->)].
  - destruct HR as [HA|[l HI]].
    2:{ pose proof (ir_start _ _ _ HI). pose proof (ir_above _ _ _ HI j ltac:(lia)). lia. }
    rewrite (ah_start _ _ HA) in Hva. split; [done|]. right. exists [].
    eapply (InRange_section j _ [] (rl_Segments v) 0); try done; try lia; [apply Covers_nil|by exists 0|..].
    + cbn. specialize (Hcost (section_attributes File c j)). destruct strict_sections; lia.
    + cbn. by rewrite (ah_num _ _ HA).
    + cbn. apply (ah_start _ _ HA).
  - split; [cbn; congruence|]. right. exists l.
    eapply (InRange_section j _ l Segs (VA j)); try done; try lia.
    specialize (Hcost (section_attributes File c j)). destruct strict_sections; lia.
Qed.

Lemma RecordSection_spec j v E :
  0 <= j < NumberOfSections c → Recording j v →
  wp (RecordSection j v) (λ v' s', s' = s ∧ Recording (j + 1) v') E s.
Proof.
  intros Hj HR. unfold RecordSection. wp_step. wp_step. wp_step.
  apply wp_section; [done..|]. fold (VirtualSize File c j). intros _. wp_step.
  { wp_step. split; [done|]. apply Recording_skip; done || lia. }
  assert (VirtualSize File c j ≠ 0) as Hne by lia.
  wp_step. apply wp_section; [done..|]. fold (VA j). intros _.
  wp_step. apply wp_section; [done..|]. fold (Characteristics File c j). intros _.
  destruct (aligned_section_size File c Hfile Hwf j Hj) as [_ Hal].
  unfold PeCoffGetSectionAlignment. rewrite Hc. change (SectionAlignment (set_ImageBuffer p c)) with a. rewrite Hal.
  fold (range_end File c j). destruct (range_facts j Hj) as (? & ? & _).
  pose proof Hwf as (_ & Hs & _). pose proof (sec_image_u32 _ _ Hs) as [_ Hiu].
  rewrite wrap_small by (split; lia). wp_step.
  - wp_step. split; [done|]. apply Recording_merge; try done; [lia|].
    destruct strict_sections; [by left|right]. lia.
  - wp_step. eapply (wp_mono _ (λ v' s', s' = s ∧ (VA j = rl_StartAddress v ∧ v' = v ∨ Emitted j v v'))); [| |done].
    + wp_step; [wp_step; split; [done|left; split; [lia|done]]|].
      eapply wp_mono; [apply RecordSection_emit; done || lia| |done]. intros ? ? [-> ?]. auto.
    + intros v' ? [-> Hem]. wp_step. split; [done|]. fold (section_attributes File c j).
      by eapply Recording_start.
Qed.

(** All sections are recorded but the last range. *)
Lemma Recording_end v :
  Recording (NumberOfSections c) v →
  ∃ l, starts (rl_Segments v) l ∧ rl_NumRecordSegments v = Z.of_nat (length l) ∧
    0 <= rl_StartAddress v < rl_EndAddress v ∧ rl_EndAddress v <= SizeOfImage c ∧
    Covers 1 a f (l ++ padded (rl_EndAddress v - rl_StartAddress v) (rl_Attributes v) (SizeOfImage c - rl_EndAddress v))
      (SizeOfImage c) ∧
    Z.of_nat (length l) + cost (rl_Attributes v) <= max_segments.
Proof.
  intros [Hlen HR]. pose proof Hwf as (Hh & Hs & _). pose proof max_segments_bounds.
  pose proof (sec_image_aligned _ _ Hs) as Had. pose proof (sec_nonempty _ _ Hs) as Hn.
  destruct HR as [HA|[l HI]].
  - assert (0 < SizeOfHeaders c <= SizeOfImage c) as Hsz.
    { split; [|apply no_section, (ah_empty _ _ HA)]. destruct Hh. unfold dir_offset, nt_header_size in hdr_dirs.
      autounfold with pe_layout in *. destruct (ImageType c); lia. }
    exists []. rewrite (ah_num _ _ HA), (ah_start _ _ HA), (ah_end _ _ HA), (ah_attr _ _ HA).
    split_and!; try done; try lia.
    + apply padded_covers; try done; try lia; [apply Covers_nil|by exists 0|..];
        intros x Hx; (eapply gap_at_headers; [done|lia]).
    + unfold cost. rewrite Z.eqb_refl. cbn. lia.
  - exists l. pose proof (ir_start _ _ _ HI). pose proof (ir_image _ _ _ HI). pose proof (ir_aligned _ _ _ HI) as [? ?].
    split_and!; try apply HI; try done; try lia.
    + apply padded_covers; try apply HI; try done; [lia|by right|]. intros x Hx. eapply gap_in_range; [done|lia|lia].
    + pose proof (ir_count _ _ _ HI) as Hcnt. unfold max_segments, cost in *.
      destruct strict_sections; [case_match; lia|lia].
Qed.

Lemma UefiImageLoaderGetImageRecordPe_spec FileAddress DestinationAddress AllocateRecord E :
  p ≠ ImageNull → (∀ n l, AllocateRecord n = Some l → Z.of_nat (length l) = n) →
  wp (UefiImageLoaderGetImageRecordPe FileAddress DestinationAddress AllocateRecord)
    (λ r s', s' = s ∧
       match r with
       | None => AllocateRecord max_segments = None
       | Some r => Z.of_nat (length (Segments r)) = max_segments ∧
           RecordOk UINTN_WIDTH 1 a f (SizeOfImage c) (image_address FileAddress DestinationAddress p) r
       end) E s.
Proof.
  intros Hp Halloc. unfold UefiImageLoaderGetImageRecordPe. wp_step. wp_step.
  cbn [PeCoffGetSectionTable fst]. rewrite Hc. change (NumberOfSections (set_ImageBuffer p c)) with (NumberOfSections c).
  fold max_segments. destruct (AllocateRecord max_segments) as [Segs|] eqn:Hal; [|by wp_step].
  pose proof Hwf as (_ & Hs & _). pose proof (sec_nonempty _ _ Hs). pose proof (sec_image_u32 _ _ Hs) as [_ Hiu].
  pose proof max_segments_bounds as Hmax.
  wp_step. wp_step; [rewrite attributes_of_read; apply Z.eqb_refl|].
  wp_step. eapply wp_mono.
  { apply (wp_for_loop (λ j v s', s' = s ∧ Recording j v) E).
    - split; [done|]. split; [by apply Halloc|]. left. constructor; try done. lia.
    - intros j v ? Hj [-> HR]. apply RecordSection_spec; [lia|done]. }
  2: done.
  cbn beta. rewrite Z.add_0_l, Z2Nat.id by lia. intros v ? [-> HR].
  pose proof (proj1 HR) as Hlen.
  destruct (Recording_end v HR) as (l & Hst & Hnum & Hse & Hei & HC & Hroom).
  assert (1 <= cost (rl_Attributes v)) by (unfold cost; case_match; lia).
  wp_step. wp_step; [lia|]. wp_step.
  eapply wp_mono; [apply (AddRecordSegment_spec v l); done || lia| |done].
  intros v1 ? (-> & Segs1 & -> & Hl1 & Hst1).
  wp_step. unfold PeCoffLoaderGetImageAddress. wp_step. wp_step. wp_step.
  wp_step; [rewrite Hc; by apply negb_true_iff, bool_decide_false|]. wp_step. wp_step.
  rewrite Hc. change (PeCoffGetSizeOfImage (set_ImageBuffer p c)) with (SizeOfImage c).
  eapply wp_mono.
  { apply (AddPadding_spec _ l (rl_EndAddress v - rl_StartAddress v));
      cbn [set_rl_Segments rl_Segments rl_NumRecordSegments rl_Attributes rl_EndAddress];
      rewrite ?Hl1, ?Hnum; done || lia. }
  2: done.
  cbn [set_rl_Segments rl_Segments rl_NumRecordSegments rl_Attributes rl_EndAddress].
  intros v2 ? (-> & Segs2 & -> & Hl2 & Hst2). cbn [set_rl_Segments rl_Segments rl_NumRecordSegments].
  set (l2 := l ++ padded _ _ _) in *. pose proof (starts_length _ _ Hst2).
  wp_step. apply wp_zero_segments; [lia|congruence|]. wp_step. split; [done|]. cbn [Segments].
  rewrite Nat2Z.id. replace (Z.to_nat (max_segments - Z.of_nat (length l2))) with (length Segs2 - length l2)%nat by lia.
  split; [rewrite length_app, length_take, length_replicate; lia|].
  apply RecordOk_zeroed; [done| |done]. intros Hnil%(f_equal length). subst l2.
  pose proof (padded_length (rl_EndAddress v - rl_StartAddress v) (rl_Attributes v) (SizeOfImage c - rl_EndAddress v)).
  rewrite length_app in Hnil. cbn in Hnil. lia.
Qed.

(** *** The fixed address *)

Definition holds_code (i : Z) : bool := negb (Z.land (Characteristics File c i) EFI_IMAGE_SCN_CNT_CODE =? 0).

(** The 64 bits in the header of section [i] that may hold the address. *)
Definition fixed_address_field (i : Z) : Z := load 8 File (section_field c i SECT_PointerToRelocations).

(** The first section that does not hold code, if there is one, determines the result. *)
Definition fixed_address_result (A : Z) : Prop :=
  ∃ i, 0 <= i < NumberOfSections c ∧ holds_code i = false ∧ (∀ k, 0 <= k < i → holds_code k = true) ∧
    A = fixed_address_field i.

Lemma FindFixedAddress_spec n i E' :
  0 <= i → i + Z.of_nat n = NumberOfSections c → (∀ k, 0 <= k < i → holds_code k = true) →
  (∀ e, E' e s ↔ (e = RETURN_NOT_FOUND ∧ ∀ A, fixed_address_result A → A = 0) ∨
                 (e = RETURN_UNSUPPORTED ∧ ∃ A, fixed_address_result A ∧ A ≠ 0 ∧ ¬ (a | A))) →
  wp (FindFixedAddress n i)
    (λ A s', s' = s ∧ fixed_address_result A ∧ A ≠ 0 ∧ (a | A)) E' s.
Proof.
  intros Hi Hn Hall HE. revert i Hi Hn Hall. induction n as [|n IH]; intros i Hi Hn Hall; cbn [FindFixedAddress].
  - wp_step. apply HE. left. split; [done|]. intros A (j & Hj & Hcode & _). rewrite Hall in Hcode by lia. done.
  - wp_step. wp_step. wp_step. apply wp_section; [lia|done..|]. fold (Characteristics File c i). fold (holds_code i).
    intros _. wp_step.
    { apply IH; [lia..|]. intros k Hk. destruct (decide (k = i)) as [->|]; [done|]. apply Hall. lia. }
    assert (fixed_address_result (fixed_address_field i)) as Hres by (exists i; split_and!; done || lia).
    assert (∀ A, fixed_address_result A → A = fixed_address_field i) as Huniq.
    { intros A (j & Hj & Hcode & Hbelow & ->). destruct (decide (j = i)) as [->|]; [done|].
      destruct (decide (j < i)); [by rewrite Hall in Hcode by lia|].
      specialize (Hbelow i ltac:(lia)). congruence. }
    destruct (wf_table File c Hwf) as ((Ht1 & Ht2) & _). rewrite Hc, HF.
    change (section_field (set_ImageBuffer p c)) with (section_field c).
    wp_step. apply wp_rd.
    1, 2: unfold section_field in *; autounfold with pe_layout in *; unfold SECT_PointerToRelocations; nia.
    fold (fixed_address_field i). wp_step.
    + wp_step. unfold PeCoffGetSectionAlignment. change (SectionAlignment (set_ImageBuffer p c)) with a.
      pose proof Hwf as (_ & Hs & _). pose proof alignment_pos.
      assert (∀ x, IS_ALIGNED x a = true ↔ (a | x)) as Hal by (intros; apply IS_ALIGNED_spec; [lia|apply (sec_pow2 _ _ Hs)]).
      apply wp_fail_if; intros Hm; [|wp_step; split_and!; try done; [lia|apply Hal; by apply negb_false_iff]].
      apply HE. right. split; [done|]. exists (fixed_address_field i). split_and!; [done|lia|].
      rewrite <- Hal. by apply negb_true_iff in Hm as ->.
    + wp_step. apply HE. left. split; [done|]. intros A ->%Huniq. lia.
Qed.
End Ranges.

(** ** Properties *)

(** C24. The record of a verified and loaded image describes its memory exactly: the segments are
    not empty, are multiples of the section alignment, cover the image from its start to its end,
    and give each byte the permissions of the section it belongs to, the headers and all padding
    being read-only data.  No ASSERT fails, no entry behind the array is written, and the unused
    entries are zero.  The headers have to end before the first section in the sense of
    [headers_apart]. *)
Theorem image_record_pe_exact `{!Platform, !PlatformOk} (File : list Z) (c : PE_COFF_LOADER_IMAGE_CONTEXT)
    (s : loader) (p : image_pointer) (FileAddress DestinationAddress : Z)
    (AllocateRecord : Z → option (list UEFI_IMAGE_RECORD_SEGMENT)) :
  bytes File → WellFormed File c → headers_apart File c →
  Context s = set_ImageBuffer p c → FileBuffer s = File → p ≠ ImageNull →
  (∀ n l, AllocateRecord n = Some l → Z.of_nat (length l) = n) →
  match UefiImageLoaderGetImageRecordPe FileAddress DestinationAddress AllocateRecord s with
  | Ok None s' => s' = s ∧ AllocateRecord (max_segments c) = None
  | Ok (Some r) s' => s' = s ∧
      RecordOk UINTN_WIDTH 1 (SectionAlignment c) (image_attributes File c) (SizeOfImage c)
        (image_address FileAddress DestinationAddress p) r
  | _ => False
  end.
Proof.
  intros Hb Hwf Happ Hc HF Hp Hal.
  pose proof (wp_cases _ _ _ _ (UefiImageLoaderGetImageRecordPe_spec File c Hb Hwf Happ s p Hc HF FileAddress
    DestinationAddress AllocateRecord (λ _ _, False) Hp Hal)) as Hs.
  destruct (UefiImageLoaderGetImageRecordPe _ _ _ s) as [[r|] s'| |]; try done. tauto.
Qed.

(** No memory of a verified image is meant to be writable and executable. *)
Lemma image_attributes_wx `{!Platform} (File : list Z) (c : PE_COFF_LOADER_IMAGE_CONTEXT) (x : Z) :
  bytes File → WellFormed File c → PcdImageLoaderWXorX = true ∨ PcdImageLoaderRemoveXForWX = true →
  executable (image_attributes File c x) && writable (image_attributes File c x) = false.
Proof.
  intros Hb (_ & Hs & _) Hwx. unfold image_attributes.
  assert (∀ i, 0 <= i < NumberOfSections c → executable (section_attributes File c i) &&
    writable (section_attributes File c i) = false) as Hsec.
  { intros i Hi. apply attributes_wx; [by apply load_u32|].
    destruct PcdImageLoaderRemoveXForWX eqn:Hr; [by left|right]. destruct Hwx as [Hwx|]; [|done].
    by apply (sec_wx _ _ Hs). }
  assert (∀ n i, 0 <= i → i + Z.of_nat n <= NumberOfSections c →
    executable (attributes_from File c n i x) && writable (attributes_from File c n i x) = false) as Hall.
  { induction n as [|n IH]; intros i Hi Hn; cbn [attributes_from]; [done|].
    destruct (in_range File c i x); [apply Hsec; lia|apply IH; lia]. }
  pose proof (sec_nonempty _ _ Hs). apply Hall; lia.
Qed.

(** W^X: when the platform rejects sections that are writable and executable
    (PcdImageLoaderWXorX), or takes the execute permission from them
    (PcdImageLoaderRemoveXForWX), no segment of the record of a verified image is writable and
    executable. *)
Theorem image_record_pe_wx `{!Platform, !PlatformOk} (File : list Z) (c : PE_COFF_LOADER_IMAGE_CONTEXT)
    (s s' : loader) (p : image_pointer) (FileAddress DestinationAddress : Z)
    (AllocateRecord : Z → option (list UEFI_IMAGE_RECORD_SEGMENT)) (r : UEFI_IMAGE_RECORD) :
  bytes File → WellFormed File c → headers_apart File c →
  Context s = set_ImageBuffer p c → FileBuffer s = File → p ≠ ImageNull →
  (∀ n l, AllocateRecord n = Some l → Z.of_nat (length l) = n) →
  PcdImageLoaderWXorX = true ∨ PcdImageLoaderRemoveXForWX = true →
  UefiImageLoaderGetImageRecordPe FileAddress DestinationAddress AllocateRecord s = Ok (Some r) s' →
  Forall (λ g, executable (seg_Attributes g) && writable (seg_Attributes g) = false)
    (take (Z.to_nat (NumSegments r)) (Segments r)).
Proof.
  intros Hb Hwf Happ Hc HF Hp Hal Hwx Hrun.
  apply (wp_ok _ _ _ _ _ _ (UefiImageLoaderGetImageRecordPe_spec File c Hb Hwf Happ s p Hc HF FileAddress
    DestinationAddress AllocateRecord (λ _ _, False) Hp Hal)) in Hrun as (_ & _ & Hr).
  apply Forall_forall. intros g Hg%list_elem_of_In. destruct (Covers_attributes Z.le_0_1 _ _ _ Z.lt_0_1 (rec_covers _ _ _ _ _ _ _ Hr) Hg) as (x & _ & <-).
  by apply image_attributes_wx.
Qed.

(** The fixed address of a verified image is what the first section without code says, a
    multiple of the section alignment; a misaligned one is reported as such, and none is found
    exactly if there is no such section or it holds zero. *)
Theorem fixed_address_pe_exact `{!Platform, !PlatformOk} (File : list Z) (c : PE_COFF_LOADER_IMAGE_CONTEXT)
    (s : loader) (p : image_pointer) :
  bytes File → WellFormed File c → Context s = set_ImageBuffer p c → FileBuffer s = File →
  match UefiImageGetFixedAddressPe s with
  | Ok A s' => s' = s ∧ fixed_address_result File c A ∧ A ≠ 0 ∧ (SectionAlignment c | A)
  | Err e s' => s' = s ∧
      ((e = RETURN_NOT_FOUND ∧ ∀ A, fixed_address_result File c A → A = 0) ∨
       (e = RETURN_UNSUPPORTED ∧ ∃ A, fixed_address_result File c A ∧ A ≠ 0 ∧ ¬ (SectionAlignment c | A)))
  | Fault _ => False
  end.
Proof.
  intros Hb Hwf Hc HF. pose proof Hwf as (_ & Hs & _). pose proof (sec_nonempty _ _ Hs).
  refine (wp_cases _ (λ A s', s' = s ∧ fixed_address_result File c A ∧ A ≠ 0 ∧ (SectionAlignment c | A))
    (λ e s', s' = s ∧ ((e = RETURN_NOT_FOUND ∧ ∀ A, fixed_address_result File c A → A = 0) ∨
       (e = RETURN_UNSUPPORTED ∧ ∃ A, fixed_address_result File c A ∧ A ≠ 0 ∧ ¬ (SectionAlignment c | A)))) s _).
  unfold UefiImageGetFixedAddressPe. wp_step. wp_step. cbn [PeCoffGetSectionTable fst].
  rewrite Hc. change (NumberOfSections (set_ImageBuffer p c)) with (NumberOfSections c).
  eapply FindFixedAddress_spec; [done..|lia| |lia|tauto]. rewrite Z2Nat.id; lia.
Qed.

(** ** Images whose headers do not end before the first section *)

(** The sample image with headers of 280 bytes, its first section at the next multiple of 16. *)
Definition unaligned_headers_file : list Z := build_file 480 (sample_fields ++ [
  (NT64_SizeOfHeaders, 4%nat, 280); (204, 4%nat, 288); (244, 4%nat, 448); (176, 4%nat, 448)]).

(** The sample image with an empty first section at 0 and a second one inside the headers. *)
Definition low_section_file : list Z := build_file 464 (sample_fields ++ [
  (200, 4%nat, 0); (204, 4%nat, 0); (240, 4%nat, 432); (244, 4%nat, 16); (268, 4%nat, 0xC0000000)]).

(** Verification and loading on a platform, then the record; no record if one of them fails. *)
Definition record_of (P : Platform) (File : list Z) : outcome loader (option UEFI_IMAGE_RECORD) :=
  match @PeCoffInitializeContext P sample_lib File (size File) 2 zero_context with
  | Ok _ c =>
      match @PeCoffLoadImage P 0x2000 (SizeOfImage c)
        {| Context := c; FileBuffer := File; Destination := replicate (Z.to_nat (SizeOfImage c)) 0; RuntimeContext := None |} with
      | Ok _ s => @UefiImageLoaderGetImageRecordPe P 0x1000 0x2000 (λ n, Some (replicate (Z.to_nat n) (segment 0 0))) s
      | Err e s => Err e s
      | Fault f => Fault f
      end
  | Err e c => Err e {| Context := c; FileBuffer := File; Destination := []; RuntimeContext := None |}
  | Fault f => Fault f
  end.

(** When sections have to be adjacent, the record leaves out the gap between headers whose size
    is not aligned and the first section, so that the segments are 8 bytes short of the image and
    all but the first are displaced. *)
Lemma image_record_pe_unaligned_headers :
  match record_of platform_strict unaligned_headers_file with
  | Ok (Some r) _ =>
      EndAddress r - StartAddress r = 464 ∧
      total (take (Z.to_nat (NumSegments r)) (Segments r)) = 456
  | _ => False
  end.
Proof. by vm_compute. Qed.

(** When sections need not be adjacent, an empty first section at 0 admits a section inside the
    headers, and the ASSERT on the padding fails. *)
Lemma image_record_pe_low_section : record_of platform_relaxed low_section_file = Fault AssertFailed.
Proof. by vm_compute. Qed.

(** ** Witnesses on the sample image *)

Definition new_record (n : Z) : option (list UEFI_IMAGE_RECORD_SEGMENT) := Some (replicate (Z.to_nat n) (segment 7 7)).

Lemma new_record_length n l : 0 <= n → new_record n = Some l → Z.of_nat (length l) = n.
Proof. unfold new_record. intros ? [= <-]. rewrite length_replicate. lia. Qed.

(** Memory for records of any number of segments but negative ones. *)
Definition record_memory (n : Z) : option (list UEFI_IMAGE_RECORD_SEGMENT) := if n <? 0 then None else new_record n.

Lemma record_memory_length n l : record_memory n = Some l → Z.of_nat (length l) = n.
Proof. unfold record_memory. case_match; [done|]. apply new_record_length. lia. Qed.

Definition sample_record : UEFI_IMAGE_RECORD := {|
  Signature := UEFI_IMAGE_RECORD_SIGNATURE; NumSegments := 3; StartAddress := 0x2000; EndAddress := 0x21C0;
  Segments := [segment 272 read_only; segment 160 EFI_MEMORY_XP; segment 16 read_only; segment 0 0] |}.

Lemma sample_headers_apart : @headers_apart platform_strict sample_file sample_context.
Proof. right. exists 17. by vm_compute. Qed.

Lemma sample_record_run :
  @UefiImageLoaderGetImageRecordPe platform_strict 0x1000 0x2000 record_memory sample_loaded
    = Ok (Some sample_record) sample_loaded.
Proof. by vm_compute. Qed.

Lemma sample_loaded_context : Context sample_loaded = set_ImageBuffer ImageDestination sample_context.
Proof. by unfold sample_loaded. Qed.

Lemma sample_loaded_file : FileBuffer sample_loaded = sample_file.
Proof. by unfold sample_loaded. Qed.

Lemma image_record_pe_exact_witness :
  @UefiImageLoaderGetImageRecordPe platform_strict 0x1000 0x2000 record_memory sample_loaded
    = Ok (Some sample_record) sample_loaded ∧
  RecordOk 64 1 16 (@image_attributes platform_strict sample_file sample_context) 448 0x2000 sample_record.
Proof.
  split; [apply sample_record_run|].
  pose proof (@image_record_pe_exact platform_strict platform_strict_ok sample_file sample_context sample_loaded
    ImageDestination 0x1000 0x2000 record_memory sample_file_bytes sample_well_formed sample_headers_apart sample_loaded_context sample_loaded_file
    ltac:(done) record_memory_length) as Hex.
  rewrite sample_record_run in Hex. exact (proj2 Hex).
Defined.

Lemma image_record_pe_wx_witness :
  Forall (λ g, executable (seg_Attributes g) && writable (seg_Attributes g) = false)
    (take 3 (Segments sample_record)).
Proof.
  refine (@image_record_pe_wx platform_strict platform_strict_ok sample_file sample_context sample_loaded
    sample_loaded ImageDestination 0x1000 0x2000 record_memory sample_record sample_file_bytes sample_well_formed
    sample_headers_apart sample_loaded_context sample_loaded_file ltac:(done) record_memory_length _ sample_record_run).
  by left.
Defined.
