(* ===== verification/ImageRecordUe.v ===== *)
(** UeSupport.c of BaseUefiImageLib: the image record of a UE image. *)
From S2P Require Import Prelude Base Buffer Overflow UeImage UeSample UeInit UeLoad UeRelocateSpec UeDebug ImageRecord.

Definition UeSegmentPermX : Z := 0.
Definition UeSegmentPermRX : Z := 1.
Definition UeSegmentPermRW : Z := 2.
Definition UeSegmentPermR : Z := 3.

Definition UE_SEGMENT_PERMISSIONS (ImageInfo : Z) : Z := wrap 8 (Z.land (Z.shiftr ImageInfo 20) 0x03).

(** The local variables the loop changes. *)
Record ue_record_locals := {
  ur_Segments : list UEFI_IMAGE_RECORD_SEGMENT;
  ur_NumRecordSegments : Z;
  ur_ImageSizeRecord : Z;
  ur_RangeSize : Z;
  ur_Permissions : Z;
}.

Section Code.
Context `{!Platform}.
(** The array of a new record with this many segments, or NULL. *)
Context (AllocateRecord : Z → option (list UEFI_IMAGE_RECORD_SEGMENT)).

Definition InternalPermissionsToAttributes (Permissions : Z) : UeM Z :=
  if Permissions =? UeSegmentPermX then mret (Z.lor EFI_MEMORY_RP EFI_MEMORY_RO)
  else if Permissions =? UeSegmentPermRX then mret EFI_MEMORY_RO
  else if Permissions =? UeSegmentPermRW then mret EFI_MEMORY_XP
  else ASSERT (Permissions =? UeSegmentPermR);; mret (Z.lor EFI_MEMORY_XP EFI_MEMORY_RO).

(** RecordSegment for the current range. *)
Definition UeAddRecordSegment (v : ue_record_locals) : UeM (list UEFI_IMAGE_RECORD_SEGMENT * Z) :=
  Attributes ← InternalPermissionsToAttributes (ur_Permissions v);
  Segs ← put_segment (ur_Segments v) (ur_NumRecordSegments v) (segment (ur_RangeSize v) Attributes);
  mret (Segs, wrap 32 (ur_NumRecordSegments v + 1)).

(** The body of the loop, SegmentImageInfoPtr being [i] elements into the array. *)
Definition UeRecordSegment (SegmentImageInfos SegmentIterSize i : Z) (v : ue_record_locals) : UeM ue_record_locals :=
  s ← getS;
  SegmentImageInfo ← rd 4 (FileBuffer s) (SegmentImageInfos + i * SegmentIterSize);
  let SegmentSize := UE_SEGMENT_SIZE SegmentImageInfo in
  let SegmentPermissions := UE_SEGMENT_PERMISSIONS SegmentImageInfo in
  let ImageSizeRecord := wrap 32 (ur_ImageSizeRecord v + SegmentSize) in
  if SegmentPermissions =? ur_Permissions v then
    mret {| ur_Segments := ur_Segments v; ur_NumRecordSegments := ur_NumRecordSegments v;
            ur_ImageSizeRecord := ImageSizeRecord; ur_RangeSize := wrap 32 (ur_RangeSize v + SegmentSize);
            ur_Permissions := ur_Permissions v |}
  else
    '(Segs, n) ← UeAddRecordSegment v;
    mret {| ur_Segments := Segs; ur_NumRecordSegments := n; ur_ImageSizeRecord := ImageSizeRecord;
            ur_RangeSize := SegmentSize; ur_Permissions := SegmentPermissions |}.

Definition UefiImageLoaderGetImageRecordUe : UeM (option UEFI_IMAGE_RECORD) :=
  '(NumSegments_, SegmentImageInfos, SegmentIterSize) ← UeGetSegmentImageInfos;
  match AllocateRecord NumSegments_ with
  | None => mret None
  | Some Segs =>
      s ← getS;
      SegmentImageInfo ← rd 4 (FileBuffer s) SegmentImageInfos;
      let RangeSize := UE_SEGMENT_SIZE SegmentImageInfo in
      v ← for_loop (Z.to_nat (NumSegments_ - 1)) 1 (UeRecordSegment SegmentImageInfos SegmentIterSize) {|
            ur_Segments := Segs; ur_NumRecordSegments := 0; ur_ImageSizeRecord := RangeSize;
            ur_RangeSize := RangeSize; ur_Permissions := UE_SEGMENT_PERMISSIONS SegmentImageInfo |};
      '(Segs, NumRecordSegments) ← UeAddRecordSegment v;
      ImageAddress_ ← UeLoaderGetImageAddress;
      let ImageSize_ := UeGetImageSize (Context s) in
      ASSERT (ImageSize_ =? ur_ImageSizeRecord v);;
      Segs ← zero_segments Segs NumRecordSegments NumSegments_;
      mret (Some {|
        Signature := UEFI_IMAGE_RECORD_SIGNATURE; NumSegments := NumRecordSegments;
        StartAddress := ImageAddress_; EndAddress := wrapn (ImageAddress_ + ImageSize_);
        ImageRecord.Segments := Segs |})
  end.

(** Returns the fixed address. *)
Definition UefiImageGetFixedAddressUe : UeM Z :=
  s ← getS;
  fail_if (negb (UeGetFixedAddress (Context s))) RETURN_NOT_FOUND;;
  mret (BaseAddress (Context s)).
End Code.

(** ** The attributes of the memory of an image *)

Section Attributes.
Context (File : list Z).

Definition seg_permissions (i : Z) : Z :=
  UE_SEGMENT_PERMISSIONS (load 4 File (UE_HEADER_Segments + i * SIZEOF_UE_SEGMENT + UE_SEGMENT_ImageInfo)).

Definition permission_attributes (Permissions : Z) : Z :=
  if Permissions =? UeSegmentPermX then Z.lor EFI_MEMORY_RP EFI_MEMORY_RO
  else if Permissions =? UeSegmentPermRX then EFI_MEMORY_RO
  else if Permissions =? UeSegmentPermRW then EFI_MEMORY_XP
  else read_only.

(** The segments of the file, one by one. *)
Fixpoint file_segments (n : nat) : list UEFI_IMAGE_RECORD_SEGMENT :=
  match n with
  | O => []
  | S k => file_segments k ++
      [segment (seg_size File (Z.of_nat k)) (permission_attributes (seg_permissions (Z.of_nat k)))]
  end.

(** The attributes of byte [x] of the image. *)
Definition ue_image_attributes (c : UE_LOADER_IMAGE_CONTEXT) (x : Z) : Z :=
  default 0 (attribute_at (file_segments (Z.to_nat (num_segments c))) x).

Lemma total_file_segments n : total (file_segments n) = sum_below (seg_size File) n.
Proof. induction n as [|n IH]; cbn; [done|]. rewrite total_app, IH. cbn. lia. Qed.

Lemma file_segments_sizes n : Forall (λ s, 0 <= seg_Size s ∧ True) (file_segments n).
Proof.
  induction n as [|n IH]; cbn; [done|]. apply Forall_app. split; [done|]. repeat constructor. cbn.
  apply UE_SEGMENT_SIZE_spec.
Qed.

Lemma file_segments_split n i :
  (i < n)%nat → ∃ l, file_segments n = file_segments i ++
    segment (seg_size File (Z.of_nat i)) (permission_attributes (seg_permissions (Z.of_nat i))) :: l.
Proof.
  induction 1 as [|n Hle [l Hl]]; cbn [file_segments]; [by exists []|].
  rewrite Hl, <- app_assoc. cbn. eauto.
Qed.

Lemma ue_image_attributes_in c i x :
  0 <= i < num_segments c → seg_address File i <= x < seg_address File (i + 1) →
  ue_image_attributes c x = permission_attributes (seg_permissions i).
Proof.
  intros Hi Hx. unfold ue_image_attributes.
  destruct (file_segments_split (Z.to_nat (num_segments c)) (Z.to_nat i) ltac:(lia)) as [l ->].
  rewrite Z2Nat.id by lia. rewrite attribute_at_app.
  unfold seg_address in Hx. rewrite sum_below_succ in Hx by lia.
  rewrite (attribute_at_behind _ (λ _, True) 0) by (done || apply file_segments_sizes || (rewrite total_file_segments; lia)).
  rewrite total_file_segments. cbn. destruct (Z.ltb_spec (x - sum_below (seg_size File) (Z.to_nat i)) (seg_size File i)); [done|lia].
Qed.
End Attributes.

(** ** Building the record *)

Section Proofs.
Context `{!Platform} (s : ue_loader) (Hbytes : bytes (FileBuffer s)) (Hsize : u32 (size (FileBuffer s))).
Context (Hok : UeOk (FileBuffer s) (Context s)).
Context (lo : Z) (Hlo : 0 <= lo) (Hmin : ∀ i, 0 <= i < num_segments (Context s) → lo <= seg_size (FileBuffer s) i).
Implicit Types E : RETURN_STATUS → ue_loader → Prop.
#[local] Abbreviation File := (FileBuffer s).
#[local] Abbreviation c := (Context s).
#[local] Abbreviation a := (SegmentAlignment c).
#[local] Abbreviation f := (ue_image_attributes File c).

Lemma num_segments_bounds : 1 <= num_segments c <= 32.
Proof.
  destruct (UE_HEADER_counts_spec _ (load_range 1 File UE_HEADER_TableCounts Hbytes)) as [Hl _].
  rewrite <- (ueh_last _ _ (ue_header_ok _ _ Hok)) in Hl. unfold num_segments. lia.
Qed.

Lemma seg_permissions_range i : 0 <= seg_permissions File i <= 3.
Proof.
  unfold seg_permissions, UE_SEGMENT_PERMISSIONS. assert (∀ x, Z.land x 3 = x mod 2 ^ 2) as H3 by (intros; by apply (land_mask x 2)).
  rewrite H3. pose proof (Z.mod_pos_bound (Z.shiftr (load 4 File (UE_HEADER_Segments + i * SIZEOF_UE_SEGMENT + UE_SEGMENT_ImageInfo)) 20) (2 ^ 2) eq_refl) as Hm.
  rewrite wrap_small; [lia|split; lia].
Qed.

(** The memory below the current range is recorded; the range ends with segment [j]. *)
Record UeRecording (j : Z) (v : ue_record_locals) (l : list UEFI_IMAGE_RECORD_SEGMENT) : Prop := {
  ug_length : Z.of_nat (length (ur_Segments v)) = num_segments c;
  ug_starts : starts (ur_Segments v) l;
  ug_num : ur_NumRecordSegments v = Z.of_nat (length l);
  ug_count : Z.of_nat (length l) < j;
  ug_size : ur_ImageSizeRecord v = seg_address File j;
  ug_range : lo <= ur_RangeSize v ∧ 0 <= seg_address File j - ur_RangeSize v;
  ug_aligned : (a | ur_RangeSize v);
  ug_covers : Covers lo a f l (seg_address File j - ur_RangeSize v);
  ug_attr x : seg_address File j - ur_RangeSize v <= x < seg_address File j →
    f x = permission_attributes (ur_Permissions v);
  ug_perm : 0 <= ur_Permissions v <= 3;
}.

Lemma UeAddRecordSegment_spec j v l E :
  1 <= j <= num_segments c → UeRecording j v l →
  wp (UeAddRecordSegment v)
    (λ '(Segs, n) s', s' = s ∧ n = Z.of_nat (length l) + 1 ∧ length Segs = length (ur_Segments v) ∧
       ∃ g, starts Segs (l ++ [g]) ∧ Covers lo a f (l ++ [g]) (seg_address File j)) E s.
Proof.
  intros Hj HR. pose proof num_segments_bounds as Hn. destruct HR. unfold UeAddRecordSegment. wp_step.
  eapply (wp_mono _ (λ x s', s' = s ∧ x = permission_attributes (ur_Permissions v)) _ E); [| |done].
  { unfold InternalPermissionsToAttributes, permission_attributes.
    do 3 (wp_step; [wp_step; split; [done|]; by repeat (case_match; try lia)|]).
    wp_step. wp_step; [unfold UeSegmentPermX, UeSegmentPermRX, UeSegmentPermRW, UeSegmentPermR in *; lia|]. wp_step.
    split; [done|]. by repeat (case_match; try lia). }
  intros x ? [-> ->]. wp_step. apply wp_put_segment; [lia|]. wp_step. split; [done|].
  rewrite wrap_small by (split; lia). split; [lia|]. rewrite length_insert. split; [done|].
  eexists. rewrite ug_num0, Nat2Z.id. split; [apply starts_snoc; [done|lia]|].
  rewrite <- (Z.sub_add (ur_RangeSize v) (seg_address File j)).
  apply Covers_snoc; try done; [lia|]. intros y Hy. apply ug_attr0. lia.
Qed.

Lemma wp_segment_info i (Q : Z → ue_loader → Prop) E :
  0 <= i < num_segments c →
  Q (load 4 File (UE_HEADER_Segments + i * SIZEOF_UE_SEGMENT + UE_SEGMENT_ImageInfo)) s →
  wp (rd 4 File (UeImage.Segments c + i * SegmentImageInfoIterSize c)) Q E s.
Proof.
  intros Hi HQ. destruct (ue_header_ok _ _ Hok). rewrite ueh_segments, ueh_iter.
  autounfold with ue_layout in *. unfold num_segments in *.
  destruct (UE_HEADER_counts_spec _ (load_range 1 File UE_HEADER_TableCounts Hbytes)) as [Hl Hn].
  autounfold with ue_layout in *. rewrite <- ueh_num in Hn. rewrite Z.add_0_r in HQ.
  apply wp_rd; [lia..|done].
Qed.

Lemma seg_address_image j : 0 <= j <= num_segments c → 0 <= seg_address File j <= ImageSize c.
Proof. intros Hj. rewrite (ues_image _ _ (ue_segments_ok _ _ Hok)). apply seg_address_mono. lia. Qed.

Lemma UeRecordSegment_spec j v l E :
  1 <= j < num_segments c → UeRecording j v l →
  wp (UeRecordSegment (UeImage.Segments c) (SegmentImageInfoIterSize c) j v)
    (λ v' s', s' = s ∧ ∃ l', UeRecording (j + 1) v' l') E s.
Proof.
  intros Hj HR. pose proof num_segments_bounds as Hn.
  pose proof (seg_address_image (j + 1) ltac:(lia)) as Ha1. pose proof (seg_address_image j ltac:(lia)) as Ha0.
  pose proof (ues_image_u32 _ _ (ue_segments_ok _ _ Hok)) as [_ Hiu].
  pose proof (ues_aligned _ _ (ue_segments_ok _ _ Hok) j ltac:(lia)) as Hal. specialize (Hmin j ltac:(lia)).
  assert (seg_address File (j + 1) = seg_address File j + seg_size File j) as Hsucc
    by (apply seg_address_succ; lia).
  unfold UeRecordSegment. wp_step. wp_step. wp_step. apply wp_segment_info; [lia|].
  fold (seg_size File j) (seg_permissions File j). pose proof HR as [].
  rewrite ug_size0, (wrap_small 32 (seg_address File j + _)) by (split; lia).
  wp_step.
  - wp_step. split; [done|]. exists l. assert (seg_permissions File j = ur_Permissions v) as Hp by lia.
    rewrite wrap_small by (split; lia).
    constructor; cbn [ur_Segments ur_NumRecordSegments ur_ImageSizeRecord ur_RangeSize ur_Permissions]; try done; try lia.
    + by apply Z.divide_add_r.
    + replace (seg_address File (j + 1) - _) with (seg_address File j - ur_RangeSize v) by lia. done.
    + intros x Hx. destruct (decide (x < seg_address File j)); [apply ug_attr0; lia|].
      rewrite <- Hp. apply ue_image_attributes_in; lia.
  - wp_step. eapply wp_mono; [apply (UeAddRecordSegment_spec j v l); [lia|done]| |done].
    intros [Segs n] ? (-> & -> & Hlen & g & Hst & HC). wp_step. split; [done|]. exists (l ++ [g]).
    constructor; cbn [ur_Segments ur_NumRecordSegments ur_ImageSizeRecord ur_RangeSize ur_Permissions];
      rewrite ?length_app; cbn; try done; try lia.
    + replace (seg_address File (j + 1) - _) with (seg_address File j) by lia. done.
    + intros x Hx. apply ue_image_attributes_in; lia.
    + apply seg_permissions_range.
Qed.

Lemma UefiImageLoaderGetImageRecordUe_spec AllocateRecord E :
  (∀ n l, AllocateRecord n = Some l → Z.of_nat (length l) = n) →
  wp (UefiImageLoaderGetImageRecordUe AllocateRecord)
    (λ r s', s' = s ∧
       match r with
       | None => AllocateRecord (num_segments c) = None
       | Some r => RecordOk UINTN_WIDTH lo a f (ImageSize c) (ImageAddress s) r
       end) E s.
Proof.
  intros Halloc. pose proof num_segments_bounds as Hn. unfold UefiImageLoaderGetImageRecordUe.
  wp_step. unfold UeGetSegmentImageInfos. wp_step. wp_step. wp_step.
  wp_step; [rewrite (ueh_iter _ _ (ue_header_ok _ _ Hok)); done|]. wp_step.
  rewrite wrap_small by (split; unfold num_segments in *; lia). fold (num_segments c).
  destruct (AllocateRecord (num_segments c)) as [Segs|] eqn:Hal; [|by wp_step].
  wp_step. wp_step. wp_step. replace (UeImage.Segments c) with (UeImage.Segments c + 0 * SegmentImageInfoIterSize c) at 1 by lia.
  apply wp_segment_info; [lia|].
  fold (seg_size File 0) (seg_permissions File 0). wp_step.
  assert (seg_address File 1 = seg_size File 0) as H1 by exact (Z.add_0_l _).
  eapply wp_mono.
  { apply (wp_for_loop (λ j v s', s' = s ∧ ∃ l, UeRecording j v l) E).
    - split; [done|]. exists []. constructor;
        cbn [ur_Segments ur_NumRecordSegments ur_ImageSizeRecord ur_RangeSize ur_Permissions]; rewrite ?H1; try done.
      + by apply Halloc.
      + split; [apply Hmin|]; lia.
      + apply (ues_aligned _ _ (ue_segments_ok _ _ Hok)). lia.
      + rewrite Z.sub_diag. apply Covers_nil.
      + intros x Hx. apply ue_image_attributes_in; [lia|]. change (seg_address File (0 + 1)) with (seg_address File 1).
        change (seg_address File 0) with 0. lia.
      + apply seg_permissions_range.
    - intros j v ? Hj [-> [l HR]]. eapply UeRecordSegment_spec; [lia|done]. }
  2: done.
  cbn beta. replace (1 + Z.of_nat (Z.to_nat (num_segments c - 1))) with (num_segments c) by lia.
  intros v ? [-> [l HR]].
  wp_step. eapply wp_mono; [apply (UeAddRecordSegment_spec (num_segments c) v l); [lia|done]| |done].
  intros [Segs' n] ? (-> & -> & Hlen & g & Hst & HC). pose proof (ug_length _ _ _ HR) as Hl. rewrite <- Hlen in Hl.
  pose proof (ues_image _ _ (ue_segments_ok _ _ Hok)) as Hi. rewrite <- Hi in HC.
  pose proof (ug_size _ _ _ HR) as Hsz. rewrite <- Hi in Hsz.
  pose proof (starts_length _ _ Hst) as Hsl. rewrite length_app in Hsl. cbn in Hsl.
  wp_step. unfold UeLoaderGetImageAddress. wp_step. wp_step. wp_step. wp_step.
  wp_step; [unfold UeGetImageSize; lia|]. wp_step. apply wp_zero_segments; [lia|congruence|]. wp_step. split; [done|].
  unfold UeGetImageSize.
  replace (Z.of_nat (length l) + 1) with (Z.of_nat (length (l ++ [g]))) by (rewrite length_app; cbn; lia).
  rewrite Nat2Z.id. replace (Z.to_nat (num_segments c - Z.of_nat (length (l ++ [g])))) with (length Segs' - length (l ++ [g]))%nat by lia.
  apply RecordOk_zeroed; [done|by destruct l|done].
Qed.
End Proofs.

Lemma permission_attributes_wx Permissions :
  executable (permission_attributes Permissions) && writable (permission_attributes Permissions) = false.
Proof. unfold permission_attributes. by repeat case_match. Qed.

(** What holds of the attributes of all segments holds at every byte. *)
Lemma attribute_at_all (P : Z → Prop) l x :
  Forall (λ s, P (seg_Attributes s)) l → 0 <= x < total l → P (default 0 (attribute_at l x)).
Proof.
  intros Hl. revert x. induction Hl as [|s l Hs Hl IH]; intros x Hx; cbn in *; [lia|].
  destruct (Z.ltb_spec x (seg_Size s)); [done|]. apply IH. lia.
Qed.

Lemma ue_image_attributes_wx File c x :
  UeOk File c → 0 <= x < ImageSize c →
  executable (ue_image_attributes File c x) && writable (ue_image_attributes File c x) = false.
Proof.
  intros Hok Hx. unfold ue_image_attributes.
  apply (attribute_at_all (λ a, executable a && writable a = false)).
  - generalize (Z.to_nat (num_segments c)) as n. induction n as [|n IH]; cbn [file_segments]; [done|].
    apply Forall_app. split; [done|]. repeat constructor. apply permission_attributes_wx.
  - rewrite total_file_segments. by rewrite (ues_image _ _ (ue_segments_ok _ _ Hok)) in Hx.
Qed.

(** ** Properties *)

(** The record of a verified UE image not for execution in place describes its memory
    exactly: the segments cover the image, are multiples of its alignment and give every byte the
    permissions of the segment of the file it belongs to, none of them writable and executable.
    The ASSERTs hold, no entry behind the array is written, the unused entries are zero; if no
    segment of the file is empty, none of the record is. *)
Theorem image_record_ue_exact `{!Platform} (s : ue_loader) (lo : Z)
    (AllocateRecord : Z → option (list UEFI_IMAGE_RECORD_SEGMENT)) :
  bytes (FileBuffer s) → UeOk (FileBuffer s) (Context s) → 0 <= lo →
  (∀ i, 0 <= i < num_segments (Context s) → lo <= seg_size (FileBuffer s) i) →
  (∀ n l, AllocateRecord n = Some l → Z.of_nat (length l) = n) →
  match UefiImageLoaderGetImageRecordUe AllocateRecord s with
  | Ok None s' => s' = s ∧ AllocateRecord (num_segments (Context s)) = None
  | Ok (Some r) s' => s' = s ∧
      RecordOk UINTN_WIDTH lo (SegmentAlignment (Context s)) (ue_image_attributes (FileBuffer s) (Context s))
        (ImageSize (Context s)) (ImageAddress s) r ∧
      ∀ x, 0 <= x < ImageSize (Context s) →
        executable (ue_image_attributes (FileBuffer s) (Context s) x) &&
        writable (ue_image_attributes (FileBuffer s) (Context s) x) = false
  | _ => False
  end.
Proof.
  intros Hb Hok Hlo Hmin Hal.
  pose proof (wp_cases _ _ _ _ (UefiImageLoaderGetImageRecordUe_spec s Hb Hok lo Hlo Hmin
    AllocateRecord (λ _ _, False) Hal)) as Hs.
  destruct (UefiImageLoaderGetImageRecordUe AllocateRecord s) as [[r|] s'| |]; try done.
  destruct Hs as [-> Hr]. split; [done|]. split; [done|]. intros x Hx. by apply ue_image_attributes_wx.
Qed.

(** A file for execution in place: 4 KiB of headers and one segment. *)
Definition ue_xip_file : list Z :=
  le_bytes 2 UE_HEADER_MAGIC ++ [0; 0] ++ le_bytes 4 0 ++ le_bytes 8 UE_HEADER_IMAGE_INFO_XIP
    ++ le_bytes 4 1 ++ le_bytes 4 4096 ++ replicate (Z.to_nat 8168) 0.

(** The image size of an image for execution in place includes the headers, which no segment of
    the record stands for: the ASSERT that compares them fails on a verified image. *)
Lemma image_record_ue_xip_assert :
  match (UeInitializeContextPreHash ue_xip_file (size ue_xip_file);;
         @UeInitializeContextPostHash platform_x64 (BaseOverflowLib build_gcc_x64) ue_xip_file) (ue_context 0) with
  | Ok _ c =>
      ImageSize c = 8192 ∧
      @UefiImageLoaderGetImageRecordUe platform_x64 (λ n, Some (replicate (Z.to_nat n) (segment 0 0)))
        {| Context := c; FileBuffer := ue_xip_file; ImageBuffer := ue_xip_file; ImageAddress := 0x200000;
           RuntimeContext := None |} = Fault AssertFailed
  | _ => False
  end.
Proof. by vm_compute. Qed.

(** ** The property on the sample image *)

Definition ue_record_memory (n : Z) : option (list UEFI_IMAGE_RECORD_SEGMENT) :=
  if n <? 0 then None else Some (replicate (Z.to_nat n) (segment 7 7)).

Lemma ue_record_memory_length n l : ue_record_memory n = Some l → Z.of_nat (length l) = n.
Proof. unfold ue_record_memory. case_match; [done|]. intros [= <-]. rewrite length_replicate. lia. Qed.

Definition ue_sample_record : UEFI_IMAGE_RECORD := {|
  Signature := UEFI_IMAGE_RECORD_SIGNATURE; NumSegments := 1; StartAddress := 0x200000; EndAddress := 0x201000;
  ImageRecord.Segments := [segment 4096 (Z.lor EFI_MEMORY_RP EFI_MEMORY_RO)] |}.

Lemma ue_sample_record_run :
  @UefiImageLoaderGetImageRecordUe platform_x64 ue_record_memory ue_sample_loaded
    = Ok (Some ue_sample_record) ue_sample_loaded.
Proof. by vm_compute. Qed.

Lemma image_record_ue_exact_witness :
  RecordOk 64 1 4096 (ue_image_attributes ue_sample ue_sample_context) 4096 0x200000 ue_sample_record.
Proof.
  assert (FileBuffer ue_sample_loaded = ue_sample) as HF by by vm_compute.
  assert (Context ue_sample_loaded = ue_sample_context) as Hc by by vm_compute.
  assert (bytes (FileBuffer ue_sample_loaded)) as Hb by (rewrite HF; exact ue_sample_bytes).
  assert (UeOk (FileBuffer ue_sample_loaded) (Context ue_sample_loaded)) as Hok by (rewrite HF, Hc; exact ue_sample_ok).
  pose proof (@image_record_ue_exact platform_x64 ue_sample_loaded 1 ue_record_memory Hb Hok Z.le_0_1) as Hex.
  rewrite ue_sample_record_run, HF, Hc in Hex. refine (proj1 (proj2 (Hex _ ue_record_memory_length))).
  intros i Hi. assert (i = 0) as -> by (change (num_segments ue_sample_context) with 1 in Hi; lia). by vm_compute.
Defined.
