(* ===== verification/MemoryMap.v ===== *)
(** Memory maps (MdePkg/Include/Uefi/UefiSpec.h), and the sorting of a memory map, of which
    ImagePropertiesRecordLib.c and MemoryProtection.c have a copy each.

    A memory map is an array of descriptors.  DescriptorSize, the distance of the descriptors in
    memory, is at least the size of a descriptor; the bytes behind each descriptor are never
    looked at and have no counterpart. *)
From stdpp Require Import sorting.
From S2P Require Import Prelude Base Buffer Platform Overflow.

Record EFI_MEMORY_DESCRIPTOR := {
  Type_ : Z;
  PhysicalStart : Z;
  VirtualStart : Z;
  NumberOfPages : Z;
  Attribute : Z;
}.

#[global] Instance EFI_MEMORY_DESCRIPTOR_eq_dec : EqDecision EFI_MEMORY_DESCRIPTOR.
Proof. solve_decision. Defined.

Definition set_PhysicalStart (v : Z) (d : EFI_MEMORY_DESCRIPTOR) : EFI_MEMORY_DESCRIPTOR :=
  {| Type_ := Type_ d; PhysicalStart := v; VirtualStart := VirtualStart d; NumberOfPages := NumberOfPages d;
     Attribute := Attribute d |}.
Definition set_NumberOfPages (v : Z) (d : EFI_MEMORY_DESCRIPTOR) : EFI_MEMORY_DESCRIPTOR :=
  {| Type_ := Type_ d; PhysicalStart := PhysicalStart d; VirtualStart := VirtualStart d; NumberOfPages := v;
     Attribute := Attribute d |}.
Definition set_Attribute (v : Z) (d : EFI_MEMORY_DESCRIPTOR) : EFI_MEMORY_DESCRIPTOR :=
  {| Type_ := Type_ d; PhysicalStart := PhysicalStart d; VirtualStart := VirtualStart d;
     NumberOfPages := NumberOfPages d; Attribute := v |}.

Definition EFI_PAGE_SHIFT : Z := 12.
Definition EFI_PAGE_MASK : Z := 0xFFF.

Definition EfiPagesToSize (Pages : Z) : Z := wrap 64 (Z.shiftl Pages EFI_PAGE_SHIFT).
Definition EfiSizeToPages `{!Platform} (Size : Z) : Z :=
  wrap 64 (Z.shiftr Size EFI_PAGE_SHIFT + (if Z.land (wrapn Size) EFI_PAGE_MASK =? 0 then 0 else 1)).

Abbreviation MapM := (M (list EFI_MEMORY_DESCRIPTOR)).

(** MemoryMap[Index] *)
Definition get_desc (Index : Z) : MapM EFI_MEMORY_DESCRIPTOR :=
  A ← getS;
  match A !! Z.to_nat Index with
  | Some d => require (0 <=? Index) OutOfBounds;; mret d
  | None => crash OutOfBounds
  end.

Definition put_desc (Index : Z) (d : EFI_MEMORY_DESCRIPTOR) : MapM unit :=
  A ← getS;
  require ((0 <=? Index) && (Index <? Z.of_nat (length A))) OutOfBounds;;
  modify (λ A, <[Z.to_nat Index := d]> A).

(** ** SortMemoryMap *)

(** The body of the inner loop: MemoryMapEntry is the entry [i], NextMemoryMapEntry the entry [j]. *)
Definition SortEntries (i j : Z) (_ : unit) : MapM unit :=
  MemoryMapEntry ← get_desc i;
  NextMemoryMapEntry ← get_desc j;
  if PhysicalStart NextMemoryMapEntry <? PhysicalStart MemoryMapEntry then
    put_desc i NextMemoryMapEntry;;
    put_desc j MemoryMapEntry
  else mret tt.

(** [n] entries *)
Definition SortMemoryMap (n : Z) : MapM unit :=
  for_loop (Z.to_nat n) 0 (λ i, for_loop (Z.to_nat (n - (i + 1))) (i + 1) (SortEntries i)) tt.

(** ** Symbolic execution *)

Lemma wp_get_desc i d (Q : EFI_MEMORY_DESCRIPTOR → list EFI_MEMORY_DESCRIPTOR → Prop) E A :
  0 <= i → A !! Z.to_nat i = Some d → Q d A → wp (get_desc i) Q E A.
Proof. intros ? Hl ?. unfold get_desc. wp_step. wp_step. rewrite Hl. wp_step. wp_step; [lia|]. by wp_step. Qed.

Lemma wp_put_desc i d (Q : unit → list EFI_MEMORY_DESCRIPTOR → Prop) E A :
  0 <= i < Z.of_nat (length A) → Q tt (<[Z.to_nat i := d]> A) → wp (put_desc i d) Q E A.
Proof. intros. unfold put_desc. wp_step. wp_step. wp_step. wp_step; [lia|]. by wp_step. Qed.

(** ** Sorting *)

Lemma swap_permutation {A} (l : list A) i j x y :
  i ≠ j → l !! i = Some x → l !! j = Some y → <[j := x]> (<[i := y]> l) ≡ₚ l.
Proof.
  intros Hij Hi Hj. apply Permutation_inj. split; [by rewrite !length_insert|].
  exists (λ k, if decide (k = i) then j else if decide (k = j) then i else k). split.
  - intros k k' Hk. repeat case_decide; simplify_eq; done.
  - intros k. apply lookup_lt_Some in Hi as Hli. apply lookup_lt_Some in Hj as Hlj. case_decide as Hk; [|case_decide as Hk'].
    + subst. rewrite list_lookup_insert_ne, list_lookup_insert_eq by done. done.
    + subst. rewrite list_lookup_insert_eq by (by rewrite length_insert). done.
    + by rewrite !list_lookup_insert_ne by done.
Qed.

(** Ascending by address. *)
Definition before (d d' : EFI_MEMORY_DESCRIPTOR) : Prop := PhysicalStart d <= PhysicalStart d'.

Definition ascending (l : list EFI_MEMORY_DESCRIPTOR) : Prop :=
  ∀ p q d d', (p < q)%nat → l !! p = Some d → l !! q = Some d' → before d d'.

(** The entries below [i] are in their place, and entry [i] is below the entries up to [j]. *)
Record Sorting (l0 : list EFI_MEMORY_DESCRIPTOR) (i j : Z) (l : list EFI_MEMORY_DESCRIPTOR) : Prop := {
  so_perm : l ≡ₚ l0;
  so_below p q d d' : Z.of_nat p < i → (p < q)%nat → l !! p = Some d → l !! q = Some d' → before d d';
  so_entry q d d' : i < Z.of_nat q < j → l !! Z.to_nat i = Some d → l !! q = Some d' → before d d';
}.

Lemma SortEntries_spec l0 rest i j l E :
  0 <= i < j → j < Z.of_nat (length l) → Sorting l0 i j l →
  wp (SortEntries i j tt) (λ _ A, ∃ l', A = l' ++ rest ∧ length l' = length l ∧ Sorting l0 i (j + 1) l') E (l ++ rest).
Proof.
  intros Hij Hj [Hp Hb He].
  destruct (lookup_lt_is_Some_2 l (Z.to_nat i)) as [x Hx]; [lia|].
  destruct (lookup_lt_is_Some_2 l (Z.to_nat j)) as [y Hy]; [lia|].
  unfold SortEntries. wp_step. eapply wp_get_desc; [lia|by rewrite lookup_app_l by lia|].
  wp_step. eapply wp_get_desc; [lia|by rewrite lookup_app_l by lia|]. wp_step.
  - wp_step. apply wp_put_desc; [rewrite length_app; lia|]. rewrite insert_app_l by lia.
    apply wp_put_desc; [rewrite length_app, length_insert; lia|]. rewrite insert_app_l by (rewrite length_insert; lia).
    eexists. split; [done|]. split; [by rewrite !length_insert|].
    assert (Z.to_nat i ≠ Z.to_nat j) as Hne by lia. constructor.
    + by rewrite swap_permutation.
    + intros p q d d' Hpi Hpq Hd Hd'. rewrite !list_lookup_insert_ne in Hd by lia.
      apply list_lookup_insert_Some in Hd' as [(<- & <- & _)|(_ & [(<- & <- & _)|(_ & Hd')]%list_lookup_insert_Some)];
        [apply (Hb p (Z.to_nat i))|apply (Hb p (Z.to_nat j))|apply (Hb p q)]; done || lia.
    + intros q d d' Hq Hd Hd'. rewrite list_lookup_insert_ne, list_lookup_insert_eq in Hd by lia. simplify_eq.
      unfold before in *.
      apply list_lookup_insert_Some in Hd' as [(_ & <- & _)|(Hn & [(? & <- & _)|(_ & Hd')]%list_lookup_insert_Some)]; [lia..|].
      specialize (He q x d' ltac:(lia) Hx Hd'). lia.
  - wp_step. exists l. split; [done|]. split; [done|]. constructor; [done..|].
    intros q d d' Hq Hd Hd'. destruct (decide (Z.of_nat q = j)) as [Hqj|]; [|by apply (He q); [lia|..]].
    unfold before. replace q with (Z.to_nat j) in Hd' by lia. simplify_eq. lia.
Qed.

Lemma SortMemoryMap_spec l rest E :
  wp (SortMemoryMap (Z.of_nat (length l)))
    (λ _ A, ∃ l', A = l' ++ rest ∧ l' ≡ₚ l ∧ ascending l') E (l ++ rest).
Proof.
  unfold SortMemoryMap. rewrite Nat2Z.id. eapply wp_mono.
  { apply (wp_for_loop (λ i _ A, ∃ l', A = l' ++ rest ∧ length l' = length l ∧ Sorting l i (i + 1) l') E).
    - exists l. split; [done|]. split; [done|]. constructor; [done|lia|lia].
    - intros i [] A Hi (l1 & -> & Hlen & Hs). eapply wp_mono.
      { apply (wp_for_loop (λ j _ A, ∃ l', A = l' ++ rest ∧ length l' = length l ∧ Sorting l i j l') E); [eauto|].
        intros j [] A Hj (l2 & -> & Hlen2 & Hs2). eapply wp_mono; [apply SortEntries_spec; done || lia| |done].
        intros _ A (l3 & -> & Hlen3 & Hs3). exists l3. split; [done|]. by rewrite Hlen3. }
      2: done.
      cbn beta. intros _ A (l2 & -> & Hlen2 & [Hp Hb He]). exists l2. split; [done|]. split; [done|].
      constructor; [done| |lia]. intros p q d d' Hpi Hpq Hd Hd'.
      destruct (decide (Z.of_nat p = i)) as [Hp'|]; [|by eapply Hb; [|exact Hpq|..]; [lia|..]].
      apply lookup_lt_Some in Hd' as Hq. eapply (He q); [|by replace (Z.to_nat i) with p by lia|done].
      rewrite Z2Nat.id by lia. lia. }
  2: done.
  cbn beta. intros _ A (l' & -> & Hlen & [Hp Hb _]). exists l'. split; [done|]. split; [done|].
  intros p q d d' Hpq Hd Hd'. eapply Hb; [|done..]. apply lookup_lt_Some in Hd. lia.
Qed.

(** ** Memory *)

(** The end of the memory of a descriptor, and the addresses in it. *)
Definition desc_end (d : EFI_MEMORY_DESCRIPTOR) : Z := PhysicalStart d + NumberOfPages d * 2 ^ EFI_PAGE_SHIFT.
Definition in_desc (d : EFI_MEMORY_DESCRIPTOR) (x : Z) : Prop := PhysicalStart d <= x < desc_end d.

(** A descriptor of memory that ends below 2^64. *)
Record DescOk (d : EFI_MEMORY_DESCRIPTOR) : Prop := {
  do_start : 0 <= PhysicalStart d;
  do_pages : 0 <= NumberOfPages d;
  do_end : desc_end d < 2 ^ 64;
  do_aligned : (2 ^ EFI_PAGE_SHIFT | PhysicalStart d);
}.

Lemma EfiPagesToSize_small n : 0 <= n → n * 2 ^ EFI_PAGE_SHIFT < 2 ^ 64 → EfiPagesToSize n = n * 2 ^ EFI_PAGE_SHIFT.
Proof.
  intros. unfold EfiPagesToSize. rewrite Z.shiftl_mul_pow2 by (unfold EFI_PAGE_SHIFT; lia).
  apply wrap_small. split; [|done]. unfold EFI_PAGE_SHIFT. lia.
Qed.

Lemma EfiSizeToPages_aligned `{!Platform, !PlatformOk} n :
  0 <= n < 2 ^ 52 → EfiSizeToPages (n * 2 ^ EFI_PAGE_SHIFT) = n.
Proof.
  intros Hn. unfold EfiSizeToPages, EFI_PAGE_SHIFT, EFI_PAGE_MASK.
  change 0xFFF with (2 ^ 12 - 1). rewrite land_mask by lia.
  rewrite Z.shiftr_div_pow2, Z.div_mul by lia.
  assert (wrapn (n * 2 ^ 12) mod 2 ^ 12 = 0) as ->.
  { unfold wrapn, wrap. rewrite <- Znumtheory.Zmod_div_mod; [apply Z.mod_mul; lia|lia|..].
    - destruct platform_uintn as [->| ->]; lia.
    - destruct platform_uintn as [->| ->]; [exists (2 ^ 20)|exists (2 ^ 52)]; done. }
  cbn. rewrite Z.add_0_r. apply wrap_small. split; lia.
Qed.
