(* ===== verification/SplitTable.v ===== *)
(** ImagePropertiesRecordLib.c: splitting the memory map at the segments of the loaded images.

    ImageRecordList is the sequence of the records in the order of the list; that the functions of
    the linked list library walk such a sequence is shown in LinkedList. *)
From stdpp Require Import list sorting.
From S2P Require Import Prelude Base Buffer Platform Overflow ImageRecord MemoryMap.

(** EFI_MEMORY_RP | EFI_MEMORY_XP | EFI_MEMORY_RO *)
Definition EFI_MEMORY_ACCESS_MASK : Z := Z.lor (Z.lor EFI_MEMORY_RP EFI_MEMORY_XP) EFI_MEMORY_RO.

Section Code.
Context `{!Platform} (ImageRecordList : list UEFI_IMAGE_RECORD).

(** The largest UINTN on all architectures. *)
Definition MAX_ADDRESS : Z := 2 ^ UINTN_WIDTH - 1.

Fixpoint GetImageRecordByAddress_from (l : list UEFI_IMAGE_RECORD) (Buffer Length : Z) : MapM (option UEFI_IMAGE_RECORD) :=
  match l with
  | [] => mret None
  | r :: l' =>
      ASSERT (Signature r =? UEFI_IMAGE_RECORD_SIGNATURE);;
      if (Buffer <=? StartAddress r) && (EndAddress r <=? wrap 64 (Buffer + Length)) then mret (Some r)
      else GetImageRecordByAddress_from l' Buffer Length
  end.

Definition GetImageRecordByAddress (Buffer Length : Z) : MapM (option UEFI_IMAGE_RECORD) :=
  GetImageRecordByAddress_from ImageRecordList Buffer Length.

(** The assignments to the five members of a new record. *)
Definition new_record (Type0 Start Pages Attr : Z) : EFI_MEMORY_DESCRIPTOR :=
  {| Type_ := Type0; PhysicalStart := Start; VirtualStart := 0; NumberOfPages := Pages; Attribute := Attr |}.

(** The body of the loop of SetNewRecord, carrying SectionAddress. *)
Definition SetSegmentRecord (r : UEFI_IMAGE_RECORD) (TempRecord : EFI_MEMORY_DESCRIPTOR) (NewRecord Index SectionAddress : Z)
    : MapM Z :=
  ImageRecordSegment ← get_segment (Segments r) Index;
  put_desc (NewRecord + Index) (new_record (Type_ TempRecord) SectionAddress (EfiSizeToPages (seg_Size ImageRecordSegment))
    (Z.lor (Z.land (Attribute TempRecord) (lnot_w 64 EFI_MEMORY_ACCESS_MASK)) (seg_Attributes ImageRecordSegment)));;
  mret (wrapn (SectionAddress + seg_Size ImageRecordSegment)).

(** [NewRecord] is the index of the first new record, [TempRecord] the old one. *)
Definition SetNewRecord (r : UEFI_IMAGE_RECORD) (NewRecord : Z) (TempRecord : EFI_MEMORY_DESCRIPTOR) : MapM Z :=
  NewRecordCount ←
    (if PhysicalStart TempRecord <? StartAddress r then
       put_desc NewRecord (new_record (Type_ TempRecord) (PhysicalStart TempRecord)
         (EfiSizeToPages (wrap 64 (StartAddress r - PhysicalStart TempRecord))) (Attribute TempRecord));;
       mret 1
     else mret 0);
  _ ← for_loop (Z.to_nat (NumSegments r)) 0 (SetSegmentRecord r TempRecord (NewRecord + NewRecordCount)) (StartAddress r);
  mret (wrap 32 (NewRecordCount + NumSegments r)).

(** The loop of GetMaxSplitRecordCount; [fuel] bounds the number of images. *)
Fixpoint MaxSplitLoop (fuel : nat) (Start End_ SplitRecordCount : Z) : MapM Z :=
  match fuel with
  | O => crash OutOfFuel
  | S k =>
      Record_ ← GetImageRecordByAddress Start (wrap 64 (End_ - Start));
      match Record_ with
      | None => mret SplitRecordCount
      | Some r =>
          let SplitRecordCount := wrapn (SplitRecordCount + wrap 32 (NumSegments r + 1)) in
          if EndAddress r <? End_ then MaxSplitLoop k (EndAddress r) End_ SplitRecordCount
          else mret SplitRecordCount
      end
  end.

Definition GetMaxSplitRecordCount (OldRecord : EFI_MEMORY_DESCRIPTOR) : MapM Z :=
  MaxSplitLoop (S (length ImageRecordList)) (PhysicalStart OldRecord)
    (wrap 64 (PhysicalStart OldRecord + EfiPagesToSize (NumberOfPages OldRecord))) 0.

(** The loop of SplitRecord; returns TotalNewRecordCount. *)
Fixpoint SplitLoop (fuel : nat) (NewRecord : Z) (TempRecord : EFI_MEMORY_DESCRIPTOR) (Start End_ TotalNewRecordCount : Z)
    : MapM Z :=
  match fuel with
  | O => crash OutOfFuel
  | S k =>
      NewImageRecord ← GetImageRecordByAddress Start (wrap 64 (End_ - Start));
      match NewImageRecord with
      | None =>
          if Start <? End_ then
            put_desc NewRecord (new_record (Type_ TempRecord) Start (EfiSizeToPages (wrap 64 (End_ - Start))) (Attribute TempRecord));;
            mret (wrapn (TotalNewRecordCount + 1))
          else mret TotalNewRecordCount
      | Some r =>
          '(NewRecord, TempRecord, TotalNewRecordCount) ←
            (if PhysicalStart TempRecord <? StartAddress r then
               put_desc NewRecord (new_record (Type_ TempRecord) (PhysicalStart TempRecord)
                 (EfiSizeToPages (wrap 64 (StartAddress r - PhysicalStart TempRecord))) (Attribute TempRecord));;
               mret (NewRecord + 1,
                     set_NumberOfPages (EfiSizeToPages (wrap 64 (End_ - StartAddress r)))
                       (set_PhysicalStart (StartAddress r) TempRecord),
                     wrapn (TotalNewRecordCount + 1))
             else mret (NewRecord, TempRecord, TotalNewRecordCount));
          NewRecordCount ← SetNewRecord r NewRecord TempRecord;
          let TotalNewRecordCount := wrapn (TotalNewRecordCount + NewRecordCount) in
          let TempRecord := set_NumberOfPages (EfiSizeToPages (wrap 64 (End_ - EndAddress r)))
                              (set_PhysicalStart (EndAddress r) TempRecord) in
          if EndAddress r <? End_
          then SplitLoop k (NewRecord + NewRecordCount) TempRecord (EndAddress r) End_ TotalNewRecordCount
          else mret TotalNewRecordCount
      end
  end.

(** [OldRecord] and [NewRecord] are indices in the same array. *)
Definition SplitRecord (OldRecord NewRecord MaxSplitRecordCount : Z) : MapM Z :=
  TempRecord ← get_desc OldRecord;
  if MaxSplitRecordCount =? 0 then
    put_desc NewRecord TempRecord;;
    mret 0
  else
    TotalNewRecordCount ← SplitLoop (S (length ImageRecordList)) NewRecord TempRecord (PhysicalStart TempRecord)
      (wrap 64 (PhysicalStart TempRecord + EfiPagesToSize (NumberOfPages TempRecord))) 0;
    ASSERT (negb (TotalNewRecordCount =? 0));;
    mret (wrapn (TotalNewRecordCount - 1)).

(** An unused record. *)
Definition SkipRecord (IndexNew RealSplitRecordCount : Z) (_ : unit) : MapM unit :=
  d ← get_desc (IndexNew + RealSplitRecordCount + 1);
  put_desc (IndexNew + RealSplitRecordCount + 1) (set_PhysicalStart MAX_ADDRESS d).

(** The loop of SplitTable over the old entries [k - 1], ..., 0; it carries IndexNew and
    TotalSkippedRecords. *)
Fixpoint SplitEntries (k : nat) (IndexNew TotalSkippedRecords : Z) : MapM (Z * Z) :=
  match k with
  | O => mret (IndexNew, TotalSkippedRecords)
  | S j =>
      let IndexOld := Z.of_nat j in
      OldRecord ← get_desc IndexOld;
      MaxSplitRecordCount ← GetMaxSplitRecordCount OldRecord;
      let IndexNew := IndexNew - MaxSplitRecordCount in
      RealSplitRecordCount ← SplitRecord IndexOld IndexNew MaxSplitRecordCount;
      for_loop (Z.to_nat (MaxSplitRecordCount - RealSplitRecordCount)) RealSplitRecordCount (SkipRecord IndexNew) tt;;
      SplitEntries j (IndexNew - 1)
        (wrapn (TotalSkippedRecords + Z.max 0 (MaxSplitRecordCount - RealSplitRecordCount)))
  end.

(** Moves [n] records from index [from] to the beginning; the ranges may overlap. *)
Definition MoveRecords (from n : Z) : MapM unit :=
  A ← getS;
  require ((0 <=? from) && (0 <=? n) && (from + n <=? Z.of_nat (length A))) OutOfBounds;;
  modify (λ A, take (Z.to_nat n) (drop (Z.to_nat from) A) ++ drop (Z.to_nat n) A).

(** Returns the new MemoryMapSize. *)
Definition SplitTable (MemoryMapSize DescriptorSize NumberOfAdditionalDescriptors : Z) : MapM Z :=
  let n := MemoryMapSize / DescriptorSize in
  let IndexNewStarting := n - 1 + NumberOfAdditionalDescriptors in
  '(IndexNew, TotalSkippedRecords) ← SplitEntries (Z.to_nat n) IndexNewStarting 0;
  MoveRecords (IndexNew + 1) (IndexNewStarting - IndexNew);;
  SortMemoryMap (IndexNewStarting - IndexNew);;
  mret (wrapn ((IndexNewStarting - IndexNew - TotalSkippedRecords) * DescriptorSize)).
End Code.

(** ** What the split map says *)

(** A record of an image of whole pages, as the image loaders build them. *)
Record RecOk (w : Z) (r : UEFI_IMAGE_RECORD) : Prop := {
  ro_signature : Signature r = UEFI_IMAGE_RECORD_SIGNATURE;
  ro_count : 1 <= NumSegments r <= Z.of_nat (length (Segments r));
  ro_small : NumSegments r < 2 ^ 31;
  ro_sizes : Forall (λ s, 0 <= seg_Size s ∧ (2 ^ EFI_PAGE_SHIFT | seg_Size s)) (take (Z.to_nat (NumSegments r)) (Segments r));
  ro_start : 0 <= StartAddress r;
  ro_aligned : (2 ^ EFI_PAGE_SHIFT | StartAddress r);
  ro_end : EndAddress r = StartAddress r + total (take (Z.to_nat (NumSegments r)) (Segments r));
  ro_nonempty : StartAddress r < EndAddress r;
  ro_width : EndAddress r < 2 ^ w;
}.

Definition record_segments (r : UEFI_IMAGE_RECORD) : list UEFI_IMAGE_RECORD_SEGMENT :=
  take (Z.to_nat (NumSegments r)) (Segments r).

(** The records are in the order of their addresses and do not overlap. *)
Record ImagesOk (w : Z) (l : list UEFI_IMAGE_RECORD) : Prop := {
  im_records : Forall (RecOk w) l;
  im_sorted : StronglySorted (λ r r', EndAddress r <= StartAddress r') l;
}.

(** The attributes of memory of an image. *)
Definition image_attribute (Attr SegAttr : Z) : Z := Z.lor (Z.land Attr (lnot_w 64 EFI_MEMORY_ACCESS_MASK)) SegAttr.

(** The descriptors of consecutive segments from address [x] on, inside [d]. *)
Fixpoint segment_descs (d : EFI_MEMORY_DESCRIPTOR) (x : Z) (l : list UEFI_IMAGE_RECORD_SEGMENT) : list EFI_MEMORY_DESCRIPTOR :=
  match l with
  | [] => []
  | s :: l' =>
      new_record (Type_ d) x (seg_Size s / 2 ^ EFI_PAGE_SHIFT) (image_attribute (Attribute d) (seg_Attributes s))
        :: segment_descs d (x + seg_Size s) l'
  end.

(** Memory of [d] without images. *)
Definition gap_descs (d : EFI_MEMORY_DESCRIPTOR) (x y : Z) : list EFI_MEMORY_DESCRIPTOR :=
  if x <? y then [new_record (Type_ d) x ((y - x) / 2 ^ EFI_PAGE_SHIFT) (Attribute d)] else [].

(** The descriptors of [d] from address [x] on, with the images [rs]. *)
Fixpoint pieces (d : EFI_MEMORY_DESCRIPTOR) (x : Z) (rs : list UEFI_IMAGE_RECORD) : list EFI_MEMORY_DESCRIPTOR :=
  match rs with
  | [] => gap_descs d x (desc_end d)
  | r :: rs' => gap_descs d x (StartAddress r) ++ segment_descs d (StartAddress r) (record_segments r) ++ pieces d (EndAddress r) rs'
  end.

(** The images between [x] and [y]. *)
Definition inside (x y : Z) (l : list UEFI_IMAGE_RECORD) : list UEFI_IMAGE_RECORD :=
  filter (λ r, x <= StartAddress r ∧ EndAddress r <= y) l.

(** What becomes of a descriptor. *)
Definition split (l : list UEFI_IMAGE_RECORD) (d : EFI_MEMORY_DESCRIPTOR) : list EFI_MEMORY_DESCRIPTOR :=
  match inside (PhysicalStart d) (desc_end d) l with
  | [] => [d]
  | rs => pieces d (PhysicalStart d) rs
  end.

(** The room the descriptor may need besides its own entry. *)
Definition extra (rs : list UEFI_IMAGE_RECORD) : Z := foldr (λ r n, NumSegments r + 1 + n) 0 rs.
Definition split_extra (l : list UEFI_IMAGE_RECORD) (d : EFI_MEMORY_DESCRIPTOR) : Z :=
  extra (inside (PhysicalStart d) (desc_end d) l).

(** ** The code writes these descriptors *)

Lemma filter_ext_Forall {A} (P Q : A → Prop) `{!∀ x, Decision (P x), !∀ x, Decision (Q x)} (l : list A) :
  Forall (λ x, P x ↔ Q x) l → filter P l = filter Q l.
Proof. induction 1 as [|x l Hx Hl IH]; [done|]. rewrite !filter_cons, IH. repeat case_decide; tauto. Qed.

Section Images.
Context `{!Platform, !PlatformOk} (l : list UEFI_IMAGE_RECORD) (Hl : ImagesOk UINTN_WIDTH l).
Implicit Types (d : EFI_MEMORY_DESCRIPTOR) (r : UEFI_IMAGE_RECORD) (rs : list UEFI_IMAGE_RECORD).

Lemma uintn_u64 x : 0 <= x < 2 ^ UINTN_WIDTH → 0 <= x < 2 ^ 64.
Proof. destruct platform_uintn as [->| ->]; lia. Qed.

Lemma uintn_u32 x : 0 <= x < 2 ^ 32 → wrapn x = x.
Proof. intros. apply wrapn_small. split; lia. Qed.

Lemma inside_RecOk x y r rs : inside x y l = r :: rs → RecOk UINTN_WIDTH r ∧ x <= StartAddress r ∧ EndAddress r <= y.
Proof.
  intros Hi. assert (r ∈ inside x y l) as Hin by (rewrite Hi; left).
  apply list_elem_of_filter in Hin as [? Hin]. split; [|done].
  by eapply (proj1 (list.Forall_forall _ _)); [apply (im_records _ _ Hl)|].
Qed.

(** Behind the first image found are the other ones. *)
Lemma inside_next x y r rs : inside x y l = r :: rs → inside (EndAddress r) y l = rs.
Proof.
  intros Hi. pose proof (inside_RecOk x y r rs Hi) as (Hr & Hx & Hy). destruct Hl as [Hrec Hsort]. clear Hl.
  revert Hi. induction Hsort as [|r0 l0 Hsort IH Hall]; [done|]. inversion Hrec as [|? ? Hr0 Hrec']; subst.
  unfold inside in *. rewrite !filter_cons. case_decide as Hc.
  - intros [= -> <-]. rewrite decide_False by (pose proof (ro_nonempty _ _ Hr); lia).
    apply filter_ext_Forall. eapply list.Forall_impl; [exact Hall|]. cbn. intros r1 H1. pose proof (ro_nonempty _ _ Hr). lia.
  - intros Hi. rewrite decide_False; [by apply IH|].
    assert (r ∈ l0) as Hin. { assert (r ∈ filter (λ r, x <= StartAddress r ∧ EndAddress r <= y) l0) as Hin by (rewrite Hi; left). by apply list_elem_of_filter in Hin as [_ Hin]. }
    pose proof (proj1 (list.Forall_forall _ _) Hall r Hin) as Hle. cbn in Hle. pose proof (ro_nonempty _ _ Hr). pose proof (ro_nonempty _ _ Hr0). lia.
Qed.

Lemma inside_end y : inside y y l = [].
Proof.
  destruct (inside y y l) as [|r rs] eqn:Hi; [done|].
  apply inside_RecOk in Hi as (Hr & ? & ?). pose proof (ro_nonempty _ _ Hr). lia.
Qed.

Lemma GetImageRecordByAddress_spec Start End_ E A :
  0 <= Start <= End_ → End_ < 2 ^ 64 →
  wp (GetImageRecordByAddress l Start (wrap 64 (End_ - Start))) (λ o A', A' = A ∧ o = head (inside Start End_ l)) E A.
Proof.
  intros Hse He. unfold GetImageRecordByAddress. rewrite (wrap_small 64 (End_ - Start)) by (split; lia).
  pose proof (im_records _ _ Hl) as Hrec. clear Hl. induction Hrec as [|r l' Hr Hrec IH]; cbn [GetImageRecordByAddress_from].
  - by wp_step.
  - wp_step. wp_step; [rewrite (ro_signature _ _ Hr); apply Z.eqb_refl|].
    rewrite wrap_small by (split; lia). unfold inside. rewrite filter_cons. wp_step.
    + wp_step. split; [done|]. by rewrite decide_True by lia.
    + rewrite decide_False by lia. apply IH.
Qed.

Lemma extra_nonneg x y : 0 <= extra (inside x y l).
Proof.
  pose proof (im_records _ _ Hl) as Hrec. clear Hl. unfold inside. induction Hrec as [|r l' Hr Hrec IH]; [done|].
  rewrite filter_cons. case_decide; [|done]. cbn. pose proof (ro_count _ _ Hr). unfold extra in IH. lia.
Qed.

Lemma MaxSplitLoop_spec fuel : ∀ Start End_ n E A,
  0 <= Start <= End_ → End_ < 2 ^ 64 → (length (inside Start End_ l) < fuel)%nat →
  0 <= n → n + extra (inside Start End_ l) < 2 ^ 32 →
  wp (MaxSplitLoop l fuel Start End_ n) (λ m A', A' = A ∧ m = n + extra (inside Start End_ l)) E A.
Proof.
  induction fuel as [|fuel IH]; intros Start End_ n E A Hse He Hf Hn Hmax; [lia|]. cbn [MaxSplitLoop].
  wp_step. eapply wp_mono; [by apply GetImageRecordByAddress_spec| |done]. intros o ? [-> ->].
  destruct (inside Start End_ l) as [|r rs] eqn:Hi; cbn [head].
  - wp_step. split; [done|]. cbn. lia.
  - pose proof (inside_next _ _ _ _ Hi) as Hnext. destruct (inside_RecOk _ _ _ _ Hi) as (Hr & Hs & Hend). destruct Hr.
    pose proof (extra_nonneg (EndAddress r) End_) as Hnn. rewrite Hnext in Hnn. cbn in Hmax. unfold extra in Hnn.
    rewrite (wrap_small 32) by (split; lia). rewrite uintn_u32 by lia. wp_step.
    + eapply wp_mono; [apply IH; rewrite ?Hnext; unfold extra; cbn in Hf; lia| |done].
      intros m ? [-> ->]. split; [done|]. rewrite Hnext. cbn. unfold extra. lia.
    + wp_step. split; [done|]. assert (EndAddress r = End_) as Heq by lia. rewrite Heq, inside_end in Hnext. subst rs. cbn. lia.
Qed.

(** *** Writing *)

Lemma EfiSizeToPages_divide x : 0 <= x < 2 ^ 64 → (2 ^ EFI_PAGE_SHIFT | x) → EfiSizeToPages x = x / 2 ^ EFI_PAGE_SHIFT.
Proof.
  intros Hx [q ->]. unfold EFI_PAGE_SHIFT in *. rewrite Z.div_mul by lia. apply EfiSizeToPages_aligned. lia.
Qed.

Lemma wp_put_app P q Q d (R : unit → list EFI_MEMORY_DESCRIPTOR → Prop) E i :
  i = Z.of_nat (length P) → R tt (P ++ d :: Q) → wp (put_desc i d) R E (P ++ q :: Q).
Proof.
  intros -> HR. apply wp_put_desc; [rewrite length_app; cbn; lia|].
  rewrite Nat2Z.id, insert_app_r_alt, Nat.sub_diag by done. done.
Qed.

Lemma segment_descs_app d x l1 l2 :
  segment_descs d x (l1 ++ l2) = segment_descs d x l1 ++ segment_descs d (x + total l1) l2.
Proof.
  revert x. induction l1 as [|s l1 IH]; intros x; cbn; [f_equal; lia|]. rewrite IH. do 3 f_equal. lia.
Qed.

Lemma length_segment_descs d x l1 : length (segment_descs d x l1) = length l1.
Proof. revert x. induction l1; intros x; cbn; auto. Qed.

Lemma segment_descs_ext d d' x l1 :
  Type_ d = Type_ d' → Attribute d = Attribute d' → segment_descs d x l1 = segment_descs d' x l1.
Proof. intros HT HA. revert x. induction l1 as [|s l1 IH]; intros x; cbn; [done|]. by rewrite HT, HA, IH. Qed.

Lemma length_record_segments r : RecOk UINTN_WIDTH r → length (record_segments r) = Z.to_nat (NumSegments r).
Proof. intros Hr. unfold record_segments. rewrite length_take. pose proof (ro_count _ _ Hr). lia. Qed.

(** The segments before [k] and the rest. *)
Lemma record_prefix r k s :
  RecOk UINTN_WIDTH r → record_segments r !! k = Some s →
  0 <= total (take k (record_segments r)) ∧ 0 <= seg_Size s ∧ (2 ^ EFI_PAGE_SHIFT | seg_Size s) ∧
  StartAddress r + total (take k (record_segments r)) + seg_Size s <= EndAddress r.
Proof.
  intros Hr Hk. pose proof (ro_sizes _ _ Hr) as Hs. fold (record_segments r) in Hs.
  rewrite (ro_end _ _ Hr). fold (record_segments r). rewrite <- (take_drop_middle _ _ _ Hk) in Hs.
  rewrite <- (take_drop_middle _ _ _ Hk) at 3. rewrite total_app. cbn.
  apply Forall_app in Hs as [Hs1 Hs2]. inversion Hs2 as [|? ? [Hz Hd] Hs3]; subst.
  pose proof (total_nonneg _ _ 0 ltac:(lia) Hs1). pose proof (total_nonneg _ _ 0 ltac:(lia) Hs3). split_and!; try done. lia.
Qed.

Lemma SetSegmentRecord_spec r T P Q k E :
  RecOk UINTN_WIDTH r → 0 <= k < NumSegments r → NumSegments r <= Z.of_nat (length Q) →
  wp (SetSegmentRecord r T (Z.of_nat (length P)) k (StartAddress r + total (take (Z.to_nat k) (record_segments r))))
    (λ x A, x = StartAddress r + total (take (Z.to_nat (k + 1)) (record_segments r)) ∧
       A = P ++ segment_descs T (StartAddress r) (take (Z.to_nat (k + 1)) (record_segments r)) ++ drop (Z.to_nat (k + 1)) Q) E
    (P ++ segment_descs T (StartAddress r) (take (Z.to_nat k) (record_segments r)) ++ drop (Z.to_nat k) Q).
Proof.
  intros Hr Hk HQ. pose proof (length_record_segments r Hr) as Hlen.
  destruct (lookup_lt_is_Some_2 (record_segments r) (Z.to_nat k)) as [s Hs]; [lia|].
  destruct (record_prefix r (Z.to_nat k) s Hr Hs) as (Ht & Hz & Hd & Hle).
  pose proof (ro_width _ _ Hr) as Hw. pose proof (ro_start _ _ Hr) as Hst.
  pose proof (uintn_u64 (EndAddress r) ltac:(lia)) as Hu.
  assert (Z.to_nat (k + 1) = S (Z.to_nat k)) as -> by lia.
  unfold SetSegmentRecord. wp_step. eapply wp_get_segment; [lia| |].
  { unfold record_segments in Hs. by apply lookup_take_Some in Hs as [Hs _]. }
  destruct (lookup_lt_is_Some_2 Q (Z.to_nat k)) as [q Hq]; [lia|].
  rewrite (drop_S Q q (Z.to_nat k) Hq).
  rewrite (app_assoc P (segment_descs T (StartAddress r) (take (Z.to_nat k) (record_segments r)))).
  wp_step. apply wp_put_app; [rewrite length_app, length_segment_descs, length_take; lia|]. wp_step.
  rewrite (take_S_r _ _ s Hs), total_app, segment_descs_app. cbn [total segment_descs].
  rewrite EfiSizeToPages_divide by (done || lia). split.
  - unfold wrapn. rewrite wrap_small by (split; lia). lia.
  - by rewrite <- !app_assoc.
Qed.

Lemma SetNewRecord_spec r T P Q E :
  RecOk UINTN_WIDTH r → PhysicalStart T = StartAddress r → NumSegments r <= Z.of_nat (length Q) →
  wp (SetNewRecord r (Z.of_nat (length P)) T)
    (λ n A, n = NumSegments r ∧
       A = P ++ segment_descs T (StartAddress r) (record_segments r) ++ drop (Z.to_nat (NumSegments r)) Q) E (P ++ Q).
Proof.
  intros Hr HT HQ. pose proof (ro_count _ _ Hr). pose proof (ro_small _ _ Hr).
  unfold SetNewRecord. rewrite HT, Z.ltb_irrefl. wp_step. wp_step. wp_step. rewrite Z.add_0_r. eapply wp_mono.
  { apply (wp_for_loop (λ k x A, x = StartAddress r + total (take (Z.to_nat k) (record_segments r)) ∧
      A = P ++ segment_descs T (StartAddress r) (take (Z.to_nat k) (record_segments r)) ++ drop (Z.to_nat k) Q) E).
    - change (Z.to_nat 0) with 0%nat. rewrite !take_0, drop_0. cbn [total segment_descs app]. split; [lia|done].
    - intros k x A Hk [-> ->]. apply SetSegmentRecord_spec; [done|lia|done]. }
  2: done.
  cbn beta. intros x A [_ ->]. wp_step. rewrite Z.add_0_l, wrap_small by (split; lia). split; [done|].
  rewrite Z.add_0_l, Z2Nat.id by lia. rewrite take_ge; [done|]. rewrite length_record_segments by done. lia.
Qed.

(** *** Splitting a descriptor *)

Context (d : EFI_MEMORY_DESCRIPTOR) (Hd : DescOk d).

Lemma desc_end_aligned : (2 ^ EFI_PAGE_SHIFT | desc_end d).
Proof. unfold desc_end. apply Z.divide_add_r; [apply (do_aligned _ Hd)|apply Z.divide_factor_r]. Qed.

Lemma record_end_aligned r : RecOk UINTN_WIDTH r → (2 ^ EFI_PAGE_SHIFT | EndAddress r).
Proof.
  intros Hr. rewrite (ro_end _ _ Hr). apply Z.divide_add_r; [apply (ro_aligned _ _ Hr)|].
  pose proof (ro_sizes _ _ Hr) as Hs. revert Hs. generalize (take (Z.to_nat (NumSegments r)) (Segments r)) as g.
  induction 1 as [|x g [_ Hx] Hg IH]; cbn; [apply Z.divide_0_r|by apply Z.divide_add_r].
Qed.

(** The record in front of an image, or at the end. *)
Lemma put_gap T P Q x y (R : unit → list EFI_MEMORY_DESCRIPTOR → Prop) E :
  Type_ T = Type_ d → Attribute T = Attribute d → 0 <= x < y → y < 2 ^ 64 →
  (2 ^ EFI_PAGE_SHIFT | x) → (2 ^ EFI_PAGE_SHIFT | y) → (0 < length Q)%nat →
  R tt ((P ++ gap_descs d x y) ++ drop 1 Q) →
  wp (put_desc (Z.of_nat (length P)) (new_record (Type_ T) x (EfiSizeToPages (wrap 64 (y - x))) (Attribute T))) R E (P ++ Q).
Proof.
  intros HT HA Hxy Hy Hdx Hdy HQ HR. destruct Q as [|q Q]; [cbn in HQ; lia|]. apply wp_put_app; [done|].
  rewrite wrap_small by (split; lia). rewrite EfiSizeToPages_divide, HT, HA by (lia || by apply Z.divide_sub_r).
  unfold gap_descs in HR. destruct (Z.ltb_spec x y); [|lia]. by rewrite <- app_assoc in HR.
Qed.

Lemma length_gap x y : length (gap_descs d x y) = if x <? y then 1%nat else 0%nat.
Proof. unfold gap_descs. by case_match. Qed.

Lemma SplitLoop_spec fuel : ∀ Start T P Q n E,
  0 <= Start <= desc_end d → (2 ^ EFI_PAGE_SHIFT | Start) →
  PhysicalStart T = Start → Type_ T = Type_ d → Attribute T = Attribute d →
  let W := pieces d Start (inside Start (desc_end d) l) in
  (length (inside Start (desc_end d) l) < fuel)%nat → (length W <= length Q)%nat →
  0 <= n → n + Z.of_nat (length W) < 2 ^ 32 →
  wp (SplitLoop l fuel (Z.of_nat (length P)) T Start (desc_end d) n)
    (λ m A, m = n + Z.of_nat (length W) ∧ A = P ++ W ++ drop (length W) Q) E (P ++ Q).
Proof.
  induction fuel as [|fuel IH]; intros Start T P Q n E Hs Hal HTs HT HA W Hf HQ Hn Hmax; [lia|]. cbn [SplitLoop].
  pose proof (do_end _ Hd) as He. pose proof desc_end_aligned as Hea.
  wp_step. eapply wp_mono; [by apply GetImageRecordByAddress_spec| |done]. intros o ? [-> ->]. subst W.
  destruct (inside Start (desc_end d) l) as [|r rs] eqn:Hi; cbn [head pieces] in *.
  { wp_step.
    - wp_step. apply put_gap; try done; try lia.
      { rewrite length_gap in HQ. case_match; lia. }
      assert (length (gap_descs d Start (desc_end d)) = 1%nat) as Hg by (rewrite length_gap; case_match; lia).
      wp_step. rewrite Hg. split; [apply uintn_u32; lia|]. by rewrite app_assoc.
    - unfold gap_descs. rewrite H1. wp_step. split; [cbn; lia|done]. }
  pose proof (inside_next _ _ _ _ Hi) as Hnext. destruct (inside_RecOk _ _ _ _ Hi) as (Hr & Hrs & Hre).
  pose proof (ro_nonempty _ _ Hr) as Hne. pose proof (ro_count _ _ Hr) as Hcnt. pose proof (record_end_aligned r Hr) as Hra.
  pose proof (length_record_segments r Hr) as Hls.
  rewrite !length_app, length_segment_descs, Hls in *.
  set (g := gap_descs d Start (StartAddress r)) in *.
  wp_step. eapply (wp_mono _ (λ '(i, T', m) A, i = Z.of_nat (length (P ++ g)) ∧ PhysicalStart T' = StartAddress r ∧
    Type_ T' = Type_ d ∧ Attribute T' = Attribute d ∧ m = n + Z.of_nat (length g) ∧ A = (P ++ g) ++ drop (length g) Q) _ E); [| |done].
  { subst g. rewrite HTs, length_app, length_gap in *. unfold gap_descs. wp_step.
    - rewrite H1 in *. wp_step. apply put_gap; try done; try lia; [apply (ro_aligned _ _ Hr)|]. wp_step.
      unfold gap_descs. rewrite H1. split_and!; try done; [lia|]. apply uintn_u32. lia.
    - rewrite H1 in *. wp_step. rewrite app_nil_r, drop_0. split_and!; try done; try lia. }
  intros [[i T'] m] A (-> & HT's & HT' & HA' & -> & ->).
  wp_step. eapply wp_mono; [apply SetNewRecord_spec; [done..|rewrite length_drop; lia]| |done].
  intros k A [-> ->]. rewrite (segment_descs_ext T' d) by done.
  set (g' := segment_descs d (StartAddress r) (record_segments r)).
  assert (length g' = Z.to_nat (NumSegments r)) as Hg' by (subst g'; by rewrite length_segment_descs).
  rewrite (uintn_u32 (_ + _)) by lia. rewrite drop_drop. wp_step.
  - rewrite (app_assoc (P ++ g) g'). replace (Z.of_nat (length (P ++ g)) + NumSegments r) with (Z.of_nat (length ((P ++ g) ++ g')))
      by (rewrite (length_app (P ++ g)), Hg'; lia).
    eapply wp_mono.
    { pose proof (ro_start _ _ Hr). cbn [length] in Hf. apply IH; rewrite ?Hnext; try done; rewrite ?length_drop; lia. }
    2: done.
    intros m A [-> ->]. rewrite Hnext. split; [lia|]. rewrite drop_drop, <- !app_assoc. by rewrite Nat.add_assoc.
  - wp_step. assert (EndAddress r = desc_end d) as Heq by lia. rewrite Heq in *. rewrite inside_end in Hnext. subst rs.
    cbn [pieces] in *. unfold gap_descs in *. rewrite Z.ltb_irrefl in *. cbn in *. split; [lia|].
    by rewrite app_nil_r, Nat.add_0_r, <- !app_assoc.
Qed.

Lemma pieces_length rs : ∀ x, Forall (RecOk UINTN_WIDTH) rs →
  Z.of_nat (length (pieces d x rs)) <= extra rs + 1 ∧ (rs ≠ [] → 1 <= Z.of_nat (length (pieces d x rs))) ∧ 0 <= extra rs ∧
  (extra rs = 0 → rs = []).
Proof.
  induction rs as [|r rs IH]; intros x Hrs; cbn [pieces extra foldr].
  - rewrite length_gap. repeat split; [case_match; lia|done|done].
  - inversion Hrs as [|? ? Hr Hrs']; subst. specialize (IH (EndAddress r) Hrs') as (IH1 & _ & IH2 & _). unfold extra in *.
    pose proof (ro_count _ _ Hr). rewrite !length_app, length_gap, length_segment_descs, length_record_segments by done.
    repeat split; [case_match; lia|intros _; lia|lia|lia].
Qed.

Lemma inside_Forall x y : Forall (RecOk UINTN_WIDTH) (inside x y l).
Proof.
  apply list.Forall_forall. intros r [_ Hr]%list_elem_of_filter.
  by eapply (proj1 (list.Forall_forall _ _)); [apply (im_records _ _ Hl)|].
Qed.

Lemma split_length : 1 <= Z.of_nat (length (split l d)) <= split_extra l d + 1 ∧ 0 <= split_extra l d.
Proof.
  unfold split, split_extra. pose proof (inside_Forall (PhysicalStart d) (desc_end d)) as Hi.
  destruct (pieces_length _ (PhysicalStart d) Hi) as (H1 & H2 & H3 & _).
  destruct (inside (PhysicalStart d) (desc_end d) l) as [|r rs]; [cbn; lia|]. specialize (H2 ltac:(done)). lia.
Qed.

Lemma old_end : wrap 64 (PhysicalStart d + EfiPagesToSize (NumberOfPages d)) = desc_end d.
Proof.
  destruct Hd. unfold desc_end in *. unfold EFI_PAGE_SHIFT in *. rewrite EfiPagesToSize_small by (unfold EFI_PAGE_SHIFT; lia).
  apply wrap_small. unfold EFI_PAGE_SHIFT. split; lia.
Qed.

Lemma desc_start : 0 <= PhysicalStart d <= desc_end d.
Proof. destruct Hd. unfold desc_end, EFI_PAGE_SHIFT in *. lia. Qed.

Lemma inside_fuel x y : (length (inside x y l) < S (length l))%nat.
Proof. pose proof (length_filter (λ r, x <= StartAddress r ∧ EndAddress r <= y) l). unfold inside. lia. Qed.

Lemma GetMaxSplitRecordCount_spec E A :
  split_extra l d < 2 ^ 32 → wp (GetMaxSplitRecordCount l d) (λ m A', A' = A ∧ m = split_extra l d) E A.
Proof.
  intros Hx. unfold GetMaxSplitRecordCount. rewrite old_end. pose proof desc_start. pose proof (do_end _ Hd).
  eapply wp_mono; [apply MaxSplitLoop_spec; [done|done|apply inside_fuel|done|done]| |done]. done.
Qed.

Lemma SplitRecord_spec P0 B P Q E :
  P ++ Q = P0 ++ d :: B → split_extra l d < 2 ^ 31 → (length (split l d) <= length Q)%nat →
  wp (SplitRecord l (Z.of_nat (length P0)) (Z.of_nat (length P)) (split_extra l d))
    (λ m A, m = Z.of_nat (length (split l d)) - 1 ∧ A = P ++ split l d ++ drop (length (split l d)) Q) E (P ++ Q).
Proof.
  intros HA Hx HQ. pose proof (inside_Forall (PhysicalStart d) (desc_end d)) as Hi.
  destruct (pieces_length _ (PhysicalStart d) Hi) as (H1 & H2 & H3 & H4). pose proof split_length as Hlen.
  unfold SplitRecord. wp_step. apply (wp_get_desc _ d); [lia| |].
  { rewrite HA, Nat2Z.id. by apply list_lookup_middle. }
  unfold split, split_extra in *. wp_step.
  - destruct Q as [|q Q]; [cbn in *; lia|]. rewrite H4 by lia. wp_step. apply wp_put_app; [done|]. by wp_step.
  - destruct (inside (PhysicalStart d) (desc_end d) l) as [|r rs] eqn:Hin; [done|]. rewrite <- Hin in *. rewrite old_end.
    pose proof (do_start _ Hd). pose proof (do_aligned _ Hd). pose proof desc_start.
    wp_step. eapply wp_mono.
    { apply SplitLoop_spec; try done; [apply inside_fuel|lia]. }
    2: done.
    intros m A [-> ->]. wp_step. wp_step; [lia|]. wp_step. rewrite Z.add_0_l. split; [|done]. apply uintn_u32. lia.
Qed.
End Images.

(** *** The table *)

Section Table.
Context `{!Platform, !PlatformOk} (l : list UEFI_IMAGE_RECORD) (Hl : ImagesOk UINTN_WIDTH l).

Lemma SkipRecord_spec R x F IndexNew i E (Post : unit → list EFI_MEMORY_DESCRIPTOR → Prop) :
  IndexNew + i + 1 = Z.of_nat (length R) → Post tt (R ++ set_PhysicalStart MAX_ADDRESS x :: F) →
  wp (SkipRecord IndexNew i tt) Post E (R ++ x :: F).
Proof.
  intros Hi HP. unfold SkipRecord. rewrite Hi. wp_step. apply (wp_get_desc _ x); [lia|rewrite Nat2Z.id; by apply list_lookup_middle|].
  by apply wp_put_app.
Qed.

Lemma SkipLoop_spec L : ∀ R F IndexNew i E,
  IndexNew + i + 1 = Z.of_nat (length R) →
  wp (for_loop (length L) i (SkipRecord IndexNew) tt)
    (λ _ A, A = R ++ map (set_PhysicalStart MAX_ADDRESS) L ++ F) E (R ++ L ++ F).
Proof.
  induction L as [|x L IH]; intros R F IndexNew i E Hi; cbn [for_loop length map app]; [by wp_step|].
  wp_step. apply SkipRecord_spec; [done|]. rewrite (cons_middle _ R (L ++ F)), (app_assoc R [_]).
  eapply wp_mono; [apply IH| |done].
  - rewrite length_app. cbn. lia.
  - intros _ A ->. by rewrite <- app_assoc.
Qed.

(** The room all descriptors may need. *)
Definition table_extra (D : list EFI_MEMORY_DESCRIPTOR) : Z := foldr (λ d n, split_extra l d + n) 0 D.

Lemma table_extra_app D D' : table_extra (D ++ D') = table_extra D + table_extra D'.
Proof. induction D as [|d D IH]; cbn; [done|]. unfold table_extra in *. cbn in *. lia. Qed.

Lemma table_extra_nonneg D : 0 <= table_extra D.
Proof. induction D as [|d D IH]; cbn; [done|]. unfold table_extra in *. destruct (split_length l Hl d) as [_ ?]. lia. Qed.

Lemma SplitEntries_spec D : ∀ M0 F n E,
  Forall DescOk D → table_extra D <= Z.of_nat (length M0) → table_extra D < 2 ^ 31 →
  0 <= n → n + table_extra D < 2 ^ 32 →
  wp (SplitEntries l (length D) (Z.of_nat (length D + length M0) - 1) n)
    (λ '(i, m) A, ∃ M' F' S, A = M' ++ F' ++ F ∧ i = Z.of_nat (length M') - 1 ∧
       length (M' ++ F') = length (D ++ M0) ∧ F' ≡ₚ concat (map (split l) D) ++ S ∧
       Forall (λ d, PhysicalStart d = MAX_ADDRESS) S ∧ m = n + Z.of_nat (length S)) E (D ++ M0 ++ F).
Proof.
  induction D as [|d D IH] using rev_ind; intros M0 F n E HD Hroom Hsmall Hn Hmax.
  { cbn [SplitEntries length app]. wp_step. exists M0, [], []. rewrite app_nil_r. cbn. split_and!; try done; lia. }
  apply Forall_app in HD as [HD Hd]. apply Forall_inv in Hd.
  rewrite table_extra_app in *. assert (table_extra [d] = split_extra l d) as Hx by (cbn; lia). rewrite Hx in *.
  pose proof (table_extra_nonneg D) as Hnn. destruct (split_length l Hl d) as [Hlen Hxn].
  set (x := split_extra l d) in *. set (W := split l d) in *.
  rewrite length_app. cbn [length]. rewrite Nat.add_1_r. cbn [SplitEntries].
  rewrite <- (app_assoc D [d] (M0 ++ F)). cbn [app].
  wp_step. apply (wp_get_desc _ d); [lia|rewrite Nat2Z.id; by apply list_lookup_middle|].
  wp_step. eapply wp_mono; [apply GetMaxSplitRecordCount_spec; [done..|subst x; lia]| |done]. intros m ? [-> ->]. fold x.
  set (M1 := take (length M0 - Z.to_nat x) (d :: M0)). set (Q0 := drop (length M0 - Z.to_nat x) (d :: M0)).
  assert (M1 ++ Q0 = d :: M0) as HMQ by apply take_drop.
  assert (length M1 = length M0 - Z.to_nat x)%nat as HM1 by (subst M1; rewrite length_take; cbn; lia).
  assert (length Q0 = Z.to_nat x + 1)%nat as HQ0 by (subst Q0; rewrite length_drop; cbn; lia).
  replace (D ++ d :: M0 ++ F) with ((D ++ M1) ++ Q0 ++ F) by (by rewrite <- app_assoc, (app_assoc M1), HMQ).
  replace (Z.of_nat (S (length D) + length M0) - 1 - x) with (Z.of_nat (length (D ++ M1))) by (rewrite length_app; lia).
  wp_step. eapply wp_mono.
  { apply (SplitRecord_spec l Hl d Hd D (M0 ++ F)).
    - by rewrite <- app_assoc, (app_assoc M1), HMQ.
    - subst x. lia.
    - rewrite length_app. subst W. lia. }
  2: done.
  fold W. intros k A [-> ->]. rewrite (drop_app_le Q0 F) by lia.
  set (L := drop (length W) Q0).
  assert (Z.of_nat (length L) = x - (Z.of_nat (length W) - 1)) as HL by (subst L; rewrite length_drop; lia).
  rewrite <- HL, Nat2Z.id, (app_assoc (D ++ M1) W). wp_step.
  eapply wp_mono; [apply SkipLoop_spec; rewrite (length_app (D ++ M1)); lia| |done].
  intros _ A ->. rewrite <- !(app_assoc D), <- (app_assoc M1).
  set (L' := map (set_PhysicalStart MAX_ADDRESS) L). assert (length L' = length L) as HL' by apply length_map.
  rewrite Z.max_r by lia. rewrite uintn_u32 by lia.
  replace (Z.of_nat (length (D ++ M1)) - 1) with (Z.of_nat (length D + length M1) - 1) by (rewrite length_app; lia).
  eapply wp_mono; [apply IH; [done|lia..]| |done].
  intros [i m] A (M' & F' & S' & -> & -> & Hlen' & Hperm & HS & ->).
  exists M', (F' ++ W ++ L'), (S' ++ L'). rewrite !length_app in *. cbn [length] in *. split_and!.
  - by rewrite <- !app_assoc.
  - done.
  - lia.
  - rewrite map_app, concat_app, Hperm. cbn. rewrite app_nil_r. fold W. rewrite <- !app_assoc. by apply Permutation_app_head, Permutation_app_swap_app.
  - apply Forall_app. split; [done|]. subst L'. apply Forall_map, Forall_true. done.
  - lia.
Qed.

(** No new descriptor begins at MAX_ADDRESS, where the unused records are put. *)
Lemma segment_descs_starts d segs : ∀ x,
  Forall (λ s, 0 <= seg_Size s ∧ (2 ^ EFI_PAGE_SHIFT | seg_Size s)) segs →
  Forall (λ d', x <= PhysicalStart d' <= x + total segs) (segment_descs d x segs).
Proof.
  induction segs as [|s segs IH]; intros x Hs; cbn [segment_descs total]; [done|].
  apply list.Forall_cons in Hs as [[Hs0 Hs1] Hs]. pose proof (total_nonneg segs _ 0 ltac:(lia) Hs).
  constructor; [cbn; lia|]. eapply list.Forall_impl; [by apply IH|]. cbn. lia.
Qed.

Lemma pieces_starts d rs : ∀ x,
  Forall (RecOk UINTN_WIDTH) rs → Forall (λ r, EndAddress r <= desc_end d) rs → x <= desc_end d →
  Forall (λ d', PhysicalStart d' <= desc_end d) (pieces d x rs).
Proof.
  induction rs as [|r rs IH]; intros x Hrs Hend Hx; cbn [pieces].
  - unfold gap_descs. case_match; repeat constructor. done.
  - apply list.Forall_cons in Hrs as [Hr Hrs]. apply list.Forall_cons in Hend as [He Hend]. pose proof (ro_nonempty _ _ Hr).
    repeat (apply Forall_app; split).
    + unfold gap_descs. case_match; repeat constructor. cbn. lia.
    + eapply list.Forall_impl; [apply segment_descs_starts, (ro_sizes _ _ Hr)|]. cbn.
      pose proof (ro_end _ _ Hr). unfold record_segments. lia.
    + by apply IH.
Qed.

Lemma split_below d : DescOk d → desc_end d < 2 ^ UINTN_WIDTH → Forall (λ d', PhysicalStart d' < MAX_ADDRESS) (split l d).
Proof.
  intros Hd He. pose proof (desc_start d Hd) as Hs.
  assert (desc_end d < MAX_ADDRESS) as Hm.
  { destruct (desc_end_aligned d Hd) as [k Hk]. unfold MAX_ADDRESS, EFI_PAGE_SHIFT in *. destruct platform_uintn as [Hw|Hw]; rewrite Hw in *; lia. }
  unfold split. destruct (inside _ _ l) as [|r rs] eqn:Hi; [repeat constructor; lia|]. rewrite <- Hi.
  eapply list.Forall_impl; [apply pieces_starts; [by apply inside_Forall| |lia]|cbn; lia].
  apply list.Forall_forall. intros r' [[_ ?] _]%list_elem_of_filter. done.
Qed.

Lemma ascending_cons x L : ascending (x :: L) → Forall (before x) L ∧ ascending L.
Proof.
  intros Ha. split.
  - apply list.Forall_forall. intros y [i Hi]%list_elem_of_lookup. by apply (Ha 0%nat (S i)); [lia|..].
  - intros p q d d' Hpq Hp Hq. by apply (Ha (S p) (S q)); [lia|..].
Qed.

Lemma ascending_app L L' : ascending (L ++ L') → ascending L.
Proof. intros Ha p q d d' Hpq Hp Hq. by apply (Ha p q); [done|apply lookup_app_l_Some..]. Qed.

Lemma filter_none {A} (P : A → Prop) `{!∀ x, Decision (P x)} (L : list A) : Forall (λ x, ~ P x) L → filter P L = [].
Proof. induction 1 as [|x L Hx HL IH]; [done|]. by rewrite filter_cons_False. Qed.

Lemma filter_all {A} (P : A → Prop) `{!∀ x, Decision (P x)} (L : list A) : Forall P L → filter P L = L.
Proof. induction 1 as [|x L Hx HL IH]; [done|]. by rewrite filter_cons_True, IH. Qed.

(** In a sorted map the low descriptors come first. *)
Lemma ascending_filter m L : ascending L →
  L = filter (λ d, PhysicalStart d < m) L ++ filter (λ d, ~ PhysicalStart d < m) L.
Proof.
  induction L as [|x L IH]; intros Ha; [done|]. apply ascending_cons in Ha as [Hx Ha]. rewrite !filter_cons.
  destruct (decide (PhysicalStart x < m)).
  - rewrite decide_False by tauto. cbn. f_equal. by apply IH.
  - rewrite decide_True by done. unfold before in Hx. rewrite filter_none, (filter_all _ L); [done|..];
      (eapply list.Forall_impl; [exact Hx|]); cbn; lia.
Qed.

Lemma ascending_prefix m L R S :
  ascending L → L ≡ₚ R ++ S → Forall (λ d, PhysicalStart d < m) R → Forall (λ d, PhysicalStart d = m) S →
  ∃ L' S', L = L' ++ S' ∧ L' ≡ₚ R ∧ length S' = length S ∧ ascending L'.
Proof.
  intros Ha Hp HR HS. eexists _, _. split; [apply (ascending_filter m), Ha|].
  assert (Forall (λ d, ~ PhysicalStart d < m) S) as HS' by (eapply list.Forall_impl; [exact HS|]; cbn; lia).
  assert (Forall (λ d, ~ ~ PhysicalStart d < m) R) as HR' by (eapply list.Forall_impl; [exact HR|]; cbn; lia).
  split_and!.
  - by rewrite Hp, list.filter_app, (filter_all _ R), filter_none, app_nil_r.
  - by rewrite Hp, list.filter_app, (filter_none _ R), filter_all.
  - eapply ascending_app. rewrite <- ascending_filter; done.
Qed.

Lemma SplitTable_spec D M0 F DescriptorSize E :
  Forall DescOk D → Forall (λ d, desc_end d < 2 ^ UINTN_WIDTH) D → 0 < DescriptorSize →
  Z.of_nat (length (D ++ M0)) * DescriptorSize < 2 ^ UINTN_WIDTH →
  table_extra D <= Z.of_nat (length M0) → table_extra D < 2 ^ 31 →
  wp (SplitTable l (Z.of_nat (length D) * DescriptorSize) DescriptorSize (Z.of_nat (length M0)))
    (λ size A, ∃ new rest, A = new ++ rest ++ F ∧ length (new ++ rest) = length (D ++ M0) ∧
       size = Z.of_nat (length new) * DescriptorSize ∧
       new ≡ₚ concat (map (split l) D) ∧ ascending new) E (D ++ M0 ++ F).
Proof.
  intros HD Hend Hs Hsize Hroom Hsmall. pose proof (table_extra_nonneg D) as Hnn. unfold SplitTable.
  rewrite Z.div_mul by lia. rewrite Nat2Z.id.
  replace (Z.of_nat (length D) - 1 + Z.of_nat (length M0)) with (Z.of_nat (length D + length M0) - 1) by lia.
  wp_step. eapply wp_mono; [exact (SplitEntries_spec D M0 F 0 E HD Hroom Hsmall ltac:(lia) ltac:(lia))| |done].
  intros [i m] A (M' & F' & S' & -> & -> & Hlen & Hperm & HS & ->).
  rewrite !length_app in *. replace (Z.of_nat (length M') - 1 + 1) with (Z.of_nat (length M')) by lia.
  replace (Z.of_nat (length D + length M0) - 1 - (Z.of_nat (length M') - 1)) with (Z.of_nat (length F')) by lia.
  wp_step. unfold MoveRecords. wp_step. wp_step. wp_step. wp_step; [rewrite !length_app, !andb_true_iff, !Z.leb_le; lia|]. wp_step.
  rewrite !Nat2Z.id, drop_app_length, take_app_length.
  wp_step. eapply wp_mono; [apply SortMemoryMap_spec| |done]. intros _ A (L & -> & HL & Hasc).
  destruct (ascending_prefix MAX_ADDRESS L (concat (map (split l) D)) S' Hasc) as (L' & T & -> & HL' & HT & Hasc'); [by rewrite HL|..|done|].
  { apply Forall_concat, Forall_map. apply list.Forall_forall. intros d Hd.
    apply split_below; [exact (proj1 (list.Forall_forall _ _) HD d Hd)|exact (proj1 (list.Forall_forall _ _) Hend d Hd)]. }
  apply Permutation_length in HL. rewrite length_app in HL.
  wp_step. exists L', (T ++ drop (length F') (M' ++ F')). rewrite !length_app, length_drop, length_app in *. split_and!.
  - rewrite (app_assoc M' F' F), (drop_app_le (M' ++ F')) by (rewrite length_app; lia). by rewrite <- !app_assoc.
  - lia.
  - replace (Z.of_nat (length F') - (0 + Z.of_nat (length S'))) with (Z.of_nat (length L')) by lia.
    unfold wrapn. apply wrap_small. split; [lia|]. eapply Z.le_lt_trans; [|exact Hsize]. apply Z.mul_le_mono_nonneg_r; lia.
  - done.
  - done.
Qed.
End Table.
