(* ===== verification/SplitCoverage.v ===== *)
(** What SplitTable (ImagePropertiesRecordLib.c) does to the memory a map describes: each address
    keeps its type, an address of an image gets the permissions of the segment it is in, and the
    room that the firmware core calculates for the new descriptors is enough. *)
From stdpp Require Import list.
From S2P Require Import Prelude Base Buffer Platform Overflow ImageRecord MemoryMap SplitTable.

#[global] Instance in_desc_dec d x : Decision (in_desc d x).
Proof. unfold in_desc. apply _. Defined.

(** The type and the attributes of the address [x], once for each descriptor it is in. *)
Definition view (A : list EFI_MEMORY_DESCRIPTOR) (x : Z) : list (Z * Z) :=
  map (λ d, (Type_ d, Attribute d)) (filter (λ d, in_desc d x) A).

(** No address is in two descriptors. *)
Definition disjoint (A : list EFI_MEMORY_DESCRIPTOR) : Prop := ∀ x, (length (view A x) <= 1)%nat.

Fixpoint image_at (rs : list UEFI_IMAGE_RECORD) (x : Z) : option UEFI_IMAGE_RECORD :=
  match rs with
  | [] => None
  | r :: rs' => if (StartAddress r <=? x) && (x <? EndAddress r) then Some r else image_at rs' x
  end.

(** The attributes [x] ought to have: those of its segment in an image, those of the descriptor
    elsewhere.  The attributes that are no permissions are always those of the descriptor. *)
Definition attribute_with (d : EFI_MEMORY_DESCRIPTOR) (rs : list UEFI_IMAGE_RECORD) (x : Z) : Z :=
  match image_at rs x with
  | Some r => image_attribute (Attribute d) (default 0 (attribute_at (record_segments r) (x - StartAddress r)))
  | None => Attribute d
  end.

Definition memory_attribute (l : list UEFI_IMAGE_RECORD) (d : EFI_MEMORY_DESCRIPTOR) (x : Z) : Z :=
  attribute_with d (inside (PhysicalStart d) (desc_end d) l) x.

(** The map with the permissions of the images. *)
Definition separated (l : list UEFI_IMAGE_RECORD) (A : list EFI_MEMORY_DESCRIPTOR) (x : Z) : list (Z * Z) :=
  map (λ d, (Type_ d, memory_attribute l d x)) (filter (λ d, in_desc d x) A).

Lemma view_app A B x : view (A ++ B) x = view A x ++ view B x.
Proof. unfold view. by rewrite list.filter_app, map_app. Qed.

Lemma view_cons d A x : view (d :: A) x = (if decide (in_desc d x) then [(Type_ d, Attribute d)] else []) ++ view A x.
Proof. unfold view. rewrite filter_cons. by case_decide. Qed.

Lemma view_head d A x : view (d :: A) x = view [d] x ++ view A x.
Proof. apply (view_app [d]). Qed.

#[global] Instance view_proper : Proper ((≡ₚ) ==> eq ==> (≡ₚ)) view.
Proof. intros A B HAB x ? <-. unfold view. by apply Permutation_map, filter_Permutation. Qed.

(** *** The descriptors of the images *)

Section Views.
Context `{!Platform, !PlatformOk}.
Implicit Types (d : EFI_MEMORY_DESCRIPTOR) (r : UEFI_IMAGE_RECORD) (rs : list UEFI_IMAGE_RECORD).

Lemma new_record_end T x n a : (2 ^ EFI_PAGE_SHIFT | n) → desc_end (new_record T x (n / 2 ^ EFI_PAGE_SHIFT) a) = x + n.
Proof. intros [k ->]. unfold desc_end, EFI_PAGE_SHIFT. cbn [PhysicalStart NumberOfPages new_record]. by rewrite Z.div_mul. Qed.

Lemma view_new_record T x n a y :
  (2 ^ EFI_PAGE_SHIFT | n) →
  view [new_record T x (n / 2 ^ EFI_PAGE_SHIFT) a] y = if (x <=? y) && (y <? x + n) then [(T, a)] else [].
Proof.
  intros Hn. rewrite view_cons. case_decide as Hx; unfold in_desc in Hx; rewrite (new_record_end T x n a Hn) in Hx;
    cbn [PhysicalStart Type_ Attribute new_record] in *; destruct (Z.leb_spec x y), (Z.ltb_spec y (x + n)); try done; lia.
Qed.

Lemma view_gap d x y z :
  (2 ^ EFI_PAGE_SHIFT | x) → (2 ^ EFI_PAGE_SHIFT | y) →
  view (gap_descs d x y) z = if (x <=? z) && (z <? y) then [(Type_ d, Attribute d)] else [].
Proof.
  intros Hx Hy. unfold gap_descs. destruct (Z.ltb_spec x y) as [Hxy|Hxy].
  - rewrite view_new_record by (by apply Z.divide_sub_r). by replace (x + (y - x)) with y by lia.
  - destruct (Z.leb_spec x z), (Z.ltb_spec z y); try done; lia.
Qed.

Lemma view_segments d segs : ∀ x y,
  Forall (λ s, 0 <= seg_Size s ∧ (2 ^ EFI_PAGE_SHIFT | seg_Size s)) segs →
  view (segment_descs d x segs) y =
    if (x <=? y) && (y <? x + total segs)
    then [(Type_ d, image_attribute (Attribute d) (default 0 (attribute_at segs (y - x))))] else [].
Proof.
  induction segs as [|s segs IH]; intros x y Hs; cbn [segment_descs total attribute_at].
  { destruct (Z.leb_spec x y), (Z.ltb_spec y (x + 0)); try done; lia. }
  apply list.Forall_cons in Hs as [[Hs0 Hs1] Hs]. pose proof (total_nonneg segs _ 0 ltac:(lia) Hs).
  rewrite view_head, view_new_record, IH by done. replace (y - (x + seg_Size s)) with (y - x - seg_Size s) by lia.
  destruct (Z.leb_spec x y), (Z.ltb_spec y (x + seg_Size s)), (Z.ltb_spec y (x + (seg_Size s + total segs))),
    (Z.leb_spec (x + seg_Size s) y), (Z.ltb_spec y (x + seg_Size s + total segs)), (Z.ltb_spec (y - x) (seg_Size s)); try done; lia.
Qed.

Lemma image_at_none rs x : Forall (λ r, x < StartAddress r) rs → image_at rs x = None.
Proof. induction 1 as [|r rs Hr Hrs IH]; cbn; [done|]. destruct (Z.leb_spec (StartAddress r) x); [lia|done]. Qed.

Context (l : list UEFI_IMAGE_RECORD) (Hl : ImagesOk UINTN_WIDTH l).

Lemma view_pieces d x rs : ∀ a,
  DescOk d → inside a (desc_end d) l = rs → (2 ^ EFI_PAGE_SHIFT | a) → a <= desc_end d →
  view (pieces d a rs) x = if (a <=? x) && (x <? desc_end d) then [(Type_ d, attribute_with d rs x)] else [].
Proof.
  intros a Hd. revert a. induction rs as [|r rs IH]; intros a Hi Ha Hae; cbn [pieces].
  { rewrite view_gap; [done|done|by apply desc_end_aligned]. }
  destruct (inside_RecOk l Hl _ _ _ _ Hi) as (Hr & Hrs & Hre). pose proof (inside_next l Hl _ _ _ _ Hi) as Hnext.
  pose proof (ro_nonempty _ _ Hr) as Hne. pose proof (record_end_aligned r Hr) as Hra. pose proof (ro_aligned _ _ Hr) as Hrb.
  rewrite !view_app, IH, view_segments, view_gap by (done || apply (ro_sizes _ _ Hr)).
  unfold record_segments at 1. rewrite <- (ro_end _ _ Hr). unfold attribute_with. cbn [image_at].
  destruct (Z.ltb_spec x (EndAddress r)) as [Hx|Hx].
  - rewrite (image_at_none rs).
    + destruct (Z.leb_spec a x), (Z.leb_spec (StartAddress r) x), (Z.ltb_spec x (StartAddress r)),
        (Z.ltb_spec x (desc_end d)), (Z.leb_spec (EndAddress r) x); try done; lia.
    + rewrite <- Hnext. apply list.Forall_forall. intros r' [[? _] _]%list_elem_of_filter. lia.
  - destruct (Z.leb_spec a x), (Z.leb_spec (StartAddress r) x), (Z.ltb_spec x (StartAddress r)),
      (Z.ltb_spec x (desc_end d)), (Z.leb_spec (EndAddress r) x); try done; lia.
Qed.

Lemma view_split d x : DescOk d → view (split l d) x = separated l [d] x.
Proof.
  intros Hd. unfold split, separated, memory_attribute. rewrite filter_cons. destruct (inside _ _ l) as [|r rs] eqn:Hi.
  - rewrite view_cons. case_decide; [|done]. cbn [map filter list_filter app]. by rewrite Hi.
  - rewrite <- Hi, view_pieces; [|done|done|apply (do_aligned _ Hd)|apply desc_start, Hd].
    case_decide as Hx; unfold in_desc in Hx; destruct (Z.leb_spec (PhysicalStart d) x), (Z.ltb_spec x (desc_end d)); try done; lia.
Qed.

Lemma segment_descs_ok d segs : ∀ x,
  0 <= x → (2 ^ EFI_PAGE_SHIFT | x) → x + total segs < 2 ^ 64 →
  Forall (λ s, 0 <= seg_Size s ∧ (2 ^ EFI_PAGE_SHIFT | seg_Size s)) segs → Forall DescOk (segment_descs d x segs).
Proof.
  induction segs as [|s segs IH]; intros x Hx Ha Ht Hs; cbn [segment_descs total] in *; [done|].
  apply list.Forall_cons in Hs as [[Hs0 Hs1] Hs]. pose proof (total_nonneg segs _ 0 ltac:(lia) Hs). constructor.
  - constructor; rewrite ?new_record_end by done; cbn; try done; [|lia]. apply Z.div_pos; [done|]. unfold EFI_PAGE_SHIFT. lia.
  - apply IH; [lia|by apply Z.divide_add_r|lia|done].
Qed.

Lemma gap_descs_ok d x y :
  0 <= x → (2 ^ EFI_PAGE_SHIFT | x) → (2 ^ EFI_PAGE_SHIFT | y) → y < 2 ^ 64 → Forall DescOk (gap_descs d x y).
Proof.
  intros. unfold gap_descs. destruct (Z.ltb_spec x y); [|done]. constructor; [|done].
  constructor; rewrite ?new_record_end by (by apply Z.divide_sub_r); cbn; try done; [|lia].
  apply Z.div_pos; unfold EFI_PAGE_SHIFT; lia.
Qed.

Lemma pieces_ok d rs : ∀ a,
  DescOk d → Forall (RecOk UINTN_WIDTH) rs → 0 <= a → (2 ^ EFI_PAGE_SHIFT | a) → Forall DescOk (pieces d a rs).
Proof.
  intros a Hd Hrs. revert a. induction Hrs as [|r rs Hr Hrs IH]; intros a Ha0 Ha; cbn [pieces].
  { apply gap_descs_ok; [done|done|by apply desc_end_aligned|apply (do_end _ Hd)]. }
  pose proof (ro_start _ _ Hr). pose proof (ro_nonempty _ _ Hr). pose proof (ro_aligned _ _ Hr).
  assert (EndAddress r < 2 ^ 64) as He by (apply uintn_u64; pose proof (ro_width _ _ Hr); lia).
  repeat (apply Forall_app; split).
  - apply gap_descs_ok; done || lia.
  - apply segment_descs_ok; [done|done| |apply (ro_sizes _ _ Hr)]. unfold record_segments. rewrite <- (ro_end _ _ Hr). done.
  - apply IH; [lia|by apply record_end_aligned].
Qed.

Lemma split_ok d : DescOk d → Forall DescOk (split l d).
Proof.
  intros Hd. unfold split. destruct (inside _ _ l) as [|r rs] eqn:Hi; [by constructor|]. rewrite <- Hi.
  apply pieces_ok; [done|by apply inside_Forall|apply (do_start _ Hd)|apply (do_aligned _ Hd)].
Qed.

Lemma table_ok D : Forall DescOk D → Forall DescOk (concat (map (split l) D)).
Proof. intros HD. apply Forall_concat, Forall_map. eapply list.Forall_impl; [exact HD|]. apply split_ok. Qed.

Lemma separated_cons d D x : separated l (d :: D) x = separated l [d] x ++ separated l D x.
Proof. unfold separated. rewrite !filter_cons. by case_decide. Qed.

Lemma view_table D x : Forall DescOk D → view (concat (map (split l) D)) x = separated l D x.
Proof.
  induction 1 as [|d D Hd HD IH]; [done|]. cbn [map concat].
  by rewrite view_app, view_split, IH, (separated_cons d D).
Qed.
End Views.

(** *** The room for the new descriptors *)

Section Room.
Context `{!Platform, !PlatformOk}.

Lemma table_extra_cons r l D :
  table_extra (r :: l) D =
    (NumSegments r + 1) * Z.of_nat (length (filter (λ d, PhysicalStart d <= StartAddress r ∧ EndAddress r <= desc_end d) D)) + table_extra l D.
Proof.
  induction D as [|d D IH]; [cbn; lia|]. unfold table_extra in *. cbn [foldr]. rewrite IH, filter_cons.
  unfold split_extra, inside. rewrite filter_cons. repeat case_decide; try tauto; cbn [extra foldr length]; unfold extra; lia.
Qed.

Lemma filter_length_le {A} (P Q : A → Prop) `{!∀ x, Decision (P x), !∀ x, Decision (Q x)} (L : list A) :
  (∀ x, P x → Q x) → (length (filter P L) <= length (filter Q L))%nat.
Proof. intros HPQ. induction L as [|x L IH]; [done|]. rewrite !filter_cons. repeat case_decide; cbn; naive_solver lia. Qed.

(** An image is in one descriptor at most. *)
Lemma table_extra_disjoint l D : Forall (RecOk UINTN_WIDTH) l → disjoint D → table_extra l D <= extra l.
Proof.
  intros Hl HD. induction Hl as [|r l Hr Hl IH].
  - induction D as [|d D IHD]; [done|]. cbn. assert (disjoint D) as HD'; [|specialize (IHD HD'); unfold table_extra in IHD; cbn in IHD; lia].
    intros x. specialize (HD x). rewrite view_cons, length_app in HD. lia.
  - rewrite table_extra_cons. change (extra (r :: l)) with (NumSegments r + 1 + extra l).
    specialize (HD (StartAddress r)). unfold view in HD. rewrite length_map in HD.
    pose proof (filter_length_le (λ d, PhysicalStart d <= StartAddress r ∧ EndAddress r <= desc_end d) (λ d, in_desc d (StartAddress r)) D) as Hle.
    pose proof (ro_nonempty _ _ Hr). specialize (Hle ltac:(unfold in_desc; intros; lia)).
    pose proof (ro_count _ _ Hr). nia.
Qed.

Lemma extra_bound l m : Forall (λ r, NumSegments r <= m) l → extra l <= (m + 1) * Z.of_nat (length l).
Proof. induction 1 as [|r l Hr Hl IH]; [cbn; lia|]. change (extra (r :: l)) with (NumSegments r + 1 + extra l). cbn [length]. lia. Qed.
End Room.

(** ** Properties *)

Section Run.
Context `{!Platform, !PlatformOk}.

(** The memory map [D] in a buffer with [M0] spare entries, split at the images [l]. *)
Lemma SplitTable_view l D M0 F DescriptorSize E :
  ImagesOk UINTN_WIDTH l → Forall DescOk D → Forall (λ d, desc_end d < 2 ^ UINTN_WIDTH) D → disjoint D →
  0 < DescriptorSize → Z.of_nat (length (D ++ M0)) * DescriptorSize < 2 ^ UINTN_WIDTH →
  extra l <= Z.of_nat (length M0) → extra l < 2 ^ 31 →
  wp (SplitTable l (Z.of_nat (length D) * DescriptorSize) DescriptorSize (Z.of_nat (length M0)))
    (λ size A, ∃ new rest, A = new ++ rest ++ F ∧ length (new ++ rest) = length (D ++ M0) ∧
       size = Z.of_nat (length new) * DescriptorSize ∧ ascending new ∧ Forall DescOk new ∧
       ∀ x, view new x ≡ₚ separated l D x) E (D ++ M0 ++ F).
Proof.
  intros Hl HD Hend Hdis Hs Hsize Hroom Hsmall. pose proof (table_extra_disjoint l D (im_records _ _ Hl) Hdis).
  eapply wp_mono; [apply SplitTable_spec; done || lia| |done].
  intros size A (new & rest & -> & Hlen & -> & Hperm & Hasc). exists new, rest. split_and!; try done.
  - rewrite Hperm. by apply table_ok.
  - intros x. rewrite Hperm. by rewrite view_table.
Qed.
End Run.

(** Splitting a memory map at the segments of the loaded images: the map stays in the [M0] spare
    entries, what is behind them is left alone and no ASSERT fails, it is sorted by address, and it says about each address what the old one
    said, except that the addresses of an image that lies in a descriptor have the permissions of
    the segment they are in.  The records have to be sorted and disjoint, the descriptors too
    have to be disjoint and below MAX_ADDRESS, and the buffer has to have an entry for each
    segment and one more for each image. *)
Theorem split_table_exact `{!Platform, !PlatformOk} (l : list UEFI_IMAGE_RECORD)
    (D M0 F : list EFI_MEMORY_DESCRIPTOR) (DescriptorSize : Z) :
  ImagesOk UINTN_WIDTH l → Forall DescOk D → Forall (λ d, desc_end d < 2 ^ UINTN_WIDTH) D → disjoint D →
  0 < DescriptorSize → Z.of_nat (length (D ++ M0)) * DescriptorSize < 2 ^ UINTN_WIDTH →
  extra l <= Z.of_nat (length M0) → extra l < 2 ^ 31 →
  match SplitTable l (Z.of_nat (length D) * DescriptorSize) DescriptorSize (Z.of_nat (length M0)) (D ++ M0 ++ F) with
  | Ok MemoryMapSize A => ∃ new rest, A = new ++ rest ++ F ∧ length (new ++ rest) = length (D ++ M0) ∧
      MemoryMapSize = Z.of_nat (length new) * DescriptorSize ∧ ascending new ∧
      ∀ x, view new x ≡ₚ separated l D x
  | _ => False
  end.
Proof.
  intros Hl HD Hend Hdis Hs Hsize Hroom Hsmall.
  pose proof (wp_cases _ _ _ _ (SplitTable_view l D M0 F DescriptorSize (λ _ _, False) Hl HD Hend Hdis Hs Hsize Hroom Hsmall)) as Hr.
  destruct (SplitTable l _ _ _ _) as [size A| |]; try done.
  destruct Hr as (new & rest & ? & ? & ? & ? & _ & ?). by exists new, rest.
Qed.

(** ** Examples *)

(** An image of three segments at 0x3000, code and read-only data and data, and two descriptors. *)
Definition sample_image : UEFI_IMAGE_RECORD := {|
  Signature := UEFI_IMAGE_RECORD_SIGNATURE;
  NumSegments := 3;
  StartAddress := 0x3000;
  EndAddress := 0x7000;
  Segments := [segment 0x1000 read_only; segment 0x2000 EFI_MEMORY_RO; segment 0x1000 EFI_MEMORY_XP];
|}.

Definition sample_map : list EFI_MEMORY_DESCRIPTOR :=
  [new_record 5 0x2000 6 0x8000000000000008; new_record 7 0x10000 2 8].

Definition blank : EFI_MEMORY_DESCRIPTOR := new_record 0 0 0 0.

Lemma sample_images_ok : ImagesOk 64 [sample_image].
Proof.
  constructor; [|by repeat constructor]. constructor; [|constructor]. constructor; try (by vm_compute).
  - repeat constructor; try (by vm_compute); cbn; by apply Z.mod_divide.
  - by apply Z.mod_divide.
Qed.

Lemma sample_map_ok : Forall DescOk sample_map.
Proof. repeat constructor; try (by vm_compute); by apply Z.mod_divide. Qed.

Lemma sample_map_disjoint : disjoint sample_map.
Proof.
  intros x. unfold sample_map. rewrite !view_cons. repeat case_decide; cbn; try lia.
  unfold in_desc, desc_end, EFI_PAGE_SHIFT in *. cbn in *. lia.
Qed.

Lemma split_table_exact_witness :
  ∃ rest, @SplitTable platform_x64 [sample_image] 96 48 4 (sample_map ++ replicate 4 blank ++ [blank]) =
    Ok 288 ([new_record 5 0x2000 1 0x8000000000000008;
             new_record 5 0x3000 1 (Z.lor 0x8000000000000008 read_only);
             new_record 5 0x4000 2 (Z.lor 0x8000000000000008 EFI_MEMORY_RO);
             new_record 5 0x6000 1 (Z.lor 0x8000000000000008 EFI_MEMORY_XP);
             new_record 5 0x7000 1 0x8000000000000008;
             new_record 7 0x10000 2 8] ++ rest) ∧
  match @SplitTable platform_x64 [sample_image] 96 48 4 (sample_map ++ replicate 4 blank ++ [blank]) with
  | Ok MemoryMapSize A => ∃ new rest, A = new ++ rest ++ [blank] ∧ length (new ++ rest) = 6%nat ∧
      MemoryMapSize = Z.of_nat (length new) * 48 ∧ ascending new ∧
      ∀ x, view new x ≡ₚ separated [sample_image] sample_map x
  | _ => False
  end.
Proof.
  eexists. split; [vm_compute; reflexivity|].
  assert (Forall (λ d, desc_end d < 2 ^ 64) sample_map) as Hend by (by repeat constructor).
  pose proof (@split_table_exact platform_x64 platform_x64_ok [sample_image] sample_map (replicate 4 blank) [blank] 48
    sample_images_ok sample_map_ok Hend sample_map_disjoint eq_refl eq_refl ltac:(by vm_compute) eq_refl) as Hr.
  change (Z.of_nat (length sample_map) * 48) with 96 in Hr. change (Z.of_nat (length (replicate 4 blank))) with 4 in Hr.
  change (length (sample_map ++ replicate 4 blank)) with 6%nat in Hr. exact Hr.
Defined.

(** A 32-bit platform. *)
Definition platform_ia32 : Platform := {|
  DebugAssertEnabled := true;
  PcdImageLoaderAlignmentPolicy := @PcdImageLoaderAlignmentPolicy platform_x64;
  PcdImageLoaderWXorX := @PcdImageLoaderWXorX platform_x64;
  PcdImageLoaderRemoveXForWX := @PcdImageLoaderRemoveXForWX platform_x64;
  PcdImageLoaderAllowMisalignedOffset := @PcdImageLoaderAllowMisalignedOffset platform_x64;
  PcdImageProtectionPolicy := @PcdImageProtectionPolicy platform_x64;
  PcdImageLoaderLoadHeader := @PcdImageLoaderLoadHeader platform_x64;
  PcdImageLoaderHashProhibitOverlap := @PcdImageLoaderHashProhibitOverlap platform_x64;
  PcdImageLoaderRelocTypePolicy := @PcdImageLoaderRelocTypePolicy platform_x64;
  PcdImageLoaderRtRelocAllowTargetMismatch := @PcdImageLoaderRtRelocAllowTargetMismatch platform_x64;
  PcdImageLoaderDebugSupport := @PcdImageLoaderDebugSupport platform_x64;
  DEFAULT_PAGE_ALLOCATION_GRANULARITY := 0x1000;
  RUNTIME_PAGE_ALLOCATION_GRANULARITY := 0x1000;
  ALIGNOF_UINT64 := 4;
  UINTN_WIDTH := 32;
|}.

(** There MAX_ADDRESS, to which the unused records are moved, is below the memory behind 4 GiB: the
    descriptor of that memory is sorted behind the unused records, and cut off instead of them. *)
Lemma split_table_above_4g :
  let high := new_record 7 0x140000000 16 8 in
  ∃ A, @SplitTable platform_ia32 [sample_image] 96 48 4 ([new_record 5 0x3000 4 8; high] ++ replicate 4 blank) = Ok 192 A ∧
       high ∉ take 4 A ∧ view (take 4 A) 0x140000000 = [] ∧ separated [sample_image] [high] 0x140000000 = [(7, 8)].
Proof.
  eexists. split; [vm_compute; reflexivity|]. split_and!; try (by vm_compute).
  rewrite list_elem_of_In. vm_compute. intros H. repeat destruct H as [H|H]; done.
Qed.
