(* ===== verification/MemoryMerge.v ===== *)
(** MemoryAttributesTable.c: EnforceMemoryMapAttribute and MergeMemoryMap, which CoreGetMemoryMap
    (Page.c) uses too; and MergeGuardPages of HeapGuard.c. *)
From stdpp Require Import list.
From S2P Require Import Prelude Base Buffer Platform Overflow ImageRecord MemoryMap SplitTable SplitCoverage.

Definition EfiReservedMemoryType : Z := 0.
Definition EfiRuntimeServicesCode : Z := 5.
Definition EfiRuntimeServicesData : Z := 6.
Definition EfiConventionalMemory : Z := 7.
Definition EfiACPIMemoryNVS : Z := 10.
Definition EfiMemoryMappedIO : Z := 11.
Definition EfiMemoryMappedIOPortSpace : Z := 12.
Definition EfiPersistentMemory : Z := 14.
Definition EfiUnacceptedMemoryType : Z := 15.
Definition EfiMaxMemoryType : Z := 16.

Section Code.
Context `{!Platform}.

(** The body of a loop over all entries. *)
Definition update_desc (f : EFI_MEMORY_DESCRIPTOR → EFI_MEMORY_DESCRIPTOR) (i : Z) (_ : unit) : MapM unit :=
  d ← get_desc i;
  put_desc i (f d).

(** The switch of EnforceMemoryMapAttribute. *)
Definition enforce (d : EFI_MEMORY_DESCRIPTOR) : EFI_MEMORY_DESCRIPTOR :=
  if (Type_ d =? EfiRuntimeServicesData) || (Type_ d =? EfiMemoryMappedIO) || (Type_ d =? EfiMemoryMappedIOPortSpace)
  then set_Attribute (Z.lor (Attribute d) EFI_MEMORY_XP) d
  else d.

(** [n] entries *)
Definition EnforceMemoryMapAttribute (n : Z) : MapM unit := for_loop (Z.to_nat n) 0 (update_desc enforce) tt.

(** ** The freed memory guard

    [None] when GUARD_HEAP_TYPE_FREED is disabled; otherwise the bits that GetGuardedMemoryBits
    returns for the 64 pages from an address on. *)
Context (FreedGuard : option (Z → Z)).

(** The loop of MergeGuardPages while Pages > 0, with [Pages] for fuel. *)
Fixpoint MergeGuardLoop (bits : Z → Z) (Pages : nat) (d : EFI_MEMORY_DESCRIPTOR) (Bitmap : Z) : EFI_MEMORY_DESCRIPTOR :=
  match Pages with
  | O => d
  | S Pages =>
      let Bitmap :=
        if Bitmap =? 0 then bits (wrap 64 (PhysicalStart d + wrapn (Z.shiftl (wrapn (NumberOfPages d)) EFI_PAGE_SHIFT)))
        else Bitmap in
      if Z.land Bitmap 1 =? 0 then d
      else MergeGuardLoop bits Pages (set_NumberOfPages (wrap 64 (NumberOfPages d + 1)) d) (RShiftU64 Bitmap 1)
  end.

Definition EFI_SIZE_TO_PAGES (Size : Z) : Z :=
  wrapn (Z.shiftr Size EFI_PAGE_SHIFT + (if Z.land Size EFI_PAGE_MASK =? 0 then 0 else 1)).

Definition MergeGuardPages (d : EFI_MEMORY_DESCRIPTOR) (MaxAddress : Z) : EFI_MEMORY_DESCRIPTOR :=
  match FreedGuard with
  | None => d
  | Some bits =>
      if EfiMemoryMappedIO <=? Type_ d then d
      else
        let Pages := swrap UINTN_WIDTH (EFI_SIZE_TO_PAGES (wrapn (MaxAddress - PhysicalStart d))) in
        let Pages := swrap UINTN_WIDTH (Pages - swrap UINTN_WIDTH (NumberOfPages d)) in
        MergeGuardLoop bits (Z.to_nat Pages) d 0
  end.

(** ** MergeMemoryMap *)

(** The inner loop; NewMemoryMapEntry is the entry [k], NextMemoryMapEntry the entry [j], MemoryMapEnd the
    entry [n].  Returns [j]; PhysicalStart of the entry [n] is looked at, too. *)
Fixpoint MergeNext (fuel : nat) (n k j : Z) : MapM Z :=
  match fuel with
  | O => crash OutOfFuel
  | S fuel =>
      Next ← get_desc j;
      New ← get_desc k;
      let New := MergeGuardPages New (PhysicalStart Next) in
      put_desc k New;;
      let MemoryBlockLength := LShiftU64 (NumberOfPages New) EFI_PAGE_SHIFT in
      if (j <? n) && (Type_ New =? Type_ Next) && (Attribute New =? Attribute Next) &&
         (wrap 64 (PhysicalStart New + MemoryBlockLength) =? PhysicalStart Next)
      then
        put_desc k (set_NumberOfPages (wrap 64 (NumberOfPages New + NumberOfPages Next)) New);;
        MergeNext fuel n k (j + 1)
      else mret j
  end.

(** The outer loop; MemoryMapEntry is the entry [i]. *)
Fixpoint MergeLoop (fuel : nat) (n i k : Z) : MapM Z :=
  match fuel with
  | O => crash OutOfFuel
  | S fuel =>
      if i <? n then
        d ← get_desc i;
        put_desc k d;;
        j ← MergeNext (S (Z.to_nat n)) n k (i + 1);
        MergeLoop fuel n j (k + 1)
      else mret k
  end.

(** [n] entries; returns the number of entries that are left. *)
Definition MergeMemoryMap (n : Z) : MapM Z := MergeLoop (S (Z.to_nat n)) n 0 0.
End Code.

(** ** What they do *)

(** What EnforceMemoryMapAttribute does to a type and its attributes. *)
Definition enforced (p : Z * Z) : Z * Z :=
  let '(t, a) := p in
  (t, if (t =? EfiRuntimeServicesData) || (t =? EfiMemoryMappedIO) || (t =? EfiMemoryMappedIOPortSpace)
      then Z.lor a EFI_MEMORY_XP else a).

(** The descriptors [D] are each in one descriptor of [D']. *)
Definition contains (d' d : EFI_MEMORY_DESCRIPTOR) : Prop := PhysicalStart d' <= PhysicalStart d ∧ desc_end d <= desc_end d'.
Definition covered (D D' : list EFI_MEMORY_DESCRIPTOR) : Prop := ∀ d, d ∈ D → ∃ d', d' ∈ D' ∧ contains d' d.

#[global] Instance covered_preorder : PreOrder covered.
Proof.
  split.
  - intros D d Hd. exists d. by split.
  - intros D1 D2 D3 H1 H2 d Hd. destruct (H1 d Hd) as (d2 & Hd2 & ? & ?). destruct (H2 d2 Hd2) as (d3 & Hd3 & ? & ?).
    exists d3. split; [done|]. unfold contains. lia.
Qed.

Lemma covered_app D1 D1' D2 D2' : covered D1 D1' → covered D2 D2' → covered (D1 ++ D2) (D1' ++ D2').
Proof.
  intros H1 H2 d [Hd|Hd]%elem_of_app; [destruct (H1 d Hd) as (d' & ? & ?)|destruct (H2 d Hd) as (d' & ? & ?)];
    exists d'; rewrite elem_of_app; auto.
Qed.

Lemma covered_perm D D' : D ≡ₚ D' → covered D D'.
Proof. intros Hp d Hd. exists d. rewrite <- Hp. by split. Qed.

Lemma covered_one D d' : Forall (contains d') D → covered D [d'].
Proof. intros HD d Hd. exists d'. split; [left|]. exact (proj1 (list.Forall_forall _ _) HD d Hd). Qed.

Lemma covered_map f D :
  (∀ d, PhysicalStart (f d) = PhysicalStart d ∧ NumberOfPages (f d) = NumberOfPages d) → covered D (map f D).
Proof.
  intros Hf d Hd. exists (f d). split; [by apply list_elem_of_fmap_2|]. destruct (Hf d) as [H1 H2].
  unfold contains, desc_end. rewrite H1, H2. lia.
Qed.

Section Spec.
Context `{!Platform}.

Lemma update_all f D rest E :
  wp (for_loop (length D) 0 (update_desc f) tt) (λ _ A, A = map f D ++ rest) E (D ++ rest).
Proof.
  assert (∀ P, wp (for_loop (length D) (Z.of_nat (length P)) (update_desc f) tt)
    (λ _ A, A = P ++ map f D ++ rest) E (P ++ D ++ rest)) as Hgen; [|by apply (Hgen [])].
  induction D as [|d D IH]; intros P; cbn [for_loop length map app]; [by wp_step|].
  wp_step. unfold update_desc at 1. wp_step. apply (wp_get_desc _ d); [lia|rewrite Nat2Z.id; by apply list_lookup_middle|].
  apply wp_put_app; [done|]. rewrite (cons_middle (f d) P (D ++ rest)), (app_assoc P [f d]).
  replace (Z.of_nat (length P) + 1) with (Z.of_nat (length (P ++ [f d]))) by (rewrite length_app; cbn; lia).
  eapply wp_mono; [apply IH| |done]. intros _ A ->. by rewrite <- app_assoc.
Qed.

(** A change of the attributes alone changes what the map says in that way. *)
Lemma view_map f g D x :
  (∀ d, PhysicalStart (f d) = PhysicalStart d ∧ NumberOfPages (f d) = NumberOfPages d ∧
        (Type_ (f d), Attribute (f d)) = g (Type_ d, Attribute d)) →
  view (map f D) x = map g (view D x).
Proof.
  intros Hf. induction D as [|d D IH]; [done|]. cbn [map]. rewrite !view_cons, map_app, IH.
  destruct (Hf d) as (H1 & H2 & H3). rewrite H3. unfold in_desc, desc_end.
  repeat case_decide; try done; unfold in_desc, desc_end in *; rewrite H1, H2 in *; done.
Qed.

Lemma map_DescOk f D :
  (∀ d, PhysicalStart (f d) = PhysicalStart d ∧ NumberOfPages (f d) = NumberOfPages d) → Forall DescOk D → Forall DescOk (map f D).
Proof.
  intros Hf HD. apply Forall_map. eapply list.Forall_impl; [exact HD|]. intros d []. destruct (Hf d) as [H1 H2].
  constructor; unfold desc_end in *; rewrite ?H1, ?H2; done.
Qed.

Lemma enforce_fields d :
  PhysicalStart (enforce d) = PhysicalStart d ∧ NumberOfPages (enforce d) = NumberOfPages d ∧
  (Type_ (enforce d), Attribute (enforce d)) = enforced (Type_ d, Attribute d).
Proof. unfold enforce, enforced. by case_match. Qed.

Lemma EnforceMemoryMapAttribute_spec D rest E :
  wp (EnforceMemoryMapAttribute (Z.of_nat (length D))) (λ _ A, A = map enforce D ++ rest) E (D ++ rest).
Proof. unfold EnforceMemoryMapAttribute. rewrite Nat2Z.id. apply update_all. Qed.

(** Two descriptors in a row are as good as one. *)
Lemma view_merge d d' x :
  Type_ d = Type_ d' → Attribute d = Attribute d' → desc_end d = PhysicalStart d' →
  0 <= NumberOfPages d → 0 <= NumberOfPages d' →
  view [set_NumberOfPages (NumberOfPages d + NumberOfPages d') d] x = view [d; d'] x.
Proof.
  intros HT HA He Hp Hp'. rewrite !view_cons. cbn [Type_ Attribute set_NumberOfPages]. rewrite HT, HA.
  repeat case_decide; try done; exfalso; unfold in_desc, desc_end, EFI_PAGE_SHIFT in *;
    cbn [PhysicalStart NumberOfPages set_NumberOfPages] in *; lia.
Qed.

Lemma merge_DescOk d d' :
  DescOk d → DescOk d' → desc_end d = PhysicalStart d' → DescOk (set_NumberOfPages (NumberOfPages d + NumberOfPages d') d).
Proof.
  intros [] [] He. unfold desc_end in *. constructor; unfold desc_end; cbn [PhysicalStart NumberOfPages set_NumberOfPages]; lia || done.
Qed.

Lemma merge_contains d d' :
  DescOk d → DescOk d' → desc_end d = PhysicalStart d' →
  contains (set_NumberOfPages (NumberOfPages d + NumberOfPages d') d) d ∧ contains (set_NumberOfPages (NumberOfPages d + NumberOfPages d') d) d'.
Proof. intros [] [] He. unfold contains, desc_end, EFI_PAGE_SHIFT in *. cbn [PhysicalStart NumberOfPages set_NumberOfPages]. lia. Qed.

Lemma MergeNext_spec P J T : T ≠ [] → ∀ R R0 m fuel E,
  DescOk m → Forall DescOk R → (length R < fuel)%nat →
  wp (MergeNext None fuel (Z.of_nat (length P + S (length J) + length R0 + length R)) (Z.of_nat (length P))
        (Z.of_nat (length P + S (length J) + length R0)))
    (λ j A, ∃ R1 R2 m', R = R1 ++ R2 ∧ j = Z.of_nat (length P + S (length J) + length (R0 ++ R1)) ∧
       A = P ++ m' :: J ++ (R0 ++ R1) ++ R2 ++ T ∧ DescOk m' ∧ PhysicalStart m' = PhysicalStart m ∧
       (∀ y, Forall (λ d, desc_end d < y) (m :: R1) → desc_end m' < y) ∧ covered (m :: R1) [m'] ∧
       ∀ x, view [m'] x = view (m :: R1) x) E (P ++ m :: J ++ R0 ++ R ++ T).
Proof.
  intros HT R. induction R as [|r R IH]; intros R0 m [|fuel] E Hm HR Hf; cbn [length] in Hf; try lia; cbn [MergeNext].
  - destruct T as [|t T]; [done|]. wp_step. apply (wp_get_desc _ t); [lia| |].
    { rewrite Nat2Z.id, (cons_middle m P), !app_assoc. apply list_lookup_middle. rewrite !length_app. cbn. lia. }
    wp_step. apply (wp_get_desc _ m); [lia|rewrite Nat2Z.id; by apply list_lookup_middle|].
    wp_step. apply wp_put_app; [done|]. cbn [length]. rewrite Nat.add_0_r, Z.ltb_irrefl. cbn [andb]. wp_step.
    exists [], [], m. rewrite !app_nil_r. split_and!; try done. intros y Hy. by inversion Hy.
  - apply list.Forall_cons in HR as [Hr HR]. wp_step. apply (wp_get_desc _ r); [lia| |].
    { rewrite Nat2Z.id, (cons_middle m P), !app_assoc. cbn [app]. rewrite <- (app_assoc _ (r :: R) T).
      apply list_lookup_middle. rewrite !length_app. cbn. lia. }
    wp_step. apply (wp_get_desc _ m); [lia|rewrite Nat2Z.id; by apply list_lookup_middle|].
    wp_step. apply wp_put_app; [done|]. cbn [MergeGuardPages].
    change (LShiftU64 (NumberOfPages m) EFI_PAGE_SHIFT) with (EfiPagesToSize (NumberOfPages m)). rewrite old_end by done.
    wp_step.
    + destruct (Z.ltb_spec (Z.of_nat (length P + S (length J) + length R0)) (Z.of_nat (length P + S (length J) + length R0 + length (r :: R)))) as [_|];
        [|cbn in *; lia].
      assert (Type_ m = Type_ r ∧ Attribute m = Attribute r ∧ desc_end m = PhysicalStart r) as (HTy & HA & He) by lia.
      pose proof (merge_DescOk m r Hm Hr He) as Hm'.
      assert (wrap 64 (NumberOfPages m + NumberOfPages r) = NumberOfPages m + NumberOfPages r) as ->.
      { apply wrap_small. destruct Hm' as [Hs' Hp' He' _]. unfold desc_end, EFI_PAGE_SHIFT in He'.
        cbn [PhysicalStart NumberOfPages set_NumberOfPages] in *. split; lia. }
      wp_step. apply wp_put_app; [done|].
      replace (R0 ++ (r :: R) ++ T) with ((R0 ++ [r]) ++ R ++ T) by (by rewrite <- app_assoc).
      replace (Z.of_nat (length P + S (length J) + length R0) + 1) with (Z.of_nat (length P + S (length J) + length (R0 ++ [r])))
        by (rewrite length_app; cbn; lia).
      replace (length P + S (length J) + length R0 + length (r :: R))%nat with (length P + S (length J) + length (R0 ++ [r]) + length R)%nat
        by (rewrite length_app; cbn; lia).
      eapply wp_mono; [apply IH; [done|done|lia]| |done].
      intros j A (R1 & R2 & m' & -> & -> & -> & Hok & Hst & Hend & Hcov & Hv). exists (r :: R1), R2, m'.
      rewrite <- !(app_assoc R0). split_and!; try done.
      { intros y Hy. apply list.Forall_cons in Hy as [_ [Hy1 Hy2]%list.Forall_cons]. apply Hend. constructor; [|done].
        unfold desc_end in *. cbn [PhysicalStart NumberOfPages set_NumberOfPages]. lia. }
      { etransitivity; [|exact Hcov]. destruct (merge_contains m r Hm Hr He) as [Hc1 Hc2].
        apply (covered_app [m; r] [_] R1 R1); [|done]. apply covered_one. constructor; [done|]. constructor; [done|constructor]. }
      intros x. rewrite Hv, view_head, view_merge by (done || apply (do_pages _ Hm) || apply (do_pages _ Hr)).
      rewrite (view_head m (r :: R1)), (view_head r R1), (view_head m [r]). by rewrite <- app_assoc.
    + wp_step. exists [], (r :: R), m. rewrite !app_nil_r. split_and!; try done. intros y Hy. by inversion Hy.
Qed.

Lemma cons_ascending m L : Forall (before m) L → ascending L → ascending (m :: L).
Proof.
  intros Hm HL [|p] [|q] d d' Hpq Hd Hd'; try lia; cbn in *; simplify_eq.
  - by eapply (proj1 (list.Forall_forall _ _) Hm), list_elem_of_lookup_2.
  - by apply (HL p q); [lia|..].
Qed.

Lemma MergeLoop_spec T n : T ≠ [] → ∀ fuel R P J E,
  Forall DescOk R → n = Z.of_nat (length P + length J + length R) → (length R < fuel)%nat →
  wp (MergeLoop None fuel n (Z.of_nat (length P + length J)) (Z.of_nat (length P)))
    (λ k A, ∃ new rest, A = P ++ new ++ rest ++ T ∧ k = Z.of_nat (length (P ++ new)) ∧
       length (new ++ rest) = length (J ++ R) ∧ Forall DescOk new ∧
       (∀ x, view new x = view R x) ∧ (∀ y, Forall (λ d, y <= PhysicalStart d) R → Forall (λ d, y <= PhysicalStart d) new) ∧
       (∀ y, Forall (λ d, desc_end d < y) R → Forall (λ d, desc_end d < y) new) ∧ covered R new ∧ (ascending R → ascending new)) E (P ++ J ++ R ++ T).
Proof.
  intros HT. induction fuel as [|fuel IH]; intros R P J E HR Hn Hf; [lia|]. cbn [MergeLoop]. destruct R as [|r R].
  { cbn [length] in Hn. rewrite Hn, Nat.add_0_r, Z.ltb_irrefl. wp_step. exists [], J. by rewrite !app_nil_r. }
  apply list.Forall_cons in HR as [Hr HR]. cbn [length] in *. destruct (Z.ltb_spec (Z.of_nat (length P + length J)) n); [|lia].
  wp_step. apply (wp_get_desc _ r); [lia| |].
  { rewrite Nat2Z.id, app_assoc. cbn [app]. apply list_lookup_middle. by rewrite length_app. }
  (* the entries from [k] on: [m] is the new entry, [J'] those before the next one *)
  assert (∃ q J', J ++ [r] = q :: J' ∧ length J' = length J) as (q & J' & HJ & HJl).
  { destruct J as [|q J]; [by exists r, []|]. exists q, (J ++ [r]). split; [done|]. rewrite length_app. cbn. lia. }
  replace (J ++ (r :: R) ++ T) with (q :: J' ++ R ++ T) by (rewrite app_comm_cons, <- HJ, <- app_assoc; done).
  wp_step. apply wp_put_app; [done|]. wp_step.
  pose proof (MergeNext_spec P J' T HT R [] r (S (Z.to_nat n)) E Hr HR ltac:(lia)) as Hnext. cbn [app length] in Hnext.
  replace (Z.of_nat (length P + S (length J') + 0 + length R)) with n in Hnext by lia.
  replace (Z.of_nat (length P + S (length J') + 0)) with (Z.of_nat (length P + length J) + 1) in Hnext by lia.
  eapply wp_mono; [exact Hnext| |done].
  intros j A (R1 & R2 & m' & -> & -> & -> & Hm' & Hst & Hend & Hcov & Hv). cbn [app] in *.
  rewrite (cons_middle m' P), (app_assoc P [m']), (app_assoc J' R1).
  replace (Z.of_nat (length P) + 1) with (Z.of_nat (length (P ++ [m']))) by (rewrite length_app; cbn; lia).
  replace (length P + S (length J') + length R1)%nat with (length (P ++ [m']) + length (J' ++ R1))%nat by (rewrite !length_app; cbn; lia).
  rewrite length_app in Hf, Hn. apply Forall_app in HR as [HR1 HR2].
  eapply wp_mono; [apply IH; [done|rewrite !length_app; cbn; lia|lia]| |done].
  intros k A (new & rest & -> & -> & Hlen & Hok & Hview & Hlow & Hhigh & Hcov' & Hasc). exists (m' :: new), rest. split_and!.
  - by rewrite <- (app_assoc P).
  - by rewrite <- (app_assoc P).
  - rewrite !length_app in *. cbn in *. rewrite length_app. lia.
  - by constructor.
  - intros x. rewrite (view_head m'), Hview, Hv. by rewrite <- view_app.
  - intros y Hy. apply list.Forall_cons in Hy as [Hy [_ Hy2]%Forall_app]. constructor; [by rewrite Hst|by apply Hlow].
  - intros y Hy. rewrite app_comm_cons in Hy. apply Forall_app in Hy as [Hy1 Hy2]. constructor; [by apply Hend|by apply Hhigh].
  - rewrite app_comm_cons. by apply (covered_app _ [m']).
  - intros Ha. apply ascending_cons in Ha as [[_ Hy]%Forall_app Ha]. apply cons_ascending.
    + unfold before in *. rewrite Hst. by apply Hlow.
    + apply Hasc. intros p p' d d' Hp Hd Hd'. apply (Ha (length R1 + p)%nat (length R1 + p')%nat); [lia|..]; by rewrite lookup_app_r, Nat.add_comm, Nat.add_sub by lia.
Qed.
End Spec.

Section Merge.
Context `{!Platform}.

(** MergeMemoryMap keeps what the map says, given an entry behind it that can be looked at. *)
Lemma MergeMemoryMap_spec D T E :
  Forall DescOk D → T ≠ [] →
  wp (MergeMemoryMap None (Z.of_nat (length D)))
    (λ k A, ∃ new rest, A = new ++ rest ++ T ∧ k = Z.of_nat (length new) ∧ length (new ++ rest) = length D ∧
       Forall DescOk new ∧ (∀ x, view new x = view D x) ∧ (∀ y, Forall (λ d, desc_end d < y) D → Forall (λ d, desc_end d < y) new) ∧
       covered D new ∧ (ascending D → ascending new)) E (D ++ T).
Proof.
  intros HD HT. unfold MergeMemoryMap. eapply wp_mono; [apply (MergeLoop_spec T _ HT _ D [] []); [done|cbn; lia|lia]| |done].
  intros k A (new & rest & -> & -> & Hlen & Hok & Hv & _ & He & Hc & Ha). by exists new, rest.
Qed.
End Merge.

(** Without such an entry the last pass reads behind the buffer. *)
Lemma merge_memory_map_overread `{!Platform} (d : EFI_MEMORY_DESCRIPTOR) : MergeMemoryMap None 1 [d] = Fault OutOfBounds.
Proof. done. Qed.
