(* ===== verification/GetMemoryMap.v ===== *)
(** Page.c: CoreGetMemoryMap, the memory map that the firmware core gives its callers, built from the
    list gMemoryMap of the memory and from the map of the memory space (GCD). *)
From stdpp Require Import list.
From S2P Require Import Prelude Base Buffer Platform Overflow ImageRecord MemoryMap SplitTable SplitCoverage MemoryMerge.

(** 'm', 'm', 'a', 'p' and 'g', 'c', 'd', 'm' *)
Definition MEMORY_MAP_SIGNATURE : Z := 0x70616d6d.
Definition EFI_GCD_MAP_SIGNATURE : Z := 0x6d646367.

(** An entry of gMemoryMap; Link and FromPages have no counterpart. *)
Record MEMORY_MAP := {
  mm_Signature : Z;
  mm_Type : Z;
  mm_Start : Z;
  mm_End : Z;
  mm_VirtualStart : Z;
  mm_Attribute : Z;
}.

(** The statistics of a memory type. *)
Record EFI_MEMORY_TYPE_STATISTICS := {
  st_BaseAddress : Z;
  st_MaximumAddress : Z;
  st_CurrentNumberOfPages : Z;
  st_NumberOfPages : Z;
  st_InformationIndex : Z;
  st_Special : bool;
  st_Runtime : bool;
}.

Inductive EFI_GCD_MEMORY_TYPE :=
| EfiGcdMemoryTypeNonExistent
| EfiGcdMemoryTypeReserved
| EfiGcdMemoryTypeSystemMemory
| EfiGcdMemoryTypeMemoryMappedIo
| EfiGcdMemoryTypePersistent
| EfiGcdMemoryTypeMoreReliable
| EfiGcdMemoryTypeUnaccepted.

#[global] Instance EFI_GCD_MEMORY_TYPE_eq_dec : EqDecision EFI_GCD_MEMORY_TYPE.
Proof. solve_decision. Defined.

(** Without Link and the two handles. *)
Record EFI_GCD_MAP_ENTRY := {
  gcd_Signature : Z;
  gcd_BaseAddress : Z;
  gcd_EndAddress : Z;
  gcd_Capabilities : Z;
  gcd_Attributes : Z;
  gcd_GcdMemoryType : EFI_GCD_MEMORY_TYPE;
  gcd_GcdIoType : Z;
}.

Definition set_EndAddress (v : Z) (g : EFI_GCD_MAP_ENTRY) : EFI_GCD_MAP_ENTRY :=
  {| gcd_Signature := gcd_Signature g; gcd_BaseAddress := gcd_BaseAddress g; gcd_EndAddress := v;
     gcd_Capabilities := gcd_Capabilities g; gcd_Attributes := gcd_Attributes g;
     gcd_GcdMemoryType := gcd_GcdMemoryType g; gcd_GcdIoType := gcd_GcdIoType g |}.

Definition EFI_MEMORY_UC : Z := 0x1.
Definition EFI_MEMORY_WC : Z := 0x2.
Definition EFI_MEMORY_WT : Z := 0x4.
Definition EFI_MEMORY_WB : Z := 0x8.
Definition EFI_MEMORY_UCE : Z := 0x10.
Definition EFI_MEMORY_WP : Z := 0x1000.
Definition EFI_MEMORY_NV : Z := 0x8000.
Definition EFI_MEMORY_SP : Z := 0x40000.
Definition EFI_MEMORY_CPU_CRYPTO : Z := 0x80000.
Definition EFI_MEMORY_PORT_IO : Z := 0x4000000000000000.
Definition EFI_MEMORY_RUNTIME : Z := 0x8000000000000000.
Definition EFI_CACHE_ATTRIBUTE_MASK : Z :=
  Z.lor (Z.lor (Z.lor EFI_MEMORY_UC EFI_MEMORY_WC) (Z.lor EFI_MEMORY_WT EFI_MEMORY_WB)) (Z.lor EFI_MEMORY_UCE EFI_MEMORY_WP).
Definition EFI_MEMORY_ATTRIBUTE_MASK : Z := Z.lor (Z.lor EFI_MEMORY_ACCESS_MASK EFI_MEMORY_SP) EFI_MEMORY_CPU_CRYPTO.

Section Code.
Context `{!Platform}.

Definition SIZEOF_EFI_MEMORY_DESCRIPTOR : Z := Z.max 4 ALIGNOF_UINT64 + 32.

(** *DescriptorSize *)
Definition DESCRIPTOR_SIZE : Z := SIZEOF_EFI_MEMORY_DESCRIPTOR + (8 - SIZEOF_EFI_MEMORY_DESCRIPTOR mod 8).

Definition EFI_PAGES_TO_SIZE (Pages : Z) : Z := wrapn (Z.shiftl Pages EFI_PAGE_SHIFT).

(** MemoryMapDescriptor is the entry [k]; [n] entries from [i] on are left.  Returns the index of the
    next available entry. *)
Fixpoint MergeDescriptor_from (n : nat) (i k : Z) : MapM Z :=
  match n with
  | O => mret (k + 1)
  | S n =>
      MemoryMap ← get_desc i;
      MemoryMapDescriptor ← get_desc k;
      if negb (Type_ MemoryMap =? Type_ MemoryMapDescriptor) then MergeDescriptor_from n (i + 1) k
      else if negb (Attribute MemoryMap =? Attribute MemoryMapDescriptor) then MergeDescriptor_from n (i + 1) k
      else if wrap 64 (PhysicalStart MemoryMap + EFI_PAGES_TO_SIZE (wrapn (NumberOfPages MemoryMap))) =? PhysicalStart MemoryMapDescriptor then
        put_desc i (set_NumberOfPages (wrap 64 (NumberOfPages MemoryMap + NumberOfPages MemoryMapDescriptor)) MemoryMap);;
        mret k
      else if wrap 64 (PhysicalStart MemoryMap - EFI_PAGES_TO_SIZE (wrapn (NumberOfPages MemoryMapDescriptor))) =? PhysicalStart MemoryMapDescriptor then
        put_desc i {| Type_ := Type_ MemoryMap; PhysicalStart := PhysicalStart MemoryMapDescriptor;
                      VirtualStart := VirtualStart MemoryMapDescriptor;
                      NumberOfPages := wrap 64 (NumberOfPages MemoryMap + NumberOfPages MemoryMapDescriptor);
                      Attribute := Attribute MemoryMap |};;
        mret k
      else MergeDescriptor_from n (i + 1) k
  end.

Definition MergeMemoryMapDescriptor (k : Z) : MapM Z := MergeDescriptor_from (Z.to_nat k) 0 k.

Context (gMemoryMap : list MEMORY_MAP) (mMemoryTypeStatistics : list EFI_MEMORY_TYPE_STATISTICS)
  (mGcdMemorySpaceMap : list EFI_GCD_MAP_ENTRY).

Definition get_statistics (Type0 : Z) : MapM EFI_MEMORY_TYPE_STATISTICS :=
  match mMemoryTypeStatistics !! Z.to_nat Type0 with
  | Some st => mret st
  | None => crash OutOfBounds
  end.

(** The body of the loop over the memory types, carrying MemoryMap->Type. *)
Definition BinType (Entry : MEMORY_MAP) (Type0 MemoryMapType : Z) : MapM Z :=
  st ← get_statistics Type0;
  mret (if st_Special st && (0 <? st_NumberOfPages st) && (st_BaseAddress st <=? mm_Start Entry) &&
           (mm_End Entry <=? st_MaximumAddress st)
        then Type0 else MemoryMapType).

(** The body of the loop over gMemoryMap: MemoryMap is the entry [k]. *)
Definition AddMemoryMapEntry (Entry : MEMORY_MAP) (k : Z) : MapM Z :=
  ASSERT (mm_Signature Entry =? MEMORY_MAP_SIGNATURE);;
  ASSERT (mm_VirtualStart Entry =? 0);;
  Type0 ← (if mm_Type Entry =? EfiConventionalMemory
           then for_loop (Z.to_nat EfiMaxMemoryType) 0 (BinType Entry) (mm_Type Entry)
           else mret (mm_Type Entry));
  Attr ← (if Type0 <? EfiMaxMemoryType then
            st ← get_statistics Type0;
            mret (if st_Runtime st then Z.lor (mm_Attribute Entry) EFI_MEMORY_RUNTIME else mm_Attribute Entry)
          else mret (mm_Attribute Entry));
  put_desc k {| Type_ := Type0; PhysicalStart := mm_Start Entry; VirtualStart := mm_VirtualStart Entry;
                NumberOfPages := RShiftU64 (wrap 64 (mm_End Entry - mm_Start Entry + 1)) EFI_PAGE_SHIFT;
                Attribute := Attr |};;
  MergeMemoryMapDescriptor k.

Fixpoint AddMemoryMapEntries (l : list MEMORY_MAP) (k : Z) : MapM Z :=
  match l with
  | [] => mret k
  | Entry :: l' => k ← AddMemoryMapEntry Entry k; AddMemoryMapEntries l' k
  end.

(** A descriptor of memory space, with the two ASSERTs in front of it. *)
Definition AddGcdDescriptor (g : EFI_GCD_MAP_ENTRY) (Type0 Attr k : Z) : MapM Z :=
  let Length := wrap 64 (gcd_EndAddress g - gcd_BaseAddress g + 1) in
  ASSERT (Z.land (gcd_BaseAddress g) EFI_PAGE_MASK =? 0);;
  ASSERT (Z.land Length EFI_PAGE_MASK =? 0);;
  put_desc k (new_record Type0 (gcd_BaseAddress g) (RShiftU64 Length EFI_PAGE_SHIFT) Attr);;
  MergeMemoryMapDescriptor k.

Definition runtime_mmio (g : EFI_GCD_MAP_ENTRY) : bool :=
  bool_decide (gcd_GcdMemoryType g = EfiGcdMemoryTypeMemoryMappedIo) &&
  (Z.land (gcd_Attributes g) EFI_MEMORY_RUNTIME =? EFI_MEMORY_RUNTIME).

(** The three descriptors that may be created for MergeGcdMapEntry. *)
Definition AddGcdMapEntry (g : EFI_GCD_MAP_ENTRY) (k : Z) : MapM Z :=
  k ← (if bool_decide (gcd_GcdMemoryType g = EfiGcdMemoryTypeReserved) || runtime_mmio g then
         AddGcdDescriptor g
           (if bool_decide (gcd_GcdMemoryType g = EfiGcdMemoryTypeReserved) then EfiReservedMemoryType
            else if Z.land (gcd_Attributes g) EFI_MEMORY_PORT_IO =? EFI_MEMORY_PORT_IO then EfiMemoryMappedIOPortSpace
            else EfiMemoryMappedIO)
           (Z.lor (Z.land (gcd_Attributes g) (lnot_w 64 EFI_MEMORY_PORT_IO))
                  (Z.land (gcd_Capabilities g) (Z.lor EFI_CACHE_ATTRIBUTE_MASK EFI_MEMORY_ATTRIBUTE_MASK))) k
       else mret k);
  k ← (if bool_decide (gcd_GcdMemoryType g = EfiGcdMemoryTypePersistent) then
         AddGcdDescriptor g EfiPersistentMemory
           (Z.lor (Z.lor (gcd_Attributes g) EFI_MEMORY_NV)
                  (Z.land (gcd_Capabilities g) (Z.lor EFI_CACHE_ATTRIBUTE_MASK EFI_MEMORY_ATTRIBUTE_MASK))) k
       else mret k);
  if bool_decide (gcd_GcdMemoryType g = EfiGcdMemoryTypeUnaccepted) then
    AddGcdDescriptor g EfiUnacceptedMemoryType
      (Z.lor (gcd_Attributes g)
             (Z.land (gcd_Capabilities g) (Z.lor EFI_MEMORY_ACCESS_MASK EFI_CACHE_ATTRIBUTE_MASK))) k
  else mret k.

(** The loop over the memory space, carrying MergeGcdMapEntry. *)
Fixpoint AddGcdMapEntries (l : list EFI_GCD_MAP_ENTRY) (MergeGcdMapEntry : EFI_GCD_MAP_ENTRY) (k : Z) : MapM Z :=
  match l with
  | [] => AddGcdMapEntry MergeGcdMapEntry k
  | g :: l' =>
      ASSERT (gcd_Signature g =? EFI_GCD_MAP_SIGNATURE);;
      if (gcd_Capabilities MergeGcdMapEntry =? gcd_Capabilities g) && (gcd_Attributes MergeGcdMapEntry =? gcd_Attributes g) &&
         bool_decide (gcd_GcdMemoryType MergeGcdMapEntry = gcd_GcdMemoryType g) &&
         (gcd_GcdIoType MergeGcdMapEntry =? gcd_GcdIoType g)
      then AddGcdMapEntries l' (set_EndAddress (gcd_EndAddress g) MergeGcdMapEntry) k
      else
        k ← AddGcdMapEntry MergeGcdMapEntry k;
        AddGcdMapEntries l' g k
  end.

Definition zero_gcd_entry : EFI_GCD_MAP_ENTRY :=
  {| gcd_Signature := 0; gcd_BaseAddress := 0; gcd_EndAddress := 0; gcd_Capabilities := 0; gcd_Attributes := 0;
     gcd_GcdMemoryType := EfiGcdMemoryTypeNonExistent; gcd_GcdIoType := 0 |}.

(** The two loops that build the map. *)
Definition BuildMemoryMap : MapM Z :=
  k ← AddMemoryMapEntries gMemoryMap 0;
  AddGcdMapEntries mGcdMemorySpaceMap zero_gcd_entry k.

(** The loop that counts the entries of the memory space. *)
Fixpoint CountGcdEntries (l : list EFI_GCD_MAP_ENTRY) (NumberOfEntries : Z) : MapM Z :=
  match l with
  | [] => mret NumberOfEntries
  | g :: l' =>
      ASSERT (gcd_Signature g =? EFI_GCD_MAP_SIGNATURE);;
      CountGcdEntries l'
        (if bool_decide (gcd_GcdMemoryType g = EfiGcdMemoryTypePersistent) ||
            bool_decide (gcd_GcdMemoryType g = EfiGcdMemoryTypeReserved) || runtime_mmio g
         then NumberOfEntries + 1 else NumberOfEntries)
  end.

(** [ZeroMem (MemoryMap, BufferSize)] *)
Definition ZeroMemoryMap (n : Z) : MapM unit :=
  A ← getS;
  require (n <=? Z.of_nat (length A)) OutOfBounds;;
  modify (λ A, replicate (Z.to_nat n) (new_record 0 0 0 0) ++ drop (Z.to_nat n) A).

(** MemoryMap->Attribute &= ~EFI_MEMORY_ACCESS_MASK *)
Definition clear_access (d : EFI_MEMORY_DESCRIPTOR) : EFI_MEMORY_DESCRIPTOR :=
  set_Attribute (Z.land (Attribute d) (lnot_w 64 EFI_MEMORY_ACCESS_MASK)) d.

(** Returns the status, [None] for EFI_SUCCESS, and *MemoryMapSize.  [NonNull] says whether MemoryMap is
    not NULL. *)
Definition CoreGetMemoryMap (FreedGuard : option (Z → Z)) (NonNull : bool) (MemoryMapSize : Z)
    : MapM (option RETURN_STATUS * Z) :=
  NumberOfEntries ← CountGcdEntries mGcdMemorySpaceMap 0;
  let Entries := NumberOfEntries + Z.of_nat (length gMemoryMap) in
  let BufferSize := wrapn (DESCRIPTOR_SIZE * Entries) in
  if MemoryMapSize <? BufferSize then mret (Some RETURN_BUFFER_TOO_SMALL, BufferSize)
  else if negb NonNull then mret (Some RETURN_INVALID_PARAMETER, BufferSize)
  else
    ZeroMemoryMap (BufferSize / DESCRIPTOR_SIZE);;
    k ← BuildMemoryMap;
    for_loop (Z.to_nat k) 0 (update_desc clear_access) tt;;
    k ← MergeMemoryMap FreedGuard k;
    mret (None, wrapn (k * DESCRIPTOR_SIZE)).
End Code.

(** ** What the map has to say *)

Section Contents.
Context (mMemoryTypeStatistics : list EFI_MEMORY_TYPE_STATISTICS).

(** The last bin that free memory is in gives it its type. *)
Definition bin_type (Entry : MEMORY_MAP) (n : nat) : Z :=
  foldl (λ t i, match mMemoryTypeStatistics !! i with
                | Some st =>
                    if st_Special st && (0 <? st_NumberOfPages st) && (st_BaseAddress st <=? mm_Start Entry) &&
                       (mm_End Entry <=? st_MaximumAddress st) then Z.of_nat i else t
                | None => t
                end) (mm_Type Entry) (seq 0 n).

Definition entry_type (Entry : MEMORY_MAP) : Z :=
  if mm_Type Entry =? EfiConventionalMemory then bin_type Entry (Z.to_nat EfiMaxMemoryType) else mm_Type Entry.

Definition entry_attribute (Entry : MEMORY_MAP) : Z :=
  if (entry_type Entry <? EfiMaxMemoryType) &&
     match mMemoryTypeStatistics !! Z.to_nat (entry_type Entry) with Some st => st_Runtime st | None => false end
  then Z.lor (mm_Attribute Entry) EFI_MEMORY_RUNTIME else mm_Attribute Entry.

(** The descriptor of an entry of gMemoryMap. *)
Definition entry_desc (Entry : MEMORY_MAP) : EFI_MEMORY_DESCRIPTOR :=
  new_record (entry_type Entry) (mm_Start Entry) ((mm_End Entry + 1 - mm_Start Entry) / 2 ^ EFI_PAGE_SHIFT) (entry_attribute Entry).
End Contents.

(** The type and the attributes of memory space that is in the map. *)
Definition gcd_view (g : EFI_GCD_MAP_ENTRY) : option (Z * Z) :=
  let Capabilities := Z.land (gcd_Capabilities g) (Z.lor EFI_CACHE_ATTRIBUTE_MASK EFI_MEMORY_ATTRIBUTE_MASK) in
  let Attributes := Z.lor (Z.land (gcd_Attributes g) (lnot_w 64 EFI_MEMORY_PORT_IO)) Capabilities in
  match gcd_GcdMemoryType g with
  | EfiGcdMemoryTypeReserved => Some (EfiReservedMemoryType, Attributes)
  | EfiGcdMemoryTypeMemoryMappedIo =>
      if Z.land (gcd_Attributes g) EFI_MEMORY_RUNTIME =? EFI_MEMORY_RUNTIME then
        Some (if Z.land (gcd_Attributes g) EFI_MEMORY_PORT_IO =? EFI_MEMORY_PORT_IO then EfiMemoryMappedIOPortSpace
              else EfiMemoryMappedIO, Attributes)
      else None
  | EfiGcdMemoryTypePersistent => Some (EfiPersistentMemory, Z.lor (Z.lor (gcd_Attributes g) EFI_MEMORY_NV) Capabilities)
  | EfiGcdMemoryTypeUnaccepted =>
      Some (EfiUnacceptedMemoryType,
            Z.lor (gcd_Attributes g) (Z.land (gcd_Capabilities g) (Z.lor EFI_MEMORY_ACCESS_MASK EFI_CACHE_ATTRIBUTE_MASK)))
  | _ => None
  end.

Definition gcd_desc (g : EFI_GCD_MAP_ENTRY) : option EFI_MEMORY_DESCRIPTOR :=
  match gcd_view g with
  | Some (t, a) => Some (new_record t (gcd_BaseAddress g) ((gcd_EndAddress g + 1 - gcd_BaseAddress g) / 2 ^ EFI_PAGE_SHIFT) a)
  | None => None
  end.

(** Memory of whole pages below MAX_ADDRESS. *)
Definition range_ok (w Start End_ : Z) : Prop :=
  0 <= Start <= End_ ∧ End_ + 1 < 2 ^ w ∧ (2 ^ EFI_PAGE_SHIFT | Start) ∧ (2 ^ EFI_PAGE_SHIFT | End_ + 1).

Record EntryOk (w : Z) (e : MEMORY_MAP) : Prop := {
  eo_signature : mm_Signature e = MEMORY_MAP_SIGNATURE;
  eo_virtual : mm_VirtualStart e = 0;
  eo_range : range_ok w (mm_Start e) (mm_End e);
}.

Record GcdOk (w : Z) (g : EFI_GCD_MAP_ENTRY) : Prop := {
  go_signature : gcd_Signature g = EFI_GCD_MAP_SIGNATURE;
  go_range : gcd_view g ≠ None → range_ok w (gcd_BaseAddress g) (gcd_EndAddress g);
}.

(** The memory space map has no holes. *)
Fixpoint gcd_chain (l : list EFI_GCD_MAP_ENTRY) : Prop :=
  match l with
  | g :: ((g' :: _) as l') => gcd_BaseAddress g' = gcd_EndAddress g + 1 ∧ gcd_chain l'
  | _ => True
  end.

Section Proofs.
Context `{!Platform, !PlatformOk}.

(** A descriptor whose size and end UINTN can hold. *)
Definition Fits (d : EFI_MEMORY_DESCRIPTOR) : Prop := DescOk d ∧ desc_end d < 2 ^ UINTN_WIDTH.

Lemma EFI_PAGES_TO_SIZE_fits d : Fits d → EFI_PAGES_TO_SIZE (wrapn (NumberOfPages d)) = NumberOfPages d * 2 ^ EFI_PAGE_SHIFT.
Proof.
  intros [[Hs Hp _ _] He]. unfold EFI_PAGES_TO_SIZE, desc_end, EFI_PAGE_SHIFT, wrapn in *.
  rewrite (wrap_small _ (NumberOfPages d)) by (split; lia). rewrite Z.shiftl_mul_pow2 by lia. apply wrap_small. split; lia.
Qed.

Lemma merge_fits d d' :
  Fits d → Fits d' → desc_end d = PhysicalStart d' →
  Fits (set_NumberOfPages (wrap 64 (NumberOfPages d + NumberOfPages d')) d) ∧
  contains (set_NumberOfPages (wrap 64 (NumberOfPages d + NumberOfPages d')) d) d ∧
  contains (set_NumberOfPages (wrap 64 (NumberOfPages d + NumberOfPages d')) d) d' ∧
  (Type_ d = Type_ d' → Attribute d = Attribute d' →
   ∀ x, view [set_NumberOfPages (wrap 64 (NumberOfPages d + NumberOfPages d')) d] x = view [d; d'] x).
Proof.
  intros [Hd He] [Hd' He'] Heq. pose proof (merge_DescOk d d' Hd Hd' Heq) as Hm.
  rewrite wrap_small.
  - destruct (merge_contains d d' Hd Hd' Heq) as [Hc1 Hc2]. split; [|split; [done|split; [done|]]].
    2: intros; apply view_merge; try done; [apply (do_pages _ Hd)|apply (do_pages _ Hd')].
    split; [done|]. unfold desc_end in *. cbn [PhysicalStart NumberOfPages set_NumberOfPages]. lia.
  - destruct Hm as [Hs Hp Hend _]. unfold desc_end, EFI_PAGE_SHIFT in Hend.
    cbn [PhysicalStart NumberOfPages set_NumberOfPages] in *. split; lia.
Qed.

(** The map [D] with the descriptors [ds] added, in the buffer that [D ++ rest] was. *)
Definition Added (D rest ds : list EFI_MEMORY_DESCRIPTOR) (k : Z) (A : list EFI_MEMORY_DESCRIPTOR) : Prop :=
  ∃ D' rest', A = D' ++ rest' ∧ k = Z.of_nat (length D') ∧ length A = length (D ++ rest) ∧
    (length D' <= length D + length ds)%nat ∧ Forall Fits D' ∧ covered (D ++ ds) D' ∧ ∀ x, view D' x ≡ₚ view (D ++ ds) x.

Lemma Added_nil D rest : Forall Fits D → Added D rest [] (Z.of_nat (length D)) (D ++ rest).
Proof. intros HD. exists D, rest. rewrite app_nil_r. split_and!; try done. cbn. lia. Qed.

Lemma Added_trans D rest ds ds' D' rest' k A :
  length (D' ++ rest') = length (D ++ rest) → (length D' <= length D + length ds)%nat →
  covered (D ++ ds) D' → (∀ x, view D' x ≡ₚ view (D ++ ds) x) → Added D' rest' ds' k A → Added D rest (ds ++ ds') k A.
Proof.
  intros Hlen Hle Hcov Hv (D2 & rest2 & -> & -> & Hlen2 & Hle2 & Hok & Hcov2 & Hv2). exists D2, rest2.
  rewrite !length_app in *. split_and!; try done; [lia|lia|..].
  { etransitivity; [|exact Hcov2]. rewrite app_assoc. by apply covered_app. }
  intros x. by rewrite Hv2, app_assoc, !(view_app _ ds'), Hv.
Qed.

Lemma MergeDescriptor_from_spec d rest D2 : ∀ D1 E,
  Forall Fits (D1 ++ D2) → Fits d →
  wp (MergeDescriptor_from (length D2) (Z.of_nat (length D1)) (Z.of_nat (length (D1 ++ D2))))
    (λ k A, Added (D1 ++ D2) (d :: rest) [d] k A) E ((D1 ++ D2) ++ d :: rest).
Proof.
  induction D2 as [|m D2 IH]; intros D1 E HD Hd; cbn [MergeDescriptor_from length].
  { wp_step. rewrite app_nil_r in *. exists (D1 ++ [d]), rest. rewrite <- app_assoc. split_and!; try done.
    - rewrite length_app. cbn. lia.
    - rewrite length_app. cbn. lia.
    - apply Forall_app. split; [done|]. by constructor. }
  apply Forall_app in HD as HD'. destruct HD' as [HD1 HmD2]. apply list.Forall_cons in HmD2 as [Hm HD2].
  wp_step. apply (wp_get_desc _ m); [lia|rewrite Nat2Z.id, <- app_assoc; by apply list_lookup_middle|].
  wp_step. apply (wp_get_desc _ d); [lia|rewrite Nat2Z.id; by apply list_lookup_middle|].
  assert (wp (MergeDescriptor_from (length D2) (Z.of_nat (length D1) + 1) (Z.of_nat (length (D1 ++ m :: D2))))
    (λ k A, Added (D1 ++ m :: D2) (d :: rest) [d] k A) E ((D1 ++ m :: D2) ++ d :: rest)) as Hnext.
  { rewrite (cons_middle m D1 D2), app_assoc in *. replace (Z.of_nat (length D1) + 1) with (Z.of_nat (length (D1 ++ [m])))
      by (rewrite length_app; cbn; lia). by apply IH. }
  assert (∀ m', Fits m' → contains m' m → contains m' d → (∀ x, view [m'] x ≡ₚ view [m; d] x) →
    Added (D1 ++ m :: D2) (d :: rest) [d] (Z.of_nat (length (D1 ++ m :: D2))) (D1 ++ m' :: D2 ++ d :: rest)) as Hadd.
  { intros m' Hm' Hc1 Hc2 Hv. exists (D1 ++ m' :: D2), (d :: rest). rewrite <- app_assoc, !length_app. cbn [length app]. split_and!; try done; [rewrite length_app; cbn [length]; lia|lia|..].
    - apply Forall_app. split; [done|]. by constructor.
    - rewrite <- app_assoc. apply (covered_app D1 D1); [done|]. etransitivity; [apply covered_perm|apply (covered_app [m; d] [m'] D2 D2); [|done]].
      + cbn. by rewrite <- Permutation_cons_append, perm_swap.
      + apply covered_one. constructor; [done|]. constructor; [done|constructor].
    - intros x. rewrite <- app_assoc. cbn [app]. rewrite !view_app, (view_head m'), (view_head m), view_app, Hv, (view_head m [d]).
      rewrite <- !app_assoc. apply Permutation_app_head, Permutation_app_head, Permutation_app_comm. }
  rewrite <- (app_assoc D1 (m :: D2)) in *. cbn [app] in *.
  wp_step; [done|]. wp_step; [done|].
  assert (Type_ m = Type_ d) as HT by lia. assert (Attribute m = Attribute d) as HA by lia.
  rewrite !EFI_PAGES_TO_SIZE_fits by done. fold (desc_end m).
  destruct Hm as [Hmo Hme]. destruct Hd as [Hdo Hde].
  rewrite (wrap_small 64 (desc_end m)) by (pose proof (desc_start m Hmo); pose proof (do_end _ Hmo); split; lia).
  wp_step.
  - wp_step. apply wp_put_app; [done|]. wp_step. destruct (merge_fits m d) as (Hf & Hc1 & Hc2 & Hv); [done|done|lia|]. apply Hadd; [done..|].
    intros x. by rewrite Hv.
  - wp_step; [|done]. assert (desc_end d = PhysicalStart m) as He.
    { destruct Hdo as [Hs Hp He _]. pose proof (desc_start m Hmo). pose proof (do_end _ Hmo).
      unfold desc_end in *. unfold wrap in *.
      set (z := NumberOfPages d * 2 ^ EFI_PAGE_SHIFT) in *. assert (0 <= z) by (subst z; unfold EFI_PAGE_SHIFT; lia).
      destruct (decide (z <= PhysicalStart m)).
      - rewrite Z.mod_small in * by lia. lia.
      - assert ((PhysicalStart m - z) mod 2 ^ 64 = PhysicalStart m - z + 2 ^ 64) as Hw.
        { symmetry. apply (Z.mod_unique _ _ (-1)); lia. }
        rewrite Hw in *. lia. }
    destruct (merge_fits d m) as (Hf & Hc1 & Hc2 & Hv); try done. unfold set_NumberOfPages in Hf, Hv, Hc1, Hc2. rewrite Z.add_comm, HT, HA.
    wp_step. apply wp_put_app; [done|]. wp_step. apply Hadd; [done..|].
    intros x. rewrite Hv, (view_head d [m]), (view_head m [d]) by done. apply Permutation_app_comm.
Qed.

(** A descriptor is put behind the map and merged if possible. *)
Lemma AddDescriptor_spec D rest d E :
  Forall Fits D → Fits d → rest ≠ [] →
  wp (put_desc (Z.of_nat (length D)) d;; MergeMemoryMapDescriptor (Z.of_nat (length D))) (λ k A, Added D rest [d] k A) E (D ++ rest).
Proof.
  intros HD Hd Hr. destruct rest as [|q rest]; [done|]. wp_step. apply wp_put_app; [done|].
  unfold MergeMemoryMapDescriptor. rewrite Nat2Z.id. eapply wp_mono; [by apply (MergeDescriptor_from_spec d rest D [])| |done].
  intros k A (D' & rest' & -> & -> & Hlen & ? & ? & ? & ?). exists D', rest'. split_and!; try done.
  rewrite Hlen. cbn [app]. rewrite !length_app. done.
Qed.

(** *** The loops *)

Lemma new_record_fits Type0 Start End_ Attr :
  range_ok UINTN_WIDTH Start End_ → Fits (new_record Type0 Start ((End_ + 1 - Start) / 2 ^ EFI_PAGE_SHIFT) Attr).
Proof.
  intros (Hs & He & Ha & Hb). assert (2 ^ EFI_PAGE_SHIFT | End_ + 1 - Start) as Hd by (by apply Z.divide_sub_r).
  assert (End_ + 1 < 2 ^ 64) by (apply uintn_u64; lia).
  assert (desc_end (new_record Type0 Start ((End_ + 1 - Start) / 2 ^ EFI_PAGE_SHIFT) Attr) = End_ + 1) as Hend by (rewrite new_record_end by done; lia).
  split; [|by rewrite Hend]. constructor; [cbn; lia| |by rewrite Hend|done].
  apply Z.div_pos; unfold EFI_PAGE_SHIFT; lia.
Qed.

Lemma range_pages Start End_ :
  range_ok UINTN_WIDTH Start End_ →
  RShiftU64 (wrap 64 (End_ - Start + 1)) EFI_PAGE_SHIFT = (End_ + 1 - Start) / 2 ^ EFI_PAGE_SHIFT.
Proof.
  intros (Hs & He & _ & _). assert (0 <= End_ + 1 < 2 ^ 64) by (apply uintn_u64; lia). unfold RShiftU64.
  rewrite wrap_small by (split; lia). rewrite Z.shiftr_div_pow2 by (unfold EFI_PAGE_SHIFT; lia). f_equal. lia.
Qed.

Lemma Added_room (D rest ds D' rest' : list EFI_MEMORY_DESCRIPTOR) :
  length (D' ++ rest') = length (D ++ rest) → (length D' <= length D + length ds)%nat →
  (length rest <= length rest' + length ds)%nat.
Proof. rewrite !length_app. lia. Qed.

Section Statistics.
Context (stats : list EFI_MEMORY_TYPE_STATISTICS) (Hstats : (Z.to_nat EfiMaxMemoryType < length stats)%nat).

Lemma get_statistics_spec Type0 st (Q : EFI_MEMORY_TYPE_STATISTICS → list EFI_MEMORY_DESCRIPTOR → Prop) E A :
  stats !! Z.to_nat Type0 = Some st → Q st A → wp (get_statistics stats Type0) Q E A.
Proof. intros Hst HQ. unfold get_statistics. rewrite Hst. by wp_step. Qed.

Lemma BinType_loop Entry E A :
  wp (for_loop (Z.to_nat EfiMaxMemoryType) 0 (BinType stats Entry) (mm_Type Entry))
    (λ t A', A' = A ∧ t = bin_type stats Entry (Z.to_nat EfiMaxMemoryType)) E A.
Proof.
  eapply wp_mono.
  { apply (wp_for_loop (λ i t A', A' = A ∧ t = bin_type stats Entry (Z.to_nat i)) E); [done|].
    intros i t A' Hi [-> ->]. destruct (lookup_lt_is_Some_2 stats (Z.to_nat i)) as [st Hst].
    { unfold EfiMaxMemoryType in *. lia. }
    unfold BinType. wp_step. apply (get_statistics_spec _ st); [done|]. wp_step. split; [done|].
    rewrite Z2Nat.inj_add by lia. rewrite Nat.add_1_r. unfold bin_type at 2. rewrite seq_S, foldl_app. cbn [foldl].
    rewrite Nat.add_0_l, Hst, Z2Nat.id by lia. done. }
  2: done.
  done.
Qed.

Lemma AddMemoryMapEntry_spec Entry D rest E :
  EntryOk UINTN_WIDTH Entry → Forall Fits D → rest ≠ [] →
  wp (AddMemoryMapEntry stats Entry (Z.of_nat (length D))) (Added D rest [entry_desc stats Entry]) E (D ++ rest).
Proof.
  intros [Hsig Hv Hr] HD Hrest. unfold AddMemoryMapEntry.
  wp_step. wp_step; [rewrite Hsig; apply Z.eqb_refl|]. wp_step. wp_step; [by rewrite Hv|]. wp_step.
  eapply (wp_mono _ (λ t A, A = D ++ rest ∧ t = entry_type stats Entry) _ E); [| |done].
  { unfold entry_type. wp_step; rewrite H1; [apply BinType_loop|by wp_step]. }
  intros t A [-> ->]. wp_step.
  eapply (wp_mono _ (λ a A, A = D ++ rest ∧ a = entry_attribute stats Entry) _ E); [| |done].
  { unfold entry_attribute. wp_step.
    - destruct (lookup_lt_is_Some_2 stats (Z.to_nat (entry_type stats Entry))) as [st Hst]; [unfold EfiMaxMemoryType in *; lia|].
      wp_step. apply (get_statistics_spec _ st); [done|]. wp_step. rewrite H1, Hst. cbn [andb]. done.
    - wp_step. by rewrite H1. }
  intros a A [-> ->]. rewrite Hv, range_pages by done.
  apply AddDescriptor_spec; [done|by apply new_record_fits|done].
Qed.

Lemma AddMemoryMapEntries_spec l : ∀ D rest E,
  Forall (EntryOk UINTN_WIDTH) l → Forall Fits D → (length l <= length rest)%nat →
  wp (AddMemoryMapEntries stats l (Z.of_nat (length D))) (Added D rest (map (entry_desc stats) l)) E (D ++ rest).
Proof.
  induction l as [|e l IH]; intros D rest E Hl HD Hroom; cbn [AddMemoryMapEntries map length] in *.
  { wp_step. by apply Added_nil. }
  apply list.Forall_cons in Hl as [He Hl]. wp_step.
  eapply wp_mono; [apply AddMemoryMapEntry_spec; [done|done|by destruct rest; [cbn in *; lia|]]| |done].
  intros k A (D' & rest' & -> & -> & Hlen & Hle & Hok & Hcov & Hview). pose proof (Added_room _ _ _ _ _ Hlen Hle) as Hrm. cbn in Hrm.
  eapply wp_mono; [apply IH; [done|done|lia]| |done]. intros k A Hadd.
  by apply (Added_trans D rest [_] (map (entry_desc stats) l) D' rest').
Qed.

End Statistics.

(** *** The memory space *)

(** The descriptors of memory space. *)
Definition gcd_descs (l : list EFI_GCD_MAP_ENTRY) : list EFI_MEMORY_DESCRIPTOR := omap gcd_desc l.

Lemma gcd_descs_cons g l : gcd_descs (g :: l) = option_list (gcd_desc g) ++ gcd_descs l.
Proof. unfold gcd_descs. cbn. by destruct (gcd_desc g). Qed.

Lemma page_mask x : (2 ^ EFI_PAGE_SHIFT | x) → Z.land x EFI_PAGE_MASK =? 0 = true.
Proof.
  intros Hx. change EFI_PAGE_MASK with (2 ^ 12 - 1). rewrite land_mask by lia. apply Z.eqb_eq.
  by apply Z.mod_divide.
Qed.

Lemma AddGcdDescriptor_spec g t a D rest E :
  gcd_view g = Some (t, a) → range_ok UINTN_WIDTH (gcd_BaseAddress g) (gcd_EndAddress g) → Forall Fits D → rest ≠ [] →
  wp (AddGcdDescriptor g t a (Z.of_nat (length D))) (Added D rest (option_list (gcd_desc g))) E (D ++ rest).
Proof.
  intros Hg Hr HD Hrest. unfold gcd_desc. rewrite Hg. unfold AddGcdDescriptor. pose proof Hr as (Hs & He & Ha & Hb).
  assert (0 <= gcd_EndAddress g + 1 < 2 ^ 64) by (apply uintn_u64; lia).
  wp_step. wp_step; [by apply page_mask|]. wp_step. wp_step.
  { apply page_mask. rewrite wrap_small by (split; lia).
    replace (gcd_EndAddress g - gcd_BaseAddress g + 1) with (gcd_EndAddress g + 1 - gcd_BaseAddress g) by lia. by apply Z.divide_sub_r. }
  rewrite range_pages by done. by apply AddDescriptor_spec; [|apply new_record_fits|].
Qed.

Lemma AddGcdMapEntry_spec g D rest E :
  (gcd_view g ≠ None → range_ok UINTN_WIDTH (gcd_BaseAddress g) (gcd_EndAddress g)) → Forall Fits D →
  (length (option_list (gcd_desc g)) <= length rest)%nat →
  wp (AddGcdMapEntry g (Z.of_nat (length D))) (Added D rest (option_list (gcd_desc g))) E (D ++ rest).
Proof.
  intros Hr HD Hroom. unfold AddGcdMapEntry, runtime_mmio.
  assert (∀ t a, gcd_view g = Some (t, a) →
    wp (AddGcdDescriptor g t a (Z.of_nat (length D))) (Added D rest (option_list (gcd_desc g))) E (D ++ rest)) as Hadd.
  { intros t a Hg. apply AddGcdDescriptor_spec; [done|apply Hr; by rewrite Hg|done|].
    unfold gcd_desc in Hroom. rewrite Hg in Hroom. by destruct rest; [cbn in *; lia|]. }
  assert (gcd_view g = None → Added D rest (option_list (gcd_desc g)) (Z.of_nat (length D)) (D ++ rest)) as Hskip.
  { intros Hg. unfold gcd_desc. rewrite Hg. by apply Added_nil. }
  unfold gcd_view in Hadd, Hskip. destruct (gcd_GcdMemoryType g) eqn:Ht;
    repeat first [rewrite bool_decide_false by done | rewrite bool_decide_true by done]; cbn [orb andb].
  all: repeat first [by apply Hskip | by apply Hadd | wp_step].
  all: try (eapply wp_mono; [by apply Hadd| |done]; intros; repeat wp_step; done).
  - rewrite H1 in *. eapply wp_mono; [by apply Hadd| |done]. intros. repeat wp_step. done.
  - rewrite H1 in *. by apply Hskip.
Qed.

(** A run of memory space with the same type and attributes. *)
Lemma gcd_merge m g :
  gcd_Capabilities m = gcd_Capabilities g → gcd_Attributes m = gcd_Attributes g → gcd_GcdMemoryType m = gcd_GcdMemoryType g →
  gcd_view (set_EndAddress (gcd_EndAddress g) m) = gcd_view g ∧ gcd_view m = gcd_view g.
Proof. intros HC HA HT. unfold gcd_view. cbn [gcd_Capabilities gcd_Attributes gcd_GcdMemoryType set_EndAddress]. by rewrite HC, HA, HT. Qed.

Lemma view_gcd_merge m g x :
  gcd_view m = gcd_view g → gcd_view (set_EndAddress (gcd_EndAddress g) m) = gcd_view g →
  (gcd_view g ≠ None → range_ok UINTN_WIDTH (gcd_BaseAddress m) (gcd_EndAddress m) ∧
     range_ok UINTN_WIDTH (gcd_BaseAddress g) (gcd_EndAddress g) ∧ gcd_BaseAddress g = gcd_EndAddress m + 1) →
  view (option_list (gcd_desc (set_EndAddress (gcd_EndAddress g) m))) x =
    view (option_list (gcd_desc m) ++ option_list (gcd_desc g)) x.
Proof.
  intros H1 H2 Hr. unfold gcd_desc. rewrite H1, H2. destruct (gcd_view g) as [[t a]|]; [|done].
  destruct (Hr ltac:(done)) as ((Hs & He & Ha & Hb) & (Hs' & He' & Ha' & Hb') & Hbase). unfold option_list. cbn [option_rect gcd_BaseAddress gcd_EndAddress set_EndAddress].
  rewrite view_app, !view_new_record by (by apply Z.divide_sub_r).
  repeat match goal with |- context [?a <=? ?b] => destruct (Z.leb_spec a b) | |- context [?a <? ?b] => destruct (Z.ltb_spec a b) end;
    cbn [andb app]; try done; lia.
Qed.

Lemma covered_gcd_merge m g :
  gcd_view m = gcd_view g → gcd_view (set_EndAddress (gcd_EndAddress g) m) = gcd_view g →
  (gcd_view g ≠ None → range_ok UINTN_WIDTH (gcd_BaseAddress m) (gcd_EndAddress m) ∧
     range_ok UINTN_WIDTH (gcd_BaseAddress g) (gcd_EndAddress g) ∧ gcd_BaseAddress g = gcd_EndAddress m + 1) →
  covered (option_list (gcd_desc m) ++ option_list (gcd_desc g)) (option_list (gcd_desc (set_EndAddress (gcd_EndAddress g) m))).
Proof.
  intros H1 H2 Hr. unfold gcd_desc. rewrite H1, H2. destruct (gcd_view g) as [[t a]|]; [|done].
  destruct (Hr ltac:(done)) as ((Hs & He & Ha & Hb) & (Hs' & He' & Ha' & Hb') & Hbase).
  unfold option_list. cbn [option_rect gcd_BaseAddress gcd_EndAddress set_EndAddress app]. apply covered_one.
  repeat (apply list.Forall_cons; split); try done; unfold contains; rewrite !new_record_end by (by apply Z.divide_sub_r);
    cbn [PhysicalStart new_record]; lia.
Qed.

Lemma range_merge m g :
  range_ok UINTN_WIDTH (gcd_BaseAddress m) (gcd_EndAddress m) → range_ok UINTN_WIDTH (gcd_BaseAddress g) (gcd_EndAddress g) →
  gcd_BaseAddress g = gcd_EndAddress m + 1 → range_ok UINTN_WIDTH (gcd_BaseAddress m) (gcd_EndAddress g).
Proof. intros (? & ? & ? & ?) (? & ? & ? & ?) ?. split_and!; done || lia. Qed.

Lemma AddGcdMapEntries_spec l : ∀ m D rest E,
  (gcd_view m ≠ None → range_ok UINTN_WIDTH (gcd_BaseAddress m) (gcd_EndAddress m)) →
  Forall (GcdOk UINTN_WIDTH) l → gcd_chain l →
  (gcd_view m ≠ None → match l with g :: _ => gcd_BaseAddress g = gcd_EndAddress m + 1 | [] => True end) →
  Forall Fits D → (length (gcd_descs (m :: l)) <= length rest)%nat →
  wp (AddGcdMapEntries l m (Z.of_nat (length D))) (Added D rest (gcd_descs (m :: l))) E (D ++ rest).
Proof.
  induction l as [|g l IH]; intros m D rest E Hm Hl Hchain Hfol HD Hroom; cbn [AddGcdMapEntries].
  { rewrite gcd_descs_cons in *. cbn [gcd_descs omap] in *. rewrite app_nil_r in *. by apply AddGcdMapEntry_spec. }
  apply list.Forall_cons in Hl as [[Hsig Hg] Hl].
  assert (gcd_chain l ∧ match l with g' :: _ => gcd_BaseAddress g' = gcd_EndAddress g + 1 | [] => True end) as [Hchain' Hfol'].
  { destruct l as [|g' l]; [done|]. cbn in Hchain. tauto. }
  wp_step. wp_step; [rewrite Hsig; apply Z.eqb_refl|]. wp_step.
  - apply andb_true_iff in H1 as [H1 _]. apply andb_true_iff in H1 as [H1 HT%bool_decide_eq_true].
    destruct (gcd_merge m g) as [Hv1 Hv2]; [lia|lia|done|]. rewrite Hv2 in *.
    assert (∀ x, view (option_list (gcd_desc (set_EndAddress (gcd_EndAddress g) m))) x =
      view (option_list (gcd_desc m) ++ option_list (gcd_desc g)) x) as Hview.
    { intros x. apply view_gcd_merge; [done|done|]. intros Hne. auto. }
    assert (length (option_list (gcd_desc (set_EndAddress (gcd_EndAddress g) m))) <= length (option_list (gcd_desc m)))%nat as Hlen.
    { unfold gcd_desc. rewrite Hv1, Hv2. destruct (gcd_view g) as [[??]|]; done. }
    rewrite !(gcd_descs_cons _ (g :: l)), !(gcd_descs_cons _ l), !length_app in *.
    eapply wp_mono; [apply (IH _ D rest)| |done]; try done.
    + cbn [gcd_BaseAddress gcd_EndAddress set_EndAddress]. rewrite Hv1. intros Hne. apply (range_merge m g); auto.
    + rewrite gcd_descs_cons, length_app. lia.
    + rewrite gcd_descs_cons. intros k A (D' & rest' & -> & -> & ? & Hle & ? & Hc & Hv). exists D', rest'. split_and!; try done.
      * rewrite !length_app in *. lia.
      * etransitivity; [|exact Hc]. apply covered_app; [done|]. rewrite app_assoc. apply covered_app; [|done].
        apply covered_gcd_merge; auto.
      * intros x. by rewrite Hv, !view_app, Hview, view_app, <- app_assoc.
  - rewrite (gcd_descs_cons m) in *. rewrite length_app in Hroom. wp_step.
    eapply wp_mono; [apply AddGcdMapEntry_spec; [done|done|lia]| |done].
    intros k A (D' & rest' & -> & -> & Hlen & Hle & Hok & Hcov & Hview). pose proof (Added_room _ _ _ _ _ Hlen Hle) as Hrm.
    eapply wp_mono; [apply IH; try done; lia| |done]. intros k A Hadd.
    by apply (Added_trans D rest _ (gcd_descs (g :: l)) D' rest').
Qed.

Lemma CountGcdEntries_spec l : ∀ n E A,
  Forall (GcdOk UINTN_WIDTH) l → Forall (λ g, gcd_GcdMemoryType g ≠ EfiGcdMemoryTypeUnaccepted) l →
  wp (CountGcdEntries l n) (λ n' A', A' = A ∧ n' = n + Z.of_nat (length (gcd_descs l))) E A.
Proof.
  induction l as [|g l IH]; intros n E A Hl Hu; cbn [CountGcdEntries].
  { wp_step. split; [done|]. cbn. lia. }
  apply list.Forall_cons in Hl as [[Hsig _] Hl]. apply list.Forall_cons in Hu as [Hu1 Hu].
  wp_step. wp_step; [rewrite Hsig; apply Z.eqb_refl|].
  eapply wp_mono; [by apply IH| |done]. intros n' A' [-> ->]. split; [done|]. rewrite gcd_descs_cons, length_app.
  unfold gcd_desc, gcd_view, runtime_mmio. destruct (gcd_GcdMemoryType g) eqn:Ht; try done;
    repeat first [rewrite bool_decide_false by done | rewrite bool_decide_true by done]; cbn [orb andb];
    repeat case_match; cbn; lia.
Qed.
End Proofs.

(** ** The result *)

(** What CoreGetMemoryMap relies on: a list of memory of whole pages, and a map of the memory space
    without holes whose visible entries are whole pages.  There is no memory space to be
    accepted. *)
Record MapsOk (w : Z) (gm : list MEMORY_MAP) (stats : list EFI_MEMORY_TYPE_STATISTICS) (gcd : list EFI_GCD_MAP_ENTRY) : Prop := {
  mo_statistics : (Z.to_nat EfiMaxMemoryType < length stats)%nat;
  mo_entries : Forall (EntryOk w) gm;
  mo_gcd : Forall (GcdOk w) gcd;
  mo_chain : gcd_chain gcd;
  mo_accepted : Forall (λ g, gcd_GcdMemoryType g ≠ EfiGcdMemoryTypeUnaccepted) gcd;
}.

(** A descriptor for each entry. *)
Definition full_map (gm : list MEMORY_MAP) (stats : list EFI_MEMORY_TYPE_STATISTICS) (gcd : list EFI_GCD_MAP_ENTRY)
    : list EFI_MEMORY_DESCRIPTOR := map (entry_desc stats) gm ++ gcd_descs gcd.

Definition cleared (p : Z * Z) : Z * Z := (p.1, Z.land p.2 (lnot_w 64 EFI_MEMORY_ACCESS_MASK)).

Section Result.
Context `{!Platform, !PlatformOk}.
Context (gm : list MEMORY_MAP) (stats : list EFI_MEMORY_TYPE_STATISTICS) (gcd : list EFI_GCD_MAP_ENTRY).

(** The size that is asked for. *)
Definition needed : Z := DESCRIPTOR_SIZE * Z.of_nat (length (full_map gm stats gcd)).

Lemma DESCRIPTOR_SIZE_pos : 0 < DESCRIPTOR_SIZE.
Proof. unfold DESCRIPTOR_SIZE, SIZEOF_EFI_MEMORY_DESCRIPTOR. pose proof (Z.mod_pos_bound (Z.max 4 ALIGNOF_UINT64 + 32) 8). lia. Qed.

Lemma BuildMap_spec (Hok : MapsOk UINTN_WIDTH gm stats gcd) A E :
  (length (full_map gm stats gcd) < length A)%nat →
  wp (BuildMemoryMap gm stats gcd)
    (λ k A', ∃ D rest, A' = D ++ rest ∧ k = Z.of_nat (length D) ∧ length A' = length A ∧
       (length D <= length (full_map gm stats gcd))%nat ∧ Forall Fits D ∧ covered (full_map gm stats gcd) D ∧ ∀ x, view D x ≡ₚ view (full_map gm stats gcd) x) E A.
Proof.
  intros HA. destruct Hok as [Hst He Hg Hch _]. unfold full_map in *. rewrite length_app, length_map in HA.
  unfold BuildMemoryMap. wp_step. eapply wp_mono; [apply (AddMemoryMapEntries_spec stats Hst gm [] A); [done|done|lia]| |done].
  intros k A' (D & rest & -> & -> & Hlen & Hle & Hok & Hcov & Hview). cbn [app length] in *. rewrite length_map in Hle.
  rewrite length_app in Hlen.
  eapply wp_mono; [apply (AddGcdMapEntries_spec gcd zero_gcd_entry D rest); try done|  |done].
  - change (gcd_descs (zero_gcd_entry :: gcd)) with (gcd_descs gcd). lia.
  - change (gcd_descs (zero_gcd_entry :: gcd)) with (gcd_descs gcd). intros k A' (D' & rest' & -> & -> & Hlen' & Hle' & Hok' & Hcov' & Hview').
    exists D', rest'. rewrite !length_app in *. rewrite length_map. split_and!; try done; [lia|lia|..].
    { etransitivity; [|exact Hcov']. by apply covered_app. }
    intros x. by rewrite Hview', !view_app, Hview.
Qed.

Lemma clear_access_fields d :
  PhysicalStart (clear_access d) = PhysicalStart d ∧ NumberOfPages (clear_access d) = NumberOfPages d ∧
  (Type_ (clear_access d), Attribute (clear_access d)) = cleared (Type_ d, Attribute d).
Proof. done. Qed.

Lemma CoreGetMemoryMap_spec (Hok : MapsOk UINTN_WIDTH gm stats gcd) NonNull MemoryMapSize A E :
  needed < 2 ^ UINTN_WIDTH →
  (NonNull = true → needed <= MemoryMapSize → (length (full_map gm stats gcd) < length A)%nat) →
  wp (CoreGetMemoryMap gm stats gcd None NonNull MemoryMapSize)
    (λ '(Status, Size) A',
       if MemoryMapSize <? needed then Status = Some RETURN_BUFFER_TOO_SMALL ∧ Size = needed ∧ A' = A
       else if NonNull then Status = None ∧ ∃ new rest, A' = new ++ rest ∧ Size = Z.of_nat (length new) * DESCRIPTOR_SIZE ∧
         length A' = length A ∧ (length new <= length (full_map gm stats gcd))%nat ∧ Forall Fits new ∧ covered (full_map gm stats gcd) new ∧
         ∀ x, view new x ≡ₚ map cleared (view (full_map gm stats gcd) x)
       else Status = Some RETURN_INVALID_PARAMETER ∧ Size = needed ∧ A' = A) E A.
Proof.
  intros Hw Hroom. unfold CoreGetMemoryMap. pose proof DESCRIPTOR_SIZE_pos as Hpos.
  wp_step. eapply wp_mono; [apply (CountGcdEntries_spec gcd); [apply (mo_gcd _ _ _ _ Hok)|apply (mo_accepted _ _ _ _ Hok)]| |done].
  intros n A' [-> ->]. rewrite Z.add_0_l.
  replace (Z.of_nat (length (gcd_descs gcd)) + Z.of_nat (length gm)) with (Z.of_nat (length (full_map gm stats gcd)))
    by (unfold full_map; rewrite length_app, length_map; lia).
  fold needed. assert (wrapn needed = needed) as ->.
  { unfold wrapn. apply wrap_small. split; [|done]. unfold needed. lia. }
  destruct (Z.ltb_spec MemoryMapSize needed) as [|Hsz]; [by wp_step|]. destruct NonNull; cbn [negb]; [|by wp_step].
  specialize (Hroom eq_refl Hsz). unfold needed at 1. rewrite (Z.mul_comm DESCRIPTOR_SIZE), Z.div_mul by lia.
  wp_step. unfold ZeroMemoryMap. wp_step. wp_step. wp_step. wp_step; [lia|]. wp_step.
  rewrite Nat2Z.id. set (A0 := replicate _ _ ++ _).
  assert (length A0 = length A) as HA0 by (subst A0; rewrite length_app, length_replicate, length_drop; lia).
  wp_step. eapply wp_mono; [apply BuildMap_spec; [done|lia]| |done].
  intros k A' (D & rest & -> & -> & Hlen & Hle & HD & Hcov & Hview). rewrite Nat2Z.id.
  wp_step. eapply wp_mono; [apply update_all| |done]. intros _ A' ->.
  rewrite length_app in Hlen.
  assert (Forall DescOk (map clear_access D)) as HD'.
  { apply map_DescOk; [done|]. eapply list.Forall_impl; [exact HD|]. by intros d []. }
  wp_step. rewrite <- (length_map clear_access D).
  eapply wp_mono; [apply MergeMemoryMap_spec; [done|by destruct rest; [cbn in *; lia|]]| |done].
  intros k A' (new & rest' & -> & -> & Hlen' & Hok' & Hv & He & Hcov' & _). rewrite !length_app, length_map in Hlen'. wp_step.
  assert (Z.of_nat (length new) <= Z.of_nat (length (full_map gm stats gcd))) as Hle' by lia.
  split; [done|]. exists new, (rest' ++ rest). split_and!; try done.
  - unfold wrapn. apply wrap_small. split; [lia|]. unfold needed in Hw. nia.
  - rewrite !length_app. lia.
  - lia.
  - assert (Forall (λ d, desc_end d < 2 ^ UINTN_WIDTH) new) as Hend.
    { apply He, Forall_map. eapply list.Forall_impl; [exact HD|]. by intros d []. }
    apply list.Forall_forall. intros d Hd. split; [exact (proj1 (list.Forall_forall _ _) Hok' d Hd)|exact (proj1 (list.Forall_forall _ _) Hend d Hd)].
  - etransitivity; [exact Hcov|]. etransitivity; [by apply (covered_map clear_access)|done].
  - intros x. rewrite Hv, (view_map clear_access cleared) by done. by rewrite Hview.
Qed.
End Result.

(** ** Properties *)

(** C15. CoreGetMemoryMap describes the memory exactly: with a buffer that is too small it returns the
    size it needs and leaves the buffer alone; else the map has, for each address, the type and the
    attributes of the entries of gMemoryMap and of the memory space it is in, without the access
    permissions, however the descriptors were merged, and each entry is in one of the
    descriptors.  No ASSERT fails and nothing behind the buffer is accessed, if the buffer has an entry
    more than needed and no memory space is to be accepted. *)
Theorem get_memory_map_exact `{!Platform, !PlatformOk} (gm : list MEMORY_MAP) (stats : list EFI_MEMORY_TYPE_STATISTICS)
    (gcd : list EFI_GCD_MAP_ENTRY) (MemoryMapSize : Z) (A : list EFI_MEMORY_DESCRIPTOR) :
  MapsOk UINTN_WIDTH gm stats gcd → needed gm stats gcd < 2 ^ UINTN_WIDTH →
  (needed gm stats gcd <= MemoryMapSize → (length (full_map gm stats gcd) < length A)%nat) →
  match CoreGetMemoryMap gm stats gcd None true MemoryMapSize A with
  | Ok (Some e, Size) A' =>
      e = RETURN_BUFFER_TOO_SMALL ∧ MemoryMapSize < needed gm stats gcd ∧ Size = needed gm stats gcd ∧ A' = A
  | Ok (None, Size) A' => needed gm stats gcd <= MemoryMapSize ∧
      ∃ new rest, A' = new ++ rest ∧ length A' = length A ∧ Size = Z.of_nat (length new) * DESCRIPTOR_SIZE ∧
        covered (full_map gm stats gcd) new ∧
        ∀ x, view new x ≡ₚ map cleared (view (full_map gm stats gcd) x)
  | _ => False
  end.
Proof.
  intros Hok Hw Hroom.
  pose proof (wp_cases _ _ _ _ (CoreGetMemoryMap_spec gm stats gcd Hok true MemoryMapSize A (λ _ _, False) Hw (λ _, Hroom))) as Hr.
  destruct (CoreGetMemoryMap _ _ _ _ _ _ _) as [[[e|] Size] A'| |]; try done;
    destruct (Z.ltb_spec MemoryMapSize (needed gm stats gcd)); destruct Hr as [He Hr]; try done.
  - destruct Hr as [-> ->]. by injection He as ->.
  - destruct Hr as (new & rest & ? & ? & ? & ? & _ & ? & ?). split; [done|]. by exists new, rest.
Qed.

(** ** Examples *)

Definition no_bin (Special Runtime : bool) : EFI_MEMORY_TYPE_STATISTICS :=
  {| st_BaseAddress := 0; st_MaximumAddress := 2 ^ 64 - 1; st_CurrentNumberOfPages := 0; st_NumberOfPages := 0;
     st_InformationIndex := EfiMaxMemoryType; st_Special := Special; st_Runtime := Runtime |}.

(** The initial value of mMemoryTypeStatistics. *)
Definition initial_statistics : list EFI_MEMORY_TYPE_STATISTICS :=
  [no_bin true false; no_bin false false; no_bin false false; no_bin false false; no_bin false false;
   no_bin true true; no_bin true true; no_bin false false; no_bin false false; no_bin true false;
   no_bin true false; no_bin false false; no_bin false false; no_bin true true; no_bin false false;
   no_bin true false; no_bin false false].

Definition memory (t Start End_ : Z) : MEMORY_MAP :=
  {| mm_Signature := MEMORY_MAP_SIGNATURE; mm_Type := t; mm_Start := Start; mm_End := End_; mm_VirtualStart := 0;
     mm_Attribute := 0x2400f |}.

Definition space (t : EFI_GCD_MEMORY_TYPE) (Start End_ : Z) : EFI_GCD_MAP_ENTRY :=
  {| gcd_Signature := EFI_GCD_MAP_SIGNATURE; gcd_BaseAddress := Start; gcd_EndAddress := End_;
     gcd_Capabilities := 0xf; gcd_Attributes := 0; gcd_GcdMemoryType := t; gcd_GcdIoType := 0 |}.

Definition sample_memory : list MEMORY_MAP := [memory 7 0x5000 0xffff; memory 5 0x1000 0x3fff; memory 5 0x4000 0x4fff].
Definition sample_space : list EFI_GCD_MAP_ENTRY :=
  [space EfiGcdMemoryTypeReserved 0 0xfff; space EfiGcdMemoryTypeSystemMemory 0x1000 0xffff;
   space EfiGcdMemoryTypeReserved 0x10000 0x10fff; space EfiGcdMemoryTypeReserved 0x11000 0x1ffff].

Lemma sample_maps_ok : MapsOk 64 sample_memory initial_statistics sample_space.
Proof.
  constructor; [by apply Nat.ltb_lt|..|by repeat constructor].
  - repeat constructor; cbn; try lia; by apply Z.mod_divide.
  - repeat constructor; cbn; try lia; by apply Z.mod_divide.
  - by cbn.
Qed.

Lemma get_memory_map_exact_witness :
  @CoreGetMemoryMap platform_x64 sample_memory initial_statistics sample_space None true 0 [] = Ok (Some RETURN_BUFFER_TOO_SMALL, 288) [] ∧
  match @CoreGetMemoryMap platform_x64 sample_memory initial_statistics sample_space None true 288 (replicate 7 blank) with
  | Ok (None, Size) A' => Size = 192 ∧ take 4 A' =
      [new_record 7 0x5000 11 0xf; new_record 5 0x1000 4 0x800000000000000f; new_record 0 0 1 0xf; new_record 0 0x10000 16 0xf] ∧
      ∃ new rest, A' = new ++ rest ∧ length A' = 7%nat ∧ Size = Z.of_nat (length new) * 48 ∧
        covered (full_map sample_memory initial_statistics sample_space) new ∧
        ∀ x, view new x ≡ₚ map cleared (view (full_map sample_memory initial_statistics sample_space) x)
  | _ => False
  end.
Proof.
  split; [by vm_compute|].
  pose proof (@get_memory_map_exact platform_x64 platform_x64_ok sample_memory initial_statistics sample_space 288
    (replicate 7 blank) sample_maps_ok ltac:(by vm_compute) ltac:(intros _; by apply Nat.ltb_lt; vm_compute)) as Hr.
  set (run := @CoreGetMemoryMap platform_x64 sample_memory initial_statistics sample_space None true 288 (replicate 7 blank)) in *.
  assert (match run with Ok (None, Size) A' => Size = 192 ∧ take 4 A' =
      [new_record 7 0x5000 11 0xf; new_record 5 0x1000 4 0x800000000000000f; new_record 0 0 1 0xf; new_record 0 0x10000 16 0xf] | _ => False end)
    as Hc by (by vm_compute).
  destruct run as [[[e|] Size] A'| |]; try done. destruct Hc as [-> ->], Hr as [_ Hr]. done.
Defined.

(** With memory space to be accepted, the size that is asked for is too small for the map: the caller's
    buffer overflows. *)
Lemma get_memory_map_unaccepted :
  let gcd := [space EfiGcdMemoryTypeUnaccepted 0 0xffff] in
  @CoreGetMemoryMap platform_x64 [] initial_statistics gcd None false 0 [] = Ok (Some RETURN_INVALID_PARAMETER, 0) [] ∧
  @CoreGetMemoryMap platform_x64 [memory 7 0x10000 0x1ffff] initial_statistics gcd None false 0 [] = Ok (Some RETURN_BUFFER_TOO_SMALL, 48) [] ∧
  @CoreGetMemoryMap platform_x64 [memory 7 0x10000 0x1ffff] initial_statistics gcd None true 48 [blank] = Fault OutOfBounds.
Proof. split_and!; by vm_compute. Qed.

(** In a buffer of just the size that is asked for, the merging of the descriptors reads behind it. *)
Lemma get_memory_map_overread :
  @CoreGetMemoryMap platform_x64 [memory 7 0 0xffff] initial_statistics [] None true 0 [] = Ok (Some RETURN_BUFFER_TOO_SMALL, 48) [] ∧
  @CoreGetMemoryMap platform_x64 [memory 7 0 0xffff] initial_statistics [] None true 48 [blank] = Fault OutOfBounds.
Proof. split; by vm_compute. Qed.
