(* ===== verification/MemoryAttributes.v ===== *)
(** MemoryAttributesTable.c: the records of the runtime images, the memory map with their
    permissions, and the entries of the memory attributes table. *)
From stdpp Require Import list sorting relations.
From S2P Require Import Prelude Base Buffer Platform Overflow ImageRecord MemoryMap SplitTable SplitCoverage MemoryMerge GetMemoryMap.

(** mImagePropertiesPrivateData and the two flags that the records depend on. *)
Record IMAGE_PROPERTIES_PRIVATE_DATA := {
  ImageRecordCount : Z;
  SectionCountMax : Z;
  ImageRecordList : list UEFI_IMAGE_RECORD;
  mMemoryAttributesTableEnable : bool;
  mMemoryAttributesTableEndOfDxe : bool;
}.

Definition set_Records (count max : Z) (l : list UEFI_IMAGE_RECORD) (g : IMAGE_PROPERTIES_PRIVATE_DATA) : IMAGE_PROPERTIES_PRIVATE_DATA :=
  {| ImageRecordCount := count; SectionCountMax := max; ImageRecordList := l;
     mMemoryAttributesTableEnable := mMemoryAttributesTableEnable g; mMemoryAttributesTableEndOfDxe := mMemoryAttributesTableEndOfDxe g |}.
Definition set_Enable (b : bool) (g : IMAGE_PROPERTIES_PRIVATE_DATA) : IMAGE_PROPERTIES_PRIVATE_DATA :=
  {| ImageRecordCount := ImageRecordCount g; SectionCountMax := SectionCountMax g; ImageRecordList := ImageRecordList g;
     mMemoryAttributesTableEnable := b; mMemoryAttributesTableEndOfDxe := mMemoryAttributesTableEndOfDxe g |}.
Definition set_EndOfDxe (b : bool) (g : IMAGE_PROPERTIES_PRIVATE_DATA) : IMAGE_PROPERTIES_PRIVATE_DATA :=
  {| ImageRecordCount := ImageRecordCount g; SectionCountMax := SectionCountMax g; ImageRecordList := ImageRecordList g;
     mMemoryAttributesTableEnable := mMemoryAttributesTableEnable g; mMemoryAttributesTableEndOfDxe := b |}.

(** The initial values. *)
Definition initial_properties : IMAGE_PROPERTIES_PRIVATE_DATA :=
  {| ImageRecordCount := 0; SectionCountMax := 0; ImageRecordList := []; mMemoryAttributesTableEnable := true;
     mMemoryAttributesTableEndOfDxe := false |}.

Abbreviation RecM := (M IMAGE_PROPERTIES_PRIVATE_DATA).

Section Code.
Context `{!Platform}.

Definition SetMemoryAttributesTableSectionAlignment (SectionAlignment : Z) : RecM unit :=
  g ← getS;
  if negb (Z.land SectionAlignment (RUNTIME_PAGE_ALLOCATION_GRANULARITY - 1) =? 0) && mMemoryAttributesTableEnable g
  then modify (set_Enable false) else mret tt.

(** The loop of InsertSortImageRecord and InsertHeadList behind PrevImageRecordLink. *)
Fixpoint InsertSorted (NewImageRecord : UEFI_IMAGE_RECORD) (l : list UEFI_IMAGE_RECORD) : RecM (list UEFI_IMAGE_RECORD) :=
  match l with
  | [] => mret [NewImageRecord]
  | r :: l' =>
      ASSERT (Signature r =? UEFI_IMAGE_RECORD_SIGNATURE);;
      if StartAddress NewImageRecord <? StartAddress r then mret (NewImageRecord :: r :: l')
      else l'' ← InsertSorted NewImageRecord l'; mret (r :: l'')
  end.

Definition InsertSortImageRecord (NewImageRecord : UEFI_IMAGE_RECORD) : RecM unit :=
  g ← getS;
  l ← InsertSorted NewImageRecord (ImageRecordList g);
  modify (set_Records (wrapn (ImageRecordCount g + 1))
    (if SectionCountMax g <? NumSegments NewImageRecord then NumSegments NewImageRecord else SectionCountMax g) l).

(** [SectionAlignment] and [ImageRecord] are what UefiImageGetSegmentAlignment and
    UefiImageLoaderGetImageRecord return for the image. *)
Definition InsertImageRecord (SectionAlignment : Z) (ImageRecord : option UEFI_IMAGE_RECORD) : RecM unit :=
  g ← getS;
  if mMemoryAttributesTableEndOfDxe g then mret tt
  else
    SetMemoryAttributesTableSectionAlignment SectionAlignment;;
    if negb (Z.land SectionAlignment (RUNTIME_PAGE_ALLOCATION_GRANULARITY - 1) =? 0) then mret tt
    else match ImageRecord with
         | None => mret tt
         | Some r => InsertSortImageRecord r
         end.

(** The position of the record in the list. *)
Fixpoint FindImageRecord (ImageBase : Z) (l : list UEFI_IMAGE_RECORD) : RecM (option nat) :=
  match l with
  | [] => mret None
  | r :: l' =>
      ASSERT (Signature r =? UEFI_IMAGE_RECORD_SIGNATURE);;
      if ImageBase =? StartAddress r then mret (Some O)
      else o ← FindImageRecord ImageBase l'; mret (option_map S o)
  end.

(** RemoveEntryList and FreePool. *)
Definition DeleteImagePropertiesRecord (n : nat) (l : list UEFI_IMAGE_RECORD) : list UEFI_IMAGE_RECORD := take n l ++ drop (S n) l.

Definition RemoveImageRecord (ImageBase : Z) : RecM unit :=
  g ← getS;
  if mMemoryAttributesTableEndOfDxe g then mret tt
  else
    o ← FindImageRecord ImageBase (ImageRecordList g);
    match o with
    | None => mret tt
    | Some n => modify (λ g, set_Records (wrapn (ImageRecordCount g - 1)) (SectionCountMax g)
                               (DeleteImagePropertiesRecord n (ImageRecordList g)) g)
    end.

(** What InstallMemoryAttributesTableOnEndOfDxe does to this state. *)
Definition EndOfDxe : RecM unit := modify (set_EndOfDxe true).

(** Returns the status, [None] for EFI_SUCCESS, and *MemoryMapSize.  [GetMap] is CoreGetMemoryMap with the
    memory it describes. *)
Definition CoreGetMemoryMapWithSeparatedImageSection (g : IMAGE_PROPERTIES_PRIVATE_DATA)
    (GetMap : Z → MapM (option RETURN_STATUS * Z)) (FreedGuard : option (Z → Z)) (NonNull : bool) (MemoryMapSize : Z)
    : MapM (option RETURN_STATUS * Z) :=
  if negb (mMemoryAttributesTableEnable g) then GetMap MemoryMapSize
  else
    let AdditionalRecordCount := wrapn ((SectionCountMax g + 1) * ImageRecordCount g) in
    let AdditionalSize := wrapn (DESCRIPTOR_SIZE * AdditionalRecordCount) in
    '(Status, Size) ← GetMap MemoryMapSize;
    match Status with
    | Some RETURN_BUFFER_TOO_SMALL => mret (Status, wrapn (Size + AdditionalSize))
    | Some _ => mret (Status, Size)
    | None =>
        ASSERT NonNull;;
        if wrapn (MemoryMapSize - Size) <? AdditionalSize then
          mret (Some RETURN_BUFFER_TOO_SMALL, wrapn (Size + AdditionalSize))
        else
          Size ← SplitTable (ImageRecordList g) Size DESCRIPTOR_SIZE AdditionalRecordCount;
          EnforceMemoryMapAttribute (Size / DESCRIPTOR_SIZE);;
          k ← MergeMemoryMap FreedGuard (Size / DESCRIPTOR_SIZE);
          mret (None, wrapn (k * DESCRIPTOR_SIZE))
    end.

(** ** The table *)

(** The loop of InstallMemoryAttributesTable that counts the entries, carrying RuntimeEntryCount. *)
Definition CountRuntime (Index RuntimeEntryCount : Z) : MapM Z :=
  d ← get_desc Index;
  mret (if (Type_ d =? EfiRuntimeServicesCode) || (Type_ d =? EfiRuntimeServicesData) then wrap 32 (RuntimeEntryCount + 1)
        else RuntimeEntryCount).

(** The loop that copies them: [Table] are the entries of the table, [k] is the next one. *)
Definition CopyRuntime (Index : Z) (acc : list EFI_MEMORY_DESCRIPTOR * Z) : MapM (list EFI_MEMORY_DESCRIPTOR * Z) :=
  let '(Table, k) := acc in
  d ← get_desc Index;
  if (Type_ d =? EfiRuntimeServicesCode) || (Type_ d =? EfiRuntimeServicesData) then
    require ((0 <=? k) && (k <? Z.of_nat (length Table))) OutOfBounds;;
    mret (<[Z.to_nat k := set_Attribute (Z.land (Attribute d) (Z.lor EFI_MEMORY_ACCESS_MASK EFI_MEMORY_RUNTIME)) d]> Table, k + 1)
  else mret (Table, k).

(** [n] entries of a memory map; [Allocate] gives the memory for the entries of the table. *)
Definition BuildMemoryAttributesTable (n : Z) (Allocate : Z → list EFI_MEMORY_DESCRIPTOR) : MapM (list EFI_MEMORY_DESCRIPTOR) :=
  RuntimeEntryCount ← for_loop (Z.to_nat n) 0 CountRuntime 0;
  '(Table, _) ← for_loop (Z.to_nat n) 0 CopyRuntime (Allocate RuntimeEntryCount, 0);
  mret Table.
End Code.

(** ** The records *)

Record RegistryOk (w : Z) (g : IMAGE_PROPERTIES_PRIVATE_DATA) : Prop := {
  re_images : ImagesOk w (ImageRecordList g);
  re_count : ImageRecordCount g = Z.of_nat (length (ImageRecordList g));
  re_max : Forall (λ r, NumSegments r <= SectionCountMax g) (ImageRecordList g);
  re_nonneg : 0 <= SectionCountMax g < 2 ^ 31;
}.

(** The memory of two images is apart. *)
Definition apart (r r' : UEFI_IMAGE_RECORD) : Prop := EndAddress r <= StartAddress r' ∨ EndAddress r' <= StartAddress r.

Section Registry.
Context `{!Platform, !PlatformOk}.

(** Images that do not overlap are not too many to be counted. *)
Lemma images_count l lo :
  ImagesOk UINTN_WIDTH l → Forall (λ r, lo <= StartAddress r) l → l ≠ [] → lo + Z.of_nat (length l) < 2 ^ UINTN_WIDTH.
Proof.
  intros [Hrec Hsort]. revert lo. induction Hsort as [|r l Hsort IH Hall]; intros lo Hlo Hne; [done|].
  apply list.Forall_cons in Hrec as [Hr Hrec]. apply list.Forall_cons in Hlo as [Hlo _].
  pose proof (ro_nonempty _ _ Hr). pose proof (ro_width _ _ Hr). destruct l as [|r' l]; [cbn; lia|].
  specialize (IH Hrec (EndAddress r) Hall ltac:(done)). cbn [length] in *. lia.
Qed.

Lemma images_count0 l : ImagesOk UINTN_WIDTH l → Z.of_nat (length l) < 2 ^ UINTN_WIDTH.
Proof.
  intros Hl. destruct l as [|r l]; [cbn; destruct platform_uintn as [->| ->]; lia|].
  pose proof (images_count (r :: l) 0 Hl) as Hc. rewrite Z.add_0_l in Hc. apply Hc; [|done].
  eapply list.Forall_impl; [apply (im_records _ _ Hl)|]. intros r' Hr'. apply (ro_start _ _ Hr').
Qed.

Lemma InsertSorted_spec new l g E :
  ImagesOk UINTN_WIDTH l → RecOk UINTN_WIDTH new → Forall (apart new) l →
  wp (InsertSorted new l) (λ l' g', g' = g ∧ l' ≡ₚ new :: l ∧ ImagesOk UINTN_WIDTH l' ∧
    ∀ y, y <= StartAddress new → Forall (λ r, y <= StartAddress r) l → Forall (λ r, y <= StartAddress r) l') E g.
Proof.
  intros [Hrec Hsort] Hnew. induction Hsort as [|r l Hsort IH Hall]; intros Hap; cbn [InsertSorted].
  { wp_step. split_and!; try done; [constructor; [by constructor|by repeat constructor]|]. intros. by constructor. }
  apply list.Forall_cons in Hrec as [Hr Hrec]. apply list.Forall_cons in Hap as [Ha Hap].
  pose proof (ro_nonempty _ _ Hr). pose proof (ro_nonempty _ _ Hnew). unfold apart in Ha.
  wp_step. wp_step; [rewrite (ro_signature _ _ Hr); apply Z.eqb_refl|]. wp_step.
  - wp_step. split_and!; try done.
    + constructor; [by constructor; [|constructor]|]. constructor; [by constructor|]. constructor; [lia|].
      eapply list.Forall_impl; [exact Hall|]. cbn. lia.
    + intros y Hy Hl. by constructor.
  - wp_step. eapply wp_mono; [by apply IH| |done]. intros l' g' (-> & Hperm & Hok & Hlow). wp_step. split_and!; try done.
    + by rewrite Hperm, perm_swap.
    + constructor; [constructor; [done|apply (im_records _ _ Hok)]|]. constructor; [apply (im_sorted _ _ Hok)|].
      apply Hlow; [lia|done].
    + intros y Hy Hl. apply list.Forall_cons in Hl as [? Hl]. constructor; [done|]. by apply Hlow.
Qed.

Lemma InsertSortImageRecord_spec new g E :
  RegistryOk UINTN_WIDTH g → RecOk UINTN_WIDTH new → Forall (apart new) (ImageRecordList g) →
  wp (InsertSortImageRecord new) (λ _ g', RegistryOk UINTN_WIDTH g' ∧ ImageRecordList g' ≡ₚ new :: ImageRecordList g ∧
    mMemoryAttributesTableEndOfDxe g' = mMemoryAttributesTableEndOfDxe g ∧ mMemoryAttributesTableEnable g' = mMemoryAttributesTableEnable g) E g.
Proof.
  intros [Him Hcnt Hmax Hnn] Hnew Hap. unfold InsertSortImageRecord. wp_step. wp_step. wp_step.
  eapply wp_mono; [by apply InsertSorted_spec| |done]. intros l g' (-> & Hperm & Hok & _). wp_step.
  split_and!; try done. constructor; cbn [ImageRecordList ImageRecordCount SectionCountMax set_Records]; [done|..].
  - pose proof (images_count0 _ Hok) as Hc. apply Permutation_length in Hperm. cbn in Hperm. rewrite Hcnt.
    unfold wrapn. rewrite wrap_small by (split; lia). lia.
  - rewrite Hperm. constructor; [case_match; lia|]. eapply list.Forall_impl; [exact Hmax|]. cbn. intros. case_match; lia.
  - pose proof (ro_small _ _ Hnew). case_match; lia.
Qed.

Lemma FindImageRecord_spec base l g E :
  Forall (RecOk UINTN_WIDTH) l →
  wp (FindImageRecord base l) (λ o g', g' = g ∧
    match o with
    | Some n => ∃ r, l !! n = Some r ∧ StartAddress r = base
    | None => Forall (λ r, StartAddress r ≠ base) l
    end) E g.
Proof.
  induction 1 as [|r l Hr Hl IH]; cbn [FindImageRecord]; [by wp_step|].
  wp_step. wp_step; [rewrite (ro_signature _ _ Hr); apply Z.eqb_refl|]. wp_step.
  - wp_step. split; [done|]. exists r. split; [done|lia].
  - wp_step. eapply wp_mono; [exact IH| |done]. intros o g' [-> Ho]. wp_step. split; [done|].
    destruct o as [n|]; cbn; [done|]. constructor; [lia|done].
Qed.

Lemma delete_sublist n l : DeleteImagePropertiesRecord n l `sublist_of` l.
Proof. unfold DeleteImagePropertiesRecord. rewrite <- (take_drop n l) at 3. apply sublist_app; [done|]. rewrite <- (Nat.add_1_r n), <- drop_drop. apply sublist_drop. Qed.

Lemma StronglySorted_sublist {A} (R : relation A) (l l' : list A) : l' `sublist_of` l → StronglySorted R l → StronglySorted R l'.
Proof.
  induction 1 as [|x l1 l2 Hs IH|x l1 l2 Hs IH]; intros Hl; [done|..]; inversion Hl; subst; [|by apply IH].
  constructor; [by apply IH|]. apply list.Forall_forall. intros y Hy. eapply (proj1 (list.Forall_forall _ _)); [eassumption|]. by eapply elem_of_sublist.
Qed.

Lemma ImagesOk_sublist l l' : l' `sublist_of` l → ImagesOk UINTN_WIDTH l → ImagesOk UINTN_WIDTH l'.
Proof.
  intros Hsub [Hrec Hsort]. constructor; [|by eapply StronglySorted_sublist].
  apply list.Forall_forall. intros r Hr. eapply (proj1 (list.Forall_forall _ _) Hrec). by eapply elem_of_sublist.
Qed.

(** The records have different addresses. *)
Lemma delete_starts l n r :
  ImagesOk UINTN_WIDTH l → l !! n = Some r → Forall (λ r', StartAddress r' ≠ StartAddress r) (DeleteImagePropertiesRecord n l).
Proof.
  intros [Hrec Hsort]. revert n. induction Hsort as [|r0 l Hsort IH Hall]; intros [|n] Hn; try done.
  - injection Hn as ->. apply list.Forall_cons in Hrec as [Hr Hrec]. cbn. rewrite drop_0. eapply list.Forall_impl; [exact Hall|].
    cbn. pose proof (ro_nonempty _ _ Hr). lia.
  - apply list.Forall_cons in Hrec as [Hr Hrec]. cbn in Hn. specialize (IH Hrec n Hn). cbn. constructor; [|done].
    pose proof (proj1 (list.Forall_forall _ _) Hall r (list_elem_of_lookup_2 _ _ _ Hn)) as Hle. cbn in Hle.
    pose proof (ro_nonempty _ _ Hr). lia.
Qed.

Lemma RemoveImageRecord_spec base g E :
  RegistryOk UINTN_WIDTH g →
  wp (RemoveImageRecord base) (λ _ g', RegistryOk UINTN_WIDTH g' ∧ ImageRecordList g' `sublist_of` ImageRecordList g ∧
    (mMemoryAttributesTableEndOfDxe g = false → Forall (λ r, StartAddress r ≠ base) (ImageRecordList g'))) E g.
Proof.
  intros Hg. pose proof Hg as [Him Hcnt Hmax Hnn]. unfold RemoveImageRecord. wp_step. wp_step. wp_step; [wp_step; by rewrite H1|].
  wp_step. eapply wp_mono; [apply FindImageRecord_spec, (im_records _ _ Him)| |done]. intros o g' [-> Ho]. destruct o as [n|]; [|by wp_step].
  destruct Ho as (r & Hr & Hbase). wp_step. pose proof (delete_sublist n (ImageRecordList g)) as Hsub.
  pose proof (ImagesOk_sublist _ _ Hsub Him) as Him'. cbn [ImageRecordList set_Records].
  split_and!; [|done|intros _; rewrite <- Hbase; by apply delete_starts]. constructor; cbn [ImageRecordList ImageRecordCount SectionCountMax set_Records]; [done| | |done].
  - pose proof (images_count0 _ Him) as Hc. apply lookup_lt_Some in Hr. rewrite Hcnt. unfold wrapn, DeleteImagePropertiesRecord.
    rewrite wrap_small by (split; lia). rewrite length_app, length_take, length_drop. lia.
  - apply list.Forall_forall. intros r' Hr'. eapply (proj1 (list.Forall_forall _ _) Hmax). by eapply elem_of_sublist.
Qed.

(** The alignment the table needs. *)
Definition aligned_image (SectionAlignment : Z) : bool :=
  Z.land SectionAlignment (RUNTIME_PAGE_ALLOCATION_GRANULARITY - 1) =? 0.

Lemma InsertImageRecord_spec a r g E :
  RegistryOk UINTN_WIDTH g → (aligned_image a = true → RecOk UINTN_WIDTH r ∧ Forall (apart r) (ImageRecordList g)) →
  wp (InsertImageRecord a (Some r)) (λ _ g', RegistryOk UINTN_WIDTH g' ∧
    mMemoryAttributesTableEndOfDxe g' = mMemoryAttributesTableEndOfDxe g ∧
    if mMemoryAttributesTableEndOfDxe g then g' = g
    else if aligned_image a then ImageRecordList g' ≡ₚ r :: ImageRecordList g ∧ mMemoryAttributesTableEnable g' = mMemoryAttributesTableEnable g
    else g' = set_Enable false g) E g.
Proof.
  intros Hg Hr. unfold InsertImageRecord. wp_step. wp_step. wp_step; rewrite H1; [by wp_step|].
  unfold SetMemoryAttributesTableSectionAlignment, aligned_image in *. wp_step. wp_step. wp_step.
  destruct (Z.land a (RUNTIME_PAGE_ALLOCATION_GRANULARITY - 1) =? 0) eqn:Ha; cbn [negb andb].
  - wp_step. eapply wp_mono; [apply InsertSortImageRecord_spec; [done|apply Hr; done..]| |done]. intros _ g' (? & ? & He & ?). by rewrite He.
  - wp_step.
    + wp_step. wp_step. split_and!; try done. by destruct Hg.
    + wp_step. wp_step. split_and!; try done. unfold set_Enable. destruct g. cbn in *. by rewrite H2.
Qed.
End Registry.

(** ** Histories *)

Section Histories.
Context `{!Platform, !PlatformOk}.

(** What happens to the records: a runtime image is loaded into memory that no other image is in, or
    fails to be; an image is unloaded; the end of the DXE phase. *)
Inductive rec_step (g : IMAGE_PROPERTIES_PRIVATE_DATA) : IMAGE_PROPERTIES_PRIVATE_DATA → Prop :=
| step_insert a r g' :
    (aligned_image a = true → RecOk UINTN_WIDTH r ∧ Forall (apart r) (ImageRecordList g)) →
    InsertImageRecord a (Some r) g = Ok tt g' → rec_step g g'
| step_no_record a g' : InsertImageRecord a None g = Ok tt g' → rec_step g g'
| step_remove base g' : RemoveImageRecord base g = Ok tt g' → rec_step g g'
| step_end_of_dxe g' : EndOfDxe g = Ok tt g' → rec_step g g'.

Lemma InsertImageRecord_none a g E :
  RegistryOk UINTN_WIDTH g → wp (InsertImageRecord a None) (λ _ g', RegistryOk UINTN_WIDTH g') E g.
Proof.
  intros Hg. unfold InsertImageRecord, SetMemoryAttributesTableSectionAlignment. wp_step. wp_step. wp_step; [by wp_step|].
  wp_step. wp_step. wp_step. wp_step; [wp_step|wp_step]; wp_step; try by wp_step.
  all: try (by destruct Hg). all: wp_step; by destruct Hg.
Qed.

Lemma rec_step_ok g g' : RegistryOk UINTN_WIDTH g → rec_step g g' → RegistryOk UINTN_WIDTH g'.
Proof.
  intros Hg [a r g1 Hr Hrun|a g1 Hrun|base g1 Hrun|g1 Hrun].
  - exact (proj1 (wp_ok _ _ _ _ _ _ (InsertImageRecord_spec a r g (λ _ _, False) Hg Hr) Hrun)).
  - exact (wp_ok _ _ _ _ _ _ (InsertImageRecord_none a g (λ _ _, False) Hg) Hrun).
  - exact (proj1 (wp_ok _ _ _ _ _ _ (RemoveImageRecord_spec base g (λ _ _, False) Hg) Hrun)).
  - injection Hrun as <-. by destruct Hg.
Qed.

Lemma initial_properties_ok : RegistryOk UINTN_WIDTH initial_properties.
Proof. constructor; cbn; [|done|constructor|lia]. by repeat constructor. Qed.

Lemma reachable_ok g : rtc rec_step initial_properties g → RegistryOk UINTN_WIDTH g.
Proof.
  intros Hr. pose proof initial_properties_ok as Hi. induction Hr as [g|g g1 g2 Hs Hr IH]; [done|]. apply IH. by eapply rec_step_ok.
Qed.
End Histories.


(** The record that an image loader builds of an image of whole pages is such a record. *)
Lemma RecordOk_RecOk w a f n Address r :
  RecordOk w 1 a f n Address r → (2 ^ EFI_PAGE_SHIFT | a) → (2 ^ EFI_PAGE_SHIFT | Address) → 0 <= Address → Address + n < 2 ^ w →
  NumSegments r < 2 ^ 31 → RecOk w r.
Proof.
  intros [Hsig Hcnt [Hsz Htot _] _ Hst Hend] Ha Had H0 Hw Hsm.
  assert (0 <= n) as Hn by (rewrite <- Htot; eapply (total_nonneg _ (λ z, (a | z)) 1); [lia|exact Hsz]).
  rewrite wrap_small in Hend by (split; lia). subst Address.
  constructor; try done; [|by rewrite Hend, Htot| |lia].
  - eapply list.Forall_impl; [exact Hsz|]. intros s [? Hd]. split; [lia|]. by apply (Z.divide_trans _ a).
  - destruct (take (Z.to_nat (NumSegments r)) (Segments r)) as [|s l] eqn:Hl.
    + apply (f_equal length) in Hl. rewrite length_take in Hl. cbn in Hl. lia.
    + apply list.Forall_cons in Hsz as [[Hs _] Hsz]. cbn in Htot.
      pose proof (total_nonneg l (λ z, (a | z)) 1 ltac:(lia) Hsz). lia.
Qed.

(** ** The map with the permissions of the images *)

(** What the memory attributes table needs of CoreGetMemoryMap: it describes the memory of [full], with a
    descriptor around each descriptor of [full]. *)
Class MemoryMapSource `{!Platform} (GetMap : Z → MapM (option RETURN_STATUS * Z)) (full : list EFI_MEMORY_DESCRIPTOR) : Prop :=
  get_map_spec MemoryMapSize A E :
    let needed := DESCRIPTOR_SIZE * Z.of_nat (length full) in
    (needed <= MemoryMapSize → (length full < length A)%nat) →
    wp (GetMap MemoryMapSize)
      (λ '(Status, Size) A',
         if MemoryMapSize <? needed then Status = Some RETURN_BUFFER_TOO_SMALL ∧ Size = needed ∧ A' = A
         else Status = None ∧ ∃ new rest, A' = new ++ rest ∧ Size = Z.of_nat (length new) * DESCRIPTOR_SIZE ∧
           length A' = length A ∧ (length new <= length full)%nat ∧ Forall Fits new ∧ covered full new ∧
           ∀ x, view new x ≡ₚ map cleared (view full x)) E A.

#[global] Instance CoreGetMemoryMap_source `{!Platform, !PlatformOk} gm stats gcd :
  MapsOk UINTN_WIDTH gm stats gcd → needed gm stats gcd < 2 ^ UINTN_WIDTH →
  MemoryMapSource (CoreGetMemoryMap gm stats gcd None true) (full_map gm stats gcd).
Proof.
  intros Hok Hw MemoryMapSize A E n Hroom. eapply wp_mono; [by apply (CoreGetMemoryMap_spec gm stats gcd Hok true MemoryMapSize A E Hw)| |done].
  done.
Qed.

(** The attributes of [x] with the permissions of the image it is in. *)
Definition image_view (l : list UEFI_IMAGE_RECORD) (x : Z) (p : Z * Z) : Z * Z :=
  (p.1, match image_at l x with
        | Some r => image_attribute p.2 (default 0 (attribute_at (record_segments r) (x - StartAddress r)))
        | None => p.2
        end).

(** The images are each in one descriptor. *)
Definition images_inside (l : list UEFI_IMAGE_RECORD) (D : list EFI_MEMORY_DESCRIPTOR) : Prop :=
  ∀ r, r ∈ l → ∃ d, d ∈ D ∧ PhysicalStart d <= StartAddress r ∧ EndAddress r <= desc_end d.

Section Separated.
Context `{!Platform, !PlatformOk}.

Lemma image_at_Some l x r : image_at l x = Some r → r ∈ l ∧ StartAddress r <= x < EndAddress r.
Proof.
  induction l as [|r0 l IH]; [done|]. cbn. case_match; [intros [= ->]; split; [left|lia]|].
  intros ?%IH. split; [right|]; tauto.
Qed.

Lemma image_at_None l x r : image_at l x = None → r ∈ l → ~ StartAddress r <= x < EndAddress r.
Proof.
  induction l as [|r0 l IH]; cbn; [by intros _ ?%not_elem_of_nil|]. case_match; [done|].
  intros Hn [->|Hr]%elem_of_cons; [lia|by apply IH].
Qed.

(** The images do not overlap. *)
Lemma images_unique l r r' x :
  ImagesOk UINTN_WIDTH l → r ∈ l → r' ∈ l → StartAddress r <= x < EndAddress r → StartAddress r' <= x < EndAddress r' → r = r'.
Proof.
  intros [_ Hsort]. induction Hsort as [|r0 l Hsort IH Hall]; [by intros ?%not_elem_of_nil|].
  intros [->|Hr]%elem_of_cons [->|Hr']%elem_of_cons Hx Hx'; [done|..].
  - pose proof (proj1 (list.Forall_forall _ _) Hall r' Hr') as Hle. cbn in Hle. lia.
  - pose proof (proj1 (list.Forall_forall _ _) Hall r Hr) as Hle. cbn in Hle. lia.
  - by apply IH.
Qed.

Lemma disjoint_unique D d d' x : disjoint D → d ∈ D → d' ∈ D → in_desc d x → in_desc d' x → d = d'.
Proof.
  intros HD Hd Hd' Hx Hx'. specialize (HD x). unfold view in HD. rewrite length_map in HD.
  assert (d ∈ filter (λ d, in_desc d x) D) as H1 by (by apply list_elem_of_filter).
  assert (d' ∈ filter (λ d, in_desc d x) D) as H2 by (by apply list_elem_of_filter).
  destruct (filter (λ d, in_desc d x) D) as [|e [|e' L]]; [by apply not_elem_of_nil in H1| |cbn in HD; lia].
  apply list_elem_of_singleton in H1, H2. congruence.
Qed.

(** An address of an image is in the descriptor the image is in. *)
Lemma memory_attribute_image l D d x :
  ImagesOk UINTN_WIDTH l → disjoint D → images_inside l D → d ∈ D → in_desc d x →
  (Type_ d, memory_attribute l d x) = image_view l x (Type_ d, Attribute d).
Proof.
  intros Hl HD Hin Hd Hx. unfold image_view, memory_attribute, attribute_with. cbn [fst snd]. f_equal.
  destruct (image_at l x) as [r|] eqn:Hr.
  - apply image_at_Some in Hr as [Hr Hrx]. destruct (Hin r Hr) as (d' & Hd' & Hs & He).
    assert (d = d') as <- by (apply (disjoint_unique D d d' x); [done..|unfold in_desc; lia]).
    destruct (image_at (inside _ _ l) x) as [r'|] eqn:Hr'.
    + apply image_at_Some in Hr' as [Hr' Hrx']. apply list_elem_of_filter in Hr' as [_ Hr'].
      by rewrite (images_unique l r r' x).
    + exfalso. eapply image_at_None; [exact Hr'| |exact Hrx]. by apply list_elem_of_filter.
  - destruct (image_at (inside _ _ l) x) as [r'|] eqn:Hr'; [|done].
    apply image_at_Some in Hr' as [Hr' Hrx']. apply list_elem_of_filter in Hr' as [_ Hr'].
    by destruct (image_at_None l x r' Hr Hr').
Qed.

Lemma separated_view l D x :
  ImagesOk UINTN_WIDTH l → disjoint D → images_inside l D → separated l D x = map (image_view l x) (view D x).
Proof.
  intros Hl HD Hin. unfold separated, view. rewrite map_map. apply map_ext_in. intros d Hd%list_elem_of_In.
  apply list_elem_of_filter in Hd as [Hx Hd]. by apply (memory_attribute_image l D).
Qed.

Lemma images_inside_covered l D D' : images_inside l D → covered D D' → images_inside l D'.
Proof.
  intros Hin Hc r Hr. destruct (Hin r Hr) as (d & Hd & ? & ?). destruct (Hc d Hd) as (d' & Hd' & ? & ?). exists d'. split; [done|lia].
Qed.

Context (g : IMAGE_PROPERTIES_PRIVATE_DATA) (GetMap : Z → MapM (option RETURN_STATUS * Z)) (full : list EFI_MEMORY_DESCRIPTOR).
Context `{!MemoryMapSource GetMap full}.
Context (Hg : RegistryOk UINTN_WIDTH g) (Hfull : disjoint full) (Hin : images_inside (ImageRecordList g) full).

(** The entries that are asked for. *)
Definition additional : Z := (SectionCountMax g + 1) * ImageRecordCount g.
Definition separated_needed : Z := (Z.of_nat (length full) + additional) * DESCRIPTOR_SIZE.

Lemma additional_extra : 0 <= extra (ImageRecordList g) <= additional.
Proof.
  unfold additional. rewrite (re_count _ _ Hg). split; [|apply extra_bound, (re_max _ _ Hg)].
  pose proof (im_records _ _ (re_images _ _ Hg)) as Hrec. clear Hin. induction Hrec as [|r l Hr Hl IH]; [done|].
  pose proof (ro_count _ _ Hr). cbn. unfold extra in IH. lia.
Qed.

Lemma separated_disjoint D : (∀ x, view D x ≡ₚ map cleared (view full x)) → disjoint D.
Proof. intros Hv x. rewrite Hv, length_map. apply Hfull. Qed.

(** The second half, once the map is there. *)
Lemma SeparateMap_spec D M0 F E :
  Forall Fits D → covered full D → (∀ x, view D x ≡ₚ map cleared (view full x)) → F ≠ [] →
  Z.of_nat (length M0) = additional → additional < 2 ^ 31 → Z.of_nat (length (D ++ M0)) * DESCRIPTOR_SIZE < 2 ^ UINTN_WIDTH →
  wp (Size ← SplitTable (ImageRecordList g) (Z.of_nat (length D) * DESCRIPTOR_SIZE) DESCRIPTOR_SIZE additional;
      EnforceMemoryMapAttribute (Size / DESCRIPTOR_SIZE);;
      k ← MergeMemoryMap None (Size / DESCRIPTOR_SIZE);
      mret (@None RETURN_STATUS, wrapn (k * DESCRIPTOR_SIZE)))
    (λ '(Status, Size) A, Status = None ∧ ∃ new rest, A = new ++ rest ++ F ∧ length (new ++ rest) = length (D ++ M0) ∧
       Size = Z.of_nat (length new) * DESCRIPTOR_SIZE ∧ ascending new ∧
       ∀ x, view new x ≡ₚ map (λ p, enforced (image_view (ImageRecordList g) x (cleared p))) (view full x)) E (D ++ M0 ++ F).
Proof.
  intros HD Hcov Hview HF HM Hsmall Hw. pose proof DESCRIPTOR_SIZE_pos as Hpos. pose proof additional_extra as Hx.
  pose proof (re_images _ _ Hg) as Him. pose proof (separated_disjoint D Hview) as Hdis.
  wp_step. rewrite <- HM. eapply wp_mono.
  { apply SplitTable_view; [done|..|done|done|done|lia|lia]; (eapply list.Forall_impl; [exact HD|]); by intros d []. }
  2: done.
  intros size A (new & rest & -> & Hlen & -> & Hasc & Hok & Hv). rewrite Z.div_mul by lia.
  wp_step. eapply wp_mono; [apply EnforceMemoryMapAttribute_spec| |done]. intros _ A ->.
  wp_step. rewrite <- (length_map enforce new). eapply wp_mono; [apply MergeMemoryMap_spec| |done].
  { apply map_DescOk; [|done]. intros d. pose proof (enforce_fields d). tauto. }
  { by destruct rest. }
  intros k A (new' & rest' & -> & -> & Hlen' & _ & Hv' & _ & _ & Hasc'). wp_step. split; [done|].
  exists new', (rest' ++ rest). rewrite !length_app, length_map in *. split_and!.
  - by rewrite <- !app_assoc.
  - lia.
  - unfold wrapn. apply wrap_small. split; [lia|]. eapply Z.le_lt_trans; [|exact Hw]. apply Z.mul_le_mono_nonneg_r; lia.
  - apply Hasc'. intros p q d d' Hpq Hp Hq. apply list_lookup_fmap_Some in Hp as (e & -> & Hp). apply list_lookup_fmap_Some in Hq as (e' & -> & Hq).
    unfold before. destruct (enforce_fields e) as (-> & _), (enforce_fields e') as (-> & _). by apply (Hasc p q).
  - intros x. rewrite Hv', (view_map enforce enforced) by apply enforce_fields.
    rewrite Hv, (separated_view _ D) by (done || by eapply images_inside_covered). by rewrite Hview, !map_map.
Qed.

Lemma SeparatedImageSection_spec MemoryMapSize A E :
  mMemoryAttributesTableEnable g = true → additional < 2 ^ 31 → separated_needed < 2 ^ UINTN_WIDTH →
  0 <= MemoryMapSize < 2 ^ UINTN_WIDTH → MemoryMapSize + DESCRIPTOR_SIZE <= Z.of_nat (length A) * DESCRIPTOR_SIZE →
  wp (CoreGetMemoryMapWithSeparatedImageSection g GetMap None true MemoryMapSize)
    (λ '(Status, Size) A',
       match Status with
       | Some e => e = RETURN_BUFFER_TOO_SMALL ∧ MemoryMapSize < Size <= separated_needed
       | None => ∃ new rest, A' = new ++ rest ∧ length A' = length A ∧ Size = Z.of_nat (length new) * DESCRIPTOR_SIZE ∧
           Size <= MemoryMapSize ∧ ascending new ∧
           ∀ x, view new x ≡ₚ map (λ p, enforced (image_view (ImageRecordList g) x (cleared p))) (view full x)
       end) E A.
Proof.
  intros Hen Hsmall Hw Hsz Hbuf. pose proof DESCRIPTOR_SIZE_pos as Hpos. pose proof additional_extra as Hx.
  unfold CoreGetMemoryMapWithSeparatedImageSection. rewrite Hen. cbn [negb]. fold additional.
  rewrite (uintn_u32 additional) by lia. unfold separated_needed in *.
  set (ds := DESCRIPTOR_SIZE) in *. set (add := additional) in *.
  assert (wrapn (ds * add) = ds * add) as -> by (unfold wrapn; apply wrap_small; split; nia).
  wp_step. eapply wp_mono; [apply get_map_spec; fold ds; nia| |done]. fold ds. intros [Status Size] A' Hr.
  destruct (Z.ltb_spec MemoryMapSize (ds * Z.of_nat (length full))).
  { destruct Hr as (-> & -> & ->). wp_step. split; [done|]. unfold wrapn. rewrite wrap_small by (split; nia). nia. }
  destruct Hr as (-> & new & rest & -> & -> & Hlen & Hle & HD & Hcov & Hv). rewrite length_app in Hlen.
  assert (0 <= Z.of_nat (length new) * ds <= ds * Z.of_nat (length full)) as Hnew by nia.
  wp_step. wp_step; [done|]. assert (wrapn (MemoryMapSize - Z.of_nat (length new) * ds) = MemoryMapSize - Z.of_nat (length new) * ds) as ->.
  { unfold wrapn. apply wrap_small. split; lia. }
  destruct (Z.ltb_spec (MemoryMapSize - Z.of_nat (length new) * ds) (ds * add)) as [|Hroom].
  { wp_step. split; [done|]. unfold wrapn. rewrite wrap_small by (split; nia). nia. }
  assert (Z.of_nat (length new) + add < Z.of_nat (length A)) as Hent by nia.
  rewrite <- (take_drop (Z.to_nat add) rest). eapply wp_mono; [apply SeparateMap_spec; try done| |done].
  - intros Hn. apply (f_equal length) in Hn. rewrite length_drop in Hn. cbn in Hn. lia.
  - rewrite length_take. fold add. lia.
  - rewrite length_app, length_take. fold ds. nia.
  - intros [Status Size] A' (-> & new' & rest' & -> & Hlen' & -> & Hasc & Hview). rewrite !length_app, length_take in Hlen'.
    exists new', (rest' ++ drop (Z.to_nat add) rest). rewrite !length_app, length_drop. split_and!; try done; [lia|]. fold ds. nia.
Qed.
End Separated.

(** ** The entries of the table *)

Definition runtime (d : EFI_MEMORY_DESCRIPTOR) : Prop := Type_ d = EfiRuntimeServicesCode ∨ Type_ d = EfiRuntimeServicesData.
#[global] Instance runtime_dec d : Decision (runtime d).
Proof. unfold runtime. apply _. Defined.

Definition table_entry (d : EFI_MEMORY_DESCRIPTOR) : EFI_MEMORY_DESCRIPTOR :=
  set_Attribute (Z.land (Attribute d) (Z.lor EFI_MEMORY_ACCESS_MASK EFI_MEMORY_RUNTIME)) d.

Section Table.
Context `{!Platform}.

Lemma runtime_test d : (Type_ d =? EfiRuntimeServicesCode) || (Type_ d =? EfiRuntimeServicesData) = bool_decide (runtime d).
Proof. unfold runtime. case_bool_decide; destruct (Z.eqb_spec (Type_ d) EfiRuntimeServicesCode), (Z.eqb_spec (Type_ d) EfiRuntimeServicesData); cbn; tauto. Qed.

Lemma filter_take_S (D : list EFI_MEMORY_DESCRIPTOR) i d :
  D !! i = Some d → filter runtime (take (S i) D) = filter runtime (take i D) ++ (if bool_decide (runtime d) then [d] else []).
Proof. intros Hd. rewrite (take_S_r _ _ d Hd), list.filter_app, filter_cons. cbn. by case_bool_decide; case_decide. Qed.

Lemma filter_prefix_length (D : list EFI_MEMORY_DESCRIPTOR) i : (length (filter runtime (take i D)) <= length (filter runtime D))%nat.
Proof. rewrite <- (take_drop i D) at 2. rewrite list.filter_app, length_app. lia. Qed.

Lemma CountRuntime_loop D rest E :
  Z.of_nat (length D) < 2 ^ 32 →
  wp (for_loop (length D) 0 CountRuntime 0) (λ n A, n = Z.of_nat (length (filter runtime D)) ∧ A = D ++ rest) E (D ++ rest).
Proof.
  intros HD. eapply wp_mono.
  { apply (wp_for_loop (λ i n A, n = Z.of_nat (length (filter runtime (take (Z.to_nat i) D))) ∧ A = D ++ rest) E); [done|].
    intros i n A Hi [-> ->]. destruct (lookup_lt_is_Some_2 D (Z.to_nat i)) as [d Hd]; [lia|].
    unfold CountRuntime. wp_step. apply (wp_get_desc _ d); [lia|by rewrite lookup_app_l by lia|]. wp_step. split; [|done].
    rewrite runtime_test, Z2Nat.inj_add by lia. rewrite Nat.add_1_r, (filter_take_S D _ d Hd), length_app.
    pose proof (length_filter runtime (take (Z.to_nat i) D)) as Hle. rewrite length_take in Hle.
    case_match; cbn; [|lia]. rewrite wrap_small by (split; lia). lia. }
  2: done.
  cbn beta. intros n A [-> ->]. by rewrite Z.add_0_l, Nat2Z.id, take_ge.
Qed.

Lemma CopyRuntime_loop D rest T E :
  length T = length (filter runtime D) →
  wp (for_loop (length D) 0 CopyRuntime (T, 0)) (λ p A, p.1 = map table_entry (filter runtime D) ∧ A = D ++ rest) E (D ++ rest).
Proof.
  intros HT. eapply wp_mono.
  { apply (wp_for_loop (λ i p A, let F := filter runtime (take (Z.to_nat i) D) in
      p = (map table_entry F ++ drop (length F) T, Z.of_nat (length F)) ∧ A = D ++ rest) E); [done|].
    intros i p A Hi [-> ->]. destruct (lookup_lt_is_Some_2 D (Z.to_nat i)) as [d Hd]; [lia|].
    unfold CopyRuntime. wp_step. apply (wp_get_desc _ d); [lia|by rewrite lookup_app_l by lia|].
    pose proof (filter_prefix_length D (S (Z.to_nat i))) as Hle.
    rewrite runtime_test, Z2Nat.inj_add, Nat.add_1_r in * by lia. rewrite (filter_take_S D _ d Hd) in *. set (F := filter runtime (take _ D)) in *.
    rewrite length_app in Hle. case_match; cbn [length] in *.
    - wp_step. wp_step; [rewrite length_app, length_map, length_drop, andb_true_iff, Z.leb_le, Z.ltb_lt; lia|]. wp_step. split; [|done].
      rewrite map_app, Nat2Z.id, (insert_app_r_alt _ _ (length F)), length_map, Nat.sub_diag by (rewrite length_map; lia).
      destruct (lookup_lt_is_Some_2 T (length F)) as [t Ht]; [lia|]. rewrite (drop_S T t _ Ht), length_app. cbn.
      rewrite Nat.add_1_r, <- app_assoc. f_equal. lia.
    - wp_step. by rewrite app_nil_r. }
  2: done.
  cbn beta. intros p A [-> ->]. rewrite Z.add_0_l, Nat2Z.id, take_ge, drop_ge, app_nil_r by lia. done.
Qed.

Lemma BuildMemoryAttributesTable_spec D rest Allocate E :
  Z.of_nat (length D) < 2 ^ 32 → (∀ n, 0 <= n → length (Allocate n) = Z.to_nat n) →
  wp (BuildMemoryAttributesTable (Z.of_nat (length D)) Allocate)
    (λ T A, T = map table_entry (filter runtime D) ∧ A = D ++ rest) E (D ++ rest).
Proof.
  intros HD Hal. unfold BuildMemoryAttributesTable. rewrite Nat2Z.id. wp_step. eapply wp_mono; [by apply CountRuntime_loop| |done].
  intros n A [-> ->]. wp_step. eapply wp_mono; [apply CopyRuntime_loop; rewrite Hal by lia; lia| |done].
  intros [T k] A [HT ->]. by wp_step.
Qed.
End Table.

(** ** Properties *)

(** C14. However the runtime images are loaded and unloaded, up to and after the end of the DXE phase: the
    list of their records stays sorted by address and free of overlaps, the count is its length,
    and no image has more segments than SectionCountMax.  Loading and unloading always succeed
    in such a state, loading adds exactly the record of an image of sufficient alignment, and after the
    end of the DXE phase nothing changes. *)
Theorem registry_invariant `{!Platform, !PlatformOk} (g : IMAGE_PROPERTIES_PRIVATE_DATA) :
  rtc rec_step initial_properties g →
  RegistryOk UINTN_WIDTH g ∧
  (∀ a r, RecOk UINTN_WIDTH r → Forall (apart r) (ImageRecordList g) →
     ∃ g', InsertImageRecord a (Some r) g = Ok tt g' ∧
       if mMemoryAttributesTableEndOfDxe g then g' = g
       else if aligned_image a then ImageRecordList g' ≡ₚ r :: ImageRecordList g
       else g' = set_Enable false g) ∧
  (∀ base, ∃ g', RemoveImageRecord base g = Ok tt g' ∧
       if mMemoryAttributesTableEndOfDxe g then g' = g
       else Forall (λ r, StartAddress r ≠ base) (ImageRecordList g') ∧ ImageRecordList g' `sublist_of` ImageRecordList g).
Proof.
  intros Hr%reachable_ok. split; [done|]. split.
  - intros a r Hrec Hap. destruct (wp_total _ _ _ (InsertImageRecord_spec a r g (λ _ _, False) Hr (λ _, conj Hrec Hap))) as ([] & g' & Hrun & _ & _ & Hres).
    exists g'. split; [done|]. by repeat case_match; try apply Hres.
  - intros base. destruct (wp_total _ _ _ (RemoveImageRecord_spec base g (λ _ _, False) Hr)) as ([] & g' & Hrun & _ & Hsub & Hres).
    exists g'. split; [done|]. destruct (mMemoryAttributesTableEndOfDxe g) eqn:He; [|by auto].
    unfold RemoveImageRecord in Hrun. cbv beta iota delta [mbind M_bind getS] in Hrun. rewrite He in Hrun. by injection Hrun as ->.
Qed.

Lemma separated_run `{!Platform, !PlatformOk} g gm stats gcd MemoryMapSize A :
  let full := full_map gm stats gcd in
  RegistryOk UINTN_WIDTH g → MapsOk UINTN_WIDTH gm stats gcd → disjoint full → images_inside (ImageRecordList g) full →
  mMemoryAttributesTableEnable g = true → additional g < 2 ^ 31 → separated_needed g full < 2 ^ UINTN_WIDTH →
  0 <= MemoryMapSize < 2 ^ UINTN_WIDTH → MemoryMapSize + DESCRIPTOR_SIZE <= Z.of_nat (length A) * DESCRIPTOR_SIZE →
  match CoreGetMemoryMapWithSeparatedImageSection g (CoreGetMemoryMap gm stats gcd None true) None true MemoryMapSize A with
  | Ok (Some e, Size) _ => e = RETURN_BUFFER_TOO_SMALL ∧ MemoryMapSize < Size <= separated_needed g full
  | Ok (None, Size) A' =>
      ∃ new rest, A' = new ++ rest ∧ length A' = length A ∧ Size = Z.of_nat (length new) * DESCRIPTOR_SIZE ∧
        Size <= MemoryMapSize ∧ ascending new ∧
        ∀ x, view new x ≡ₚ map (λ p, enforced (image_view (ImageRecordList g) x (cleared p))) (view full x)
  | _ => False
  end.
Proof.
  intros full Hg Hok Hdis Hin Hen Hadd Hw Hsz Hbuf.
  assert (needed gm stats gcd < 2 ^ UINTN_WIDTH) as Hneed.
  { unfold needed. unfold separated_needed in Hw. pose proof (additional_extra g Hg). pose proof DESCRIPTOR_SIZE_pos. subst full. nia. }
  pose proof (CoreGetMemoryMap_source gm stats gcd Hok Hneed) as Hsrc.
  pose proof (wp_cases _ _ _ _ (SeparatedImageSection_spec g _ full Hg Hdis Hin MemoryMapSize A (λ _ _, False) Hen Hadd Hw Hsz Hbuf)) as Hr.
  by destruct (CoreGetMemoryMapWithSeparatedImageSection _ _ _ _ _ _) as [[[e|] Size] A'| |].
Qed.


(** The permissions of a segment are those of its memory. *)
Lemma image_attribute_executable a s : executable (image_attribute a s) = executable s.
Proof.
  unfold executable, image_attribute. rewrite Z.land_lor_distr_l, <- Z.land_assoc.
  change (Z.land (lnot_w 64 EFI_MEMORY_ACCESS_MASK) EFI_MEMORY_XP) with 0. by rewrite Z.land_0_r, Z.lor_0_l.
Qed.

Lemma image_attribute_writable a s : writable (image_attribute a s) = writable s.
Proof.
  unfold writable, image_attribute. rewrite Z.land_lor_distr_l, <- Z.land_assoc.
  change (Z.land (lnot_w 64 EFI_MEMORY_ACCESS_MASK) EFI_MEMORY_RO) with 0. by rewrite Z.land_0_r, Z.lor_0_l.
Qed.

Lemma enforced_wx t a : executable a && writable a = false → executable (enforced (t, a)).2 && writable (enforced (t, a)).2 = false.
Proof.
  intros Ha. cbn. case_match; [|done]. unfold executable. rewrite Z.land_lor_distr_l, Z.land_diag.
  destruct (Z.eqb_spec (Z.lor (Z.land a EFI_MEMORY_XP) EFI_MEMORY_XP) 0) as [He|]; [|done].
  apply Z.lor_eq_0_iff in He as [_ He]. done.
Qed.

(** Each address of an image is in one of its segments. *)
Lemma attribute_at_total segs y : 0 <= y < total segs → ∃ s, s ∈ segs ∧ attribute_at segs y = Some (seg_Attributes s).
Proof.
  revert y. induction segs as [|s segs IH]; intros y Hy; cbn in *; [lia|]. destruct (Z.ltb_spec y (seg_Size s)).
  - exists s. split; [left|done].
  - destruct (IH (y - seg_Size s)) as (s' & ? & ?); [lia|]. exists s'. split; [by right|done].
Qed.

Lemma image_view_wx `{!Platform} l x r p :
  ImagesOk UINTN_WIDTH l → image_at l x = Some r →
  Forall (λ s, executable (seg_Attributes s) && writable (seg_Attributes s) = false) (record_segments r) →
  executable (image_view l x p).2 && writable (image_view l x p).2 = false.
Proof.
  intros Hl Hx Hwx. unfold image_view. cbn. rewrite Hx, image_attribute_executable, image_attribute_writable.
  apply image_at_Some in Hx as [Hr Hx]. pose proof (proj1 (list.Forall_forall _ _) (im_records _ _ Hl) r Hr) as Hrec.
  destruct (attribute_at_total (record_segments r) (x - StartAddress r)) as (s & Hs & ->).
  { pose proof (ro_end _ _ Hrec). unfold record_segments. lia. }
  exact (proj1 (list.Forall_forall _ _) Hwx s Hs).
Qed.

(** C13. The map never makes memory of an image writable and executable: when the segments of the record
    are not both, as those of a verified image are not, each address of the image is in one
    descriptor of the map that a caller of GetMemoryMap gets, and that descriptor is not both
    either.  The conditions are those of the theorem above, that the memory attributes table is enabled among them: the
    map is not split without it. *)
Theorem separated_map_wx `{!Platform, !PlatformOk} (g : IMAGE_PROPERTIES_PRIVATE_DATA) (gm : list MEMORY_MAP)
    (stats : list EFI_MEMORY_TYPE_STATISTICS) (gcd : list EFI_GCD_MAP_ENTRY) (MemoryMapSize Size : Z) (A A' : list EFI_MEMORY_DESCRIPTOR) :
  let full := full_map gm stats gcd in
  RegistryOk UINTN_WIDTH g → MapsOk UINTN_WIDTH gm stats gcd → disjoint full → images_inside (ImageRecordList g) full →
  mMemoryAttributesTableEnable g = true → additional g < 2 ^ 31 → separated_needed g full < 2 ^ UINTN_WIDTH →
  0 <= MemoryMapSize < 2 ^ UINTN_WIDTH → MemoryMapSize + DESCRIPTOR_SIZE <= Z.of_nat (length A) * DESCRIPTOR_SIZE →
  CoreGetMemoryMapWithSeparatedImageSection g (CoreGetMemoryMap gm stats gcd None true) None true MemoryMapSize A = Ok (None, Size) A' →
  ∀ r x, r ∈ ImageRecordList g → StartAddress r <= x < EndAddress r →
    Forall (λ s, executable (seg_Attributes s) && writable (seg_Attributes s) = false) (record_segments r) →
    length (view (take (Z.to_nat (Size / DESCRIPTOR_SIZE)) A') x) = 1%nat ∧
    Forall (λ p, executable p.2 && writable p.2 = false) (view (take (Z.to_nat (Size / DESCRIPTOR_SIZE)) A') x).
Proof.
  intros full Hg Hok Hdis Hin Hen Hadd Hw Hsz Hbuf Hrun r x Hr Hx Hwx.
  pose proof (separated_run g gm stats gcd MemoryMapSize A Hg Hok Hdis Hin Hen Hadd Hw Hsz Hbuf) as Hres. cbv zeta in Hres. fold full in Hres.
  rewrite Hrun in Hres. destruct Hres as (new & rest & -> & _ & -> & _ & _ & Hview).
  rewrite Z.div_mul by (pose proof DESCRIPTOR_SIZE_pos; lia). rewrite Nat2Z.id, take_app_length, Hview, length_map. split.
  - destruct (Hin r Hr) as (d & Hd & Hs & He). specialize (Hdis x). unfold view in *. rewrite length_map in *.
    assert (d ∈ filter (λ d, in_desc d x) full) as Hf by (apply list_elem_of_filter; unfold in_desc; split; [lia|done]).
    destruct (filter _ full); [by apply not_elem_of_nil in Hf|]. cbn in *. lia.
  - apply Forall_map, list.Forall_forall. intros [t a] _. cbn [fst snd cleared].
    pose proof (image_view_wx (ImageRecordList g) x r (cleared (t, a)) (re_images _ _ Hg)) as Hwx'.
    destruct (image_view (ImageRecordList g) x (cleared (t, a))) as [t' a']. apply enforced_wx, Hwx'; [|done].
    destruct (image_at (ImageRecordList g) x) as [r'|] eqn:Hat.
    + apply image_at_Some in Hat as [Hr' Hx']. f_equal. by apply (images_unique (ImageRecordList g) _ _ x (re_images _ _ Hg)).
    + by destruct (image_at_None _ _ r Hat Hr).
Qed.

(** The memory attributes table has an entry for each descriptor of runtime code and data of the map, in
    their order, with the access permissions and EFI_MEMORY_RUNTIME as the only attributes; the
    space that is allocated from their count is what they fill. *)
Theorem memory_attributes_table_exact `{!Platform} (D rest : list EFI_MEMORY_DESCRIPTOR) (Allocate : Z → list EFI_MEMORY_DESCRIPTOR) :
  Z.of_nat (length D) < 2 ^ 32 → (∀ n, 0 <= n → length (Allocate n) = Z.to_nat n) →
  BuildMemoryAttributesTable (Z.of_nat (length D)) Allocate (D ++ rest) = Ok (map table_entry (filter runtime D)) (D ++ rest).
Proof.
  intros HD Hal. destruct (wp_total _ _ _ (BuildMemoryAttributesTable_spec D rest Allocate (λ _ _, False) HD Hal)) as (T & A & Hrun & -> & ->).
  exact Hrun.
Qed.

(** ** Examples *)

#[local] Existing Instance platform_x64.
#[local] Existing Instance platform_x64_ok.

Definition sample_properties : IMAGE_PROPERTIES_PRIVATE_DATA := set_Records 1 3 [sample_image] initial_properties.
Definition sample_runtime : list MEMORY_MAP := [memory 7 0x9000 0xffff; memory 6 0x8000 0x8fff; memory 5 0x2000 0x7fff].
Definition sample_runtime_space : list EFI_GCD_MAP_ENTRY :=
  [space EfiGcdMemoryTypeReserved 0 0x1fff; space EfiGcdMemoryTypeSystemMemory 0x2000 0xffff].
Definition sample_run : outcome (list EFI_MEMORY_DESCRIPTOR) (option RETURN_STATUS * Z) :=
  CoreGetMemoryMapWithSeparatedImageSection sample_properties
    (CoreGetMemoryMap sample_runtime initial_statistics sample_runtime_space None true) None true 384 (replicate 9 blank).

Lemma sample_image_ok : RecOk 64 sample_image.
Proof. pose proof (im_records _ _ sample_images_ok) as Hr. by apply Forall_inv in Hr. Qed.

Lemma sample_step : rtc rec_step initial_properties sample_properties.
Proof.
  apply rtc_once. apply (step_insert _ 0x1000 sample_image); [|by vm_compute]. intros _. split; [apply sample_image_ok|constructor].
Qed.

Lemma sample_properties_ok : RegistryOk 64 sample_properties.
Proof. exact (reachable_ok _ sample_step). Qed.

Lemma registry_invariant_witness :
  rtc rec_step initial_properties sample_properties ∧ RegistryOk 64 sample_properties ∧
  ∃ g', RemoveImageRecord 0x3000 sample_properties = Ok tt g' ∧ Forall (λ r, StartAddress r ≠ 0x3000) (ImageRecordList g').
Proof.
  destruct (registry_invariant sample_properties sample_step) as (Hok & _ & Hrem).
  split; [exact sample_step|]. split; [exact Hok|]. destruct (Hrem 0x3000) as (g' & Hrun & Hall & _). by exists g'.
Defined.

Lemma sample_runtime_ok : MapsOk 64 sample_runtime initial_statistics sample_runtime_space.
Proof.
  constructor; [by apply Nat.ltb_lt|..|by repeat constructor].
  - repeat constructor; cbn; try lia; by apply Z.mod_divide.
  - repeat constructor; cbn; try lia; by apply Z.mod_divide.
  - by cbn.
Qed.

Lemma sample_full : full_map sample_runtime initial_statistics sample_runtime_space =
  [new_record 7 0x9000 7 0x2400f; new_record 6 0x8000 1 0x800000000002400f; new_record 5 0x2000 6 0x800000000002400f;
   new_record 0 0 2 0xf].
Proof. by vm_compute. Qed.

Lemma sample_full_disjoint : disjoint (full_map sample_runtime initial_statistics sample_runtime_space).
Proof.
  rewrite sample_full. intros x. rewrite !view_cons. repeat case_decide; cbn; try lia;
    unfold in_desc, desc_end, EFI_PAGE_SHIFT in *; cbn in *; lia.
Qed.

Lemma sample_full_inside : images_inside [sample_image] (full_map sample_runtime initial_statistics sample_runtime_space).
Proof.
  rewrite sample_full. intros r ->%list_elem_of_singleton. exists (new_record 5 0x2000 6 0x800000000002400f).
  split; [do 2 right; left|]. by vm_compute.
Qed.

(** The map of this memory, with the code of the image executable and read-only, and its data not executable. *)
Lemma sample_run_result :
  ∃ A', sample_run = Ok (None, 384) A' ∧ take 8 A' =
    [new_record 0 0 2 0xf; new_record 5 0x2000 1 0x800000000000000f;
     new_record 5 0x3000 1 0x800000000002400f; new_record 5 0x4000 2 0x800000000002000f; new_record 5 0x6000 1 0x800000000000400f;
     new_record 5 0x7000 1 0x800000000000000f; new_record 6 0x8000 1 0x800000000000400f; new_record 7 0x9000 7 0xf].
Proof. eexists. split; [unfold sample_run; vm_compute; reflexivity|]. by vm_compute. Qed.


Lemma separated_map_wx_witness :
  ∃ A', sample_run = Ok (None, 384) A' ∧
    length (view (take 8 A') 0x4000) = 1%nat ∧ Forall (λ p, executable p.2 && writable p.2 = false) (view (take 8 A') 0x4000).
Proof.
  assert (Forall (λ s, executable (seg_Attributes s) && writable (seg_Attributes s) = false) (record_segments sample_image)) as Hwx
    by (by repeat constructor).
  assert (separated_needed sample_properties (full_map sample_runtime initial_statistics sample_runtime_space) < 2 ^ 64) as Hw by (by vm_compute).
  assert (0 <= 384 < 2 ^ 64) as Hs by (by vm_compute). assert (384 + 48 <= Z.of_nat (length (replicate 9 blank)) * 48) as Hb by (by vm_compute).
  destruct sample_run_result as (A' & Heq & _). exists A'. split; [exact Heq|].
  exact (separated_map_wx sample_properties sample_runtime initial_statistics sample_runtime_space 384 384 (replicate 9 blank) A'
    sample_properties_ok sample_runtime_ok sample_full_disjoint sample_full_inside eq_refl eq_refl Hw Hs Hb Heq sample_image 0x4000
    (proj2 (list_elem_of_singleton _ _) eq_refl) ltac:(split; [discriminate|reflexivity]) Hwx).
Defined.

Lemma memory_attributes_table_exact_witness :
  let D := [new_record 7 0 1 0x4000; new_record 5 0x1000 1 0x800000000002000f; new_record 6 0x2000 1 0x800000000000400f] in
  BuildMemoryAttributesTable 3 (λ n, replicate (Z.to_nat n) blank) D =
    Ok [new_record 5 0x1000 1 0x8000000000020000; new_record 6 0x2000 1 0x8000000000004000] D.
Proof.
  intros D. pose proof (memory_attributes_table_exact D [] (λ n, replicate (Z.to_nat n) blank) ltac:(by vm_compute)
    (λ n _, length_replicate (Z.to_nat n) blank)) as Hr.
  rewrite (app_nil_r D) in Hr. exact Hr.
Defined.
