(* ===== verification/PageAlloc.v ===== *)
(** Page.c: the list gMemoryMap of the memory, its descriptors on the stack mMapStack and in pages
    of their own, and the conversion, the allocation and the freeing of pages.

    Heap guards are not modelled: PcdHeapGuardPropertyMask is 0, its default, so that
    IsHeapGuardEnabled and IsPageTypeToGuard return FALSE, PromoteGuardedFreePages promotes nothing
    and NeedGuard is FALSE everywhere.  The contents of memory (SetMem, DEBUG_CLEAR_MEMORY), the locks
    and the event group of memory map changes have no counterpart. *)
From stdpp Require Import list.
From S2P Require Import Prelude Base Buffer Platform Overflow ImageRecord MemoryMap SplitTable SplitCoverage MemoryMerge GetMemoryMap.

Definition EfiBootServicesData : Z := 4.
Definition EfiACPIReclaimMemory : Z := 9.
Definition MEMORY_TYPE_OEM_RESERVED_MIN : Z := 0x70000000.
Definition EFI_MEMORY_PRESENT : Z := 0x0100000000000000.
Definition EFI_MEMORY_INITIALIZED : Z := 0x0200000000000000.
Definition EFI_MEMORY_TESTED : Z := 0x0400000000000000.
Definition EFI_MEMORY_MORE_RELIABLE : Z := 0x10000.
Definition EFI_PAGE_SIZE : Z := 0x1000.

Definition AllocateAnyPages : Z := 0.
Definition AllocateMaxAddress : Z := 1.
Definition AllocateAddress : Z := 2.
Definition MaxAllocateType : Z := 3.

Definition MAX_MAP_DEPTH : Z := 6.

(** Where an entry of gMemoryMap is: in mMapStack[i], or in a page of memory map entries, at the
    address [p].  FromPages says which. *)
Inductive Cell :=
| Slot (i : Z)
| Page (p : Z).

#[global] Instance Cell_eq_dec : EqDecision Cell.
Proof. solve_decision. Defined.

Definition FromPages (c : Cell) : bool := match c with Slot _ => false | Page _ => true end.

Record Entry := {
  en_cell : Cell;
  en_map : MEMORY_MAP;
}.

Record EFI_MEMORY_TYPE_INFORMATION := {
  mti_Type : Z;
  mti_NumberOfPages : Z;
}.

(** The variables of Page.c, and mGcdMemorySpaceMap.  A slot of mMapStack is linked when it is in
    gMemoryMap; what an unlinked slot holds is never looked at. *)
Record PAGES := {
  gMemoryMap : list Entry;
  mMemoryMapKey : Z;
  mMapDepth : Z;
  mFreeMapStack : Z;
  mFreeMemoryMapEntryList : list Z;
  mMemoryTypeInformationInitialized : bool;
  mMemoryTypeStatistics : list EFI_MEMORY_TYPE_STATISTICS;
  mDefaultMaximumAddress : Z;
  mDefaultBaseAddress : Z;
  gMemoryTypeInformation : list EFI_MEMORY_TYPE_INFORMATION;
  mGcdMemorySpaceMap : list EFI_GCD_MAP_ENTRY;
}.

Definition set_gMemoryMap (v : list Entry) (s : PAGES) : PAGES :=
  {| gMemoryMap := v; mMemoryMapKey := mMemoryMapKey s; mMapDepth := mMapDepth s; mFreeMapStack := mFreeMapStack s;
     mFreeMemoryMapEntryList := mFreeMemoryMapEntryList s;
     mMemoryTypeInformationInitialized := mMemoryTypeInformationInitialized s;
     mMemoryTypeStatistics := mMemoryTypeStatistics s; mDefaultMaximumAddress := mDefaultMaximumAddress s;
     mDefaultBaseAddress := mDefaultBaseAddress s; gMemoryTypeInformation := gMemoryTypeInformation s;
     mGcdMemorySpaceMap := mGcdMemorySpaceMap s |}.
Definition set_mMemoryMapKey (v : Z) (s : PAGES) : PAGES :=
  {| gMemoryMap := gMemoryMap s; mMemoryMapKey := v; mMapDepth := mMapDepth s; mFreeMapStack := mFreeMapStack s;
     mFreeMemoryMapEntryList := mFreeMemoryMapEntryList s;
     mMemoryTypeInformationInitialized := mMemoryTypeInformationInitialized s;
     mMemoryTypeStatistics := mMemoryTypeStatistics s; mDefaultMaximumAddress := mDefaultMaximumAddress s;
     mDefaultBaseAddress := mDefaultBaseAddress s; gMemoryTypeInformation := gMemoryTypeInformation s;
     mGcdMemorySpaceMap := mGcdMemorySpaceMap s |}.
Definition set_mMapDepth (v : Z) (s : PAGES) : PAGES :=
  {| gMemoryMap := gMemoryMap s; mMemoryMapKey := mMemoryMapKey s; mMapDepth := v; mFreeMapStack := mFreeMapStack s;
     mFreeMemoryMapEntryList := mFreeMemoryMapEntryList s;
     mMemoryTypeInformationInitialized := mMemoryTypeInformationInitialized s;
     mMemoryTypeStatistics := mMemoryTypeStatistics s; mDefaultMaximumAddress := mDefaultMaximumAddress s;
     mDefaultBaseAddress := mDefaultBaseAddress s; gMemoryTypeInformation := gMemoryTypeInformation s;
     mGcdMemorySpaceMap := mGcdMemorySpaceMap s |}.
Definition set_mFreeMapStack (v : Z) (s : PAGES) : PAGES :=
  {| gMemoryMap := gMemoryMap s; mMemoryMapKey := mMemoryMapKey s; mMapDepth := mMapDepth s; mFreeMapStack := v;
     mFreeMemoryMapEntryList := mFreeMemoryMapEntryList s;
     mMemoryTypeInformationInitialized := mMemoryTypeInformationInitialized s;
     mMemoryTypeStatistics := mMemoryTypeStatistics s; mDefaultMaximumAddress := mDefaultMaximumAddress s;
     mDefaultBaseAddress := mDefaultBaseAddress s; gMemoryTypeInformation := gMemoryTypeInformation s;
     mGcdMemorySpaceMap := mGcdMemorySpaceMap s |}.
Definition set_mFreeMemoryMapEntryList (v : list Z) (s : PAGES) : PAGES :=
  {| gMemoryMap := gMemoryMap s; mMemoryMapKey := mMemoryMapKey s; mMapDepth := mMapDepth s; mFreeMapStack := mFreeMapStack s;
     mFreeMemoryMapEntryList := v;
     mMemoryTypeInformationInitialized := mMemoryTypeInformationInitialized s;
     mMemoryTypeStatistics := mMemoryTypeStatistics s; mDefaultMaximumAddress := mDefaultMaximumAddress s;
     mDefaultBaseAddress := mDefaultBaseAddress s; gMemoryTypeInformation := gMemoryTypeInformation s;
     mGcdMemorySpaceMap := mGcdMemorySpaceMap s |}.
Definition set_mMemoryTypeInformationInitialized (v : bool) (s : PAGES) : PAGES :=
  {| gMemoryMap := gMemoryMap s; mMemoryMapKey := mMemoryMapKey s; mMapDepth := mMapDepth s; mFreeMapStack := mFreeMapStack s;
     mFreeMemoryMapEntryList := mFreeMemoryMapEntryList s;
     mMemoryTypeInformationInitialized := v;
     mMemoryTypeStatistics := mMemoryTypeStatistics s; mDefaultMaximumAddress := mDefaultMaximumAddress s;
     mDefaultBaseAddress := mDefaultBaseAddress s; gMemoryTypeInformation := gMemoryTypeInformation s;
     mGcdMemorySpaceMap := mGcdMemorySpaceMap s |}.
Definition set_mMemoryTypeStatistics (v : list EFI_MEMORY_TYPE_STATISTICS) (s : PAGES) : PAGES :=
  {| gMemoryMap := gMemoryMap s; mMemoryMapKey := mMemoryMapKey s; mMapDepth := mMapDepth s; mFreeMapStack := mFreeMapStack s;
     mFreeMemoryMapEntryList := mFreeMemoryMapEntryList s;
     mMemoryTypeInformationInitialized := mMemoryTypeInformationInitialized s;
     mMemoryTypeStatistics := v; mDefaultMaximumAddress := mDefaultMaximumAddress s;
     mDefaultBaseAddress := mDefaultBaseAddress s; gMemoryTypeInformation := gMemoryTypeInformation s;
     mGcdMemorySpaceMap := mGcdMemorySpaceMap s |}.
Definition set_mDefaultMaximumAddress (v : Z) (s : PAGES) : PAGES :=
  {| gMemoryMap := gMemoryMap s; mMemoryMapKey := mMemoryMapKey s; mMapDepth := mMapDepth s; mFreeMapStack := mFreeMapStack s;
     mFreeMemoryMapEntryList := mFreeMemoryMapEntryList s;
     mMemoryTypeInformationInitialized := mMemoryTypeInformationInitialized s;
     mMemoryTypeStatistics := mMemoryTypeStatistics s; mDefaultMaximumAddress := v;
     mDefaultBaseAddress := mDefaultBaseAddress s; gMemoryTypeInformation := gMemoryTypeInformation s;
     mGcdMemorySpaceMap := mGcdMemorySpaceMap s |}.
Definition set_mDefaultBaseAddress (v : Z) (s : PAGES) : PAGES :=
  {| gMemoryMap := gMemoryMap s; mMemoryMapKey := mMemoryMapKey s; mMapDepth := mMapDepth s; mFreeMapStack := mFreeMapStack s;
     mFreeMemoryMapEntryList := mFreeMemoryMapEntryList s;
     mMemoryTypeInformationInitialized := mMemoryTypeInformationInitialized s;
     mMemoryTypeStatistics := mMemoryTypeStatistics s; mDefaultMaximumAddress := mDefaultMaximumAddress s;
     mDefaultBaseAddress := v; gMemoryTypeInformation := gMemoryTypeInformation s;
     mGcdMemorySpaceMap := mGcdMemorySpaceMap s |}.
Definition set_gMemoryTypeInformation (v : list EFI_MEMORY_TYPE_INFORMATION) (s : PAGES) : PAGES :=
  {| gMemoryMap := gMemoryMap s; mMemoryMapKey := mMemoryMapKey s; mMapDepth := mMapDepth s; mFreeMapStack := mFreeMapStack s;
     mFreeMemoryMapEntryList := mFreeMemoryMapEntryList s;
     mMemoryTypeInformationInitialized := mMemoryTypeInformationInitialized s;
     mMemoryTypeStatistics := mMemoryTypeStatistics s; mDefaultMaximumAddress := mDefaultMaximumAddress s;
     mDefaultBaseAddress := mDefaultBaseAddress s; gMemoryTypeInformation := v;
     mGcdMemorySpaceMap := mGcdMemorySpaceMap s |}.
Definition set_mGcdMemorySpaceMap (v : list EFI_GCD_MAP_ENTRY) (s : PAGES) : PAGES :=
  {| gMemoryMap := gMemoryMap s; mMemoryMapKey := mMemoryMapKey s; mMapDepth := mMapDepth s; mFreeMapStack := mFreeMapStack s;
     mFreeMemoryMapEntryList := mFreeMemoryMapEntryList s;
     mMemoryTypeInformationInitialized := mMemoryTypeInformationInitialized s;
     mMemoryTypeStatistics := mMemoryTypeStatistics s; mDefaultMaximumAddress := mDefaultMaximumAddress s;
     mDefaultBaseAddress := mDefaultBaseAddress s; gMemoryTypeInformation := gMemoryTypeInformation s;
     mGcdMemorySpaceMap := v |}.

Definition set_Start (v : Z) (m : MEMORY_MAP) : MEMORY_MAP :=
  {| mm_Signature := mm_Signature m; mm_Type := mm_Type m; mm_Start := v; mm_End := mm_End m;
     mm_VirtualStart := mm_VirtualStart m; mm_Attribute := mm_Attribute m |}.
Definition set_End (v : Z) (m : MEMORY_MAP) : MEMORY_MAP :=
  {| mm_Signature := mm_Signature m; mm_Type := mm_Type m; mm_Start := mm_Start m; mm_End := v;
     mm_VirtualStart := mm_VirtualStart m; mm_Attribute := mm_Attribute m |}.
Definition set_CurrentNumberOfPages (v : Z) (st : EFI_MEMORY_TYPE_STATISTICS) : EFI_MEMORY_TYPE_STATISTICS :=
  {| st_BaseAddress := st_BaseAddress st; st_MaximumAddress := st_MaximumAddress st; st_CurrentNumberOfPages := v;
     st_NumberOfPages := st_NumberOfPages st; st_InformationIndex := st_InformationIndex st;
     st_Special := st_Special st; st_Runtime := st_Runtime st |}.

(** The largest address of memory that can be allocated (ProcessorBind.h). *)
Class PageConfig := { MAX_ALLOC_ADDRESS : Z }.

Abbreviation PageM := (M PAGES).

Section Code.
Context `{!Platform, !PageConfig}.

(** sizeof (MEMORY_MAP): the signature, the two links, FromPages and Type, and four UINT64. *)
Definition SIZEOF_MEMORY_MAP : Z := align_up (3 * (UINTN_WIDTH / 8) + 8) ALIGNOF_UINT64 + 32.

(** The signature check of CR (Link, MEMORY_MAP, Link, MEMORY_MAP_SIGNATURE). *)
Definition CR_MEMORY_MAP (e : Entry) : PageM unit := ASSERT (mm_Signature (en_map e) =? MEMORY_MAP_SIGNATURE).

(** RemoveEntryList *)
Definition unlink (c : Cell) (l : list Entry) : list Entry := filter (λ e, en_cell e ≠ c) l.

Definition RemoveMemoryMapEntry (c : Cell) : PageM unit :=
  modify (λ s, set_gMemoryMap (unlink c (gMemoryMap s)) s);;
  match c with
  | Page p => modify (λ s, set_mFreeMemoryMapEntryList (mFreeMemoryMapEntryList s ++ [p]) s)
  | Slot _ => mret tt
  end.

(** An assignment to fields of the entry in [c]. *)
Definition put_entry (c : Cell) (m : MEMORY_MAP) : PageM unit :=
  modify (λ s, set_gMemoryMap (map (λ e, if decide (en_cell e = c) then {| en_cell := c; en_map := m |} else e) (gMemoryMap s)) s).

(** mMapStack[mMapDepth] is filled in and linked at the end of gMemoryMap. *)
Definition PushMapStack (m : MEMORY_MAP) : PageM Entry :=
  s ← getS;
  require (mMapDepth s <? MAX_MAP_DEPTH) OutOfBounds;;
  let e := {| en_cell := Slot (mMapDepth s); en_map := m |} in
  modify (set_gMemoryMap (gMemoryMap s ++ [e]));;
  modify (set_mMapDepth (mMapDepth s + 1));;
  ASSERT (mMapDepth s + 1 <? MAX_MAP_DEPTH);;
  mret e.

(** The loop that looks for adjoining descriptors, over the entries [l] that are left. *)
Fixpoint MergeNeighbours (l : list Entry) (Type0 Attr Start End_ : Z) : PageM (Z * Z) :=
  match l with
  | [] => mret (Start, End_)
  | e :: l' =>
      CR_MEMORY_MAP e;;
      if negb (mm_Type (en_map e) =? Type0) then MergeNeighbours l' Type0 Attr Start End_
      else if negb (mm_Attribute (en_map e) =? Attr) then MergeNeighbours l' Type0 Attr Start End_
      else if wrap 64 (mm_End (en_map e) + 1) =? Start then
        RemoveMemoryMapEntry (en_cell e);;
        MergeNeighbours l' Type0 Attr (mm_Start (en_map e)) End_
      else if mm_Start (en_map e) =? wrap 64 (End_ + 1) then
        RemoveMemoryMapEntry (en_cell e);;
        MergeNeighbours l' Type0 Attr Start (mm_End (en_map e))
      else MergeNeighbours l' Type0 Attr Start End_
  end.

Definition CoreAddRange (Type0 Start End_ Attr : Z) : PageM unit :=
  ASSERT (Z.land Start EFI_PAGE_MASK =? 0);;
  ASSERT (Start <? End_);;
  modify (λ s, set_mMemoryMapKey (wrapn (mMemoryMapKey s + 1)) s);;
  s ← getS;
  '(Start', End') ← MergeNeighbours (gMemoryMap s) Type0 Attr Start End_;
  PushMapStack {| mm_Signature := MEMORY_MAP_SIGNATURE; mm_Type := Type0; mm_Start := Start'; mm_End := End';
                  mm_VirtualStart := 0; mm_Attribute := Attr |};;
  mret tt.

(** *** Finding free pages *)

(** The body of the loop of CoreFindFreePagesI, for MaxAddress at the end of a page. *)
Definition FreePagesIn (MaxAddress MinAddress NumberOfBytes Alignment : Z) (m : MEMORY_MAP) (Target : Z) : Z :=
  if negb (mm_Type m =? EfiConventionalMemory) then Target
  else if (MaxAddress <=? mm_Start m) || (mm_End m <? MinAddress) then Target
  else
    let DescEnd := if MaxAddress <=? mm_End m then MaxAddress else mm_End m in
    let DescEnd := wrap 64 (Z.land (wrap 64 (DescEnd + 1)) (lnot_w 64 (wrap 64 (Alignment - 1))) - 1) in
    if DescEnd <? mm_Start m then Target
    else if wrap 64 (DescEnd - mm_Start m + 1) <? NumberOfBytes then Target
    else if wrap 64 (DescEnd - NumberOfBytes + 1) <? MinAddress then Target
    else if Target <? DescEnd then DescEnd else Target.

Fixpoint FindFreePages_loop (l : list Entry) (MaxAddress MinAddress NumberOfBytes Alignment Target : Z) : PageM Z :=
  match l with
  | [] => mret Target
  | e :: l' =>
      CR_MEMORY_MAP e;;
      FindFreePages_loop l' MaxAddress MinAddress NumberOfBytes Alignment
        (FreePagesIn MaxAddress MinAddress NumberOfBytes Alignment (en_map e) Target)
  end.

(** MaxAddress, or the end of the page before the one it is in. *)
Definition PageEndBelow (MaxAddress : Z) : Z :=
  if Z.land MaxAddress EFI_PAGE_MASK =? EFI_PAGE_MASK then MaxAddress
  else Z.lor (Z.land (wrap 64 (MaxAddress - (EFI_PAGE_MASK + 1))) (lnot_w 64 EFI_PAGE_MASK)) EFI_PAGE_MASK.

Definition CoreFindFreePagesI (MaxAddress MinAddress NumberOfPages Alignment : Z) : PageM Z :=
  if (MaxAddress <? EFI_PAGE_MASK) || (NumberOfPages =? 0) then mret 0
  else
    let NumberOfBytes := LShiftU64 NumberOfPages EFI_PAGE_SHIFT in
    s ← getS;
    Target ← FindFreePages_loop (gMemoryMap s) (PageEndBelow MaxAddress) MinAddress NumberOfBytes Alignment 0;
    let Target := wrap 64 (Target - (NumberOfBytes - 1)) in
    mret (if Z.land Target EFI_PAGE_MASK =? 0 then Target else 0).

Definition get_bin (Type0 : Z) : PageM EFI_MEMORY_TYPE_STATISTICS :=
  s ← getS;
  match mMemoryTypeStatistics s !! Z.to_nat Type0 with
  | Some st => mret st
  | None => crash OutOfBounds
  end.

(** *** Converting pages *)

(** The loop that finds the entry that covers the range. *)
Fixpoint FindCover (l : list Entry) (Start : Z) : PageM (option Entry) :=
  match l with
  | [] => mret None
  | e :: l' =>
      CR_MEMORY_MAP e;;
      if (mm_Start (en_map e) <=? Start) && (Start <? mm_End (en_map e)) then mret (Some e) else FindCover l' Start
  end.

(** Start is in the bin of a type, or in the default bin. *)
Definition InBin (st : EFI_MEMORY_TYPE_STATISTICS) (Start : Z) (s : PAGES) : bool :=
  ((st_BaseAddress st <=? Start) && (Start <=? st_MaximumAddress st)) ||
  ((mDefaultBaseAddress s <=? Start) && (Start <=? mDefaultMaximumAddress s)).

Definition put_bin (Type0 : Z) (st : EFI_MEMORY_TYPE_STATISTICS) : PageM unit :=
  modify (λ s, set_mMemoryTypeStatistics (<[Z.to_nat Type0 := st]> (mMemoryTypeStatistics s)) s).

(** The counters of the type the pages had. *)
Definition CountFreed (Type0 Start NumberOfPages : Z) : PageM unit :=
  if Type0 <? EfiMaxMemoryType then
    st ← get_bin Type0;
    s ← getS;
    if InBin st Start s then
      put_bin Type0 (set_CurrentNumberOfPages
        (if st_CurrentNumberOfPages st <? NumberOfPages then 0 else wrap 64 (st_CurrentNumberOfPages st - NumberOfPages)) st)
    else mret tt
  else mret tt.

(** The counters of the type the pages get. *)
Definition CountAllocated (NewType Start NumberOfPages : Z) : PageM unit :=
  if NewType <? EfiMaxMemoryType then
    st ← get_bin NewType;
    s ← getS;
    if InBin st Start s then
      let Current := wrap 64 (st_CurrentNumberOfPages st + NumberOfPages) in
      put_bin NewType (set_CurrentNumberOfPages Current st);;
      match gMemoryTypeInformation s !! Z.to_nat (st_InformationIndex st) with
      | Some mti =>
          if mti_NumberOfPages mti <? Current then
            modify (set_gMemoryTypeInformation
              (<[Z.to_nat (st_InformationIndex st) := {| mti_Type := mti_Type mti; mti_NumberOfPages := wrap 32 Current |}]>
                 (gMemoryTypeInformation s)))
          else mret tt
      | None => crash OutOfBounds
      end
    else mret tt
  else mret tt.

(** The range is pulled out of the entry [e]; returns the entry that Entry points to then.  The VirtualStart
    of the slots of mMapStack is always 0. *)
Definition PullRange (e : Entry) (Start RangeEnd : Z) : PageM Entry :=
  let m := en_map e in
  if mm_Start m =? Start then
    let m' := set_Start (wrap 64 (RangeEnd + 1)) m in
    put_entry (en_cell e) m';;
    mret {| en_cell := en_cell e; en_map := m' |}
  else if mm_End m =? RangeEnd then
    let m' := set_End (wrap 64 (Start - 1)) m in
    put_entry (en_cell e) m';;
    mret {| en_cell := en_cell e; en_map := m' |}
  else
    put_entry (en_cell e) (set_End (wrap 64 (Start - 1)) m);;
    ASSERT (mm_Start m <? wrap 64 (Start - 1));;
    PushMapStack {| mm_Signature := MEMORY_MAP_SIGNATURE; mm_Type := mm_Type m; mm_Start := wrap 64 (RangeEnd + 1);
                    mm_End := mm_End m; mm_VirtualStart := 0; mm_Attribute := mm_Attribute m |}.

(** The descriptor is removed from the map if it is empty. *)
Definition RemoveIfEmpty (e : Entry) : PageM unit :=
  if mm_Start (en_map e) =? wrap 64 (mm_End (en_map e) + 1) then RemoveMemoryMapEntry (en_cell e) else mret tt.

(** An iteration of the loop of CoreConvertPagesEx, up to the call of CoreFreeMemoryMapStack; returns
    RangeEnd. *)
Definition ConvertRange (Start End_ NumberOfPages : Z) (ChangingType : bool) (NewType NewAttributes : Z) : PageM Z :=
  s ← getS;
  c ← FindCover (gMemoryMap s) Start;
  match c with
  | None => raise RETURN_NOT_FOUND
  | Some e =>
      let m := en_map e in
      fail_if (ChangingType && negb (NewType =? EfiConventionalMemory) && (mm_End m <? End_)) RETURN_NOT_FOUND;;
      let RangeEnd := if mm_End m <? End_ then mm_End m else End_ in
      (if ChangingType then
         fail_if (xorb (negb (NewType =? EfiConventionalMemory)) (mm_Type m =? EfiConventionalMemory)) RETURN_NOT_FOUND;;
         CountFreed (mm_Type m) Start NumberOfPages;;
         CountAllocated NewType Start NumberOfPages
       else mret tt);;
      e ← PullRange e Start RangeEnd;
      let Attr := if ChangingType then mm_Attribute (en_map e) else NewAttributes in
      let MemType := if ChangingType then NewType else mm_Type (en_map e) in
      RemoveIfEmpty e;;
      CoreAddRange MemType Start RangeEnd Attr;;
      mret RangeEnd
  end.

(** The code between CoreFreeMemoryMapStack and its own recursive call: the calls of
    CoreFreeMemoryMapStack are to [FreeMapStack]. *)
Section Recursion.
Context (FreeMapStack : PageM unit).

Definition promotable (g : EFI_GCD_MAP_ENTRY) : bool :=
  bool_decide (gcd_GcdMemoryType g = EfiGcdMemoryTypeReserved) && (gcd_EndAddress g <? MAX_ALLOC_ADDRESS) &&
  (Z.land (gcd_Capabilities g) (Z.lor (Z.lor EFI_MEMORY_PRESENT EFI_MEMORY_INITIALIZED) EFI_MEMORY_TESTED) =?
   Z.lor EFI_MEMORY_PRESENT EFI_MEMORY_INITIALIZED).

(** The update of the GCD map; the handles have no counterpart. *)
Definition promoted (g : EFI_GCD_MAP_ENTRY) : EFI_GCD_MAP_ENTRY :=
  {| gcd_Signature := gcd_Signature g; gcd_BaseAddress := gcd_BaseAddress g; gcd_EndAddress := gcd_EndAddress g;
     gcd_Capabilities := Z.lor (gcd_Capabilities g) EFI_MEMORY_TESTED; gcd_Attributes := gcd_Attributes g;
     gcd_GcdMemoryType := if Z.land (gcd_Capabilities g) EFI_MEMORY_MORE_RELIABLE =? EFI_MEMORY_MORE_RELIABLE
                          then EfiGcdMemoryTypeMoreReliable else EfiGcdMemoryTypeSystemMemory;
     gcd_GcdIoType := gcd_GcdIoType g |}.

(** The attributes of the memory that is added. *)
Definition promoted_attribute (g : EFI_GCD_MAP_ENTRY) : Z :=
  Z.land (gcd_Capabilities (promoted g))
    (lnot_w 64 (Z.lor (Z.lor EFI_MEMORY_PRESENT EFI_MEMORY_INITIALIZED) (Z.lor EFI_MEMORY_TESTED EFI_MEMORY_RUNTIME))).

Definition PromoteEntry (i : Z) (Promoted : bool) : PageM bool :=
  s ← getS;
  match mGcdMemorySpaceMap s !! Z.to_nat i with
  | None => crash OutOfBounds
  | Some g =>
      ASSERT (gcd_Signature g =? EFI_GCD_MAP_SIGNATURE);;
      if promotable g then
        modify (set_mGcdMemorySpaceMap (<[Z.to_nat i := promoted g]> (mGcdMemorySpaceMap s)));;
        CoreAddRange EfiConventionalMemory (gcd_BaseAddress g) (gcd_EndAddress g) (promoted_attribute g);;
        FreeMapStack;;
        mret true
      else mret Promoted
  end.

Definition PromoteMemoryResource : PageM bool :=
  s ← getS;
  for_loop (length (mGcdMemorySpaceMap s)) 0 PromoteEntry false.

(** The three attempts of FindFreePages. *)
Definition FindInBins (MaxAddress NoPages NewType Alignment : Z) : PageM Z :=
  Start ← (if NewType <? EfiMaxMemoryType then
             st ← get_bin NewType;
             if st_MaximumAddress st <=? MaxAddress then
               CoreFindFreePagesI (st_MaximumAddress st) (st_BaseAddress st) NoPages Alignment
             else mret 0
           else mret 0);
  if negb (Start =? 0) then mret Start
  else
    s ← getS;
    Start ← (if mDefaultMaximumAddress s <=? MaxAddress then
               CoreFindFreePagesI (mDefaultMaximumAddress s) 0 NoPages Alignment
             else mret 0);
    if negb (Start =? 0) then
      (if Start <? mDefaultBaseAddress s then modify (set_mDefaultBaseAddress Start) else mret tt);;
      mret Start
    else CoreFindFreePagesI MaxAddress 0 NoPages Alignment.

Fixpoint FindFreePages_fuel (fuel : nat) (MaxAddress NoPages NewType Alignment : Z) : PageM Z :=
  match fuel with
  | O => crash OutOfFuel
  | S fuel =>
      Start ← FindInBins MaxAddress NoPages NewType Alignment;
      if negb (Start =? 0) then mret Start
      else
        Promoted ← PromoteMemoryResource;
        if negb Promoted then mret 0 else FindFreePages_fuel fuel MaxAddress NoPages NewType Alignment
  end.

(** Each recursive call has promoted an entry of the GCD map, and an entry is promoted once. *)
Definition FindFreePages (MaxAddress NoPages NewType Alignment : Z) : PageM Z :=
  s ← getS;
  FindFreePages_fuel (S (length (mGcdMemorySpaceMap s))) MaxAddress NoPages NewType Alignment.

Fixpoint ConvertPages_loop (fuel : nat) (Start End_ NumberOfPages : Z) (ChangingType : bool) (NewType NewAttributes : Z)
    : PageM unit :=
  match fuel with
  | O => crash OutOfFuel
  | S fuel =>
      if Start <? End_ then
        RangeEnd ← ConvertRange Start End_ NumberOfPages ChangingType NewType NewAttributes;
        FreeMapStack;;
        ConvertPages_loop fuel (wrap 64 (RangeEnd + 1)) End_ NumberOfPages ChangingType NewType NewAttributes
      else mret tt
  end.

(** Each iteration converts at least a page. *)
Definition CoreConvertPagesEx (Start NumberOfPages : Z) (ChangingType : bool) (NewType : Z)
    (ChangingAttributes : bool) (NewAttributes : Z) : PageM unit :=
  let NumberOfBytes := LShiftU64 NumberOfPages EFI_PAGE_SHIFT in
  let End_ := wrap 64 (Start + NumberOfBytes - 1) in
  ASSERT (negb (NumberOfPages =? 0));;
  ASSERT (Z.land Start EFI_PAGE_MASK =? 0);;
  ASSERT (Start <? End_);;
  ASSERT (negb ChangingType || negb ChangingAttributes);;
  fail_if ((NumberOfPages =? 0) || negb (Z.land Start EFI_PAGE_MASK =? 0) || (End_ <=? Start)) RETURN_INVALID_PARAMETER;;
  ConvertPages_loop (Z.to_nat ((End_ - Start) / EFI_PAGE_SIZE + 2)) Start End_ NumberOfPages ChangingType NewType
    NewAttributes.

Definition CoreConvertPages (Start NumberOfPages NewType : Z) : PageM unit :=
  CoreConvertPagesEx Start NumberOfPages true NewType false 0.

(** Returns the address of the pages, 0 if there are none. *)
Definition CoreAllocatePoolPages (PoolType NumberOfPages Alignment : Z) : PageM Z :=
  Start ← FindFreePages MAX_ALLOC_ADDRESS NumberOfPages PoolType Alignment;
  (if Start =? 0 then mret tt else attempt (CoreConvertPages Start NumberOfPages PoolType);; mret tt);;
  mret (wrapn Start).

(** The addresses of the [n] entries from [p] on. *)
Definition NewEntries (p n : Z) : list Z := map (λ i, p + Z.of_nat i * SIZEOF_MEMORY_MAP) (seq 0 (Z.to_nat n)).

(** Returns the address of the entry, [None] for NULL. *)
Definition AllocateMemoryMapEntry : PageM (option Z) :=
  s ← getS;
  Refueled ← (if decide (mFreeMemoryMapEntryList s = []) then
                p ← CoreAllocatePoolPages EfiBootServicesData (EFI_SIZE_TO_PAGES DEFAULT_PAGE_ALLOCATION_GRANULARITY)
                      DEFAULT_PAGE_ALLOCATION_GRANULARITY;
                if p =? 0 then mret false
                else
                  modify (λ s, set_mFreeMemoryMapEntryList
                    (mFreeMemoryMapEntryList s ++ NewEntries p (DEFAULT_PAGE_ALLOCATION_GRANULARITY / SIZEOF_MEMORY_MAP)) s);;
                  mret true
              else mret true);
  if negb Refueled then mret None
  else
    s ← getS;
    match mFreeMemoryMapEntryList s with
    | [] => crash UndefinedBehaviour
    | p :: l => modify (set_mFreeMemoryMapEntryList l);; mret (Some p)
    end.

(** The entry [e] is linked in front of the first entry that is from pages and starts behind it. *)
Fixpoint InsertEntry (e : Entry) (l : list Entry) : PageM (list Entry) :=
  match l with
  | [] => mret [e]
  | e2 :: l' =>
      CR_MEMORY_MAP e2;;
      if FromPages (en_cell e2) && (mm_Start (en_map e) <? mm_Start (en_map e2)) then mret (e :: l)
      else r ← InsertEntry e l'; mret (e2 :: r)
  end.

(** The body of the loop of CoreFreeMemoryMapStack. *)
Definition MoveMapStackEntry : PageM unit :=
  o ← AllocateMemoryMapEntry;
  ASSERT (bool_decide (is_Some o));;
  match o with
  | None => crash UndefinedBehaviour
  | Some p =>
      modify (λ s, set_mMapDepth (mMapDepth s - 1) s);;
      s ← getS;
      match list_find (λ e, en_cell e = Slot (mMapDepth s)) (gMemoryMap s) with
      | Some (_, e) =>
          l ← InsertEntry {| en_cell := Page p; en_map := en_map e |} (unlink (Slot (mMapDepth s)) (gMemoryMap s));
          modify (set_gMemoryMap l)
      | None => modify (set_mFreeMemoryMapEntryList (mFreeMemoryMapEntryList s ++ [p]))
      end
  end.

Fixpoint FreeMapStack_loop (fuel : nat) : PageM unit :=
  match fuel with
  | O => crash OutOfFuel
  | S fuel =>
      s ← getS;
      if mMapDepth s =? 0 then mret tt
      else MoveMapStackEntry;; FreeMapStack_loop fuel
  end.
End Recursion.

(** The stack has at most MAX_MAP_DEPTH entries when the loop starts, and at most as many when a page of
    entries has been allocated, which happens once. *)
Fixpoint FreeMemoryMapStack_fuel (fuel : nat) : PageM unit :=
  match fuel with
  | O => crash OutOfFuel
  | S fuel =>
      s ← getS;
      if negb (mFreeMapStack s =? 0) then mret tt
      else
        modify (set_mFreeMapStack (mFreeMapStack s + 1));;
        FreeMapStack_loop (FreeMemoryMapStack_fuel fuel) (Z.to_nat (2 * MAX_MAP_DEPTH));;
        modify (λ s, set_mFreeMapStack (mFreeMapStack s - 1) s)
  end.

(** The recursive call returns at once, because of mFreeMapStack. *)
Definition CoreFreeMemoryMapStack : PageM unit := FreeMemoryMapStack_fuel 2.

(** *** The services *)

Definition PageAlignment (MemoryType : Z) : Z :=
  if (MemoryType =? EfiReservedMemoryType) || (MemoryType =? EfiACPIMemoryNVS) ||
     (MemoryType =? EfiRuntimeServicesCode) || (MemoryType =? EfiRuntimeServicesData)
  then RUNTIME_PAGE_ALLOCATION_GRANULARITY else DEFAULT_PAGE_ALLOCATION_GRANULARITY.

(** NumberOfPages, rounded up to the alignment. *)
Definition RoundPages (NumberOfPages Alignment : Z) : Z :=
  Z.land (wrapn (NumberOfPages + (EFI_SIZE_TO_PAGES Alignment - 1))) (lnot_w UINTN_WIDTH (EFI_SIZE_TO_PAGES Alignment - 1)).

(** The body of the loop over the bins: the range must not touch the bin of another type. *)
Definition CheckBin (MemoryType Start End_ CheckType : Z) (_ : unit) : PageM unit :=
  if negb (MemoryType =? CheckType) then
    st ← get_bin CheckType;
    if st_Special st && (0 <? st_NumberOfPages st) then
      fail_if ((st_BaseAddress st <=? Start) && (Start <=? st_MaximumAddress st)) RETURN_NOT_FOUND;;
      fail_if ((st_BaseAddress st <=? End_) && (End_ <=? st_MaximumAddress st)) RETURN_NOT_FOUND;;
      fail_if ((Start <? st_BaseAddress st) && (st_MaximumAddress st <? End_)) RETURN_NOT_FOUND
    else mret tt
  else mret tt.

(** The checks for AllocateAddress. *)
Definition CheckAddress (MemoryType Start NumberOfPages : Z) : PageM unit :=
  fail_if ((NumberOfPages =? 0) || (RShiftU64 MAX_ALLOC_ADDRESS EFI_PAGE_SHIFT <? NumberOfPages)) RETURN_NOT_FOUND;;
  let End_ := wrap 64 (Start + LShiftU64 NumberOfPages EFI_PAGE_SHIFT - 1) in
  fail_if ((End_ <=? Start) || (MAX_ALLOC_ADDRESS <? Start) || (MAX_ALLOC_ADDRESS <? End_)) RETURN_NOT_FOUND;;
  for_loop (Z.to_nat EfiMaxMemoryType) 0 (CheckBin MemoryType Start End_) tt.

Definition CoreInternalAllocatePages (Type0 MemoryType NumberOfPages : Z) (Memory : option Z) : PageM Z :=
  fail_if (MaxAllocateType <=? Type0) RETURN_INVALID_PARAMETER;;
  fail_if (((EfiMaxMemoryType <=? MemoryType) && (MemoryType <? MEMORY_TYPE_OEM_RESERVED_MIN)) ||
           (MemoryType =? EfiConventionalMemory) || (MemoryType =? EfiPersistentMemory) ||
           (MemoryType =? EfiUnacceptedMemoryType)) RETURN_INVALID_PARAMETER;;
  match Memory with
  | None => raise RETURN_INVALID_PARAMETER
  | Some Start =>
      let Alignment := PageAlignment MemoryType in
      fail_if ((Type0 =? AllocateAddress) && negb (Z.land Start (Alignment - 1) =? 0)) RETURN_NOT_FOUND;;
      let NumberOfPages := RoundPages NumberOfPages Alignment in
      (if Type0 =? AllocateAddress then CheckAddress MemoryType Start NumberOfPages else mret tt);;
      let MaxAddress := if Type0 =? AllocateMaxAddress then Start else MAX_ALLOC_ADDRESS in
      Start ← (if negb (Type0 =? AllocateAddress) then
                 FindFreePages CoreFreeMemoryMapStack MaxAddress NumberOfPages MemoryType Alignment
               else mret Start);
      fail_if (negb (Type0 =? AllocateAddress) && (Start =? 0)) RETURN_OUT_OF_RESOURCES;;
      Status ← attempt (CoreConvertPages CoreFreeMemoryMapStack Start NumberOfPages MemoryType);
      match Status with
      | inr _ => mret Start
      | inl e =>
          Promoted ← PromoteMemoryResource CoreFreeMemoryMapStack;
          if negb Promoted then raise e
          else CoreConvertPages CoreFreeMemoryMapStack Start NumberOfPages MemoryType;; mret Start
      end
  end.

(** Returns *MemoryType. *)
Definition CoreInternalFreePages (Memory NumberOfPages : Z) : PageM Z :=
  s ← getS;
  c ← FindCover (gMemoryMap s) Memory;
  match c with
  | None => raise RETURN_NOT_FOUND
  | Some e =>
      let MemoryType := mm_Type (en_map e) in
      let Alignment := PageAlignment MemoryType in
      fail_if (negb (Z.land Memory (Alignment - 1) =? 0)) RETURN_INVALID_PARAMETER;;
      CoreConvertPages CoreFreeMemoryMapStack Memory (RoundPages NumberOfPages Alignment) EfiConventionalMemory;;
      mret MemoryType
  end.

Definition CoreFreePoolPages (Memory NumberOfPages : Z) : PageM unit :=
  _ ← attempt (CoreConvertPages CoreFreeMemoryMapStack Memory NumberOfPages EfiConventionalMemory);
  mret tt.

Definition CoreUpdateMemoryAttributes (Start NumberOfPages NewAttributes : Z) : PageM unit :=
  _ ← attempt (CoreConvertPagesEx CoreFreeMemoryMapStack Start NumberOfPages false 0 true NewAttributes);
  mret tt.

(** The loop of CoreTerminateMemoryMap. *)
Fixpoint CheckRuntimeEntries (l : list Entry) : PageM unit :=
  match l with
  | [] => mret tt
  | e :: l' =>
      CR_MEMORY_MAP e;;
      let m := en_map e in
      (if mm_Type m <? EfiMaxMemoryType then
         st ← get_bin (mm_Type m);
         if st_Runtime st then
           ASSERT (negb (mm_Type m =? EfiACPIReclaimMemory));;
           ASSERT (negb (mm_Type m =? EfiACPIMemoryNVS));;
           fail_if (negb (Z.land (mm_Start m) (RUNTIME_PAGE_ALLOCATION_GRANULARITY - 1) =? 0)) RETURN_INVALID_PARAMETER;;
           fail_if (negb (Z.land (wrap 64 (mm_End m + 1)) (RUNTIME_PAGE_ALLOCATION_GRANULARITY - 1) =? 0)) RETURN_INVALID_PARAMETER
         else mret tt
       else mret tt);;
      CheckRuntimeEntries l'
  end.

Definition CoreTerminateMemoryMap (MapKey : Z) : PageM unit :=
  s ← getS;
  if MapKey =? mMemoryMapKey s then CheckRuntimeEntries (gMemoryMap s) else raise RETURN_INVALID_PARAMETER.
End Code.
