(* ===== verification/PageMapSpec.v ===== *)
(** What gMemoryMap says of each address, the invariant of the page allocator's lists, and the
    operations on single ranges: adding a range, pulling one out of an entry, finding free pages. *)
From stdpp Require Import list.
From S2P Require Import Prelude Base Buffer Platform Overflow ImageRecord MemoryMap SplitTable SplitCoverage MemoryMerge GetMemoryMap PageAlloc.

(** ** The memory at an address *)

Definition in_map (m : MEMORY_MAP) (x : Z) : Prop := mm_Start m <= x <= mm_End m.

#[global] Instance in_map_dec m x : Decision (in_map m x).
Proof. unfold in_map. apply _. Defined.

(** The types and attributes that the entries give to the address [x]. *)
Definition mview (l : list Entry) (x : Z) : list (Z * Z) :=
  map (λ e, (mm_Type (en_map e), mm_Attribute (en_map e))) (filter (λ e, in_map (en_map e) x) l).

Arguments mview : simpl never.

(** The memory space at [x] that may become memory. *)
Definition gview `{!PageConfig} (gcd : list EFI_GCD_MAP_ENTRY) (x : Z) : list EFI_GCD_MAP_ENTRY :=
  filter (λ g, promotable g = true ∧ gcd_BaseAddress g <= x <= gcd_EndAddress g) gcd.

Lemma mview_cons e l x :
  mview (e :: l) x = (if decide (in_map (en_map e) x) then [(mm_Type (en_map e), mm_Attribute (en_map e))] else []) ++ mview l x.
Proof. unfold mview. rewrite filter_cons. by case_decide. Qed.

Lemma mview_app l l' x : mview (l ++ l') x = mview l x ++ mview l' x.
Proof. unfold mview. by rewrite list.filter_app, map_app. Qed.

#[global] Instance mview_proper : Proper ((≡ₚ) ==> eq ==> (≡ₚ)) mview.
Proof. intros A B HAB x ? <-. unfold mview. by apply Permutation_map, filter_Permutation. Qed.

Lemma perm_short {A} (l l' : list A) : (length l <= 1)%nat → l' ≡ₚ l → l' = l.
Proof.
  destruct l as [|a [|b l]]; cbn; intros Hl Hp; [|by apply Permutation_singleton_r|lia].
  by apply Permutation_nil_r.
Qed.

Lemma NoDup_sub {A} (l k : list A) : l ⊆+ k → NoDup k → NoDup l.
Proof. intros [k' ->]%submseteq_Permutation Hk. by apply list.NoDup_app in Hk as [? _]. Qed.

Lemma mview_elem l x t a : (t, a) ∈ mview l x ↔ ∃ e, e ∈ l ∧ in_map (en_map e) x ∧ mm_Type (en_map e) = t ∧ mm_Attribute (en_map e) = a.
Proof.
  unfold mview. rewrite list_elem_of_fmap. split.
  - intros (e & Heq & [Hin He]%list_elem_of_filter). injection Heq as -> ->. by exists e.
  - intros (e & He & Hin & <- & <-). exists e. split; [done|]. by apply list_elem_of_filter.
Qed.

(** ** The invariant of the lists *)

Section Invariant.
Context `{!Platform, !PageConfig}.

Record MapOk (l : list Entry) (free : list Z) (depth : Z) (gcd : list EFI_GCD_MAP_ENTRY) : Prop := {
  ok_cells : NoDup (map en_cell l ++ map Page free);
  ok_slots : ∀ i, Slot i ∈ map en_cell l → 0 <= i < depth;
  ok_entries : Forall (λ e, EntryOk UINTN_WIDTH (en_map e) ∧ 0 <= mm_Type (en_map e)) l;
  ok_disjoint : ∀ x, (length (mview l x) + length (gview gcd x) <= 1)%nat;
  (** The entries are stored in pages of boot services data. *)
  ok_stored : ∀ p, Page p ∈ map en_cell l ++ map Page free → ∃ a, mview l p = [(EfiBootServicesData, a)];
}.

Lemma mview_same l free depth gcd l' :
  MapOk l free depth gcd → (∀ x, mview l' x ≡ₚ mview l x) → ∀ x, mview l' x = mview l x.
Proof. intros Hok Hv x. apply perm_short; [|done]. pose proof (ok_disjoint _ _ _ _ Hok x). lia. Qed.

(** The entries may be replaced by others that say the same, in fewer cells. *)
Lemma MapOk_same l free depth gcd l' free' depth' :
  MapOk l free depth gcd → map en_cell l' ++ map Page free' ⊆+ map en_cell l ++ map Page free →
  (∀ i, Slot i ∈ map en_cell l' → 0 <= i < depth') →
  Forall (λ e, EntryOk UINTN_WIDTH (en_map e) ∧ 0 <= mm_Type (en_map e)) l' → (∀ x, mview l' x ≡ₚ mview l x) →
  MapOk l' free' depth' gcd.
Proof.
  intros Hok Hsub Hslots Hent Hv. pose proof (mview_same _ _ _ _ _ Hok Hv) as Heq. destruct Hok as [Hc _ _ Hd Hst].
  constructor; try done.
  - by eapply NoDup_sub.
  - intros x. by rewrite Heq.
  - intros p Hp. rewrite Heq. apply Hst. by eapply elem_of_submseteq.
Qed.

Lemma MapOk_perm l free depth gcd l' : l ≡ₚ l' → MapOk l free depth gcd → MapOk l' free depth gcd.
Proof.
  intros Hp Hok. pose proof (ok_slots _ _ _ _ Hok) as Hs. pose proof (ok_entries _ _ _ _ Hok) as He.
  apply (MapOk_same _ _ _ _ _ _ _ Hok).
  - by rewrite (Permutation_map en_cell Hp).
  - intros i Hi. apply Hs. by rewrite Hp.
  - by rewrite <- Hp.
  - intros x. by rewrite Hp.
Qed.

#[global] Instance MapOk_proper : Proper ((≡ₚ) ==> eq ==> eq ==> eq ==> iff) MapOk.
Proof. intros l l' Hp ? ? <- ? ? <- ? ? <-. split; by apply MapOk_perm. Qed.

(** An entry and the rest of the list. *)
Lemma unlink_split e l : e ∈ l → NoDup (map en_cell l) → l ≡ₚ e :: unlink (en_cell e) l.
Proof.
  intros He Hnd. apply list_elem_of_split in He as (l1 & l2 & ->). rewrite map_app in Hnd. cbn in Hnd.
  apply list.NoDup_app in Hnd as (_ & Hd1 & Hnd2). apply list.NoDup_cons in Hnd2 as [Hd2 _].
  assert (∀ k, (∀ e', e' ∈ k → en_cell e' ≠ en_cell e) → unlink (en_cell e) k = k) as Hid.
  { intros k. unfold unlink. induction k as [|e' k IH]; [done|]. intros Hk. rewrite filter_cons, decide_True by (apply Hk; left).
    f_equal. apply IH. intros. apply Hk. by right. }
  unfold unlink at 1. rewrite list.filter_app, filter_cons, decide_False by tauto. fold (unlink (en_cell e) l1) (unlink (en_cell e) l2).
  rewrite !Hid; [by rewrite Permutation_middle|..].
  - intros e' He' Heq. apply Hd2. apply list_elem_of_fmap. by exists e'.
  - intros e' He' Heq. apply (Hd1 (en_cell e')); [apply list_elem_of_fmap; by exists e'|]. rewrite Heq. left.
Qed.

Lemma MapOk_NoDup l free depth gcd : MapOk l free depth gcd → NoDup (map en_cell l).
Proof. intros [Hc _ _ _ _]. by apply list.NoDup_app in Hc as [? _]. Qed.

(** The list that RemoveMemoryMapEntry adds the entry's cell to. *)
Definition freed (c : Cell) (free : list Z) : list Z := match c with Page p => free ++ [p] | Slot _ => free end.

Lemma freed_sub c l free : map en_cell l ++ map Page (freed c free) ⊆+ c :: map en_cell l ++ map Page free.
Proof.
  destruct c as [i|p]; cbn [freed].
  - by apply submseteq_cons.
  - rewrite map_app, app_assoc. cbn. by rewrite <- Permutation_cons_append.
Qed.
End Invariant.

(** ** Adding a range *)

(** What only some operations change. *)
Record SameRest (s s' : PAGES) : Prop := {
  sr_freeing : mFreeMapStack s' = mFreeMapStack s;
  sr_initialized : mMemoryTypeInformationInitialized s' = mMemoryTypeInformationInitialized s;
  sr_statistics : mMemoryTypeStatistics s' = mMemoryTypeStatistics s;
  sr_maximum : mDefaultMaximumAddress s' = mDefaultMaximumAddress s;
  sr_base : mDefaultBaseAddress s' = mDefaultBaseAddress s;
  sr_information : gMemoryTypeInformation s' = gMemoryTypeInformation s;
  sr_gcd : mGcdMemorySpaceMap s' = mGcdMemorySpaceMap s;
}.

#[global] Instance SameRest_preorder : PreOrder SameRest.
Proof.
  split; [by intros s; constructor|]. intros s1 s2 s3 [] []. constructor; by etransitivity.
Qed.

(** A new entry in a slot of the stack. *)
Definition new_map (T St En A : Z) : MEMORY_MAP :=
  {| mm_Signature := MEMORY_MAP_SIGNATURE; mm_Type := T; mm_Start := St; mm_End := En; mm_VirtualStart := 0; mm_Attribute := A |}.

Definition new_entry (d T St En A : Z) : Entry := {| en_cell := Slot d; en_map := new_map T St En A |}.

(** The address [p] holds an entry of the memory map. *)
Definition stored_at (s : PAGES) (p : Z) : Prop :=
  Page p ∈ map en_cell (gMemoryMap s) ++ map Page (mFreeMemoryMapEntryList s).

(** The state without the entry in [c]. *)
Definition removed (c : Cell) (s : PAGES) : PAGES :=
  match c with
  | Page p => set_mFreeMemoryMapEntryList (mFreeMemoryMapEntryList s ++ [p]) (set_gMemoryMap (unlink c (gMemoryMap s)) s)
  | Slot _ => set_gMemoryMap (unlink c (gMemoryMap s)) s
  end.

Lemma removed_fields c s :
  gMemoryMap (removed c s) = unlink c (gMemoryMap s) ∧ mFreeMemoryMapEntryList (removed c s) = freed c (mFreeMemoryMapEntryList s) ∧
  mMapDepth (removed c s) = mMapDepth s ∧ SameRest s (removed c s).
Proof. by destruct c. Qed.

Lemma wp_RemoveMemoryMapEntry c (Q : unit → PAGES → Prop) E s : Q tt (removed c s) → wp (RemoveMemoryMapEntry c) Q E s.
Proof. intros HQ. unfold RemoveMemoryMapEntry. do 2 wp_step. by destruct c; wp_step. Qed.

Lemma removed_stored e s p : e ∈ gMemoryMap s → NoDup (map en_cell (gMemoryMap s)) → stored_at (removed (en_cell e) s) p → stored_at s p.
Proof.
  intros He Hnd. unfold stored_at. destruct (removed_fields (en_cell e) s) as (-> & -> & _ & _). intros Hp.
  apply (elem_of_submseteq _ _ _ Hp). etransitivity; [apply freed_sub|].
  pose proof (Permutation_map en_cell (unlink_split e _ He Hnd)) as Hp'. cbn [map] in Hp'. by rewrite Hp'.
Qed.

Lemma freed_length c free : (length free <= length (freed c free))%nat.
Proof. destruct c; cbn; [done|]. rewrite length_app. lia. Qed.

(** Two adjoining ranges. *)
Lemma mview_merge c c1 c2 T A s1 e1 e2 l x :
  s1 <= e1 + 1 → e1 <= e2 →
  mview ({| en_cell := c; en_map := new_map T s1 e2 A |} :: l) x =
  mview ({| en_cell := c1; en_map := new_map T s1 e1 A |} :: {| en_cell := c2; en_map := new_map T (e1 + 1) e2 A |} :: l) x.
Proof.
  intros H1 H2. rewrite !mview_cons. unfold in_map. cbn [en_map mm_Start mm_End new_map mm_Type mm_Attribute].
  repeat case_decide; cbn [app]; done || lia.
Qed.

Section AddRange.
Context `{!Platform, !PlatformOk, !PageConfig}.

Lemma UINTN_WIDTH_64 : 32 <= UINTN_WIDTH <= 64.
Proof. destruct platform_uintn as [->| ->]; lia. Qed.

Lemma range_end_u64 St En : range_ok UINTN_WIDTH St En → 0 <= St <= En ∧ En + 1 < 2 ^ 64 ∧ St + 4095 <= En.
Proof.
  intros ([Hs He] & Hw & [a Ha] & [b Hb]). pose proof UINTN_WIDTH_64.
  pose proof (Z.pow_le_mono_r 2 UINTN_WIDTH 64). unfold EFI_PAGE_SHIFT in *. change (2 ^ 12) with 4096 in *. lia.
Qed.

Lemma entry_map e T A :
  EntryOk UINTN_WIDTH (en_map e) → mm_Type (en_map e) = T → mm_Attribute (en_map e) = A →
  en_map e = new_map T (mm_Start (en_map e)) (mm_End (en_map e)) A.
Proof. destruct e as [c []]. cbn. intros [Hs Hv _]. cbn in *. by intros -> ->; subst. Qed.

Lemma EntryOk_new T St En A : EntryOk UINTN_WIDTH (new_map T St En A) ↔ range_ok UINTN_WIDTH St En.
Proof. split; [by intros []|]. by intros ?; constructor. Qed.

Lemma wp_CR e (Q : unit → PAGES → Prop) E s : EntryOk UINTN_WIDTH (en_map e) → Q tt s → wp (CR_MEMORY_MAP e) Q E s.
Proof. intros He HQ. apply wp_ASSERT; [|done]. rewrite (eo_signature _ _ He). apply Z.eqb_refl. Qed.

(** The neighbour [e] of the new entry gives its memory to it. *)
Lemma MapOk_merge d T A e R free gcd St En St' En' :
  MapOk (new_entry d T St En A :: e :: R) free (d + 1) gcd →
  mm_Type (en_map e) = T → mm_Attribute (en_map e) = A →
  (mm_End (en_map e) + 1 = St ∧ St' = mm_Start (en_map e) ∧ En' = En ∨
   mm_Start (en_map e) = En + 1 ∧ St' = St ∧ En' = mm_End (en_map e)) →
  MapOk (new_entry d T St' En' A :: R) (freed (en_cell e) free) (d + 1) gcd ∧
  ∀ x, mview (new_entry d T St' En' A :: R) x = mview (new_entry d T St En A :: e :: R) x.
Proof.
  intros Hok HT HA Hadj. pose proof (ok_entries _ _ _ _ Hok) as Hent.
  apply list.Forall_cons in Hent as [[Hn Hn0] [[He He0] HR]%list.Forall_cons].
  cbn [new_entry en_map] in Hn. apply EntryOk_new in Hn as Hr. pose proof (eo_range _ _ He) as Hre.
  pose proof (range_end_u64 _ _ Hr) as (? & ? & ?). pose proof (range_end_u64 _ _ Hre) as (? & ? & ?).
  assert (range_ok UINTN_WIDTH St' En') as Hr'.
  { destruct Hr as (? & ? & ? & ?), Hre as (? & ? & ? & ?), Hadj as [(? & -> & ->)|(? & -> & ->)]; split_and!; done || lia. }
  assert (∀ x, mview (new_entry d T St' En' A :: R) x ≡ₚ mview (new_entry d T St En A :: e :: R) x) as Hv.
  { intros x. destruct e as [c m]. pose proof (entry_map {| en_cell := c; en_map := m |} T A He HT HA) as Hm. cbn [en_map] in *.
    set (s0 := mm_Start m) in *. set (e0 := mm_End m) in *. clearbody s0 e0. rewrite Hm. unfold new_entry.
    destruct Hadj as [(<- & -> & ->)|(-> & -> & ->)].
    - rewrite perm_swap. rewrite (mview_merge (Slot d) c (Slot d) T A s0 e0 En) by lia. done.
    - rewrite (mview_merge (Slot d) (Slot d) c T A St En e0) by lia. done. }
  split; [|by apply (mview_same _ _ _ _ _ Hok)].
  apply (MapOk_same _ _ _ _ _ _ _ Hok); [..|done].
  - cbn. apply submseteq_skip. apply freed_sub.
  - intros i Hi. apply (ok_slots _ _ _ _ Hok). cbn in *. apply list.elem_of_cons in Hi as [->|Hi]; [left|by right; right].
  - constructor; [|done]. split; [by apply EntryOk_new|done].
Qed.

Lemma MergeNeighbours_spec l T A : ∀ St En s E,
  (∀ e, e ∈ l → e ∈ gMemoryMap s) → NoDup (map en_cell l) →
  MapOk (new_entry (mMapDepth s) T St En A :: gMemoryMap s) (mFreeMemoryMapEntryList s) (mMapDepth s + 1) (mGcdMemorySpaceMap s) →
  wp (MergeNeighbours l T A St En) (λ '(St', En') s', SameRest s s' ∧ mMapDepth s' = mMapDepth s ∧
    (length (mFreeMemoryMapEntryList s) <= length (mFreeMemoryMapEntryList s'))%nat ∧ (∀ p, stored_at s' p → stored_at s p) ∧
    MapOk (new_entry (mMapDepth s) T St' En' A :: gMemoryMap s') (mFreeMemoryMapEntryList s') (mMapDepth s + 1) (mGcdMemorySpaceMap s) ∧
    ∀ x, mview (new_entry (mMapDepth s) T St' En' A :: gMemoryMap s') x = mview (new_entry (mMapDepth s) T St En A :: gMemoryMap s) x) E s.
Proof.
  induction l as [|e l IH]; intros St En s E Hl Hnd Hok; cbn [MergeNeighbours].
  { wp_step. by split_and!. }
  cbn in Hnd. apply list.NoDup_cons in Hnd as [Hnew Hnd].
  pose proof (ok_entries _ _ _ _ Hok) as Hent. apply list.Forall_cons in Hent as [[Hn _] Hent].
  destruct (proj1 (list.Forall_forall _ _) Hent e (Hl e ltac:(left))) as [He He0].
  pose proof (range_end_u64 _ _ (eo_range _ _ He)) as (? & ? & ?).
  apply EntryOk_new in Hn. pose proof (range_end_u64 _ _ Hn) as (? & ? & ?).
  assert (wp (MergeNeighbours l T A St En) (λ '(St', En') s', SameRest s s' ∧ mMapDepth s' = mMapDepth s ∧
    (length (mFreeMemoryMapEntryList s) <= length (mFreeMemoryMapEntryList s'))%nat ∧ (∀ p, stored_at s' p → stored_at s p) ∧
    MapOk (new_entry (mMapDepth s) T St' En' A :: gMemoryMap s') (mFreeMemoryMapEntryList s') (mMapDepth s + 1) (mGcdMemorySpaceMap s) ∧
    ∀ x, mview (new_entry (mMapDepth s) T St' En' A :: gMemoryMap s') x = mview (new_entry (mMapDepth s) T St En A :: gMemoryMap s) x) E s)
    as Hskip.
  { apply IH; [|done|done]. intros e' He'. apply Hl. by right. }
  assert (gMemoryMap s ≡ₚ e :: unlink (en_cell e) (gMemoryMap s)) as Hsplit.
  { apply unlink_split; [apply Hl; left|]. apply MapOk_NoDup in Hok. cbn in Hok. by apply list.NoDup_cons in Hok as [_ ?]. }
  assert (∀ St' En', mm_Type (en_map e) = T → mm_Attribute (en_map e) = A →
    (mm_End (en_map e) + 1 = St ∧ St' = mm_Start (en_map e) ∧ En' = En ∨
     mm_Start (en_map e) = En + 1 ∧ St' = St ∧ En' = mm_End (en_map e)) →
    wp (RemoveMemoryMapEntry (en_cell e);; MergeNeighbours l T A St' En') (λ '(St', En') s', SameRest s s' ∧ mMapDepth s' = mMapDepth s ∧
    (length (mFreeMemoryMapEntryList s) <= length (mFreeMemoryMapEntryList s'))%nat ∧ (∀ p, stored_at s' p → stored_at s p) ∧
    MapOk (new_entry (mMapDepth s) T St' En' A :: gMemoryMap s') (mFreeMemoryMapEntryList s') (mMapDepth s + 1) (mGcdMemorySpaceMap s) ∧
    ∀ x, mview (new_entry (mMapDepth s) T St' En' A :: gMemoryMap s') x = mview (new_entry (mMapDepth s) T St En A :: gMemoryMap s) x) E s)
    as Hmerge.
  { intros St' En' HT HA Hadj. pose proof Hok as Hok'. rewrite Hsplit in Hok'.
    destruct (MapOk_merge _ _ _ _ _ _ _ _ _ _ _ Hok' HT HA Hadj) as [Hok2 Hv2].
    wp_step. apply wp_RemoveMemoryMapEntry.
    destruct (removed_fields (en_cell e) s) as (Hg & Hf & Hd & Hsr). pose proof (sr_gcd _ _ Hsr) as Hgcd.
    eapply wp_mono; [apply (IH St' En')| |done].
    - rewrite Hg. intros e' He'. apply list_elem_of_filter. split; [|apply Hl; by right].
      intros Heq. apply Hnew. rewrite <- Heq. apply list_elem_of_fmap. by exists e'.
    - done.
    - by rewrite Hg, Hf, Hd, Hgcd.
    - intros [St2 En2] s' (Hsr' & Hd' & Hlen & Hsto & Hok3 & Hv3). rewrite Hg, Hf, Hd, Hgcd in *.
      pose proof (freed_length (en_cell e) (mFreeMemoryMapEntryList s)).
      split_and!; [by etransitivity|done|lia| |done|].
      { intros p Hp. eapply removed_stored; [apply Hl; left| |by apply Hsto]. apply MapOk_NoDup in Hok. cbn in Hok. by apply list.NoDup_cons in Hok as [_ ?]. }
      intros x. rewrite Hv3, Hv2.
      symmetry. apply perm_short; [pose proof (ok_disjoint _ _ _ _ Hok' x); lia|].
      apply mview_proper; [by apply perm_skip|done]. }
  wp_step. apply wp_CR; [done|].
  wp_step; [done|]. wp_step; [done|].
  rewrite (wrap_small 64 (mm_End (en_map e) + 1)), (wrap_small 64 (En + 1)) by (split; lia).
  wp_step; [apply Hmerge; [lia|lia|left; split_and!; lia]|]. wp_step; [apply Hmerge; [lia|lia|right; split_and!; lia]|]. done.
Qed.

Lemma mview_new d T St En A l x :
  mview (new_entry d T St En A :: l) x = (if decide (St <= x <= En) then [(T, A)] else []) ++ mview l x.
Proof. by rewrite mview_cons. Qed.

Lemma MapOk_new l free d gcd T St En A :
  MapOk l free d gcd → 0 <= d → range_ok UINTN_WIDTH St En → 0 <= T →
  (∀ x, St <= x <= En → mview l x = [] ∧ gview gcd x = []) →
  MapOk (new_entry d T St En A :: l) free (d + 1) gcd.
Proof.
  intros [Hc Hs He Hd Hst] Hd0 Hr HT Hempty. constructor.
  - cbn. apply list.NoDup_cons. split; [|done]. intros [Hin|Hin]%elem_of_app.
    + apply Hs in Hin. lia.
    + by apply list_elem_of_fmap in Hin as (? & ? & _).
  - cbn. intros i [[= ->]|Hi]%list.elem_of_cons; [lia|]. apply Hs in Hi. lia.
  - constructor; [|done]. split; [by apply EntryOk_new|done].
  - intros x. rewrite mview_new. case_decide as Hx; [|apply Hd]. destruct (Hempty x Hx) as [-> ->]. done.
  - cbn. intros p [?|Hp]%list.elem_of_cons; [done|]. destruct (Hst p Hp) as [a Ha]. exists a. rewrite mview_new, Ha.
    rewrite decide_False; [done|]. intros Hx. destruct (Hempty p Hx) as [Hn _]. by rewrite Hn in Ha.
Qed.

Lemma wp_PushMapStack T St En A (Q : Entry → PAGES → Prop) E s :
  0 <= mMapDepth s → mMapDepth s + 1 < MAX_MAP_DEPTH →
  Q (new_entry (mMapDepth s) T St En A)
    (set_mMapDepth (mMapDepth s + 1) (set_gMemoryMap (gMemoryMap s ++ [new_entry (mMapDepth s) T St En A]) s)) →
  wp (PushMapStack (new_map T St En A)) Q E s.
Proof.
  intros H0' Hd HQ. unfold PushMapStack. do 3 wp_step. wp_step; [apply Z.ltb_lt; lia|].
  do 5 wp_step. wp_step; [by apply Z.ltb_lt|]. by wp_step.
Qed.

Lemma page_aligned_land x : (2 ^ EFI_PAGE_SHIFT | x) → Z.land x EFI_PAGE_MASK = 0.
Proof. intros Hx. change EFI_PAGE_MASK with (2 ^ 12 - 1). rewrite land_mask by lia. by apply Z.mod_divide. Qed.

(** The range is added to the map; nothing else changes. *)
Lemma CoreAddRange_spec T St En A s E :
  MapOk (gMemoryMap s) (mFreeMemoryMapEntryList s) (mMapDepth s) (mGcdMemorySpaceMap s) →
  0 <= mMapDepth s → mMapDepth s + 1 < MAX_MAP_DEPTH → range_ok UINTN_WIDTH St En → 0 <= T →
  (∀ x, St <= x <= En → mview (gMemoryMap s) x = [] ∧ gview (mGcdMemorySpaceMap s) x = []) →
  wp (CoreAddRange T St En A) (λ _ s', SameRest s s' ∧ mMapDepth s' = mMapDepth s + 1 ∧
    (length (mFreeMemoryMapEntryList s) <= length (mFreeMemoryMapEntryList s'))%nat ∧ (∀ p, stored_at s' p → stored_at s p) ∧
    MapOk (gMemoryMap s') (mFreeMemoryMapEntryList s') (mMapDepth s') (mGcdMemorySpaceMap s') ∧
    ∀ x, mview (gMemoryMap s') x = if decide (St <= x <= En) then [(T, A)] else mview (gMemoryMap s) x) E s.
Proof.
  intros Hok Hd0 Hd Hr HT Hempty. pose proof (range_end_u64 _ _ Hr) as (? & ? & ?).
  unfold CoreAddRange. wp_step. wp_step; [rewrite page_aligned_land by apply Hr; done|].
  wp_step. wp_step; [apply Z.ltb_lt; lia|]. do 5 wp_step.
  pose proof (MapOk_new _ _ _ _ T St En A Hok Hd0 Hr HT Hempty) as Hnew.
  eapply wp_mono; [apply MergeNeighbours_spec| |done]; [done|by eapply MapOk_NoDup|done|].
  intros [St' En'] s' (Hsr & Hd' & Hlen & Hsto & Hok' & Hv). cbn [set_mMemoryMapKey gMemoryMap mMapDepth mFreeMemoryMapEntryList mGcdMemorySpaceMap] in *.
  wp_step. apply (wp_PushMapStack T St' En' A); [lia|lia|]. wp_step. cbn.
  pose proof (sr_gcd _ _ Hsr) as Hgcd. cbn in Hgcd.
  split_and!; [by destruct Hsr; constructor|lia|done|..].
  - intros p Hp. apply Hsto. unfold stored_at in *. cbn in Hp. rewrite map_app in Hp. cbn in Hp.
    rewrite <- Permutation_cons_append in Hp. by apply list.elem_of_cons in Hp as [?|?].
  - rewrite Hgcd, Hd', <- Permutation_cons_append. done.
  - intros x. trans (mview (new_entry (mMapDepth s) T St En A :: gMemoryMap s) x).
    + rewrite <- Hv. apply perm_short; [pose proof (ok_disjoint _ _ _ _ Hok' x); lia|].
      rewrite Hd'. apply mview_proper; [|done]. by rewrite <- Permutation_cons_append.
    + rewrite mview_new. case_decide as Hx; [|done]. by destruct (Hempty x Hx) as [-> _].
Qed.
End AddRange.

(** ** Pulling a range out of an entry *)

Section PullRange.
Context `{!Platform, !PlatformOk, !PageConfig}.

(** The map without the range from [St] to [En], in the same cells and perhaps one slot more. *)
Lemma MapOk_cut l free d gcd l' free' d' St En :
  MapOk l free d gcd → 0 <= d → d <= d' →
  map en_cell l' ++ map Page free' ⊆+ Slot d :: map en_cell l ++ map Page free →
  (Slot d ∈ map en_cell l' → d < d') →
  Forall (λ e, EntryOk UINTN_WIDTH (en_map e) ∧ 0 <= mm_Type (en_map e)) l' →
  (∀ x, mview l' x ≡ₚ if decide (St <= x <= En) then [] else mview l x) →
  (∀ p, Page p ∈ map en_cell l ++ map Page free → ¬ St <= p <= En) →
  MapOk l' free' d' gcd ∧ ∀ x, mview l' x = if decide (St <= x <= En) then [] else mview l x.
Proof.
  intros [Hc Hs He Hd Hst] Hd0 Hdd Hsub Hslot Hent Hv Hout.
  assert (∀ x, mview l' x = if decide (St <= x <= En) then [] else mview l x) as Heq.
  { intros x. apply perm_short; [|done]. specialize (Hd x). case_decide; cbn; lia. }
  split; [|done]. constructor; [..|done| |].
  - eapply NoDup_sub; [done|]. apply list.NoDup_cons. split; [|done]. intros [Hin|Hin]%elem_of_app.
    + apply Hs in Hin. lia.
    + by apply list_elem_of_fmap in Hin as (? & ? & _).
  - intros i Hi. assert (Slot i ∈ Slot d :: map en_cell l ++ map Page free) as Hi'.
    { eapply elem_of_submseteq; [|done]. apply elem_of_app. by left. }
    apply list.elem_of_cons in Hi' as [[= ->]|[Hi'|Hi']%elem_of_app]; [apply Hslot in Hi; lia|apply Hs in Hi'; lia|].
    by apply list_elem_of_fmap in Hi' as (? & ? & _).
  - intros x. rewrite Heq. specialize (Hd x). case_decide; cbn; lia.
  - intros p Hp. assert (Page p ∈ map en_cell l ++ map Page free) as Hp'.
    { eapply elem_of_submseteq in Hp; [|done]. by apply list.elem_of_cons in Hp as [?|?]. }
    rewrite Heq, decide_False by (by apply Hout). by apply Hst.
Qed.

Lemma put_split e l m :
  e ∈ l → NoDup (map en_cell l) →
  map (λ e', if decide (en_cell e' = en_cell e) then {| en_cell := en_cell e; en_map := m |} else e') l ≡ₚ
    {| en_cell := en_cell e; en_map := m |} :: unlink (en_cell e) l.
Proof.
  intros He Hnd. pose proof (unlink_split e l He Hnd) as Hp. rewrite Hp at 1. cbn [map]. rewrite decide_True by done.
  apply perm_skip. unfold unlink. clear. induction l as [|e' l IH]; [done|]. rewrite filter_cons. case_decide; [|done].
  cbn. rewrite decide_False by done. by rewrite IH.
Qed.

Lemma unlink_put e l m :
  unlink (en_cell e) (map (λ e', if decide (en_cell e' = en_cell e) then {| en_cell := en_cell e; en_map := m |} else e') l) =
    unlink (en_cell e) l.
Proof.
  unfold unlink. induction l as [|e' l IH]; [done|]. cbn [map]. rewrite !filter_cons. destruct (decide (en_cell e' = en_cell e)) as [Heq|Hne].
  - rewrite !decide_False by (cbn; auto). done.
  - rewrite !decide_True by done. by rewrite IH.
Qed.

(** What is left of [e], and what the others say. *)
Lemma mview_pieces c1 c2 e St En R x :
  EntryOk UINTN_WIDTH (en_map e) → mm_Start (en_map e) <= St → St <= En → En <= mm_End (en_map e) →
  (∀ x, (length (mview (e :: R) x) <= 1)%nat) →
  mview ({| en_cell := c1; en_map := new_map (mm_Type (en_map e)) (mm_Start (en_map e)) (St - 1) (mm_Attribute (en_map e)) |} ::
         {| en_cell := c2; en_map := new_map (mm_Type (en_map e)) (En + 1) (mm_End (en_map e)) (mm_Attribute (en_map e)) |} :: R) x =
    if decide (St <= x <= En) then [] else mview (e :: R) x.
Proof.
  intros He H1' H2 H3 Hd. specialize (Hd x). rewrite !mview_cons in *. unfold in_map in *. cbn [en_map mm_Start mm_End new_map mm_Type mm_Attribute].
  repeat case_decide; cbn [app length] in *; try done; try lia. destruct (mview R x); [done|]. cbn in Hd. lia.
Qed.

(** A piece that is empty says nothing. *)
Lemma mview_empty e R x : mm_End (en_map e) < mm_Start (en_map e) → mview (e :: R) x = mview R x.
Proof. intros He. rewrite mview_cons, decide_False; [done|]. unfold in_map. lia. Qed.

Definition Pulled (s : PAGES) (St En : Z) (s' : PAGES) : Prop :=
  SameRest s s' ∧ mMapDepth s <= mMapDepth s' <= mMapDepth s + 1 ∧
  (length (mFreeMemoryMapEntryList s) <= length (mFreeMemoryMapEntryList s'))%nat ∧ (∀ p, stored_at s' p → stored_at s p) ∧
  MapOk (gMemoryMap s') (mFreeMemoryMapEntryList s') (mMapDepth s') (mGcdMemorySpaceMap s') ∧
  ∀ x, mview (gMemoryMap s') x = if decide (St <= x <= En) then [] else mview (gMemoryMap s) x.

(** The entry [e] has been replaced by the pieces [P]. *)
Lemma Pulled_intro s s' e R P St En :
  MapOk (gMemoryMap s) (mFreeMemoryMapEntryList s) (mMapDepth s) (mGcdMemorySpaceMap s) → 0 <= mMapDepth s →
  gMemoryMap s ≡ₚ e :: R → gMemoryMap s' ≡ₚ P ++ R → SameRest s s' → mMapDepth s <= mMapDepth s' <= mMapDepth s + 1 →
  (length (mFreeMemoryMapEntryList s) <= length (mFreeMemoryMapEntryList s'))%nat →
  map en_cell P ++ map Page (mFreeMemoryMapEntryList s') ⊆+ Slot (mMapDepth s) :: en_cell e :: map Page (mFreeMemoryMapEntryList s) →
  (Slot (mMapDepth s) ∈ map en_cell P → mMapDepth s < mMapDepth s') →
  Forall (λ e, EntryOk UINTN_WIDTH (en_map e) ∧ 0 <= mm_Type (en_map e)) P →
  (∀ x, mview (P ++ R) x = if decide (St <= x <= En) then [] else mview (e :: R) x) →
  (∀ p, Page p ∈ map en_cell (gMemoryMap s) ++ map Page (mFreeMemoryMapEntryList s) → ¬ St <= p <= En) →
  Pulled s St En s'.
Proof.
  intros Hok Hd0 Hsplit Hgm Hsr Hd Hlen Hcells Hslot HP Hv Hout.
  pose proof (Permutation_map en_cell Hgm) as Hcg. pose proof (Permutation_map en_cell Hsplit) as Hcs. rewrite map_app in Hcg. cbn in Hcs.
  assert (map en_cell (gMemoryMap s') ++ map Page (mFreeMemoryMapEntryList s') ⊆+
    Slot (mMapDepth s) :: map en_cell (gMemoryMap s) ++ map Page (mFreeMemoryMapEntryList s)) as Hsub.
  { rewrite Hcg, Hcs, (Permutation_app_comm (map en_cell P)), <- app_assoc.
    etransitivity; [by apply submseteq_skips_l|]. cbn [app]. by rewrite <- !Permutation_middle. }
  destruct (MapOk_cut _ _ _ _ (gMemoryMap s') (mFreeMemoryMapEntryList s') (mMapDepth s') St En Hok Hd0) as [Hok' Hv']; try done; try lia.
  - rewrite Hcg. intros [Hin|Hin]%elem_of_app; [by apply Hslot|]. exfalso.
    assert (Slot (mMapDepth s) ∈ map en_cell (gMemoryMap s)) as Hin' by (rewrite Hcs; by right). apply (ok_slots _ _ _ _ Hok) in Hin'. lia.
  - rewrite Hgm. apply Forall_app. split; [done|]. pose proof (ok_entries _ _ _ _ Hok) as Hent. rewrite Hsplit in Hent.
    by apply list.Forall_cons in Hent as [_ ?].
  - intros x. rewrite Hgm, Hv. case_decide; [done|by rewrite Hsplit].
  - unfold Pulled. rewrite (sr_gcd _ _ Hsr). split_and!; try (done || lia).
    intros p Hp. eapply elem_of_submseteq in Hp; [|exact Hsub]. by apply list.elem_of_cons in Hp as [?|?].
Qed.

Section Pull.
Context (e : Entry) (St En : Z) (s : PAGES).
Context (Hok : MapOk (gMemoryMap s) (mFreeMemoryMapEntryList s) (mMapDepth s) (mGcdMemorySpaceMap s)) (Hel : e ∈ gMemoryMap s).
Context (Hd0 : 0 <= mMapDepth s) (Hr : range_ok UINTN_WIDTH St En).
Context (Hle1 : mm_Start (en_map e) <= St) (Hle2 : En <= mm_End (en_map e)).
Context (Hout : ∀ p, Page p ∈ map en_cell (gMemoryMap s) ++ map Page (mFreeMemoryMapEntryList s) → ¬ St <= p <= En).

Let R := unlink (en_cell e) (gMemoryMap s).
Let piece (c : Cell) (a b : Z) : Entry := {| en_cell := c; en_map := new_map (mm_Type (en_map e)) a b (mm_Attribute (en_map e)) |}.

Lemma pull_split : gMemoryMap s ≡ₚ e :: R.
Proof. apply unlink_split; [done|]. by eapply MapOk_NoDup. Qed.

Lemma pull_entry : EntryOk UINTN_WIDTH (en_map e) ∧ 0 <= mm_Type (en_map e).
Proof. exact (proj1 (list.Forall_forall _ _) (ok_entries _ _ _ _ Hok) e Hel). Qed.

Lemma pull_view c1 c2 x :
  mview (piece c1 (mm_Start (en_map e)) (St - 1) :: piece c2 (En + 1) (mm_End (en_map e)) :: R) x =
    if decide (St <= x <= En) then [] else mview (e :: R) x.
Proof.
  destruct pull_entry as [He _]. pose proof (range_end_u64 _ _ Hr). apply mview_pieces; [done|done|lia|done|].
  intros y. rewrite <- pull_split. pose proof (ok_disjoint _ _ _ _ Hok y). lia.
Qed.

Lemma pull_left c : mm_Start (en_map e) ≠ St → EntryOk UINTN_WIDTH (en_map (piece c (mm_Start (en_map e)) (St - 1))) ∧ 0 <= mm_Type (en_map e).
Proof.
  destruct pull_entry as [He HT]. intros Hne. split; [|done]. apply EntryOk_new. destruct (eo_range _ _ He) as (? & ? & ? & ?), Hr as (? & ? & ? & ?).
  split_and!; [lia|lia|lia|done|]. by replace (St - 1 + 1) with St by lia.
Qed.

Lemma pull_right c : mm_End (en_map e) ≠ En → EntryOk UINTN_WIDTH (en_map (piece c (En + 1) (mm_End (en_map e)))) ∧ 0 <= mm_Type (en_map e).
Proof.
  destruct pull_entry as [He HT]. intros Hne. split; [|done]. apply EntryOk_new. destruct (eo_range _ _ He) as (? & ? & ? & ?), Hr as (? & ? & ? & ?).
  split_and!; try done; lia.
Qed.

Lemma pull_cell : Slot (mMapDepth s) ≠ en_cell e.
Proof.
  intros Heq. assert (Slot (mMapDepth s) ∈ map en_cell (gMemoryMap s)) as Hs by (rewrite Heq; by apply list_elem_of_fmap_2).
  apply (ok_slots _ _ _ _ Hok) in Hs. lia.
Qed.

Lemma pull_map : en_map e = new_map (mm_Type (en_map e)) (mm_Start (en_map e)) (mm_End (en_map e)) (mm_Attribute (en_map e)).
Proof. by apply entry_map; [apply pull_entry|..]. Qed.

(** The state with another map in the cell of [e]. *)
Lemma wp_put_entry m (Q : unit → PAGES → Prop) E :
  (∀ l, l ≡ₚ {| en_cell := en_cell e; en_map := m |} :: R → unlink (en_cell e) l = R → Q tt (set_gMemoryMap l s)) →
  wp (put_entry (en_cell e) m) Q E s.
Proof.
  intros HQ. unfold put_entry. wp_step. apply HQ; [|apply unlink_put]. apply put_split; [done|]. by eapply MapOk_NoDup.
Qed.

Lemma PullRange_spec E :
  mMapDepth s + 1 < MAX_MAP_DEPTH →
  wp (PullRange e St En) (λ e' s', mm_Type (en_map e') = mm_Type (en_map e) ∧ mm_Attribute (en_map e') = mm_Attribute (en_map e) ∧
    wp (RemoveIfEmpty e') (λ _, Pulled s St En) E s') E s.
Proof.
  intros Hd. destruct pull_entry as [He HT]. pose proof (range_end_u64 _ _ (eo_range _ _ He)) as (? & ? & ?).
  pose proof (range_end_u64 _ _ Hr) as (? & ? & ?). pose proof (pull_view (en_cell e) (en_cell e)) as Hv.
  unfold PullRange. rewrite (wrap_small 64 (En + 1)) by (split; lia). pose proof pull_map as Hm.
  pose proof (Pulled_intro s) as Hin. specialize (λ s' P, Hin s' e R P St En Hok Hd0 pull_split).
  wp_step.
  - (* the range starts the entry *)
    assert (set_Start (En + 1) (en_map e) = en_map (piece (en_cell e) (En + 1) (mm_End (en_map e)))) as Hm' by (by rewrite Hm at 1).
    rewrite Hm'. wp_step. apply wp_put_entry. intros l Hl Hul. wp_step. split; [done|]. split; [done|].
    unfold RemoveIfEmpty. cbn [en_map piece new_map mm_Start mm_End en_cell]. rewrite wrap_small by (split; lia).
    assert (∀ x, mview (piece (en_cell e) (En + 1) (mm_End (en_map e)) :: R) x = if decide (St <= x <= En) then [] else mview (e :: R) x) as Hv'.
    { intros x. rewrite <- Hv. symmetry. apply mview_empty. cbn. lia. }
    wp_step.
    + apply wp_RemoveMemoryMapEntry. destruct (removed_fields (en_cell e) (set_gMemoryMap l s)) as (Hg & Hf & Hdp & Hsr).
      cbn [set_gMemoryMap gMemoryMap mFreeMemoryMapEntryList mMapDepth] in Hg, Hf, Hdp. rewrite Hul in Hg. apply (Hin _ []); try done.
      * by rewrite Hg.
      * etransitivity; [|done]. by constructor.
      * lia.
      * rewrite Hf. apply freed_length.
      * rewrite Hf. etransitivity; [apply (freed_sub _ [])|]. by apply submseteq_cons.
      * intros []%elem_of_nil.
      * intros x. rewrite <- Hv'. symmetry. apply mview_empty. cbn. lia.
    + wp_step. apply (Hin _ [piece (en_cell e) (En + 1) (mm_End (en_map e))]); try done; cbn.
      * lia.
      * by apply submseteq_cons.
      * by intros [Heq%pull_cell|[]%elem_of_nil]%list.elem_of_cons.
      * constructor; [|constructor]. apply (pull_right (en_cell e)). lia.
  - wp_step.
    + (* the range ends the entry *)
      rewrite (wrap_small 64 (St - 1)) by (split; lia).
      assert (set_End (St - 1) (en_map e) = en_map (piece (en_cell e) (mm_Start (en_map e)) (St - 1))) as Hm' by (by rewrite Hm at 1).
      rewrite Hm'. wp_step. apply wp_put_entry. intros l Hl Hul. wp_step. split; [done|]. split; [done|].
      unfold RemoveIfEmpty. cbn [en_map piece new_map mm_Start mm_End en_cell]. rewrite wrap_small by (split; lia).
      wp_step; [lia|]. wp_step. apply (Hin _ [piece (en_cell e) (mm_Start (en_map e)) (St - 1)]); try done; cbn.
      * lia.
      * by apply submseteq_cons.
      * by intros [Heq%pull_cell|[]%elem_of_nil]%list.elem_of_cons.
      * constructor; [|constructor]. apply (pull_left (en_cell e)). lia.
      * intros x. rewrite <- Hv, (mview_cons _ R), (mview_cons _ (_ :: R)), mview_empty by (cbn; lia). done.
    + (* the range is in the middle *)
      rewrite (wrap_small 64 (St - 1)) by (split; lia).
      assert (set_End (St - 1) (en_map e) = en_map (piece (en_cell e) (mm_Start (en_map e)) (St - 1))) as Hm' by (by rewrite Hm at 1).
      rewrite Hm'. wp_step. apply wp_put_entry. intros l Hl Hul. wp_step. wp_step; [apply Z.ltb_lt; destruct (pull_left (en_cell e)) as [Hp _]; [lia|]; apply eo_range in Hp; apply range_end_u64 in Hp; cbn in Hp; lia|].
      apply (wp_PushMapStack (mm_Type (en_map e)) (En + 1) (mm_End (en_map e)) (mm_Attribute (en_map e))); [done|done|].
      split; [done|]. split; [done|]. unfold RemoveIfEmpty. cbn [en_map new_entry new_map mm_Start mm_End en_cell]. rewrite wrap_small by (split; lia).
      wp_step; [lia|]. wp_step.
      apply (Hin _ [piece (en_cell e) (mm_Start (en_map e)) (St - 1); piece (Slot (mMapDepth s)) (En + 1) (mm_End (en_map e))]); try done; cbn.
      * by rewrite Hl, <- Permutation_cons_append, perm_swap.
      * lia.
      * by rewrite perm_swap.
      * lia.
      * constructor; [apply (pull_left (en_cell e)); lia|]. constructor; [apply (pull_right (en_cell e)); lia|constructor].
      * intros x. apply pull_view.
Qed.
End Pull.
End PullRange.
