(* ===== verification/PageFind.v ===== *)
(** CoreFindFreePagesI of Page.c finds the highest free range of the size and the alignment asked for. *)
From stdpp Require Import list.
From S2P Require Import Prelude Base Buffer Platform Overflow ImageRecord MemoryMap SplitTable SplitCoverage MemoryMerge GetMemoryMap PageAlloc PageMapSpec.

(** The [N] bytes from [a] on are free, are between Min and Max, and end at a multiple of Align. *)
Definition fits_in (Max Min N Align : Z) (m : MEMORY_MAP) (a : Z) : Prop :=
  mm_Type m = EfiConventionalMemory ∧ mm_Start m <= a ∧ a + N - 1 <= mm_End m ∧ a + N - 1 <= Max ∧ Min <= a ∧ (Align | a + N).

Definition candidate (l : list Entry) (Max Min N Align a : Z) : Prop := ∃ e, e ∈ l ∧ fits_in Max Min N Align (en_map e) a.

(** There is no free memory below a page alignment of more than a page. *)
Definition clear_below (l : list Entry) (Align : Z) : Prop :=
  Align <= EFI_PAGE_SIZE ∨ ∀ e, e ∈ l → mm_Type (en_map e) = EfiConventionalMemory → Align <= mm_Start (en_map e).

Section Find.
Context `{!Platform, !PlatformOk, !PageConfig}.

Lemma PageEndBelow_spec Max :
  EFI_PAGE_MASK <= Max < 2 ^ 64 →
  (2 ^ EFI_PAGE_SHIFT | PageEndBelow Max + 1) ∧ EFI_PAGE_MASK <= PageEndBelow Max <= Max ∧ Max < PageEndBelow Max + 2 ^ EFI_PAGE_SHIFT.
Proof.
  intros HMax. unfold PageEndBelow. unfold EFI_PAGE_SHIFT, EFI_PAGE_MASK in *. change 0xFFF with (2 ^ 12 - 1) in *.
  rewrite (land_mask Max) by lia. pose proof (Z.div_mod Max (2 ^ 12)). pose proof (Z.mod_pos_bound Max (2 ^ 12)).
  destruct (Z.eqb_spec (Max mod 2 ^ 12) (2 ^ 12 - 1)) as [Heq|Hne].
  - split; [|lia]. exists (Max / 2 ^ 12 + 1). lia.
  - assert (2 ^ 12 <= Max) as Hge.
    { destruct (decide (2 ^ 12 <= Max)); [done|]. rewrite (Z.mod_small Max) in Hne by lia. lia. }
    replace (2 ^ 12 - 1 + 1) with (2 ^ 12) by lia. rewrite wrap_small by (split; lia).
    rewrite land_lnot_mask by (done || (split; lia)).
    set (q := (Max - 2 ^ 12) / 2 ^ 12). pose proof (Z.div_mod (Max - 2 ^ 12) (2 ^ 12)) as Hdm. fold q in Hdm.
    pose proof (Z.mod_pos_bound (Max - 2 ^ 12) (2 ^ 12)).
    replace (Max - 2 ^ 12 - (Max - 2 ^ 12) mod 2 ^ 12) with (Z.shiftl q 12) by (rewrite Z.shiftl_mul_pow2 by lia; lia).
    rewrite lor_shiftl_add by (done || (split; lia)).
    assert ((Max - 2 ^ 12) mod 2 ^ 12 = Max mod 2 ^ 12) as Hmod.
    { rewrite <- (Z_mod_plus_full (Max - 2 ^ 12) 1). f_equal. lia. }
    split; [|lia]. exists (q + 1). lia.
Qed.

Section Entries.
Context (Max Min N k : Z).
Context (HMax : (2 ^ EFI_PAGE_SHIFT | Max + 1) ∧ EFI_PAGE_MASK <= Max < 2 ^ 64) (HMin : 0 <= Min < 2 ^ 64).
Context (HN : (2 ^ EFI_PAGE_SHIFT | N) ∧ 0 < N < 2 ^ 64) (Hk : EFI_PAGE_SHIFT <= k <= 32).

(** T' is the end of the highest range that fits, or the end that was already known. *)
Definition best (Target T' : Z) (fits : Z → Prop) : Prop :=
  Target <= T' ∧ (T' = Target ∨ 0 < T' ∧ fits (T' - N + 1)) ∧ ∀ a, fits a → a + N - 1 <= T'.

Lemma FreePagesIn_spec m Target :
  range_ok UINTN_WIDTH (mm_Start m) (mm_End m) →
  (mm_Type m = EfiConventionalMemory → 2 ^ k <= EFI_PAGE_SIZE ∨ 2 ^ k <= mm_Start m) →
  best Target (FreePagesIn Max Min N (2 ^ k) m Target) (fits_in Max Min N (2 ^ k) m).
Proof.
  intros Hr Hlow. pose proof (range_end_u64 _ _ Hr) as (Hs & He & Hse). unfold FreePagesIn, best, fits_in.
  assert (2 ^ 12 <= 2 ^ k <= 2 ^ 32) as Hpow by (unfold EFI_PAGE_SHIFT in Hk; split; apply Z.pow_le_mono_r; lia).
  assert (∀ x : Z, (2 ^ k | x) → (2 ^ 12 | x)) as Hdiv.
  { intros x Hx. etransitivity; [|exact Hx]. exists (2 ^ (k - 12)). rewrite <- Z.pow_add_r by (unfold EFI_PAGE_SHIFT in Hk; lia). f_equal. lia. }
  unfold EFI_PAGE_SHIFT, EFI_PAGE_SIZE, EFI_PAGE_MASK in *. change 0x1000 with (2 ^ 12) in *. change 0xFFF with (2 ^ 12 - 1) in *.
  destruct (Z.eqb_spec (mm_Type m) EfiConventionalMemory) as [HT|HT]; cbn [negb]; [|split_and!; [lia|by left|by intros a (? & _)]].
  specialize (Hlow HT). destruct HMax as [HMd HMr], HN as [HNd HNr], Hr as (_ & _ & Hsd & Hed).
  assert (Max ≠ mm_Start m) as Hne.
  { intros Heq. destruct HMd as [a Ha], Hsd as [b Hb]. unfold EFI_PAGE_SHIFT in *. lia. }
  destruct (Z.leb_spec Max (mm_Start m)) as [Hm|Hm]; cbn [orb].
  { split_and!; [lia|by left|]. intros a (_ & ? & ? & ? & _). lia. }
  destruct (Z.ltb_spec (mm_End m) Min) as [Hmin|Hmin].
  { split_and!; [lia|by left|]. intros a (_ & ? & ? & ? & ? & _). lia. }
  set (D0 := if Max <=? mm_End m then Max else mm_End m).
  assert (D0 = Z.min Max (mm_End m)) as HD0 by (unfold D0; destruct (Z.leb_spec Max (mm_End m)); lia). clearbody D0.
  rewrite (wrap_small 64 (D0 + 1)), (wrap_small 64 (2 ^ k - 1)) by (split; lia).
  rewrite land_lnot_mask by (unfold EFI_PAGE_SHIFT in Hk; done || lia || (split; lia)).
  set (D := D0 + 1 - (D0 + 1) mod 2 ^ k). pose proof (Z.mod_pos_bound (D0 + 1) (2 ^ k)) as Hmb. pose proof (Z.div_mod (D0 + 1) (2 ^ k)) as Hdm.
  assert (D = (D0 + 1) / 2 ^ k * 2 ^ k) as HDq by (unfold D; lia).
  assert ((2 ^ k | D)) as HDd by (by exists ((D0 + 1) / 2 ^ k)).
  assert (2 ^ k <= D) as HDk.
  { rewrite HDq. rewrite <- (Z.mul_1_l (2 ^ k)) at 1. apply Z.mul_le_mono_nonneg_r; [lia|]. apply Z.div_le_lower_bound; lia. }
  rewrite (wrap_small 64 (D - 1)) by (split; lia).
  assert (∀ a, (2 ^ k | a + N) → a + N <= D0 + 1 → a + N <= D) as Hgreat.
  { intros a [q Hq] Hle. rewrite Hq, HDq. apply Z.mul_le_mono_nonneg_r; [lia|]. apply Z.div_le_lower_bound; lia. }
  destruct (Z.ltb_spec (D - 1) (mm_Start m)) as [H1'|H1'].
  { split_and!; [lia|by left|]. intros a (_ & ? & ? & ? & ? & Ha). pose proof (Hgreat a Ha). lia. }
  rewrite (wrap_small 64 (D - 1 - mm_Start m + 1)) by (split; lia).
  destruct (Z.ltb_spec (D - 1 - mm_Start m + 1) N) as [H2|H2].
  { split_and!; [lia|by left|]. intros a (_ & ? & ? & ? & ? & Ha). pose proof (Hgreat a Ha). lia. }
  rewrite (wrap_small 64 (D - 1 - N + 1)) by (split; lia).
  destruct (Z.ltb_spec (D - 1 - N + 1) Min) as [H3|H3].
  { split_and!; [lia|by left|]. intros a (_ & ? & ? & ? & ? & Ha). pose proof (Hgreat a Ha). lia. }
  assert (∀ a, mm_Type m = EfiConventionalMemory ∧ mm_Start m <= a ∧ a + N - 1 <= mm_End m ∧ a + N - 1 <= Max ∧ Min <= a ∧ (2 ^ k | a + N) →
    a + N - 1 <= D - 1) as Hmax.
  { intros a (_ & ? & ? & ? & ? & Ha). pose proof (Hgreat a Ha). lia. }
  destruct (Z.ltb_spec Target (D - 1)) as [H4|H4].
  - split_and!; [lia| |done]. right. split_and!; try lia. by replace (D - 1 - N + 1 + N) with D by lia.
  - split_and!; [lia|by left|]. intros a Ha. specialize (Hmax a Ha). lia.
Qed.

Lemma FindFreePages_loop_spec l : ∀ Target s E,
  Forall (λ e, EntryOk UINTN_WIDTH (en_map e) ∧ 0 <= mm_Type (en_map e)) l → clear_below l (2 ^ k) →
  wp (FindFreePages_loop l Max Min N (2 ^ k) Target)
    (λ T' s', s' = s ∧ best Target T' (candidate l Max Min N (2 ^ k))) E s.
Proof.
  induction l as [|e l IH]; intros Target s E Hl Hlow; cbn [FindFreePages_loop].
  { wp_step. split; [done|]. split_and!; [lia|by left|]. by intros a (e & []%elem_of_nil & _). }
  apply list.Forall_cons in Hl as [[He HT] Hl]. wp_step. apply wp_CR; [done|].
  destruct (FreePagesIn_spec (en_map e) Target) as (Hle & Hc & Hb).
  { apply (eo_range _ _ He). }
  { intros HT'. destruct Hlow as [?|Hlow]; [by left|right]. apply Hlow; [left|done]. }
  eapply wp_mono; [apply IH; [done|]| |done].
  { destruct Hlow as [?|Hlow]; [by left|right]. intros e' He'. apply Hlow. by right. }
  intros T' s' (-> & Hle' & Hc' & Hb'). split; [done|]. split_and!; [lia|..].
  - destruct Hc' as [->|(? & e' & He' & Hf)]; [|right; split; [done|]; exists e'; split; [by right|done]].
    destruct Hc as [->|[? Hf]]; [by left|right]. split; [done|]. exists e. split; [left|done].
  - intros a (e' & [->|He']%list.elem_of_cons & Hf); [specialize (Hb a Hf); lia|]. apply Hb'. by exists e'.
Qed.
End Entries.

(** CoreFindFreePagesI returns the highest candidate, and 0 only if there is none but 0. *)
Lemma CoreFindFreePagesI_spec Max Min P k s E :
  0 <= Max < 2 ^ 64 → 0 <= Min < 2 ^ 64 → 0 <= P → P * 2 ^ EFI_PAGE_SHIFT < 2 ^ 64 → EFI_PAGE_SHIFT <= k <= 32 →
  Forall (λ e, EntryOk UINTN_WIDTH (en_map e) ∧ 0 <= mm_Type (en_map e)) (gMemoryMap s) → clear_below (gMemoryMap s) (2 ^ k) →
  wp (CoreFindFreePagesI Max Min P (2 ^ k)) (λ r s', s' = s ∧
    (r ≠ 0 → 0 < r ∧ 0 < P ∧ candidate (gMemoryMap s) Max Min (P * 2 ^ EFI_PAGE_SHIFT) (2 ^ k) r) ∧
    (0 < P → ∀ a, candidate (gMemoryMap s) Max Min (P * 2 ^ EFI_PAGE_SHIFT) (2 ^ k) a → a <= r)) E s.
Proof.
  intros HMax HMin HP HPb Hk Hl Hlow. unfold CoreFindFreePagesI. set (N := P * 2 ^ EFI_PAGE_SHIFT) in *.
  wp_step.
  { wp_step. split_and!; [done|done|]. intros HP0 a (e & He & HT & Hs & He' & HM & _).
    destruct (proj1 (list.Forall_forall _ _) Hl e He) as [Hok _]. pose proof (range_end_u64 _ _ (eo_range _ _ Hok)).
    unfold N, EFI_PAGE_SHIFT, EFI_PAGE_MASK in *. lia. }
  assert (EFI_PAGE_MASK <= Max ∧ 0 < P) as [HM HP0] by lia.
  destruct (PageEndBelow_spec Max) as (Hd & Hb1 & Hb2); [lia|].
  assert (LShiftU64 P EFI_PAGE_SHIFT = N) as ->.
  { unfold LShiftU64. rewrite Z.shiftl_mul_pow2 by (unfold EFI_PAGE_SHIFT; lia). apply wrap_small. unfold N, EFI_PAGE_SHIFT in *. split; lia. }
  assert ((2 ^ EFI_PAGE_SHIFT | N) ∧ 0 < N < 2 ^ 64) as HN.
  { split; [by exists P|]. unfold N, EFI_PAGE_SHIFT in *. lia. }
  assert (∀ a, candidate (gMemoryMap s) (PageEndBelow Max) Min N (2 ^ k) a ↔ candidate (gMemoryMap s) Max Min N (2 ^ k) a) as Hcand.
  { intros a. unfold candidate, fits_in. apply exist_proper; intros e. do 4 apply and_iff_compat_l.
    split; intros (? & ? & Ha); (split; [|done]); [lia|].
    assert ((2 ^ EFI_PAGE_SHIFT | a + N)) as [q Hq].
    { etransitivity; [|exact Ha]. exists (2 ^ (k - 12)). unfold EFI_PAGE_SHIFT in *. rewrite <- Z.pow_add_r by lia. f_equal. lia. }
    destruct Hd as [r Hr]. unfold EFI_PAGE_SHIFT in *. lia. }
  wp_step. wp_step. wp_step.
  eapply wp_mono; [apply (FindFreePages_loop_spec (PageEndBelow Max) Min N k); try done; (split; [done|lia])| |done].
  intros T' s' (-> & HT' & Hc & Hb). wp_step. split; [done|].
  assert (∀ a, candidate (gMemoryMap s) Max Min N (2 ^ k) a → a + N - 1 <= T') as Hb' by (intros a Ha; apply Hb; by apply Hcand).
  destruct HN as [[q Hq] HN]. change EFI_PAGE_MASK with (2 ^ 12 - 1). unfold EFI_PAGE_SHIFT in *.
  destruct Hc as [->|[HT0 Hc]].
  - assert (wrap 64 (0 - (N - 1)) = 2 ^ 64 - (N - 1)) as Hw.
    { unfold wrap. symmetry. apply (Z.mod_unique _ _ (-1)); lia. }
    assert (Z.land (2 ^ 64 - (N - 1)) (2 ^ 12 - 1) = 1) as Hland.
    { rewrite land_mask by lia. symmetry. apply (Z.mod_unique _ _ (2 ^ 52 - q)); lia. }
    rewrite Hw, Hland. cbn. split; [done|]. intros _ a Ha. pose proof (Hb' a Ha) as Hle. exfalso.
    destruct Ha as (e & He & _ & ? & _). destruct (proj1 (list.Forall_forall _ _) Hl e He) as [Hok _].
    pose proof (range_end_u64 _ _ (eo_range _ _ Hok)). lia.
  - apply Hcand in Hc. assert (0 <= T' - N + 1 ∧ T' < 2 ^ 64 ∧ (2 ^ 12 | T' - N + 1)) as (H1' & H2' & [r Hr]).
    { destruct Hc as (e & He & _ & ? & ? & ? & ? & Hdiv). destruct (proj1 (list.Forall_forall _ _) Hl e He) as [Hok _].
      pose proof (range_end_u64 _ _ (eo_range _ _ Hok)). split_and!; [lia|lia|].
      assert ((2 ^ 12 | T' - N + 1 + N)) as [r Hr].
      { etransitivity; [|exact Hdiv]. exists (2 ^ (k - 12)). rewrite <- Z.pow_add_r by lia. f_equal. lia. }
      exists (r - q). lia. }
    replace (T' - (N - 1)) with (T' - N + 1) by lia. rewrite wrap_small by (split; lia).
    assert ((T' - N + 1) mod 2 ^ 12 = 0) as Hmod by (by rewrite Hr, Z_mod_mult).
    rewrite land_mask, Hmod by lia. cbn. split.
    + intros Hne. split_and!; [lia|done|done].
    + intros _ a Ha. specialize (Hb' a Ha). lia.
Qed.
End Find.
