(* ===== verification/PageConvert.v ===== *)
(** Page.c: the invariant of the page allocator, and an iteration of CoreConvertPagesEx. *)
From stdpp Require Import list.
From S2P Require Import Prelude Base Buffer Platform Overflow ImageRecord MemoryMap SplitTable SplitCoverage MemoryMerge GetMemoryMap PageAlloc PageMapSpec PageFind.

(** The architecture's constants for pages (ProcessorBind.h). *)
Class PageConfigOk `{!Platform, !PageConfig} : Prop := {
  config_default : DEFAULT_PAGE_ALLOCATION_GRANULARITY = EFI_PAGE_SIZE;
  config_runtime : RUNTIME_PAGE_ALLOCATION_GRANULARITY = 0x1000 ∨ RUNTIME_PAGE_ALLOCATION_GRANULARITY = 0x10000;
  config_alignof : ALIGNOF_UINT64 = 4 ∨ ALIGNOF_UINT64 = 8;
  config_max : MAX_ALLOC_ADDRESS < 2 ^ UINTN_WIDTH ∧ 2 ^ 32 - 1 <= MAX_ALLOC_ADDRESS ∧ (2 ^ EFI_PAGE_SHIFT | MAX_ALLOC_ADDRESS + 1);
}.

Section Convert.
Context `{!Platform, !PlatformOk, !PageConfig}.

(** ** The invariant *)

Record BinsOk (s : PAGES) : Prop := {
  bo_statistics : length (mMemoryTypeStatistics s) = S (Z.to_nat EfiMaxMemoryType);
  bo_bins : Forall (λ st, 0 <= st_InformationIndex st < Z.of_nat (length (gMemoryTypeInformation s)) ∧
              u64 (st_BaseAddress st) ∧ u64 (st_MaximumAddress st)) (mMemoryTypeStatistics s);
  bo_maximum : u64 (mDefaultMaximumAddress s);
}.

Record PagesOk (s : PAGES) : Prop := {
  po_map : MapOk (gMemoryMap s) (mFreeMemoryMapEntryList s) (mMapDepth s) (mGcdMemorySpaceMap s);
  po_depth : 0 <= mMapDepth s;
  po_bins : BinsOk s;
  po_gcd : Forall (GcdOk UINTN_WIDTH) (mGcdMemorySpaceMap s);
  po_chain : gcd_chain (mGcdMemorySpaceMap s);
  (** Memory space to be promoted is not just the page at 0. *)
  po_untested : Forall (λ g, promotable g = true → EFI_PAGE_SIZE <= gcd_EndAddress g) (mGcdMemorySpaceMap s);
}.

Lemma BinsOk_same s s' : SameRest s s' → BinsOk s → BinsOk s'.
Proof. intros [_ _ Hs Hm _ Hi _] [? ? ?]. constructor; by rewrite ?Hs, ?Hi, ?Hm. Qed.

Lemma PagesOk_same s s' :
  SameRest s s' → PagesOk s → MapOk (gMemoryMap s') (mFreeMemoryMapEntryList s') (mMapDepth s') (mGcdMemorySpaceMap s') →
  0 <= mMapDepth s' → PagesOk s'.
Proof.
  intros Hsr [_ _ Hb Hg Hc Hu] Hok Hd. pose proof (sr_gcd _ _ Hsr) as Hgcd.
  constructor; [done|done|by eapply BinsOk_same|by rewrite Hgcd..].
Qed.

(** Only the statistics change. *)
Record SameMap (s s' : PAGES) : Prop := {
  sm_map : gMemoryMap s' = gMemoryMap s;
  sm_free : mFreeMemoryMapEntryList s' = mFreeMemoryMapEntryList s;
  sm_depth : mMapDepth s' = mMapDepth s;
  sm_freeing : mFreeMapStack s' = mFreeMapStack s;
  sm_gcd : mGcdMemorySpaceMap s' = mGcdMemorySpaceMap s;
}.

#[global] Instance SameMap_preorder : PreOrder SameMap.
Proof. split; [by intros s; constructor|]. intros s1 s2 s3 [] []. constructor; by etransitivity. Qed.

Lemma PagesOk_SameMap s s' : SameMap s s' → BinsOk s' → PagesOk s → PagesOk s'.
Proof. intros [Hm Hf Hd _ Hg] Hb [? ? _ ? ? ?]. constructor; rewrite ?Hm, ?Hf, ?Hd, ?Hg; done. Qed.

Lemma wp_get_bin T st (Q : EFI_MEMORY_TYPE_STATISTICS → PAGES → Prop) E s :
  mMemoryTypeStatistics s !! Z.to_nat T = Some st → Q st s → wp (get_bin T) Q E s.
Proof. intros Hst HQ. unfold get_bin. do 2 wp_step. rewrite Hst. by wp_step. Qed.

Lemma bin_lookup s T : BinsOk s → 0 <= T < EfiMaxMemoryType → ∃ st, mMemoryTypeStatistics s !! Z.to_nat T = Some st ∧
  0 <= st_InformationIndex st < Z.of_nat (length (gMemoryTypeInformation s)) ∧ u64 (st_BaseAddress st) ∧ u64 (st_MaximumAddress st).
Proof.
  intros [Hl Hb _] HT. destruct (lookup_lt_is_Some_2 (mMemoryTypeStatistics s) (Z.to_nat T)) as [st Hst]; [lia|].
  exists st. split; [done|]. by eapply (Forall_lookup_1 _ _ _ _ Hb).
Qed.

Lemma BinsOk_put s T st v : BinsOk s → mMemoryTypeStatistics s !! Z.to_nat T = Some st →
  BinsOk (set_mMemoryTypeStatistics (<[Z.to_nat T := set_CurrentNumberOfPages v st]> (mMemoryTypeStatistics s)) s).
Proof.
  intros [Hl Hb Hm] Hst. constructor; cbn; [by rewrite length_insert| |done].
  apply Forall_insert; [done|]. by apply (Forall_lookup_1 _ _ _ _ Hb Hst).
Qed.

Lemma CountFreed_spec T Start P s E :
  BinsOk s → 0 <= T → wp (CountFreed T Start P) (λ _ s', SameMap s s' ∧ BinsOk s') E s.
Proof.
  intros Hb HT. unfold CountFreed. wp_step; [|by wp_step].
  destruct (bin_lookup s T Hb ltac:(lia)) as (st & Hst & _). wp_step. apply (wp_get_bin _ st); [done|].
  do 2 wp_step. wp_step; [|by wp_step]. unfold put_bin. wp_step. split; [by constructor|by apply BinsOk_put].
Qed.

Lemma CountAllocated_spec T Start P s E :
  BinsOk s → 0 <= T → wp (CountAllocated T Start P) (λ _ s', SameMap s s' ∧ BinsOk s') E s.
Proof.
  intros Hb HT. unfold CountAllocated. wp_step; [|by wp_step].
  destruct (bin_lookup s T Hb ltac:(lia)) as (st & Hst & Hi & _). wp_step. apply (wp_get_bin _ st); [done|].
  do 2 wp_step. wp_step; [|by wp_step]. wp_step. unfold put_bin at 1. wp_step.
  destruct (lookup_lt_is_Some_2 (gMemoryTypeInformation s) (Z.to_nat (st_InformationIndex st))) as [mti Hmti]; [lia|]. rewrite Hmti.
  pose proof (BinsOk_put s T st (wrap 64 (st_CurrentNumberOfPages st + P)) Hb Hst) as Hb'.
  wp_step; wp_step; (split; [by constructor|]); [|done].
  destruct Hb' as [Hl' Hb' Hm']. constructor; cbn in *; [done| |done]. by rewrite length_insert.
Qed.

(** ** An iteration of CoreConvertPagesEx *)

Lemma FindCover_spec l Start : ∀ s E,
  Forall (λ e, EntryOk UINTN_WIDTH (en_map e) ∧ 0 <= mm_Type (en_map e)) l →
  wp (FindCover l Start) (λ o s', s' = s ∧ match o with
    | Some e => e ∈ l ∧ mm_Start (en_map e) <= Start < mm_End (en_map e)
    | None => ∀ e, e ∈ l → ¬ mm_Start (en_map e) <= Start < mm_End (en_map e) end) E s.
Proof.
  induction l as [|e l IH]; intros s E Hl; cbn [FindCover].
  { wp_step. split; [done|]. intros e []%elem_of_nil. }
  apply list.Forall_cons in Hl as [[He _] Hl]. wp_step. apply wp_CR; [done|]. wp_step.
  - wp_step. split; [done|]. split; [left|lia].
  - eapply wp_mono; [by apply IH| |done]. intros [e'|] s' [-> Ho]; (split; [done|]).
    + split; [right|]; apply Ho.
    + intros e' [->|He']%list.elem_of_cons; [lia|by apply Ho].
Qed.

(** The memory at [x]. *)
Definition pview (s : PAGES) (x : Z) : list (Z * Z) := mview (gMemoryMap s) x.

Lemma pview_short s x : PagesOk s → (length (pview s x) <= 1)%nat.
Proof. intros Hok. pose proof (ok_disjoint _ _ _ _ (po_map _ Hok) x). unfold pview. lia. Qed.

Lemma pview_entry s e x : PagesOk s → e ∈ gMemoryMap s → in_map (en_map e) x → pview s x = [(mm_Type (en_map e), mm_Attribute (en_map e))].
Proof.
  intros Hok He Hx. pose proof (pview_short s x Hok) as Hs.
  assert ((mm_Type (en_map e), mm_Attribute (en_map e)) ∈ pview s x) as Hin by (apply mview_elem; eauto).
  destruct (pview s x) as [|a [|b l]]; cbn in Hs; [by apply elem_of_nil in Hin| |lia]. apply list_elem_of_singleton in Hin. by subst a.
Qed.

(** An entry of boot services data holds the entry at [p]. *)
Lemma stored_view s p : PagesOk s → stored_at s p → ∃ a, pview s p = [(EfiBootServicesData, a)].
Proof. intros Hok Hp. by apply (ok_stored _ _ _ _ (po_map _ Hok)). Qed.

(** The pages from [St] to [En] have been converted from the type [t] and the attributes [a] to [t'], [a']. *)
Record Converted (s : PAGES) (St En t a t' a' : Z) (s' : PAGES) : Prop := {
  cv_ok : PagesOk s';
  cv_depth : mMapDepth s <= mMapDepth s' <= mMapDepth s + 2;
  cv_free : (length (mFreeMemoryMapEntryList s) <= length (mFreeMemoryMapEntryList s'))%nat;
  cv_stored : ∀ p, stored_at s' p → stored_at s p;
  cv_freeing : mFreeMapStack s' = mFreeMapStack s;
  cv_gcd : mGcdMemorySpaceMap s' = mGcdMemorySpaceMap s;
  cv_before : ∀ x, St <= x <= En → pview s x = [(t, a)];
  cv_after : ∀ x, pview s' x = if decide (St <= x <= En) then [(t', a')] else pview s x;
}.

(** The range is pulled out of the entry [e] and added with the type [t'] and the attributes [a']. *)
Lemma pull_add_spec e St En t' a' s E :
  PagesOk s → e ∈ gMemoryMap s → mMapDepth s + 2 < MAX_MAP_DEPTH → range_ok UINTN_WIDTH St En →
  mm_Start (en_map e) <= St → En <= mm_End (en_map e) → 0 <= t' →
  (∀ p, stored_at s p → ¬ St <= p <= En) →
  wp (PullRange e St En) (λ e' s1, mm_Type (en_map e') = mm_Type (en_map e) ∧ mm_Attribute (en_map e') = mm_Attribute (en_map e) ∧
    wp (RemoveIfEmpty e') (λ _, wp (CoreAddRange t' St En a')
      (λ _, Converted s St En (mm_Type (en_map e)) (mm_Attribute (en_map e)) t' a') E) E s1) E s.
Proof.
  intros Hok Hel Hd Hr Hs He Ht' Hout. pose proof (po_map _ Hok) as Hm. pose proof (po_depth _ Hok) as Hd0.
  pose proof (range_end_u64 _ _ Hr).
  eapply wp_mono; [apply (PullRange_spec e St En s Hm Hel Hd0 Hr Hs He Hout)| |done]; [lia|].
  intros e' s1 (HT & HA & Hrem). split; [done|]. split; [done|]. eapply wp_mono; [exact Hrem| |done].
  intros _ s2 (Hsr & Hdp & Hlen & Hsto & Hok2 & Hv2).
  eapply wp_mono; [apply CoreAddRange_spec; try done; try lia| |done].
  { intros x Hx. rewrite Hv2, decide_True by done. split; [done|]. rewrite (sr_gcd _ _ Hsr).
    pose proof (ok_disjoint _ _ _ _ Hm x) as Hdis.
    assert (pview s x = [(mm_Type (en_map e), mm_Attribute (en_map e))]) as Hp by (apply pview_entry; [done|done|split; lia]).
    unfold pview in Hp. rewrite Hp in Hdis. cbn in Hdis. destruct (gview (mGcdMemorySpaceMap s) x); [done|cbn in Hdis; lia]. }
  intros _ s3 (Hsr3 & Hdp3 & Hlen3 & Hsto3 & Hok3 & Hv3).
  assert (SameRest s s3) as Hs3 by (by etransitivity).
  constructor.
  - apply (PagesOk_same s); done || lia.
  - lia.
  - lia.
  - auto.
  - apply (sr_freeing _ _ Hs3).
  - apply (sr_gcd _ _ Hs3).
  - intros x Hx. apply pview_entry; [done|done|]. split; lia.
  - intros x. unfold pview. rewrite Hv3. case_decide as Hx; [done|]. by rewrite Hv2, decide_False.
Qed.

(** Only the map is looked at. *)
Lemma Converted_SameMap s0 s St En t a t' a' s' : SameMap s0 s → Converted s St En t a t' a' s' → Converted s0 St En t a t' a' s'.
Proof.
  intros [Hm Hf Hd Hfr Hg] [C1 C2 C3 C8 C4 C5 C6 C7]. assert (∀ x, pview s0 x = pview s x) as Hv by (intros x; unfold pview; by rewrite Hm).
  constructor; [done|by rewrite <- Hd|by rewrite <- Hf|unfold stored_at; by rewrite <- Hm, <- Hf|by rewrite <- Hfr|by rewrite <- Hg|..]; intros x; rewrite Hv; auto.
Qed.

(** A range of whole pages. *)
Definition pages (St En : Z) : Prop := 0 <= St < En ∧ En < 2 ^ 64 ∧ (2 ^ EFI_PAGE_SHIFT | St) ∧ (2 ^ EFI_PAGE_SHIFT | En + 1).

Section Range.
Context (Start End_ NumberOfPages : Z) (ChangingType : bool) (NewType NewAttributes : Z).
Context (HNew : ChangingType = true → 0 <= NewType) (Hrange : pages Start End_).

Definition new_type (t : Z) : Z := if ChangingType then NewType else t.
Definition new_attribute (a : Z) : Z := if ChangingType then a else NewAttributes.

(** The conversion of the type [t] is allowed. *)
Definition convertible (t : Z) : Prop :=
  ChangingType = true → (NewType = EfiConventionalMemory ↔ t ≠ EfiConventionalMemory).

(** The pages that are converted do not hold entries of the memory map. *)
Definition not_stored (s : PAGES) : Prop :=
  ChangingType = true ∧ NewType ≠ EfiConventionalMemory ∨ ∀ p, stored_at s p → ¬ Start <= p <= End_.

Definition ConvertedTo (s : PAGES) (RangeEnd : Z) (s' : PAGES) : Prop :=
  pages Start RangeEnd ∧ RangeEnd <= End_ ∧ (ChangingType = true → NewType ≠ EfiConventionalMemory → RangeEnd = End_) ∧
  ∃ t a, convertible t ∧ Converted s Start RangeEnd t a (new_type t) (new_attribute a) s'.

(** Why no page was converted. *)
Definition NotConverted (s : PAGES) : Prop :=
  pview s Start = [] ∨ ChangingType = true ∧ ((∃ t a, pview s Start = [(t, a)] ∧ ¬ convertible t) ∨
    NewType ≠ EfiConventionalMemory ∧ ∃ e, e ∈ gMemoryMap s ∧ in_map (en_map e) Start ∧ mm_End (en_map e) < End_).

Lemma ConvertRange_spec s :
  PagesOk s → mMapDepth s + 2 < MAX_MAP_DEPTH → not_stored s →
  wp (ConvertRange Start End_ NumberOfPages ChangingType NewType NewAttributes) (ConvertedTo s)
    (λ e s', e = RETURN_NOT_FOUND ∧ s' = s ∧ NotConverted s) s.
Proof.
  intros Hok Hd Hst. destruct Hrange as (Hse & Hend & Hsd & Hed). pose proof (ok_entries _ _ _ _ (po_map _ Hok)) as Hent.
  unfold ConvertRange. do 3 wp_step. eapply wp_mono; [by apply (FindCover_spec _ _ _ (λ _ _, False))| |done].
  intros [e|] s1 [-> Ho].
  2:{ wp_step. split_and!; [done|done|]. left. destruct (pview s Start) as [|[t a] l] eqn:Hv; [done|]. exfalso.
      assert ((t, a) ∈ pview s Start) as Hin by (rewrite Hv; left). apply mview_elem in Hin as (e & He & Hx & _). apply (Ho e He).
      destruct (proj1 (list.Forall_forall _ _) Hent e He) as [Heo _]. destruct (eo_range _ _ Heo) as (? & ? & ? & ?).
      unfold in_map in Hx. split; [lia|]. destruct Hsd as [q Hq], H5 as [r Hr]. unfold EFI_PAGE_SHIFT in *. lia. }
  destruct Ho as [He Hcov]. destruct (proj1 (list.Forall_forall _ _) Hent e He) as [Heo HT].
  pose proof (range_end_u64 _ _ (eo_range _ _ Heo)) as (? & ? & ?). set (m := en_map e) in *.
  assert (in_map m Start) as Hin by (split; lia). pose proof (pview_entry s e Start Hok He Hin) as Hv.
  wp_step. wp_step.
  { intros Hc. split_and!; [done|done|]. right. apply andb_true_iff in Hc as [Hc ?]. apply andb_true_iff in Hc as [-> ?].
    split; [done|]. right. split; [lia|]. exists e. split_and!; [done|done|fold m; lia]. }
  set (RangeEnd := if mm_End m <? End_ then mm_End m else End_).
  assert (RangeEnd = Z.min (mm_End m) End_) as HRE by (unfold RangeEnd; destruct (Z.ltb_spec (mm_End m) End_); lia).
  assert (range_ok UINTN_WIDTH Start RangeEnd ∧ pages Start RangeEnd) as [Hr Hp].
  { destruct (eo_range _ _ Heo) as (? & ? & ? & ?). clearbody RangeEnd. subst RangeEnd.
    destruct (Z.min_spec (mm_End m) End_) as [[? ->]|[? ->]]; split; split_and!; done || lia. }
  assert (convertible (mm_Type m) → (ChangingType = true → NewType ≠ EfiConventionalMemory → RangeEnd = End_) → ∀ s2, SameMap s s2 → BinsOk s2 →
    wp (e' ← PullRange e Start RangeEnd;
        RemoveIfEmpty e';;
        CoreAddRange (if ChangingType then NewType else mm_Type (en_map e')) Start RangeEnd
          (if ChangingType then mm_Attribute (en_map e') else NewAttributes);;
        mret RangeEnd) (ConvertedTo s) (λ e s', e = RETURN_NOT_FOUND ∧ s' = s ∧ NotConverted s) s2) as Hmain.
  { intros Hconv Hend' s2 Hsm Hb2. pose proof (PagesOk_SameMap _ _ Hsm Hb2 Hok) as Hok2. pose proof (sm_map _ _ Hsm) as Hgm.
    wp_step. eapply wp_mono; [apply (pull_add_spec e Start RangeEnd (new_type (mm_Type m)) (new_attribute (mm_Attribute m)) s2 (λ _ _, False))| |done]; try done.
    - by rewrite Hgm.
    - rewrite (sm_depth _ _ Hsm). lia.
    - fold m. lia.
    - fold m. lia.
    - unfold new_type. destruct ChangingType; [by apply HNew|done].
    - intros p Hsp Hpr. unfold stored_at in Hsp. rewrite Hgm, (sm_free _ _ Hsm) in Hsp. destruct Hst as [[HCT HNT]|Hst]; [|apply (Hst p Hsp); lia].
      destruct (stored_view s p Hok Hsp) as [a Ha].
      assert (pview s p = [(mm_Type m, mm_Attribute m)]) as Hb by (apply pview_entry; [done|done|split; fold m; lia]).
      rewrite Hb in Ha. injection Ha as HTm _. apply HNT, Hconv; [done|]. rewrite HTm. done.
    - intros e' s3 (HT' & HA' & Hrem). rewrite HT', HA'. wp_step. eapply wp_mono; [exact Hrem| |done]. intros ? s4 Hadd.
      wp_step. eapply wp_mono; [exact Hadd| |done]. intros ? s5 Hcv. wp_step. split_and!; [done|lia|done|].
      exists (mm_Type m), (mm_Attribute m). split; [done|]. by eapply Converted_SameMap. }
  destruct ChangingType eqn:HCT; cbn [andb] in *.
  - wp_step. wp_step. wp_step.
    { intros Hx. split_and!; [done|done|]. right. split; [done|]. left. exists (mm_Type m), (mm_Attribute m). split; [done|].
      unfold convertible. rewrite HCT. intros Hc. specialize (Hc eq_refl).
      destruct (Z.eqb_spec NewType EfiConventionalMemory), (Z.eqb_spec (mm_Type m) EfiConventionalMemory); cbn in Hx; try done; tauto. }
    wp_step. eapply wp_mono; [apply (CountFreed_spec _ _ _ _ (λ _ _, False)); [apply (po_bins _ Hok)|done]| |done]. intros _ s2 [Hsm2 Hb2].
    eapply wp_mono; [apply (CountAllocated_spec _ _ _ _ (λ _ _, False)); [done|by apply HNew]| |done]. intros _ s3 [Hsm3 Hb3].
    apply Hmain; [|intros _ Hne; lia|by etransitivity|done].
    intros _. destruct (Z.eqb_spec NewType EfiConventionalMemory), (Z.eqb_spec (mm_Type m) EfiConventionalMemory); cbn in *; try done; tauto.
  - do 2 wp_step. apply Hmain; [by unfold convertible; rewrite HCT|done|done|apply (po_bins _ Hok)].
Qed.
End Range.
End Convert.
