(* ===== verification/PageStack.v ===== *)
(** Page.c: CoreFreeMemoryMapStack moves the entries of mMapStack to pages of their own, and allocates
    such a page when there is no room left, with the functions that call it. *)
From stdpp Require Import list.
From S2P Require Import Prelude Base Buffer Platform Overflow ImageRecord MemoryMap SplitTable SplitCoverage MemoryMerge GetMemoryMap PageAlloc PageMapSpec PageFind PageConvert.

Section Stack.
Context `{!Platform, !PlatformOk, !PageConfig, !PageConfigOk}.

Lemma entry_unique s e e' x : PagesOk s → e ∈ gMemoryMap s → e' ∈ gMemoryMap s → in_map (en_map e) x → in_map (en_map e') x → e = e'.
Proof.
  intros Hok He He' Hx Hx'. pose proof (pview_short s x Hok) as Hs. unfold pview, mview in Hs. rewrite length_map in Hs.
  assert (e ∈ filter (λ e, in_map (en_map e) x) (gMemoryMap s)) as Hin by (by apply list_elem_of_filter).
  assert (e' ∈ filter (λ e, in_map (en_map e) x) (gMemoryMap s)) as Hin' by (by apply list_elem_of_filter).
  destruct (filter _ (gMemoryMap s)) as [|a [|b l]]; cbn in Hs; [by apply elem_of_nil in Hin| |lia].
  apply list_elem_of_singleton in Hin, Hin'. congruence.
Qed.

(** ** Allocating a range that is free *)

Lemma candidate_pages s Max N k r :
  PagesOk s → EFI_PAGE_SHIFT <= k → 0 < N → (2 ^ EFI_PAGE_SHIFT | N) → candidate (gMemoryMap s) Max 0 N (2 ^ k) r →
  pages r (r + N - 1) ∧ r + N < 2 ^ UINTN_WIDTH ∧ r + N - 1 <= Max ∧ ∃ a, ∀ x, r <= x <= r + N - 1 → pview s x = [(EfiConventionalMemory, a)].
Proof.
  intros Hok Hk HN0 HN (e & He & HT & Hs & Hen & HM & Hmin & Hal).
  destruct (proj1 (list.Forall_forall _ _) (ok_entries _ _ _ _ (po_map _ Hok)) e He) as [Heo _].
  pose proof (range_end_u64 _ _ (eo_range _ _ Heo)) as (? & ? & ?). destruct (eo_range _ _ Heo) as (_ & Hw & _ & _).
  assert ((2 ^ EFI_PAGE_SHIFT | r + N)) as Hrn.
  { etransitivity; [|exact Hal]. exists (2 ^ (k - EFI_PAGE_SHIFT)). rewrite <- Z.pow_add_r by (unfold EFI_PAGE_SHIFT in *; lia). f_equal. lia. }
  split_and!; try lia.
  - destruct HN as [q Hq], Hrn as [p Hp]. split_and!; try lia.
    + unfold EFI_PAGE_SHIFT in *. lia.
    + exists (p - q). lia.
    + exists p. lia.
  - exists (mm_Attribute (en_map e)). intros x Hx. rewrite <- HT. apply pview_entry; [done|done|]. split; lia.
Qed.

(** The arithmetic in front of the loop of CoreConvertPagesEx. *)
Lemma wp_CoreConvertPages FreeMapStack M P T (Q : unit → PAGES → Prop) E s :
  0 < P → P * 2 ^ EFI_PAGE_SHIFT < 2 ^ 64 → pages M (M + P * 2 ^ EFI_PAGE_SHIFT - 1) →
  wp (ConvertPages_loop FreeMapStack (Z.to_nat ((P * 2 ^ EFI_PAGE_SHIFT - 1) / EFI_PAGE_SIZE + 2)) M
        (M + P * 2 ^ EFI_PAGE_SHIFT - 1) P true T 0) Q E s →
  wp (CoreConvertPages FreeMapStack M P T) Q E s.
Proof.
  intros HP HPb Hp HQ. set (N := P * 2 ^ EFI_PAGE_SHIFT) in *. pose proof Hp as (Hr & Hr2 & Hrd & _).
  unfold CoreConvertPages, CoreConvertPagesEx.
  assert (LShiftU64 P EFI_PAGE_SHIFT = N) as ->.
  { unfold LShiftU64. rewrite Z.shiftl_mul_pow2 by (unfold EFI_PAGE_SHIFT; lia). apply wrap_small. split; [unfold N, EFI_PAGE_SHIFT|]; lia. }
  rewrite (wrap_small 64 (M + N - 1)) by (split; lia). pose proof (page_aligned_land M Hrd) as Hland.
  wp_step. wp_step; [by destruct (Z.eqb_spec P 0); [lia|]|]. wp_step. wp_step; [by rewrite Hland|]. wp_step. wp_step; [apply Z.ltb_lt; lia|].
  do 2 wp_step; [done|]. wp_step. wp_step; [rewrite Hland; cbn; lia|].
  by replace (M + N - 1 - M) with (N - 1) by lia.
Qed.

(** There is fuel for two iterations. *)
Lemma convert_fuel P : 0 < P → ∃ n, Z.to_nat ((P * 2 ^ EFI_PAGE_SHIFT - 1) / EFI_PAGE_SIZE + 2) = S (S n).
Proof.
  intros HP. assert (0 <= (P * 2 ^ EFI_PAGE_SHIFT - 1) / EFI_PAGE_SIZE) by (apply Z.div_pos; unfold EFI_PAGE_SIZE, EFI_PAGE_SHIFT; lia).
  exists (Z.to_nat ((P * 2 ^ EFI_PAGE_SHIFT - 1) / EFI_PAGE_SIZE)). lia.
Qed.

(** Memory ends before the last address. *)
Lemma pview_bound s x v : PagesOk s → v ∈ pview s x → 0 <= x ∧ x + 1 < 2 ^ 64.
Proof.
  intros Hok Hin. destruct v as [t a]. apply mview_elem in Hin as (e & He & Hin & _).
  destruct (proj1 (list.Forall_forall _ _) (ok_entries _ _ _ _ (po_map _ Hok)) e He) as [Heo _].
  pose proof (range_end_u64 _ _ (eo_range _ _ Heo)) as (? & ? & ?). unfold in_map in Hin. lia.
Qed.

(** The pages of a range are allocated, if they are free; [FreeMapStack] is called once. *)
Lemma CoreConvertPages_alloc FreeMapStack s r P T (Q : unit → PAGES → Prop) E :
  PagesOk s → 0 < P → P * 2 ^ EFI_PAGE_SHIFT < 2 ^ 64 → pages r (r + P * 2 ^ EFI_PAGE_SHIFT - 1) →
  T ≠ EfiConventionalMemory → 0 <= T → mMapDepth s + 2 < MAX_MAP_DEPTH →
  (∀ a s1, Converted s r (r + P * 2 ^ EFI_PAGE_SHIFT - 1) EfiConventionalMemory a T a s1 → wp FreeMapStack Q E s1) →
  (NotConverted r (r + P * 2 ^ EFI_PAGE_SHIFT - 1) true T s → E RETURN_NOT_FOUND s) →
  wp (CoreConvertPages FreeMapStack r P T) Q E s.
Proof.
  intros Hok HP HPb Hp HT HT0 Hd HQ HE. apply wp_CoreConvertPages; [done..|].
  set (N := P * 2 ^ EFI_PAGE_SHIFT) in *. pose proof Hp as (Hr & Hr2 & Hrd & _).
  destruct (convert_fuel P HP) as [n Hn]. fold N in Hn. rewrite Hn. cbn [ConvertPages_loop]. wp_step; [|lia]. wp_step.
  eapply wp_mono; [apply (ConvertRange_spec r (r + N - 1) P true T 0); [done|done|done|done|by left]| |].
  2:{ intros e s' (-> & -> & Hnc). by apply HE. }
  intros RangeEnd s1 (_ & _ & Heq & t & a & Hconv & Hcv). specialize (Heq eq_refl HT). subst RangeEnd.
  assert (t = EfiConventionalMemory) as -> by (destruct (decide (t = EfiConventionalMemory)); [done|]; exfalso; apply HT, Hconv; done).
  wp_step. eapply wp_mono; [by apply (HQ a)| |done]. intros [] s2 HQ2.
  destruct (pview_bound s (r + N - 1) (EfiConventionalMemory, a) Hok) as [_ Hw]; [rewrite (cv_before _ _ _ _ _ _ _ _ Hcv) by lia; left|].
  rewrite (wrap_small 64 (r + N - 1 + 1)) by (split; lia). wp_step; [lia|]. by wp_step.
Qed.

(** A candidate is free. *)
Lemma NotConverted_candidate s Max N k r T :
  PagesOk s → EFI_PAGE_SHIFT <= k → 0 < N → (2 ^ EFI_PAGE_SHIFT | N) → T ≠ EfiConventionalMemory →
  NotConverted r (r + N - 1) true T s → ¬ candidate (gMemoryMap s) Max 0 N (2 ^ k) r.
Proof.
  intros Hok Hk HN0 HN HT Hnc Hc. destruct (candidate_pages _ _ _ _ _ Hok Hk HN0 HN Hc) as (Hp & _ & _ & a & Hv).
  destruct Hnc as [Hn|(_ & [(t & a' & Hn & Hconv)|(_ & e' & He' & Hin' & Hlt)])].
  - by rewrite Hv in Hn by lia.
  - rewrite Hv in Hn by lia. injection Hn as <- <-. by apply Hconv.
  - destruct Hc as (e0 & He0 & _ & ? & ? & _). assert (e' = e0) as -> by (eapply (entry_unique s _ _ r); try done; split; lia). lia.
Qed.

Lemma CoreConvertPages_candidate FreeMapStack s Max P k r T (Q : unit → PAGES → Prop) E :
  PagesOk s → EFI_PAGE_SHIFT <= k → 0 < P →
  candidate (gMemoryMap s) Max 0 (P * 2 ^ EFI_PAGE_SHIFT) (2 ^ k) r →
  T ≠ EfiConventionalMemory → 0 <= T → mMapDepth s + 2 < MAX_MAP_DEPTH →
  (∀ a s1, Converted s r (r + P * 2 ^ EFI_PAGE_SHIFT - 1) EfiConventionalMemory a T a s1 → wp FreeMapStack Q E s1) →
  wp (CoreConvertPages FreeMapStack r P T) Q E s.
Proof.
  intros Hok Hk HP Hc HT HT0 Hd HQ. set (N := P * 2 ^ EFI_PAGE_SHIFT) in *.
  assert (0 < N ∧ (2 ^ EFI_PAGE_SHIFT | N)) as [HN0 HN] by (split; [unfold N, EFI_PAGE_SHIFT; lia|by exists P]).
  destruct (candidate_pages _ _ _ _ _ Hok Hk HN0 HN Hc) as ([? ?] & Hw & _).
  pose proof UINTN_WIDTH_64. pose proof (Z.pow_le_mono_r 2 UINTN_WIDTH 64).
  apply CoreConvertPages_alloc; try done; fold N; [lia|]. intros Hnc. exfalso. by eapply NotConverted_candidate.
Qed.

(** ** Finding free pages in the bins *)

Lemma candidate_mono l Max Max' Min Min' N Align a :
  Max <= Max' → Min' <= Min → candidate l Max Min N Align a → candidate l Max' Min' N Align a.
Proof. intros HM Hm (e & He & ? & ? & ? & ? & ? & ?). exists e. split; [done|]. split_and!; done || lia. Qed.

Lemma FindInBins_spec Max P T k s E :
  PagesOk s → 0 <= Max < 2 ^ 64 → 0 <= P → P * 2 ^ EFI_PAGE_SHIFT < 2 ^ 64 → 0 <= T → EFI_PAGE_SHIFT <= k <= 32 →
  clear_below (gMemoryMap s) (2 ^ k) →
  wp (FindInBins Max P T (2 ^ k)) (λ r s', SameMap s s' ∧ BinsOk s' ∧
    (r ≠ 0 → 0 < r ∧ 0 < P ∧ candidate (gMemoryMap s) Max 0 (P * 2 ^ EFI_PAGE_SHIFT) (2 ^ k) r) ∧
    (r = 0 → 0 < P → ∀ a, candidate (gMemoryMap s) Max 0 (P * 2 ^ EFI_PAGE_SHIFT) (2 ^ k) a → a <= 0)) E s.
Proof.
  intros Hok HM HP HPb HT Hk Hlow. pose proof (ok_entries _ _ _ _ (po_map _ Hok)) as Hent. pose proof (po_bins _ Hok) as Hb.
  set (cand := candidate (gMemoryMap s) Max 0 (P * 2 ^ EFI_PAGE_SHIFT) (2 ^ k)).
  assert (∀ Max' Min', u64 Max' → u64 Min' → Max' <= Max →
    wp (CoreFindFreePagesI Max' Min' P (2 ^ k)) (λ r s', s' = s ∧ (r ≠ 0 → 0 < r ∧ 0 < P ∧ cand r) ∧
      (0 < P → ∀ a, candidate (gMemoryMap s) Max' Min' (P * 2 ^ EFI_PAGE_SHIFT) (2 ^ k) a → a <= r)) E s) as Hfind.
  { intros Max' Min' [? ?] [? ?] Hle. eapply wp_mono; [apply CoreFindFreePagesI_spec; try done; lia| |done].
    intros r s' (-> & Hc & Hb'). split_and!; [done| |done]. intros Hr. destruct (Hc Hr) as (? & ? & Hc'). split_and!; [done|done|].
    by eapply candidate_mono; [..|exact Hc']. }
  assert (u64 0) as Hu0 by done.
  unfold FindInBins. wp_step. apply (wp_mono _ (λ r s', s' = s ∧ (r ≠ 0 → 0 < r ∧ 0 < P ∧ cand r)) _ E); [| |done].
  { wp_step; [|by wp_step]. destruct (bin_lookup s T Hb ltac:(lia)) as (st & Hst & _ & Hu1 & Hu2). wp_step. apply (wp_get_bin _ st); [done|].
    wp_step; [|by wp_step]. eapply wp_mono; [apply Hfind; [done|done|lia]| |done]. tauto. }
  intros r s' [-> Hr]. wp_step; [wp_step; split_and!; [done|done|done|lia]|].
  do 3 wp_step. apply (wp_mono _ (λ r s', s' = s ∧ (r ≠ 0 → 0 < r ∧ 0 < P ∧ cand r)) _ E); [| |done].
  { wp_step; [|by wp_step]. eapply wp_mono; [apply Hfind; [apply (bo_maximum _ Hb)|done|lia]| |done]. tauto. }
  intros r' s' [-> Hr']. wp_step.
  - wp_step. wp_step; wp_step; wp_step; (split_and!; [by constructor| |done|lia]); [|done]. by destruct Hb; constructor.
  - eapply wp_mono; [apply (Hfind Max 0); [split; lia|done|lia]| |done]. intros r2 s2 (-> & Hc & Hm). split_and!; [done|done|done|].
    intros -> HP0 a Ha. by apply Hm.
Qed.

(** ** A page of entries *)

(** There is a free page that can be used: not the one at 0. *)
Definition spare (s : PAGES) : Prop :=
  ∃ x a, EFI_PAGE_SIZE <= x ∧ (2 ^ EFI_PAGE_SHIFT | x) ∧ x + EFI_PAGE_SIZE - 1 <= MAX_ALLOC_ADDRESS ∧ pview s x = [(EfiConventionalMemory, a)].

(** The memory at [x] is what it was, but free memory may be taken for entries of the memory map. *)
Definition grown (v v' : list (Z * Z)) : Prop :=
  v' = v ∨ ∃ a, v = [(EfiConventionalMemory, a)] ∧ v' = [(EfiBootServicesData, a)].

#[global] Instance grown_preorder : PreOrder grown.
Proof.
  split; [by left|]. intros v1 v2 v3 [->|(a & -> & ->)] [->|(a' & Heq & ->)]; [by left|right; eauto|right; eauto|].
  discriminate Heq.
Qed.

Lemma spare_candidate s : PagesOk s → spare s → ∃ x, 0 < x ∧ candidate (gMemoryMap s) MAX_ALLOC_ADDRESS 0 EFI_PAGE_SIZE (2 ^ EFI_PAGE_SHIFT) x.
Proof.
  intros Hok (x & a & Hx & Hd & HM & Hv). exists x. split; [unfold EFI_PAGE_SIZE in *; lia|].
  assert ((EfiConventionalMemory, a) ∈ pview s x) as Hin by (rewrite Hv; left). apply mview_elem in Hin as (e & He & Hin & HT & _).
  destruct (proj1 (list.Forall_forall _ _) (ok_entries _ _ _ _ (po_map _ Hok)) e He) as [Heo _].
  destruct (eo_range _ _ Heo) as (? & ? & ? & [q Hq]), Hd as [p Hp], Hin. exists e. split; [done|].
  unfold EFI_PAGE_SIZE, EFI_PAGE_SHIFT in *. split_and!; try done; try lia. exists (p + 1). lia.
Qed.

Lemma sizeof_range : 52 <= SIZEOF_MEMORY_MAP <= 64.
Proof.
  unfold SIZEOF_MEMORY_MAP. destruct config_alignof as [->| ->], platform_uintn as [->| ->]; by vm_compute.
Qed.

Lemma NewEntries_spec p n : 0 <= n → n * SIZEOF_MEMORY_MAP <= EFI_PAGE_SIZE →
  NoDup (NewEntries p n) ∧ length (NewEntries p n) = Z.to_nat n ∧ ∀ q, q ∈ NewEntries p n → p <= q < p + EFI_PAGE_SIZE.
Proof.
  intros Hn Hb. pose proof sizeof_range. unfold NewEntries. split_and!.
  - apply NoDup_fmap_2_strong; [|apply NoDup_seq]. intros i j _ _ Heq. nia.
  - by rewrite length_map, length_seq.
  - intros q (i & -> & Hi)%list_elem_of_fmap. apply elem_of_seq in Hi. nia.
Qed.

(** The recursive call. *)
Lemma wp_FreeMapStack_busy n (Q : unit → PAGES → Prop) E s :
  mFreeMapStack s ≠ 0 → Q tt s → wp (FreeMemoryMapStack_fuel (S n)) Q E s.
Proof. intros Hf HQ. cbn [FreeMemoryMapStack_fuel]. do 2 wp_step. wp_step; [by wp_step|lia]. Qed.

Lemma EFI_SIZE_TO_PAGES_pow k : k = 12 ∨ k = 16 → EFI_SIZE_TO_PAGES (2 ^ k) = 2 ^ (k - 12).
Proof.
  intros Hk. pose proof UINTN_WIDTH_64. pose proof (Z.pow_le_mono_r 2 32 UINTN_WIDTH ltac:(done) ltac:(lia)).
  destruct Hk as [->| ->]; [apply (wrap_small _ 1)|apply (wrap_small _ 16)]; split; lia.
Qed.

Lemma refuel_spec s :
  PagesOk s → mFreeMapStack s ≠ 0 → mMapDepth s + 2 < MAX_MAP_DEPTH → spare s →
  wp (CoreAllocatePoolPages (FreeMemoryMapStack_fuel 1) EfiBootServicesData (EFI_SIZE_TO_PAGES DEFAULT_PAGE_ALLOCATION_GRANULARITY)
        DEFAULT_PAGE_ALLOCATION_GRANULARITY)
    (λ r s', 0 < r ∧ ∃ a, Converted s r (r + EFI_PAGE_SIZE - 1) EfiConventionalMemory a EfiBootServicesData a s') (λ _ _, False) s.
Proof.
  intros Hok Hf Hd Hsp. rewrite config_default. change EFI_PAGE_SIZE with (2 ^ EFI_PAGE_SHIFT).
  rewrite (EFI_SIZE_TO_PAGES_pow EFI_PAGE_SHIFT) by (by left). change (2 ^ (EFI_PAGE_SHIFT - 12)) with 1.
  destruct config_max as (HM1 & HM2 & _). pose proof UINTN_WIDTH_64. pose proof (Z.pow_le_mono_r 2 UINTN_WIDTH 64).
  destruct (spare_candidate s Hok Hsp) as (x & Hx & Hcx). change EFI_PAGE_SIZE with (1 * 2 ^ EFI_PAGE_SHIFT) in Hcx.
  unfold CoreAllocatePoolPages. wp_step. unfold FindFreePages. do 2 wp_step. cbn [FindFreePages_fuel]. wp_step.
  eapply wp_mono; [apply (FindInBins_spec MAX_ALLOC_ADDRESS 1 EfiBootServicesData EFI_PAGE_SHIFT s (λ _ _, False)); try done; try lia; by left| |done].
  intros r s1 (Hsm & Hb & Hr & Hr0). destruct (decide (r = 0)) as [->|Hne]; [specialize (Hr0 eq_refl ltac:(lia) x Hcx); lia|].
  destruct (Hr Hne) as (Hr1 & _ & Hc). pose proof (PagesOk_SameMap _ _ Hsm Hb Hok) as Hok1. pose proof (sm_map _ _ Hsm) as Hgm. rewrite <- Hgm in Hc.
  wp_step; [|lia]. wp_step. wp_step.
  apply (wp_mono _ (λ _ s', ∃ a, Converted s r (r + 1 * 2 ^ EFI_PAGE_SHIFT - 1) EfiConventionalMemory a EfiBootServicesData a s') _ (λ _ _, False)); [| |done].
  - wp_step; [lia|]. wp_step. apply wp_attempt.
    eapply (wp_mono _ (λ _ s', ∃ a, Converted s r (r + 1 * 2 ^ EFI_PAGE_SHIFT - 1) EfiConventionalMemory a EfiBootServicesData a s') _ (λ _ _, False)); [|by intros; wp_step|done].
    apply (CoreConvertPages_candidate _ s1 MAX_ALLOC_ADDRESS 1 EFI_PAGE_SHIFT r); try done; try lia.
    + rewrite (sm_depth _ _ Hsm). lia.
    + intros a s2 Hcv. apply wp_FreeMapStack_busy; [rewrite (cv_freeing _ _ _ _ _ _ _ _ Hcv), (sm_freeing _ _ Hsm); done|].
      exists a. by eapply Converted_SameMap.
  - intros _ s2 Hcv. wp_step. destruct (candidate_pages s1 MAX_ALLOC_ADDRESS (1 * 2 ^ EFI_PAGE_SHIFT) EFI_PAGE_SHIFT r) as (_ & Hw & _); try done.
    unfold wrapn. rewrite wrap_small by (unfold EFI_PAGE_SHIFT in *; split; lia). split; [done|]. by rewrite Z.mul_1_l in Hcv.
Qed.

(** ** Taking an entry *)

Lemma PagesOk_free s l :
  PagesOk s → map en_cell (gMemoryMap s) ++ map Page l ⊆+ map en_cell (gMemoryMap s) ++ map Page (mFreeMemoryMapEntryList s) →
  PagesOk (set_mFreeMemoryMapEntryList l s).
Proof.
  intros [Hm Hd Hb Hg Hc Hu] Hsub. constructor; cbn; try done; [|by destruct Hb; constructor].
  apply (MapOk_same _ _ _ _ _ _ _ Hm); [done|apply (ok_slots _ _ _ _ Hm)|apply (ok_entries _ _ _ _ Hm)|done].
Qed.

Lemma PagesOk_new_cells s new a :
  PagesOk s → NoDup new → (∀ q, q ∈ new → ¬ stored_at s q ∧ pview s q = [(EfiBootServicesData, a)]) →
  PagesOk (set_mFreeMemoryMapEntryList (mFreeMemoryMapEntryList s ++ new) s).
Proof.
  intros [[Hc Hs He Hdis Hst] Hd Hb Hg Hch Hu] Hnd Hnew. constructor; cbn; try done; [|by destruct Hb; constructor].
  constructor; try done.
  - rewrite map_app, app_assoc. apply list.NoDup_app. split_and!; [done| |by apply NoDup_fmap_2; [intros ?? [=]|]].
    intros c Hin (q & -> & Hq)%list_elem_of_fmap. by destruct (Hnew q Hq) as [? _].
  - intros p Hp. rewrite map_app, app_assoc in Hp. apply elem_of_app in Hp as [Hp|(q & [= ->] & Hq)%list_elem_of_fmap]; [by apply Hst|].
    destruct (Hnew q Hq) as [_ ?]. by exists a.
Qed.

(** What may have happened while a page of entries was allocated. *)
Record Settled (s s' : PAGES) : Prop := {
  se_freeing : mFreeMapStack s' = mFreeMapStack s;
  se_gcd : mGcdMemorySpaceMap s' = mGcdMemorySpaceMap s;
  se_grown : ∀ x, grown (pview s x) (pview s' x);
  se_stored : ∀ p, stored_at s' p → stored_at s p ∨ ∃ a, pview s p = [(EfiConventionalMemory, a)];
}.

#[global] Instance Settled_preorder : PreOrder Settled.
Proof.
  split; [intros s; constructor; [done|done|by left|by left]|]. intros s1 s2 s3 [F1 G1 V1 S1] [F2 G2 V2 S2]. constructor; [congruence|congruence|..].
  - intros x. etransitivity; [apply V1|apply V2].
  - intros p [Hp|[a Ha]]%S2; [by apply S1|]. right. destruct (V1 p) as [Heq|(a' & Heq & ?)]; [|by eauto]. exists a. by rewrite <- Heq.
Qed.

(** The entry at [p] has been taken from the free ones. *)
Definition Taken (s : PAGES) (p : Z) (s' : PAGES) : Prop :=
  PagesOk (set_mFreeMemoryMapEntryList (p :: mFreeMemoryMapEntryList s') s') ∧
  Settled s (set_mFreeMemoryMapEntryList (p :: mFreeMemoryMapEntryList s') s') ∧
  mMapDepth s <= mMapDepth s' <= mMapDepth s + 2 ∧
  (mFreeMemoryMapEntryList s ≠ [] → mFreeMemoryMapEntryList s = p :: mFreeMemoryMapEntryList s' ∧ mMapDepth s' = mMapDepth s ∧ ∀ x, pview s' x = pview s x) ∧
  (mFreeMemoryMapEntryList s = [] → (5 <= length (mFreeMemoryMapEntryList s'))%nat).

Lemma AllocateMemoryMapEntry_spec s :
  PagesOk s → mFreeMapStack s ≠ 0 → mFreeMemoryMapEntryList s ≠ [] ∨ mMapDepth s + 2 < MAX_MAP_DEPTH ∧ spare s →
  wp (AllocateMemoryMapEntry (FreeMemoryMapStack_fuel 1)) (λ o s', ∃ p, o = Some p ∧ Taken s p s') (λ _ _, False) s.
Proof.
  intros Hok Hf Hroom. unfold AllocateMemoryMapEntry. do 2 wp_step. wp_step.
  destruct (decide (mFreeMemoryMapEntryList s = [])) as [Hnil|Hne].
  - destruct Hroom as [?|[Hd Hsp]]; [done|]. wp_step. eapply wp_mono; [by apply refuel_spec| |done].
    intros r s1 (Hr & a & Hcv). pose proof (cv_ok _ _ _ _ _ _ _ _ Hcv) as Hok1. wp_step; [lia|]. do 3 wp_step. rewrite config_default.
    pose proof sizeof_range. set (n := EFI_PAGE_SIZE / SIZEOF_MEMORY_MAP).
    assert (64 <= n ∧ n * SIZEOF_MEMORY_MAP <= EFI_PAGE_SIZE) as [Hn Hn2].
    { unfold n, EFI_PAGE_SIZE. pose proof (Z.mul_div_le 0x1000 SIZEOF_MEMORY_MAP). split; [apply Z.div_le_lower_bound|]; lia. }
    destruct (NewEntries_spec r n ltac:(lia) Hn2) as (Hnd & Hlen & Hin).
    assert (PagesOk (set_mFreeMemoryMapEntryList (mFreeMemoryMapEntryList s1 ++ NewEntries r n) s1)) as Hok2.
    { apply (PagesOk_new_cells s1 (NewEntries r n) a); [done|done|].
      intros q Hq. specialize (Hin q Hq). rewrite (cv_after _ _ _ _ _ _ _ _ Hcv), decide_True by lia. split; [|done].
      intros Hst%(cv_stored _ _ _ _ _ _ _ _ Hcv). destruct (stored_view s q Hok Hst) as [b Hb].
      rewrite (cv_before _ _ _ _ _ _ _ _ Hcv) in Hb by lia. by injection Hb. }
    wp_step; [done|]. do 2 wp_step. cbn [set_mFreeMemoryMapEntryList mFreeMemoryMapEntryList].
    destruct (mFreeMemoryMapEntryList s1 ++ NewEntries r n) as [|p l] eqn:Hl.
    { apply (f_equal length) in Hl. rewrite length_app, Hlen in Hl. cbn in Hl. lia. }
    do 2 wp_step. wp_step. exists p. split; [done|]. unfold Taken. cbn. pose proof (cv_depth _ _ _ _ _ _ _ _ Hcv).
    split_and!; [exact Hok2| |lia|lia|by rewrite Hnil|].
    + constructor; [apply (cv_freeing _ _ _ _ _ _ _ _ Hcv)|apply (cv_gcd _ _ _ _ _ _ _ _ Hcv)|..].
      * intros x. change (grown (pview s x) (pview s1 x)). rewrite (cv_after _ _ _ _ _ _ _ _ Hcv). case_decide as Hx; [|done].
        rewrite (cv_before _ _ _ _ _ _ _ _ Hcv x Hx). right. by exists a.
      * intros q. unfold stored_at. cbn [set_mFreeMemoryMapEntryList gMemoryMap mFreeMemoryMapEntryList]. rewrite <- Hl, map_app, app_assoc.
        intros [Hq|(q' & [= <-] & Hq)%list_elem_of_fmap]%elem_of_app; [left; by apply (cv_stored _ _ _ _ _ _ _ _ Hcv)|right].
        exists a. apply (cv_before _ _ _ _ _ _ _ _ Hcv). specialize (Hin q Hq). lia.
    + intros _. apply (f_equal length) in Hl. rewrite length_app, Hlen in Hl. cbn in Hl. lia.
  - do 2 wp_step; [done|]. do 2 wp_step. destruct (mFreeMemoryMapEntryList s) as [|p l] eqn:Hl; [done|].
    do 3 wp_step. exists p. split; [done|]. unfold Taken. cbn.
    assert (set_mFreeMemoryMapEntryList (p :: l) (set_mFreeMemoryMapEntryList l s) = s) as -> by (destruct s; cbn in *; by rewrite Hl).
    split_and!; [done|done|lia|lia|done|by rewrite Hl].
Qed.

(** ** Moving the entries of the stack *)

Lemma InsertEntry_spec e l : ∀ s E,
  Forall (λ e, EntryOk UINTN_WIDTH (en_map e) ∧ 0 <= mm_Type (en_map e)) l →
  wp (InsertEntry e l) (λ l' s', s' = s ∧ l' ≡ₚ e :: l) E s.
Proof.
  induction l as [|e2 l IH]; intros s E Hl; cbn [InsertEntry]; [by wp_step|].
  apply list.Forall_cons in Hl as [[He2 _] Hl]. wp_step. apply wp_CR; [done|]. wp_step; [by wp_step|].
  wp_step. eapply wp_mono; [by apply IH| |done]. intros r s' [-> Hr]. wp_step. split; [done|]. rewrite Hr. apply perm_swap.
Qed.

(** An entry of the stack, if it is still linked, is moved to a cell of its own. *)
Definition Moved (s s' : PAGES) : Prop :=
  PagesOk s' ∧ Settled s s' ∧ mMapDepth s - 1 <= mMapDepth s' <= mMapDepth s + 1 ∧
  (mFreeMemoryMapEntryList s ≠ [] → mMapDepth s' = mMapDepth s - 1 ∧ (∀ x, pview s' x = pview s x) ∧
     (length (mFreeMemoryMapEntryList s) <= length (mFreeMemoryMapEntryList s') + 1)%nat) ∧
  (mFreeMemoryMapEntryList s = [] → (5 <= length (mFreeMemoryMapEntryList s'))%nat).

Lemma Moved_intro s p s1 l' free' :
  Taken s p s1 → 0 < mMapDepth s →
  map en_cell l' ++ map Page free' ⊆+ map en_cell (gMemoryMap s1) ++ map Page (p :: mFreeMemoryMapEntryList s1) →
  (∀ i, Slot i ∈ map en_cell l' → 0 <= i < mMapDepth s1 - 1) →
  Forall (λ e, EntryOk UINTN_WIDTH (en_map e) ∧ 0 <= mm_Type (en_map e)) l' → (∀ x, mview l' x ≡ₚ mview (gMemoryMap s1) x) →
  (length (mFreeMemoryMapEntryList s1) <= length free')%nat →
  Moved s (set_mFreeMemoryMapEntryList free' (set_gMemoryMap l' (set_mMapDepth (mMapDepth s1 - 1) s1))).
Proof.
  intros (Hok & Hse & Hd & Hne & Hnil) Hpos Hsub Hslots Hent Hv Hlen. destruct Hok as [Hm Hd1 Hb Hg Hc Hu]. cbn in *.
  pose proof (mview_same _ _ _ _ _ Hm Hv) as Heq.
  split_and!; cbn.
  - constructor; cbn; try done; [|lia|by destruct Hb; constructor]. by apply (MapOk_same _ _ _ _ _ _ _ Hm).
  - destruct Hse as [E1 E2 E3 E4]. constructor; cbn in *; [done|done|..].
    + intros x. unfold pview in *. cbn in *. by rewrite Heq.
    + intros q Hq. apply E4. by eapply elem_of_submseteq.
  - lia.
  - lia.
  - intros Hf. destruct (Hne Hf) as (-> & -> & Hvs). split_and!; [done| |cbn; lia]. intros x. rewrite <- Hvs. unfold pview. cbn. apply Heq.
  - intros Hf. specialize (Hnil Hf). lia.
Qed.

Lemma MoveMapStackEntry_spec s :
  PagesOk s → mFreeMapStack s ≠ 0 → 0 < mMapDepth s → mFreeMemoryMapEntryList s ≠ [] ∨ mMapDepth s + 2 < MAX_MAP_DEPTH ∧ spare s →
  wp (MoveMapStackEntry (FreeMemoryMapStack_fuel 1)) (λ _, Moved s) (λ _ _, False) s.
Proof.
  intros Hok Hf Hpos Hroom. unfold MoveMapStackEntry. wp_step. eapply wp_mono; [by apply AllocateMemoryMapEntry_spec| |done].
  intros o s1 (p & -> & Ht). pose proof Ht as (Hok1 & _ & Hd & _). pose proof (po_map _ Hok1) as Hm. cbn in Hm.
  wp_step. wp_step; [done|]. do 4 wp_step. cbn [set_mMapDepth mMapDepth gMemoryMap mFreeMemoryMapEntryList].
  destruct (list_find _ (gMemoryMap s1)) as [[i e]|] eqn:Hfind.
  - apply list_find_Some in Hfind as (Hi & Hcell & _). assert (e ∈ gMemoryMap s1) as He by (by eapply list_elem_of_lookup_2).
    pose proof (unlink_split e _ He (MapOk_NoDup _ _ _ _ Hm)) as Hsplit. rewrite Hcell in Hsplit.
    pose proof (ok_entries _ _ _ _ Hm) as Hent. rewrite Hsplit in Hent. apply list.Forall_cons in Hent as [He1 Hent].
    wp_step. eapply wp_mono; [by apply (InsertEntry_spec _ _ _ (λ _ _, False))| |done]. intros l s2 [-> Hl]. wp_step.
    change (set_gMemoryMap l (set_mMapDepth (mMapDepth s1 - 1) s1)) with
      (set_mFreeMemoryMapEntryList (mFreeMemoryMapEntryList s1) (set_gMemoryMap l (set_mMapDepth (mMapDepth s1 - 1) s1))).
    apply (Moved_intro s p); try done.
    + rewrite (Permutation_map en_cell Hl), (Permutation_map en_cell Hsplit). cbn. rewrite <- Permutation_middle. by apply submseteq_cons.
    + intros j. rewrite (Permutation_map en_cell Hl). cbn. intros [?|Hj]%list.elem_of_cons; [done|].
      apply list_elem_of_fmap in Hj as (e' & Hj & [Hne' He']%list_elem_of_filter).
      assert (0 <= j < mMapDepth s1) by (apply (ok_slots _ _ _ _ Hm); rewrite Hj; by apply list_elem_of_fmap_2).
      assert (j ≠ mMapDepth s1 - 1) by (intros ->; by apply Hne'). lia.
    + rewrite Hl. by constructor.
    + intros x. set (R := unlink _ _) in *. clearbody R. rewrite Hl, Hsplit, !mview_cons. done.
  - apply list_find_None in Hfind. wp_step.
    change (set_mFreeMemoryMapEntryList (mFreeMemoryMapEntryList s1 ++ [p]) (set_mMapDepth (mMapDepth s1 - 1) s1)) with
      (set_mFreeMemoryMapEntryList (mFreeMemoryMapEntryList s1 ++ [p]) (set_gMemoryMap (gMemoryMap s1) (set_mMapDepth (mMapDepth s1 - 1) s1))).
    apply (Moved_intro s p); try done.
    + by rewrite <- Permutation_cons_append.
    + intros j Hj. pose proof (ok_slots _ _ _ _ Hm j Hj). assert (j ≠ mMapDepth s1 - 1); [|lia]. intros ->.
      apply list_elem_of_fmap in Hj as (e & Hj & He). exact (proj1 (list.Forall_forall _ _) Hfind e He (eq_sym Hj)).
    + apply (ok_entries _ _ _ _ Hm).
    + rewrite length_app. lia.
Qed.

(** There are enough free entries, or a page for more. *)
Definition Room (s : PAGES) : Prop :=
  mMapDepth s <= Z.of_nat (length (mFreeMemoryMapEntryList s)) ∨ mMapDepth s + 2 < MAX_MAP_DEPTH ∧ spare s.

Definition Emptied (s s' : PAGES) : Prop :=
  PagesOk s' ∧ mMapDepth s' = 0 ∧ Settled s s' ∧
  (mMapDepth s <= Z.of_nat (length (mFreeMemoryMapEntryList s)) → (∀ x, pview s' x = pview s x) ∧
     Z.of_nat (length (mFreeMemoryMapEntryList s)) <= Z.of_nat (length (mFreeMemoryMapEntryList s')) + mMapDepth s).

Lemma Emptied_Moved s s1 s' :
  Moved s s1 → Emptied s1 s' → (mFreeMemoryMapEntryList s = [] → 0 < mMapDepth s) → Emptied s s'.
Proof.
  intros (Hok1 & Hse1 & Hd1 & Hne & Hnil) (Hok & Hd & Hse & Hex) Hpos. split_and!; [done|done|by etransitivity|].
  intros Hle. destruct (decide (mFreeMemoryMapEntryList s = [])) as [Hf|Hf].
  { specialize (Hpos Hf). rewrite Hf in Hle. cbn in Hle. lia. }
  destruct (Hne Hf) as (Hd1' & Hv1 & Hl1). destruct Hex as [Hv Hl]; [lia|]. split; [|lia]. intros x. by rewrite Hv, Hv1.
Qed.

Lemma FreeMapStack_loop_spec fuel : ∀ s,
  PagesOk s → mFreeMapStack s ≠ 0 → Room s → mMapDepth s + 6 <= Z.of_nat fuel ∨
    mMapDepth s <= Z.of_nat (length (mFreeMemoryMapEntryList s)) ∧ mMapDepth s < Z.of_nat fuel →
  wp (FreeMapStack_loop (FreeMemoryMapStack_fuel 1) fuel) (λ _, Emptied s) (λ _ _, False) s.
Proof.
  induction fuel as [|fuel IH]; intros s Hok Hf Hroom Hfuel; pose proof (po_depth _ Hok) as Hd0; [lia|].
  cbn [FreeMapStack_loop]. do 2 wp_step. wp_step.
  { wp_step. split_and!; [done|lia|done|]. intros _. split; [done|lia]. }
  assert (0 < mMapDepth s) as Hpos by lia.
  assert (mFreeMemoryMapEntryList s ≠ [] ∨ mMapDepth s + 2 < MAX_MAP_DEPTH ∧ spare s) as Hroom'.
  { destruct Hroom as [Hr|?]; [left|by right]. destruct (mFreeMemoryMapEntryList s); [cbn in Hr; lia|done]. }
  wp_step. eapply wp_mono; [by apply MoveMapStackEntry_spec| |done].
  intros u s1 Hmv. pose proof Hmv as (Hok1 & Hse1 & Hd1 & Hne & Hnil).
  eapply wp_mono; [apply IH; [done|by rewrite (se_freeing _ _ Hse1)|..]|intros ? s' Hem; by eapply Emptied_Moved|done].
  - destruct (decide (mFreeMemoryMapEntryList s = [])) as [Hf0|Hf0].
    + left. specialize (Hnil Hf0). destruct Hroom' as [?|[? _]]; [done|]. unfold MAX_MAP_DEPTH in *. lia.
    + destruct (Hne Hf0) as (Hd1' & Hv1 & Hl1). destruct Hroom as [Hr|[Hr (x & a & ? & ? & ? & Hx)]]; [left; lia|right].
      split; [lia|]. exists x, a. by rewrite Hv1.
  - destruct (decide (mFreeMemoryMapEntryList s = [])) as [Hf0|Hf0].
    + right. specialize (Hnil Hf0). destruct Hroom' as [?|[? _]]; [done|]. unfold MAX_MAP_DEPTH in *.
      rewrite Hf0 in Hfuel. cbn in Hfuel. lia.
    + destruct (Hne Hf0) as (Hd1' & Hv1 & Hl1). lia.
Qed.

(** The stack is emptied; without a page for more entries if there are enough. *)
Lemma CoreFreeMemoryMapStack_spec s :
  PagesOk s → mFreeMapStack s = 0 → mMapDepth s < MAX_MAP_DEPTH → Room s →
  wp CoreFreeMemoryMapStack (λ _, Emptied s) (λ _ _, False) s.
Proof.
  intros Hok Hf Hd Hroom. unfold CoreFreeMemoryMapStack, FreeMemoryMapStack_fuel at 1. fold (FreeMemoryMapStack_fuel 1).
  do 2 wp_step. wp_step; [lia|]. do 3 wp_step.
  assert (∀ v, PagesOk (set_mFreeMapStack v s)) as Hokv by (intros v; destruct Hok as [? ? Hb ? ? ?]; constructor; try done; by destruct Hb; constructor).
  eapply wp_mono; [apply (FreeMapStack_loop_spec _ (set_mFreeMapStack (mFreeMapStack s + 1) s)); [done|cbn; lia|done|]| |done].
  { left. cbn [mMapDepth set_mFreeMapStack]. unfold MAX_MAP_DEPTH in *. lia. }
  intros _ s' (Hok' & Hd' & Hse & Hex). wp_step. split_and!; [|done| |done].
  - destruct Hok' as [? ? Hb ? ? ?]; constructor; try done; by destruct Hb; constructor.
  - destruct Hse as [E1 E2 E3 E4]. constructor; [cbn in *; lia|done|done|done].
Qed.
End Stack.
