(* ===== verification/PageServices.v ===== *)
(** Page.c: promoting untested memory, allocating and freeing pages. *)
From stdpp Require Import list.
From S2P Require Import Prelude Base Buffer Platform Overflow ImageRecord MemoryMap SplitTable SplitCoverage MemoryMerge GetMemoryMap PageAlloc PageMapSpec PageFind PageConvert PageStack.

Section Services.
Context `{!Platform, !PlatformOk, !PageConfig, !PageConfigOk}.

(** Between two calls the stack is empty. *)
Record Quiet (s : PAGES) : Prop := {
  qu_ok : PagesOk s;
  qu_depth : mMapDepth s = 0;
  qu_freeing : mFreeMapStack s = 0;
}.

(** The memory space that is still to be tested. *)
Definition untested (s : PAGES) : nat := length (filter (λ g, promotable g = true) (mGcdMemorySpaceMap s)).

(** The memory at each address is what it was, but free memory may be taken for entries of the memory map and
    untested memory may have become free memory. *)
Definition evolves (v : list (Z * Z)) (untested : Prop) (v' : list (Z * Z)) : Prop :=
  grown v v' ∨ v = [] ∧ untested ∧ ∃ a, grown [(EfiConventionalMemory, a)] v'.

Record Evolved (s s' : PAGES) : Prop := {
  ev_view : ∀ x, evolves (pview s x) (gview (mGcdMemorySpaceMap s) x ≠ []) (pview s' x);
  ev_gview : ∀ x, gview (mGcdMemorySpaceMap s') x ≠ [] → gview (mGcdMemorySpaceMap s) x ≠ [];
  ev_stored : ∀ p, stored_at s' p → stored_at s p ∨ (∃ a, pview s p = [(EfiConventionalMemory, a)]) ∨
    pview s p = [] ∧ gview (mGcdMemorySpaceMap s) p ≠ [];
}.

Lemma grown_free a v : grown [(EfiConventionalMemory, a)] v → v = [(EfiConventionalMemory, a)] ∨ v = [(EfiBootServicesData, a)].
Proof. intros [->|(a' & [= <-] & ->)]; auto. Qed.

#[global] Instance Evolved_preorder : PreOrder Evolved.
Proof.
  split; [intros s; constructor; [by left; left|done|by left]|]. intros s1 s2 s3 [V1 G1 S1] [V2 G2 S2]. constructor.
  - intros x. destruct (V1 x) as [H12|(Hn & Hg & a & H12)], (V2 x) as [H23|(Hn2 & Hg2 & a2 & H23)].
    + left. by etransitivity.
    + right. destruct H12 as [Heq|(? & _ & Heq)]; rewrite Heq in Hn2; [|done]. rewrite Hn2 in Heq. symmetry in Heq.
      split_and!; [congruence|auto|eauto].
    + right. split_and!; [done|done|]. exists a. by etransitivity.
    + right. split_and!; [done|done|]. exfalso. apply grown_free in H12 as [Heq|Heq]; by rewrite Heq in Hn2.
  - auto.
  - intros p [Hp|[(a & Ha)|[Hn Hg]]]%S2; [by apply S1|..].
    + right. destruct (V1 p) as [[Heq|(? & _ & Heq)]|(? & ? & _)]; [left; exists a; congruence|by rewrite Ha in Heq|by right].
    + destruct (V1 p) as [[Heq|(? & _ & Heq)]|(? & ? & _)]; [right; right; split; [congruence|auto]|congruence|by right; right].
Qed.

Lemma Settled_Evolved s s' : Settled s s' → Evolved s s'.
Proof. intros [_ Hg Hv Hs]. constructor; [by left|by rewrite Hg|]. intros p [?|?]%Hs; auto. Qed.

Lemma SameMap_Evolved s s' : SameMap s s' → Evolved s s'.
Proof.
  intros [Hm Hf _ _ Hg]. constructor; [intros x; left; left; unfold pview; by rewrite Hm|by rewrite Hg|].
  intros p Hp. left. unfold stored_at in *. by rewrite Hm, Hf in Hp.
Qed.

(** ** Promoting untested memory *)

Lemma promoted_not g : promotable (promoted g) = false.
Proof. unfold promotable, promoted. cbn. case_match; by rewrite bool_decide_false. Qed.

Lemma gview_cons g l x : gview (g :: l) x = (if decide (promotable g = true ∧ gcd_BaseAddress g <= x <= gcd_EndAddress g) then [g] else []) ++ gview l x.
Proof. unfold gview. rewrite filter_cons. by case_decide. Qed.

Lemma gview_app l l' x : gview (l ++ l') x = gview l x ++ gview l' x.
Proof. unfold gview. by rewrite list.filter_app. Qed.

(** The memory space without what has been promoted. *)
Lemma gview_promoted l (i : nat) g x :
  l !! i = Some g → promotable g = true →
  (length (gview l x) = length (gview (<[i := promoted g]> l) x) + if decide (gcd_BaseAddress g <= x <= gcd_EndAddress g)%Z then 1 else 0)%nat.
Proof.
  intros Hi Hg. rewrite <- (take_drop_middle l i g Hi) at 1. rewrite (insert_take_drop l i) by (by eapply lookup_lt_Some).
  rewrite !gview_app, !gview_cons, !length_app, promoted_not. rewrite (decide_False (P := false = true ∧ _)) by (by intros [? _]).
  repeat case_decide; cbn; try lia; tauto.
Qed.

Lemma untested_promoted l (i : nat) g :
  l !! i = Some g → promotable g = true →
  length (filter (λ g, promotable g = true) l) = S (length (filter (λ g, promotable g = true) (<[i := promoted g]> l))).
Proof.
  intros Hi Hg. rewrite <- (take_drop_middle l i g Hi) at 1. rewrite (insert_take_drop l i) by (by eapply lookup_lt_Some).
  rewrite !list.filter_app, !filter_cons, !length_app, promoted_not. rewrite decide_True by done. rewrite decide_False by done. cbn. lia.
Qed.

Lemma chain_bounds l : ∀ l', map gcd_BaseAddress l' = map gcd_BaseAddress l → map gcd_EndAddress l' = map gcd_EndAddress l → gcd_chain l → gcd_chain l'.
Proof.
  induction l as [|g [|g2 l] IH]; intros [|g' [|g2' l']] HB HE Hc; try done. cbn in HB, HE. injection HB as ? ? ?. injection HE as ? ? ?.
  destruct Hc as [Hc1 Hc2]. split; [congruence|]. apply IH; cbn; [congruence|congruence|done].
Qed.

Lemma map_promoted {A} (f : EFI_GCD_MAP_ENTRY → A) l (i : nat) g : l !! i = Some g → f (promoted g) = f g → map f (<[i := promoted g]> l) = map f l.
Proof. intros Hi Hf. change (f <$> <[i := promoted g]> l = f <$> l). rewrite list_fmap_insert, Hf. apply list_insert_id. by rewrite list_lookup_fmap, Hi. Qed.

Lemma PagesOk_promote s (i : nat) g :
  PagesOk s → mGcdMemorySpaceMap s !! i = Some g → promotable g = true →
  PagesOk (set_mGcdMemorySpaceMap (<[i := promoted g]> (mGcdMemorySpaceMap s)) s).
Proof.
  intros [[Hc Hs He Hd Hst] Hdp Hb Hg Hch Hu] Hi Hpr. constructor; cbn; [|done|by destruct Hb; constructor|..].
  - constructor; try done. intros x. specialize (Hd x). rewrite (gview_promoted _ _ _ x Hi Hpr) in Hd. lia.
  - apply Forall_insert; [done|]. destruct (Forall_lookup_1 _ _ _ _ Hg Hi) as [Hsig _]. constructor; [done|].
    unfold gcd_view, promoted. cbn. by destruct (_ =? _).
  - apply (chain_bounds (mGcdMemorySpaceMap s)); [by apply map_promoted..|done].
  - apply Forall_insert; [done|]. by rewrite promoted_not.
Qed.

(** Untested memory space is whole pages, and no memory is there. *)
Lemma untested_range s (i : nat) g :
  PagesOk s → mGcdMemorySpaceMap s !! i = Some g → promotable g = true →
  range_ok UINTN_WIDTH (gcd_BaseAddress g) (gcd_EndAddress g) ∧ gcd_EndAddress g < MAX_ALLOC_ADDRESS ∧ EFI_PAGE_SIZE <= gcd_EndAddress g ∧
  gcd_Signature g = EFI_GCD_MAP_SIGNATURE ∧
  ∀ x, gcd_BaseAddress g <= x <= gcd_EndAddress g → pview s x = [] ∧ gview (mGcdMemorySpaceMap s) x ≠ [] ∧
    gview (<[i := promoted g]> (mGcdMemorySpaceMap s)) x = [].
Proof.
  intros [[_ _ _ Hd _] _ _ Hg _ Hu] Hi Hpr. destruct (Forall_lookup_1 _ _ _ _ Hg Hi) as [Hsig Hr].
  pose proof (Forall_lookup_1 _ _ _ _ Hu Hi Hpr) as He. pose proof Hpr as Hpr'. unfold promotable in Hpr'.
  apply andb_true_iff in Hpr' as [[HT%bool_decide_eq_true HM]%andb_true_iff _].
  split_and!; [apply Hr; unfold gcd_view; by rewrite HT|lia|done|done|]. intros x Hx. specialize (Hd x).
  rewrite (gview_promoted _ _ _ x Hi Hpr), decide_True in Hd by done.
  assert (length (gview (mGcdMemorySpaceMap s) x) = (length (gview (<[i := promoted g]> (mGcdMemorySpaceMap s)) x) + 1)%nat) as Hlen
    by (by rewrite (gview_promoted _ _ _ x Hi Hpr), decide_True).
  split_and!.
  - unfold pview. destruct (mview (gMemoryMap s) x); [done|cbn in Hd; lia].
  - intros Hn. rewrite Hn in Hlen. cbn in Hlen. lia.
  - destruct (gview (<[i := promoted g]> _) x); [done|cbn in Hd; lia].
Qed.

(** What an entry is promoted to. *)
Record PromotedTo (s : PAGES) (n : nat) (s' : PAGES) : Prop := {
  pt_quiet : Quiet s';
  pt_evolved : Evolved s s';
  pt_length : length (mGcdMemorySpaceMap s') = length (mGcdMemorySpaceMap s);
  (** [n] entries have been promoted, each with at most one entry of the memory map. *)
  pt_count : untested s = (n + untested s')%nat;
  pt_same : n = 0%nat → SameMap s s';
  pt_free : (n <= length (mFreeMemoryMapEntryList s) → length (mFreeMemoryMapEntryList s) <= length (mFreeMemoryMapEntryList s') + n)%nat;
}.

Lemma PromotedTo_trans s1 s2 s3 n m : PromotedTo s1 n s2 → PromotedTo s2 m s3 → PromotedTo s1 (n + m) s3.
Proof.
  intros [Q1 E1 L1 C1 M1 F1] [Q2 E2 L2 C2 M2 F2]. constructor; [done|by etransitivity|congruence|lia| |lia].
  intros Hnm. etransitivity; [apply M1|apply M2]; lia.
Qed.

(** The region [g] is memory now; the entry for it is still on the stack. *)
Lemma promote_region s i g :
  Quiet s → mGcdMemorySpaceMap s !! i = Some g → promotable g = true →
  wp (CoreAddRange EfiConventionalMemory (gcd_BaseAddress g) (gcd_EndAddress g) (promoted_attribute g))
    (λ _ s', PagesOk s' ∧ mMapDepth s' = 1 ∧ mFreeMapStack s' = 0 ∧ Room s' ∧ Evolved s s' ∧
       mGcdMemorySpaceMap s' = <[i := promoted g]> (mGcdMemorySpaceMap s) ∧
       (length (mFreeMemoryMapEntryList s) <= length (mFreeMemoryMapEntryList s'))%nat) (λ _ _, False)
    (set_mGcdMemorySpaceMap (<[i := promoted g]> (mGcdMemorySpaceMap s)) s).
Proof.
  intros [Hok Hd Hf] Hi Hpr. pose proof (PagesOk_promote s i g Hok Hi Hpr) as Hok1.
  destruct (untested_range s i g Hok Hi Hpr) as (Hr & HM & Hps & _ & Hempty). pose proof (range_end_u64 _ _ Hr) as (? & ? & ?).
  eapply wp_mono; [apply (CoreAddRange_spec _ _ _ _ _ (λ _ _, False)); [apply (po_map _ Hok1)|..]| |done]; cbn; try done; [lia|rewrite Hd; done| |].
  { intros x Hx. destruct (Hempty x Hx) as (? & _ & ?). done. }
  intros _ s' (Hsr & Hd' & Hlen & Hsto & Hm & Hv). cbn in *. pose proof (sr_gcd _ _ Hsr) as Hgcd. cbn in Hgcd.
  assert (∀ x, pview s' x = if decide (gcd_BaseAddress g <= x <= gcd_EndAddress g) then [(EfiConventionalMemory, promoted_attribute g)] else pview s x) as Hv'
    by exact Hv.
  split_and!; [|lia|rewrite (sr_freeing _ _ Hsr); done|..|done|done].
  - apply (PagesOk_same _ _ Hsr); [done|done|lia].
  - right. split; [by rewrite Hd', Hd|]. exists (gcd_EndAddress g + 1 - EFI_PAGE_SIZE), (promoted_attribute g).
    destruct Hr as (_ & _ & [p Hp] & [q Hq]). unfold EFI_PAGE_SIZE, EFI_PAGE_SHIFT in *. split_and!; [lia|exists (q - 1); lia|lia|].
    rewrite Hv', decide_True by lia. done.
  - constructor.
    + intros x. rewrite Hv'. case_decide as Hx; [right|by left; left]. destruct (Hempty x Hx) as (? & ? & _). split_and!; [done|done|].
      exists (promoted_attribute g). by left.
    + intros x Hx Hn. apply Hx. rewrite Hgcd. pose proof (gview_promoted _ _ _ x Hi Hpr) as Hl. rewrite Hn in Hl. cbn in Hl.
      by destruct (gview (<[i := promoted g]> _) x).
    + intros p Hp. left. exact (Hsto p Hp).
Qed.

Lemma PromoteEntry_spec s i Promoted :
  Quiet s → 0 <= i < Z.of_nat (length (mGcdMemorySpaceMap s)) →
  wp (PromoteEntry CoreFreeMemoryMapStack i Promoted)
    (λ b s', b = Promoted ∧ s' = s ∧ (∀ g, mGcdMemorySpaceMap s !! Z.to_nat i = Some g → promotable g = false) ∨ b = true ∧ PromotedTo s 1 s') (λ _ _, False) s.
Proof.
  intros Hq Hi. unfold PromoteEntry. do 2 wp_step.
  destruct (lookup_lt_is_Some_2 (mGcdMemorySpaceMap s) (Z.to_nat i)) as [g Hg]; [lia|]. rewrite Hg.
  wp_step. wp_step. { destruct (Forall_lookup_1 _ _ _ _ (po_gcd _ (qu_ok _ Hq)) Hg) as [-> _]. apply Z.eqb_refl. }
  wp_step; [|wp_step; left; split_and!; [done|done|]; by intros ? [= <-]].
  do 2 wp_step. wp_step. eapply wp_mono; [by apply promote_region| |done].
  intros _ s1 (Hok1 & Hd1 & Hf1 & Hroom & Hev & Hgcd & Hlen). wp_step.
  eapply wp_mono; [apply CoreFreeMemoryMapStack_spec; [done|done|by rewrite Hd1|done]| |done].
  intros _ s2 (Hok2 & Hd2 & Hse & Hex). wp_step. right. split; [done|]. pose proof (se_gcd _ _ Hse) as Hgcd2. constructor.
  - constructor; [done|done|]. by rewrite (se_freeing _ _ Hse).
  - etransitivity; [exact Hev|by apply Settled_Evolved].
  - by rewrite Hgcd2, Hgcd, length_insert.
  - unfold untested. rewrite Hgcd2, Hgcd. by apply untested_promoted.
  - done.
  - intros Hle. destruct Hex as [_ Hex]; [lia|]. lia.
Qed.

Lemma PromotedTo_refl s : Quiet s → PromotedTo s 0 s.
Proof. intros Hq. constructor; [done|done|done|done|done|lia]. Qed.

(** Whether there was untested memory. *)
Lemma PromoteMemoryResource_spec s :
  Quiet s →
  wp (PromoteMemoryResource CoreFreeMemoryMapStack)
    (λ b s', (b = false → s' = s) ∧ ∃ n, PromotedTo s n s' ∧ (b = true → (0 < n)%nat)) (λ _ _, False) s.
Proof.
  intros Hq. unfold PromoteMemoryResource. do 2 wp_step.
  eapply wp_mono; [apply (wp_for_loop (λ i b s', (b = false → s' = s) ∧ ∃ n, PromotedTo s n s' ∧ (b = true → (0 < n)%nat)) (λ _ _, False))| |done].
  - split; [done|]. exists 0%nat. split; [by apply PromotedTo_refl|done].
  - intros j b s1 Hj (Hb & n & Hpt & Hn). pose proof (pt_length _ _ _ Hpt) as Hl.
    eapply wp_mono; [apply PromoteEntry_spec; [apply (pt_quiet _ _ _ Hpt)|lia]| |done].
    intros b' s2 [(-> & -> & _)|(-> & Hpt2)].
    + split; [done|]. by exists n.
    + split; [done|]. exists (n + 1)%nat. split; [by eapply PromotedTo_trans|lia].
  - intros b s' Hr. exact Hr.
Qed.

(** ** Finding free pages *)

(** No memory below the alignment is free or may become free, unless the alignment is that of pages. *)
Definition low_clear (s : PAGES) (Align : Z) : Prop :=
  Align <= EFI_PAGE_SIZE ∨ ∀ x, 0 <= x < Align → (∀ a, pview s x ≠ [(EfiConventionalMemory, a)]) ∧ gview (mGcdMemorySpaceMap s) x = [].

Lemma low_clear_below s Align : PagesOk s → low_clear s Align → clear_below (gMemoryMap s) Align.
Proof.
  intros Hok [?|Hc]; [by left|right]. intros e He HT. destruct (decide (Align <= mm_Start (en_map e))) as [|Hlt]; [done|exfalso].
  destruct (proj1 (list.Forall_forall _ _) (ok_entries _ _ _ _ (po_map _ Hok)) e He) as [Heo _].
  pose proof (range_end_u64 _ _ (eo_range _ _ Heo)) as (? & ? & ?).
  destruct (Hc (mm_Start (en_map e)) ltac:(lia)) as [Hn _]. apply (Hn (mm_Attribute (en_map e))). rewrite <- HT.
  apply pview_entry; [done|done|split; lia].
Qed.

Lemma low_clear_evolved s s' Align : Evolved s s' → low_clear s Align → low_clear s' Align.
Proof.
  intros [Hv Hg _] [?|Hc]; [by left|right]. intros x Hx. destruct (Hc x Hx) as [Hn Hgx]. split.
  - intros a Ha. destruct (Hv x) as [[Heq|(a' & Heq & _)]|(_ & ? & _)]; [|by apply (Hn a')|done]. apply (Hn a). by rewrite <- Heq.
  - destruct (gview (mGcdMemorySpaceMap s') x) eqn:E; [done|]. exfalso. apply (Hg x); [by rewrite E|done].
Qed.

(** The candidate, if there is one but 0. *)
Definition Found (s' : PAGES) (Max N Align r : Z) : Prop :=
  (r ≠ 0 → 0 < r ∧ 0 < N ∧ candidate (gMemoryMap s') Max 0 N Align r) ∧
  (r = 0 → 0 < N → ∀ a, candidate (gMemoryMap s') Max 0 N Align a → a <= 0).

Lemma Quiet_SameMap s s' : SameMap s s' → BinsOk s' → Quiet s → Quiet s'.
Proof.
  intros Hsm Hb [Hok Hd Hf]. constructor; [by eapply PagesOk_SameMap|by rewrite (sm_depth _ _ Hsm)|by rewrite (sm_freeing _ _ Hsm)].
Qed.

Lemma SameMap_PromotedTo s s' : Quiet s → SameMap s s' → BinsOk s' → PromotedTo s 0 s'.
Proof.
  intros Hq Hsm Hb. constructor; [by eapply Quiet_SameMap|by apply SameMap_Evolved|..].
  - by rewrite (sm_gcd _ _ Hsm).
  - unfold untested. by rewrite (sm_gcd _ _ Hsm).
  - done.
  - rewrite (sm_free _ _ Hsm). lia.
Qed.

Lemma FindFreePages_fuel_spec Max P T k fuel : ∀ s,
  Quiet s → 0 <= Max < 2 ^ 64 → 0 <= P → P * 2 ^ EFI_PAGE_SHIFT < 2 ^ 64 → 0 <= T → EFI_PAGE_SHIFT <= k <= 32 → low_clear s (2 ^ k) →
  (untested s < fuel)%nat →
  wp (FindFreePages_fuel CoreFreeMemoryMapStack fuel Max P T (2 ^ k))
    (λ r s', (∃ n, PromotedTo s n s') ∧ Found s' Max (P * 2 ^ EFI_PAGE_SHIFT) (2 ^ k) r) (λ _ _, False) s.
Proof.
  induction fuel as [|fuel IH]; intros s Hq HM HP HPb HT Hk Hlow Hfuel; [lia|]. cbn [FindFreePages_fuel].
  pose proof (qu_ok _ Hq) as Hok. wp_step.
  eapply wp_mono; [apply (FindInBins_spec Max P T k s (λ _ _, False)); try done; by apply low_clear_below| |done].
  intros r s1 (Hsm & Hb & Hr & Hr0). rewrite <- (sm_map _ _ Hsm) in Hr, Hr0. pose proof (SameMap_PromotedTo s s1 Hq Hsm Hb) as Hpt.
  assert (P * 2 ^ EFI_PAGE_SHIFT = P * 4096) as HN by done.
  wp_step.
  - wp_step. split; [by exists 0%nat|]. split; [|lia]. intros Hne. destruct (Hr Hne) as (? & ? & ?). split_and!; [done|lia|done].
  - wp_step. eapply wp_mono; [apply PromoteMemoryResource_spec; apply (pt_quiet _ _ _ Hpt)| |done].
    intros b s2 (Hsame & n & Hpt2 & Hn). wp_step.
    + wp_step. destruct b; [done|]. rewrite Hsame by done. split; [by exists 0%nat|]. split; [done|]. intros _ HN0. apply Hr0; lia.
    + destruct b; [|done]. pose proof (PromotedTo_trans _ _ _ _ _ Hpt Hpt2) as Hpt3. pose proof (pt_count _ _ _ Hpt3).
      eapply wp_mono; [apply IH; try done; [apply (pt_quiet _ _ _ Hpt2)|eapply low_clear_evolved; [apply (pt_evolved _ _ _ Hpt3)|done]|]| |done].
      { specialize (Hn eq_refl). lia. }
      intros r2 s3 [[m Hpt4] Hf]. split; [|done]. exists (0 + n + m)%nat. by eapply PromotedTo_trans.
Qed.

Lemma FindFreePages_spec Max P T k s :
  Quiet s → 0 <= Max < 2 ^ 64 → 0 <= P → P * 2 ^ EFI_PAGE_SHIFT < 2 ^ 64 → 0 <= T → EFI_PAGE_SHIFT <= k <= 32 → low_clear s (2 ^ k) →
  wp (FindFreePages CoreFreeMemoryMapStack Max P T (2 ^ k))
    (λ r s', (∃ n, PromotedTo s n s') ∧ Found s' Max (P * 2 ^ EFI_PAGE_SHIFT) (2 ^ k) r) (λ _ _, False) s.
Proof.
  intros. unfold FindFreePages. do 2 wp_step. apply FindFreePages_fuel_spec; try done. unfold untested.
  pose proof (length_filter (λ g, promotable g = true) (mGcdMemorySpaceMap s)). lia.
Qed.
End Services.
