(* ===== verification/PageSample.v ===== *)
(** A small memory map, for the examples of the page allocator. *)
From stdpp Require Import list.
From S2P Require Import Prelude Base Buffer Platform Overflow ImageRecord MemoryMap SplitTable SplitCoverage MemoryMerge GetMemoryMap PageAlloc PageMapSpec PageFind PageConvert PageStack PageServices.

Definition max_x64 : PageConfig := {| MAX_ALLOC_ADDRESS := 2 ^ 64 - 1 |}.

Lemma config_x64_ok : @PageConfigOk platform_x64 max_x64.
Proof. constructor; [done|by left|by right|]. cbn. split_and!; [lia|lia|by exists (2 ^ 52)]. Qed.

Definition cell (p t Start End_ : Z) : Entry := {| en_cell := Page p; en_map := new_map t Start End_ 0xf |}.

Definition untested_space (Start End_ : Z) : EFI_GCD_MAP_ENTRY :=
  {| gcd_Signature := EFI_GCD_MAP_SIGNATURE; gcd_BaseAddress := Start; gcd_EndAddress := End_;
     gcd_Capabilities := 0x030000000000000f; gcd_Attributes := 0; gcd_GcdMemoryType := EfiGcdMemoryTypeReserved; gcd_GcdIoType := 0 |}.

(** The initial value of gMemoryTypeInformation.  The last entry before the end is EfiGcdMemoryTypeUnaccepted, which is 6,
    in the source. *)
Definition initial_information : list EFI_MEMORY_TYPE_INFORMATION :=
  map (λ t, {| mti_Type := t; mti_NumberOfPages := 0 |}) [0; 1; 2; 3; 4; 5; 6; 7; 8; 9; 10; 11; 12; 13; 14; 6; EfiMaxMemoryType].

(** The variables of Page.c, with the initial statistics. *)
Definition pages_with (l : list Entry) (free : list Z) (gcd : list EFI_GCD_MAP_ENTRY) : PAGES :=
  {| gMemoryMap := l; mMemoryMapKey := 0; mMapDepth := 0; mFreeMapStack := 0; mFreeMemoryMapEntryList := free;
     mMemoryTypeInformationInitialized := false; mMemoryTypeStatistics := initial_statistics;
     mDefaultMaximumAddress := 2 ^ 64 - 1; mDefaultBaseAddress := 2 ^ 64 - 1; gMemoryTypeInformation := initial_information;
     mGcdMemorySpaceMap := gcd |}.

(** A megabyte of free memory with a page of entries at its end; and untested memory behind it. *)
Definition sample_free : PAGES :=
  pages_with [cell 0x1ff040 7 0x100000 0x1fefff; cell 0x1ff000 4 0x1ff000 0x1fffff] [0x1ff080; 0x1ff0c0; 0x1ff100; 0x1ff140]
    [space EfiGcdMemoryTypeSystemMemory 0 0x1fffff; untested_space 0x200000 0x20ffff].

(** Three pages are in use. *)
Definition sample_used : PAGES :=
  pages_with [cell 0x1ff040 7 0x100000 0x1fbfff; cell 0x1ff080 5 0x1fc000 0x1fefff; cell 0x1ff000 4 0x1ff000 0x1fffff] [0x1ff0c0; 0x1ff100; 0x1ff140]
    [space EfiGcdMemoryTypeSystemMemory 0 0x1fffff; untested_space 0x200000 0x20ffff].

(** Evaluates the memory at an address. *)
Ltac view_cases :=
  unfold pview, mview; cbn; rewrite ?filter_cons, ?filter_nil; cbn; unfold in_map; cbn;
  repeat case_decide; cbn; try done; try lia.

#[local] Existing Instances platform_x64 platform_x64_ok max_x64.

Lemma sample_bins l free gcd : BinsOk (pages_with l free gcd).
Proof. constructor; [done| |done]. by repeat constructor. Qed.

Lemma sample_gcd : let gcd := [space EfiGcdMemoryTypeSystemMemory 0 0x1fffff; untested_space 0x200000 0x20ffff] in
  Forall (GcdOk UINTN_WIDTH) gcd ∧ gcd_chain gcd ∧ Forall (λ g, promotable g = true → EFI_PAGE_SIZE <= gcd_EndAddress g) gcd.
Proof.
  split_and!.
  - repeat constructor; cbn; try done; try lia; by apply Z.mod_divide.
  - done.
  - repeat constructor; cbn; lia || done.
Qed.

Lemma gview_sample x : gview [space EfiGcdMemoryTypeSystemMemory 0 0x1fffff; untested_space 0x200000 0x20ffff] x =
  if decide (0x200000 <= x <= 0x20ffff) then [untested_space 0x200000 0x20ffff] else [].
Proof.
  rewrite !gview_cons. rewrite decide_False by (intros [Hp _]; by vm_compute in Hp). cbn [app gview filter list_filter].
  destruct (decide (0x200000 <= x <= 0x20ffff)) as [Hx|Hx]; [rewrite decide_True by (split; [by vm_compute|done])|rewrite decide_False by (intros [_ ?]; done)]; done.
Qed.

Lemma sample_free_quiet : Quiet sample_free.
Proof.
  destruct sample_gcd as (Hg & Hc & Hu). constructor; [|done|done]. constructor; try done; [|apply sample_bins].
  constructor.
  - by apply (bool_decide_unpack _); vm_compute.
  - cbn. intros i Hi. repeat (apply list.elem_of_cons in Hi as [Hi|Hi]; [done|]). by apply elem_of_nil in Hi.
  - repeat constructor; cbn; try done; try lia; by apply Z.mod_divide.
  - intros x. cbn [sample_free pages_with gMemoryMap mGcdMemorySpaceMap]. rewrite gview_sample. view_cases.
  - intros p Hp. exists 0xf. cbn in Hp. repeat (apply list.elem_of_cons in Hp as [[= ->]|Hp]; [by vm_compute|]). by apply elem_of_nil in Hp.
Qed.

Lemma sample_used_quiet : Quiet sample_used.
Proof.
  destruct sample_gcd as (Hg & Hc & Hu). constructor; [|done|done]. constructor; try done; [|apply sample_bins].
  constructor.
  - by apply (bool_decide_unpack _); vm_compute.
  - cbn. intros i Hi. repeat (apply list.elem_of_cons in Hi as [Hi|Hi]; [done|]). by apply elem_of_nil in Hi.
  - repeat constructor; cbn; try done; try lia; by apply Z.mod_divide.
  - intros x. cbn [sample_used pages_with gMemoryMap mGcdMemorySpaceMap]. rewrite gview_sample. view_cases.
  - intros p Hp. exists 0xf. cbn in Hp. repeat (apply list.elem_of_cons in Hp as [[= ->]|Hp]; [by vm_compute|]). by apply elem_of_nil in Hp.
Qed.
