(* ===== verification/PageAllocate.v ===== *)
(** Page.c: CoreInternalAllocatePages never hands out memory that is in use. *)
From stdpp Require Import list.
From S2P Require Import Prelude Base Buffer Platform Overflow ImageRecord MemoryMap SplitTable SplitCoverage MemoryMerge GetMemoryMap PageAlloc PageMapSpec PageFind PageConvert PageStack PageServices PageSample.

Section Allocate.
Context `{!Platform, !PlatformOk, !PageConfig, !PageConfigOk}.

(** There are entries for the ranges that may be added, or a free page for more entries remains
    whatever range of [N] bytes is taken. *)
Definition Supply (s : PAGES) (N : Z) : Prop :=
  (2 + untested s <= length (mFreeMemoryMapEntryList s))%nat ∨
  untested s = 0%nat ∧ ∀ r, ∃ x a, EFI_PAGE_SIZE <= x ∧ (2 ^ EFI_PAGE_SHIFT | x) ∧ x + EFI_PAGE_SIZE - 1 <= MAX_ALLOC_ADDRESS ∧
    pview s x = [(EfiConventionalMemory, a)] ∧ (x < r ∨ r + N <= x).

(** The [N] bytes from [r] on were free and are of the type [T] now; they do not hold entries of the
    memory map.  The memory elsewhere is what it was. *)
Record Allocated (s : PAGES) (T r N : Z) (s' : PAGES) : Prop := {
  al_quiet : Quiet s';
  al_pages : pages r (r + N - 1);
  al_range : ∀ x, r <= x < r + N → ∃ a, pview s' x = [(T, a)] ∧
    (pview s x = [(EfiConventionalMemory, a)] ∨ pview s x = [] ∧ gview (mGcdMemorySpaceMap s) x ≠ []);
  al_rest : ∀ x, ¬ r <= x < r + N → evolves (pview s x) (gview (mGcdMemorySpaceMap s) x ≠ []) (pview s' x);
  al_stored : ∀ p, stored_at s' p → ¬ r <= p < r + N ∧
    (stored_at s p ∨ (∃ a, pview s p = [(EfiConventionalMemory, a)]) ∨ pview s p = [] ∧ gview (mGcdMemorySpaceMap s) p ≠ []);
}.

Lemma evolves_grown v u v1 v2 : evolves v u v1 → grown v1 v2 → evolves v u v2.
Proof. intros [?|(? & ? & a & ?)] ?; [left; by etransitivity|right]. split_and!; [done|done|]. exists a. by etransitivity. Qed.

(** Memory that is free was free or untested. *)
Lemma evolves_free v u v' a : evolves v u v' → v' = [(EfiConventionalMemory, a)] → v = [(EfiConventionalMemory, a)] ∨ v = [] ∧ u.
Proof. intros [[Heq|(a' & _ & Heq)]|(? & ? & _)] Hv; [left; congruence|by rewrite Hv in Heq|by right]. Qed.

Lemma Allocated_intro s s1 s2 s3 T r N a :
  Evolved s s1 → PagesOk s1 → Converted s1 r (r + N - 1) EfiConventionalMemory a T a s2 → Settled s2 s3 → Quiet s3 →
  pages r (r + N - 1) → T ≠ EfiConventionalMemory → Allocated s T r N s3.
Proof.
  intros Hev Hok1 Hcv Hse Hq Hp HT.
  assert (∀ x, r <= x < r + N → pview s1 x = [(EfiConventionalMemory, a)] ∧ pview s2 x = [(T, a)]) as Hin.
  { intros x Hx. split; [apply (cv_before _ _ _ _ _ _ _ _ Hcv); lia|]. rewrite (cv_after _ _ _ _ _ _ _ _ Hcv), decide_True by lia. done. }
  assert (∀ x, ¬ r <= x < r + N → pview s2 x = pview s1 x) as Hout.
  { intros x Hx. rewrite (cv_after _ _ _ _ _ _ _ _ Hcv), decide_False by lia. done. }
  constructor; [done|done|..].
  - intros x Hx. destruct (Hin x Hx) as [H1x H2x]. exists a. split.
    + destruct (se_grown _ _ Hse x) as [->|(a' & Heq & _)]; [done|]. rewrite H2x in Heq. by injection Heq.
    + by eapply evolves_free; [apply (ev_view _ _ Hev)|].
  - intros x Hx. eapply evolves_grown; [apply (ev_view _ _ Hev)|]. rewrite <- (Hout x Hx). apply (se_grown _ _ Hse).
  - intros p [Hp2|[b Hb]]%(se_stored _ _ Hse).
    + apply (cv_stored _ _ _ _ _ _ _ _ Hcv) in Hp2. split; [|by apply (ev_stored _ _ Hev)].
      intros Hx. destruct (stored_view s1 p Hok1 Hp2) as [c Hc]. destruct (Hin p Hx) as [H1x _]. by rewrite H1x in Hc.
    + assert (¬ r <= p < r + N) as Hx. { intros Hx. destruct (Hin p Hx) as [_ H2x]. rewrite H2x in Hb. by injection Hb. }
      split; [done|]. rewrite (Hout p Hx) in Hb. right. by apply (evolves_free _ _ _ _ (ev_view _ _ Hev p)) in Hb as [?|?]; [left; exists b|right].
Qed.

Lemma Supply_promoted s n s1 N : PromotedTo s n s1 → Supply s N → Supply s1 N.
Proof.
  intros [_ _ _ Hc Hsame Hf] [Hs|(Hu & Hs)]; [left; lia|right]. assert (n = 0%nat) as -> by lia. split; [lia|].
  intros r. destruct (Hs r) as (x & a & ? & ? & ? & Hv & ?). exists x, a. split_and!; try done. unfold pview. by rewrite (sm_map _ _ (Hsame eq_refl)).
Qed.

(** The entries that the conversion leaves on the stack can be moved. *)
Lemma Supply_settles s r N a T s1 :
  Quiet s → Supply s N → Converted s r (r + N - 1) EfiConventionalMemory a T a s1 →
  wp CoreFreeMemoryMapStack (λ _ s2, Settled s1 s2 ∧ Quiet s2) (λ _ _, False) s1.
Proof.
  intros [_ Hd Hf] Hs Hcv. pose proof (cv_depth _ _ _ _ _ _ _ _ Hcv) as Hd1. pose proof (cv_freeing _ _ _ _ _ _ _ _ Hcv) as Hf1.
  eapply wp_mono; [apply CoreFreeMemoryMapStack_spec; [apply (cv_ok _ _ _ _ _ _ _ _ Hcv)|lia|unfold MAX_MAP_DEPTH; lia|]| |done].
  - destruct Hs as [Hs|(_ & Hs)]; [left; pose proof (cv_free _ _ _ _ _ _ _ _ Hcv); lia|right]. split; [unfold MAX_MAP_DEPTH; lia|].
    destruct (Hs r) as (x & b & ? & ? & ? & Hv & Hx). exists x, b. split_and!; try done.
    rewrite (cv_after _ _ _ _ _ _ _ _ Hcv), decide_False by lia. done.
  - intros _ s2 (Hok2 & Hd2 & Hse & _). split; [done|]. constructor; [done|done|]. rewrite (se_freeing _ _ Hse). lia.
Qed.

(** ** The parameters *)

Lemma PageAlignment_pow T : ∃ k, (k = 12 ∨ k = 16) ∧ PageAlignment T = 2 ^ k.
Proof. unfold PageAlignment. rewrite config_default. destruct (_ || _); [|by exists 12; auto].
  destruct config_runtime as [->| ->]; [exists 12|exists 16]; auto.
Qed.

Lemma RoundPages_spec P k :
  k = 12 ∨ k = 16 → 0 <= P → P + 16 < 2 ^ UINTN_WIDTH →
  P <= RoundPages P (2 ^ k) < P + 16 ∧ (2 ^ k | RoundPages P (2 ^ k) * 2 ^ EFI_PAGE_SHIFT).
Proof.
  intros Hk HP Hw. unfold RoundPages. rewrite EFI_SIZE_TO_PAGES_pow by done. pose proof UINTN_WIDTH_64.
  assert (1 <= 2 ^ (k - 12) <= 16) as Hp by (destruct Hk as [->| ->]; done).
  unfold wrapn. rewrite wrap_small by (split; lia). rewrite align_up_mask; [|lia|lia|by destruct Hk as [->| ->]|split; lia|split; lia].
  pose proof (align_up_ge P (2 ^ (k - 12))). split; [lia|]. destruct (align_up_divide P (2 ^ (k - 12))) as [q ->]. exists q.
  rewrite <- Z.mul_assoc, <- Z.pow_add_r by (unfold EFI_PAGE_SHIFT; destruct Hk as [->| ->]; lia). f_equal. f_equal. unfold EFI_PAGE_SHIFT. lia.
Qed.

(** The range touches the bin that is reserved for another type of memory. *)
Definition touches_bin (s : PAGES) (T St En C : Z) : Prop :=
  T ≠ C ∧ ∃ st, mMemoryTypeStatistics s !! Z.to_nat C = Some st ∧ st_Special st = true ∧ 0 < st_NumberOfPages st ∧
    (st_BaseAddress st <= St <= st_MaximumAddress st ∨ st_BaseAddress st <= En <= st_MaximumAddress st ∨
     St < st_BaseAddress st ∧ st_MaximumAddress st < En).

Lemma CheckBin_spec T St En C s :
  BinsOk s → 0 <= C < EfiMaxMemoryType →
  wp (CheckBin T St En C tt) (λ _ s', s' = s ∧ ¬ touches_bin s T St En C) (λ e s', e = RETURN_NOT_FOUND ∧ s' = s ∧ touches_bin s T St En C) s.
Proof.
  intros Hb HC. unfold CheckBin. destruct (bin_lookup s C Hb HC) as (st & Hst & _).
  assert (∀ b : bool, b = true → T ≠ C → st_Special st && (0 <? st_NumberOfPages st) = true →
    (b = true → st_BaseAddress st <= St <= st_MaximumAddress st ∨ st_BaseAddress st <= En <= st_MaximumAddress st ∨
      St < st_BaseAddress st ∧ st_MaximumAddress st < En) → touches_bin s T St En C) as Htouch.
  { intros b Hbt Hne Hsp Hd. apply andb_true_iff in Hsp as [? ?]. split; [done|]. exists st. split_and!; [done|done|lia|auto]. }
  wp_step; [|wp_step; split; [done|]; intros [? _]; lia].
  wp_step. apply (wp_get_bin _ st); [done|].
  wp_step; [|wp_step; split; [done|]; intros (_ & st' & Hst' & Hsp & Hn & _); rewrite Hst' in Hst; injection Hst as ->; rewrite Hsp in *; lia].
  assert (T ≠ C) as Hne by lia.
  wp_step. wp_step; [intros Hc; split_and!; [done|done|]; apply (Htouch _ Hc); [done|done|lia]|].
  wp_step. wp_step; [intros Hc; split_and!; [done|done|]; apply (Htouch _ Hc); [done|done|lia]|].
  wp_step; [intros Hc; split_and!; [done|done|]; apply (Htouch _ Hc); [done|done|lia]|].
  split; [done|]. intros (_ & st' & Hst' & _ & _ & Ht). rewrite Hst' in Hst. injection Hst as ->. lia.
Qed.

(** Why an address is refused before the memory map is looked at. *)
Definition refused (s : PAGES) (T M N : Z) : Prop :=
  N = 0 ∨ MAX_ALLOC_ADDRESS < N ∨ MAX_ALLOC_ADDRESS < M + N - 1 ∨ ∃ C, 0 <= C < EfiMaxMemoryType ∧ touches_bin s T M (M + N - 1) C.

Lemma CheckAddress_spec T M P s :
  BinsOk s → u64 M → 0 <= P → (2 ^ EFI_PAGE_SHIFT | M) →
  wp (CheckAddress T M P) (λ _ s', s' = s ∧ 0 < P ∧ P * 2 ^ EFI_PAGE_SHIFT < 2 ^ 64 ∧ pages M (M + P * 2 ^ EFI_PAGE_SHIFT - 1) ∧
    ¬ refused s T M (P * 2 ^ EFI_PAGE_SHIFT)) (λ e s', e = RETURN_NOT_FOUND ∧ s' = s ∧ refused s T M (P * 2 ^ EFI_PAGE_SHIFT)) s.
Proof.
  intros Hb [HM0 HM] HP Hal. destruct config_max as (Hm1 & Hm2 & Hm3). pose proof UINTN_WIDTH_64. pose proof (Z.pow_le_mono_r 2 UINTN_WIDTH 64).
  unfold CheckAddress. set (N := P * 2 ^ EFI_PAGE_SHIFT). unfold RShiftU64. rewrite Z.shiftr_div_pow2 by (unfold EFI_PAGE_SHIFT; lia).
  pose proof (Z.div_mod MAX_ALLOC_ADDRESS (2 ^ EFI_PAGE_SHIFT)) as Hdm. pose proof (Z.mod_pos_bound MAX_ALLOC_ADDRESS (2 ^ EFI_PAGE_SHIFT)) as Hmb.
  wp_step. wp_step.
  { intros Hc. split_and!; [done|done|]. unfold N, EFI_PAGE_SHIFT in *. destruct (decide (P = 0)) as [->|]; [by left|right; left]. destruct Hm3. lia. }
  assert (0 < P ∧ N <= MAX_ALLOC_ADDRESS) as [HP0 HN] by (unfold N, EFI_PAGE_SHIFT in *; lia).
  unfold LShiftU64. rewrite Z.shiftl_mul_pow2 by (unfold EFI_PAGE_SHIFT; lia). fold N.
  assert (4096 <= N) by (unfold N, EFI_PAGE_SHIFT; lia). rewrite (wrap_small 64 N) by (split; lia).
  assert (wrap 64 (M + N - 1) = M + N - 1 ∧ M + N - 1 < 2 ^ 64 ∨ wrap 64 (M + N - 1) < M ∧ 2 ^ 64 <= M + N - 1) as Hw.
  { destruct (decide (M + N - 1 < 2 ^ 64)); [left; rewrite wrap_small by (split; lia); lia|right]. unfold wrap.
    assert ((M + N - 1) mod 2 ^ 64 = M + N - 1 - 2 ^ 64) as Heq by (symmetry; apply (Z.mod_unique _ _ 1); lia). lia. }
  wp_step. wp_step. { intros Hc. split_and!; [done|done|]. right; right; left. lia. }
  destruct Hw as [[Hw Hlt]|?]; [|lia]. rewrite Hw in *.
  eapply wp_mono; [apply (wp_for_loop (λ i _ s', s' = s ∧ ∀ C, 0 <= C < i → ¬ touches_bin s T M (M + N - 1) C)
    (λ e s', e = RETURN_NOT_FOUND ∧ s' = s ∧ refused s T M N)); [split; [done|lia]|]| |done].
  - intros j [] s' Hj (-> & Hprev). eapply wp_mono; [apply CheckBin_spec; [done|unfold EfiMaxMemoryType in *; lia]|..].
    + intros _ s' [-> Hn]. split; [done|]. intros C HC. destruct (decide (C = j)) as [->|]; [done|]. apply Hprev. lia.
    + intros e s' (-> & -> & Ht). split_and!; [done|done|]. right; right; right. exists j. split; [unfold EfiMaxMemoryType in *; lia|done].
  - intros _ s' (-> & Hnone). split_and!; [done|done|lia|..].
    + split_and!; [lia|lia|lia|done|]. destruct Hal as [q Hq]. exists (q + P). unfold N. lia.
    + intros [?|[?|[?|(C & HC & Ht)]]]; [lia|lia|lia|]. apply (Hnone C); [unfold EfiMaxMemoryType in *; lia|done].
Qed.

(** ** The allocation *)

Lemma convert_spec s r P T :
  Quiet s → Supply s (P * 2 ^ EFI_PAGE_SHIFT) → 0 < P → P * 2 ^ EFI_PAGE_SHIFT < 2 ^ 64 → pages r (r + P * 2 ^ EFI_PAGE_SHIFT - 1) →
  T ≠ EfiConventionalMemory → 0 <= T →
  wp (CoreConvertPages CoreFreeMemoryMapStack r P T)
    (λ _ s', ∃ a s2, Converted s r (r + P * 2 ^ EFI_PAGE_SHIFT - 1) EfiConventionalMemory a T a s2 ∧ Settled s2 s' ∧ Quiet s')
    (λ e s', e = RETURN_NOT_FOUND ∧ s' = s ∧ NotConverted r (r + P * 2 ^ EFI_PAGE_SHIFT - 1) true T s) s.
Proof.
  intros Hq Hs HP HPb Hp HT HT0. apply CoreConvertPages_alloc; try done; [apply (qu_ok _ Hq)|rewrite (qu_depth _ Hq); done|].
  intros a s1 Hcv. eapply wp_mono; [by eapply Supply_settles| |done]. intros _ s2 [Hse Hq2]. by exists a, s1.
Qed.

Section Request.
Context (T P M : Z) (s : PAGES).
Context (HT0 : 0 <= T) (HT : T ≠ EfiConventionalMemory) (HM : u64 M) (HP : 0 <= P).
Context (HPw : P + 16 < 2 ^ UINTN_WIDTH) (HPb : (P + 16) * 2 ^ EFI_PAGE_SHIFT <= 2 ^ 64).

Definition request_size : Z := RoundPages P (PageAlignment T) * 2 ^ EFI_PAGE_SHIFT.

Context (Hq : Quiet s) (Hlow : low_clear s (PageAlignment T)) (Hsup : Supply s request_size).

Lemma request_bounds : 0 <= RoundPages P (PageAlignment T) ∧ request_size < 2 ^ 64 ∧ (PageAlignment T | request_size) ∧ (2 ^ EFI_PAGE_SHIFT | request_size).
Proof.
  destruct (PageAlignment_pow T) as (k & Hk & Hal). unfold request_size. rewrite Hal. destruct (RoundPages_spec P k Hk HP HPw) as [Hr Hd].
  split_and!; [lia|unfold EFI_PAGE_SHIFT in *; lia|done|by exists (RoundPages P (2 ^ k))].
Qed.

(** The pages at [r] have been taken from a free range. *)
Definition GotPages (Max r : Z) (s' : PAGES) : Prop :=
  0 < request_size ∧ Allocated s T r request_size s' ∧ (PageAlignment T | r) ∧ r + request_size - 1 <= Max.

(** There is no such range in what the memory map is then. *)
Definition NoPages (Max : Z) (s' : PAGES) : Prop :=
  Quiet s' ∧ Evolved s s' ∧ (0 < request_size → ∀ a, candidate (gMemoryMap s') Max 0 request_size (PageAlignment T) a → a <= 0).

Lemma find_and_convert Max :
  0 <= Max < 2 ^ 64 →
  wp (Start ← FindFreePages CoreFreeMemoryMapStack Max (RoundPages P (PageAlignment T)) T (PageAlignment T);
      fail_if (Start =? 0) RETURN_OUT_OF_RESOURCES;;
      Status ← attempt (CoreConvertPages CoreFreeMemoryMapStack Start (RoundPages P (PageAlignment T)) T);
      match Status with
      | inr _ => mret Start
      | inl e =>
          Promoted ← PromoteMemoryResource CoreFreeMemoryMapStack;
          if negb Promoted then raise e
          else CoreConvertPages CoreFreeMemoryMapStack Start (RoundPages P (PageAlignment T)) T;; mret Start
      end)
    (λ r s', 0 < r ∧ GotPages Max r s') (λ e s', e = RETURN_OUT_OF_RESOURCES ∧ NoPages Max s') s.
Proof.
  intros HMax. destruct request_bounds as (HR & HN & HNd & HNp). destruct (PageAlignment_pow T) as (k & Hk & Hal).
  unfold GotPages, NoPages, request_size in *. set (R := RoundPages P (PageAlignment T)) in *. set (N := R * 2 ^ EFI_PAGE_SHIFT) in *.
  assert (EFI_PAGE_SHIFT <= k <= 32) as Hkr by (unfold EFI_PAGE_SHIFT; lia). rewrite Hal in *.
  wp_step. eapply wp_mono; [by apply (FindFreePages_spec Max R T k s)| |done].
  intros r s1 [[n Hpt] [Hf Hf0]]. fold N in Hf, Hf0. wp_step.
  wp_step. { intros Hr. split; [done|]. split_and!; [apply (pt_quiet _ _ _ Hpt)|apply (pt_evolved _ _ _ Hpt)|]. apply Hf0. lia. }
  destruct (Hf ltac:(lia)) as (Hr & HN0 & Hc). pose proof (pt_quiet _ _ _ Hpt) as Hq1. pose proof (qu_ok _ Hq1) as Hok1.
  destruct (candidate_pages s1 Max N k r Hok1 (proj1 Hkr) HN0 HNp Hc) as (Hp & _ & HrM & _).
  assert (0 < R) as HR0 by (unfold N, EFI_PAGE_SHIFT in HN0; lia).
  wp_step. apply wp_attempt. eapply wp_mono; [apply (convert_spec s1 r R T); try done; by eapply Supply_promoted|..]; fold N.
  - intros _ s3 (a & s2 & Hcv & Hse & Hq3). wp_step. split_and!; [done|done| |..|done].
    + by eapply Allocated_intro; [apply (pt_evolved _ _ _ Hpt)|..].
    + destruct Hc as (e & _ & _ & _ & _ & _ & _ & Hd). apply (Z.divide_add_cancel_r _ N); [done|]. by rewrite Z.add_comm.
  - intros e s' (-> & -> & Hnc). exfalso. exact (NotConverted_candidate s1 Max N k r T Hok1 (proj1 Hkr) HN0 HNp HT Hnc Hc).
Qed.

Lemma convert_at :
  (PageAlignment T | M) →
  wp (CheckAddress T M (RoundPages P (PageAlignment T));;
      Status ← attempt (CoreConvertPages CoreFreeMemoryMapStack M (RoundPages P (PageAlignment T)) T);
      match Status with
      | inr _ => mret M
      | inl e =>
          Promoted ← PromoteMemoryResource CoreFreeMemoryMapStack;
          if negb Promoted then raise e
          else CoreConvertPages CoreFreeMemoryMapStack M (RoundPages P (PageAlignment T)) T;; mret M
      end)
    (λ r s', r = M ∧ GotPages MAX_ALLOC_ADDRESS r s' ∧ ¬ refused s T M request_size)
    (λ e s', e = RETURN_NOT_FOUND ∧ Quiet s' ∧ Evolved s s' ∧
       (refused s T M request_size ∨ ¬ candidate (gMemoryMap s') MAX_ALLOC_ADDRESS 0 request_size (PageAlignment T) M)) s.
Proof.
  intros HMd. destruct request_bounds as (HR & HN & HNd & HNp). destruct (PageAlignment_pow T) as (k & Hk & Hal).
  unfold GotPages, request_size in *. set (R := RoundPages P (PageAlignment T)) in *. set (N := R * 2 ^ EFI_PAGE_SHIFT) in *.
  assert (EFI_PAGE_SHIFT <= k <= 32) as Hkr by (unfold EFI_PAGE_SHIFT; lia). rewrite Hal in *.
  assert ((2 ^ EFI_PAGE_SHIFT | M)) as HMp.
  { etransitivity; [|exact HMd]. exists (2 ^ (k - EFI_PAGE_SHIFT)). rewrite <- Z.pow_add_r by (unfold EFI_PAGE_SHIFT in *; lia). f_equal. lia. }
  wp_step. eapply wp_mono; [by apply (CheckAddress_spec T M R s); [apply (po_bins _ (qu_ok _ Hq))|..]| |].
  2:{ intros e s' (-> & -> & ?). split_and!; [done|done|done|by left]. }
  intros _ s0 (-> & HR0 & _ & Hp & Hnr). fold N in Hp, Hnr.
  assert (M + N - 1 <= MAX_ALLOC_ADDRESS) as HMM by (destruct (decide (M + N - 1 <= MAX_ALLOC_ADDRESS)); [done|]; exfalso; apply Hnr; right; right; left; lia). assert (0 < N) as HN0 by (unfold N, EFI_PAGE_SHIFT; lia).
  wp_step. apply wp_attempt. eapply wp_mono; [by apply (convert_spec s M R T)|..]; fold N.
  - intros _ s3 (a & s2 & Hcv & Hse & Hq3). wp_step. split_and!; [done|done| |done|done|done].
    by eapply (Allocated_intro s s); [done|apply (qu_ok _ Hq)|..].
  - intros e s' (-> & -> & Hnc). wp_step. eapply wp_mono; [by apply PromoteMemoryResource_spec| |done].
    intros b s1 (Hsame & n & Hpt & Hn). pose proof (pt_quiet _ _ _ Hpt) as Hq1. wp_step.
    + wp_step. destruct b; [done|]. rewrite Hsame by done. split_and!; [done|done|done|right].
      exact (NotConverted_candidate s _ N k M T (qu_ok _ Hq) (proj1 Hkr) HN0 HNp HT Hnc).
    + wp_step. eapply wp_mono; [apply (convert_spec s1 M R T); try done; by eapply Supply_promoted|..]; fold N.
      * intros _ s3 (a & s2 & Hcv & Hse & Hq3). wp_step. split_and!; [done|done| |done|done|done].
        by eapply Allocated_intro; [apply (pt_evolved _ _ _ Hpt)|apply (qu_ok _ Hq1)|..].
      * intros e s' (-> & -> & Hnc1). split_and!; [done|done|apply (pt_evolved _ _ _ Hpt)|right].
        exact (NotConverted_candidate s1 _ N k M T (qu_ok _ Hq1) (proj1 Hkr) HN0 HNp HT Hnc1).
Qed.
End Request.
End Allocate.

(** ** The result *)

(** The memory types that can be allocated. *)
Definition allocatable (T : Z) : Prop :=
  0 <= T ∧ (T < EfiMaxMemoryType ∨ MEMORY_TYPE_OEM_RESERVED_MIN <= T) ∧ T ≠ EfiConventionalMemory ∧ T ≠ EfiPersistentMemory ∧
  T ≠ EfiUnacceptedMemoryType.

Section Result.
Context `{!Platform, !PlatformOk, !PageConfig, !PageConfigOk}.

Definition AllocateSpec (Type0 T P M : Z) (s : PAGES) (o : outcome PAGES Z) : Prop :=
  match o with
  | Ok r s' =>
      GotPages T P s (if Type0 =? AllocateMaxAddress then M else MAX_ALLOC_ADDRESS) r s' ∧
      (if Type0 =? AllocateAddress then r = M ∧ ¬ refused s T M (request_size T P) else 0 < r)
  | Err e s' =>
      Quiet s' ∧ Evolved s s' ∧
      if Type0 =? AllocateAddress then
        e = RETURN_NOT_FOUND ∧ (¬ (PageAlignment T | M) ∨ refused s T M (request_size T P) ∨
          ¬ candidate (gMemoryMap s') MAX_ALLOC_ADDRESS 0 (request_size T P) (PageAlignment T) M)
      else
        e = RETURN_OUT_OF_RESOURCES ∧ (0 < request_size T P → ∀ a,
          candidate (gMemoryMap s') (if Type0 =? AllocateMaxAddress then M else MAX_ALLOC_ADDRESS) 0 (request_size T P) (PageAlignment T) a → a <= 0)
  | Fault _ => False
  end.

Lemma AllocateSpec_wp Type0 T P M s :
  allocatable T → 0 <= Type0 < MaxAllocateType → u64 M → 0 <= P → P + 16 < 2 ^ UINTN_WIDTH → (P + 16) * 2 ^ EFI_PAGE_SHIFT <= 2 ^ 64 →
  Quiet s → low_clear s (PageAlignment T) → Supply s (request_size T P) →
  wp (CoreInternalAllocatePages Type0 T P (Some M)) (λ r s', AllocateSpec Type0 T P M s (Ok r s')) (λ e s', AllocateSpec Type0 T P M s (Err e s')) s.
Proof.
  intros (HT0 & HTr & HT1 & HT2 & HT3) Hty HM HP HPw HPb Hq Hlow Hsup. unfold CoreInternalAllocatePages.
  wp_step. wp_step; [lia|]. wp_step. wp_step; [lia|]. unfold AllocateSpec.
  destruct (PageAlignment_pow T) as (k & Hk & Hal).
  assert (Z.land M (PageAlignment T - 1) = 0 ↔ (PageAlignment T | M)) as Hland.
  { rewrite Hal, land_mask by lia. apply Z.mod_divide. destruct Hk as [->| ->]; done. }
  destruct (Z.eqb_spec Type0 AllocateAddress) as [HtA|HtA]; cbn [andb negb].
  - wp_step. wp_step.
    { intros Hc. split_and!; [done|done|done|left]. rewrite <- Hland. lia. }
    assert ((PageAlignment T | M)) as HMd by (apply Hland; lia). rewrite HtA. cbn [Z.eqb AllocateAddress AllocateMaxAddress].
    pose proof (convert_at T P M s HT0 HT1 HM HP HPw HPb Hq Hlow Hsup HMd) as Hc. apply wp_bind_inv in Hc.
    wp_step. eapply wp_mono; [exact Hc|..].
    + intros ? s1 Hc1. cbn beta in Hc1. do 2 wp_step. wp_step. cbn [andb fail_if]. wp_step. eapply wp_mono; [exact Hc1|..].
      * intros r s' (Hr & Hg & Hn). done.
      * intros e s' (He & Hq' & Hev & Hn). split_and!; [done|done|done|by right].
    + intros e s' (He & Hq' & Hev & Hn). split_and!; [done|done|done|by right].
  - wp_step. cbn [andb fail_if]. wp_step. do 2 wp_step. destruct config_max as (Hm1 & Hm2 & _). pose proof UINTN_WIDTH_64.
    pose proof (Z.pow_le_mono_r 2 UINTN_WIDTH 64). set (Max := if Type0 =? AllocateMaxAddress then M else MAX_ALLOC_ADDRESS).
    assert (0 <= Max < 2 ^ 64) as HMax by (unfold Max; destruct HM, (Type0 =? AllocateMaxAddress); lia).
    pose proof (find_and_convert T P s HT0 HT1 HP HPw HPb Hq Hlow Hsup Max HMax) as Hc.
    eapply wp_mono; [exact Hc|..].
    + intros r s' (Hr & Hg). done.
    + intros e s' (He & Hq' & Hev & Hn). done.
Qed.
End Result.

(** C20. CoreInternalAllocatePages returns pages that were free (or untested memory, which it makes
    available) and that nothing else uses: the pages returned have the size and the alignment asked for,
    are below the address asked for, get the type asked for and keep their attributes; the memory elsewhere keeps
    its type and attributes, but free memory may be taken for entries of the memory map.  Without such pages the
    status is EFI_OUT_OF_RESOURCES, or EFI_NOT_FOUND for an address, also if the range touches the bin of
    another type.  No ASSERT fails, mMapStack does not overflow and the function
    returns.  This is for allocatable types, a number of pages that with 16 more is at most 2^64 bytes, no free or untested
    memory below the alignment of the type unless that is the page size ([low_clear]), and entries of the memory map, or a free
    page for them, left ([Supply]); see below for what happens otherwise. *)
Theorem allocate_pages_exact `{!Platform, !PlatformOk, !PageConfig, !PageConfigOk} (Type0 T P M : Z) (s : PAGES) :
  allocatable T → 0 <= Type0 < MaxAllocateType → u64 M → 0 <= P → P + 16 < 2 ^ UINTN_WIDTH → (P + 16) * 2 ^ EFI_PAGE_SHIFT <= 2 ^ 64 →
  Quiet s → low_clear s (PageAlignment T) → Supply s (request_size T P) →
  AllocateSpec Type0 T P M s (CoreInternalAllocatePages Type0 T P (Some M) s).
Proof.
  intros. pose proof (wp_cases _ _ _ _ (AllocateSpec_wp Type0 T P M s ltac:(done) ltac:(done) ltac:(done) ltac:(done) ltac:(done) ltac:(done)
    ltac:(done) ltac:(done) ltac:(done))) as Hr. by destruct (CoreInternalAllocatePages _ _ _ _ _).
Qed.

(** ** Examples *)

Lemma allocate_pages_exact_witness :
  let run := @CoreInternalAllocatePages platform_x64 max_x64 AllocateAnyPages 5 3 (Some 0) sample_free in
  match run with Ok r s' => r = 0x1fc000 ∧ gMemoryMap s' = gMemoryMap sample_used | _ => False end ∧
  @AllocateSpec platform_x64 max_x64 AllocateAnyPages 5 3 0 sample_free run.
Proof.
  split; [by vm_compute|].
  apply (@allocate_pages_exact platform_x64 platform_x64_ok max_x64 config_x64_ok); try done.
  - split_and!; [done|by left|done..].
  - apply sample_free_quiet.
  - by left.
  - left. by apply Nat.leb_le; vm_compute.
Defined.

(** The size in bytes overflows for AllocateAnyPages and AllocateMaxAddress: the call for 2^52 + 1 pages succeeds
    with a single page. *)
Lemma allocate_pages_overflow :
  match @CoreInternalAllocatePages platform_x64 max_x64 AllocateAnyPages 4 (2 ^ 52 + 1) (Some 0) sample_free with
  | Ok r s' => r = 0x1fe000 ∧ map (λ e, (mm_Type (en_map e), mm_Start (en_map e), mm_End (en_map e))) (gMemoryMap s') =
      [(7, 0x100000, 0x1fdfff); (4, 0x1fe000, 0x1fffff)]
  | _ => False
  end.
Proof. by vm_compute. Qed.

(** With an alignment of 64 KB, free memory below that alignment makes the end of the range wrap around: the call fails
    although there is memory. *)
Lemma allocate_pages_low_memory :
  let low := pages_with [cell 0x1ff080 7 0x1000 0x7fff; cell 0x1ff040 7 0x100000 0x1fefff; cell 0x1ff000 4 0x1ff000 0x1fffff]
               [0x1ff0c0; 0x1ff100; 0x1ff140] [] in
  let ram := pages_with [cell 0x1ff040 7 0x100000 0x1fefff; cell 0x1ff000 4 0x1ff000 0x1fffff] [0x1ff0c0; 0x1ff100; 0x1ff140] [] in
  let max_aarch64 := {| MAX_ALLOC_ADDRESS := 2 ^ 48 - 1 |} in
  match @CoreInternalAllocatePages platform_strict max_aarch64 AllocateAnyPages 5 1 (Some 0) ram with Ok r _ => r = 0x1e0000 | _ => False end ∧
  match @CoreInternalAllocatePages platform_strict max_aarch64 AllocateAnyPages 5 1 (Some 0) low with Err e _ => e = RETURN_NOT_FOUND | _ => False end.
Proof. split; by vm_compute. Qed.

(** When a page of entries is needed and only untested memory is left, the entry of each region that is promoted is pushed
    to mMapStack, which has room for six: with four regions an ASSERT fails, and with five, without ASSERTs, an entry is
    written behind the array. *)
Lemma map_stack_overflow :
  let regions n := map (λ i, untested_space (0x200000 + Z.of_nat i * 0x2000) (0x200fff + Z.of_nat i * 0x2000)) (seq 0 n) in
  let full n := pages_with [{| en_cell := Page 0x2000; en_map := new_map 7 0 0x1fff 0xf |}; cell 0x2040 4 0x2000 0x2fff] [] (regions n) in
  @CoreInternalAllocatePages platform_x64 max_x64 AllocateAnyPages 3 1 (Some 0) (full 4%nat) = Fault AssertFailed ∧
  @CoreInternalAllocatePages platform_release max_x64 AllocateAnyPages 3 1 (Some 0) (full 5%nat) = Fault OutOfBounds.
Proof. split; by vm_compute. Qed.
