(* ===== verification/PageFree.v ===== *)
(** Page.c: CoreInternalFreePages makes pages free again. *)
From stdpp Require Import list.
From S2P Require Import Prelude Base Buffer Platform Overflow ImageRecord MemoryMap SplitTable SplitCoverage MemoryMerge GetMemoryMap PageAlloc PageMapSpec PageFind PageConvert PageStack PageServices PageSample PageAllocate.

Section Free.
Context `{!Platform, !PlatformOk, !PageConfig, !PageConfigOk}.

(** The memory from [St] to [En] is in use, and does not hold entries of the memory map. *)
Definition in_use (s : PAGES) (St En : Z) : Prop :=
  ∀ x, St <= x <= En → ¬ stored_at s x ∧ ∃ t a, pview s x = [(t, a)] ∧ t ≠ EfiConventionalMemory.

(** It has been freed. *)
Record Freed (s : PAGES) (St En : Z) (s' : PAGES) : Prop := {
  fr_quiet : Quiet s';
  fr_gcd : mGcdMemorySpaceMap s' = mGcdMemorySpaceMap s;
  fr_range : ∀ x, St <= x <= En → ∃ t a, pview s x = [(t, a)] ∧ grown [(EfiConventionalMemory, a)] (pview s' x);
  fr_rest : ∀ x, ¬ St <= x <= En → grown (pview s x) (pview s' x);
  fr_stored : ∀ p, stored_at s' p → stored_at s p ∨ St <= p <= En ∨ ∃ a, pview s p = [(EfiConventionalMemory, a)];
}.

(** An iteration, for the entry that [St] is in. *)
Lemma free_step s St En P :
  Quiet s → pages St En → 0 < St → En <= MAX_ALLOC_ADDRESS → in_use s St En →
  wp (RangeEnd ← ConvertRange St En P true EfiConventionalMemory 0; CoreFreeMemoryMapStack;; mret RangeEnd)
    (λ RangeEnd s', pages St RangeEnd ∧ RangeEnd <= En ∧ RangeEnd + 1 < 2 ^ 64 ∧ Freed s St RangeEnd s') (λ _ _, False) s.
Proof.
  intros [Hok Hd Hf] Hp HSt HEn Hu. pose proof Hp as (Hse & Hlt & Hsd & _).
  wp_step. eapply wp_mono; [apply (ConvertRange_spec St En P true EfiConventionalMemory 0); try done; [rewrite Hd; done|]|..].
  { right. intros p Hst Hx. by destruct (Hu p Hx). }
  2:{ intros e s' (_ & -> & [Hn|(_ & [(t & a & Hv & Hc)|(? & _)])]); [..|done];
      destruct (Hu St ltac:(lia)) as (_ & t' & a' & Hv' & Ht').
      - by rewrite Hn in Hv'.
      - rewrite Hv in Hv'. injection Hv' as -> ->. apply Hc. by intros _. }
  intros RE s1 (Hp1 & Hle & _ & t & a & Hconv & Hcv). cbn [new_type new_attribute] in Hcv.
  pose proof (cv_depth _ _ _ _ _ _ _ _ Hcv) as Hd1. pose proof (cv_freeing _ _ _ _ _ _ _ _ Hcv) as Hf1. pose proof Hp1 as (Hse1 & ? & _ & [q Hq]).
  pose proof (cv_after _ _ _ _ _ _ _ _ Hcv) as Hva. pose proof (cv_before _ _ _ _ _ _ _ _ Hcv) as Hvb.
  wp_step. eapply wp_mono; [apply CoreFreeMemoryMapStack_spec; [apply (cv_ok _ _ _ _ _ _ _ _ Hcv)|lia|unfold MAX_MAP_DEPTH; lia|]| |done].
  { right. split; [unfold MAX_MAP_DEPTH; lia|]. exists St, a. destruct Hsd as [r Hr]. unfold EFI_PAGE_SIZE, EFI_PAGE_SHIFT in *.
    split_and!; [lia|by exists r|lia|]. rewrite Hva, decide_True by lia. done. }
  intros _ s2 (Hok2 & Hd2 & Hset & _). wp_step. split_and!; [done|done| |].
  - apply (pview_bound s RE (t, a) Hok). rewrite Hvb by lia. left.
  - pose proof (se_grown _ _ Hset) as Hg. constructor.
    + constructor; [done|done|]. rewrite (se_freeing _ _ Hset). lia.
    + by rewrite (se_gcd _ _ Hset), (cv_gcd _ _ _ _ _ _ _ _ Hcv).
    + intros x Hx. exists t, a. split; [by apply Hvb|]. specialize (Hg x). by rewrite Hva, decide_True in Hg by lia.
    + intros x Hx. specialize (Hg x). by rewrite Hva, decide_False in Hg by lia.
    + intros p [Hst|[b Hb]]%(se_stored _ _ Hset); [left; by apply (cv_stored _ _ _ _ _ _ _ _ Hcv)|right].
      rewrite Hva in Hb. case_decide as Hx; [left; lia|right; by exists b].
Qed.

(** Memory that is in use stays so while other memory is freed. *)
Lemma in_use_freed s St RE s' En : St <= RE + 1 → Freed s St RE s' → in_use s St En → in_use s' (RE + 1) En.
Proof.
  intros Hle Hfr Hu x Hx. destruct (Hu x ltac:(lia)) as (Hns & t & a & Hv & Ht).
  assert (pview s x ≠ [(EfiConventionalMemory, a)]) as Hnc by (rewrite Hv; by intros [= ?]). split.
  - intros [?|[?|[b Hb]]]%(fr_stored _ _ _ _ Hfr); [done|lia|]. rewrite Hv in Hb. by injection Hb.
  - exists t, a. split; [|done]. destruct (fr_rest _ _ _ _ Hfr x ltac:(lia)) as [->|(b & Hb & _)]; [done|]. rewrite Hv in Hb. by injection Hb.
Qed.

Lemma Freed_trans s St RE s1 En s2 : St <= RE + 1 → RE <= En → in_use s St En → Freed s St RE s1 → Freed s1 (RE + 1) En s2 → Freed s St En s2.
Proof.
  intros Hle1 Hle2 Hu Hf1 Hf2. constructor.
  - apply (fr_quiet _ _ _ _ Hf2).
  - by rewrite (fr_gcd _ _ _ _ Hf2), (fr_gcd _ _ _ _ Hf1).
  - intros x Hx. destruct (decide (x <= RE)).
    + destruct (fr_range _ _ _ _ Hf1 x ltac:(lia)) as (t & a & Hv & Hg). exists t, a. split; [done|].
      etransitivity; [exact Hg|]. apply (fr_rest _ _ _ _ Hf2). lia.
    + destruct (fr_range _ _ _ _ Hf2 x ltac:(lia)) as (t & a & Hv & Hg). exists t, a. split; [|done].
      destruct (Hu x Hx) as (_ & t' & a' & Hv' & Ht'). destruct (fr_rest _ _ _ _ Hf1 x ltac:(lia)) as [Heq|(b & Hb & _)]; [by rewrite <- Heq|].
      rewrite Hv' in Hb. by injection Hb.
  - intros x Hx. etransitivity; [apply (fr_rest _ _ _ _ Hf1); lia|]. apply (fr_rest _ _ _ _ Hf2). lia.
  - intros p [Hst|[Hx|[a Ha]]]%(fr_stored _ _ _ _ Hf2).
    + apply (fr_stored _ _ _ _ Hf1) in Hst as [?|[?|?]]; [by left|right; left; lia|by right; right].
    + right; left. lia.
    + destruct (decide (St <= p <= RE)); [right; left; lia|]. right; right.
      destruct (fr_rest _ _ _ _ Hf1 p ltac:(lia)) as [Heq|(b & Hb & _)]; [exists a; by rewrite <- Heq|by exists b].
Qed.

Lemma free_loop fuel : ∀ s St En P,
  Quiet s → pages St En → 0 < St → En <= MAX_ALLOC_ADDRESS → in_use s St En → (En - St) / EFI_PAGE_SIZE + 2 <= Z.of_nat fuel →
  wp (ConvertPages_loop CoreFreeMemoryMapStack fuel St En P true EfiConventionalMemory 0) (λ _, Freed s St En) (λ _ _, False) s.
Proof.
  induction fuel as [|fuel IH]; intros s St En P Hq Hp HSt HEn Hu Hfuel; pose proof Hp as (Hse & Hlt & Hsd & Hed).
  { assert (0 <= (En - St) / EFI_PAGE_SIZE) by (apply Z.div_pos; unfold EFI_PAGE_SIZE; lia). lia. }
  cbn [ConvertPages_loop]. wp_step; [|lia].
  pose proof (free_step s St En P Hq Hp HSt HEn Hu) as Hstep. apply wp_bind_inv in Hstep. wp_step.
  eapply wp_mono; [exact Hstep| |done]. intros RE s1 Hstep1. cbn beta in Hstep1. apply wp_bind_inv in Hstep1. wp_step.
  eapply wp_mono; [exact Hstep1| |done]. intros [] s2 Hret. pose proof (wp_ok _ _ _ _ RE s2 Hret eq_refl) as (Hp1 & Hle & Hw & Hfr).
  pose proof Hp1 as (Hse1 & _ & _ & Hd1). rewrite (wrap_small 64 (RE + 1)) by (split; lia).
  destruct (decide (RE = En)) as [->|Hne].
  - destruct fuel as [|fuel']; [assert (0 <= (En - St) / EFI_PAGE_SIZE) by (apply Z.div_pos; unfold EFI_PAGE_SIZE; lia); lia|].
    cbn [ConvertPages_loop]. wp_step; [lia|]. by wp_step.
  - assert (pages (RE + 1) En) as Hp2.
    { split_and!; try done; try lia. destruct Hd1 as [q Hq'], Hed as [r Hr]. unfold EFI_PAGE_SHIFT in *. lia. }
    eapply wp_mono; [apply (IH s2 (RE + 1) En P); [apply (fr_quiet _ _ _ _ Hfr)|done|lia|done|apply (in_use_freed s St RE); [lia|done|done]|]| |done].
    + destruct Hsd as [a Ha], Hd1 as [b Hb], Hed as [c Hc]. unfold EFI_PAGE_SIZE, EFI_PAGE_SHIFT in *.
      replace (En - (RE + 1)) with ((c - b - 1) * 0x1000 + 0xFFF) by lia. replace (En - St) with ((c - a - 1) * 0x1000 + 0xFFF) in Hfuel by lia.
      rewrite Z.div_add_l in * by lia. change (0xFFF / 0x1000) with 0 in *. lia.
    + intros ? s3 Hfr2. apply (Freed_trans s St RE s2 En s3); done || lia.
Qed.

(** ** The result *)

Lemma FindCover_pages s x : PagesOk s → (2 ^ EFI_PAGE_SHIFT | x) →
  wp (FindCover (gMemoryMap s) x) (λ o s', s' = s ∧ match o with
    | Some e => e ∈ gMemoryMap s ∧ pview s x = [(mm_Type (en_map e), mm_Attribute (en_map e))]
    | None => pview s x = [] end) (λ _ _, False) s.
Proof.
  intros Hok Hx. pose proof (ok_entries _ _ _ _ (po_map _ Hok)) as Hent. eapply wp_mono; [by apply (FindCover_spec _ _ _ (λ _ _, False))| |done].
  intros [e|] s' [-> Ho]; (split; [done|]).
  - destruct Ho as [He Hcov]. split; [done|]. apply pview_entry; [done|done|split; lia].
  - destruct (pview s x) as [|[t a] l] eqn:Hv; [done|]. exfalso.
    assert ((t, a) ∈ pview s x) as Hin by (rewrite Hv; left). apply mview_elem in Hin as (e & He & Hin & _). apply (Ho e He).
    destruct (proj1 (list.Forall_forall _ _) Hent e He) as [Heo _]. destruct (eo_range _ _ Heo) as (? & ? & ? & [r Hr]). destruct Hx as [q Hq].
    unfold in_map, EFI_PAGE_SHIFT in *. lia.
Qed.

(** A call that fails before it has changed anything. *)
Lemma wp_unchanged {A} (m : PageM A) e s : wp m (λ _ _, False) (λ e' s', e' = e ∧ s' = s) s → m s = Err e s.
Proof. intros Hm%wp_cases. destruct (m s); [done| |done]. by destruct Hm as [-> ->]. Qed.

(** No entry covers the address. *)
Lemma free_uncovered M P s :
  PagesOk s → (∀ e, e ∈ gMemoryMap s → ¬ mm_Start (en_map e) <= M < mm_End (en_map e)) → CoreInternalFreePages M P s = Err RETURN_NOT_FOUND s.
Proof.
  intros Hok Hn. apply wp_unchanged. unfold CoreInternalFreePages. do 3 wp_step.
  eapply wp_mono; [apply (FindCover_spec _ _ _ (λ _ _, False)), (ok_entries _ _ _ _ (po_map _ Hok))| |done].
  intros [e|] s' [-> Ho]; [destruct Ho as [He Hc]; by apply Hn in Hc|]. by wp_step.
Qed.

Lemma aligned_land M T : Z.land M (PageAlignment T - 1) = 0 ↔ (PageAlignment T | M).
Proof.
  destruct (PageAlignment_pow T) as (k & Hk & Hal). rewrite Hal, land_mask by lia. apply Z.mod_divide. destruct Hk as [->| ->]; done.
Qed.

Lemma pages_of M R : (2 ^ EFI_PAGE_SHIFT | M) → 0 <= M → 0 < R → M + R * 2 ^ EFI_PAGE_SHIFT - 1 < 2 ^ 64 → pages M (M + R * 2 ^ EFI_PAGE_SHIFT - 1).
Proof.
  intros [m Hm] ? ? ?. unfold pages. unfold EFI_PAGE_SHIFT in *. split_and!; [lia|lia|lia|by exists m|exists (m + R); lia].
Qed.

Section Call.
Context (M P t a : Z) (s : PAGES).
Context (Hq : Quiet s) (HM : (2 ^ EFI_PAGE_SHIFT | M)) (Hv : pview s M = [(t, a)]).
Context (HP : 0 < P) (HPw : P + 16 < 2 ^ UINTN_WIDTH) (HPb : (P + 16) * 2 ^ EFI_PAGE_SHIFT <= 2 ^ 64).

Lemma wp_CoreInternalFreePages (Q : Z → PAGES → Prop) E :
  (¬ (PageAlignment t | M) → E RETURN_INVALID_PARAMETER s) →
  ((PageAlignment t | M) →
   wp (CoreConvertPages CoreFreeMemoryMapStack M (RoundPages P (PageAlignment t)) EfiConventionalMemory) (λ _ s', Q t s') E s) →
  wp (CoreInternalFreePages M P) Q E s.
Proof.
  intros He Hc. unfold CoreInternalFreePages. do 3 wp_step. eapply wp_mono; [by apply FindCover_pages; [apply (qu_ok _ Hq)|]| |done].
  intros [e|] s' [-> Ho]; [|by rewrite Hv in Ho]. destruct Ho as [_ Ho]. rewrite Hv in Ho. injection Ho as <- _.
  wp_step. wp_step; [intros Hl; apply He; rewrite <- aligned_land; lia|]. wp_step. eapply wp_mono; [apply Hc; apply aligned_land; lia| |done].
  intros ? s' HQ. by wp_step.
Qed.

Lemma CoreInternalFreePages_spec :
  0 < M → (PageAlignment t | M) → M + request_size t P - 1 <= MAX_ALLOC_ADDRESS → in_use s M (M + request_size t P - 1) →
  wp (CoreInternalFreePages M P) (λ t' s', t' = t ∧ Freed s M (M + request_size t P - 1) s') (λ _ _, False) s.
Proof.
  intros HM0 Hal HMax Hu. apply wp_CoreInternalFreePages; [done|]. intros _.
  destruct (request_bounds t P ltac:(lia) HPw HPb) as (HR & HN & _ & [q HNd]). unfold request_size in *.
  destruct (PageAlignment_pow t) as (k & Hk & Hp). destruct (RoundPages_spec P k Hk ltac:(lia) HPw) as [Hr _]. rewrite <- Hp in Hr.
  set (R := RoundPages P (PageAlignment t)) in *. destruct config_max as (Hm1 & _). pose proof UINTN_WIDTH_64. pose proof (Z.pow_le_mono_r 2 UINTN_WIDTH 64).
  assert (pages M (M + R * 2 ^ EFI_PAGE_SHIFT - 1)) as Hpg.
  { apply pages_of; [done|lia|lia|lia]. }
  apply wp_CoreConvertPages; [lia|done|done|]. eapply wp_mono; [apply free_loop; try done| |done].
  - replace (M + R * 2 ^ EFI_PAGE_SHIFT - 1 - M) with (R * 2 ^ EFI_PAGE_SHIFT - 1) by lia.
    assert (0 <= (R * 2 ^ EFI_PAGE_SHIFT - 1) / EFI_PAGE_SIZE) by (apply Z.div_pos; unfold EFI_PAGE_SIZE, EFI_PAGE_SHIFT; lia). lia.
  - intros ? s' Hf. done.
Qed.

(** Pages that are free already. *)
Lemma double_free_spec :
  t = EfiConventionalMemory → M + request_size t P - 1 < 2 ^ 64 →
  wp (CoreInternalFreePages M P) (λ _ _, False) (λ e' s', e' = RETURN_NOT_FOUND ∧ s' = s) s.
Proof.
  intros Ht Hend. assert (PageAlignment t = EFI_PAGE_SIZE) as Hal by (rewrite Ht; apply config_default).
  apply wp_CoreInternalFreePages; [rewrite Hal; done|]. intros _.
  destruct (request_bounds t P ltac:(lia) HPw HPb) as (HR & HN & _ & [q HNd]). unfold request_size in *.
  destruct (PageAlignment_pow t) as (k & Hk & Hp). destruct (RoundPages_spec P k Hk ltac:(lia) HPw) as [Hr _]. rewrite <- Hp in Hr.
  set (R := RoundPages P (PageAlignment t)) in *.
  destruct (pview_bound s M (t, a) (qu_ok _ Hq)) as [HM0 _]; [rewrite Hv; left|].
  assert (pages M (M + R * 2 ^ EFI_PAGE_SHIFT - 1)) as Hpg.
  { apply pages_of; [done|lia|lia|lia]. }
  apply wp_CoreConvertPages; [lia|done|done|]. destruct (convert_fuel R ltac:(lia)) as [n ->].
  cbn [ConvertPages_loop]. wp_step; [|destruct Hpg; lia]. wp_step.
  eapply (wp_mono _ (λ _ _, False)); [|done|intros e s' He; exact He].
  pose proof (qu_ok _ Hq) as Hok. unfold ConvertRange. do 3 wp_step. eapply wp_mono; [by apply FindCover_pages| |done].
  intros [e|] s1 [-> Ho]; [|by rewrite Hv in Ho]. destruct Ho as [_ Ho]. rewrite Hv, Ht in Ho. injection Ho as HT _.
  cbn [andb negb Z.eqb EfiConventionalMemory Pos.eqb fail_if]. wp_step. wp_step. do 2 wp_step. rewrite <- HT. cbn. by wp_step.
Qed.
End Call.
End Free.

(** C21. CoreInternalFreePages makes the pages free, if they are in use and do not hold entries of the memory map:
    each page of the range, which may be in several entries of the map, keeps its attributes and becomes free memory
    (which may be taken at once for entries of the memory map); the memory elsewhere keeps its type and attributes.  No
    ASSERT fails, mMapStack does not overflow, however many free entries there are, and the function returns. *)
Theorem free_pages_exact `{!Platform, !PlatformOk, !PageConfig, !PageConfigOk} (M P t a : Z) (s : PAGES) :
  Quiet s → pview s M = [(t, a)] → 0 < M → (PageAlignment t | M) → 0 < P → P + 16 < 2 ^ UINTN_WIDTH → (P + 16) * 2 ^ EFI_PAGE_SHIFT <= 2 ^ 64 →
  M + request_size t P - 1 <= MAX_ALLOC_ADDRESS → in_use s M (M + request_size t P - 1) →
  match CoreInternalFreePages M P s with
  | Ok t' s' => t' = t ∧ Freed s M (M + request_size t P - 1) s'
  | _ => False
  end.
Proof.
  intros Hq Hv HM Hal HP HPw HPb HMax Hu. apply (wp_cases _ (λ t' s', t' = t ∧ Freed s M (M + request_size t P - 1) s') (λ _ _, False)).
  apply (CoreInternalFreePages_spec M P t a s); try done. destruct (PageAlignment_pow t) as (k & Hk & Hp). rewrite Hp in Hal.
  etransitivity; [|exact Hal]. by destruct Hk as [->| ->]; apply Z.mod_divide.
Qed.

(** C22. CoreInternalFreePages changes nothing and fails, whatever the address: with EFI_NOT_FOUND if there is no memory there, and
    at the last byte of an entry of the memory map; with EFI_INVALID_PARAMETER at every other address that is not aligned the way
    memory of its type is allocated; and with EFI_NOT_FOUND if the page at an aligned address is free already (for a number of
    pages whose size, rounded up, does not wrap, and that do not reach behind the last address). *)
Theorem free_pages_errors `{!Platform, !PlatformOk, !PageConfig, !PageConfigOk} (M P : Z) (s : PAGES) :
  Quiet s →
  (pview s M = [] → CoreInternalFreePages M P s = Err RETURN_NOT_FOUND s) ∧
  (∀ e, e ∈ gMemoryMap s → mm_End (en_map e) = M → CoreInternalFreePages M P s = Err RETURN_NOT_FOUND s) ∧
  (∀ t a, pview s M = [(t, a)] → (∀ e, e ∈ gMemoryMap s → mm_End (en_map e) ≠ M) → ¬ (PageAlignment t | M) →
     CoreInternalFreePages M P s = Err RETURN_INVALID_PARAMETER s) ∧
  (∀ a, pview s M = [(EfiConventionalMemory, a)] → (2 ^ EFI_PAGE_SHIFT | M) → 0 < P → P + 16 < 2 ^ UINTN_WIDTH →
     (P + 16) * 2 ^ EFI_PAGE_SHIFT <= 2 ^ 64 → M + request_size EfiConventionalMemory P - 1 < 2 ^ 64 →
     CoreInternalFreePages M P s = Err RETURN_NOT_FOUND s).
Proof.
  intros Hq. pose proof (qu_ok _ Hq) as Hok. split_and!.
  - intros Hv. apply free_uncovered; [done|]. intros e He Hc. by rewrite (pview_entry s e M Hok He) in Hv by (split; lia).
  - intros e He <-. apply free_uncovered; [done|]. intros e' He' Hc.
    destruct (proj1 (list.Forall_forall _ _) (ok_entries _ _ _ _ (po_map _ Hok)) e He) as [Heo _]. destruct (eo_range _ _ Heo) as (? & ? & _).
    assert (e = e') as -> by (apply (entry_unique s e e' (mm_End (en_map e))); try done; split; lia). lia.
  - intros t a Hv Hlast Hal. apply wp_unchanged. unfold CoreInternalFreePages. do 3 wp_step.
    eapply wp_mono; [apply (FindCover_spec _ _ _ (λ _ _, False)), (ok_entries _ _ _ _ (po_map _ Hok))| |done].
    intros [e|] s' [-> Ho]; [destruct Ho as [He Hc]|].
    + rewrite (pview_entry s e M Hok He) in Hv by (split; lia). injection Hv as <- <-.
      wp_step. apply wp_fail_if; [done|]. intros Hl. exfalso. apply Hal, aligned_land. lia.
    + exfalso. assert ((t, a) ∈ pview s M) as Hin by (rewrite Hv; left). apply mview_elem in Hin as (e & He & Hm & _). specialize (Ho e He). specialize (Hlast e He).
      unfold in_map in Hm. lia.
  - intros a Hv HM HP HPw HPb Hend. apply wp_unchanged. by apply (double_free_spec M P EfiConventionalMemory a s).
Qed.

(** ** Examples *)

Lemma free_pages_exact_witness :
  let run := @CoreInternalFreePages platform_x64 max_x64 0x1fc000 3 sample_used in
  match run with Ok t s' => t = 5 ∧ map (λ e, (mm_Type (en_map e), mm_Start (en_map e), mm_End (en_map e))) (gMemoryMap s') =
      [(7, 0x100000, 0x1fefff); (4, 0x1ff000, 0x1fffff)] | _ => False end ∧
  match run with Ok t s' => t = 5 ∧ @Freed platform_x64 max_x64 sample_used 0x1fc000 0x1fefff s' | _ => False end.
Proof.
  split; [by vm_compute|].
  apply (@free_pages_exact platform_x64 platform_x64_ok max_x64 config_x64_ok 0x1fc000 3 5 0xf sample_used); try done.
  - apply sample_used_quiet.
  - by exists 0x1fc.
  - change (request_size 5 3) with 0x3000. intros x Hx. split.
    + unfold stored_at. cbn. intros Hp. repeat (apply list.elem_of_cons in Hp as [[= ->]|Hp]; [lia|]). by apply elem_of_nil in Hp.
    + exists 5, 0xf. split; [view_cases|done].
Defined.

Lemma free_pages_errors_witness :
  @CoreInternalFreePages platform_x64 max_x64 0x300001 1 sample_used = Err RETURN_NOT_FOUND sample_used ∧
  @CoreInternalFreePages platform_x64 max_x64 0x1fbfff 1 sample_used = Err RETURN_NOT_FOUND sample_used ∧
  @CoreInternalFreePages platform_x64 max_x64 0x1fc010 1 sample_used = Err RETURN_INVALID_PARAMETER sample_used ∧
  @CoreInternalFreePages platform_x64 max_x64 0x1fb000 1 sample_used = Err RETURN_NOT_FOUND sample_used.
Proof.
  split_and!.
  - by apply (@free_pages_errors platform_x64 platform_x64_ok max_x64 config_x64_ok 0x300001 1 sample_used sample_used_quiet).
  - apply (proj1 (proj2 (@free_pages_errors platform_x64 platform_x64_ok max_x64 config_x64_ok 0x1fbfff 1 sample_used sample_used_quiet))
      (cell 0x1ff040 7 0x100000 0x1fbfff)); [left|done].
  - apply (proj1 (proj2 (proj2 (@free_pages_errors platform_x64 platform_x64_ok max_x64 config_x64_ok 0x1fc010 1 sample_used sample_used_quiet))) 5 0xf).
    + by vm_compute.
    + intros e He. cbn in He. repeat (apply list.elem_of_cons in He as [->|He]; [done|]). by apply elem_of_nil in He.
    + intros Hd. by apply Z.mod_divide in Hd.
  - apply (proj2 (proj2 (proj2 (@free_pages_errors platform_x64 platform_x64_ok max_x64 config_x64_ok 0x1fb000 1 sample_used sample_used_quiet))) 0xf);
      [by vm_compute|by exists 0x1fb|done..].
Defined.

(** When only the first pages of the range are in use, they are freed and the status is EFI_NOT_FOUND. *)
Lemma free_pages_partial :
  match @CoreInternalFreePages platform_x64 max_x64 0x1fc000 5 (set_gMemoryMap [cell 0x1ff040 7 0x100000 0x1fbfff; cell 0x1ff080 5 0x1fc000 0x1fdfff;
      cell 0x1ff0c0 7 0x1fe000 0x1fefff; cell 0x1ff000 4 0x1ff000 0x1fffff] sample_used) with
  | Err e s' => e = RETURN_NOT_FOUND ∧ map (λ e, (mm_Type (en_map e), mm_Start (en_map e), mm_End (en_map e))) (gMemoryMap s') =
      [(7, 0x100000, 0x1fefff); (4, 0x1ff000, 0x1fffff)]
  | _ => False
  end.
Proof. by vm_compute. Qed.
