(* ===== verification/PageBins.v ===== *)
(** Page.c: adding memory, and the bins that keep the memory of a type together. *)
From stdpp Require Import list.
From S2P Require Import Prelude Base Buffer Platform Overflow ImageRecord MemoryMap SplitTable SplitCoverage MemoryMerge GetMemoryMap PageAlloc PageMapSpec PageFind PageConvert PageStack PageServices PageSample.

Definition set_bin (Base Maximum Pages : Z) (st : EFI_MEMORY_TYPE_STATISTICS) : EFI_MEMORY_TYPE_STATISTICS :=
  {| st_BaseAddress := Base; st_MaximumAddress := Maximum; st_CurrentNumberOfPages := st_CurrentNumberOfPages st;
     st_NumberOfPages := Pages; st_InformationIndex := st_InformationIndex st; st_Special := st_Special st; st_Runtime := st_Runtime st |}.

Definition set_InformationIndex (v : Z) (st : EFI_MEMORY_TYPE_STATISTICS) : EFI_MEMORY_TYPE_STATISTICS :=
  {| st_BaseAddress := st_BaseAddress st; st_MaximumAddress := st_MaximumAddress st; st_CurrentNumberOfPages := st_CurrentNumberOfPages st;
     st_NumberOfPages := st_NumberOfPages st; st_InformationIndex := v; st_Special := st_Special st; st_Runtime := st_Runtime st |}.

Section Code.
Context `{!Platform, !PageConfig}.

(** [for (Index = 0; gMemoryTypeInformation[Index].Type != EfiMaxMemoryType; Index++)], from Index on, threading
    [acc]; [continue] for a type that is not valid. *)
Fixpoint information_loop {A} (fuel : nat) (Index : Z) (body : Z → EFI_MEMORY_TYPE_INFORMATION → A → PageM A) (acc : A) : PageM A :=
  match fuel with
  | O => crash OutOfBounds
  | S fuel =>
      s ← getS;
      match gMemoryTypeInformation s !! Z.to_nat Index with
      | None => crash OutOfBounds
      | Some mti =>
          if mti_Type mti =? EfiMaxMemoryType then mret acc
          else
            acc' ← (if EfiMaxMemoryType <? mti_Type mti then mret acc else body Index mti acc);
            information_loop fuel (Index + 1) body acc'
      end
  end.

Definition for_information {A} (body : Z → EFI_MEMORY_TYPE_INFORMATION → A → PageM A) (acc : A) : PageM A :=
  s ← getS; information_loop (length (gMemoryTypeInformation s)) 0 body acc.

(** EFI_PAGES_TO_SIZE (gMemoryTypeInformation[Index].NumberOfPages), on UINT32. *)
Definition BinSize (mti : EFI_MEMORY_TYPE_INFORMATION) : Z := wrap 32 (Z.shiftl (mti_NumberOfPages mti) EFI_PAGE_SHIFT).

Definition put_information (Index : Z) (mti : EFI_MEMORY_TYPE_INFORMATION) : PageM unit :=
  modify (λ s, set_gMemoryTypeInformation (<[Z.to_nat Index := mti]> (gMemoryTypeInformation s)) s).

(** The body of the loop that places the bins below Top. *)
Definition PlaceBin (Index : Z) (mti : EFI_MEMORY_TYPE_INFORMATION) (Top : Z) : PageM Z :=
  if mti_NumberOfPages mti =? 0 then mret Top
  else
    let Base := wrap 64 (Top - BinSize mti) in
    st ← get_bin (mti_Type mti);
    put_bin (mti_Type mti) (set_bin Base (wrap 64 (Top - 1)) (mti_NumberOfPages mti) st);;
    s ← getS;
    (if Base <? mDefaultMaximumAddress s then modify (set_mDefaultMaximumAddress (wrap 64 (Base - 1))) else mret tt);;
    put_information Index {| mti_Type := mti_Type mti; mti_NumberOfPages := 0 |};;
    mret Base.

(** The body of the loop over the types that ends the setup of the bins. *)
Definition FinishBin (Type0 : Z) (_ : unit) : PageM unit :=
  s ← getS;
  information_loop (length (gMemoryTypeInformation s)) 0 (λ Index mti _,
    if Type0 =? mti_Type mti then st ← get_bin Type0; put_bin Type0 (set_InformationIndex Index st) else mret tt) tt;;
  st ← get_bin Type0;
  s ← getS;
  put_bin Type0
    {| st_BaseAddress := st_BaseAddress st;
       st_MaximumAddress := if st_MaximumAddress st =? MAX_ALLOC_ADDRESS then mDefaultMaximumAddress s else st_MaximumAddress st;
       st_CurrentNumberOfPages := 0; st_NumberOfPages := st_NumberOfPages st; st_InformationIndex := st_InformationIndex st;
       st_Special := st_Special st; st_Runtime := st_Runtime st |}.

Definition FinishBins : PageM unit :=
  for_loop (Z.to_nat EfiMaxMemoryType) 0 FinishBin tt;;
  modify (set_mMemoryTypeInformationInitialized true).

Definition CoreSetMemoryTypeInformationRange (Start Length : Z) : PageM unit :=
  s ← getS;
  if mMemoryTypeInformationInitialized s then mret tt
  else
    Size ← for_information (λ _ mti Size, mret (wrapn (Size + BinSize mti))) 0;
    if Length <? Size then mret tt
    else
      for_information PlaceBin (wrap 64 (Start + Length));;
      FinishBins.

(** The loop that frees the bins allocated so far, for the entries before [n]; the addresses are reset. *)
Definition ReleaseBin (FreeIndex : Z) (_ : unit) : PageM unit :=
  s ← getS;
  match gMemoryTypeInformation s !! Z.to_nat FreeIndex with
  | None => crash OutOfBounds
  | Some mti =>
      if EfiMaxMemoryType <? mti_Type mti then mret tt
      else if mti_NumberOfPages mti =? 0 then mret tt
      else
        st ← get_bin (mti_Type mti);
        _ ← attempt (CoreInternalFreePages (st_BaseAddress st) (mti_NumberOfPages mti));
        st ← get_bin (mti_Type mti);
        put_bin (mti_Type mti) (set_bin 0 MAX_ALLOC_ADDRESS (st_NumberOfPages st) st)
  end.

(** The loop that allocates the bins; returns whether all were allocated.  The address of a bin is only
    written if it was allocated. *)
Fixpoint AllocateBins (fuel : nat) (Index : Z) : PageM bool :=
  match fuel with
  | O => crash OutOfBounds
  | S fuel =>
      s ← getS;
      match gMemoryTypeInformation s !! Z.to_nat Index with
      | None => crash OutOfBounds
      | Some mti =>
          if mti_Type mti =? EfiMaxMemoryType then mret true
          else if EfiMaxMemoryType <? mti_Type mti then AllocateBins fuel (Index + 1)
          else if mti_NumberOfPages mti =? 0 then AllocateBins fuel (Index + 1)
          else
            st ← get_bin (mti_Type mti);
            Status ← attempt (CoreInternalAllocatePages AllocateAnyPages (mti_Type mti) (mti_NumberOfPages mti) (Some (st_BaseAddress st)));
            match Status with
            | inl _ => for_loop (Z.to_nat Index) 0 ReleaseBin tt;; mret false
            | inr Base =>
                st ← get_bin (mti_Type mti);
                put_bin (mti_Type mti)
                  (set_bin Base (wrap 64 (Base + LShiftU64 (mti_NumberOfPages mti) EFI_PAGE_SHIFT - 1)) (st_NumberOfPages st) st);;
                s ← getS;
                (if Base <? mDefaultMaximumAddress s then modify (set_mDefaultMaximumAddress (wrap 64 (Base - 1))) else mret tt);;
                AllocateBins fuel (Index + 1)
            end
      end
  end.

(** The body of the loop that frees the memory of the bins for the allocations to come. *)
Definition OpenBin (Index : Z) (mti : EFI_MEMORY_TYPE_INFORMATION) (_ : unit) : PageM unit :=
  if mti_NumberOfPages mti =? 0 then mret tt
  else
    st ← get_bin (mti_Type mti);
    _ ← attempt (CoreInternalFreePages (st_BaseAddress st) (mti_NumberOfPages mti));
    st ← get_bin (mti_Type mti);
    put_bin (mti_Type mti) (set_bin (st_BaseAddress st) (st_MaximumAddress st) (mti_NumberOfPages mti) st);;
    put_information Index {| mti_Type := mti_Type mti; mti_NumberOfPages := 0 |}.

(** PcdLoadModuleAtFixAddressEnable is 0, its default; the protection policy that is applied to the memory is not part of
    this state. *)
Definition CoreAddMemoryDescriptor (Type0 Start NumberOfPages Attr : Z) : PageM unit :=
  if negb (Z.land Start EFI_PAGE_MASK =? 0) then mret tt
  else if (EfiMaxMemoryType <=? Type0) && (Type0 <? MEMORY_TYPE_OEM_RESERVED_MIN) then mret tt
  else
    CoreAddRange Type0 Start (wrap 64 (Start + LShiftU64 NumberOfPages EFI_PAGE_SHIFT - 1)) Attr;;
    CoreFreeMemoryMapStack;;
    s ← getS;
    if mMemoryTypeInformationInitialized s then mret tt
    else
      Allocated ← AllocateBins (length (gMemoryTypeInformation s)) 0;
      if negb Allocated then mret tt
      else
        for_information OpenBin tt;;
        FinishBins.
End Code.

(** ** The loops over gMemoryTypeInformation *)

(** The entries in use: those before the one that ends the array. *)
Record Terminated (l : list EFI_MEMORY_TYPE_INFORMATION) (n : nat) : Prop := {
  te_end : ∃ t, l !! n = Some t ∧ mti_Type t = EfiMaxMemoryType;
  te_entries : ∀ i mti, (i < n)%nat → l !! i = Some mti → 0 <= mti_Type mti ∧ mti_Type mti ≠ EfiMaxMemoryType ∧ 0 <= mti_NumberOfPages mti < 2 ^ 20;
}.

(** The bytes for the entries, of the types that are valid. *)
Definition bin_bytes (mti : EFI_MEMORY_TYPE_INFORMATION) : Z :=
  if EfiMaxMemoryType <? mti_Type mti then 0 else mti_NumberOfPages mti * 2 ^ EFI_PAGE_SHIFT.
Definition bin_total (l : list EFI_MEMORY_TYPE_INFORMATION) : Z := foldr (λ mti n, bin_bytes mti + n) 0 l.

Lemma bin_total_app l l' : bin_total (l ++ l') = bin_total l + bin_total l'.
Proof. unfold bin_total. induction l as [|m l IH]; cbn [foldr app]; [done|]. rewrite IH. lia. Qed.

Lemma bin_total_take_S l i mti : l !! i = Some mti → bin_total (take (S i) l) = bin_total (take i l) + bin_bytes mti.
Proof. intros Hi. rewrite (take_S_r _ _ _ Hi), bin_total_app. unfold bin_total at 2. cbn [foldr]. lia. Qed.

Lemma Terminated_lt l n : Terminated l n → (n < length l)%nat.
Proof. intros [(t & Ht & _) _]. by eapply lookup_lt_Some. Qed.

Lemma bin_bytes_nonneg l n i mti : Terminated l n → (i < n)%nat → l !! i = Some mti → 0 <= bin_bytes mti.
Proof. intros [_ Ht] Hi Hl. destruct (Ht i mti Hi Hl) as (_ & _ & ?). unfold bin_bytes, EFI_PAGE_SHIFT. case_match; lia. Qed.

Lemma bin_total_mono l n i j : Terminated l n → (i <= j <= n)%nat → bin_total (take i l) <= bin_total (take j l).
Proof.
  intros Ht [Hij Hjn]. induction Hij as [|j Hij IH]; [lia|]. destruct (lookup_lt_is_Some_2 l j) as [mti Hj]; [apply Terminated_lt in Ht; lia|].
  rewrite (bin_total_take_S _ _ _ Hj). pose proof (bin_bytes_nonneg l n j mti Ht ltac:(lia) Hj). specialize (IH ltac:(lia)). lia.
Qed.

Lemma BinSize_exact mti : 0 <= mti_NumberOfPages mti < 2 ^ 20 → BinSize mti = mti_NumberOfPages mti * 2 ^ EFI_PAGE_SHIFT.
Proof. intros Hn. unfold BinSize. rewrite Z.shiftl_mul_pow2 by done. apply wrap_small. change (2 ^ EFI_PAGE_SHIFT) with 4096. split; lia. Qed.

Section Loop.
Context {A : Type} (l : list EFI_MEMORY_TYPE_INFORMATION) (n : nat) (I : nat → A → PAGES → Prop) (E : RETURN_STATUS → PAGES → Prop).
Context (body : Z → EFI_MEMORY_TYPE_INFORMATION → A → PageM A) (Ht : Terminated l n).

(** The rule of the loop: the body does not change the entries still to come. *)
Lemma wp_information_loop fuel : ∀ i acc s,
  (∀ i acc s, I i acc s → drop i (gMemoryTypeInformation s) = drop i l) →
  (∀ i mti acc s, (i < n)%nat → l !! i = Some mti → I i acc s → EfiMaxMemoryType < mti_Type mti → I (S i) acc s) →
  (∀ i mti acc s, (i < n)%nat → l !! i = Some mti → I i acc s → 0 <= mti_Type mti < EfiMaxMemoryType → wp (body (Z.of_nat i) mti acc) (I (S i)) E s) →
  (i <= n < i + fuel)%nat → I i acc s → wp (information_loop fuel (Z.of_nat i) body acc) (I n) E s.
Proof.
  intros i acc s Hl Hskip Hbody. revert i acc s. induction fuel as [|fuel IH]; intros i acc s Hf HI; [lia|].
  cbn [information_loop]. do 2 wp_step. rewrite Nat2Z.id.
  assert (gMemoryTypeInformation s !! i = l !! i) as ->.
  { rewrite <- (Nat.add_0_r i), <- !lookup_drop. by rewrite (Hl _ _ _ HI). }
  destruct (lookup_lt_is_Some_2 l i) as [mti Hmti]; [apply Terminated_lt in Ht; lia|]. rewrite Hmti.
  destruct (decide (i = n)) as [->|Hne].
  { destruct Ht as [(t & Hn & Hty) _]. rewrite Hmti in Hn. injection Hn as ->. rewrite Hty, Z.eqb_refl. by wp_step. }
  destruct (te_entries _ _ Ht i mti ltac:(lia) Hmti) as (H0 & Hm & _). rewrite (proj2 (Z.eqb_neq _ _)) by done.
  replace (Z.of_nat i + 1) with (Z.of_nat (S i)) by lia. wp_step. destruct (Z.ltb_spec EfiMaxMemoryType (mti_Type mti)).
  - wp_step. apply IH; [lia|]. eapply Hskip; [|done|done|done]; lia.
  - eapply wp_mono; [eapply Hbody; [|done|done|]; lia| |done]. intros acc' s' HI'. apply IH; [lia|done].
Qed.
End Loop.

(** ** CoreSetMemoryTypeInformationRange *)

(** The end of the setup: the variables of the types, once each has its index. *)
Section Finish.
Context `{!Platform, !PlatformOk, !PageConfig}.
Context (s : PAGES) (l : list EFI_MEMORY_TYPE_INFORMATION) (n : nat).
Context (Hl : gMemoryTypeInformation s = l) (Ht : Terminated l n) (Hnd : NoDup (map mti_Type (take n l))).
Context (Hlen : length (mMemoryTypeStatistics s) = S (Z.to_nat EfiMaxMemoryType)).

Lemma type_inj i j mi mj : (i < n)%nat → (j < n)%nat → l !! i = Some mi → l !! j = Some mj → mti_Type mi = mti_Type mj → i = j.
Proof.
  intros Hi Hj Hli Hlj Heq. eapply (NoDup_lookup _ i j (mti_Type mi) Hnd); rewrite list_lookup_fmap, lookup_take_lt by done;
    [by rewrite Hli|by rewrite Hlj, Heq].
Qed.

(** The index of the type among the first [i] entries, [d] without one. *)
Definition index_of (i : nat) (T d : Z) : Z :=
  match list_find (λ m, mti_Type m = T) (take i l) with Some (j, _) => Z.of_nat j | None => d end.

Definition finished (T : Z) (st : EFI_MEMORY_TYPE_STATISTICS) : EFI_MEMORY_TYPE_STATISTICS :=
  {| st_BaseAddress := st_BaseAddress st;
     st_MaximumAddress := if st_MaximumAddress st =? MAX_ALLOC_ADDRESS then mDefaultMaximumAddress s else st_MaximumAddress st;
     st_CurrentNumberOfPages := 0; st_NumberOfPages := st_NumberOfPages st; st_InformationIndex := index_of n T (st_InformationIndex st);
     st_Special := st_Special st; st_Runtime := st_Runtime st |}.

Lemma index_of_S i m T d : (i < n)%nat → l !! i = Some m → index_of (S i) T d = if mti_Type m =? T then Z.of_nat i else index_of i T d.
Proof.
  intros Hi Hm. unfold index_of. pose proof (lookup_lt_Some _ _ _ Hm). rewrite (take_S_r _ _ _ Hm).
  destruct (list_find (λ m, mti_Type m = T) (take i l)) as [[j mj]|] eqn:Hf.
  - rewrite (list_find_app_l _ _ _ _ _ Hf). apply list_find_Some in Hf as (Hj & HTj & _).
    apply lookup_take_Some in Hj as [Hj Hji]. destruct (Z.eqb_spec (mti_Type m) T) as [He|]; [|done].
    f_equal. apply (type_inj j i mj m); [lia|done|done|done|congruence].
  - rewrite list_find_app_r by done. cbn [list_find]. rewrite length_take. case_decide as Hd; cbn.
    + rewrite (proj2 (Z.eqb_eq _ _)) by done. f_equal. lia.
    + by rewrite (proj2 (Z.eqb_neq _ _)).
Qed.

(** Only the statistics of the types before [T] differ. *)
Record Finished (T : Z) (s' : PAGES) : Prop := {
  fi_same : SameMap s s';
  fi_default : mDefaultMaximumAddress s' = mDefaultMaximumAddress s;
  fi_info : gMemoryTypeInformation s' = l;
  fi_length : length (mMemoryTypeStatistics s') = S (Z.to_nat EfiMaxMemoryType);
  fi_bins : ∀ T' st, 0 <= T' < T → mMemoryTypeStatistics s !! Z.to_nat T' = Some st → mMemoryTypeStatistics s' !! Z.to_nat T' = Some (finished T' st);
  fi_others : ∀ T', T <= T' → mMemoryTypeStatistics s' !! Z.to_nat T' = mMemoryTypeStatistics s !! Z.to_nat T';
}.

Lemma put_again T st st' s' : set_mMemoryTypeStatistics (<[T := st']> (mMemoryTypeStatistics (set_mMemoryTypeStatistics (<[T := st]> (mMemoryTypeStatistics s')) s')))
    (set_mMemoryTypeStatistics (<[T := st]> (mMemoryTypeStatistics s')) s') = set_mMemoryTypeStatistics (<[T := st']> (mMemoryTypeStatistics s')) s'.
Proof. unfold set_mMemoryTypeStatistics. cbn. by rewrite list_insert_insert_eq. Qed.

Lemma FinishBin_spec T s' E : 0 <= T < EfiMaxMemoryType → Finished T s' → wp (FinishBin T tt) (λ _, Finished (T + 1)) E s'.
Proof.
  intros HT Hf. pose proof (fi_length _ _ Hf) as Hlen'. unfold FinishBin. do 2 wp_step.
  destruct (lookup_lt_is_Some_2 (mMemoryTypeStatistics s') (Z.to_nat T)) as [st Hst]; [lia|].
  set (indexed i := set_mMemoryTypeStatistics (<[Z.to_nat T := set_InformationIndex (index_of i T (st_InformationIndex st)) st]> (mMemoryTypeStatistics s')) s').
  assert (∀ i, mMemoryTypeStatistics (indexed i) !! Z.to_nat T = Some (set_InformationIndex (index_of i T (st_InformationIndex st)) st)) as Hix.
  { intros i. cbn. apply list_lookup_insert_eq. lia. }
  assert (∀ i m, (i < n)%nat → l !! i = Some m → indexed (S i) = if mti_Type m =? T
    then set_mMemoryTypeStatistics (<[Z.to_nat T := set_InformationIndex (Z.of_nat i) st]> (mMemoryTypeStatistics s')) s' else indexed i) as HS.
  { intros i m Hi Hm. unfold indexed. rewrite (index_of_S i m) by done. by case_match. }
  wp_step. eapply wp_mono; [apply (wp_information_loop l n (λ i (_ : unit) s2, s2 = indexed i) E _ Ht _ 0)| |done].
  - intros i [] ? ->. cbn. by rewrite (fi_info _ _ Hf).
  - intros i m [] ? Hi Hm -> HTm. rewrite (HS i m Hi Hm). by rewrite (proj2 (Z.eqb_neq _ _)) by lia.
  - intros i m [] ? Hi Hm -> HTm. rewrite Z.eqb_sym, (HS i m Hi Hm).
    destruct (Z.eqb_spec (mti_Type m) T); wp_step; [|done]. apply (wp_get_bin _ _ _ _ _ (Hix i)). unfold put_bin. wp_step.
    unfold indexed. by rewrite put_again.
  - rewrite (fi_info _ _ Hf). pose proof (Terminated_lt _ _ Ht). lia.
  - unfold indexed. destruct s', st. cbn in *. unfold set_mMemoryTypeStatistics, set_InformationIndex. cbn. by rewrite list_insert_id.
  - intros [] ? ->. wp_step. apply (wp_get_bin _ _ _ _ _ (Hix n)). do 2 wp_step. unfold put_bin. wp_step. unfold indexed at 2 3. rewrite put_again.
    cbn [indexed mDefaultMaximumAddress set_mMemoryTypeStatistics set_InformationIndex st_BaseAddress st_MaximumAddress st_NumberOfPages st_InformationIndex st_Special st_Runtime].
    destruct Hf as [F1 F2 F3 F4 F5 F6]. rewrite F6 in Hst by lia. constructor; cbn; [by etransitivity; [|constructor]|done|done|by rewrite length_insert|..].
    + intros T' st' HT' Hst'. destruct (decide (T' = T)) as [->|Hne]; [|rewrite list_lookup_insert_ne by lia; apply F5; [lia|done]].
      rewrite Hst in Hst'. injection Hst' as <-. rewrite list_lookup_insert_eq by lia. unfold finished. by rewrite F2.
    + intros T' HT'. rewrite list_lookup_insert_ne by lia. apply F6. lia.
Qed.

Lemma FinishBins_spec E : wp FinishBins (λ _ s', Finished EfiMaxMemoryType s' ∧ mMemoryTypeInformationInitialized s' = true) E s.
Proof.
  unfold FinishBins. wp_step. eapply wp_mono; [apply (wp_for_loop (λ i _, Finished i)) with (i := 0)| |done].
  - constructor; try done. intros; lia.
  - intros i [] s' Hi HF. apply FinishBin_spec; [lia|done].
  - intros [] s' HF. wp_step. destruct HF as [F1 ? ? ? ? ?]. split; [|done]. constructor; try done. by destruct F1.
Qed.
End Finish.

Section Range.
Context `{!Platform, !PlatformOk, !PageConfig, !PageConfigOk}.
Context (s : PAGES) (l : list EFI_MEMORY_TYPE_INFORMATION) (n : nat) (Top : Z).
Context (Hl : gMemoryTypeInformation s = l) (Ht : Terminated l n) (Hnd : NoDup (map mti_Type (take n l))).
Context (Hlen : length (mMemoryTypeStatistics s) = S (Z.to_nat EfiMaxMemoryType)).
Context (Hmax : mDefaultMaximumAddress s = MAX_ALLOC_ADDRESS) (HT : Top <= MAX_ALLOC_ADDRESS) (Htot : bin_total (take n l) < Top).

Definition cleared_info (m : EFI_MEMORY_TYPE_INFORMATION) : EFI_MEMORY_TYPE_INFORMATION :=
  if EfiMaxMemoryType <? mti_Type m then m else {| mti_Type := mti_Type m; mti_NumberOfPages := 0 |}.

(** What the bin of the entry [i] is made. *)
Definition placed_bin (i : nat) (mti : EFI_MEMORY_TYPE_INFORMATION) (st : EFI_MEMORY_TYPE_STATISTICS) : EFI_MEMORY_TYPE_STATISTICS :=
  if mti_NumberOfPages mti =? 0 then st
  else set_bin (Top - bin_total (take (S i) l)) (Top - bin_total (take i l) - 1) (mti_NumberOfPages mti) st.

(** The first [i] bins are placed. *)
Record Placed (i : nat) (acc : Z) (s' : PAGES) : Prop := {
  pl_top : acc = Top - bin_total (take i l);
  pl_same : SameMap s s';
  pl_init : mMemoryTypeInformationInitialized s' = mMemoryTypeInformationInitialized s;
  pl_default : mDefaultMaximumAddress s' = if bin_total (take i l) =? 0 then MAX_ALLOC_ADDRESS else Top - bin_total (take i l) - 1;
  pl_info : gMemoryTypeInformation s' = map cleared_info (take i l) ++ drop i l;
  pl_length : length (mMemoryTypeStatistics s') = S (Z.to_nat EfiMaxMemoryType);
  pl_bins : ∀ j mti st, (j < i)%nat → l !! j = Some mti → mti_Type mti < EfiMaxMemoryType →
    mMemoryTypeStatistics s !! Z.to_nat (mti_Type mti) = Some st → mMemoryTypeStatistics s' !! Z.to_nat (mti_Type mti) = Some (placed_bin j mti st);
  pl_others : ∀ T, 0 <= T → (∀ j mti, (j < i)%nat → l !! j = Some mti → mti_Type mti ≠ T) →
    mMemoryTypeStatistics s' !! Z.to_nat T = mMemoryTypeStatistics s !! Z.to_nat T;
}.

Lemma cleared_info_take i mti : (i < n)%nat → l !! i = Some mti → map cleared_info (take (S i) l) ++ drop (S i) l =
  <[i := cleared_info mti]> (map cleared_info (take i l) ++ drop i l).
Proof.
  clear Hlen. intros Hi Hm. pose proof (lookup_lt_Some _ _ _ Hm). rewrite (take_S_r _ _ _ Hm), map_app, (drop_S _ _ _ Hm).
  rewrite insert_app_r_alt by (rewrite length_map, length_take; lia). rewrite length_map, length_take.
  replace (i - i `min` length l)%nat with 0%nat by lia. cbn. by rewrite <- app_assoc.
Qed.

Lemma info_tail i mti : l !! i = Some mti → (map cleared_info (take i l) ++ drop i l) !! i = Some mti.
Proof.
  clear Hlen. intros Hm. pose proof (lookup_lt_Some _ _ _ Hm). rewrite lookup_app_r; rewrite length_map, length_take; [|lia].
  rewrite lookup_drop. by replace (i + (i - i `min` length l))%nat with i by lia.
Qed.

Lemma Placed_start : Placed 0 Top s.
Proof. constructor; cbn; try done; [by rewrite Z.sub_0_r|intros; lia]. Qed.

(** An entry without pages. *)
Lemma Placed_skip i mti acc s' : (i < n)%nat → l !! i = Some mti → bin_bytes mti = 0 → Placed i acc s' → Placed (S i) acc s'.
Proof.
  intros Hi Hm Hb [K1 K2 K3 K4 K5 K6 K7 K8]. pose proof (bin_total_take_S l i mti Hm) as Htk. rewrite Hb, Z.add_0_r in Htk.
  destruct (te_entries _ _ Ht i mti Hi Hm) as (HT0 & HTm & Hp).
  assert (EfiMaxMemoryType < mti_Type mti ∨ mti_NumberOfPages mti = 0) as Hz.
  { unfold bin_bytes, EFI_PAGE_SHIFT in Hb. destruct (Z.ltb_spec EfiMaxMemoryType (mti_Type mti)); [by left|right; lia]. }
  assert (cleared_info mti = mti) as Hc.
  { unfold cleared_info. destruct (Z.ltb_spec EfiMaxMemoryType (mti_Type mti)); [done|]. destruct Hz as [?|Hz]; [lia|].
    destruct mti; cbn in *; by rewrite Hz. }
  constructor; rewrite ?Htk; try done.
  - rewrite (cleared_info_take i mti Hi Hm), Hc, K5, list_insert_id; [done|by apply info_tail].
  - intros j mj st Hj Hlj HTj Hst. destruct (decide (j = i)) as [->|Hne]; [|by apply K7; [lia|..]].
    rewrite Hm in Hlj. injection Hlj as <-. rewrite K8; [|done|].
    + rewrite Hst. unfold placed_bin. destruct Hz as [?| ->]; [lia|done].
    + intros j' mj' Hj' Hlj' Heq. pose proof (type_inj l n Hnd j' i mj' mti ltac:(lia) Hi Hlj' Hm Heq). lia.
  - intros T HT0' Hno. apply K8; [done|]. intros j mj Hj. apply Hno. lia.
Qed.

(** The variables once the bin of the entry [i] is placed. *)
Lemma Placed_update i mti acc s' st s2 :
  (i < n)%nat → l !! i = Some mti → 0 <= mti_Type mti < EfiMaxMemoryType → mti_NumberOfPages mti ≠ 0 → Placed i acc s' →
  mMemoryTypeStatistics s !! Z.to_nat (mti_Type mti) = Some st →
  SameMap s' s2 → mMemoryTypeInformationInitialized s2 = mMemoryTypeInformationInitialized s' →
  mDefaultMaximumAddress s2 = Top - bin_total (take (S i) l) - 1 →
  gMemoryTypeInformation s2 = <[i := cleared_info mti]> (gMemoryTypeInformation s') →
  mMemoryTypeStatistics s2 = <[Z.to_nat (mti_Type mti) := placed_bin i mti st]> (mMemoryTypeStatistics s') →
  Placed (S i) (Top - bin_total (take (S i) l)) s2.
Proof.
  intros Hi Hm HTy Hnz [_ K2 K3 _ K5 K6 K7 K8] Hst E1 E2 E3 E4 E5. pose proof (te_entries _ _ Ht i mti Hi Hm) as (_ & _ & Hp).
  pose proof (bin_total_take_S l i mti Hm) as Htk. pose proof (bin_total_mono l n 0 i Ht ltac:(lia)) as Hm0. change (bin_total (take 0 l)) with 0 in Hm0.
  assert (0 < bin_bytes mti) by (unfold bin_bytes; rewrite (proj2 (Z.ltb_ge _ _)) by lia; change (2 ^ EFI_PAGE_SHIFT) with 4096; lia).
  constructor; [done|by etransitivity|congruence|..].
  - rewrite E3, (proj2 (Z.eqb_neq _ _)) by lia. done.
  - by rewrite E4, K5, (cleared_info_take i mti Hi Hm).
  - by rewrite E5, length_insert.
  - intros j mj st' Hj Hlj HTj Hst'. rewrite E5. destruct (decide (j = i)) as [->|Hji].
    + rewrite Hm in Hlj. injection Hlj as <-. rewrite Hst in Hst'. injection Hst' as <-. apply list_lookup_insert_eq. lia.
    + rewrite list_lookup_insert_ne; [by apply K7; [lia|..]|]. intros Heq. pose proof (te_entries _ _ Ht j mj ltac:(lia) Hlj) as (? & _).
      apply Hji, (type_inj l n Hnd j i mj mti); [lia|done|done|done|lia].
  - intros T HT0 Hno. rewrite E5, list_lookup_insert_ne; [apply K8; [done|]; intros j mj Hj; apply Hno; lia|].
    specialize (Hno i mti ltac:(lia) Hm). lia.
Qed.

(** An entry with pages. *)
Lemma Placed_bin i mti acc s' E :
  (i < n)%nat → l !! i = Some mti → 0 <= mti_Type mti < EfiMaxMemoryType → Placed i acc s' →
  wp (PlaceBin (Z.of_nat i) mti acc) (Placed (S i)) E s'.
Proof.
  intros Hi Hm HTy HP. destruct (te_entries _ _ Ht i mti Hi Hm) as (_ & _ & Hp). unfold PlaceBin.
  assert (bin_bytes mti = mti_NumberOfPages mti * 2 ^ EFI_PAGE_SHIFT) as Hb by (unfold bin_bytes; by rewrite (proj2 (Z.ltb_ge _ _)) by lia).
  destruct (Z.eqb_spec (mti_NumberOfPages mti) 0) as [Hz|Hnz].
  { wp_step. eapply Placed_skip; [done|done| |done]. rewrite Hb, Hz. done. }
  pose proof (bin_total_take_S l i mti Hm) as Htk. rewrite Hb in Htk. rewrite BinSize_exact by done.
  pose proof (bin_total_mono l n 0 i Ht ltac:(lia)) as Hm0. pose proof (bin_total_mono l n (S i) n Ht ltac:(lia)) as Hm1. change (bin_total (take 0 l)) with 0 in Hm0.
  pose proof (pl_top _ _ _ HP) as K1. pose proof (pl_default _ _ _ HP) as K4. destruct config_max as (Hc1 & _). pose proof UINTN_WIDTH_64. pose proof (Z.pow_le_mono_r 2 UINTN_WIDTH 64 ltac:(done) ltac:(lia)).
  change (2 ^ EFI_PAGE_SHIFT) with 4096 in *. rewrite K1 in *.
  cbv zeta. rewrite (wrap_small 64 (Top - bin_total (take i l) - mti_NumberOfPages mti * 4096)), (wrap_small 64 (Top - bin_total (take i l) - 1)) by (split; lia).
  replace (Top - bin_total (take i l) - mti_NumberOfPages mti * 4096) with (Top - bin_total (take (S i) l)) by lia.
  rewrite (wrap_small 64 (Top - bin_total (take (S i) l) - 1)) by (split; lia).
  destruct (lookup_lt_is_Some_2 (mMemoryTypeStatistics s) (Z.to_nat (mti_Type mti))) as [st Hst]; [lia|].
  assert (∀ j mj, (j < i)%nat → l !! j = Some mj → mti_Type mj ≠ mti_Type mti) as Hne.
  { intros j mj Hj Hlj Heq. pose proof (type_inj l n Hnd j i mj mti ltac:(lia) Hi Hlj Hm Heq). lia. }
  assert (mMemoryTypeStatistics s' !! Z.to_nat (mti_Type mti) = Some st) as Hst' by (rewrite (pl_others _ _ _ HP); [done|lia|done]).
  wp_step. apply (wp_get_bin _ st); [done|]. wp_step. unfold put_bin at 1. wp_step. do 2 wp_step.
  cbn [mDefaultMaximumAddress set_mMemoryTypeStatistics]. rewrite (proj2 (Z.ltb_lt _ _)) by (rewrite K4; case_match; lia).
  wp_step. wp_step. wp_step. unfold put_information. wp_step. wp_step. cbn.
  apply (Placed_update i mti (Top - bin_total (take i l)) s' st); cbn; try done.
  - rewrite Nat2Z.id. unfold cleared_info. by rewrite (proj2 (Z.ltb_ge _ _)) by lia.
  - unfold placed_bin. by rewrite (proj2 (Z.eqb_neq _ _)).
Qed.

Lemma SizeLoop_spec E : bin_total (take n l) < 2 ^ UINTN_WIDTH →
  wp (for_information (λ _ mti Size, mret (wrapn (Size + BinSize mti))) 0) (λ Size s', Size = bin_total (take n l) ∧ s' = s) E s.
Proof.
  clear Hlen. intros Hw. unfold for_information. do 2 wp_step. pose proof (Terminated_lt _ _ Ht).
  eapply wp_mono; [apply (wp_information_loop l n (λ i Size s', Size = bin_total (take i l) ∧ s' = s) E _ Ht _ 0)| |done]; [..|done].
  - intros i ? ? [_ ->]. by rewrite Hl.
  - intros i m ? ? Hi Hm [-> ->] HTm. split; [|done]. rewrite (bin_total_take_S _ _ _ Hm). unfold bin_bytes. rewrite (proj2 (Z.ltb_lt _ _)) by lia. lia.
  - intros i m ? ? Hi Hm [-> ->] HTm. wp_step. split; [|done]. destruct (te_entries _ _ Ht i m Hi Hm) as (_ & _ & Hp).
    pose proof (bin_total_mono l n 0 i Ht ltac:(lia)) as Hm0. pose proof (bin_total_mono l n (S i) n Ht ltac:(lia)) as Hm1. change (bin_total (take 0 l)) with 0 in Hm0.
    rewrite (bin_total_take_S _ _ _ Hm) in *. rewrite BinSize_exact by done. unfold bin_bytes in *. rewrite (proj2 (Z.ltb_ge _ _)) in * by lia.
    change (2 ^ EFI_PAGE_SHIFT) with 4096 in *. apply wrap_small. split; lia.
  - rewrite Hl. lia.
  - done.
Qed.

Lemma PlaceBins_spec E : wp (for_information PlaceBin Top) (Placed n) E s.
Proof.
  unfold for_information. do 2 wp_step. pose proof (Terminated_lt _ _ Ht). apply (wp_information_loop l n Placed E _ Ht _ 0).
  - intros i acc s' HP. rewrite (pl_info _ _ _ HP), drop_app, drop_drop. rewrite drop_ge by (rewrite length_map, length_take; lia).
    rewrite length_map, length_take. cbn. destruct (decide (i <= length l)%nat); [f_equal; lia|]. rewrite !drop_ge by lia. done.
  - intros i m acc s' Hi Hm HP HTm. eapply Placed_skip; try done. unfold bin_bytes. by rewrite (proj2 (Z.ltb_lt _ _)) by lia.
  - intros i m acc s' Hi Hm HP HTm. by apply Placed_bin.
  - rewrite Hl. lia.
  - apply Placed_start.
Qed.

Lemma info_cleared : let l' := map cleared_info (take n l) ++ drop n l in
  Terminated l' n ∧ map mti_Type (take n l') = map mti_Type (take n l).
Proof.
  clear Hlen. cbv zeta. pose proof (Terminated_lt _ _ Ht). assert (length (map cleared_info (take n l)) = n) as Hn by (rewrite length_map, length_take; lia).
  assert (∀ m, mti_Type (cleared_info m) = mti_Type m) as Hty by (intros m; unfold cleared_info; by case_match).
  split; [constructor|].
  - destruct (te_end _ _ Ht) as (t & Hlt & Htt). exists t. split; [|done]. by apply info_tail.
  - intros i m' Hi Hm'. rewrite lookup_app_l, list_lookup_fmap, lookup_take_lt in Hm' by lia.
    destruct (l !! i) as [m|] eqn:Hm; [|done]. injection Hm' as <-. destruct (te_entries _ _ Ht i m Hi Hm) as (? & ? & ?). rewrite Hty.
    split_and!; [done|done|..]; unfold cleared_info; case_match; cbn; lia.
  - rewrite take_app_length' by done. rewrite map_map. by apply map_ext.
Qed.
End Range.

(** The bins are set up below [Top], for the first [n] entries of the array. *)
Record BinsSet `{!PageConfig} (s : PAGES) (n : nat) (Top : Z) (s' : PAGES) : Prop := {
  bs_map : SameMap s s';
  bs_ok : BinsOk s';
  bs_initialized : mMemoryTypeInformationInitialized s' = true;
  bs_info : gMemoryTypeInformation s' = map cleared_info (take n (gMemoryTypeInformation s)) ++ drop n (gMemoryTypeInformation s);
  bs_default : mDefaultMaximumAddress s' =
    if bin_total (take n (gMemoryTypeInformation s)) =? 0 then MAX_ALLOC_ADDRESS else Top - bin_total (take n (gMemoryTypeInformation s)) - 1;
  bs_bins : ∀ i mti st, (i < n)%nat → gMemoryTypeInformation s !! i = Some mti → mti_Type mti < EfiMaxMemoryType →
    mMemoryTypeStatistics s !! Z.to_nat (mti_Type mti) = Some st →
    mMemoryTypeStatistics s' !! Z.to_nat (mti_Type mti) = Some (
      if mti_NumberOfPages mti =? 0 then
        {| st_BaseAddress := st_BaseAddress st; st_MaximumAddress := mDefaultMaximumAddress s'; st_CurrentNumberOfPages := 0;
           st_NumberOfPages := st_NumberOfPages st; st_InformationIndex := Z.of_nat i; st_Special := st_Special st; st_Runtime := st_Runtime st |}
      else
        {| st_BaseAddress := Top - bin_total (take (S i) (gMemoryTypeInformation s));
           st_MaximumAddress := Top - bin_total (take i (gMemoryTypeInformation s)) - 1; st_CurrentNumberOfPages := 0;
           st_NumberOfPages := mti_NumberOfPages mti; st_InformationIndex := Z.of_nat i; st_Special := st_Special st; st_Runtime := st_Runtime st |});
  bs_others : ∀ T st, 0 <= T < EfiMaxMemoryType → (∀ i mti, (i < n)%nat → gMemoryTypeInformation s !! i = Some mti → mti_Type mti ≠ T) →
    mMemoryTypeStatistics s !! Z.to_nat T = Some st →
    mMemoryTypeStatistics s' !! Z.to_nat T = Some
      {| st_BaseAddress := st_BaseAddress st; st_MaximumAddress := mDefaultMaximumAddress s'; st_CurrentNumberOfPages := 0;
         st_NumberOfPages := st_NumberOfPages st; st_InformationIndex := st_InformationIndex st; st_Special := st_Special st; st_Runtime := st_Runtime st |};
}.

Section Result.
Context `{!Platform, !PlatformOk, !PageConfig, !PageConfigOk}.

(** No bin is set up yet. *)
Record NoBins (s : PAGES) (n : nat) : Prop := {
  nb_ok : BinsOk s;
  nb_initialized : mMemoryTypeInformationInitialized s = false;
  nb_terminated : Terminated (gMemoryTypeInformation s) n;
  nb_types : NoDup (map mti_Type (take n (gMemoryTypeInformation s)));
  nb_default : mDefaultMaximumAddress s = MAX_ALLOC_ADDRESS;
  nb_bins : Forall (λ st, st_MaximumAddress st = MAX_ALLOC_ADDRESS) (mMemoryTypeStatistics s);
}.

Lemma index_of_entry l n i mti d : Terminated l n → NoDup (map mti_Type (take n l)) → (i < n)%nat → l !! i = Some mti → index_of l n (mti_Type mti) d = Z.of_nat i.
Proof.
  intros Ht Hnd Hi Hm. unfold index_of. destruct (list_find _ (take n l)) as [[j mj]|] eqn:Hf.
  - apply list_find_Some in Hf as (Hj & HTj & _). apply lookup_take_Some in Hj as [Hj Hjn]. f_equal.
    by apply (type_inj l n Hnd j i mj mti).
  - exfalso. apply list_find_None in Hf. apply (proj1 (list.Forall_forall _ _) Hf mti); [|done]. apply list_elem_of_lookup. exists i.
    by rewrite lookup_take_lt.
Qed.

Lemma index_of_none l n T d : (∀ i mti, (i < n)%nat → l !! i = Some mti → mti_Type mti ≠ T) → index_of l n T d = d.
Proof.
  intros Hno. unfold index_of. destruct (list_find _ (take n l)) as [[j mj]|] eqn:Hf; [|done]. exfalso.
  apply list_find_Some in Hf as (Hj & HTj & _). apply lookup_take_Some in Hj as [Hj Hjn]. by apply (Hno j mj).
Qed.

Lemma index_of_types l l' n T d : map mti_Type (take n l') = map mti_Type (take n l) → index_of l' n T d = index_of l n T d.
Proof.
  intros Heq. unfold index_of.
  assert (∀ k k', map mti_Type k' = map mti_Type k → fst <$> list_find (λ m, mti_Type m = T) k' = fst <$> list_find (λ m, mti_Type m = T) k) as Hk.
  { induction k as [|m k IH]; intros [|m' k'] Hm; try done. cbn in Hm. injection Hm as Hm Hk. cbn. rewrite Hm. case_decide; [done|].
    specialize (IH k' Hk). destruct (list_find _ k) as [[]|], (list_find _ k') as [[]|]; cbn in *; congruence. }
  specialize (Hk _ _ Heq). destruct (list_find _ (take n l)) as [[]|], (list_find _ (take n l')) as [[]|]; cbn in *; congruence.
Qed.

(** Each type has an entry or none. *)
Lemma entry_of (l : list EFI_MEMORY_TYPE_INFORMATION) n T : (∃ i mti, (i < n)%nat ∧ l !! i = Some mti ∧ mti_Type mti = T) ∨ ∀ i mti, (i < n)%nat → l !! i = Some mti → mti_Type mti ≠ T.
Proof.
  destruct (list_find (λ m, mti_Type m = T) (take n l)) as [[j mj]|] eqn:Hf.
  - left. apply list_find_Some in Hf as (Hj & HTj & _). apply lookup_take_Some in Hj as [Hj Hjn]. eauto.
  - right. intros i mti Hi Hm. apply list_find_None in Hf. apply (proj1 (list.Forall_forall _ _) Hf mti). apply list_elem_of_lookup. exists i.
    by rewrite lookup_take_lt.
Qed.

Section Combine.
Context (s : PAGES) (n : nat) (Top acc : Z) (s1 s' : PAGES).
Context (HN : NoBins s n) (Htot : bin_total (take n (gMemoryTypeInformation s)) < Top) (HTop : Top <= MAX_ALLOC_ADDRESS).
Context (HP : Placed s (gMemoryTypeInformation s) Top n acc s1) (HF : Finished s1 (gMemoryTypeInformation s1) n EfiMaxMemoryType s').

Let l := gMemoryTypeInformation s.

Lemma bin_total_bounds i : (i <= n)%nat → 0 <= bin_total (take i l) < Top.
Proof.
  intros Hi. pose proof (bin_total_mono l n 0 i (nb_terminated _ _ HN) ltac:(lia)) as Hm0. pose proof (bin_total_mono l n i n (nb_terminated _ _ HN) ltac:(lia)).
  change (bin_total (take 0 l)) with 0 in Hm0. unfold l in *. lia.
Qed.

Lemma index_of_after T d : index_of (gMemoryTypeInformation s1) n T d = index_of l n T d.
Proof. rewrite (pl_info _ _ _ _ _ _ HP). apply index_of_types. apply (info_cleared l n (nb_terminated _ _ HN)). Qed.

Lemma combined_bin i mti st : (i < n)%nat → l !! i = Some mti → mti_Type mti < EfiMaxMemoryType → mMemoryTypeStatistics s !! Z.to_nat (mti_Type mti) = Some st →
  mMemoryTypeStatistics s' !! Z.to_nat (mti_Type mti) = Some (
    if mti_NumberOfPages mti =? 0 then
      {| st_BaseAddress := st_BaseAddress st; st_MaximumAddress := mDefaultMaximumAddress s'; st_CurrentNumberOfPages := 0;
         st_NumberOfPages := st_NumberOfPages st; st_InformationIndex := Z.of_nat i; st_Special := st_Special st; st_Runtime := st_Runtime st |}
    else
      {| st_BaseAddress := Top - bin_total (take (S i) l); st_MaximumAddress := Top - bin_total (take i l) - 1; st_CurrentNumberOfPages := 0;
         st_NumberOfPages := mti_NumberOfPages mti; st_InformationIndex := Z.of_nat i; st_Special := st_Special st; st_Runtime := st_Runtime st |}).
Proof.
  intros Hi Hm HTm Hst. destruct (te_entries _ _ (nb_terminated _ _ HN) i mti Hi Hm) as (HT0 & _).
  rewrite (fi_bins _ _ _ _ _ HF (mti_Type mti) _ (conj HT0 HTm) (pl_bins _ _ _ _ _ _ HP i mti st Hi Hm HTm Hst)). f_equal. unfold finished, placed_bin.
  rewrite index_of_after, (index_of_entry l n i mti) by (done || apply HN). rewrite (fi_default _ _ _ _ _ HF).
  pose proof (Forall_lookup_1 _ _ _ _ (nb_bins _ _ HN) Hst) as Hmx. cbn in Hmx. pose proof (bin_total_bounds i ltac:(lia)).
  case_match; [by rewrite Hmx, Z.eqb_refl|]. cbn. by rewrite (proj2 (Z.eqb_neq _ _)) by (unfold l in *; lia).
Qed.

Lemma combined_other T st : 0 <= T < EfiMaxMemoryType → (∀ i mti, (i < n)%nat → l !! i = Some mti → mti_Type mti ≠ T) →
  mMemoryTypeStatistics s !! Z.to_nat T = Some st →
  mMemoryTypeStatistics s' !! Z.to_nat T = Some
    {| st_BaseAddress := st_BaseAddress st; st_MaximumAddress := mDefaultMaximumAddress s'; st_CurrentNumberOfPages := 0;
       st_NumberOfPages := st_NumberOfPages st; st_InformationIndex := st_InformationIndex st; st_Special := st_Special st; st_Runtime := st_Runtime st |}.
Proof.
  intros HT Hno Hst. pose proof (Forall_lookup_1 _ _ _ _ (nb_bins _ _ HN) Hst) as Hmx. cbn in Hmx.
  rewrite <- (pl_others _ _ _ _ _ _ HP T) in Hst by (done || lia). rewrite (fi_bins _ _ _ _ _ HF _ _ HT Hst). f_equal. unfold finished.
  rewrite index_of_after, index_of_none by done. by rewrite (fi_default _ _ _ _ _ HF), Hmx, Z.eqb_refl.
Qed.

Lemma combined_default : mDefaultMaximumAddress s' = if bin_total (take n l) =? 0 then MAX_ALLOC_ADDRESS else Top - bin_total (take n l) - 1.
Proof. rewrite (fi_default _ _ _ _ _ HF). apply HP. Qed.

Lemma combined_ok : BinsOk s'.
Proof.
  assert (u64 (mDefaultMaximumAddress s')) as Hd.
  { rewrite combined_default. pose proof (bin_total_bounds n ltac:(lia)). destruct config_max as (Hc1 & _). pose proof UINTN_WIDTH_64.
    pose proof (Z.pow_le_mono_r 2 UINTN_WIDTH 64 ltac:(done) ltac:(lia)). case_match; split; lia. }
  assert (length (gMemoryTypeInformation s') = length l) as Hli.
  { rewrite (fi_info _ _ _ _ _ HF), (pl_info _ _ _ _ _ _ HP), length_app, length_map, length_take, length_drop.
    pose proof (Terminated_lt _ _ (nb_terminated _ _ HN)). unfold l. lia. }
  constructor; [apply HF| |done]. rewrite Hli. apply Forall_lookup. intros k st' Hk.
  pose proof (fi_length _ _ _ _ _ HF) as Hlen. pose proof (lookup_lt_Some _ _ _ Hk) as Hlt.
  pose proof (bo_statistics _ (nb_ok _ _ HN)) as Hlen0. destruct (lookup_lt_is_Some_2 (mMemoryTypeStatistics s) k) as [st Hst]; [lia|].
  pose proof (Forall_lookup_1 _ _ _ _ (bo_bins _ (nb_ok _ _ HN)) Hst) as (Hi & Hb & Hm). rewrite <- (Nat2Z.id k) in Hst, Hk.
  destruct (decide (Z.of_nat k = EfiMaxMemoryType)) as [Hk16|Hk16].
  { rewrite (fi_others _ _ _ _ _ HF), (pl_others _ _ _ _ _ _ HP) in Hk; [|lia| |lia]; [rewrite Hst in Hk; by injection Hk as <-|].
    intros j m Hj Hlj. rewrite Hk16. apply (te_entries _ _ (nb_terminated _ _ HN) j m Hj Hlj). }
  assert (Z.of_nat k < EfiMaxMemoryType) as Hk' by (unfold EfiMaxMemoryType in *; lia).
  destruct (entry_of l n (Z.of_nat k)) as [(i & mti & Hii & Hm' & HTm)|Hno].
  - rewrite <- HTm in Hst, Hk. rewrite (combined_bin i mti st Hii Hm' ltac:(by rewrite HTm) Hst) in Hk. injection Hk as <-.
    pose proof (Terminated_lt _ _ (nb_terminated _ _ HN)). unfold l. pose proof (bin_total_bounds i ltac:(lia)). pose proof (bin_total_bounds (S i) ltac:(lia)).
    destruct config_max as (Hc1 & _). pose proof UINTN_WIDTH_64. pose proof (Z.pow_le_mono_r 2 UINTN_WIDTH 64 ltac:(done) ltac:(lia)).
    unfold l in *. case_match; cbn [st_InformationIndex st_BaseAddress st_MaximumAddress]; (split; [lia|split; [|]]); try done; split; lia.
  - rewrite (combined_other (Z.of_nat k) st (conj (Nat2Z.is_nonneg k) Hk') Hno Hst) in Hk. by injection Hk as <-.
Qed.
End Combine.

Lemma CoreSetMemoryTypeInformationRange_spec Start Length n s E :
  NoBins s n → 0 < Start → 0 <= Length → Start + Length <= MAX_ALLOC_ADDRESS → bin_total (take n (gMemoryTypeInformation s)) < 2 ^ UINTN_WIDTH →
  wp (CoreSetMemoryTypeInformationRange Start Length)
    (λ _ s', if Length <? bin_total (take n (gMemoryTypeInformation s)) then s' = s else BinsSet s n (Start + Length) s') E s.
Proof.
  intros HN HS HL HTop Hw. pose proof HN as [N1 N2 N3 N4 N5 N6]. unfold CoreSetMemoryTypeInformationRange. do 2 wp_step. rewrite N2.
  wp_step. eapply wp_mono; [by apply (SizeLoop_spec s _ n eq_refl N3)| |done]. intros ? ? [-> ->].
  destruct (Z.ltb_spec Length (bin_total (take n (gMemoryTypeInformation s)))); [by wp_step|].
  destruct config_max as (Hc1 & _). pose proof UINTN_WIDTH_64. pose proof (Z.pow_le_mono_r 2 UINTN_WIDTH 64 ltac:(done) ltac:(lia)).
  rewrite wrap_small by (split; lia). wp_step. eapply wp_mono; [by apply (PlaceBins_spec s _ n (Start + Length) eq_refl N3 N4); [apply N1|..]; try lia| |done].
  intros acc s1 HP. destruct (info_cleared _ n N3) as [Ht1 Hty1]. rewrite <- (pl_info _ _ _ _ _ _ HP) in Ht1, Hty1.
  eapply wp_mono; [apply (FinishBins_spec s1 _ n eq_refl Ht1); [by rewrite Hty1|apply HP]| |done].
  intros _ s' [HF Hin]. constructor; [etransitivity; [apply HP|apply HF]|apply (combined_ok s n (Start + Length) acc s1); done || lia|done| | | |].
  - by rewrite (fi_info _ _ _ _ _ HF), (pl_info _ _ _ _ _ _ HP).
  - by eapply combined_default.
  - intros. apply (combined_bin s n (Start + Length) acc s1); done || lia.
  - intros. by apply (combined_other s n (Start + Length) acc s1).
Qed.
End Result.

(** C23. CoreSetMemoryTypeInformationRange does nothing if the range is too small for the bins; otherwise it places the
    bins in it, in the order of gMemoryTypeInformation, from its end on down, one next to the other: each bin has exactly
    the pages asked for, and none overlaps another or leaves the range.  Types without a bin are to be allocated below the
    bins.  The setup is in one piece: the invariant of the allocator holds, the memory map is not touched and the requests are
    cleared.  The conditions ([NoBins]): no bins are set up yet, and the entries of gMemoryTypeInformation name different types,
    each with less than 2^20 pages (the bytes of a bin are computed in 32 bits); the range starts above 0 and ends by
    MAX_ALLOC_ADDRESS.  The array the core starts with names a type twice and is not of this kind. *)
Theorem set_information_range_exact `{!Platform, !PlatformOk, !PageConfig, !PageConfigOk} (Start Length : Z) (n : nat) (s : PAGES) :
  NoBins s n → 0 < Start → 0 <= Length → Start + Length <= MAX_ALLOC_ADDRESS → bin_total (take n (gMemoryTypeInformation s)) < 2 ^ UINTN_WIDTH →
  match CoreSetMemoryTypeInformationRange Start Length s with
  | Ok _ s' =>
      if Length <? bin_total (take n (gMemoryTypeInformation s)) then s' = s
      else
        BinsSet s n (Start + Length) s' ∧
        ∀ i j mi mj bi bj, (i < j < n)%nat → gMemoryTypeInformation s !! i = Some mi → gMemoryTypeInformation s !! j = Some mj →
          mti_Type mi < EfiMaxMemoryType → mti_Type mj < EfiMaxMemoryType → mti_NumberOfPages mi ≠ 0 → mti_NumberOfPages mj ≠ 0 →
          mMemoryTypeStatistics s' !! Z.to_nat (mti_Type mi) = Some bi → mMemoryTypeStatistics s' !! Z.to_nat (mti_Type mj) = Some bj →
          Start <= st_BaseAddress bj <= st_MaximumAddress bj ∧ st_MaximumAddress bj < st_BaseAddress bi ∧
          st_BaseAddress bi <= st_MaximumAddress bi < Start + Length
  | _ => False
  end.
Proof.
  intros HN HS HL HTop Hw. pose proof (wp_cases _ _ _ _ (CoreSetMemoryTypeInformationRange_spec Start Length n s (λ _ _, False) HN HS HL HTop Hw)) as Hr.
  destruct (CoreSetMemoryTypeInformationRange Start Length s) as [[] s'| |]; [|done..].
  destruct (Z.ltb_spec Length (bin_total (take n (gMemoryTypeInformation s)))) as [|Hle]; [done|]. split; [done|].
  intros i j mi mj bi bj Hij Hmi Hmj HTi HTj Hpi Hpj Hbi Hbj. pose proof (nb_terminated _ _ HN) as Ht.
  assert (∀ k m b, (k < n)%nat → gMemoryTypeInformation s !! k = Some m → mti_Type m < EfiMaxMemoryType → mti_NumberOfPages m ≠ 0 →
    mMemoryTypeStatistics s' !! Z.to_nat (mti_Type m) = Some b →
    st_BaseAddress b = Start + Length - bin_total (take (S k) (gMemoryTypeInformation s)) ∧
    st_MaximumAddress b = Start + Length - bin_total (take k (gMemoryTypeInformation s)) - 1 ∧
    bin_total (take k (gMemoryTypeInformation s)) < bin_total (take (S k) (gMemoryTypeInformation s))) as Hb.
  { intros k m b Hk Hm HT Hp Hst. destruct (te_entries _ _ Ht k m Hk Hm) as (HT0 & _ & Hp0).
    destruct (lookup_lt_is_Some_2 (mMemoryTypeStatistics s) (Z.to_nat (mti_Type m))) as [st Hst0].
    { rewrite (bo_statistics _ (nb_ok _ _ HN)). unfold EfiMaxMemoryType in *. lia. }
    rewrite (bs_bins _ _ _ _ Hr k m st Hk Hm HT Hst0), (proj2 (Z.eqb_neq _ _)) in Hst by done. injection Hst as <-. split_and!; [done|done|].
    rewrite (bin_total_take_S _ _ _ Hm). unfold bin_bytes. rewrite (proj2 (Z.ltb_ge _ _)) by lia. change (2 ^ EFI_PAGE_SHIFT) with 4096. lia. }
  destruct (Hb i mi bi ltac:(lia) Hmi HTi Hpi Hbi) as (-> & -> & ?). destruct (Hb j mj bj ltac:(lia) Hmj HTj Hpj Hbj) as (-> & -> & ?).
  pose proof (bin_total_mono _ n 0 i Ht ltac:(lia)) as Hm0. change (bin_total (take 0 (gMemoryTypeInformation s))) with 0 in Hm0.
  pose proof (bin_total_mono _ n (S i) j Ht ltac:(lia)). pose proof (bin_total_mono _ n (S j) n Ht ltac:(lia)). lia.
Qed.

(** ** Examples *)

(** Runtime code and data, and 2 pages of ACPI tables. *)
Definition information_sample (code data : Z) : list EFI_MEMORY_TYPE_INFORMATION :=
  [{| mti_Type := 5; mti_NumberOfPages := code |}; {| mti_Type := 6; mti_NumberOfPages := data |}; {| mti_Type := 9; mti_NumberOfPages := 2 |};
   {| mti_Type := EfiMaxMemoryType; mti_NumberOfPages := 0 |}] ++ replicate 13 {| mti_Type := EfiMaxMemoryType; mti_NumberOfPages := 0 |}.
Definition no_memory_yet (code data : Z) : PAGES := set_gMemoryTypeInformation (information_sample code data) (pages_with [] [] []).

Lemma no_memory_bins code data : 0 <= code < 2 ^ 20 → 0 <= data < 2 ^ 20 → @NoBins max_x64 (no_memory_yet code data) 3.
Proof.
  intros Hc Hd. constructor; [|done| | |done|by repeat constructor].
  - constructor; [done| |done]. by repeat constructor.
  - constructor; [by eexists|]. intros [|[|[|i]]] m Hi Hm; cbn in Hm; try lia; injection Hm as <-; unfold EfiMaxMemoryType; cbn; lia.
  - by apply (bool_decide_unpack _); vm_compute.
Qed.

Lemma set_information_range_exact_witness :
  match @CoreSetMemoryTypeInformationRange platform_x64 max_x64 0x7f000000 0x10000 (no_memory_yet 4 8) with
  | Ok _ s' =>
      map (λ t, match mMemoryTypeStatistics s' !! Z.to_nat t with Some b => (st_BaseAddress b, st_MaximumAddress b) | None => (0, 0) end) [5; 6; 9; 4] =
        [(0x7f00c000, 0x7f00ffff); (0x7f004000, 0x7f00bfff); (0x7f002000, 0x7f003fff); (0, 0x7f001fff)] ∧
      @BinsSet max_x64 (no_memory_yet 4 8) 3 0x7f010000 s'
  | _ => False
  end.
Proof.
  pose proof (@set_information_range_exact platform_x64 platform_x64_ok max_x64 config_x64_ok 0x7f000000 0x10000 3 (no_memory_yet 4 8)
    (no_memory_bins 4 8 ltac:(done) ltac:(done)) ltac:(done) ltac:(done) ltac:(done) ltac:(done)) as Hr.
  set (run := CoreSetMemoryTypeInformationRange _ _ _) in *. change (0x10000 <? _) with false in Hr. cbv iota in Hr.
  destruct run as [u s'| |] eqn:Hrun; [|done..]. split; [|apply Hr].
  vm_compute in Hrun. injection Hrun as _ <-. by vm_compute.
Defined.

(** EFI_PAGES_TO_SIZE is computed in 32 bits: the size of a bin of 4 GB is 0, the range is taken to be large enough and the
    bin is placed with its last address below its first. *)
Lemma set_information_range_wraps :
  match @CoreSetMemoryTypeInformationRange platform_x64 max_x64 0x7f000000 0x10000 (no_memory_yet (2 ^ 20) 8) with
  | Ok _ s' => match mMemoryTypeStatistics s' !! 5%nat with
      | Some b => st_BaseAddress b = 0x7f010000 ∧ st_MaximumAddress b = 0x7f00ffff ∧ st_NumberOfPages b = 2 ^ 20
      | None => False end
  | _ => False
  end.
Proof. by vm_compute. Qed.

(** With the initial gMemoryTypeInformation, in which EfiGcdMemoryTypeUnaccepted stands for EfiUnacceptedMemoryType, the pages of
    EfiRuntimeServicesData are counted in that entry. *)
Lemma initial_information_index :
  match @CoreSetMemoryTypeInformationRange platform_x64 max_x64 0x7f000000 0x10000 (pages_with [] [] []) with
  | Ok _ s' => match mMemoryTypeStatistics s' !! 6%nat with Some b => st_InformationIndex b = 15 | None => False end
  | _ => False
  end.
Proof. by vm_compute. Qed.

(** Adding memory, with an empty memory map: a page of entries is allocated, then the bins below it, and the memory of the bins
    is free again. *)
Lemma add_memory_first :
  match @CoreAddMemoryDescriptor platform_x64 max_x64 7 0x100000 0x100 0xf (no_memory_yet 4 8) with
  | Ok _ s' =>
      mMemoryTypeInformationInitialized s' = true ∧
      map (λ e, (mm_Type (en_map e), mm_Start (en_map e), mm_End (en_map e))) (gMemoryMap s') = [(7, 0x100000, 0x1fefff); (4, 0x1ff000, 0x1fffff)] ∧
      map (λ t, match mMemoryTypeStatistics s' !! Z.to_nat t with Some b => (st_BaseAddress b, st_MaximumAddress b) | None => (0, 0) end) [5; 6; 9; 4] =
        [(0x1fb000, 0x1fefff); (0x1f3000, 0x1fafff); (0x1f1000, 0x1f2fff); (0, 0x1f0fff)]
  | _ => False
  end.
Proof. by vm_compute. Qed.

(** Without enough memory for all bins, those allocated so far are freed, and the setup is tried again with the next memory. *)
Lemma add_memory_retry :
  match @CoreAddMemoryDescriptor platform_x64 max_x64 7 0x100000 0x8 0xf (no_memory_yet 4 8) with
  | Ok _ s1 =>
      mMemoryTypeInformationInitialized s1 = false ∧
      map (λ e, (mm_Type (en_map e), mm_Start (en_map e), mm_End (en_map e))) (gMemoryMap s1) = [(7, 0x100000, 0x106fff); (4, 0x107000, 0x107fff)] ∧
      match @CoreAddMemoryDescriptor platform_x64 max_x64 7 0x200000 0x100 0xf s1 with
      | Ok _ s2 => mMemoryTypeInformationInitialized s2 = true
      | _ => False
      end
  | _ => False
  end.
Proof. by vm_compute. Qed.
