(* ===== verification/PageAdd.v ===== *)
(** Page.c: memory that is added once the bins are set up. *)
From stdpp Require Import list.
From S2P Require Import Prelude Base Buffer Platform Overflow ImageRecord MemoryMap SplitTable SplitCoverage MemoryMerge GetMemoryMap PageAlloc PageMapSpec PageFind PageConvert PageStack PageServices PageSample PageBins.

(** ** The allocator never undoes the setup of the bins *)

Definition keeps {A} (m : PageM A) : Prop := ∀ s,
  match m s with
  | Ok _ s' | Err _ s' => mMemoryTypeInformationInitialized s' = mMemoryTypeInformationInitialized s
  | Fault _ => True
  end.

Lemma keeps_ret {A} (a : A) : keeps (mret a).
Proof. by intros s. Qed.
Lemma keeps_raise {A} e : keeps (raise e : PageM A).
Proof. by intros s. Qed.
Lemma keeps_crash {A} f : keeps (crash f : PageM A).
Proof. by intros s. Qed.
Lemma keeps_getS : keeps getS.
Proof. by intros s. Qed.
Lemma keeps_modify f : (∀ s, mMemoryTypeInformationInitialized (f s) = mMemoryTypeInformationInitialized s) → keeps (modify f).
Proof. intros Hf s. apply Hf. Qed.

Lemma keeps_bind {A B} (m : PageM A) (f : A → PageM B) : keeps m → (∀ a, keeps (f a)) → keeps (m ≫= f).
Proof.
  intros Hm Hf s. specialize (Hm s). unfold mbind, M_bind. destruct (m s) as [a s'|e s'|]; [|done..].
  specialize (Hf a s'). destruct (f a s'); congruence.
Qed.

Lemma keeps_attempt {A} (m : PageM A) : keeps m → keeps (attempt m).
Proof. intros Hm s. specialize (Hm s). unfold attempt. by destruct (m s). Qed.

Lemma keeps_for_loop {A} n : ∀ i (body : Z → A → PageM A) acc, (∀ i acc, keeps (body i acc)) → keeps (for_loop n i body acc).
Proof. induction n as [|n IH]; intros i body acc Hb; cbn; [apply keeps_ret|]. apply keeps_bind; [apply Hb|]. intros a. by apply IH. Qed.

Create HintDb keeps.
#[local] Hint Resolve keeps_ret keeps_raise keeps_crash keeps_getS keeps_attempt keeps_for_loop : keeps.

(** Follows the structure of the code. *)
Ltac keeps_step :=
  match goal with
  | |- keeps (mbind _ _) => apply keeps_bind; [|intros ?]
  | |- keeps (modify _) => apply keeps_modify; by intros
  | |- keeps (fail_if _ _) => unfold fail_if
  | |- keeps (require _ _) => unfold require
  | |- keeps (ASSERT _) => unfold ASSERT
  | |- keeps (match ?x with _ => _ end) => destruct x
  | |- keeps (let _ := _ in _) => cbv zeta
  | |- keeps _ => solve [eauto with keeps]
  end.
Ltac keeps_tac := repeat keeps_step.

Section Keeps.
Context `{!Platform, !PageConfig}.

Lemma keeps_MergeNeighbours l : ∀ T A St En, keeps (MergeNeighbours l T A St En).
Proof. induction l as [|e l IH]; intros; cbn [MergeNeighbours]; unfold CR_MEMORY_MAP, RemoveMemoryMapEntry; keeps_tac. Qed.
#[local] Hint Resolve keeps_MergeNeighbours : keeps.

Lemma keeps_PushMapStack m : keeps (PushMapStack m).
Proof. unfold PushMapStack. keeps_tac. Qed.
#[local] Hint Resolve keeps_PushMapStack : keeps.

Lemma keeps_CoreAddRange T St En A : keeps (CoreAddRange T St En A).
Proof. unfold CoreAddRange. keeps_tac. Qed.

Lemma keeps_FindFreePages_loop l : ∀ Max Min N Al Tg, keeps (FindFreePages_loop l Max Min N Al Tg).
Proof. induction l as [|e l IH]; intros; cbn [FindFreePages_loop]; unfold CR_MEMORY_MAP; keeps_tac. Qed.

Lemma keeps_FindCover l x : keeps (FindCover l x).
Proof. induction l as [|e l IH]; cbn [FindCover]; unfold CR_MEMORY_MAP; keeps_tac. Qed.

Lemma keeps_InsertEntry e l : keeps (InsertEntry e l).
Proof. induction l as [|e2 l IH]; cbn [InsertEntry]; unfold CR_MEMORY_MAP; keeps_tac. Qed.
#[local] Hint Resolve keeps_CoreAddRange keeps_FindFreePages_loop keeps_FindCover keeps_InsertEntry : keeps.

Lemma keeps_CoreFindFreePagesI Max Min P Al : keeps (CoreFindFreePagesI Max Min P Al).
Proof. unfold CoreFindFreePagesI. keeps_tac. Qed.

Lemma keeps_get_bin T : keeps (get_bin T).
Proof. unfold get_bin. keeps_tac. Qed.

Lemma keeps_put_bin T st : keeps (put_bin T st).
Proof. unfold put_bin. keeps_tac. Qed.
#[local] Hint Resolve keeps_CoreFindFreePagesI keeps_get_bin keeps_put_bin : keeps.

Lemma keeps_ConvertRange St En P c T A : keeps (ConvertRange St En P c T A).
Proof. unfold ConvertRange, CountFreed, CountAllocated, PullRange, put_entry, RemoveIfEmpty, RemoveMemoryMapEntry. keeps_tac. Qed.

Lemma keeps_FindInBins Max P T Al : keeps (FindInBins Max P T Al).
Proof. unfold FindInBins. keeps_tac. Qed.
#[local] Hint Resolve keeps_ConvertRange keeps_FindInBins : keeps.

Section Recursion.
Context (F : PageM unit) (HF : keeps F).

Lemma keeps_PromoteMemoryResource : keeps (PromoteMemoryResource F).
Proof. unfold PromoteMemoryResource, PromoteEntry. keeps_step; [keeps_step|]. apply keeps_for_loop. intros. keeps_tac. Qed.
#[local] Hint Resolve keeps_PromoteMemoryResource : keeps.

Lemma keeps_FindFreePages_fuel n : ∀ Max P T Al, keeps (FindFreePages_fuel F n Max P T Al).
Proof. induction n as [|n IH]; intros; cbn [FindFreePages_fuel]; keeps_tac. Qed.
#[local] Hint Resolve keeps_FindFreePages_fuel : keeps.

Lemma keeps_ConvertPages_loop n : ∀ St En P c T A, keeps (ConvertPages_loop F n St En P c T A).
Proof. induction n as [|n IH]; intros; cbn [ConvertPages_loop]; keeps_tac. Qed.
#[local] Hint Resolve keeps_ConvertPages_loop : keeps.

Lemma keeps_CoreConvertPages St P T : keeps (CoreConvertPages F St P T).
Proof. unfold CoreConvertPages, CoreConvertPagesEx. keeps_tac. Qed.
#[local] Hint Resolve keeps_CoreConvertPages : keeps.

Lemma keeps_FreeMapStack_loop n : keeps (FreeMapStack_loop F n).
Proof.
  induction n as [|n IH]; cbn [FreeMapStack_loop]; [keeps_tac|].
  unfold MoveMapStackEntry, AllocateMemoryMapEntry, CoreAllocatePoolPages, FindFreePages. keeps_tac.
Qed.
End Recursion.
#[local] Hint Resolve keeps_FreeMapStack_loop : keeps.

Lemma keeps_FreeMemoryMapStack_fuel n : keeps (FreeMemoryMapStack_fuel n).
Proof. induction n as [|n IH]; cbn [FreeMemoryMapStack_fuel]; keeps_tac. Qed.

Lemma wp_keeps {A} (m : PageM A) Q E s : keeps m → wp m Q E s →
  wp m (λ a s', Q a s' ∧ mMemoryTypeInformationInitialized s' = mMemoryTypeInformationInitialized s) E s.
Proof. intros Hm Hw. specialize (Hm s). apply wp_cases in Hw. apply wp_of_cases. by destruct (m s). Qed.
End Keeps.

(** ** Adding memory *)

Section Add.
Context `{!Platform, !PlatformOk, !PageConfig, !PageConfigOk}.

(** The memory [Start, End_] of type [T] was added to [s]; [s'] is the state after it. *)
Record MemoryAdded (T Start End_ A : Z) (s s' : PAGES) : Prop := {
  ad_quiet : Quiet s';
  (** The new memory is there, the other memory is what it was; free memory may be taken for entries of the memory map, but not
      if there is a free entry. *)
  ad_view : ∀ x, grown (if decide (Start <= x <= End_) then [(T, A)] else pview s x) (pview s' x);
  ad_exact : mFreeMemoryMapEntryList s ≠ [] → ∀ x, pview s' x = if decide (Start <= x <= End_) then [(T, A)] else pview s x;
  ad_stored : ∀ p, stored_at s' p → stored_at s p ∨ (∃ a, pview s p = [(EfiConventionalMemory, a)]) ∨
    T = EfiConventionalMemory ∧ Start <= p <= End_;
  ad_gcd : mGcdMemorySpaceMap s' = mGcdMemorySpaceMap s;
}.

(** There is an entry for the new memory, or a page for more entries, which can be one of the new memory. *)
Definition entry_or_page (T Start End_ : Z) (s : PAGES) : Prop :=
  mFreeMemoryMapEntryList s ≠ [] ∨ spare s ∨
  T = EfiConventionalMemory ∧ ∃ x, Start <= x ∧ EFI_PAGE_SIZE <= x ∧ (2 ^ EFI_PAGE_SHIFT | x) ∧ x + EFI_PAGE_SIZE - 1 <= End_ ∧ End_ <= MAX_ALLOC_ADDRESS.

Lemma CoreAddMemoryDescriptor_spec T Start P A s :
  Quiet s → mMemoryTypeInformationInitialized s = true → 0 <= T → T < EfiMaxMemoryType ∨ MEMORY_TYPE_OEM_RESERVED_MIN <= T →
  0 < P → range_ok UINTN_WIDTH Start (Start + P * 2 ^ EFI_PAGE_SHIFT - 1) →
  (∀ x, Start <= x <= Start + P * 2 ^ EFI_PAGE_SHIFT - 1 → pview s x = [] ∧ gview (mGcdMemorySpaceMap s) x = []) →
  entry_or_page T Start (Start + P * 2 ^ EFI_PAGE_SHIFT - 1) s →
  wp (CoreAddMemoryDescriptor T Start P A) (λ _, MemoryAdded T Start (Start + P * 2 ^ EFI_PAGE_SHIFT - 1) A s) (λ _ _, False) s.
Proof.
  intros [Hok Hd Hf] Hin HT HTr HP Hr Hempty Hroom. unfold CoreAddMemoryDescriptor. set (End_ := Start + P * 2 ^ EFI_PAGE_SHIFT - 1) in *.
  destruct (range_end_u64 _ _ Hr) as (? & ? & ?). rewrite page_aligned_land by apply Hr. cbn [negb Z.eqb].
  rewrite (proj2 (andb_false_iff _ _)) by (rewrite Z.leb_gt, Z.ltb_ge; lia).
  assert (wrap 64 (Start + LShiftU64 P EFI_PAGE_SHIFT - 1) = End_) as ->.
  { unfold End_ in *. rewrite LShiftU64_eq by done. rewrite (wrap_small 64 (P * _)); [apply wrap_small; split; lia|].
    split; [unfold EFI_PAGE_SHIFT; lia|lia]. }
  wp_step. eapply wp_mono; [apply wp_keeps; [apply keeps_CoreAddRange|]; apply (CoreAddRange_spec T Start End_ A s (λ _ _, False)); try done|..|done].
  { apply (po_map _ Hok). } { lia. } { rewrite Hd. done. }
  intros _ s1 [(Hsr & Hd1 & Hlen & Hst1 & Hok1 & Hv1) Hin1]. rewrite Hd in Hd1.
  assert (PagesOk s1) as Hpo1 by (eapply PagesOk_same; [done|done|done|lia]).
  assert (Room s1) as Hroom1.
  { unfold Room. rewrite Hd1. destruct Hroom as [Hne|Hsp]; [left|right; split; [done|]].
    - destruct (mFreeMemoryMapEntryList s); [done|]. cbn in Hlen. lia.
    - unfold spare, pview. destruct Hsp as [(x & a & Hx1 & Hx2 & Hx3 & Hx)|(-> & x & Hx1 & Hx2 & Hx3 & Hx4 & Hx5)].
      + exists x, a. split_and!; [done..|]. rewrite Hv1. case_decide as Hin'; [|done]. destruct (Hempty x Hin') as [Hn _]. by rewrite Hn in Hx.
      + exists x, A. split_and!; [done|done|lia|]. rewrite Hv1, decide_True by (unfold EFI_PAGE_SIZE in *; lia). done. }
  wp_step. eapply wp_mono; [apply wp_keeps; [apply keeps_FreeMemoryMapStack_fuel|]; apply (CoreFreeMemoryMapStack_spec s1 Hpo1); [|by rewrite Hd1|done]|..|done].
  { rewrite (sr_freeing _ _ Hsr). done. }
  intros _ s2 [(Hok2 & Hd2 & Hse & Hex) Hin2]. do 2 wp_step. rewrite Hin2, Hin1, Hin. wp_step.
  assert (∀ x, pview s1 x = if decide (Start <= x <= End_) then [(T, A)] else pview s x) as Hv1' by done.
  constructor.
  - constructor; [done|done|]. rewrite (se_freeing _ _ Hse), (sr_freeing _ _ Hsr). done.
  - intros x. rewrite <- Hv1'. apply (se_grown _ _ Hse).
  - intros Hne x. destruct Hex as [-> _]; [|done]. rewrite Hd1. destruct (mFreeMemoryMapEntryList s); [done|]. cbn in Hlen. lia.
  - intros p [Hp|[a Ha]]%(se_stored _ _ Hse); [left; by apply Hst1|right]. rewrite Hv1' in Ha.
    case_decide; [right; by injection Ha|left; by exists a].
  - rewrite (se_gcd _ _ Hse). apply (sr_gcd _ _ Hsr).
Qed.
End Add.

(** CoreAddMemoryDescriptor, once the bins are set up, adds the memory to the memory map: each of its addresses gets the type
    and attributes given, the memory elsewhere keeps its own, and the invariant of the allocator holds.  Free memory is only taken
    for entries of the memory map if there is no free entry; it may be a page of the new memory.  No ASSERT fails. *)
Theorem add_memory_exact `{!Platform, !PlatformOk, !PageConfig, !PageConfigOk} (T Start P A : Z) (s : PAGES) :
  Quiet s → mMemoryTypeInformationInitialized s = true → 0 <= T → T < EfiMaxMemoryType ∨ MEMORY_TYPE_OEM_RESERVED_MIN <= T →
  0 < P → range_ok UINTN_WIDTH Start (Start + P * 2 ^ EFI_PAGE_SHIFT - 1) →
  (∀ x, Start <= x <= Start + P * 2 ^ EFI_PAGE_SHIFT - 1 → pview s x = [] ∧ gview (mGcdMemorySpaceMap s) x = []) →
  entry_or_page T Start (Start + P * 2 ^ EFI_PAGE_SHIFT - 1) s →
  match CoreAddMemoryDescriptor T Start P A s with
  | Ok _ s' => MemoryAdded T Start (Start + P * 2 ^ EFI_PAGE_SHIFT - 1) A s s'
  | _ => False
  end.
Proof. intros. by apply (wp_cases _ (λ _ s', MemoryAdded T Start (Start + P * 2 ^ EFI_PAGE_SHIFT - 1) A s s') (λ _ _, False)), CoreAddMemoryDescriptor_spec. Qed.

(** The bins are set up, with an empty memory map: the page of entries is taken from the memory that is added. *)
Definition empty_map : PAGES := set_mMemoryTypeInformationInitialized true (pages_with [] [] []).

Lemma add_memory_exact_witness :
  let run := @CoreAddMemoryDescriptor platform_x64 max_x64 7 0x100000 0x100 0xf empty_map in
  match run with
  | Ok _ s' =>
      map (λ e, (mm_Type (en_map e), mm_Start (en_map e), mm_End (en_map e))) (gMemoryMap s') = [(7, 0x100000, 0x1fefff); (4, 0x1ff000, 0x1fffff)] ∧
      length (mFreeMemoryMapEntryList s') = 62%nat
  | _ => False end ∧
  match run with Ok _ s' => @MemoryAdded platform_x64 max_x64 7 0x100000 0x1fffff 0xf empty_map s' | _ => False end.
Proof.
  split; [by vm_compute|].
  apply (@add_memory_exact platform_x64 platform_x64_ok max_x64 config_x64_ok 7 0x100000 0x100 0xf empty_map); try done.
  - constructor; [|done|done]. constructor; try done; [|by destruct (sample_bins [] [] []); constructor].
    constructor; cbn; [by apply (bool_decide_unpack _); vm_compute|intros i Hi; by apply elem_of_nil in Hi|done|intros x; apply Nat.leb_le; reflexivity|intros p Hp; by apply elem_of_nil in Hp].
  - by left.
  - unfold range_ok. split_and!; [done|done|done|by exists 0x100|by exists 0x200].
  - right. right. split; [done|]. exists 0x100000. split_and!; [done|done|by exists 0x100|done|done].
Defined.
