(* ===== verification/PageRun.v ===== *)
(** The page allocator as a state machine: sequences of calls of CoreInternalAllocatePages,
    CoreInternalFreePages and CoreAddMemoryDescriptor, with the blocks of pages that the callers hold. *)
From stdpp Require Import list.
From S2P Require Import Prelude Base Buffer Platform Overflow ImageRecord MemoryMap SplitTable SplitCoverage MemoryMerge GetMemoryMap PageAlloc PageMapSpec PageFind PageConvert PageStack PageServices PageSample PageAllocate PageFree PageBins PageAdd.

(** The type, the address and the number of pages of a block. *)
Record Block := {
  blk_type : Z;
  blk_base : Z;
  blk_pages : Z;
}.

Section Run.
Context `{!Platform, !PlatformOk, !PageConfig, !PageConfigOk}.

Definition blk_size (b : Block) : Z := request_size (blk_type b) (blk_pages b).
Definition in_block (b : Block) (x : Z) : Prop := blk_base b <= x < blk_base b + blk_size b.

Definition valid_pages (P : Z) : Prop := 0 < P ∧ P + 16 < 2 ^ UINTN_WIDTH ∧ (P + 16) * 2 ^ EFI_PAGE_SHIFT <= 2 ^ 64.

(** The callers ask for pages and return the blocks they got, each once; memory may be added in between. *)
Inductive reachable (s0 : PAGES) : PAGES → list Block → Prop :=
| reach_init : reachable s0 s0 []
| reach_alloc s L Type0 T P M r s' :
    reachable s0 s L → allocatable T → 0 <= Type0 < MaxAllocateType → u64 M → valid_pages P →
    low_clear s (PageAlignment T) → Supply s (request_size T P) →
    CoreInternalAllocatePages Type0 T P (Some M) s = Ok r s' →
    reachable s0 s' ({| blk_type := T; blk_base := r; blk_pages := P |} :: L)
| reach_fail s L Type0 T P M e s' :
    reachable s0 s L → allocatable T → 0 <= Type0 < MaxAllocateType → u64 M → valid_pages P →
    low_clear s (PageAlignment T) → Supply s (request_size T P) →
    CoreInternalAllocatePages Type0 T P (Some M) s = Err e s' → reachable s0 s' L
| reach_free s L1 b L2 t s' :
    reachable s0 s (L1 ++ b :: L2) → 0 < blk_base b → blk_base b + blk_size b - 1 <= MAX_ALLOC_ADDRESS →
    CoreInternalFreePages (blk_base b) (blk_pages b) s = Ok t s' → reachable s0 s' (L1 ++ L2)
| reach_add s L T Start P A s' :
    reachable s0 s L → mMemoryTypeInformationInitialized s = true → 0 <= T → T < EfiMaxMemoryType ∨ MEMORY_TYPE_OEM_RESERVED_MIN <= T →
    0 < P → range_ok UINTN_WIDTH Start (Start + P * 2 ^ EFI_PAGE_SHIFT - 1) →
    (∀ x, Start <= x <= Start + P * 2 ^ EFI_PAGE_SHIFT - 1 → pview s x = [] ∧ gview (mGcdMemorySpaceMap s) x = []) →
    entry_or_page T Start (Start + P * 2 ^ EFI_PAGE_SHIFT - 1) s →
    CoreAddMemoryDescriptor T Start P A s = Ok tt s' → reachable s0 s' L.

(** A block that its holder can use: its memory has its type and does not hold entries of the memory map. *)
Record Held (s : PAGES) (b : Block) : Prop := {
  he_type : allocatable (blk_type b);
  he_pages : valid_pages (blk_pages b);
  he_size : 0 < blk_size b;
  he_aligned : (PageAlignment (blk_type b) | blk_base b);
  he_view : ∀ x, in_block b x → ¬ stored_at s x ∧ ∃ a, pview s x = [(blk_type b, a)];
}.

Definition apart (b b' : Block) : Prop := ∀ x, in_block b x → in_block b' x → False.

Record Good (s : PAGES) (L : list Block) : Prop := {
  go_quiet : Quiet s;
  go_held : Forall (Held s) L;
  go_apart : ForallOrdPairs apart L;
}.

Lemma Held_in_use s b : Held s b → in_use s (blk_base b) (blk_base b + blk_size b - 1).
Proof.
  intros Hh x Hx. destruct (he_view _ _ Hh x) as (Hs & a & Hv); [unfold in_block; lia|]. split; [done|]. exists (blk_type b), a.
  split; [done|]. apply (he_type _ _ Hh).
Qed.

(** A block is not affected by what happens to memory that is free, untested or elsewhere. *)
Lemma Held_keep s s' b :
  Held s b →
  (∀ x, in_block b x → evolves (pview s x) (gview (mGcdMemorySpaceMap s) x ≠ []) (pview s' x)) →
  (∀ p, in_block b p → stored_at s' p → stored_at s p ∨ (∃ a, pview s p = [(EfiConventionalMemory, a)]) ∨ pview s p = []) →
  Held s' b.
Proof.
  intros [Ht Hp Hs Ha Hv] Hev Hst. constructor; [done..|]. intros x Hx. destruct (Hv x Hx) as (Hns & a & Hva).
  destruct Ht as (_ & _ & HT & _). split.
  - intros [?|[[a' Hc]|Hn]]%(Hst x Hx); [done| |by rewrite Hn in Hva]. rewrite Hva in Hc. by injection Hc.
  - exists a. destruct (Hev x Hx) as [[->|(a' & Hc & _)]|(Hn & _)]; [done| |by rewrite Hn in Hva]. rewrite Hva in Hc. by injection Hc.
Qed.

Lemma Good_evolved s s' L : Quiet s' → Evolved s s' → Good s L → Good s' L.
Proof.
  intros Hq Hev [_ Hh Ha]. constructor; [done| |done]. apply (list.Forall_impl _ _ _ Hh). intros b Hb.
  apply (Held_keep s); [done|intros; apply (ev_view _ _ Hev)|]. intros p _ Hp. destruct (ev_stored _ _ Hev p Hp) as [?|[?|[? _]]]; auto.
Qed.

Lemma Good_alloc s s' L T r P :
  Good s L → allocatable T → valid_pages P → 0 < request_size T P → (PageAlignment T | r) → Allocated s T r (request_size T P) s' →
  Good s' ({| blk_type := T; blk_base := r; blk_pages := P |} :: L).
Proof.
  intros [_ Hh Ha] HT HP HN Hal Hall. set (b := {| blk_type := T; blk_base := r; blk_pages := P |}).
  assert (∀ b', b' ∈ L → apart b b') as Hap.
  { intros b' Hb' x Hx Hx'. destruct (he_view _ _ (proj1 (list.Forall_forall _ _) Hh b' Hb') x Hx') as (_ & a' & Hv').
    destruct (he_type _ _ (proj1 (list.Forall_forall _ _) Hh b' Hb')) as (_ & _ & HT' & _).
    destruct (al_range _ _ _ _ _ Hall x Hx) as (a & _ & [Hv|[Hv _]]); rewrite Hv in Hv'; [by injection Hv'|done]. }
  constructor.
  - apply (al_quiet _ _ _ _ _ Hall).
  - constructor.
    + constructor; [done|done|done|done|]. intros x Hx. split.
      * intros Hst%(al_stored _ _ _ _ _ Hall). by destruct Hst as [Hn _].
      * destruct (al_range _ _ _ _ _ Hall x Hx) as (a & Hv & _). by exists a.
    + apply list.Forall_forall. intros b' Hb'. apply (Held_keep s); [by apply (proj1 (list.Forall_forall _ _) Hh)|..].
      * intros x Hx. apply (al_rest _ _ _ _ _ Hall). intros Hx'. by apply (Hap b' Hb' x).
      * intros p _ Hp. destruct (al_stored _ _ _ _ _ Hall p Hp) as [_ [?|[?|[? _]]]]; auto.
  - constructor; [|done]. by apply list.Forall_forall.
Qed.

Lemma ForallOrdPairs_app {A} (R : A → A → Prop) (L1 : list A) b L2 :
  (∀ x y, R x y → R y x) → ForallOrdPairs R (L1 ++ b :: L2) → ForallOrdPairs R (L1 ++ L2) ∧ ∀ x, x ∈ L1 ++ L2 → R b x.
Proof.
  intros Hsym. induction L1 as [|a L1 IH]; cbn; intros Hf; inversion Hf as [|? ? Hall Hrest]; subst.
  - split; [done|]. intros x Hx. by apply (proj1 (list.Forall_forall _ _) Hall).
  - destruct (IH Hrest) as [Hf' Hb]. apply Forall_app in Hall as [H1a [Hab H2a]%list.Forall_cons]. split.
    + constructor; [by apply Forall_app|done].
    + intros x [->|Hx]%list.elem_of_cons; [by apply Hsym|by apply Hb].
Qed.

Lemma Good_free s s' L1 b L2 :
  Good s (L1 ++ b :: L2) → Freed s (blk_base b) (blk_base b + blk_size b - 1) s' → Good s' (L1 ++ L2).
Proof.
  intros [_ Hh Ha] Hf. destruct (ForallOrdPairs_app apart L1 b L2) as [Ha' Hb]; [intros ?? Hxy z ? ?; by eapply (Hxy z)|done|].
  constructor; [apply (fr_quiet _ _ _ _ Hf)| |done]. apply list.Forall_forall. intros b' Hb'.
  assert (Held s b') as Hb'' by (apply (proj1 (list.Forall_forall _ _) Hh); apply elem_of_app in Hb' as [?|?]; apply elem_of_app; [by left|right; by right]).
  assert (∀ x, in_block b' x → ¬ blk_base b <= x <= blk_base b + blk_size b - 1) as Hout.
  { intros x Hx Hx'. apply (Hb b' Hb' x); [unfold in_block; lia|done]. }
  apply (Held_keep s); [done|..].
  - intros x Hx. left. by apply (fr_rest _ _ _ _ Hf), Hout.
  - intros p Hp Hst. destruct (fr_stored _ _ _ _ Hf p Hst) as [?|[Hin|?]]; [by left|by apply Hout in Hin|by right; left].
Qed.

(** Memory that is added is not that of a block. *)
Lemma Good_added s s' L T Start End_ A :
  (∀ x, Start <= x <= End_ → pview s x = []) → Good s L → MemoryAdded T Start End_ A s s' → Good s' L.
Proof.
  intros Hempty [_ Hh Ha] Had. constructor; [apply (ad_quiet _ _ _ _ _ _ Had)| |done]. apply (list.Forall_impl _ _ _ Hh). intros b Hb.
  assert (∀ x, in_block b x → ¬ Start <= x <= End_) as Hout.
  { intros x Hx Hr. destruct (he_view _ _ Hb x Hx) as (_ & a & Hv). by rewrite Hempty in Hv. }
  apply (Held_keep s); [done|..].
  - intros x Hx. left. pose proof (ad_view _ _ _ _ _ _ Had x) as Hv. by rewrite decide_False in Hv by (by apply Hout).
  - intros p Hp Hst. destruct (ad_stored _ _ _ _ _ _ Had p Hst) as [?|[?|[_ Hin]]]; [by left|by right; left|by apply Hout in Hin].
Qed.

(** A block that is held can be freed. *)
Lemma Held_frees s b :
  Quiet s → Held s b → 0 < blk_base b → blk_base b + blk_size b - 1 <= MAX_ALLOC_ADDRESS →
  match CoreInternalFreePages (blk_base b) (blk_pages b) s with
  | Ok t s' => t = blk_type b ∧ Freed s (blk_base b) (blk_base b + blk_size b - 1) s'
  | _ => False
  end.
Proof.
  intros Hq Hh Hb Hmax. destruct (he_pages _ _ Hh) as (HP & HPw & HPb). pose proof (he_size _ _ Hh) as Hs.
  destruct (he_view _ _ Hh (blk_base b)) as (_ & a & Hv); [unfold in_block; lia|]. pose proof (he_aligned _ _ Hh) as Hal.
  apply (wp_cases _ (λ t s', t = blk_type b ∧ Freed s (blk_base b) (blk_base b + blk_size b - 1) s') (λ _ _, False)).
  apply (CoreInternalFreePages_spec (blk_base b) (blk_pages b) (blk_type b) a s); try done; [|by apply Held_in_use].
  destruct (PageAlignment_pow (blk_type b)) as (k & Hk & Hp). rewrite Hp in Hal.
  etransitivity; [|exact Hal]. by destruct Hk as [->| ->]; apply Z.mod_divide.
Qed.

Lemma reachable_good s0 s L : Quiet s0 → reachable s0 s L → Good s L.
Proof.
  intros Hq. induction 1 as [|s L Type0 T P M r s' _ IH HT Hty HM HP Hlow Hsup Hrun|s L Type0 T P M e s' _ IH HT Hty HM HP Hlow Hsup Hrun|
    s L1 b L2 t s' _ IH Hb Hmax Hrun|s L T Start P A s' _ IH Hin HT HTr HP Hr Hempty Hroom Hrun].
  - constructor; [done|constructor|constructor].
  - destruct HP as (HP & HPw & HPb). pose proof (AllocateSpec_wp Type0 T P M s HT Hty HM ltac:(lia) HPw HPb (go_quiet _ _ IH) Hlow Hsup) as Hw.
    apply (wp_ok _ _ _ _ _ _ Hw) in Hrun as [(HN & Hall & Hal & _) _]. by apply (Good_alloc s).
  - destruct HP as (HP & HPw & HPb). pose proof (AllocateSpec_wp Type0 T P M s HT Hty HM ltac:(lia) HPw HPb (go_quiet _ _ IH) Hlow Hsup) as Hw.
    apply (wp_err _ _ _ _ _ _ Hw) in Hrun as (Hq' & Hev & _). by eapply Good_evolved.
  - pose proof (Held_frees s b (go_quiet _ _ IH)) as Hf. rewrite Hrun in Hf. destruct Hf as [_ Hf]; [|done|done|by eapply Good_free].
    apply (proj1 (list.Forall_forall _ _) (go_held _ _ IH)). apply elem_of_app. right. left.
  - pose proof (CoreAddMemoryDescriptor_spec T Start P A s (go_quiet _ _ IH) Hin HT HTr HP Hr Hempty Hroom) as Hw.
    apply (wp_ok _ _ _ _ _ _ Hw) in Hrun. eapply Good_added; [|done|done]. intros x Hx. by apply Hempty.
Qed.
End Run.

(** C16. No memory is ever given to two callers of the page allocator, along every sequence of CoreInternalAllocatePages,
    CoreInternalFreePages and CoreAddMemoryDescriptor from a well-formed state: the blocks they hold are apart from each
    other and from the entries of the memory map, every page of a block has the type that was asked for, and each
    block can be freed.  The calls are those of [reachable]: pages of allocatable types, a positive number of them that with
    16 more is at most 2^64 bytes, asked for while no memory below the alignment of the type is free or untested
    ([low_clear]) and entries of the memory map or a free page for them are left ([Supply]); blocks that are held are returned
    once, if they are not at 0 and end by MAX_ALLOC_ADDRESS; memory is added where there is none, when the bins are set
    up and an entry or a page is left for it. *)
Theorem allocator_isolation `{!Platform, !PlatformOk, !PageConfig, !PageConfigOk} (s0 s : PAGES) (L : list Block) :
  Quiet s0 → reachable s0 s L →
  Quiet s ∧ ForallOrdPairs apart L ∧
  ∀ b, b ∈ L →
    (∀ x, in_block b x → ¬ stored_at s x ∧ ∃ a, pview s x = [(blk_type b, a)]) ∧
    (0 < blk_base b → blk_base b + blk_size b - 1 <= MAX_ALLOC_ADDRESS →
     ∃ s', CoreInternalFreePages (blk_base b) (blk_pages b) s = Ok (blk_type b) s').
Proof.
  intros Hq Hr. destruct (reachable_good s0 s L Hq Hr) as [Hq' Hh Ha]. split_and!; [done|done|]. intros b Hb.
  pose proof (proj1 (list.Forall_forall _ _) Hh b Hb) as Hhb. split; [apply (he_view _ _ Hhb)|]. intros Hb0 Hmax.
  pose proof (Held_frees s b Hq' Hhb Hb0 Hmax) as Hf. destruct (CoreInternalFreePages _ _ s) as [t s'| |]; [|done|done].
  destruct Hf as [-> _]. by exists s'.
Qed.

(** ** The memory map that is reported *)

Section Report.
Context `{!Platform, !PlatformOk, !PageConfig, !PageConfigOk}.

(** What CoreGetMemoryMap relies on holds for the memory map of the allocator. *)
Lemma Quiet_MapsOk s :
  Quiet s → Forall (λ g, gcd_GcdMemoryType g ≠ EfiGcdMemoryTypeUnaccepted) (mGcdMemorySpaceMap s) →
  MapsOk UINTN_WIDTH (map en_map (gMemoryMap s)) (mMemoryTypeStatistics s) (mGcdMemorySpaceMap s).
Proof.
  intros [Hok _ _] Hacc. constructor; [|..|done].
  - rewrite (bo_statistics _ (po_bins _ Hok)). lia.
  - apply Forall_fmap. apply (list.Forall_impl _ _ _ (ok_entries _ _ _ _ (po_map _ Hok))). by intros e [? _].
  - apply (po_gcd _ Hok).
  - apply (po_chain _ Hok).
Qed.

(** The descriptor of an entry that is in use has the type of the entry. *)
Lemma full_map_view s x t a :
  Quiet s → pview s x = [(t, a)] → t ≠ EfiConventionalMemory →
  ∃ a', (t, a') ∈ view (full_map (map en_map (gMemoryMap s)) (mMemoryTypeStatistics s) (mGcdMemorySpaceMap s)) x.
Proof.
  intros [Hok _ _] Hv Ht. assert ((t, a) ∈ pview s x) as Hin by (rewrite Hv; left). apply mview_elem in Hin as (e & He & Hin & HT & HA).
  destruct (proj1 (list.Forall_forall _ _) (ok_entries _ _ _ _ (po_map _ Hok)) e He) as [Heo _]. destruct (eo_range _ _ Heo) as (? & ? & ? & ?).
  set (stats := mMemoryTypeStatistics s). exists (entry_attribute stats (en_map e)). unfold full_map, view. rewrite map_map.
  apply list_elem_of_fmap. exists (entry_desc stats (en_map e)). split.
  - unfold entry_desc, entry_type. cbn. rewrite HT. destruct (Z.eqb_spec t EfiConventionalMemory); done.
  - apply list_elem_of_filter. split; [|apply elem_of_app; left; apply list_elem_of_fmap; by exists e].
    unfold in_desc, entry_desc. rewrite new_record_end by (by apply Z.divide_sub_r). cbn. unfold in_map in Hin. lia.
Qed.
End Report.

(** The memory map that CoreGetMemoryMap reports, after any calls of the allocator, has every block that is held: each
    address of a block is in a descriptor of the type that was asked for. *)
Theorem held_blocks_reported `{!Platform, !PlatformOk, !PageConfig, !PageConfigOk} (s0 s : PAGES) (L : list Block) (MemoryMapSize : Z)
    (A : list EFI_MEMORY_DESCRIPTOR) :
  let gm := map en_map (gMemoryMap s) in
  let stats := mMemoryTypeStatistics s in
  let gcd := mGcdMemorySpaceMap s in
  Quiet s0 → reachable s0 s L → Forall (λ g, gcd_GcdMemoryType g ≠ EfiGcdMemoryTypeUnaccepted) gcd →
  needed gm stats gcd < 2 ^ UINTN_WIDTH → needed gm stats gcd <= MemoryMapSize → (length (full_map gm stats gcd) < length A)%nat →
  match CoreGetMemoryMap gm stats gcd None true MemoryMapSize A with
  | Ok (None, Size) A' => ∃ new rest, A' = new ++ rest ∧ Size = Z.of_nat (length new) * DESCRIPTOR_SIZE ∧
      ∀ b x, b ∈ L → in_block b x → ∃ a, (blk_type b, a) ∈ view new x
  | _ => False
  end.
Proof.
  intros gm stats gcd Hq Hr Hacc Hn Hsize HA. destruct (reachable_good s0 s L Hq Hr) as [Hq' Hh _].
  pose proof (wp_cases _ _ _ _ (CoreGetMemoryMap_spec gm stats gcd (Quiet_MapsOk s Hq' Hacc) true MemoryMapSize A (λ _ _, False) Hn (λ _ _, HA))) as Hw.
  destruct (CoreGetMemoryMap _ _ _ _ _ _ _) as [[st Size] A'| |]; try done. destruct (Z.ltb_spec MemoryMapSize (needed gm stats gcd)); [lia|].
  destruct Hw as (-> & new & rest & -> & -> & _ & _ & _ & _ & Hv). exists new, rest. split_and!; [done|done|]. intros b x Hb Hx.
  destruct (he_view _ _ (proj1 (list.Forall_forall _ _) Hh b Hb) x Hx) as (_ & a & Hva).
  destruct (he_type _ _ (proj1 (list.Forall_forall _ _) Hh b Hb)) as (_ & _ & HT & _).
  destruct (full_map_view s x (blk_type b) a Hq' Hva HT) as [a' Ha']. exists (cleared (blk_type b, a')).2. rewrite Hv.
  apply list_elem_of_fmap. by exists (blk_type b, a').
Qed.

(** ** Examples *)

(** The state after the example of CoreInternalAllocatePages. *)
Definition sample_after : PAGES :=
  match @CoreInternalAllocatePages platform_x64 max_x64 AllocateAnyPages 5 3 (Some 0) sample_free with Ok _ s' => s' | _ => sample_free end.

Lemma sample_reachable :
  @reachable platform_x64 max_x64 sample_free sample_after [{| blk_type := 5; blk_base := 0x1fc000; blk_pages := 3 |}].
Proof.
  apply (@reach_alloc platform_x64 max_x64 sample_free sample_free [] AllocateAnyPages 5 3 0 0x1fc000 sample_after).
  - apply reach_init.
  - split_and!; [done|by left|done..].
  - unfold AllocateAnyPages, MaxAllocateType. lia.
  - split; lia.
  - by split_and!.
  - by left.
  - left. by apply Nat.leb_le; vm_compute.
  - vm_compute. reflexivity.
Qed.

Lemma allocator_isolation_witness :
  ∃ s', @CoreInternalFreePages platform_x64 max_x64 0x1fc000 3 sample_after = Ok 5 s'.
Proof.
  pose proof (@allocator_isolation platform_x64 platform_x64_ok max_x64 config_x64_ok sample_free sample_after _ sample_free_quiet sample_reachable)
    as (_ & _ & Hb).
  destruct (Hb {| blk_type := 5; blk_base := 0x1fc000; blk_pages := 3 |} ltac:(left)) as [_ Hf]. by apply Hf.
Defined.

Lemma held_blocks_reported_witness :
  match @CoreGetMemoryMap platform_x64 (map en_map (gMemoryMap sample_after)) (mMemoryTypeStatistics sample_after)
    (mGcdMemorySpaceMap sample_after) None true 288 (replicate 7 blank) with
  | Ok (None, Size) A' => ∃ new rest, A' = new ++ rest ∧ Size = Z.of_nat (length new) * 48 ∧
      ∀ b x, b ∈ [{| blk_type := 5; blk_base := 0x1fc000; blk_pages := 3 |}] → @in_block platform_x64 b x → ∃ a, (blk_type b, a) ∈ view new x
  | _ => False
  end.
Proof.
  apply (@held_blocks_reported platform_x64 platform_x64_ok max_x64 config_x64_ok sample_free sample_after
    [{| blk_type := 5; blk_base := 0x1fc000; blk_pages := 3 |}] 288 (replicate 7 blank) sample_free_quiet sample_reachable).
  - assert (mGcdMemorySpaceMap sample_after = mGcdMemorySpaceMap sample_free) as -> by (by vm_compute). by repeat constructor.
  - by vm_compute.
  - by vm_compute.
  - by apply Nat.ltb_lt; vm_compute.
Defined.
