(* ===== verification/PoolAlloc.v ===== *)
(** Pool.c (MdeModulePkg/Core/Dxe/Mem): allocation of pool, in blocks of a page or in pages of its own.  The pages are those of a
    class; the heap guard is off. *)
From stdpp Require Import list gmap.
From S2P Require Import Prelude Base Buffer Platform Overflow ImageRecord MemoryMap SplitTable SplitCoverage MemoryMerge GetMemoryMap PageAlloc.

(** SIGNATURE_32 of the four characters. *)
Definition POOL_FREE_SIGNATURE : Z := 0x30726670.
Definition POOL_HEAD_SIGNATURE : Z := 0x30646870.
Definition POOLPAGE_HEAD_SIGNATURE : Z := 0x31646870.
Definition POOL_TAIL_SIGNATURE : Z := 0x6c617470.
Definition POOL_SIGNATURE : Z := 0x74736c70.

Definition mPoolSizeTable : list Z := [128; 256; 384; 640; 1024; 1664; 2688; 4352; 7040; 11392; 18432; 29824].
Definition MAX_POOL_LIST : Z := 12.

Record POOL := {
  pool_Signature : Z;
  pool_Used : Z;
  pool_MemoryType : Z;
  pool_FreeList : list (list Z);
}.

(** A pointer to a POOL: to an entry of mPoolHead, or to one that was allocated. *)
Inductive PoolRef :=
| Builtin (MemoryType : Z)
| Allocated_at (Address : Z).

(** What the pool uses of the page allocator: CoreAllocatePoolPages (0 for NULL) and CoreFreePoolPages. *)
Class PoolPages (P : Type) := {
  AllocatePoolPages : Z → Z → Z → M P Z;
  FreePoolPages : Z → Z → M P unit;
}.

(** The variables of Pool.c, those of the page allocator, and the memory.  A field of a structure is a cell at its address;
    the cells whose contents are not known are missing.  A free list is the sequence of the addresses of its blocks, and the
    cells of its links are not in the memory. *)
Record POOLS {P : Type} := {
  pages_state : P;
  mPoolHead : list POOL;
  mPoolHeadList : list (Z * POOL);
  memory : gmap Z Z;
}.
Arguments POOLS : clear implicits.

Section Code.
Context `{!Platform, !PageConfig} {P : Type} `{!PoolPages P}.

Definition set_pages (v : P) (s : POOLS P) : POOLS P :=
  {| pages_state := v; mPoolHead := mPoolHead s; mPoolHeadList := mPoolHeadList s; memory := memory s |}.
Definition set_mPoolHead (v : list POOL) (s : POOLS P) : POOLS P :=
  {| pages_state := pages_state s; mPoolHead := v; mPoolHeadList := mPoolHeadList s; memory := memory s |}.
Definition set_mPoolHeadList (v : list (Z * POOL)) (s : POOLS P) : POOLS P :=
  {| pages_state := pages_state s; mPoolHead := mPoolHead s; mPoolHeadList := v; memory := memory s |}.
Definition set_memory (v : gmap Z Z) (s : POOLS P) : POOLS P :=
  {| pages_state := pages_state s; mPoolHead := mPoolHead s; mPoolHeadList := mPoolHeadList s; memory := v |}.

Abbreviation PoolM := (M (POOLS P)).

(** ** Memory *)

Definition read (a : Z) : PoolM Z :=
  s ← getS;
  match memory s !! a with
  | Some v => mret v
  | None => crash UndefinedBehaviour
  end.

Definition write (a v : Z) : PoolM unit := modify (λ s, set_memory (<[a := v]> (memory s)) s).

(** The contents of the memory from [a] to before [b] are not known any more. *)
Definition forgotten (a b : Z) (m : gmap Z Z) : gmap Z Z := filter (λ c, ¬ a <= c.1 < b) m.
Definition forget (a b : Z) : PoolM unit := modify (λ s, set_memory (forgotten a b (memory s)) s).

(** The layout of POOL_HEAD, POOL_TAIL and POOL_FREE: the Index of a POOL_FREE is at the Reserved of a POOL_HEAD, and the two
    links are at Type and at Size. *)
Definition UINTN_SIZE : Z := UINTN_WIDTH / 8.
Definition OFFSET_OF_Index : Z := 4.
Definition OFFSET_OF_Type : Z := 8.
Definition OFFSET_OF_Size : Z := align_up 12 UINTN_SIZE.
Definition SIZE_OF_POOL_HEAD : Z := OFFSET_OF_Size + UINTN_SIZE.
Definition OFFSET_OF_TailSize : Z := 8.
Definition SIZEOF_POOL_TAIL : Z := 8 + UINTN_SIZE.
Definition POOL_OVERHEAD : Z := SIZE_OF_POOL_HEAD + SIZEOF_POOL_TAIL.
Definition SIZEOF_POOL_FREE : Z := 8 + 2 * UINTN_SIZE.
Definition SIZEOF_POOL : Z := align_up (2 * UINTN_SIZE + 4) UINTN_SIZE + (2 * MAX_POOL_LIST + 2) * UINTN_SIZE.
Definition MAX_POOL_SIZE : Z := MAX_ADDRESS - POOL_OVERHEAD.
Definition HEAD_TO_TAIL (Head Size : Z) : Z := Head + Size - SIZEOF_POOL_TAIL.

(** ** The lists *)

(** The loop of GetPoolIndexFromSize, over the sizes [l] from Index on. *)
Fixpoint PoolIndex_from (l : list Z) (Index Size : Z) : Z :=
  match l with
  | [] => MAX_POOL_LIST
  | x :: l' => if Size <=? x then Index else PoolIndex_from l' (Index + 1) Size
  end.
Definition GetPoolIndexFromSize (Size : Z) : Z := PoolIndex_from mPoolSizeTable 0 Size.

Definition LIST_TO_SIZE (Index : Z) : PoolM Z :=
  match mPoolSizeTable !! Z.to_nat Index with
  | Some x => mret x
  | None => crash OutOfBounds
  end.

Definition new_pool (Signature MemoryType : Z) : POOL :=
  {| pool_Signature := Signature; pool_Used := 0; pool_MemoryType := MemoryType; pool_FreeList := replicate (Z.to_nat MAX_POOL_LIST) [] |}.

Definition CoreInitializePool : PoolM unit :=
  modify (set_mPoolHead (map (λ T, new_pool 0 (Z.of_nat T)) (seq 0 (Z.to_nat EfiMaxMemoryType)))).

Definition get_pool (r : PoolRef) : PoolM POOL :=
  s ← getS;
  match r with
  | Builtin T => match mPoolHead s !! Z.to_nat T with Some p => mret p | None => crash OutOfBounds end
  | Allocated_at a => match list_find (λ e, e.1 = a) (mPoolHeadList s) with Some (_, (_, p)) => mret p | None => crash UndefinedBehaviour end
  end.

Definition put_pool (r : PoolRef) (p : POOL) : PoolM unit :=
  match r with
  | Builtin T => modify (λ s, set_mPoolHead (<[Z.to_nat T := p]> (mPoolHead s)) s)
  | Allocated_at a => modify (λ s, set_mPoolHeadList (map (λ e, if decide (e.1 = a) then (a, p) else e) (mPoolHeadList s)) s)
  end.

Definition set_Used (v : Z) (p : POOL) : POOL :=
  {| pool_Signature := pool_Signature p; pool_Used := v; pool_MemoryType := pool_MemoryType p; pool_FreeList := pool_FreeList p |}.
Definition set_FreeList (v : list (list Z)) (p : POOL) : POOL :=
  {| pool_Signature := pool_Signature p; pool_Used := pool_Used p; pool_MemoryType := pool_MemoryType p; pool_FreeList := v |}.

Definition get_list (r : PoolRef) (Index : Z) : PoolM (list Z) :=
  p ← get_pool r;
  match pool_FreeList p !! Z.to_nat Index with
  | Some l => mret l
  | None => crash OutOfBounds
  end.

(** CR (..., POOL_FREE, Link, POOL_FREE_SIGNATURE) *)
Definition CR_POOL_FREE (a : Z) : PoolM unit := Signature ← read a; ASSERT (Signature =? POOL_FREE_SIGNATURE).

(** RemoveEntryList, from the list the block is in. *)
Definition unlink_block (a : Z) (p : POOL) : POOL := set_FreeList (map (filter (λ x, x ≠ a)) (pool_FreeList p)) p.
Definition RemoveFree (a : Z) : PoolM unit :=
  modify (λ s, set_mPoolHead (map (unlink_block a) (mPoolHead s)) s);;
  modify (λ s, set_mPoolHeadList (map (λ e, (e.1, unlink_block a e.2)) (mPoolHeadList s)) s).

(** A POOL_FREE is written and inserted at the head of its list. *)
Definition InsertFree (r : PoolRef) (Index a : Z) : PoolM unit :=
  write a POOL_FREE_SIGNATURE;;
  write (a + OFFSET_OF_Index) Index;;
  l ← get_list r Index;
  p ← get_pool r;
  put_pool r (set_FreeList (<[Z.to_nat Index := a :: l]> (pool_FreeList p)) p);;
  forget (a + 8) (a + SIZEOF_POOL_FREE).

(** ** Allocation *)

(** The contents of new pages are not known.  The locks and the protection policy have no counterpart. *)
Definition CoreAllocatePoolPagesI (PoolType NoPages Granularity : Z) : PoolM Z :=
  s ← getS;
  match AllocatePoolPages PoolType NoPages Granularity (pages_state s) with
  | Ok a t => modify (set_pages t);; (if a =? 0 then mret tt else forget a (a + Z.shiftl NoPages EFI_PAGE_SHIFT));; mret a
  | Err e t => modify (set_pages t);; raise e
  | Fault f => crash f
  end.

Definition CoreFreePoolPagesI (Memory NoPages : Z) : PoolM unit :=
  s ← getS;
  match FreePoolPages Memory NoPages (pages_state s) with
  | Ok _ t => modify (set_pages t)
  | Err e t => modify (set_pages t);; raise e
  | Fault f => crash f
  end.

(** NoPages for Size bytes, in units of Granularity. *)
Definition PoolPageCount (Size Granularity : Z) : Z :=
  Z.land (wrapn (EFI_SIZE_TO_PAGES Size + EFI_SIZE_TO_PAGES Granularity - 1)) (lnot_w UINTN_WIDTH (EFI_SIZE_TO_PAGES Granularity - 1)).

(** The loop over the bins with larger blocks, from Index on: the block found and Index when the loop ends. *)
Fixpoint FindLarger (fuel : nat) (r : PoolRef) (Index Limit : Z) : PoolM (option Z * Z) :=
  match fuel with
  | O => crash OutOfFuel
  | S fuel =>
      if Index <? Limit then
        l ← get_list r Index;
        match l with
        | [] => FindLarger fuel r (Index + 1) Limit
        | a :: _ => CR_POOL_FREE a;; RemoveFree a;; mret (Some a, Index)
        end
      else mret (None, Index)
  end.

(** The inner loop that carves up the rest of a block: blocks of FSize bytes; returns Offset. *)
Fixpoint CarveList (fuel : nat) (r : PoolRef) (NewPage Index FSize Offset MaxOffset : Z) : PoolM Z :=
  match fuel with
  | O => crash OutOfFuel
  | S fuel =>
      if Offset + FSize <=? MaxOffset then
        InsertFree r Index (NewPage + Offset);;
        CarveList fuel r NewPage Index FSize (Offset + FSize) MaxOffset
      else mret Offset
  end.

(** The outer loop. *)
Fixpoint CarveLoop (fuel : nat) (r : PoolRef) (NewPage Index Offset MaxOffset : Z) : PoolM Z :=
  match fuel with
  | O => crash OutOfFuel
  | S fuel =>
      if Offset <? MaxOffset then
        ASSERT (Index <? MAX_POOL_LIST);;
        FSize ← LIST_TO_SIZE Index;
        Offset ← CarveList (S (Z.to_nat (MaxOffset / 128))) r NewPage Index FSize Offset MaxOffset;
        CarveLoop fuel r NewPage (wrapn (Index - 1)) Offset MaxOffset
      else mret Offset
  end.

(** From Carve on. *)
Definition Carve (r : PoolRef) (NewPage Index Offset MaxOffset : Z) : PoolM unit :=
  Offset ← CarveLoop (S (Z.to_nat MAX_POOL_LIST)) r NewPage (wrapn (Index - 1)) Offset MaxOffset;
  ASSERT (Offset =? MaxOffset).

(** A block of the list, of a larger one or of new pages: the address of Head, 0 for NULL. *)
Definition AllocateBlock (r : PoolRef) (PoolType Index Granularity : Z) : PoolM Z :=
  l ← get_list r Index;
  match l with
  | [] =>
      Offset ← LIST_TO_SIZE Index;
      '(Free, Index) ← FindLarger (S (Z.to_nat MAX_POOL_LIST)) r (Index + 1) (GetPoolIndexFromSize Granularity);
      match Free with
      | Some NewPage =>
          MaxOffset ← LIST_TO_SIZE Index;
          Carve r NewPage Index Offset MaxOffset;; mret NewPage
      | None =>
          NewPage ← CoreAllocatePoolPagesI PoolType (EFI_SIZE_TO_PAGES Granularity) Granularity;
          if NewPage =? 0 then mret 0
          else Carve r NewPage Index Offset Granularity;; mret NewPage
      end
  | a :: _ => CR_POOL_FREE a;; RemoveFree a;; mret a
  end.

(** From Done on; returns Buffer. *)
Definition FinishAllocation (r : PoolRef) (Head PoolType Size : Z) : PoolM Z :=
  if Head =? 0 then mret 0
  else
    p ← get_pool r;
    put_pool r (set_Used (wrapn (pool_Used p + Size)) p);;
    write Head POOL_HEAD_SIGNATURE;;
    write (Head + OFFSET_OF_Size) Size;;
    write (Head + OFFSET_OF_Type) PoolType;;
    write (HEAD_TO_TAIL Head Size) POOL_TAIL_SIGNATURE;;
    write (HEAD_TO_TAIL Head Size + OFFSET_OF_TailSize) Size;;
    forget (Head + SIZE_OF_POOL_HEAD) (Head + SIZE_OF_POOL_HEAD + wrapn (Size - POOL_OVERHEAD));;
    mret (Head + SIZE_OF_POOL_HEAD).

(** The loop over the pools that were allocated. *)
Fixpoint FindPool (l : list (Z * POOL)) (MemoryType : Z) : PoolM (option Z) :=
  match l with
  | [] => mret None
  | (a, p) :: l' =>
      ASSERT (pool_Signature p =? POOL_SIGNATURE);;
      if pool_MemoryType p =? MemoryType then mret (Some a) else FindPool l' MemoryType
  end.

(** [AllocatePool] is CoreAllocatePoolI. *)
Definition LookupPoolHead (AllocatePool : Z → Z → PoolM Z) (MemoryType : Z) : PoolM (option PoolRef) :=
  if MemoryType <? EfiMaxMemoryType then mret (Some (Builtin MemoryType))
  else if MEMORY_TYPE_OEM_RESERVED_MIN <=? MemoryType then
    s ← getS;
    o ← FindPool (mPoolHeadList s) MemoryType;
    match o with
    | Some a => mret (Some (Allocated_at a))
    | None =>
        a ← AllocatePool EfiBootServicesData SIZEOF_POOL;
        if a =? 0 then mret None
        else
          modify (λ s, set_mPoolHeadList ((a, new_pool POOL_SIGNATURE MemoryType) :: mPoolHeadList s) s);;
          mret (Some (Allocated_at a))
    end
  else mret None.

(** A pool for other types is itself allocated, from the pool of EfiBootServicesData: the recursion ends there. *)
Fixpoint AllocatePoolI_fuel (fuel : nat) (PoolType Size : Z) : PoolM Z :=
  match fuel with
  | O => crash OutOfFuel
  | S fuel =>
      let Granularity := PageAlignment PoolType in
      let Size := wrapn (ALIGN_VALUE UINTN_WIDTH Size UINTN_SIZE + POOL_OVERHEAD) in
      let Index := GetPoolIndexFromSize Size in
      o ← LookupPoolHead (AllocatePoolI_fuel fuel) PoolType;
      match o with
      | None => mret 0
      | Some r =>
          Head ← (if GetPoolIndexFromSize Granularity <=? Index then
                    CoreAllocatePoolPagesI PoolType (PoolPageCount Size Granularity) Granularity
                  else AllocateBlock r PoolType Index Granularity);
          FinishAllocation r Head PoolType Size
      end
  end.
Definition CoreAllocatePoolI : Z → Z → PoolM Z := AllocatePoolI_fuel 2.

(** Returns the address of the buffer. *)
Definition CoreInternalAllocatePool (PoolType Size : Z) : PoolM Z :=
  fail_if (((EfiMaxMemoryType <=? PoolType) && (PoolType <? MEMORY_TYPE_OEM_RESERVED_MIN)) ||
           (PoolType =? EfiConventionalMemory) || (PoolType =? EfiPersistentMemory) ||
           (PoolType =? EfiUnacceptedMemoryType)) RETURN_INVALID_PARAMETER;;
  fail_if (MAX_POOL_SIZE <? Size) RETURN_OUT_OF_RESOURCES;;
  Buffer ← CoreAllocatePoolI PoolType Size;
  fail_if (Buffer =? 0) RETURN_OUT_OF_RESOURCES;;
  mret Buffer.

(** ** Freeing *)

(** Are all blocks of the page free? *)
Fixpoint CheckAllFree (fuel : nat) (NewPage Offset Granularity : Z) : PoolM bool :=
  match fuel with
  | O => crash OutOfFuel
  | S fuel =>
      if Offset <? Granularity then
        Signature ← read (NewPage + Offset);
        Index ← read (NewPage + Offset + OFFSET_OF_Index);
        FSize ← LIST_TO_SIZE Index;
        if negb (Signature =? POOL_FREE_SIGNATURE) then mret false
        else CheckAllFree fuel NewPage (Offset + FSize) Granularity
      else mret true
  end.

(** They are removed from their lists. *)
Fixpoint RemoveAllFree (fuel : nat) (NewPage Offset Granularity : Z) : PoolM unit :=
  match fuel with
  | O => crash OutOfFuel
  | S fuel =>
      if Offset <? Granularity then
        RemoveFree (NewPage + Offset);;
        Index ← read (NewPage + Offset + OFFSET_OF_Index);
        FSize ← LIST_TO_SIZE Index;
        RemoveAllFree fuel NewPage (Offset + FSize) Granularity
      else mret tt
  end.

(** The block is put onto its list; its page is freed if all its blocks are free. *)
Definition FreeBlock (r : PoolRef) (Index Head Granularity : Z) : PoolM unit :=
  InsertFree r Index Head;;
  let NewPage := Z.land Head (lnot_w UINTN_WIDTH (Granularity - 1)) in
  let fuel := S (Z.to_nat (Granularity / 128)) in
  Signature ← read NewPage;
  if Signature =? POOL_FREE_SIGNATURE then
    AllFree ← CheckAllFree fuel NewPage 0 Granularity;
    if (AllFree : bool) then
      RemoveAllFree fuel NewPage 0 Granularity;;
      CoreFreePoolPagesI NewPage (EFI_SIZE_TO_PAGES Granularity)
    else mret tt
  else mret tt.

(** The checks of the head and the tail; returns the type, Size and whether the block is a page of its own. *)
Definition CheckHead (Head : Z) : PoolM (Z * Z * bool) :=
  Signature ← read Head;
  (if negb (Signature =? POOL_HEAD_SIGNATURE) && negb (Signature =? POOLPAGE_HEAD_SIGNATURE) then
     ASSERT ((Signature =? POOL_HEAD_SIGNATURE) || (Signature =? POOLPAGE_HEAD_SIGNATURE));;
     raise RETURN_INVALID_PARAMETER
   else mret tt);;
  Size ← read (Head + OFFSET_OF_Size);
  TailSignature ← read (HEAD_TO_TAIL Head Size);
  TailSize ← read (HEAD_TO_TAIL Head Size + OFFSET_OF_TailSize);
  ASSERT (TailSignature =? POOL_TAIL_SIGNATURE);;
  ASSERT (Size =? TailSize);;
  fail_if (negb (TailSignature =? POOL_TAIL_SIGNATURE)) RETURN_INVALID_PARAMETER;;
  fail_if (negb (Size =? TailSize)) RETURN_INVALID_PARAMETER;;
  Type0 ← read (Head + OFFSET_OF_Type);
  mret (Type0, Size, Signature =? POOLPAGE_HEAD_SIGNATURE).

(** The pool of another type is freed with its last block: the recursion ends with the pool of EfiBootServicesData.  Returns
    *PoolType. *)
Fixpoint FreePoolI_fuel (fuel : nat) (Buffer : Z) : PoolM Z :=
  match fuel with
  | O => crash OutOfFuel
  | S fuel =>
      let Head := Buffer - SIZE_OF_POOL_HEAD in
      '(Type0, Size, PageAsPool) ← CheckHead Head;
      o ← LookupPoolHead CoreAllocatePoolI Type0;
      match o with
      | None => raise RETURN_INVALID_PARAMETER
      | Some r =>
          p ← get_pool r;
          put_pool r (set_Used (wrapn (pool_Used p - Size)) p);;
          let Granularity := PageAlignment Type0 in
          let Index := GetPoolIndexFromSize Size in
          forget Head (Head + Size);;
          (if (GetPoolIndexFromSize Granularity <=? Index) || PageAsPool then
             CoreFreePoolPagesI Head (PoolPageCount Size Granularity)
           else FreeBlock r Index Head Granularity);;
          p ← get_pool r;
          match r with
          | Allocated_at a =>
              if (MEMORY_TYPE_OEM_RESERVED_MIN <=? pool_MemoryType p) && (pool_Used p =? 0) then
                modify (λ s, set_mPoolHeadList (filter (λ e, e.1 ≠ a) (mPoolHeadList s)) s);;
                FreePoolI_fuel fuel a;; mret Type0
              else mret Type0
          | Builtin _ => mret Type0
          end
      end
  end.
Definition CoreFreePoolI : Z → PoolM Z := FreePoolI_fuel 2.

(** NULL is 0. *)
Definition CoreInternalFreePool (Buffer : Z) : PoolM Z :=
  fail_if (Buffer =? 0) RETURN_INVALID_PARAMETER;;
  CoreFreePoolI Buffer.
End Code.

#[global] Instance PAGES_PoolPages `{!Platform, !PageConfig} : PoolPages PAGES := {
  AllocatePoolPages := CoreAllocatePoolPages CoreFreeMemoryMapStack;
  FreePoolPages := CoreFreePoolPages;
}.
