(* ===== verification/PoolSpec.v ===== *)
(** Pool.c: what the pool needs of the page allocator, the blocks of a page, and the operations on the lists of free blocks. *)
From stdpp Require Import list gmap.
From S2P Require Import Prelude Base Buffer Platform Overflow ImageRecord MemoryMap SplitTable SplitCoverage MemoryMerge GetMemoryMap PageAlloc PageMapSpec PageFind PageConvert PageStack PageServices PageSample PageAllocate PoolAlloc.

(** ** The sizes *)

(** The size of the blocks of a list. *)
Definition bsize (i : Z) : Z := default 0 (mPoolSizeTable !! Z.to_nat i).

(** A property of the lists is one of each of them. *)
Lemma index_cases (Q : Z → Prop) i : Forall Q [0; 1; 2; 3; 4; 5; 6; 7; 8; 9; 10; 11] → 0 <= i < MAX_POOL_LIST → Q i.
Proof.
  intros HQ Hi. apply (proj1 (list.Forall_forall _ _) HQ). unfold MAX_POOL_LIST in Hi.
  assert (i = 0 ∨ i = 1 ∨ i = 2 ∨ i = 3 ∨ i = 4 ∨ i = 5 ∨ i = 6 ∨ i = 7 ∨ i = 8 ∨ i = 9 ∨ i = 10 ∨ i = 11) as Hc by lia.
  rewrite !list.elem_of_cons. tauto.
Qed.

Lemma bsize_facts i : 0 <= i < MAX_POOL_LIST → 128 <= bsize i ∧ (128 | bsize i) ∧ bsize i <= 29824 ∧ (bsize i <= 2688 ∨ 7 <= i).
Proof.
  apply (index_cases (λ i, 128 <= bsize i ∧ (128 | bsize i) ∧ bsize i <= 29824 ∧ (bsize i <= 2688 ∨ 7 <= i))).
  repeat (constructor; [split_and!; [done|by apply Z.mod_divide|done|first [by left|by right]]|]). constructor.
Qed.

(** The first list with blocks of at least the size. *)
Lemma PoolIndex_from_spec l Size : ∀ k, let i := PoolIndex_from l k Size in
  0 <= k → k + Z.of_nat (length l) = MAX_POOL_LIST → k <= i <= MAX_POOL_LIST ∧ (i < MAX_POOL_LIST → ∃ x, l !! Z.to_nat (i - k) = Some x ∧ Size <= x) ∧
  ∀ j x, k <= j < i → l !! Z.to_nat (j - k) = Some x → x < Size.
Proof.
  induction l as [|x l IH]; intros k i Hk Hl; cbn in i; cbn [length] in Hl.
  { unfold i. split_and!; [lia|lia|lia|]. intros j y Hj Hy. done. }
  unfold i. destruct (Z.leb_spec Size x).
  - split_and!; [lia|lia| |lia]. intros _. exists x. by rewrite Z.sub_diag.
  - destruct (IH (k + 1)) as (H1 & H2 & H3); [lia|lia|]. split_and!; [lia|lia|..].
    + intros Hi. destruct (H2 Hi) as (y & Hy & ?). exists y. split; [|done].
      replace (Z.to_nat (_ - k)) with (S (Z.to_nat (PoolIndex_from l (k + 1) Size - (k + 1)))) by lia. done.
    + intros j y Hj Hy. destruct (decide (j = k)) as [->|]; [rewrite Z.sub_diag in Hy; by injection Hy as ->|].
      replace (Z.to_nat (j - k)) with (S (Z.to_nat (j - (k + 1)))) in Hy by lia. apply (H3 j y); [lia|done].
Qed.

Lemma GetPoolIndexFromSize_spec Size : let i := GetPoolIndexFromSize Size in
  0 <= i <= MAX_POOL_LIST ∧ (i < MAX_POOL_LIST → Size <= bsize i) ∧ ∀ j, 0 <= j < i → bsize j < Size.
Proof.
  cbv zeta. unfold GetPoolIndexFromSize. destruct (PoolIndex_from_spec mPoolSizeTable Size 0) as (H1 & H2 & H3); [done|done|]. split_and!; [lia|lia|..].
  - intros Hi. destruct (H2 Hi) as (x & Hx & ?). unfold bsize. rewrite Z.sub_0_r in Hx. by rewrite Hx.
  - intros j Hj. destruct (lookup_lt_is_Some_2 mPoolSizeTable (Z.to_nat j)) as [x Hx]; [cbn; unfold MAX_POOL_LIST in *; lia|].
    unfold bsize. rewrite Hx. cbn. apply (H3 j x); [lia|by rewrite Z.sub_0_r].
Qed.

(** ** The page allocator, as the pool sees it *)

Record Region := {
  rg_type : Z;
  rg_base : Z;
  rg_size : Z;
}.

Definition apart_from (r r' : Region) : Prop := rg_base r + rg_size r <= rg_base r' ∨ rg_base r' + rg_size r' <= rg_base r.

(** The types of memory that have a pool from the start. *)
Definition pool_type (T : Z) : Prop :=
  0 <= T < EfiMaxMemoryType ∧ T ≠ EfiConventionalMemory ∧ T ≠ EfiPersistentMemory ∧ T ≠ EfiUnacceptedMemoryType.

Class PoolPagesLaws `{!Platform, !PageConfig} (P : Type) `{!PoolPages P} := {
  (** The regions of memory that are allocated. *)
  holds : P → list Region → Prop;
  (** Pages of the type can be asked for. *)
  ready : P → Z → Z → Prop;
  holds_perm : ∀ s L L', L ≡ₚ L' → holds s L → holds s L';
  holds_apart : ∀ s r r' L, holds s (r :: r' :: L) → apart_from r r';
  holds_range : ∀ s r L, holds s (r :: L) → 0 < rg_base r ∧ rg_base r + rg_size r <= 2 ^ UINTN_WIDTH;
  AllocatePoolPages_law : ∀ s L T N, holds s L → pool_type T → 0 < N → (PageAlignment T | N * 2 ^ EFI_PAGE_SHIFT) →
    N + 16 < 2 ^ UINTN_WIDTH → (N + 16) * 2 ^ EFI_PAGE_SHIFT <= 2 ^ UINTN_WIDTH → ready s T (N * 2 ^ EFI_PAGE_SHIFT) →
    wp (AllocatePoolPages T N (PageAlignment T))
      (λ a s', a = 0 ∧ holds s' L ∨ 0 < a ∧ (PageAlignment T | a) ∧ holds s' ({| rg_type := T; rg_base := a; rg_size := N * 2 ^ EFI_PAGE_SHIFT |} :: L))
      (λ _ _, False) s;
  FreePoolPages_law : ∀ s L T a N, holds s ({| rg_type := T; rg_base := a; rg_size := N * 2 ^ EFI_PAGE_SHIFT |} :: L) → pool_type T →
    0 < N → (PageAlignment T | N * 2 ^ EFI_PAGE_SHIFT) →
    wp (FreePoolPages a N) (λ _ s', holds s' L) (λ _ _, False) s;
}.

Section Spec.
Context `{!Platform, !PlatformOk, !PageConfig, !PageConfigOk} {P : Type} `{!PoolPages P}.

(** ** Memory *)

(** The two memories differ between [a] and [b] only. *)
Definition same_outside (m m' : gmap Z Z) (a b : Z) : Prop := ∀ x, ¬ a <= x < b → m' !! x = m !! x.

Lemma same_outside_trans m1 m2 m3 a b : same_outside m1 m2 a b → same_outside m2 m3 a b → same_outside m1 m3 a b.
Proof. intros H1' H2' x Hx. by rewrite H2', H1'. Qed.

Lemma same_outside_sub m m' a b a' b' : a' <= a → b <= b' → same_outside m m' a b → same_outside m m' a' b'.
Proof. intros Ha Hb Hs x Hx. apply Hs. lia. Qed.

Lemma same_outside_insert m a b x v : a <= x < b → same_outside m (<[x := v]> m) a b.
Proof. intros Hx y Hy. rewrite lookup_insert_ne; [done|]. intros ->. done. Qed.

Lemma forgotten_lookup a b m x : forgotten a b m !! x = if decide (a <= x < b) then None else m !! x.
Proof.
  unfold forgotten. case_decide as Hx.
  - apply map_lookup_filter_None. right. intros v _ Hn. by apply Hn.
  - destruct (m !! x) as [v|] eqn:Hm.
    + by apply map_lookup_filter_Some.
    + apply map_lookup_filter_None. by left.
Qed.

Lemma same_outside_forgotten m a b a' b' : a' <= a → b <= b' → same_outside m (forgotten a b m) a' b'.
Proof. intros Ha Hb x Hx. rewrite forgotten_lookup, decide_False by lia. done. Qed.

Lemma layout_facts : 4 <= UINTN_SIZE <= 8 ∧ (UINTN_SIZE = 4 ∨ UINTN_SIZE = 8) ∧ 12 <= OFFSET_OF_Size <= 16 ∧ OFFSET_OF_Size = 8 + UINTN_SIZE ∧
  SIZE_OF_POOL_HEAD = OFFSET_OF_Size + UINTN_SIZE ∧ SIZEOF_POOL_TAIL = 8 + UINTN_SIZE ∧ SIZEOF_POOL_FREE = 8 + 2 * UINTN_SIZE ∧
  POOL_OVERHEAD = SIZE_OF_POOL_HEAD + SIZEOF_POOL_TAIL ∧ UINTN_WIDTH = 8 * UINTN_SIZE.
Proof.
  unfold POOL_OVERHEAD, SIZE_OF_POOL_HEAD, SIZEOF_POOL_TAIL, SIZEOF_POOL_FREE, OFFSET_OF_Size, UINTN_SIZE.
  destruct platform_uintn as [->| ->]; (split_and!; [done|done|by auto|done..]).
Qed.

(** ** The blocks of a page *)

(** A block: its list, and Size of its head if it is in use. *)
Definition block : Type := Z * option Z.

Definition block_ok (limit : Z) (b : block) : Prop :=
  0 <= b.1 < limit ∧ ∀ Size, b.2 = Some Size → POOL_OVERHEAD <= Size ∧ GetPoolIndexFromSize Size = b.1.

(** The head and the tail of a block that is in use. *)
Record head_mem (m : gmap Z Z) (T a Size : Z) : Prop := {
  hm_signature : m !! a = Some POOL_HEAD_SIGNATURE;
  hm_size : m !! (a + OFFSET_OF_Size) = Some Size;
  hm_type : m !! (a + OFFSET_OF_Type) = Some T;
  hm_tail : m !! HEAD_TO_TAIL a Size = Some POOL_TAIL_SIGNATURE;
  hm_tail_size : m !! (HEAD_TO_TAIL a Size + OFFSET_OF_TailSize) = Some Size;
}.

(** What is in memory for a block at [a].  The Index of a block that is in use is an old one, but not known for the first block of
    a page. *)
Definition block_mem (m : gmap Z Z) (T base a : Z) (b : block) : Prop :=
  match b.2 with
  | None => m !! a = Some POOL_FREE_SIGNATURE ∧ m !! (a + OFFSET_OF_Index) = Some b.1
  | Some Size => head_mem m T a Size ∧ (a ≠ base → ∃ j, m !! (a + OFFSET_OF_Index) = Some j ∧ 0 <= j < MAX_POOL_LIST)
  end.

Lemma head_mem_frame m m' T a Size lo hi :
  same_outside m m' lo hi → POOL_OVERHEAD <= Size → a + Size <= lo ∨ hi <= a → head_mem m T a Size → head_mem m' T a Size.
Proof.
  intros Hs HS Hd [? ? ? ? ?]. destruct layout_facts as (? & ? & ? & ? & ? & ? & ? & ? & ?).
  constructor; (rewrite Hs; [done|]); unfold HEAD_TO_TAIL, OFFSET_OF_Type, OFFSET_OF_TailSize; lia.
Qed.

Definition blocks_total (bs : list block) : Z := foldr (λ b n, bsize b.1 + n) 0 bs.

Lemma blocks_total_app bs bs' : blocks_total (bs ++ bs') = blocks_total bs + blocks_total bs'.
Proof. unfold blocks_total. induction bs as [|b bs IH]; cbn [foldr app]; [done|]. rewrite IH. lia. Qed.

Lemma blocks_total_cons b bs : blocks_total (b :: bs) = bsize b.1 + blocks_total bs.
Proof. done. Qed.

Lemma pool_block_bounds limit b : limit <= MAX_POOL_LIST → block_ok limit b → 128 <= bsize b.1 ∧ (128 | bsize b.1) ∧ ∀ Size, b.2 = Some Size → Size <= bsize b.1.
Proof.
  intros Hlim [Hi Hu]. destruct (bsize_facts b.1) as (? & ? & _); [lia|]. split_and!; [done|done|]. intros Size HS. destruct (Hu Size HS) as [_ Heq].
  destruct (GetPoolIndexFromSize_spec Size) as (_ & Hle & _). rewrite Heq in Hle. apply Hle. lia.
Qed.

Lemma blocks_total_facts limit bs : limit <= MAX_POOL_LIST → Forall (block_ok limit) bs → 0 <= blocks_total bs ∧ (128 | blocks_total bs).
Proof.
  intros Hlim. induction 1 as [|b bs Hb _ IH]; [split; [done|by exists 0]|]. rewrite blocks_total_cons.
  destruct (pool_block_bounds limit b Hlim Hb) as (? & ? & _). destruct IH. split; [lia|by apply Z.divide_add_r].
Qed.

Lemma block_mem_frame limit m m' T base a b lo hi :
  limit <= MAX_POOL_LIST → block_ok limit b → same_outside m m' lo hi → a + bsize b.1 <= lo ∨ hi <= a → block_mem m T base a b → block_mem m' T base a b.
Proof.
  intros Hlim Hb Hs Hd. destruct (pool_block_bounds limit b Hlim Hb) as (Hsz & _ & Hu). destruct Hb as [_ Hb]. unfold block_mem. destruct b as [i [Size|]]; cbn in *.
  - intros [Hh Hj]. specialize (Hu Size eq_refl). destruct (Hb Size eq_refl) as [HO _]. split; [eapply head_mem_frame; [done|done| |done]; lia|].
    intros Hne. destruct (Hj Hne) as (j & Hm & ?). exists j. split; [|done]. rewrite Hs; [done|]. unfold OFFSET_OF_Index. lia.
  - intros [? ?]. split; (rewrite Hs; [done|]); unfold OFFSET_OF_Index; lia.
Qed.

(** The blocks from [a] on. *)
Fixpoint blocks_mem (m : gmap Z Z) (T base a : Z) (bs : list block) : Prop :=
  match bs with
  | [] => True
  | b :: bs' => block_mem m T base a b ∧ blocks_mem m T base (a + bsize b.1) bs'
  end.

Lemma blocks_mem_app m T base bs bs' : ∀ a, blocks_mem m T base a (bs ++ bs') ↔ blocks_mem m T base a bs ∧ blocks_mem m T base (a + blocks_total bs) bs'.
Proof.
  induction bs as [|b bs IH]; intros a; cbn [app blocks_mem].
  - rewrite Z.add_0_r. tauto.
  - rewrite IH, blocks_total_cons, Z.add_assoc. tauto.
Qed.

Lemma blocks_mem_frame limit m m' T base lo hi bs : ∀ a,
  limit <= MAX_POOL_LIST → Forall (block_ok limit) bs → same_outside m m' lo hi → a + blocks_total bs <= lo ∨ hi <= a →
  blocks_mem m T base a bs → blocks_mem m' T base a bs.
Proof.
  induction bs as [|b bs IH]; intros a Hlim Hbs Hs Hd; [done|]. apply list.Forall_cons in Hbs as [Hb Hbs].
  destruct (pool_block_bounds limit b Hlim Hb) as (? & _). destruct (blocks_total_facts limit bs Hlim Hbs) as [? _]. rewrite blocks_total_cons in Hd.
  intros [Hm Hms]. split; [eapply (block_mem_frame limit); try done; lia|]. apply IH; try done. lia.
Qed.

(** The addresses of the free blocks of a list. *)
Fixpoint free_at (i a : Z) (bs : list block) : list Z :=
  match bs with
  | [] => []
  | b :: bs' => (if decide (b = (i, None)) then [a] else []) ++ free_at i (a + bsize b.1) bs'
  end.

Lemma free_at_app i bs bs' : ∀ a, free_at i a (bs ++ bs') = free_at i a bs ++ free_at i (a + blocks_total bs) bs'.
Proof.
  induction bs as [|b bs IH]; intros a; cbn [app free_at]; [by rewrite Z.add_0_r|]. by rewrite IH, blocks_total_cons, Z.add_assoc, app_assoc.
Qed.

Lemma free_at_range limit i bs x : ∀ a, limit <= MAX_POOL_LIST → Forall (block_ok limit) bs → x ∈ free_at i a bs → a <= x < a + blocks_total bs.
Proof.
  induction bs as [|b bs IH]; intros a Hlim Hbs Hx; [by apply elem_of_nil in Hx|]. apply list.Forall_cons in Hbs as [Hb Hbs].
  destruct (pool_block_bounds limit b Hlim Hb) as (? & _). destruct (blocks_total_facts limit bs Hlim Hbs) as [? _]. rewrite blocks_total_cons.
  cbn [free_at] in Hx. apply elem_of_app in Hx as [Hx|Hx].
  - case_decide; [apply list_elem_of_singleton in Hx as ->; lia|by apply elem_of_nil in Hx].
  - apply IH in Hx; [lia|done|done].
Qed.

(** The block at an address of a list. *)
Lemma free_at_block i bs x : ∀ a, x ∈ free_at i a bs → ∃ B1 B2, bs = B1 ++ (i, None) :: B2 ∧ x = a + blocks_total B1.
Proof.
  induction bs as [|b bs IH]; intros a Hx; [by apply elem_of_nil in Hx|]. cbn [free_at] in Hx. apply elem_of_app in Hx as [Hx|Hx].
  - case_decide as Hb; [|by apply elem_of_nil in Hx]. apply list_elem_of_singleton in Hx as ->. subst b. exists [], bs. split; [done|]. cbn. lia.
  - apply IH in Hx as (B1 & B2 & -> & ->). exists (b :: B1), B2. split; [done|]. rewrite blocks_total_cons. lia.
Qed.
End Spec.
