(* ===== verification/PoolLists.v ===== *)
(** Pool.c: the lists of free blocks, and the carving of blocks. *)
From stdpp Require Import list gmap.
From S2P Require Import Prelude Base Buffer Platform Overflow ImageRecord MemoryMap SplitTable SplitCoverage MemoryMerge GetMemoryMap PageAlloc PageMapSpec PageFind PageConvert PageStack PageServices PageSample PageAllocate PoolAlloc PoolSpec.

Section Lists.
Context `{!Platform, !PlatformOk, !PageConfig, !PageConfigOk} {P : Type} `{!PoolPages P}.
Implicit Types s : POOLS P.

Lemma wp_read a v (Q : Z → POOLS P → Prop) E s : memory s !! a = Some v → Q v s → wp (read a) Q E s.
Proof. intros Hm HQ. unfold read. do 2 wp_step. rewrite Hm. by wp_step. Qed.

Lemma wp_LIST_TO_SIZE i (Q : Z → POOLS P → Prop) E s : 0 <= i < MAX_POOL_LIST → Q (bsize i) s → wp (LIST_TO_SIZE i) Q E s.
Proof.
  intros Hi HQ. unfold LIST_TO_SIZE, bsize in *. destruct (lookup_lt_is_Some_2 mPoolSizeTable (Z.to_nat i)) as [x Hx]; [cbn; unfold MAX_POOL_LIST in *; lia|].
  rewrite Hx in *. by wp_step.
Qed.

(** The pools of the types that have one from the start. *)
Record PoolsOk s : Prop := {
  pk_pools : length (mPoolHead s) = Z.to_nat EfiMaxMemoryType;
  pk_lists : Forall (λ p, length (pool_FreeList p) = Z.to_nat MAX_POOL_LIST) (mPoolHead s);
  pk_none : mPoolHeadList s = [];
}.

Definition free_list s (T i : Z) : list Z := default [] (mPoolHead s !! Z.to_nat T ≫= λ p, pool_FreeList p !! Z.to_nat i).

Definition in_lists (T i : Z) : Prop := 0 <= T < EfiMaxMemoryType ∧ 0 <= i < MAX_POOL_LIST.

Lemma pool_lookup s T i : PoolsOk s → in_lists T i → ∃ p, mPoolHead s !! Z.to_nat T = Some p ∧ pool_FreeList p !! Z.to_nat i = Some (free_list s T i) ∧
  length (pool_FreeList p) = Z.to_nat MAX_POOL_LIST.
Proof.
  intros [Hp Hl _] [HT Hi]. destruct (lookup_lt_is_Some_2 (mPoolHead s) (Z.to_nat T)) as [p Hlp]; [lia|]. exists p.
  pose proof (Forall_lookup_1 _ _ _ _ Hl Hlp) as Hlen. cbn in Hlen. split_and!; [done| |done]. unfold free_list. rewrite Hlp. cbn.
  destruct (lookup_lt_is_Some_2 (pool_FreeList p) (Z.to_nat i)) as [l Hll]; [lia|]. by rewrite Hll.
Qed.

Lemma wp_get_pool T (Q : POOL → POOLS P → Prop) E s p : mPoolHead s !! Z.to_nat T = Some p → Q p s → wp (get_pool (Builtin T)) Q E s.
Proof. intros Hp HQ. unfold get_pool. do 2 wp_step. rewrite Hp. by wp_step. Qed.

Lemma wp_get_list T i (Q : list Z → POOLS P → Prop) E s : PoolsOk s → in_lists T i → Q (free_list s T i) s → wp (get_list (Builtin T) i) Q E s.
Proof.
  intros Hok Hin HQ. destruct (pool_lookup s T i Hok Hin) as (p & Hp & Hl & _). unfold get_list. wp_step. apply (wp_get_pool _ _ _ _ p Hp). rewrite Hl. by wp_step.
Qed.

(** ** Changes of the lists *)

Definition set_pool T (p : POOL) s : POOLS P := set_mPoolHead (<[Z.to_nat T := p]> (mPoolHead s)) s.

Lemma set_pool_ok T p s : PoolsOk s → length (pool_FreeList p) = Z.to_nat MAX_POOL_LIST → PoolsOk (set_pool T p s).
Proof. intros [? ? ?] Hl. constructor; cbn; [by rewrite length_insert|by apply Forall_insert|done]. Qed.

(** Only Used of a pool changes. *)
Lemma set_Used_lists T v s p : mPoolHead s !! Z.to_nat T = Some p → PoolsOk s →
  PoolsOk (set_pool T (set_Used v p) s) ∧ ∀ T' i, free_list (set_pool T (set_Used v p) s) T' i = free_list s T' i.
Proof.
  intros Hp Hok. split.
  - apply set_pool_ok; [done|]. apply (Forall_lookup_1 _ _ _ _ (pk_lists _ Hok) Hp).
  - intros T' i. unfold free_list, set_pool. cbn. destruct (decide (Z.to_nat T' = Z.to_nat T)) as [->|Hne].
    + rewrite list_lookup_insert_eq by (by eapply lookup_lt_Some). by rewrite Hp.
    + by rewrite list_lookup_insert_ne.
Qed.

(** The block [a] of the memory is at the head of the list. *)
Record Inserted (T i a : Z) s s' : Prop := {
  in_pages : pages_state s' = pages_state s;
  in_ok : PoolsOk s';
  in_list : ∀ T' i', in_lists T' i' → free_list s' T' i' = (if decide (T' = T ∧ i' = i) then [a] else []) ++ free_list s T' i';
  in_memory : same_outside (memory s) (memory s') a (a + 128);
  in_block : ∀ T0 base, block_mem (memory s') T0 base a (i, None);
}.

Lemma InsertFree_spec T i a s E : PoolsOk s → in_lists T i → wp (InsertFree (Builtin T) i a) (λ _, Inserted T i a s) E s.
Proof.
  intros Hok Hin. destruct layout_facts as (? & ? & ? & ? & ? & ? & ? & ? & ?). unfold InsertFree, write, forget. do 4 wp_step.
  set (m := <[a + OFFSET_OF_Index := i]> _). assert (PoolsOk (set_memory m s)) as Hok1 by (by destruct Hok). cbn [set_memory memory] in *.
  wp_step. apply wp_get_list; [by destruct Hok; constructor|done|]. destruct (pool_lookup s T i Hok Hin) as (p & Hp & Hl & Hlen).
  wp_step. eapply wp_get_pool; [exact Hp|]. wp_step. unfold put_pool. wp_step. wp_step.
  change (free_list (set_memory m _) T i) with (free_list s T i).
  constructor; cbn [pages_state memory set_memory set_mPoolHead mPoolHead]; [done|..].
  - destruct Hok as [? ? ?]. constructor; cbn; [by rewrite length_insert| |done]. apply Forall_insert; [done|]. cbn. by rewrite length_insert.
  - intros T' i' [HT' Hi']. destruct Hin as [HT Hi]. unfold free_list. cbn. destruct (decide (T' = T)) as [->|Hne].
    + rewrite list_lookup_insert_eq by (by eapply lookup_lt_Some). rewrite Hp. cbn. destruct (decide (i' = i)) as [->|Hni].
      * rewrite decide_True by done. rewrite list_lookup_insert_eq by (by eapply lookup_lt_Some). by rewrite Hl.
      * rewrite decide_False by tauto. rewrite list_lookup_insert_ne by lia. done.
    + rewrite decide_False by tauto. rewrite list_lookup_insert_ne by lia. done.
  - eapply same_outside_trans; [|apply same_outside_forgotten; lia]. unfold m, OFFSET_OF_Index.
    eapply same_outside_trans; [apply (same_outside_insert _ _ _ a); lia|]. apply same_outside_insert. lia.
  - intros T0 base. unfold block_mem. cbn. rewrite !forgotten_lookup, !decide_False by (unfold OFFSET_OF_Index; lia). unfold m, OFFSET_OF_Index.
    rewrite lookup_insert_eq, lookup_insert_ne, lookup_insert_eq by lia. done.
Qed.

Lemma RemoveFree_spec a s E : PoolsOk s → wp (RemoveFree a) (λ _ s', pages_state s' = pages_state s ∧ memory s' = memory s ∧ PoolsOk s' ∧
  ∀ T i, in_lists T i → free_list s' T i = filter (λ x, x ≠ a) (free_list s T i)) E s.
Proof.
  intros [Hp Hl Hn]. unfold RemoveFree. do 3 wp_step. cbn. split_and!; [done|done|constructor; cbn|].
  - by rewrite length_map.
  - apply list.Forall_forall. intros p' (p & -> & Hpin)%list_elem_of_fmap. cbn. rewrite length_map. by apply (proj1 (list.Forall_forall _ _) Hl).
  - by rewrite Hn.
  - intros T i Hin. unfold free_list. cbn. rewrite list_lookup_fmap. destruct (mPoolHead s !! Z.to_nat T) as [p|]; [|done]. cbn.
    rewrite list_lookup_fmap. by destruct (pool_FreeList p !! Z.to_nat i).
Qed.

(** ** Carving *)

Definition free_blocks (limit : Z) (bs : list block) : Prop := Forall (λ b, 0 <= b.1 < limit ∧ b.2 = None) bs.

Lemma free_blocks_ok limit bs : free_blocks limit bs → Forall (block_ok limit) bs.
Proof. intros Hf. eapply list.Forall_impl; [exact Hf|]. intros [i u] [Hi Hu]. cbn in *. subst u. by split. Qed.

(** The blocks [bs] have been carved at [a]. *)
Record Carved (T a : Z) (bs : list block) s s' : Prop := {
  ca_pages : pages_state s' = pages_state s;
  ca_ok : PoolsOk s';
  ca_list : ∀ T' i', in_lists T' i' → free_list s' T' i' ≡ₚ (if decide (T' = T) then free_at i' a bs else []) ++ free_list s T' i';
  ca_memory : same_outside (memory s) (memory s') a (a + blocks_total bs);
  ca_blocks : ∀ T0 base, blocks_mem (memory s') T0 base a bs;
}.

Lemma Carved_nil T a s : PoolsOk s → Carved T a [] s s.
Proof. intros Hok. constructor; [done|done| |done|done]. intros. by case_decide. Qed.

Lemma Carved_app T a limit bs bs' s s1 s2 :
  limit <= MAX_POOL_LIST → free_blocks limit bs → free_blocks limit bs' → Carved T a bs s s1 → Carved T (a + blocks_total bs) bs' s1 s2 → Carved T a (bs ++ bs') s s2.
Proof.
  intros Hlim Hb Hb' [P1 _ L1 M1 B1] [P2 O2 L2 M2 B2]. pose proof (free_blocks_ok _ _ Hb) as Hbo. pose proof (free_blocks_ok _ _ Hb') as Hbo'.
  destruct (blocks_total_facts _ _ Hlim Hbo) as [? _]. destruct (blocks_total_facts _ _ Hlim Hbo') as [? _].
  constructor; [congruence|done|..].
  - intros T' i' Hin. rewrite (L2 T' i' Hin), (L1 T' i' Hin). case_decide; [|done]. rewrite free_at_app, (app_assoc (free_at i' (a + _) _)).
    by rewrite (Permutation_app_comm (free_at i' (a + blocks_total bs) bs')).
  - rewrite blocks_total_app. eapply same_outside_trans; [eapply same_outside_sub; [| |exact M1]|eapply same_outside_sub; [| |exact M2]]; lia.
  - intros T0 base. apply blocks_mem_app. split; [|apply B2]. eapply (blocks_mem_frame limit); [done|done|exact M2| |apply B1]. lia.
Qed.

Lemma Inserted_Carved T i a s s' : 0 <= i < MAX_POOL_LIST → Inserted T i a s s' → Carved T a [(i, None)] s s'.
Proof.
  intros Hi [Q1 O1 L1 M1 B1]. destruct (bsize_facts i Hi) as (? & _). constructor; [done|done|..].
  - intros T' i' Hin. rewrite (L1 T' i' Hin). cbn [free_at app]. rewrite app_nil_r. repeat case_decide; try done; try naive_solver.
  - eapply same_outside_sub; [| |exact M1]; [lia|]. rewrite blocks_total_cons. cbn. lia.
  - intros T0 base. by split.
Qed.

Lemma CarveList_spec T NewPage Index MaxOffset E fuel : ∀ Offset s,
  PoolsOk s → in_lists T Index → Offset <= MaxOffset → MaxOffset - Offset < 128 * Z.of_nat fuel →
  wp (CarveList fuel (Builtin T) NewPage Index (bsize Index) Offset MaxOffset)
    (λ Offset' s', ∃ n, let bs := replicate n (Index, None) in Offset' = Offset + blocks_total bs ∧ Offset' <= MaxOffset < Offset' + bsize Index ∧
       Carved T (NewPage + Offset) bs s s') E s.
Proof.
  induction fuel as [|fuel IH]; intros Offset s Hok Hin Hle Hf; [lia|]. destruct (bsize_facts Index) as (Hsz & _); [apply Hin|].
  cbn [CarveList]. wp_step.
  - wp_step. eapply wp_mono; [by apply InsertFree_spec| |done]. intros ? s1 Hins. pose proof (Inserted_Carved _ _ _ _ _ (proj2 Hin) Hins) as Hc1.
    eapply wp_mono; [apply IH; [apply (ca_ok _ _ _ _ _ Hc1)|done|lia|lia]| |done].
    intros Offset' s' (n & -> & Hb & Hc). exists (S n). cbn zeta. cbn [replicate]. rewrite blocks_total_cons. cbn [fst]. split_and!; [lia|lia|lia|].
    change ((Index, None) :: replicate n (Index, None)) with ([(Index, @None Z)] ++ replicate n (Index, None)).
    apply (Carved_app T _ MAX_POOL_LIST _ _ s s1); [lia|..]; [|apply Forall_replicate; split; [apply Hin|done]|done|].
    + constructor; [split; [apply Hin|done]|constructor].
    + rewrite blocks_total_cons. cbn [fst blocks_total foldr]. by rewrite Z.add_0_r, <- Z.add_assoc.
  - wp_step. exists 0%nat. cbn. split_and!; [lia|lia|lia|by apply Carved_nil].
Qed.

Lemma CarveLoop_spec T NewPage MaxOffset E fuel : ∀ Index Offset s,
  PoolsOk s → 0 <= T < EfiMaxMemoryType → 0 <= Index → Index < MAX_POOL_LIST ∨ Offset = MaxOffset → 0 <= Offset <= MaxOffset → (128 | MaxOffset - Offset) →
  Index + 1 < Z.of_nat fuel ∨ Offset = MaxOffset ∧ (0 < fuel)%nat →
  wp (CarveLoop fuel (Builtin T) NewPage Index Offset MaxOffset)
    (λ Offset' s', Offset' = MaxOffset ∧ ∃ bs, free_blocks (Index + 1) bs ∧ (Offset = MaxOffset → bs = []) ∧ blocks_total bs = MaxOffset - Offset ∧ Carved T (NewPage + Offset) bs s s') E s.
Proof.
  induction fuel as [|fuel IH]; intros Index Offset s Hok HT HI0 HI Hle Hd Hf; [lia|]. cbn [CarveLoop]. wp_step.
  - assert (0 <= Index < MAX_POOL_LIST) as HIn by lia. destruct (bsize_facts Index HIn) as (Hsz & Hsd & _ & _).
    wp_step. wp_step; [lia|]. wp_step. apply wp_LIST_TO_SIZE; [done|]. wp_step.
    eapply wp_mono; [apply (CarveList_spec T NewPage Index MaxOffset E _ Offset s); [done|done|lia|]| |done].
    { pose proof (Z.div_mod MaxOffset 128). pose proof (Z.mod_pos_bound MaxOffset 128). rewrite Nat2Z.inj_succ, Z2Nat.id by (apply Z.div_pos; lia). lia. }
    intros Offset' s1 (n & Ho & Hb & Hc). set (bs := replicate n (Index, None)) in *.
    assert (free_blocks (Index + 1) bs) as Hfb by (apply Forall_replicate; split; [cbn; lia|done]).
    destruct (blocks_total_facts (Index + 1) bs) as [Hbt Hbd]; [lia|by apply free_blocks_ok|].
    assert ((128 | MaxOffset - Offset')) as Hd' by (replace (MaxOffset - Offset') with (MaxOffset - Offset - blocks_total bs) by lia; by apply Z.divide_sub_r).
    assert (wrapn (Index - 1) = Index - 1 ∨ Offset' = MaxOffset) as Hw.
    { destruct (decide (Index = 0)) as [->|]; [right; destruct Hd' as [q Hq]; change (bsize 0) with 128 in Hb; lia|left].
      apply wrap_small. pose proof UINTN_WIDTH_64. pose proof (Z.pow_le_mono_r 2 32 UINTN_WIDTH ltac:(done) ltac:(lia)). unfold MAX_POOL_LIST in *. split; lia. }
    eapply wp_mono; [apply (IH (wrapn (Index - 1)) Offset' s1)| |done]; [apply (ca_ok _ _ _ _ _ Hc)|done|apply wrap_range; pose proof UINTN_WIDTH_64; lia|..].
    + destruct (decide (Offset' = MaxOffset)); [by right|left]. destruct Hw as [->|?]; [|done]. destruct (decide (Index = 0)) as [->|]; [|lia].
      destruct Hd' as [q Hq]. change (bsize 0) with 128 in Hb. lia.
    + lia.
    + done.
    + destruct (decide (Offset' = MaxOffset)); [right; split; [done|]|left; destruct Hw as [->|?]; [|done]]; lia.
    + intros Offset2 s2 (-> & bs' & Hfb' & Hnil & Ht' & Hc'). split; [done|]. exists (bs ++ bs').
      assert (free_blocks (Index + 1) bs') as Hfb2.
      { destruct Hw as [Hw|Hw]; [rewrite Hw in Hfb'; eapply list.Forall_impl; [exact Hfb'|]; intros b [? ?]; split; [lia|done]|].
        rewrite Hnil by done. constructor. }
      split_and!; [by apply Forall_app|lia|rewrite blocks_total_app; lia|].
      apply (Carved_app T _ (Index + 1) bs bs' s s1); [lia|done|done|done|]. replace (NewPage + Offset + blocks_total bs) with (NewPage + Offset') by lia. done.
  - wp_step. assert (Offset = MaxOffset) by lia. split; [done|]. exists []. split_and!; [constructor|done|cbn; lia|by apply Carved_nil].
Qed.
End Lists.
