(* ===== verification/PoolInv.v ===== *)
(** Pool.c: the invariant of the pool. *)
From stdpp Require Import list gmap.
From S2P Require Import Prelude Base Buffer Platform Overflow ImageRecord MemoryMap SplitTable SplitCoverage MemoryMerge GetMemoryMap PageAlloc PageMapSpec PageFind PageConvert PageStack PageServices PageSample PageAllocate PoolAlloc PoolSpec PoolLists.

(** A page that is cut into blocks, and pages that are one block. *)
Record pool_page := {
  ck_type : Z;
  ck_base : Z;
  ck_blocks : list (Z * option Z);
}.
Record large := {
  lg_type : Z;
  lg_base : Z;
  lg_Size : Z;
}.

Section Inv.
Context `{!Platform, !PlatformOk, !PageConfig, !PageConfigOk} {P : Type} `{!PoolPages P, !PoolPagesLaws P}.
Implicit Types s : POOLS P.

(** The lists with blocks that are smaller than a page. *)
Definition Limit (T : Z) : Z := GetPoolIndexFromSize (PageAlignment T).

Lemma Limit_facts T : 0 < Limit T <= MAX_POOL_LIST ∧ (128 | PageAlignment T) ∧ 4096 <= PageAlignment T <= 65536 ∧ ∀ i, 0 <= i < Limit T → bsize i < PageAlignment T.
Proof.
  unfold Limit. destruct (PageAlignment_pow T) as (k & Hk & ->). destruct (GetPoolIndexFromSize_spec (2 ^ k)) as (_ & _ & Hj).
  split_and!; [by destruct Hk as [->| ->]..|by destruct Hk as [->| ->]; apply Z.mod_divide|by destruct Hk as [->| ->]|by destruct Hk as [->| ->]|done].
Qed.

Lemma PageAlignment_pages T : PageAlignment T / 2 ^ EFI_PAGE_SHIFT * 2 ^ EFI_PAGE_SHIFT = PageAlignment T.
Proof. destruct (PageAlignment_pow T) as (k & Hk & ->). by destruct Hk as [->| ->]. Qed.

Lemma EFI_SIZE_TO_PAGES_PageAlignment T : EFI_SIZE_TO_PAGES (PageAlignment T) = PageAlignment T / 2 ^ EFI_PAGE_SHIFT.
Proof. destruct (PageAlignment_pow T) as (k & Hk & ->). rewrite EFI_SIZE_TO_PAGES_pow by done. by destruct Hk as [->| ->]. Qed.

Record chunk_ok (m : gmap Z Z) (c : pool_page) : Prop := {
  co_type : pool_type (ck_type c);
  co_aligned : (PageAlignment (ck_type c) | ck_base c);
  co_total : blocks_total (ck_blocks c) = PageAlignment (ck_type c);
  co_blocks : Forall (block_ok (Limit (ck_type c))) (ck_blocks c);
  (** A page without a block in use is freed. *)
  co_used : ∃ i Size, (i, Some Size) ∈ ck_blocks c;
  co_mem : blocks_mem m (ck_type c) (ck_base c) (ck_base c) (ck_blocks c);
}.

Definition large_pages (T Size : Z) : Z := PoolPageCount Size (PageAlignment T).

Record large_ok (m : gmap Z Z) (b : large) : Prop := {
  lo_type : pool_type (lg_type b);
  lo_aligned : (PageAlignment (lg_type b) | lg_base b);
  lo_size : POOL_OVERHEAD <= lg_Size b ∧ lg_Size b + 2 ^ 17 <= 2 ^ UINTN_WIDTH;
  lo_index : Limit (lg_type b) <= GetPoolIndexFromSize (lg_Size b);
  lo_mem : head_mem m (lg_type b) (lg_base b) (lg_Size b);
}.

Definition chunk_region (c : pool_page) : Region := {| rg_type := ck_type c; rg_base := ck_base c; rg_size := PageAlignment (ck_type c) |}.
Definition large_region (b : large) : Region :=
  {| rg_type := lg_type b; rg_base := lg_base b; rg_size := large_pages (lg_type b) (lg_Size b) * 2 ^ EFI_PAGE_SHIFT |}.

(** The free blocks of a list in all pages. *)
Fixpoint free_in (T i : Z) (C : list pool_page) : list Z :=
  match C with
  | [] => []
  | c :: C' => (if decide (ck_type c = T) then free_at i (ck_base c) (ck_blocks c) else []) ++ free_in T i C'
  end.

(** [O] are the regions of memory that others hold. *)
Record PoolInv s (C : list pool_page) (Lg : list large) (O : list Region) : Prop := {
  pi_ok : PoolsOk s;
  pi_holds : holds (pages_state s) (map chunk_region C ++ map large_region Lg ++ O);
  pi_chunks : Forall (chunk_ok (memory s)) C;
  pi_large : Forall (large_ok (memory s)) Lg;
  pi_lists : ∀ T i, in_lists T i → free_list s T i ≡ₚ free_in T i C;
}.

(** ** Disjointness *)

Lemma holds_split t L1 r L2 r' : holds t (L1 ++ r :: L2) → r' ∈ L1 ++ L2 → apart_from r r'.
Proof.
  intros Hh (l1 & l2 & Heq)%list_elem_of_split. apply (holds_apart t r r' (l1 ++ l2)). eapply holds_perm; [|exact Hh].
  rewrite <- Permutation_middle, Heq. by rewrite <- Permutation_middle.
Qed.

Lemma holds_head t r L r' : holds t (r :: L) → r' ∈ L → apart_from r r'.
Proof. apply (holds_split t []). Qed.

Lemma holds_elem t L r : holds t L → r ∈ L → 0 < rg_base r ∧ rg_base r + rg_size r <= 2 ^ UINTN_WIDTH.
Proof.
  intros Hh (l1 & l2 & ->)%list_elem_of_split. apply (holds_range t r (l1 ++ l2)). eapply holds_perm; [|exact Hh]. by rewrite <- Permutation_middle.
Qed.

Lemma chunk_range s C Lg O c : PoolInv s C Lg O → c ∈ C → 0 < ck_base c ∧ ck_base c + PageAlignment (ck_type c) <= 2 ^ UINTN_WIDTH.
Proof. intros Hinv Hc. apply (holds_elem _ _ (chunk_region c) (pi_holds _ _ _ _ Hinv)). apply elem_of_app. left. by apply list_elem_of_fmap_2. Qed.

Lemma large_range s C Lg O b : PoolInv s C Lg O → b ∈ Lg →
  0 < lg_base b ∧ lg_base b + large_pages (lg_type b) (lg_Size b) * 2 ^ EFI_PAGE_SHIFT <= 2 ^ UINTN_WIDTH.
Proof. intros Hinv Hb. apply (holds_elem _ _ (large_region b) (pi_holds _ _ _ _ Hinv)). rewrite !elem_of_app. right. left. by apply list_elem_of_fmap_2. Qed.

Lemma free_in_app T i C C' : free_in T i (C ++ C') = free_in T i C ++ free_in T i C'.
Proof. induction C as [|c C IH]; cbn; [done|]. by rewrite IH, app_assoc. Qed.

Lemma free_in_range m T i C x : Forall (chunk_ok m) C → x ∈ free_in T i C →
  ∃ c, c ∈ C ∧ ck_type c = T ∧ x ∈ free_at i (ck_base c) (ck_blocks c) ∧ ck_base c <= x < ck_base c + rg_size (chunk_region c).
Proof.
  induction C as [|c C IH]; cbn; intros HC Hx; [by apply elem_of_nil in Hx|]. apply list.Forall_cons in HC as [Hc HC]. apply elem_of_app in Hx as [Hx|Hx].
  - case_decide as HT; [|by apply elem_of_nil in Hx]. exists c. destruct (Limit_facts (ck_type c)) as (? & _).
    pose proof (free_at_range (Limit (ck_type c)) i _ x _ ltac:(lia) (co_blocks _ _ Hc) Hx). rewrite (co_total _ _ Hc) in *. split_and!; [left|done|done|lia|cbn; lia].
  - destruct (IH HC Hx) as (c' & Hc' & Hrest). exists c'. split; [by right|done].
Qed.

(** ** Frames *)

Lemma chunk_ok_frame m m' c lo hi : same_outside m m' lo hi → ck_base c + rg_size (chunk_region c) <= lo ∨ hi <= ck_base c → chunk_ok m c → chunk_ok m' c.
Proof.
  intros Hs Hd [? ? Ht Hb ? Hm]. destruct (Limit_facts (ck_type c)) as (? & _). constructor; try done.
  eapply (blocks_mem_frame (Limit (ck_type c))); [lia|done|exact Hs| |done]. rewrite Ht. done.
Qed.

Lemma PoolPageCount_facts T Size : 0 < Size → Size + 2 ^ 17 <= 2 ^ UINTN_WIDTH →
  0 < large_pages T Size ∧ Size <= large_pages T Size * 2 ^ EFI_PAGE_SHIFT < Size + 2 ^ 17 ∧ (PageAlignment T | large_pages T Size * 2 ^ EFI_PAGE_SHIFT).
Proof.
  intros H0' Hw. unfold large_pages, PoolPageCount. destruct (PageAlignment_pow T) as (k & Hk & ->). pose proof UINTN_WIDTH_64.
  pose proof (Z.pow_le_mono_r 2 32 UINTN_WIDTH ltac:(done) ltac:(lia)).
  assert (EFI_SIZE_TO_PAGES Size = (Size + 4095) / 4096) as HS.
  { unfold EFI_SIZE_TO_PAGES. rewrite Z.shiftr_div_pow2 by done. change EFI_PAGE_MASK with (2 ^ 12 - 1). rewrite land_mask by lia.
    change (2 ^ EFI_PAGE_SHIFT) with 4096. change (2 ^ 12) with 4096. pose proof (Z.div_mod Size 4096). pose proof (Z.mod_pos_bound Size 4096).
    assert ((Size + 4095) / 4096 = Size / 4096 + (if Size mod 4096 =? 0 then 0 else 1)) as ->.
    { symmetry. destruct (Z.eqb_spec (Size mod 4096) 0); [apply (Z.div_unique _ _ _ 4095); lia|apply (Z.div_unique _ _ _ (Size mod 4096 - 1)); lia]. }
    apply wrap_small. split; case_match; lia. }
  pose proof (Z.div_mod (Size + 4095) 4096) as Hdm. pose proof (Z.mod_pos_bound (Size + 4095) 4096) as Hmb.
  rewrite HS. set (q := (Size + 4095) / 4096) in *. specialize (Hdm ltac:(done)). specialize (Hmb ltac:(done)). change (2 ^ 17) with 131072 in *.
  assert (0 <= q ∧ q + 16 < 2 ^ UINTN_WIDTH) as [Hq0 Hqw] by lia.
  destruct (RoundPages_spec q k Hk Hq0 Hqw) as [HR HRd]. unfold RoundPages in HR, HRd.
  replace (q + EFI_SIZE_TO_PAGES (2 ^ k) - 1) with (q + (EFI_SIZE_TO_PAGES (2 ^ k) - 1)) by lia.
  set (R := Z.land _ _) in *. change (2 ^ EFI_PAGE_SHIFT) with 4096 in *. split_and!; [lia|lia|lia|done].
Qed.

Lemma large_ok_frame m m' b lo hi : same_outside m m' lo hi → lg_base b + rg_size (large_region b) <= lo ∨ hi <= lg_base b → large_ok m b → large_ok m' b.
Proof.
  intros Hs Hd [? ? [HO Hw] ? Hm]. destruct layout_facts as (? & ? & ? & ? & ? & ? & ? & ? & ?).
  destruct (PoolPageCount_facts (lg_type b) (lg_Size b) ltac:(lia) Hw) as (_ & Hp & _). constructor; try done.
  eapply head_mem_frame; [exact Hs|done| |done]. unfold large_region in Hd. cbn [rg_size] in Hd. lia.
Qed.

(** ** The buffers of the callers *)

Definition buffer_at (T a Size : Z) : Region := {| rg_type := T; rg_base := a + SIZE_OF_POOL_HEAD; rg_size := Size - POOL_OVERHEAD |}.

Fixpoint used_at (T a : Z) (bs : list block) : list Region :=
  match bs with
  | [] => []
  | b :: bs' => (match b.2 with Some Size => [buffer_at T a Size] | None => [] end) ++ used_at T (a + bsize b.1) bs'
  end.

Definition used_in (C : list pool_page) : list Region := flat_map (λ c, used_at (ck_type c) (ck_base c) (ck_blocks c)) C.
Definition large_buffer (b : large) : Region := buffer_at (lg_type b) (lg_base b) (lg_Size b).
Definition buffers (C : list pool_page) (Lg : list large) : list Region := used_in C ++ map large_buffer Lg.

(** The invariant, with the buffers [L] of the callers of the pool and the memory [O] of other callers of the page allocator. *)
Definition PoolGood s (L O : list Region) : Prop := ∃ C Lg, PoolInv s C Lg O ∧ buffers C Lg ≡ₚ L.

Lemma used_at_app T bs bs' : ∀ a, used_at T a (bs ++ bs') = used_at T a bs ++ used_at T (a + blocks_total bs) bs'.
Proof.
  induction bs as [|b bs IH]; intros a; cbn [app used_at]; [by rewrite Z.add_0_r|]. by rewrite IH, blocks_total_cons, Z.add_assoc, app_assoc.
Qed.

Lemma used_at_free T limit bs : ∀ a, free_blocks limit bs → used_at T a bs = [].
Proof. induction bs as [|[i u] bs IH]; intros a Hf; [done|]. apply list.Forall_cons in Hf as [[_ Hu] Hf]. cbn in *. subst u. by apply IH. Qed.

Lemma used_in_app C C' : used_in (C ++ C') = used_in C ++ used_in C'.
Proof. apply flat_map_app. Qed.

Lemma used_in_cons c C : used_in (c :: C) = used_at (ck_type c) (ck_base c) (ck_blocks c) ++ used_in C.
Proof. done. Qed.
End Inv.
