(* ===== verification/PoolTake.v ===== *)
(** Pool.c: CoreAllocatePoolI. *)
From stdpp Require Import list gmap.
From S2P Require Import Prelude Base Buffer Platform Overflow ImageRecord MemoryMap SplitTable SplitCoverage MemoryMerge GetMemoryMap PageAlloc PageMapSpec PageFind PageConvert PageStack PageServices PageSample PageAllocate PoolAlloc PoolSpec PoolLists PoolInv.

(** A cell of a memory that was written to. *)
Ltac cell_lookup :=
  unfold OFFSET_OF_Type, OFFSET_OF_TailSize, OFFSET_OF_Index, HEAD_TO_TAIL;
  rewrite forgotten_lookup, decide_False by lia;
  repeat first [rewrite lookup_insert_eq; reflexivity|rewrite lookup_insert_ne by lia]; try reflexivity.

Section Take.
Context `{!Platform, !PlatformOk, !PageConfig, !PageConfigOk} {P : Type} `{!PoolPages P, !PoolPagesLaws P}.
Implicit Types s : POOLS P.

(** ** The head and the tail *)

(** Nothing has changed but the memory from [a] to before [b], and Used. *)
Record Wrote (a b : Z) s s' : Prop := {
  wr_pages : pages_state s' = pages_state s;
  wr_ok : PoolsOk s';
  wr_lists : ∀ T i, free_list s' T i = free_list s T i;
  wr_memory : same_outside (memory s) (memory s') a b;
}.

Lemma FinishAllocation_spec T Head Size s E :
  PoolsOk s → 0 <= T < EfiMaxMemoryType → Head ≠ 0 → POOL_OVERHEAD <= Size < 2 ^ UINTN_WIDTH →
  wp (FinishAllocation (Builtin T) Head T Size) (λ b s', b = Head + SIZE_OF_POOL_HEAD ∧ Wrote Head (Head + Size) s s' ∧ head_mem (memory s') T Head Size ∧
    memory s' !! (Head + OFFSET_OF_Index) = memory s !! (Head + OFFSET_OF_Index)) E s.
Proof.
  intros Hok HT HH HS. destruct layout_facts as (? & ? & ? & ? & ? & ? & ? & ? & ?).
  destruct (pool_lookup s T 0 Hok) as (p & Hp & _); [split; [done|unfold MAX_POOL_LIST; lia]|].
  unfold FinishAllocation. rewrite (proj2 (Z.eqb_neq _ _) HH). wp_step. apply (wp_get_pool _ _ _ _ p Hp). wp_step. unfold put_pool. wp_step.
  destruct (set_Used_lists T (wrapn (pool_Used p + Size)) s p Hp Hok) as [Hok1 Hl1].
  set (s1 := set_mPoolHead _ s). change (PoolsOk s1) in Hok1. change (∀ T' i, free_list s1 T' i = free_list s T' i) in Hl1.
  unfold write, forget. do 13 wp_step. split; [done|]. unfold wrapn. rewrite wrap_small by (split; lia).
  assert (pages_state s1 = pages_state s ∧ memory s1 = memory s) as [Hps Hms] by done. clearbody s1.
  cbn [memory set_memory]. rewrite Hms. unfold OFFSET_OF_Type, OFFSET_OF_TailSize, OFFSET_OF_Index, HEAD_TO_TAIL.
  split_and!; [constructor; cbn; [done|by destruct Hok1|done|]|constructor|].
  - repeat (eapply same_outside_trans; [|apply same_outside_forgotten || apply same_outside_insert]); try lia. done.
  - cell_lookup.
  - cell_lookup.
  - cell_lookup.
  - cell_lookup.
  - cell_lookup.
  - cell_lookup.
Qed.

(** ** New pages *)

Record NewPages (T N : Z) (L : list Region) (a : Z) s s' : Prop := {
  np_ok : PoolsOk s';
  np_lists : ∀ T i, free_list s' T i = free_list s T i;
  np_pages : a = 0 ∧ memory s' = memory s ∧ holds (pages_state s') L ∨
    0 < a ∧ (PageAlignment T | a) ∧ holds (pages_state s') ({| rg_type := T; rg_base := a; rg_size := N * 2 ^ EFI_PAGE_SHIFT |} :: L) ∧
    same_outside (memory s) (memory s') a (a + N * 2 ^ EFI_PAGE_SHIFT);
}.

Lemma CoreAllocatePoolPagesI_spec T N L s :
  PoolsOk s → holds (pages_state s) L → pool_type T → 0 < N → (PageAlignment T | N * 2 ^ EFI_PAGE_SHIFT) →
  N + 16 < 2 ^ UINTN_WIDTH → (N + 16) * 2 ^ EFI_PAGE_SHIFT <= 2 ^ UINTN_WIDTH → ready (pages_state s) T (N * 2 ^ EFI_PAGE_SHIFT) →
  wp (CoreAllocatePoolPagesI T N (PageAlignment T)) (λ a s', NewPages T N L a s s') (λ _ _, False) s.
Proof.
  intros Hok Hh HT HN Hd Hw Hb Hr. unfold CoreAllocatePoolPagesI. do 2 wp_step.
  destruct (wp_total _ _ _ (AllocatePoolPages_law _ L T N Hh HT HN Hd Hw Hb Hr)) as (a & t & Hrun & Ha). rewrite Hrun. do 2 wp_step.
  rewrite Z.shiftl_mul_pow2 by done. destruct (Z.eqb_spec a 0) as [->|Hne].
  - do 3 wp_step. destruct Ha as [[_ Ha]|[? _]]; [|lia]. constructor; [by destruct Hok|done|by left].
  - unfold forget. do 3 wp_step. destruct Ha as [[? _]|(Ha & Had & Hh')]; [done|]. constructor; [by destruct Hok|done|right].
    split_and!; [done|done|done|]. cbn. apply same_outside_forgotten; lia.
Qed.

(** ** A block is taken *)

Lemma filter_keep {Q : Z → Prop} `{∀ x, Decision (Q x)} (l : list Z) : (∀ x, x ∈ l → Q x) → filter Q l = l.
Proof.
  induction l as [|x l IH]; intros Hl; [done|]. rewrite filter_cons_True by (apply Hl; left). f_equal. apply IH. intros y Hy. apply Hl. by right.
Qed.

(** The page [c] with other blocks. *)
Definition with_blocks (c : pool_page) (bs : list block) : pool_page := {| ck_type := ck_type c; ck_base := ck_base c; ck_blocks := bs |}.

(** The block of the list [j] at [a] in a page: [u] is [None] if it is free. *)
Record BlockIn (C : list pool_page) (T j : Z) (u : option Z) (a : Z) (C1 : list pool_page) (c : pool_page) (C2 : list pool_page) (B1 B2 : list block) : Prop := {
  fi_chunks : C = C1 ++ c :: C2;
  fi_type : ck_type c = T;
  fi_blocks : ck_blocks c = B1 ++ (j, u) :: B2;
  fi_address : a = ck_base c + blocks_total B1;
}.

Lemma free_in_BlockIn m T j C a : Forall (chunk_ok m) C → a ∈ free_in T j C → ∃ C1 c C2 B1 B2, BlockIn C T j None a C1 c C2 B1 B2.
Proof.
  intros HC Ha. destruct (free_in_range m T j C a HC Ha) as (c & Hc & HT & Hf & _). apply list_elem_of_split in Hc as (C1 & C2 & ->).
  apply free_at_block in Hf as (B1 & B2 & Hb & ->). by exists C1, c, C2, B1, B2.
Qed.

Section Block.
Context s (C : list pool_page) (Lg : list large) (O : list Region) (T j : Z) (u : option Z) (a : Z) (C1 : list pool_page) (c : pool_page) (C2 : list pool_page) (B1 B2 : list block).
Context (Hinv : PoolInv s C Lg O) (Hf : BlockIn C T j u a C1 c C2 B1 B2).

Lemma taken_chunk : chunk_ok (memory s) c.
Proof. pose proof (pi_chunks _ _ _ _ Hinv) as HC. rewrite (fi_chunks _ _ _ _ _ _ _ _ _ _ Hf) in HC. by apply Forall_app in HC as [_ [Hc _]%list.Forall_cons]. Qed.

Lemma taken_blocks : Forall (block_ok (Limit T)) B1 ∧ 0 <= j < Limit T ∧ Forall (block_ok (Limit T)) B2.
Proof.
  pose proof (co_blocks _ _ taken_chunk) as Hb. rewrite (fi_blocks _ _ _ _ _ _ _ _ _ _ Hf), (fi_type _ _ _ _ _ _ _ _ _ _ Hf) in Hb.
  by apply Forall_app in Hb as [? [[? _] ?]%list.Forall_cons].
Qed.

Lemma taken_total : 0 <= blocks_total B1 ∧ 0 <= blocks_total B2 ∧ blocks_total B1 + bsize j + blocks_total B2 = PageAlignment T.
Proof.
  destruct taken_blocks as (H1' & _ & H2'). destruct (Limit_facts T) as (? & _).
  destruct (blocks_total_facts (Limit T) B1) as [? _]; [lia|done|]. destruct (blocks_total_facts (Limit T) B2) as [? _]; [lia|done|].
  pose proof (co_total _ _ taken_chunk) as Ht. rewrite (fi_blocks _ _ _ _ _ _ _ _ _ _ Hf), (fi_type _ _ _ _ _ _ _ _ _ _ Hf), blocks_total_app, blocks_total_cons in Ht.
  cbn in Ht. lia.
Qed.

Lemma taken_apart_chunk c' : c' ∈ C1 ++ C2 → apart_from (chunk_region c) (chunk_region c').
Proof.
  intros Hc'. pose proof (pi_holds _ _ _ _ Hinv) as Hh. rewrite (fi_chunks _ _ _ _ _ _ _ _ _ _ Hf), map_app, <- app_assoc in Hh. cbn in Hh.
  eapply holds_split; [exact Hh|]. apply elem_of_app in Hc' as [?|?]; rewrite !elem_of_app; [left|right; left]; by apply list_elem_of_fmap_2.
Qed.

Lemma taken_apart_large b : b ∈ Lg → apart_from (chunk_region c) (large_region b).
Proof.
  intros Hb. pose proof (pi_holds _ _ _ _ Hinv) as Hh. rewrite (fi_chunks _ _ _ _ _ _ _ _ _ _ Hf), map_app, <- app_assoc in Hh. cbn in Hh.
  eapply holds_split; [exact Hh|]. rewrite !elem_of_app. right; right; left. by apply list_elem_of_fmap_2.
Qed.

(** The free blocks other than the one taken. *)
Lemma taken_lists T' i' : filter (λ x, x ≠ a) (free_in T' i' C) =
  free_in T' i' C1 ++ (if decide (T' = T) then free_at i' (ck_base c) B1 ++ free_at i' (a + bsize j) B2 else []) ++ free_in T' i' C2.
Proof.
  destruct (Limit_facts T) as (? & _). destruct taken_blocks as (HB1 & Hj & HB2). destruct taken_total as (? & ? & ?).
  destruct (bsize_facts j) as (? & _); [lia|]. pose proof (pi_chunks _ _ _ _ Hinv) as HC. pose proof (fi_address _ _ _ _ _ _ _ _ _ _ Hf) as Ha. pose proof (fi_type _ _ _ _ _ _ _ _ _ _ Hf) as HT.
  assert (∀ C', (∀ c', c' ∈ C' → c' ∈ C1 ++ C2) → Forall (chunk_ok (memory s)) C' → ∀ x, x ∈ free_in T' i' C' → x ≠ a) as Hother.
  { intros C' HC' Hok x Hx ->. destruct (free_in_range _ _ _ _ _ Hok Hx) as (c' & Hc' & _ & _ & Hr).
    destruct (taken_apart_chunk c' (HC' _ Hc')) as [Hap|Hap]; unfold chunk_region in *; cbn in *; rewrite ?HT in *; lia. }
  rewrite (fi_chunks _ _ _ _ _ _ _ _ _ _ Hf) in HC |- *. apply Forall_app in HC as [HC1 [Hc HC2]%list.Forall_cons].
  rewrite free_in_app. cbn [free_in]. rewrite !list.filter_app, HT, (fi_blocks _ _ _ _ _ _ _ _ _ _ Hf).
  rewrite (filter_keep (free_in T' i' C1)) by (eapply Hother; [|done]; intros; apply elem_of_app; by left).
  rewrite (filter_keep (free_in T' i' C2)) by (eapply Hother; [|done]; intros; apply elem_of_app; by right).
  f_equal. f_equal. destruct (decide (T = T')) as [<-|Hne]; [|by rewrite decide_False by congruence]. rewrite decide_True by done.
  rewrite free_at_app. cbn [free_at fst]. rewrite !list.filter_app, <- Ha.
  rewrite (filter_keep (free_at i' (ck_base c) B1)) by (intros x Hx; apply (free_at_range (Limit T)) in Hx; [lia|lia|done]).
  rewrite (filter_keep (free_at i' (a + bsize j) B2)) by (intros x Hx; apply (free_at_range (Limit T)) in Hx; [lia|lia|done]).
  f_equal. case_decide; [|done]. by rewrite filter_cons_False by tauto.
Qed.

End Block.

Section Taken.
Context s (C : list pool_page) (Lg : list large) (O : list Region) (T j a : Z) (C1 : list pool_page) (c : pool_page) (C2 : list pool_page) (B1 B2 : list block).
Context (Hinv : PoolInv s C Lg O) (Hf : BlockIn C T j None a C1 c C2 B1 B2).

Lemma PoolInv_take i Size bs s' :
  POOL_OVERHEAD <= Size → GetPoolIndexFromSize Size = i → i < Limit T → free_blocks (Limit T) bs → bsize i + blocks_total bs = bsize j →
  pages_state s' = pages_state s → PoolsOk s' →
  (∀ T' i', in_lists T' i' → free_list s' T' i' ≡ₚ (if decide (T' = T) then free_at i' (a + bsize i) bs else []) ++ filter (λ x, x ≠ a) (free_list s T' i')) →
  same_outside (memory s) (memory s') a (a + bsize j) →
  head_mem (memory s') T a Size → memory s' !! (a + OFFSET_OF_Index) = memory s !! (a + OFFSET_OF_Index) →
  (∀ T0 base, blocks_mem (memory s') T0 base (a + bsize i) bs) →
  PoolInv s' (C1 ++ with_blocks c (B1 ++ (i, Some Size) :: bs ++ B2) :: C2) Lg O.
Proof.
  intros HO Hix Hi Hbs Htot Hps Hok Hls Hsm Hhm Hcell Hbm. destruct (GetPoolIndexFromSize_spec Size) as (Hi0 & _ & _). rewrite Hix in Hi0.
  destruct (Limit_facts T) as (? & _). destruct (taken_blocks s C Lg O T j None a C1 c C2 B1 B2 Hinv Hf) as (HB1 & Hj & HB2). destruct (taken_total s C Lg O T j None a C1 c C2 B1 B2 Hinv Hf) as (? & ? & ?). destruct (bsize_facts j) as (? & _); [lia|].
  destruct (taken_chunk s C Lg O T j None a C1 c C2 B1 B2 Hinv Hf) as [K1 K2 K3 K4 K5 K6]. pose proof (fi_address _ _ _ _ _ _ _ _ _ _ Hf) as Ha. pose proof (fi_type _ _ _ _ _ _ _ _ _ _ Hf) as HT.
  pose proof (fi_chunks _ _ _ _ _ _ _ _ _ _ Hf) as HC. rewrite (fi_blocks _ _ _ _ _ _ _ _ _ _ Hf) in *. rewrite HT in *.
  assert (∀ c', c' ∈ C1 ++ C2 → chunk_ok (memory s') c') as Hothers.
  { intros c' Hc'. eapply chunk_ok_frame; [exact Hsm| |].
    - destruct (taken_apart_chunk s C Lg O T j None a C1 c C2 B1 B2 Hinv Hf c' Hc') as [Hap|Hap]; unfold chunk_region in *; cbn in *; rewrite ?HT in *; lia.
    - apply (proj1 (list.Forall_forall _ _) (pi_chunks _ _ _ _ Hinv)). rewrite HC. apply elem_of_app in Hc' as [?|?]; apply elem_of_app; [by left|right; by right]. }
  apply blocks_mem_app in K6 as [M1 [[_ Mi] M2]]. cbn [fst] in *. rewrite <- Ha in *.
  constructor; [done|..].
  - rewrite Hps. pose proof (pi_holds _ _ _ _ Hinv) as Hh. rewrite HC in Hh. by rewrite map_app in Hh |- *.
  - apply list.Forall_forall. intros c' Hc'. apply elem_of_app in Hc' as [Hc'|[->|Hc']%list.elem_of_cons]; [apply Hothers, elem_of_app; by left| |apply Hothers, elem_of_app; by right].
    constructor; cbn [with_blocks ck_type ck_base ck_blocks]; rewrite ?HT; [done|done|..].
    + rewrite blocks_total_app, blocks_total_cons, blocks_total_app. cbn [fst]. lia.
    + apply Forall_app. split; [done|]. constructor; [split; [cbn [fst]; lia|]; cbn [fst snd]; intros ? [= <-]; done|]. apply Forall_app. split; [by apply free_blocks_ok|done].
    + exists i, Size. apply elem_of_app. right. left.
    + apply blocks_mem_app. rewrite <- Ha. split; [eapply (blocks_mem_frame (Limit T)); [lia|done|exact Hsm|lia|done]|]. split.
      * split; [done|]. intros _. exists j. rewrite Hcell. split; [done|lia].
      * cbn [fst]. apply blocks_mem_app. split; [apply Hbm|]. replace (a + bsize i + blocks_total bs) with (a + bsize j) by lia.
        eapply (blocks_mem_frame (Limit T)); [lia|done|exact Hsm|lia|done].
  - apply list.Forall_forall. intros b Hb. eapply large_ok_frame; [exact Hsm| |by apply (proj1 (list.Forall_forall _ _) (pi_large _ _ _ _ Hinv))].
    destruct (taken_apart_large s C Lg O T j None a C1 c C2 B1 B2 Hinv Hf b Hb) as [Hap|Hap]; unfold chunk_region in *; cbn [rg_base rg_size] in *; rewrite ?HT in *; cbn in *; lia.
  - intros T' i' Hin. rewrite (Hls T' i' Hin), (pi_lists _ _ _ _ Hinv T' i' Hin), (taken_lists s C Lg O T j None a C1 c C2 B1 B2 Hinv Hf), free_in_app. cbn [free_in with_blocks ck_type ck_base ck_blocks].
    rewrite HT. destruct (decide (T = T')) as [<-|Hne]; [rewrite decide_True by done|by rewrite !decide_False by congruence].
    rewrite decide_True by done. rewrite free_at_app. cbn [free_at fst]. rewrite decide_False by (by intros [= ]). rewrite app_nil_l, free_at_app, <- Ha.
    replace (a + bsize i + blocks_total bs) with (a + bsize j) by lia.
    set (X := free_in T i' C1). set (Y := free_in T i' C2). set (U := free_at i' (ck_base c) B1). set (V := free_at i' (a + bsize j) B2). set (W := free_at i' (a + bsize i) bs).
    rewrite <- !app_assoc. rewrite (Permutation_app_comm W). rewrite <- !app_assoc. apply Permutation_app_head, Permutation_app_head. solve_Permutation.
Qed.
End Taken.

(** The free block at the head of a list. *)
Lemma list_head s C Lg O T j a l : PoolInv s C Lg O → in_lists T j → free_list s T j = a :: l →
  (∃ C1 c C2 B1 B2, BlockIn C T j None a C1 c C2 B1 B2) ∧ memory s !! a = Some POOL_FREE_SIGNATURE.
Proof.
  intros Hinv Hin Hl. pose proof (pi_lists _ _ _ _ Hinv T j Hin) as Hp. rewrite Hl in Hp.
  assert (a ∈ free_in T j C) as Ha by (rewrite <- Hp; left).
  destruct (free_in_BlockIn _ _ _ _ _ (pi_chunks _ _ _ _ Hinv) Ha) as (C1 & c & C2 & B1 & B2 & Hf). split; [by exists C1, c, C2, B1, B2|].
  pose proof (co_mem _ _ (taken_chunk _ _ _ _ _ _ _ _ _ _ _ _ _ Hinv Hf)) as Hm. rewrite (fi_blocks _ _ _ _ _ _ _ _ _ _ Hf) in Hm.
  apply blocks_mem_app in Hm as [_ [[Hm _] _]]. by rewrite (fi_address _ _ _ _ _ _ _ _ _ _ Hf).
Qed.

(** A block of [i] for Head is there, cut out of a free block or of new pages, and not on a list any more; the rest of it is on the lists. *)
Inductive BlockReady s C Lg O (T i : Z) : Z → POOLS P → Prop :=
| ready_none s1 : PoolInv s1 C Lg O → BlockReady s C Lg O T i 0 s1
| ready_old a j C1 c C2 B1 B2 bs s1 :
    BlockIn C T j None a C1 c C2 B1 B2 → free_blocks (Limit T) bs → bsize i + blocks_total bs = bsize j → pages_state s1 = pages_state s → PoolsOk s1 →
    (∀ T' i', in_lists T' i' → free_list s1 T' i' ≡ₚ (if decide (T' = T) then free_at i' (a + bsize i) bs else []) ++ filter (λ x, x ≠ a) (free_list s T' i')) →
    same_outside (memory s) (memory s1) (a + bsize i) (a + bsize j) → (∀ T0 base, blocks_mem (memory s1) T0 base (a + bsize i) bs) →
    BlockReady s C Lg O T i a s1
| ready_new a bs s1 :
    0 < a → (PageAlignment T | a) → holds (pages_state s1) ({| rg_type := T; rg_base := a; rg_size := PageAlignment T |} :: map chunk_region C ++ map large_region Lg ++ O) →
    free_blocks (Limit T) bs → bsize i + blocks_total bs = PageAlignment T → PoolsOk s1 →
    (∀ T' i', in_lists T' i' → free_list s1 T' i' ≡ₚ (if decide (T' = T) then free_at i' (a + bsize i) bs else []) ++ free_list s T' i') →
    same_outside (memory s) (memory s1) a (a + PageAlignment T) → (∀ T0 base, blocks_mem (memory s1) T0 base (a + bsize i) bs) →
    BlockReady s C Lg O T i a s1.

Lemma FindLarger_spec C Lg O T fuel s : ∀ k,
  PoolInv s C Lg O → 0 <= T < EfiMaxMemoryType → 0 <= k <= Limit T → Limit T - k < Z.of_nat fuel →
  wp (FindLarger fuel (Builtin T) k (Limit T))
    (λ r s1, r = (None, Limit T) ∧ s1 = s ∨ ∃ a j C1 c C2 B1 B2, r = (Some a, j) ∧ k <= j < Limit T ∧ BlockIn C T j None a C1 c C2 B1 B2 ∧ pages_state s1 = pages_state s ∧
       memory s1 = memory s ∧ PoolsOk s1 ∧ ∀ T i, in_lists T i → free_list s1 T i = filter (λ x, x ≠ a) (free_list s T i)) (λ _ _, False) s.
Proof.
  induction fuel as [|fuel IH]; intros k Hinv HT Hk Hf; [lia|]. destruct (Limit_facts T) as (HL & _). cbn [FindLarger]. wp_step.
  - wp_step. assert (in_lists T k) as Hin by (split; lia). apply wp_get_list; [apply (pi_ok _ _ _ _ Hinv)|done|].
    destruct (free_list s T k) as [|a l] eqn:Hl.
    + eapply wp_mono; [apply (IH (k + 1)); [done|done|lia|lia]| |done]. intros r s1 [?|(a & j & C1 & c & C2 & B1 & B2 & -> & Hj & ?)]; [by left|right].
      exists a, j, C1, c, C2, B1, B2. split; [done|]. split; [lia|done].
    + destruct (list_head s C Lg O T k a l Hinv Hin Hl) as [(C1 & c & C2 & B1 & B2 & HF) Hm]. unfold CR_POOL_FREE. do 2 wp_step.
      apply (wp_read _ _ _ _ _ Hm). wp_step; [done|]. wp_step. eapply wp_mono; [apply (RemoveFree_spec a s (λ _ _, False)); apply (pi_ok _ _ _ _ Hinv)| |done].
      intros _ s1 (? & ? & ? & ?). wp_step. right. exists a, k, C1, c, C2, B1, B2. split; [done|]. split; [lia|done].
  - wp_step. left. split; [f_equal; lia|done].
Qed.

Lemma Carve_spec T NewPage Index Offset MaxOffset s :
  PoolsOk s → 0 <= T < EfiMaxMemoryType → 0 < Index <= MAX_POOL_LIST → 0 <= Offset <= MaxOffset → (128 | MaxOffset - Offset) →
  wp (Carve (Builtin T) NewPage Index Offset MaxOffset)
    (λ _ s', ∃ bs, free_blocks Index bs ∧ blocks_total bs = MaxOffset - Offset ∧ Carved T (NewPage + Offset) bs s s') (λ _ _, False) s.
Proof.
  intros Hok HT HI HO Hd. unfold Carve. pose proof UINTN_WIDTH_64. pose proof (Z.pow_le_mono_r 2 32 UINTN_WIDTH ltac:(done) ltac:(lia)).
  unfold wrapn. rewrite wrap_small by (unfold MAX_POOL_LIST in *; split; lia). wp_step.
  eapply wp_mono; [apply (CarveLoop_spec T NewPage MaxOffset (λ _ _, False) _ (Index - 1) Offset s); [done|done|lia|left; lia|done|done|]| |done].
  { left. unfold MAX_POOL_LIST in *. lia. }
  intros Offset' s' (-> & bs & Hb & _ & Ht & Hc). wp_step; [lia|]. exists bs. rewrite Z.sub_add in Hb. done.
Qed.

Lemma index_le i j : 0 <= i <= j → j < MAX_POOL_LIST → bsize i <= bsize j.
Proof.
  intros [Hi Hij] Hj. apply (index_cases (λ i, i <= j → bsize i <= bsize j) i); [|lia|done].
  apply (index_cases (λ j, Forall (λ i, i <= j → bsize i <= bsize j) [0; 1; 2; 3; 4; 5; 6; 7; 8; 9; 10; 11])); [|lia].
  repeat (constructor; [repeat (constructor; [intros ?; done || lia|]); constructor|]). constructor.
Qed.

Lemma AllocateBlock_spec s C Lg O T i :
  PoolInv s C Lg O → pool_type T → 0 <= i < Limit T → ready (pages_state s) T (PageAlignment T) →
  wp (AllocateBlock (Builtin T) T i (PageAlignment T)) (BlockReady s C Lg O T i) (λ _ _, False) s.
Proof.
  intros Hinv HT Hi Hr. pose proof (pi_ok _ _ _ _ Hinv) as Hok. destruct (Limit_facts T) as (HL & HGd & HG & HLs).
  destruct (bsize_facts i) as (Hsz & Hszd & _); [lia|]. assert (in_lists T i) as Hin by (split; [apply HT|lia]).
  unfold AllocateBlock. wp_step. apply wp_get_list; [done|done|]. destruct (free_list s T i) as [|a l] eqn:Hl.
  - wp_step. apply wp_LIST_TO_SIZE; [lia|]. fold (Limit T). wp_step.
    eapply wp_mono; [apply (FindLarger_spec C Lg O T _ s (i + 1)); [done|apply HT|lia|unfold MAX_POOL_LIST in *; lia]| |done].
    intros r s1 [[-> ->]|(a & j & C1 & c & C2 & B1 & B2 & -> & Hj & HF & Hps & Hms & Hok1 & Hl1)].
    + wp_step. rewrite EFI_SIZE_TO_PAGES_PageAlignment.
      assert (PageAlignment T / 2 ^ EFI_PAGE_SHIFT * 2 ^ EFI_PAGE_SHIFT = PageAlignment T ∧ 0 < PageAlignment T / 2 ^ EFI_PAGE_SHIFT <= 16) as [HGm HG0] by
        (destruct (PageAlignment_pow T) as (k & Hk & ->); by destruct Hk as [->| ->]).
      set (N := PageAlignment T / 2 ^ EFI_PAGE_SHIFT) in *. pose proof UINTN_WIDTH_64. pose proof (Z.pow_le_mono_r 2 32 UINTN_WIDTH ltac:(done) ltac:(lia)).
      eapply wp_mono; [apply (CoreAllocatePoolPagesI_spec T N _ s Hok (pi_holds _ _ _ _ Hinv) HT); rewrite ?HGm; [lia|done|lia|change (2 ^ EFI_PAGE_SHIFT) with 4096; lia|done]| |done].
      intros a s1 [Hok1 Hl1 Hnp]. rewrite ?HGm in Hnp. wp_step.
      * wp_step. destruct Hnp as [(_ & Hms & Hh)|(? & _)]; [|lia]. replace a with 0 by lia. apply ready_none. destruct Hinv as [? ? ? ? Hpl].
        constructor; rewrite ?Hms; [done|done|done|done|]. intros T' i' Hin'. rewrite Hl1. by apply Hpl.
      * destruct Hnp as [(? & _)|(Ha & Had & Hh & Hsm)]; [lia|]. wp_step.
        eapply wp_mono; [apply (Carve_spec T a (Limit T) (bsize i) (PageAlignment T) s1); [done|apply HT|lia|pose proof (HLs i Hi); lia|by apply Z.divide_sub_r]| |done].
        intros _ s2 (bs & Hbs & Htot & [Q1 O1 L1 M1 X1]). wp_step. apply (ready_new s C Lg O T i a bs s2); try done; [by rewrite Q1|lia|..].
        -- intros T' i' Hin'. by rewrite (L1 T' i' Hin'), Hl1.
        -- eapply same_outside_trans; [exact Hsm|]. eapply same_outside_sub; [| |exact M1]; lia.
    + cbn match. wp_step. apply wp_LIST_TO_SIZE; [lia|]. destruct (bsize_facts j) as (_ & Hjd & _); [lia|].
      assert (bsize i <= bsize j) as Hij by (apply (index_le i j); lia). wp_step.
      eapply wp_mono; [apply (Carve_spec T a j (bsize i) (bsize j) s1); [done|apply HT|lia|lia|by apply Z.divide_sub_r]| |done].
      intros _ s2 (bs & Hbs & Htot & [Q1 O1 L1 M1 X1]). wp_step. apply (ready_old s C Lg O T i a j C1 c C2 B1 B2 bs s2); try done; [|lia|congruence|..].
      * eapply list.Forall_impl; [exact Hbs|]. intros b [? ?]. split; [lia|done].
      * intros T' i' Hin'. by rewrite (L1 T' i' Hin'), Hl1.
      * rewrite Htot, Hms in M1. eapply same_outside_sub; [| |exact M1]; lia.
  - destruct (list_head s C Lg O T i a l Hinv Hin Hl) as [(C1 & c & C2 & B1 & B2 & HF) Hm]. unfold CR_POOL_FREE. do 2 wp_step.
    apply (wp_read _ _ _ _ _ Hm). wp_step; [done|]. wp_step. eapply wp_mono; [apply (RemoveFree_spec a s (λ _ _, False)); done| |done].
    intros _ s1 (Hps & Hms & Hok1 & Hl1). wp_step. apply (ready_old s C Lg O T i a i C1 c C2 B1 B2 [] s1); try done; [constructor|cbn; lia|..].
    + intros T' i' Hin'. rewrite (Hl1 T' i' Hin'). by case_decide.
    + by rewrite Hms.
Qed.

(** ** The allocation *)

Lemma buffers_take C Lg T j a C1 c C2 B1 B2 limit i Size bs :
  BlockIn C T j None a C1 c C2 B1 B2 → free_blocks limit bs → bsize i + blocks_total bs = bsize j →
  buffers (C1 ++ with_blocks c (B1 ++ (i, Some Size) :: bs ++ B2) :: C2) Lg ≡ₚ buffer_at T a Size :: buffers C Lg.
Proof.
  intros [-> HT Hb Ha] Hbs Htot. unfold buffers. rewrite !used_in_app, !used_in_cons. cbn [with_blocks ck_type ck_base ck_blocks]. rewrite Hb, HT.
  rewrite !used_at_app. cbn [used_at fst snd]. rewrite used_at_app, (used_at_free T limit bs) by done. rewrite <- Ha, !app_nil_l.
  replace (a + bsize i + blocks_total bs) with (a + bsize j) by lia. cbn [app]. solve_Permutation.
Qed.

Lemma FinishBlock_spec s C Lg O T i Head s1 Size :
  PoolInv s C Lg O → pool_type T → BlockReady s C Lg O T i Head s1 → Head ≠ 0 → POOL_OVERHEAD <= Size < 2 ^ UINTN_WIDTH →
  GetPoolIndexFromSize Size = i → i < Limit T →
  wp (FinishAllocation (Builtin T) Head T Size) (λ b s', b = Head + SIZE_OF_POOL_HEAD ∧ ∃ C', PoolInv s' C' Lg O ∧
    buffers C' Lg ≡ₚ buffer_at T Head Size :: buffers C Lg) (λ _ _, False) s1.
Proof.
  intros Hinv HT Hbr HH HS Hix Hi. destruct (Limit_facts T) as (HL & HGd & HG & HLs).
  destruct (GetPoolIndexFromSize_spec Size) as (Hi0 & Hle & _). rewrite Hix in Hi0, Hle. specialize (Hle ltac:(lia)).
  destruct (bsize_facts i) as (Hsz & _); [lia|].
  inversion Hbr as [? Hn|a j C1 c C2 B1 B2 bs ? HF Hbs Htot Hps Hok Hls Hsm Hbm|a bs ? Ha Had Hh Hbs Htot Hok Hls Hsm Hbm]; subst; [done|..].
  - eapply wp_mono; [apply (FinishAllocation_spec T Head Size s1 (λ _ _, False)); [done|apply HT|done|done]| |done].
    intros b s' (-> & [W1 W2 W3 W4] & Hhm & Hcell). split; [done|].
    destruct (blocks_total_facts (Limit T) bs) as [Hbt _]; [lia|by apply free_blocks_ok|].
    exists (C1 ++ with_blocks c (B1 ++ (GetPoolIndexFromSize Size, Some Size) :: bs ++ B2) :: C2).
    split; [|by eapply buffers_take].
    apply (PoolInv_take s C Lg O T j Head C1 c C2 B1 B2 Hinv HF); [lia|done|done|done|done|congruence|done|..].
    + intros T' i' Hin. rewrite W3. by apply Hls.
    + eapply same_outside_trans; [eapply same_outside_sub; [| |exact Hsm]|eapply same_outside_sub; [| |exact W4]]; lia.
    + done.
    + rewrite Hcell. apply Hsm. unfold OFFSET_OF_Index. lia.
    + intros T0 base. eapply (blocks_mem_frame (Limit T)); [lia|by apply free_blocks_ok|exact W4|lia|apply Hbm].
  - eapply wp_mono; [apply (FinishAllocation_spec T Head Size s1 (λ _ _, False)); [done|apply HT|done|done]| |done].
    intros b s' (-> & [W1 W2 W3 W4] & Hhm & Hcell). split; [done|].
    destruct (blocks_total_facts (Limit T) bs) as [Hbt _]; [lia|by apply free_blocks_ok|].
    set (c := {| ck_type := T; ck_base := Head; ck_blocks := (GetPoolIndexFromSize Size, Some Size) :: bs |}).
    assert (same_outside (memory s) (memory s') Head (Head + PageAlignment T)) as Hsm'.
    { eapply same_outside_trans; [exact Hsm|]. eapply same_outside_sub; [| |exact W4]; lia. }
    exists (c :: C). split.
    + constructor; [done|by rewrite W1|..].
      * constructor; [constructor; cbn [c ck_type ck_base ck_blocks]; [done|done|by rewrite blocks_total_cons| | |]|].
        -- constructor; [split; [cbn [fst]; lia|]; cbn [fst snd]; intros ? [= <-]; split; [lia|done]|by apply free_blocks_ok].
        -- eexists _, _. left.
        -- split; [split; [done|done]|]. cbn [fst]. eapply (blocks_mem_frame (Limit T)); [lia|by apply free_blocks_ok|exact W4|lia|apply Hbm].
        -- apply list.Forall_forall. intros c' Hc'. eapply chunk_ok_frame; [exact Hsm'| |by apply (proj1 (list.Forall_forall _ _) (pi_chunks _ _ _ _ Hinv))].
           destruct (holds_head _ _ _ (chunk_region c') Hh) as [Hap|Hap]; [apply elem_of_app; left; by apply list_elem_of_fmap_2|..]; unfold chunk_region in *; cbn in *; lia.
      * apply list.Forall_forall. intros b Hb. eapply large_ok_frame; [exact Hsm'| |by apply (proj1 (list.Forall_forall _ _) (pi_large _ _ _ _ Hinv))].
        destruct (holds_head _ _ _ (large_region b) Hh) as [Hap|Hap]; [rewrite !elem_of_app; right; left; by apply list_elem_of_fmap_2|..]; cbn [rg_base rg_size] in *; cbn in *; lia.
      * intros T' i' Hin. rewrite W3, (Hls T' i' Hin), (pi_lists _ _ _ _ Hinv T' i' Hin). cbn [free_in c ck_type ck_base ck_blocks free_at fst].
        destruct (decide (T' = T)) as [->|]; [|by rewrite (decide_False (P := T = T')) by congruence].
        rewrite (decide_True (P := T = T)) by done. by rewrite decide_False by (by intros [= ]).
    + unfold buffers. rewrite used_in_cons. cbn [c ck_type ck_base ck_blocks used_at fst snd]. by rewrite (used_at_free T (Limit T) bs).
Qed.
End Take.
