(* ===== verification/PoolAllocate.v ===== *)
(** Pool.c: CoreInternalAllocatePool gives out memory that nobody holds. *)
From stdpp Require Import list gmap.
From S2P Require Import Prelude Base Buffer Platform Overflow ImageRecord MemoryMap SplitTable SplitCoverage MemoryMerge GetMemoryMap PageAlloc PageMapSpec PageFind PageConvert PageStack PageServices PageSample PageAllocate PoolAlloc PoolSpec PoolLists PoolInv PoolTake.

Section Allocate.
Context `{!Platform, !PlatformOk, !PageConfig, !PageConfigOk} {P : Type} `{!PoolPages P, !PoolPagesLaws P}.
Implicit Types s : POOLS P.

(** Size of the head of a buffer of [Size] bytes. *)
Definition head_size (Size : Z) : Z := align_up Size UINTN_SIZE + POOL_OVERHEAD.

(** The bytes of pages that are needed at most. *)
Definition pages_needed (T Size : Z) : Z :=
  if Limit T <=? GetPoolIndexFromSize Size then large_pages T Size * 2 ^ EFI_PAGE_SHIFT else PageAlignment T.

(** ** Pages of its own *)

Lemma FinishLarge_spec s C Lg O T Head s1 Size :
  PoolInv s C Lg O → pool_type T → POOL_OVERHEAD <= Size → Size + 2 ^ 17 <= 2 ^ UINTN_WIDTH → Limit T <= GetPoolIndexFromSize Size →
  NewPages T (large_pages T Size) (map chunk_region C ++ map large_region Lg ++ O) Head s s1 → Head ≠ 0 →
  wp (FinishAllocation (Builtin T) Head T Size) (λ b s', b = Head + SIZE_OF_POOL_HEAD ∧
    PoolInv s' C ({| lg_type := T; lg_base := Head; lg_Size := Size |} :: Lg) O) (λ _ _, False) s1.
Proof.
  intros Hinv HT HO HS Hix [Hok Hls [(? & _)|(Ha & Had & Hh & Hsm)]] HH; [done|]. destruct layout_facts as (? & ? & ? & ? & ? & ? & ? & ? & ?).
  destruct (PoolPageCount_facts T Size ltac:(lia) HS) as (_ & Hp & _).
  eapply wp_mono; [apply (FinishAllocation_spec T Head Size s1 (λ _ _, False)); [done|apply HT|done|lia]| |done].
  intros b s' (-> & [W1 W2 W3 W4] & Hhm & _). split; [done|]. set (N := large_pages T Size * 2 ^ EFI_PAGE_SHIFT) in *.
  assert (same_outside (memory s) (memory s') Head (Head + N)) as Hsm'.
  { eapply same_outside_trans; [exact Hsm|]. eapply same_outside_sub; [| |exact W4]; lia. }
  constructor; [done|..].
  - rewrite W1. eapply holds_perm; [|exact Hh]. cbn [map]. apply Permutation_middle.
  - apply list.Forall_forall. intros c' Hc'. eapply chunk_ok_frame; [exact Hsm'| |by apply (proj1 (list.Forall_forall _ _) (pi_chunks _ _ _ _ Hinv))].
    destruct (holds_head _ _ _ (chunk_region c') Hh) as [Hap|Hap]; [apply elem_of_app; left; by apply list_elem_of_fmap_2|..]; cbn in *; lia.
  - constructor; [by constructor|].
    apply list.Forall_forall. intros b Hb. eapply large_ok_frame; [exact Hsm'| |by apply (proj1 (list.Forall_forall _ _) (pi_large _ _ _ _ Hinv))].
    destruct (holds_head _ _ _ (large_region b) Hh) as [Hap|Hap]; [rewrite !elem_of_app; right; left; by apply list_elem_of_fmap_2|..]; cbn [rg_base rg_size] in *; cbn in *; lia.
  - intros T' i' Hin. rewrite W3, Hls. by apply (pi_lists _ _ _ _ Hinv).
Qed.

(** ** CoreAllocatePoolI *)

Lemma FinishAllocation_zero r T n : FinishAllocation r 0 T n = (mret 0 : M (POOLS P) Z).
Proof. done. Qed.

Lemma BlockReady_cases s C Lg O T i Head s1 : PoolInv s C Lg O → BlockReady s C Lg O T i Head s1 → Head = 0 ∧ PoolInv s1 C Lg O ∨ 0 < Head.
Proof.
  intros Hinv. destruct 1 as [s1 ?|a j C1 c C2 B1 B2 bs s1 HF _ _ _ _ _ _ _|a bs s1 ? _ _ _ _ _ _ _ _]; [by left|right|by right].
  destruct (taken_total _ _ _ _ _ _ _ _ _ _ _ _ _ Hinv HF) as (? & _). rewrite (fi_address _ _ _ _ _ _ _ _ _ _ HF).
  destruct (chunk_range s C Lg O c Hinv); [|lia]. rewrite (fi_chunks _ _ _ _ _ _ _ _ _ _ HF). apply elem_of_app. right. left.
Qed.

Lemma head_size_facts Size : 0 <= Size → Size + 2 ^ 18 <= 2 ^ UINTN_WIDTH →
  wrapn (ALIGN_VALUE UINTN_WIDTH Size UINTN_SIZE + POOL_OVERHEAD) = head_size Size ∧ POOL_OVERHEAD <= head_size Size <= Size + 64.
Proof.
  intros H0' Hw. destruct layout_facts as (? & Hu & ? & ? & ? & ? & ? & ? & ?). pose proof UINTN_WIDTH_64.
  assert (0 < UINTN_SIZE) as Hpos by lia. pose proof (align_up_ge Size UINTN_SIZE Hpos). change (2 ^ 18) with 262144 in Hw.
  unfold head_size. rewrite ALIGN_VALUE_spec; [|lia|split; lia|by destruct Hu as [->| ->]|split; lia|split; lia].
  split; [|lia]. apply wrap_small. split; lia.
Qed.

(** What has become of the pool: nothing, or there is a new buffer. *)
Definition Grown (T Size : Z) (L O : list Region) (b : Z) s' : Prop :=
  b = 0 ∧ PoolGood s' L O ∨ 0 < b ∧ PoolGood s' ({| rg_type := T; rg_base := b; rg_size := align_up Size UINTN_SIZE |} :: L) O.

Lemma CoreAllocatePoolI_spec s L O T Size :
  PoolGood s L O → pool_type T → 0 <= Size → Size + 2 ^ 18 <= 2 ^ UINTN_WIDTH → ready (pages_state s) T (pages_needed T (head_size Size)) →
  wp (CoreAllocatePoolI T Size) (Grown T Size L O) (λ _ _, False) s.
Proof.
  intros (C & Lg & Hinv & HL) HT H0' Hw Hr. destruct layout_facts as (? & Hu & ? & ? & ? & ? & ? & ? & ?).
  destruct (head_size_facts Size H0' Hw) as [Hsz HS]. change (2 ^ 18) with 262144 in Hw. unfold CoreAllocatePoolI. cbn [AllocatePoolI_fuel]. rewrite Hsz.
  assert (∀ Head, buffer_at T Head (head_size Size) = {| rg_type := T; rg_base := Head + SIZE_OF_POOL_HEAD; rg_size := align_up Size UINTN_SIZE |}) as Hbuf.
  { intros Head. unfold buffer_at, head_size. f_equal. lia. }
  set (n := head_size Size) in *. unfold LookupPoolHead. rewrite (proj2 (Z.ltb_lt _ _) (proj2 (proj1 HT))). do 3 wp_step. fold (Limit T).
  unfold pages_needed in Hr. destruct (Z.leb_spec (Limit T) (GetPoolIndexFromSize n)) as [Hix|Hix].
  - fold (large_pages T n). destruct (PoolPageCount_facts T n) as (HN & HNb & HNd); [lia|change (2 ^ 17) with 131072; lia|].
    change (2 ^ EFI_PAGE_SHIFT) with 4096 in HNb. change (2 ^ 17) with 131072 in HNb.
    eapply wp_mono; [apply (CoreAllocatePoolPagesI_spec T (large_pages T n) _ s (pi_ok _ _ _ _ Hinv) (pi_holds _ _ _ _ Hinv) HT HN HNd); [lia|change (2 ^ EFI_PAGE_SHIFT) with 4096; lia|done]| |done].
    intros Head s1 Hnp. destruct (Z.eqb_spec Head 0) as [->|Hne].
    + rewrite FinishAllocation_zero. wp_step. left. split; [done|]. destruct Hnp as [Hok Hls [(_ & Hms & Hh)|(? & _)]]; [|done]. exists C, Lg. split; [|done].
      destruct Hinv as [? ? ? ? Hpl]. constructor; rewrite ?Hms; [done..|]. intros. rewrite Hls. by apply Hpl.
    + eapply wp_mono; [apply (FinishLarge_spec s C Lg O T Head s1 n Hinv HT); [lia|change (2 ^ 17) with 131072; lia|done|done|done]| |done].
      intros b s' [-> Hi']. destruct Hnp as [_ _ [(? & _)|(? & _)]]; [done|]. right. split; [lia|].
      eexists _, _. split; [exact Hi'|]. rewrite <- Hbuf, <- HL. unfold buffers. cbn [map]. by rewrite <- Permutation_middle.
  - destruct (GetPoolIndexFromSize_spec n) as (Hi0 & _ & _).
    eapply wp_mono; [apply (AllocateBlock_spec s C Lg O T (GetPoolIndexFromSize n) Hinv HT); [lia|done]| |done].
    intros Head s1 Hbr. destruct (BlockReady_cases _ _ _ _ _ _ _ _ Hinv Hbr) as [[-> Hi']|Hpos].
    + rewrite FinishAllocation_zero. wp_step. left. split; [done|]. by exists C, Lg.
    + assert (Head ≠ 0) as Hne by lia. eapply wp_mono; [apply (FinishBlock_spec s C Lg O T (GetPoolIndexFromSize n) Head s1 n Hinv HT Hbr Hne); [lia|done|done]| |done].
      intros b s' (-> & C' & Hi' & Hb'). right. split; [lia|].
      exists C', Lg. split; [done|]. by rewrite Hb', HL, Hbuf.
Qed.
End Allocate.
