(* ===== verification/PoolFree.v ===== *)
(** Pool.c: CoreFreePoolI takes back a buffer, and the page of its block when no block of it is in use. *)
From stdpp Require Import list gmap.
From S2P Require Import Prelude Base Buffer Platform Overflow ImageRecord MemoryMap SplitTable SplitCoverage MemoryMerge GetMemoryMap PageAlloc PageMapSpec PageFind PageConvert PageStack PageServices PageSample PageAllocate PoolAlloc PoolSpec PoolLists PoolInv PoolTake.

Section Free.
Context `{!Platform, !PlatformOk, !PageConfig, !PageConfigOk} {P : Type} `{!PoolPages P, !PoolPagesLaws P}.
Implicit Types s : POOLS P.

Lemma CheckHead_spec T Head Size s E : head_mem (memory s) T Head Size → wp (CheckHead Head) (λ r s', s' = s ∧ r = (T, Size, false)) E s.
Proof.
  intros [H1' H2' H3' H4' H5']. unfold CheckHead. wp_step. apply (wp_read _ _ _ _ _ H1'). rewrite Z.eqb_refl. cbn [negb andb orb]. do 2 wp_step.
  wp_step. apply (wp_read _ _ _ _ _ H2'). wp_step. apply (wp_read _ _ _ _ _ H4'). wp_step. apply (wp_read _ _ _ _ _ H5').
  rewrite !Z.eqb_refl. cbn [negb].
  apply wp_bind, wp_ASSERT; [done|]. apply wp_bind, wp_ASSERT; [done|]. apply wp_bind, wp_fail_if; [done|intros _]. apply wp_bind, wp_fail_if; [done|intros _].
  wp_step. apply (wp_read _ _ _ _ _ H3'). by wp_step.
Qed.

Lemma CoreFreePoolPagesI_spec T a N L s :
  PoolsOk s → holds (pages_state s) ({| rg_type := T; rg_base := a; rg_size := N * 2 ^ EFI_PAGE_SHIFT |} :: L) → pool_type T → 0 < N →
  (PageAlignment T | N * 2 ^ EFI_PAGE_SHIFT) →
  wp (CoreFreePoolPagesI a N) (λ _ s', holds (pages_state s') L ∧ memory s' = memory s ∧ PoolsOk s' ∧ ∀ T i, free_list s' T i = free_list s T i) (λ _ _, False) s.
Proof.
  intros Hok Hh HT HN Hd. unfold CoreFreePoolPagesI. do 2 wp_step.
  destruct (wp_total _ _ _ (FreePoolPages_law _ L T a N Hh HT HN Hd)) as (u & t & Hrun & Ht). rewrite Hrun. wp_step.
  split_and!; [done|done|by destruct Hok|done].
Qed.

(** ** Are all blocks of the page free? *)

Definition all_free (bs : list block) : Prop := Forall (λ b, b.2 = None) bs.

Lemma CheckAllFree_spec T NewPage Granularity s E fuel : ∀ Offset bs,
  blocks_mem (memory s) T NewPage (NewPage + Offset) bs → Forall (block_ok MAX_POOL_LIST) bs → Offset + blocks_total bs = Granularity → 0 <= Offset →
  (Offset = 0 → ∀ i Size bs', bs ≠ (i, Some Size) :: bs') → blocks_total bs < 128 * Z.of_nat fuel →
  wp (CheckAllFree fuel NewPage Offset Granularity) (λ r s', s' = s ∧ (r = true → all_free bs) ∧ (r = false → ∃ i Size, (i, Some Size) ∈ bs)) E s.
Proof.
  induction fuel as [|fuel IH]; intros Offset bs Hm Hbs Ht HO Hfirst Hf.
  { destruct (blocks_total_facts MAX_POOL_LIST bs) as [? _]; [done|done|]. lia. }
  cbn [CheckAllFree]. destruct bs as [|[i u] bs].
  { cbn in Ht. wp_step; [lia|]. wp_step. split_and!; [done|constructor|done]. }
  apply list.Forall_cons in Hbs as [Hb Hbs]. destruct (pool_block_bounds MAX_POOL_LIST _ ltac:(lia) Hb) as (Hsz & _). rewrite blocks_total_cons in *. cbn [fst] in *.
  destruct (blocks_total_facts MAX_POOL_LIST bs) as [? _]; [done|done|]. destruct Hm as [Hm Hms]. cbn [fst] in Hms. wp_step; [|lia].
  unfold block_mem in Hm. destruct u as [Size|]; cbn [fst snd] in Hm.
  - destruct Hm as [Hh Hj]. destruct Hj as (j & Hj & Hjr).
    { intros Heq. assert (Offset = 0) as HO0 by lia. by apply (Hfirst HO0 i Size bs). }
    wp_step. apply (wp_read _ _ _ _ _ (hm_signature _ _ _ _ Hh)). wp_step. apply (wp_read _ _ _ _ _ Hj). wp_step. apply wp_LIST_TO_SIZE; [done|].
    cbn [negb]. wp_step; [|done]. wp_step. split_and!; [done|done|]. intros _. exists i, Size. left.
  - destruct Hm as [Hs Hi]. wp_step. apply (wp_read _ _ _ _ _ Hs). wp_step. apply (wp_read _ _ _ _ _ Hi). wp_step. apply wp_LIST_TO_SIZE; [apply Hb|].
    wp_step; [done|]. eapply wp_mono; [apply (IH (Offset + bsize i) bs)| |done]; [by rewrite Z.add_assoc|done|lia|lia|lia|lia|].
    intros r s' (-> & Ht1 & Hf1). split_and!; [done|intros Hr; constructor; [done|by apply Ht1]|]. intros Hr. destruct (Hf1 Hr) as (i' & Size' & ?). exists i', Size'. by right.
Qed.

(** The blocks [D] are removed from the lists. *)
Record Removed (D : list Z) s s' : Prop := {
  rm_pages : pages_state s' = pages_state s;
  rm_memory : memory s' = memory s;
  rm_ok : PoolsOk s';
  rm_lists : ∀ T i, in_lists T i → free_list s' T i = filter (λ x, x ∉ D) (free_list s T i);
}.

Fixpoint addresses (a : Z) (bs : list block) : list Z :=
  match bs with
  | [] => []
  | b :: bs' => a :: addresses (a + bsize b.1) bs'
  end.

Lemma addresses_range limit bs x : ∀ a, limit <= MAX_POOL_LIST → Forall (block_ok limit) bs → x ∈ addresses a bs → a <= x < a + blocks_total bs.
Proof.
  induction bs as [|b bs IH]; intros a Hlim Hbs Hx; [by apply elem_of_nil in Hx|]. apply list.Forall_cons in Hbs as [Hb Hbs].
  destruct (pool_block_bounds limit b Hlim Hb) as (? & _). destruct (blocks_total_facts limit bs Hlim Hbs) as [? _]. rewrite blocks_total_cons.
  apply list.elem_of_cons in Hx as [->|Hx]; [lia|]. apply IH in Hx; [lia|done|done].
Qed.

Lemma free_at_addresses i bs x : ∀ a, x ∈ free_at i a bs → x ∈ addresses a bs.
Proof.
  induction bs as [|b bs IH]; intros a Hx; [done|]. cbn [free_at addresses] in *. apply elem_of_app in Hx as [Hx|Hx]; [|right; by apply IH].
  case_decide; [|by apply elem_of_nil in Hx]. apply list_elem_of_singleton in Hx as ->. left.
Qed.

Lemma RemoveAllFree_spec T NewPage Granularity E fuel : ∀ Offset bs s,
  PoolsOk s → blocks_mem (memory s) T NewPage (NewPage + Offset) bs → Forall (block_ok MAX_POOL_LIST) bs → all_free bs → Offset + blocks_total bs = Granularity →
  blocks_total bs < 128 * Z.of_nat fuel →
  wp (RemoveAllFree fuel NewPage Offset Granularity) (λ _, Removed (addresses (NewPage + Offset) bs) s) E s.
Proof.
  induction fuel as [|fuel IH]; intros Offset bs s Hok Hm Hbs Hfr Ht Hf.
  { destruct (blocks_total_facts MAX_POOL_LIST bs) as [? _]; [done|done|]. lia. }
  cbn [RemoveAllFree]. destruct bs as [|[i u] bs].
  { cbn in Ht. wp_step; [lia|]. wp_step. constructor; [done|done|done|]. intros T' i' _. symmetry. apply filter_keep. intros x _ Hx. by apply elem_of_nil in Hx. }
  apply list.Forall_cons in Hbs as [Hb Hbs]. apply list.Forall_cons in Hfr as [Hu Hfr]. cbn in Hu. subst u.
  destruct (pool_block_bounds MAX_POOL_LIST _ ltac:(lia) Hb) as (Hsz & _). rewrite blocks_total_cons in *. cbn [fst] in *.
  destruct (blocks_total_facts MAX_POOL_LIST bs) as [? _]; [done|done|]. destruct Hm as [[_ Hi] Hms]. cbn [fst] in Hms, Hi. wp_step; [|lia].
  wp_step. eapply wp_mono; [by apply (RemoveFree_spec (NewPage + Offset) s E)| |done]. intros _ s1 (Hps & Hmem & Hok1 & Hl1). rewrite <- Hmem in Hi, Hms.
  wp_step. apply (wp_read _ _ _ _ _ Hi). wp_step. apply wp_LIST_TO_SIZE; [apply Hb|].
  eapply wp_mono; [apply (IH (Offset + bsize i) bs s1 Hok1)| |done]; [by rewrite Z.add_assoc|done|done|lia|lia|].
  intros _ s2 [Hp2 Hm2 Hok2 Hl2]. constructor; [congruence|congruence|done|]. intros T' i' Hin. rewrite (Hl2 T' i' Hin), (Hl1 T' i' Hin), list_filter_filter.
  apply list_filter_iff. intros x. cbn [addresses fst]. rewrite list.not_elem_of_cons, Z.add_assoc. tauto.
Qed.

(** ** A block is put back *)

(** The invariant, but the page [c] may not have a block in use. *)
Record AlmostInv s (c : pool_page) (C : list pool_page) (Lg : list large) (O : list Region) : Prop := {
  ai_ok : PoolsOk s;
  ai_holds : holds (pages_state s) (map chunk_region (c :: C) ++ map large_region Lg ++ O);
  ai_type : pool_type (ck_type c);
  ai_aligned : (PageAlignment (ck_type c) | ck_base c);
  ai_total : blocks_total (ck_blocks c) = PageAlignment (ck_type c);
  ai_blocks : Forall (block_ok (Limit (ck_type c))) (ck_blocks c);
  ai_mem : blocks_mem (memory s) (ck_type c) (ck_base c) (ck_base c) (ck_blocks c);
  ai_chunks : Forall (chunk_ok (memory s)) C;
  ai_large : Forall (large_ok (memory s)) Lg;
  ai_lists : ∀ T i, in_lists T i → free_list s T i ≡ₚ free_in T i (c :: C);
}.

Lemma AlmostInv_used s c C Lg O i Size : AlmostInv s c C Lg O → (i, Some Size) ∈ ck_blocks c → PoolInv s (c :: C) Lg O.
Proof. intros [] Hu. constructor; try done. constructor; [|done]. constructor; try done. by exists i, Size. Qed.

Lemma AlmostInv_freed s c C Lg O s1 s2 :
  AlmostInv s c C Lg O → all_free (ck_blocks c) → Removed (addresses (ck_base c) (ck_blocks c)) s s1 →
  holds (pages_state s2) (map chunk_region C ++ map large_region Lg ++ O) → memory s2 = memory s1 → PoolsOk s2 →
  (∀ T i, free_list s2 T i = free_list s1 T i) → PoolInv s2 C Lg O.
Proof.
  intros [? Hh ? ? Ht Hbs ? HC HL Hls] Hfr [_ Hm _ Hl] Hh2 Hm2 Hok2 Hl2. destruct (Limit_facts (ck_type c)) as (? & _).
  constructor; rewrite ?Hm2, ?Hm; [done|done|done|done|]. intros T i Hin. rewrite Hl2, (Hl T i Hin), (Hls T i Hin). cbn [free_in]. rewrite list.filter_app.
  assert (filter (λ x, x ∉ addresses (ck_base c) (ck_blocks c)) (if decide (ck_type c = T) then free_at i (ck_base c) (ck_blocks c) else []) = []) as ->.
  { apply elem_of_nil_inv. intros x [Hn Hx]%list_elem_of_filter. case_decide; [by apply Hn, (free_at_addresses i)|by apply elem_of_nil in Hx]. }
  rewrite filter_keep; [done|]. intros x Hx Ha. apply (addresses_range (Limit (ck_type c))) in Ha; [|lia|done].
  destruct (free_in_range _ _ _ _ _ HC Hx) as (c' & Hc' & _ & _ & Hr).
  destruct (holds_head _ _ _ (chunk_region c') Hh) as [Hap|Hap]; [apply elem_of_app; left; by apply list_elem_of_fmap_2|..]; cbn in *; lia.
Qed.

Section Put.
Context s (C : list pool_page) (Lg : list large) (O : list Region) (T i Size a : Z) (C1 : list pool_page) (c : pool_page) (C2 : list pool_page) (B1 B2 : list block).
Context (Hinv : PoolInv s C Lg O) (Hf : BlockIn C T i (Some Size) a C1 c C2 B1 B2).

Lemma put_block s' :
  pages_state s' = pages_state s → PoolsOk s' →
  (∀ T' i', in_lists T' i' → free_list s' T' i' = (if decide (T' = T ∧ i' = i) then [a] else []) ++ free_list s T' i') →
  same_outside (memory s) (memory s') a (a + bsize i) → (∀ T0 base, block_mem (memory s') T0 base a (i, None)) →
  AlmostInv s' (with_blocks c (B1 ++ (i, None) :: B2)) (C1 ++ C2) Lg O.
Proof.
  intros Hps Hok Hls Hsm Hbm. destruct (Limit_facts T) as (? & _). destruct (taken_blocks _ _ _ _ _ _ _ _ _ _ _ _ _ Hinv Hf) as (HB1 & Hi & HB2).
  destruct (taken_total _ _ _ _ _ _ _ _ _ _ _ _ _ Hinv Hf) as (? & ? & ?). destruct (taken_chunk _ _ _ _ _ _ _ _ _ _ _ _ _ Hinv Hf) as [K1 K2 K3 K4 _ K6].
  destruct (bsize_facts i) as (? & _); [lia|]. pose proof (taken_apart_chunk _ _ _ _ _ _ _ _ _ _ _ _ _ Hinv Hf) as Hac.
  pose proof (taken_apart_large _ _ _ _ _ _ _ _ _ _ _ _ _ Hinv Hf) as Hal. destruct Hf as [HC HT Hb Ha]. rewrite Hb in *. rewrite HT in *.
  apply blocks_mem_app in K6 as [M1 [_ M2]]. cbn [fst] in *. rewrite <- Ha in *.
  constructor; cbn [with_blocks ck_type ck_base ck_blocks]; rewrite ?HT; [done|..|done|done| | | | | |].
  - rewrite Hps. eapply holds_perm; [|apply (pi_holds _ _ _ _ Hinv)]. rewrite HC, !map_app. cbn [map]. rewrite map_app. by rewrite <- Permutation_middle.
  - rewrite <- K3, !blocks_total_app, !blocks_total_cons. done.
  - apply Forall_app. split; [done|]. constructor; [by split|done].
  - apply blocks_mem_app. rewrite <- Ha. split; [eapply (blocks_mem_frame (Limit T)); [lia|done|exact Hsm|lia|done]|]. split; [done|]. cbn [fst].
    eapply (blocks_mem_frame (Limit T)); [lia|done|exact Hsm|lia|done].
  - apply list.Forall_forall. intros c' Hc'. eapply chunk_ok_frame; [exact Hsm| |].
    + destruct (Hac c' Hc') as [Hap|Hap]; unfold chunk_region in *; cbn in *; rewrite ?HT in *; lia.
    + apply (proj1 (list.Forall_forall _ _) (pi_chunks _ _ _ _ Hinv)). rewrite HC. apply elem_of_app in Hc' as [?|?]; apply elem_of_app; [by left|right; by right].
  - apply list.Forall_forall. intros b Hb'. eapply large_ok_frame; [exact Hsm| |by apply (proj1 (list.Forall_forall _ _) (pi_large _ _ _ _ Hinv))].
    destruct (Hal b Hb') as [Hap|Hap]; unfold chunk_region in *; cbn [rg_base rg_size] in *; rewrite ?HT in *; cbn in *; lia.
  - intros T' i' Hin. rewrite (Hls T' i' Hin), (pi_lists _ _ _ _ Hinv T' i' Hin), HC, free_in_app. cbn [free_in with_blocks ck_type ck_base ck_blocks]. rewrite free_in_app, HT, Hb.
    destruct (decide (T = T')) as [<-|Hne]; [|rewrite decide_False by (intros [? _]; congruence); done]. rewrite !free_at_app. cbn [free_at fst]. rewrite <- Ha.
    rewrite (decide_False (P := (i, Some Size) = (i', None))) by (by intros [= ]). destruct (decide (i' = i)) as [->|Hni].
    + rewrite !decide_True by done. solve_Permutation.
    + rewrite !decide_False by (tauto || congruence). solve_Permutation.
Qed.

Lemma buffers_put :
  buffers C Lg ≡ₚ buffer_at T a Size :: buffers (with_blocks c (B1 ++ (i, None) :: B2) :: C1 ++ C2) Lg.
Proof.
  clear Hinv. destruct Hf as [-> HT Hb Ha]. unfold buffers. rewrite !used_in_app, !used_in_cons, used_in_app. cbn [with_blocks ck_type ck_base ck_blocks]. rewrite Hb, HT.
  rewrite !used_at_app. cbn [used_at fst snd]. rewrite <- Ha. cbn [app]. solve_Permutation.
Qed.

(** The address of the page. *)
Lemma page_of_block : Z.land a (lnot_w UINTN_WIDTH (PageAlignment T - 1)) = ck_base c.
Proof.
  destruct (taken_total _ _ _ _ _ _ _ _ _ _ _ _ _ Hinv Hf) as (? & ? & ?). destruct (taken_blocks _ _ _ _ _ _ _ _ _ _ _ _ _ Hinv Hf) as (_ & Hi & _).
  destruct (Limit_facts T) as (? & _). destruct (bsize_facts i) as (? & _); [lia|]. pose proof UINTN_WIDTH_64.
  pose proof (co_aligned _ _ (taken_chunk _ _ _ _ _ _ _ _ _ _ _ _ _ Hinv Hf)) as [q Hq].
  destruct (chunk_range s C Lg O c Hinv) as [? ?]; [rewrite (fi_chunks _ _ _ _ _ _ _ _ _ _ Hf); apply elem_of_app; right; left|].
  rewrite (fi_type _ _ _ _ _ _ _ _ _ _ Hf) in *. rewrite (fi_address _ _ _ _ _ _ _ _ _ _ Hf).
  destruct (PageAlignment_pow T) as (k & Hk & Hp). rewrite Hp in *. rewrite land_lnot_mask; [|split; lia|lia|lia].
  rewrite Hq at 2. rewrite (Z.add_comm (q * _)), Z.mod_add by (destruct Hk as [->| ->]; done). rewrite Z.mod_small; lia.
Qed.

Lemma FreeBlock_spec s1 :
  Wrote a (a + Size) s s1 →
  wp (FreeBlock (Builtin T) i a (PageAlignment T)) (λ _ s', ∃ C', PoolInv s' C' Lg O ∧ buffers C Lg ≡ₚ buffer_at T a Size :: buffers C' Lg) (λ _ _, False) s1.
Proof.
  intros [W1 W2 W3 W4]. pose proof (taken_chunk _ _ _ _ _ _ _ _ _ _ _ _ _ Hinv Hf) as Hc. pose proof (co_type _ _ Hc) as HT. pose proof (co_blocks _ _ Hc) as Hbl.
  destruct (Limit_facts T) as (HL & HGd & HG & _). pose proof buffers_put as Hbuf. pose proof page_of_block as Hpage.
  rewrite (fi_blocks _ _ _ _ _ _ _ _ _ _ Hf) in Hbl. rewrite (fi_type _ _ _ _ _ _ _ _ _ _ Hf) in HT, Hbl. apply Forall_app in Hbl as [_ [Hb _]%list.Forall_cons].
  destruct (pool_block_bounds (Limit T) _ (proj2 HL) Hb) as (Hsz & _ & Hu). specialize (Hu Size eq_refl). cbn [fst] in *.
  unfold FreeBlock. wp_step. eapply wp_mono; [apply (InsertFree_spec T i a s1 (λ _ _, False) W2); split; [apply HT|pose proof (proj1 Hb) as Hi; cbn [fst] in Hi; lia]| |done].
  intros _ s2 [I1 I2 I3 I4 I5]. rewrite Hpage.
  assert (AlmostInv s2 (with_blocks c (B1 ++ (i, None) :: B2)) (C1 ++ C2) Lg O) as Hai.
  { apply put_block; [congruence|done|..|done].
    - intros T' i' Hin. by rewrite (I3 T' i' Hin), W3.
    - eapply same_outside_trans; [eapply same_outside_sub; [| |exact W4]|eapply same_outside_sub; [| |exact I4]]; lia. }
  set (c' := with_blocks c (B1 ++ (i, None) :: B2)) in *. change (ck_base c) with (ck_base c'). assert (ck_type c' = T) as HT' by apply (fi_type _ _ _ _ _ _ _ _ _ _ Hf).
  pose proof (ai_blocks _ _ _ _ _ Hai) as Hbs. pose proof (ai_mem _ _ _ _ _ Hai) as Hms. pose proof (ai_total _ _ _ _ _ Hai) as Ht. rewrite HT' in *.
  assert (Forall (block_ok MAX_POOL_LIST) (ck_blocks c')) as Hbs'.
  { eapply list.Forall_impl; [exact Hbs|]. intros b [? ?]. split; [lia|done]. }
  assert (blocks_total (ck_blocks c') < 128 * Z.of_nat (S (Z.to_nat (PageAlignment T / 128)))) as Hfuel.
  { rewrite Ht. pose proof (Z.div_mod (PageAlignment T) 128). pose proof (Z.mod_pos_bound (PageAlignment T) 128). rewrite Nat2Z.inj_succ, Z2Nat.id by (apply Z.div_pos; lia). lia. }
  set (fuel := S _) in *. clearbody c'.
  assert (∀ i' Size', (i', Some Size') ∈ ck_blocks c' → ∃ C', PoolInv s2 C' Lg O ∧ buffers C Lg ≡ₚ buffer_at T a Size :: buffers C' Lg) as Hkeep.
  { intros i' Size' Hu'. exists (c' :: C1 ++ C2). split; [by eapply AlmostInv_used|done]. }
  destruct (ck_blocks c') as [|[j u] bs] eqn:Hcb; [cbn in Ht; lia|]. pose proof Hms as [Hm _]. unfold block_mem in Hm. cbn [fst snd] in Hm. destruct u as [Size'|].
  - destruct Hm as [Hm _]. wp_step. apply (wp_read _ _ _ _ _ (hm_signature _ _ _ _ Hm)). wp_step; [done|]. wp_step. apply (Hkeep j Size'). left.
  - destruct Hm as [Hm _]. wp_step. apply (wp_read _ _ _ _ _ Hm). wp_step; [|done]. rewrite <- (Z.add_0_r (ck_base c')) in Hms at 2.
    wp_step. eapply wp_mono; [apply (CheckAllFree_spec T (ck_base c') (PageAlignment T) s2 (λ _ _, False) fuel 0 _ Hms Hbs'); [lia|done|done|lia]| |done].
    intros r s2' (-> & Htrue & Hfalse). destruct r.
    + specialize (Htrue eq_refl). wp_step.
      eapply wp_mono; [apply (RemoveAllFree_spec T (ck_base c') (PageAlignment T) (λ _ _, False) fuel 0 _ s2 I2 Hms Hbs' Htrue); [lia|lia]| |done].
      intros [] s3 Hrm. rewrite Z.add_0_r, <- Hcb in Hrm. pose proof (ai_holds _ _ _ _ _ Hai) as Hh. cbn [map app] in Hh. rewrite <- (rm_pages _ _ _ Hrm) in Hh.
      rewrite EFI_SIZE_TO_PAGES_PageAlignment. unfold chunk_region in Hh at 1. rewrite HT', <- (PageAlignment_pages T) in Hh.
      eapply wp_mono; [apply (CoreFreePoolPagesI_spec T (ck_base c') _ _ s3 (rm_ok _ _ _ Hrm) Hh HT); [|by rewrite PageAlignment_pages]| |done].
      * apply Z.div_str_pos. change (2 ^ EFI_PAGE_SHIFT) with 4096. lia.
      * intros _ s4 (Hh4 & Hm4 & Hok4 & Hl4). exists (C1 ++ C2). split; [eapply (AlmostInv_freed s2 c'); try done; by rewrite Hcb|].
        rewrite Hbuf. unfold buffers. rewrite used_in_cons, Hcb, (used_at_free _ MAX_POOL_LIST); [done|].
        apply list.Forall_forall. intros b Hb'. split; [apply (proj1 (list.Forall_forall _ _) Hbs' b Hb')|apply (proj1 (list.Forall_forall _ _) Htrue b Hb')].
    + wp_step. destruct (Hfalse eq_refl) as (i' & Size' & Hin). by apply (Hkeep i' Size').
Qed.
End Put.

(** ** CoreFreePoolI *)

Lemma used_at_block T r bs : ∀ a, r ∈ used_at T a bs → ∃ B1 i Size B2, bs = B1 ++ (i, Some Size) :: B2 ∧ r = buffer_at T (a + blocks_total B1) Size.
Proof.
  induction bs as [|[i u] bs IH]; intros a Hr; [by apply elem_of_nil in Hr|]. cbn [used_at fst snd] in Hr. apply elem_of_app in Hr as [Hr|Hr].
  - destruct u as [Size|]; [|by apply elem_of_nil in Hr]. apply list_elem_of_singleton in Hr as ->. exists [], i, Size, bs. split; [done|]. cbn. by rewrite Z.add_0_r.
  - apply IH in Hr as (B1 & i' & Size & B2 & -> & ->). exists ((i, u) :: B1), i', Size, B2. split; [done|]. by rewrite blocks_total_cons, Z.add_assoc.
Qed.

(** A buffer is in a block of a page or in pages of its own. *)
Lemma buffer_cases C Lg r : r ∈ buffers C Lg →
  (∃ T i Size a C1 c C2 B1 B2, BlockIn C T i (Some Size) a C1 c C2 B1 B2 ∧ r = buffer_at T a Size) ∨ ∃ Lg1 b Lg2, Lg = Lg1 ++ b :: Lg2 ∧ r = large_buffer b.
Proof.
  intros [Hr|Hr]%elem_of_app; [left|right].
  - apply list_elem_of_In, in_flat_map in Hr as (c & Hc & Hr). apply list_elem_of_In, list_elem_of_split in Hc as (C1 & C2 & ->).
    apply list_elem_of_In, used_at_block in Hr as (B1 & i & Size & B2 & Hb & ->). by exists (ck_type c), i, Size, (ck_base c + blocks_total B1), C1, c, C2, B1, B2.
  - apply list_elem_of_fmap in Hr as (b & -> & (Lg1 & Lg2 & ->)%list_elem_of_split). by exists Lg1, b, Lg2.
Qed.

(** The pages of a buffer are freed. *)
Lemma FreeLarge_spec s C Lg1 b Lg2 O s1 :
  PoolInv s C (Lg1 ++ b :: Lg2) O → Wrote (lg_base b) (lg_base b + lg_Size b) s s1 →
  wp (CoreFreePoolPagesI (lg_base b) (PoolPageCount (lg_Size b) (PageAlignment (lg_type b)))) (λ _ s', PoolInv s' C (Lg1 ++ Lg2) O) (λ _ _, False) s1.
Proof.
  intros Hinv [W1 W2 W3 W4]. pose proof (pi_large _ _ _ _ Hinv) as HLg. apply Forall_app in HLg as [HL1 [Hb HL2]%list.Forall_cons].
  destruct layout_facts as (? & ? & ? & ? & ? & ? & ? & ? & ?). destruct (lo_size _ _ Hb) as [HO Hw].
  destruct (PoolPageCount_facts (lg_type b) (lg_Size b) ltac:(lia) Hw) as (HN & HNb & HNd).
  assert (holds (pages_state s) (large_region b :: map chunk_region C ++ map large_region (Lg1 ++ Lg2) ++ O)) as Hh.
  { eapply holds_perm; [|apply (pi_holds _ _ _ _ Hinv)]. rewrite !map_app. cbn [map]. solve_Permutation. }
  assert (∀ r, apart_from (large_region b) r → rg_base r + rg_size r <= lg_base b ∨ lg_base b + lg_Size b <= rg_base r) as Hap.
  { unfold apart_from, large_region. cbn [rg_base rg_size]. intros r Hr. lia. }
  rewrite <- W1 in Hh.
  eapply wp_mono; [apply (CoreFreePoolPagesI_spec (lg_type b) (lg_base b) (large_pages (lg_type b) (lg_Size b)) _ s1 W2 Hh (lo_type _ _ Hb) HN HNd)| |done].
  intros _ s2 (Hh2 & Hm2 & Hok2 & Hl2). constructor; rewrite ?Hm2; [done|done|..].
  - apply list.Forall_forall. intros c' Hc'. eapply chunk_ok_frame; [exact W4| |by apply (proj1 (list.Forall_forall _ _) (pi_chunks _ _ _ _ Hinv))].
    apply (Hap (chunk_region c')), (holds_head _ _ _ _ Hh), elem_of_app. left. by apply list_elem_of_fmap_2.
  - apply list.Forall_forall. intros b' Hb'. eapply large_ok_frame; [exact W4| |].
    + apply (Hap (large_region b')), (holds_head _ _ _ _ Hh). rewrite !elem_of_app. right. left. by apply list_elem_of_fmap_2.
    + by apply (proj1 (list.Forall_forall _ (Lg1 ++ Lg2)) (proj2 (Forall_app _ _ _) (conj HL1 HL2)) b').
  - intros T i Hin. rewrite Hl2, W3. by apply (pi_lists _ _ _ _ Hinv).
Qed.

(** What CoreFreePoolI does before the memory is freed, and after. *)
Lemma FreePool_frame T Head Size s (Q : POOLS P → Prop) :
  PoolsOk s → 0 <= T < EfiMaxMemoryType → head_mem (memory s) T Head Size →
  (∀ s1, Wrote Head (Head + Size) s s1 →
     wp (if Limit T <=? GetPoolIndexFromSize Size then CoreFreePoolPagesI Head (PoolPageCount Size (PageAlignment T))
         else FreeBlock (Builtin T) (GetPoolIndexFromSize Size) Head (PageAlignment T)) (λ _ s', PoolsOk s' ∧ Q s') (λ _ _, False) s1) →
  wp (CoreFreePoolI (Head + SIZE_OF_POOL_HEAD)) (λ t s', t = T ∧ Q s') (λ _ _, False) s.
Proof.
  intros Hok HT Hhm Hfree. unfold CoreFreePoolI. cbn [FreePoolI_fuel]. replace (Head + SIZE_OF_POOL_HEAD - SIZE_OF_POOL_HEAD) with Head by lia.
  wp_step. eapply wp_mono; [apply (CheckHead_spec T Head Size s (λ _ _, False) Hhm)| |done]. intros r s0 [-> ->].
  unfold LookupPoolHead. rewrite (proj2 (Z.ltb_lt _ _) (proj2 HT)). do 2 wp_step.
  destruct (pool_lookup s T 0 Hok) as (p & Hp & _); [split; [done|unfold MAX_POOL_LIST; lia]|].
  wp_step. apply (wp_get_pool _ _ _ _ p Hp). wp_step. unfold put_pool. wp_step. unfold forget. do 2 wp_step. fold (Limit T). rewrite orb_false_r.
  destruct (set_Used_lists T (wrapn (pool_Used p - Size)) s p Hp Hok) as [Hok1 Hl1].
  wp_step. eapply wp_mono; [apply Hfree; constructor| |done].
  - done.
  - by destruct Hok1.
  - intros T' i. apply Hl1.
  - cbn. apply same_outside_forgotten; lia.
  - intros _ s2 [Hok2 HQ]. destruct (pool_lookup s2 T 0 Hok2) as (p2 & Hp2 & _); [split; [done|unfold MAX_POOL_LIST; lia]|].
    wp_step. apply (wp_get_pool _ _ _ _ p2 Hp2). by wp_step.
Qed.

Lemma CoreFreePoolI_spec s r L O : PoolGood s (r :: L) O → wp (CoreFreePoolI (rg_base r)) (λ t s', t = rg_type r ∧ PoolGood s' L O) (λ _ _, False) s.
Proof.
  intros (C & Lg & Hinv & HL). pose proof (pi_ok _ _ _ _ Hinv) as Hok.
  destruct (buffer_cases C Lg r) as [(T & i & Size & a & C1 & c & C2 & B1 & B2 & Hf & ->)|(Lg1 & b & Lg2 & -> & ->)]; [rewrite HL; left|..].
  - pose proof (taken_chunk _ _ _ _ _ _ _ _ _ _ _ _ _ Hinv Hf) as Hc. pose proof (fi_type _ _ _ _ _ _ _ _ _ _ Hf) as HTc. pose proof (co_type _ _ Hc) as HT.
    pose proof (co_mem _ _ Hc) as Hm. pose proof (co_blocks _ _ Hc) as Hbl. rewrite HTc, (fi_blocks _ _ _ _ _ _ _ _ _ _ Hf) in *.
    apply blocks_mem_app in Hm as [_ [[Hm _] _]]. rewrite <- (fi_address _ _ _ _ _ _ _ _ _ _ Hf) in Hm. apply Forall_app in Hbl as [_ [[Hi Hix] _]%list.Forall_cons].
    cbn [fst snd] in *. destruct (Hix Size eq_refl) as [_ Hidx]. cbn [buffer_at rg_base rg_type].
    apply (FreePool_frame T a Size s (λ s', PoolGood s' L O) Hok (proj1 HT) Hm). intros s1 Hw. rewrite Hidx. destruct (Z.leb_spec (Limit T) i); [lia|].
    eapply wp_mono; [apply (FreeBlock_spec s C Lg O T i Size a C1 c C2 B1 B2 Hinv Hf s1 Hw)| |done].
    intros _ s' (C' & Hinv' & Hb'). split; [apply (pi_ok _ _ _ _ Hinv')|]. exists C', Lg. split; [done|]. rewrite HL in Hb'. symmetry. by eapply Permutation_cons_inv.
  - pose proof (pi_large _ _ _ _ Hinv) as HLg. apply Forall_app in HLg as [_ [Hb _]%list.Forall_cons]. cbn [large_buffer buffer_at rg_base rg_type].
    apply (FreePool_frame (lg_type b) (lg_base b) (lg_Size b) s (λ s', PoolGood s' L O) Hok (proj1 (lo_type _ _ Hb)) (lo_mem _ _ Hb)). intros s1 Hw.
    pose proof (lo_index _ _ Hb) as Hix. destruct (Z.leb_spec (Limit (lg_type b)) (GetPoolIndexFromSize (lg_Size b))); [|lia].
    eapply wp_mono; [apply (FreeLarge_spec s C Lg1 b Lg2 O s1 Hinv Hw)| |done]. intros [] s' Hinv'. split; [apply (pi_ok _ _ _ _ Hinv')|]. exists C, (Lg1 ++ Lg2).
    split; [done|]. apply (Permutation_cons_inv (a := large_buffer b)). rewrite <- HL. unfold buffers. rewrite !map_app. cbn [map]. solve_Permutation.
Qed.
End Free.
