(* ===== verification/PoolPage.v ===== *)
(** Pool.c on Page.c: CoreAllocatePoolPages and CoreFreePoolPages keep what the pool needs of them. *)
From stdpp Require Import list gmap.
From S2P Require Import Prelude Base Buffer Platform Overflow ImageRecord MemoryMap SplitTable SplitCoverage MemoryMerge GetMemoryMap PageAlloc PageMapSpec PageFind PageConvert PageStack PageServices PageSample PageAllocate PageFree PageBins PageAdd PageRun PoolAlloc PoolSpec.

Section Pages.
Context `{!Platform, !PlatformOk, !PageConfig, !PageConfigOk}.

Definition block_region (b : Block) : Region := {| rg_type := blk_type b; rg_base := blk_base b; rg_size := blk_size b |}.

(** The regions of memory that are held are blocks of pages. *)
Definition pages_hold (s : PAGES) (L : list Region) : Prop :=
  ∃ bs, Good s bs ∧ map block_region bs = L ∧ Forall (λ b, 0 < blk_base b ∧ blk_base b + blk_size b - 1 <= MAX_ALLOC_ADDRESS) bs.

Definition pages_ready (s : PAGES) (T N : Z) : Prop := low_clear s (PageAlignment T) ∧ Supply s N.

Lemma apart_sym b b' : apart b b' → apart b' b.
Proof. intros Ha x ? ?. by apply (Ha x). Qed.

#[local] Instance ForallOrdPairs_perm : Proper ((≡ₚ) ==> impl) (ForallOrdPairs apart).
Proof.
  intros bs bs' Hp. induction Hp as [|b bs bs' Hp IH|b b' bs|bs1 bs2 bs3 _ IH1 _ IH2]; intros Hf; [done|..].
  - inversion Hf as [|? ? Hall Hrest]; subst. constructor; [by rewrite <- Hp|by apply IH].
  - inversion Hf as [|? ? Hall Hrest]; subst. apply list.Forall_cons in Hall as [Hbb Hall]. inversion Hrest as [|? ? Hall' Hrest']; subst.
    repeat constructor; try done. by apply apart_sym.
  - by apply IH2, IH1.
Qed.

Lemma Good_perm s bs bs' : bs ≡ₚ bs' → Good s bs → Good s bs'.
Proof. intros Hp [Hq Hh Ha]. constructor; [done|by rewrite <- Hp|by rewrite <- Hp]. Qed.

Lemma pages_hold_perm s L L' : L ≡ₚ L' → pages_hold s L → pages_hold s L'.
Proof.
  intros Hp (bs & Hg & <- & Hr). symmetry in Hp. apply Permutation_map_inv in Hp as (bs' & -> & Hp'). exists bs'.
  split_and!; [by eapply Good_perm|done|by rewrite <- Hp'].
Qed.

Lemma pages_hold_apart s r r' L : pages_hold s (r :: r' :: L) → apart_from r r'.
Proof.
  intros (bs & [_ Hh Ha] & Hm & _). destruct bs as [|b [|b' bs]]; try done. injection Hm as <- <- _.
  apply list.Forall_cons in Hh as [Hb [Hb' _]%list.Forall_cons]. pose proof (he_size _ _ Hb). pose proof (he_size _ _ Hb').
  inversion Ha as [|? ? Hall _]; subst. apply list.Forall_cons in Hall as [Hbb _]. unfold apart_from, block_region. cbn [rg_base rg_size].
  destruct (decide (blk_base b + blk_size b <= blk_base b' ∨ blk_base b' + blk_size b' <= blk_base b)) as [|Hn]; [done|exfalso].
  apply (Hbb (blk_base b `max` blk_base b')); unfold in_block; lia.
Qed.

Lemma pages_hold_range s r L : pages_hold s (r :: L) → 0 < rg_base r ∧ rg_base r + rg_size r <= 2 ^ UINTN_WIDTH.
Proof.
  intros (bs & _ & Hm & Hr). destruct bs as [|b bs]; [done|]. injection Hm as <- _. apply list.Forall_cons in Hr as [[? ?] _].
  destruct config_max as (? & _). cbn. lia.
Qed.

Lemma RoundPages_id N T : 0 < N → N + 16 < 2 ^ UINTN_WIDTH → (PageAlignment T | N * 2 ^ EFI_PAGE_SHIFT) → RoundPages N (PageAlignment T) = N.
Proof.
  intros HN Hw Hd. destruct (PageAlignment_pow T) as (k & Hk & Hp). rewrite Hp in *. unfold RoundPages. rewrite EFI_SIZE_TO_PAGES_pow by done.
  pose proof UINTN_WIDTH_64. assert (1 <= 2 ^ (k - 12) <= 16) as Hb by (destruct Hk as [->| ->]; done).
  unfold wrapn. rewrite wrap_small by (split; lia). rewrite align_up_mask; [|lia|lia|by destruct Hk as [->| ->]|split; lia|split; lia].
  apply align_up_id; [lia|]. destruct Hd as [q Hq]. exists q. unfold EFI_PAGE_SHIFT in Hq. destruct Hk as [->| ->]; cbn in *; lia.
Qed.

Lemma pages_allocate s L T N :
  pages_hold s L → pool_type T → 0 < N → (PageAlignment T | N * 2 ^ EFI_PAGE_SHIFT) → N + 16 < 2 ^ UINTN_WIDTH →
  (N + 16) * 2 ^ EFI_PAGE_SHIFT <= 2 ^ UINTN_WIDTH → pages_ready s T (N * 2 ^ EFI_PAGE_SHIFT) →
  wp (CoreAllocatePoolPages CoreFreeMemoryMapStack T N (PageAlignment T))
    (λ a s', a = 0 ∧ pages_hold s' L ∨ 0 < a ∧ (PageAlignment T | a) ∧
       pages_hold s' ({| rg_type := T; rg_base := a; rg_size := N * 2 ^ EFI_PAGE_SHIFT |} :: L)) (λ _ _, False) s.
Proof.
  intros (bs & Hg & HL & Hrs) (HT & HT1 & HT2 & HT3) HN HNd HNw HNb [Hlow Hsup]. pose proof (go_quiet _ _ Hg) as Hq.
  pose proof (RoundPages_id N T HN HNw HNd) as Hrd. destruct config_max as (Hm1 & Hm2 & _). pose proof UINTN_WIDTH_64. pose proof (Z.pow_le_mono_r 2 UINTN_WIDTH 64).
  destruct (PageAlignment_pow T) as (k & Hk & Hal). assert (EFI_PAGE_SHIFT <= k <= 32) as Hkr by (unfold EFI_PAGE_SHIFT; lia). rewrite Hal in *.
  assert (N * 2 ^ EFI_PAGE_SHIFT < 2 ^ 64) as HNl by (change (2 ^ EFI_PAGE_SHIFT) with 4096 in *; lia).
  assert (0 < N * 2 ^ EFI_PAGE_SHIFT) as HN0 by (change (2 ^ EFI_PAGE_SHIFT) with 4096 in *; lia).
  assert ((2 ^ EFI_PAGE_SHIFT | N * 2 ^ EFI_PAGE_SHIFT)) as HNp by (by exists N).
  unfold CoreAllocatePoolPages. wp_step. eapply wp_mono; [apply (FindFreePages_spec MAX_ALLOC_ADDRESS N T k s); try done; lia| |done].
  intros r s1 [[n Hpt] [Hf Hf0]]. pose proof (pt_quiet _ _ _ Hpt) as Hq1. destruct (Z.eqb_spec r 0) as [->|Hr0].
  - do 3 wp_step. left. split; [done|]. exists bs. split_and!; [|done|done]. eapply Good_evolved; [done|apply (pt_evolved _ _ _ Hpt)|done].
  - destruct (Hf Hr0) as (Hr & _ & Hc). pose proof (qu_ok _ Hq1) as Hok1.
    destruct (candidate_pages s1 MAX_ALLOC_ADDRESS (N * 2 ^ EFI_PAGE_SHIFT) k r Hok1 (proj1 Hkr) HN0 HNp Hc) as (Hp & _ & HrM & _).
    do 2 wp_step. apply wp_attempt. eapply wp_mono; [apply (convert_spec s1 r N T); try done; [by eapply Supply_promoted|lia]|..].
    + intros _ s3 (a & s2 & Hcv & Hse & Hq3). do 2 wp_step. right. unfold wrapn. rewrite wrap_small by (split; lia).
      assert (2 ^ k | r) as Hrd'.
      { destruct Hc as (e & _ & _ & _ & _ & _ & _ & Hd). apply (Z.divide_add_cancel_r _ (N * 2 ^ EFI_PAGE_SHIFT)); [done|]. by rewrite Z.add_comm. }
      split_and!; [done|done|]. set (b := {| blk_type := T; blk_base := r; blk_pages := N |}). exists (b :: bs).
      assert (blk_size b = N * 2 ^ EFI_PAGE_SHIFT) as Hbs by (unfold blk_size, request_size; cbn; by rewrite Hal, Hrd).
      split_and!; [|cbn [map]; unfold block_region at 1; by rewrite Hbs, HL|constructor; [rewrite Hbs; cbn; lia|done]].
      apply (Good_alloc s); [done| | |change (0 < blk_size b); lia|by rewrite Hal|].
      * split_and!; [lia|left; lia|done|done|done].
      * split_and!; [lia|done|]. change (2 ^ EFI_PAGE_SHIFT) with 4096 in *. lia.
      * change (request_size T N) with (blk_size b). rewrite Hbs. by eapply Allocated_intro; [apply (pt_evolved _ _ _ Hpt)|..].
    + intros e s' (-> & -> & Hnc). exfalso. exact (NotConverted_candidate s1 _ _ k r T Hok1 (proj1 Hkr) HN0 HNp HT1 Hnc Hc).
Qed.

Lemma pages_free s L T a N :
  pages_hold s ({| rg_type := T; rg_base := a; rg_size := N * 2 ^ EFI_PAGE_SHIFT |} :: L) → pool_type T → 0 < N →
  wp (CoreFreePoolPages a N) (λ _ s', pages_hold s' L) (λ _ _, False) s.
Proof.
  intros (bs & Hg & HL & Hrs) HT HN. destruct bs as [|b bs]; [done|]. injection HL as Ht Ha Hs HL. apply list.Forall_cons in Hrs as [[Hb0 Hbm] Hrs].
  pose proof (go_held _ _ Hg) as Hh. apply list.Forall_cons in Hh as [Hb _]. pose proof (Held_in_use s b Hb) as Hu. pose proof (he_aligned _ _ Hb) as Hal.
  rewrite Ha, Hs in *. rewrite Ht in Hal. destruct config_max as (Hm1 & _). pose proof UINTN_WIDTH_64. pose proof (Z.pow_le_mono_r 2 UINTN_WIDTH 64).
  assert ((2 ^ EFI_PAGE_SHIFT | a)) as Hda.
  { etransitivity; [|exact Hal]. destruct (PageAlignment_pow T) as (k & Hk & ->). by destruct Hk as [->| ->]; apply Z.mod_divide. }
  assert (pages a (a + N * 2 ^ EFI_PAGE_SHIFT - 1)) as Hpg by (apply pages_of; [done|lia|lia|lia]).
  unfold CoreFreePoolPages. wp_step. apply wp_attempt.
  eapply (wp_mono _ (λ _, Freed s a (a + N * 2 ^ EFI_PAGE_SHIFT - 1)) _ (λ _ _, False)); [|intros ? s' Hf; wp_step|done].
  - apply wp_CoreConvertPages; [done|lia|done|]. apply free_loop; try done; [apply (go_quiet _ _ Hg)|].
    replace (a + N * 2 ^ EFI_PAGE_SHIFT - 1 - a) with (N * 2 ^ EFI_PAGE_SHIFT - 1) by lia.
    assert (0 <= (N * 2 ^ EFI_PAGE_SHIFT - 1) / EFI_PAGE_SIZE) by (apply Z.div_pos; unfold EFI_PAGE_SIZE, EFI_PAGE_SHIFT; lia). lia.
  - exists bs. split_and!; [|done|done]. apply (Good_free s s' [] b bs Hg). by rewrite Ha, Hs.
Qed.

#[global] Instance PAGES_PoolPagesLaws : PoolPagesLaws PAGES := {
  holds := pages_hold;
  ready := pages_ready;
  holds_perm := pages_hold_perm;
  holds_apart := pages_hold_apart;
  holds_range := pages_hold_range;
  AllocatePoolPages_law := pages_allocate;
  FreePoolPages_law s L T a N Hh HT HN _ := pages_free s L T a N Hh HT HN;
}.
End Pages.
