(* ===== verification/PoolRun.v ===== *)
(** Pool.c as a state machine: the callers of the pool hold buffers, and use the memory of them. *)
From stdpp Require Import list gmap.
From S2P Require Import Prelude Base Buffer Platform Overflow ImageRecord MemoryMap SplitTable SplitCoverage MemoryMerge GetMemoryMap PageAlloc PageMapSpec PageFind PageConvert PageStack PageServices PageSample PageAllocate PageFree PageBins PageAdd PageRun PoolAlloc PoolSpec PoolLists PoolInv PoolTake PoolAllocate PoolFree PoolPage.

Section Run.
Context `{!Platform, !PlatformOk, !PageConfig, !PageConfigOk} {P : Type} `{!PoolPages P, !PoolPagesLaws P}.
Implicit Types s : POOLS P.

(** ** Where the buffers are *)

Definition within (r : Region) (lo hi : Z) : Prop := lo <= rg_base r ∧ rg_base r + rg_size r <= hi.
Definition lies_in (r R : Region) : Prop := within r (rg_base R) (rg_base R + rg_size R).

Lemma buffer_at_within T a Size hi : POOL_OVERHEAD <= Size → a + Size <= hi → within (buffer_at T a Size) a hi ∧ 0 <= rg_size (buffer_at T a Size).
Proof. destruct layout_facts as (? & ? & ? & ? & ? & ? & ? & ? & ?). intros. unfold within, buffer_at. cbn. lia. Qed.

Lemma used_at_range limit T bs r a :
  limit <= MAX_POOL_LIST → Forall (block_ok limit) bs → r ∈ used_at T a bs → within r a (a + blocks_total bs) ∧ 0 <= rg_size r.
Proof.
  intros Hlim Hbs Hr. apply used_at_block in Hr as (B1 & i & Size & B2 & -> & ->). apply Forall_app in Hbs as [H1' [Hb H2']%list.Forall_cons].
  destruct (blocks_total_facts limit B1 Hlim H1') as [? _]. destruct (blocks_total_facts limit B2 Hlim H2') as [? _].
  destruct (pool_block_bounds limit _ Hlim Hb) as (_ & _ & Hu). specialize (Hu Size eq_refl). destruct (proj2 Hb Size eq_refl) as [HO _]. cbn [fst] in *.
  rewrite blocks_total_app, blocks_total_cons. cbn [fst].
  destruct (buffer_at_within T (a + blocks_total B1) Size (a + blocks_total B1 + bsize i) HO) as [[? ?] ?]; [lia|]. unfold within. lia.
Qed.

Lemma chunk_buffers m c r : chunk_ok m c → r ∈ used_at (ck_type c) (ck_base c) (ck_blocks c) → lies_in r (chunk_region c) ∧ rg_type r = ck_type c ∧ 0 <= rg_size r.
Proof.
  intros Hc Hr. destruct (Limit_facts (ck_type c)) as ([_ Hlim] & _).
  destruct (used_at_range (Limit (ck_type c)) _ _ r _ Hlim (co_blocks _ _ Hc) Hr) as [Hw ?]. rewrite (co_total _ _ Hc) in Hw. split_and!; [done| |done].
  apply used_at_block in Hr as (? & ? & ? & ? & _ & ->). done.
Qed.

Lemma large_buffer_inside m b : large_ok m b → lies_in (large_buffer b) (large_region b) ∧ 0 <= rg_size (large_buffer b).
Proof.
  intros Hb. destruct layout_facts as (? & ? & ? & ? & ? & ? & ? & ? & ?). destruct (lo_size _ _ Hb) as [HO Hw].
  destruct (PoolPageCount_facts (lg_type b) (lg_Size b) ltac:(lia) Hw) as (_ & ? & _).
  apply (buffer_at_within (lg_type b) (lg_base b) (lg_Size b) (lg_base b + rg_size (large_region b)) HO). unfold large_region. cbn [rg_size]. lia.
Qed.

Lemma buffer_inside m C Lg r : Forall (chunk_ok m) C → Forall (large_ok m) Lg → r ∈ buffers C Lg →
  ∃ R, R ∈ map chunk_region C ++ map large_region Lg ∧ lies_in r R ∧ rg_type r = rg_type R ∧ 0 <= rg_size r.
Proof.
  intros HC HL [Hr|Hr]%elem_of_app.
  - apply list_elem_of_In, in_flat_map in Hr as (c & Hc%list_elem_of_In & Hr%list_elem_of_In). exists (chunk_region c). split; [apply elem_of_app; left; by apply list_elem_of_fmap_2|].
    destruct (chunk_buffers m c r) as (? & ? & ?); [by apply (proj1 (list.Forall_forall _ _) HC)|done|]. done.
  - apply list_elem_of_fmap in Hr as (b & -> & Hb). exists (large_region b). split; [apply elem_of_app; right; by apply list_elem_of_fmap_2|].
    destruct (large_buffer_inside m b) as [? ?]; [by apply (proj1 (list.Forall_forall _ _) HL)|]. done.
Qed.

Lemma apart_inside r R r' R' : lies_in r R → lies_in r' R' → apart_from R R' → apart_from r r'.
Proof. unfold lies_in, within, apart_from. lia. Qed.

Lemma inside_refl r : lies_in r r.
Proof. unfold lies_in, within. lia. Qed.

Lemma PoolGood_perm s L L' O : L ≡ₚ L' → PoolGood s L O → PoolGood s L' O.
Proof. intros Hp (C & Lg & ? & Hb). exists C, Lg. split; [done|]. by rewrite Hb. Qed.

Lemma buffers_apart s r r' L O : PoolGood s (r :: r' :: L) O → apart_from r r'.
Proof.
  intros (C & Lg & Hinv & HL). pose proof (pi_chunks _ _ _ _ Hinv) as HC. pose proof (pi_large _ _ _ _ Hinv) as HLg.
  destruct (buffer_cases C Lg r) as [(T & i & Size & a & C1 & c & C2 & B1 & B2 & Hf & ->)|(Lg1 & b & Lg2 & HLeq & ->)]; [rewrite HL; left|..].
  - pose proof (buffers_put C Lg T i Size a C1 c C2 B1 B2 Hf) as Hbuf. rewrite HL in Hbuf. apply Permutation_cons_inv in Hbuf.
    assert (r' ∈ buffers (with_blocks c (B1 ++ (i, None) :: B2) :: C1 ++ C2) Lg) as Hr' by (rewrite <- Hbuf; left).
    pose proof (taken_chunk _ _ _ _ _ _ _ _ _ _ _ _ _ Hinv Hf) as Hc. destruct (taken_blocks _ _ _ _ _ _ _ _ _ _ _ _ _ Hinv Hf) as (HB1 & _ & HB2).
    pose proof (co_blocks _ _ Hc) as Hbl. destruct Hf as [HCeq HT Hb Ha]. rewrite Hb, HT in Hbl. apply Forall_app in Hbl as [_ [Hblk _]%list.Forall_cons].
    destruct (Limit_facts T) as ([_ Hlim] & _). destruct (pool_block_bounds (Limit T) _ Hlim Hblk) as (_ & _ & Hu). specialize (Hu Size eq_refl).
    destruct (proj2 Hblk Size eq_refl) as [HO _]. cbn [fst] in *. destruct (buffer_at_within T a Size (a + bsize i) HO) as [Hw _]; [lia|].
    unfold buffers in Hr'. rewrite used_in_cons, <- app_assoc in Hr'. apply elem_of_app in Hr' as [Hr'|Hr'].
    + cbn [with_blocks ck_type ck_base ck_blocks] in Hr'. rewrite used_at_app in Hr'. cbn [used_at fst snd app] in Hr'. rewrite HT, <- Ha in Hr'.
      apply elem_of_app in Hr' as [Hr'|Hr']; apply (used_at_range (Limit T)) in Hr' as [[? ?] _]; try done; unfold apart_from, within in *; lia.
    + rewrite HCeq in HC. apply Forall_app in HC as [HC1 [_ HC2]%list.Forall_cons].
      destruct (buffer_inside (memory s) (C1 ++ C2) Lg r') as (R & HR & Hin & _); [by apply Forall_app|done|done|].
      eapply (apart_inside _ (chunk_region c) _ R); [|done|].
      * apply (chunk_buffers (memory s) c); [done|]. rewrite Hb, HT, used_at_app, <- Ha. apply elem_of_app. right. left.
      * pose proof (pi_holds _ _ _ _ Hinv) as Hh. rewrite HCeq, map_app, <- app_assoc in Hh. cbn [map app] in Hh. eapply holds_split; [exact Hh|].
        rewrite map_app in HR. set_solver.
  - assert (r' ∈ buffers C (Lg1 ++ Lg2)) as Hr'.
    { assert (buffers C (Lg1 ++ Lg2) ≡ₚ r' :: L) as ->; [|left]. apply (Permutation_cons_inv (a := large_buffer b)). rewrite <- HL, HLeq. unfold buffers.
      rewrite !map_app. cbn [map]. solve_Permutation. }
    rewrite HLeq in HLg. apply Forall_app in HLg as [HL1 [Hb HL2]%list.Forall_cons].
    destruct (buffer_inside (memory s) C (Lg1 ++ Lg2) r') as (R & HR & Hin & _); [done|by apply Forall_app|done|].
    eapply (apart_inside _ (large_region b) _ R); [by apply (large_buffer_inside (memory s))|done|].
    pose proof (pi_holds _ _ _ _ Hinv) as Hh. rewrite HLeq, map_app in Hh. cbn [map] in Hh. rewrite <- app_assoc, app_assoc in Hh. cbn [app] in Hh.
    eapply holds_split; [exact Hh|]. rewrite map_app in HR. set_solver.
Qed.

(** A buffer is in pages of its type, which nobody else holds, and is aligned. *)
Lemma buffer_placed s r L O : PoolGood s (r :: L) O →
  (8 | rg_base r) ∧ 0 < rg_base r ∧ 0 <= rg_size r ∧ ∃ R LR, holds (pages_state s) (R :: LR ++ O) ∧ lies_in r R ∧ rg_type r = rg_type R.
Proof.
  intros (C & Lg & Hinv & HL). pose proof (pi_chunks _ _ _ _ Hinv) as HC. pose proof (pi_large _ _ _ _ Hinv) as HLg.
  assert (r ∈ buffers C Lg) as Hr by (rewrite HL; left). destruct (buffer_inside (memory s) C Lg r HC HLg Hr) as (R & HR & Hin & HT & Hsz).
  destruct (list_elem_of_split _ _ HR) as (l1 & l2 & Hl). pose proof (pi_holds _ _ _ _ Hinv) as Hh. rewrite app_assoc, Hl in Hh.
  assert (holds (pages_state s) (R :: (l1 ++ l2) ++ O)) as Hh'.
  { eapply holds_perm; [|exact Hh]. rewrite <- !app_assoc. cbn [app]. symmetry. apply Permutation_middle. }
  destruct (holds_range _ _ _ Hh') as [HRb _]. split_and!; [|destruct Hin; lia|done|by exists R, (l1 ++ l2)].
  assert (8 | SIZE_OF_POOL_HEAD) as Hhd.
  { destruct layout_facts as (_ & Hu & _ & ? & ? & _). replace SIZE_OF_POOL_HEAD with (8 + 2 * UINTN_SIZE) by lia. by destruct Hu as [->| ->]; apply Z.mod_divide. }
  assert (∀ T, (8 | PageAlignment T)) as Hal by (intros T; destruct (PageAlignment_pow T) as (k & Hk & ->); by destruct Hk as [->| ->]; apply Z.mod_divide).
  destruct (buffer_cases C Lg r Hr) as [(T & i & Size & a & C1 & c & C2 & B1 & B2 & Hf & ->)|(Lg1 & b & Lg2 & -> & ->)].
  - cbn. apply Z.divide_add_r; [|done]. rewrite (fi_address _ _ _ _ _ _ _ _ _ _ Hf). destruct (taken_blocks _ _ _ _ _ _ _ _ _ _ _ _ _ Hinv Hf) as (HB1 & _ & _).
    destruct (Limit_facts T) as ([_ Hlim] & _). destruct (blocks_total_facts (Limit T) B1 Hlim HB1) as [_ Hd].
    apply Z.divide_add_r; [|by etransitivity; [|exact Hd]; exists 16]. etransitivity; [apply Hal|apply (co_aligned _ _ (taken_chunk _ _ _ _ _ _ _ _ _ _ _ _ _ Hinv Hf))].
  - cbn. apply Z.divide_add_r; [|done]. apply Forall_app in HLg as [_ [Hb _]%list.Forall_cons]. etransitivity; [apply Hal|apply (lo_aligned _ _ Hb)].
Qed.

Lemma buffer_apart_others s r L O r' : PoolGood s (r :: L) O → r' ∈ O → apart_from r r'.
Proof.
  intros Hg Hr'. destruct (buffer_placed s r L O Hg) as (_ & _ & _ & R & LR & Hh & Hin & _). apply (apart_inside _ R _ r' Hin (inside_refl r')).
  eapply holds_head; [exact Hh|]. apply elem_of_app. by right.
Qed.

(** ** The callers use their memory *)

Lemma head_mem_buffer m m' T a Size :
  POOL_OVERHEAD <= Size → same_outside m m' (rg_base (buffer_at T a Size)) (rg_base (buffer_at T a Size) + rg_size (buffer_at T a Size)) →
  head_mem m T a Size → head_mem m' T a Size.
Proof.
  intros HO Hs [? ? ? ? ?]. destruct layout_facts as (? & ? & ? & ? & ? & ? & ? & ? & ?). cbn in Hs.
  constructor; (rewrite Hs; [done|]); unfold HEAD_TO_TAIL, OFFSET_OF_Type, OFFSET_OF_TailSize; lia.
Qed.

Lemma used_block_frame limit m m' T base a i Size :
  limit <= MAX_POOL_LIST → block_ok limit (i, Some Size) →
  same_outside m m' (rg_base (buffer_at T a Size)) (rg_base (buffer_at T a Size) + rg_size (buffer_at T a Size)) →
  block_mem m T base a (i, Some Size) → block_mem m' T base a (i, Some Size).
Proof.
  intros Hlim [_ Hb] Hs [Hh Hj]. destruct (Hb Size eq_refl) as [HO _]. split; [by eapply head_mem_buffer|]. intros Hne. destruct (Hj Hne) as (j & Hm & ?).
  exists j. split; [|done]. rewrite Hs; [done|]. destruct layout_facts as (? & ? & ? & ? & ? & ? & ? & ? & ?). unfold OFFSET_OF_Index, buffer_at. cbn. lia.
Qed.

(** The memory outside [R], a region that is held, is the same. *)
Lemma chunks_frame s C Lg O m r R :
  PoolInv s C Lg O → same_outside (memory s) m (rg_base r) (rg_base r + rg_size r) → lies_in r R →
  (∀ c, c ∈ C → apart_from R (chunk_region c)) → Forall (chunk_ok m) C.
Proof.
  intros Hinv Hs [Hi1 Hi2] Hap. apply list.Forall_forall. intros c Hc.
  eapply chunk_ok_frame; [exact Hs| |by apply (proj1 (list.Forall_forall _ _) (pi_chunks _ _ _ _ Hinv))].
  destruct (Hap c Hc) as [?|?]; cbn in *; lia.
Qed.

Lemma larges_frame s C Lg O m r R Lg' :
  PoolInv s C Lg O → same_outside (memory s) m (rg_base r) (rg_base r + rg_size r) → lies_in r R →
  (∀ b, b ∈ Lg' → b ∈ Lg ∧ apart_from R (large_region b)) → Forall (large_ok m) Lg'.
Proof.
  intros Hinv Hs [Hi1 Hi2] Hap. apply list.Forall_forall. intros b Hb. destruct (Hap b Hb) as [Hin Hab].
  eapply large_ok_frame; [exact Hs| |by apply (proj1 (list.Forall_forall _ _) (pi_large _ _ _ _ Hinv))].
  unfold large_region in *. destruct Hab as [?|?]; cbn [rg_base rg_size] in *; lia.
Qed.

Lemma PoolInv_memory s C Lg O m : PoolInv s C Lg O → Forall (chunk_ok m) C → Forall (large_ok m) Lg → PoolInv (set_memory m s) C Lg O.
Proof. intros [[] ? _ _ ?] ? ?. by constructor. Qed.

(** Others write to the memory that they hold. *)
Lemma PoolGood_write_other s L O r m :
  PoolGood s L O → r ∈ O → same_outside (memory s) m (rg_base r) (rg_base r + rg_size r) → PoolGood (set_memory m s) L O.
Proof.
  intros (C & Lg & Hinv & HL) Hr Hs. exists C, Lg. split; [|done]. pose proof (pi_holds _ _ _ _ Hinv) as Hh. apply list_elem_of_split in Hr as (O1 & O2 & ->).
  assert (∀ R, R ∈ map chunk_region C ++ map large_region Lg → apart_from r R) as Hap.
  { intros R HR. eapply (holds_split _ (map chunk_region C ++ map large_region Lg ++ O1) r O2); [by rewrite <- !app_assoc|]. set_solver. }
  apply PoolInv_memory; [done|..].
  - eapply chunks_frame; [done|done|apply inside_refl|]. intros c Hc. apply Hap, elem_of_app. left. by apply list_elem_of_fmap_2.
  - eapply larges_frame; [done|done|apply inside_refl|]. intros b Hb. split; [done|]. apply Hap, elem_of_app. right. by apply list_elem_of_fmap_2.
Qed.

(** A caller writes to its buffer. *)
Lemma PoolGood_write s L O r m :
  PoolGood s (r :: L) O → same_outside (memory s) m (rg_base r) (rg_base r + rg_size r) → PoolGood (set_memory m s) (r :: L) O.
Proof.
  intros (C & Lg & Hinv & HL) Hs. exists C, Lg. split; [|done]. pose proof (pi_chunks _ _ _ _ Hinv) as HC. pose proof (pi_large _ _ _ _ Hinv) as HLg.
  destruct (buffer_cases C Lg r) as [(T & i & Size & a & C1 & c & C2 & B1 & B2 & Hf & ->)|(Lg1 & b & Lg2 & HLeq & ->)]; [rewrite HL; left|..]; apply PoolInv_memory; try done.
  - pose proof (taken_chunk _ _ _ _ _ _ _ _ _ _ _ _ _ Hinv Hf) as Hc. pose proof (taken_apart_chunk _ _ _ _ _ _ _ _ _ _ _ _ _ Hinv Hf) as Hac.
    destruct (taken_blocks _ _ _ _ _ _ _ _ _ _ _ _ _ Hinv Hf) as (HB1 & _ & HB2). destruct (taken_total _ _ _ _ _ _ _ _ _ _ _ _ _ Hinv Hf) as (? & ? & ?).
    destruct Hf as [HCeq HT Hb Ha]. destruct (Limit_facts T) as ([_ Hlim] & _).
    assert (lies_in (buffer_at T a Size) (chunk_region c)) as [Hi1 Hi2].
    { apply (chunk_buffers (memory s) c); [done|]. rewrite Hb, HT, used_at_app, <- Ha. apply elem_of_app. right. left. }
    assert (∀ c', c' ∈ C1 ++ C2 → chunk_ok m c') as Hothers.
    { intros c' Hc'. eapply chunk_ok_frame; [exact Hs| |apply (proj1 (list.Forall_forall _ _) HC); rewrite HCeq; set_solver].
      destruct (Hac c' Hc') as [?|?]; cbn in *; lia. }
    rewrite HCeq. apply Forall_app. split; [apply list.Forall_forall; intros; apply Hothers, elem_of_app; by left|].
    constructor; [|apply list.Forall_forall; intros; apply Hothers, elem_of_app; by right].
    destruct Hc as [K1 K2 K3 K4 K5 K6]. constructor; try done. rewrite Hb, HT in *. apply blocks_mem_app in K6 as [M1 [M2 M3]]. apply Forall_app in K4 as [_ [Hblk _]%list.Forall_cons].
    destruct (pool_block_bounds (Limit T) _ Hlim Hblk) as (_ & _ & Hu). specialize (Hu Size eq_refl). destruct (proj2 Hblk Size eq_refl) as [HO _]. cbn [fst] in *.
    destruct (buffer_at_within T a Size (a + bsize i) HO) as [[? ?] _]; [lia|]. rewrite <- Ha in *.
    apply blocks_mem_app. rewrite <- Ha. split; [eapply (blocks_mem_frame (Limit T)); [done|done|exact Hs|lia|done]|].
    split; [by eapply used_block_frame|]. eapply (blocks_mem_frame (Limit T)); [done|done|exact Hs|cbn [fst]; lia|done].
  - eapply (larges_frame s C Lg O m _ (chunk_region c)); [done|done| |].
    + apply (chunk_buffers (memory s) c); [by eapply taken_chunk|]. destruct Hf as [_ HT Hb Ha]. rewrite Hb, HT, used_at_app, <- Ha. apply elem_of_app. right. left.
    + intros b Hb. split; [done|]. by eapply taken_apart_large.
  - rewrite HLeq in HLg. apply Forall_app in HLg as [_ [Hb _]%list.Forall_cons].
    eapply (chunks_frame s C Lg O m _ (large_region b)); [done|done|by apply (large_buffer_inside (memory s))|].
    intros c Hc. pose proof (pi_holds _ _ _ _ Hinv) as Hh. rewrite HLeq, map_app in Hh. cbn [map] in Hh. rewrite <- app_assoc, app_assoc in Hh. cbn [app] in Hh.
    eapply holds_split; [exact Hh|]. rewrite !elem_of_app. left. left. by apply list_elem_of_fmap_2.
  - rewrite HLeq in HLg |- *. apply Forall_app in HLg as [HL1 [Hb HL2]%list.Forall_cons].
    pose proof (pi_holds _ _ _ _ Hinv) as Hh. rewrite HLeq, map_app in Hh. cbn [map] in Hh. rewrite <- app_assoc, app_assoc in Hh. cbn [app] in Hh.
    assert (Forall (large_ok m) (Lg1 ++ Lg2)) as Hoth.
    { eapply (larges_frame s C Lg O m _ (large_region b)); [done|done|by apply (large_buffer_inside (memory s))|]. intros b' Hb'. split; [rewrite HLeq; set_solver|].
      eapply holds_split; [exact Hh|]. apply elem_of_app in Hb' as [?|?]; rewrite !elem_of_app; [left; right|right; left]; by apply list_elem_of_fmap_2. }
    apply Forall_app in Hoth as [? ?]. apply Forall_app. split; [done|]. constructor; [|done]. destruct Hb as [K1 K2 [K3 K3'] K4 K5]. constructor; try done.
    by eapply head_mem_buffer.
Qed.
End Run.
