(* ===== verification/PoolServices.v ===== *)
(** Pool.c: CoreInternalAllocatePool and CoreInternalFreePool, and sequences of calls of them. *)
From stdpp Require Import list gmap.
From S2P Require Import Prelude Base Buffer Platform Overflow ImageRecord MemoryMap SplitTable SplitCoverage MemoryMerge GetMemoryMap PageAlloc PageMapSpec PageFind PageConvert PageStack PageServices PageSample PageAllocate PageFree PageBins PageAdd PageRun PoolAlloc PoolSpec PoolLists PoolInv PoolTake PoolAllocate PoolFree PoolPage PoolRun.

Section Services.
Context `{!Platform, !PlatformOk, !PageConfig, !PageConfigOk} {P : Type} `{!PoolPages P, !PoolPagesLaws P}.
Implicit Types s : POOLS P.

(** What can be asked for. *)
Definition valid_request (T Size : Z) (s : POOLS P) : Prop :=
  pool_type T ∧ 0 <= Size ∧ Size + 2 ^ 18 <= 2 ^ UINTN_WIDTH ∧ ready (pages_state s) T (pages_needed T (head_size Size)).

(** The buffer that is returned. *)
Definition buffer_of (T b Size : Z) : Region := {| rg_type := T; rg_base := b; rg_size := align_up Size UINTN_SIZE |}.

Lemma CoreInternalAllocatePool_spec s L O T Size :
  PoolGood s L O → valid_request T Size s →
  wp (CoreInternalAllocatePool T Size) (λ b s', PoolGood s' (buffer_of T b Size :: L) O) (λ e s', e = RETURN_OUT_OF_RESOURCES ∧ PoolGood s' L O) s.
Proof.
  intros Hg (HT & H0' & Hw & Hr). pose proof HT as ((? & ?) & ? & ? & ?). destruct layout_facts as (? & Hu & ? & ? & ? & ? & ? & ? & ?).
  unfold CoreInternalAllocatePool. apply wp_bind, wp_fail_if; [intros Hc; exfalso; unfold EfiMaxMemoryType, MEMORY_TYPE_OEM_RESERVED_MIN in *; lia|intros _].
  apply wp_bind, wp_fail_if; [intros Hc; exfalso; unfold MAX_POOL_SIZE, MAX_ADDRESS in *; change (2 ^ 18) with 262144 in Hw; lia|intros _].
  wp_step. eapply wp_mono; [by apply (CoreAllocatePoolI_spec s L O T Size)| |done]. intros b s' [[-> Hg']|[Hb Hg']].
  - apply wp_bind, wp_fail_if; [by intros _|done].
  - apply wp_bind, wp_fail_if; [intros Hc; lia|intros _]. by wp_step.
Qed.

Lemma CoreInternalFreePool_spec s r L O :
  PoolGood s (r :: L) O → wp (CoreInternalFreePool (rg_base r)) (λ t s', t = rg_type r ∧ PoolGood s' L O) (λ _ _, False) s.
Proof.
  intros Hg. destruct (buffer_placed s r L O Hg) as (_ & Hb & _). unfold CoreInternalFreePool. apply wp_bind, wp_fail_if; [intros Hc; lia|intros _].
  by apply CoreFreePoolI_spec.
Qed.

(** The first state. *)
Lemma CoreInitializePool_spec s O E :
  holds (pages_state s) O → mPoolHeadList s = [] → wp CoreInitializePool (λ _ s', PoolGood s' [] O) E s.
Proof.
  intros Hh Hn. unfold CoreInitializePool. wp_step. exists [], []. split; [|done].
  assert (Forall (λ p, pool_FreeList p = replicate (Z.to_nat MAX_POOL_LIST) []) (map (λ T, new_pool 0 (Z.of_nat T)) (seq 0 (Z.to_nat EfiMaxMemoryType)))) as Hp.
  { apply list.Forall_forall. intros p (T & -> & _)%list_elem_of_fmap. done. }
  constructor; [constructor|..].
  - cbn [set_mPoolHead mPoolHead]. by rewrite length_map, length_seq.
  - eapply list.Forall_impl; [exact Hp|]. intros p Hpl. by rewrite Hpl, length_replicate.
  - done.
  - done.
  - constructor.
  - constructor.
  - intros T i [HT Hi]. unfold free_list. cbn [set_mPoolHead mPoolHead]. destruct (map _ _ !! Z.to_nat T) as [p|] eqn:Hl; [|done]. cbn.
    pose proof (Forall_lookup_1 _ _ _ _ Hp Hl) as Hpl. cbn in Hpl. rewrite Hpl. destruct (replicate _ _ !! Z.to_nat i) as [l|] eqn:Hr; [|done].
    by apply lookup_replicate in Hr as [-> _].
Qed.

(** The callers ask for buffers, use the memory of them and return them; the other callers of the page allocator, which hold
    [O], use their memory, and allocate and free pages. *)
Inductive pool_reachable (s0 : POOLS P) (O0 : list Region) : POOLS P → list Region → list Region → Prop :=
| pool_start : pool_reachable s0 O0 s0 [] O0
| pool_alloc s L O T Size b s' :
    pool_reachable s0 O0 s L O → valid_request T Size s → CoreInternalAllocatePool T Size s = Ok b s' →
    pool_reachable s0 O0 s' (buffer_of T b Size :: L) O
| pool_fail s L O T Size e s' :
    pool_reachable s0 O0 s L O → valid_request T Size s → CoreInternalAllocatePool T Size s = Err e s' → pool_reachable s0 O0 s' L O
| pool_free s L1 r L2 O t s' :
    pool_reachable s0 O0 s (L1 ++ r :: L2) O → CoreInternalFreePool (rg_base r) s = Ok t s' → pool_reachable s0 O0 s' (L1 ++ L2) O
| pool_write s L O r m :
    pool_reachable s0 O0 s L O → r ∈ L ++ O → same_outside (memory s) m (rg_base r) (rg_base r + rg_size r) →
    pool_reachable s0 O0 (set_memory m s) L O
| pool_pages s L O t O' :
    pool_reachable s0 O0 s L O → (∀ R, holds (pages_state s) (R ++ O) → holds t (R ++ O')) → pool_reachable s0 O0 (set_pages t s) L O'.

Lemma pool_reachable_good s0 O0 s L O : PoolGood s0 [] O0 → pool_reachable s0 O0 s L O → PoolGood s L O.
Proof.
  intros H0'. induction 1 as [|s L O T Size b s' _ IH Hv Hrun|s L O T Size e s' _ IH Hv Hrun|s L1 r L2 O t s' _ IH Hrun|s L O r m _ IH Hr Hs|s L O t O' _ IH Ht].
  - done.
  - by apply (wp_ok _ _ _ _ _ _ (CoreInternalAllocatePool_spec s L O T Size IH Hv) Hrun).
  - by apply (wp_err _ _ _ _ _ _ (CoreInternalAllocatePool_spec s L O T Size IH Hv) Hrun).
  - apply (PoolGood_perm _ _ (r :: L1 ++ L2)) in IH; [|symmetry; apply Permutation_middle]. by apply (wp_ok _ _ _ _ _ _ (CoreInternalFreePool_spec s r _ O IH) Hrun).
  - apply elem_of_app in Hr as [(L1 & L2 & ->)%list_elem_of_split|Hr]; [|by eapply PoolGood_write_other].
    apply (PoolGood_perm _ (r :: L1 ++ L2)); [apply Permutation_middle|]. apply PoolGood_write; [|done]. eapply PoolGood_perm; [|exact IH]. symmetry. apply Permutation_middle.
  - destruct IH as (C & Lg & [[? ? ?] Hh ? ? ?] & HL). exists C, Lg. split; [|done]. rewrite app_assoc in Hh. apply Ht in Hh. rewrite <- app_assoc in Hh.
    by constructor.
Qed.
End Services.

(** C18. CoreInternalAllocatePool returns a buffer that nobody holds: of a free block of the pool, of a larger one that it
    carves up, or of new pages.  The blocks that are left of it go to the lists of free blocks, and the memory of the
    buffers that are held is left alone (the invariant has their heads and tails).  The buffer has Size bytes, rounded up to
    the size of UINTN.  Without pages the status is EFI_OUT_OF_RESOURCES.  No ASSERT fails, nothing is read that was not
    written and the function returns.  This is for the types that have a pool from the start, not those of OEMs and
    operating systems, for Size + 2^18 at most 2^UINTN_WIDTH, and for a page allocator that is ready for the pages that may be
    needed ([valid_request]); the heap guard is off. *)
Theorem allocate_pool_exact `{!Platform, !PlatformOk, !PageConfig, !PageConfigOk} {P : Type} `{!PoolPages P, !PoolPagesLaws P}
    (s : POOLS P) (L O : list Region) (T Size : Z) :
  PoolGood s L O → valid_request T Size s →
  match CoreInternalAllocatePool T Size s with
  | Ok b s' => PoolGood s' (buffer_of T b Size :: L) O
  | Err e s' => e = RETURN_OUT_OF_RESOURCES ∧ PoolGood s' L O
  | Fault _ => False
  end.
Proof. intros Hg Hv. apply (wp_cases _ _ _ _ (CoreInternalAllocatePool_spec s L O T Size Hg Hv)). Qed.

(** C19. CoreInternalFreePool takes back each buffer that is held and returns its type: the block is put onto the list of its size, and a page
    without a block in use is returned with its blocks removed from the lists.  The other buffers are still held.  The buffers are
    of the types that have a pool from the start: the POOL heads of OEM and operating system types, which are freed with their
    last block, are not covered. *)
Theorem free_pool_exact `{!Platform, !PlatformOk, !PageConfig, !PageConfigOk} {P : Type} `{!PoolPages P, !PoolPagesLaws P}
    (s : POOLS P) (r : Region) (L O : list Region) :
  PoolGood s (r :: L) O →
  match CoreInternalFreePool (rg_base r) s with
  | Ok t s' => t = rg_type r ∧ PoolGood s' L O
  | _ => False
  end.
Proof. intros Hg. apply (wp_cases _ _ _ _ (CoreInternalFreePool_spec s r L O Hg)). Qed.

(** C17. Along every sequence in which the callers of the pool ask for, use and return buffers, and the other callers of the
    page allocator do with their pages what they want, no memory is given to two of them: each buffer is apart from the other buffers and from the memory
    of the other callers, is aligned on 8 bytes, is in pages that are allocated for its type, and can be freed.  The requests are
    those of [valid_request]: types that have a pool from the start, not those of OEMs and operating systems; Size + 2^18 at
    most 2^UINTN_WIDTH; and a page allocator that is ready for the pages that may be needed ([ready]).  The heap guard is off. *)
Theorem pool_isolation `{!Platform, !PlatformOk, !PageConfig, !PageConfigOk} {P : Type} `{!PoolPages P, !PoolPagesLaws P}
    (s0 s : POOLS P) (O0 L1 : list Region) (r : Region) (L2 O : list Region) :
  PoolGood s0 [] O0 → pool_reachable s0 O0 s (L1 ++ r :: L2) O →
  (∀ r', r' ∈ L1 ++ L2 ++ O → apart_from r r') ∧ (8 | rg_base r) ∧ 0 < rg_base r ∧ 0 <= rg_size r ∧
  (∃ R LR, holds (pages_state s) (R :: LR ++ O) ∧ lies_in r R ∧ rg_type r = rg_type R) ∧
  ∃ s', CoreInternalFreePool (rg_base r) s = Ok (rg_type r) s'.
Proof.
  intros Hg0 Hr. apply (pool_reachable_good _ _ _ _ _ Hg0) in Hr. apply (PoolGood_perm _ _ (r :: L1 ++ L2)) in Hr; [|symmetry; apply Permutation_middle].
  destruct (buffer_placed s r (L1 ++ L2) O Hr) as (? & ? & ? & ?). split_and!; try done.
  - rewrite app_assoc. intros r' [(l1 & l2 & Heq)%list_elem_of_split|Hr']%elem_of_app; [|by eapply buffer_apart_others].
    apply (buffers_apart s r r' (l1 ++ l2) O). eapply PoolGood_perm; [|exact Hr]. rewrite Heq. by rewrite <- Permutation_middle.
  - destruct (wp_total _ _ _ (CoreInternalFreePool_spec s r (L1 ++ L2) O Hr)) as (t & s' & Hrun & -> & _). by exists s'.
Qed.

(** ** Examples *)

Section Sample.
#[local] Existing Instances platform_x64 platform_x64_ok max_x64 config_x64_ok.

(** The pool of a system with 1 MiB of free memory, after CoreInitializePool. *)
Definition sample_pools : POOLS PAGES :=
  {| pages_state := sample_free; mPoolHead := map (λ T, new_pool 0 (Z.of_nat T)) (seq 0 (Z.to_nat EfiMaxMemoryType)); mPoolHeadList := []; memory := ∅ |}.

Lemma sample_pools_good : PoolGood sample_pools [] [].
Proof.
  assert (pages_hold sample_free []) as Hh by (exists []; split_and!; [constructor; [apply sample_free_quiet|constructor..]|done|constructor]).
  exact (wp_ok _ _ _ _ tt sample_pools (CoreInitializePool_spec sample_pools [] (λ _ _, False) Hh eq_refl) eq_refl).
Qed.

Lemma sample_request : valid_request 4 100 sample_pools.
Proof. split_and!; [done..|]. split; [by left|]. left. by apply Nat.leb_le; vm_compute. Qed.

(** After a call for 100 bytes. *)
Definition sample_taken : POOLS PAGES := match CoreInternalAllocatePool 4 100 sample_pools with Ok _ s' => s' | _ => sample_pools end.

Lemma sample_allocate : CoreInternalAllocatePool 4 100 sample_pools = Ok 0x1fe018 sample_taken.
Proof. by vm_compute. Qed.

Lemma sample_taken_good : PoolGood sample_taken [buffer_of 4 0x1fe018 100] [].
Proof. exact (wp_ok _ _ _ _ _ _ (CoreInternalAllocatePool_spec _ _ _ _ _ sample_pools_good sample_request) sample_allocate). Qed.

Lemma allocate_pool_exact_witness :
  match CoreInternalAllocatePool 4 100 sample_pools with Ok b _ => b = 0x1fe018 | _ => False end ∧
  match CoreInternalAllocatePool 4 100 sample_pools with
  | Ok b s' => PoolGood s' (buffer_of 4 b 100 :: []) []
  | Err e s' => e = RETURN_OUT_OF_RESOURCES ∧ PoolGood s' [] []
  | Fault _ => False
  end.
Proof. split; [by vm_compute|]. apply (allocate_pool_exact sample_pools [] [] 4 100 sample_pools_good sample_request). Defined.

Lemma free_pool_exact_witness :
  match CoreInternalFreePool 0x1fe018 sample_taken with Ok t s' => t = 4 ∧ Forall (λ p, pool_FreeList p = replicate 12 []) (mPoolHead s') | _ => False end ∧
  match CoreInternalFreePool (rg_base (buffer_of 4 0x1fe018 100)) sample_taken with
  | Ok t s' => t = 4 ∧ PoolGood s' [] []
  | _ => False
  end.
Proof. split; [vm_compute; split; [done|repeat constructor]|]. apply (free_pool_exact sample_taken (buffer_of 4 0x1fe018 100) [] [] sample_taken_good). Defined.

Lemma pool_isolation_witness :
  (8 | 0x1fe018) ∧ 0 < 0x1fe018 ∧ ∃ s', CoreInternalFreePool 0x1fe018 sample_taken = Ok 4 s'.
Proof.
  destruct (pool_isolation sample_pools sample_taken [] [] (buffer_of 4 0x1fe018 100) [] []) as (_ & Hd & Hb & _ & _ & Hf); [apply sample_pools_good|..|done].
  apply (pool_alloc _ _ sample_pools [] [] 4 100); [constructor|apply sample_request|apply sample_allocate].
Defined.

(** The check of Size against MAX_POOL_SIZE does not leave room for the rounding: a request for MAX_POOL_SIZE bytes wraps to a Size of 0,
    and succeeds with a block of 128 bytes; the tail is written before the head of the block. *)
Lemma allocate_pool_wraps :
  match CoreInternalAllocatePool 4 MAX_POOL_SIZE sample_pools with
  | Ok b s' => b = 0x1fe018 ∧ memory s' !! (b - SIZE_OF_POOL_HEAD + OFFSET_OF_Size) = Some 0 ∧ memory s' !! (b - SIZE_OF_POOL_HEAD - 16) = Some POOL_TAIL_SIGNATURE
  | _ => False
  end.
Proof. by vm_compute. Qed.

(** Nor for the pages: 2^64 - 4096 bytes are 2^52 pages, whose size wraps to 0, and an ASSERT fails. *)
Lemma allocate_pool_no_pages : CoreInternalAllocatePool 4 (2 ^ 64 - 4096) sample_pools = Fault AssertFailed.
Proof. by vm_compute. Qed.

(** In a release build the call returns memory that was not allocated: here, that of the entries of the memory map. *)
Lemma allocate_pool_no_pages_release :
  match @CoreInternalAllocatePool platform_release PAGES (@PAGES_PoolPages platform_release max_x64) 4 (2 ^ 64 - 4096) sample_pools with
  | Ok b s' => b = 0x1ff018 ∧ gMemoryMap (pages_state s') = gMemoryMap sample_free ∧ stored_at sample_free 0x1ff040
  | _ => False
  end.
Proof. assert (stored_at sample_free 0x1ff040) by left. by vm_compute. Qed.

(** A block that is freed and has not been taken again is not freed twice: the signature of its head is that of a free block, and
    an ASSERT fails. *)
Lemma free_pool_twice :
  match (b ← CoreInternalAllocatePool 4 100; b' ← CoreInternalAllocatePool 4 100; CoreInternalFreePool b;; CoreInternalFreePool b) sample_pools with
  | Fault f => f = AssertFailed
  | _ => False
  end.
Proof. by vm_compute. Qed.

(** The pool of another type is allocated with its first buffer and freed with its last. *)
Lemma oem_pool_lifecycle :
  match CoreInternalAllocatePool 0x70000001 100 sample_pools with
  | Ok b s1 => map (λ e, (pool_MemoryType e.2, pool_Used e.2)) (mPoolHeadList s1) = [(0x70000001, 144)] ∧
      match CoreInternalFreePool b s1 with
      | Ok t s2 => t = 0x70000001 ∧ mPoolHeadList s2 = [] ∧ map pool_Used (mPoolHead s2) = replicate 16 0
      | _ => False
      end
  | _ => False
  end.
Proof. by vm_compute. Qed.
End Sample.
